(* ===== verification/_CoqProject ===== *)
-Q . S2P
Prelude.v
Utils.v
SubsecondTime.v
ContentionModel.v
MovingAverage.v
QueueModels.v
CacheBlock.v
LruPolicies.v
OtherPolicies.v
FaultInjection.v
CacheSet.v
PolicyKeeps.v
Address.v
CacheModel.v
CacheSlots.v
Directory.v
DirectoryFacts.v
Shmem.v
Network.v
NetworkProps.v
CacheCntlr.v
CacheCntlrFacts.v
Prefetchers.v
Dram.v
CacheNode.v
NodeThreads.v
NodeTwoLevel.v
NodeProps.v
NucaCache.v
Tlb.v
DirectoryCntlr.v
DirectoryCntlrFacts.v
DirectoryProps.v
System.v
Dvfs.v
ThreadManager.v
SyncServer.v
SyncFacts.v
SyncInv.v
SyncFrame.v
SchedulerStatic.v
SyncProps.v
SyncSpec.v
BarrierLiveness.v
SchedulerPinned.v
PinnedFacts.v
PinnedProps.v
PinnedRuns.v
PinnedSpec.v
OpenPolicies.v
SchedulerOpen.v
OpenQueue.v
SyncRespect.v
OpenBase.v
OpenInv.v
OpenRuns.v
OpenSteps.v
OpenDvfs.v
OpenSpec.v
BranchPredictors.v
CircularQueue.v
Dependencies.v
