(* ===== verification/Prelude.v ===== *)
(** * A verification of the HotSniper simulator

    HotSniper simulates a multi-core processor: its caches and directories, its
    memory and network, the threads that run on it with their synchronisation, and
    the schedulers that place the threads and set the frequencies of the cores.
    This library is a shallow embedding of the parts of the simulator that decide
    what happens, translated from the C++ sources under src/common, with the
    theorems that say what they guarantee.

    ** How the code is represented

    - Fallible code is in the error monad [res] of this file.  [ErrLog] is
      [LOG_PRINT_ERROR] or a failing [LOG_ASSERT_ERROR], [ErrAssert] a failing
      [assert], [ErrUndefined] undefined behaviour of C++ (an access outside a
      container, a null pointer, an uninitialised variable), [ErrDiverge] a loop
      that does not end, [ErrFuel] fuel that ran out.
    - Code that changes objects is in the state monad [st]; an object is a record
      with the names of its members, a pointer to a shared object an index or a
      key of a finite map.
    - Integers are [Z].  [u8], [u32], [u64] and [s64] write out the wrap-around
      where it can happen.  Simulated time is a 64-bit number of femtoseconds.
    - Virtual methods are type classes: [Policy] (replacement policies),
      [PrefetcherOps], [DramOps], the NUCA cache of the directory controller,
      [Scheduler].  The theorems about a client assume the laws of the interface
      ([PolicyOk], [PrefetcherOk], [SchedulerOk], ...), which the models of the
      implementations discharge.
    - Values of the configuration, of the host, of floating-point computations and
      of libraries that are not part of the sources are arguments.

    ** The parts and their files

    Basics.  [Utils]: misc/utils.cc, rng.h, random.h.  [SubsecondTime]:
    misc/subsecond_time.h.  [MovingAverage]: misc/modulo_num, moving_average.h.
    [CircularQueue]: misc/circular_queue.h.

    Caches (core/memory_subsystem/cache).  [CacheBlock] has the lines, [LruPolicies]
    and [OtherPolicies] the replacement policies ([PolicyKeeps]: with lines in
    transit), [CacheSet] a set over any policy, [Address] the decomposition of
    addresses and their home nodes, [CacheModel] the class Cache and its refinement
    of a finite map, [CacheSlots] its physical slots, [FaultInjection] the faults
    of src/common/fault_injection.

    Memory hierarchy (parametric_dram_directory_msi, directory_schemes,
    pr_l1_pr_l2_dram_directory_msi, dram).  [CacheCntlr] has the cache controllers
    of the cores that share a last-level cache, [CacheNode] their construction,
    [NodeThreads] the interleaving of user and network threads; the proofs are in
    [CacheCntlrFacts], [NodeTwoLevel] and [NodeProps].  [Shmem] has the messages
    and the request queues, [Directory] the tag directory, [DirectoryCntlr] its
    controller, with [DirectoryFacts], [DirectoryCntlrFacts] and [DirectoryProps].
    [NucaCache], [Tlb], [Prefetchers] and [Dram] are the components of these names.

    Contention and network.  [ContentionModel] and [QueueModels]: the models of
    shared resources in performance_model.  [Network], [NetworkProps]:
    src/common/network.

    Core.  [BranchPredictors]: performance_model/branch_predictors.
    [Dependencies]: the trackers of register and memory dependencies of
    performance_models/micro_op, over [CircularQueue].

    Threads and synchronisation (src/common/system).  [System] is the state that
    the services share, [ThreadManager] stalls, resumes and moves threads with the
    callbacks of the hooks and the barrier server, [SyncServer] has the mutexes,
    condition variables, barriers, futexes and sleeping.  [SyncFacts], [SyncInv],
    [SyncFrame] and [SyncRespect] carry the proofs, [SyncProps], [SyncSpec] and
    [BarrierLiveness] the properties.

    Schedulers (src/common/scheduler).  [SchedulerStatic]; [SchedulerPinned] for
    the dynamic, pinned and roaming ones, with [PinnedFacts], [PinnedProps],
    [PinnedRuns] and [PinnedSpec]; [Dvfs] for the clock domains; [OpenPolicies]
    and [SchedulerOpen] for the open scheduler with its mapping, migration and DVFS
    policies, with [OpenQueue], [OpenBase], [OpenInv], [OpenRuns], [OpenSteps],
    [OpenDvfs] and [OpenSpec].

    A simulated access goes from a core through the TLB and the cache controllers
    of its node to the directory controller of its home, which talks to the other
    nodes, the NUCA cache and the DRAM controller.  A simulated system call goes
    to the synchronisation services, which stall and resume threads through the
    thread manager; its hooks call the scheduler and the barrier server.  Each of
    the two halves is composed in the library; the network between the nodes is
    modelled as a component of its own.

    ** What is proved

    - Coherence: in every run of a directory controller the state of an entry, its
      sharers and its owner fit together, and requests go to exactly the holders
      of a line ([DirectoryProps]); in every run of a node the last-level cache
      includes the first-level caches, an access never stops on an assertion about
      the states of lines, and a write miss leaves a single holder ([NodeProps]).
    - Caches: a cache refines a finite map from tags to lines, whatever the policy;
      every policy returns a way of the set; LRU evicts, in any history of a set,
      the line whose last use is longest ago, and the others what they are named
      after; address decomposition is correct and the home lookup injective; every
      run of a NUCA cache is one of a map, and a TLB is a set of pages.
    - Resources: the contention model never admits more than its capacity; the
      history list schedules packets without overlap at the first time that it
      knows to be free; a
      packet reaches its receiver in as many hops as the distance, and the
      hop-by-hop mesh without queues is the hop counter.
    - Core: the trackers give each micro-operation exactly the dependencies it has
      to wait for; the circular queue refines a bounded list; the Pentium M
      predictor never leaves its tables and its loop predictor learns a loop in
      one round.
    - Synchronisation: waiting threads are registered with the service that wakes
      them, a thread that waits for a mutex continues as its owner, wake-ups are
      first come first served, and a system with a pending time-out makes progress.
    - Schedulers: the tables of the pinned schedulers agree with the machine and
      rescheduling serves the thread that has waited longest; the open scheduler
      keeps its tasks, cores and frequencies well formed.
    - Errors: some theorems show runs in which the code does not do what it means
      to: two holders after the read of a modified line, a try-lock of the owner
      that waits for itself, the livelock of a disabled barrier, broadcasts that
      circulate for ever, a DRAM cache that dereferences a null pointer.

    ** Bounds and fuel

    Fuel is supplied by the callers from the state and the theorems show that it
    suffices: the depth of the cache hierarchy in [CacheCntlr], the length of the
    queue of an address in [DirectoryCntlr], the number of cores for nested
    reschedules in [SchedulerPinned], the size of the queue in [Dependencies], the
    number of nodes for the forwarding loop of [Network].  Where a loop of the
    code can run for ever the model returns [ErrDiverge] or runs out of fuel that
    exceeds the number of states the loop can visit.  The theorems about nodes are
    for two levels of caches, of any sizes and any number of cores; those about
    the open scheduler for the FIFO queue and mapping policies that keep their
    contract, those about the timing of the mesh for
    networks without queue models; those about dependencies for a window of at
    most 1024 operations, the size of the queue of stores.  The refinement of a
    cache and the theorems about victims are for sets without lines in transit
    (SHARED_UPGRADING) and the configurations of [cfg_ok] and [hash_ok]; the runs
    of nodes in [NodeProps] have such lines.  The functional theorems about the
    services in [SyncSpec] and the liveness of [BarrierLiveness] are for schedulers
    whose callbacks do nothing, such as the static one; the invariants in
    [SyncProps] are for all of them, and for runs in which no thread joins one that
    has not started.

    ** Not modelled

    - The timing of the cores (rob_performance_model, interval_performance_model,
      oneipc, core_model) and the decoding of instructions: they compute cycles
      from tables of latencies and from the output of external disassemblers.
    - Floating-point and thermal computations (thermalModel, performance_counters,
      hotspot, sampling): the components that use their results take them as
      arguments.
    - I/O and the host: configuration files, traces (sift, trace_frontend),
      scripting, statistics, logging, transport, locks, memory pools, front ends
      and tools.  The steps of the models are atomic where the code holds a lock.
    - Statistics that nothing reads back, the auxiliary tag directories, cheetah
      and the tracers: they observe a simulation and do not influence it.
    - The alternative memory manager fast_nehalem, and the sequential and the
      big-small scheduler, which are examples beside the modelled ones.
    - The cache controllers, the directory and the network are not composed into
      one system: the directory's theorems hold for any messages of its callers. *)
From Stdlib Require Export ZArith Lia.
From stdpp Require Export base tactics numbers strings gmap fin_maps list.

(** * Errors

    The simulator stops on [LOG_PRINT_ERROR], on a failing [LOG_ASSERT_ERROR]
    and on a failing [assert].  Undefined behaviour of C++ (an access outside
    an array, a null dereference, a division by zero, the read of a member
    that no constructor initialised) is an error of its own, so that its
    absence is provable.  [ErrDiverge] stands for a loop that does not end, and
    [ErrFuel] is the answer of a fuelled definition that ran out of fuel. *)
Inductive err : Type :=
| ErrLog (msg : string)
| ErrAssert
| ErrUndefined
| ErrDiverge
| ErrFuel.

#[export] Instance err_eq_dec : EqDecision err.
Proof. solve_decision. Defined.

Inductive res (A : Type) : Type :=
| Ok (a : A)
| Err (e : err).
Arguments Ok {A} a.
Arguments Err {A} e.

#[export] Instance res_eq_dec {A} `{EqDecision A} : EqDecision (res A).
Proof. solve_decision. Defined.

Definition res_bind {A B} (x : res A) (f : A → res B) : res B :=
  match x with Ok a => f a | Err e => Err e end.

Definition is_Ok {A} (x : res A) : Prop := ∃ a, x = Ok a.

(** [LOG_ASSERT_ERROR(cond, msg)] and [assert(cond)]. *)
Definition log_assert (b : bool) (msg : string) : res unit :=
  if b then Ok tt else Err (ErrLog msg).
Definition c_assert (b : bool) : res unit :=
  if b then Ok tt else Err ErrAssert.

(** Array reads and writes: outside the array the behaviour is undefined. *)
Definition rd {A} (l : list A) (i : nat) : res A :=
  match l !! i with Some x => Ok x | None => Err ErrUndefined end.
Definition wr {A} (l : list A) (i : nat) (x : A) : res (list A) :=
  match l !! i with Some _ => Ok (<[i := x]> l) | None => Err ErrUndefined end.

Declare Scope sim_scope.
Delimit Scope sim_scope with sim.
Notation "'let?' x ':=' e 'in' k" := (res_bind e (fun x => k))
  (at level 200, x pattern, e at level 100, k at level 200,
   format "'[v' 'let?'  x  ':='  e  'in' '/' k ']'") : sim_scope.
Notation "e ';?' k" := (res_bind e (fun _ => k))
  (at level 199, right associativity) : sim_scope.
Open Scope sim_scope.

Lemma res_bind_Ok {A B} (x : res A) (f : A → res B) b :
  res_bind x f = Ok b ↔ ∃ a, x = Ok a ∧ f a = Ok b.
Proof. destruct x; simpl; naive_solver. Qed.

Lemma rd_Ok {A} (l : list A) i x : rd l i = Ok x ↔ l !! i = Some x.
Proof. unfold rd. destruct (l !! i); naive_solver. Qed.

Lemma rd_lt {A} (l : list A) i : i < length l → ∃ x, l !! i = Some x ∧ rd l i = Ok x.
Proof. intros [x Hx]%lookup_lt_is_Some. exists x. by rewrite rd_Ok. Qed.

Lemma wr_Ok {A} (l l' : list A) i x :
  wr l i x = Ok l' ↔ i < length l ∧ l' = <[i := x]> l.
Proof. unfold wr. rewrite <- lookup_lt_is_Some. destruct (l !! i) eqn:E; naive_solver. Qed.

Lemma wr_lt {A} (l : list A) i x : i < length l → wr l i x = Ok (<[i := x]> l).
Proof. intros. by apply wr_Ok. Qed.

(** Case analysis on the steps of a computation that succeeded. *)
Ltac inv_Ok :=
  repeat match goal with
  | H : res_bind ?x _ = Ok _ |- _ =>
      let E := fresh "E" in destruct x eqn:E; simpl in H; [|discriminate H]
  | H : Ok _ = Ok _ |- _ => injection H as H; simplify_eq
  | H : Err _ = Ok _ |- _ => discriminate H
  | H : (if ?b then _ else _) = Ok _ |- _ =>
      let E := fresh "E" in destruct b eqn:E; simpl in H
  | H : match ?x with _ => _ end = Ok _ |- _ =>
      let E := fresh "E" in destruct x eqn:E; simpl in H
  end; simpl in *; simplify_eq.

(** ** Computations on a state

    An operation on an object of class [S] that returns an [A]. *)
Definition st (S A : Type) : Type := S → res (A * S).
Definition ret {S A} (a : A) : st S A := λ s, Ok (a, s).
Definition st_bind {S A B} (m : st S A) (f : A → st S B) : st S B :=
  λ s, let? r := m s in f r.1 r.2.
Definition lift {S A} (x : res A) : st S A := λ s, let? a := x in Ok (a, s).
Definition gets {S A} (f : S → A) : st S A := λ s, Ok (f s, s).
Definition modify {S} (f : S → S) : st S unit := λ s, Ok (tt, f s).
Definition fail {S A} (e : err) : st S A := λ _, Err e.
(** An operation on a member of the object. *)
Definition zoom {S T A} (get : S → T) (put : T → S → S) (m : st T A) : st S A :=
  λ s, let? r := m (get s) in Ok (r.1, put r.2 s).
Definition forM_ {S A} (l : list A) (f : A → st S unit) : st S unit :=
  foldr (λ a k, st_bind (f a) (λ _, k)) (ret tt) l.

Notation "'let!' x ':=' e 'in' k" := (st_bind e (fun x => k))
  (at level 200, x pattern, e at level 100, k at level 200,
   format "'[v' 'let!'  x  ':='  e  'in' '/' k ']'") : sim_scope.
Notation "e ';!' k" := (st_bind e (fun _ => k))
  (at level 199, right associativity) : sim_scope.

(** Triples: a run from a state of the precondition that returns ends in the
    postcondition, and a run that stops does not stop for want of fuel. *)
Definition triple {S A} (Pre : S → Prop) (m : st S A) (Post : A → S → Prop) : Prop :=
  ∀ s, Pre s → match m s with Ok (a, s') => Post a s' | Err e => e ≠ ErrFuel end.

Section Triples.
Context {S A B : Type}.
Implicit Types (Pre : S → Prop) (Q : A → S → Prop) (R : B → S → Prop).

Lemma triple_ret Pre Q (a : A) : (∀ s, Pre s → Q a s) → triple Pre (ret a) Q.
Proof. intros HP s Hs. by apply HP. Qed.
Lemma triple_bind Pre Q R (m : st S A) (f : A → st S B) :
  triple Pre m Q → (∀ a, triple (Q a) (f a) R) → triple Pre (st_bind m f) R.
Proof.
  intros Hm Hf s Hs. unfold st_bind. specialize (Hm s Hs).
  destruct (m s) as [[a s']|e]; simpl; [by apply Hf|done].
Qed.
Lemma triple_conseq Pre Pre' Q Q' (m : st S A) :
  triple Pre' m Q' → (∀ s, Pre s → Pre' s) → (∀ a s, Q' a s → Q a s) → triple Pre m Q.
Proof.
  intros Hm HP HQ s Hs. specialize (Hm s (HP s Hs)). destruct (m s) as [[a s']|e]; auto.
Qed.
Lemma triple_lift Pre Q (x : res A) :
  x ≠ Err ErrFuel → (∀ s a, Pre s → x = Ok a → Q a s) → triple Pre (lift x) Q.
Proof.
  intros Hx HQ s Hs. unfold lift. destruct x as [a|e]; simpl; [by apply HQ|congruence].
Qed.
Lemma triple_gets Pre Q (f : S → A) : (∀ s, Pre s → Q (f s) s) → triple Pre (gets f) Q.
Proof. intros HP s Hs. by apply HP. Qed.
Lemma triple_modify Pre (Q : unit → S → Prop) (f : S → S) :
  (∀ s, Pre s → Q tt (f s)) → triple Pre (modify f) Q.
Proof. intros HP s Hs. by apply HP. Qed.
Lemma triple_fail Pre Q e : e ≠ ErrFuel → triple Pre (fail e : st S A) Q.
Proof. intros He s Hs. done. Qed.
Lemma triple_then_ret Pre (b : B) (R : B → S → Prop) (m : st S A) :
  triple Pre m (λ _, R b) → triple Pre (st_bind m (λ _, ret b)) R.
Proof. intros Hm. eapply triple_bind; [exact Hm|]. intros a s Hs. exact Hs. Qed.
Lemma triple_false (m : st S A) Q : triple (λ _, False) m Q.
Proof. by intros s []. Qed.
Lemma triple_pure Pre (φ : Prop) Q (m : st S A) :
  (φ → triple Pre m Q) → triple (λ s, φ ∧ Pre s) m Q.
Proof. intros Hm s [Hφ Hs]. by apply Hm. Qed.
End Triples.

(** An operation on a member. *)
Lemma triple_zoom {S T A} (get : S → T) (put : T → S → S) (m : st T A)
    (P : T → Prop) (Q : A → T → Prop) (Pre : S → Prop) (Post : A → S → Prop) :
  triple P m Q → (∀ s, Pre s → P (get s)) → (∀ s t a, Pre s → Q a t → Post a (put t s)) →
  triple Pre (zoom get put m) Post.
Proof.
  intros Hm HP HQ s Hs. unfold zoom. specialize (Hm (get s) (HP s Hs)).
  destruct (m (get s)) as [[a t]|e]; simpl; [by apply HQ|done].
Qed.

(** A run from one state that returns. *)
Definition runs {S A} (m : st S A) (s : S) (Q : A → S → Prop) : Prop :=
  match m s with Ok (a, s') => Q a s' | Err _ => False end.

Lemma runs_ret {S A} (a : A) (s : S) Q : Q a s → runs (ret a) s Q.
Proof. done. Qed.
Lemma runs_bind {S A B} (m : st S A) (f : A → st S B) s Q R :
  runs m s Q → (∀ a s', Q a s' → runs (f a) s' R) → runs (st_bind m f) s R.
Proof.
  intros Hm Hf. unfold runs, st_bind in *. destruct (m s) as [[a s']|e]; simpl; [|done].
  by apply Hf.
Qed.
Lemma runs_gets {S A B} (g : S → A) (f : A → st S B) s R :
  runs (f (g s)) s R → runs (st_bind (gets g) f) s R.
Proof. done. Qed.
Lemma runs_modify {S B} (g : S → S) (f : unit → st S B) s R :
  runs (f tt) (g s) R → runs (st_bind (modify g) f) s R.
Proof. done. Qed.
Lemma runs_lift {S A B} (x : res A) a (f : A → st S B) s R :
  x = Ok a → runs (f a) s R → runs (st_bind (lift x) f) s R.
Proof. by intros ->. Qed.
Lemma runs_conseq {S A} (m : st S A) s (Q Q' : A → S → Prop) :
  runs m s Q' → (∀ a s', Q' a s' → Q a s') → runs m s Q.
Proof. unfold runs. destruct (m s) as [[a s']|e]; auto. Qed.
Lemma runs_triple {S A} (Pre : S → Prop) (m : st S A) Q :
  (∀ s, Pre s → runs m s Q) → triple Pre m Q.
Proof. intros Hm s Hs. specialize (Hm s Hs). unfold runs in Hm. by destruct (m s) as [[a s']|e]. Qed.
Lemma runs_elim {S A} (m : st S A) s Q :
  runs m s Q → ∃ a s', m s = Ok (a, s') ∧ Q a s'.
Proof. unfold runs. destruct (m s) as [[a s']|e]; [eauto|done]. Qed.

(** The precondition may fix the initial state. *)
Lemma triple_at {S A} (Pre : S → Prop) (m : st S A) Post :
  (∀ s0, Pre s0 → triple (λ s, s = s0) m Post) → triple Pre m Post.
Proof. intros Hm s Hs. by apply (Hm s Hs). Qed.

Lemma triple_ex {S A X} (P : X → S → Prop) (m : st S A) R :
  (∀ x, triple (P x) m R) → triple (λ s, ∃ x, P x s) m R.
Proof. intros Hm s [x Hx]. by apply (Hm x). Qed.

Lemma triple_forM {S A} (I : S → Prop) (l : list A) (f : A → st S unit) :
  (∀ a, triple I (f a) (λ _, I)) → triple I (forM_ l f) (λ _, I).
Proof.
  intros Hf. induction l as [|a l IH]; simpl; [by apply triple_ret|].
  eapply triple_bind; [apply Hf|]. intros []. apply IH.
Qed.

(** Partial correctness: what holds when a run returns. *)
Definition hoare {S A} (Pre : S → Prop) (m : st S A) (Post : A → S → Prop) : Prop :=
  ∀ s a s', Pre s → m s = Ok (a, s') → Post a s'.

Lemma hoare_ret {S A} (Pre : S → Prop) (a : A) (Q : A → S → Prop) :
  (∀ s, Pre s → Q a s) → hoare Pre (ret a) Q.
Proof. intros HP s a' s' Hs [= <- <-]. by apply HP. Qed.
Lemma hoare_bind {S A B} (Pre : S → Prop) (m : st S A) (f : A → st S B) Q R :
  hoare Pre m Q → (∀ a, hoare (Q a) (f a) R) → hoare Pre (st_bind m f) R.
Proof.
  intros Hm Hf s b s' Hs He. unfold st_bind in He. apply res_bind_Ok in He as ([a s1] & E1 & E2).
  by eapply Hf; [eapply Hm|].
Qed.
Lemma hoare_gets {S A B} (Pre : S → Prop) (g : S → A) (f : A → st S B) R :
  (∀ a, hoare (λ s, Pre s ∧ g s = a) (f a) R) → hoare Pre (st_bind (gets g) f) R.
Proof. intros Hf s b s' Hs He. by eapply (Hf (g s)). Qed.
Lemma hoare_lift {S A B} (Pre : S → Prop) (x : res A) (f : A → st S B) R :
  (∀ a, x = Ok a → hoare Pre (f a) R) → hoare Pre (st_bind (lift x) f) R.
Proof.
  intros Hf s b s' Hs He. unfold st_bind, lift in He. destruct x as [a|e]; [|done].
  by apply (Hf a eq_refl s b s').
Qed.
Lemma hoare_lift_end {S A} (Pre : S → Prop) (x : res A) R :
  (∀ s a, x = Ok a → Pre s → R a s) → hoare Pre (lift x) R.
Proof.
  intros Hf s b s' Hs He. unfold lift in He. destruct x as [a|e]; [|done].
  injection He as <- <-. by apply Hf.
Qed.
Lemma hoare_modify {S} (Pre : S → Prop) (g : S → S) (R : unit → S → Prop) :
  (∀ s, Pre s → R tt (g s)) → hoare Pre (modify g) R.
Proof. intros Hf s [] s' Hs [= <-]. by apply Hf. Qed.
Lemma hoare_fail {S A} (Pre : S → Prop) e (R : A → S → Prop) : hoare Pre (fail e) R.
Proof. by intros s a s' _ He. Qed.
Lemma hoare_conseq {S A} (Pre Pre' : S → Prop) (m : st S A) (Q Q' : A → S → Prop) :
  hoare Pre' m Q' → (∀ s, Pre s → Pre' s) → (∀ a s, Q' a s → Q a s) → hoare Pre m Q.
Proof. intros Hm HP HQ s a s' Hs He. eapply HQ, Hm; eauto. Qed.
Lemma hoare_zoom {S T A} (get : S → T) (put : T → S → S) (m : st T A)
    (Pre : S → Prop) (R : A → S → Prop) :
  (∀ s a t, Pre s → m (get s) = Ok (a, t) → R a (put t s)) → hoare Pre (zoom get put m) R.
Proof.
  intros Hm s a s' Hs He. unfold zoom in He. apply res_bind_Ok in He as ([a1 t] & E1 & [= <- <-]).
  by apply Hm.
Qed.
Lemma hoare_forM {S A} (I : S → Prop) (l : list A) (f : A → st S unit) :
  (∀ a, a ∈ l → hoare I (f a) (λ _, I)) → hoare I (forM_ l f) (λ _, I).
Proof.
  induction l as [|a l IH]; intros Hf; [by apply hoare_ret|].
  eapply hoare_bind; [apply Hf; left|]. intros []. apply IH. intros. apply Hf. by right.
Qed.
(** A relation between the states before and after. *)
Definition does {S A} (R : S → S → Prop) (m : st S A) : Prop :=
  ∀ s a s', m s = Ok (a, s') → R s s'.
Lemma does_hoare {S A} (R : S → S → Prop) (m : st S A) (P Q : S → Prop) :
  does R m → (∀ s s', P s → R s s' → Q s') → hoare P m (λ _, Q).
Proof. intros Hm HP s a s' Hs He. eauto. Qed.
Lemma hoare_does {S A} (R : S → S → Prop) (m : st S A) :
  (∀ s0, hoare (λ s, s = s0) m (λ _, R s0)) → does R m.
Proof. intros Hm s a s' He. by eapply Hm. Qed.
Section Does.
Context {S : Type} (R : S → S → Prop) `{!PreOrder R}.
Lemma does_ret {A} (a : A) : does R (ret a).
Proof. by intros s a' s' [= <- <-]. Qed.
Lemma does_bind {A B} (m : st S A) (f : A → st S B) :
  does R m → (∀ a, does R (f a)) → does R (st_bind m f).
Proof.
  intros Hm Hf s b s' He. unfold st_bind in He. apply res_bind_Ok in He as ([a s1] & E1 & E2).
  etrans; [by eapply Hm|by eapply Hf].
Qed.
Lemma does_gets {A} (g : S → A) : does R (gets g).
Proof. by intros s a' s' [= <- <-]. Qed.
Lemma does_lift {A} (x : res A) : does R (lift x).
Proof. intros s a' s' He. unfold lift in He. destruct x; [|done]. by injection He as <- <-. Qed.
Lemma does_fail {A} e : does R (fail e : st S A).
Proof. by intros s a s' He. Qed.
Lemma does_modify g : (∀ s, R s (g s)) → does R (modify g).
Proof. by intros Hg s [] s' [= <-]. Qed.
Lemma does_forM {A} (l : list A) (f : A → st S unit) : (∀ a, does R (f a)) → does R (forM_ l f).
Proof.
  intros Hf. induction l as [|a l IH]; [apply does_ret|].
  apply (does_bind (f a) (λ _, forM_ l f)); [apply Hf|]. intros []. apply IH.
Qed.
End Does.
Lemma does_zoom {S T A} (R : S → S → Prop) (get : S → T) (put : T → S → S) (m : st T A) :
  (∀ s a t, m (get s) = Ok (a, t) → R s (put t s)) → does R (zoom get put m).
Proof.
  intros Hm s a s' He. unfold zoom in He. apply res_bind_Ok in He as ([a1 t] & E1 & [= <- <-]).
  by eapply Hm.
Qed.

(** Inversion of a run that returned. *)
Lemma st_bind_Ok {S A B} (m : st S A) (f : A → st S B) s r :
  st_bind m f s = Ok r → ∃ a s1, m s = Ok (a, s1) ∧ f a s1 = Ok r.
Proof. unfold st_bind. intros ([a s1] & E1 & E2)%res_bind_Ok. eauto. Qed.
Lemma lift_Ok {S A} (x : res A) (s : S) a s' : lift x s = Ok (a, s') → x = Ok a ∧ s' = s.
Proof. unfold lift. destruct x; [|done]. naive_solver. Qed.
Lemma zoom_Ok {S T A} (get : S → T) (put : T → S → S) (m : st T A) s a s' :
  zoom get put m s = Ok (a, s') → ∃ t, m (get s) = Ok (a, t) ∧ s' = put t s.
Proof. unfold zoom. intros ([a1 t] & E & [= <- <-])%res_bind_Ok. eauto. Qed.
Lemma ret_Ok {S A} (a b : A) (s s' : S) : ret a s = Ok (b, s') → b = a ∧ s' = s.
Proof. by intros [= <- <-]. Qed.
Ltac inv_st :=
  repeat match goal with
  | H : st_bind (gets _) _ ?s = Ok _ |- _ =>
      apply st_bind_Ok in H; let E := fresh "E" in destruct H as (? & ? & E & H);
      injection E as <- <-; cbn beta in H
  | H : st_bind (modify _) _ ?s = Ok _ |- _ =>
      apply st_bind_Ok in H; let E := fresh "E" in destruct H as ([] & ? & E & H);
      injection E as <-; cbn beta in H
  | H : st_bind (lift _) _ ?s = Ok _ |- _ =>
      apply st_bind_Ok in H; let E := fresh "E" in destruct H as (? & ? & E & H);
      apply lift_Ok in E as [E ->]; cbn beta in H
  | H : st_bind _ _ ?s = Ok _ |- _ =>
      apply st_bind_Ok in H; let E := fresh "E" in destruct H as (? & ? & E & H); cbn beta in H
  | H : gets _ _ = Ok _ |- _ => injection H as <- <-
  | H : ret _ _ = Ok _ |- _ => let E := fresh in apply ret_Ok in H as [E ->]; try subst
  | H : modify _ _ = Ok (?u, _) |- _ => destruct u; injection H as <-
  | H : lift _ _ = Ok _ |- _ => apply lift_Ok in H as [H ->]
  | H : fail _ _ = Ok _ |- _ => discriminate H
  end.

Lemma log_assert_fuel b msg : log_assert b msg ≠ Err ErrFuel.
Proof. by destruct b. Qed.
Lemma c_assert_fuel b : c_assert b ≠ Err ErrFuel.
Proof. by destruct b. Qed.
Lemma rd_fuel {A} (l : list A) i : rd l i ≠ Err ErrFuel.
Proof. unfold rd. by destruct (l !! i). Qed.
Lemma wr_fuel {A} (l : list A) i x : wr l i x ≠ Err ErrFuel.
Proof. unfold wr. by destruct (l !! i). Qed.
Lemma bind_fuel {A B} (x : res A) (f : A → res B) :
  x ≠ Err ErrFuel → (∀ a, f a ≠ Err ErrFuel) → res_bind x f ≠ Err ErrFuel.
Proof. intros Hx Hf. destruct x as [a|e]; simpl; [apply Hf|]. intros [= ->]. by apply Hx. Qed.
Lemma Ok_fuel {A} (a : A) : Ok a ≠ Err ErrFuel.
Proof. done. Qed.

(** * Machine integers

    A C++ integer is a [Z]; the operations that can leave its range wrap. *)
Definition u8 (z : Z) : Z := (z mod 2 ^ 8)%Z.
Definition u16 (z : Z) : Z := (z mod 2 ^ 16)%Z.
Definition u32 (z : Z) : Z := (z mod 2 ^ 32)%Z.
Definition u64 (z : Z) : Z := (z mod 2 ^ 64)%Z.
Definition s32 (z : Z) : Z := ((z + 2 ^ 31) mod 2 ^ 32 - 2 ^ 31)%Z.
Definition s64 (z : Z) : Z := ((z + 2 ^ 63) mod 2 ^ 64 - 2 ^ 63)%Z.

Definition in_u8 (z : Z) : Prop := (0 ≤ z < 2 ^ 8)%Z.
Definition in_u32 (z : Z) : Prop := (0 ≤ z < 2 ^ 32)%Z.
Definition in_u64 (z : Z) : Prop := (0 ≤ z < 2 ^ 64)%Z.

Lemma u8_range z : in_u8 (u8 z). Proof. apply Z.mod_pos_bound. lia. Qed.
Lemma u32_range z : in_u32 (u32 z). Proof. apply Z.mod_pos_bound. lia. Qed.
Lemma u64_range z : in_u64 (u64 z). Proof. apply Z.mod_pos_bound. lia. Qed.
Lemma u8_id z : in_u8 z → u8 z = z. Proof. apply Z.mod_small. Qed.
Lemma u32_id z : in_u32 z → u32 z = z. Proof. apply Z.mod_small. Qed.
Lemma u64_id z : in_u64 z → u64 z = z. Proof. apply Z.mod_small. Qed.

Create HintDb sim.
#[export] Hint Resolve log_assert_fuel c_assert_fuel rd_fuel wr_fuel bind_fuel Ok_fuel : sim.
#[export] Hint Resolve u8_range u32_range u64_range : sim.

(** ** Bits *)

(** [a] adds no bit to [b]. *)
Lemma land_lnot_eqb a b : (Z.land a (Z.lnot b) =? 0)%Z = (Z.lor b a =? b)%Z.
Proof.
  apply Bool.eq_iff_eq_true. rewrite !Z.eqb_eq. split; intros H; apply Z.bits_inj'; intros i Hi;
    apply (f_equal (λ z, Z.testbit z i)) in H;
    rewrite ?Z.bits_0, ?Z.land_spec, ?Z.lnot_spec, ?Z.lor_spec in * by done;
    by destruct (Z.testbit a i), (Z.testbit b i).
Qed.

Lemma lor_lt_pow2 a b k :
  (0 ≤ k → 0 ≤ a < 2 ^ k → 0 ≤ b < 2 ^ k → 0 ≤ Z.lor a b < 2 ^ k)%Z.
Proof.
  intros Hk Ha Hb. split; [apply Z.lor_nonneg; lia|].
  destruct (decide (k = 0)%Z) as [->|]; [by replace a with 0%Z by lia; replace b with 0%Z by lia|].
  destruct (decide (Z.lor a b = 0)%Z) as [->|]; [lia|].
  apply Z.log2_lt_pow2; [pose proof (proj2 (Z.lor_nonneg a b)); lia|].
  rewrite Z.log2_lor by lia.
  apply Z.max_lub_lt; (destruct (decide (a = 0)%Z) as [->|], (decide (b = 0)%Z) as [->|];
    simpl; first [lia | apply Z.log2_lt_pow2; lia]).
Qed.

Lemma in_u8_lor a b : in_u8 a → in_u8 b → in_u8 (Z.lor a b).
Proof. apply lor_lt_pow2. lia. Qed.

Lemma land_le_r a b : (0 ≤ b → Z.land a b ≤ b)%Z.
Proof.
  intros Hb. assert (Hd : Z.ldiff (Z.land a b) b = 0%Z).
  { apply Z.bits_inj'. intros i Hi. rewrite Z.ldiff_spec, Z.land_spec, Z.bits_0.
    by destruct (Z.testbit a i), (Z.testbit b i). }
  apply Z.sub_nocarry_ldiff in Hd. pose proof (proj2 (Z.ldiff_nonneg b (Z.land a b))). lia.
Qed.

(** ** Slices of lists *)

Lemma inserts_slice {A} (d b : list A) pos :
  pos + length b ≤ length d → take (length b) (drop pos (list_inserts pos b d)) = b.
Proof.
  intros Hle. apply list_eq. intros j. destruct (decide (j < length b)) as [Hj|Hj].
  - rewrite lookup_take_lt, lookup_drop by done.
    rewrite list_lookup_inserts by lia. f_equal. lia.
  - rewrite lookup_take_ge by lia. symmetry. apply lookup_ge_None. lia.
Qed.

Lemma inserts_slice_other {A} (d b : list A) pos pos' n :
  pos' + n ≤ pos ∨ pos + length b ≤ pos' →
  take n (drop pos' (list_inserts pos b d)) = take n (drop pos' d).
Proof.
  intros Hd. apply list_eq. intros j. destruct (decide (j < n)) as [Hj|Hj].
  - rewrite !lookup_take_lt, !lookup_drop by done.
    destruct Hd; [apply list_lookup_inserts_lt; lia|apply list_lookup_inserts_ge; lia].
  - by rewrite !lookup_take_ge by lia.
Qed.
