(* ===== verification/Utils.v ===== *)
(** Integer utilities of src/common/misc: [utils.cc] (power-of-two test,
    logarithms, population count), [rng.h] and [random.h] (the two linear
    congruential generators).  The theorems relate each bit-twiddling routine
    to the arithmetic function it stands for. *)
From S2P Require Import Prelude.
Local Open Scope Z_scope.

(** ** utils.cc *)

Definition isPower2 (n : Z) : bool := Z.land n (u32 (n - 1)) =? 0.

(** One line [if (n & mask) { p += k; n >>= k; }] of [floorLog2]. *)
Definition log2_step (mask k : Z) (pn : Z * Z) : Z * Z :=
  let '(p, n) := pn in
  if Z.land n mask =? 0 then (p, n) else (p + k, Z.shiftr n k).

Definition floorLog2 (n : Z) : Z :=
  if n =? 0 then -1 else
  let s := (0, n) in
  let s := log2_step 0xffff0000 16 s in
  let s := log2_step 0x0000ff00 8 s in
  let s := log2_step 0x000000f0 4 s in
  let s := log2_step 0x0000000c 2 s in
  let '(p, n) := s in
  if Z.land n 0x00000002 =? 0 then p else p + 1.

Definition ceilLog2 (n : Z) : Z := floorLog2 (u32 (n - 1)) + 1.

(** [for (result = 1; n &= n - 1; ++result);] *)
Fixpoint countBits_loop (fuel : nat) (n result : Z) : res Z :=
  match fuel with
  | O => Err ErrFuel
  | S fuel =>
      let n := Z.land n (u64 (n - 1)) in
      if n =? 0 then Ok result else countBits_loop fuel n (u64 (result + 1))
  end.

(** Each iteration clears a bit of a 64-bit word: 64 units of fuel suffice. *)
Definition countBits (n : Z) : res Z :=
  if n =? 0 then Ok 0 else countBits_loop 64 n 1.

(** ** rng.h *)

Definition RNG_A : Z := 0x5DEECE66D.
Definition RNG_C : Z := 0xB.
Definition RNG_M : Z := Z.shiftl 1 48 - 1.

(** [rng_next] updates the state in place and returns its high bits. *)
Definition rng_next (state : Z) : Z * Z :=
  let state := Z.land (u64 (RNG_A * state + RNG_C)) RNG_M in
  (Z.shiftr state 16, state).

Definition rng_seed (seed : Z) : Z := u64 (u64 (Z.shiftl seed 16) + 0x330E).

(** ** random.h: class [Random], whose only member is [_seed] *)

Definition Random_init : Z := 1.
Definition Random_next (limit seed : Z) : Z * Z :=
  let seed := u32 (seed * 1103515245 + 12345) in
  ((seed / 65536) mod limit, seed).

(** * Facts *)

(** The numbers below [2^(2k)] that have a bit in the upper half are exactly
    those not below [2^k]. *)
Lemma land_upper_half n k :
  0 ≤ k → 0 ≤ n < 2 ^ (2 * k) →
  (Z.land n (Z.shiftl (Z.ones k) k) =? 0) = (n <? 2 ^ k).
Proof.
  intros Hk Hn.
  assert (Heq : Z.land n (Z.shiftl (Z.ones k) k) = Z.shiftl (Z.shiftr n k) k).
  { apply Z.bits_inj'; intros i Hi.
    rewrite Z.land_spec, !Z.shiftl_spec by lia.
    destruct (decide (i < k)).
    - rewrite !(Z.testbit_neg_r _ (i - k)) by lia. by rewrite andb_false_r.
    - rewrite Z.shiftr_spec by lia. replace (i - k + k) with i by lia.
      destruct (decide (i < 2 * k)).
      + rewrite Z.ones_spec_low by lia. by rewrite andb_true_r.
      + assert (Z.testbit n i = false) as ->; [|done].
        destruct (decide (n = 0)) as [->|]; [apply Z.bits_0|].
        apply Z.bits_above_log2; [lia|].
        assert (Z.log2 n < 2 * k) by (apply Z.log2_lt_pow2; lia). lia. }
  rewrite Heq, Z.shiftl_mul_pow2, Z.shiftr_div_pow2 by lia.
  pose proof (Z.pow_pos_nonneg 2 k ltac:(lia) Hk).
  destruct (Z.ltb_spec n (2 ^ k)).
  - rewrite Z.div_small by lia. apply Z.eqb_refl.
  - apply Z.eqb_neq. assert (1 ≤ n / 2 ^ k) by (apply Z.div_le_lower_bound; lia). nia.
Qed.

(** A step keeps [p + log2 n] and halves the width of [n]. *)
Lemma log2_step_spec k p n :
  0 < k → 0 < n < 2 ^ (2 * k) →
  let '(p', n') := log2_step (Z.shiftl (Z.ones k) k) k (p, n) in
  0 < n' < 2 ^ k ∧ p' + Z.log2 n' = p + Z.log2 n.
Proof.
  intros Hk Hn. simpl. rewrite land_upper_half by lia.
  destruct (Z.ltb_spec n (2 ^ k)); [lia|].
  rewrite Z.shiftr_div_pow2 by lia.
  pose proof (Z.pow_pos_nonneg 2 k ltac:(lia) ltac:(lia)).
  assert (1 ≤ n / 2 ^ k) by (apply Z.div_le_lower_bound; lia).
  assert (n / 2 ^ k < 2 ^ k).
  { apply Z.div_lt_upper_bound; [lia|]. rewrite <- Z.pow_add_r by lia.
    replace (k + k) with (2 * k) by lia. lia. }
  split; [lia|].
  assert (k ≤ Z.log2 n) by (apply Z.log2_le_pow2; lia).
  rewrite <- Z.shiftr_div_pow2, Z.log2_shiftr by lia. lia.
Qed.

Lemma floorLog2_pos n : 0 < n < 2 ^ 32 → floorLog2 n = Z.log2 n.
Proof.
  intros Hn. unfold floorLog2. destruct (Z.eqb_spec n 0); [lia|].
  pose proof (log2_step_spec 16 0 n ltac:(lia) ltac:(lia)) as H1.
  change (Z.shiftl (Z.ones 16) 16) with 0xffff0000 in H1.
  destruct (log2_step 0xffff0000 16 (0, n)) as [p1 n1], H1 as [Hn1 Hp1].
  pose proof (log2_step_spec 8 p1 n1 ltac:(lia) ltac:(lia)) as H2.
  change (Z.shiftl (Z.ones 8) 8) with 0xff00 in H2.
  destruct (log2_step 0xff00 8 (p1, n1)) as [p2 n2], H2 as [Hn2 Hp2].
  pose proof (log2_step_spec 4 p2 n2 ltac:(lia) ltac:(lia)) as H3.
  change (Z.shiftl (Z.ones 4) 4) with 0xf0 in H3.
  destruct (log2_step 0xf0 4 (p2, n2)) as [p3 n3], H3 as [Hn3 Hp3].
  pose proof (log2_step_spec 2 p3 n3 ltac:(lia) ltac:(lia)) as H4.
  change (Z.shiftl (Z.ones 2) 2) with 0xc in H4.
  destruct (log2_step 0xc 2 (p3, n3)) as [p4 n4], H4 as [Hn4 Hp4].
  assert (n4 = 1 ∨ n4 = 2 ∨ n4 = 3) as [-> | [-> | ->]] by lia; simpl in *; lia.
Qed.

Lemma ceilLog2_pos n : 1 ≤ n < 2 ^ 32 → ceilLog2 n = Z.log2_up n.
Proof.
  intros Hn. unfold ceilLog2. rewrite u32_id by (unfold in_u32; lia).
  destruct (decide (n = 1)) as [->|]; [done|].
  rewrite floorLog2_pos by lia. unfold Z.log2_up.
  destruct (Z.compare_spec 1 n); [lia| |lia]. by rewrite Z.add_1_r, <- Z.sub_1_r.
Qed.

(** Clearing the lowest set bit. *)
Lemma land_pred_pow2 k : 0 ≤ k → Z.land (2 ^ k) (2 ^ k - 1) = 0.
Proof.
  intros. replace (2 ^ k - 1) with (Z.ones k) by (rewrite Z.ones_equiv; lia).
  rewrite Z.land_ones by lia. apply Z.mod_same. lia.
Qed.

Lemma isPower2_spec n :
  0 ≤ n < 2 ^ 32 → isPower2 n = true ↔ n = 0 ∨ n = 2 ^ Z.log2 n.
Proof.
  intros Hn. unfold isPower2. rewrite Z.eqb_eq.
  destruct (decide (n = 0)) as [->|Hn0]; [split; auto|].
  rewrite u32_id by (unfold in_u32; lia).
  pose proof (Z.log2_nonneg n). pose proof (Z.log2_spec n ltac:(lia)) as Hlog.
  split; [|intros [|Hp]; [lia|rewrite Hp; by apply land_pred_pow2]].
  intros Hl. right. destruct (decide (n = 2 ^ Z.log2 n)) as [|Hne]; [done|exfalso].
  assert (Hlog' : Z.log2 (n - 1) = Z.log2 n) by (apply Z.log2_unique; lia).
  assert (Hb : Z.testbit (Z.land n (n - 1)) (Z.log2 n) = true).
  { rewrite Z.land_spec, Z.bit_log2 by lia.
    assert (2 ^ Z.log2 n ≤ n - 1) by lia.
    assert (0 < n - 1) by (pose proof (Z.pow_pos_nonneg 2 (Z.log2 n)); lia).
    rewrite <- Hlog'. apply Z.bit_log2. lia. }
  rewrite Hl, Z.bits_0 in Hb. done.
Qed.

(** The number of one bits of a nonnegative integer. *)
Fixpoint pos_popcount (p : positive) : Z :=
  match p with
  | xH => 1
  | xO p => pos_popcount p
  | xI p => 1 + pos_popcount p
  end.
Definition popcount (n : Z) : Z := match n with Zpos p => pos_popcount p | _ => 0 end.

Lemma pos_popcount_bounds p : 1 ≤ pos_popcount p ≤ Z.log2 (Zpos p) + 1.
Proof.
  induction p as [p IH|p IH|]; simpl pos_popcount; [| |done].
  - rewrite Pos2Z.inj_xI, Z.log2_succ_double; lia.
  - rewrite Pos2Z.inj_xO, Z.log2_double; lia.
Qed.

Lemma land_double_pred a b : Z.land (2 * a) (2 * b + 1) = 2 * Z.land a b.
Proof.
  apply Z.bits_inj'; intros i Hi. rewrite Z.land_spec.
  destruct (decide (i = 0)) as [->|].
  - by rewrite !Z.testbit_even_0.
  - replace i with (Z.succ (i - 1)) by lia.
    rewrite !Z.testbit_even_succ, Z.testbit_odd_succ by lia. by rewrite Z.land_spec.
Qed.

Lemma land_succ_double a : Z.land (2 * a + 1) (2 * a) = 2 * a.
Proof.
  apply Z.bits_inj'; intros i Hi. rewrite Z.land_spec.
  destruct (decide (i = 0)) as [->|].
  - by rewrite Z.testbit_even_0, andb_false_r.
  - replace i with (Z.succ (i - 1)) by lia.
    rewrite !Z.testbit_even_succ, Z.testbit_odd_succ by lia. apply andb_diag.
Qed.

Lemma popcount_double a : 0 ≤ a → popcount (2 * a) = popcount a.
Proof. destruct a; naive_solver lia. Qed.

(** Clearing the lowest one bit removes one from the population count. *)
Lemma popcount_clear_lowest p :
  0 ≤ Z.land (Zpos p) (Zpos p - 1) < Zpos p ∧
  popcount (Z.land (Zpos p) (Zpos p - 1)) = pos_popcount p - 1.
Proof.
  induction p as [p IH|p IH|].
  - rewrite Pos2Z.inj_xI. replace (2 * Zpos p + 1 - 1) with (2 * Zpos p) by lia.
    rewrite land_succ_double, popcount_double by lia. simpl pos_popcount.
    simpl popcount. lia.
  - rewrite Pos2Z.inj_xO. replace (2 * Zpos p - 1) with (2 * (Zpos p - 1) + 1) by lia.
    rewrite land_double_pred. rewrite popcount_double by lia.
    simpl pos_popcount. lia.
  - done.
Qed.

Lemma countBits_loop_ok fuel n r :
  0 < n < 2 ^ 64 → 0 ≤ r → r + popcount n ≤ 2 ^ 63 → popcount n ≤ Z.of_nat fuel →
  countBits_loop fuel n r = Ok (r + popcount n - 1).
Proof.
  revert n r. induction fuel as [|fuel IH]; intros n r Hn Hr Hsum Hfuel.
  - destruct n as [|p|]; [lia| |lia]. simpl in Hfuel.
    pose proof (pos_popcount_bounds p). lia.
  - simpl. rewrite u64_id by (unfold in_u64; lia).
    destruct n as [|p|]; [lia| |lia].
    destruct (popcount_clear_lowest p) as [Hl Hc]. simpl popcount in *.
    set (m := Z.land (Zpos p) (Zpos p - 1)) in *.
    change (popcount (Zpos p)) with (pos_popcount p) in *.
    destruct (Z.eqb_spec m 0) as [Hm|Hm].
    + rewrite Hm in Hc. simpl in Hc. f_equal. lia.
    + rewrite u64_id; [|unfold in_u64]; [|pose proof (pos_popcount_bounds p); lia].
      rewrite IH by lia. f_equal. lia.
Qed.

Lemma countBits_popcount n : 0 ≤ n < 2 ^ 64 → countBits n = Ok (popcount n).
Proof.
  intros Hn. unfold countBits. destruct (Z.eqb_spec n 0) as [->|]; [done|].
  assert (1 ≤ popcount n ≤ 64).
  { destruct n as [|p|]; [lia| |lia]. pose proof (pos_popcount_bounds p).
    assert (Z.log2 (Zpos p) < 64) by (apply Z.log2_lt_pow2; lia). simpl; lia. }
  rewrite countBits_loop_ok by lia. f_equal. lia.
Qed.

Lemma Random_next_range limit seed : 0 < limit → 0 ≤ (Random_next limit seed).1 < limit.
Proof. intros. by apply Z.mod_pos_bound. Qed.

(** * Properties *)

(** the bit-twiddling logarithms are the mathematical ones: on every
    non-zero 32-bit word [floorLog2] is the floor and [ceilLog2] the ceiling of
    the base-2 logarithm, and [floorLog2(0)] is -1. *)
Theorem log2_routines_correct n :
  0 < n < 2 ^ 32 → floorLog2 n = Z.log2 n ∧ ceilLog2 n = Z.log2_up n ∧ floorLog2 0 = -1.
Proof. intros Hn. by rewrite floorLog2_pos, ceilLog2_pos by lia. Qed.

Lemma log2_routines_correct_witness :
  floorLog2 40000 = Z.log2 40000 ∧ ceilLog2 40000 = Z.log2_up 40000 ∧ floorLog2 0 = -1.
Proof. apply (log2_routines_correct 40000). lia. Defined.

(** on every 64-bit word the loop of [countBits] ends with the number of
    bits that are set. *)
Theorem countBits_correct n : 0 ≤ n < 2 ^ 64 → countBits n = Ok (popcount n).
Proof. apply countBits_popcount. Qed.

Lemma countBits_correct_witness : countBits 0xff00ff = Ok (popcount 0xff00ff).
Proof. apply (countBits_correct 0xff00ff). lia. Defined.
