(* ===== verification/SubsecondTime.v ===== *)
(** Simulated time (common/misc/subsecond_time.h): [SubsecondTime] is a 64-bit
    number of femtoseconds with wrapping arithmetic, [ComponentPeriod] the
    clock period of a component, and the classes built on them turn cycles,
    bandwidths and latencies into time.  A period is referenced by a pointer
    whose target frequency scaling changes, so that the operations of those
    classes read it from a store of periods. *)
From S2P Require Import Prelude.
Local Open Scope Z_scope.

(** * Units *)
Inductive time_unit : Type := Femto | Pico | Nano | Micro | Milli | Second.
Definition unit_1 (u : time_unit) : Z :=
  let FS_1 := 1 in let PS_1 := FS_1 * 1000 in let NS_1 := PS_1 * 1000 in
  let US_1 := NS_1 * 1000 in let MS_1 := US_1 * 1000 in let SEC_1 := MS_1 * 1000 in
  match u with
  | Femto => FS_1 | Pico => PS_1 | Nano => NS_1 | Micro => US_1 | Milli => MS_1 | Second => SEC_1
  end.

Definition time_mul (t n : Z) : Z := u64 (t * n).
Definition of_unit (u : time_unit) (n : Z) : Z := time_mul (unit_1 u) n.
Notation FS := (of_unit Femto).
Notation PS := (of_unit Pico).
Notation NS := (of_unit Nano).
Notation US := (of_unit Micro).
Notation MS := (of_unit Milli).
Notation SEC := (of_unit Second).
Definition Zero : Z := 0.
Definition MaxTime : Z := 2 ^ 64 - 1.

Definition get_unit (u : time_unit) (t : Z) : Z := t / unit_1 u.
Notation getFS := (get_unit Femto).
Notation getPS := (get_unit Pico).
Notation getNS := (get_unit Nano).
Notation getUS := (get_unit Micro).
Notation getMS := (get_unit Milli).
Notation getSEC := (get_unit Second).

(** * Operators; a shift by 64 or more and a division by zero are undefined *)
Definition time_add (a b : Z) : Z := u64 (a + b).
Definition time_sub (a b : Z) : Z := u64 (a - b).
Definition time_shl (t n : Z) : res Z :=
  if n <? 64 then Ok (u64 (Z.shiftl t n)) else Err ErrUndefined.
Definition time_div (t d : Z) : res Z := if d =? 0 then Err ErrUndefined else Ok (t / d).
Definition time_mod (t d : Z) : res Z := if d =? 0 then Err ErrUndefined else Ok (t mod d).
Definition divideRounded (lhs rhs : Z) : res Z := time_div (u64 (lhs + (rhs / 2 + 1))) rhs.

(** * ComponentPeriod *)
Definition fromFreqHz (freq_in_hz : Z) : res Z := time_div (SEC 1) freq_in_hz.
Definition getPeriodInFreqMHz (period : Z) : res Z := time_div (unit_1 Micro) period.

(** * SubsecondTimeCycleConverter *)
Definition cyclesToSubsecondTime (period cycles : Z) : Z := time_mul period cycles.
Definition subsecondTimeToCycles (period time : Z) : res Z := time_div time period.

(** * ComponentBandwidth, in bits per microsecond *)
Definition bw_getLatency (bw bits_transmitted : Z) : res Z := time_div (time_mul (US 1) bits_transmitted) bw.
Definition bw_getRoundedLatency (bw bits_transmitted : Z) : res Z :=
  time_div (time_add (time_mul (US 1) bits_transmitted) (US 1 / 2)) bw.

(** * Components with a clock: the store of periods and a pointer into it *)
Notation Periods := (list Z) (only parsing).

Record ComponentBandwidthPerCycle : Type := { cb_period : nat; m_bw_in_bits_per_cycle : Z }.
Definition isInfinite (b : ComponentBandwidthPerCycle) : bool := m_bw_in_bits_per_cycle b =? 0.
Definition cb_getLatency (ps : Periods) (b : ComponentBandwidthPerCycle) (bits_transmitted : Z) : res Z :=
  let? period := rd ps (cb_period b) in
  time_div (time_mul period bits_transmitted) (m_bw_in_bits_per_cycle b).
Definition cb_getRoundedLatency (ps : Periods) (b : ComponentBandwidthPerCycle) (bits_transmitted : Z) : res Z :=
  let? period := rd ps (cb_period b) in
  time_div (time_add (time_mul period bits_transmitted) (period / 2)) (m_bw_in_bits_per_cycle b).

Record ComponentLatency : Type := { cl_period : nat; m_fixed_cycle_latency : Z }.
Definition cl_getLatency (ps : Periods) (l : ComponentLatency) : res Z :=
  let? period := rd ps (cl_period l) in Ok (time_mul period (m_fixed_cycle_latency l)).
Definition cl_add (l : ComponentLatency) (rhs : Z) : ComponentLatency :=
  {| cl_period := cl_period l; m_fixed_cycle_latency := u64 (m_fixed_cycle_latency l + rhs) |}.

Record ComponentTime : Type := { ct_period : nat; ct_time : Z }.
Definition ComponentTime_new (period : nat) : ComponentTime := {| ct_period := period; ct_time := Zero |}.
Definition setElapsedTime (time : Z) (t : ComponentTime) : ComponentTime :=
  {| ct_period := ct_period t; ct_time := time |}.
Definition addLatency (time : Z) (t : ComponentTime) : ComponentTime :=
  setElapsedTime (time_add (ct_time t) time) t.
Definition addCycleLatency (ps : Periods) (num_cycles : Z) (t : ComponentTime) : res ComponentTime :=
  let? period := rd ps (ct_period t) in Ok (addLatency (time_mul period num_cycles) t).
Definition addComponentTime (rhs t : ComponentTime) : res ComponentTime :=
  c_assert (ct_period rhs =? ct_period t)%nat;?
  Ok (addLatency (ct_time rhs) t).
Definition reset (t : ComponentTime) : ComponentTime := setElapsedTime Zero t.
Definition getLatencyGenerator (t : ComponentTime) : ComponentTime := ComponentTime_new (ct_period t).
Definition getCycleCount (ps : Periods) (t : ComponentTime) : res Z :=
  let? period := rd ps (ct_period t) in divideRounded (ct_time t) period.

(** * Facts *)
Lemma time_div_Ok t d : d ≠ 0 → time_div t d = Ok (t / d).
Proof. intros Hd. unfold time_div. by rewrite (proj2 (Z.eqb_neq _ _) Hd). Qed.
Lemma div_mul_add n p r : 0 ≤ r < p → (n * p + r) / p = n.
Proof. intros Hr. rewrite Z.add_comm, Z.div_add by lia. rewrite Z.div_small by lia. lia. Qed.
Lemma frequency_period_back f : 0 < f → f * (f + 1) ≤ 10 ^ 9 → 10 ^ 9 / (10 ^ 9 / f) = f.
Proof.
  intros Hf Hb. pose proof (Z.div_mod (10 ^ 9) f ltac:(lia)) as Hd. pose proof (Z.mod_pos_bound (10 ^ 9) f Hf) as Hm.
  set (p := 10 ^ 9 / f) in *. set (r := 10 ^ 9 mod f) in *. assert (Hp : f ≤ p) by nia.
  rewrite Hd, Z.mul_comm, (Z.mul_comm p). apply div_mul_add. lia.
Qed.

Lemma frequency_back f :
  0 < f ≤ 31622 → ∃ p, fromFreqHz (1000000 * f) = Ok p ∧ getPeriodInFreqMHz p = Ok f.
Proof.
  intros Hf. unfold fromFreqHz, getPeriodInFreqMHz. rewrite time_div_Ok by lia. eexists. split; [reflexivity|].
  assert (Hp : SEC 1 / (1000000 * f) = 10 ^ 9 / f).
  { change (SEC 1) with (10 ^ 15). rewrite <- Z.div_div by lia. done. }
  rewrite Hp. pose proof (frequency_period_back f ltac:(lia) ltac:(nia)) as Hb.
  rewrite time_div_Ok; [by rewrite <- Hb at 2|]. intros H0. rewrite H0 in Hb. change (0 = f) in Hb. lia.
Qed.

(** Conversions of time lose nothing.  A frequency of 1 to 31622 MHz that
    is stored as a period of whole femtoseconds reads back as itself.  A
    number of cycles that becomes time without overflow becomes the same
    number of cycles again, by the cycle converter and, for a period of at
    least three femtoseconds, by the rounding division that counts the cycles
    of a component, also when a rest of less than half a period minus one
    femtosecond was added. *)
Theorem time_conversions_roundtrip :
  (∀ mhz, 0 < mhz ≤ 31622 →
     ∃ p, fromFreqHz (1000000 * mhz) = Ok p ∧ getPeriodInFreqMHz p = Ok mhz) ∧
  (∀ period n, 0 < period → 0 ≤ n → n * period < 2 ^ 64 →
     subsecondTimeToCycles period (cyclesToSubsecondTime period n) = Ok n) ∧
  (∀ ps d period n r, ps !! d = Some period → 3 ≤ period → 0 ≤ n → 0 ≤ r →
     2 * (r + 1) < period → (n + 1) * period < 2 ^ 64 →
     ∃ t, addCycleLatency ps n (ComponentTime_new d) = Ok t ∧ getCycleCount ps (addLatency r t) = Ok n).
Proof.
  split; [|split].
  - apply frequency_back.
  - intros p n Hp Hn Hlt. unfold subsecondTimeToCycles, cyclesToSubsecondTime, time_mul.
    rewrite u64_id by (unfold in_u64; nia). rewrite time_div_Ok by lia. f_equal. rewrite Z.mul_comm. by apply Z.div_mul; lia.
  - intros ps d p n r Hd Hp Hn Hr Hlt Hov. unfold addCycleLatency, rd. simpl. rewrite Hd. simpl.
    eexists. split; [reflexivity|]. unfold getCycleCount, addLatency, rd. simpl. rewrite Hd. simpl.
    pose proof (Z.div_mod p 2 ltac:(lia)). pose proof (Z.mod_pos_bound p 2 ltac:(lia)).
    assert (0 ≤ p * n) by (apply Z.mul_nonneg_nonneg; lia).
    unfold divideRounded, time_add, time_mul, Zero. rewrite Z.add_0_l, !(u64_id (p * n)) by (unfold in_u64; lia).
    rewrite (u64_id (p * n + r)), (u64_id (p * n + r + _)) by (unfold in_u64; lia).
    rewrite time_div_Ok by lia. f_equal. rewrite Z.mul_comm, <- Z.add_assoc. apply div_mul_add. lia.
Qed.

(** The rounding division rounds up too early: with a period of one or
    two femtoseconds it counts one cycle too many for every exact number of
    cycles, and with any even period it rounds up a rest that is one
    femtosecond below half a period. *)
Theorem divideRounded_rounds_up_early n :
  0 ≤ n →
  (2 * n + 2 < 2 ^ 64 → divideRounded n 1 = Ok (n + 1) ∧ divideRounded (2 * n) 2 = Ok (n + 1)) ∧
  (∀ k, 0 < k → (n + 1) * (2 * k) < 2 ^ 64 → divideRounded (n * (2 * k) + (k - 1)) (2 * k) = Ok (n + 1)).
Proof.
  intros Hn. unfold divideRounded. split.
  - intros Hlt. change (1 / 2 + 1) with 1. change (2 / 2 + 1) with 2. rewrite !u64_id by (unfold in_u64; lia).
    rewrite !time_div_Ok, Z.div_1_r by lia. split; [done|].
    f_equal. replace (2 * n + 2) with ((n + 1) * 2) by lia. by apply Z.div_mul.
  - intros k Hk Hlt. assert (H2 : 2 * k / 2 = k) by (rewrite Z.mul_comm; by apply Z.div_mul).
    rewrite H2, u64_id by (unfold in_u64; nia). rewrite time_div_Ok by lia. f_equal.
    replace (n * (2 * k) + (k - 1) + (k + 1)) with ((n + 1) * (2 * k)) by lia. apply Z.div_mul. lia.
Qed.

Lemma divideRounded_rounds_up_early_witness :
  divideRounded 7 1 = Ok 8 ∧ divideRounded 14 2 = Ok 8.
Proof. apply (divideRounded_rounds_up_early 7); lia. Defined.
