(* ===== verification/ContentionModel.v ===== *)
(** Contention for a component with a number of slots
    (src/common/performance_model/contention_model.{h,cc}): the miss status
    registers of a cache, the bandwidth of a link, the eviction buffers.

    [m_num_outstanding] is the length of [m_time].  The versions of the methods
    that take cycles convert with the period of the component, which is an
    argument because frequency scaling changes it. *)
From S2P Require Import Prelude SubsecondTime.
Local Open Scope Z_scope.

Record ContentionModel : Type := mkContentionModel {
  m_time : list (Z * Z);
  m_t_last : Z;
  m_n_requests : Z;
  m_n_barriers : Z;
  m_n_outoforder : Z;
  m_n_simultaneous : Z;
  m_n_hasfreefail : Z;
  m_total_delay : Z;
  m_total_barrier_delay : Z
}.

Definition ContentionModel_new (num_outstanding : nat) : ContentionModel :=
  mkContentionModel (replicate num_outstanding (Zero, 0)) Zero 0 0 0 0 0 Zero Zero.

Definition getNumUsed (t_start : Z) (c : ContentionModel) : Z :=
  Z.of_nat (length (filter (λ s, t_start < s.1) (m_time c))).

Definition getTagCompletionTime (tag : Z) (c : ContentionModel) : Z :=
  match list_find (λ s, s.2 = tag) (m_time c) with Some (_, s) => s.1 | None => MaxTime end.

Definition hasFreeSlot (t_start tag : Z) (c : ContentionModel) : bool * ContentionModel :=
  if existsb (λ s, (s.1 <=? t_start) || (s.2 =? tag)) (m_time c) then (true, c)
  else (false, mkContentionModel (m_time c) (m_t_last c) (m_n_requests c) (m_n_barriers c)
                 (m_n_outoforder c) (m_n_simultaneous c) (u64 (m_n_hasfreefail c + 1))
                 (m_total_delay c) (m_total_barrier_delay c)).

Definition hasTag (tag : Z) (c : ContentionModel) : bool :=
  existsb (λ s, s.2 =? tag) (m_time c).

Definition getBarrierCompletionTime (t_start t_delay tag : Z) (c : ContentionModel) :
    Z * ContentionModel :=
  match m_time c with
  | [] => (time_add t_start t_delay, c)
  | _ =>
      let max_time := foldl (λ m s, if m <? s.1 then s.1 else m) t_start (m_time c) in
      (time_add max_time t_delay,
       mkContentionModel ((λ _, (time_add max_time t_delay, tag)) <$> m_time c) (m_t_last c)
         (m_n_requests c) (u64 (m_n_barriers c + 1)) (m_n_outoforder c) (m_n_simultaneous c)
         (m_n_hasfreefail c) (m_total_delay c)
         (time_add (m_total_barrier_delay c) (time_sub max_time t_start)))
  end.

(** The loop that finds the first slot that is free at [t_start], or else the
    slot that is free first; [unit] is the best slot so far, free at [t_unit],
    and [i] the index of the head of the list. *)
Fixpoint first_free (t_start : Z) (l : list (Z * Z)) (i unit : nat) (t_unit : Z) : nat * Z :=
  match l with
  | [] => (unit, t_unit)
  | s :: l =>
      if s.1 <=? t_start then (i, s.1)
      else if s.1 <? t_unit then first_free t_start l (S i) i s.1
      else first_free t_start l (S i) unit t_unit
  end.
(** The search from [unit = 0]. *)
Definition find_unit (t_start : Z) (l : list (Z * Z)) : nat * Z :=
  first_free t_start l 0 0 (match l with [] => 0 | s :: _ => s.1 end).

Definition getCompletionTime (t_start t_delay tag : Z) (c : ContentionModel) : Z * ContentionModel :=
  match m_time c with
  | [] => (time_add t_start t_delay, c)
  | _ =>
      let n_requests := u64 (m_n_requests c + 1) in
      if t_start =? Zero then
        (t_delay, mkContentionModel (m_time c) (m_t_last c) n_requests (m_n_barriers c)
                    (m_n_outoforder c) (m_n_simultaneous c) (m_n_hasfreefail c) (m_total_delay c)
                    (m_total_barrier_delay c))
      else if t_start <? m_t_last c then
        (time_add t_start t_delay,
         mkContentionModel (m_time c) (m_t_last c) n_requests (m_n_barriers c)
           (u64 (m_n_outoforder c + 1)) (m_n_simultaneous c) (m_n_hasfreefail c) (m_total_delay c)
           (m_total_barrier_delay c))
      else
        let n_simultaneous := if t_start =? m_t_last c then u64 (m_n_simultaneous c + 1)
                              else m_n_simultaneous c in
        let '(unit, t_unit) := find_unit t_start (m_time c) in
        let t_begin := if t_start <? t_unit then t_unit else t_start in
        let t_end := time_add t_begin t_delay in
        (t_end,
         mkContentionModel (<[unit := (t_end, tag)]> (m_time c)) t_start n_requests (m_n_barriers c)
           (m_n_outoforder c) n_simultaneous (m_n_hasfreefail c)
           (time_add (m_total_delay c) (time_sub t_begin t_start)) (m_total_barrier_delay c))
  end.

Definition getStartTime (t_start : Z) (c : ContentionModel) : Z :=
  match m_time c with
  | [] => t_start
  | _ =>
      if t_start <? m_t_last c then t_start
      else let '(_, t_unit) := find_unit t_start (m_time c) in
           if t_start <? t_unit then t_unit else t_start
  end.

(** The legacy versions, in cycles of a period. *)
Definition getNumUsedCycles (period t_start : Z) (c : ContentionModel) : Z :=
  getNumUsed (cyclesToSubsecondTime period t_start) c.
Definition hasFreeSlotCycles (period t_start tag : Z) (c : ContentionModel) : bool * ContentionModel :=
  hasFreeSlot (cyclesToSubsecondTime period t_start) tag c.
Definition getBarrierCompletionCycles (period t_start t_delay tag : Z) (c : ContentionModel) :
    res (Z * ContentionModel) :=
  let r := getBarrierCompletionTime (cyclesToSubsecondTime period t_start)
             (cyclesToSubsecondTime period t_delay) tag c in
  let? cycles := subsecondTimeToCycles period r.1 in Ok (cycles, r.2).
Definition getCompletionCycles (period t_start t_delay tag : Z) (c : ContentionModel) :
    res (Z * ContentionModel) :=
  let r := getCompletionTime (cyclesToSubsecondTime period t_start)
             (cyclesToSubsecondTime period t_delay) tag c in
  let? cycles := subsecondTimeToCycles period r.1 in Ok (cycles, r.2).
Definition getStartCycles (period t_start : Z) (c : ContentionModel) : res Z :=
  subsecondTimeToCycles period (getStartTime (cyclesToSubsecondTime period t_start) c).

(** * Facts *)

Lemma getStartTime_ge t_start c : t_start ≤ getStartTime t_start c.
Proof.
  unfold getStartTime. destruct (m_time c); [lia|]. destruct (_ <? _); [lia|].
  destruct (find_unit _ _) as [u t]. destruct (Z.ltb_spec t_start t); lia.
Qed.

(** The slot that the search returns: it is free at [t_start], or no slot is
    and none is free earlier. *)
Lemma first_free_spec t_start l i unit t_unit u t :
  first_free t_start l i unit t_unit = (u, t) →
  (u = unit ∧ t = t_unit ∧ Forall (λ s, t_start < s.1 ∧ t_unit ≤ s.1) l) ∨
  (∃ j s, u = (i + j)%nat ∧ l !! j = Some s ∧ t = s.1 ∧
          (t ≤ t_start ∨ t < t_unit ∧ Forall (λ s, t_start < s.1 ∧ t ≤ s.1) l)).
Proof.
  revert i unit t_unit. induction l as [|s l IH]; intros i unit t_unit; simpl.
  { intros [= <- <-]. left. auto. }
  destruct (Z.leb_spec s.1 t_start) as [Hs|Hs].
  { intros [= <- <-]. right. exists 0%nat, s. rewrite Nat.add_0_r. auto. }
  destruct (Z.ltb_spec s.1 t_unit) as [Ht|Ht]; intros [(-> & -> & HF)|(j & x & -> & Hj & -> & Hx)]%IH.
  - right. exists 0%nat, s. rewrite Nat.add_0_r. do 3 (split; [done|]). right. split; [done|].
    constructor; [lia|done].
  - right. exists (S j), x. split; [lia|]. do 2 (split; [done|]). destruct Hx as [Hx|[Hx HF]]; [by left|].
    right. split; [lia|]. constructor; [lia|done].
  - left. do 2 (split; [done|]). constructor; [lia|done].
  - right. exists (S j), x. split; [lia|]. do 2 (split; [done|]). destruct Hx as [Hx|[Hx HF]]; [by left|].
    right. split; [lia|]. constructor; [lia|done].
Qed.

Lemma find_unit_spec t_start l u t :
  l ≠ [] → find_unit t_start l = (u, t) →
  ∃ s, l !! u = Some s ∧ t = s.1 ∧ (t ≤ t_start ∨ Forall (λ s, t_start < s.1 ∧ t ≤ s.1) l).
Proof.
  intros Hl. destruct l as [|s0 l]; [done|]. unfold find_unit.
  intros [(-> & -> & HF)|(j & s & -> & Hj & -> & Hs)]%first_free_spec.
  - exists s0. auto.
  - exists s. split; [done|]. split; [done|]. destruct Hs as [Hs|[_ Hs]]; auto.
Qed.

(** A request that arrives in order. *)
Definition in_order (t_start : Z) (c : ContentionModel) : Prop :=
  m_time c ≠ [] ∧ 0 < t_start ∧ m_t_last c ≤ t_start.

(** The service of such a request: it begins when the slot is free. *)
Lemma getCompletionTime_in_order t_start t_delay tag c :
  in_order t_start c →
  ∃ u s, m_time c !! u = Some s ∧ getStartTime t_start c = Z.max t_start s.1 ∧
    (getCompletionTime t_start t_delay tag c).1 = time_add (getStartTime t_start c) t_delay ∧
    m_time (getCompletionTime t_start t_delay tag c).2
      = <[u := (time_add (getStartTime t_start c) t_delay, tag)]> (m_time c) ∧
    m_t_last (getCompletionTime t_start t_delay tag c).2 = t_start ∧
    (s.1 ≤ t_start ∨ Forall (λ x, t_start < x.1 ∧ s.1 ≤ x.1) (m_time c)).
Proof.
  intros (Hne & Hpos & Hlast). destruct (find_unit t_start (m_time c)) as [u t] eqn:Hu.
  destruct (find_unit_spec _ _ _ _ Hne Hu) as (s & Hs & -> & Hbest). exists u, s. split; [done|].
  assert (Hstart : getStartTime t_start c = Z.max t_start s.1).
  { unfold getStartTime. destruct (m_time c); [done|]. rewrite (proj2 (Z.ltb_ge _ _)) by done.
    rewrite Hu. destruct (Z.ltb_spec t_start s.1); lia. }
  split; [done|]. rewrite Hstart.
  assert (Hbegin : (if t_start <? s.1 then s.1 else t_start) = Z.max t_start s.1)
    by (destruct (Z.ltb_spec t_start s.1); lia).
  unfold getCompletionTime. destruct (m_time c) as [|x l]; [done|].
  rewrite (proj2 (Z.eqb_neq _ _)) by (unfold Zero; lia).
  rewrite (proj2 (Z.ltb_ge _ _)) by done. rewrite Hu. cbv zeta. by rewrite Hbegin.
Qed.

(** ** Capacity *)

(** The requests of a run, each with its start and its duration; the run
    returns the intervals in which the requests are served. *)
Fixpoint serve (l : list (Z * Z * Z)) (c : ContentionModel) : list (Z * Z) :=
  match l with
  | [] => []
  | (t_start, t_delay, tag) :: l =>
      let r := getCompletionTime t_start t_delay tag c in
      (getStartTime t_start c, r.1) :: serve l r.2
  end.

(** Requests that arrive in order and whose service ends before time wraps. *)
Fixpoint orderly (l : list (Z * Z * Z)) (c : ContentionModel) : Prop :=
  match l with
  | [] => True
  | (t_start, t_delay, tag) :: l =>
      in_order t_start c ∧ 0 ≤ t_delay ∧ getStartTime t_start c + t_delay < 2 ^ 64 ∧
      orderly l (getCompletionTime t_start t_delay tag c).2
  end.

Definition during (t : Z) (i : Z * Z) : Prop := i.1 ≤ t < i.2.
Definition busy (t : Z) (s : Z * Z) : Prop := t < s.1.
#[export] Instance during_dec t i : Decision (during t i).
Proof. unfold during. apply _. Defined.
#[export] Instance busy_dec t s : Decision (busy t s).
Proof. unfold busy. apply _. Defined.
Notation count P l := (length (filter P l)).

Lemma count_insert (Q : Z * Z → Prop) `{∀ x, Decision (Q x)} l i x y :
  l !! i = Some x →
  (count Q (<[i := y]> l) + (if decide (Q x) then 1 else 0)
   = count Q l + (if decide (Q y) then 1 else 0))%nat.
Proof.
  intros Hx. rewrite <- (take_drop_middle l i x Hx) at 2.
  rewrite insert_take_drop by (by eapply lookup_lt_Some).
  rewrite !filter_app, !length_app, !filter_cons.
  destruct (decide (Q x)), (decide (Q y)); simpl; lia.
Qed.
Lemma count_le_length (Q : Z * Z → Prop) `{∀ x, Decision (Q x)} l : (count Q l ≤ length l)%nat.
Proof. apply length_filter. Qed.

(** At every instant the requests served from now on and the slots that are
    busy by then are at most as many as the slots. *)
Lemma serve_capacity l c t :
  orderly l c →
  (count (during t) (serve l c) + count (busy t) (m_time c) ≤ length (m_time c))%nat.
Proof.
  revert c. induction l as [|[[t_start t_delay] tag] l IH]; intros c; simpl.
  { intros _. apply count_le_length. }
  intros (Hin & Hdelay & Hfit & Hrest).
  destruct (getCompletionTime_in_order t_start t_delay tag c Hin)
    as (u & s & Hs & Hstart & -> & Htime & Hlast & Hbest).
  specialize (IH _ Hrest). rewrite Htime, length_insert in IH.
  pose proof (count_insert (busy t) (m_time c) u s
    (time_add (getStartTime t_start c) t_delay, tag) Hs) as Hc.
  assert (Hend : time_add (getStartTime t_start c) t_delay = getStartTime t_start c + t_delay).
  { apply u64_id. unfold in_u64. destruct Hin as (_ & ? & _). lia. }
  rewrite Hend in *. rewrite filter_cons.
  destruct (decide (during t _)) as [Hd|Hd], (decide (busy t s)) as [Hb|Hb],
    (decide (busy t (_, _))) as [He|He]; unfold during, busy in *; simpl in *; lia.
Qed.

(** C15: At no instant does the model serve more requests than it has slots.
    Let the model have at least one slot, and let requests arrive in the order
    of their start times, after time 0, with services that end before time
    wraps around; then at most [num_outstanding] are in service at a time,
    where a request is in service from the time that getStartTime announces to
    the time that getCompletionTime returns. *)
Theorem contention_capacity num_outstanding l t :
  orderly l (ContentionModel_new num_outstanding) →
  (count (during t) (serve l (ContentionModel_new num_outstanding)) ≤ num_outstanding)%nat.
Proof.
  intros Hl. pose proof (serve_capacity l _ t Hl) as Hc.
  assert (Hlen : length (m_time (ContentionModel_new num_outstanding)) = num_outstanding)
    by apply length_replicate.
  lia.
Qed.

Lemma contention_capacity_witness :
  serve [(10, 5, 1); (11, 5, 2); (12, 5, 3)] (ContentionModel_new 2) = [(10, 15); (11, 16); (15, 20)] ∧
  (count (during 15%Z) (serve [(10, 5, 1); (11, 5, 2); (12, 5, 3)]%Z (ContentionModel_new 2)) ≤ 2)%nat.
Proof.
  split; [vm_compute; reflexivity|]. apply (contention_capacity 2 [(10, 5, 1); (11, 5, 2); (12, 5, 3)] 15).
  repeat split; vm_compute; congruence.
Defined.
