(* ===== verification/MovingAverage.v ===== *)
(** Averages of the last numbers of a sequence
    (src/common/misc/moving_average.h) over numbers modulo the size of a ring
    buffer (src/common/misc/modulo_num.{h,cc}).  The queue models average times
    with them. *)
From S2P Require Import Prelude SubsecondTime.
Local Open Scope Z_scope.

(** * ModuloNum *)
Record ModuloNum : Type := mkModulo { mn_value : Z; mn_max : Z }.
(** Both operators on two numbers assert that the moduli agree; [%] by zero is
    undefined. *)
Definition modulo_add (a b : ModuloNum) : res ModuloNum :=
  c_assert (mn_max a =? mn_max b);?
  if mn_max a =? 0 then Err ErrUndefined
  else Ok (mkModulo (u32 (mn_value a + mn_value b) mod mn_max a) (mn_max a)).
Definition modulo_sub (a b : ModuloNum) : res ModuloNum :=
  c_assert (mn_max a =? mn_max b);?
  Ok (mkModulo (if mn_value b <=? mn_value a then mn_value a - mn_value b
                else u32 (mn_max a - mn_value b + mn_value a)) (mn_max a)).
Definition modulo_add_int (a : ModuloNum) (value : Z) : res ModuloNum :=
  if mn_max a =? 0 then Err ErrUndefined
  else modulo_add a (mkModulo (value mod mn_max a) (mn_max a)).
Definition modulo_eqb (a b : ModuloNum) : bool :=
  (mn_value a =? mn_value b) && (mn_max a =? mn_max b).

(** * MovingAverage *)
Inductive AvgType_t : Type := ARITHMETIC_MEAN | GEOMETRIC_MEAN | MEDIAN.

Definition parseAvgType (avg_type : string) : res AvgType_t :=
  if decide (avg_type = "arithmetic_mean"%string) then Ok ARITHMETIC_MEAN
  else if decide (avg_type = "geometric_mean"%string) then Ok GEOMETRIC_MEAN
  else if decide (avg_type = "median"%string) then Ok MEDIAN
  else Err (ErrLog "Unsupported Average Type").

(** The three classes; [ma_sum] is the member of the arithmetic mean. *)
Record MovingAverage : Type := mkMovingAverage {
  ma_type : AvgType_t;
  m_num_list : list Z;
  m_max_window_size : Z;
  m_curr_window_front : ModuloNum;
  m_curr_window_back : ModuloNum;
  ma_sum : Z
}.

Definition createAvgType (avg_type : AvgType_t) (max_window_size : Z) : MovingAverage :=
  let size := u32 (max_window_size + 1) in
  mkMovingAverage avg_type (replicate (Z.to_nat size) Zero) max_window_size (mkModulo 0 size)
    (mkModulo 0 size) Zero.

Definition addToWindow (next_num : Z) (m : MovingAverage) : res MovingAverage :=
  let? l := wr (m_num_list m) (Z.to_nat (mn_value (m_curr_window_back m))) next_num in
  let? back := modulo_add_int (m_curr_window_back m) 1 in
  let? front := (if modulo_eqb back (m_curr_window_front m)
                 then modulo_add_int (m_curr_window_front m) 1 else Ok (m_curr_window_front m)) in
  Ok (mkMovingAverage (ma_type m) l (m_max_window_size m) front back (ma_sum m)).

Definition put_sum (s : Z) (m : MovingAverage) : MovingAverage :=
  mkMovingAverage (ma_type m) (m_num_list m) (m_max_window_size m) (m_curr_window_front m)
    (m_curr_window_back m) s.

Definition ma_update (next_num : Z) (m : MovingAverage) : res MovingAverage :=
  match ma_type m with
  | ARITHMETIC_MEAN =>
      let? n := modulo_sub (m_curr_window_back m) (m_curr_window_front m) in
      let? sum := (if mn_value n =? m_max_window_size m then
                     let? x := rd (m_num_list m) (Z.to_nat (mn_value (m_curr_window_front m))) in
                     Ok (time_sub (ma_sum m) x)
                   else Ok (ma_sum m)) in
      addToWindow next_num (put_sum (time_add sum next_num) m)
  | GEOMETRIC_MEAN | MEDIAN => addToWindow next_num m
  end.

(** The loop of the geometric mean from [curr_num] up to the end of the
    window; the fuel is the size of the buffer. *)
Fixpoint product (fuel : nat) (curr_num : ModuloNum) (m : MovingAverage) (acc : Z) : res Z :=
  if modulo_eqb curr_num (m_curr_window_back m) then Ok acc
  else match fuel with
       | O => Err ErrFuel
       | S fuel =>
           let? x := rd (m_num_list m) (Z.to_nat (mn_value curr_num)) in
           let? next := modulo_add_int curr_num 1 in
           product fuel next m (time_mul acc x)
       end.

(** [root x n] is [pow(x, 1.0/n)] in double precision, as a 64-bit integer. *)
Definition ma_compute (root : Z → Z → Z) (m : MovingAverage) : res Z :=
  let? n := modulo_sub (m_curr_window_back m) (m_curr_window_front m) in
  match ma_type m with
  | ARITHMETIC_MEAN => time_div (ma_sum m) (mn_value n)
  | GEOMETRIC_MEAN =>
      let? p := product (length (m_num_list m)) (m_curr_window_front m) m 1 in
      Ok (root p (mn_value n))
  | MEDIAN =>
      let? i := modulo_add_int (m_curr_window_front m) (mn_value n / 2) in
      rd (m_num_list m) (Z.to_nat (mn_value i))
  end.

(** [compute(next_num)]. *)
Definition ma_compute_next (root : Z → Z → Z) (next_num : Z) (m : MovingAverage) : res (Z * MovingAverage) :=
  let? m := ma_update next_num m in
  let? r := ma_compute root m in
  Ok (r, m).

(** * Facts *)

(** The numbers of the window, oldest first. *)
Definition last_n {A} (n : nat) (l : list A) : list A := drop (length l - n) l.

(** [m] has been updated with the numbers [h]: with [w] the largest size of the
    window, the ring holds the last [w] of them from its front on. *)
Record windows (h : list Z) (m : MovingAverage) : Prop := {
  wi_size : 1 ≤ m_max_window_size m < 2 ^ 31;
  wi_len : Z.of_nat (length (m_num_list m)) = m_max_window_size m + 1;
  wi_maxf : mn_max (m_curr_window_front m) = m_max_window_size m + 1;
  wi_maxb : mn_max (m_curr_window_back m) = m_max_window_size m + 1;
  wi_front : 0 ≤ mn_value (m_curr_window_front m) ≤ m_max_window_size m;
  wi_back : mn_value (m_curr_window_back m)
            = (mn_value (m_curr_window_front m) + Z.min (Z.of_nat (length h)) (m_max_window_size m))
              mod (m_max_window_size m + 1);
  wi_at i : (Z.of_nat i < Z.min (Z.of_nat (length h)) (m_max_window_size m)) →
            m_num_list m !! Z.to_nat ((mn_value (m_curr_window_front m) + Z.of_nat i) mod (m_max_window_size m + 1))
            = last_n (Z.to_nat (m_max_window_size m)) h !! i
}.

Lemma ring_at f i M : 0 ≤ f < M → 0 ≤ i < M → (f + i) mod M = if f + i <? M then f + i else f + i - M.
Proof.
  intros Hf Hi. destruct (Z.ltb_spec (f + i) M).
  - apply Z.mod_small. lia.
  - symmetry. apply (Z.mod_unique_pos _ _ 1); lia.
Qed.
(** Case analysis on the positions of a ring. *)
Ltac ring_cases :=
  repeat match goal with
  | |- context [(?a + ?i) mod ?M] => rewrite (ring_at a i M) by lia
  | |- context [?x <? ?y] => destruct (Z.ltb_spec x y)
  | H : context [?x <? ?y] |- _ => destruct (Z.ltb_spec x y)
  end.

Ltac eqb_cases :=
  repeat match goal with
  | |- context [if ?p =? ?q then _ else _] => destruct (Z.eqb_spec p q)
  end;
  repeat match goal with
  | |- context [?p =? ?q] => destruct (Z.eqb_spec p q)
  end.

Lemma last_n_all {A} n (l : list A) : (length l ≤ n)%nat → last_n n l = l.
Proof. intros Hl. unfold last_n. by replace (length l - n)%nat with 0%nat by lia. Qed.
Lemma length_last_n {A} n (l : list A) : length (last_n n l) = (length l `min` n)%nat.
Proof. unfold last_n. rewrite length_drop. lia. Qed.
Lemma last_n_snoc {A} n (l : list A) x :
  (0 < n ≤ length l)%nat → last_n n (l ++ [x]) = drop 1 (last_n n l) ++ [x].
Proof.
  intros Hn. unfold last_n. rewrite length_app. simpl. rewrite drop_app_le by lia. rewrite drop_drop.
  f_equal. f_equal. lia.
Qed.

Section Window.
Context (h : list Z) (m : MovingAverage) (W : windows h m).
Local Notation w := (m_max_window_size m).
Local Notation f := (mn_value (m_curr_window_front m)).
Local Notation b := (mn_value (m_curr_window_back m)).
Local Notation n := (Z.min (Z.of_nat (length h)) w).

Lemma windows_back : b = if f + n <? w + 1 then f + n else f + n - (w + 1).
Proof.
  pose proof (wi_size _ _ W). pose proof (wi_front _ _ W). rewrite (wi_back _ _ W). apply ring_at; lia.
Qed.
Lemma windows_size : modulo_sub (m_curr_window_back m) (m_curr_window_front m) = Ok (mkModulo n (w + 1)).
Proof.
  pose proof (wi_size _ _ W). pose proof (wi_front _ _ W). pose proof windows_back as Hb.
  unfold modulo_sub. rewrite (wi_maxf _ _ W), (wi_maxb _ _ W), Z.eqb_refl. simpl. do 2 f_equal.
  destruct (Z.ltb_spec (f + n) (w + 1)), (Z.leb_spec f b); try lia. rewrite u32_id; [lia|]. unfold in_u32. lia.
Qed.
Lemma windows_incr x : mn_max x = w + 1 → 0 ≤ mn_value x ≤ w →
  modulo_add_int x 1 = Ok (mkModulo (if mn_value x =? w then 0 else mn_value x + 1) (w + 1)).
Proof.
  intros Hm Hx. pose proof (wi_size _ _ W). unfold modulo_add_int, modulo_add. simpl. rewrite Hm, Z.eqb_refl.
  rewrite (proj2 (Z.eqb_neq (w + 1) 0)) by lia. simpl. rewrite (Z.mod_small 1 (w + 1)) by lia.
  rewrite u32_id by (unfold in_u32; lia). rewrite ring_at by lia. do 2 f_equal.
  destruct (Z.eqb_spec (mn_value x) w), (Z.ltb_spec (mn_value x + 1) (w + 1)); lia.
Qed.

Lemma windows_front_at i : Z.of_nat i < n →
  m_num_list m !! Z.to_nat (if f + Z.of_nat i <? w + 1 then f + Z.of_nat i else f + Z.of_nat i - (w + 1))
  = last_n (Z.to_nat w) h !! i.
Proof.
  intros Hi. rewrite <- (wi_at _ _ W i Hi). do 2 f_equal. symmetry.
  pose proof (wi_size _ _ W). pose proof (wi_front _ _ W). apply ring_at; lia.
Qed.
End Window.

(** One position after another in a ring of size [w + 1]. *)
Definition ring_next (w p : Z) : Z := if p =? w then 0 else p + 1.
Lemma ring_next_add w f i : 0 ≤ f ≤ w → 0 ≤ i < w → (ring_next w f + i) mod (w + 1) = (f + (i + 1)) mod (w + 1).
Proof. intros Hf Hi. unfold ring_next. destruct (Z.eqb_spec f w); rewrite !ring_at by lia; ring_cases; lia. Qed.
Lemma ring_add_next w f i : 0 ≤ f ≤ w → 0 ≤ i < w → ring_next w ((f + i) mod (w + 1)) = (f + (i + 1)) mod (w + 1).
Proof.
  intros Hf Hi. unfold ring_next. rewrite !ring_at by lia. ring_cases; destruct (Z.eqb_spec (f + i) w); try lia;
    destruct (Z.eqb_spec (f + i - (w + 1)) w); lia.
Qed.
Lemma ring_inj w f i j : 0 ≤ f ≤ w → 0 ≤ i ≤ w → 0 ≤ j ≤ w →
  (f + i) mod (w + 1) = (f + j) mod (w + 1) → i = j.
Proof. intros Hf Hi Hj. rewrite !ring_at by lia. ring_cases; lia. Qed.

(** What [addToWindow] makes of the window, when it is full and when it is
    not. *)
Section Added.
Context (h : list Z) (m : MovingAverage) (x : Z) (W : windows h m).
Local Notation w := (m_max_window_size m).
Local Notation f := (mn_value (m_curr_window_front m)).
Local Notation b := (mn_value (m_curr_window_back m)).
Definition added (front : Z) : MovingAverage :=
  mkMovingAverage (ma_type m) (<[Z.to_nat b := x]> (m_num_list m)) w (mkModulo front (w + 1))
    (mkModulo (ring_next w b) (w + 1)) (ma_sum m).

Lemma added_at i : 0 ≤ i ≤ w →
  <[Z.to_nat b := x]> (m_num_list m) !! Z.to_nat ((f + i) mod (w + 1))
  = if decide (i = Z.min (Z.of_nat (length h)) w) then Some x
    else m_num_list m !! Z.to_nat ((f + i) mod (w + 1)).
Proof.
  intros Hi. pose proof (wi_size _ _ W). pose proof (wi_front _ _ W). pose proof (wi_len _ _ W).
  pose proof (wi_back _ _ W) as Hb. pose proof (Z.mod_pos_bound (f + i) (w + 1) ltac:(lia)).
  pose proof (Z.mod_pos_bound (f + Z.min (Z.of_nat (length h)) w) (w + 1) ltac:(lia)).
  case_decide as Hd.
  - rewrite Hd, Hb. apply list_lookup_insert_eq. lia.
  - apply list_lookup_insert_ne. intros He. apply Hd. apply (ring_inj w f); lia.
Qed.
Lemma length_snoc : Z.of_nat (length (h ++ [x])) = Z.of_nat (length h) + 1.
Proof. rewrite length_app. simpl. lia. Qed.

Lemma windows_full : w ≤ Z.of_nat (length h) → windows (h ++ [x]) (added (ring_next w f)).
Proof.
  intros Hn. pose proof (wi_size _ _ W) as Hw. pose proof (wi_front _ _ W) as Hf. pose proof (wi_len _ _ W) as Hl.
  pose proof (wi_back _ _ W) as Hb.
  constructor; simpl; rewrite ?length_insert, ?length_snoc; try done.
  - unfold ring_next. destruct (Z.eqb_spec f w); lia.
  - rewrite Hb, !Z.min_r by lia. replace ((f + w) mod (w + 1)) with (if f =? 0 then w else f - 1)
      by (rewrite ring_at by lia; destruct (Z.eqb_spec f 0); ring_cases; lia).
    unfold ring_next. destruct (Z.eqb_spec f 0), (Z.eqb_spec f w); rewrite ring_at by lia; ring_cases; try lia;
      eqb_cases; lia.
  - intros i Hi. rewrite ring_next_add by lia. rewrite added_at by lia. rewrite last_n_snoc by lia.
    pose proof (length_last_n (Z.to_nat w) h) as Hll.
    case_decide as Hd.
    + rewrite lookup_app_r; rewrite length_drop; [|lia].
      by replace (i - (length (last_n (Z.to_nat w) h) - 1))%nat with 0%nat by lia.
    + rewrite lookup_app_l by (rewrite length_drop; lia). rewrite lookup_drop.
      rewrite <- (wi_at _ _ W (1 + i)) by lia. do 2 f_equal. f_equal. lia.
Qed.

Lemma windows_part : Z.of_nat (length h) < w → windows (h ++ [x]) (added f).
Proof.
  intros Hn. pose proof (wi_size _ _ W) as Hw. pose proof (wi_front _ _ W) as Hf. pose proof (wi_len _ _ W) as Hl.
  constructor; simpl; rewrite ?length_insert, ?length_snoc; try done.
  - rewrite (wi_back _ _ W), !Z.min_l, ring_add_next by lia. done.
  - intros i Hi. rewrite added_at by lia. rewrite last_n_all by (rewrite length_app; simpl; lia). case_decide as Hd.
    + rewrite lookup_app_r by lia. by replace (i - length h)%nat with 0%nat by lia.
    + rewrite lookup_app_l by lia. rewrite (wi_at _ _ W i) by lia. by rewrite last_n_all by lia.
Qed.
End Added.

Lemma ring_full w f n : 0 ≤ f ≤ w → 0 ≤ n ≤ w → (ring_next w ((f + n) mod (w + 1)) =? f) = (n =? w).
Proof.
  intros Hf Hn. unfold ring_next. rewrite ring_at by lia. ring_cases;
    eqb_cases; (done || (exfalso; lia)).
Qed.

Lemma windows_add h m x : windows h m →
  ∃ m', addToWindow x m = Ok m' ∧ windows (h ++ [x]) m' ∧ ma_type m' = ma_type m ∧
        m_max_window_size m' = m_max_window_size m ∧ ma_sum m' = ma_sum m.
Proof.
  intros W. pose proof (wi_size _ _ W) as Hw. pose proof (wi_front _ _ W) as Hf. pose proof (wi_len _ _ W) as Hl.
  pose proof (wi_back _ _ W) as Hb.
  assert (Hbr : 0 ≤ mn_value (m_curr_window_back m) < m_max_window_size m + 1) by (rewrite Hb; apply Z.mod_pos_bound; lia).
  unfold addToWindow. rewrite wr_lt by lia. cbn [res_bind].
  rewrite (windows_incr h m W _ (wi_maxb _ _ W)), (windows_incr h m W _ (wi_maxf _ _ W)) by lia. cbn [res_bind].
  unfold modulo_eqb. cbn [mn_value mn_max]. rewrite (wi_maxf _ _ W), Z.eqb_refl, andb_true_r.
  fold (ring_next (m_max_window_size m) (mn_value (m_curr_window_back m))).
  fold (ring_next (m_max_window_size m) (mn_value (m_curr_window_front m))).
  pose proof (ring_full (m_max_window_size m) (mn_value (m_curr_window_front m))
    (Z.min (Z.of_nat (length h)) (m_max_window_size m)) Hf ltac:(lia)) as Hr. rewrite <- Hb in Hr. rewrite Hr.
  destruct (Z.eqb_spec (Z.min (Z.of_nat (length h)) (m_max_window_size m)) (m_max_window_size m)); cbn [res_bind].
  - exists (added m x (ring_next (m_max_window_size m) (mn_value (m_curr_window_front m)))).
    split; [done|]. split; [apply windows_full; [done|lia]|done].
  - exists (added m x (mn_value (m_curr_window_front m))). split; [|split; [apply windows_part; [done|lia]|done]].
    unfold added. rewrite <- (wi_maxf _ _ W). by destruct (m_curr_window_front m).
Qed.

(** ** The arithmetic mean *)
Definition sum_of (l : list Z) : Z := foldr Z.add 0 l.
Lemma sum_of_app l1 l2 : sum_of (l1 ++ l2) = sum_of l1 + sum_of l2.
Proof. unfold sum_of. rewrite foldr_app. induction l1 as [|a l1 IH]; simpl; lia. Qed.
Lemma time_add_mod a b : time_add (u64 a) b = u64 (a + b).
Proof. unfold time_add, u64. apply Zplus_mod_idemp_l. Qed.
Lemma time_sub_mod a b : time_sub (u64 a) b = u64 (a - b).
Proof. unfold time_sub, u64. apply Zminus_mod_idemp_l. Qed.

(** [m] is a mean of class [ARITHMETIC_MEAN] that has been updated with [h]. *)
Definition averages (w : Z) (h : list Z) (m : MovingAverage) : Prop :=
  windows h m ∧ ma_type m = ARITHMETIC_MEAN ∧ m_max_window_size m = w ∧
  ma_sum m = u64 (sum_of (last_n (Z.to_nat w) h)).

Lemma averages_update w h m x : averages w h m → ∃ m', ma_update x m = Ok m' ∧ averages w (h ++ [x]) m'.
Proof.
  intros (W & Ht & Hw & Hs). pose proof (wi_size _ _ W) as Hwr. pose proof (wi_len _ _ W) as Hl.
  unfold ma_update. rewrite Ht, (windows_size h m W). cbn [res_bind mn_value].
  assert (Hput : ∀ s, windows h (put_sum s m)) by (intros s; destruct W; constructor; done).
  assert (Hgo : ∀ s, s = u64 (sum_of (last_n (Z.to_nat w) (h ++ [x]))) →
    ∃ m', addToWindow x (put_sum s m) = Ok m' ∧ averages w (h ++ [x]) m').
  { intros s Hse. destruct (windows_add h (put_sum s m) x (Hput s)) as (m' & He & W' & Ht' & Hw' & Hs').
    exists m'. split; [done|]. split; [done|]. split; [by rewrite Ht'|]. split; [by rewrite Hw'|by rewrite Hs', <- Hse]. }
  destruct (Z.eqb_spec (Z.min (Z.of_nat (length h)) (m_max_window_size m)) (m_max_window_size m)) as [Hn|Hn].
  - pose proof (length_last_n (Z.to_nat w) h) as Hll. pose proof (wi_at _ _ W 0 ltac:(lia)) as H0.
    rewrite Z.add_0_r, Z.mod_small in H0 by (pose proof (wi_front _ _ W); lia).
    destruct (last_n (Z.to_nat w) h) as [|a l] eqn:Hlast; [simpl in Hll; lia|]. rewrite Hw, Hlast in H0.
    unfold rd. rewrite H0. cbn [res_bind]. apply Hgo. rewrite Hs, time_sub_mod, time_add_mod, last_n_snoc, Hlast by lia.
    f_equal. rewrite sum_of_app. change (drop 1 (a :: l)) with (drop 0 l). rewrite drop_0. simpl. lia.
  - cbn [res_bind]. apply Hgo. rewrite Hs, time_add_mod. f_equal.
    rewrite !last_n_all by (rewrite ?length_app; simpl; lia). rewrite sum_of_app. simpl. lia.
Qed.

Lemma averages_new w : 1 ≤ w < 2 ^ 31 → averages w [] (createAvgType ARITHMETIC_MEAN w).
Proof.
  intros Hw. unfold createAvgType. rewrite u32_id by (unfold in_u32; lia).
  split; [|split; [done|split; [done|]]].
  - constructor; simpl; try lia.
    + rewrite length_replicate. lia.
    + rewrite Z.min_l, Z.mod_small by lia. done.
  - done.
Qed.

(** A sequence of updates. *)
Fixpoint updates (l : list Z) (m : MovingAverage) : res MovingAverage :=
  match l with [] => Ok m | x :: l => let? m := ma_update x m in updates l m end.
Lemma averages_updates w l h m : averages w h m → ∃ m', updates l m = Ok m' ∧ averages w (h ++ l) m'.
Proof.
  revert h m. induction l as [|x l IH]; intros h m Hm; simpl.
  - exists m. by rewrite app_nil_r.
  - destruct (averages_update w h m x Hm) as (m1 & -> & Hm1). simpl. rewrite cons_middle, app_assoc. by apply IH.
Qed.
Lemma averages_compute root w h m :
  averages w h m → h ≠ [] → sum_of (last_n (Z.to_nat w) h) < 2 ^ 64 → Forall (λ x, 0 ≤ x) h →
  ma_compute root m = Ok (sum_of (last_n (Z.to_nat w) h) / Z.of_nat (length (last_n (Z.to_nat w) h))).
Proof.
  intros (W & Ht & Hw & Hs) Hh Hlt Hpos. pose proof (wi_size _ _ W).
  assert (0 < Z.of_nat (length h)) by (destruct h; simpl; [done|lia]).
  assert (Hlen : Z.of_nat (length (last_n (Z.to_nat w) h)) = Z.min (Z.of_nat (length h)) w) by (rewrite length_last_n; lia).
  assert (0 ≤ sum_of (last_n (Z.to_nat w) h)).
  { assert (Hp : Forall (λ x, 0 ≤ x) (last_n (Z.to_nat w) h)) by by apply Forall_drop.
    clear -Hp. induction Hp; simpl in *; lia. }
  unfold ma_compute. rewrite (windows_size h m W). cbn [res_bind mn_value]. rewrite Ht, Hs, Hw, Hlen.
  rewrite u64_id by (unfold in_u64; lia). apply time_div_Ok. lia.
Qed.
