(* ===== verification/QueueModels.v ===== *)
(** Queue models of the memory controllers and of the network
    (src/common/performance_model/queue_model*.{h,cc}): the delay that a packet
    sees at a resource that serves one packet at a time.  Each class of queue
    models is a module; [QueueModel] is the sum of them.

    The estimate of the windowed M/G/1 model is computed in double precision
    from the three sums of the window and the size of the window; it is a
    parameter of [computeQueueDelay], as is the root of the geometric mean.
    [getGlobalTime] of the barrier server is an argument. *)
From S2P Require Import Prelude SubsecondTime ContentionModel MovingAverage.
Local Open Scope Z_scope.

(** * QueueModelBasic *)
Module Basic.
Record t : Type := mk { m_queue_time : Z; m_moving_average : option MovingAverage }.

Definition new (moving_avg_enabled : bool) (moving_avg_window_size : Z) (moving_avg_type_str : string) : res t :=
  if moving_avg_enabled then
    let? moving_avg_type := parseAvgType moving_avg_type_str in
    Ok (mk Zero (Some (createAvgType moving_avg_type moving_avg_window_size)))
  else Ok (mk Zero None).

Definition delay (root : Z → Z → Z) (pkt_time processing_time : Z) (q : t) : res (Z * t) :=
  let? r := (match m_moving_average q with
             | Some m => let? r := ma_compute_next root pkt_time m in Ok (r.1, Some r.2)
             | None => Ok (pkt_time, None)
             end) in
  let '(ref_time, avg) := r in
  let queue_delay := if ref_time <? m_queue_time q then time_sub (m_queue_time q) ref_time else Zero in
  Ok (queue_delay, mk (time_add (Z.max (m_queue_time q) ref_time) processing_time) avg).
End Basic.

(** * QueueModelHistoryList *)
Module HistoryList.
(** [m_free_interval_list] holds the times at which the resource is free. *)
Record t : Type := mk {
  m_min_processing_time : Z;
  m_max_free_interval_list_size : Z;
  m_free_interval_list : list (Z * Z);
  m_utilized_time : Z;
  m_total_queue_delay : Z;
  m_average_delay : MovingAverage;
  m_analytical_model_enabled : bool;
  m_total_requests : Z;
  m_total_requests_using_analytical_model : Z
}.

Definition new (analytical_model_enabled : bool) (max_list_size min_processing_time : Z) : res t :=
  let? max_simulation_time := time_shl (FS 1) 63 in
  Ok (mk min_processing_time max_list_size [(Zero, max_simulation_time)] Zero Zero
        (createAvgType ARITHMETIC_MEAN max_list_size) analytical_model_enabled 0 0).

(** What is left of an interval: [keep_if] keeps a part that is long enough
    for another packet, by an unsigned subtraction. *)
Definition keep_if (min first second : Z) : list (Z * Z) :=
  if min <=? time_sub second first then [(first, second)] else [].
(** The loop over the intervals: the delay and the new list, [None] if no
    interval was taken. *)
Fixpoint take_interval (min pkt_time processing_time : Z) (l : list (Z * Z)) : option (Z * list (Z * Z)) :=
  match l with
  | [] => None
  | (first, second) :: l =>
      if (first <=? pkt_time) && (time_add pkt_time processing_time <=? second) then
        Some (Zero, keep_if min first pkt_time ++ keep_if min (time_add pkt_time processing_time) second ++ l)
      else if pkt_time <? first then
        Some (time_sub first pkt_time, keep_if min (time_add first processing_time) second ++ l)
      else match take_interval min pkt_time processing_time l with
           | Some (d, l') => Some (d, (first, second) :: l')
           | None => None
           end
  end.

Definition put_list (l : list (Z * Z)) (q : t) : t :=
  mk (m_min_processing_time q) (m_max_free_interval_list_size q) l (m_utilized_time q) (m_total_queue_delay q)
    (m_average_delay q) (m_analytical_model_enabled q) (m_total_requests q)
    (m_total_requests_using_analytical_model q).

(** A delay of [MaxTime] is the mark of "not found". *)
Definition computeUsingHistoryList (pkt_time processing_time : Z) (q : t) : res (Z * t) :=
  let l := m_free_interval_list q in
  log_assert (Z.of_nat (length l) <=? m_max_free_interval_list_size q) "Free Interval list size > max";?
  match take_interval (m_min_processing_time q) pkt_time processing_time l with
  | Some (queue_delay, l) =>
      log_assert (negb (queue_delay =? MaxTime)) "free interval not found";?
      Ok (queue_delay,
          put_list (if m_max_free_interval_list_size q <? Z.of_nat (length l) then tail l else l) q)
  | None => Err (ErrLog "free interval not found")
  end.

Definition computeUsingAnalyticalModel (q : t) : res Z := ma_compute (λ x _, x) (m_average_delay q).
Definition updateAverageDelay (queue_delay : Z) (q : t) : res t :=
  let? m := ma_update queue_delay (m_average_delay q) in
  Ok (mk (m_min_processing_time q) (m_max_free_interval_list_size q) (m_free_interval_list q) (m_utilized_time q)
        (m_total_queue_delay q) m (m_analytical_model_enabled q) (m_total_requests q)
        (m_total_requests_using_analytical_model q)).

(** A packet that ends before the oldest free interval. *)
Definition old_packet (pkt_time processing_time : Z) (oldest : Z * Z) (q : t) : bool :=
  m_analytical_model_enabled q && (time_add pkt_time processing_time <=? oldest.1).
Definition delay (pkt_time processing_time : Z) (q : t) : res (Z * t) :=
  match m_free_interval_list q with
  | [] => Err (ErrLog "Free Interval list size < 1")
  | oldest :: _ =>
      let old := old_packet pkt_time processing_time oldest q in
      let? r := (if old then let? d := computeUsingAnalyticalModel q in Ok (d, q)
                 else let? r := computeUsingHistoryList pkt_time processing_time q in
                      let? q := updateAverageDelay r.1 r.2 in Ok (r.1, q)) in
      let '(queue_delay, q) := r in
      Ok (queue_delay,
          mk (m_min_processing_time q) (m_max_free_interval_list_size q) (m_free_interval_list q)
            (time_add (m_utilized_time q) processing_time) (time_add (m_total_queue_delay q) queue_delay)
            (m_average_delay q) (m_analytical_model_enabled q) (u64 (m_total_requests q + 1))
            (if old then u64 (m_total_requests_using_analytical_model q + 1)
             else m_total_requests_using_analytical_model q))
  end.
End HistoryList.

(** * QueueModelContention *)
Module Contention.
Definition delay (pkt_time processing_time : Z) (c : ContentionModel) : Z * ContentionModel :=
  let r := getCompletionTime pkt_time processing_time 0 c in
  (time_sub (time_sub r.1 pkt_time) processing_time, r.2).
End Contention.

(** * QueueModelWindowedMG1 *)
Module WindowedMG1.
(** The multimap is the list of its pairs in the order of the iteration. *)
Record t : Type := mk {
  m_window_size : Z;
  m_total_requests : Z;
  m_total_utilized_time : Z;
  m_total_queue_delay : Z;
  m_window : list (Z * Z);
  m_num_arrivals : Z;
  m_service_time_sum : Z;
  m_service_time_sum2 : Z
}.
Definition new (window_size_ns : Z) : t := mk (NS window_size_ns) 0 Zero Zero [] 0 0 0.

(** A pair goes behind the pairs with the same key. *)
Fixpoint window_insert (k v : Z) (l : list (Z * Z)) : list (Z * Z) :=
  match l with
  | [] => [(k, v)]
  | e :: l => if k <? e.1 then (k, v) :: e :: l else e :: window_insert k v l
  end.
Definition addItem (pkt_time service_time : Z) (q : t) : t :=
  let s := getPS service_time in
  mk (m_window_size q) (m_total_requests q) (m_total_utilized_time q) (m_total_queue_delay q)
    (window_insert pkt_time service_time (m_window q)) (u64 (m_num_arrivals q + 1))
    (u64 (m_service_time_sum q + s)) (u64 (m_service_time_sum2 q + u64 (s * s))).
Fixpoint remove_loop (earliest_time : Z) (l : list (Z * Z)) (n s s2 : Z) : list (Z * Z) * Z * Z * Z :=
  match l with
  | e :: l' =>
      if e.1 <? earliest_time then
        let x := getPS e.2 in
        remove_loop earliest_time l' (u64 (n - 1)) (u64 (s - x)) (u64 (s2 - u64 (x * x)))
      else (l, n, s, s2)
  | [] => ([], n, s, s2)
  end.
Definition removeItems (earliest_time : Z) (q : t) : t :=
  let '(l, n, s, s2) := remove_loop earliest_time (m_window q) (m_num_arrivals q) (m_service_time_sum q)
                          (m_service_time_sum2 q) in
  mk (m_window_size q) (m_total_requests q) (m_total_utilized_time q) (m_total_queue_delay q) l n s s2.

Definition delay (estimate : Z → Z → Z → Z → Z) (global_time pkt_time processing_time : Z) (q : t) : Z * t :=
  let w := m_window_size q in
  let q := removeItems (Z.max (time_sub global_time w) (time_sub pkt_time (time_mul w 10))) q in
  let t_queue :=
    if 1 <? m_num_arrivals q then
      Z.min (PS (estimate (m_num_arrivals q) (m_service_time_sum q) (m_service_time_sum2 q) (getPS w))) w
    else Zero in
  let q := addItem pkt_time processing_time q in
  (t_queue, mk w (u64 (m_total_requests q + 1)) (time_add (m_total_utilized_time q) processing_time)
              (time_add (m_total_queue_delay q) t_queue) (m_window q) (m_num_arrivals q)
              (m_service_time_sum q) (m_service_time_sum2 q)).
End WindowedMG1.

(** * QueueModel *)
Inductive QueueModel : Type :=
| QBasic (q : Basic.t)
| QHistoryList (q : HistoryList.t)
| QContention (q : ContentionModel)
| QWindowedMG1 (q : WindowedMG1.t).

(** The entries of the configuration below queue_model/. *)
Record QueueCfg : Type := mkQueueCfg {
  moving_avg_enabled : bool;
  moving_avg_window_size : Z;
  moving_avg_type : string;
  analytical_model_enabled : bool;
  max_list_size : Z;
  window_size : Z
}.

Definition QueueModel_create (cfg : QueueCfg) (model_type : string) (min_processing_time : Z) : res QueueModel :=
  if decide (model_type = "basic"%string) then
    let? q := Basic.new (moving_avg_enabled cfg) (moving_avg_window_size cfg) (moving_avg_type cfg) in Ok (QBasic q)
  else if decide (model_type = "history_list"%string) then
    let? q := HistoryList.new (analytical_model_enabled cfg) (max_list_size cfg) min_processing_time in
    Ok (QHistoryList q)
  else if decide (model_type = "contention"%string) then Ok (QContention (ContentionModel_new 1))
  else if decide (model_type = "windowed_mg1"%string) then Ok (QWindowedMG1 (WindowedMG1.new (window_size cfg)))
  else Err (ErrLog "Unrecognized Queue Model Type").

Section Delay.
Context (root : Z → Z → Z) (estimate : Z → Z → Z → Z → Z).
Definition computeQueueDelay (global_time pkt_time processing_time : Z) (q : QueueModel) : res (Z * QueueModel) :=
  match q with
  | QBasic q => let? r := Basic.delay root pkt_time processing_time q in Ok (r.1, QBasic r.2)
  | QHistoryList q => let? r := HistoryList.delay pkt_time processing_time q in Ok (r.1, QHistoryList r.2)
  | QContention c => let r := Contention.delay pkt_time processing_time c in Ok (r.1, QContention r.2)
  | QWindowedMG1 q =>
      let r := WindowedMG1.delay estimate global_time pkt_time processing_time q in Ok (r.1, QWindowedMG1 r.2)
  end.
End Delay.

(** * Facts about the history list *)
Import HistoryList.

(** The resource is free at [t]. *)
Definition free_at (l : list (Z * Z)) (t : Z) : Prop := Exists (during t) l.
(** Intervals in order, with a gap between them, each long enough for a packet
    of the least processing time [p]. *)
Inductive spaced (p : Z) : Z → list (Z * Z) → Prop :=
| spaced_nil low : spaced p low []
| spaced_cons low a b l : low < a → a + p ≤ b → b ≤ 2 ^ 63 → spaced p b l → spaced p low ((a, b) :: l).

Lemma spaced_weaken p low low' l : low' ≤ low → spaced p low l → spaced p low' l.
Proof. intros Hl Hs. inversion Hs; subst; constructor; lia || done. Qed.
Lemma spaced_free p low l t : 0 < p → spaced p low l → free_at l t → low < t < 2 ^ 63.
Proof.
  intros Hp Hs. induction Hs as [|low a b l Ha Hab Hb Hs IH]; intros Hf; [by inversion Hf|].
  inversion Hf as [? ? [H1 H2]|]; subst; [simpl in *; lia|]. pose proof (IH ltac:(done)). lia.
Qed.
Lemma keep_if_spaced p low a b l : 0 < p → -1 ≤ low < a → a ≤ b ≤ 2 ^ 63 → spaced p b l → spaced p low (keep_if p a b ++ l).
Proof.
  intros Hp Ha Hb Hs. unfold keep_if, time_sub. rewrite u64_id by (unfold in_u64; lia).
  destruct (Z.leb_spec p (b - a)); simpl; [constructor; lia || done|]. apply (spaced_weaken p b); [lia|done].
Qed.
Lemma keep_if_free p a b l t : free_at (keep_if p a b ++ l) t → during t (a, b) ∨ free_at l t.
Proof. unfold keep_if. case_match; simpl; [|by right]. intros Hf. inversion Hf; subst; [by left|by right]. Qed.

(** The packet is served from [pkt + d] on: in a time that was free and is not
    any more, and no earlier time at which the whole service is free will do. *)
Record taken (p low pkt proc : Z) (l : list (Z * Z)) (d : Z) (l' : list (Z * Z)) : Prop := {
  tk_delay : 0 ≤ d < 2 ^ 63;
  tk_spaced : spaced p low l';
  tk_was t : pkt + d ≤ t < pkt + d + proc → free_at l t;
  tk_free t : free_at l' t → free_at l t ∧ ¬ (pkt + d ≤ t < pkt + d + proc);
  tk_first s : pkt ≤ s < pkt + d → ∃ t, s ≤ t < s + proc ∧ ¬ free_at l t;
  tk_keeps s : (∀ t, s ≤ t < s + p → free_at l t ∧ ¬ (pkt + d ≤ t < pkt + d + proc)) →
    ∀ t, s ≤ t < s + p → free_at l' t
}.

Lemma free_cons a b l t : free_at ((a, b) :: l) t ↔ a ≤ t < b ∨ free_at l t.
Proof. apply Exists_cons. Qed.
Lemma spaced_after p low l t : 0 < p → spaced p low l → t ≤ low → ¬ free_at l t.
Proof. intros Hp Hs Ht Hf. pose proof (spaced_free p low l t Hp Hs Hf). lia. Qed.

(** A time of length [p] that is free lies in one interval, since there is a gap
    between any two. *)
Lemma window_in p a b l s : 0 < p → spaced p b l → (∀ t, s ≤ t < s + p → free_at ((a, b) :: l) t) →
  (a ≤ s ∧ s + p ≤ b) ∨ (∀ t, s ≤ t < s + p → free_at l t).
Proof.
  intros Hp Hs Hw. destruct (proj1 (free_cons _ _ _ _) (Hw s ltac:(lia))) as [Hin|Hl].
  - left. split; [lia|]. destruct (decide (s + p ≤ b)) as [|Hgt]; [done|]. exfalso.
    destruct (proj1 (free_cons _ _ _ _) (Hw b ltac:(lia))) as [?|Hb]; [lia|].
    by apply (spaced_after p b l b Hp Hs ltac:(lia)).
  - right. intros t Ht. pose proof (spaced_free p b l s Hp Hs Hl).
    destruct (proj1 (free_cons _ _ _ _) (Hw t Ht)) as [?|?]; [lia|done].
Qed.
Lemma keep_if_has p x y l t : 0 ≤ x → p ≤ y - x < 2 ^ 64 → 0 < p → x ≤ t < y → free_at (keep_if p x y ++ l) t.
Proof.
  intros Hx Hy Hp Ht. unfold keep_if, time_sub. rewrite u64_id by (unfold in_u64; lia).
  rewrite (proj2 (Z.leb_le _ _)) by lia. simpl. apply free_cons. by left.
Qed.
Lemma free_app l1 l2 t : free_at l2 t → free_at (l1 ++ l2) t.
Proof. intros Hf. apply Exists_app. by right. Qed.

(** The three ways through the loop. *)
Section Taken.
Context (p low pkt proc a b : Z) (l : list (Z * Z)).
Context (Hlow : -1 ≤ low) (Hproc : 0 < proc ≤ p) (Hpkt : 0 ≤ pkt < 2 ^ 63).
Context (Ha : low < a) (Hab : a + p ≤ b) (Hb : b ≤ 2 ^ 63) (Hs : spaced p b l).

Lemma taken_now : a ≤ pkt → pkt + proc ≤ b →
  taken p low pkt proc ((a, b) :: l) 0 (keep_if p a pkt ++ keep_if p (pkt + proc) b ++ l).
Proof.
  intros H1 H2. constructor; [lia| | | |intros s; lia|].
  - apply keep_if_spaced; [lia|lia|lia|]. apply keep_if_spaced; [lia|lia|lia|done].
  - intros t Ht. apply free_cons. left. lia.
  - intros t Hf. rewrite free_cons. apply keep_if_free in Hf as [[??]|[[??]|Hf]%keep_if_free]; simpl in *; [lia|lia|].
    pose proof (spaced_free p b l t ltac:(lia) Hs Hf). split; [by right|lia].
  - intros s Hw t Ht. destruct (window_in p a b l s ltac:(lia) Hs (λ t Ht, proj1 (Hw t Ht))) as [Hin|Hl].
    + destruct (decide (s + p ≤ pkt)); [apply keep_if_has; lia|]. apply free_app.
      destruct (decide (pkt + proc ≤ s)); [apply keep_if_has; lia|]. exfalso.
      destruct (decide (s ≤ pkt)); [apply (proj2 (Hw pkt ltac:(lia))); lia|apply (proj2 (Hw s ltac:(lia))); lia].
    + do 2 apply free_app. by apply Hl.
Qed.
Lemma taken_later : pkt < a →
  taken p low pkt proc ((a, b) :: l) (a - pkt) (keep_if p (a + proc) b ++ l).
Proof.
  intros H1. constructor; [lia| | | | |].
  - apply keep_if_spaced; [lia|lia|lia|done].
  - intros t Ht. apply free_cons. left. lia.
  - intros t Hf. rewrite free_cons. apply keep_if_free in Hf as [[??]|Hf]; simpl in *; [lia|].
    pose proof (spaced_free p b l t ltac:(lia) Hs Hf). split; [by right|lia].
  - intros s Hs'. exists s. split; [lia|]. rewrite free_cons. intros [?|Hf]; [lia|].
    by apply (spaced_after p b l s ltac:(lia) Hs ltac:(lia)).
  - intros s Hw t Ht. destruct (window_in p a b l s ltac:(lia) Hs (λ t Ht, proj1 (Hw t Ht))) as [Hin|Hl].
    + destruct (decide (a + proc ≤ s)); [apply keep_if_has; lia|]. exfalso. apply (proj2 (Hw s ltac:(lia))). lia.
    + apply free_app. by apply Hl.
Qed.
Lemma taken_skip d l' : a ≤ pkt → b < pkt + proc → taken p b pkt proc l d l' →
  taken p low pkt proc ((a, b) :: l) d ((a, b) :: l').
Proof.
  intros H1 H2 [Hd Hsp Hw Hf Hm Hk]. constructor; [done|by constructor| | | |].
  - intros t Ht. apply free_cons. right. by apply Hw.
  - intros t. rewrite !free_cons. intros [Ht|[Hl Hn]%Hf]; [|by split; [right|]]. split; [by left|]. intros Hin.
    apply (spaced_after p b l t ltac:(lia) Hs); [lia|]. by apply Hw.
  - intros s Hr. destruct (decide (s < b)).
    + exists b. split; [lia|]. rewrite free_cons. intros [?|Hfr]; [lia|]. by apply (spaced_after p b l b ltac:(lia) Hs ltac:(lia)).
    + destruct (Hm s Hr) as (t & Ht & Hn). exists t. split; [done|]. rewrite free_cons. intros [?|?]; [lia|done].
  - intros s Hwin t Ht. apply free_cons. destruct (window_in p a b l s ltac:(lia) Hs (λ t Ht, proj1 (Hwin t Ht))) as [Hin|Hl].
    + left. lia.
    + right. apply (Hk s); [|done]. intros t' Ht'. split; [by apply Hl|]. apply (proj2 (Hwin t' Ht')).
Qed.
End Taken.

Lemma take_interval_taken p low pkt proc l d l' :
  -1 ≤ low → 0 < proc ≤ p → 0 ≤ pkt < 2 ^ 63 → p ≤ 2 ^ 62 → spaced p low l →
  take_interval p pkt proc l = Some (d, l') → taken p low pkt proc l d l'.
Proof.
  intros Hlow Hproc Hpkt Hp Hs. revert d l'. induction Hs as [|low a b l Ha Hab Hb Hs IH]; intros d l'; [done|].
  simpl. unfold time_add, time_sub. rewrite !(u64_id (pkt + proc)), !(u64_id (a + proc)) by (unfold in_u64; lia).
  destruct (Z.leb_spec a pkt), (Z.leb_spec (pkt + proc) b), (Z.ltb_spec pkt a); simpl; try lia.
  - intros [= <- <-]. by apply taken_now.
  - destruct (take_interval p pkt proc l) as [[d1 l1]|] eqn:Ht; [|done]. intros [= <- <-].
    apply taken_skip; try done. apply IH; [lia|done].
  - intros [= <- <-]. rewrite u64_id by (unfold in_u64; lia). by apply taken_later.
Qed.

(** The last interval reaches to the end of time: a packet that starts before
    [B] finds an interval, and moves the start of the last one by at most its
    processing time. *)
Definition ends_by (B : Z) (l : list (Z * Z)) : Prop := ∃ x, last l = Some (x, 2 ^ 63) ∧ x ≤ B.
Lemma last_app_some {A} (l1 l2 : list A) x : last l2 = Some x → last (l1 ++ l2) = Some x.
Proof. intros Hl. rewrite last_app, Hl. done. Qed.
Lemma keep_if_last p a B : 0 ≤ a ≤ B → 0 < p → B + p ≤ 2 ^ 63 → ends_by B (keep_if p a (2 ^ 63)).
Proof.
  intros Ha Hp HB. unfold keep_if, time_sub. rewrite u64_id by (unfold in_u64; lia).
  rewrite (proj2 (Z.leb_le p (2 ^ 63 - a))) by lia. exists a. split; [done|lia].
Qed.
Lemma ends_by_app B l1 l2 : ends_by B l2 → ends_by B (l1 ++ l2).
Proof. intros (x & Hl & Hx). exists x. split; [by apply last_app_some|done]. Qed.
Lemma ends_by_weaken B B' l : B ≤ B' → ends_by B l → ends_by B' l.
Proof. intros HB (x & ? & ?). exists x. split; [done|lia]. Qed.

Lemma take_interval_ends p low B pkt proc l :
  -1 ≤ low → 0 < proc ≤ p → 0 ≤ pkt ≤ B → B + 2 * p ≤ 2 ^ 63 → spaced p low l → ends_by B l →
  ∃ d l', take_interval p pkt proc l = Some (d, l') ∧ ends_by (B + p) l' ∧ (length l' ≤ S (length l))%nat.
Proof.
  intros Hlow Hproc Hpkt HB Hs. induction Hs as [|low a b l Ha Hab Hb Hs IH]; intros He; [by destruct He as (x & ? & _)|].
  assert (Hlen : ∀ x y, (length (keep_if p x y) ≤ 1)%nat) by (intros; unfold keep_if; case_match; simpl; lia).
  assert (Hl : (l = [] ∧ b = 2 ^ 63 ∧ a ≤ B) ∨ ends_by B l).
  { destruct He as (x & Hx & HxB). destruct l as [|i l]; [left; naive_solver|right]. exists x. split; [|done].
    by rewrite last_cons_cons in Hx. }
  simpl. unfold time_add. rewrite !(u64_id (pkt + proc)), !(u64_id (a + proc)) by (unfold in_u64; lia).
  destruct (Z.leb_spec a pkt), (Z.leb_spec (pkt + proc) b), (Z.ltb_spec pkt a); cbn [andb]; try lia.
  - do 2 eexists. split; [done|]. split; [|rewrite !length_app; pose proof (Hlen a pkt); pose proof (Hlen (pkt + proc) b); simpl; lia].
    apply ends_by_app. destruct Hl as [(-> & -> & ?)|Hl]; [rewrite app_nil_r; apply keep_if_last; lia|].
    apply ends_by_app. by apply (ends_by_weaken B); [lia|].
  - destruct Hl as [(-> & -> & ?)|Hl]; [lia|]. destruct (IH ltac:(lia) Hl) as (d & l' & -> & He' & Hle).
    do 2 eexists. split; [done|]. split; [|simpl; lia]. apply (ends_by_app _ [(a, b)]). done.
  - do 2 eexists. split; [done|]. split; [|rewrite length_app; pose proof (Hlen (a + proc) b); simpl; lia].
    destruct Hl as [(-> & -> & ?)|Hl]; [rewrite app_nil_r; apply keep_if_last; lia|].
    apply ends_by_app. by apply (ends_by_weaken B); [lia|].
Qed.

Record hl_ok (p B : Z) (q : HistoryList.t) : Prop := {
  ho_min : m_min_processing_time q = p;
  ho_size : 1 ≤ m_max_free_interval_list_size q < 2 ^ 31;
  ho_spaced : spaced p (-1) (m_free_interval_list q);
  ho_ends : ends_by B (m_free_interval_list q);
  ho_length : Z.of_nat (length (m_free_interval_list q)) ≤ m_max_free_interval_list_size q;
  ho_average : ∃ h, averages (m_max_free_interval_list_size q) h (m_average_delay q) ∧
                    (h = [] → m_free_interval_list q = [(0, 2 ^ 63)])
}.

Lemma spaced_tail p low l : spaced p low l → 0 < p → spaced p low (tail l).
Proof. intros Hs Hp. destruct Hs as [|low a b l]; [constructor|]. simpl. apply (spaced_weaken p b); [lia|done]. Qed.
Lemma free_tail l t : free_at (tail l) t → free_at l t.
Proof. destruct l; [done|]. intros Hf. by right. Qed.
(** The list with its oldest interval dropped if it is too long. *)
Definition cut (max : Z) (l : list (Z * Z)) : list (Z * Z) := if max <? Z.of_nat (length l) then tail l else l.
Lemma cut_free max l t : free_at (cut max l) t → free_at l t.
Proof. unfold cut. case_match; [apply free_tail|done]. Qed.
Lemma cut_ok p B max l : 0 < p → 1 ≤ max → spaced p (-1) l → ends_by B l → Z.of_nat (length l) ≤ max + 1 →
  spaced p (-1) (cut max l) ∧ ends_by B (cut max l) ∧ Z.of_nat (length (cut max l)) ≤ max.
Proof.
  intros Hp Hm Hs He Hl. unfold cut. destruct (Z.ltb_spec max (Z.of_nat (length l))); [|done].
  split; [by apply spaced_tail|]. destruct l as [|i [|j l]]; simpl in *; [lia|lia|]. split; [|lia].
  destruct He as (x & Hx & ?). exists x. by rewrite last_cons_cons in Hx.
Qed.

Lemma history_step p B pkt proc q :
  hl_ok p B q → 0 < proc ≤ p → 0 ≤ pkt ≤ B → B + 2 * p ≤ 2 ^ 63 →
  ∃ d l q', take_interval p pkt proc (m_free_interval_list q) = Some (d, l) ∧
    taken p (-1) pkt proc (m_free_interval_list q) d l ∧ computeUsingHistoryList pkt proc q = Ok (d, q') ∧
    q' = put_list (cut (m_max_free_interval_list_size q) l) q ∧ ends_by (B + p) l ∧
    (length l ≤ S (length (m_free_interval_list q)))%nat.
Proof.
  intros [Hmin Hsz Hsp He Hlen _] Hproc Hpkt HB.
  destruct (take_interval_ends p (-1) B pkt proc _ ltac:(lia) Hproc Hpkt HB Hsp He) as (d & l & Ht & He' & Hl).
  pose proof (take_interval_taken p (-1) pkt proc _ d l ltac:(lia) Hproc ltac:(lia) ltac:(lia) Hsp Ht) as Htk.
  exists d, l, (put_list (cut (m_max_free_interval_list_size q) l) q). split; [done|]. split; [done|].
  split; [|split; [done|split; [done|done]]]. unfold computeUsingHistoryList. rewrite Hmin, Ht.
  rewrite (proj2 (Z.leb_le _ _) Hlen). simpl. pose proof (tk_delay _ _ _ _ _ _ _ Htk).
  rewrite (proj2 (Z.eqb_neq d MaxTime)) by (unfold MaxTime; lia). done.
Qed.

(** A packet: by the average, or by the list. *)
Definition by_list (pkt proc : Z) (q : HistoryList.t) : bool :=
  match m_free_interval_list q with [] => true | oldest :: _ => negb (old_packet pkt proc oldest q) end.

Lemma delay_ok p B pkt proc q :
  hl_ok p B q → 0 < proc ≤ p → 0 ≤ pkt ≤ B → B + 2 * p ≤ 2 ^ 63 →
  ∃ d q', HistoryList.delay pkt proc q = Ok (d, q') ∧ hl_ok p (B + p) q' ∧
    m_max_free_interval_list_size q' = m_max_free_interval_list_size q ∧
    if by_list pkt proc q then
      ∃ l, taken p (-1) pkt proc (m_free_interval_list q) d l ∧
           m_free_interval_list q' = cut (m_max_free_interval_list_size q) l ∧
           (length l ≤ S (length (m_free_interval_list q)))%nat
    else m_free_interval_list q' = m_free_interval_list q.
Proof.
  intros Hq Hproc Hpkt HB. destruct (history_step p B pkt proc q Hq Hproc Hpkt HB) as (d & l & q1 & Ht & Htk & Hc & -> & He & Hl).
  destruct Hq as [Hmin Hsz Hsp Hend Hlen (h & Hav & Hh)]. unfold HistoryList.delay, by_list.
  destruct (m_free_interval_list q) as [|o r] eqn:Hlist; [by destruct Hend as (? & ? & _)|].
  destruct (old_packet pkt proc o q) eqn:Hold; simpl.
  - assert (Hne : h ≠ []).
    { intros ->. specialize (Hh eq_refl). simplify_eq. unfold old_packet, time_add in Hold. simpl in Hold.
      rewrite u64_id in Hold by (unfold in_u64; lia). apply andb_true_iff in Hold as [_ Hle%Z.leb_le]. lia. }
    unfold computeUsingAnalyticalModel, ma_compute. destruct Hav as (W & Hty & Hw & Hsum).
    rewrite (windows_size _ _ W), Hty. cbn [res_bind mn_value].
    assert (0 < Z.of_nat (length h)) by (destruct h; simpl; [done|lia]). rewrite Hw, time_div_Ok by lia. cbn [res_bind].
    do 2 eexists. split; [done|]. split; [|by simpl; rewrite ?Hlist].
    constructor; simpl; rewrite ?Hlist; try done; [by apply (ends_by_weaken B); [lia|]|by exists h].
  - rewrite Hc. cbn [res_bind fst snd]. unfold updateAverageDelay.
    destruct (averages_update _ _ _ d Hav) as (m' & Hu & Hav').
    change (m_average_delay (put_list (cut (m_max_free_interval_list_size q) l) q)) with (m_average_delay q). rewrite Hu.
    cbn [res_bind]. do 2 eexists. split; [done|].
    destruct (cut_ok p (B + p) (m_max_free_interval_list_size q) l ltac:(lia) ltac:(lia) (tk_spaced _ _ _ _ _ _ _ Htk) He ltac:(simpl in *; lia)) as (H1 & H2 & H3).
    split; [|split; [done|by exists l]].
    constructor; simpl; try done. exists (h ++ [d]). split; [done|]. by intros ?%app_eq_nil%proj2.
Qed.

Lemma hl_ok_new analytical size p B :
  0 < p → 1 ≤ size < 2 ^ 31 → 0 ≤ B → B + p ≤ 2 ^ 63 →
  ∃ q, HistoryList.new analytical size p = Ok q ∧ hl_ok p B q.
Proof.
  intros Hp Hs HB Hle.
  exists (HistoryList.mk p size [(0, 2 ^ 63)] 0 0 (createAvgType ARITHMETIC_MEAN size) analytical 0 0). split; [reflexivity|].
  constructor; cbn [m_min_processing_time m_max_free_interval_list_size m_free_interval_list m_average_delay length]; try done; try lia.
  - constructor; [lia|lia|done|constructor].
  - exists 0. split; [done|lia].
  - exists []. split; [by apply averages_new|done].
Qed.

(** The packets [reqs], each with its time and its processing time, one after
    the other: the times at which those packets are served whose delay is
    computed by the list, and the queue afterwards. *)
Fixpoint serve_all (reqs : list (Z * Z)) (q : HistoryList.t) : res (list (Z * Z) * HistoryList.t) :=
  match reqs with
  | [] => Ok ([], q)
  | (pkt, proc) :: reqs =>
      let? r := HistoryList.delay pkt proc q in
      let? s := serve_all reqs r.2 in
      Ok (if by_list pkt proc q then (pkt + r.1, pkt + r.1 + proc) :: s.1 else s.1, s.2)
  end.

(** What the list knows of the services [s] since [q]: its free times are free, and
    as long as no interval is dropped for want of room a time of length [p] without
    a service is free in it. *)
Record follows_services (p : Z) (s : list (Z * Z)) (q q' : HistoryList.t) : Prop := {
  fs_once t : (count (during t) s ≤ 1)%nat;
  fs_was t : count (during t) s ≠ 0%nat → free_at (m_free_interval_list q) t;
  fs_free t : free_at (m_free_interval_list q') t → free_at (m_free_interval_list q) t ∧ count (during t) s = 0%nat
}.
Definition knows_gaps (p : Z) (s : list (Z * Z)) (q q' : HistoryList.t) : Prop :=
  ∀ x, (∀ t, x ≤ t < x + p → free_at (m_free_interval_list q) t ∧ count (during t) s = 0%nat) →
    ∀ t, x ≤ t < x + p → free_at (m_free_interval_list q') t.

Lemma count_cons t e s : count (during t) (e :: s) = ((if decide (during t e) then 1 else 0) + count (during t) s)%nat.
Proof. rewrite filter_cons. by destruct (decide (during t e)). Qed.
(** One more service, ahead of the others. *)
Lemma follows_cons p pkt proc d l s q q1 q' :
  taken p (-1) pkt proc (m_free_interval_list q) d l →
  m_free_interval_list q1 = cut (m_max_free_interval_list_size q) l → follows_services p s q1 q' →
  follows_services p ((pkt + d, pkt + d + proc) :: s) q q'.
Proof.
  intros Htk Hq1 [Ho Hw Hf].
  assert (Hsub : ∀ t, free_at (m_free_interval_list q1) t → free_at (m_free_interval_list q) t ∧ ¬ (pkt + d ≤ t < pkt + d + proc)).
  { intros t Ht. rewrite Hq1 in Ht. apply (tk_free _ _ _ _ _ _ _ Htk t). by apply cut_free in Ht. }
  assert (Hz : ∀ t, pkt + d ≤ t < pkt + d + proc → count (during t) s = 0%nat).
  { intros t Ht. destruct (decide (count (during t) s = 0%nat)) as [|Hne]; [done|]. exfalso.
    by apply (proj2 (Hsub t (Hw t Hne))). }
  split; intros t; rewrite count_cons; destruct (decide (during t _)) as [Hd|Hd]; simpl.
  - rewrite Hz by done. lia.
  - apply Ho.
  - intros _. by apply (tk_was _ _ _ _ _ _ _ Htk).
  - intros Hne. by apply (Hsub t (Hw t Hne)).
  - intros Ht. exfalso. by apply (proj2 (Hsub t (proj1 (Hf t Ht)))).
  - intros Ht. destruct (Hf t Ht) as [H1 H2]. split; [by apply Hsub|done].
Qed.
Lemma gaps_cons p pkt proc d l s q q1 q' :
  taken p (-1) pkt proc (m_free_interval_list q) d l → m_free_interval_list q1 = l → knows_gaps p s q1 q' →
  knows_gaps p ((pkt + d, pkt + d + proc) :: s) q q'.
Proof.
  intros Htk Hq1 Hg x Hx. apply Hg. intros t Ht. rewrite Hq1. pose proof (Hx t Ht) as [_ Hc]. rewrite count_cons in Hc.
  destruct (decide (during t _)) as [|Hd]; [lia|]. split; [|lia]. apply (tk_keeps _ _ _ _ _ _ _ Htk x); [|done].
  intros t' Ht'. destruct (Hx t' Ht') as [Hf Hc']. split; [done|]. intros Hin. rewrite count_cons, decide_True in Hc' by done. lia.
Qed.

Lemma serve_all_ok p T B reqs q :
  hl_ok p B q → 0 < p → 0 ≤ T ≤ B → B + (Z.of_nat (length reqs) + 1) * p ≤ 2 ^ 63 →
  Forall (λ r, 0 ≤ r.1 ≤ T ∧ 0 < r.2 ≤ p) reqs →
  ∃ s q', serve_all reqs q = Ok (s, q') ∧ hl_ok p (B + Z.of_nat (length reqs) * p) q' ∧ follows_services p s q q' ∧
    (Z.of_nat (length (m_free_interval_list q) + length reqs) ≤ m_max_free_interval_list_size q → knows_gaps p s q q').
Proof.
  revert B q. induction reqs as [|[pkt proc] reqs IH]; intros B q Hq Hp HT HB Hall.
  - exists [], q. split; [done|]. split; [by rewrite Z.mul_0_l, Z.add_0_r|].
    split; [split; [simpl; lia|done|done]|]. intros _ x Hx t Ht. by apply Hx.
  - apply Forall_cons in Hall as [[H1 H2] Hall]. cbn [fst snd] in *. cbn [length serve_all] in *.
    destruct (delay_ok p B pkt proc q Hq H2 ltac:(lia) ltac:(nia)) as (d & q1 & -> & Hq1 & Hmax & Hby). cbn [res_bind fst snd].
    destruct (IH (B + p) q1 Hq1 Hp ltac:(lia) ltac:(lia) Hall) as (s & q' & -> & Hq' & Hs & Hg). cbn [res_bind fst snd].
    do 2 eexists. split; [done|]. split.
    { replace (B + Z.of_nat (S (length reqs)) * p) with (B + p + Z.of_nat (length reqs) * p) by lia. done. }
    rewrite Hmax in Hg. destruct (by_list pkt proc q).
    + destruct Hby as (l & Htk & Hl & Hlen). split; [by eapply follows_cons|]. intros Hroom.
      assert (Hcut : m_free_interval_list q1 = l) by (rewrite Hl; unfold cut; by rewrite (proj2 (Z.ltb_ge _ _)) by lia).
      apply (gaps_cons p pkt proc d l s q q1 q' Htk Hcut). apply Hg. rewrite Hcut. lia.
    + destruct Hs as [Ho Hw Hf]. rewrite Hby in Hw, Hf. unfold knows_gaps in Hg |- *. rewrite Hby in Hg. split; [done|].
      intros Hroom. apply Hg. lia.
Qed.



(** A packet that does not fit into the gap before which it arrives is served
    in the gap nevertheless, over the service of another packet; the rest of
    the gap is computed by an unsigned subtraction, which leaves a reversed
    interval in the list: it starts at 25 and ends at 22. *)
Lemma long_packet_reverses_interval :
  (let? q := HistoryList.new false 100 1 in
   let? r := serve_all [(10, 10); (22, 10); (15, 5)] q in
   Ok (r.1, m_free_interval_list r.2))
  = Ok ([(10, 20); (22, 32); (20, 25)], [(0, 10); (25, 22); (32, 2 ^ 63)]).
Proof. vm_compute. reflexivity. Qed.

(** * Facts about the windowed M/G/1 model *)

(** At most one packet is in the window, from the first ten windows. *)
Definition mg1_young (w : Z) (q : WindowedMG1.t) : Prop :=
  WindowedMG1.m_window_size q = w ∧
  ((WindowedMG1.m_window q = [] ∧ WindowedMG1.m_num_arrivals q = 0) ∨
   ∃ e, WindowedMG1.m_window q = [e] ∧ WindowedMG1.m_num_arrivals q = 1 ∧ e.1 < 10 * w).
Lemma mg1_young_step estimate w global pkt proc q :
  mg1_young w q → 0 < w → 20 * w ≤ 2 ^ 64 → 0 ≤ pkt < 10 * w →
  ∃ q', WindowedMG1.delay estimate global pkt proc q = (Zero, q') ∧ mg1_young w q'.
Proof.
  intros [Hw Hy] Hpos Hle Hpkt. unfold WindowedMG1.delay, WindowedMG1.removeItems. rewrite Hw.
  set (e := Z.max _ _).
  assert (He : 10 * w ≤ e).
  { subst e. unfold time_mul. rewrite (u64_id (w * 10)) by (unfold in_u64; lia).
    assert (Hs : time_sub pkt (w * 10) = 2 ^ 64 - (w * 10 - pkt)).
    { unfold time_sub, u64. symmetry. apply (Z.mod_unique_pos _ _ (-1)); lia. }
    rewrite Hs. lia. }
  destruct Hy as [[-> ->]|(x & -> & -> & Hx)]; cbn [WindowedMG1.remove_loop].
  - eexists. split; [reflexivity|]. split; [done|]. right. eexists. split; [reflexivity|]. split; [done|simpl; lia].
  - rewrite (proj2 (Z.ltb_lt x.1 e)) by lia.
    eexists. split; [reflexivity|]. split; [done|]. right. eexists. split; [reflexivity|]. split; [done|simpl; lia].
Qed.

(** The delays of packets, each with its time, its processing time and the
    time of the barrier. *)
Fixpoint mg1_delays (estimate : Z → Z → Z → Z → Z) (reqs : list (Z * Z * Z)) (q : WindowedMG1.t) : list Z :=
  match reqs with
  | [] => []
  | (pkt, proc, global) :: reqs =>
      let r := WindowedMG1.delay estimate global pkt proc q in r.1 :: mg1_delays estimate reqs r.2
  end.

(** The windowed model sees no contention during the first ten windows: the
    time ten windows before the packet wraps around, so that every packet
    first empties the window. *)
Theorem mg1_blind_at_start estimate ns reqs :
  0 < ns → 20 * (1000000 * ns) ≤ 2 ^ 64 → Forall (λ r, 0 ≤ r.1.1 < 10 * (1000000 * ns)) reqs →
  Forall (λ d, d = Zero) (mg1_delays estimate reqs (WindowedMG1.new ns)).
Proof.
  intros Hns Hle Hall. set (w := 1000000 * ns) in *.
  assert (Hy : mg1_young w (WindowedMG1.new ns)).
  { split; [|left; done]. simpl. unfold of_unit, time_mul. change (unit_1 Nano) with 1000000.
    rewrite u64_id; [done|]. unfold in_u64. lia. }
  revert Hy. generalize (WindowedMG1.new ns) as q. induction Hall as [|[[pkt proc] global] reqs Hr Hall IH]; intros q Hy; [constructor|].
  cbn [mg1_delays]. destruct (mg1_young_step estimate w global pkt proc q Hy ltac:(lia) Hle Hr) as (q' & -> & Hy').
  constructor; [done|by apply IH].
Qed.
