(* ===== verification/CacheBlock.v ===== *)
(** Cache lines: [cache_state.h], [cache_block_info.{h,cc}],
    [pr_l1_cache_block_info.h], [pr_l2_cache_block_info.{h,cc}] and
    [shared_cache_block_info.{h,cc}] of
    src/common/core/memory_subsystem/cache, with [mem_component.h].
    A block info object is one of three classes; [BlockInfo] is their union and
    its operations dispatch the way the virtual methods do. *)
From S2P Require Import Prelude.
Local Open Scope Z_scope.

Module CacheState.
Inductive cstate_t : Type :=
| INVALID | SHARED | SHARED_UPGRADING | EXCLUSIVE | OWNED | MODIFIED
| INVALID_COLD | INVALID_EVICT | INVALID_COHERENCY.

#[global] Instance cstate_t_eq_dec : EqDecision cstate_t.
Proof. solve_decision. Defined.

Definition readable (c : cstate_t) : bool :=
  match c with MODIFIED | OWNED | SHARED | EXCLUSIVE => true | _ => false end.
Definition writable (c : cstate_t) : bool :=
  match c with MODIFIED => true | _ => false end.
End CacheState.
Notation cstate_t := CacheState.cstate_t.

(** The values of [MemComponent::component_t] that the code shifts by. *)
Module MemComponent.
Definition INVALID_MEM_COMPONENT : Z := 0.
Definition CORE : Z := 1.
Definition L1_ICACHE : Z := 2.
Definition L1_DCACHE : Z := 3.
Definition L2_CACHE : Z := 4.
Definition L3_CACHE : Z := 5.
Definition L4_CACHE : Z := 6.
Definition LAST_LEVEL_CACHE : Z := 20.
Definition TAG_DIR : Z := 21.
Definition NUCA_CACHE : Z := 22.
Definition DRAM_CACHE : Z := 23.
Definition DRAM : Z := 24.
End MemComponent.

(** [(IntPtr) ~0], the tag of an invalid line. *)
Definition INVALID_TAG : Z := 2 ^ 64 - 1.

(** ** class CacheBlockInfo *)

Inductive option_t : Type := PREFETCH | WARMUP.
Definition option_value (o : option_t) : Z :=
  match o with PREFETCH => 0 | WARMUP => 1 end.

Definition BitsUsedOffset : Z := 3.

Record CacheBlockInfo : Type := mkCacheBlockInfo {
  m_tag : Z;
  m_cstate : cstate_t;
  m_owner : Z;
  m_used : Z;
  m_options : Z
}.

#[export] Instance CacheBlockInfo_eq_dec : EqDecision CacheBlockInfo.
Proof. solve_decision. Defined.

Definition CacheBlockInfo_new (tag : Z) (cstate : cstate_t) (options : Z) : CacheBlockInfo :=
  mkCacheBlockInfo tag cstate 0 0 (u8 options).

Definition CacheBlockInfo_invalidate (b : CacheBlockInfo) : CacheBlockInfo :=
  mkCacheBlockInfo INVALID_TAG CacheState.INVALID (m_owner b) (m_used b) (m_options b).

Definition CacheBlockInfo_clone (b src : CacheBlockInfo) : CacheBlockInfo :=
  mkCacheBlockInfo (m_tag src) (m_cstate src) (m_owner src) (m_used src) (m_options src).

Definition CacheBlockInfo_isValid (b : CacheBlockInfo) : bool :=
  negb (m_tag b =? INVALID_TAG).

Definition setTag (tag : Z) (b : CacheBlockInfo) : CacheBlockInfo :=
  mkCacheBlockInfo tag (m_cstate b) (m_owner b) (m_used b) (m_options b).
Definition setCState (c : cstate_t) (b : CacheBlockInfo) : CacheBlockInfo :=
  mkCacheBlockInfo (m_tag b) c (m_owner b) (m_used b) (m_options b).
Definition setOwner (owner : Z) (b : CacheBlockInfo) : CacheBlockInfo :=
  mkCacheBlockInfo (m_tag b) (m_cstate b) owner (m_used b) (m_options b).

Definition with_options (o : Z) (b : CacheBlockInfo) : CacheBlockInfo :=
  mkCacheBlockInfo (m_tag b) (m_cstate b) (m_owner b) (m_used b) o.
Definition hasOption (o : option_t) (b : CacheBlockInfo) : bool :=
  negb (Z.land (m_options b) (Z.shiftl 1 (option_value o)) =? 0).
Definition setOption (o : option_t) (b : CacheBlockInfo) : CacheBlockInfo :=
  with_options (u8 (Z.lor (m_options b) (Z.shiftl 1 (option_value o)))) b.
Definition clearOption (o : option_t) (b : CacheBlockInfo) : CacheBlockInfo :=
  with_options (u8 (Z.land (m_options b) (u64 (Z.lnot (Z.shiftl 1 (option_value o)))))) b.

(** [updateUsage(BitsUsedType used)]: the argument has eight bits. *)
Definition updateUsage_mask (used : Z) (b : CacheBlockInfo) : bool * CacheBlockInfo :=
  let used := u8 used in
  let new_bits_set := negb (Z.land used (Z.lnot (m_used b)) =? 0) in
  (new_bits_set,
   mkCacheBlockInfo (m_tag b) (m_cstate b) (m_owner b) (Z.lor (m_used b) used) (m_options b)).

(** [1ull << n] is undefined from [n = 64] on. *)
Definition shl1_64 (n : Z) : res Z :=
  if n <? 64 then Ok (Z.shiftl 1 n) else Err ErrUndefined.

(** [updateUsage(UInt32 offset, UInt32 size)]. *)
Definition updateUsage (offset size : Z) (b : CacheBlockInfo) : res (bool * CacheBlockInfo) :=
  let first := Z.shiftr offset BitsUsedOffset in
  let last := Z.shiftr (u32 (offset + size - 1)) BitsUsedOffset in
  let? f := shl1_64 first in
  let? l := shl1_64 (last + 1) in
  let first_mask := u64 (f - 1) in
  let last_mask := u64 (l - 1) in
  let usage_mask := Z.land last_mask (u64 (Z.lnot first_mask)) in
  Ok (updateUsage_mask usage_mask b).

(** ** class PrL2CacheBlockInfo: the bit vector of the first-level caches that
    hold the line *)

Definition L1I_bit : Z := Z.shiftl 1 MemComponent.L1_ICACHE.
Definition L1D_bit : Z := Z.shiftl 1 MemComponent.L1_DCACHE.

Definition getCachedLoc (bitvec : Z) : res Z :=
  log_assert (negb (bitvec =? Z.lor L1I_bit L1D_bit)) "m_cached_loc_bitvec";?
  if bitvec =? L1I_bit then Ok MemComponent.L1_ICACHE
  else if bitvec =? L1D_bit then Ok MemComponent.L1_DCACHE
  else if bitvec =? 0 then Ok MemComponent.INVALID_MEM_COMPONENT
  else Err (ErrLog "Error: m_cached_loc_bitvec").

Definition setCachedLoc (cached_loc bitvec : Z) : res Z :=
  log_assert (negb (cached_loc =? MemComponent.INVALID_MEM_COMPONENT)) "m_cached_loc_bitvec, cached_loc";?
  log_assert (Z.land bitvec (Z.shiftl 1 cached_loc) =? 0) "m_cached_loc_bitvec, cached_loc";?
  Ok (u32 (Z.lor bitvec (Z.shiftl 1 cached_loc))).

Definition clearCachedLoc (cached_loc bitvec : Z) : res Z :=
  log_assert (negb (cached_loc =? MemComponent.INVALID_MEM_COMPONENT)) "m_cached_loc_bitvec, cached_loc";?
  log_assert (negb (Z.land bitvec (Z.shiftl 1 cached_loc) =? 0)) "m_cached_loc_bitvec, cached_loc";?
  Ok (Z.land bitvec (u32 (Z.lnot (Z.shiftl 1 cached_loc)))).

(** ** The class hierarchy *)

Inductive cache_t : Type := INVALID_CACHE_TYPE | PR_L1_CACHE | PR_L2_CACHE | SHARED_CACHE.

Inductive BlockInfo : Type :=
| PrL1CacheBlockInfo (base : CacheBlockInfo)
| PrL2CacheBlockInfo (base : CacheBlockInfo) (m_cached_loc_bitvec : Z)
| SharedCacheBlockInfo (base : CacheBlockInfo).

#[export] Instance BlockInfo_eq_dec : EqDecision BlockInfo.
Proof. solve_decision. Defined.

Definition base (b : BlockInfo) : CacheBlockInfo :=
  match b with
  | PrL1CacheBlockInfo b | PrL2CacheBlockInfo b _ | SharedCacheBlockInfo b => b
  end.
Definition map_base (f : CacheBlockInfo → CacheBlockInfo) (b : BlockInfo) : BlockInfo :=
  match b with
  | PrL1CacheBlockInfo b => PrL1CacheBlockInfo (f b)
  | PrL2CacheBlockInfo b l => PrL2CacheBlockInfo (f b) l
  | SharedCacheBlockInfo b => SharedCacheBlockInfo (f b)
  end.
Definition same_class (a b : BlockInfo) : bool :=
  match a, b with
  | PrL1CacheBlockInfo _, PrL1CacheBlockInfo _
  | PrL2CacheBlockInfo _ _, PrL2CacheBlockInfo _ _
  | SharedCacheBlockInfo _, SharedCacheBlockInfo _ => true
  | _, _ => false
  end.

Definition CacheBlockInfo_create (cache_type : cache_t) : res BlockInfo :=
  let b := CacheBlockInfo_new INVALID_TAG CacheState.INVALID 0 in
  match cache_type with
  | PR_L1_CACHE => Ok (PrL1CacheBlockInfo b)
  | PR_L2_CACHE => Ok (PrL2CacheBlockInfo b 0)
  | SHARED_CACHE => Ok (SharedCacheBlockInfo b)
  | INVALID_CACHE_TYPE => Err (ErrLog "Unrecognized cache type")
  end.

Definition getTag (b : BlockInfo) : Z := m_tag (base b).
Definition getCState (b : BlockInfo) : cstate_t := m_cstate (base b).
Definition isValid (b : BlockInfo) : bool := CacheBlockInfo_isValid (base b).

(** The virtual [invalidate]. *)
Definition invalidate (b : BlockInfo) : BlockInfo :=
  match b with
  | PrL1CacheBlockInfo b => PrL1CacheBlockInfo (CacheBlockInfo_invalidate b)
  | PrL2CacheBlockInfo b _ => PrL2CacheBlockInfo (CacheBlockInfo_invalidate b) 0
  | SharedCacheBlockInfo b => SharedCacheBlockInfo (CacheBlockInfo_invalidate b)
  end.

(** The virtual [clone]: the override of the L2 class casts its argument to its
    own class, which is undefined for an object of another class. *)
Definition clone (b src : BlockInfo) : res BlockInfo :=
  match b with
  | PrL1CacheBlockInfo b => Ok (PrL1CacheBlockInfo (CacheBlockInfo_clone b (base src)))
  | PrL2CacheBlockInfo b _ =>
      match src with
      | PrL2CacheBlockInfo s l => Ok (PrL2CacheBlockInfo (CacheBlockInfo_clone b s) l)
      | _ => Err ErrUndefined
      end
  | SharedCacheBlockInfo b => Ok (SharedCacheBlockInfo (CacheBlockInfo_clone b (base src)))
  end.

(** * Facts *)

Lemma isValid_spec b : isValid b = true ↔ getTag b ≠ INVALID_TAG.
Proof.
  unfold isValid, CacheBlockInfo_isValid, getTag.
  rewrite negb_true_iff, Z.eqb_neq. done.
Qed.

Lemma isValid_false b : isValid b = false ↔ getTag b = INVALID_TAG.
Proof. rewrite <- not_true_iff_false, isValid_spec. destruct (decide (getTag b = INVALID_TAG)); tauto. Qed.

Lemma invalidate_invalid b : isValid (invalidate b) = false.
Proof. by destruct b. Qed.
Lemma getTag_invalidate b : getTag (invalidate b) = INVALID_TAG.
Proof. by destruct b. Qed.
Lemma same_class_refl b : same_class b b = true.
Proof. by destruct b. Qed.

(** Cloning between objects of one class copies the object. *)
Lemma clone_same_class b src : same_class b src = true → clone b src = Ok src.
Proof. by destruct b, src as [[]|[]|[]]; simpl. Qed.

Lemma same_class_trans a b c :
  same_class a b = true → same_class b c = true → same_class a c = true.
Proof. by destruct a, b, c. Qed.
Lemma same_class_sym a b : same_class a b = same_class b a.
Proof. by destruct a, b. Qed.
Lemma same_class_invalidate a b : same_class a (invalidate b) = same_class a b.
Proof. by destruct a, b. Qed.
Lemma same_class_map_base a f b : same_class a (map_base f b) = same_class a b.
Proof. by destruct a, b. Qed.

(** The mask of the 8-byte words [first..last] of a line. *)
Lemma usage_mask_bits first last i :
  0 ≤ first ≤ last → last < 63 → 0 ≤ i →
  Z.testbit (Z.land (u64 (Z.shiftl 1 (last + 1) - 1))
                    (u64 (Z.lnot (u64 (Z.shiftl 1 first - 1))))) i
  = (first <=? i) && (i <=? last).
Proof.
  intros Hf Hl Hi.
  assert (Hones : ∀ k, 0 ≤ k < 64 → u64 (Z.shiftl 1 k - 1) = Z.ones k).
  { intros k Hk. rewrite Z.shiftl_mul_pow2, Z.mul_1_l, Z.ones_equiv, <- Z.sub_1_r by lia.
    apply u64_id. unfold in_u64.
    assert (1 ≤ 2 ^ k < 2 ^ 64); [|lia].
    split; [pose proof (Z.pow_pos_nonneg 2 k); lia|apply Z.pow_lt_mono_r; lia]. }
  rewrite !Hones by lia. rewrite Z.land_spec.
  destruct (decide (i < 64)) as [Hi64|Hi64].
  - unfold u64. rewrite Z.mod_pow2_bits_low, Z.lnot_spec by lia.
    destruct (Z.leb_spec first i), (Z.leb_spec i last); simpl;
      rewrite ?(Z.ones_spec_low (last + 1)), ?(Z.ones_spec_high (last + 1)),
        ?(Z.ones_spec_low first), ?(Z.ones_spec_high first) by lia; done.
  - rewrite Z.ones_spec_high by lia. simpl. destruct (Z.leb_spec i last); [lia|].
    by rewrite andb_false_r.
Qed.

(** [updateUsage] marks exactly the 8-byte words that the access touches, and
    its result says whether a word was marked for the first time. *)
Lemma updateUsage_ok b offset size :
  in_u8 (m_used b) → 0 ≤ offset → 0 < size → offset + size ≤ 64 →
  ∃ b',
    updateUsage offset size b = Ok (negb (m_used b' =? m_used b), b') ∧
    in_u8 (m_used b') ∧
    (∀ i, 0 ≤ i → Z.testbit (m_used b') i =
       Z.testbit (m_used b) i || ((offset / 8 <=? i) && (i <=? (offset + size - 1) / 8))) ∧
    (m_tag b', m_cstate b', m_owner b', m_options b')
      = (m_tag b, m_cstate b, m_owner b, m_options b).
Proof.
  intros Hu Ho Hs Hos. unfold updateUsage, BitsUsedOffset.
  rewrite !Z.shiftr_div_pow2 by lia. change (2 ^ 3) with 8.
  rewrite u32_id by (unfold in_u32; lia).
  assert (Hfl : 0 ≤ offset / 8 ≤ (offset + size - 1) / 8) by
    (split; [apply Z.div_pos; lia|apply Z.div_le_mono; lia]).
  assert (Hl : (offset + size - 1) / 8 < 8) by (apply Z.div_lt_upper_bound; lia).
  unfold shl1_64. rewrite !(proj2 (Z.ltb_lt _ _)) by lia. simpl res_bind.
  set (mask := Z.land _ _). unfold updateUsage_mask.
  assert (Hmask : ∀ i, 0 ≤ i → Z.testbit mask i =
     (offset / 8 <=? i) && (i <=? (offset + size - 1) / 8)).
  { intros i Hi. apply usage_mask_bits; lia. }
  assert (Hm8 : ∀ i, 0 ≤ i → Z.testbit (u8 mask) i = Z.testbit mask i).
  { intros i Hi. unfold u8. destruct (decide (i < 8)).
    - by rewrite Z.mod_pow2_bits_low by lia.
    - rewrite Z.mod_pow2_bits_high by lia. rewrite Hmask by done.
      destruct (Z.leb_spec i ((offset + size - 1) / 8)); [lia|]. by rewrite andb_false_r. }
  exists (mkCacheBlockInfo (m_tag b) (m_cstate b) (m_owner b)
            (Z.lor (m_used b) (u8 mask)) (m_options b)).
  split; [|split; [|split; [|done]]].
  - simpl. do 3 f_equal. apply land_lnot_eqb.
  - apply in_u8_lor; [done|apply u8_range].
  - intros i Hi. simpl. by rewrite Z.lor_spec, Hm8, Hmask.
Qed.

(** * Properties *)

(** for an access inside a 64-byte line [updateUsage] neither shifts out of
    range nor touches other members; afterwards exactly the 8-byte words that
    were marked before or that the access touches are marked, and the result
    says whether a word was marked for the first time. *)
Theorem updateUsage_marks_words b offset size :
  in_u8 (m_used b) → 0 ≤ offset → 0 < size → offset + size ≤ 64 →
  ∃ b',
    updateUsage offset size b = Ok (negb (m_used b' =? m_used b), b') ∧
    in_u8 (m_used b') ∧
    (∀ i, 0 ≤ i → Z.testbit (m_used b') i =
       Z.testbit (m_used b) i || ((offset / 8 <=? i) && (i <=? (offset + size - 1) / 8))) ∧
    (m_tag b', m_cstate b', m_owner b', m_options b')
      = (m_tag b, m_cstate b, m_owner b, m_options b).
Proof. apply updateUsage_ok. Qed.

Lemma updateUsage_marks_words_witness :
  ∃ b', updateUsage 12 8 (CacheBlockInfo_new 5 CacheState.SHARED 0)
        = Ok (negb (m_used b' =? 0), b').
Proof.
  destruct (updateUsage_marks_words (CacheBlockInfo_new 5 CacheState.SHARED 0) 12 8)
    as (b' & He & _); [unfold in_u8; simpl; lia|lia|lia|lia|].
  by exists b'.
Defined.
