(* ===== verification/LruPolicies.v ===== *)
(** The interface of a cache set's replacement policy and the policies that
    keep an age per line: [cache_set_lru.{h,cc}], [cache_set_mru.{h,cc}] and
    [cache_set_nmru.{h,cc}] of src/common/core/memory_subsystem/cache.

    [Policy] has the two pure virtual methods of class [CacheSet];
    [PolicyOk] is what the set may rely on.  The ages refine an abstract
    recency order: the list of the ways from the most to the least recently
    used one. *)
From stdpp Require Import sorting.
From S2P Require Import Prelude CacheBlock.

(** ** The interface *)

(** What a policy sees of its set: the associativity, the lines and the
    controller ([None] is a null pointer), of which it may ask
    [isInLowerLevelCache]. *)
Record SetView : Type := mkSetView {
  v_associativity : nat;
  v_blocks : list BlockInfo;
  v_cntlr : option (BlockInfo → bool)
}.

(** class CacheSetInfoLRU: the statistics all sets of a cache share. *)
Record CacheSetInfoLRU : Type := mkCacheSetInfoLRU {
  si_associativity : nat;
  m_access : list Z;
  m_attempts : option (list Z)
}.

Definition CacheSetInfoLRU_new (associativity num_attempts : nat) : CacheSetInfoLRU :=
  mkCacheSetInfoLRU associativity (replicate associativity 0%Z)
    (if bool_decide (1 < num_attempts) then Some (replicate num_attempts 0%Z) else None).

Definition incr_at (l : list Z) (i : nat) : res (list Z) :=
  let? x := rd l i in wr l i (u64 (x + 1)).

Definition info_increment (index : Z) (s : CacheSetInfoLRU) : res CacheSetInfoLRU :=
  log_assert (index <? Z.of_nat (si_associativity s))%Z "Index >= Associativity";?
  let? a := incr_at (m_access s) (Z.to_nat index) in
  Ok (mkCacheSetInfoLRU (si_associativity s) a (m_attempts s)).

Definition info_incrementAttempt (attempt : nat) (s : CacheSetInfoLRU) : res CacheSetInfoLRU :=
  match m_attempts s with
  | Some l =>
      let? l := incr_at l attempt in
      Ok (mkCacheSetInfoLRU (si_associativity s) (m_access s) (Some l))
  | None =>
      log_assert (bool_decide (attempt = 0))
        "No place to store attempt# histogram but attempt != 0";?
      Ok s
  end.

(** The state a policy works on: its own members, the shared [m_set_info] and
    the calls of [incrementQBSLookupCost] it has made on the controller. *)
Record PolState (P : Type) : Type := mkPolState {
  ps_pol : P;
  ps_info : option CacheSetInfoLRU;
  ps_qbs : nat
}.
Arguments mkPolState {P} _ _ _.
Arguments ps_pol {P} _.
Arguments ps_info {P} _.
Arguments ps_qbs {P} _.

Definition set_pol {P} (p : P) (s : PolState P) : PolState P :=
  mkPolState p (ps_info s) (ps_qbs s).

(** A call through [m_set_info]. *)
Definition with_info {P} (f : CacheSetInfoLRU → res CacheSetInfoLRU) (s : PolState P) :
    res (PolState P) :=
  match ps_info s with
  | None => Err ErrUndefined
  | Some i => let? i := f i in Ok (mkPolState (ps_pol s) (Some i) (ps_qbs s))
  end.

Class Policy (P : Type) : Type := {
  getReplacementIndex : SetView → PolState P → res (nat * PolState P);
  updateReplacementIndex : nat → nat → PolState P → res (PolState P);
  policy_wf : nat → PolState P → Prop
}.

(** [CacheSet::isValidReplacement]. *)
Definition isValidReplacement (v : SetView) (index : nat) : res bool :=
  let? b := rd (v_blocks v) index in
  Ok (negb (bool_decide (getCState b = CacheState.SHARED_UPGRADING))).

Definition replaceable (b : BlockInfo) : Prop := getCState b ≠ CacheState.SHARED_UPGRADING.

Definition view_wf (v : SetView) : Prop :=
  length (v_blocks v) = v_associativity v ∧ 0 < v_associativity v ≤ 256.

(** [for (i = 0; i < m_associativity; i++) if (!block[i]->isValid()) ...]. *)
Definition first_invalid (v : SetView) : option nat :=
  fst <$> list_find (λ b, isValid b = false) (v_blocks v).

(** What a set relies on: with no line in transit and a controller at hand, a
    victim is found among the ways of the set and the policy's state stays
    well formed. *)
Class PolicyOk (P : Type) `{Policy P} : Prop := {
  get_ok v s :
    view_wf v → Forall replaceable (v_blocks v) → is_Some (v_cntlr v) →
    policy_wf (v_associativity v) s →
    ∃ i s', getReplacementIndex v s = Ok (i, s') ∧ i < v_associativity v ∧
            policy_wf (v_associativity v) s';
  upd_ok assoc i s :
    i < assoc → policy_wf assoc s →
    ∃ s', updateReplacementIndex assoc i s = Ok s' ∧ policy_wf assoc s'
}.

Lemma isValidReplacement_lt v i b :
  v_blocks v !! i = Some b →
  isValidReplacement v i = Ok (negb (bool_decide (getCState b = CacheState.SHARED_UPGRADING))).
Proof. intros Hb. unfold isValidReplacement, rd. by rewrite Hb. Qed.

Lemma isValidReplacement_ok v i :
  view_wf v → Forall replaceable (v_blocks v) → i < v_associativity v →
  isValidReplacement v i = Ok true.
Proof.
  intros [Hlen _] Hall Hi. rewrite <- Hlen in Hi.
  destruct (lookup_lt_is_Some_2 _ _ Hi) as [b Hb].
  rewrite (isValidReplacement_lt _ _ _ Hb). f_equal. apply negb_true_iff.
  apply bool_decide_eq_false. by eapply (Forall_lookup_1 _ _ _ _ Hall).
Qed.

Lemma first_invalid_Some v i :
  first_invalid v = Some i ↔
  (∃ b, v_blocks v !! i = Some b ∧ isValid b = false) ∧
  (∀ j b, j < i → v_blocks v !! j = Some b → isValid b = true).
Proof.
  unfold first_invalid. rewrite fmap_Some. split.
  - intros ([j b] & Hf & ->). apply list_find_Some in Hf as (Hb & Hinv & Hmin).
    split; [by exists b|]. intros k b' Hk Hb'. simpl in *.
    specialize (Hmin k b' Hb' Hk). by destruct (isValid b').
  - intros ((b & Hb & Hinv) & Hmin). exists (i, b). split; [|done].
    apply list_find_Some. split_and!; [done..|].
    intros j b' Hb' Hj. rewrite (Hmin j b'); done.
Qed.

Lemma first_invalid_None v :
  first_invalid v = None ↔ Forall (λ b, isValid b = true) (v_blocks v).
Proof.
  unfold first_invalid. rewrite fmap_None, list_find_None.
  apply Forall_iff. intros b. destruct (isValid b); naive_solver.
Qed.

Lemma first_invalid_lt v i : view_wf v → first_invalid v = Some i → i < v_associativity v.
Proof.
  intros [<- _] ((b & Hb & _) & _)%first_invalid_Some. by eapply lookup_lt_Some.
Qed.

Lemma incr_at_lt l i : i < length l → ∃ l', incr_at l i = Ok l' ∧ length l' = length l.
Proof.
  intros Hi. unfold incr_at. destruct (rd_lt l i Hi) as (x & _ & ->). simpl.
  rewrite wr_lt by done. eexists. split; [done|]. apply length_insert.
Qed.

(** ** Ages *)

(** The loop of [moveToMRU]: every line younger than the accessed one ages. *)
Fixpoint age_loop (n i accessed : nat) (bits : list Z) : res (list Z) :=
  match n with
  | O => Ok bits
  | S n =>
      let? bi := rd bits i in
      let? ba := rd bits accessed in
      let? bits := (if (bi <? ba)%Z then wr bits i (u8 (bi + 1)) else Ok bits) in
      age_loop n (S i) accessed bits
  end.

Definition moveToMRU (associativity accessed : nat) (bits : list Z) : res (list Z) :=
  let? bits := age_loop associativity 0 accessed bits in
  wr bits accessed 0%Z.

(** [m_lru_bits[i] = i], the constructors of the three classes. *)
Definition lru_bits_init (associativity : nat) : list Z :=
  (λ i, u8 (Z.of_nat i)) <$> seq 0 associativity.

Definition aged (ba x : Z) : Z := if (x <? ba)%Z then u8 (x + 1) else x.

Lemma age_loop_aged n i a bits ba :
  bits !! a = Some ba → i + n ≤ length bits →
  age_loop n i a bits
  = Ok (imap (λ j x, if decide (i ≤ j < i + n) then aged ba x else x) bits).
Proof.
  revert i bits. induction n as [|n IH]; intros i bits Ha Hlen; simpl.
  - f_equal. apply list_eq. intros j. rewrite list_lookup_imap.
    destruct (bits !! j); simpl; [|done]. rewrite decide_False by lia. done.
  - destruct (rd_lt bits i ltac:(lia)) as (bi & Hbi & ->). simpl.
    rewrite (proj2 (rd_Ok _ _ _) Ha). simpl.
    destruct (decide (i = a)) as [->|Hia].
    + simplify_eq. destruct (Z.ltb_spec ba ba); [lia|]. simpl.
      rewrite IH by (done || lia). f_equal. apply list_eq. intros j.
      rewrite !list_lookup_imap. destruct (bits !! j) as [x|] eqn:Hx; simpl; [|done].
      f_equal. destruct (decide (j = a)) as [->|]; [|repeat case_decide; done || lia].
      simplify_eq. unfold aged. rewrite Z.ltb_irrefl. by repeat case_decide.
    + assert (Hstep : (if (bi <? ba)%Z then wr bits i (u8 (bi + 1)) else Ok bits)
                      = Ok (<[i := aged ba bi]> bits)).
      { unfold aged. destruct (bi <? ba)%Z; [by rewrite wr_lt by lia|]. by rewrite list_insert_id. }
      rewrite Hstep. simpl.
      rewrite IH by (rewrite ?list_lookup_insert_ne, ?length_insert by done; done || lia).
      f_equal. apply list_eq. intros j. rewrite !list_lookup_imap.
      destruct (decide (i = j)) as [<-|Hij].
      * rewrite list_lookup_insert_eq by lia. rewrite Hbi. simpl.
        by rewrite decide_False, decide_True by lia.
      * rewrite list_lookup_insert_ne by done. destruct (bits !! j); simpl; [|done].
        f_equal. repeat case_decide; done || lia.
Qed.

Lemma moveToMRU_eq assoc a bits ba :
  length bits = assoc → bits !! a = Some ba →
  moveToMRU assoc a bits = Ok (<[a := 0%Z]> (aged ba <$> bits)).
Proof.
  intros Hlen Ha. unfold moveToMRU. rewrite (age_loop_aged _ _ _ _ ba) by (done || lia).
  cbn [res_bind].
  assert (imap (λ j x, if decide (0 ≤ j < 0 + assoc) then aged ba x else x) bits = aged ba <$> bits) as ->.
  { apply list_eq. intros j. rewrite list_lookup_imap, list_lookup_fmap.
    destruct (bits !! j) eqn:Hj; simpl; [|done]. apply lookup_lt_Some in Hj.
    by rewrite decide_True by lia. }
  rewrite wr_lt; [done|]. rewrite length_fmap. by eapply lookup_lt_Some.
Qed.

(** *** The recency order *)

(** [order] lists the ways from the most to the least recently used one; the
    age of a way is its position. *)
Definition recency (assoc : nat) (bits : list Z) (order : list nat) : Prop :=
  length bits = assoc ∧ order ≡ₚ seq 0 assoc ∧
  ∀ p i, order !! p = Some i → bits !! i = Some (Z.of_nat p).

Definition touch (a : nat) (order : list nat) : list nat :=
  a :: filter (λ i, i ≠ a) order.

Lemma recency_NoDup assoc bits order : recency assoc bits order → NoDup order.
Proof. intros (_ & Hp & _). rewrite Hp. apply NoDup_seq. Qed.

Lemma recency_init assoc : assoc ≤ 256 → recency assoc (lru_bits_init assoc) (seq 0 assoc).
Proof.
  intros Hle. unfold recency, lru_bits_init. rewrite length_fmap, length_seq.
  split_and!; [done..|]. intros p i Hp.
  apply lookup_seq in Hp as [-> Hlt]. rewrite list_lookup_fmap, lookup_seq_lt by lia. simpl.
  f_equal. apply u8_id. unfold in_u8. lia.
Qed.

Lemma recency_elem assoc bits order i :
  recency assoc bits order → i < assoc → ∃ p, order !! p = Some i ∧ bits !! i = Some (Z.of_nat p) ∧ p < assoc.
Proof.
  intros (Hlen & Hp & Hpos) Hi.
  assert (Hin : i ∈ order) by (rewrite Hp; apply elem_of_seq; lia).
  apply list_elem_of_lookup in Hin as [p Hlk]. exists p. split_and!; [done|by apply Hpos|].
  apply lookup_lt_Some in Hlk. by rewrite Hp, length_seq in Hlk.
Qed.

Lemma filter_ne_split (a : nat) l1 l2 :
  a ∉ l1 → a ∉ l2 → filter (λ i, i ≠ a) (l1 ++ a :: l2) = l1 ++ l2.
Proof.
  assert (Hid : ∀ l : list nat, a ∉ l → filter (λ i, i ≠ a) l = l).
  { induction l as [|x l IH]; [done|]. intros [Hne Hl]%not_elem_of_cons.
    rewrite filter_cons_True by done. by rewrite IH. }
  intros H1 H2. rewrite filter_app, filter_cons_False by naive_solver.
  by rewrite !Hid.
Qed.

(** Touching a way moves it to the front and makes the ways that were in front
    of it one step older. *)
Lemma moveToMRU_recency assoc a bits order :
  assoc ≤ 256 → recency assoc bits order → a < assoc →
  ∃ bits', moveToMRU assoc a bits = Ok bits' ∧ recency assoc bits' (touch a order).
Proof.
  intros Hle Hrec Ha. pose proof (recency_NoDup _ _ _ Hrec) as Hnd.
  destruct (recency_elem _ _ _ _ Hrec Ha) as (pa & Hpa & Hba & Hpalt).
  pose proof Hrec as (Hlen & Hperm & Hpos).
  rewrite (moveToMRU_eq _ _ _ _ Hlen Hba). eexists. split; [done|].
  apply list_elem_of_split_length in Hpa as (l1 & l2 & -> & ->).
  apply NoDup_app in Hnd as (Hnd1 & Hdisj & Hnd2).
  apply NoDup_cons in Hnd2 as [Ha2 Hnd2].
  assert (Ha1 : a ∉ l1) by (intros Hin; apply (Hdisj a Hin); left).
  assert (Hll : length l1 + S (length l2) = assoc).
  { apply Permutation_length in Hperm. rewrite length_app, length_seq in Hperm.
    simpl in Hperm. lia. }
  unfold touch. rewrite filter_ne_split by done.
  split_and!.
  - by rewrite length_insert, length_fmap.
  - rewrite <- Hperm. by rewrite Permutation_middle.
  - intros [|p] i Hlk; simpl in Hlk.
    + simplify_eq. rewrite list_lookup_insert_eq; [done|]. rewrite length_fmap. lia.
    + assert (Hia : i ≠ a) by (apply list_elem_of_lookup_2 in Hlk; set_solver).
      rewrite list_lookup_insert_ne, list_lookup_fmap by done.
      destruct (decide (p < length l1)) as [Hp|Hp].
      * rewrite lookup_app_l in Hlk by done.
        rewrite (Hpos p i) by (by rewrite lookup_app_l).
        simpl. f_equal. unfold aged. destruct (Z.ltb_spec (Z.of_nat p) (Z.of_nat (length l1))); [|lia].
        rewrite u8_id; [lia|]. unfold in_u8. lia.
      * rewrite lookup_app_r in Hlk by lia.
        rewrite (Hpos (S p) i).
        { simpl. f_equal. unfold aged. destruct (Z.ltb_spec (Z.of_nat (S p)) (Z.of_nat (length l1))); lia. }
        rewrite lookup_app_r by lia. by replace (S p - length l1) with (S (p - length l1)) by lia.
Qed.

(** ** class CacheSetLRU *)

Module LRU.
Record t : Type := mk { m_num_attempts : nat; m_lru_bits : list Z }.

Definition new (associativity num_attempts : nat) : t :=
  mk num_attempts (lru_bits_init associativity).

Definition move (associativity accessed : nat) (s : PolState t) : res (PolState t) :=
  let? bits := moveToMRU associativity accessed (m_lru_bits (ps_pol s)) in
  Ok (set_pol (mk (m_num_attempts (ps_pol s)) bits) s).

(** The inner loop: the candidate is the replaceable line of highest age, if
    its age is not zero. *)
Fixpoint scan (v : SetView) (bits : list Z) (n i : nat) (index : nat) (max_bits : Z) :
    res nat :=
  match n with
  | O => Ok index
  | S n =>
      let? bi := rd bits i in
      if (max_bits <? bi)%Z then
        let? ok := isValidReplacement v i in
        if ok : bool then scan v bits n (S i) i bi
        else scan v bits n (S i) index max_bits
      else scan v bits n (S i) index max_bits
  end.

(** The loop over the attempts: [n] attempts are left. *)
Fixpoint attempts (v : SetView) (n attempt : nat) (s : PolState t) :
    res (nat * PolState t) :=
  match n with
  | O => Err (ErrLog "Should not reach here")
  | S n =>
      let? index := scan v (m_lru_bits (ps_pol s)) (v_associativity v) 0 0 0%Z in
      log_assert (bool_decide (index < v_associativity v)) "Error Finding LRU bits";?
      let? qbs_reject :=
        (if bool_decide (attempt < m_num_attempts (ps_pol s) - 1) then
           match v_cntlr v with
           | None => Err (ErrLog "CacheCntlr == NULL, QBS can only be used when cntlr is passed in")
           | Some isInLowerLevelCache =>
               let? b := rd (v_blocks v) index in Ok (isInLowerLevelCache b)
           end
         else Ok false) in
      let? s := move (v_associativity v) index s in
      if qbs_reject : bool then
        attempts v n (S attempt) (mkPolState (ps_pol s) (ps_info s) (S (ps_qbs s)))
      else
        let? s := with_info (info_incrementAttempt attempt) s in
        Ok (index, s)
  end.

Definition get (v : SetView) (s : PolState t) : res (nat * PolState t) :=
  match first_invalid v with
  | Some i => let? s := move (v_associativity v) i s in Ok (i, s)
  | None => attempts v (m_num_attempts (ps_pol s)) 0 s
  end.

Definition upd (associativity accessed : nat) (s : PolState t) : res (PolState t) :=
  let? bits := rd (m_lru_bits (ps_pol s)) accessed in
  let? s := with_info (info_increment bits) s in
  move associativity accessed s.

Definition info_wf (associativity num_attempts : nat) (i : option CacheSetInfoLRU) : Prop :=
  ∃ i', i = Some i' ∧ si_associativity i' = associativity ∧ length (m_access i') = associativity ∧
        match m_attempts i' with
        | Some l => num_attempts ≤ length l
        | None => num_attempts = 1
        end.

Definition wf (associativity : nat) (s : PolState t) : Prop :=
  0 < associativity ≤ 256 ∧ 1 ≤ m_num_attempts (ps_pol s) ∧
  (∃ order, recency associativity (m_lru_bits (ps_pol s)) order) ∧
  info_wf associativity (m_num_attempts (ps_pol s)) (ps_info s).
End LRU.

#[export] Instance LRU_Policy : Policy LRU.t := {
  getReplacementIndex := LRU.get;
  updateReplacementIndex := LRU.upd;
  policy_wf := LRU.wf
}.

Lemma move_recency assoc a (s : PolState LRU.t) order :
  assoc ≤ 256 → recency assoc (LRU.m_lru_bits (ps_pol s)) order → a < assoc →
  ∃ bits', LRU.move assoc a s = Ok (set_pol (LRU.mk (LRU.m_num_attempts (ps_pol s)) bits') s) ∧
           recency assoc bits' (touch a order).
Proof.
  intros Hle Hrec Ha. destruct (moveToMRU_recency _ _ _ _ Hle Hrec Ha) as (bits' & He & Hr).
  exists bits'. unfold LRU.move. by rewrite He.
Qed.

(** A line that may be replaced, with its age. *)
Definition candidate (v : SetView) (bits : list Z) (j : nat) (x : Z) : Prop :=
  bits !! j = Some x ∧ ∃ b, v_blocks v !! j = Some b ∧ replaceable b.

(** [r] is the oldest candidate of the ways [lo..hi-1] that is older than
    [max], or [index] if there is none. *)
Definition scan_result (v : SetView) (bits : list Z) (lo hi index : nat) (max : Z) (r : nat) : Prop :=
  (r = index ∧ ∀ j x, lo ≤ j < hi → candidate v bits j x → (x ≤ max)%Z) ∨
  (∃ x, lo ≤ r < hi ∧ candidate v bits r x ∧ (max < x)%Z ∧
        ∀ j y, lo ≤ j < hi → candidate v bits j y → (y ≤ x)%Z).

Lemma candidate_fun v bits j x y : candidate v bits j x → candidate v bits j y → x = y.
Proof. intros [Hx _] [Hy _]. congruence. Qed.

Lemma scan_result_skip v bits i hi index max r :
  (∀ x, candidate v bits i x → (x ≤ max)%Z) →
  scan_result v bits (S i) hi index max r → scan_result v bits i hi index max r.
Proof.
  intros Hi [[-> Hall]|(x & Hr & Hc & Hlt & Hall)]; [left|right].
  - split; [done|]. intros j x Hj Hx. destruct (decide (j = i)) as [->|]; [auto|].
    apply (Hall j); [lia|done].
  - exists x. split_and!; [lia..|done|done|]. intros j y Hj Hy.
    destruct (decide (j = i)) as [->|]; [specialize (Hi y Hy); lia|].
    apply (Hall j); [lia|done].
Qed.

Lemma scan_result_take v bits i hi index max bi r :
  i < hi → candidate v bits i bi → (max < bi)%Z →
  scan_result v bits (S i) hi i bi r → scan_result v bits i hi index max r.
Proof.
  intros Hhi Hcand Hmax [[-> Hall]|(x & Hr & Hc & Hlt & Hall)]; right.
  - exists bi. split_and!; [lia..|done|done|]. intros j y Hj Hy.
    destruct (decide (j = i)) as [->|]; [by rewrite (candidate_fun _ _ _ _ _ Hy Hcand)|].
    apply (Hall j); [lia|done].
  - exists x. split_and!; [lia..|done|lia|]. intros j y Hj Hy.
    destruct (decide (j = i)) as [->|]; [rewrite (candidate_fun _ _ _ _ _ Hy Hcand); lia|].
    apply (Hall j); [lia|done].
Qed.

Lemma scan_spec v bits n i index max :
  i + n ≤ length bits → length (v_blocks v) = length bits →
  ∃ r, LRU.scan v bits n i index max = Ok r ∧ scan_result v bits i (i + n) index max r.
Proof.
  revert i index max. induction n as [|n IH]; intros i index max Hlen Hblk; simpl.
  - exists index. split; [done|]. left. split; [done|]. intros; lia.
  - destruct (rd_lt bits i ltac:(lia)) as (bi & Hbi & ->). simpl.
    destruct (rd_lt (v_blocks v) i ltac:(lia)) as (b & Hb & _).
    rewrite (isValidReplacement_lt _ _ _ Hb). replace (i + S n) with (S i + n) by lia.
    destruct (Z.ltb_spec max bi) as [Hlt|Hge]; [simpl; case_bool_decide as Hup; simpl|].
    + destruct (IH (S i) index max) as (r & -> & Hr); [lia..|]. exists r. split; [done|].
      apply scan_result_skip; [|done]. intros x [_ (c & Hc & Hrep)]. by simplify_eq.
    + destruct (IH (S i) i bi) as (r & -> & Hr); [lia..|]. exists r. split; [done|].
      eapply scan_result_take; [lia| |done|done]. split; [done|]. by exists b.
    + destruct (IH (S i) index max) as (r & -> & Hr); [lia..|]. exists r. split; [done|].
      apply scan_result_skip; [|done]. intros x [Hx _]. simplify_eq. lia.
Qed.

Lemma info_incrementAttempt_ok assoc n a i :
  LRU.info_wf assoc n i → a < n →
  ∃ i', i = Some i' ∧ ∃ i'', info_incrementAttempt a i' = Ok i'' ∧ LRU.info_wf assoc n (Some i'').
Proof.
  intros (i' & -> & Ha & Hl & Hm) Han. exists i'. split; [done|].
  unfold info_incrementAttempt. destruct (m_attempts i') as [l|] eqn:El; rewrite ?El in Hm.
  - destruct (incr_at_lt l a ltac:(lia)) as (l' & -> & Hl'). simpl. eexists. split; [done|].
    eexists. split; [done|]. simpl. split_and!; [done..|lia].
  - rewrite bool_decide_true by lia. simpl. exists i'. split; [done|].
    exists i'. by rewrite El.
Qed.

Lemma info_increment_ok assoc n (k : Z) i :
  LRU.info_wf assoc n i → (0 ≤ k < Z.of_nat assoc)%Z →
  ∃ i', i = Some i' ∧ ∃ i'', info_increment k i' = Ok i'' ∧ LRU.info_wf assoc n (Some i'').
Proof.
  intros (i' & -> & Ha & Hl & Hm) Hk. exists i'. split; [done|].
  unfold info_increment. rewrite Ha. rewrite (proj2 (Z.ltb_lt _ _)) by lia. simpl.
  destruct (incr_at_lt (m_access i') (Z.to_nat k) ltac:(lia)) as (l' & -> & Hl'). simpl.
  eexists. split; [done|]. eexists. split; [done|]. simpl. split_and!; [done|lia|done].
Qed.

Lemma scan_in_range v bits :
  view_wf v → length bits = v_associativity v →
  ∃ r, LRU.scan v bits (v_associativity v) 0 0 0%Z = Ok r ∧ r < v_associativity v ∧
       scan_result v bits 0 (v_associativity v) 0 0 r.
Proof.
  intros [Hlen Hpos] Hb.
  destruct (scan_spec v bits (v_associativity v) 0 0 0%Z) as (r & He & Hr); [lia..|].
  exists r. split_and!; [done| |done]. destruct Hr as [[-> _]|(x & Hr & _)]; lia.
Qed.

Lemma LRU_wf_next assoc (s : PolState LRU.t) bits order i q :
  LRU.wf assoc s → recency assoc bits order →
  LRU.info_wf assoc (LRU.m_num_attempts (ps_pol s)) i →
  LRU.wf assoc (mkPolState (LRU.mk (LRU.m_num_attempts (ps_pol s)) bits) i q).
Proof. intros (? & ? & _) ? ?. split_and!; simpl; [lia..|by eexists|done]. Qed.

(** The loop over the attempts always ends with a way of the set: the last
    attempt does not query the controller. *)
Lemma attempts_ok v n attempt s :
  view_wf v → is_Some (v_cntlr v) → LRU.wf (v_associativity v) s →
  n + attempt = LRU.m_num_attempts (ps_pol s) → 0 < n →
  ∃ i s', LRU.attempts v n attempt s = Ok (i, s') ∧ i < v_associativity v ∧
          LRU.wf (v_associativity v) s'.
Proof.
  intros Hv [cntlr Hc]. revert attempt s. induction n as [|n IH]; intros attempt s Hwf Hn Hpos; [lia|].
  pose proof Hwf as (Has & Hna & (order & Hrec) & Hinfo). simpl.
  destruct (scan_in_range v (LRU.m_lru_bits (ps_pol s)) Hv) as (r & -> & Hr & _); [apply Hrec|].
  simpl. rewrite bool_decide_true by done. simpl.
  destruct (rd_lt (v_blocks v) r) as (b & _ & Hrd); [destruct Hv; lia|].
  rewrite Hc, Hrd. simpl.
  destruct (move_recency (v_associativity v) r s order ltac:(lia) Hrec Hr) as (bits' & -> & Hrec').
  destruct (info_incrementAttempt_ok _ _ attempt _ Hinfo ltac:(lia)) as (i' & Hi' & i'' & He & Hw).
  assert (Hfin : ∃ i0 s', (let? s0 := with_info (info_incrementAttempt attempt)
                   (set_pol (LRU.mk (LRU.m_num_attempts (ps_pol s)) bits') s) in Ok (r, s0)) = Ok (i0, s')
                 ∧ i0 < v_associativity v ∧ LRU.wf (v_associativity v) s').
  { unfold with_info. simpl. rewrite Hi'. simpl. rewrite He. simpl.
    do 2 eexists. split_and!; [done|done|]. by eapply LRU_wf_next. }
  case_bool_decide; simpl; [|done]. destruct (cntlr b); [|done].
  apply IH; simpl; [|lia..]. by eapply LRU_wf_next.
Qed.

#[export] Instance LRU_PolicyOk : PolicyOk LRU.t.
Proof.
  split.
  - intros v s Hv _ Hc Hwf. simpl in *. unfold LRU.get.
    pose proof Hwf as (Has & Hna & (order & Hrec) & Hinfo).
    destruct (first_invalid v) as [i|] eqn:Hfi; [|apply attempts_ok; done || lia].
    pose proof (first_invalid_lt _ _ Hv Hfi).
    destruct (move_recency (v_associativity v) i s order) as (bits' & -> & Hrec'); [lia|done..|].
    simpl. do 2 eexists. split_and!; [done|done|]. by eapply LRU_wf_next.
  - intros assoc i s Hi Hwf. simpl. unfold LRU.upd.
    pose proof Hwf as (Has & Hna & (order & Hrec) & Hinfo).
    destruct (recency_elem _ _ _ _ Hrec Hi) as (p & _ & Hp & Hplt).
    rewrite (proj2 (rd_Ok _ _ _) Hp). simpl.
    destruct (info_increment_ok _ _ (Z.of_nat p) _ Hinfo ltac:(lia)) as (i' & Hi' & i'' & He & Hw).
    unfold with_info. rewrite Hi'. simpl. rewrite He. simpl.
    destruct (move_recency assoc i (mkPolState (ps_pol s) (Some i'') (ps_qbs s)) order)
      as (bits' & -> & Hrec'); [lia|done|done|].
    eexists. split; [done|]. by apply (LRU_wf_next assoc s bits' (touch i order)).
Qed.

(** *** What LRU promises *)

(** Without query-based selection: the ages are those of [order]. *)
Record lru_at (assoc : nat) (order : list nat) (s : PolState LRU.t) : Prop := {
  la_wf : LRU.wf assoc s;
  la_attempts : LRU.m_num_attempts (ps_pol s) = 1;
  la_recency : recency assoc (LRU.m_lru_bits (ps_pol s)) order
}.
(** On a full set with no line in transit the victim is the last way of the
    recency order, which it then leads. *)
Lemma LRU_victim v s order :
  view_wf v → Forall replaceable (v_blocks v) → first_invalid v = None → lru_at (v_associativity v) order s →
  ∃ i s', LRU.get v s = Ok (i, s') ∧ last order = Some i ∧ lru_at (v_associativity v) (touch i order) s'.
Proof.
  intros Hv Hrep Hfi [Hwf Hone Hrec]. unfold LRU.get. rewrite Hfi, Hone. simpl.
  pose proof Hv as [Hblk Hpos]. pose proof Hrec as (Hlen & Hperm & Hord).
  destruct (scan_in_range v (LRU.m_lru_bits (ps_pol s)) Hv Hlen) as (r & -> & Hr & Hres).
  simpl. rewrite bool_decide_true by done. simpl. rewrite Hone, bool_decide_false by lia. simpl.
  destruct (move_recency (v_associativity v) r s order ltac:(lia) Hrec Hr) as (bits' & -> & Hrec').
  pose proof Hwf as (_ & _ & _ & Hinfo).
  destruct (info_incrementAttempt_ok _ _ 0 _ Hinfo ltac:(lia)) as (i' & Hi' & i'' & He & Hw).
  unfold with_info. simpl. rewrite Hi'. simpl. rewrite He. simpl.
  exists r. eexists. split; [done|]. split; [|split; [by eapply LRU_wf_next|done|done]].
  assert (Hlo : length order = v_associativity v) by (by rewrite Hperm, length_seq).
  rewrite last_lookup, Hlo.
  destruct (lookup_lt_is_Some_2 order (pred (v_associativity v))) as [l Hl]; [lia|].
  assert (Hll : l < v_associativity v).
  { apply list_elem_of_lookup_2 in Hl. rewrite Hperm in Hl. apply elem_of_seq in Hl. lia. }
  assert (Hcand : candidate v (LRU.m_lru_bits (ps_pol s)) l (Z.of_nat (pred (v_associativity v)))).
  { split; [by apply Hord|]. destruct (lookup_lt_is_Some_2 (v_blocks v) l) as [b Hb]; [lia|].
    exists b. split; [done|]. by eapply Forall_lookup_1. }
  rewrite Hl. f_equal. destruct Hres as [[-> Hall]|(x & Hrr & [Hx Hc] & Hlt & Hall)].
  - specialize (Hall l _ ltac:(lia) Hcand).
    assert (v_associativity v = 1) by lia. lia.
  - specialize (Hall l _ ltac:(lia) Hcand).
    destruct (recency_elem _ _ _ _ Hrec Hr) as (p & Hp & Hp' & Hplt). simplify_eq.
    assert (p = pred (v_associativity v)) by lia. subst p. congruence.
Qed.

(** The first invalid way of a set that has one. *)
Lemma LRU_fills v s order i :
  view_wf v → first_invalid v = Some i → lru_at (v_associativity v) order s →
  ∃ s', LRU.get v s = Ok (i, s') ∧ lru_at (v_associativity v) (touch i order) s'.
Proof.
  intros Hv Hfi [Hwf Hone Hrec]. pose proof Hwf as (Has & _ & _ & Hinfo). unfold LRU.get. rewrite Hfi.
  destruct (move_recency (v_associativity v) i s order) as (bits' & -> & Hrec');
    [lia|done|by eapply first_invalid_lt|].
  simpl. eexists. split; [done|]. split; [by eapply LRU_wf_next|done|done].
Qed.
Lemma LRU_uses assoc i s order :
  i < assoc → lru_at assoc order s → ∃ s', LRU.upd assoc i s = Ok s' ∧ lru_at assoc (touch i order) s'.
Proof.
  intros Hi [Hwf Hone Hrec]. pose proof Hwf as (Has & _ & _ & Hinfo). unfold LRU.upd.
  destruct (recency_elem _ _ _ _ Hrec Hi) as (p & _ & Hp & Hplt). rewrite (proj2 (rd_Ok _ _ _) Hp). simpl.
  destruct (info_increment_ok _ _ (Z.of_nat p) _ Hinfo ltac:(lia)) as (i' & Hi' & i'' & He & Hw).
  unfold with_info. rewrite Hi'. simpl. rewrite He. simpl.
  destruct (move_recency assoc i (mkPolState (ps_pol s) (Some i'') (ps_qbs s)) order) as (bits' & -> & Hrec'); [lia|done|done|].
  eexists. split; [done|]. split; [by apply (LRU_wf_next assoc s bits' (touch i order))|done|done].
Qed.

(** *** The history of a set *)

(** What happens to a set: a hit on a way, or a request for a victim when the set
    looks like [v].  The history is the list of the ways, in order of time. *)
Inductive set_event : Type := UseWay (way : nat) | PickVictim (v : SetView).
Definition lru_event (assoc : nat) (e : set_event) (s : PolState LRU.t) : res (nat * PolState LRU.t) :=
  match e with
  | UseWay i => let? s := LRU.upd assoc i s in Ok (i, s)
  | PickVictim v => LRU.get v s
  end.
Fixpoint lru_history (assoc : nat) (es : list set_event) (s : PolState LRU.t) : res (list nat * PolState LRU.t) :=
  match es with
  | [] => Ok ([], s)
  | e :: es =>
      let? r := lru_event assoc e s in
      let? h := lru_history assoc es r.2 in
      Ok (r.1 :: h.1, h.2)
  end.
Definition set_event_ok (assoc : nat) (e : set_event) : Prop :=
  match e with
  | UseWay i => i < assoc
  | PickVictim v => view_wf v ∧ v_associativity v = assoc ∧ Forall replaceable (v_blocks v)
  end.

(** When a way was used last. *)
Fixpoint last_use (i : nat) (h : list nat) : option nat :=
  match h with
  | [] => None
  | w :: h => match last_use i h with Some n => Some (S n) | None => if decide (w = i) then Some 0 else None end
  end.
(** [i] was used longer ago than [j]; of two ways that were never used it is the
    one with the larger number. *)
Definition longer_ago (h : list nat) (i j : nat) : Prop :=
  match last_use i h, last_use j h with
  | Some x, Some y => x < y
  | None, Some _ => True
  | Some _, None => False
  | None, None => j < i
  end.

Lemma last_use_snoc i h w : last_use i (h ++ [w]) = if decide (w = i) then Some (length h) else last_use i h.
Proof.
  induction h as [|x h IH]; simpl; [done|]. rewrite IH. destruct (decide (w = i)); [done|]. done.
Qed.
Lemma last_use_lt i h n : last_use i h = Some n → n < length h.
Proof.
  revert n. induction h as [|x h IH]; intros n; simpl; [done|]. destruct (last_use i h) as [m|].
  - intros [= <-]. specialize (IH m eq_refl). lia.
  - destruct (decide (x = i)); [|done]. intros [= <-]. lia.
Qed.
Definition order_of (assoc : nat) (h : list nat) : list nat := foldl (λ o w, touch w o) (seq 0 assoc) h.
(** The order of the ages is the order of last use. *)
Lemma order_of_sorted assoc h : StronglySorted (λ j i, longer_ago h i j) (order_of assoc h).
Proof.
  induction h as [|w h IH] using rev_ind.
  { unfold order_of. simpl. generalize 0. induction assoc as [|n IHn]; intros k; simpl; [constructor|].
    constructor; [apply IHn|]. apply Forall_forall. intros x Hx. apply elem_of_seq in Hx. unfold longer_ago. simpl. lia. }
  unfold order_of. rewrite foldl_snoc. fold (order_of assoc h). unfold touch.
  assert (Hkeep : ∀ i j, i ≠ w → j ≠ w → longer_ago h i j → longer_ago (h ++ [w]) i j).
  { intros i j Hi Hj. unfold longer_ago. rewrite !last_use_snoc, !decide_False by done. done. }
  constructor.
  - induction IH as [|a l Hs IH Hall]; [constructor|]. rewrite filter_cons. case_decide as Ha; [|done].
    constructor; [done|]. rewrite Forall_forall in *. intros x [Hx Hin]%list_elem_of_filter. apply Hkeep; [done..|].
    by apply Hall.
  - apply Forall_forall. intros x [Hx _]%list_elem_of_filter. unfold longer_ago.
    rewrite !last_use_snoc, (decide_True _ _ eq_refl), decide_False by done.
    destruct (last_use x h) as [n|] eqn:Hn; [by apply last_use_lt in Hn|done].
Qed.
(** The last way of the order was used longest ago. *)
Lemma order_of_last assoc bits h i j :
  recency assoc bits (order_of assoc h) → last (order_of assoc h) = Some i → j < assoc → j ≠ i → longer_ago h i j.
Proof.
  intros Hrec Hl Hj Hne. destruct (recency_elem _ _ _ _ Hrec Hj) as (p & Hp & _). pose proof (order_of_sorted assoc h) as Hs.
  apply last_Some in Hl as [l Hl]. rewrite Hl in Hs, Hp. apply list_elem_of_lookup_2 in Hp.
  apply elem_of_app in Hp as [Hp| ->%list_elem_of_singleton]; [|done].
  apply (StronglySorted_app_1_elem_of _ _ _ j i Hs); [done|]. by left.
Qed.

Lemma lru_history_ok assoc es h s :
  Forall (set_event_ok assoc) es → lru_at assoc (order_of assoc h) s →
  ∃ ws s', lru_history assoc es s = Ok (ws, s') ∧ length ws = length es ∧
    lru_at assoc (order_of assoc (h ++ ws)) s' ∧
    ∀ k v, es !! k = Some (PickVictim v) → ∃ i, ws !! k = Some i ∧
      match first_invalid v with
      | Some j => i = j
      | None => ∀ j, j < assoc → j ≠ i → longer_ago (h ++ take k ws) i j
      end.
Proof.
  intros Hes. revert h s. induction Hes as [|e es He Hes IH]; intros h s Hs; cbn [lru_history].
  { exists [], s. rewrite app_nil_r. done. }
  assert (Hev : ∃ i s1, lru_event assoc e s = Ok (i, s1) ∧ lru_at assoc (touch i (order_of assoc h)) s1 ∧
    ∀ v, e = PickVictim v → match first_invalid v with
      | Some j => i = j
      | None => ∀ j, j < assoc → j ≠ i → longer_ago h i j
      end).
  { destruct e as [i|v]; simpl in He |- *.
    - destruct (LRU_uses assoc i s _ He Hs) as (s1 & -> & Hs1). simpl. by exists i, s1.
    - destruct He as (Hv & <- & Hrep). destruct (first_invalid v) as [i|] eqn:Hfi.
      + destruct (LRU_fills v s _ i Hv Hfi Hs) as (s1 & Hg & Hs1). exists i, s1. split; [done|]. split; [done|].
        intros ? [= <-]. by rewrite Hfi.
      + destruct (LRU_victim v s _ Hv Hrep Hfi Hs) as (i & s1 & Hg & Hl & Hs1). exists i, s1. split; [done|].
        split; [done|]. intros ? [= <-]. rewrite Hfi. intros j Hj Hne.
        by eapply order_of_last; [apply Hs|..]. }
  destruct Hev as (i & s1 & -> & Hs1 & Hmiss). cbn [res_bind fst snd].
  destruct (IH (h ++ [i]) s1) as (ws & s' & -> & Hlen & Hs' & Hk).
  { unfold order_of. by rewrite foldl_snoc. }
  cbn [res_bind fst snd]. exists (i :: ws), s'. rewrite <- app_assoc in Hs'. split; [done|]. split; [simpl; lia|].
  split; [done|]. intros [|k] v Hv; simpl in Hv.
  - injection Hv as ->. exists i. split; [done|]. simpl. rewrite app_nil_r. by apply Hmiss.
  - destruct (Hk k v Hv) as (j & Hj & Hcase). exists j. split; [done|]. simpl. by rewrite <- app_assoc in Hcase.
Qed.

(** ** class CacheSetMRU *)

Module MRU.
Record t : Type := mk { m_lru_bits : list Z }.
Definition new (associativity : nat) : t := mk (lru_bits_init associativity).

Definition upd (associativity accessed : nat) (s : PolState t) : res (PolState t) :=
  let? bits := moveToMRU associativity accessed (m_lru_bits (ps_pol s)) in
  Ok (set_pol (mk bits) s).

(** The inner [for]: the first replaceable line of age [target]. *)
Fixpoint find_target (v : SetView) (bits : list Z) (target : Z) (n i : nat) : res (option nat) :=
  match n with
  | O => Ok None
  | S n =>
      let? bi := rd bits i in
      if (bi =? target)%Z then
        let? ok := isValidReplacement v i in
        if ok : bool then Ok (Some i) else find_target v bits target n (S i)
      else find_target v bits target n (S i)
  end.

(** [while (target < m_associativity)], [n] iterations left. *)
Fixpoint search (v : SetView) (n target : nat) (s : PolState t) : res (nat * PolState t) :=
  match n with
  | O => Err (ErrLog "Error Finding LRU bits")
  | S n =>
      let? r := find_target v (m_lru_bits (ps_pol s)) (Z.of_nat target) (v_associativity v) 0 in
      match r with
      | Some i => let? s := upd (v_associativity v) i s in Ok (i, s)
      | None => search v n (S target) s
      end
  end.

Definition get (v : SetView) (s : PolState t) : res (nat * PolState t) :=
  match first_invalid v with
  | Some i => let? s := upd (v_associativity v) i s in Ok (i, s)
  | None => search v (v_associativity v) 0 s
  end.

Definition wf (associativity : nat) (s : PolState t) : Prop :=
  0 < associativity ≤ 256 ∧ ∃ order, recency associativity (m_lru_bits (ps_pol s)) order.
End MRU.

(** ** class CacheSetNMRU *)

(** [m_replacement_pointer = (m_replacement_pointer + 1) % m_associativity], the
    pointer being a [UInt8]. *)
Definition next_ptr (associativity p : nat) : nat := (S p mod associativity) mod 256.

Module NMRU.
Record t : Type := mk { m_lru_bits : list Z; m_replacement_pointer : nat }.
Definition new (associativity : nat) : t := mk (lru_bits_init associativity) 0.

Definition upd (associativity accessed : nat) (s : PolState t) : res (PolState t) :=
  let? bits := moveToMRU associativity accessed (m_lru_bits (ps_pol s)) in
  Ok (set_pol (mk bits (m_replacement_pointer (ps_pol s))) s).

Definition advance (associativity : nat) (s : PolState t) : PolState t :=
  set_pol (mk (m_lru_bits (ps_pol s))
              (next_ptr associativity (m_replacement_pointer (ps_pol s)))) s.

Fixpoint search (v : SetView) (n : nat) (s : PolState t) : res (nat * PolState t) :=
  match n with
  | O => Err (ErrLog "Error Finding LRU bits")
  | S n =>
      let index := m_replacement_pointer (ps_pol s) in
      let? b := rd (m_lru_bits (ps_pol s)) index in
      let? ok := (if (b =? 0)%Z then Ok false else isValidReplacement v index) in
      if ok : bool then
        let? s := upd (v_associativity v) index (advance (v_associativity v) s) in
        Ok (index, s)
      else search v n (advance (v_associativity v) s)
  end.

Definition get (v : SetView) (s : PolState t) : res (nat * PolState t) :=
  match first_invalid v with
  | Some i => let? s := upd (v_associativity v) i s in Ok (i, s)
  | None => search v (v_associativity v) s
  end.

(** A set of one way has only its most recently used line. *)
Definition wf (associativity : nat) (s : PolState t) : Prop :=
  2 ≤ associativity ≤ 256 ∧ m_replacement_pointer (ps_pol s) < associativity ∧
  ∃ order, recency associativity (m_lru_bits (ps_pol s)) order.
End NMRU.

#[export] Instance MRU_Policy : Policy MRU.t := {
  getReplacementIndex := MRU.get;
  updateReplacementIndex := MRU.upd;
  policy_wf := MRU.wf
}.
#[export] Instance NMRU_Policy : Policy NMRU.t := {
  getReplacementIndex := NMRU.get;
  updateReplacementIndex := NMRU.upd;
  policy_wf := NMRU.wf
}.

Lemma find_target_spec v bits target n i :
  i + n ≤ length bits → length (v_blocks v) = length bits →
  ∃ r, MRU.find_target v bits target n i = Ok r ∧
    match r with
    | Some j => i ≤ j < i + n ∧ candidate v bits j target
    | None => ∀ j, i ≤ j < i + n → ¬ candidate v bits j target
    end.
Proof.
  revert i. induction n as [|n IH]; intros i Hlen Hblk; simpl.
  - exists None. split; [done|]. intros; lia.
  - destruct (rd_lt bits i ltac:(lia)) as (bi & Hbi & ->). simpl.
    destruct (rd_lt (v_blocks v) i ltac:(lia)) as (b & Hb & _).
    rewrite (isValidReplacement_lt _ _ _ Hb).
    assert (Hskip : ¬ candidate v bits i target →
      ∃ r, MRU.find_target v bits target n (S i) = Ok r ∧
        match r with
        | Some j => i ≤ j < i + S n ∧ candidate v bits j target
        | None => ∀ j, i ≤ j < i + S n → ¬ candidate v bits j target
        end).
    { intros Hno. destruct (IH (S i)) as ([j|] & -> & Hr); [lia..| |]; eexists; (split; [done|]).
      - split; [lia|apply Hr].
      - intros j Hj. destruct (decide (j = i)) as [->|]; [done|]. apply Hr. lia. }
    destruct (Z.eqb_spec bi target) as [->|Hne]; simpl; [case_bool_decide; simpl|].
    + apply Hskip. intros [_ (c & Hc & Hrep)]. by simplify_eq.
    + eexists. split; [done|]. split; [lia|]. split; [done|]. by exists b.
    + apply Hskip. intros [Hx _]. by simplify_eq.
Qed.

Lemma MRU_upd_recency assoc i s order :
  assoc ≤ 256 → recency assoc (MRU.m_lru_bits (ps_pol s)) order → i < assoc →
  ∃ bits', MRU.upd assoc i s = Ok (set_pol (MRU.mk bits') s) ∧ recency assoc bits' (touch i order).
Proof.
  intros Hle Hrec Hi. destruct (moveToMRU_recency _ _ _ _ Hle Hrec Hi) as (bits' & He & Hr).
  exists bits'. unfold MRU.upd. by rewrite He.
Qed.

(** The search finds the youngest replaceable line, if it is at least [target]
    steps old. *)
Lemma MRU_search v n target s order p i b :
  view_wf v → recency (v_associativity v) (MRU.m_lru_bits (ps_pol s)) order →
  order !! p = Some i → v_blocks v !! i = Some b → replaceable b →
  (∀ q j c, q < p → order !! q = Some j → v_blocks v !! j = Some c → ¬ replaceable c) →
  target ≤ p < target + n →
  ∃ bits', MRU.search v n target s = Ok (i, set_pol (MRU.mk bits') s) ∧
           recency (v_associativity v) bits' (touch i order).
Proof.
  intros Hv Hrec Hp Hb Hrep Hyoung. revert target. induction n as [|n IH]; intros target Ht; [lia|].
  simpl. pose proof Hv as [Hblk Hpos]. pose proof Hrec as (Hlen & Hperm & Hord).
  destruct (find_target_spec v (MRU.m_lru_bits (ps_pol s)) (Z.of_nat target) (v_associativity v) 0)
    as (r & -> & Hr); [lia..|]. simpl.
  assert (Hi : i < v_associativity v) by (apply lookup_lt_Some in Hb; lia).
  destruct r as [j|].
  - destruct Hr as [Hj [Hx (c & Hc & Hrc)]].
    destruct (recency_elem _ _ _ _ Hrec (proj2 Hj)) as (q & Hq & Hq' & _).
    rewrite Hq' in Hx. assert (q = target) by (simplify_eq; lia). subst q.
    destruct (decide (target < p)) as [Hlt|]; [by destruct (Hyoung _ _ _ Hlt Hq Hc)|].
    assert (target = p) by lia. subst target. simplify_eq.
    destruct (MRU_upd_recency (v_associativity v) i s order) as (bits' & -> & Hr'); [lia|done..|].
    exists bits'. by split.
  - apply IH. destruct (decide (target = p)) as [->|]; [|lia].
    exfalso. apply (Hr i); [lia|]. split; [by apply Hord|]. by exists b.
Qed.

#[export] Instance MRU_PolicyOk : PolicyOk MRU.t.
Proof.
  split.
  - intros v s Hv Hrep _ [Has [order Hrec]]. simpl in *. unfold MRU.get.
    pose proof Hv as [Hblk Hpos].
    destruct (first_invalid v) as [i|] eqn:Hfi.
    + pose proof (first_invalid_lt _ _ Hv Hfi).
      destruct (MRU_upd_recency (v_associativity v) i s order) as (bits' & -> & Hr'); [lia|done..|].
      simpl. do 2 eexists. split; [done|]. split; [done|]. split; [lia|by eexists].
    + pose proof Hrec as (Hlen & Hperm & Hord).
      destruct (lookup_lt_is_Some_2 order 0) as [i Hi]; [rewrite Hperm, length_seq; lia|].
      assert (Hin : i < v_associativity v).
      { apply list_elem_of_lookup_2 in Hi. rewrite Hperm in Hi. apply elem_of_seq in Hi. lia. }
      destruct (lookup_lt_is_Some_2 (v_blocks v) i) as [b Hb]; [lia|].
      destruct (MRU_search v (v_associativity v) 0 s order 0 i b) as (bits' & -> & Hr');
        [done|done|done|done|by eapply Forall_lookup_1|intros; lia|lia|].
      do 2 eexists. split; [done|]. split; [done|]. split; [lia|by eexists].
  - intros assoc i s Hi [Has [order Hrec]]. simpl.
    destruct (MRU_upd_recency assoc i s order) as (bits' & -> & Hr'); [lia|done..|].
    eexists. split; [done|]. split; [lia|by eexists].
Qed.

Lemma NMRU_upd_recency assoc i s order :
  assoc ≤ 256 → recency assoc (NMRU.m_lru_bits (ps_pol s)) order → i < assoc →
  ∃ bits', NMRU.upd assoc i s = Ok (set_pol (NMRU.mk bits' (NMRU.m_replacement_pointer (ps_pol s))) s) ∧
           recency assoc bits' (touch i order).
Proof.
  intros Hle Hrec Hi. destruct (moveToMRU_recency _ _ _ _ Hle Hrec Hi) as (bits' & He & Hr).
  exists bits'. unfold NMRU.upd. by rewrite He.
Qed.

Lemma next_ptr_lt assoc p : 0 < assoc → next_ptr assoc p < assoc.
Proof.
  intros. unfold next_ptr. pose proof (Nat.mod_upper_bound (S p) assoc).
  pose proof (Nat.Div0.mod_le (S p mod assoc) 256). lia.
Qed.

Lemma next_ptr_small assoc p : 0 < assoc ≤ 256 → next_ptr assoc p = S p mod assoc.
Proof.
  intros. unfold next_ptr. apply Nat.mod_small.
  pose proof (Nat.mod_upper_bound (S p) assoc). lia.
Qed.

(** The search visits the ways from the replacement pointer on and stops at the
    first one that is not the most recently used. *)
Lemma NMRU_search v n s order k :
  view_wf v → Forall replaceable (v_blocks v) →
  recency (v_associativity v) (NMRU.m_lru_bits (ps_pol s)) order →
  NMRU.m_replacement_pointer (ps_pol s) < v_associativity v →
  k < n → order !! 0 ≠ Some ((NMRU.m_replacement_pointer (ps_pol s) + k) mod v_associativity v) →
  ∃ i bits' p', NMRU.search v n s = Ok (i, set_pol (NMRU.mk bits' p') s) ∧
    i < v_associativity v ∧ order !! 0 ≠ Some i ∧ p' < v_associativity v ∧
    recency (v_associativity v) bits' (touch i order).
Proof.
  intros Hv Hrep. revert s k. induction n as [|n IH]; intros s k Hrec Hp Hk Hne; [lia|].
  pose proof Hv as [Hblk Hpos]. pose proof Hrec as (Hlen & Hperm & Hord). simpl.
  destruct (recency_elem _ _ _ _ Hrec Hp) as (q & Hq & Hq' & Hqlt).
  rewrite (proj2 (rd_Ok _ _ _) Hq'). simpl.
  assert (Hadv : next_ptr (v_associativity v) (NMRU.m_replacement_pointer (ps_pol s))
                 < v_associativity v) by (apply next_ptr_lt; lia).
  destruct (Z.eqb_spec (Z.of_nat q) 0) as [Hz|Hz]; simpl.
  - assert (q = 0) by lia. subst q.
    destruct k as [|k]; [rewrite Nat.add_0_r, Nat.mod_small in Hne by done; congruence|].
    destruct (IH (NMRU.advance (v_associativity v) s) k) as (i & bits' & p' & He & Hrest);
      [done|done|lia| |].
    + simpl. rewrite next_ptr_small by done. rewrite Nat.Div0.add_mod_idemp_l.
      by replace (S (NMRU.m_replacement_pointer (ps_pol s)) + k)
        with (NMRU.m_replacement_pointer (ps_pol s) + S k) by lia.
    + exists i, bits', p'. by rewrite He.
  - rewrite isValidReplacement_ok by done. simpl.
    destruct (NMRU_upd_recency (v_associativity v) (NMRU.m_replacement_pointer (ps_pol s))
                (NMRU.advance (v_associativity v) s) order) as (bits' & -> & Hr'); [lia|done|done|].
    do 3 eexists. simpl. split; [done|]. split; [done|]. split; [|by split].
    intros H0. apply Hz. assert (q = 0); [|lia].
    exact (NoDup_lookup _ _ _ _ (recency_NoDup _ _ _ Hrec) Hq H0).
Qed.

Lemma NMRU_reaches_other v (order : list nat) p :
  2 ≤ v_associativity v → p < v_associativity v →
  ∃ k, k < v_associativity v ∧ order !! 0 ≠ Some ((p + k) mod v_associativity v).
Proof.
  intros H2 Hp. destruct (decide (order !! 0 = Some p)) as [H0|H0].
  - exists 1. split; [lia|]. rewrite H0. intros [= Heq].
    destruct (decide (p + 1 = v_associativity v)) as [He|He].
    + rewrite He, Nat.Div0.mod_same in Heq. lia.
    + rewrite Nat.mod_small in Heq by lia. lia.
  - exists 0. split; [lia|]. by rewrite Nat.add_0_r, Nat.mod_small.
Qed.

#[export] Instance NMRU_PolicyOk : PolicyOk NMRU.t.
Proof.
  split.
  - intros v s Hv Hrep _ (Has & Hp & order & Hrec). simpl in *. unfold NMRU.get.
    pose proof Hv as [Hblk Hpos].
    destruct (first_invalid v) as [i|] eqn:Hfi.
    + pose proof (first_invalid_lt _ _ Hv Hfi).
      destruct (NMRU_upd_recency (v_associativity v) i s order) as (bits' & -> & Hr'); [lia|done..|].
      simpl. do 2 eexists. split; [done|]. split; [done|]. split; [lia|]. split; [done|by eexists].
    + set (p := NMRU.m_replacement_pointer (ps_pol s)) in *.
      destruct (NMRU_reaches_other v order p) as (k & Hk & Hne); [lia..|].
      destruct (NMRU_search v (v_associativity v) s order k) as (i & bits' & p' & -> & Hi & _ & Hp' & Hr');
        [done..|].
      do 2 eexists. split; [done|]. split; [done|]. split; [lia|]. split; [done|by eexists].
  - intros assoc i s Hi (Has & Hp & order & Hrec). simpl.
    destruct (NMRU_upd_recency assoc i s order) as (bits' & -> & Hr'); [lia|done..|].
    eexists. split; [done|]. split; [lia|]. split; [done|by eexists].
Qed.

(** ** What a policy does not touch *)

(** The statistics object keeps its dimensions. *)
Definition same_shape (i j : option CacheSetInfoLRU) : Prop :=
  match i, j with
  | None, None => True
  | Some i, Some j =>
      si_associativity i = si_associativity j ∧ length (m_access i) = length (m_access j) ∧
      length <$> m_attempts i = length <$> m_attempts j
  | _, _ => False
  end.

#[export] Instance same_shape_equiv : Equivalence same_shape.
Proof.
  split.
  - intros [i|]; simpl; done.
  - intros [i|] [j|]; simpl; naive_solver.
  - intros [i|] [j|] [k|]; simpl; naive_solver congruence.
Qed.

(** Sets share the statistics object: a set's operation keeps the state of the
    other sets well formed. *)
Class PolicyFrame (P : Type) `{Policy P} : Prop := {
  get_shape v s i s' : getReplacementIndex v s = Ok (i, s') → same_shape (ps_info s) (ps_info s');
  upd_shape assoc i s s' : updateReplacementIndex assoc i s = Ok s' → same_shape (ps_info s) (ps_info s');
  wf_shape assoc s i q :
    policy_wf assoc s → same_shape (ps_info s) i → policy_wf assoc (mkPolState (ps_pol s) i q)
}.

(** The policies that use an invalid line first. *)
Class FillsFirst (P : Type) `{Policy P} : Prop :=
  get_invalid v s i s' j :
    getReplacementIndex v s = Ok (i, s') → first_invalid v = Some j → i = j.

Lemma incr_at_shape l i l' : incr_at l i = Ok l' → length l' = length l.
Proof.
  unfold incr_at. intros (x & _ & Hw)%res_bind_Ok. apply wr_Ok in Hw as [_ ->].
  apply length_insert.
Qed.

Lemma info_increment_shape x i j : info_increment x i = Ok j → same_shape (Some i) (Some j).
Proof.
  unfold info_increment. intros (_ & _ & (l & Hl & [= <-])%res_bind_Ok)%res_bind_Ok.
  apply incr_at_shape in Hl. simpl. by rewrite Hl.
Qed.

Lemma info_incrementAttempt_shape a i j :
  info_incrementAttempt a i = Ok j → same_shape (Some i) (Some j).
Proof.
  unfold info_incrementAttempt. destruct (m_attempts i) as [l|] eqn:Hl.
  - intros (l' & Hl' & [= <-])%res_bind_Ok. apply incr_at_shape in Hl'. simpl.
    rewrite Hl. simpl. by rewrite Hl'.
  - intros (_ & _ & [= <-])%res_bind_Ok. done.
Qed.

Lemma with_info_shape {P} f (s s' : PolState P) :
  (∀ i j, f i = Ok j → same_shape (Some i) (Some j)) →
  with_info f s = Ok s' → same_shape (ps_info s) (ps_info s') ∧ ps_pol s' = ps_pol s.
Proof.
  intros Hf. unfold with_info. destruct (ps_info s) as [i|]; [|done].
  intros (j & Hj & [= <-])%res_bind_Ok. split; [by apply Hf|done].
Qed.

Lemma info_wf_shape assoc n i j :
  LRU.info_wf assoc n i → same_shape i j → LRU.info_wf assoc n j.
Proof.
  intros (i' & -> & Ha & Hl & Hm) Hs. destruct j as [j|]; [|done]. destruct Hs as (Hs1 & Hs2 & Hs3).
  exists j. split; [done|]. split; [congruence|]. split; [congruence|].
  destruct (m_attempts i'), (m_attempts j); simpl in *; simplify_eq; congruence.
Qed.

Lemma LRU_move_info assoc i (s s' : PolState LRU.t) :
  LRU.move assoc i s = Ok s' → ps_info s' = ps_info s.
Proof. by intros (l & _ & [= <-])%res_bind_Ok. Qed.

Lemma LRU_attempts_shape v n a (s : PolState LRU.t) i s' :
  LRU.attempts v n a s = Ok (i, s') → same_shape (ps_info s) (ps_info s').
Proof.
  revert a s. induction n as [|n IH]; intros a s He; simpl in He; [done|].
  apply res_bind_Ok in He as (idx & _ & He). apply res_bind_Ok in He as ([] & _ & He).
  apply res_bind_Ok in He as (rej & _ & He). apply res_bind_Ok in He as (s1 & Hm & He).
  apply LRU_move_info in Hm. rewrite <- Hm. destruct rej.
  - by apply (IH _ _ He).
  - apply res_bind_Ok in He as (s2 & Hw & [= _ <-]).
    by apply (with_info_shape _ _ _ (info_incrementAttempt_shape a)) in Hw as [Hs _].
Qed.

#[export] Instance LRU_PolicyFrame : PolicyFrame LRU.t.
Proof.
  split.
  - intros v s i s'. simpl. unfold LRU.get. destruct (first_invalid v).
    + intros (s1 & Hm & [= _ <-])%res_bind_Ok. apply LRU_move_info in Hm. by rewrite Hm.
    + apply LRU_attempts_shape.
  - intros assoc i s s'. simpl. unfold LRU.upd.
    intros (x & _ & (s1 & Hw & Hm)%res_bind_Ok)%res_bind_Ok. apply LRU_move_info in Hm.
    rewrite Hm. by apply (with_info_shape _ _ _ (info_increment_shape x)) in Hw as [Hs _].
  - intros assoc s i q (? & ? & ? & Hi) Hs. do 3 (split; [done|]). by eapply info_wf_shape.
Qed.

#[export] Instance LRU_FillsFirst : FillsFirst LRU.t.
Proof.
  intros v s i s' j. simpl. unfold LRU.get. intros He Hf. rewrite Hf in He.
  by apply res_bind_Ok in He as (s1 & _ & [= <- _]).
Qed.

Lemma MRU_upd_info assoc i (s s' : PolState MRU.t) :
  MRU.upd assoc i s = Ok s' → ps_info s' = ps_info s.
Proof. by intros (l & _ & [= <-])%res_bind_Ok. Qed.

Lemma MRU_search_info v n t (s : PolState MRU.t) i s' :
  MRU.search v n t s = Ok (i, s') → ps_info s' = ps_info s.
Proof.
  revert t. induction n as [|n IH]; intros t He; simpl in He; [done|].
  apply res_bind_Ok in He as ([j|] & _ & He); [|by eapply IH].
  apply res_bind_Ok in He as (s1 & Hu & [= _ <-]). by eapply MRU_upd_info.
Qed.

#[export] Instance MRU_PolicyFrame : PolicyFrame MRU.t.
Proof.
  split.
  - intros v s i s'. simpl. unfold MRU.get. destruct (first_invalid v).
    + intros (s1 & Hm & [= _ <-])%res_bind_Ok. apply MRU_upd_info in Hm. by rewrite Hm.
    + intros ->%MRU_search_info. done.
  - intros assoc i s s' ->%MRU_upd_info. done.
  - intros assoc s i q Hwf _. exact Hwf.
Qed.

#[export] Instance MRU_FillsFirst : FillsFirst MRU.t.
Proof.
  intros v s i s' j. simpl. unfold MRU.get. intros He Hf. rewrite Hf in He.
  by apply res_bind_Ok in He as (s1 & _ & [= <- _]).
Qed.

Lemma NMRU_upd_info assoc i (s s' : PolState NMRU.t) :
  NMRU.upd assoc i s = Ok s' → ps_info s' = ps_info s.
Proof. by intros (l & _ & [= <-])%res_bind_Ok. Qed.

Lemma NMRU_search_info v n (s : PolState NMRU.t) i s' :
  NMRU.search v n s = Ok (i, s') → ps_info s' = ps_info s.
Proof.
  revert s. induction n as [|n IH]; intros s He; simpl in He; [done|].
  apply res_bind_Ok in He as (x & _ & He). apply res_bind_Ok in He as ([|] & _ & He).
  - apply res_bind_Ok in He as (s1 & Hu & [= _ <-]). by apply NMRU_upd_info in Hu.
  - by apply IH in He.
Qed.

#[export] Instance NMRU_PolicyFrame : PolicyFrame NMRU.t.
Proof.
  split.
  - intros v s i s'. simpl. unfold NMRU.get. destruct (first_invalid v).
    + intros (s1 & Hm & [= _ <-])%res_bind_Ok. apply NMRU_upd_info in Hm. by rewrite Hm.
    + intros ->%NMRU_search_info. done.
  - intros assoc i s s' ->%NMRU_upd_info. done.
  - intros assoc s i q Hwf _. exact Hwf.
Qed.

#[export] Instance NMRU_FillsFirst : FillsFirst NMRU.t.
Proof.
  intros v s i s' j. simpl. unfold NMRU.get. intros He Hf. rewrite Hf in He.
  by apply res_bind_Ok in He as (s1 & _ & [= <- _]).
Qed.

(** * Properties *)

(** A line of a first-level cache, for the examples. *)
Definition example_line (tag : Z) (cs : cstate_t) : BlockInfo :=
  PrL1CacheBlockInfo (mkCacheBlockInfo tag cs 0 0 0).

(** C6: LRU evicts the line used longest ago.  Take a new LRU set without
    query-based selection and any sequence of hits and of requests for a victim,
    in which no line is in transit.  It runs without error.  Every request gets
    the first invalid way if there is one, and otherwise the way whose last use,
    as a hit or as a victim that was refilled, is further back than that of every
    other way (of ways that were never used, the one with the largest number). *)
Theorem lru_evicts_least_recently_used assoc es :
  0 < assoc ≤ 256 → Forall (set_event_ok assoc) es →
  ∃ ws s', lru_history assoc es (mkPolState (LRU.new assoc 1) (Some (CacheSetInfoLRU_new assoc 1)) 0) = Ok (ws, s') ∧
    length ws = length es ∧
    ∀ k v, es !! k = Some (PickVictim v) → ∃ i, ws !! k = Some i ∧
      match first_invalid v with
      | Some j => i = j
      | None => ∀ j, j < assoc → j ≠ i → longer_ago (take k ws) i j
      end.
Proof.
  intros Ha Hes. pose proof (recency_init assoc ltac:(lia)) as Hrec.
  destruct (lru_history_ok assoc es [] (mkPolState (LRU.new assoc 1) (Some (CacheSetInfoLRU_new assoc 1)) 0) Hes)
    as (ws & s' & He & Hl & _ & Hk); [|by exists ws, s'].
  split; [|done|exact Hrec]. split; [done|]. split; [simpl; lia|]. split; [by eexists|].
  eexists. split; [reflexivity|]. simpl. by rewrite length_replicate.
Qed.

(** Two ways: way 1 is hit after way 0, so the victim is way 0, and way 1 next. *)
Lemma lru_evicts_least_recently_used_witness :
  let v := mkSetView 2 [example_line 1 CacheState.SHARED; example_line 2 CacheState.MODIFIED] None in
  ∃ ws s', lru_history 2 [UseWay 0; UseWay 1; PickVictim v; PickVictim v]
             (mkPolState (LRU.new 2 1) (Some (CacheSetInfoLRU_new 2 1)) 0) = Ok (ws, s') ∧ ws = [0; 1; 0; 1] ∧
    ∃ i, ws !! 2 = Some i ∧ ∀ j, j < 2 → j ≠ i → longer_ago (take 2 ws) i j.
Proof.
  destruct (lru_evicts_least_recently_used 2
    [UseWay 0; UseWay 1; PickVictim (mkSetView 2 [example_line 1 CacheState.SHARED; example_line 2 CacheState.MODIFIED] None);
     PickVictim (mkSetView 2 [example_line 1 CacheState.SHARED; example_line 2 CacheState.MODIFIED] None)])
    as (ws & s' & He & _ & Hk); [lia|repeat constructor; simpl; done || lia|].
  exists ws, s'. split; [exact He|]. split; [|exact (Hk 2 _ eq_refl)].
  vm_compute in He. by injection He as <- _.
Defined.

(** LRU can return a line that is in transit although another line could be
    replaced: the most recently used line is never considered, and the default
    answer, way 0, is not checked. *)
Theorem lru_returns_line_in_transit :
  ∃ v s i s',
    view_wf v ∧ LRU.wf (v_associativity v) s ∧ Exists replaceable (v_blocks v) ∧
    LRU.get v s = Ok (i, s') ∧ isValidReplacement v i = Ok false.
Proof.
  exists (mkSetView 2 [example_line 1 CacheState.SHARED_UPGRADING; example_line 2 CacheState.SHARED] None),
    (mkPolState (LRU.mk 1 [1; 0]%Z) (Some (CacheSetInfoLRU_new 2 1)) 0).
  do 2 eexists. split; [split; simpl; lia|]. split; [|split; [|split; [reflexivity|reflexivity]]].
  - split; [simpl; lia|]. split; [simpl; lia|]. split.
    + exists [1; 0]. split; [done|]. split; [apply Permutation_swap|].
      intros [|[|p]] i Hp; simplify_eq/=; done.
    + eexists. split; [reflexivity|]. by repeat split.
  - apply Exists_cons_tl, Exists_cons_hd. done.
Qed.

(** NMRU never evicts the most recently used line, and MRU evicts exactly
    it: on a full set with no line in transit both find a victim in the set, and
    the recency order is updated by the use of the victim's way. *)
Theorem mru_nmru_victims v s s' order :
  view_wf v → Forall replaceable (v_blocks v) → first_invalid v = None → 2 ≤ v_associativity v →
  recency (v_associativity v) (MRU.m_lru_bits (ps_pol s)) order →
  recency (v_associativity v) (NMRU.m_lru_bits (ps_pol s')) order →
  NMRU.m_replacement_pointer (ps_pol s') < v_associativity v →
  (∃ i t, MRU.get v s = Ok (i, t) ∧ order !! 0 = Some i ∧
          recency (v_associativity v) (MRU.m_lru_bits (ps_pol t)) (touch i order)) ∧
  (∃ i t, NMRU.get v s' = Ok (i, t) ∧ order !! 0 ≠ Some i ∧ i < v_associativity v ∧
          recency (v_associativity v) (NMRU.m_lru_bits (ps_pol t)) (touch i order)).
Proof.
  intros Hv Hrep Hfi H2 Hr Hr' Hp. pose proof Hv as [Hblk Hpos]. split.
  - unfold MRU.get. rewrite Hfi. pose proof Hr as (Hlen & Hperm & Hord).
    destruct (lookup_lt_is_Some_2 order 0) as [i Hi]; [rewrite Hperm, length_seq; lia|].
    assert (Hin : i < v_associativity v).
    { apply list_elem_of_lookup_2 in Hi. rewrite Hperm in Hi. apply elem_of_seq in Hi. lia. }
    destruct (lookup_lt_is_Some_2 (v_blocks v) i) as [b Hb]; [lia|].
    destruct (MRU_search v (v_associativity v) 0 s order 0 i b) as (bits' & He & Hrec);
      [done|done|done|done|by eapply Forall_lookup_1|intros; lia|lia|].
    exists i. eexists. split; [exact He|]. by split.
  - unfold NMRU.get. rewrite Hfi.
    destruct (NMRU_reaches_other v order (NMRU.m_replacement_pointer (ps_pol s'))) as (k & Hk & Hne); [lia..|].
    destruct (NMRU_search v (v_associativity v) s' order k) as (i & bits' & p' & He & Hi & Hne' & Hp' & Hrec);
      [done..|].
    exists i. eexists. split; [exact He|]. split; [done|]. by split.
Qed.

Lemma mru_nmru_victims_witness :
  ∃ i t, MRU.get (mkSetView 2 [example_line 1 CacheState.SHARED; example_line 2 CacheState.MODIFIED] None)
                 (mkPolState (MRU.new 2) None 0) = Ok (i, t) ∧ [0; 1] !! 0 = Some i.
Proof.
  destruct (mru_nmru_victims
    (mkSetView 2 [example_line 1 CacheState.SHARED; example_line 2 CacheState.MODIFIED] None)
    (mkPolState (MRU.new 2) None 0) (mkPolState (NMRU.new 2) None 0) [0; 1])
    as [(i & t & He & Hi & _) _].
  - split; simpl; lia.
  - by repeat constructor.
  - reflexivity.
  - simpl. lia.
  - apply (recency_init 2). lia.
  - apply (recency_init 2). lia.
  - simpl. lia.
  - by exists i, t.
Defined.
