(* ===== verification/OtherPolicies.v ===== *)
(** The replacement policies that keep no age per line:
    [cache_set_nru.{h,cc}], [cache_set_plru.{h,cc}],
    [cache_set_round_robin.{h,cc}], [cache_set_srrip.{h,cc}] and
    [cache_set_random.{h,cc}] of src/common/core/memory_subsystem/cache. *)
From S2P Require Import Prelude Utils CacheBlock LruPolicies.

(** ** class CacheSetNRU *)

Module NRU.
Record t : Type := mk {
  m_lru_bits : list Z;
  m_num_bits_set : Z;
  m_replacement_pointer : nat
}.
Definition new (associativity : nat) : t := mk (replicate associativity 0%Z) 0 0.

Definition upd (associativity accessed : nat) (s : PolState t) : res (PolState t) :=
  let p := ps_pol s in
  let? bits := wr (m_lru_bits p) accessed 1%Z in
  let num := u8 (m_num_bits_set p + 1) in
  Ok (set_pol (if (num =? Z.of_nat associativity)%Z
               then mk (replicate associativity 0%Z) 0 (m_replacement_pointer p)
               else mk bits num (m_replacement_pointer p)) s).

(** The first loop: the first invalid line, or whether a replaceable line has
    its bit clear. *)
Fixpoint first_loop (v : SetView) (bits : list Z) (n i : nat) (have_zero_bit : bool) :
    res (nat + bool) :=
  match n with
  | O => Ok (inr have_zero_bit)
  | S n =>
      let? b := rd (v_blocks v) i in
      if isValid b then
        let? x := rd bits i in
        let? ok := (if (x =? 0)%Z then isValidReplacement v i else Ok false) in
        first_loop v bits n (S i) (if ok : bool then true else have_zero_bit)
      else Ok (inl i)
  end.

Definition advance (associativity : nat) (s : PolState t) : PolState t :=
  set_pol (mk (m_lru_bits (ps_pol s)) (m_num_bits_set (ps_pol s))
              (next_ptr associativity (m_replacement_pointer (ps_pol s)))) s.

Fixpoint search (v : SetView) (have_zero_bit : bool) (n : nat) (s : PolState t) :
    res (nat * PolState t) :=
  match n with
  | O => Err (ErrLog "Error Finding LRU bits")
  | S n =>
      let index := m_replacement_pointer (ps_pol s) in
      let? b := rd (m_lru_bits (ps_pol s)) index in
      let? ok := (if (b =? 0)%Z || negb have_zero_bit then isValidReplacement v index
                  else Ok false) in
      if ok : bool then
        let? s := upd (v_associativity v) index (advance (v_associativity v) s) in
        Ok (index, s)
      else search v have_zero_bit n (advance (v_associativity v) s)
  end.

Definition get (v : SetView) (s : PolState t) : res (nat * PolState t) :=
  let? r := first_loop v (m_lru_bits (ps_pol s)) (v_associativity v) 0 false in
  match r with
  | inl i => let? s := upd (v_associativity v) i s in Ok (i, s)
  | inr have_zero_bit => search v have_zero_bit (v_associativity v) s
  end.

Definition wf (associativity : nat) (s : PolState t) : Prop :=
  0 < associativity ≤ 256 ∧ length (m_lru_bits (ps_pol s)) = associativity ∧
  m_replacement_pointer (ps_pol s) < associativity.
End NRU.

(** ** class CacheSetPLRU *)

Module PLRU.
Record t : Type := mk { b : list Z }.
Definition new (associativity : nat) : res t :=
  log_assert (bool_decide (associativity = 4) || bool_decide (associativity = 8))
    "PLRU not implemted for associativity";?
  Ok (mk (replicate 8 0%Z)).

(** [b[i] = x; ...]: a list of assignments. *)
Fixpoint assign (bits : list Z) (l : list (nat * Z)) : res (list Z) :=
  match l with
  | [] => Ok bits
  | (i, x) :: l => let? bits := wr bits i x in assign bits l
  end.

Definition upd (associativity accessed : nat) (s : PolState t) : res (PolState t) :=
  let? l :=
    match associativity with
    | 4 => Ok match accessed with
              | 0 => [(0, 1%Z); (1, 1%Z)] | 1 => [(0, 1%Z); (1, 0%Z)]
              | 2 => [(0, 0%Z); (2, 1%Z)] | 3 => [(0, 0%Z); (2, 0%Z)]
              | _ => []
              end
    | 8 => Ok match accessed with
              | 0 => [(0, 1%Z); (1, 1%Z); (2, 1%Z)] | 1 => [(0, 1%Z); (1, 1%Z); (2, 0%Z)]
              | 2 => [(0, 1%Z); (1, 0%Z); (3, 1%Z)] | 3 => [(0, 1%Z); (1, 0%Z); (3, 0%Z)]
              | 4 => [(0, 0%Z); (4, 1%Z); (5, 1%Z)] | 5 => [(0, 0%Z); (4, 1%Z); (5, 0%Z)]
              | 6 => [(0, 0%Z); (4, 0%Z); (6, 1%Z)] | 7 => [(0, 0%Z); (4, 0%Z); (6, 0%Z)]
              | _ => []
              end
    | _ => Err (ErrLog "PLRU doesn't support associativity")
    end in
  let? bits := assign (b (ps_pol s)) l in
  Ok (set_pol (mk bits) s).

(** [if (b[i] == 0) ... else ...]. *)
Definition node {A} (bits : list Z) (i : nat) (k0 k1 : res A) : res A :=
  let? x := rd bits i in if (x =? 0)%Z then k0 else k1.

(** The walk from the root of the tree. *)
Definition victim (associativity : nat) (bits : list Z) : res nat :=
  match associativity with
  | 4 => node bits 0 (node bits 1 (Ok 0) (Ok 1)) (node bits 2 (Ok 2) (Ok 3))
  | 8 => node bits 0
           (node bits 1 (node bits 2 (Ok 0) (Ok 1)) (node bits 3 (Ok 2) (Ok 3)))
           (node bits 4 (node bits 5 (Ok 4) (Ok 5)) (node bits 6 (Ok 6) (Ok 7)))
  | _ => Err (ErrLog "PLRU doesn't support associativity")
  end.

Definition get (v : SetView) (s : PolState t) : res (nat * PolState t) :=
  match first_invalid v with
  | Some i => let? s := upd (v_associativity v) i s in Ok (i, s)
  | None =>
      let? retValue := victim (v_associativity v) (b (ps_pol s)) in
      let? ok := isValidReplacement v retValue in
      log_assert ok "PLRU selected an invalid replacement candidate";?
      let? s := upd (v_associativity v) retValue s in
      Ok (retValue, s)
  end.

Definition wf (associativity : nat) (s : PolState t) : Prop :=
  (associativity = 4 ∨ associativity = 8) ∧ length (b (ps_pol s)) = 8.
End PLRU.

(** ** class CacheSetRoundRobin *)

Module RoundRobin.
Record t : Type := mk { m_replacement_index : nat }.
Definition new (associativity : nat) : t := mk (associativity - 1).

Definition upd (associativity accessed : nat) (s : PolState t) : res (PolState t) := Ok s.

(** The recursion comes back to its first state after [m_associativity] calls,
    so one more unit of fuel tells whether it ends. *)
Fixpoint go (fuel : nat) (v : SetView) (s : PolState t) : res (nat * PolState t) :=
  match fuel with
  | O => Err ErrFuel
  | S fuel =>
      let curr_replacement_index := m_replacement_index (ps_pol s) in
      let next := if bool_decide (curr_replacement_index = 0) then v_associativity v - 1
                  else curr_replacement_index - 1 in
      let s := set_pol (mk next) s in
      let? ok := isValidReplacement v next in
      if ok : bool then Ok (curr_replacement_index, s) else go fuel v s
  end.

Definition get (v : SetView) (s : PolState t) : res (nat * PolState t) :=
  go (S (v_associativity v)) v s.

Definition wf (associativity : nat) (s : PolState t) : Prop :=
  0 < associativity ∧ m_replacement_index (ps_pol s) < associativity.
End RoundRobin.

(** ** class CacheSetSRRIP *)

Module SRRIP.
Record t : Type := mk {
  m_rrip_numbits : Z;
  m_rrip_max : Z;
  m_rrip_insert : Z;
  m_num_attempts : nat;
  m_rrip_bits : list Z;
  m_replacement_pointer : nat
}.

Definition new (associativity num_attempts : nat) (numbits : Z) : t :=
  let rrip_max := u8 (Z.shiftl 1 numbits - 1) in
  let rrip_insert := u8 (rrip_max - 1) in
  mk numbits rrip_max rrip_insert num_attempts (replicate associativity rrip_insert) 0.

Definition set_bits (bits : list Z) (p : t) : t :=
  mk (m_rrip_numbits p) (m_rrip_max p) (m_rrip_insert p) (m_num_attempts p) bits
     (m_replacement_pointer p).
Definition set_ptr (ptr : nat) (p : t) : t :=
  mk (m_rrip_numbits p) (m_rrip_max p) (m_rrip_insert p) (m_num_attempts p) (m_rrip_bits p) ptr.

Definition advance (associativity : nat) (s : PolState t) : PolState t :=
  set_pol (set_ptr (next_ptr associativity (m_replacement_pointer (ps_pol s))) (ps_pol s)) s.
Definition write (i : nat) (x : Z) (s : PolState t) : res (PolState t) :=
  let? bits := wr (m_rrip_bits (ps_pol s)) i x in
  Ok (set_pol (set_bits bits (ps_pol s)) s).

(** One revolution of the replacement pointer: a victim, or the number of
    attempts made so far.  A rejected line does not move the pointer. *)
Fixpoint revolution (v : SetView) (n attempt : nat) (s : PolState t) :
    res ((nat * PolState t) + (nat * PolState t)) :=
  match n with
  | O => Ok (inr (attempt, s))
  | S n =>
      let index := m_replacement_pointer (ps_pol s) in
      let? x := rd (m_rrip_bits (ps_pol s)) index in
      if (m_rrip_max (ps_pol s) <=? x)%Z then
        let? qbs_reject :=
          (if bool_decide (attempt < m_num_attempts (ps_pol s) - 1) then
             match v_cntlr v with
             | None => Err (ErrLog "CacheCntlr == NULL, QBS can only be used when cntlr is passed in")
             | Some isInLowerLevelCache =>
                 let? b := rd (v_blocks v) index in Ok (isInLowerLevelCache b)
             end
           else Ok false) in
        if qbs_reject : bool then
          let? s := write index 0%Z s in
          revolution v n (S attempt) (mkPolState (ps_pol s) (ps_info s) (S (ps_qbs s)))
        else
          let? s := write index (m_rrip_insert (ps_pol s)) (advance (v_associativity v) s) in
          let? s := with_info (info_incrementAttempt attempt) s in
          let? ok := isValidReplacement v index in
          log_assert ok "SRRIP selected an invalid replacement candidate";?
          Ok (inl (index, s))
      else revolution v n attempt (advance (v_associativity v) s)
  end.

(** [if (m_rrip_bits[i] < m_rrip_max) m_rrip_bits[i]++] on every line. *)
Definition bump (max x : Z) : Z := if (x <? max)%Z then u8 (x + 1) else x.

Fixpoint rounds (v : SetView) (n attempt : nat) (s : PolState t) : res (nat * PolState t) :=
  match n with
  | O => Err (ErrLog "Error finding replacement index")
  | S n =>
      let? r := revolution v (v_associativity v) attempt s in
      match r with
      | inl (index, s) => Ok (index, s)
      | inr (attempt, s) =>
          rounds v n attempt
            (set_pol (set_bits (bump (m_rrip_max (ps_pol s)) <$> m_rrip_bits (ps_pol s))
                               (ps_pol s)) s)
      end
  end.

Definition get (v : SetView) (s : PolState t) : res (nat * PolState t) :=
  match first_invalid v with
  | Some i => let? s := write i (m_rrip_insert (ps_pol s)) s in Ok (i, s)
  | None => rounds v (S (Z.to_nat (m_rrip_max (ps_pol s)))) 0 s
  end.

Definition upd (associativity accessed : nat) (s : PolState t) : res (PolState t) :=
  let? x := rd (m_rrip_bits (ps_pol s)) accessed in
  let? s := with_info (info_increment x) s in
  if (0 <? x)%Z then write accessed (u8 (x - 1)) s else Ok s.

(** The sets for which the policy never fails: no query-based selection, and
    every prediction fits the access histogram of [CacheSetInfoLRU]. *)
Definition wf (associativity : nat) (s : PolState t) : Prop :=
  let p := ps_pol s in
  0 < associativity ≤ 256 ∧ m_num_attempts p = 1 ∧
  (1 ≤ m_rrip_max p < Z.of_nat associativity)%Z ∧ m_rrip_insert p = (m_rrip_max p - 1)%Z ∧
  length (m_rrip_bits p) = associativity ∧
  Forall (λ x, 0 ≤ x ≤ m_rrip_max p)%Z (m_rrip_bits p) ∧
  m_replacement_pointer p < associativity ∧
  LRU.info_wf associativity 1 (ps_info s).
End SRRIP.

(** ** class CacheSetRandom *)

Module RandomPolicy.
Record t : Type := mk { m_rand : Z }.
(** The seed is the time of the construction. *)
Definition new (time : Z) : t := mk (u32 time).

Definition upd (associativity accessed : nat) (s : PolState t) : res (PolState t) := Ok s.

(** The recursion draws until it hits a replaceable line; no number of draws
    is known to be enough in general, one is if no line is in transit. *)
Definition draws : nat := 1024.
Fixpoint go (fuel : nat) (v : SetView) (s : PolState t) : res (nat * PolState t) :=
  match fuel with
  | O => Err ErrFuel
  | S fuel =>
      match first_invalid v with
      | Some i => Ok (i, s)
      | None =>
          if bool_decide (v_associativity v = 0) then Err ErrUndefined else
          let '(r, seed) := Random_next 32768 (m_rand (ps_pol s)) in
          let s := set_pol (mk seed) s in
          let index := Z.to_nat (r mod Z.of_nat (v_associativity v)) in
          let? ok := isValidReplacement v index in
          if ok : bool then Ok (index, s) else go fuel v s
      end
  end.

Definition get (v : SetView) (s : PolState t) : res (nat * PolState t) := go draws v s.

Definition wf (associativity : nat) (s : PolState t) : Prop := 0 < associativity.
End RandomPolicy.

#[export] Instance NRU_Policy : Policy NRU.t := {
  getReplacementIndex := NRU.get; updateReplacementIndex := NRU.upd; policy_wf := NRU.wf
}.
#[export] Instance PLRU_Policy : Policy PLRU.t := {
  getReplacementIndex := PLRU.get; updateReplacementIndex := PLRU.upd; policy_wf := PLRU.wf
}.
#[export] Instance RoundRobin_Policy : Policy RoundRobin.t := {
  getReplacementIndex := RoundRobin.get; updateReplacementIndex := RoundRobin.upd;
  policy_wf := RoundRobin.wf
}.
#[export] Instance SRRIP_Policy : Policy SRRIP.t := {
  getReplacementIndex := SRRIP.get; updateReplacementIndex := SRRIP.upd; policy_wf := SRRIP.wf
}.
#[export] Instance Random_Policy : Policy RandomPolicy.t := {
  getReplacementIndex := RandomPolicy.get; updateReplacementIndex := RandomPolicy.upd;
  policy_wf := RandomPolicy.wf
}.

(** * Facts *)

(** A pointer that advances reaches every way. *)
Lemma mod_reach assoc p i :
  p < assoc → i < assoc → ∃ k, k < assoc ∧ (p + k) mod assoc = i.
Proof.
  intros Hp Hi. destruct (decide (p ≤ i)).
  - exists (i - p). split; [lia|]. replace (p + (i - p)) with i by lia. by apply Nat.mod_small.
  - exists (assoc + i - p). split; [lia|].
    replace (p + (assoc + i - p)) with (i + 1 * assoc) by lia.
    rewrite Nat.Div0.mod_add. by apply Nat.mod_small.
Qed.

Lemma next_ptr_add assoc p k :
  0 < assoc ≤ 256 → (next_ptr assoc p + k) mod assoc = (p + S k) mod assoc.
Proof.
  intros. rewrite next_ptr_small, Nat.Div0.add_mod_idemp_l by done. f_equal. lia.
Qed.

(** ** NRU *)

Lemma NRU_upd_ok assoc i s :
  NRU.wf assoc s → i < assoc → ∃ s', NRU.upd assoc i s = Ok s' ∧ NRU.wf assoc s'.
Proof.
  intros (Has & Hlen & Hp) Hi. unfold NRU.upd. rewrite wr_lt by lia. simpl.
  eexists. split; [done|]. unfold NRU.wf. case_match; simpl;
    rewrite ?length_replicate, ?length_insert; done.
Qed.

Lemma NRU_advance_wf assoc s : NRU.wf assoc s → NRU.wf assoc (NRU.advance assoc s).
Proof.
  intros (Has & Hlen & Hp). split; [done|]. split; [done|]. simpl. apply next_ptr_lt. lia.
Qed.

(** A line the second loop of NRU accepts. *)
Definition NRU_accepts (v : SetView) (bits : list Z) (have_zero_bit : bool) (j : nat) : Prop :=
  ∃ x, candidate v bits j x ∧ (x = 0%Z ∨ have_zero_bit = false).

(** [m_lru_bits[i] == 0 && isValidReplacement(i)] at a way of the set. *)
Lemma NRU_zero_bit v bits i x b :
  bits !! i = Some x → v_blocks v !! i = Some b →
  ∃ ok, (if (x =? 0)%Z then isValidReplacement v i else Ok false) = Ok ok ∧
        (ok = true ↔ candidate v bits i 0%Z).
Proof.
  intros Hx Hb. rewrite (isValidReplacement_lt _ _ _ Hb).
  exists ((x =? 0)%Z && negb (bool_decide (getCState b = CacheState.SHARED_UPGRADING))).
  split; [by destruct (x =? 0)%Z|].
  rewrite andb_true_iff, negb_true_iff, bool_decide_eq_false, Z.eqb_eq.
  unfold candidate, replaceable. rewrite Hx, Hb. naive_solver.
Qed.

Lemma NRU_first_loop v bits n i hz :
  i + n ≤ length bits → length (v_blocks v) = length bits →
  ∃ r, NRU.first_loop v bits n i hz = Ok r ∧
    match r with
    | inl j => i ≤ j < i + n ∧ (∃ b, v_blocks v !! j = Some b ∧ isValid b = false) ∧
               ∀ k b, i ≤ k < j → v_blocks v !! k = Some b → isValid b = true
    | inr hz' => (∀ k b, i ≤ k < i + n → v_blocks v !! k = Some b → isValid b = true) ∧
                 (hz' = true ↔ hz = true ∨ ∃ j, i ≤ j < i + n ∧ candidate v bits j 0%Z)
    end.
Proof.
  revert i hz. induction n as [|n IH]; intros i hz Hlen Hblk; simpl.
  - eexists. split; [done|]. simpl. split; [intros; lia|].
    split; [by left|]. intros [?|(j & ? & _)]; [done|lia].
  - destruct (rd_lt (v_blocks v) i ltac:(lia)) as (b & Hb & ->). simpl.
    destruct (isValid b) eqn:Hval.
    2:{ eexists. split; [done|]. simpl. split; [lia|]. split; [by exists b|]. intros; lia. }
    destruct (rd_lt bits i ltac:(lia)) as (x & Hx & ->). simpl.
    destruct (NRU_zero_bit v bits i x b Hx Hb) as (ok & -> & Hok). simpl.
    destruct (IH (S i) (if ok then true else hz)) as ([j|hz'] & -> & Hr); [lia..| |];
      eexists; (split; [done|]); simpl.
    + destruct Hr as (Hj & Hinv & Hval'). split; [lia|]. split; [done|].
      intros k b' Hk Hb'. destruct (decide (k = i)) as [->|]; [congruence|].
      apply (Hval' k); [lia|done].
    + destruct Hr as [Hval' Hz]. split.
      * intros k b' Hk Hb'. destruct (decide (k = i)) as [->|]; [congruence|].
        apply (Hval' k); [lia|done].
      * rewrite Hz. split.
        -- intros [H1|(j & Hj & Hc)]; [|right; exists j; split; [lia|done]].
           destruct ok; [right; exists i; split; [lia|by apply Hok]|by left].
        -- intros [->|(j & Hj & Hc)]; [left; by destruct ok|].
           destruct (decide (j = i)) as [->|]; [left; by rewrite (proj2 Hok Hc)|].
           right. exists j. split; [lia|done].
Qed.

Lemma NRU_search_ok v hz n s k :
  view_wf v → NRU.wf (v_associativity v) s → k < n →
  NRU_accepts v (NRU.m_lru_bits (ps_pol s)) hz
    ((NRU.m_replacement_pointer (ps_pol s) + k) mod v_associativity v) →
  ∃ i s', NRU.search v hz n s = Ok (i, s') ∧ i < v_associativity v ∧
          NRU_accepts v (NRU.m_lru_bits (ps_pol s)) hz i ∧ NRU.wf (v_associativity v) s'.
Proof.
  intros Hv. revert s k. induction n as [|n IH]; intros s k Hwf Hk Hacc; [lia|].
  pose proof Hv as [Hblk Hpos]. pose proof Hwf as (Has & Hlen & Hp). simpl.
  set (p := NRU.m_replacement_pointer (ps_pol s)) in *.
  destruct (rd_lt (NRU.m_lru_bits (ps_pol s)) p ltac:(lia)) as (x & Hx & ->). simpl.
  destruct (rd_lt (v_blocks v) p ltac:(lia)) as (b & Hb & _).
  assert (Hok : ∃ ok, (if (x =? 0)%Z || negb hz then isValidReplacement v p else Ok false) = Ok ok ∧
                      (ok = true ↔ NRU_accepts v (NRU.m_lru_bits (ps_pol s)) hz p)).
  { rewrite (isValidReplacement_lt _ _ _ Hb). unfold NRU_accepts, candidate, replaceable.
    rewrite Hx, Hb. destruct (Z.eqb_spec x 0), hz; simpl; eexists; (split; [done|]);
      rewrite ?negb_true_iff, ?bool_decide_eq_false; naive_solver. }
  destruct Hok as (ok & -> & Hok). simpl. destruct ok.
  - destruct (NRU_upd_ok (v_associativity v) p (NRU.advance (v_associativity v) s))
      as (s' & -> & Hwf'); [by apply NRU_advance_wf|done|].
    simpl. exists p, s'. split; [done|]. split; [done|]. split; [by apply Hok|done].
  - destruct k as [|k].
    { exfalso. rewrite Nat.add_0_r, Nat.mod_small in Hacc by done. naive_solver. }
    apply (IH (NRU.advance (v_associativity v) s) k); [by apply NRU_advance_wf|lia|].
    simpl. by rewrite next_ptr_add.
Qed.

(** On a set with a replaceable line NRU finds a victim: the first invalid line
    if there is one; otherwise a replaceable line, with a clear bit if some
    replaceable line has one. *)
Lemma NRU_get_ok v s :
  view_wf v → NRU.wf (v_associativity v) s → Exists replaceable (v_blocks v) →
  ∃ i s', NRU.get v s = Ok (i, s') ∧ i < v_associativity v ∧ NRU.wf (v_associativity v) s' ∧
    match first_invalid v with
    | Some j => i = j
    | None => ∃ x, candidate v (NRU.m_lru_bits (ps_pol s)) i x ∧
                   ((∃ j, candidate v (NRU.m_lru_bits (ps_pol s)) j 0%Z) → x = 0%Z)
    end.
Proof.
  intros Hv Hwf Hex. pose proof Hv as [Hblk Hpos]. pose proof Hwf as (Has & Hlen & Hp).
  unfold NRU.get.
  destruct (NRU_first_loop v (NRU.m_lru_bits (ps_pol s)) (v_associativity v) 0 false)
    as (r & -> & Hr); [lia..|]. simpl. destruct r as [j|hz].
  - destruct Hr as (Hj & Hinv & Hval).
    destruct (NRU_upd_ok (v_associativity v) j s) as (s' & -> & Hwf'); [done|lia|].
    simpl. exists j, s'. split; [done|]. split; [lia|]. split; [done|].
    rewrite (proj2 (first_invalid_Some v j)); [done|]. split; [done|].
    intros k b Hk. apply Hval. lia.
  - destruct Hr as [Hval Hz].
    assert (first_invalid v = None) as ->.
    { apply first_invalid_None, Forall_lookup. intros k b Hb. apply (Hval k); [|done].
      apply lookup_lt_Some in Hb. lia. }
    assert (Hacc : ∃ j, j < v_associativity v ∧ NRU_accepts v (NRU.m_lru_bits (ps_pol s)) hz j).
    { destruct hz.
      - destruct (proj1 Hz eq_refl) as [?|(j & Hj & Hc)]; [done|].
        exists j. split; [lia|]. exists 0%Z. by split; [|left].
      - apply Exists_exists in Hex as (b & Hin & Hrep). apply list_elem_of_lookup in Hin as [j Hb].
        assert (j < v_associativity v) by (apply lookup_lt_Some in Hb; lia).
        destruct (lookup_lt_is_Some_2 (NRU.m_lru_bits (ps_pol s)) j) as [x Hx]; [lia|].
        exists j. split; [done|]. exists x. split; [|by right]. split; [done|]. by exists b. }
    destruct Hacc as (j & Hj & Hacc). destruct (mod_reach _ _ _ Hp Hj) as (k & Hk & <-).
    destruct (NRU_search_ok v hz (v_associativity v) s k) as (i & s' & -> & Hi & Hai & Hwf'); [done..|].
    exists i, s'. split; [done|]. split; [done|]. split; [done|].
    destruct Hai as (x & Hc & Hx). exists x. split; [done|]. intros (j & Hj0).
    destruct Hx as [Hx|Hx]; [done|]. exfalso. subst hz.
    enough (false = true) by done. apply Hz. right. exists j. split; [|done].
    destruct Hj0 as [Hj0 _]. apply lookup_lt_Some in Hj0. lia.
Qed.

#[export] Instance NRU_PolicyOk : PolicyOk NRU.t.
Proof.
  split.
  - intros v s Hv Hrep _ Hwf. pose proof Hv as [Hblk Hpos].
    destruct (NRU_get_ok v s Hv Hwf) as (i & s' & He & Hi & Hwf' & _); [|by exists i, s'].
    destruct (lookup_lt_is_Some_2 (v_blocks v) 0) as [b Hb]; [lia|].
    apply Exists_exists. exists b. split; [by eapply list_elem_of_lookup_2|].
    by eapply Forall_lookup_1.
  - intros assoc i s Hi Hwf. by apply NRU_upd_ok.
Qed.

(** ** PLRU *)

Lemma assign_ok bits l :
  Forall (λ e, e.1 < length bits) l →
  ∃ bits', PLRU.assign bits l = Ok bits' ∧ length bits' = length bits.
Proof.
  revert bits. induction l as [|[i x] l IH]; intros bits Hl; simpl; [by exists bits|].
  apply Forall_cons in Hl as [Hi Hl]. simpl in Hi. rewrite wr_lt by done. simpl.
  destruct (IH (<[i:=x]> bits)) as (bits' & -> & Hlen); [by rewrite length_insert|].
  exists bits'. split; [done|]. by rewrite Hlen, length_insert.
Qed.

Lemma PLRU_upd_ok assoc i s :
  PLRU.wf assoc s → i < assoc → ∃ s', PLRU.upd assoc i s = Ok s' ∧ PLRU.wf assoc s'.
Proof.
  intros [Has Hlen] Hi. unfold PLRU.upd.
  assert (Hl : ∃ l, match assoc with
    | 4 => Ok match i with
              | 0 => [(0, 1%Z); (1, 1%Z)] | 1 => [(0, 1%Z); (1, 0%Z)]
              | 2 => [(0, 0%Z); (2, 1%Z)] | 3 => [(0, 0%Z); (2, 0%Z)] | _ => [] end
    | 8 => Ok match i with
              | 0 => [(0, 1%Z); (1, 1%Z); (2, 1%Z)] | 1 => [(0, 1%Z); (1, 1%Z); (2, 0%Z)]
              | 2 => [(0, 1%Z); (1, 0%Z); (3, 1%Z)] | 3 => [(0, 1%Z); (1, 0%Z); (3, 0%Z)]
              | 4 => [(0, 0%Z); (4, 1%Z); (5, 1%Z)] | 5 => [(0, 0%Z); (4, 1%Z); (5, 0%Z)]
              | 6 => [(0, 0%Z); (4, 0%Z); (6, 1%Z)] | 7 => [(0, 0%Z); (4, 0%Z); (6, 0%Z)]
              | _ => [] end
    | _ => Err (ErrLog "PLRU doesn't support associativity")
    end = Ok l ∧ Forall (λ e, e.1 < 8) l).
  { destruct Has as [-> | ->]; (eexists; split; [done|]);
      do 8 (destruct i as [|i]; [repeat constructor; simpl; lia|]); constructor. }
  destruct Hl as (l & -> & Hl). simpl. rewrite <- Hlen in Hl.
  destruct (assign_ok (PLRU.b (ps_pol s)) l Hl) as (bits' & -> & Hlen'). simpl.
  eexists. split; [done|]. split; [done|]. simpl. congruence.
Qed.

Lemma node_ok {A} bits i (k0 k1 : res A) (Q : A → Prop) :
  i < length bits → (∃ a, k0 = Ok a ∧ Q a) → (∃ a, k1 = Ok a ∧ Q a) →
  ∃ a, PLRU.node bits i k0 k1 = Ok a ∧ Q a.
Proof.
  intros Hi H0 H1. unfold PLRU.node. destruct (rd_lt bits i Hi) as (x & _ & ->). simpl.
  by destruct (x =? 0)%Z.
Qed.

Lemma PLRU_victim_ok assoc bits :
  (assoc = 4 ∨ assoc = 8) → length bits = 8 → ∃ i, PLRU.victim assoc bits = Ok i ∧ i < assoc.
Proof.
  intros [-> | ->] Hlen; repeat (apply node_ok; [lia|..]); (eexists; split; [done|lia]).
Qed.

#[export] Instance PLRU_PolicyOk : PolicyOk PLRU.t.
Proof.
  split.
  - intros v s Hv Hrep _ Hwf. simpl in *. unfold PLRU.get.
    destruct (first_invalid v) as [i|] eqn:Hfi.
    + pose proof (first_invalid_lt _ _ Hv Hfi) as Hi.
      destruct (PLRU_upd_ok _ _ _ Hwf Hi) as (s' & -> & Hwf'). by exists i, s'.
    + destruct (PLRU_victim_ok (v_associativity v) (PLRU.b (ps_pol s))) as (i & -> & Hi); [apply Hwf..|].
      simpl. rewrite isValidReplacement_ok by done. simpl.
      destruct (PLRU_upd_ok _ _ _ Hwf Hi) as (s' & -> & Hwf'). by exists i, s'.
  - intros assoc i s Hi Hwf. by apply PLRU_upd_ok.
Qed.

(** [n] replacements in a row on a full set, each touching its victim. *)
Fixpoint PLRU_victims (assoc n : nat) (s : PolState PLRU.t) : res (list nat) :=
  match n with
  | O => Ok []
  | S n =>
      let? i := PLRU.victim assoc (PLRU.b (ps_pol s)) in
      let? s := PLRU.upd assoc i s in
      let? l := PLRU_victims assoc n s in
      Ok (i :: l)
  end.

(** A line survives the first [log2 associativity] replacements after its last
    access. *)
Lemma PLRU_protects assoc i s :
  PLRU.wf assoc s → i < assoc →
  ∃ l, (let? s' := PLRU.upd assoc i s in PLRU_victims assoc (Nat.log2 assoc) s') = Ok l ∧ i ∉ l.
Proof.
  intros [Has Hlen] Hi. destruct s as [[bits] info q]. simpl in Hlen.
  do 9 (destruct bits as [|? bits]; [done || idtac|]); try done; clear Hlen.
  destruct Has as [-> | ->];
    do 8 (destruct i as [|i]; [
      first [lia|cbn];
      repeat match goal with
             | |- context [(?x =? 0)%Z] => is_var x; destruct (x =? 0)%Z; cbn
             end; eexists; (split; [done|]); by apply (bool_decide_eq_true_1 _)|]); lia.
Qed.

(** ** Round robin *)

Lemma RoundRobin_go v n s k b :
  view_wf v → RoundRobin.m_replacement_index (ps_pol s) < v_associativity v → k < n →
  v_blocks v !! ((RoundRobin.m_replacement_index (ps_pol s) + (k + 1) * (v_associativity v - 1))
                   mod v_associativity v) = Some b → replaceable b →
  ∃ i s', RoundRobin.go n v s = Ok (i, s') ∧ i < v_associativity v ∧
          RoundRobin.wf (v_associativity v) s'.
Proof.
  intros Hv. revert s k. induction n as [|n IH]; intros s k Hp Hk Hb Hrep; [lia|].
  pose proof Hv as [Hblk Hpos]. simpl.
  set (p := RoundRobin.m_replacement_index (ps_pol s)) in *.
  set (next := if bool_decide (p = 0) then v_associativity v - 1 else p - 1).
  assert (Hnext : next = (p + (v_associativity v - 1)) mod v_associativity v).
  { subst next. case_bool_decide as H0; [rewrite H0, Nat.mod_small by lia; lia|].
    replace (p + (v_associativity v - 1)) with (p - 1 + 1 * v_associativity v) by lia.
    rewrite Nat.Div0.mod_add, Nat.mod_small by lia. done. }
  assert (Hlt : next < v_associativity v) by (rewrite Hnext; apply Nat.mod_upper_bound; lia).
  destruct (rd_lt (v_blocks v) next ltac:(lia)) as (c & Hc & _).
  rewrite (isValidReplacement_lt _ _ _ Hc). simpl. case_bool_decide as Hup; simpl.
  - destruct k as [|k].
    { exfalso. rewrite Nat.add_0_l, Nat.mul_1_l, <- Hnext in Hb. by simplify_eq. }
    apply (IH (set_pol (RoundRobin.mk next) s) k); [done|lia| |done].
    simpl. rewrite Hnext, Nat.Div0.add_mod_idemp_l. by replace (p + (v_associativity v - 1) +
      (k + 1) * (v_associativity v - 1)) with (p + (S k + 1) * (v_associativity v - 1)) by lia.
  - do 2 eexists. split; [done|]. split; [done|]. split; [lia|done].
Qed.

#[export] Instance RoundRobin_PolicyOk : PolicyOk RoundRobin.t.
Proof.
  split.
  - intros v s Hv Hrep _ [Has Hp]. pose proof Hv as [Hblk Hpos]. simpl.
    destruct (lookup_lt_is_Some_2 (v_blocks v)
      ((RoundRobin.m_replacement_index (ps_pol s) + (0 + 1) * (v_associativity v - 1))
        mod v_associativity v)) as [b Hb].
    { rewrite Hblk. apply Nat.mod_upper_bound. lia. }
    apply (RoundRobin_go v (S (v_associativity v)) s 0 b); [done|done|lia|done|].
    by eapply Forall_lookup_1.
  - intros assoc i s Hi Hwf. by exists s.
Qed.

(** ** Random *)

Lemma RandomPolicy_go n v s :
  view_wf v → Forall replaceable (v_blocks v) →
  ∃ i s', RandomPolicy.go (S n) v s = Ok (i, s') ∧ i < v_associativity v.
Proof.
  intros Hv Hrep. pose proof Hv as [Hblk Hpos]. cbn [RandomPolicy.go].
  destruct (first_invalid v) as [i|] eqn:Hfi.
  - exists i, s. split; [done|by apply first_invalid_lt].
  - rewrite bool_decide_false by lia. destruct (Random_next 32768 (RandomPolicy.m_rand (ps_pol s))) as [r seed].
    assert (Hi : Z.to_nat (r mod Z.of_nat (v_associativity v)) < v_associativity v).
    { pose proof (Z.mod_pos_bound r (Z.of_nat (v_associativity v)) ltac:(lia)). lia. }
    rewrite isValidReplacement_ok by done. simpl. do 2 eexists. by split.
Qed.

#[export] Instance Random_PolicyOk : PolicyOk RandomPolicy.t.
Proof.
  split.
  - intros v s Hv Hrep _ Hwf. destruct (RandomPolicy_go 1023 v s Hv Hrep) as (i & s' & He & Hi).
    by exists i, s'.
  - intros assoc i s Hi Hwf. by exists s.
Qed.

(** ** SRRIP *)

Lemma SRRIP_write_wf assoc i x s :
  SRRIP.wf assoc s → i < assoc → (0 ≤ x ≤ SRRIP.m_rrip_max (ps_pol s))%Z →
  ∃ s', SRRIP.write i x s = Ok s' ∧ SRRIP.wf assoc s'.
Proof.
  intros (Has & Hna & Hmax & Hins & Hlen & Hall & Hp & Hinfo) Hi Hx. unfold SRRIP.write.
  rewrite wr_lt by lia. simpl. eexists. split; [done|]. unfold SRRIP.wf. simpl.
  rewrite length_insert.
  do 5 (split; [done|]). split; [|done]. by apply Forall_insert.
Qed.

Lemma SRRIP_info_wf assoc i s :
  SRRIP.wf assoc s → LRU.info_wf assoc 1 (Some i) →
  SRRIP.wf assoc (mkPolState (ps_pol s) (Some i) (ps_qbs s)).
Proof. intros (Has & Hna & Hmax & Hins & Hlen & Hall & Hp & Hinfo) Hi. do 7 (split; [done|]). done. Qed.

Lemma SRRIP_advance_wf assoc s : SRRIP.wf assoc s → SRRIP.wf assoc (SRRIP.advance assoc s).
Proof.
  intros (Has & Hna & Hmax & Hins & Hlen & Hall & Hp & Hinfo).
  do 6 (split; [done|]). split; [|done]. simpl. apply next_ptr_lt. lia.
Qed.

Lemma SRRIP_upd_ok assoc i s :
  SRRIP.wf assoc s → i < assoc → ∃ s', SRRIP.upd assoc i s = Ok s' ∧ SRRIP.wf assoc s'.
Proof.
  intros Hwf Hi. pose proof Hwf as (Has & Hna & Hmax & Hins & Hlen & Hall & Hp & Hinfo).
  unfold SRRIP.upd. destruct (rd_lt (SRRIP.m_rrip_bits (ps_pol s)) i ltac:(lia)) as (x & Hx & ->).
  simpl. pose proof (Forall_lookup_1 _ _ _ _ Hall Hx) as Hxr. simpl in Hxr.
  destruct (info_increment_ok _ _ x _ Hinfo ltac:(lia)) as (j & Hj & j' & He & Hj').
  unfold with_info. rewrite Hj. simpl. rewrite He. simpl.
  pose proof (SRRIP_info_wf _ _ _ Hwf Hj') as Hwf'.
  destruct (Z.ltb_spec 0 x); [|by eexists].
  apply SRRIP_write_wf; [done|done|]. simpl. rewrite u8_id; unfold in_u8; lia.
Qed.

Lemma SRRIP_revolution_miss v n attempt s :
  0 < v_associativity v ≤ 256 → SRRIP.m_replacement_pointer (ps_pol s) < v_associativity v →
  length (SRRIP.m_rrip_bits (ps_pol s)) = v_associativity v →
  Forall (λ x, x < SRRIP.m_rrip_max (ps_pol s))%Z (SRRIP.m_rrip_bits (ps_pol s)) →
  SRRIP.revolution v n attempt s
  = Ok (inr (attempt, set_pol (SRRIP.set_ptr
      ((SRRIP.m_replacement_pointer (ps_pol s) + n) mod v_associativity v) (ps_pol s)) s)).
Proof.
  intros Has. revert s. induction n as [|n IH]; intros s Hp Hlen Hall; simpl.
  - rewrite Nat.add_0_r, Nat.mod_small by done. by destruct s as [[]].
  - destruct (rd_lt (SRRIP.m_rrip_bits (ps_pol s)) _ ltac:(rewrite Hlen; exact Hp)) as (x & Hx & ->).
    simpl. pose proof (Forall_lookup_1 _ _ _ _ Hall Hx) as Hlt. simpl in Hlt.
    destruct (Z.leb_spec (SRRIP.m_rrip_max (ps_pol s)) x); [lia|].
    rewrite IH; [|by apply next_ptr_lt; lia|done|done]. simpl. by rewrite next_ptr_add.
Qed.

Lemma SRRIP_revolution_hit v n s k x :
  view_wf v → Forall replaceable (v_blocks v) → SRRIP.wf (v_associativity v) s → k < n →
  SRRIP.m_rrip_bits (ps_pol s)
    !! ((SRRIP.m_replacement_pointer (ps_pol s) + k) mod v_associativity v) = Some x →
  (SRRIP.m_rrip_max (ps_pol s) ≤ x)%Z →
  ∃ i s', SRRIP.revolution v n 0 s = Ok (inl (i, s')) ∧ i < v_associativity v ∧
          SRRIP.m_rrip_bits (ps_pol s) !! i = Some (SRRIP.m_rrip_max (ps_pol s)) ∧
          SRRIP.wf (v_associativity v) s'.
Proof.
  intros Hv Hrep. revert s k. induction n as [|n IH]; intros s k Hwf Hk Hx Hge; [lia|].
  pose proof Hwf as (Has & Hna & Hmax & Hins & Hlen & Hall & Hp & Hinfo). simpl.
  set (p := SRRIP.m_replacement_pointer (ps_pol s)) in *.
  destruct (rd_lt (SRRIP.m_rrip_bits (ps_pol s)) p ltac:(lia)) as (y & Hy & ->).
  simpl. pose proof (Forall_lookup_1 _ _ _ _ Hall Hy) as Hyr. simpl in Hyr.
  destruct (Z.leb_spec (SRRIP.m_rrip_max (ps_pol s)) y) as [Hle|Hlt].
  - rewrite Hna, bool_decide_false by lia. simpl.
    destruct (SRRIP_write_wf (v_associativity v) p (SRRIP.m_rrip_insert (ps_pol s))
      (SRRIP.advance (v_associativity v) s)) as (s1 & -> & Hwf1);
      [by apply SRRIP_advance_wf|done|simpl; lia|]. simpl.
    pose proof Hwf1 as (_ & _ & _ & _ & _ & _ & _ & Hinfo1).
    destruct (info_incrementAttempt_ok _ _ 0 _ Hinfo1 ltac:(lia)) as (j & Hj & j' & He & Hj').
    unfold with_info. rewrite Hj. simpl. rewrite He. simpl.
    rewrite isValidReplacement_ok by done. simpl.
    do 2 eexists. split; [done|]. split; [done|]. split; [rewrite Hy; f_equal; lia|].
    by apply SRRIP_info_wf.
  - destruct k as [|k].
    { exfalso. rewrite Nat.add_0_r, Nat.mod_small in Hx by done. simplify_eq. lia. }
    apply (IH (SRRIP.advance (v_associativity v) s) k); [by apply SRRIP_advance_wf|lia| |done].
    simpl. by rewrite next_ptr_add.
Qed.

Lemma SRRIP_bump_all max M bits :
  (M < max ≤ 255)%Z → Forall (λ x, 0 ≤ x ≤ M)%Z bits →
  SRRIP.bump max <$> bits = (λ x, x + 1)%Z <$> bits.
Proof.
  intros HM Hall. apply list_fmap_ext. intros i x Hx.
  pose proof (Forall_lookup_1 _ _ _ _ Hall Hx) as Hr. simpl in Hr. unfold SRRIP.bump.
  destruct (Z.ltb_spec x max); [|lia]. apply u8_id. unfold in_u8. lia.
Qed.

(** The rounds end with a line whose prediction was the largest of the set. *)
Lemma SRRIP_rounds v n s M j :
  view_wf v → Forall replaceable (v_blocks v) → SRRIP.wf (v_associativity v) s →
  SRRIP.m_rrip_bits (ps_pol s) !! j = Some M →
  Forall (λ x, 0 ≤ x ≤ M)%Z (SRRIP.m_rrip_bits (ps_pol s)) →
  (SRRIP.m_rrip_max (ps_pol s) - M < Z.of_nat n)%Z →
  ∃ i s', SRRIP.rounds v n 0 s = Ok (i, s') ∧ i < v_associativity v ∧
          SRRIP.m_rrip_bits (ps_pol s) !! i = Some M ∧ SRRIP.wf (v_associativity v) s'.
Proof.
  intros Hv Hrep. revert s M. induction n as [|n IH]; intros s M Hwf Hj HM Hn.
  all: pose proof Hwf as (Has & Hna & Hmax & Hins & Hlen & Hall & Hp & Hinfo).
  all: pose proof (Forall_lookup_1 _ _ _ _ Hall Hj) as HMr; simpl in HMr.
  { lia. }
  simpl. destruct (decide (M = SRRIP.m_rrip_max (ps_pol s))) as [->|Hne].
  - assert (Hjlt : j < v_associativity v) by (apply lookup_lt_Some in Hj; lia).
    destruct (mod_reach _ _ _ Hp Hjlt) as (k & Hk & Hkj). rewrite <- Hkj in Hj.
    destruct (SRRIP_revolution_hit v (v_associativity v) s k _ Hv Hrep Hwf Hk Hj)
      as (i & s' & -> & Hrest); [lia|]. by exists i, s'.
  - rewrite SRRIP_revolution_miss;
      [|done|done|done|eapply Forall_impl; [exact HM|simpl; intros; lia]].
    simpl. rewrite (SRRIP_bump_all _ M) by (done || lia).
    destruct (IH (set_pol (SRRIP.set_bits ((λ x, x + 1)%Z <$> SRRIP.m_rrip_bits (ps_pol s))
                (SRRIP.set_ptr ((SRRIP.m_replacement_pointer (ps_pol s) + v_associativity v)
                   mod v_associativity v) (ps_pol s))) s) (M + 1)%Z)
      as (i & s' & He & Hi & Hbi & Hwf'); simpl.
    + do 4 (split; [done|]). simpl. split; [by rewrite length_fmap|].
      split; [|split; [apply Nat.mod_upper_bound; lia|done]].
      apply Forall_fmap. eapply Forall_impl; [exact HM|]. simpl. intros; lia.
    + rewrite list_lookup_fmap, Hj. done.
    + apply Forall_fmap. eapply Forall_impl; [exact HM|]. simpl. intros; lia.
    + lia.
    + exists i, s'. split; [done|]. split; [done|]. split; [|done].
      simpl in Hbi. rewrite list_lookup_fmap in Hbi.
      destruct (SRRIP.m_rrip_bits (ps_pol s) !! i) as [y|]; simpl in Hbi; [|done].
      simplify_eq. f_equal. lia.
Qed.

Lemma list_max_exists (l : list Z) : l ≠ [] → ∃ j M, l !! j = Some M ∧ Forall (λ x, x ≤ M)%Z l.
Proof.
  induction l as [|x l IH]; [done|]. intros _. destruct l as [|y l'].
  - exists 0, x. split; [done|]. repeat constructor. lia.
  - destruct IH as (j & M & Hj & HM); [done|]. destruct (decide (x ≤ M)%Z).
    + exists (S j), M. split; [done|]. by constructor.
    + exists 0, x. split; [done|]. constructor; [lia|]. eapply Forall_impl; [done|].
      simpl. intros; lia.
Qed.

(** The first invalid line, or else a line of largest re-reference prediction. *)
Lemma SRRIP_get_ok v s :
  view_wf v → Forall replaceable (v_blocks v) → SRRIP.wf (v_associativity v) s →
  ∃ i s', SRRIP.get v s = Ok (i, s') ∧ i < v_associativity v ∧ SRRIP.wf (v_associativity v) s' ∧
    match first_invalid v with
    | Some j => i = j
    | None => ∃ M, SRRIP.m_rrip_bits (ps_pol s) !! i = Some M ∧
                   Forall (λ x, x ≤ M)%Z (SRRIP.m_rrip_bits (ps_pol s))
    end.
Proof.
  intros Hv Hrep Hwf. pose proof Hwf as (Has & Hna & Hmax & Hins & Hlen & Hall & Hp & Hinfo).
  unfold SRRIP.get. destruct (first_invalid v) as [i|] eqn:Hfi.
  - pose proof (first_invalid_lt _ _ Hv Hfi) as Hi.
    destruct (SRRIP_write_wf _ _ (SRRIP.m_rrip_insert (ps_pol s)) _ Hwf Hi)
      as (s' & -> & Hwf'); [lia|]. by exists i, s'.
  - destruct (list_max_exists (SRRIP.m_rrip_bits (ps_pol s))) as (j & M & Hj & HM).
    { intros E. rewrite E in Hlen. simpl in Hlen. lia. }
    pose proof (Forall_lookup_1 _ _ _ _ Hall Hj) as HMr. simpl in HMr.
    destruct (SRRIP_rounds v (S (Z.to_nat (SRRIP.m_rrip_max (ps_pol s)))) s M j)
      as (i & s' & He & Hi & Hbi & Hwf'); [done|done|done|done| |lia|].
    { apply Forall_lookup. intros k x Hx. pose proof (Forall_lookup_1 _ _ _ _ Hall Hx).
      pose proof (Forall_lookup_1 _ _ _ _ HM Hx). simpl in *. lia. }
    exists i, s'. split; [exact He|]. split; [done|]. split; [done|]. by exists M.
Qed.

#[export] Instance SRRIP_PolicyOk : PolicyOk SRRIP.t.
Proof.
  split.
  - intros v s Hv Hrep _ Hwf.
    destruct (SRRIP_get_ok v s Hv Hrep Hwf) as (i & s' & He & Hi & Hwf' & _). by exists i, s'.
  - intros assoc i s Hi Hwf. by apply SRRIP_upd_ok.
Qed.

(** ** What the policies do not touch *)

Lemma NRU_upd_info assoc i (s s' : PolState NRU.t) :
  NRU.upd assoc i s = Ok s' → ps_info s' = ps_info s.
Proof. by intros (l & _ & [= <-])%res_bind_Ok. Qed.

Lemma NRU_search_info v hz n (s : PolState NRU.t) i s' :
  NRU.search v hz n s = Ok (i, s') → ps_info s' = ps_info s.
Proof.
  revert s. induction n as [|n IH]; intros s He; simpl in He; [done|].
  apply res_bind_Ok in He as (x & _ & He). apply res_bind_Ok in He as ([|] & _ & He).
  - apply res_bind_Ok in He as (s1 & Hu & [= _ <-]). by apply NRU_upd_info in Hu.
  - by apply IH in He.
Qed.

#[export] Instance NRU_PolicyFrame : PolicyFrame NRU.t.
Proof.
  split.
  - intros v s i s'. simpl. unfold NRU.get. intros ([j|hz] & _ & He)%res_bind_Ok.
    + apply res_bind_Ok in He as (s1 & Hm & [= _ <-]). apply NRU_upd_info in Hm. by rewrite Hm.
    + apply NRU_search_info in He. by rewrite He.
  - intros assoc i s s' ->%NRU_upd_info. done.
  - intros assoc s i q Hwf _. exact Hwf.
Qed.

Lemma PLRU_upd_info assoc i (s s' : PolState PLRU.t) :
  PLRU.upd assoc i s = Ok s' → ps_info s' = ps_info s.
Proof. by intros (l & _ & (bits & _ & [= <-])%res_bind_Ok)%res_bind_Ok. Qed.

#[export] Instance PLRU_PolicyFrame : PolicyFrame PLRU.t.
Proof.
  split.
  - intros v s i s'. simpl. unfold PLRU.get. destruct (first_invalid v).
    + intros (s1 & Hm & [= _ <-])%res_bind_Ok. apply PLRU_upd_info in Hm. by rewrite Hm.
    + intros (r & _ & (ok & _ & ([] & _ & (s1 & Hm & [= _ <-])%res_bind_Ok)%res_bind_Ok)%res_bind_Ok)%res_bind_Ok.
      apply PLRU_upd_info in Hm. by rewrite Hm.
  - intros assoc i s s' ->%PLRU_upd_info. done.
  - intros assoc s i q Hwf _. exact Hwf.
Qed.

#[export] Instance PLRU_FillsFirst : FillsFirst PLRU.t.
Proof.
  intros v s i s' j. simpl. unfold PLRU.get. intros He Hf. rewrite Hf in He.
  by apply res_bind_Ok in He as (s1 & _ & [= <- _]).
Qed.

Lemma RoundRobin_go_info n v (s : PolState RoundRobin.t) i s' :
  RoundRobin.go n v s = Ok (i, s') → ps_info s' = ps_info s.
Proof.
  revert s. induction n as [|n IH]; intros s He; simpl in He; [done|].
  apply res_bind_Ok in He as ([|] & _ & He); [by injection He as _ <-|by apply IH in He].
Qed.

#[export] Instance RoundRobin_PolicyFrame : PolicyFrame RoundRobin.t.
Proof.
  split.
  - intros v s i s' ->%RoundRobin_go_info. done.
  - by intros assoc i s s' [= ->].
  - intros assoc s i q Hwf _. exact Hwf.
Qed.

Lemma RandomPolicy_go_info n v (s : PolState RandomPolicy.t) i s' :
  RandomPolicy.go n v s = Ok (i, s') → ps_info s' = ps_info s.
Proof.
  revert s. induction n as [|n IH]; intros s He; [done|]. cbn [RandomPolicy.go] in He.
  destruct (first_invalid v); [by injection He as _ <-|].
  case_bool_decide; [done|].
  destruct (Random_next 32768 (RandomPolicy.m_rand (ps_pol s))) as [r seed].
  apply res_bind_Ok in He as ([|] & _ & He); [by injection He as _ <-|by apply IH in He].
Qed.

#[export] Instance Random_PolicyFrame : PolicyFrame RandomPolicy.t.
Proof.
  split.
  - intros v s i s' Hg%RandomPolicy_go_info. by rewrite Hg.
  - by intros assoc i s s' [= ->].
  - intros assoc s i q Hwf _. exact Hwf.
Qed.

#[export] Instance Random_FillsFirst : FillsFirst RandomPolicy.t.
Proof.
  intros v s i s' j He Hf.
  assert (Hgo : ∀ n, RandomPolicy.go (S n) v s = Ok (j, s)) by (intros n; cbn; by rewrite Hf).
  change (RandomPolicy.go (S 1023) v s = Ok (i, s')) in He. rewrite Hgo in He. by simplify_eq.
Qed.

Lemma SRRIP_write_info i x (s s' : PolState SRRIP.t) :
  SRRIP.write i x s = Ok s' → ps_info s' = ps_info s.
Proof. by intros (l & _ & [= <-])%res_bind_Ok. Qed.

Lemma SRRIP_revolution_shape v n a (s : PolState SRRIP.t) r :
  SRRIP.revolution v n a s = Ok r →
  same_shape (ps_info s) (ps_info (match r with inl (_, s') | inr (_, s') => s' end)).
Proof.
  revert a s. induction n as [|n IH]; intros a s He; simpl in He; [by injection He as <-|].
  apply res_bind_Ok in He as (x & _ & He). destruct (SRRIP.m_rrip_max (ps_pol s) <=? x)%Z.
  - apply res_bind_Ok in He as ([|] & _ & He).
    + apply res_bind_Ok in He as (s1 & Hw & He). apply SRRIP_write_info in Hw.
      rewrite <- Hw. by apply IH in He.
    + apply res_bind_Ok in He as (s1 & Hw & He). apply SRRIP_write_info in Hw. simpl in Hw.
      apply res_bind_Ok in He as (s2 & Hi & He).
      apply (with_info_shape _ _ _ (info_incrementAttempt_shape a)) in Hi as [Hs _].
      rewrite Hw in Hs. apply res_bind_Ok in He as (ok & _ & He).
      by apply res_bind_Ok in He as ([] & _ & [= <-]).
  - by apply IH in He.
Qed.

Lemma SRRIP_rounds_shape v n a (s : PolState SRRIP.t) i s' :
  SRRIP.rounds v n a s = Ok (i, s') → same_shape (ps_info s) (ps_info s').
Proof.
  revert a s. induction n as [|n IH]; intros a s He; simpl in He; [done|].
  apply res_bind_Ok in He as (r & Hr & He). apply SRRIP_revolution_shape in Hr.
  destruct r as [[j s1]|[a' s1]]; [by injection He as _ <-|].
  apply IH in He. simpl in He. by etrans.
Qed.

#[export] Instance SRRIP_PolicyFrame : PolicyFrame SRRIP.t.
Proof.
  split.
  - intros v s i s'. cbn [getReplacementIndex SRRIP_Policy]. unfold SRRIP.get.
    destruct (first_invalid v); [|apply SRRIP_rounds_shape].
    intros (s1 & Hm & [= _ <-])%res_bind_Ok. apply SRRIP_write_info in Hm. by rewrite Hm.
  - intros assoc i s s'. simpl. unfold SRRIP.upd.
    intros (x & _ & (s1 & Hw & He)%res_bind_Ok)%res_bind_Ok.
    apply (with_info_shape _ _ _ (info_increment_shape x)) in Hw as [Hs _].
    destruct (0 <? x)%Z; [apply SRRIP_write_info in He; by rewrite He|by injection He as <-].
  - intros assoc s i q (? & ? & ? & ? & ? & ? & ? & Hi) Hs. do 7 (split; [done|]).
    by eapply info_wf_shape.
Qed.

#[export] Instance SRRIP_FillsFirst : FillsFirst SRRIP.t.
Proof.
  intros v s i s' j. cbn [getReplacementIndex SRRIP_Policy]. unfold SRRIP.get. intros He Hf.
  rewrite Hf in He. by apply res_bind_Ok in He as (s1 & _ & [= <- _]).
Qed.

(** * Properties *)

(** C11: tree-PLRU protects recent lines: after an access to way [i] of a 4- or
    8-way set, whatever the tree bits were, none of the next [log2] of the
    associativity replacements (each of which touches its victim) evicts [i]. *)
Theorem plru_protects_recent_line assoc i s :
  PLRU.wf assoc s → i < assoc →
  ∃ l, (let? s' := PLRU.upd assoc i s in PLRU_victims assoc (Nat.log2 assoc) s') = Ok l ∧ i ∉ l.
Proof. apply PLRU_protects. Qed.

Lemma plru_protects_recent_line_witness :
  ∃ l, (let? s' := PLRU.upd 8 5 (mkPolState (PLRU.mk [0; 1; 0; 1; 1; 0; 1; 0]%Z) None 0) in
        PLRU_victims 8 (Nat.log2 8) s') = Ok l ∧ 5 ∉ l.
Proof.
  apply (plru_protects_recent_line 8 5 (mkPolState (PLRU.mk [0; 1; 0; 1; 1; 0; 1; 0]%Z) None 0)).
  - split; [by right|reflexivity].
  - lia.
Defined.

(** NRU finds a victim on every set that has a replaceable line, lines in
    transit or not: the first invalid line if there is one; otherwise a
    replaceable line, and one whose bit is clear if some replaceable line has a
    clear bit. *)
Theorem nru_finds_unused_line v s :
  view_wf v → NRU.wf (v_associativity v) s → Exists replaceable (v_blocks v) →
  ∃ i s', NRU.get v s = Ok (i, s') ∧ i < v_associativity v ∧ NRU.wf (v_associativity v) s' ∧
    match first_invalid v with
    | Some j => i = j
    | None => ∃ x, candidate v (NRU.m_lru_bits (ps_pol s)) i x ∧
                   ((∃ j, candidate v (NRU.m_lru_bits (ps_pol s)) j 0%Z) → x = 0%Z)
    end.
Proof. apply NRU_get_ok. Qed.

Lemma nru_finds_unused_line_witness :
  ∃ i s', NRU.get (mkSetView 2 [example_line 1 CacheState.SHARED_UPGRADING;
                                example_line 2 CacheState.SHARED] None)
                  (mkPolState (NRU.mk [0; 1]%Z 1 0) None 0) = Ok (i, s') ∧ i < 2.
Proof.
  destruct (nru_finds_unused_line
    (mkSetView 2 [example_line 1 CacheState.SHARED_UPGRADING; example_line 2 CacheState.SHARED] None)
    (mkPolState (NRU.mk [0; 1]%Z 1 0) None 0)) as (i & s' & He & Hi & _).
  - split; simpl; lia.
  - repeat split; simpl; lia.
  - apply Exists_cons_tl, Exists_cons_hd. done.
  - by exists i, s'.
Defined.

(** The counter of NRU counts accesses, not set bits: two accesses to one
    line of a two-way set clear the bits although the other line was never
    touched. *)
Theorem nru_clears_bits_early :
  ∃ s1 s2, NRU.upd 2 0 (mkPolState (NRU.new 2) None 0) = Ok s1 ∧
           NRU.m_lru_bits (ps_pol s1) = [1; 0]%Z ∧
           NRU.upd 2 0 s1 = Ok s2 ∧ NRU.m_lru_bits (ps_pol s2) = [0; 0]%Z.
Proof. do 2 eexists. by repeat split. Qed.

(** C12: without query-based selection, on a set without lines in transit and
    with [m_rrip_max] below the number of ways, the search of SRRIP ends
    within [m_rrip_max + 1] revolutions, and the victim is the first invalid
    line or else a line whose re-reference prediction was the largest of the
    set. *)
Theorem srrip_evicts_largest_prediction v s :
  view_wf v → Forall replaceable (v_blocks v) → SRRIP.wf (v_associativity v) s →
  ∃ i s', SRRIP.get v s = Ok (i, s') ∧ i < v_associativity v ∧ SRRIP.wf (v_associativity v) s' ∧
    match first_invalid v with
    | Some j => i = j
    | None => ∃ M, SRRIP.m_rrip_bits (ps_pol s) !! i = Some M ∧
                   Forall (λ x, x ≤ M)%Z (SRRIP.m_rrip_bits (ps_pol s))
    end.
Proof. apply SRRIP_get_ok. Qed.

Lemma srrip_evicts_largest_prediction_witness :
  ∃ i s', SRRIP.get (mkSetView 4 (replicate 4 (example_line 1 CacheState.SHARED)) None)
            (mkPolState (SRRIP.mk 2 3 2 1 [0; 2; 1; 0]%Z 2) (Some (CacheSetInfoLRU_new 4 1)) 0)
          = Ok (i, s') ∧ i < 4.
Proof.
  destruct (srrip_evicts_largest_prediction
    (mkSetView 4 (replicate 4 (example_line 1 CacheState.SHARED)) None)
    (mkPolState (SRRIP.mk 2 3 2 1 [0; 2; 1; 0]%Z 2) (Some (CacheSetInfoLRU_new 4 1)) 0))
    as (i & s' & He & Hi & _).
  - split; simpl; lia.
  - by repeat constructor.
  - unfold SRRIP.wf. simpl. split; [lia|]. split; [done|]. split; [lia|]. split; [done|].
    split; [done|]. split; [repeat constructor; lia|]. split; [lia|].
    eexists. split; [reflexivity|]. by repeat split.
  - by exists i, s'.
Defined.

(** With query-based selection SRRIP can fail to find a victim: on a
    two-way set whose predictions are all zero, one rejected line makes the last
    revolution end early and the simulation stops, although the other line is
    neither rejected nor in transit. *)
Theorem srrip_qbs_finds_no_victim :
  ∃ v s, view_wf v ∧ Forall replaceable (v_blocks v) ∧ is_Some (v_cntlr v) ∧
         SRRIP.m_num_attempts (ps_pol s) = 2 ∧
         SRRIP.get v s = Err (ErrLog "Error finding replacement index").
Proof.
  exists (mkSetView 2 [example_line 1 CacheState.SHARED; example_line 2 CacheState.SHARED]
            (Some (λ b, bool_decide (getTag b = 1%Z)))),
    (mkPolState (SRRIP.mk 2 3 2 2 [0; 0]%Z 0) (Some (CacheSetInfoLRU_new 2 2)) 0).
  split; [split; simpl; lia|]. split; [by repeat constructor|]. split; [by eexists|].
  by split.
Qed.

(** An access stops the simulation if the prediction of the line is not
    below the associativity, since it indexes the histogram of LRU positions;
    with two-bit predictions the first access to a line of a new
    two-way set does. *)
Theorem srrip_update_stops :
  SRRIP.upd 2 1 (mkPolState (SRRIP.new 2 1 2) (Some (CacheSetInfoLRU_new 2 1)) 0)
  = Err (ErrLog "Index >= Associativity").
Proof. reflexivity. Qed.

(** Round robin checks the way after the one it returns: it can return a
    line in transit. *)
Theorem round_robin_returns_line_in_transit :
  ∃ v s i s',
    view_wf v ∧ RoundRobin.wf (v_associativity v) s ∧ Exists replaceable (v_blocks v) ∧
    RoundRobin.get v s = Ok (i, s') ∧ isValidReplacement v i = Ok false.
Proof.
  exists (mkSetView 2 [example_line 1 CacheState.SHARED; example_line 2 CacheState.SHARED_UPGRADING] None),
    (mkPolState (RoundRobin.new 2) None 0).
  do 2 eexists. split; [split; simpl; lia|]. split; [split; simpl; lia|].
  split; [by apply Exists_cons_hd|]. by split.
Qed.
