(* ===== verification/FaultInjection.v ===== *)
(** Fault injection: src/common/fault_injection. *)
From S2P Require Import Prelude Utils CacheBlock.
Local Open Scope Z_scope.

(** ** class FaultinjectionManager *)

Inductive fault_type_t : Type := FAULT_TYPE_TOGGLE | FAULT_TYPE_SET0 | FAULT_TYPE_SET1.
Inductive fault_injector_t : Type := FAULT_INJECTOR_NONE | FAULT_INJECTOR_RANDOM.

Record FaultinjectionManager : Type := mkFaultinjectionManager {
  m_type : fault_type_t;
  m_injector : fault_injector_t
}.

(** [FaultinjectionManager::create] on the two configuration values; the result
    is null if no fault is to be injected. *)
Definition FaultinjectionManager_create (s_type s_injector : string) :
    res (option FaultinjectionManager) :=
  let? type :=
    (if bool_decide (s_type = "toggle"%string) then Ok (Some FAULT_TYPE_TOGGLE)
     else if bool_decide (s_type = "set0"%string) then Ok (Some FAULT_TYPE_SET0)
     else if bool_decide (s_type = "set1"%string) then Ok (Some FAULT_TYPE_SET1)
     else if bool_decide (s_type = "none"%string) then Ok None
     else Err (ErrLog "Unknown fault-injection scheme")) in
  match type with
  | None => Ok None
  | Some type =>
      let? injector :=
        (if bool_decide (s_injector = "none"%string) then Ok FAULT_INJECTOR_NONE
         else if bool_decide (s_injector = "random"%string) then Ok FAULT_INJECTOR_RANDOM
         else Err (ErrLog "Unknown fault injector")) in
      Ok (Some (mkFaultinjectionManager type injector))
  end.

(** The loops of [applyFault]: [op] on the first [data_size] bytes. *)
Fixpoint apply_bytes (op : Z → Z → Z) (n i : nat) (data fault : list Z) : res (list Z) :=
  match n with
  | O => Ok data
  | S n =>
      let? d := rd data i in
      let? f := rd fault i in
      let? data := wr data i (u8 (op d f)) in
      apply_bytes op n (S i) data fault
  end.

Definition fault_op (type : fault_type_t) : Z → Z → Z :=
  match type with
  | FAULT_TYPE_TOGGLE => Z.lxor
  | FAULT_TYPE_SET0 => λ d f, Z.land d (Z.lnot f)
  | FAULT_TYPE_SET1 => Z.lor
  end.

Definition applyFault (m : FaultinjectionManager) (data_size : nat) (data fault : list Z) :
    res (list Z) :=
  apply_bytes (fault_op (m_type m)) data_size 0 data fault.

(** ** class FaultInjector and FaultInjectorRandom *)

Inductive FaultInjector : Type :=
| FaultInjectorNone
| FaultInjectorRandom (m_active : bool) (m_rng : Z).

Definition getFaultInjector (m : FaultinjectionManager) (mem_component : Z) : FaultInjector :=
  match m_injector m with
  | FAULT_INJECTOR_NONE => FaultInjectorNone
  | FAULT_INJECTOR_RANDOM =>
      FaultInjectorRandom (mem_component =? MemComponent.L1_DCACHE) (rng_seed 0)
  end.

(** [preRead] may set a bit of the data at [fault], an index into the data
    array of the cache set. *)
Definition preRead (fi : FaultInjector) (data_size : Z) (d : list Z) (fault : Z) :
    res (FaultInjector * list Z) :=
  match fi with
  | FaultInjectorNone => Ok (fi, d)
  | FaultInjectorRandom active rng =>
      if active then
        let '(r, rng) := rng_next rng in
        if r mod 0xffff =? 0 then
          if data_size =? 0 then Err ErrUndefined else
          let '(r, rng) := rng_next rng in
          let bit_location := u32 (r mod data_size) in
          let i := Z.to_nat (fault + bit_location / 8) in
          let? x := rd d i in
          let? d := wr d i (u8 (Z.lor x (Z.shiftl 1 (bit_location mod 8)))) in
          Ok (FaultInjectorRandom active rng, d)
        else Ok (FaultInjectorRandom active rng, d)
      else Ok (fi, d)
  end.

(** [postWrite] of both classes does nothing. *)
Definition postWrite (fi : FaultInjector) : FaultInjector := fi.

(** * Facts *)

Lemma apply_bytes_ok op n i data fault :
  (i + n ≤ length data)%nat → (i + n ≤ length fault)%nat →
  ∃ data', apply_bytes op n i data fault = Ok data' ∧ length data' = length data ∧
    ∀ j, data' !! j =
      if decide (i ≤ j < i + n)%nat
      then d ← data !! j; f ← fault !! j; Some (u8 (op d f)) else data !! j.
Proof.
  revert i data. induction n as [|n IH]; intros i data Hd Hf; simpl.
  - exists data. split; [done|]. split; [done|]. intros j. by rewrite decide_False by lia.
  - destruct (rd_lt data i ltac:(lia)) as (d & Hdi & ->).
    destruct (rd_lt fault i ltac:(lia)) as (f & Hfi & ->). simpl.
    rewrite wr_lt by lia. simpl.
    destruct (IH (S i) (<[i:=u8 (op d f)]> data)) as (data' & -> & Hlen & Hlk);
      [rewrite ?length_insert; lia..|].
    exists data'. split; [done|]. split; [by rewrite Hlen, length_insert|]. intros j. rewrite Hlk.
    destruct (decide (j = i)) as [->|Hne].
    + rewrite decide_False, decide_True by lia. rewrite list_lookup_insert_eq by lia.
      by rewrite Hdi, Hfi.
    + rewrite list_lookup_insert_ne by done. by repeat case_decide; try lia.
Qed.

(** The injector keeps the length of the data and changes at most the bytes of
    the access. *)
Lemma preRead_ok fi data_size d fault :
  0 ≤ fault → 0 < data_size < 2 ^ 32 → fault + data_size ≤ Z.of_nat (length d) →
  ∃ fi' d', preRead fi data_size d fault = Ok (fi', d') ∧ length d' = length d ∧
    ∀ j, (Z.of_nat j < fault ∨ fault + data_size ≤ Z.of_nat j) → d' !! j = d !! j.
Proof.
  intros Hf Hn Hle. unfold preRead.
  assert (Hsame : ∀ fi' : FaultInjector, ∃ (fi'' : FaultInjector) d', Ok (fi', d) = Ok (fi'', d') ∧ length d' = length d ∧
    ∀ j, (Z.of_nat j < fault ∨ fault + data_size ≤ Z.of_nat j) → d' !! j = d !! j).
  { intros fi'. by exists fi', d. }
  destruct fi as [|active rng]; [done|]. destruct active; [|done].
  destruct (rng_next rng) as [r rng1]. destruct (r mod 0xffff =? 0); [|done].
  destruct (Z.eqb_spec data_size 0); [lia|]. destruct (rng_next rng1) as [r2 rng2].
  pose proof (Z.mod_pos_bound r2 data_size ltac:(lia)) as Hr.
  rewrite u32_id by (unfold in_u32; lia).
  assert (Hb : 0 ≤ (r2 mod data_size) / 8 < data_size).
  { split; [apply Z.div_pos; lia|]. apply Z.div_lt_upper_bound; lia. }
  destruct (rd_lt d (Z.to_nat (fault + (r2 mod data_size) / 8)) ltac:(lia)) as (x & _ & ->). simpl.
  rewrite wr_lt by lia. simpl. do 2 eexists. split; [done|].
  split; [apply length_insert|]. intros j Hj. apply list_lookup_insert_ne. lia.
Qed.

(** * Properties *)

(** The effect of a fault on a bit. *)
Definition faulty_bit (type : fault_type_t) (d f : bool) : bool :=
  match type with
  | FAULT_TYPE_TOGGLE => xorb d f
  | FAULT_TYPE_SET0 => d && negb f
  | FAULT_TYPE_SET1 => d || f
  end.

Lemma fault_op_bit type d f i :
  0 ≤ i < 8 → Z.testbit (u8 (fault_op type d f)) i
              = faulty_bit type (Z.testbit d i) (Z.testbit f i).
Proof.
  intros Hi. unfold u8. rewrite Z.mod_pow2_bits_low by lia.
  destruct type; simpl; rewrite ?Z.lxor_spec, ?Z.land_spec, ?Z.lor_spec, ?Z.lnot_spec by lia; done.
Qed.

(** [applyFault] succeeds on buffers of at least [data_size] bytes, keeps
    the length and the bytes beyond [data_size], and changes every bit before as
    the fault type says: toggled, cleared or set where the fault mask has a
    one, and kept elsewhere. *)
Theorem applyFault_bits m n data fault :
  (n ≤ length data)%nat → (n ≤ length fault)%nat →
  ∃ data', applyFault m n data fault = Ok data' ∧ length data' = length data ∧
    (∀ j, (n ≤ j)%nat → data' !! j = data !! j) ∧
    (∀ j d f i, (j < n)%nat → data !! j = Some d → fault !! j = Some f → 0 ≤ i < 8 →
       ∃ d', data' !! j = Some d' ∧ in_u8 d' ∧
             Z.testbit d' i = faulty_bit (m_type m) (Z.testbit d i) (Z.testbit f i)).
Proof.
  intros Hd Hf. unfold applyFault.
  destruct (apply_bytes_ok (fault_op (m_type m)) n 0 data fault Hd Hf) as (data' & -> & Hlen & Hlk).
  exists data'. split; [done|]. split; [done|]. split.
  - intros j Hj. rewrite Hlk. by rewrite decide_False by lia.
  - intros j d f i Hj Hdj Hfj Hi. rewrite Hlk, decide_True by lia. rewrite Hdj, Hfj. simpl.
    eexists. split; [done|]. split; [apply u8_range|by apply fault_op_bit].
Qed.

Lemma applyFault_bits_witness :
  ∃ data', applyFault (mkFaultinjectionManager FAULT_TYPE_SET0 FAULT_INJECTOR_NONE) 1 [255; 7] [15; 0]
           = Ok data' ∧ length data' = 2%nat.
Proof.
  destruct (applyFault_bits (mkFaultinjectionManager FAULT_TYPE_SET0 FAULT_INJECTOR_NONE) 1 [255; 7] [15; 0])
    as (data' & He & Hl & _); [simpl; lia|simpl; lia|]. by exists data'.
Defined.
