(* ===== verification/CacheSet.v ===== *)
(** A set of a cache: [cache_set.{h,cc}] of
    src/common/core/memory_subsystem/cache, over any replacement policy, and
    the choice of the policy by its name in the configuration.

    The object that all sets of a cache share ([m_set_info]) and the calls made
    on the cache controller are an explicit [Shared] state. *)
From S2P Require Import Prelude Utils CacheBlock LruPolicies OtherPolicies.

(** ** Configuration *)

Inductive ReplacementPolicy : Type :=
| ROUND_ROBIN | LRU_ | LRU_QBS | NRU_ | MRU_ | NMRU_ | PLRU_ | SRRIP_ | SRRIP_QBS | RANDOM.

Definition parsePolicyType (policy : string) : res ReplacementPolicy :=
  if bool_decide (policy = "round_robin"%string) then Ok ROUND_ROBIN
  else if bool_decide (policy = "lru"%string) then Ok LRU_
  else if bool_decide (policy = "lru_qbs"%string) then Ok LRU_QBS
  else if bool_decide (policy = "nru"%string) then Ok NRU_
  else if bool_decide (policy = "mru"%string) then Ok MRU_
  else if bool_decide (policy = "nmru"%string) then Ok NMRU_
  else if bool_decide (policy = "plru"%string) then Ok PLRU_
  else if bool_decide (policy = "srrip"%string) then Ok SRRIP_
  else if bool_decide (policy = "srrip_qbs"%string) then Ok SRRIP_QBS
  else if bool_decide (policy = "random"%string) then Ok RANDOM
  else Err (ErrLog "Unknown replacement policy").

(** The values of the configuration and of the clock that the constructors
    read: [<cfgname>/qbs/attempts], [<cfgname>/srrip/bits] and [time(NULL)]. *)
Record PolicyCfg : Type := mkPolicyCfg {
  cfg_qbs_attempts : Z;
  cfg_srrip_bits : Z;
  cfg_time : Z
}.

(** The result is a [UInt8]. *)
Definition getNumQBSAttempts (policy : ReplacementPolicy) (cfg : PolicyCfg) : nat :=
  match policy with
  | LRU_QBS | SRRIP_QBS => Z.to_nat (u8 (cfg_qbs_attempts cfg))
  | _ => 1
  end.

Definition createCacheSetInfo (replacement_policy : string) (associativity : nat)
    (cfg : PolicyCfg) : res (option CacheSetInfoLRU) :=
  let? policy := parsePolicyType replacement_policy in
  match policy with
  | LRU_ | LRU_QBS | SRRIP_ | SRRIP_QBS =>
      Ok (Some (CacheSetInfoLRU_new associativity (getNumQBSAttempts policy cfg)))
  | _ => Ok None
  end.

(** ** The classes derived from CacheSet *)

Inductive AnyPolicy : Type :=
| CacheSetRoundRobin (p : RoundRobin.t)
| CacheSetLRU (p : LRU.t)
| CacheSetNRU (p : NRU.t)
| CacheSetMRU (p : MRU.t)
| CacheSetNMRU (p : NMRU.t)
| CacheSetPLRU (p : PLRU.t)
| CacheSetSRRIP (p : SRRIP.t)
| CacheSetRandom (p : RandomPolicy.t).

(** Virtual dispatch. *)
Definition inject {P} (c : P → AnyPolicy) (s : PolState P) : PolState AnyPolicy :=
  mkPolState (c (ps_pol s)) (ps_info s) (ps_qbs s).
Definition as_pol {P} (p : P) (s : PolState AnyPolicy) : PolState P :=
  mkPolState p (ps_info s) (ps_qbs s).

Definition get_as {P} `{Policy P} (c : P → AnyPolicy) (p : P) (v : SetView)
    (s : PolState AnyPolicy) : res (nat * PolState AnyPolicy) :=
  let? r := getReplacementIndex v (as_pol p s) in Ok (r.1, inject c r.2).
Definition upd_as {P} `{Policy P} (c : P → AnyPolicy) (p : P) (associativity accessed : nat)
    (s : PolState AnyPolicy) : res (PolState AnyPolicy) :=
  let? s := updateReplacementIndex associativity accessed (as_pol p s) in Ok (inject c s).

Definition Any_get (v : SetView) (s : PolState AnyPolicy) : res (nat * PolState AnyPolicy) :=
  match ps_pol s with
  | CacheSetRoundRobin p => get_as CacheSetRoundRobin p v s
  | CacheSetLRU p => get_as CacheSetLRU p v s
  | CacheSetNRU p => get_as CacheSetNRU p v s
  | CacheSetMRU p => get_as CacheSetMRU p v s
  | CacheSetNMRU p => get_as CacheSetNMRU p v s
  | CacheSetPLRU p => get_as CacheSetPLRU p v s
  | CacheSetSRRIP p => get_as CacheSetSRRIP p v s
  | CacheSetRandom p => get_as CacheSetRandom p v s
  end.

Definition Any_upd (associativity accessed : nat) (s : PolState AnyPolicy) :
    res (PolState AnyPolicy) :=
  match ps_pol s with
  | CacheSetRoundRobin p => upd_as CacheSetRoundRobin p associativity accessed s
  | CacheSetLRU p => upd_as CacheSetLRU p associativity accessed s
  | CacheSetNRU p => upd_as CacheSetNRU p associativity accessed s
  | CacheSetMRU p => upd_as CacheSetMRU p associativity accessed s
  | CacheSetNMRU p => upd_as CacheSetNMRU p associativity accessed s
  | CacheSetPLRU p => upd_as CacheSetPLRU p associativity accessed s
  | CacheSetSRRIP p => upd_as CacheSetSRRIP p associativity accessed s
  | CacheSetRandom p => upd_as CacheSetRandom p associativity accessed s
  end.

Definition Any_wf (associativity : nat) (s : PolState AnyPolicy) : Prop :=
  match ps_pol s with
  | CacheSetRoundRobin p => policy_wf associativity (as_pol p s)
  | CacheSetLRU p => policy_wf associativity (as_pol p s)
  | CacheSetNRU p => policy_wf associativity (as_pol p s)
  | CacheSetMRU p => policy_wf associativity (as_pol p s)
  | CacheSetNMRU p => policy_wf associativity (as_pol p s)
  | CacheSetPLRU p => policy_wf associativity (as_pol p s)
  | CacheSetSRRIP p => policy_wf associativity (as_pol p s)
  | CacheSetRandom p => policy_wf associativity (as_pol p s)
  end.

#[export] Instance Any_Policy : Policy AnyPolicy := {
  getReplacementIndex := Any_get; updateReplacementIndex := Any_upd; policy_wf := Any_wf
}.

(** The part of [createCacheSet] that builds the policy's members. *)
Definition createPolicy (policy : ReplacementPolicy) (associativity : nat) (cfg : PolicyCfg) :
    res AnyPolicy :=
  match policy with
  | ROUND_ROBIN => Ok (CacheSetRoundRobin (RoundRobin.new associativity))
  | LRU_ | LRU_QBS => Ok (CacheSetLRU (LRU.new associativity (getNumQBSAttempts policy cfg)))
  | NRU_ => Ok (CacheSetNRU (NRU.new associativity))
  | MRU_ => Ok (CacheSetMRU (MRU.new associativity))
  | NMRU_ => Ok (CacheSetNMRU (NMRU.new associativity))
  | PLRU_ => let? p := PLRU.new associativity in Ok (CacheSetPLRU p)
  | SRRIP_ | SRRIP_QBS =>
      Ok (CacheSetSRRIP (SRRIP.new associativity (getNumQBSAttempts policy cfg)
                                   (u8 (cfg_srrip_bits cfg))))
  | RANDOM => Ok (CacheSetRandom (RandomPolicy.new (cfg_time cfg)))
  end.

(** ** class CacheSet *)

(** [m_blocks] is null unless faults are injected. *)
Record CacheSet (P : Type) : Type := mkCacheSet {
  m_cache_block_info_array : list BlockInfo;
  m_blocks : option (list Z);
  m_associativity : nat;
  m_blocksize : Z;
  m_policy : P
}.
Arguments mkCacheSet {P} _ _ _ _ _.
Arguments m_cache_block_info_array {P} _.
Arguments m_blocks {P} _.
Arguments m_associativity {P} _.
Arguments m_blocksize {P} _.
Arguments m_policy {P} _.

Record Shared : Type := mkShared {
  sh_info : option CacheSetInfoLRU;
  sh_qbs : nat
}.

(** The loop [m_cache_block_info_array[i] = CacheBlockInfo::create(cache_type)]. *)
Fixpoint create_lines (cache_type : cache_t) (n : nat) : res (list BlockInfo) :=
  match n with
  | O => Ok []
  | S n =>
      let? b := CacheBlockInfo_create cache_type in
      let? l := create_lines cache_type n in
      Ok (b :: l)
  end.

Definition CacheSet_new {P} (cache_type : cache_t) (associativity : nat) (blocksize : Z)
    (faultinjection : bool) (policy : P) : res (CacheSet P) :=
  let? lines := create_lines cache_type associativity in
  Ok (mkCacheSet lines
        (if faultinjection
         then Some (replicate (Z.to_nat (u32 (Z.of_nat associativity * blocksize))) 0%Z) else None)
        associativity blocksize policy).

Definition createCacheSet (replacement_policy : string) (cache_type : cache_t)
    (associativity : nat) (blocksize : Z) (faultinjection : bool) (cfg : PolicyCfg) :
    res (CacheSet AnyPolicy) :=
  let? policy := parsePolicyType replacement_policy in
  let? p := createPolicy policy associativity cfg in
  CacheSet_new cache_type associativity blocksize faultinjection p.

Section Set_.
Context {P : Type} `{Policy P}.

Definition set_lines (l : list BlockInfo) (c : CacheSet P) : CacheSet P :=
  mkCacheSet l (m_blocks c) (m_associativity c) (m_blocksize c) (m_policy c).
Definition set_data (d : option (list Z)) (c : CacheSet P) : CacheSet P :=
  mkCacheSet (m_cache_block_info_array c) d (m_associativity c) (m_blocksize c) (m_policy c).
Definition set_policy (p : P) (c : CacheSet P) : CacheSet P :=
  mkCacheSet (m_cache_block_info_array c) (m_blocks c) (m_associativity c) (m_blocksize c) p.

Definition pol_state (c : CacheSet P) (sh : Shared) : PolState P :=
  mkPolState (m_policy c) (sh_info sh) (sh_qbs sh).
Definition shared_of (s : PolState P) : Shared := mkShared (ps_info s) (ps_qbs s).
Definition view (c : CacheSet P) (cntlr : option (BlockInfo → bool)) : SetView :=
  mkSetView (m_associativity c) (m_cache_block_info_array c) cntlr.

Definition update (line_index : nat) (c : CacheSet P) (sh : Shared) : res (CacheSet P * Shared) :=
  let? s := updateReplacementIndex (m_associativity c) line_index (pol_state c sh) in
  Ok (set_policy (ps_pol s) c, shared_of s).

(** [memcpy] out of and into [m_blocks], at an offset of type [UInt32]. *)
Definition copy_out (d : list Z) (pos n : Z) : res (list Z) :=
  if (pos + n <=? Z.of_nat (length d))%Z
  then Ok (take (Z.to_nat n) (drop (Z.to_nat pos) d)) else Err ErrUndefined.
Definition copy_in (d : list Z) (pos : Z) (buff : list Z) (n : Z) : res (list Z) :=
  if (pos + n <=? Z.of_nat (length d))%Z && (n <=? Z.of_nat (length buff))%Z
  then Ok (list_inserts (Z.to_nat pos) (take (Z.to_nat n) buff) d) else Err ErrUndefined.

Definition data_index (c : CacheSet P) (line_index : nat) (offset : Z) : Z :=
  u32 (Z.of_nat line_index * m_blocksize c + offset).

(** The copied bytes are [None] if [out_buff] or [m_blocks] is null. *)
Definition read_line (line_index : nat) (offset : Z) (out_buff : bool) (bytes : Z)
    (update_replacement : bool) (c : CacheSet P) (sh : Shared) :
    res (option (list Z) * CacheSet P * Shared) :=
  c_assert (u32 (offset + bytes) <=? m_blocksize c)%Z;?
  let? out :=
    match m_blocks c with
    | Some d => if out_buff then let? l := copy_out d (data_index c line_index offset) bytes in Ok (Some l)
                else Ok None
    | None => Ok None
    end in
  if update_replacement then
    let? r := update line_index c sh in Ok (out, r.1, r.2)
  else Ok (out, c, sh).

(** [in_buff] is null or points to bytes to write. *)
Definition write_line (line_index : nat) (offset : Z) (in_buff : option (list Z)) (bytes : Z)
    (update_replacement : bool) (c : CacheSet P) (sh : Shared) : res (CacheSet P * Shared) :=
  c_assert (u32 (offset + bytes) <=? m_blocksize c)%Z;?
  let? c :=
    match in_buff, m_blocks c with
    | Some buff, Some d =>
        let? d := copy_in d (data_index c line_index offset) buff bytes in
        Ok (set_data (Some d) c)
    | _, _ => Ok c
    end in
  if update_replacement then update line_index c sh else Ok (c, sh).

(** The loop of [find] and [invalidate]: the last way that has the tag. *)
Fixpoint find_from (lines : list BlockInfo) (tag : Z) (n : nat) : res (option nat) :=
  match n with
  | O => Ok None
  | S index =>
      let? b := rd lines index in
      if (getTag b =? tag)%Z then Ok (Some index) else find_from lines tag index
  end.

Definition find (tag : Z) (c : CacheSet P) : res (option nat) :=
  find_from (m_cache_block_info_array c) tag (m_associativity c).

Definition set_invalidate (tag : Z) (c : CacheSet P) : res (bool * CacheSet P) :=
  let? r := find_from (m_cache_block_info_array c) tag (m_associativity c) in
  match r with
  | None => Ok (false, c)
  | Some index =>
      let? b := rd (m_cache_block_info_array c) index in
      let? l := wr (m_cache_block_info_array c) index (invalidate b) in
      Ok (true, set_lines l c)
  end.

Record Inserted : Type := mkInserted {
  eviction : bool;
  evict_block_info : BlockInfo;
  evict_buff : option (list Z)
}.

(** [insert]: the victim is cloned into the caller's [evict_block_info], the
    new line into the victim's place. *)
Definition insert (cache_block_info : BlockInfo) (fill_buff : option (list Z))
    (evict_info : BlockInfo) (want_evict_buff : bool) (cntlr : option (BlockInfo → bool))
    (c : CacheSet P) (sh : Shared) : res (Inserted * CacheSet P * Shared) :=
  let? r := getReplacementIndex (view c cntlr) (pol_state c sh) in
  let index := r.1 in
  let c := set_policy (ps_pol r.2) c in
  let sh := shared_of r.2 in
  c_assert (bool_decide (index < m_associativity c));?
  let? victim := rd (m_cache_block_info_array c) index in
  let? ev :=
    (if isValid victim then
       let? e := clone evict_info victim in
       let? buff :=
         match m_blocks c with
         | Some d => if want_evict_buff
                     then let? l := copy_out d (data_index c index 0) (m_blocksize c) in Ok (Some l)
                     else Ok None
         | None => Ok None
         end in
       Ok (mkInserted true e buff)
     else Ok (mkInserted false evict_info None)) in
  let? line := clone victim cache_block_info in
  let? l := wr (m_cache_block_info_array c) index line in
  let c := set_lines l c in
  let? c :=
    match fill_buff, m_blocks c with
    | Some buff, Some d =>
        let? d := copy_in d (data_index c index 0) buff (m_blocksize c) in
        Ok (set_data (Some d) c)
    | _, _ => Ok c
    end in
  Ok (ev, c, sh).

Definition peekBlock (way : nat) (c : CacheSet P) : res BlockInfo :=
  rd (m_cache_block_info_array c) way.
End Set_.

(** * Facts *)

(** Every class derived from [CacheSet] keeps the contract of the interface. *)
Lemma get_as_ok {P} `{PolicyOk P} (c : P → AnyPolicy) p v s :
  view_wf v → Forall replaceable (v_blocks v) → is_Some (v_cntlr v) →
  policy_wf (v_associativity v) (as_pol p s) →
  ∃ i s', get_as c p v s = Ok (i, inject c s') ∧ i < v_associativity v ∧
          policy_wf (v_associativity v) s'.
Proof.
  intros Hv Hrep Hc Hwf. destruct (get_ok v (as_pol p s)) as (i & s' & He & Hi & Hwf'); [done..|].
  exists i, s'. unfold get_as. by rewrite He.
Qed.

Lemma upd_as_ok {P} `{PolicyOk P} (c : P → AnyPolicy) p assoc i s :
  i < assoc → policy_wf assoc (as_pol p s) →
  ∃ s', upd_as c p assoc i s = Ok (inject c s') ∧ policy_wf assoc s'.
Proof.
  intros Hi Hwf. destruct (upd_ok assoc i (as_pol p s)) as (s' & He & Hwf'); [done..|].
  exists s'. unfold upd_as. by rewrite He.
Qed.

Lemma as_pol_inject {P} (c : P → AnyPolicy) s : as_pol (ps_pol s) (inject c s) = s.
Proof. by destruct s. Qed.

#[export] Instance Any_PolicyOk : PolicyOk AnyPolicy.
Proof.
  split.
  - intros v s Hv Hrep Hc Hwf. simpl in *. unfold Any_get, Any_wf in *.
    destruct (ps_pol s) as [p|p|p|p|p|p|p|p];
      match goal with |- context [get_as ?c p v s] =>
        destruct (get_as_ok c p v s Hv Hrep Hc Hwf) as (i & s' & -> & Hi & Hwf') end;
      (do 2 eexists; split; [done|split; [done|]]; simpl; by rewrite as_pol_inject).
  - intros assoc i s Hi Hwf. simpl in *. unfold Any_upd, Any_wf in *.
    destruct (ps_pol s) as [p|p|p|p|p|p|p|p];
      match goal with |- context [upd_as ?c p assoc i s] =>
        destruct (upd_as_ok c p assoc i s Hi Hwf) as (s' & -> & Hwf') end;
      (eexists; split; [done|]; simpl; by rewrite as_pol_inject).
Qed.

#[export] Instance Any_PolicyFrame : PolicyFrame AnyPolicy.
Proof.
  split.
  - intros v s i s'. simpl. unfold Any_get.
    destruct (ps_pol s); intros ([j s1] & Hg & [= _ <-])%res_bind_Ok; by apply get_shape in Hg.
  - intros assoc i s s'. simpl. unfold Any_upd.
    destruct (ps_pol s); intros (s1 & Hg & [= <-])%res_bind_Ok; by apply upd_shape in Hg.
  - intros assoc s i q. simpl. unfold Any_wf. simpl.
    destruct (ps_pol s) as [p|p|p|p|p|p|p|p]; intros Hwf Hs;
      exact (wf_shape assoc (as_pol p s) i q Hwf Hs).
Qed.

(** ** Construction *)

(** The configurations for which a policy never fails. *)
Definition cfg_ok (policy : ReplacementPolicy) (assoc : nat) (cfg : PolicyCfg) : Prop :=
  match policy with
  | LRU_QBS => (1 ≤ u8 (cfg_qbs_attempts cfg))%Z
  | NMRU_ => 2 ≤ assoc
  | PLRU_ => assoc = 4 ∨ assoc = 8
  | SRRIP_ => (1 ≤ u8 (cfg_srrip_bits cfg) ≤ 8 ∧ 2 ^ u8 (cfg_srrip_bits cfg) ≤ Z.of_nat assoc)%Z
  | SRRIP_QBS => (u8 (cfg_qbs_attempts cfg) = 1 ∧ 1 ≤ u8 (cfg_srrip_bits cfg) ≤ 8 ∧
                  2 ^ u8 (cfg_srrip_bits cfg) ≤ Z.of_nat assoc)%Z
  | _ => True
  end.

Lemma info_new_wf assoc n : 1 ≤ n → LRU.info_wf assoc n (Some (CacheSetInfoLRU_new assoc n)).
Proof.
  intros Hn. eexists. split; [done|]. simpl. rewrite length_replicate.
  do 2 (split; [done|]). case_bool_decide; [by rewrite length_replicate|lia].
Qed.

Lemma SRRIP_new_wf assoc n bits q :
  0 < assoc ≤ 256 → n = 1 → (1 ≤ bits ≤ 8)%Z → (2 ^ bits ≤ Z.of_nat assoc)%Z →
  SRRIP.wf assoc (mkPolState (SRRIP.new assoc n bits) (Some (CacheSetInfoLRU_new assoc n)) q).
Proof.
  intros Has -> Hb Hle. unfold SRRIP.wf, SRRIP.new. cbn [ps_pol ps_info SRRIP.m_num_attempts
    SRRIP.m_rrip_max SRRIP.m_rrip_insert SRRIP.m_rrip_bits SRRIP.m_replacement_pointer].
  rewrite Z.shiftl_mul_pow2, Z.mul_1_l by lia.
  assert (Hp : (2 ^ 1 ≤ 2 ^ bits)%Z) by (apply Z.pow_le_mono_r; lia).
  rewrite (u8_id (2 ^ bits - 1)) by (unfold in_u8; lia).
  rewrite u8_id by (unfold in_u8; lia).
  split; [done|]. split; [done|]. split; [lia|]. split; [lia|].
  split; [by rewrite length_replicate|].
  split; [apply Forall_replicate; lia|]. split; [lia|]. apply info_new_wf. lia.
Qed.

Lemma createPolicy_wf name policy assoc cfg info q :
  parsePolicyType name = Ok policy → createCacheSetInfo name assoc cfg = Ok info →
  0 < assoc ≤ 256 → cfg_ok policy assoc cfg →
  ∃ p, createPolicy policy assoc cfg = Ok p ∧ policy_wf assoc (mkPolState p info q).
Proof.
  intros Hparse Hinfo Has Hcfg. unfold createCacheSetInfo in Hinfo. rewrite Hparse in Hinfo.
  simpl in Hinfo. assert (Hrec := recency_init assoc ltac:(lia)).
  destruct policy; simpl in Hinfo; unfold cfg_ok in Hcfg; injection Hinfo as <-; cbn [createPolicy getNumQBSAttempts].
  - eexists. split; [done|]. split; simpl; lia.
  - eexists. split; [done|]. split; [done|]. split; [done|].
    split; [by eexists|]. by apply info_new_wf.
  - assert (1 ≤ Z.to_nat (u8 (cfg_qbs_attempts cfg))) by lia.
    eexists. split; [done|]. split; [done|]. split; [done|].
    split; [by eexists|]. by apply info_new_wf.
  - eexists. split; [done|]. split; [done|]. simpl. rewrite length_replicate. split; [done|lia].
  - eexists. split; [done|]. split; [done|by eexists].
  - eexists. split; [done|]. split; [lia|]. split; [simpl; lia|by eexists].
  - unfold PLRU.new.
    assert (bool_decide (assoc = 4) || bool_decide (assoc = 8) = true) as ->.
    { destruct Hcfg as [-> | ->]; done. }
    eexists. split; [done|]. by split.
  - eexists. split; [done|]. apply SRRIP_new_wf; [done|done|lia..].
  - eexists. split; [done|]. apply SRRIP_new_wf; [done|lia..].
  - eexists. split; [done|]. exact (proj1 Has).
Qed.

(** ** The lines of a set as a finite map *)

Definition tagged (b : BlockInfo) : Z * BlockInfo := (getTag b, b).
Definition valid_lines (l : list BlockInfo) : list BlockInfo := filter (λ b, isValid b = true) l.
Definition line_map (l : list BlockInfo) : gmap Z BlockInfo :=
  list_to_map (tagged <$> valid_lines l).
Definition unique_tags (l : list BlockInfo) : Prop := NoDup (getTag <$> valid_lines l).

Lemma tagged_fst l : (tagged <$> l).*1 = getTag <$> l.
Proof. by rewrite <- list_fmap_compose. Qed.

Lemma line_map_Some l t b :
  unique_tags l → line_map l !! t = Some b ↔ b ∈ l ∧ isValid b = true ∧ getTag b = t.
Proof.
  intros Hu. unfold line_map. rewrite <- elem_of_list_to_map by (by rewrite tagged_fst).
  rewrite list_elem_of_fmap. unfold valid_lines, tagged. setoid_rewrite list_elem_of_filter.
  naive_solver.
Qed.

Lemma line_map_None l t :
  line_map l !! t = None ↔ ∀ b, b ∈ l → isValid b = true → getTag b ≠ t.
Proof.
  unfold line_map. rewrite <- not_elem_of_list_to_map, tagged_fst, list_elem_of_fmap.
  unfold valid_lines. setoid_rewrite list_elem_of_filter. naive_solver.
Qed.

Lemma valid_lines_app l1 l2 : valid_lines (l1 ++ l2) = valid_lines l1 ++ valid_lines l2.
Proof. apply filter_app. Qed.

(** Replacing one line of a list of lines. *)
Definition put (b : BlockInfo) (m : gmap Z BlockInfo) : gmap Z BlockInfo :=
  if isValid b then <[getTag b := b]> m else m.

Lemma line_map_middle l1 b l2 :
  unique_tags (l1 ++ b :: l2) → line_map (l1 ++ b :: l2) = put b (line_map (l1 ++ l2)).
Proof.
  intros Hu. unfold put, line_map, unique_tags in *. rewrite !valid_lines_app in *.
  unfold valid_lines in *. rewrite filter_cons in *. case_decide as Hv.
  - rewrite Hv. change (<[getTag b := b]> ?m) with (<[(tagged b).1 := (tagged b).2]> m).
    rewrite <- list_to_map_cons. apply list_to_map_proper.
    + by rewrite tagged_fst.
    + rewrite !fmap_app, !fmap_cons. by rewrite Permutation_middle.
  - by destruct (isValid b).
Qed.

Lemma unique_tags_middle l1 b l2 :
  unique_tags (l1 ++ b :: l2) ↔
  unique_tags (l1 ++ l2) ∧ (isValid b = true → line_map (l1 ++ l2) !! getTag b = None).
Proof.
  unfold unique_tags. rewrite !valid_lines_app. unfold valid_lines at 2. rewrite filter_cons.
  case_decide as Hv.
  - rewrite !fmap_app, fmap_cons, <- Permutation_middle, NoDup_cons.
    rewrite <- fmap_app. fold (valid_lines l2). rewrite <- valid_lines_app.
    unfold line_map. rewrite <- not_elem_of_list_to_map, tagged_fst.
    rewrite <- fmap_app, <- valid_lines_app.
    split; [by intros []|]. intros [Hn Hx]. split; [by apply Hx|done].
  - fold (valid_lines l2). split; [by intros Hn; split|by intros []].
Qed.

(** ** Operations of a set *)

Definition class_fits (e c : BlockInfo) : bool :=
  match e with PrL2CacheBlockInfo _ _ => same_class e c | _ => true end.

Lemma clone_fits e c b :
  class_fits e c = true → same_class c b = true → ∃ e', clone e b = Ok e' ∧ base e' = base b.
Proof. destruct e, c, b as [[]|[]|[]]; simpl; intros; simplify_eq; eauto. Qed.

Lemma find_from_spec l t n :
  n ≤ length l →
  ∃ r, find_from l t n = Ok r ∧
    match r with
    | Some i => i < n ∧ ∃ b, l !! i = Some b ∧ getTag b = t
    | None => ∀ i b, i < n → l !! i = Some b → getTag b ≠ t
    end.
Proof.
  induction n as [|n IH]; intros Hn; simpl.
  - eexists. split; [done|]. simpl. intros; lia.
  - destruct (rd_lt l n ltac:(lia)) as (b & Hb & ->). simpl.
    destruct (Z.eqb_spec (getTag b) t) as [Ht|Ht].
    + eexists. split; [done|]. simpl. split; [lia|]. by exists b.
    + destruct IH as ([i|] & -> & Hr); [lia| |]; eexists; (split; [done|]); simpl.
      * destruct Hr as [? Hr]. split; [lia|done].
      * intros j c Hj Hc. destruct (decide (j = n)) as [->|]; [congruence|].
        apply (Hr j); [lia|done].
Qed.

Section SetFacts.
Context {P : Type} `{Policy P} {HOk : PolicyOk P} {HFrame : PolicyFrame P}.
Implicit Types (c : CacheSet P) (sh : Shared).

Definition data_wf c : Prop :=
  match m_blocks c with
  | Some d => Z.of_nat (length d) = (Z.of_nat (m_associativity c) * m_blocksize c)%Z ∧
              (Z.of_nat (length d) < 2 ^ 32)%Z
  | None => True
  end.

(** [cls] is an object of the class of the lines. *)
Definition set_wf (cls : BlockInfo) c sh : Prop :=
  view_wf (view c None) ∧ policy_wf (m_associativity c) (pol_state c sh) ∧
  Forall (λ b, same_class cls b = true) (m_cache_block_info_array c) ∧
  unique_tags (m_cache_block_info_array c) ∧ (0 ≤ m_blocksize c)%Z ∧ data_wf c.

Definition contents c : gmap Z BlockInfo := line_map (m_cache_block_info_array c).

Lemma set_wf_frame cls c sh sh' :
  set_wf cls c sh → same_shape (sh_info sh) (sh_info sh') → set_wf cls c sh'.
Proof.
  intros (Hv & Hp & Hrest) Hs. split; [done|]. split; [|done].
  by apply (wf_shape _ (pol_state c sh)).
Qed.

Lemma find_ok cls c sh t :
  set_wf cls c sh → t ≠ INVALID_TAG →
  ∃ r, find t c = Ok r ∧
    match r with
    | Some i => ∃ b, m_cache_block_info_array c !! i = Some b ∧ contents c !! t = Some b
    | None => contents c !! t = None
    end.
Proof.
  intros ([Hlen Hpos] & _ & _ & Hu & _) Ht. simpl in Hlen, Hpos.
  destruct (find_from_spec (m_cache_block_info_array c) t (m_associativity c)) as (r & He & Hr); [lia|].
  exists r. split; [done|]. destruct r as [i|].
  - destruct Hr as (_ & b & Hb & Hbt). exists b. split; [done|]. apply line_map_Some; [done|].
    split; [by eapply list_elem_of_lookup_2|]. split; [|done]. apply isValid_spec. congruence.
  - apply line_map_None. intros b Hb _. apply list_elem_of_lookup in Hb as [i Hb].
    apply (Hr i b); [|done]. apply lookup_lt_Some in Hb. lia.
Qed.

(** What remains of the contents without the line [old]. *)
Definition without (old : BlockInfo) c : gmap Z BlockInfo :=
  if isValid old then delete (getTag old) (contents c) else contents c.

Lemma without_split c l1 old l2 :
  m_cache_block_info_array c = l1 ++ old :: l2 → unique_tags (l1 ++ old :: l2) →
  without old c = line_map (l1 ++ l2).
Proof.
  intros Hl Hu. pose proof (proj1 (unique_tags_middle l1 old l2) Hu) as [Hu0 Hold].
  unfold without, contents. rewrite Hl, (line_map_middle l1 old l2 Hu). unfold put.
  destruct (isValid old) eqn:Hv; [|done]. rewrite delete_insert_eq. apply delete_id. by apply Hold.
Qed.

(** Replacing the line at way [i]. *)
Lemma replace_line cls c sh i old new :
  set_wf cls c sh → m_cache_block_info_array c !! i = Some old → same_class cls new = true →
  (isValid new = true → without old c !! getTag new = None) →
  set_wf cls (set_lines (<[i := new]> (m_cache_block_info_array c)) c) sh ∧
  contents (set_lines (<[i := new]> (m_cache_block_info_array c)) c) = put new (without old c).
Proof.
  intros ([Hlen Hpos] & Hp & Hc & Hu & Hbs & Hd) Hi Hcls Hnew. simpl in Hlen, Hpos.
  apply list_elem_of_split_length in Hi as (l1 & l2 & Hl & ->).
  rewrite Hl in Hu. rewrite (without_split c l1 old l2 Hl Hu) in *.
  unfold contents, set_wf. simpl. rewrite Hl in *.
  rewrite insert_app_r_alt, Nat.sub_diag by done. simpl.
  assert (Hu' : unique_tags (l1 ++ new :: l2)).
  { apply unique_tags_middle. split; [|done]. by apply unique_tags_middle in Hu as [? _]. }
  split; [|by apply line_map_middle].
  split; [|split; [done|]].
  - split; simpl; [|done]. rewrite length_app in *. simpl in *. lia.
  - split; [|done]. apply Forall_app in Hc as [Hc1 Hc2]. apply Forall_cons in Hc2 as [_ Hc2].
    apply Forall_app. split; [done|]. by constructor.
Qed.

Lemma invalidate_ok cls c sh t :
  set_wf cls c sh → t ≠ INVALID_TAG →
  ∃ c', set_invalidate t c = Ok (bool_decide (is_Some (contents c !! t)), c') ∧
        set_wf cls c' sh ∧ contents c' = delete t (contents c).
Proof.
  intros Hwf Ht. destruct (find_ok cls c sh t Hwf Ht) as (r & He & Hr).
  unfold set_invalidate. unfold find in He. rewrite He. simpl. destruct r as [i|].
  - destruct Hr as (b & Hb & Hm). rewrite (proj2 (rd_Ok _ _ _) Hb). simpl.
    rewrite wr_lt by (by eapply lookup_lt_Some). simpl. eexists. split.
    { by rewrite bool_decide_true by (by eexists). }
    destruct Hwf as (Hv & Hp & Hc & Hu & Hrest).
    apply line_map_Some in Hm as (_ & Hval & Htag); [|done].
    destruct (replace_line cls c sh i b (invalidate b)) as [Hwf' Hcont]; [done|done| | |].
    + rewrite same_class_invalidate. by apply (Forall_lookup_1 _ _ _ _ Hc Hb).
    + by rewrite invalidate_invalid.
    + split; [done|]. rewrite Hcont. unfold put, without.
      by rewrite invalidate_invalid, Hval, Htag.
  - exists c. rewrite bool_decide_false by (rewrite Hr; by intros []).
    split; [done|]. split; [done|]. by rewrite delete_id.
Qed.

Lemma copy_out_ok (d : list Z) pos n :
  (pos + n ≤ Z.of_nat (length d))%Z →
  copy_out d pos n = Ok (take (Z.to_nat n) (drop (Z.to_nat pos) d)).
Proof. intros Hle. unfold copy_out. by rewrite (proj2 (Z.leb_le _ _) Hle). Qed.

Lemma copy_in_ok (d buff : list Z) pos n :
  (pos + n ≤ Z.of_nat (length d))%Z → (n ≤ Z.of_nat (length buff))%Z →
  copy_in d pos buff n = Ok (list_inserts (Z.to_nat pos) (take (Z.to_nat n) buff) d).
Proof.
  intros H1 H2. unfold copy_in. by rewrite (proj2 (Z.leb_le _ _) H1), (proj2 (Z.leb_le _ _) H2).
Qed.

(** The bytes of a line are inside the data array. *)
Lemma data_index_ok c d i off n :
  data_wf c → m_blocks c = Some d → i < m_associativity c →
  (0 ≤ off → 0 ≤ n → off + n ≤ m_blocksize c →
   data_index c i off = Z.of_nat i * m_blocksize c + off ∧
   data_index c i off + n ≤ Z.of_nat (length d))%Z.
Proof.
  unfold data_wf. intros Hd Hb Hi Ho Hn Hle. rewrite Hb in Hd. destruct Hd as [Hl Hlt].
  assert (Z.of_nat i * m_blocksize c + m_blocksize c
          ≤ Z.of_nat (m_associativity c) * m_blocksize c)%Z by nia.
  unfold data_index. rewrite u32_id; [lia|]. unfold in_u32. nia.
Qed.

Lemma set_wf_policy cls c sh s' :
  set_wf cls c sh → policy_wf (m_associativity c) s' →
  set_wf cls (set_policy (ps_pol s') c) (shared_of s').
Proof. intros (Hv & _ & Hrest) Hp. split; [done|]. split; [by destruct s'|done]. Qed.

Lemma set_wf_data cls c sh d d' :
  set_wf cls c sh → m_blocks c = Some d → length d' = length d →
  set_wf cls (set_data (Some d') c) sh.
Proof.
  intros (Hv & Hp & Hc & Hu & Hbs & Hd) Hb Hl. do 5 (split; [done|]).
  unfold data_wf in *. simpl. rewrite Hb in Hd. by rewrite Hl.
Qed.

Lemma update_ok cls c sh i :
  set_wf cls c sh → i < m_associativity c →
  ∃ p sh', update i c sh = Ok (set_policy p c, sh') ∧
           set_wf cls (set_policy p c) sh' ∧ same_shape (sh_info sh) (sh_info sh').
Proof.
  intros Hwf Hi. unfold update.
  destruct (upd_ok (m_associativity c) i (pol_state c sh)) as (s' & He & Hp); [done|apply Hwf|].
  rewrite He. simpl. exists (ps_pol s'), (shared_of s'). split; [done|].
  split; [by eapply set_wf_policy|]. by apply upd_shape in He.
Qed.

(** The effect of the copies of [insert] on the data. *)
Lemma fill_ok cls c sh i fill_buff :
  set_wf cls c sh → i < m_associativity c →
  (∀ buff, fill_buff = Some buff → m_blocksize c ≤ Z.of_nat (length buff))%Z →
  ∃ d', match fill_buff, m_blocks c with
        | Some buff, Some d =>
            let? d := copy_in d (data_index c i 0) buff (m_blocksize c) in Ok (set_data (Some d) c)
        | _, _ => Ok c
        end = Ok (set_data d' c) ∧ set_wf cls (set_data d' c) sh ∧
        (is_Some (m_blocks c) → is_Some d').
Proof.
  intros Hwf Hi Hbuff. pose proof Hwf as (_ & _ & _ & _ & Hbs & Hd).
  assert (Hsame : ∃ d', Ok c = Ok (set_data d' c) ∧ set_wf cls (set_data d' c) sh ∧
                        (is_Some (m_blocks c) → is_Some d')).
  { exists (m_blocks c). by destruct c. }
  destruct fill_buff as [buff|]; [|done]. destruct (m_blocks c) as [d|] eqn:Hb; [|done].
  destruct (data_index_ok c d i 0 (m_blocksize c)) as [Hidx Hle]; [done|done|done|lia..|].
  rewrite copy_in_ok by auto. simpl. eexists. split; [done|]. split; [|by eexists].
  eapply set_wf_data; [done|done|]. apply length_inserts.
Qed.

Lemma evict_ok cls c sh i old evict_info (want : bool) :
  set_wf cls c sh → m_cache_block_info_array c !! i = Some old → class_fits evict_info cls = true →
  ∃ ins,
    (if isValid old then
       let? e := clone evict_info old in
       let? buff :=
         match m_blocks c with
         | Some d => if want
                     then let? l := copy_out d (data_index c i 0) (m_blocksize c) in Ok (Some l)
                     else Ok None
         | None => Ok None
         end in
       Ok (mkInserted true e buff)
     else Ok (mkInserted false evict_info None)) = Ok ins ∧
    eviction ins = isValid old ∧
    (if isValid old then base (evict_block_info ins) = base old
     else evict_block_info ins = evict_info).
Proof.
  intros ([Hlen _] & _ & Hc & _ & Hbs & Hd) Hi Hfit. simpl in Hlen.
  destruct (isValid old); [|by eexists].
  destruct (clone_fits evict_info cls old) as (e & -> & Hbase);
    [done|by apply (Forall_lookup_1 _ _ _ _ Hc Hi)|]. simpl.
  assert (Hil : i < m_associativity c) by (apply lookup_lt_Some in Hi; lia).
  destruct (m_blocks c) as [d|] eqn:Hb; [|by eexists]. destruct want; [|by eexists].
  destruct (data_index_ok c d i 0 (m_blocksize c)) as [Hidx Hle]; [done|done|done|lia..|].
  rewrite copy_out_ok by done. by eexists.
Qed.

Definition filled (fill_buff : option (list Z)) c : Prop :=
  ∀ buff, fill_buff = Some buff → (m_blocksize c ≤ Z.of_nat (length buff))%Z.

(** The insertion at the way that the policy returned. *)
Lemma insert_at cls c sh new fill_buff evict_info want cntlr i s' :
  set_wf cls c sh → same_class cls new = true → isValid new = true → contents c !! getTag new = None →
  class_fits evict_info cls = true → filled fill_buff c →
  getReplacementIndex (view c (Some cntlr)) (pol_state c sh) = Ok (i, s') →
  i < m_associativity c → policy_wf (m_associativity c) s' →
  ∃ ins c' old,
    insert new fill_buff evict_info want (Some cntlr) c sh = Ok (ins, c', shared_of s') ∧
    m_cache_block_info_array c !! i = Some old ∧
    m_cache_block_info_array c' = <[i := new]> (m_cache_block_info_array c) ∧
    m_associativity c' = m_associativity c ∧ m_blocksize c' = m_blocksize c ∧
    (is_Some (m_blocks c) → is_Some (m_blocks c')) ∧
    set_wf cls c' (shared_of s') ∧ same_shape (sh_info sh) (sh_info (shared_of s')) ∧
    contents c' = <[getTag new := new]> (without old c) ∧
    eviction ins = isValid old ∧
    (if isValid old then base (evict_block_info ins) = base old
     else evict_block_info ins = evict_info).
Proof.
  intros Hwf Hcls Hval Hfree Hfit Hfill He Hi Hp'. pose proof Hwf as ([Hlen Hpos] & Hp & Hc & Hu & Hbs & Hd).
  simpl in Hlen, Hpos. unfold insert.
  rewrite He. simpl. rewrite bool_decide_true by done. simpl. apply get_shape in He.
  assert (Hwf1 := set_wf_policy cls c sh s' Hwf Hp').
  destruct (rd_lt (m_cache_block_info_array c) i ltac:(lia)) as (old & Hold & ->). simpl.
  destruct (evict_ok cls _ _ i old evict_info want Hwf1) as (ins & Hev & Hins); [done|done|].
  simpl in Hev. rewrite Hev. simpl. clear Hev.
  assert (Hco : same_class cls old = true) by apply (Forall_lookup_1 _ _ _ _ Hc Hold).
  rewrite clone_same_class
    by (apply (same_class_trans old cls new); [by rewrite same_class_sym|done]). simpl.
  rewrite wr_lt by lia. simpl.
  destruct (replace_line cls _ _ i old new Hwf1) as [Hwf2 Hcont]; [done|done| |].
  { intros _. unfold without, contents in *. simpl.
    destruct (isValid old); [by rewrite lookup_delete_None; right|done]. }
  simpl in Hwf2, Hcont.
  destruct (fill_ok cls _ _ i fill_buff Hwf2) as (d' & Hd' & Hwf3 & Hdata); [done|done|].
  simpl in Hd'. rewrite Hd'. simpl.
  exists ins. eexists. exists old. do 5 (split; [done|]). split; [exact Hdata|].
  split; [exact Hwf3|]. split; [exact He|]. split; [|done].
  change (contents (set_data d' ?c)) with (contents c). rewrite Hcont.
  unfold put. by rewrite Hval.
Qed.

Lemma insert_ok cls c sh new fill_buff evict_info want cntlr :
  set_wf cls c sh → Forall replaceable (m_cache_block_info_array c) →
  same_class cls new = true → isValid new = true → contents c !! getTag new = None →
  class_fits evict_info cls = true → filled fill_buff c →
  ∃ ins c' sh' i old,
    insert new fill_buff evict_info want (Some cntlr) c sh = Ok (ins, c', sh') ∧
    m_cache_block_info_array c !! i = Some old ∧
    m_cache_block_info_array c' = <[i := new]> (m_cache_block_info_array c) ∧
    m_associativity c' = m_associativity c ∧ m_blocksize c' = m_blocksize c ∧
    (is_Some (m_blocks c) → is_Some (m_blocks c')) ∧
    set_wf cls c' sh' ∧ same_shape (sh_info sh) (sh_info sh') ∧
    contents c' = <[getTag new := new]> (without old c) ∧
    eviction ins = isValid old ∧
    (if isValid old then base (evict_block_info ins) = base old
     else evict_block_info ins = evict_info).
Proof.
  intros Hwf Hrep Hcls Hval Hfree Hfit Hfill. pose proof Hwf as ([Hlen Hpos] & Hp & _).
  destruct (get_ok (view c (Some cntlr)) (pol_state c sh)) as (i & s' & He & Hi & Hp');
    [by split|done|by eexists|done|]. simpl in Hi.
  destruct (insert_at cls c sh new fill_buff evict_info want cntlr i s') as (ins & c' & old & Hrest); [done..|].
  exists ins, c', (shared_of s'), i, old. exact Hrest.
Qed.

(** With a policy that fills invalid lines first, a valid line is evicted only
    from a full set. *)
Lemma insert_evicts_full `{!FillsFirst P} new fill_buff evict_info want cntlr c sh ins c' sh' :
  insert new fill_buff evict_info want cntlr c sh = Ok (ins, c', sh') → eviction ins = true →
  Forall (λ b, isValid b = true) (m_cache_block_info_array c).
Proof.
  unfold insert. intros ([i s'] & Hg & He)%res_bind_Ok Hev.
  apply (first_invalid_None (view c cntlr)).
  destruct (first_invalid (view c cntlr)) as [j|] eqn:Hf; [|done]. exfalso.
  assert (i = j) by (by eapply get_invalid). subst j. simpl in He.
  apply res_bind_Ok in He as (_ & _ & He). apply res_bind_Ok in He as (old & Hold & He).
  apply rd_Ok in Hold. apply first_invalid_Some in Hf as [(b & Hb & Hinv) _]. simpl in *.
  simplify_eq. rewrite Hinv in He. simpl in He.
  apply res_bind_Ok in He as (line & _ & He). apply res_bind_Ok in He as (l & _ & He).
  apply res_bind_Ok in He as (c2 & _ & He). by simplify_eq.
Qed.

(** The bytes [off .. off+n-1] of a line. *)
Definition line_bytes c (i : nat) (off n : Z) : option (list Z) :=
  d ← m_blocks c;
  Some (take (Z.to_nat n) (drop (Z.to_nat (Z.of_nat i * m_blocksize c + off)) d)).

Definition in_line c (off n : Z) : Prop :=
  (0 ≤ off ∧ 0 ≤ n ∧ off + n ≤ m_blocksize c ∧ m_blocksize c < 2 ^ 32)%Z.

Lemma in_line_assert c off n : in_line c off n → (u32 (off + n) <=? m_blocksize c)%Z = true.
Proof. intros (? & ? & ? & ?). rewrite u32_id by (unfold in_u32; lia). by apply Z.leb_le. Qed.

Lemma read_line_ok cls c sh i off (out : bool) n upd :
  set_wf cls c sh → i < m_associativity c → in_line c off n →
  ∃ p sh', read_line i off out n upd c sh
           = Ok (if out then line_bytes c i off n else None, set_policy p c, sh') ∧
    set_wf cls (set_policy p c) sh' ∧ same_shape (sh_info sh) (sh_info sh').
Proof.
  intros Hwf Hi Hin. unfold read_line. rewrite (in_line_assert _ _ _ Hin). simpl.
  assert (Hout : match m_blocks c with
    | Some d => if out then let? l := copy_out d (data_index c i off) n in Ok (Some l) else Ok None
    | None => Ok None end = Ok (if out then line_bytes c i off n else None)).
  { pose proof Hwf as (_ & _ & _ & _ & _ & Hd). destruct Hin as (Ho & Hn & Hle & _).
    unfold line_bytes. destruct (m_blocks c) as [d|] eqn:Hb; [|by destruct out].
    destruct out; [|done]. destruct (data_index_ok c d i off n) as [Hidx Hl]; [done..|].
    rewrite copy_out_ok by done. by rewrite Hidx. }
  rewrite Hout. simpl. destruct upd.
  - destruct (update_ok cls c sh i Hwf Hi) as (p & sh' & -> & Hwf' & Hs). by exists p, sh'.
  - exists (m_policy c), sh. by destruct c.
Qed.

(** The copy of [write_line]. *)
Lemma write_copy_ok cls c sh i off in_buff n :
  set_wf cls c sh → i < m_associativity c → in_line c off n →
  (∀ buff, in_buff = Some buff → n ≤ Z.of_nat (length buff))%Z →
  ∃ d, match in_buff, m_blocks c with
    | Some buff, Some d =>
        let? d := copy_in d (data_index c i off) buff n in Ok (set_data (Some d) c)
    | _, _ => Ok c end = Ok (set_data d c) ∧ set_wf cls (set_data d c) sh ∧
    (is_Some (m_blocks c) → is_Some d) ∧
    (∀ buff, in_buff = Some buff → is_Some (m_blocks c) →
             line_bytes (set_data d c) i off n = Some (take (Z.to_nat n) buff)).
Proof.
  intros Hwf Hi (Ho & Hn & Hle & _) Hlen. pose proof Hwf as (_ & _ & _ & _ & Hbs & Hd).
  assert (Hsame : in_buff = None ∨ m_blocks c = None →
    ∃ d, Ok c = Ok (set_data d c) ∧ set_wf cls (set_data d c) sh ∧
    (is_Some (m_blocks c) → is_Some d) ∧
    (∀ buff, in_buff = Some buff → is_Some (m_blocks c) →
             line_bytes (set_data d c) i off n = Some (take (Z.to_nat n) buff))).
  { intros Hnone. exists (m_blocks c). split; [by destruct c|]. split; [by destruct c|].
    split; [done|].
    intros buff Hb [d Hd']. destruct Hnone as [Hx|Hx]; congruence. }
  destruct in_buff as [buff|]; [|by apply Hsame; left].
  destruct (m_blocks c) as [d|] eqn:Hb; [|by apply Hsame; right]. clear Hsame.
  specialize (Hlen buff eq_refl).
  destruct (data_index_ok c d i off n) as [Hidx Hl]; [done..|].
  rewrite copy_in_ok by auto. simpl. eexists. split; [done|].
  split; [eapply set_wf_data; [done|done|apply length_inserts]|]. split; [by eexists|].
  intros ? [= <-] _. unfold line_bytes. simpl. rewrite Hidx in *. f_equal.
  assert (Hlt : length (take (Z.to_nat n) buff) = Z.to_nat n) by (rewrite length_take; lia).
  rewrite <- Hlt at 1. apply inserts_slice. rewrite Hlt. nia.
Qed.

Lemma write_line_ok cls c sh i off in_buff n upd :
  set_wf cls c sh → i < m_associativity c → in_line c off n →
  (∀ buff, in_buff = Some buff → n ≤ Z.of_nat (length buff))%Z →
  ∃ d p sh', write_line i off in_buff n upd c sh = Ok (set_policy p (set_data d c), sh') ∧
    set_wf cls (set_policy p (set_data d c)) sh' ∧ same_shape (sh_info sh) (sh_info sh') ∧
    (is_Some (m_blocks c) → is_Some d) ∧
    (∀ buff, in_buff = Some buff → is_Some (m_blocks c) →
             line_bytes (set_data d c) i off n = Some (take (Z.to_nat n) buff)).
Proof.
  intros Hwf Hi Hin Hlen. unfold write_line. rewrite (in_line_assert _ _ _ Hin). simpl.
  destruct (write_copy_ok cls c sh i off in_buff n Hwf Hi Hin Hlen) as (d & -> & Hwf' & Hb).
  simpl. exists d. destruct upd.
  - destruct (update_ok cls _ sh i Hwf' Hi) as (p & sh' & -> & Hwf2 & Hs). by exists p, sh'.
  - exists (m_policy c), sh. by destruct c.
Qed.
End SetFacts.

Lemma create_lines_ok cache_type n :
  cache_type ≠ INVALID_CACHE_TYPE →
  ∃ b, CacheBlockInfo_create cache_type = Ok b ∧ isValid b = false ∧
       create_lines cache_type n = Ok (replicate n b).
Proof.
  intros Ht. assert (Hb : ∃ b, CacheBlockInfo_create cache_type = Ok b ∧ isValid b = false)
    by (destruct cache_type; [done|by eexists..]).
  destruct Hb as (b & Hb & Hv). exists b. split; [done|]. split; [done|].
  induction n as [|n IH]; simpl; [done|]. by rewrite Hb, IH.
Qed.

Lemma replicate_invalid n b :
  isValid b = false → line_map (replicate n b) = ∅ ∧ unique_tags (replicate n b).
Proof.
  intros Hv. assert (Hf : valid_lines (replicate n b) = []).
  { unfold valid_lines. induction n as [|n IH]; simpl; [done|].
    rewrite filter_cons_False by congruence. done. }
  unfold line_map, unique_tags. rewrite Hf. split; [done|constructor].
Qed.

(** A new set is well formed and empty. *)
Lemma CacheSet_new_ok {P} `{Policy P} cache_type assoc blocksize fi (p : P) info q :
  cache_type ≠ INVALID_CACHE_TYPE → 0 < assoc ≤ 256 → (0 ≤ blocksize)%Z →
  (Z.of_nat assoc * blocksize < 2 ^ 32)%Z → policy_wf assoc (mkPolState p info q) →
  ∃ b c, CacheBlockInfo_create cache_type = Ok b ∧
    CacheSet_new cache_type assoc blocksize fi p = Ok c ∧
    set_wf b c (mkShared info q) ∧ m_associativity c = assoc ∧ m_blocksize c = blocksize ∧
    m_cache_block_info_array c = replicate assoc b ∧ isValid b = false.
Proof.
  intros Ht Has Hbs Hsz Hp. destruct (create_lines_ok cache_type assoc Ht) as (b & Hb & Hv & Hl).
  exists b. unfold CacheSet_new. rewrite Hl. simpl. eexists. split; [done|]. split; [done|].
  split; [|done]. split; [split; simpl; [by rewrite length_replicate|done]|]. simpl.
  split; [done|]. split; [apply Forall_replicate, same_class_refl|].
  split; [by apply replicate_invalid|]. split; [done|].
  unfold data_wf. simpl. destruct fi; [|done]. rewrite length_replicate, u32_id by (unfold in_u32; lia).
  lia.
Qed.

(** * Properties *)

(** The life of a policy: replacements, seen on any contents of the set, and
    accesses. *)
Inductive PolicyEvent : Type :=
| EvVictim (blocks : list BlockInfo) (cntlr : BlockInfo → bool)
| EvAccess (way : nat).

Fixpoint policy_run {P} `{Policy P} (assoc : nat) (l : list PolicyEvent) (s : PolState P) :
    res (list nat * PolState P) :=
  match l with
  | [] => Ok ([], s)
  | EvVictim blocks cntlr :: l =>
      let? r := getReplacementIndex (mkSetView assoc blocks (Some cntlr)) s in
      let? r' := policy_run assoc l r.2 in
      Ok (r.1 :: r'.1, r'.2)
  | EvAccess way :: l =>
      let? s := updateReplacementIndex assoc way s in policy_run assoc l s
  end.

Definition event_ok (assoc : nat) (e : PolicyEvent) : Prop :=
  match e with
  | EvVictim blocks _ => length blocks = assoc ∧ Forall replaceable blocks
  | EvAccess way => way < assoc
  end.

Lemma policy_run_ok {P} `{PolicyOk P} assoc l s :
  0 < assoc ≤ 256 → policy_wf assoc s → Forall (event_ok assoc) l →
  ∃ victims s', policy_run assoc l s = Ok (victims, s') ∧ Forall (λ i, i < assoc) victims ∧
                policy_wf assoc s'.
Proof.
  intros Has. revert s. induction l as [|[blocks cntlr|way] l IH]; intros s Hwf Hl; simpl.
  - by exists [], s.
  - apply Forall_cons in Hl as [[Hlen Hrep] Hl].
    destruct (get_ok (mkSetView assoc blocks (Some cntlr)) s) as (i & s1 & -> & Hi & Hwf1);
      [by split|done|by eexists|done|]. simpl.
    destruct (IH s1 Hwf1 Hl) as (victims & s' & -> & Hv & Hwf'). simpl.
    exists (i :: victims), s'. split; [done|]. split; [|done]. by constructor.
  - apply Forall_cons in Hl as [Hway Hl].
    destruct (upd_ok assoc way s Hway Hwf) as (s1 & -> & Hwf1). simpl. by apply IH.
Qed.

(** C7: the contract of the replacement policies.  Each policy that the
    configuration can name, built by [createCacheSetInfo] and [createCacheSet]
    for a configuration it supports, survives every sequence of accesses and
    replacements on sets without lines in transit: no assertion fails, no array
    is left, no search runs out, and every victim is a way of the set. *)
Theorem policy_contract name policy assoc cfg info q l :
  parsePolicyType name = Ok policy → createCacheSetInfo name assoc cfg = Ok info →
  0 < assoc ≤ 256 → cfg_ok policy assoc cfg → Forall (event_ok assoc) l →
  ∃ p victims s', createPolicy policy assoc cfg = Ok p ∧
    policy_run assoc l (mkPolState p info q) = Ok (victims, s') ∧
    Forall (λ i, i < assoc) victims.
Proof.
  intros Hparse Hinfo Has Hcfg Hl.
  destruct (createPolicy_wf name policy assoc cfg info q Hparse Hinfo Has Hcfg) as (p & Hp & Hwf).
  destruct (policy_run_ok assoc l (mkPolState p info q) Has Hwf Hl) as (victims & s' & He & Hv & _).
  by exists p, victims, s'.
Qed.

Lemma policy_contract_witness :
  ∃ p victims s', createPolicy LRU_QBS 2 (mkPolicyCfg 3 2 0) = Ok p ∧
    policy_run 2 [EvAccess 1; EvVictim (replicate 2 (example_line 7 CacheState.SHARED)) (λ _, true)]
      (mkPolState p (Some (CacheSetInfoLRU_new 2 3)) 0) = Ok (victims, s') ∧
    Forall (λ i, i < 2) victims.
Proof.
  apply (policy_contract "lru_qbs" LRU_QBS 2 (mkPolicyCfg 3 2 0) (Some (CacheSetInfoLRU_new 2 3)) 0
    [EvAccess 1; EvVictim (replicate 2 (example_line 7 CacheState.SHARED)) (λ _, true)]).
  - reflexivity.
  - reflexivity.
  - lia.
  - by vm_compute.
  - repeat constructor; simpl; try done; lia.
Defined.

(** the data path of a set.  A write inside a line of a well-formed set
    succeeds and keeps the set well formed; the bytes read back from there are
    the bytes written. *)
Theorem line_write_read cls c sh i off buff n upd :
  set_wf cls c sh → i < m_associativity c → in_line c off n → (n ≤ Z.of_nat (length buff))%Z →
  is_Some (m_blocks c) →
  ∃ (c1 : CacheSet AnyPolicy) sh1 c2 sh2,
    write_line i off (Some buff) n upd c sh = Ok (c1, sh1) ∧ set_wf cls c1 sh1 ∧
    read_line i off true n upd c1 sh1 = Ok (Some (take (Z.to_nat n) buff), c2, sh2) ∧
    set_wf cls c2 sh2.
Proof.
  intros Hwf Hi Hin Hn Hb.
  destruct (write_line_ok cls c sh i off (Some buff) n upd Hwf Hi Hin) as
    (d & p & sh' & He & Hwf' & Hs & Hd & Hbytes); [by intros ? [= <-]|].
  destruct (read_line_ok cls (set_policy p (set_data d c)) sh' i off true n upd Hwf' Hi Hin)
    as (p2 & sh2 & He2 & Hwf2 & _).
  do 4 eexists. split; [exact He|]. split; [exact Hwf'|]. split; [|exact Hwf2].
  rewrite He2. change (line_bytes (set_policy p (set_data d c)) i off n)
    with (line_bytes (set_data d c) i off n). by rewrite (Hbytes buff).
Qed.

Lemma line_write_read_witness :
  ∃ c1 sh1 c2 sh2,
    write_line 1 2 (Some [7; 8]%Z) 2 true
      (mkCacheSet (replicate 2 (example_line INVALID_TAG CacheState.INVALID)) (Some (replicate 8 0%Z))
         2 4 (CacheSetMRU (MRU.new 2))) (mkShared None 0) = Ok (c1, sh1) ∧
    read_line 1 2 true 2 true c1 sh1 = Ok (Some [7; 8]%Z, c2, sh2).
Proof.
  destruct (line_write_read (example_line INVALID_TAG CacheState.INVALID)
    (mkCacheSet (replicate 2 (example_line INVALID_TAG CacheState.INVALID)) (Some (replicate 8 0%Z))
       2 4 (CacheSetMRU (MRU.new 2))) (mkShared None 0) 1 2 [7; 8]%Z 2 true)
    as (c1 & sh1 & c2 & sh2 & He & _ & He2 & _).
  - split; [split; simpl; lia|].
    split; [split; [simpl; lia|exists [0; 1]; by apply (recency_init 2); lia]|].
    split; [by repeat constructor|]. split; [constructor|]. split; [simpl; lia|].
    unfold data_wf. simpl. lia.
  - simpl. lia.
  - unfold in_line. simpl. lia.
  - simpl. lia.
  - by eexists.
  - exists c1, sh1, c2, sh2. by split.
Defined.
