(* ===== verification/PolicyKeeps.v ===== *)
(** The replacement policies keep their representation whatever lines the set
    holds, lines in transit included: a victim that is returned leaves the
    policy well formed. *)
From S2P Require Import Prelude Utils CacheBlock LruPolicies OtherPolicies CacheSet.

Class PolicyKeeps (P : Type) `{Policy P} : Prop :=
  get_keeps v s i s' :
    view_wf v → policy_wf (v_associativity v) s → getReplacementIndex v s = Ok (i, s') →
    policy_wf (v_associativity v) s'.

Lemma isValidReplacement_Ok_lt v i r : view_wf v → isValidReplacement v i = Ok r → i < v_associativity v.
Proof.
  intros [Hl _]. unfold isValidReplacement. intros (b & Hb%rd_Ok & _)%res_bind_Ok.
  apply lookup_lt_Some in Hb. lia.
Qed.
Lemma moveToMRU_keeps assoc a bits bits' :
  assoc ≤ 256 → (∃ order, recency assoc bits order) → a < assoc → moveToMRU assoc a bits = Ok bits' →
  ∃ order, recency assoc bits' order.
Proof.
  intros Hle [order Hr] Ha He. destruct (moveToMRU_recency assoc a bits order Hle Hr Ha) as (b & Hb & Hr').
  assert (b = bits') by congruence. subst b. eauto.
Qed.

(** ** LRU, MRU and NMRU *)
Lemma LRU_move_keeps assoc a s s' :
  LRU.wf assoc s → a < assoc → LRU.move assoc a s = Ok s' → LRU.wf assoc s'.
Proof.
  intros (Ha & Hn & Ho & Hi) Hlt (bits & Hb & [= <-])%res_bind_Ok.
  do 2 (split; [done|]). split; [|done]. eapply (moveToMRU_keeps assoc a); [lia|exact Ho|lia|exact Hb].
Qed.
Lemma LRU_attempts_keeps v n a s i s' :
  LRU.wf (v_associativity v) s → LRU.attempts v n a s = Ok (i, s') → LRU.wf (v_associativity v) s'.
Proof.
  revert a s. induction n as [|n IH]; intros a s Hwf He; simpl in He; [done|].
  apply res_bind_Ok in He as (idx & _ & He). apply res_bind_Ok in He as ([] & Hi & He).
  unfold log_assert in Hi. destruct (bool_decide _) eqn:Hlt in Hi; [|done]. apply bool_decide_eq_true in Hlt.
  apply res_bind_Ok in He as (rej & _ & He). apply res_bind_Ok in He as (s1 & Hm & He).
  eapply LRU_move_keeps in Hm; [|done..]. destruct rej.
  - eapply IH; [|exact He]. exact Hm.
  - apply res_bind_Ok in He as (s2 & Hw & [= _ <-]).
    apply (with_info_shape _ _ _ (info_incrementAttempt_shape a)) in Hw as [Hs Hp].
    destruct Hm as (? & ? & ? & Hinf). unfold LRU.wf. rewrite Hp. do 3 (split; [done|]).
    by eapply info_wf_shape.
Qed.
#[export] Instance LRU_PolicyKeeps : PolicyKeeps LRU.t.
Proof.
  intros v s i s' Hv Hwf. simpl. unfold LRU.get. destruct (first_invalid v) as [j|] eqn:Hf.
  - intros (s1 & Hm & [= _ <-])%res_bind_Ok. eapply LRU_move_keeps; [done| |exact Hm].
    by apply first_invalid_lt.
  - by apply LRU_attempts_keeps.
Qed.

Lemma MRU_upd_keeps assoc a s s' :
  MRU.wf assoc s → a < assoc → MRU.upd assoc a s = Ok s' → MRU.wf assoc s'.
Proof.
  intros (Ha & Ho) Hlt (bits & Hb & [= <-])%res_bind_Ok.
  split; [done|]. eapply (moveToMRU_keeps assoc a); [lia|exact Ho|lia|exact Hb].
Qed.
Lemma find_target_lt v bits t n i r :
  view_wf v → MRU.find_target v bits t n i = Ok (Some r) → r < v_associativity v.
Proof.
  intros Hv. revert i. induction n as [|n IH]; intros i He; simpl in He; [done|].
  apply res_bind_Ok in He as (bi & _ & He). destruct (bi =? t)%Z; [|by eapply IH].
  apply res_bind_Ok in He as (ok & Hok & He). destruct ok; [|by eapply IH].
  injection He as <-. by eapply isValidReplacement_Ok_lt.
Qed.
#[export] Instance MRU_PolicyKeeps : PolicyKeeps MRU.t.
Proof.
  intros v s i s' Hv Hwf. simpl. unfold MRU.get. destruct (first_invalid v) as [j|] eqn:Hf.
  - intros (s1 & Hm & [= _ <-])%res_bind_Ok. eapply MRU_upd_keeps; [done| |exact Hm].
    by apply first_invalid_lt.
  - generalize 0 at 1. generalize (v_associativity v) at 1. intros n. induction n as [|n IH]; intros t He; [done|].
    simpl in He. apply res_bind_Ok in He as ([r|] & Hr & He); [|by eapply IH].
    apply res_bind_Ok in He as (s1 & Hm & [= _ <-]). eapply MRU_upd_keeps; [done| |exact Hm].
    by eapply find_target_lt.
Qed.

Lemma NMRU_upd_keeps assoc a s s' :
  NMRU.wf assoc s → a < assoc → NMRU.upd assoc a s = Ok s' → NMRU.wf assoc s'.
Proof.
  intros (Ha & Hp & Ho) Hlt (bits & Hb & [= <-])%res_bind_Ok.
  do 2 (split; [done|]). eapply (moveToMRU_keeps assoc a); [lia|exact Ho|lia|exact Hb].
Qed.
Lemma NMRU_advance_keeps assoc s : NMRU.wf assoc s → NMRU.wf assoc (NMRU.advance assoc s).
Proof. intros (Ha & Hp & Ho). split; [done|]. split; [|done]. apply next_ptr_lt. lia. Qed.
#[export] Instance NMRU_PolicyKeeps : PolicyKeeps NMRU.t.
Proof.
  intros v s i s' Hv Hwf. simpl. unfold NMRU.get. destruct (first_invalid v) as [j|] eqn:Hf.
  - intros (s1 & Hm & [= _ <-])%res_bind_Ok. eapply NMRU_upd_keeps; [done| |exact Hm].
    by apply first_invalid_lt.
  - clear Hf. generalize (v_associativity v) at 1. intros n. revert s Hwf.
    induction n as [|n IH]; intros s Hwf He; [done|]. simpl in He.
    apply res_bind_Ok in He as (b & _ & He). apply res_bind_Ok in He as (ok & _ & He). destruct ok.
    + apply res_bind_Ok in He as (s1 & Hm & [= _ <-]).
      eapply NMRU_upd_keeps; [by apply NMRU_advance_keeps|apply Hwf|exact Hm].
    + eapply IH; [|exact He]. by apply NMRU_advance_keeps.
Qed.

(** ** NRU, PLRU, round robin, random *)
Lemma NRU_upd_keeps assoc a s s' : NRU.wf assoc s → NRU.upd assoc a s = Ok s' → NRU.wf assoc s'.
Proof.
  intros (Ha & Hl & Hp) (bits & [_ ->]%wr_Ok & [= <-])%res_bind_Ok. split; [done|].
  simpl. destruct (_ =? _)%Z; simpl; by rewrite ?length_insert, ?length_replicate.
Qed.
Lemma NRU_advance_keeps assoc s : NRU.wf assoc s → NRU.wf assoc (NRU.advance assoc s).
Proof. intros (Ha & Hl & Hp). split; [done|]. split; [done|]. apply next_ptr_lt. lia. Qed.
#[export] Instance NRU_PolicyKeeps : PolicyKeeps NRU.t.
Proof.
  intros v s i s' Hv Hwf. simpl. unfold NRU.get. intros ([j|z] & _ & He)%res_bind_Ok.
  - apply res_bind_Ok in He as (s1 & Hm & [= _ <-]). by eapply NRU_upd_keeps.
  - revert He. generalize (v_associativity v) at 1. intros n. revert s Hwf.
    induction n as [|n IH]; intros s Hwf He; [done|]. simpl in He.
    apply res_bind_Ok in He as (b & _ & He). apply res_bind_Ok in He as (ok & _ & He). destruct ok.
    + apply res_bind_Ok in He as (s1 & Hm & [= _ <-]).
      eapply NRU_upd_keeps; [by apply NRU_advance_keeps|exact Hm].
    + eapply IH; [|exact He]. by apply NRU_advance_keeps.
Qed.

Lemma PLRU_assign_length bits l bits' : PLRU.assign bits l = Ok bits' → length bits' = length bits.
Proof.
  revert bits. induction l as [|[i x] l IH]; intros bits; simpl; [by intros [= ->]|].
  intros (b & [_ ->]%wr_Ok & He)%res_bind_Ok. by rewrite (IH _ He), length_insert.
Qed.
Lemma PLRU_upd_keeps assoc a s s' : PLRU.wf assoc s → PLRU.upd assoc a s = Ok s' → PLRU.wf assoc s'.
Proof.
  intros [Ha Hl] (l & _ & He)%res_bind_Ok. apply res_bind_Ok in He as (bits & Hb & [= <-]).
  split; [done|]. simpl. by rewrite (PLRU_assign_length _ _ _ Hb).
Qed.
#[export] Instance PLRU_PolicyKeeps : PolicyKeeps PLRU.t.
Proof.
  intros v s i s' Hv Hwf. simpl. unfold PLRU.get. destruct (first_invalid v) as [j|] eqn:Hf.
  - intros (s1 & Hm & [= _ <-])%res_bind_Ok. by eapply PLRU_upd_keeps.
  - intros (r & _ & He)%res_bind_Ok. apply res_bind_Ok in He as (ok & _ & He).
    apply res_bind_Ok in He as ([] & _ & He). apply res_bind_Ok in He as (s1 & Hm & [= _ <-]).
    by eapply PLRU_upd_keeps.
Qed.
#[export] Instance RoundRobin_PolicyKeeps : PolicyKeeps RoundRobin.t.
Proof.
  intros v s i s' Hv Hwf. simpl. unfold RoundRobin.get. generalize (S (v_associativity v)). intros n.
  revert s Hwf. induction n as [|n IH]; intros s [Ha Hp] He; [done|]. simpl in He.
  apply res_bind_Ok in He as (ok & _ & He).
  match type of He with context [set_pol (RoundRobin.mk ?x) s] =>
    assert (Hwf' : RoundRobin.wf (v_associativity v) (set_pol (RoundRobin.mk x) s))
      by (split; [done|]; simpl; case_bool_decide; lia) end.
  destruct ok; [by simplify_eq|]. by eapply IH.
Qed.
#[export] Instance Random_PolicyKeeps : PolicyKeeps RandomPolicy.t.
Proof. intros v s i s' Hv Hwf _. exact Hwf. Qed.

(** ** SRRIP *)
Lemma SRRIP_write_keeps assoc i x s s' :
  SRRIP.wf assoc s → (0 ≤ x ≤ SRRIP.m_rrip_max (ps_pol s))%Z → SRRIP.write i x s = Ok s' →
  SRRIP.wf assoc s'.
Proof.
  intros (Ha & Hn & Hm & Hi & Hl & HF & Hp & Hinf) Hx (bits & [_ ->]%wr_Ok & [= <-])%res_bind_Ok.
  do 4 (split; [done|]). simpl. rewrite length_insert. split; [done|]. split; [|done].
  by apply Forall_insert.
Qed.
Lemma SRRIP_advance_keeps assoc s : SRRIP.wf assoc s → SRRIP.wf assoc (SRRIP.advance assoc s).
Proof.
  intros (Ha & Hn & Hm & Hi & Hl & HF & Hp & Hinf). do 6 (split; [done|]). split; [|done].
  apply next_ptr_lt. lia.
Qed.
Lemma SRRIP_info_keeps assoc f s s' :
  SRRIP.wf assoc s → (∀ i j, f i = Ok j → same_shape (Some i) (Some j)) → with_info f s = Ok s' →
  SRRIP.wf assoc s'.
Proof.
  intros (Ha & Hn & Hm & Hi & Hl & HF & Hp & Hinf) Hf Hw.
  apply (with_info_shape _ _ _ Hf) in Hw as [Hs Hpol]. unfold SRRIP.wf. rewrite Hpol.
  do 7 (split; [done|]). by eapply info_wf_shape.
Qed.
Lemma SRRIP_revolution_keeps v n a s r :
  SRRIP.wf (v_associativity v) s → SRRIP.revolution v n a s = Ok r →
  SRRIP.wf (v_associativity v) (match r with inl x | inr x => x.2 end).
Proof.
  revert a s. induction n as [|n IH]; intros a s Hwf He; simpl in He; [by simplify_eq|].
  assert (Hins : (0 ≤ SRRIP.m_rrip_insert (ps_pol s) ≤ SRRIP.m_rrip_max (ps_pol s))%Z)
    by (destruct Hwf as (_ & _ & ? & -> & _); lia).
  apply res_bind_Ok in He as (x & _ & He). destruct (_ <=? x)%Z.
  2:{ eapply IH; [|exact He]. by apply SRRIP_advance_keeps. }
  apply res_bind_Ok in He as (rej & _ & He). destruct rej.
  - apply res_bind_Ok in He as (s1 & Hw & He). eapply IH; [|exact He].
    eapply SRRIP_write_keeps in Hw; [exact Hw|done|lia].
  - apply res_bind_Ok in He as (s1 & Hw & He). apply res_bind_Ok in He as (s2 & Hi & He).
    apply res_bind_Ok in He as (ok & _ & He). apply res_bind_Ok in He as ([] & _ & [= <-]).
    eapply SRRIP_info_keeps; [|apply info_incrementAttempt_shape|exact Hi].
    eapply SRRIP_write_keeps; [by apply SRRIP_advance_keeps|exact Hins|exact Hw].
Qed.
#[export] Instance SRRIP_PolicyKeeps : PolicyKeeps SRRIP.t.
Proof.
  intros v s i s' Hv Hwf. simpl. unfold SRRIP.get. destruct (first_invalid v) as [j|] eqn:Hf.
  - intros (s1 & Hm & [= _ <-])%res_bind_Ok. eapply SRRIP_write_keeps; [done| |exact Hm].
    destruct Hwf as (_ & _ & ? & -> & _); lia.
  - generalize (S (Z.to_nat (SRRIP.m_rrip_max (ps_pol s)))). generalize 0. clear Hf. intros a n. revert a s Hwf.
    induction n as [|n IH]; intros a s Hwf He; [done|]. simpl in He.
    apply res_bind_Ok in He as (r & Hr & He). apply SRRIP_revolution_keeps in Hr; [|done].
    destruct r as [[x s1]|[x s1]]; [by simplify_eq|]. eapply IH; [|exact He]. simpl in Hr.
    destruct Hr as (Ha & Hn & Hm & Hi & Hl & HF & Hp & Hinf).
    do 4 (split; [done|]). simpl. rewrite length_fmap. split; [done|]. split; [|done].
    apply Forall_fmap. eapply Forall_impl; [exact HF|]. intros y Hy. simpl in *. unfold SRRIP.bump.
    destruct (Z.ltb_spec y (SRRIP.m_rrip_max (ps_pol s1))); [|lia].
    rewrite u8_id; [lia|]. unfold in_u8. lia.
Qed.

(** Every class derived from [CacheSet]. *)
Lemma get_as_keeps {P} `{PolicyKeeps P} (c : P → AnyPolicy) p v s i s' :
  view_wf v → policy_wf (v_associativity v) (as_pol p s) → get_as c p v s = Ok (i, s') →
  ∃ s1, s' = inject c s1 ∧ policy_wf (v_associativity v) s1.
Proof.
  intros Hv Hwf ([j s1] & Hg & [= _ <-])%res_bind_Ok. exists s1. split; [done|]. by eapply get_keeps.
Qed.
#[export] Instance Any_PolicyKeeps : PolicyKeeps AnyPolicy.
Proof.
  intros v s i s' Hv Hwf He. simpl in Hwf, He |- *. unfold Any_wf, Any_get in *.
  destruct (ps_pol s) as [p|p|p|p|p|p|p|p]; (eapply get_as_keeps in He as (s1 & -> & Hs1); [|done..]);
    simpl; by rewrite as_pol_inject.
Qed.
