(* ===== verification/Address.v ===== *)
(** Where an address lives: the home of an address among the memory
    controllers (src/common/core/memory_subsystem/address_home_lookup.{h,cc})
    and its tag, set and offset in a cache
    (src/common/core/memory_subsystem/cache/cache_base.{h,cc}). *)
From S2P Require Import Prelude Utils.
Local Open Scope Z_scope.

(** [x >> n] and [x << n] on 64-bit words are undefined from [n = 64] on. *)
Definition shr64 (x n : Z) : res Z := if n <? 64 then Ok (Z.shiftr x n) else Err ErrUndefined.
Definition shl64 (x n : Z) : res Z := if n <? 64 then Ok (u64 (Z.shiftl x n)) else Err ErrUndefined.
Definition mod_nz (x n : Z) : res Z := if n =? 0 then Err ErrUndefined else Ok (x mod n).
Definition div_nz (x n : Z) : res Z := if n =? 0 then Err ErrUndefined else Ok (x / n).

(** ** class AddressHomeLookup *)

Record AddressHomeLookup : Type := mkAHL {
  m_ahl_param : Z;
  m_ahl_mask : Z;
  m_core_list : list Z;
  m_total_modules : Z;
  m_cache_block_size : Z
}.

(** [1 << m_ahl_param] is a shift of an [int]. *)
Definition AddressHomeLookup_new (ahl_param : Z) (core_list : list Z) (cache_block_size : Z) :
    res AddressHomeLookup :=
  let? m := shl64 1 ahl_param in
  (if ahl_param <? 31 then Ok tt else Err ErrUndefined);?
  log_assert (s32 cache_block_size <=? Z.shiftl 1 ahl_param)
    "2^AHL param must be >= Cache Block Size";?
  Ok (mkAHL ahl_param (u64 (m - 1)) core_list (u32 (Z.of_nat (length core_list))) cache_block_size).

Definition getHome (a : AddressHomeLookup) (address : Z) : res Z :=
  let? b := shr64 address (m_ahl_param a) in
  let? r := mod_nz b (m_total_modules a) in
  let module_num := s32 r in
  log_assert ((0 <=? module_num) && (module_num <? s32 (m_total_modules a))) "module_num";?
  rd (m_core_list a) (Z.to_nat module_num).

Definition getLinearBlock (a : AddressHomeLookup) (address : Z) : res Z :=
  let? b := shr64 address (m_ahl_param a) in
  div_nz b (m_total_modules a).

Definition getLinearAddress (a : AddressHomeLookup) (address : Z) : res Z :=
  let? b := getLinearBlock a address in
  let? hi := shl64 b (m_ahl_param a) in
  Ok (Z.lor hi (Z.land address (m_ahl_mask a))).

(** ** class CacheBase *)

Inductive hash_t : Type :=
| INVALID_HASH_TYPE | HASH_MASK | HASH_MOD | HASH_RNG1_MOD | HASH_RNG2_MOD
| HASH_PRIME_DIS | HASH_XOR_MOD | HASH_MER_MOD.

#[export] Instance hash_t_eq_dec : EqDecision hash_t.
Proof. solve_decision. Defined.

Definition parseAddressHash (hash_name : string) : res hash_t :=
  if bool_decide (hash_name = "mask"%string) then Ok HASH_MASK
  else if bool_decide (hash_name = "mod"%string) then Ok HASH_MOD
  else if bool_decide (hash_name = "rng1_mod"%string) then Ok HASH_RNG1_MOD
  else if bool_decide (hash_name = "rng2_mod"%string) then Ok HASH_RNG2_MOD
  else if bool_decide (hash_name = "prime_dis"%string) then Ok HASH_PRIME_DIS
  else if bool_decide (hash_name = "xor_mod"%string) then Ok HASH_XOR_MOD
  else if bool_decide (hash_name = "mersenne_mod"%string) then Ok HASH_MER_MOD
  else Err (ErrLog "Invalid address hash function").

Record CacheBase : Type := mkCacheBase {
  cb_cache_size : Z;
  cb_associativity : nat;
  cb_blocksize : Z;
  cb_hash : hash_t;
  cb_num_sets : Z;
  cb_ahl : option AddressHomeLookup;
  cb_log_blocksize : Z;
  cb_log_num_sets : Z
}.

Definition CacheBase_new (num_sets : Z) (associativity : nat) (cache_block_size : Z)
    (hash : hash_t) (ahl : option AddressHomeLookup) : res CacheBase :=
  (if floorLog2 num_sets <? 0 then Err ErrUndefined else Ok tt);?
  log_assert ((num_sets =? Z.shiftl 1 (floorLog2 num_sets)) || negb (bool_decide (hash = HASH_MASK)))
    "Caches of non-power of 2 size need funky hash function";?
  Ok (mkCacheBase (u64 (num_sets * Z.of_nat associativity * cache_block_size)) associativity
        cache_block_size hash num_sets ahl
        (u32 (floorLog2 cache_block_size)) (u32 (floorLog2 num_sets))).

(** The [switch] on the hash function. *)
Definition set_index_of (c : CacheBase) (block_num : Z) : res Z :=
  match cb_hash c with
  | HASH_MASK => Ok (Z.land block_num (u32 (cb_num_sets c - 1)))
  | HASH_MOD => let? i := mod_nz block_num (cb_num_sets c) in Ok (u32 i)
  | HASH_RNG1_MOD =>
      let '(r, _) := rng_next (rng_seed block_num) in
      let? i := mod_nz r (cb_num_sets c) in Ok (u32 i)
  | HASH_RNG2_MOD =>
      let '(_, state) := rng_next (rng_seed block_num) in
      let '(r, _) := rng_next state in
      let? i := mod_nz r (cb_num_sets c) in Ok (u32 i)
  | HASH_PRIME_DIS =>
      let? si := mod_nz block_num (cb_num_sets c) in
      let? Ti := shr64 block_num (cb_log_num_sets c) in
      let? i := mod_nz (u64 (u64 (3 * Ti) + si)) (cb_num_sets c) in Ok (u32 i)
  | HASH_XOR_MOD =>
      let? si := mod_nz block_num (cb_num_sets c) in
      let? b := shr64 block_num (cb_log_num_sets c) in
      let? ti := mod_nz b (cb_num_sets c) in
      Ok (u32 (Z.lxor si ti))
  | HASH_MER_MOD => let? i := mod_nz block_num (u32 (cb_num_sets c - 1)) in Ok (u32 i)
  | INVALID_HASH_TYPE => Err (ErrLog "Invalid hash function")
  end.

(** [splitAddress(addr, tag, set_index)]. *)
Definition splitAddress (c : CacheBase) (addr : Z) : res (Z * Z) :=
  let? tag := shr64 addr (cb_log_blocksize c) in
  let? linearAddress :=
    match cb_ahl c with Some a => getLinearAddress a addr | None => Ok addr end in
  let? block_num := shr64 linearAddress (cb_log_blocksize c) in
  let? set_index := set_index_of c block_num in
  Ok (tag, set_index).

(** [splitAddress(addr, tag, set_index, block_offset)]. *)
Definition splitAddress_offset (c : CacheBase) (addr : Z) : res (Z * Z * Z) :=
  let block_offset := Z.land addr (u32 (cb_blocksize c - 1)) in
  let? r := splitAddress c addr in
  Ok (r.1, r.2, block_offset).

Definition tagToAddress (c : CacheBase) (tag : Z) : res Z := shl64 tag (cb_log_blocksize c).

(** * Facts *)

Lemma shl_lor_low x y p : 0 ≤ p → 0 ≤ y < 2 ^ p → Z.lor (Z.shiftl x p) y = x * 2 ^ p + y.
Proof.
  intros Hp Hy. rewrite <- Z.shiftl_mul_pow2 by done.
  assert (Hl : Z.land (Z.shiftl x p) y = 0).
  { apply Z.bits_inj'. intros i Hi. rewrite Z.land_spec, Z.bits_0.
    destruct (decide (i < p)); [by rewrite Z.shiftl_spec_low|].
    assert (Z.testbit y i = false) as ->; [|by rewrite andb_false_r].
    destruct (decide (y = 0)) as [->|]; [apply Z.bits_0|].
    apply Z.bits_above_log2; [lia|]. apply Z.log2_lt_pow2; [lia|].
    apply Z.lt_le_trans with (2 ^ p); [lia|]. apply Z.pow_le_mono_r; lia. }
  pose proof (Z.add_lor_land (Z.shiftl x p) y). lia.
Qed.

Lemma shr64_ok x n : 0 ≤ n < 64 → shr64 x n = Ok (x / 2 ^ n).
Proof. intros Hn. unfold shr64. rewrite (proj2 (Z.ltb_lt _ _)) by lia. by rewrite Z.shiftr_div_pow2 by lia. Qed.

Lemma mod_nz_ok x n : n ≠ 0 → mod_nz x n = Ok (x mod n).
Proof. intros Hn. unfold mod_nz. by rewrite (proj2 (Z.eqb_neq _ _) Hn). Qed.

Lemma u64_small_mul x p : 0 ≤ x → 0 ≤ p → x * 2 ^ p < 2 ^ 64 → u64 (Z.shiftl x p) = x * 2 ^ p.
Proof.
  intros Hx Hp Hlt. rewrite Z.shiftl_mul_pow2 by done. apply u64_id. unfold in_u64.
  pose proof (Z.pow_pos_nonneg 2 p). nia.
Qed.

Lemma s32_small z : 0 ≤ z < 2 ^ 31 → s32 z = z.
Proof. intros Hz. unfold s32. rewrite Z.mod_small by lia. lia. Qed.

(** ** The home of an address *)

Definition ahl_wf (a : AddressHomeLookup) : Prop :=
  0 ≤ m_ahl_param a < 31 ∧ m_ahl_mask a = 2 ^ m_ahl_param a - 1 ∧
  m_total_modules a = Z.of_nat (length (m_core_list a)) ∧ 0 < m_total_modules a < 2 ^ 31 ∧
  m_cache_block_size a ≤ 2 ^ m_ahl_param a.

Lemma AddressHomeLookup_new_wf p cores bs a :
  AddressHomeLookup_new p cores bs = Ok a → 0 ≤ p → 0 ≤ bs < 2 ^ 31 →
  0 < Z.of_nat (length cores) < 2 ^ 31 → ahl_wf a ∧ m_cache_block_size a = bs ∧ m_core_list a = cores.
Proof.
  unfold AddressHomeLookup_new. intros He Hp Hbs Hc.
  apply res_bind_Ok in He as (m & Hm & He). apply res_bind_Ok in He as ([] & Hp31 & He).
  destruct (Z.ltb_spec p 31) as [Hlt|]; [|done]. clear Hp31.
  apply res_bind_Ok in He as ([] & Ha & He). unfold log_assert in Ha.
  destruct (s32 bs <=? Z.shiftl 1 p) eqn:Hle; [|done]. apply Z.leb_le in Hle.
  injection He as <-. rewrite s32_small, Z.shiftl_mul_pow2, Z.mul_1_l in Hle by lia.
  assert (Hpow : 0 < 2 ^ p < 2 ^ 31).
  { split; [apply Z.pow_pos_nonneg; lia|apply Z.pow_lt_mono_r; lia]. }
  assert (m = 2 ^ p) as ->.
  { unfold shl64 in Hm. rewrite (proj2 (Z.ltb_lt _ _)) in Hm by lia. injection Hm as <-.
    rewrite u64_small_mul by lia. lia. }
  unfold ahl_wf. simpl. rewrite u64_id, u32_id by (unfold in_u64, in_u32; lia). done.
Qed.

(** The module, the block of the module and the offset of an address. *)
Definition ahl_module (a : AddressHomeLookup) (addr : Z) : Z :=
  (addr / 2 ^ m_ahl_param a) mod m_total_modules a.

Lemma getHome_eq a addr :
  ahl_wf a → in_u64 addr → getHome a addr = rd (m_core_list a) (Z.to_nat (ahl_module a addr)).
Proof.
  intros (Hp & _ & Ht & Hm & _) Ha. unfold getHome. rewrite shr64_ok by lia. simpl.
  rewrite mod_nz_ok by lia. simpl. fold (ahl_module a addr).
  assert (Hr : 0 ≤ ahl_module a addr < m_total_modules a) by (apply Z.mod_pos_bound; lia).
  rewrite !s32_small by lia.
  rewrite (proj2 (Z.leb_le _ _)), (proj2 (Z.ltb_lt _ _)) by lia. done.
Qed.

Lemma getHome_ok a addr : ahl_wf a → in_u64 addr → ∃ core, getHome a addr = Ok core ∧ core ∈ m_core_list a.
Proof.
  intros Hwf Ha. rewrite getHome_eq by done. pose proof Hwf as (Hp & _ & Ht & Hm & _).
  assert (Hr : 0 ≤ ahl_module a addr < m_total_modules a) by (apply Z.mod_pos_bound; lia).
  destruct (rd_lt (m_core_list a) (Z.to_nat (ahl_module a addr)) ltac:(lia)) as (c & Hc & ->).
  exists c. split; [done|]. by eapply list_elem_of_lookup_2.
Qed.

Lemma getLinearAddress_eq a addr :
  ahl_wf a → in_u64 addr →
  getLinearAddress a addr
  = Ok (addr / 2 ^ m_ahl_param a / m_total_modules a * 2 ^ m_ahl_param a
        + addr mod 2 ^ m_ahl_param a).
Proof.
  intros (Hp & Hmask & Ht & Hm & _) Ha. unfold getLinearAddress, getLinearBlock.
  rewrite shr64_ok by lia. simpl. unfold div_nz. rewrite (proj2 (Z.eqb_neq _ _)) by lia. simpl.
  unfold shl64. rewrite (proj2 (Z.ltb_lt _ _)) by lia. simpl. f_equal.
  set (p := m_ahl_param a) in *. set (M := m_total_modules a) in *.
  assert (Hpow : 0 < 2 ^ p) by (apply Z.pow_pos_nonneg; lia).
  assert (H0 : 0 ≤ addr / 2 ^ p) by (apply Z.div_pos; unfold in_u64 in *; lia).
  assert (H1 : 0 ≤ addr / 2 ^ p / M) by (apply Z.div_pos; lia).
  assert (H2 : addr / 2 ^ p / M * 2 ^ p ≤ addr).
  { assert (addr / 2 ^ p / M ≤ addr / 2 ^ p) by (apply Z.div_le_upper_bound; nia).
    pose proof (Z.mul_div_le addr (2 ^ p)). nia. }
  rewrite u64_small_mul by (unfold in_u64 in *; lia).
  rewrite Hmask, <- Z.shiftl_mul_pow2 by lia.
  replace (2 ^ p - 1) with (Z.ones p) by (rewrite Z.ones_equiv; lia).
  rewrite Z.land_ones by lia. rewrite shl_lor_low; [|lia|apply Z.mod_pos_bound; lia].
  by rewrite Z.shiftl_mul_pow2 by lia.
Qed.

(** Module and linear address determine the address. *)
Lemma linear_address_inj a addr addr' :
  ahl_wf a → in_u64 addr → in_u64 addr' →
  ahl_module a addr = ahl_module a addr' →
  getLinearAddress a addr = getLinearAddress a addr' → addr = addr'.
Proof.
  intros Hwf Ha Ha' Hmod Hlin. rewrite !getLinearAddress_eq in Hlin by done.
  injection Hlin as Hlin. unfold ahl_module in Hmod. destruct Hwf as (Hp & _ & _ & Hm & _).
  set (p := m_ahl_param a) in *. set (M := m_total_modules a) in *.
  assert (Hpow : 0 < 2 ^ p) by (apply Z.pow_pos_nonneg; lia).
  pose proof (Z.mod_pos_bound addr (2 ^ p) Hpow). pose proof (Z.mod_pos_bound addr' (2 ^ p) Hpow).
  assert (Hb : addr / 2 ^ p / M = addr' / 2 ^ p / M) by nia.
  assert (Hr : addr mod 2 ^ p = addr' mod 2 ^ p) by nia.
  assert (Hq : addr / 2 ^ p = addr' / 2 ^ p).
  { rewrite (Z.div_mod (addr / 2 ^ p) M), (Z.div_mod (addr' / 2 ^ p) M) by lia. congruence. }
  rewrite (Z.div_mod addr (2 ^ p)), (Z.div_mod addr' (2 ^ p)) by lia. congruence.
Qed.

(** ** Tag, set and offset *)

Definition cb_wf (c : CacheBase) : Prop :=
  0 < cb_num_sets c < 2 ^ 32 ∧ 0 < cb_blocksize c < 2 ^ 31 ∧
  cb_log_blocksize c = Z.log2 (cb_blocksize c) ∧ cb_log_num_sets c = Z.log2 (cb_num_sets c) ∧
  (cb_hash c = HASH_MASK → cb_num_sets c = 2 ^ Z.log2 (cb_num_sets c)) ∧
  (∀ a, cb_ahl c = Some a → ahl_wf a ∧ m_cache_block_size a = cb_blocksize c).

(** The number of sets each hash function can deal with. *)
Definition hash_ok (c : CacheBase) : Prop :=
  match cb_hash c with
  | INVALID_HASH_TYPE => False
  | HASH_XOR_MOD => cb_num_sets c = 2 ^ Z.log2 (cb_num_sets c)
  | HASH_MER_MOD => 2 ≤ cb_num_sets c
  | _ => True
  end.

Lemma log2_lt_32 n : 0 < n < 2 ^ 32 → 0 ≤ Z.log2 n < 32.
Proof. intros Hn. split; [apply Z.log2_nonneg|]. apply Z.log2_lt_pow2; lia. Qed.

Lemma CacheBase_new_wf num_sets assoc bs hash ahl c :
  CacheBase_new num_sets assoc bs hash ahl = Ok c →
  0 < num_sets < 2 ^ 32 → 0 < bs < 2 ^ 31 →
  (∀ a, ahl = Some a → ahl_wf a ∧ m_cache_block_size a = bs) →
  cb_wf c ∧ cb_num_sets c = num_sets ∧ cb_blocksize c = bs ∧ cb_associativity c = assoc ∧
  cb_hash c = hash.
Proof.
  unfold CacheBase_new. intros He Hn Hb Ha.
  apply res_bind_Ok in He as ([] & _ & He). apply res_bind_Ok in He as ([] & Hassert & He).
  injection He as <-. unfold log_assert in Hassert.
  rewrite floorLog2_pos in Hassert by lia. unfold cb_wf. simpl.
  rewrite !floorLog2_pos by lia.
  pose proof (log2_lt_32 num_sets Hn). pose proof (log2_lt_32 bs ltac:(lia)).
  rewrite !u32_id by (unfold in_u32; lia).
  split; [|done]. do 2 (split; [lia|]). do 2 (split; [done|]). split; [|done].
  intros ->. rewrite bool_decide_true in Hassert by done.
  rewrite orb_false_r in Hassert. destruct (Z.eqb_spec num_sets (Z.shiftl 1 (Z.log2 num_sets))) as [E|]; [|done].
  rewrite Z.shiftl_mul_pow2, Z.mul_1_l in E by lia. done.
Qed.

Lemma land_pred_mod x n : 0 ≤ x → 0 < n < 2 ^ 32 → n = 2 ^ Z.log2 n → Z.land x (u32 (n - 1)) = x mod n.
Proof.
  intros Hx Hn Hp. rewrite u32_id by (unfold in_u32; lia). pose proof (Z.log2_nonneg n).
  rewrite Hp. replace (2 ^ Z.log2 n - 1) with (Z.ones (Z.log2 n)) by (rewrite Z.ones_equiv; lia).
  apply Z.land_ones. done.
Qed.

Lemma lxor_lt_pow2 a b k :
  0 ≤ k → 0 ≤ a < 2 ^ k → 0 ≤ b < 2 ^ k → 0 ≤ Z.lxor a b < 2 ^ k.
Proof.
  intros Hk Ha Hb. split; [apply Z.lxor_nonneg; lia|].
  destruct (decide (Z.lxor a b = 0)) as [->|Hne]; [lia|].
  destruct (decide (k = 0)) as [->|].
  { exfalso. apply Hne. replace a with 0 by lia. by replace b with 0 by lia. }
  assert (0 ≤ Z.lxor a b) by (apply Z.lxor_nonneg; lia).
  apply Z.log2_lt_pow2; [lia|].
  pose proof (Z.log2_lxor a b ltac:(lia) ltac:(lia)).
  assert (Hl : ∀ x, 0 ≤ x < 2 ^ k → Z.log2 x < k).
  { intros x Hx. destruct (decide (x = 0)) as [->|]; [simpl; lia|]. apply Z.log2_lt_pow2; lia. }
  pose proof (Hl a Ha). pose proof (Hl b Hb). lia.
Qed.

Lemma set_index_range c b :
  cb_wf c → hash_ok c → 0 ≤ b → ∃ i, set_index_of c b = Ok i ∧ 0 ≤ i < cb_num_sets c.
Proof.
  intros (Hn & _ & _ & Hln & Hmask & _) Hh Hb. unfold set_index_of, hash_ok in *.
  pose proof (log2_lt_32 _ Hn) as Hlog.
  assert (Hmod : ∀ x, ∃ i, (let? i := mod_nz x (cb_num_sets c) in Ok (u32 i)) = Ok i ∧
                           0 ≤ i < cb_num_sets c).
  { intros x. rewrite mod_nz_ok by lia. simpl. eexists. split; [done|].
    pose proof (Z.mod_pos_bound x (cb_num_sets c) ltac:(lia)).
    rewrite u32_id by (unfold in_u32; lia). lia. }
  destruct (cb_hash c); [done|..].
  - rewrite land_pred_mod by auto. eexists. split; [done|]. apply Z.mod_pos_bound. lia.
  - apply Hmod.
  - destruct (rng_next _). apply Hmod.
  - destruct (rng_next _). destruct (rng_next _). apply Hmod.
  - rewrite mod_nz_ok, Hln, shr64_ok by lia. simpl. apply Hmod.
  - rewrite mod_nz_ok, Hln, shr64_ok by lia. simpl. rewrite mod_nz_ok by lia. simpl.
    eexists. split; [done|].
    pose proof (Z.mod_pos_bound b (cb_num_sets c) ltac:(lia)).
    pose proof (Z.mod_pos_bound (b / 2 ^ Z.log2 (cb_num_sets c)) (cb_num_sets c) ltac:(lia)).
    assert (0 ≤ Z.lxor (b mod cb_num_sets c) ((b / 2 ^ Z.log2 (cb_num_sets c)) mod cb_num_sets c)
              < 2 ^ Z.log2 (cb_num_sets c)) by (apply lxor_lt_pow2; lia).
    rewrite u32_id by (unfold in_u32; lia). lia.
  - rewrite (u32_id (cb_num_sets c - 1)) by (unfold in_u32; lia).
    rewrite mod_nz_ok by lia. simpl. eexists. split; [done|].
    pose proof (Z.mod_pos_bound b (cb_num_sets c - 1) ltac:(lia)).
    rewrite u32_id by (unfold in_u32; lia). lia.
Qed.

(** The block number that selects the set is a function of the tag. *)
Definition block_num_of_tag (c : CacheBase) (tag : Z) : Z :=
  match cb_ahl c with
  | None => tag
  | Some a =>
      let k := m_ahl_param a - cb_log_blocksize c in
      tag / 2 ^ k / m_total_modules a * 2 ^ k + tag mod 2 ^ k
  end.

Lemma linear_block addr p lb M :
  0 ≤ lb ≤ p → 0 < M →
  (addr / 2 ^ p / M * 2 ^ p + addr mod 2 ^ p) / 2 ^ lb
  = addr / 2 ^ lb / 2 ^ (p - lb) / M * 2 ^ (p - lb) + (addr / 2 ^ lb) mod 2 ^ (p - lb).
Proof.
  intros Hlb HM. assert (Hp : 2 ^ p = 2 ^ lb * 2 ^ (p - lb)).
  { rewrite <- Z.pow_add_r by lia. f_equal. lia. }
  assert (H1 : 0 < 2 ^ lb) by (apply Z.pow_pos_nonneg; lia).
  assert (H2 : 0 < 2 ^ (p - lb)) by (apply Z.pow_pos_nonneg; lia).
  rewrite Hp. set (A := 2 ^ lb) in *. set (B := 2 ^ (p - lb)) in *.
  rewrite Z.rem_mul_r by lia. rewrite <- (Z.div_div addr A B) by lia.
  replace (addr / A / B / M * (A * B) + (addr mod A + A * ((addr / A) mod B)))
    with ((addr / A / B / M * B + (addr / A) mod B) * A + addr mod A) by ring.
  rewrite Z.div_add_l by lia.
  rewrite (Z.div_small (addr mod A)) by (apply Z.mod_pos_bound; lia). lia.
Qed.

Lemma ahl_covers_block c a :
  cb_wf c → cb_ahl c = Some a → 0 ≤ cb_log_blocksize c ≤ m_ahl_param a.
Proof.
  intros (_ & Hb & Hlb & _ & _ & Hahl) Ha.
  destruct (Hahl a Ha) as [(Hp & _ & _ & _ & Hbs) Hbs']. rewrite Hlb.
  pose proof (Z.log2_spec (cb_blocksize c) ltac:(lia)). pose proof (Z.log2_nonneg (cb_blocksize c)).
  split; [done|]. apply (Z.pow_le_mono_r_iff 2); lia.
Qed.

Lemma splitAddress_eq c addr :
  cb_wf c → in_u64 addr →
  splitAddress c addr
  = (let? i := set_index_of c (block_num_of_tag c (addr / 2 ^ cb_log_blocksize c)) in
     Ok (addr / 2 ^ cb_log_blocksize c, i)).
Proof.
  intros Hwf Ha. pose proof Hwf as (_ & Hb & Hlb & _ & _ & Hahl).
  pose proof (log2_lt_32 (cb_blocksize c) ltac:(lia)) as Hl. unfold splitAddress.
  rewrite !shr64_ok by lia. simpl. unfold block_num_of_tag.
  destruct (cb_ahl c) as [a|] eqn:Hc; simpl; [|by rewrite shr64_ok by lia].
  destruct (Hahl a eq_refl) as [Hawf _]. rewrite getLinearAddress_eq by done. simpl.
  rewrite shr64_ok by lia. simpl.
  pose proof (ahl_covers_block c a Hwf Hc). pose proof Hawf as (_ & _ & _ & HM & _).
  by rewrite linear_block by lia.
Qed.

(** The set where lines with this tag live. *)
Definition home_set (c : CacheBase) (tag : Z) : nat :=
  match set_index_of c (block_num_of_tag c tag) with Ok i => Z.to_nat i | Err _ => O end.

Lemma block_num_nonneg c tag : cb_wf c → 0 ≤ tag → 0 ≤ block_num_of_tag c tag.
Proof.
  intros Hwf Ht. unfold block_num_of_tag. destruct (cb_ahl c) as [a|] eqn:Hc; [|done].
  pose proof (ahl_covers_block c a Hwf Hc). pose proof Hwf as (_ & _ & _ & _ & _ & Hahl).
  destruct (Hahl a Hc) as [(_ & _ & _ & HM & _) _].
  assert (0 < 2 ^ (m_ahl_param a - cb_log_blocksize c)) by (apply Z.pow_pos_nonneg; lia).
  pose proof (Z.mod_pos_bound tag (2 ^ (m_ahl_param a - cb_log_blocksize c)) ltac:(lia)).
  assert (0 ≤ tag / 2 ^ (m_ahl_param a - cb_log_blocksize c) / m_total_modules a).
  { apply Z.div_pos; [apply Z.div_pos|]; lia. }
  simpl. nia.
Qed.

Lemma splitAddress_ok c addr :
  cb_wf c → hash_ok c → in_u64 addr →
  ∃ i, splitAddress c addr = Ok (addr / 2 ^ cb_log_blocksize c, i) ∧ 0 ≤ i < cb_num_sets c ∧
       Z.to_nat i = home_set c (addr / 2 ^ cb_log_blocksize c).
Proof.
  intros Hwf Hh Ha. rewrite splitAddress_eq by done.
  pose proof Hwf as (_ & Hb & Hlb & _). pose proof (log2_lt_32 (cb_blocksize c) ltac:(lia)).
  assert (Ht : 0 ≤ addr / 2 ^ cb_log_blocksize c).
  { apply Z.div_pos; [unfold in_u64 in *; lia|]. apply Z.pow_pos_nonneg; lia. }
  unfold home_set.
  destruct (set_index_range c (block_num_of_tag c (addr / 2 ^ cb_log_blocksize c)))
    as (i & -> & Hi); [done|done|by apply block_num_nonneg|]. by exists i.
Qed.

(** * Properties *)

Lemma AddressHomeLookup_new_param p cores bs a : AddressHomeLookup_new p cores bs = Ok a → m_ahl_param a = p.
Proof.
  unfold AddressHomeLookup_new. intros (m & _ & He)%res_bind_Ok.
  apply res_bind_Ok in He as ([] & _ & He). apply res_bind_Ok in He as ([] & _ & He). by injection He as <-.
Qed.

(** C14: the home lookup splits addresses without merging them.  The pages of
    [2 ^ p] bytes go to the cores of the list in turn, so every 64-bit address
    has a home in the list; and if no core is listed twice, two addresses with
    the same home and the same linear address are the same address, so that the
    set selection of a distributed cache does not merge addresses. *)
Theorem home_lookup_injective p cores bs a addr addr' :
  AddressHomeLookup_new p cores bs = Ok a → 0 ≤ p → 0 ≤ bs < 2 ^ 31 →
  0 < Z.of_nat (length cores) < 2 ^ 31 → NoDup cores → in_u64 addr → in_u64 addr' →
  (∃ core, getHome a addr = Ok core ∧
     cores !! Z.to_nat ((addr / 2 ^ p) mod Z.of_nat (length cores)) = Some core) ∧
  (getHome a addr = getHome a addr' → getLinearAddress a addr = getLinearAddress a addr' → addr = addr').
Proof.
  intros Hnew Hp Hbs Hc Hnd Ha Ha'.
  destruct (AddressHomeLookup_new_wf p cores bs a Hnew Hp Hbs Hc) as (Hwf & _ & Hl).
  pose proof (AddressHomeLookup_new_param p cores bs a Hnew) as Hpa.
  assert (Hhome : ∀ x, in_u64 x → ∃ core, getHome a x = Ok core ∧ cores !! Z.to_nat (ahl_module a x) = Some core).
  { intros x Hx. rewrite getHome_eq by done. rewrite Hl. pose proof Hwf as (_ & _ & Ht & Hm & _). rewrite Hl in Ht.
    assert (Hr : 0 ≤ ahl_module a x < m_total_modules a) by (apply Z.mod_pos_bound; lia).
    destruct (rd_lt cores (Z.to_nat (ahl_module a x)) ltac:(lia)) as (c & Hlk & ->). by exists c. }
  split.
  - destruct (Hhome addr Ha) as (core & Hg & Hlk). exists core. split; [done|].
    unfold ahl_module in Hlk. rewrite Hpa in Hlk. pose proof Hwf as (_ & _ & Ht & _). rewrite Hl in Ht. by rewrite Ht in Hlk.
  - intros Hh. apply linear_address_inj; [done..|]. destruct (Hhome addr Ha) as (c & Hg & Hlk), (Hhome addr' Ha') as (c' & Hg' & Hlk').
    rewrite Hg, Hg' in Hh. injection Hh as <-. pose proof (NoDup_lookup _ _ _ _ Hnd Hlk Hlk') as He.
    pose proof Hwf as (_ & _ & _ & Hm & _).
    pose proof (Z.mod_pos_bound (addr / 2 ^ m_ahl_param a) (m_total_modules a) ltac:(lia)).
    pose proof (Z.mod_pos_bound (addr' / 2 ^ m_ahl_param a) (m_total_modules a) ltac:(lia)).
    unfold ahl_module in *. lia.
Qed.

Lemma home_lookup_injective_witness :
  (∃ core, getHome (mkAHL 6 63 [0; 4; 8] 3 64) 4096 = Ok core ∧ [0; 4; 8] !! 1%nat = Some core) ∧
  (getHome (mkAHL 6 63 [0; 4; 8] 3 64) 4096 = getHome (mkAHL 6 63 [0; 4; 8] 3 64) 4288 →
   getLinearAddress (mkAHL 6 63 [0; 4; 8] 3 64) 4096 = getLinearAddress (mkAHL 6 63 [0; 4; 8] 3 64) 4288 → 4096 = 4288).
Proof.
  apply (home_lookup_injective 6 [0; 4; 8] 64 (mkAHL 6 63 [0; 4; 8] 3 64) 4096 4288);
    [reflexivity|lia|lia|simpl; lia| |unfold in_u64; lia|unfold in_u64; lia].
  apply (bool_decide_unpack _). vm_compute. exact I.
Defined.

(** C13: [splitAddress] of a cache that the constructor built without a home
    lookup. With every hash function (mask and XOR on a power of two sets, the
    Mersenne hash on at least two) the set index is below the number of sets;
    two addresses with the same tag have the same set; and for a power-of-two
    block size tag and offset give back the address. *)
Theorem splitAddress_correct num_sets assoc bs hash c addr :
  CacheBase_new num_sets assoc bs hash None = Ok c →
  0 < num_sets < 2 ^ 32 → 0 < bs < 2 ^ 31 → hash_ok c → in_u64 addr →
  ∃ tag i,
    splitAddress c addr = Ok (tag, i) ∧ 0 ≤ i < num_sets ∧
    (∀ addr' tag' i', in_u64 addr' → splitAddress c addr' = Ok (tag', i') → tag' = tag → i' = i) ∧
    (bs = 2 ^ Z.log2 bs → ∃ off aligned,
       splitAddress_offset c addr = Ok (tag, i, off) ∧ tagToAddress c tag = Ok aligned ∧
       0 ≤ off < bs ∧ aligned + off = addr).
Proof.
  intros Hnew Hn Hb Hh Ha.
  destruct (CacheBase_new_wf num_sets assoc bs hash None c Hnew Hn Hb ltac:(done))
    as (Hwf & Hns & Hbs & _ & _).
  destruct (splitAddress_ok c addr Hwf Hh Ha) as (i & Hsp & Hi & Hhome).
  exists (addr / 2 ^ cb_log_blocksize c), i. split; [done|]. split; [lia|].
  pose proof Hwf as (_ & _ & Hlb & _). pose proof (log2_lt_32 bs ltac:(lia)) as Hl.
  assert (Hpow : 0 < 2 ^ Z.log2 bs) by (apply Z.pow_pos_nonneg; lia). split.
  - intros addr' tag' i' Ha' Hsp' ->.
    destruct (splitAddress_ok c addr' Hwf Hh Ha') as (i'' & Hsp'' & Hi'' & Hhome'').
    assert (addr' / 2 ^ cb_log_blocksize c = addr / 2 ^ cb_log_blocksize c ∧ i'' = i') as [Ht ->]
      by (rewrite Hsp'' in Hsp'; by simplify_eq).
    rewrite Ht in Hhome''. lia.
  - intros Hp2. exists (addr mod bs), (addr / bs * bs). unfold splitAddress_offset.
    rewrite Hsp. simpl. rewrite Hlb, Hbs, <- Hp2. unfold in_u64 in Ha.
    rewrite land_pred_mod by lia. split; [done|].
    pose proof (Z.mul_div_le addr bs ltac:(lia)). pose proof (Z.div_pos addr bs ltac:(lia) ltac:(lia)).
    split; [|split; [apply Z.mod_pos_bound; lia|]].
    + unfold tagToAddress, shl64. rewrite Hlb, Hbs, (proj2 (Z.ltb_lt _ _)) by lia.
      f_equal. rewrite u64_small_mul by (rewrite <- ?Hp2; lia). by rewrite <- Hp2.
    + pose proof (Z.div_mod addr bs ltac:(lia)). lia.
Qed.

Lemma splitAddress_correct_witness :
  ∃ tag i, splitAddress (mkCacheBase 49152 12 64 HASH_MOD 64 None 6 6) 123456 = Ok (tag, i) ∧ 0 ≤ i < 64.
Proof.
  destruct (splitAddress_correct 64 12 64 HASH_MOD (mkCacheBase 49152 12 64 HASH_MOD 64 None 6 6) 123456)
    as (tag & i & He & Hi & _); [reflexivity|lia|lia|done|unfold in_u64; lia|].
  by exists tag, i.
Defined.

(** the constructor accepts the XOR hash with a number of sets that is not
    a power of two, but then the set index can reach the number of sets: the
    array of sets is read out of bounds. *)
Theorem xor_hash_leaves_cache :
  ∃ c tag, CacheBase_new 3 1 64 HASH_XOR_MOD None = Ok c ∧
           splitAddress c 128 = Ok (tag, cb_num_sets c).
Proof. do 2 eexists. by split. Qed.
