(* ===== verification/CacheModel.v ===== *)
(** A cache: src/common/core/memory_subsystem/cache/cache.{h,cc}.

    The abstract state of a cache is the finite map from the tags of its valid
    lines to the lines; the theorems show that each operation of the class
    implements the corresponding operation on the map, and that the invariant
    of the representation (every line in its home set, no tag twice) holds of
    a new cache and is kept. *)
From S2P Require Import Prelude Utils CacheBlock LruPolicies OtherPolicies FaultInjection CacheSet Address.

Inductive Access : Type :=
| LOAD (buff : bool)
| STORE (buff : option (list Z)).

Record Cache (P : Type) : Type := mkCache {
  c_base : CacheBase;
  m_enabled : bool;
  m_num_accesses : Z;
  m_num_hits : Z;
  m_cache_type : cache_t;
  m_sets : list (CacheSet P);
  m_set_info : Shared;
  m_fault_injector : option FaultInjector
}.
Arguments mkCache {P} _ _ _ _ _ _ _ _.
Arguments c_base {P} _.
Arguments m_enabled {P} _.
Arguments m_num_accesses {P} _.
Arguments m_num_hits {P} _.
Arguments m_cache_type {P} _.
Arguments m_sets {P} _.
Arguments m_set_info {P} _.
Arguments m_fault_injector {P} _.

(** The loop of the constructor, from set [i] on; [time i] is the clock when
    set [i] is built. *)
Fixpoint create_sets (replacement_policy : string) (cache_type : cache_t) (associativity : nat)
    (blocksize : Z) (faultinjection : bool) (cfg : PolicyCfg) (time : nat → Z) (n i : nat) :
    res (list (CacheSet AnyPolicy)) :=
  match n with
  | O => Ok []
  | S n =>
      let? s := createCacheSet replacement_policy cache_type associativity blocksize faultinjection
                  (mkPolicyCfg (cfg_qbs_attempts cfg) (cfg_srrip_bits cfg) (time i)) in
      let? l := create_sets replacement_policy cache_type associativity blocksize faultinjection
                  cfg time n (S i) in
      Ok (s :: l)
  end.

Definition Cache_new (num_sets : Z) (associativity : nat) (cache_block_size : Z)
    (replacement_policy : string) (cache_type : cache_t) (hash : hash_t)
    (faultinjection : bool) (fault_injector : option FaultInjector)
    (ahl : option AddressHomeLookup) (cfg : PolicyCfg) (time : nat → Z) : res (Cache AnyPolicy) :=
  let? base := CacheBase_new num_sets associativity cache_block_size hash ahl in
  let? info := createCacheSetInfo replacement_policy associativity cfg in
  let? sets := create_sets replacement_policy cache_type associativity cache_block_size
                 faultinjection cfg time (Z.to_nat num_sets) 0 in
  Ok (mkCache base false 0 0 cache_type sets (mkShared info 0) fault_injector).

Section Ops.
Context {P : Type} `{Policy P}.

Definition put_set (i : nat) (s : CacheSet P) (sh : Shared) (c : Cache P) : res (Cache P) :=
  let? sets := wr (m_sets c) i s in
  Ok (mkCache (c_base c) (m_enabled c) (m_num_accesses c) (m_num_hits c) (m_cache_type c)
        sets sh (m_fault_injector c)).
Definition set_injector (fi : option FaultInjector) (c : Cache P) : Cache P :=
  mkCache (c_base c) (m_enabled c) (m_num_accesses c) (m_num_hits c) (m_cache_type c)
    (m_sets c) (m_set_info c) fi.

Definition invalidateSingleLine (addr : Z) (c : Cache P) : res (bool * Cache P) :=
  let? ts := splitAddress (c_base c) addr in
  c_assert (ts.2 <? cb_num_sets (c_base c))%Z;?
  let i := Z.to_nat ts.2 in
  let? s := rd (m_sets c) i in
  let? r := set_invalidate ts.1 s in
  let? c := put_set i r.2 (m_set_info c) c in
  Ok (r.1, c).

(** The result is the set and way of the line, if it is there, and the bytes
    that a load copies out. *)
Definition accessSingleLine (addr : Z) (access_type : Access) (bytes : Z)
    (update_replacement : bool) (c : Cache P) :
    res (option (nat * nat) * option (list Z) * Cache P) :=
  let? tso := splitAddress_offset (c_base c) addr in
  let '(tag, set_index, block_offset) := tso in
  let i := Z.to_nat set_index in
  let? s := rd (m_sets c) i in
  let? r := find tag s in
  match r with
  | None => Ok (None, None, c)
  | Some line_index =>
      match access_type with
      | LOAD buff =>
          let? fd :=
            match m_fault_injector c with
            | Some fi =>
                let? r := preRead fi bytes (default [] (m_blocks s))
                            (data_index s line_index block_offset) in
                Ok (Some r.1, set_data ((λ _, r.2) <$> m_blocks s) s)
            | None => Ok (None, s)
            end in
          let? r := read_line line_index block_offset buff bytes update_replacement fd.2 (m_set_info c) in
          let '(out, s, sh) := r in
          let? c := put_set i s sh (set_injector fd.1 c) in
          Ok (Some (i, line_index), out, c)
      | STORE buff =>
          let? r := write_line line_index block_offset buff bytes update_replacement s (m_set_info c) in
          let? c := put_set i r.1 r.2 (set_injector (postWrite <$> m_fault_injector c) c) in
          Ok (Some (i, line_index), None, c)
      end
  end.

(** [evict_info] is the object that the caller passes as [evict_block_info];
    it keeps its contents if nothing is evicted. *)
Definition insertSingleLine (addr : Z) (fill_buff : option (list Z)) (evict_info : BlockInfo)
    (want_evict_buff : bool) (cntlr : option (BlockInfo → bool)) (c : Cache P) :
    res (Inserted * Z * Cache P) :=
  let? ts := splitAddress (c_base c) addr in
  let i := Z.to_nat ts.2 in
  let? b := CacheBlockInfo_create (m_cache_type c) in
  let cache_block_info := map_base (setTag ts.1) b in
  let? s := rd (m_sets c) i in
  let? r := insert cache_block_info fill_buff evict_info want_evict_buff cntlr s (m_set_info c) in
  let '(ins, s, sh) := r in
  let? evict_addr := tagToAddress (c_base c) (getTag (evict_block_info ins)) in
  match m_fault_injector c with
  | Some fi =>
      let? f := find ts.1 s in
      log_assert (bool_decide (is_Some f)) "Inserted line no longer there?";?
      let? c := put_set i s sh (set_injector (Some (postWrite fi)) c) in
      Ok (ins, evict_addr, c)
  | None =>
      let? c := put_set i s sh c in
      Ok (ins, evict_addr, c)
  end.

Definition peekSingleLine (addr : Z) (c : Cache P) : res (option (nat * nat)) :=
  let? ts := splitAddress (c_base c) addr in
  let i := Z.to_nat ts.2 in
  let? s := rd (m_sets c) i in
  let? r := find ts.1 s in
  Ok ((λ way, (i, way)) <$> r).

Definition cache_peekBlock (set_index way : nat) (c : Cache P) : res BlockInfo :=
  let? s := rd (m_sets c) set_index in peekBlock way s.

(** A write through the pointer that [peekSingleLine] or [accessSingleLine]
    returned. *)
Definition updateBlock (loc : nat * nat) (f : CacheBlockInfo → CacheBlockInfo) (c : Cache P) :
    res (Cache P) :=
  let? s := rd (m_sets c) loc.1 in
  let? b := rd (m_cache_block_info_array s) loc.2 in
  let? l := wr (m_cache_block_info_array s) loc.2 (map_base f b) in
  put_set loc.1 (set_lines l s) (m_set_info c) c.

Definition updateCounters (cache_hit : bool) (c : Cache P) : Cache P :=
  if m_enabled c then
    mkCache (c_base c) (m_enabled c) (u64 (m_num_accesses c + 1))
      (if cache_hit then u64 (m_num_hits c + 1) else m_num_hits c)
      (m_cache_type c) (m_sets c) (m_set_info c) (m_fault_injector c)
  else c.

Definition updateHits (hits : Z) (c : Cache P) : Cache P :=
  if m_enabled c then
    mkCache (c_base c) (m_enabled c) (u64 (m_num_accesses c + hits)) (u64 (m_num_hits c + hits))
      (m_cache_type c) (m_sets c) (m_set_info c) (m_fault_injector c)
  else c.

Definition set_enabled (b : bool) (c : Cache P) : Cache P :=
  mkCache (c_base c) b (m_num_accesses c) (m_num_hits c) (m_cache_type c) (m_sets c)
    (m_set_info c) (m_fault_injector c).
End Ops.

(** * The abstract cache *)

Section Facts.
Context {P : Type} `{Policy P} {HOk : PolicyOk P} {HFrame : PolicyFrame P}.
Implicit Types (c : Cache P) (s : CacheSet P).

Definition cache_map c : gmap Z BlockInfo :=
  foldr (λ s m, contents s ∪ m) ∅ (m_sets c).

(** The tags of 64-bit addresses. *)
Definition tag_ok (base : CacheBase) (t : Z) : Prop :=
  (0 ≤ t ∧ t * 2 ^ cb_log_blocksize base < 2 ^ 64)%Z.

(** Every valid line is in the home set of its tag. *)
Definition homes (base : CacheBase) (sets : list (CacheSet P)) : Prop :=
  ∀ i s t b, sets !! i = Some s → contents s !! t = Some b → home_set base t = i ∧ tag_ok base t.

Definition sets_wf (base : CacheBase) (cls : BlockInfo) (sets : list (CacheSet P)) (sh : Shared) : Prop :=
  Forall (λ s, set_wf cls s sh ∧ m_associativity s = cb_associativity base ∧
               m_blocksize s = cb_blocksize base) sets.

Definition cache_wf (cls : BlockInfo) c : Prop :=
  cb_wf (c_base c) ∧ hash_ok (c_base c) ∧ (2 ≤ cb_blocksize (c_base c))%Z ∧
  Z.of_nat (length (m_sets c)) = cb_num_sets (c_base c) ∧
  CacheBlockInfo_create (m_cache_type c) = Ok cls ∧
  sets_wf (c_base c) cls (m_sets c) (m_set_info c) ∧ homes (c_base c) (m_sets c) ∧
  (is_Some (m_fault_injector c) → Forall (λ s, is_Some (m_blocks s)) (m_sets c)).

(** The tag of an address. *)
Definition tag_of c (addr : Z) : Z := (addr / 2 ^ cb_log_blocksize (c_base c))%Z.

Lemma foldr_contents_lookup (sets : list (CacheSet P)) home off t :
  (∀ i s b, sets !! i = Some s → contents s !! t = Some b → home = off + i) →
  foldr (λ s m, contents s ∪ m) ∅ sets !! t
  = (if decide (off ≤ home) then s ← sets !! (home - off); contents s !! t else None).
Proof.
  revert off. induction sets as [|s sets IH]; intros off Hh; simpl.
  - rewrite lookup_empty. by case_decide.
  - assert (IH' := IH (S off)). rewrite lookup_union, IH'; clear IH IH'.
    2:{ intros i s' b Hi Hb. rewrite (Hh (S i) s' b Hi Hb). lia. }
    destruct (contents s !! t) as [b|] eqn:Hb.
    + assert (home = off) as -> by (rewrite (Hh 0 s b eq_refl Hb); lia).
      rewrite decide_False, decide_True by lia. rewrite Nat.sub_diag. simpl. rewrite Hb. by destruct (_ !! t).
    + rewrite option_union_left_id. destruct (decide (home = off)) as [->|Hne].
      * rewrite decide_False, decide_True by lia. rewrite Nat.sub_diag. by simpl.
      * case_decide; [|by rewrite decide_False by lia].
        rewrite decide_True by lia. by replace (home - off) with (S (home - S off)) by lia.
Qed.

Lemma cache_map_lookup c t :
  homes (c_base c) (m_sets c) →
  cache_map c !! t = (s ← m_sets c !! home_set (c_base c) t; contents s !! t).
Proof.
  intros Hh. unfold cache_map.
  rewrite (foldr_contents_lookup _ (home_set (c_base c) t) 0).
  - rewrite decide_True by lia. by rewrite Nat.sub_0_r.
  - intros i s b Hi Hb. by destruct (Hh i s t b Hi Hb) as [-> _].
Qed.

(** Splitting an address finds the home set of its tag. *)
Lemma split_cache cls c addr :
  cache_wf cls c → in_u64 addr →
  ∃ i s, splitAddress (c_base c) addr = Ok (tag_of c addr, i) ∧
    (i <? cb_num_sets (c_base c))%Z = true ∧ Z.to_nat i = home_set (c_base c) (tag_of c addr) ∧
    m_sets c !! home_set (c_base c) (tag_of c addr) = Some s ∧
    set_wf cls s (m_set_info c) ∧ m_associativity s = cb_associativity (c_base c) ∧
    m_blocksize s = cb_blocksize (c_base c) ∧ tag_of c addr ≠ INVALID_TAG ∧
    tag_ok (c_base c) (tag_of c addr) ∧
    cache_map c !! tag_of c addr = contents s !! tag_of c addr.
Proof.
  intros (Hb & Hh & Hbs & Hlen & Hcls & Hsets & Hhomes & Hfi) Ha.
  destruct (splitAddress_ok (c_base c) addr Hb Hh Ha) as (i & Hi & Hr & Hhome).
  destruct (lookup_lt_is_Some_2 (m_sets c) (Z.to_nat i)) as [s Hs]; [lia|].
  exists i, s. fold (tag_of c addr) in *. split; [done|]. split; [apply Z.ltb_lt; lia|].
  split; [done|]. rewrite <- Hhome. split; [done|].
  destruct (Forall_lookup_1 _ _ _ _ Hsets Hs) as (Hwf & Has & Hbl). do 3 (split; [done|]). split; [|split].
  - unfold tag_of, INVALID_TAG. destruct Hb as (_ & Hb & -> & _).
    assert (Hl : (1 ≤ Z.log2 (cb_blocksize (c_base c)))%Z) by (apply Z.log2_le_pow2; simpl; lia).
    assert (2 ^ 1 ≤ 2 ^ Z.log2 (cb_blocksize (c_base c)))%Z by (apply Z.pow_le_mono_r; lia).
    unfold in_u64 in Ha.
    assert (addr / 2 ^ Z.log2 (cb_blocksize (c_base c)) < 2 ^ 63)%Z; [|lia].
    apply Z.div_lt_upper_bound; nia.
  - unfold tag_ok, tag_of. destruct Hb as (_ & Hb & -> & _). unfold in_u64 in Ha.
    pose proof (Z.log2_nonneg (cb_blocksize (c_base c))).
    assert (0 < 2 ^ Z.log2 (cb_blocksize (c_base c)))%Z by (apply Z.pow_pos_nonneg; lia).
    pose proof (Z.mul_div_le addr (2 ^ Z.log2 (cb_blocksize (c_base c)))).
    split; [apply Z.div_pos; lia|lia].
  - rewrite cache_map_lookup by done. by rewrite <- Hhome, Hs.
Qed.

(** Replacing the home set of a tag by one whose contents differ at most at
    tags that live there. *)
Lemma put_set_ok cls c i s s' sh' fi :
  cache_wf cls c → m_sets c !! i = Some s →
  set_wf cls s' sh' → m_associativity s' = m_associativity s → m_blocksize s' = m_blocksize s →
  same_shape (sh_info (m_set_info c)) (sh_info sh') →
  (∀ t b, contents s' !! t = Some b → home_set (c_base c) t = i ∧ tag_ok (c_base c) t) →
  (is_Some (m_blocks s) → is_Some (m_blocks s')) → (is_Some fi → is_Some (m_fault_injector c)) →
  ∃ c', put_set i s' sh' (set_injector fi c) = Ok c' ∧ cache_wf cls c' ∧ c_base c' = c_base c ∧
        m_sets c' = <[i := s']> (m_sets c) ∧
        (∀ t, home_set (c_base c) t = i → cache_map c' !! t = contents s' !! t) ∧
        (∀ t, home_set (c_base c) t ≠ i → cache_map c' !! t = cache_map c !! t).
Proof.
  intros (Hb & Hh & Hbs & Hlen & Hcls & Hsets & Hhomes & Hfi) Hs Hwf Has Hbl Hsh Ht Hd Hfi'.
  assert (Hi : i < length (m_sets c)) by (by eapply lookup_lt_Some).
  unfold put_set. simpl. rewrite wr_lt by done. simpl. eexists. split; [done|].
  assert (Hhomes' : homes (c_base c) (<[i:=s']> (m_sets c))).
  { intros j s1 t b Hj Hc. destruct (decide (j = i)) as [->|Hne].
    - rewrite list_lookup_insert_eq in Hj by done. simplify_eq. by eapply Ht.
    - rewrite list_lookup_insert_ne in Hj by done. by eapply Hhomes. }
  split; [|split; [done|split; [done|split]]].
  - split; [done|]. split; [done|]. split; [done|]. simpl. rewrite length_insert.
    split; [done|]. split; [done|]. split; [|split; [done|]].
    2:{ intros Hx. specialize (Hfi (Hfi' Hx)). apply Forall_insert; [done|].
        apply Hd. by apply (Forall_lookup_1 _ _ _ _ Hfi Hs). }
    apply Forall_insert; [|simpl; destruct (Forall_lookup_1 _ _ _ _ Hsets Hs) as (_ & ? & ?); naive_solver congruence].
    eapply Forall_impl; [exact Hsets|]. intros x (Hx & ?). split; [|done].
    by eapply set_wf_frame.
  - intros t Hti. rewrite cache_map_lookup by done. simpl. rewrite Hti.
    by rewrite list_lookup_insert_eq.
  - intros t Hti. rewrite !cache_map_lookup by done. simpl.
    by rewrite list_lookup_insert_ne by done.
Qed.

Lemma set_injector_id c : set_injector (m_fault_injector c) c = c.
Proof. by destruct c. Qed.

Lemma put_set_ok' cls c i s s' sh' :
  cache_wf cls c → m_sets c !! i = Some s →
  set_wf cls s' sh' → m_associativity s' = m_associativity s → m_blocksize s' = m_blocksize s →
  same_shape (sh_info (m_set_info c)) (sh_info sh') →
  (∀ t b, contents s' !! t = Some b → home_set (c_base c) t = i ∧ tag_ok (c_base c) t) →
  (is_Some (m_blocks s) → is_Some (m_blocks s')) →
  ∃ c', put_set i s' sh' c = Ok c' ∧ cache_wf cls c' ∧ c_base c' = c_base c ∧
        m_sets c' = <[i := s']> (m_sets c) ∧
        (∀ t, home_set (c_base c) t = i → cache_map c' !! t = contents s' !! t) ∧
        (∀ t, home_set (c_base c) t ≠ i → cache_map c' !! t = cache_map c !! t).
Proof.
  intros. change (put_set i s' sh' c) with (put_set i s' sh' (set_injector (m_fault_injector c) c)).
  by eapply put_set_ok.
Qed.

Lemma set_homes cls c i s t b :
  cache_wf cls c → m_sets c !! i = Some s → contents s !! t = Some b →
  home_set (c_base c) t = i ∧ tag_ok (c_base c) t.
Proof. intros (_ & _ & _ & _ & _ & _ & Hh & _). apply Hh. Qed.

Lemma set_map cls c i s t :
  cache_wf cls c → m_sets c !! i = Some s → home_set (c_base c) t = i →
  cache_map c !! t = contents s !! t.
Proof.
  intros (_ & _ & _ & _ & _ & _ & Hh & _) Hs <-. rewrite cache_map_lookup by done.
  by rewrite Hs.
Qed.

Lemma invalidate_cache cls c addr :
  cache_wf cls c → in_u64 addr →
  ∃ c', invalidateSingleLine addr c
        = Ok (bool_decide (is_Some (cache_map c !! tag_of c addr)), c') ∧
        cache_wf cls c' ∧ c_base c' = c_base c ∧
        cache_map c' = delete (tag_of c addr) (cache_map c).
Proof.
  intros Hwf Ha.
  destruct (split_cache cls c addr Hwf Ha) as (i & s & Hsp & Hlt & Hi & Hs & Hset & Has & Hbl & Ht & _ & Hm).
  unfold invalidateSingleLine. rewrite Hsp. simpl. rewrite Hlt. simpl. rewrite Hi.
  rewrite (proj2 (rd_Ok _ _ _) Hs). simpl.
  destruct (invalidate_ok cls s (m_set_info c) (tag_of c addr) Hset Ht) as (s' & He & Hset' & Hc).
  assert (Hs' : ∃ l, s' = set_lines l s).
  { unfold set_invalidate in He. apply res_bind_Ok in He as ([w|] & _ & He).
    - apply res_bind_Ok in He as (b & _ & He). apply res_bind_Ok in He as (l & _ & [= _ <-]).
      by exists l.
    - injection He as _ <-. exists (m_cache_block_info_array s). by destruct s. }
  destruct Hs' as [l ->].
  rewrite He. simpl.
  destruct (put_set_ok' cls c (home_set (c_base c) (tag_of c addr)) s (set_lines l s) (m_set_info c))
    as (c' & -> & Hwf' & Hb' & _ & Hin & Hout); [done..| |done|].
  { intros t b Hb. rewrite Hc in Hb. apply lookup_delete_Some in Hb as [_ Hb]. by eapply set_homes. }
  simpl. rewrite Hm. exists c'. split; [done|]. split; [done|]. split; [done|].
  apply map_eq. intros t.
  destruct (decide (home_set (c_base c) t = home_set (c_base c) (tag_of c addr))) as [He'|Hne].
  - rewrite Hin, Hc by done. destruct (decide (t = tag_of c addr)) as [->|].
    + by rewrite !lookup_delete_eq.
    + rewrite !lookup_delete_ne by done. by rewrite (set_map cls c _ s t Hwf Hs He').
  - rewrite Hout by done. rewrite lookup_delete_ne; [done|]. by intros <-.
Qed.

Lemma peek_cache cls c addr :
  cache_wf cls c → in_u64 addr →
  ∃ r, peekSingleLine addr c = Ok r ∧
    match r with
    | Some (i, way) => ∃ b, cache_peekBlock i way c = Ok b ∧ cache_map c !! tag_of c addr = Some b ∧
                            i = home_set (c_base c) (tag_of c addr)
    | None => cache_map c !! tag_of c addr = None
    end.
Proof.
  intros Hwf Ha.
  destruct (split_cache cls c addr Hwf Ha) as (i & s & Hsp & Hlt & Hi & Hs & Hset & Has & Hbl & Ht & _ & Hm).
  unfold peekSingleLine. rewrite Hsp. simpl. rewrite Hi, (proj2 (rd_Ok _ _ _) Hs). simpl.
  destruct (find_ok cls s (m_set_info c) (tag_of c addr) Hset Ht) as (r & -> & Hr). simpl.
  eexists. split; [done|]. rewrite Hm. destruct r as [w|]; simpl; [|done].
  destruct Hr as (b & Hb & Hc). exists b. unfold cache_peekBlock.
  rewrite (proj2 (rd_Ok _ _ _) Hs). simpl. unfold peekBlock. by rewrite (proj2 (rd_Ok _ _ _) Hb).
Qed.

(** ** Hits *)

(** The part of a line that an access touches. *)
Definition access_ok c (addr bytes : Z) : Prop :=
  (0 < bytes ∧ Z.land addr (u32 (cb_blocksize (c_base c) - 1)) + bytes ≤ cb_blocksize (c_base c))%Z.

Lemma access_in_line cls c s addr bytes :
  cache_wf cls c → m_blocksize s = cb_blocksize (c_base c) → in_u64 addr → access_ok c addr bytes →
  in_line s (Z.land addr (u32 (cb_blocksize (c_base c) - 1))) bytes.
Proof.
  intros ((_ & Hb & _) & _) Hs Ha [H1 H2]. unfold in_line. rewrite Hs.
  split; [|lia]. apply Z.land_nonneg. left. unfold in_u64 in Ha. lia.
Qed.

Lemma set_injector_wf cls c fi :
  cache_wf cls c → (is_Some fi → is_Some (m_fault_injector c)) → cache_wf cls (set_injector fi c).
Proof.
  intros (? & ? & ? & ? & ? & ? & ? & Hfi) Hf. do 7 (split; [done|]). auto.
Qed.

(** The update of a set that keeps its lines keeps the map. *)
Lemma put_same_lines cls c i s s' sh' fi :
  cache_wf cls c → m_sets c !! i = Some s → set_wf cls s' sh' →
  m_cache_block_info_array s' = m_cache_block_info_array s →
  m_associativity s' = m_associativity s → m_blocksize s' = m_blocksize s →
  (is_Some (m_blocks s) → is_Some (m_blocks s')) →
  same_shape (sh_info (m_set_info c)) (sh_info sh') → (is_Some fi → is_Some (m_fault_injector c)) →
  ∃ c', put_set i s' sh' (set_injector fi c) = Ok c' ∧ cache_wf cls c' ∧ c_base c' = c_base c ∧
        m_sets c' = <[i := s']> (m_sets c) ∧ cache_map c' = cache_map c.
Proof.
  intros Hwf Hs Hset Hl Has Hbl Hd Hsh Hfi.
  assert (Hc : contents s' = contents s) by (unfold contents; by rewrite Hl).
  destruct (put_set_ok cls c i s s' sh' fi) as (c' & He & Hwf' & Hb & Hsets & Hin & Hout); [done..| |done|done|].
  { intros t b Hb. rewrite Hc in Hb. by eapply set_homes. }
  exists c'. do 4 (split; [done|]). apply map_eq. intros t.
  destruct (decide (home_set (c_base c) t = i)) as [Ht|Ht]; [|by apply Hout].
  rewrite Hin, Hc by done. symmetry. by eapply set_map.
Qed.

Lemma preRead_set cls s sh fi w off bytes :
  set_wf cls s sh → w < m_associativity s → in_line s off bytes → (0 < bytes)%Z →
  is_Some (m_blocks s) →
  ∃ fi' d, preRead fi bytes (default [] (m_blocks s)) (data_index s w off) = Ok (fi', d) ∧
           set_wf cls (set_data ((λ _, d) <$> m_blocks s) s) sh.
Proof.
  intros Hwf Hw (Ho & Hn & Hle & Hbs) Hpos [d Hd]. rewrite Hd. simpl.
  pose proof Hwf as (_ & _ & _ & _ & Hb0 & Hdw).
  destruct (data_index_ok s d w off bytes) as [Hidx Hl]; [done..|].
  destruct (preRead_ok fi bytes d (data_index s w off)) as (fi' & d' & He & Hlen & _);
    [rewrite Hidx; nia|lia|done|].
  exists fi', d'. split; [done|]. by eapply set_wf_data.
Qed.

(** A hit at way [w] of set [s]. *)
Lemma load_hit cls c i s w off buff bytes upd :
  cache_wf cls c → m_sets c !! i = Some s → w < m_associativity s → in_line s off bytes →
  (0 < bytes)%Z →
  ∃ out c',
    (let? fd :=
       match m_fault_injector c with
       | Some fi =>
           let? r := preRead fi bytes (default [] (m_blocks s)) (data_index s w off) in
           Ok (Some r.1, set_data ((λ _, r.2) <$> m_blocks s) s)
       | None => Ok (None, s)
       end in
     let? r := read_line w off buff bytes upd fd.2 (m_set_info c) in
     let '(out, s, sh) := r in
     let? c := put_set i s sh (set_injector fd.1 c) in
     Ok (Some (i, w), out, c)) = Ok (Some (i, w), out, c') ∧
    cache_wf cls c' ∧ c_base c' = c_base c ∧ cache_map c' = cache_map c.
Proof.
  intros Hwf Hs Hw Hin Hpos.
  pose proof Hwf as (_ & _ & _ & _ & _ & Hsets & _ & Hdata).
  destruct (Forall_lookup_1 _ _ _ _ Hsets Hs) as (Hset & _).
  assert (Hfd : ∃ fi d, match m_fault_injector c with
    | Some fi =>
        let? r := preRead fi bytes (default [] (m_blocks s)) (data_index s w off) in
        Ok (Some r.1, set_data ((λ _, r.2) <$> m_blocks s) s)
    | None => Ok (None, s) end = Ok (fi, set_data d s) ∧ set_wf cls (set_data d s) (m_set_info c) ∧
    (is_Some fi → is_Some (m_fault_injector c)) ∧ (is_Some (m_blocks s) → is_Some d)).
  { destruct (m_fault_injector c) as [fi|].
    - pose proof (Forall_lookup_1 _ _ _ _ (Hdata ltac:(by eexists)) Hs) as Hsd.
      destruct (preRead_set cls s (m_set_info c) fi w _ bytes Hset Hw Hin Hpos Hsd)
        as (fi' & d & -> & Hset'). simpl. do 2 eexists. split; [done|]. split; [done|].
      split; [by eexists|]. intros [? ->]. by eexists.
    - exists None, (m_blocks s). by destruct s. }
  destruct Hfd as (fi & d & -> & Hset' & Hfi & Hd). simpl.
  destruct (read_line_ok cls (set_data d s) (m_set_info c) w off buff bytes upd)
    as (p & sh' & -> & Hset2 & Hsh); [done..|]. simpl.
  destruct (put_same_lines cls c i s (set_policy p (set_data d s)) sh' fi)
    as (c' & -> & Hwf' & Hb' & _ & Hmap); [done..|]. simpl. by do 2 eexists.
Qed.

Lemma store_hit cls c i s w off buff bytes upd :
  cache_wf cls c → m_sets c !! i = Some s → w < m_associativity s → in_line s off bytes →
  (∀ b, buff = Some b → bytes ≤ Z.of_nat (length b))%Z →
  ∃ c',
    (let? r := write_line w off buff bytes upd s (m_set_info c) in
     let? c := put_set i r.1 r.2 (set_injector (postWrite <$> m_fault_injector c) c) in
     Ok (Some (i, w), @None (list Z), c)) = Ok (Some (i, w), None, c') ∧
    cache_wf cls c' ∧ c_base c' = c_base c ∧ cache_map c' = cache_map c.
Proof.
  intros Hwf Hs Hw Hin Hbuff.
  pose proof Hwf as (_ & _ & _ & _ & _ & Hsets & _ & _).
  destruct (Forall_lookup_1 _ _ _ _ Hsets Hs) as (Hset & _).
  destruct (write_line_ok cls s (m_set_info c) w off buff bytes upd)
    as (d & p & sh' & -> & Hset2 & Hsh & Hd & _); [done..|]. simpl.
  destruct (put_same_lines cls c i s (set_policy p (set_data d s)) sh' (postWrite <$> m_fault_injector c))
    as (c' & -> & Hwf' & Hb' & _ & Hmap); [done..|by rewrite fmap_is_Some|]. simpl. by eexists.
Qed.

Lemma access_cache cls c addr acc bytes upd :
  cache_wf cls c → in_u64 addr → access_ok c addr bytes →
  (∀ buff, acc = STORE (Some buff) → bytes ≤ Z.of_nat (length buff))%Z →
  ∃ loc out c', accessSingleLine addr acc bytes upd c = Ok (loc, out, c') ∧
    cache_wf cls c' ∧ c_base c' = c_base c ∧ cache_map c' = cache_map c ∧
    (is_Some loc ↔ is_Some (cache_map c !! tag_of c addr)).
Proof.
  intros Hwf Ha Hacc Hbuff.
  destruct (split_cache cls c addr Hwf Ha) as (i & s & Hsp & Hlt & Hi & Hs & Hset & Has & Hbl & Ht & _ & Hm).
  pose proof (access_in_line cls c s addr bytes Hwf Hbl Ha Hacc) as Hin.
  unfold accessSingleLine, splitAddress_offset. rewrite Hsp. simpl.
  rewrite Hi, (proj2 (rd_Ok _ _ _) Hs). simpl.
  destruct (find_ok cls s (m_set_info c) (tag_of c addr) Hset Ht) as (r & -> & Hr). simpl.
  rewrite Hm. destruct r as [w|].
  2:{ do 3 eexists. split; [done|]. do 3 (split; [done|]). rewrite Hr. by split; intros [? ?]. }
  destruct Hr as (b & Hb & Hc). rewrite Hc.
  assert (Hw : w < m_associativity s).
  { apply lookup_lt_Some in Hb. destruct Hset as [[Hl _] _]. simpl in Hl. lia. }
  destruct acc as [buff|buff].
  - destruct (load_hit cls c _ s w _ buff bytes upd Hwf Hs Hw Hin (proj1 Hacc))
      as (out & c' & -> & Hrest). do 3 eexists. split; [done|]. naive_solver.
  - destruct (store_hit cls c _ s w _ buff bytes upd Hwf Hs Hw Hin)
      as (c' & -> & Hrest); [by intros ? ->; apply Hbuff|].
    do 3 eexists. split; [done|]. naive_solver.
Qed.

(** ** Insertion *)

Definition settled c : Prop := Forall (λ s, Forall replaceable (m_cache_block_info_array s)) (m_sets c).

Lemma create_base t cls :
  CacheBlockInfo_create t = Ok cls → isValid cls = false ∧ getCState cls = CacheState.INVALID.
Proof. by destruct t; intros [= <-]. Qed.

Definition new_line (cls : BlockInfo) (t : Z) : BlockInfo := map_base (setTag t) cls.

Lemma new_line_tag cls t : getTag (new_line cls t) = t.
Proof. by destruct cls. Qed.
Lemma new_line_state cls t : getCState (new_line cls t) = getCState cls.
Proof. by destruct cls. Qed.

(** What an insertion does to the map: the line [old] left it, if it was valid. *)
Definition inserted (old : BlockInfo) (new : BlockInfo) (m : gmap Z BlockInfo) : gmap Z BlockInfo :=
  <[getTag new := new]> (if isValid old then delete (getTag old) m else m).

Lemma valid_line_contents cls s sh w b :
  set_wf cls s sh → m_cache_block_info_array s !! w = Some b → isValid b = true →
  contents s !! getTag b = Some b.
Proof.
  intros (_ & _ & _ & Hu & _) Hb Hv. apply line_map_Some; [done|].
  split; [by eapply list_elem_of_lookup_2|done].
Qed.

(** The insertion into a set is the insertion into the map. *)
Lemma insert_set_map cls c c' s s' sh w i old new :
  cache_wf cls c → m_sets c !! i = Some s → set_wf cls s sh →
  m_cache_block_info_array s !! w = Some old → home_set (c_base c) (getTag new) = i →
  contents s' = <[getTag new := new]> (without old s) →
  (∀ t, home_set (c_base c) t = i → cache_map c' !! t = contents s' !! t) →
  (∀ t, home_set (c_base c) t ≠ i → cache_map c' !! t = cache_map c !! t) →
  cache_map c' = inserted old new (cache_map c).
Proof.
  intros Hwf Hs Hset Hold Hnew Hcont Hin Hout. apply map_eq. intros t. unfold inserted.
  destruct (decide (home_set (c_base c) t = i)) as [Ht|Ht].
  - rewrite Hin, Hcont by done. unfold without.
    destruct (decide (t = getTag new)) as [->|]; [by rewrite !lookup_insert_eq|].
    rewrite !lookup_insert_ne by done.
    destruct (isValid old); [|symmetry; by eapply set_map].
    destruct (decide (t = getTag old)) as [->|]; [by rewrite !lookup_delete_eq|].
    rewrite !lookup_delete_ne by done. symmetry. by eapply set_map.
  - rewrite Hout by done. rewrite lookup_insert_ne by (intros <-; done).
    destruct (isValid old) eqn:Hv; [|done]. rewrite lookup_delete_ne; [done|]. intros <-.
    apply Ht. pose proof (valid_line_contents _ _ _ _ _ Hset Hold Hv) as Hc.
    by apply (set_homes cls c i s _ _ Hwf Hs Hc).
Qed.

(** The members that [put_set] leaves alone, and the two ways to call it at the
    end of [insertSingleLine]. *)
Lemma finish_insert cls c i s s' sh' t ins :
  cache_wf cls c → m_sets c !! i = Some s → set_wf cls s' sh' →
  m_associativity s' = m_associativity s → m_blocksize s' = m_blocksize s →
  (is_Some (m_blocks s) → is_Some (m_blocks s')) →
  same_shape (sh_info (m_set_info c)) (sh_info sh') →
  (∀ t b, contents s' !! t = Some b → home_set (c_base c) t = i ∧ tag_ok (c_base c) t) →
  is_Some (contents s' !! t) → t ≠ INVALID_TAG →
  ∃ c', match m_fault_injector c with
        | Some fi =>
            let? f := find t s' in
            log_assert (bool_decide (is_Some f)) "Inserted line no longer there?";?
            let? c := put_set i s' sh' (set_injector (Some (postWrite fi)) c) in Ok (ins, c)
        | None => let? c := put_set i s' sh' c in Ok (ins, c)
        end = Ok (ins : Inserted * Z, c') ∧
    cache_wf cls c' ∧ c_base c' = c_base c ∧ m_sets c' = <[i := s']> (m_sets c) ∧
    (∀ t, home_set (c_base c) t = i → cache_map c' !! t = contents s' !! t) ∧
    (∀ t, home_set (c_base c) t ≠ i → cache_map c' !! t = cache_map c !! t).
Proof.
  intros Hwf Hs Hset Has Hbl Hd Hsh Hh Ht Hti. destruct (m_fault_injector c) as [fi|] eqn:Hfi.
  - destruct (find_ok cls s' sh' t Hset Hti) as (r & -> & Hr). simpl.
    destruct r as [w|]; [|by rewrite Hr in Ht; destruct Ht].
    destruct (put_set_ok cls c i s s' sh' (Some (postWrite fi))) as (c' & -> & Hrest);
      [done..|by rewrite Hfi|]. simpl. by exists c'.
  - destruct (put_set_ok' cls c i s s' sh') as (c' & -> & Hrest); [done..|]. simpl. by exists c'.
Qed.

Lemma inserted_homes c s i old new :
  (∀ t b, contents s !! t = Some b → home_set (c_base c) t = i ∧ tag_ok (c_base c) t) →
  home_set (c_base c) (getTag new) = i → tag_ok (c_base c) (getTag new) →
  ∀ t b, <[getTag new := new]> (without old s) !! t = Some b →
         home_set (c_base c) t = i ∧ tag_ok (c_base c) t.
Proof.
  intros Hh Hn Htok t b. rewrite lookup_insert_Some. intros [[<- _]|[_ Hb]]; [done|].
  unfold without in Hb. destruct (isValid old); [|by eapply Hh].
  apply lookup_delete_Some in Hb as [_ Hb]. by eapply Hh.
Qed.

Lemma insert_cache cls c addr fill_buff evict_info want cntlr :
  cache_wf cls c → settled c → in_u64 addr → cache_map c !! tag_of c addr = None →
  class_fits evict_info cls = true →
  (∀ buff, fill_buff = Some buff → cb_blocksize (c_base c) ≤ Z.of_nat (length buff))%Z →
  ∃ ins c' old ea,
    insertSingleLine addr fill_buff evict_info want (Some cntlr) c = Ok (ins, ea, c') ∧
    tagToAddress (c_base c) (getTag (evict_block_info ins)) = Ok ea ∧
    cache_wf cls c' ∧ c_base c' = c_base c ∧ settled c' ∧
    cache_map c' = inserted old (new_line cls (tag_of c addr)) (cache_map c) ∧
    eviction ins = isValid old ∧
    (if isValid old then cache_map c !! getTag old = Some old ∧ base (evict_block_info ins) = base old
     else evict_block_info ins = evict_info).
Proof.
  intros Hwf Hset0 Ha Hfree Hfit Hfill.
  destruct (split_cache cls c addr Hwf Ha)
    as (i & s & Hsp & Hlt & Hi & Hs & Hset & Has & Hbl & Ht & Htok & Hm).
  pose proof Hwf as (Hcb & _ & _ & _ & Hcls & _). destruct (create_base _ _ Hcls) as [Hcv Hcs].
  set (t := tag_of c addr) in *.
  pose proof (new_line_tag cls t) as Hnt. pose proof (new_line_state cls t) as Hns.
  assert (Hnc : same_class cls (new_line cls t) = true)
    by (unfold new_line; by rewrite same_class_map_base, same_class_refl).
  unfold insertSingleLine. rewrite Hsp. cbn [res_bind fst snd]. rewrite Hcls. cbn [res_bind].
  rewrite Hi, (proj2 (rd_Ok _ _ _) Hs). cbn [res_bind]. fold (new_line cls t).
  set (new := new_line cls t) in *. clearbody new.
  assert (Hnv : isValid new = true) by (apply isValid_spec; congruence).
  assert (Hrep : Forall replaceable (m_cache_block_info_array s))
    by apply (Forall_lookup_1 _ _ _ _ Hset0 Hs).
  destruct (insert_ok cls s (m_set_info c) new fill_buff evict_info want cntlr)
    as (ins & s' & sh' & w & old & -> & Hold & Hl' & Has' & Hbl' & Hd' & Hset' & Hsh & Hcont & Hev & Hins);
    [done|done|done|done|congruence|done|intros buff ->; rewrite Hbl; auto|].
  cbn [res_bind]. unfold tagToAddress, shl64.
  pose proof Hcb as (_ & Hbpos & Hlog & _). pose proof (log2_lt_32 (cb_blocksize (c_base c)) ltac:(lia)).
  rewrite (proj2 (Z.ltb_lt _ _)) by lia. cbn [res_bind]. set (ea := u64 _).
  destruct (finish_insert cls c _ s s' sh' t (ins, ea) Hwf Hs Hset' Has' Hbl' Hd' Hsh)
    as (c' & Hfin & Hwf' & Hbase & Hsets & Hin & Hout);
    [rewrite Hcont; apply inserted_homes; [intros ? ? ?; by eapply set_homes|congruence..]
    |rewrite Hcont, Hnt, lookup_insert_eq; by eexists|done|].
  exists ins, c', old, ea. split.
  { exact Hfin. }
  do 3 (split; [done|]). split; [|split; [|split; [done|]]].
  - unfold settled. rewrite Hsets. apply Forall_insert; [done|]. rewrite Hl'.
    apply Forall_insert; [done|]. unfold replaceable. rewrite Hns, Hcs. done.
  - by eapply insert_set_map; [| | | |rewrite Hnt|..].
  - destruct (isValid old) eqn:Hv; [|done]. split; [|done].
    pose proof (valid_line_contents _ _ _ _ _ Hset Hold Hv) as Hc.
    rewrite (set_map cls c _ s _ Hwf Hs); [done|]. by apply (set_homes cls c _ s _ _ Hwf Hs Hc).
Qed.

(** ** Writes through a line pointer *)

Lemma updateBlock_cache cls c addr i way b f :
  cache_wf cls c → in_u64 addr → peekSingleLine addr c = Ok (Some (i, way)) →
  cache_map c !! tag_of c addr = Some b → (∀ x, m_tag (f x) = m_tag x) →
  ∃ c', updateBlock (i, way) f c = Ok c' ∧ cache_wf cls c' ∧ c_base c' = c_base c ∧
        cache_map c' = <[tag_of c addr := map_base f b]> (cache_map c) ∧
        (settled c → replaceable (map_base f b) → settled c').
Proof.
  intros Hwf Ha Hpeek Hb Hf.
  destruct (split_cache cls c addr Hwf Ha)
    as (i' & s & Hsp & Hlt & Hi & Hs & Hset & Has & Hbl & Ht & Htok & Hm).
  unfold peekSingleLine in Hpeek. rewrite Hsp in Hpeek. simpl in Hpeek.
  rewrite Hi, (proj2 (rd_Ok _ _ _) Hs) in Hpeek. simpl in Hpeek.
  destruct (find_ok cls s (m_set_info c) (tag_of c addr) Hset Ht) as (r & Hr & Hrs).
  rewrite Hr in Hpeek. simpl in Hpeek. destruct r as [w|]; simplify_eq/=.
  destruct Hrs as (b' & Hw & Hcb). assert (b' = b) by congruence. subst b'.
  set (home := home_set (c_base c) (tag_of c addr)) in *.
  assert (Hbt : isValid b = true ∧ getTag b = tag_of c addr).
  { destruct Hset as (_ & _ & _ & Hu & _). by apply line_map_Some in Hcb as (_ & ? & ?). }
  destruct Hbt as [Hv Htag].
  assert (Hmt : getTag (map_base f b) = tag_of c addr) by (rewrite <- Htag; destruct b; apply Hf).
  assert (Hmv : isValid (map_base f b) = true) by (apply isValid_spec; by rewrite Hmt).
  unfold updateBlock. simpl. rewrite (proj2 (rd_Ok _ _ _) Hs). simpl.
  rewrite (proj2 (rd_Ok _ _ _) Hw). simpl. rewrite wr_lt by (by eapply lookup_lt_Some). simpl.
  destruct (replace_line cls s (m_set_info c) way b (map_base f b) Hset Hw) as [Hset' Hcont].
  { rewrite same_class_map_base. destruct Hset as (_ & _ & Hc & _).
    by apply (Forall_lookup_1 _ _ _ _ Hc Hw). }
  { intros _. unfold without. rewrite Hv, Htag, Hmt. apply lookup_delete_eq. }
  assert (Hcont' : contents (set_lines (<[way:=map_base f b]> (m_cache_block_info_array s)) s)
                   = <[tag_of c addr := map_base f b]> (contents s)).
  { rewrite Hcont. unfold put, without. rewrite Hmv, Hv, Hmt, Htag. by rewrite insert_delete_eq. }
  destruct (put_set_ok' cls c home s (set_lines (<[way:=map_base f b]> (m_cache_block_info_array s)) s)
    (m_set_info c)) as (c' & -> & Hwf' & Hbase & Hsets & Hin & Hout); [done..| |done|].
  { intros t x. rewrite Hcont', lookup_insert_Some. intros [[<- _]|[_ Hx]]; [done|].
    by eapply set_homes. }
  exists c'. do 3 (split; [done|]). split.
  - apply map_eq. intros t. destruct (decide (home_set (c_base c) t = home)) as [Hh|Hh].
    + rewrite Hin, Hcont' by done. destruct (decide (t = tag_of c addr)) as [->|].
      * by rewrite !lookup_insert_eq.
      * rewrite !lookup_insert_ne by done. symmetry. by eapply set_map.
    + rewrite Hout by done. by rewrite lookup_insert_ne by (intros <-; done).
  - intros Hst Hr'. unfold settled. rewrite Hsets. apply Forall_insert; [done|]. simpl.
    apply Forall_insert; [|done]. by apply (Forall_lookup_1 _ _ _ _ Hst Hs).
Qed.

Lemma settled_invalidate c addr r c' :
  settled c → invalidateSingleLine addr c = Ok (r, c') → settled c'.
Proof.
  intros Hst He. unfold invalidateSingleLine in He.
  apply res_bind_Ok in He as (ts & _ & He). apply res_bind_Ok in He as ([] & _ & He).
  apply res_bind_Ok in He as (s & Hs%rd_Ok & He). apply res_bind_Ok in He as ([b s'] & Hi & He).
  apply res_bind_Ok in He as (c1 & Hp & [= _ <-]).
  apply res_bind_Ok in Hp as (sets & [_ ->]%wr_Ok & [= <-]). apply Forall_insert; [done|]. simpl.
  pose proof (Forall_lookup_1 _ _ _ _ Hst Hs) as Hl. simpl in Hl.
  unfold set_invalidate in Hi. apply res_bind_Ok in Hi as ([w|] & _ & Hi); [|by simplify_eq].
  apply res_bind_Ok in Hi as (x & _ & Hi). apply res_bind_Ok in Hi as (l & [_ ->]%wr_Ok & [= _ <-]).
  apply Forall_insert; [done|]. by destruct x.
Qed.

(** An access does not touch the lines, finds what a peek finds, and copies out
    as many bytes as it is asked for. *)
Lemma access_lines c addr acc bytes upd loc out c' :
  accessSingleLine addr acc bytes upd c = Ok (loc, out, c') →
  m_cache_block_info_array <$> m_sets c' = m_cache_block_info_array <$> m_sets c.
Proof.
  intros He. unfold accessSingleLine in He.
  apply res_bind_Ok in He as ([[t si] off] & _ & He). apply res_bind_Ok in He as (s & Hs%rd_Ok & He).
  apply res_bind_Ok in He as ([w|] & _ & He); [|by simplify_eq].
  assert (Hput : ∀ s' sh c1 c2, put_set (Z.to_nat si) s' sh c1 = Ok c2 → m_sets c1 = m_sets c →
    m_cache_block_info_array s' = m_cache_block_info_array s →
    m_cache_block_info_array <$> m_sets c2 = m_cache_block_info_array <$> m_sets c).
  { intros s' sh c1 c2 Hp Hc1 Hl'. apply res_bind_Ok in Hp as (sets & [_ ->]%wr_Ok & [= <-]). simpl.
    rewrite Hc1, list_fmap_insert, Hl'. apply list_insert_id. by rewrite list_lookup_fmap, Hs. }
  assert (Hupd : ∀ i s1 sh s2 sh2, update i s1 sh = Ok (s2, sh2) →
    m_cache_block_info_array s2 = m_cache_block_info_array s1).
  { intros i s1 sh s2 sh2 Hu. by apply res_bind_Ok in Hu as (p & _ & [= <- _]). }
  destruct acc as [buff|buff].
  - apply res_bind_Ok in He as ([fi s1] & Hf & He). simpl in He.
    assert (Hs1 : m_cache_block_info_array s1 = m_cache_block_info_array s).
    { destruct (m_fault_injector c); [|by simplify_eq].
      by apply res_bind_Ok in Hf as (? & _ & [= _ <-]). }
    apply res_bind_Ok in He as ([[o s2] sh] & Hr & He).
    apply res_bind_Ok in He as (c2 & Hp & [= _ _ <-]). apply (Hput _ _ _ _ Hp); [done|].
    unfold read_line in Hr. apply res_bind_Ok in Hr as (_ & _ & Hr).
    apply res_bind_Ok in Hr as (o' & _ & Hr). destruct upd; [|by simplify_eq].
    apply res_bind_Ok in Hr as ([s3 sh3] & Hu & [= _ <- _]). by rewrite (Hupd _ _ _ _ _ Hu).
  - apply res_bind_Ok in He as ([s2 sh] & Hr & He). apply res_bind_Ok in He as (c2 & Hp & [= _ _ <-]).
    apply (Hput _ _ _ _ Hp); [done|]. simpl.
    unfold write_line in Hr. apply res_bind_Ok in Hr as (_ & _ & Hr).
    apply res_bind_Ok in Hr as (s1 & H1 & Hr).
    assert (Hs1 : m_cache_block_info_array s1 = m_cache_block_info_array s).
    { destruct buff as [l|], (m_blocks s); simplify_eq/=; [|done..].
      by apply res_bind_Ok in H1 as (? & _ & [= <-]). }
    destruct upd; [|by simplify_eq]. by rewrite (Hupd _ _ _ _ _ Hr).
Qed.

Lemma settled_access c addr acc bytes upd r c' :
  settled c → accessSingleLine addr acc bytes upd c = Ok (r, c') → settled c'.
Proof.
  intros Hst He. destruct r as [loc out]. apply access_lines in He. unfold settled in *.
  apply (Forall_fmap m_cache_block_info_array (Forall replaceable) (m_sets c)) in Hst.
  rewrite <- He in Hst. apply (Forall_fmap m_cache_block_info_array (Forall replaceable)) in Hst. exact Hst.
Qed.

Lemma access_peek c addr acc bytes upd loc out c' :
  accessSingleLine addr acc bytes upd c = Ok (loc, out, c') → peekSingleLine addr c = Ok loc.
Proof.
  unfold accessSingleLine, splitAddress_offset, peekSingleLine. intros ([[t si] off] & Hsp & He)%res_bind_Ok.
  apply res_bind_Ok in Hsp as ([t' si'] & -> & [= -> -> _]). cbn [res_bind fst snd].
  apply res_bind_Ok in He as (s & -> & He). cbn [res_bind]. apply res_bind_Ok in He as (r & -> & He).
  cbn [res_bind]. destruct r as [w|]; [|by simplify_eq]. destruct acc.
  - apply res_bind_Ok in He as (fd & _ & He). apply res_bind_Ok in He as ([[o s2] sh] & _ & He).
    apply res_bind_Ok in He as (c2 & _ & [= <- _ _]). done.
  - apply res_bind_Ok in He as ([s2 sh] & _ & He). apply res_bind_Ok in He as (c2 & _ & [= <- _ _]). done.
Qed.

Lemma access_out c addr acc bytes upd loc out c' :
  (0 ≤ bytes)%Z → accessSingleLine addr acc bytes upd c = Ok (loc, Some out, c') →
  Z.of_nat (length out) = bytes.
Proof.
  intros Hb. unfold accessSingleLine. intros ([[t si] off] & _ & He)%res_bind_Ok.
  apply res_bind_Ok in He as (s & _ & He). apply res_bind_Ok in He as ([w|] & _ & He); [|by simplify_eq].
  destruct acc as [buff|buff].
  2:{ apply res_bind_Ok in He as ([s2 sh] & _ & He). by apply res_bind_Ok in He as (c2 & _ & [=]). }
  apply res_bind_Ok in He as ([fi s1] & _ & He). apply res_bind_Ok in He as ([[o s2] sh] & Hr & He).
  apply res_bind_Ok in He as (c2 & _ & [= _ -> _]). simpl in Hr.
  unfold read_line in Hr. apply res_bind_Ok in Hr as (_ & _ & Hr). apply res_bind_Ok in Hr as (o' & Ho & Hr).
  assert (o' = Some out) as ->.
  { destruct upd; [by apply res_bind_Ok in Hr as (? & _ & [= -> _ _])|by simplify_eq]. }
  destruct (m_blocks s1) as [d|]; [|done]. destruct buff; [|done].
  apply res_bind_Ok in Ho as (x & Hx & [= ->]). unfold copy_out in Hx.
  destruct (Z.leb_spec (data_index s1 w off + bytes) (Z.of_nat (length d))) as [Hle|]; [|done]. injection Hx as <-.
  rewrite length_take, length_drop. pose proof (u32_range (Z.of_nat w * m_blocksize s1 + off)) as Hr0.
  unfold data_index in *. unfold in_u32 in Hr0. lia.
Qed.
End Facts.

(** * Traces

    The way the cache controllers use a cache: a line is inserted only if it is
    not there, and its state is written through the pointer of a peek. *)

Inductive Op : Type :=
| OpInvalidate (addr : Z)
| OpAccess (addr : Z) (acc : Access) (bytes : Z) (upd : bool)
| OpInsert (addr : Z) (fill_buff : option (list Z)) (evict_info : BlockInfo)
    (cntlr : BlockInfo → bool)
| OpSetCState (addr : Z) (cs : CacheState.cstate_t)
| OpCount (hit : bool).

Inductive Out : Type :=
| OutHit (b : bool)
| OutInserted (evicted : option (Z * CacheBlockInfo))
| OutPresent
| OutUnit.

Section Trace.
Context {P : Type} `{Policy P}.

Definition run_op (op : Op) (c : Cache P) : res (Out * Cache P) :=
  match op with
  | OpInvalidate addr => let? r := invalidateSingleLine addr c in Ok (OutHit r.1, r.2)
  | OpAccess addr acc bytes upd =>
      let? r := accessSingleLine addr acc bytes upd c in
      Ok (OutHit (bool_decide (is_Some r.1.1)), r.2)
  | OpInsert addr fill_buff evict_info cntlr =>
      let? p := peekSingleLine addr c in
      match p with
      | Some _ => Ok (OutPresent, c)
      | None =>
          let? r := insertSingleLine addr fill_buff evict_info true (Some cntlr) c in
          let '(ins, evict_addr, c) := r in
          Ok (OutInserted (if eviction ins
                           then Some (evict_addr, base (evict_block_info ins)) else None), c)
      end
  | OpSetCState addr cs =>
      let? p := peekSingleLine addr c in
      match p with
      | Some loc => let? c := updateBlock loc (setCState cs) c in Ok (OutHit true, c)
      | None => Ok (OutHit false, c)
      end
  | OpCount hit => Ok (OutUnit, updateCounters hit c)
  end.

Fixpoint run (ops : list Op) (c : Cache P) : res (list Out * Cache P) :=
  match ops with
  | [] => Ok ([], c)
  | op :: ops =>
      let? r := run_op op c in
      let? r' := run ops r.2 in
      Ok (r.1 :: r'.1, r'.2)
  end.
End Trace.

(** The specification: a map from tags to lines.  Only the choice of the victim
    is left open. *)
Inductive spec_step (base : CacheBase) (cls : BlockInfo) :
    gmap Z BlockInfo → Op → Out → gmap Z BlockInfo → Prop :=
| SpecInvalidate m addr t :
    t = (addr / 2 ^ cb_log_blocksize base)%Z →
    spec_step base cls m (OpInvalidate addr) (OutHit (bool_decide (is_Some (m !! t)))) (delete t m)
| SpecAccess m addr acc bytes upd t :
    t = (addr / 2 ^ cb_log_blocksize base)%Z →
    spec_step base cls m (OpAccess addr acc bytes upd) (OutHit (bool_decide (is_Some (m !! t)))) m
| SpecPresent m addr fill e cntlr t b :
    t = (addr / 2 ^ cb_log_blocksize base)%Z → m !! t = Some b →
    spec_step base cls m (OpInsert addr fill e cntlr) OutPresent m
| SpecInsert m addr fill e cntlr t :
    t = (addr / 2 ^ cb_log_blocksize base)%Z → m !! t = None →
    spec_step base cls m (OpInsert addr fill e cntlr) (OutInserted None) (<[t := new_line cls t]> m)
| SpecEvict m addr fill e cntlr t t' old :
    t = (addr / 2 ^ cb_log_blocksize base)%Z → m !! t = None → m !! t' = Some old → t' ≠ t →
    spec_step base cls m (OpInsert addr fill e cntlr)
      (OutInserted (Some (t' * 2 ^ cb_log_blocksize base, CacheBlock.base old))%Z)
      (<[t := new_line cls t]> (delete t' m))
| SpecSetCState m addr cs t b :
    t = (addr / 2 ^ cb_log_blocksize base)%Z → m !! t = Some b →
    spec_step base cls m (OpSetCState addr cs) (OutHit true) (<[t := map_base (setCState cs) b]> m)
| SpecSetCStateMiss m addr cs t :
    t = (addr / 2 ^ cb_log_blocksize base)%Z → m !! t = None →
    spec_step base cls m (OpSetCState addr cs) (OutHit false) m
| SpecCount m hit : spec_step base cls m (OpCount hit) OutUnit m.

Inductive spec_run (base : CacheBase) (cls : BlockInfo) :
    gmap Z BlockInfo → list Op → list Out → gmap Z BlockInfo → Prop :=
| SpecNil m : spec_run base cls m [] [] m
| SpecCons m op out m1 ops outs m2 :
    spec_step base cls m op out m1 → spec_run base cls m1 ops outs m2 →
    spec_run base cls m (op :: ops) (out :: outs) m2.

(** The arguments a client may pass. *)
Definition op_ok (base : CacheBase) (cls : BlockInfo) (op : Op) : Prop :=
  match op with
  | OpInvalidate addr => in_u64 addr
  | OpAccess addr acc bytes _ =>
      in_u64 addr ∧
      (0 < bytes ∧ Z.land addr (u32 (cb_blocksize base - 1)) + bytes ≤ cb_blocksize base)%Z ∧
      (∀ buff, acc = STORE (Some buff) → bytes ≤ Z.of_nat (length buff))%Z
  | OpInsert addr fill_buff evict_info _ =>
      in_u64 addr ∧ class_fits evict_info cls = true ∧
      (∀ buff, fill_buff = Some buff → cb_blocksize base ≤ Z.of_nat (length buff))%Z
  | OpSetCState addr cs => in_u64 addr ∧ cs ≠ CacheState.SHARED_UPGRADING
  | OpCount _ => True
  end.

Section TraceFacts.
Context {P : Type} `{Policy P} {HOk : PolicyOk P} {HFrame : PolicyFrame P}.
Implicit Types (c : Cache P).

Lemma tagToAddress_ok base t :
  cb_wf base → tag_ok base t → tagToAddress base t = Ok (t * 2 ^ cb_log_blocksize base)%Z.
Proof.
  intros (_ & Hb & Hl & _) [H0 Ht]. unfold tagToAddress, shl64.
  pose proof (log2_lt_32 (cb_blocksize base) ltac:(lia)).
  rewrite (proj2 (Z.ltb_lt _ _)) by lia. f_equal. apply u64_small_mul; lia.
Qed.

Lemma cache_map_tag cls c t b :
  cache_wf cls c → cache_map c !! t = Some b → tag_ok (c_base c) t.
Proof.
  intros (_ & _ & _ & _ & _ & _ & Hh & _) Hb. rewrite cache_map_lookup in Hb by done.
  destruct (m_sets c !! home_set (c_base c) t) as [s|] eqn:Hs; [|done]. by apply (Hh _ _ _ _ Hs Hb).
Qed.

Lemma insert_op cls c addr fill_buff evict_info cntlr :
  cache_wf cls c → settled c → op_ok (c_base c) cls (OpInsert addr fill_buff evict_info cntlr) →
  ∃ out c', run_op (OpInsert addr fill_buff evict_info cntlr) c = Ok (out, c') ∧
    cache_wf cls c' ∧ settled c' ∧ c_base c' = c_base c ∧
    spec_step (c_base c) cls (cache_map c) (OpInsert addr fill_buff evict_info cntlr) out (cache_map c').
Proof.
  intros Hwf Hst (Ha & Hfit & Hfill). cbn [run_op].
  destruct (peek_cache cls c addr Hwf Ha) as (r & -> & Hr). simpl.
  destruct r as [[i w]|].
  { destruct Hr as (b & _ & Hb & _). do 2 eexists. do 4 (split; [done|]). by eapply SpecPresent. }
  destruct (insert_cache cls c addr fill_buff evict_info true cntlr)
    as (ins & c' & old & ea & -> & Hea & Hwf' & Hbase & Hst' & Hmap & Hev & Hold); [done..|].
  simpl. do 2 eexists. split; [done|]. do 3 (split; [done|]). rewrite Hmap, Hev.
  unfold inserted. rewrite new_line_tag. destruct (isValid old) eqn:Hv.
  - destruct Hold as [Hin Hbi].
    assert (Htag : getTag (evict_block_info ins) = getTag old) by (unfold getTag; by rewrite Hbi).
    rewrite Htag, tagToAddress_ok in Hea; [|apply Hwf|by eapply cache_map_tag].
    injection Hea as <-. rewrite Hbi.
    eapply SpecEvict; [done|done|done|]. intros He. rewrite He in Hin. congruence.
  - by eapply SpecInsert.
Qed.

Lemma op_refines cls c op :
  cache_wf cls c → settled c → op_ok (c_base c) cls op →
  ∃ out c', run_op op c = Ok (out, c') ∧ cache_wf cls c' ∧ settled c' ∧ c_base c' = c_base c ∧
            spec_step (c_base c) cls (cache_map c) op out (cache_map c').
Proof.
  intros Hwf Hst Hop. destruct op as [addr|addr acc bytes upd|addr fill e cntlr|addr cs|hit].
  - destruct (invalidate_cache cls c addr Hwf Hop) as (c' & He & Hwf' & Hb & Hm).
    cbn [run_op]. rewrite He. simpl. do 2 eexists. split; [done|]. split; [done|].
    split; [by eapply settled_invalidate|]. split; [done|]. rewrite Hm. by apply SpecInvalidate.
  - destruct Hop as (Ha & Hacc & Hbuff).
    destruct (access_cache cls c addr acc bytes upd Hwf Ha Hacc Hbuff)
      as (loc & out & c' & He & Hwf' & Hb & Hm & Hloc).
    cbn [run_op]. rewrite He. simpl. do 2 eexists. split; [done|]. split; [done|].
    split; [by eapply settled_access|]. split; [done|]. rewrite Hm.
    rewrite (bool_decide_ext _ _ Hloc). by apply SpecAccess.
  - by apply insert_op.
  - destruct Hop as [Ha Hcs]. cbn [run_op].
    destruct (peek_cache cls c addr Hwf Ha) as (r & Hp & Hr). rewrite Hp. simpl.
    destruct r as [[i w]|].
    + destruct Hr as (b & _ & Hb & _).
      destruct (updateBlock_cache cls c addr i w b (setCState cs))
        as (c' & -> & Hwf' & Hbase & Hm & Hst'); [done..|]. simpl.
      do 2 eexists. split; [done|]. split; [done|]. split; [by apply Hst'; [|destruct b]|].
      split; [done|]. rewrite Hm. by eapply SpecSetCState.
    + do 2 eexists. split; [done|]. do 3 (split; [done|]). by eapply SpecSetCStateMiss.
  - exists OutUnit, (updateCounters hit c). split; [done|].
    unfold updateCounters. destruct (m_enabled c); (do 3 (split; [done|])); apply SpecCount.
Qed.

Lemma run_refines cls c ops :
  cache_wf cls c → settled c → Forall (op_ok (c_base c) cls) ops →
  ∃ outs c', run ops c = Ok (outs, c') ∧ cache_wf cls c' ∧ settled c' ∧ c_base c' = c_base c ∧
             spec_run (c_base c) cls (cache_map c) ops outs (cache_map c').
Proof.
  revert c. induction ops as [|op ops IH]; intros c Hwf Hst Hops; simpl.
  { exists [], c. do 4 (split; [done|]). constructor. }
  apply Forall_cons in Hops as [Hop Hops].
  destruct (op_refines cls c op Hwf Hst Hop) as (out & c1 & -> & Hwf1 & Hst1 & Hb1 & Hspec). simpl.
  destruct (IH c1) as (outs & c2 & -> & Hwf2 & Hst2 & Hb2 & Hrun); [done|done|by rewrite Hb1|].
  simpl. exists (out :: outs), c2. split; [done|]. do 2 (split; [done|]). split; [congruence|].
  rewrite Hb1 in Hrun. by eapply SpecCons.
Qed.
End TraceFacts.

(** * Construction *)

Lemma parse_time name cfg t policy assoc :
  parsePolicyType name = Ok policy → cfg_ok policy assoc cfg →
  cfg_ok policy assoc (mkPolicyCfg (cfg_qbs_attempts cfg) (cfg_srrip_bits cfg) t).
Proof. by destruct policy. Qed.

Lemma create_sets_ok name policy cls cache_type assoc bs fi cfg info time n i :
  parsePolicyType name = Ok policy → createCacheSetInfo name assoc cfg = Ok info →
  cfg_ok policy assoc cfg → CacheBlockInfo_create cache_type = Ok cls →
  0 < assoc ≤ 256 → (0 ≤ bs ∧ Z.of_nat assoc * bs < 2 ^ 32)%Z →
  ∃ sets, create_sets name cache_type assoc bs fi cfg time n i = Ok sets ∧ length sets = n ∧
    Forall (λ s, set_wf cls s (mkShared info 0) ∧ m_associativity s = assoc ∧ m_blocksize s = bs ∧
                 m_cache_block_info_array s = replicate assoc cls ∧
                 (fi = true → is_Some (m_blocks s))) sets.
Proof.
  intros Hparse Hinfo Hcfg Hcls Has [Hbs Hsz].
  revert i. induction n as [|n IH]; intros i; simpl; [by exists []|].
  assert (Hinfo' : createCacheSetInfo name assoc (mkPolicyCfg (cfg_qbs_attempts cfg)
            (cfg_srrip_bits cfg) (time i)) = Ok info).
  { rewrite <- Hinfo. unfold createCacheSetInfo. rewrite Hparse. by destruct policy. }
  unfold createCacheSet. rewrite Hparse. simpl.
  destruct (createPolicy_wf name policy assoc _ info 0 Hparse Hinfo' Has
              (parse_time name cfg (time i) policy assoc Hparse Hcfg)) as (p & -> & Hp). simpl.
  destruct (CacheSet_new_ok cache_type assoc bs fi p info 0)
    as (b & c & Hb & Hc & Hwf & Hca & Hcb & Hl & _); [by destruct cache_type|done..|].
  rewrite Hc. simpl. destruct (IH (S i)) as (sets & -> & Hlen & Hall). simpl.
  exists (c :: sets). split; [done|]. split; [simpl; congruence|]. constructor; [|done].
  assert (b = cls) by congruence. subst b. do 4 (split; [done|]).
  intros ->. unfold CacheSet_new in Hc. apply res_bind_Ok in Hc as (l & _ & [= <-]). by eexists.
Qed.

(** A new cache is well formed and empty. *)
Lemma Cache_new_ok name policy cls num_sets assoc bs cache_type hash (fi : bool) inj ahl cfg time base info :
  parsePolicyType name = Ok policy → createCacheSetInfo name assoc cfg = Ok info →
  cfg_ok policy assoc cfg → CacheBlockInfo_create cache_type = Ok cls →
  CacheBase_new num_sets assoc bs hash ahl = Ok base → cb_wf base → hash_ok base →
  0 < assoc ≤ 256 → (2 ≤ bs ∧ Z.of_nat assoc * bs < 2 ^ 32)%Z → (is_Some inj → fi = true) →
  ∃ c, Cache_new num_sets assoc bs name cache_type hash fi inj ahl cfg time = Ok c ∧
       c_base c = base ∧ cache_wf cls c ∧ settled c ∧ cache_map c = ∅.
Proof.
  intros Hparse Hinfo Hcfg Hcls Hbase Hcb Hh Has [Hbs Hsz] Hinj.
  unfold Cache_new. rewrite Hbase, Hinfo. simpl.
  destruct (create_sets_ok name policy cls cache_type assoc bs fi cfg info time (Z.to_nat num_sets) 0)
    as (sets & -> & Hlen & Hall); [done..|lia|]. simpl.
  assert (Hfields : cb_num_sets base = num_sets ∧ cb_blocksize base = bs ∧ cb_associativity base = assoc).
  { unfold CacheBase_new in Hbase. apply res_bind_Ok in Hbase as (_ & _ & Hbase).
    by apply res_bind_Ok in Hbase as (_ & _ & [= <-]). }
  destruct Hfields as (Hn & Hb & Ha). pose proof Hcb as (Hnpos & _).
  destruct (create_base _ _ Hcls) as [Hcv Hcs].
  assert (Hempty : ∀ i s, sets !! i = Some s → contents s = ∅).
  { intros i s Hs. destruct (Forall_lookup_1 _ _ _ _ Hall Hs) as (_ & _ & _ & Hl & _).
    unfold contents. rewrite Hl. by apply replicate_invalid. }
  eexists. split; [done|]. split; [done|]. split; [|split].
  - split; [done|]. split; [done|]. simpl. rewrite Hb. split; [done|]. split; [lia|]. split; [done|].
    split; [|split].
    + unfold sets_wf. rewrite Ha, Hb. eapply Forall_impl; [exact Hall|]. naive_solver.
    + intros i s t b Hs. by rewrite (Hempty i s Hs), lookup_empty.
    + intros Hx. eapply Forall_impl; [exact Hall|]. naive_solver.
  - unfold settled. simpl. eapply Forall_impl; [exact Hall|]. intros s (_ & _ & _ & -> & _).
    apply Forall_replicate. unfold replaceable. by rewrite Hcs.
  - unfold cache_map. simpl. clear -Hempty. induction sets as [|s sets IH]; simpl; [done|].
    rewrite IH; [|intros i s' Hs'; by apply (Hempty (S i))].
    by rewrite (Hempty 0 s eq_refl), (left_id_L ∅ (∪)).
Qed.

(** * Properties *)

(** C3: a cache implements a finite map. Take any cache built by the
    constructor with a supported configuration and any sequence of operations
    (invalidations, loads and stores of at least one byte inside a line,
    insertions of absent lines, writes of a line state other than
    SHARED_UPGRADING, counter updates): the whole sequence runs without error,
    and its results are those of a map from tags to lines on which an
    insertion may drop one other line, the one whose address and contents it
    reports. Every line stays in its home set and no tag is held twice. Lines
    in transit are left out, since on a set with such lines PLRU and SRRIP
    stop with an assertion. Supported are 1 to 256 ways; for NMRU at least 2
    ways, for PLRU 4 or 8, for SRRIP at least [2 ^ bits], for query-based LRU
    at least one attempt and for query-based SRRIP one ([cfg_ok]); a power of
    two sets for the mask and the XOR hash and at least two for the Mersenne
    hash ([hash_ok]); lines of at least 2 bytes, below [2 ^ 31], and sets
    below [2 ^ 32] bytes. *)
Theorem cache_implements_map name policy cls num_sets assoc bs cache_type hash fi inj ahl cfg time
    base info ops :
  parsePolicyType name = Ok policy → createCacheSetInfo name assoc cfg = Ok info →
  cfg_ok policy assoc cfg → CacheBlockInfo_create cache_type = Ok cls →
  CacheBase_new num_sets assoc bs hash ahl = Ok base →
  0 < assoc ≤ 256 → (0 < num_sets < 2 ^ 32)%Z → (2 ≤ bs < 2 ^ 31 ∧ Z.of_nat assoc * bs < 2 ^ 32)%Z →
  (∀ a, ahl = Some a → ahl_wf a ∧ m_cache_block_size a = bs) → hash_ok base →
  (is_Some inj → fi = true) → Forall (op_ok base cls) ops →
  ∃ c outs c', Cache_new num_sets assoc bs name cache_type hash fi inj ahl cfg time = Ok c ∧
    run ops c = Ok (outs, c') ∧ spec_run base cls ∅ ops outs (cache_map c') ∧ cache_wf cls c'.
Proof.
  intros Hparse Hinfo Hcfg Hcls Hbase Has Hn [Hbs Hsz] Hahl Hh Hinj Hops.
  destruct (CacheBase_new_wf num_sets assoc bs hash ahl base Hbase Hn ltac:(lia) Hahl) as (Hcb & _).
  destruct (Cache_new_ok name policy cls num_sets assoc bs cache_type hash fi inj ahl cfg time base info)
    as (c & Hc & Hb & Hwf & Hst & Hm); [done..|lia|done|].
  destruct (run_refines cls c ops Hwf Hst) as (outs & c' & Hrun & Hwf' & _ & _ & Hspec);
    [by rewrite Hb|].
  exists c, outs, c'. rewrite Hb, Hm in Hspec. done.
Qed.

Lemma cache_implements_map_witness :
  ∃ c outs c',
    Cache_new 2 2 64 "lru" PR_L1_CACHE HASH_MASK false None None (mkPolicyCfg 1 2 0) (λ _, 0%Z) = Ok c ∧
    run [OpInsert 4096 None (example_line INVALID_TAG CacheState.INVALID) (λ _, false);
         OpSetCState 4096 CacheState.MODIFIED; OpAccess 4100 (LOAD false) 8 true; OpInvalidate 4096] c
    = Ok (outs, c').
Proof.
  destruct (cache_implements_map "lru" LRU_ (example_line INVALID_TAG CacheState.INVALID) 2 2 64
    PR_L1_CACHE HASH_MASK false None None (mkPolicyCfg 1 2 0) (λ _, 0%Z)
    (mkCacheBase 256 2 64 HASH_MASK 2 None 6 1) (Some (CacheSetInfoLRU_new 2 1))
    [OpInsert 4096 None (example_line INVALID_TAG CacheState.INVALID) (λ _, false);
     OpSetCState 4096 CacheState.MODIFIED; OpAccess 4100 (LOAD false) 8 true; OpInvalidate 4096])
    as (c & outs & c' & Hc & Hr & _);
    [reflexivity|reflexivity|done|reflexivity|reflexivity|lia|lia|lia|done|done|by intros []| |].
  - repeat constructor; unfold in_u64; simpl; try done; lia.
  - by exists c, outs, c'.
Defined.
