(* ===== verification/CacheSlots.v ===== *)
(** The physical slots of a cache: what each operation of the class does to the
    tag and the state of every way.  The cache controllers keep pointers to
    lines, so that the map of [CacheModel] is not enough to follow them. *)
From S2P Require Import Prelude Utils CacheBlock LruPolicies OtherPolicies FaultInjection CacheSet PolicyKeeps Address CacheModel.

Section Slots.
Context {P : Type} `{Policy P} {HOk : PolicyOk P} {HFrame : PolicyFrame P} {HKeep : PolicyKeeps P}.
Implicit Types (c : Cache P) (s : CacheSet P) (l : nat * nat) (t : Z) (x : cstate_t).

(** The line of a slot, and its tag and state. *)
Definition line_at c l : option BlockInfo :=
  s ← m_sets c !! l.1; m_cache_block_info_array s !! l.2.
Definition slot c l : option (Z * cstate_t) := (λ b, (getTag b, getCState b)) <$> line_at c l.

Lemma slot_Some c l t x :
  slot c l = Some (t, x) ↔ ∃ b, line_at c l = Some b ∧ getTag b = t ∧ getCState b = x.
Proof. unfold slot. rewrite fmap_Some. naive_solver. Qed.
Lemma line_at_Some c l b :
  line_at c l = Some b ↔ ∃ s, m_sets c !! l.1 = Some s ∧ m_cache_block_info_array s !! l.2 = Some b.
Proof. unfold line_at. rewrite bind_Some. done. Qed.

Lemma set_of cls c i s :
  cache_wf cls c → m_sets c !! i = Some s →
  set_wf cls s (m_set_info c) ∧ m_associativity s = cb_associativity (c_base c) ∧
  m_blocksize s = cb_blocksize (c_base c).
Proof. intros (_ & _ & _ & _ & _ & Hs & _) Hi. apply (Forall_lookup_1 _ _ _ _ Hs Hi). Qed.

(** A valid line is in the home set of its tag, and no tag is there twice. *)
Lemma slot_home cls c l t x :
  cache_wf cls c → slot c l = Some (t, x) → t ≠ INVALID_TAG → home_set (c_base c) t = l.1 ∧ tag_ok (c_base c) t.
Proof.
  intros Hwf (b & (s & Hs & Hb)%line_at_Some & <- & _)%slot_Some Ht.
  destruct (set_of _ _ _ _ Hwf Hs) as (Hset & _).
  eapply (set_homes cls c l.1 s _ b Hwf Hs). eapply valid_line_contents; [exact Hset|exact Hb|].
  by apply isValid_spec.
Qed.
Lemma unique_lookup (lines : list BlockInfo) i j a b :
  unique_tags lines → lines !! i = Some a → lines !! j = Some b → isValid a = true → isValid b = true →
  getTag a = getTag b → i = j.
Proof.
  revert i j. induction lines as [|y lines IH]; intros i j Hu Hi Hj Ha Hb Ht; [done|].
  unfold unique_tags, valid_lines in Hu. rewrite filter_cons in Hu.
  assert (Hin : ∀ k z, lines !! k = Some z → isValid z = true → getTag z ∈ getTag <$> valid_lines lines).
  { intros k z Hk Hz. apply list_elem_of_fmap. exists z. split; [done|]. apply list_elem_of_filter.
    split; [done|]. by eapply list_elem_of_lookup_2. }
  destruct i as [|i], j as [|j]; simpl in Hi, Hj; simplify_eq; [done| | |].
  - rewrite decide_True in Hu by done. apply NoDup_cons in Hu as [Hn _]. exfalso. apply Hn. rewrite Ht. by eapply Hin.
  - rewrite decide_True in Hu by done. apply NoDup_cons in Hu as [Hn _]. exfalso. apply Hn. rewrite <- Ht. by eapply Hin.
  - f_equal. apply (IH i j); try done. case_decide; [by apply NoDup_cons in Hu as [_ ?]|done].
Qed.
Lemma slot_unique cls c l l' t x x' :
  cache_wf cls c → slot c l = Some (t, x) → slot c l' = Some (t, x') → t ≠ INVALID_TAG → l = l' ∧ x = x'.
Proof.
  intros Hwf Hl Hl' Ht. assert (l = l') as ->; [|split; [done|congruence]].
  destruct (slot_home _ _ _ _ _ Hwf Hl Ht) as [Hh _], (slot_home _ _ _ _ _ Hwf Hl' Ht) as [Hh' _].
  apply slot_Some in Hl as (b & (s & Hs & Hb)%line_at_Some & Htb & _).
  apply slot_Some in Hl' as (b' & (s' & Hs' & Hb')%line_at_Some & Htb' & _).
  assert (l.1 = l'.1) as Heq by congruence. rewrite Heq in Hs. assert (s' = s) by congruence. subst s'.
  destruct (set_of _ _ _ _ Hwf Hs) as ((_ & _ & _ & Hu & _) & _).
  destruct l as [i w], l' as [i' w']. simpl in *. f_equal; [done|].
  eapply (unique_lookup _ _ _ _ _ Hu Hb Hb'); try (apply isValid_spec; congruence). congruence.
Qed.

(** ** Looking up *)
Lemma peek_slot cls c a :
  cache_wf cls c → in_u64 a →
  tag_of c a ≠ INVALID_TAG ∧
  ((∃ l x, peekSingleLine a c = Ok (Some l) ∧ slot c l = Some (tag_of c a, x)) ∨
   (peekSingleLine a c = Ok None ∧ ∀ l x, slot c l ≠ Some (tag_of c a, x))).
Proof.
  intros Hwf Ha.
  destruct (split_cache cls c a Hwf Ha) as (i & s & Hsp & Hlt & Hi & Hs & Hset & Has & Hbl & Ht & _ & Hm).
  split; [done|]. unfold peekSingleLine. rewrite Hsp. cbn [res_bind fst snd].
  rewrite Hi, (proj2 (rd_Ok _ _ _) Hs). cbn [res_bind].
  destruct (find_from_spec (m_cache_block_info_array s) (tag_of c a) (m_associativity s)) as (r & He & Hr).
  { destruct Hset as [[Hl _] _]. simpl in Hl. lia. }
  unfold find. rewrite He. cbn [res_bind]. destruct r as [w|].
  - left. destruct Hr as (_ & b & Hb & Htag). eexists (_, w), (getCState b). split; [done|].
    apply slot_Some. exists b. split; [|done]. apply line_at_Some. by exists s.
  - right. split; [done|]. intros l x Hl. destruct (slot_home _ _ _ _ _ Hwf Hl Ht) as [Hh _].
    apply slot_Some in Hl as (b & (s' & Hs' & Hb)%line_at_Some & Htb & _).
    rewrite <- Hh in Hs'. assert (s' = s) by congruence. subst s'. apply (Hr l.2 b); [|done|done].
    apply lookup_lt_Some in Hb. destruct Hset as [[Hl' _] _]. simpl in Hl'. lia.
Qed.
Lemma slot_absent cls c t :
  cache_wf cls c → tag_ok (c_base c) t → t ≠ INVALID_TAG → (∀ l x, slot c l ≠ Some (t, x)) → cache_map c !! t = None.
Proof.
  intros Hwf Htok Ht Hno. destruct (cache_map c !! t) as [b|] eqn:Hb; [|done]. exfalso.
  pose proof Hwf as (_ & _ & _ & _ & _ & _ & Hh & _). rewrite cache_map_lookup in Hb by done.
  apply bind_Some in Hb as (s & Hs & Hb). destruct (set_of _ _ _ _ Hwf Hs) as ((_ & _ & _ & Hu & _) & _).
  apply line_map_Some in Hb as (Hin & _ & Htb); [|done]. apply list_elem_of_lookup in Hin as [w Hw].
  apply (Hno (home_set (c_base c) t, w) (getCState b)). apply slot_Some. exists b. split; [|done].
  apply line_at_Some. by exists s.
Qed.
Lemma block_slot c l t x :
  slot c l = Some (t, x) → ∃ b, cache_peekBlock l.1 l.2 c = Ok b ∧ getTag b = t ∧ getCState b = x.
Proof.
  intros (b & (s & Hs & Hb)%line_at_Some & ? & ?)%slot_Some. exists b. split; [|done].
  unfold cache_peekBlock, peekBlock. by rewrite (proj2 (rd_Ok _ _ _) Hs); simpl; rewrite (proj2 (rd_Ok _ _ _) Hb).
Qed.

(** ** Changing a slot *)

(** Replacing the line of a slot by one that does not clash. *)
Lemma replace_slot cls c l b b' :
  cache_wf cls c → line_at c l = Some b → same_class cls b' = true →
  (getTag b' ≠ INVALID_TAG → getTag b' = getTag b) →
  ∃ s c', m_sets c !! l.1 = Some s ∧ m_cache_block_info_array s !! l.2 = Some b ∧
    put_set l.1 (set_lines (<[l.2 := b']> (m_cache_block_info_array s)) s) (m_set_info c) c = Ok c' ∧
    cache_wf cls c' ∧ c_base c' = c_base c ∧ line_at c' l = Some b' ∧
    ∀ l', l' ≠ l → line_at c' l' = line_at c l'.
Proof.
  intros Hwf (s & Hs & Hb)%line_at_Some Hcls Htag.
  destruct (set_of _ _ _ _ Hwf Hs) as (Hset & Has & Hbl).
  destruct (replace_line cls s (m_set_info c) l.2 b b' Hset Hb Hcls) as [Hset' Hcont].
  { intros Hv%isValid_spec. unfold without. rewrite (Htag Hv).
    assert (isValid b = true) as -> by (apply isValid_spec; by rewrite <- (Htag Hv)). apply lookup_delete_eq. }
  destruct (put_set_ok' cls c l.1 s (set_lines (<[l.2 := b']> (m_cache_block_info_array s)) s) (m_set_info c))
    as (c' & Hp & Hwf' & Hbase & Hsets & _); [done..| |done|].
  { intros t y. rewrite Hcont. unfold put, without.
    assert (Hold : ∀ t y, (if isValid b then delete (getTag b) (contents s) else contents s) !! t = Some y →
      home_set (c_base c) t = l.1 ∧ tag_ok (c_base c) t).
    { intros t' y' Hy. eapply set_homes; [done..|]. destruct (isValid b); [|done].
      by apply lookup_delete_Some in Hy as [_ Hy]. }
    destruct (isValid b') eqn:Hv; [|by apply Hold]. intros [[<- _]|[_ Hy]]%lookup_insert_Some; [|by eapply Hold].
    apply isValid_spec in Hv. rewrite (Htag Hv). eapply (slot_home cls c l _ (getCState b)); [done| |by rewrite <- Htag].
    apply slot_Some. exists b. split; [|done]. apply line_at_Some. by exists s. }
  exists s, c'. do 5 (split; [done|]). unfold line_at. rewrite Hsets.
  assert (Hi : l.1 < length (m_sets c)) by (by eapply lookup_lt_Some). split.
  - rewrite list_lookup_insert_eq by done. simpl. apply list_lookup_insert_eq. by eapply lookup_lt_Some.
  - intros l' Hne. destruct (decide (l'.1 = l.1)) as [He|He].
    + rewrite He, list_lookup_insert_eq by done. rewrite Hs. simpl. rewrite list_lookup_insert_ne; [done|].
      intros He'. apply Hne. destruct l, l'. simpl in *. congruence.
    + by rewrite list_lookup_insert_ne by done.
Qed.

Lemma slot_lines c c' l : line_at c' l = line_at c l → slot c' l = slot c l.
Proof. unfold slot. by intros ->. Qed.

Lemma line_class cls c l b : cache_wf cls c → line_at c l = Some b → same_class cls b = true.
Proof.
  intros Hwf (s & Hs & Hb)%line_at_Some. destruct (set_of _ _ _ _ Hwf Hs) as ((_ & _ & Hc & _) & _).
  apply (Forall_lookup_1 _ _ _ _ Hc Hb).
Qed.
Lemma getTag_map_base f b : (∀ y, m_tag (f y) = m_tag y) → getTag (map_base f b) = getTag b.
Proof. intros Hf. destruct b; apply Hf. Qed.

Lemma update_slot cls c l t x f x' :
  cache_wf cls c → slot c l = Some (t, x) → (∀ y, m_tag (f y) = m_tag y) →
  (∀ y, m_cstate y = x → m_cstate (f y) = x') →
  ∃ c', updateBlock l f c = Ok c' ∧ cache_wf cls c' ∧ c_base c' = c_base c ∧
        slot c' l = Some (t, x') ∧ ∀ l', l' ≠ l → slot c' l' = slot c l'.
Proof.
  intros Hwf (b & Hb & <- & Hx)%slot_Some Hf Hfx.
  destruct (replace_slot cls c l b (map_base f b)) as (s & c' & Hs & Hsb & Hp & Hwf' & Hbase & Hl & Hrest); [done|done| | |].
  { rewrite same_class_map_base. by eapply line_class. }
  { intros _. by apply getTag_map_base. }
  exists c'. unfold updateBlock. rewrite (proj2 (rd_Ok _ _ _) Hs). cbn [res_bind].
  rewrite (proj2 (rd_Ok _ _ _) Hsb). cbn [res_bind]. rewrite wr_lt by (by eapply lookup_lt_Some). cbn [res_bind].
  do 3 (split; [done|]). split.
  - apply slot_Some. exists (map_base f b). split; [done|]. split; [by apply getTag_map_base|].
    destruct b; apply Hfx; exact Hx.
  - intros l' Hl'. by apply slot_lines, Hrest.
Qed.

Lemma invalidate_slot cls c a l x :
  cache_wf cls c → in_u64 a → slot c l = Some (tag_of c a, x) →
  ∃ r c', invalidateSingleLine a c = Ok (r, c') ∧ cache_wf cls c' ∧ c_base c' = c_base c ∧
        slot c' l = Some (INVALID_TAG, CacheState.INVALID) ∧ ∀ l', l' ≠ l → slot c' l' = slot c l'.
Proof.
  intros Hwf Ha Hl.
  destruct (peek_slot cls c a Hwf Ha) as [Ht [(l1 & x1 & Hp & Hl1)|[_ Hno]]]; [|by destruct (Hno _ _ Hl)].
  destruct (slot_unique cls c l l1 _ _ _ Hwf Hl Hl1 Ht) as [<- <-]. clear Hl1.
  destruct (split_cache cls c a Hwf Ha) as (i & s & Hsp & Hlt & Hi & Hs & Hset & Has & Hbl & _ & _ & Hm).
  unfold peekSingleLine in Hp. rewrite Hsp in Hp. cbn [res_bind fst snd] in Hp.
  rewrite Hi, (proj2 (rd_Ok _ _ _) Hs) in Hp. cbn [res_bind] in Hp.
  apply res_bind_Ok in Hp as (r & Hr & Hp). destruct r as [w|]; [|done]. injection Hp as <-.
  apply slot_Some in Hl as (b & Hb & Htb & Hx).
  destruct (replace_slot cls c (home_set (c_base c) (tag_of c a), w) b (invalidate b))
    as (s' & c' & Hs' & Hsb & Hpu & Hwf' & Hbase & Hl' & Hrest); [done|done| | |].
  { rewrite same_class_invalidate. by eapply line_class. }
  { by rewrite getTag_invalidate. }
  simpl in Hs', Hsb, Hpu. assert (s' = s) by congruence. subst s'.
  unfold invalidateSingleLine. rewrite Hsp. cbn [res_bind fst snd]. rewrite Hlt. cbn [res_bind c_assert].
  rewrite Hi, (proj2 (rd_Ok _ _ _) Hs). cbn [res_bind]. unfold set_invalidate. unfold find in Hr. rewrite Hr.
  cbn [res_bind]. rewrite (proj2 (rd_Ok _ _ _) Hsb). cbn [res_bind].
  rewrite wr_lt by (by eapply lookup_lt_Some). cbn [res_bind fst snd]. rewrite Hpu.
  eexists _, c'. split; [done|]. do 2 (split; [done|]). split.
  - apply slot_Some. exists (invalidate b). split; [done|]. split; [apply getTag_invalidate|by destruct b].
  - intros l2 Hl2. by apply slot_lines, Hrest.
Qed.

(** ** Accesses and insertions *)
Lemma lines_at c c' :
  m_cache_block_info_array <$> m_sets c' = m_cache_block_info_array <$> m_sets c →
  ∀ l, slot c' l = slot c l.
Proof.
  intros He l. apply slot_lines. unfold line_at.
  assert (Hl : (m_cache_block_info_array <$> m_sets c') !! l.1 = (m_cache_block_info_array <$> m_sets c) !! l.1)
    by (by rewrite He).
  rewrite !list_lookup_fmap in Hl. destruct (m_sets c' !! l.1), (m_sets c !! l.1); simpl in *; simplify_eq; [|done].
  by f_equal.
Qed.
Lemma access_slot cls c a acc bytes upd :
  cache_wf cls c → in_u64 a → access_ok c a bytes →
  (∀ buff, acc = STORE (Some buff) → bytes ≤ Z.of_nat (length buff))%Z →
  ∃ loc out c', accessSingleLine a acc bytes upd c = Ok (loc, out, c') ∧
    cache_wf cls c' ∧ c_base c' = c_base c ∧ (∀ l, slot c' l = slot c l) ∧
    peekSingleLine a c = Ok loc ∧ (∀ o, out = Some o → Z.of_nat (length o) = bytes).
Proof.
  intros Hwf Ha Hacc Hbuff. destruct (access_cache cls c a acc bytes upd Hwf Ha Hacc Hbuff)
    as (loc & out & c' & He & Hwf' & Hbase & _). exists loc, out, c'. do 3 (split; [done|]).
  split; [by apply lines_at; eapply access_lines|]. split; [by eapply access_peek|].
  intros o ->. destruct Hacc as [Hpos _]. eapply access_out; [|exact He]. lia.
Qed.

(** The buffer of an evicted line is full. *)
Lemma insert_buff c addr fill_buff evict_info want cntlr ins ea c' :
  insertSingleLine addr fill_buff evict_info want cntlr c = Ok (ins, ea, c') →
  ∀ s i, splitAddress (c_base c) addr = Ok i → m_sets c !! Z.to_nat i.2 = Some s → (0 ≤ m_blocksize s)%Z →
  ∀ buf, evict_buff ins = Some buf → Z.of_nat (length buf) = m_blocksize s.
Proof.
  unfold insertSingleLine. intros He s ts Hts Hs Hbs buf Hbuf. rewrite Hts in He. cbn [res_bind] in He.
  apply res_bind_Ok in He as (b & _ & He). apply res_bind_Ok in He as (s1 & Hs1%rd_Ok & He).
  assert (s1 = s) by congruence. subst s1. apply res_bind_Ok in He as ([[ins1 s'] sh] & Hi & He).
  assert (ins1 = ins) as ->.
  { apply res_bind_Ok in He as (ea' & _ & He). destruct (m_fault_injector c).
    - apply res_bind_Ok in He as (? & _ & He). apply res_bind_Ok in He as (? & _ & He).
      by apply res_bind_Ok in He as (c2 & _ & [= -> _ _]).
    - by apply res_bind_Ok in He as (c2 & _ & [= -> _ _]). }
  clear He. unfold insert in Hi. apply res_bind_Ok in Hi as ([j p] & _ & Hi).
  apply res_bind_Ok in Hi as (? & _ & Hi). apply res_bind_Ok in Hi as (v & _ & Hi).
  apply res_bind_Ok in Hi as (ev & Hev & Hi). apply res_bind_Ok in Hi as (line & _ & Hi).
  apply res_bind_Ok in Hi as (ln & _ & Hi). apply res_bind_Ok in Hi as (c2 & _ & [= -> _ _]).
  destruct (isValid v); [|by simplify_eq]. apply res_bind_Ok in Hev as (e & _ & Hev).
  apply res_bind_Ok in Hev as (bf & Hbf & [= <-]). simpl in Hbuf. subst bf. simpl in Hbf.
  destruct (m_blocks s) as [d|]; [|done]. destruct want; [|done].
  apply res_bind_Ok in Hbf as (y & Hx & [= ->]). unfold copy_out in Hx. simpl in Hx.
  match type of Hx with (if ?b then _ else _) = _ => destruct b eqn:Hle; [|done] end. injection Hx as <-.
  apply Z.leb_le in Hle. rewrite length_take, length_drop.
  pose proof (u32_range (Z.of_nat j * m_blocksize s + 0)) as Hr. unfold data_index in *. simpl in *. unfold in_u32 in Hr. lia.
Qed.

(** What an insertion did when it returned: a slot holds the new line, in state
    INVALID, and what it held before is described by [ins] and [ea]. *)
Definition insertion c (t : Z) (c' : Cache P) (ins : Inserted) (ea : Z) : Prop :=
  ∃ l old x, slot c l = Some (old, x) ∧ slot c' l = Some (t, CacheState.INVALID) ∧
    (∀ l', l' ≠ l → slot c' l' = slot c l') ∧
    (if bool_decide (old = INVALID_TAG) then eviction ins = false
     else eviction ins = true ∧ getTag (evict_block_info ins) = old ∧ getCState (evict_block_info ins) = x ∧
          tagToAddress (c_base c) old = Ok ea).

Lemma insert_slot_at cls c a fill_buff evict_info want q i sp :
  cache_wf cls c → in_u64 a → (∀ l x, slot c l ≠ Some (tag_of c a, x)) →
  class_fits evict_info cls = true →
  (∀ buff, fill_buff = Some buff → cb_blocksize (c_base c) ≤ Z.of_nat (length buff))%Z →
  (∀ s, m_sets c !! home_set (c_base c) (tag_of c a) = Some s →
    getReplacementIndex (view s (Some q)) (pol_state s (m_set_info c)) = Ok (i, sp) ∧
    i < m_associativity s ∧ policy_wf (m_associativity s) sp) →
  ∃ ins ea c', insertSingleLine a fill_buff evict_info want (Some q) c = Ok (ins, ea, c') ∧
    cache_wf cls c' ∧ c_base c' = c_base c ∧ insertion c (tag_of c a) c' ins ea ∧
    (∀ buf, evict_buff ins = Some buf → Z.of_nat (length buf) = cb_blocksize (c_base c)).
Proof.
  intros Hwf Ha Hno Hfit Hfill Hget.
  destruct (split_cache cls c a Hwf Ha) as (si & s & Hsp & Hlt & Hi & Hs & Hset & Has & Hbl & Ht & Htok & Hm).
  pose proof (slot_absent cls c _ Hwf Htok Ht Hno) as Hfree.
  pose proof Hwf as (Hcb & _ & _ & _ & Hcls & _). destruct (create_base _ _ Hcls) as [Hcv Hcs].
  destruct (Hget s Hs) as (Hg & Hilt & Hpol).
  pose proof (new_line_tag cls (tag_of c a)) as Hnt. pose proof (new_line_state cls (tag_of c a)) as Hns.
  destruct (insert_at cls s (m_set_info c) (new_line cls (tag_of c a)) fill_buff evict_info want q i sp)
    as (ins & s' & old & Hins & Hold & Hl' & Has' & Hbl' & Hd' & Hset' & Hsh & Hcont & Hev & Hinf);
    [done|unfold new_line; by rewrite same_class_map_base, same_class_refl|apply isValid_spec; congruence|congruence
    |done|intros buff ->; rewrite Hbl; auto|done..|].
  assert (Hbuff := insert_buff c a fill_buff evict_info want (Some q)).
  unfold insertSingleLine in Hbuff |- *. rewrite Hsp in Hbuff |- *. cbn [res_bind fst snd] in Hbuff |- *.
  rewrite Hcls in Hbuff |- *. cbn [res_bind] in Hbuff |- *. rewrite Hi, (proj2 (rd_Ok _ _ _) Hs) in Hbuff |- *.
  cbn [res_bind] in Hbuff |- *. fold (new_line cls (tag_of c a)) in Hbuff |- *. rewrite Hins in Hbuff |- *.
  cbn [res_bind] in Hbuff |- *.
  assert (Hta : ∀ t, tagToAddress (c_base c) t = Ok (u64 (Z.shiftl t (cb_log_blocksize (c_base c))))).
  { intros t. unfold tagToAddress, shl64. destruct Hcb as (_ & Hbpos & Hlog & _).
    pose proof (log2_lt_32 (cb_blocksize (c_base c)) ltac:(lia)). by rewrite (proj2 (Z.ltb_lt _ _)) by lia. }
  rewrite Hta in Hbuff |- *. cbn [res_bind] in Hbuff |- *. set (ea := u64 _) in Hbuff |- *.
  destruct (finish_insert cls c _ s s' (shared_of sp) (tag_of c a) (ins, ea) Hwf Hs Hset' Has' Hbl' Hd' Hsh)
    as (c' & Hfin & Hwf' & Hbase & Hsets & Hin & Hout);
    [rewrite Hcont; apply inserted_homes; [intros ? ? ?; by eapply set_homes|congruence..]
    |rewrite Hcont, Hnt, lookup_insert_eq; by eexists|done|].
  exists ins, ea, c'. split; [exact Hfin|]. do 2 (split; [done|]). split.
  2:{ intros buf Hb. rewrite <- Hbl. eapply Hbuff; [exact Hfin|done|simpl; by rewrite Hi| |done].
      by destruct Hset as (_ & _ & _ & _ & ? & _). }
  set (h := home_set (c_base c) (tag_of c a)) in *. assert (Hh : h < length (m_sets c)) by (by eapply lookup_lt_Some).
  exists (h, i), (getTag old), (getCState old). split; [|split; [|split]].
  - apply slot_Some. exists old. split; [|done]. apply line_at_Some. by exists s.
  - apply slot_Some. exists (new_line cls (tag_of c a)). split; [|by rewrite Hns].
    apply line_at_Some. exists s'. rewrite Hsets, Hl'. split; [by apply list_lookup_insert_eq|].
    apply list_lookup_insert_eq. by eapply lookup_lt_Some.
  - intros l' Hne. apply slot_lines. unfold line_at. rewrite Hsets.
    destruct (decide (l'.1 = h)) as [He|He]; [|by rewrite list_lookup_insert_ne].
    rewrite He, list_lookup_insert_eq, Hs by done. simpl. rewrite Hl'. apply list_lookup_insert_ne.
    intros Heq. apply Hne. destruct l'. simpl in *. congruence.
  - rewrite Hev. case_bool_decide as Hinv.
    + by apply isValid_false.
    + apply isValid_spec in Hinv. rewrite Hinv in *. assert (Htag : getTag (evict_block_info ins) = getTag old) by (unfold getTag; by rewrite Hinf).
      split; [done|]. split; [done|]. split; [unfold getCState; by rewrite Hinf|].
      unfold ea. rewrite Htag. apply Hta.
Qed.

(** An insertion fails only in a set with a line in transit. *)
Lemma insert_slot cls c a fill_buff evict_info want q :
  cache_wf cls c → in_u64 a → (∀ l x, slot c l ≠ Some (tag_of c a, x)) →
  class_fits evict_info cls = true →
  (∀ buff, fill_buff = Some buff → cb_blocksize (c_base c) ≤ Z.of_nat (length buff))%Z →
  match insertSingleLine a fill_buff evict_info want (Some q) c with
  | Ok (ins, ea, c') =>
      cache_wf cls c' ∧ c_base c' = c_base c ∧ insertion c (tag_of c a) c' ins ea ∧
      (∀ buf, evict_buff ins = Some buf → Z.of_nat (length buf) = cb_blocksize (c_base c))
  | Err _ => ∃ l t, slot c l = Some (t, CacheState.SHARED_UPGRADING)
  end.
Proof.
  intros Hwf Ha Hno Hfit Hfill.
  destruct (split_cache cls c a Hwf Ha) as (si & s & Hsp & Hlt & Hi & Hs & Hset & Has & Hbl & Ht & Htok & Hm).
  assert (Hdone : ∀ i sp, getReplacementIndex (view s (Some q)) (pol_state s (m_set_info c)) = Ok (i, sp) →
    i < m_associativity s → policy_wf (m_associativity s) sp →
    match insertSingleLine a fill_buff evict_info want (Some q) c with
    | Ok (ins, ea, c') =>
        cache_wf cls c' ∧ c_base c' = c_base c ∧ insertion c (tag_of c a) c' ins ea ∧
        (∀ buf, evict_buff ins = Some buf → Z.of_nat (length buf) = cb_blocksize (c_base c))
    | Err _ => ∃ l t, slot c l = Some (t, CacheState.SHARED_UPGRADING)
    end).
  { intros i sp Hg Hi' Hp. destruct (insert_slot_at cls c a fill_buff evict_info want q i sp) as (ins & ea & c' & -> & Hrest);
      [done..| |done]. intros s' Hs'. assert (s' = s) as -> by congruence. done. }
  pose proof Hset as ([Hlen Hpos] & Hp & _). simpl in Hlen, Hpos.
  destruct (decide (Forall replaceable (m_cache_block_info_array s))) as [Hrep|Hrep].
  { destruct (get_ok (view s (Some q)) (pol_state s (m_set_info c))) as (i & sp & He & Hi' & Hp');
      [by split|done|by eexists|done|]. by apply (Hdone i sp). }
  assert (Hsu : ∃ l t, slot c l = Some (t, CacheState.SHARED_UPGRADING)).
  { apply not_Forall_Exists in Hrep; [|apply _]. apply Exists_exists in Hrep as (b & Hb & Hr).
    apply list_elem_of_lookup in Hb as [w Hw]. exists (home_set (c_base c) (tag_of c a), w), (getTag b).
    apply slot_Some. exists b. split; [apply line_at_Some; by exists s|]. split; [done|].
    unfold replaceable in Hr. by destruct (decide (getCState b = CacheState.SHARED_UPGRADING)). }
  destruct (getReplacementIndex (view s (Some q)) (pol_state s (m_set_info c))) as [[i sp]|e] eqn:Hg.
  - destruct (decide (i < m_associativity s)) as [Hi'|Hi'].
    + apply (Hdone i sp); [done..|]. by eapply (get_keeps (view s (Some q))); [split|..].
    + destruct (insertSingleLine a fill_buff evict_info want (Some q) c) as [[[ins ea] c']|e] eqn:He; [|done].
      exfalso. unfold insertSingleLine in He. rewrite Hsp in He. cbn [res_bind fst snd] in He.
      apply res_bind_Ok in He as (b & _ & He). rewrite Hi, (proj2 (rd_Ok _ _ _) Hs) in He. cbn [res_bind] in He.
      apply res_bind_Ok in He as (r & Hr & _). unfold insert in Hr. rewrite Hg in Hr. cbn [res_bind fst snd] in Hr.
      apply res_bind_Ok in Hr as (? & Hr & _). unfold c_assert in Hr. simpl in Hr. by rewrite bool_decide_false in Hr.
  - destruct (insertSingleLine a fill_buff evict_info want (Some q) c) as [[[ins ea] c']|e'] eqn:He; [|done].
    exfalso. unfold insertSingleLine in He. rewrite Hsp in He. cbn [res_bind fst snd] in He.
    apply res_bind_Ok in He as (b & _ & He). rewrite Hi, (proj2 (rd_Ok _ _ _) Hs) in He. cbn [res_bind] in He.
    apply res_bind_Ok in He as (r & Hr & _). unfold insert in Hr. by rewrite Hg in Hr.
Qed.
End Slots.
