(* ===== verification/Directory.v ===== *)
(** Tag directories: src/common/core/memory_subsystem/directory_schemes and
    [dram_directory_cache.{h,cc}] of
    src/common/core/memory_subsystem/pr_l1_pr_l2_dram_directory_msi.

    Directory entries are shared objects: the directory, the list of replaced
    entries and the running request hold pointers to them.  They live in a
    heap; a pointer to a deleted entry is dangling.  The latencies that the
    performance model accumulates are not part of the model. *)
From S2P Require Import Prelude Utils Address.
Local Open Scope Z_scope.

Definition INVALID_CORE_ID : Z := -1.
Definition INVALID_ADDRESS : Z := 2 ^ 64 - 1.

(** ** class DirectoryState, DirectoryBlockInfo, DirectoryEntry *)

Inductive dstate_t : Type := UNCACHED | SHARED | OWNED | MODIFIED | EXCLUSIVE.
#[export] Instance dstate_t_eq_dec : EqDecision dstate_t.
Proof. solve_decision. Defined.

(** The two classes derived from [DirectoryEntrySized]. *)
Inductive EntryKind : Type :=
| LimitedNoBroadcast (m_rand_num : Z)
| Limitless (m_software_trap_enabled : bool) (m_software_trap_penalty : Z).

(** [m_sharers] is a bit set or a vector of booleans. *)
Record DirectoryEntry : Type := mkDirectoryEntry {
  m_address : Z;
  m_dstate : dstate_t;
  m_owner_id : Z;
  m_forwarder_id : Z;
  m_sharers : list bool;
  m_kind : EntryKind
}.

Definition setAddress (a : Z) (e : DirectoryEntry) : DirectoryEntry :=
  mkDirectoryEntry a (m_dstate e) (m_owner_id e) (m_forwarder_id e) (m_sharers e) (m_kind e).
Definition setDState (d : dstate_t) (e : DirectoryEntry) : DirectoryEntry :=
  mkDirectoryEntry (m_address e) d (m_owner_id e) (m_forwarder_id e) (m_sharers e) (m_kind e).
Definition setForwarder (f : Z) (e : DirectoryEntry) : DirectoryEntry :=
  mkDirectoryEntry (m_address e) (m_dstate e) (m_owner_id e) f (m_sharers e) (m_kind e).
Definition with_owner (o : Z) (e : DirectoryEntry) : DirectoryEntry :=
  mkDirectoryEntry (m_address e) (m_dstate e) o (m_forwarder_id e) (m_sharers e) (m_kind e).
Definition with_sharers (l : list bool) (e : DirectoryEntry) : DirectoryEntry :=
  mkDirectoryEntry (m_address e) (m_dstate e) (m_owner_id e) (m_forwarder_id e) l (m_kind e).
Definition with_kind (k : EntryKind) (e : DirectoryEntry) : DirectoryEntry :=
  mkDirectoryEntry (m_address e) (m_dstate e) (m_owner_id e) (m_forwarder_id e) (m_sharers e) k.

(** [m_sharers[i]]: a negative [core_id_t] is outside the container. *)
Definition rd_core {A} (l : list A) (i : Z) : res A :=
  if i <? 0 then Err ErrUndefined else rd l (Z.to_nat i).
Definition wr_core {A} (l : list A) (i : Z) (x : A) : res (list A) :=
  if i <? 0 then Err ErrUndefined else wr l (Z.to_nat i) x.

Definition hasSharer (e : DirectoryEntry) (sharer_id : Z) : res bool :=
  rd_core (m_sharers e) sharer_id.

(** [count()] and the loop of [getSharersList]. *)
Fixpoint sharers_from (i : nat) (l : list bool) : list Z :=
  match l with
  | [] => []
  | b :: l => if b : bool then Z.of_nat i :: sharers_from (S i) l else sharers_from (S i) l
  end.
Definition getSharersList (e : DirectoryEntry) : list Z := sharers_from 0 (m_sharers e).
Definition getNumSharers (e : DirectoryEntry) : Z :=
  Z.of_nat (length (List.filter id (m_sharers e))).

Definition addSharer_limited (sharer_id max_hw_sharers : Z) (e : DirectoryEntry) :
    res (bool * DirectoryEntry) :=
  let? b := rd_core (m_sharers e) sharer_id in
  c_assert (negb b);?
  if max_hw_sharers <=? getNumSharers e then Ok (false, e) else
  let? l := wr_core (m_sharers e) sharer_id true in
  Ok (true, with_sharers l e).

(** The limitless class compares the size of the container, not the number of
    sharers, with the limit. *)
Definition addSharer_limitless (penalty : Z) (sharer_id max_hw_sharers : Z) (e : DirectoryEntry) :
    res (bool * DirectoryEntry) :=
  let? b := rd_core (m_sharers e) sharer_id in
  c_assert (negb b);?
  let e := if Z.of_nat (length (m_sharers e)) =? max_hw_sharers
           then with_kind (Limitless true penalty) e else e in
  let? l := wr_core (m_sharers e) sharer_id true in
  Ok (true, with_sharers l e).

Definition addSharer (sharer_id max_hw_sharers : Z) (e : DirectoryEntry) :
    res (bool * DirectoryEntry) :=
  match m_kind e with
  | LimitedNoBroadcast _ => addSharer_limited sharer_id max_hw_sharers e
  | Limitless _ penalty => addSharer_limitless penalty sharer_id max_hw_sharers e
  end.

(** [removeSharer(sharer_id, reply_expected)]. *)
Definition removeSharer (sharer_id : Z) (reply_expected : bool) (e : DirectoryEntry) :
    res DirectoryEntry :=
  c_assert (negb reply_expected);?
  let? b := rd_core (m_sharers e) sharer_id in
  c_assert b;?
  let? l := wr_core (m_sharers e) sharer_id false in
  Ok (with_sharers l e).

Definition setOwner (owner_id : Z) (e : DirectoryEntry) : res DirectoryEntry :=
  (if owner_id =? INVALID_CORE_ID then Ok tt
   else let? b := rd_core (m_sharers e) owner_id in c_assert b);?
  Ok (with_owner owner_id e).

(** A random sharer. *)
Definition getOneSharer_limited (seed : Z) (e : DirectoryEntry) : res (Z * DirectoryEntry) :=
  let l := getSharersList e in
  c_assert (negb (bool_decide (l = [])));?
  let '(index, seed) := Random_next (Z.of_nat (length l)) seed in
  let? s := rd l (Z.to_nat index) in
  Ok (s, with_kind (LimitedNoBroadcast seed) e).

(** The first sharer. *)
Definition getOneSharer_limitless (e : DirectoryEntry) : res (Z * DirectoryEntry) :=
  let l := getSharersList e in
  c_assert (negb (bool_decide (l = [])));?
  let? s := rd l 0 in Ok (s, e).

Definition getOneSharer (e : DirectoryEntry) : res (Z * DirectoryEntry) :=
  match m_kind e with
  | LimitedNoBroadcast seed => getOneSharer_limited seed e
  | Limitless _ _ => getOneSharer_limitless e
  end.

Definition getEntryLatency (e : DirectoryEntry) : Z :=
  match m_kind e with
  | LimitedNoBroadcast _ => 0
  | Limitless trap penalty => if trap then penalty else 0
  end.

(** ** class Directory *)

Inductive DirectoryType : Type := FULL_MAP | LIMITED_NO_BROADCAST | LIMITLESS.

Definition parseDirectoryType (s : string) : res DirectoryType :=
  if bool_decide (s = "full_map"%string) then Ok FULL_MAP
  else if bool_decide (s = "limited_no_broadcast"%string) then Ok LIMITED_NO_BROADCAST
  else if bool_decide (s = "limitless"%string) then Ok LIMITLESS
  else Err (ErrLog "Unsupported Directory Type").

Definition ptr := nat.

(** [m_heap] and [m_next] are the allocated entries and the next fresh pointer;
    [m_garbage] is the value of a member that no constructor initialises. *)
Record Directory : Type := mkDirectory {
  m_directory_type : DirectoryType;
  m_num_entries : Z;
  m_num_entries_allocated : Z;
  m_max_hw_sharers : Z;
  m_use_max_hw_sharers : Z;
  m_max_num_sharers : Z;
  m_limitless_software_trap_penalty : Z;
  m_directory_entry_list : list (option ptr);
  m_heap : gmap ptr DirectoryEntry;
  m_next : ptr;
  m_garbage : Z
}.

Definition Directory_new (directory_type_str : string)
    (num_entries max_hw_sharers max_num_sharers penalty garbage : Z) : res Directory :=
  let? t := parseDirectoryType directory_type_str in
  Ok (mkDirectory t num_entries 0 max_hw_sharers max_hw_sharers max_num_sharers
        (match t with LIMITLESS => penalty | _ => 0 end)
        (replicate (Z.to_nat num_entries) None) ∅ O garbage).

Definition with_entries (l : list (option ptr)) (d : Directory) : Directory :=
  mkDirectory (m_directory_type d) (m_num_entries d) (m_num_entries_allocated d)
    (m_max_hw_sharers d) (m_use_max_hw_sharers d) (m_max_num_sharers d)
    (m_limitless_software_trap_penalty d) l (m_heap d) (m_next d) (m_garbage d).
Definition with_heap (h : gmap ptr DirectoryEntry) (n : ptr) (d : Directory) : Directory :=
  mkDirectory (m_directory_type d) (m_num_entries d) (m_num_entries_allocated d)
    (m_max_hw_sharers d) (m_use_max_hw_sharers d) (m_max_num_sharers d)
    (m_limitless_software_trap_penalty d) (m_directory_entry_list d) h n (m_garbage d).
Definition with_use_max (u : Z) (d : Directory) : Directory :=
  mkDirectory (m_directory_type d) (m_num_entries d) (m_num_entries_allocated d)
    (m_max_hw_sharers d) u (m_max_num_sharers d)
    (m_limitless_software_trap_penalty d) (m_directory_entry_list d) (m_heap d) (m_next d)
    (m_garbage d).
Definition count_allocated (d : Directory) : Directory :=
  mkDirectory (m_directory_type d) (m_num_entries d) (u64 (m_num_entries_allocated d + 1))
    (m_max_hw_sharers d) (m_use_max_hw_sharers d) (m_max_num_sharers d)
    (m_limitless_software_trap_penalty d) (m_directory_entry_list d) (m_heap d) (m_next d)
    (m_garbage d).

(** Access through a pointer. *)
Definition deref (p : ptr) : st Directory DirectoryEntry := λ d,
  match m_heap d !! p with Some e => Ok (e, d) | None => Err ErrUndefined end.
Definition store (p : ptr) (e : DirectoryEntry) : st Directory unit := λ d,
  match m_heap d !! p with
  | Some _ => Ok (tt, with_heap (<[p := e]> (m_heap d)) (m_next d) d)
  | None => Err ErrUndefined
  end.
Definition alloc (e : DirectoryEntry) : st Directory ptr := λ d,
  Ok (m_next d, with_heap (<[m_next d := e]> (m_heap d)) (S (m_next d)) d).
Definition free (p : ptr) : st Directory unit := λ d,
  match m_heap d !! p with
  | Some _ => Ok (tt, with_heap (delete p (m_heap d)) (m_next d) d)
  | None => Err ErrUndefined
  end.

(** The number of elements of the container [createDirectoryEntry] chooses. *)
Definition sharers_size (max_num_sharers : Z) : nat :=
  if max_num_sharers <=? 64 then 64
  else if max_num_sharers <=? 128 then 128
  else if max_num_sharers <=? 256 then 256
  else if max_num_sharers <=? 1024 then 1024
  else Z.to_nat max_num_sharers.

Definition new_entry (d : Directory) : DirectoryEntry :=
  mkDirectoryEntry INVALID_ADDRESS UNCACHED INVALID_CORE_ID (m_garbage d)
    (replicate (sharers_size (m_max_num_sharers d)) false)
    (match m_directory_type d with
     | LIMITLESS => Limitless false (m_limitless_software_trap_penalty d)
     | _ => LimitedNoBroadcast Random_init
     end).

Definition createDirectoryEntry : st Directory ptr :=
  let! e := gets new_entry in
  modify (λ d, match m_directory_type d with
               | FULL_MAP => with_use_max (m_max_num_sharers d) d
               | _ => d
               end);!
  alloc e.

Definition dir_getDirectoryEntry (entry_num : Z) : st Directory ptr :=
  let! n := gets m_num_entries in
  lift (log_assert (entry_num <? n) "Invalid entry_num");!
  let! l := gets m_directory_entry_list in
  let! p := lift (rd_core l entry_num) in
  match p with
  | Some p => ret p
  | None =>
      let! p := createDirectoryEntry in
      let! l := gets m_directory_entry_list in
      let! l := lift (wr_core l entry_num (Some p)) in
      modify (with_entries l);!
      modify count_allocated;!
      ret p
  end.

Definition setDirectoryEntry (entry_num : Z) (p : ptr) : st Directory unit :=
  let! l := gets m_directory_entry_list in
  let! l := lift (wr_core l entry_num (Some p)) in
  modify (with_entries l).

(** ** class DramDirectoryCache *)

Record DramDirectoryCache : Type := mkDDC {
  m_directory : Directory;
  m_replacement_ptrs : list Z;
  m_replaced_directory_entry_list : list ptr;
  ddc_total_entries : Z;
  ddc_associativity : nat;
  ddc_num_sets : Z;
  ddc_log_num_sets : Z;
  ddc_log_cache_block_size : Z
}.

(** [m_replacement_ptrs] is allocated but not initialised: [ptrs] are the values
    it happens to hold. *)
Definition DramDirectoryCache_new (directory_type_str : string) (total_entries : Z)
    (associativity : nat) (cache_block_size max_hw_sharers max_num_sharers penalty garbage : Z)
    (ptrs : list Z) : res DramDirectoryCache :=
  let? num_sets := div_nz total_entries (Z.of_nat associativity) in
  let? d := Directory_new directory_type_str total_entries max_hw_sharers max_num_sharers
              penalty garbage in
  Ok (mkDDC d (take (Z.to_nat num_sets) ptrs) [] total_entries associativity num_sets
        (u32 (floorLog2 num_sets)) (u32 (floorLog2 cache_block_size))).

Definition on_directory {A} (m : st Directory A) : st DramDirectoryCache A :=
  zoom m_directory
    (λ d c, mkDDC d (m_replacement_ptrs c) (m_replaced_directory_entry_list c)
              (ddc_total_entries c) (ddc_associativity c) (ddc_num_sets c)
              (ddc_log_num_sets c) (ddc_log_cache_block_size c)) m.
Definition with_ptrs (l : list Z) (c : DramDirectoryCache) : DramDirectoryCache :=
  mkDDC (m_directory c) l (m_replaced_directory_entry_list c) (ddc_total_entries c)
    (ddc_associativity c) (ddc_num_sets c) (ddc_log_num_sets c) (ddc_log_cache_block_size c).
Definition with_replaced (l : list ptr) (c : DramDirectoryCache) : DramDirectoryCache :=
  mkDDC (m_directory c) (m_replacement_ptrs c) l (ddc_total_entries c)
    (ddc_associativity c) (ddc_num_sets c) (ddc_log_num_sets c) (ddc_log_cache_block_size c).

(** Tag and set; only the set is used. *)
Definition ddc_splitAddress (c : DramDirectoryCache) (address : Z) : res (Z * Z) :=
  let? b := shr64 address (ddc_log_cache_block_size c) in
  let? tag := shr64 b (ddc_log_num_sets c) in
  Ok (tag, Z.land (u32 b) (u32 (ddc_num_sets c - 1))).

(** [set_index * m_associativity + i]. *)
Definition slot (c : DramDirectoryCache) (set_index : Z) (i : nat) : Z :=
  u32 (set_index * Z.of_nat (ddc_associativity c) + Z.of_nat i).

(** [for (i = 0; i < m_associativity; i++)]: the first entry of the set whose
    address is [a], with its way. *)
Fixpoint find_way (set_index a : Z) (n i : nat) : st DramDirectoryCache (option (nat * ptr)) :=
  match n with
  | O => ret None
  | S n =>
      let! c := gets id in
      let! p := on_directory (dir_getDirectoryEntry (slot c set_index i)) in
      let! e := on_directory (deref p) in
      if m_address e =? a then ret (Some (i, p)) else find_way set_index a n (S i)
  end.

(** The first entry of the list of replaced entries with this address, with its
    index. *)
Fixpoint find_replaced (a : Z) (l : list ptr) (i : nat) : st DramDirectoryCache (option (nat * ptr)) :=
  match l with
  | [] => ret None
  | p :: l =>
      let! e := on_directory (deref p) in
      if m_address e =? a then ret (Some (i, p)) else find_replaced a l (S i)
  end.

Definition getDirectoryEntry (address : Z) : st DramDirectoryCache (option ptr) :=
  let! c := gets id in
  let! ts := lift (ddc_splitAddress c address) in
  let! r := find_way ts.2 address (ddc_associativity c) 0 in
  match r with
  | Some (_, p) => ret (Some p)
  | None =>
      let! r := find_way ts.2 INVALID_ADDRESS (ddc_associativity c) 0 in
      match r with
      | Some (_, p) =>
          let! e := on_directory (deref p) in
          on_directory (store p (setAddress address e));!
          ret (Some p)
      | None =>
          let! l := gets m_replaced_directory_entry_list in
          let! r := find_replaced address l 0 in
          ret (snd <$> r)
      end
  end.

(** The loop of [getReplacementCandidates]. *)
Fixpoint candidates (set_index rp : Z) (n i : nat) : st DramDirectoryCache (list ptr) :=
  match n with
  | O => ret []
  | S n =>
      let! c := gets id in
      let way := Z.to_nat (u32 (Z.of_nat i + rp) mod Z.of_nat (ddc_associativity c)) in
      let! p := on_directory (dir_getDirectoryEntry (slot c set_index way)) in
      let! l := candidates set_index rp n (S i) in
      ret (p :: l)
  end.

Definition getReplacementCandidates (address : Z) : st DramDirectoryCache (list ptr) :=
  let! p := getDirectoryEntry address in
  lift (c_assert (bool_decide (p = None)));!
  let! c := gets id in
  let! ts := lift (ddc_splitAddress c address) in
  let! rp := lift (rd_core (m_replacement_ptrs c) ts.2) in
  let! l := candidates ts.2 rp (ddc_associativity c) 0 in
  let! ptrs := lift (wr_core (m_replacement_ptrs c) ts.2 (u32 (rp + 1))) in
  modify (with_ptrs ptrs);!
  ret l.

Definition replaceDirectoryEntry (replaced_address address : Z) : st DramDirectoryCache ptr :=
  let! c := gets id in
  let! ts := lift (ddc_splitAddress c replaced_address) in
  let! r := find_way ts.2 replaced_address (ddc_associativity c) 0 in
  match r with
  | Some (i, old) =>
      modify (λ c, with_replaced (m_replaced_directory_entry_list c ++ [old]) c);!
      let! p := on_directory createDirectoryEntry in
      let! e := on_directory (deref p) in
      on_directory (store p (setAddress address e));!
      on_directory (setDirectoryEntry (slot c ts.2 i) p);!
      ret p
  | None => fail (ErrLog "replaceDirectoryEntry: should not reach here")
  end.

Definition invalidateDirectoryEntry (address : Z) : st DramDirectoryCache unit :=
  let! l := gets m_replaced_directory_entry_list in
  let! r := find_replaced address l 0 in
  match r with
  | Some (i, p) =>
      on_directory (free p);!
      modify (λ c, with_replaced (delete i (m_replaced_directory_entry_list c)) c)
  | None => fail (ErrLog "invalidateDirectoryEntry: should not reach here")
  end.

Definition getMaxHwSharers (c : DramDirectoryCache) : Z := m_use_max_hw_sharers (m_directory c).

(** * Facts *)

(** ** Sharers *)

Lemma sharers_from_elem i l x :
  x ∈ sharers_from i l ↔ ∃ j, l !! j = Some true ∧ x = Z.of_nat (i + j).
Proof.
  revert i. induction l as [|b l IH]; intros i; simpl.
  { split; [by intros ?%elem_of_nil|]. by intros (j & ? & _). }
  assert (Ht : (∃ j, l !! j = Some true ∧ x = Z.of_nat (S i + j))
               ↔ ∃ j, (b :: l) !! S j = Some true ∧ x = Z.of_nat (i + S j)).
  { split; intros (j & Hj & ->); exists j; (split; [done|]); lia. }
  destruct b; rewrite ?elem_of_cons, IH, Ht; split.
  - intros [->|(j & Hj & ->)]; [exists 0%nat; split; [done|]; lia|by exists (S j)].
  - intros ([|j] & Hj & ->); [left; lia|right; by exists j].
  - intros (j & Hj & ->). by exists (S j).
  - intros ([|j] & Hj & ->); [done|by exists j].
Qed.

Lemma sharers_from_NoDup i l : NoDup (sharers_from i l).
Proof.
  revert i. induction l as [|[] l IH]; intros i; simpl; [constructor| |done].
  constructor; [|done]. rewrite sharers_from_elem. intros (j & _ & ?). lia.
Qed.

Lemma sharers_from_length i l : length (sharers_from i l) = length (List.filter id l).
Proof. revert i. induction l as [|[] l IH]; intros i; simpl; auto. Qed.

Lemma getNumSharers_length e : getNumSharers e = Z.of_nat (length (getSharersList e)).
Proof. unfold getNumSharers, getSharersList. by rewrite sharers_from_length. Qed.

Lemma getNumSharers_0 e : getNumSharers e = 0 ↔ getSharersList e = [].
Proof. rewrite getNumSharers_length. destruct (getSharersList e); simpl; split; (done || lia). Qed.

Lemma rd_core_Ok {A} (l : list A) i x :
  rd_core l i = Ok x ↔ 0 ≤ i ∧ l !! Z.to_nat i = Some x.
Proof.
  unfold rd_core. destruct (Z.ltb_spec i 0); [split; [done|lia]|]. rewrite rd_Ok. naive_solver.
Qed.

Lemma wr_core_Ok {A} (l l' : list A) i x :
  wr_core l i x = Ok l' ↔ 0 ≤ i ∧ (Z.to_nat i < length l)%nat ∧ l' = <[Z.to_nat i := x]> l.
Proof.
  unfold wr_core. destruct (Z.ltb_spec i 0); [split; [done|lia]|]. rewrite wr_Ok. naive_solver.
Qed.

Lemma hasSharer_elem e x : hasSharer e x = Ok true ↔ x ∈ getSharersList e.
Proof.
  unfold hasSharer, getSharersList. rewrite rd_core_Ok, sharers_from_elem. split.
  - intros [Hx Hl]. exists (Z.to_nat x). split; [done|]. lia.
  - intros (j & Hj & ->). split; [lia|]. by rewrite Nat2Z.id.
Qed.

(** A duplicate-free list with a single member. *)
Lemma NoDup_single (l : list Z) x : NoDup l → (∀ y, y ∈ l ↔ y = x) → l = [x].
Proof.
  intros Hd Hl. apply Permutation_singleton_r. apply NoDup_Permutation; [done|apply NoDup_singleton|].
  intros y. by rewrite Hl, list_elem_of_singleton.
Qed.

Lemma sharers_insert l j b x :
  (j < length l)%nat →
  x ∈ sharers_from 0 (<[j := b]> l) ↔
  if decide (x = Z.of_nat j) then b = true else x ∈ sharers_from 0 l.
Proof.
  intros Hj. case_decide as Hx; rewrite !sharers_from_elem; simpl.
  - split.
    + intros (i & Hi & ->). apply Nat2Z.inj in Hx as ->.
      rewrite list_lookup_insert_eq in Hi by done. congruence.
    + intros ->. exists j. split; [by rewrite list_lookup_insert_eq|done].
  - split; intros (i & Hi & ->); exists i; (split; [|done]);
      rewrite list_lookup_insert_ne in * by congruence; done.
Qed.

(** What the operations do to the set of sharers. *)
Lemma addSharer_true x m e e' :
  addSharer x m e = Ok (true, e') →
  0 ≤ x ∧ x ∉ getSharersList e ∧ (∀ y, y ∈ getSharersList e' ↔ y = x ∨ y ∈ getSharersList e) ∧
  m_dstate e' = m_dstate e ∧ m_owner_id e' = m_owner_id e ∧ m_address e' = m_address e.
Proof.
  intros He. assert (Hw : ∃ b e0 l, rd_core (m_sharers e) x = Ok b ∧ c_assert (negb b) = Ok tt ∧
            e' = with_sharers l e0 ∧ m_sharers e0 = m_sharers e ∧
            m_dstate e0 = m_dstate e ∧ m_owner_id e0 = m_owner_id e ∧ m_address e0 = m_address e ∧
            wr_core (m_sharers e0) x true = Ok l).
  { unfold addSharer in He. destruct (m_kind e) as [seed|trap penalty];
      (apply res_bind_Ok in He as (b & Hb & He); apply res_bind_Ok in He as ([] & Hc & He)).
    - destruct (_ <=? _); [done|]. apply res_bind_Ok in He as (l & Hl & [= <-]). by exists b, e, l.
    - apply res_bind_Ok in He as (l & Hl & [= <-]). exists b. case_match; by eexists _, l. }
  destruct Hw as (b & e0 & l & Hb & Hc & -> & Hs & Hd & Ho & Had & Hw). destruct b; [done|].
  assert (Hx : x ∉ getSharersList e) by (rewrite <- hasSharer_elem; unfold hasSharer; congruence).
  apply rd_core_Ok in Hb as [H0 Hb]. apply wr_core_Ok in Hw as (_ & Hlt & ->).
  rewrite Hs in *. split; [done|]. split; [done|]. split; [|done]. intros y. unfold getSharersList. simpl.
  rewrite sharers_insert by done. case_decide; naive_solver lia.
Qed.

Lemma addSharer_false x m e e' : addSharer x m e = Ok (false, e') → e' = e.
Proof.
  unfold addSharer. intros He. destruct (m_kind e) as [seed|trap penalty];
    (apply res_bind_Ok in He as (b & Hb & He); apply res_bind_Ok in He as ([] & Hc & He)).
  - destruct (_ <=? _); [naive_solver|]. by apply res_bind_Ok in He as (l & Hl & [=]).
  - by apply res_bind_Ok in He as (l & Hl & [=]).
Qed.

Lemma removeSharer_Ok x b e e' :
  removeSharer x b e = Ok e' →
  x ∈ getSharersList e ∧ (∀ y, y ∈ getSharersList e' ↔ y ≠ x ∧ y ∈ getSharersList e) ∧
  m_dstate e' = m_dstate e ∧ m_owner_id e' = m_owner_id e ∧ m_address e' = m_address e.
Proof.
  unfold removeSharer. intros He. apply res_bind_Ok in He as ([] & _ & He).
  apply res_bind_Ok in He as (c & Hc & He). apply res_bind_Ok in He as ([] & Ha & He).
  destruct c; [|done]. apply res_bind_Ok in He as (l & Hl & [= <-]).
  split; [by apply hasSharer_elem|]. apply wr_core_Ok in Hl as (H0 & Hlt & ->).
  split; [|done]. intros y. unfold getSharersList. simpl. rewrite sharers_insert by done.
  case_decide; naive_solver lia.
Qed.

Lemma setOwner_Ok o e e' : setOwner o e = Ok e' → e' = with_owner o e.
Proof. unfold setOwner. intros He. by apply res_bind_Ok in He as ([] & _ & [= <-]). Qed.

Lemma getOneSharer_Ok e x e' :
  getOneSharer e = Ok (x, e') → x ∈ getSharersList e ∧ ∃ k, e' = with_kind k e.
Proof.
  unfold getOneSharer. intros He. destruct (m_kind e) as [seed|trap penalty] eqn:Hk.
  - unfold getOneSharer_limited in He. apply res_bind_Ok in He as ([] & _ & He).
    destruct (Random_next _ _) as [i seed']. apply res_bind_Ok in He as (s & Hs & [= -> <-]).
    apply rd_Ok, list_elem_of_lookup_2 in Hs. eauto.
  - apply res_bind_Ok in He as ([] & _ & He). apply res_bind_Ok in He as (s & Hs & [= -> <-]).
    apply rd_Ok, list_elem_of_lookup_2 in Hs. split; [done|]. exists (m_kind e). by destruct e.
Qed.
