(* ===== verification/DirectoryFacts.v ===== *)
(** The invariant of the tag directory of [Directory]: an entry describes a
    possible state of the protocol, an address has at most one entry, and an
    entry is found where a lookup searches for it; the operations of
    [DramDirectoryCache] keep it. *)
From S2P Require Import Prelude Utils Address Directory.
Local Open Scope Z_scope.

(** ** One entry *)

(** An uncached line has no sharer, a shared line has one, and an exclusive or
    modified line is in one cache, its owner. *)
Definition entry_inv (e : DirectoryEntry) : Prop :=
  match m_dstate e with
  | UNCACHED => getSharersList e = []
  | SHARED => getSharersList e ≠ []
  | EXCLUSIVE | MODIFIED => getSharersList e = [m_owner_id e]
  | OWNED => False
  end.

Lemma sharers_replicate n i : sharers_from i (replicate n false) = [].
Proof. revert i. induction n as [|n IH]; intros i; [done|apply IH]. Qed.

Lemma new_entry_inv d : entry_inv (new_entry d).
Proof. apply sharers_replicate. Qed.

Lemma setAddress_inv a e : entry_inv e → entry_inv (setAddress a e).
Proof. done. Qed.
Lemma setForwarder_inv a e : entry_inv e → entry_inv (setForwarder a e).
Proof. done. Qed.
Lemma with_kind_inv k e : entry_inv e → entry_inv (with_kind k e).
Proof. done. Qed.

(** The first sharer of an uncached line becomes its owner. *)
Lemma first_sharer_inv x m e e1 e2 (d : dstate_t) :
  entry_inv e → m_dstate e = UNCACHED → addSharer x m e = Ok (true, e1) → setOwner x e1 = Ok e2 →
  d ≠ UNCACHED → d ≠ OWNED → entry_inv (setDState d e2).
Proof.
  intros Hi Hd Ha ->%setOwner_Ok Hu Ho. unfold entry_inv in Hi. rewrite Hd in Hi.
  apply addSharer_true in Ha as (_ & _ & Hs & _).
  assert (Hl : getSharersList (setDState d (with_owner x e1)) = [x]).
  { apply NoDup_single; [apply sharers_from_NoDup|]. intros y.
    change (y ∈ getSharersList e1 ↔ y = x). rewrite Hs, Hi. set_solver. }
  unfold entry_inv. simpl. by destruct d; rewrite ?Hl.
Qed.

(** One more sharer of a shared line. *)
Lemma add_shared_inv x m e e' :
  entry_inv e → m_dstate e = SHARED → addSharer x m e = Ok (true, e') → entry_inv e'.
Proof.
  intros Hi Hd Ha. unfold entry_inv. apply addSharer_true in Ha as (_ & _ & Hs & -> & _).
  rewrite Hd. intros He. specialize (Hs x). rewrite He in Hs. set_solver.
Qed.

(** A sharer leaves; the line stays shared or becomes uncached. *)
Lemma remove_inv x e e' :
  entry_inv e → removeSharer x false e = Ok e' →
  getSharersList e' = [] ∨ (m_dstate e' = SHARED ∧ getSharersList e' ≠ []).
Proof.
  intros Hi Hr. apply removeSharer_Ok in Hr as (Hx & Hs & Hd & _).
  destruct (decide (getSharersList e' = [])) as [|Hne]; [by left|right]. split; [|done].
  rewrite Hd. unfold entry_inv in Hi.
  destruct (getSharersList e') as [|y l] eqn:Hl; [done|].
  assert (Hy : y ≠ x ∧ y ∈ getSharersList e) by (apply Hs; left).
  destruct (m_dstate e); [by rewrite Hi in Hx; apply elem_of_nil in Hx|done|done| |];
    rewrite Hi, !list_elem_of_singleton in *; naive_solver.
Qed.

(** ** The directory *)

Section Ddc.
Implicit Types (c : DramDirectoryCache).

Definition heap_of c : gmap ptr DirectoryEntry := m_heap (m_directory c).
Definition live c (i : nat) (p : ptr) : Prop :=
  m_directory_entry_list (m_directory c) !! i = Some (Some p).

Definition ddc_dims c : Prop :=
  (0 < ddc_associativity c)%nat ∧ 0 < ddc_num_sets c ∧
  ddc_num_sets c * Z.of_nat (ddc_associativity c) ≤ m_num_entries (m_directory c) < 2 ^ 32 ∧
  length (m_directory_entry_list (m_directory c)) = Z.to_nat (m_num_entries (m_directory c)) ∧
  0 ≤ ddc_log_num_sets c < 64 ∧ 0 ≤ ddc_log_cache_block_size c < 64.

(** The addresses of lines. *)
Definition valid_address (a : Z) : Prop := in_u64 a ∧ a ≠ INVALID_ADDRESS.

(** The set of an address. *)
Definition set_of c (a : Z) : nat :=
  Z.to_nat (Z.land (u32 (Z.shiftr a (ddc_log_cache_block_size c))) (u32 (ddc_num_sets c - 1))).

(** Every way of a set holds the entry of an address. *)
Definition full c (s : nat) : Prop :=
  ∀ w, (w < ddc_associativity c)%nat →
  ∃ p e, live c (s * ddc_associativity c + w) p ∧ heap_of c !! p = Some e ∧ m_address e ≠ INVALID_ADDRESS.

Record ddc_wf c : Prop := {
  wf_dims : ddc_dims c;
  wf_slot i p : live c i p →
    ∃ e, heap_of c !! p = Some e ∧
         (m_address e ≠ INVALID_ADDRESS → set_of c (m_address e) = (i / ddc_associativity c)%nat);
  wf_slot_inj i j p : live c i p → live c j p → i = j;
  wf_replaced_nodup : NoDup (m_replaced_directory_entry_list c);
  wf_replaced p : p ∈ m_replaced_directory_entry_list c →
    (∀ i, ¬ live c i p) ∧
    ∃ e, heap_of c !! p = Some e ∧ m_address e ≠ INVALID_ADDRESS ∧ full c (set_of c (m_address e));
  wf_tracked p e : heap_of c !! p = Some e → m_address e ≠ INVALID_ADDRESS →
    (∃ i, live c i p) ∨ p ∈ m_replaced_directory_entry_list c;
  wf_unique p q e e' : heap_of c !! p = Some e → heap_of c !! q = Some e' →
    m_address e = m_address e' → m_address e ≠ INVALID_ADDRESS → p = q;
  wf_fresh p e : heap_of c !! p = Some e → (p < m_next (m_directory c))%nat;
  wf_entry p e : heap_of c !! p = Some e → entry_inv e;
  wf_unassigned p e : heap_of c !! p = Some e → m_address e = INVALID_ADDRESS → m_dstate e = UNCACHED;
  wf_addr p e : heap_of c !! p = Some e → in_u64 (m_address e)
}.

(** The entry of an address, wherever it is. *)
Definition entry_of c (a : Z) (e : DirectoryEntry) : Prop :=
  ∃ p, heap_of c !! p = Some e ∧ m_address e = a.
Definition absent c (a : Z) : Prop := ∀ p e, heap_of c !! p = Some e → m_address e ≠ a.

(** The parts of the object that lookups do not change: entries are added, with
    no address, in slots that were empty. *)
Record grows c c' : Prop := {
  gr_static : ddc_associativity c' = ddc_associativity c ∧ ddc_num_sets c' = ddc_num_sets c ∧
              ddc_log_cache_block_size c' = ddc_log_cache_block_size c ∧
              m_replaced_directory_entry_list c' = m_replaced_directory_entry_list c ∧
              m_replacement_ptrs c' = m_replacement_ptrs c ∧ ddc_log_num_sets c' = ddc_log_num_sets c;
  gr_heap p e : heap_of c !! p = Some e → heap_of c' !! p = Some e;
  gr_new p e : heap_of c' !! p = Some e → heap_of c !! p = Some e ∨ m_address e = INVALID_ADDRESS;
  gr_live i p : live c i p → live c' i p
}.

#[local] Instance grows_preorder : PreOrder grows.
Proof.
  split; [by intros c; split; auto|]. intros c1 c2 c3 H1 H2. split.
    destruct (gr_static _ _ H1) as (E1 & E2 & E3 & E4 & E5 & E6).
    destruct (gr_static _ _ H2) as (F1 & F2 & F3 & F4 & F5 & F6). split_and!; congruence.
  - intros p e Hp. by apply (gr_heap _ _ H2), (gr_heap _ _ H1).
  - intros p e [Hp|]%(gr_new _ _ H2); [|by right]. by apply (gr_new _ _ H1).
  - intros i p Hp. by apply (gr_live _ _ H2), (gr_live _ _ H1).
Qed.

Definition put_directory (d : Directory) c : DramDirectoryCache :=
  mkDDC d (m_replacement_ptrs c) (m_replaced_directory_entry_list c) (ddc_total_entries c)
    (ddc_associativity c) (ddc_num_sets c) (ddc_log_num_sets c) (ddc_log_cache_block_size c).

(** A new entry [e] at the fresh pointer [n], written to slot [i]. *)
Record slot_written c c' (i : nat) (n : ptr) (e : DirectoryEntry) : Prop := {
  sw_dims : ddc_dims c → ddc_dims c';
  sw_set_of a : set_of c' a = set_of c a;
  sw_assoc : ddc_associativity c' = ddc_associativity c;
  sw_heap p e' : heap_of c' !! p = Some e' → (p = n ∧ e' = e) ∨ heap_of c !! p = Some e';
  sw_old p e' : heap_of c !! p = Some e' → heap_of c' !! p = Some e' ∧ p ≠ n;
  sw_new : heap_of c' !! n = Some e ∧ live c' i n ∧ ∀ j, ¬ live c j n;
  sw_live j p : live c' j p → (j = i ∧ p = n) ∨ (j ≠ i ∧ live c j p);
  sw_live_old j p : j ≠ i → live c j p → live c' j p;
  sw_fresh p e' : heap_of c' !! p = Some e' → (p < m_next (m_directory c'))%nat
}.

Lemma slot_written_intro c d l e i :
  ddc_wf c → (i < length (m_directory_entry_list (m_directory c)))%nat →
  m_heap d = <[m_next (m_directory c) := e]> (heap_of c) →
  m_directory_entry_list d
  = <[i := Some (m_next (m_directory c))]> (m_directory_entry_list (m_directory c)) →
  m_next d = S (m_next (m_directory c)) → m_num_entries d = m_num_entries (m_directory c) →
  slot_written c (put_directory d (with_replaced l c)) i (m_next (m_directory c)) e.
Proof.
  intros Hwf Hlt Hh Hl Hn Hne. set (n := m_next (m_directory c)) in *.
  assert (Hfr : ∀ p e', heap_of c !! p = Some e' → p ≠ n).
  { intros p e' Hp ->. apply (wf_fresh c Hwf) in Hp. lia. }
  assert (Hheap : ∀ p e', heap_of (put_directory d (with_replaced l c)) !! p = Some e' →
                  (p = n ∧ e' = e) ∨ heap_of c !! p = Some e').
  { intros p e'. unfold heap_of. simpl. rewrite Hh. intros [[<- <-]|[_ ?]]%lookup_insert_Some; auto. }
  split; [|done|done|done| | | | |].
  - intros (? & ? & ? & ? & ?). unfold ddc_dims. simpl. by rewrite Hne, Hl, length_insert.
  - intros p e' Hp. pose proof (Hfr p e' Hp). unfold heap_of. simpl. by rewrite Hh, lookup_insert_ne.
  - unfold heap_of, live. simpl. rewrite Hh, Hl, lookup_insert_eq, list_lookup_insert_eq by done.
    split; [done|]. split; [done|]. intros j Hj. change (live c j n) in Hj.
    apply (wf_slot c Hwf) in Hj as (e' & Hp & _). by apply Hfr in Hp.
  - intros j p. unfold live. simpl. rewrite Hl.
    intros [(<- & [= <-] & _)|[? ?]]%list_lookup_insert_Some; auto.
  - intros j p Hj. unfold live. simpl. rewrite Hl. by rewrite list_lookup_insert_ne by done.
  - simpl. rewrite Hn. intros p e' [[-> ->]|Hp]%Hheap; [lia|]. apply (wf_fresh c Hwf) in Hp. lia.
Qed.

(** A new entry without address in an empty slot. *)
Lemma new_slot_wf c c' e i n :
  ddc_wf c → slot_written c c' i n e → m_directory_entry_list (m_directory c) !! i = Some None →
  m_address e = INVALID_ADDRESS → entry_inv e → m_dstate e = UNCACHED →
  m_replaced_directory_entry_list c' = m_replaced_directory_entry_list c →
  ddc_wf c' ∧ ∀ j p, live c j p → live c' j p.
Proof.
  intros Hwf [Sd Ss Sa Sh So (Sn & Sl & Snl) Slive Sold Sf] Hi Ha He Hu Hr.
  assert (Hlive : ∀ j p, live c j p → live c' j p).
  { intros j p Hj. apply Sold; [|done]. intros ->. unfold live in Hj. congruence. }
  split; [|done]. split.
  - apply Sd, (wf_dims c Hwf).
  - intros j p [[-> ->]|[_ Hj]]%Slive.
    + exists e. by rewrite Ha.
    + apply (wf_slot c Hwf) in Hj as (e' & Hp & Hset). exists e'. rewrite Ss, Sa. split; [by apply So|done].
  - intros j k p [[-> ->]|[_ Hj]]%Slive [[-> Hk']|[_ Hk]]%Slive; [done|by apply Snl in Hk|subst; by apply Snl in Hj|].
    by eapply (wf_slot_inj c Hwf).
  - rewrite Hr. apply (wf_replaced_nodup c Hwf).
  - rewrite Hr. intros p Hp. destruct (wf_replaced c Hwf p Hp) as (Hno & e' & He' & Ha' & Hf). split.
    + intros j [[-> ->]|[_ Hj]]%Slive; [by apply So in He' as []|by apply (Hno j)].
    + exists e'. split; [by apply So|]. split; [done|]. rewrite Ss. intros w. rewrite Sa. intros Hw.
      destruct (Hf w Hw) as (q & e2 & Hq & He2 & Ha2). exists q, e2.
      split; [by apply Hlive|]. split; [by apply So|done].
  - rewrite Hr. intros p e' [[-> ->]|Hp]%Sh Hna; [done|].
    destruct (wf_tracked c Hwf p e' Hp Hna) as [[j Hj]|]; [|by right]. left. exists j. by apply Hlive.
  - intros p q e1 e2 [[-> ->]|Hp]%Sh [[-> ->]|Hq]%Sh Heq Hna; [done|congruence|congruence|].
    by eapply (wf_unique c Hwf).
  - exact Sf.
  - intros p e' [[-> ->]|Hp]%Sh; [done|by apply (wf_entry c Hwf) in Hp].
  - intros p e' [[-> ->]|Hp]%Sh; [done|by apply (wf_unassigned c Hwf p e')].
  - intros p e' [[-> ->]|Hp]%Sh; [by rewrite Ha|by apply (wf_addr c Hwf p e')].
Qed.

(** The slots of a set. *)
Lemma set_of_lt c a : ddc_dims c → Z.of_nat (set_of c a) < ddc_num_sets c.
Proof.
  intros (Ha & Hn & Hb & _). unfold set_of.
  rewrite (u32_id (ddc_num_sets c - 1)) by (unfold in_u32; nia).
  pose proof (land_le_r (u32 (Z.shiftr a (ddc_log_cache_block_size c))) (ddc_num_sets c - 1)).
  pose proof (Z.land_nonneg (u32 (Z.shiftr a (ddc_log_cache_block_size c))) (ddc_num_sets c - 1)). lia.
Qed.

Lemma ddc_splitAddress_ok c a :
  ddc_dims c → ∃ tag, ddc_splitAddress c a = Ok (tag, Z.of_nat (set_of c a)).
Proof.
  intros (_ & Hn & _ & _ & Hl & Hb). unfold ddc_splitAddress, shr64, set_of.
  rewrite (proj2 (Z.ltb_lt _ _)) by lia. simpl. rewrite (proj2 (Z.ltb_lt _ _)) by lia. simpl.
  eexists. rewrite Z2Nat.id; [done|]. apply Z.land_nonneg. right. apply u32_range.
Qed.

Lemma slot_ok c s w :
  ddc_dims c → Z.of_nat s < ddc_num_sets c → (w < ddc_associativity c)%nat →
  slot c (Z.of_nat s) w = Z.of_nat (s * ddc_associativity c + w) ∧
  Z.of_nat (s * ddc_associativity c + w) < m_num_entries (m_directory c).
Proof.
  intros (Ha & Hn & Hb & _) Hs Hw. unfold slot.
  assert (Z.of_nat (s * ddc_associativity c + w) < ddc_num_sets c * Z.of_nat (ddc_associativity c)) by nia.
  split; [|lia]. rewrite u32_id; [lia|]. unfold in_u32. lia.
Qed.

Lemma wr_core_nat {A} (l : list A) i x :
  (i < length l)%nat → wr_core l (Z.of_nat i) x = Ok (<[i := x]> l).
Proof. intros Hi. apply wr_core_Ok. rewrite Nat2Z.id. split; [lia|done]. Qed.

(** The entry of a slot, created if the slot is empty. *)
Lemma get_slot_runs c0 i :
  ddc_wf c0 → Z.of_nat i < m_num_entries (m_directory c0) →
  runs (on_directory (dir_getDirectoryEntry (Z.of_nat i))) c0
    (λ p c, ddc_wf c ∧ grows c0 c ∧ live c i p).
Proof.
  intros Hwf Hi. unfold runs, on_directory, zoom, dir_getDirectoryEntry, st_bind, gets, lift. simpl.
  rewrite (proj2 (Z.ltb_lt _ _) Hi). simpl.
  destruct (lookup_lt_is_Some_2 (m_directory_entry_list (m_directory c0)) i) as [[p|] Hp].
  { destruct (wf_dims c0 Hwf) as (_ & _ & _ & -> & _). lia. }
  - rewrite (proj2 (rd_core_Ok _ (Z.of_nat i) (Some p))) by (rewrite Nat2Z.id; split; [lia|done]). simpl.
    by destruct c0.
  - rewrite (proj2 (rd_core_Ok _ (Z.of_nat i) None)) by (rewrite Nat2Z.id; split; [lia|done]). simpl.
    set (d := match m_directory_type (m_directory c0) with FULL_MAP => _ | _ => _ end).
    assert (Hd : m_directory_entry_list d = m_directory_entry_list (m_directory c0) ∧
                 m_heap d = m_heap (m_directory c0) ∧ m_next d = m_next (m_directory c0) ∧
                 m_num_entries d = m_num_entries (m_directory c0))
      by (unfold d; by destruct (m_directory_type _)).
    destruct Hd as (Hd1 & Hd2 & Hd3 & Hd4). clearbody d. unfold modify, alloc, ret. simpl.
    rewrite Hd1, (wr_core_nat _ i) by (by eapply lookup_lt_Some). simpl. rewrite Hd2, Hd3.
    set (d' := count_allocated _).
    assert (Hsw : slot_written c0 (put_directory d' (with_replaced (m_replaced_directory_entry_list c0) c0)) i
                    (m_next (m_directory c0)) (new_entry (m_directory c0))).
    { apply slot_written_intro; [done|by eapply lookup_lt_Some|done|done|done|done]. }
    destruct (new_slot_wf c0 _ _ i _ Hwf Hsw Hp eq_refl (new_entry_inv _) eq_refl eq_refl) as [Hwf' Hlive].
    split; [exact Hwf'|]. split; [|apply (sw_new _ _ _ _ _ Hsw)].
    split; [done|apply (sw_old _ _ _ _ _ Hsw)| |exact Hlive].
    intros p e [[-> ->]|]%(sw_heap _ _ _ _ _ Hsw); auto.
Qed.

Lemma deref_runs c p e (Q : DirectoryEntry → DramDirectoryCache → Prop) :
  heap_of c !! p = Some e → Q e c → runs (on_directory (deref p)) c Q.
Proof.
  intros He HQ. unfold runs, on_directory, zoom, deref. unfold heap_of in He. rewrite He. by destruct c.
Qed.

(** The search for an address in the ways of a set. *)
Lemma find_way_runs s a n i c0 :
  ddc_wf c0 → Z.of_nat s < ddc_num_sets c0 → (i + n = ddc_associativity c0)%nat →
  (∀ w, (w < i)%nat → ∃ p e, live c0 (s * ddc_associativity c0 + w) p ∧ heap_of c0 !! p = Some e ∧ m_address e ≠ a) →
  runs (find_way (Z.of_nat s) a n i) c0
    (λ r c, ddc_wf c ∧ grows c0 c ∧
       match r with
       | Some (w, p) => (w < ddc_associativity c)%nat ∧ live c (s * ddc_associativity c + w) p ∧
                        ∃ e, heap_of c !! p = Some e ∧ m_address e = a
       | None => ∀ w, (w < ddc_associativity c)%nat →
                 ∃ p e, live c (s * ddc_associativity c + w) p ∧ heap_of c !! p = Some e ∧ m_address e ≠ a
       end).
Proof.
  revert i c0. induction n as [|n IH]; intros i c0 Hwf Hs Hin Hprev; simpl.
  { apply runs_ret. split; [done|]. split; [reflexivity|]. intros w Hw. apply Hprev. lia. }
  apply runs_gets. unfold id. destruct (slot_ok c0 s i (wf_dims c0 Hwf)) as [-> Hlt]; [done|lia|].
  eapply runs_bind; [by apply get_slot_runs|]. intros p c1 (Hwf1 & Hgr & Hlive).
  destruct (wf_slot c1 Hwf1 _ _ Hlive) as (e & He & _).
  eapply runs_bind; [apply (deref_runs c1 p e (λ e' c, e' = e ∧ c = c1)); done|]. intros ? ? [-> ->].
  destruct (gr_static _ _ Hgr) as (Ea & En & _). rewrite <- Ea, <- ?En in *.
  destruct (Z.eqb_spec (m_address e) a) as [Heq|Hne].
  - apply runs_ret. split; [done|]. split; [done|]. split; [lia|]. eauto.
  - eapply runs_conseq; [apply (IH (S i) c1); [done|lia|lia|]|].
    + intros w Hw. destruct (decide (w = i)) as [->|]; [by exists p, e|].
      destruct (Hprev w ltac:(lia)) as (q & e' & Hq & He' & Hne'). exists q, e'.
      split; [by apply (gr_live _ _ Hgr)|]. split; [by apply (gr_heap _ _ Hgr)|done].
    + intros r c (? & ? & ?). split; [done|]. split; [by etrans|done].
Qed.

(** ** Lookups *)

(** An address that is neither in its set nor in the list of replaced entries
    has no entry. *)
Lemma absent_intro c a :
  ddc_wf c → a ≠ INVALID_ADDRESS →
  (∀ w, (w < ddc_associativity c)%nat →
     ∃ p e, live c (set_of c a * ddc_associativity c + w) p ∧ heap_of c !! p = Some e ∧ m_address e ≠ a) →
  (∀ p e, p ∈ m_replaced_directory_entry_list c → heap_of c !! p = Some e → m_address e ≠ a) →
  absent c a.
Proof.
  intros Hwf Ha Hset Hrep p e Hp He. subst a.
  destruct (wf_tracked c Hwf p e Hp Ha) as [[i Hi]|Hr]; [|by eapply Hrep].
  destruct (wf_slot c Hwf i p Hi) as (e' & He' & Hs). simplify_eq. specialize (Hs Ha).
  destruct (wf_dims c Hwf) as (Hpos & _).
  destruct (Hset (i mod ddc_associativity c)%nat) as (q & e1 & Hq & He1 & Hne);
    [apply Nat.mod_upper_bound; lia|].
  rewrite Hs in Hq. replace (i / ddc_associativity c * ddc_associativity c + i mod ddc_associativity c)%nat
    with i in Hq by (pose proof (Nat.div_mod_eq i (ddc_associativity c)); lia).
  unfold live in *. simplify_eq.
Qed.

(** The entry in a slot gets an address that has none. *)
Lemma assign_wf c i p e a :
  ddc_wf c → live c i p → heap_of c !! p = Some e → m_address e = INVALID_ADDRESS →
  valid_address a → absent c a → set_of c a = (i / ddc_associativity c)%nat →
  ddc_wf (put_directory
    (with_heap (<[p := setAddress a e]> (heap_of c)) (m_next (m_directory c)) (m_directory c)) c).
Proof.
  intros Hwf Hi Hp He [Hu Ha] Habs Hs. set (c' := put_directory _ c).
  assert (Hheap : ∀ q e', heap_of c' !! q = Some e' →
            (q = p ∧ e' = setAddress a e) ∨ (q ≠ p ∧ heap_of c !! q = Some e')).
  { intros q e'. unfold heap_of. simpl. intros [[<- <-]|[? ?]]%lookup_insert_Some; auto. }
  assert (Hold : ∀ q e', heap_of c !! q = Some e' → m_address e' ≠ INVALID_ADDRESS → heap_of c' !! q = Some e').
  { intros q e' Hq Hne. unfold heap_of. simpl. rewrite lookup_insert_ne; [done|]. intros <-. congruence. }
  split.
  - apply (wf_dims c Hwf).
  - intros j q Hj. change (live c j q) in Hj. destruct (decide (q = p)) as [->|Hne].
    + exists (setAddress a e). split; [apply lookup_insert_eq|]. intros _. simpl.
      by rewrite (wf_slot_inj c Hwf j i p Hj Hi).
    + destruct (wf_slot c Hwf j q Hj) as (e' & He' & Hset). exists e'. split; [|done].
      unfold heap_of. simpl. by rewrite lookup_insert_ne.
  - apply (wf_slot_inj c Hwf).
  - apply (wf_replaced_nodup c Hwf).
  - intros q Hq. destruct (wf_replaced c Hwf q Hq) as (Hno & e' & He' & Hne & Hf). split; [done|].
    exists e'. split; [by apply Hold|]. split; [done|]. intros w Hw.
    destruct (Hf w Hw) as (r & er & Hr & Her & Hner). exists r, er. split; [done|]. split; [by apply Hold|done].
  - intros q e' [[-> ->]|[_ Hq]]%Hheap Hne; [left; by exists i|]. by apply (wf_tracked c Hwf q e').
  - intros q r e1 e2 [[-> ->]|[? Hq]]%Hheap [[-> ->]|[? Hr]]%Hheap Heq Hne; simpl in *; [done| | |].
    + exfalso. by apply (Habs _ _ Hr).
    + exfalso. by apply (Habs _ _ Hq).
    + by eapply (wf_unique c Hwf).
  - intros q e' [[-> ->]|[_ Hq]]%Hheap; [by apply (wf_fresh c Hwf p e)|by apply (wf_fresh c Hwf q e')].
  - intros q e' [[-> ->]|[_ Hq]]%Hheap; [apply setAddress_inv|]; by eapply (wf_entry c Hwf).
  - intros q e' [[-> ->]|[_ Hq]]%Hheap Hinv; [done|by apply (wf_unassigned c Hwf q e')].
  - intros q e' [[-> ->]|[_ Hq]]%Hheap; [done|by apply (wf_addr c Hwf q e')].
Qed.

Lemma store_runs c p e0 e (Q : unit → DramDirectoryCache → Prop) :
  heap_of c !! p = Some e0 →
  Q tt (put_directory (with_heap (<[p := e]> (heap_of c)) (m_next (m_directory c)) (m_directory c)) c) →
  runs (on_directory (store p e)) c Q.
Proof. intros He HQ. unfold runs, on_directory, zoom, store. unfold heap_of in *. by rewrite He. Qed.

(** The search in the list of replaced entries. *)
Lemma find_replaced_runs c a l i :
  (∀ p, p ∈ l → is_Some (heap_of c !! p)) →
  runs (find_replaced a l i) c (λ r c', c' = c ∧
    match r with
    | Some (j, p) => (i ≤ j)%nat ∧ l !! (j - i)%nat = Some p ∧ ∃ e, heap_of c !! p = Some e ∧ m_address e = a
    | None => ∀ p e, p ∈ l → heap_of c !! p = Some e → m_address e ≠ a
    end).
Proof.
  revert i. induction l as [|p l IH]; intros i Hl; simpl.
  { apply runs_ret. split; [done|]. by intros p e ?%elem_of_nil. }
  destruct (Hl p) as [e He]; [left|].
  eapply runs_bind; [apply (deref_runs c p e (λ e' c', e' = e ∧ c' = c)); done|]. intros ? ? [-> ->].
  destruct (Z.eqb_spec (m_address e) a) as [Heq|Hne].
  - apply runs_ret. split; [done|]. rewrite Nat.sub_diag. split; [lia|]. eauto.
  - eapply runs_conseq; [apply (IH (S i)); intros q Hq; apply Hl; by right|].
    intros [[j q]|] c' [-> Hr]; (split; [done|]).
    + destruct Hr as (Hj & Hq & Hr). split; [lia|]. by replace (j - i)%nat with (S (j - S i)) by lia.
    + intros q e' [->|Hq]%elem_of_cons Hq'; [congruence|by eapply Hr].
Qed.

(** What a lookup of address [a] leaves alone. *)
Record others_kept (a : Z) c c' : Prop := {
  ok_static : ddc_associativity c' = ddc_associativity c ∧ ddc_num_sets c' = ddc_num_sets c ∧
              ddc_log_cache_block_size c' = ddc_log_cache_block_size c;
  ok_replaced : m_replaced_directory_entry_list c' = m_replaced_directory_entry_list c;
  ok_heap p e : m_address e ≠ INVALID_ADDRESS → m_address e ≠ a →
                heap_of c' !! p = Some e ↔ heap_of c !! p = Some e
}.

Lemma grows_kept a c c' : grows c c' → others_kept a c c'.
Proof.
  intros Hgr. destruct (gr_static _ _ Hgr) as (E1 & E2 & E3 & E4 & _). split; [done|done|].
  intros p e Hne _. split; [|apply (gr_heap _ _ Hgr)]. by intros [|]%(gr_new _ _ Hgr).
Qed.

Lemma grows_set_of c c' a : grows c c' → set_of c' a = set_of c a.
Proof. intros Hgr. destruct (gr_static _ _ Hgr) as (_ & E2 & E3 & _). unfold set_of. by rewrite E2, E3. Qed.

Lemma grows_absent c c' a : grows c c' → a ≠ INVALID_ADDRESS → absent c' a → absent c a.
Proof. intros Hgr Ha Habs p e Hp. apply (Habs p). by apply (gr_heap _ _ Hgr). Qed.

Lemma kept_trans a c1 c2 c3 : others_kept a c1 c2 → others_kept a c2 c3 → others_kept a c1 c3.
Proof.
  intros [(E1 & E2 & E3) R H] [(F1 & F2 & F3) R' H']. split; [split_and!; congruence|congruence|].
  intros p e He Ha. by rewrite H', H.
Qed.

(** The lookup claims a free way of the set. *)
Lemma claim_way_runs c a w p e :
  ddc_wf c → valid_address a → absent c a → (w < ddc_associativity c)%nat →
  live c (set_of c a * ddc_associativity c + w) p → heap_of c !! p = Some e → m_address e = INVALID_ADDRESS →
  runs (let! e := on_directory (deref p) in
        on_directory (store p (setAddress a e));! ret (Some p)) c
    (λ r c', ddc_wf c' ∧ others_kept a c c' ∧ r = Some p ∧ heap_of c' !! p = Some (setAddress a e)).
Proof.
  intros Hwf Ha Habs Hw Hp He Hinv.
  eapply runs_bind; [apply (deref_runs c p e (λ e' c', e' = e ∧ c' = c)); done|]. intros ? ? [-> ->].
  eapply runs_bind; [eapply (store_runs c p e _ (λ _ c', c' = _)); [exact He|reflexivity]|].
  intros [] ? ->. apply runs_ret. split; [|split; [|split; [done|apply lookup_insert_eq]]].
  - eapply assign_wf; [done..|]. destruct (wf_dims c Hwf) as (? & _).
    rewrite Nat.div_add_l by lia. rewrite Nat.div_small by done. lia.
  - split; [done|done|]. intros q e' Hne Hnea. unfold heap_of in *. simpl. rewrite lookup_insert_Some.
    split; [intros [[_ <-]|[_ Hq]]; done|]. intros Hq. right. split; [|done]. intros ->. congruence.
Qed.

(** Neither the set nor the list of replaced entries can hold an address when a
    way of its set is free. *)
Lemma free_way_absent c a w p e :
  ddc_wf c → valid_address a → (w < ddc_associativity c)%nat →
  live c (set_of c a * ddc_associativity c + w) p → heap_of c !! p = Some e → m_address e = INVALID_ADDRESS →
  (∀ w, (w < ddc_associativity c)%nat →
     ∃ p e, live c (set_of c a * ddc_associativity c + w) p ∧ heap_of c !! p = Some e ∧ m_address e ≠ a) →
  absent c a.
Proof.
  intros Hwf [_ Ha] Hw Hp He Hinv Hset. apply absent_intro; [done..|]. intros q e0 Hq He0 Hae. subst a.
  destruct (wf_replaced c Hwf q Hq) as (_ & e1 & He1 & _ & Hf). simplify_eq.
  destruct (Hf w Hw) as (r & er & Hr & Her & Hner). unfold live in *. simplify_eq.
Qed.

Lemma getDirectoryEntry_runs c0 a :
  ddc_wf c0 → valid_address a →
  runs (getDirectoryEntry a) c0 (λ r c, ddc_wf c ∧ others_kept a c0 c ∧
    match r with
    | Some p => ∃ e, heap_of c !! p = Some e ∧ m_address e = a ∧
                  (heap_of c0 !! p = Some e ∨ absent c0 a ∧ m_dstate e = UNCACHED)
    | None => absent c a ∧ absent c0 a ∧ full c (set_of c a)
    end).
Proof.
  intros Hwf Hva. pose proof (proj2 Hva) as Ha. unfold getDirectoryEntry. apply runs_gets. unfold id.
  destruct (ddc_splitAddress_ok c0 a (wf_dims c0 Hwf)) as [tag Htag].
  eapply runs_lift; [exact Htag|]. simpl.
  pose proof (set_of_lt c0 a (wf_dims c0 Hwf)) as Hlt.
  eapply runs_bind; [apply (find_way_runs (set_of c0 a) a _ 0 c0); [done|done|lia|intros w Hw; lia]|].
  intros [[w p]|] c1 (Hwf1 & Hgr1 & Hr).
  { destruct Hr as (_ & _ & e & He & Hae). apply runs_ret. split; [done|]. split; [by apply grows_kept|].
    exists e. split; [done|]. split; [done|]. left.
    destruct (gr_new _ _ Hgr1 p e He) as [|Hinv]; [done|congruence]. }
  destruct (gr_static _ _ Hgr1) as (Ea1 & En1 & _).
  eapply runs_bind; [rewrite <- Ea1; apply (find_way_runs (set_of c0 a) INVALID_ADDRESS _ 0 c1);
                       [done|lia|lia|intros w Hw; lia]|].
  intros r2 c2 (Hwf2 & Hgr2 & Hr2). assert (Hgr : grows c0 c2) by (by etrans).
  assert (Hset : ∀ w, (w < ddc_associativity c2)%nat →
     ∃ p e, live c2 (set_of c2 a * ddc_associativity c2 + w) p ∧ heap_of c2 !! p = Some e ∧ m_address e ≠ a).
  { rewrite (grows_set_of c0 c2) by done. destruct (gr_static _ _ Hgr2) as (-> & _). intros w Hw.
    destruct (Hr w Hw) as (p & e & Hp & He & Hne). exists p, e.
    split; [by apply (gr_live _ _ Hgr2)|]. split; [by apply (gr_heap _ _ Hgr2)|done]. }
  destruct r2 as [[w p]|].
  - destruct Hr2 as (Hw & Hp & e & He & Hinv). rewrite <- (grows_set_of c0 c2 a Hgr) in Hp.
    assert (Habs : absent c2 a) by (by eapply free_way_absent).
    eapply runs_conseq; [by apply (claim_way_runs c2 a w p e)|].
    intros ? c3 (Hwf3 & Hk & -> & He3). split; [done|].
    split; [eapply kept_trans; [by apply grows_kept|done]|].
    exists (setAddress a e). split; [done|]. split; [done|]. right.
    split; [by eapply grows_absent|]. by apply (wf_unassigned c2 Hwf2 p e).
  - apply runs_gets. eapply runs_bind; [apply find_replaced_runs|].
    { intros p Hp. destruct (wf_replaced c2 Hwf2 p Hp) as (_ & e & He & _). eauto. }
    intros r3 c3 [-> Hr3]. apply runs_ret. split; [done|]. split; [by apply grows_kept|].
    destruct r3 as [[j p]|]; simpl.
    + destruct Hr3 as (_ & _ & e & He & Hae). exists e. split; [done|]. split; [done|]. left.
      destruct (gr_new _ _ Hgr p e He) as [|Hinv]; [done|congruence].
    + assert (Habs : absent c2 a) by (by apply absent_intro).
      split; [done|]. split; [by eapply grows_absent|]. rewrite (grows_set_of c0 c2) by done. intros w Hw. apply (Hr2 w Hw).
Qed.

Lemma getDirectoryEntry_triple a :
  valid_address a →
  triple ddc_wf (getDirectoryEntry a) (λ r c, ddc_wf c ∧
    match r with
    | Some p => ∃ e, heap_of c !! p = Some e ∧ m_address e = a
    | None => absent c a ∧ full c (set_of c a)
    end).
Proof.
  intros Ha. apply runs_triple. intros c Hc. eapply runs_conseq; [by apply getDirectoryEntry_runs|].
  intros [p|] c' (Hwf & _ & Hr); naive_solver.
Qed.

(** ** Replacement *)

Lemma grows_full c c' s : grows c c' → full c s → full c' s.
Proof.
  intros Hgr Hf w. destruct (gr_static _ _ Hgr) as (-> & _). intros Hw.
  destruct (Hf w Hw) as (p & e & Hp & He & Hne). exists p, e.
  split; [by apply (gr_live _ _ Hgr)|]. split; [by apply (gr_heap _ _ Hgr)|done].
Qed.

Lemma candidates_runs s rp n i c0 :
  ddc_wf c0 → Z.of_nat s < ddc_num_sets c0 →
  runs (candidates (Z.of_nat s) rp n i) c0 (λ l c, ddc_wf c ∧ grows c0 c ∧
    ∀ p, p ∈ l → ∃ w, (w < ddc_associativity c)%nat ∧ live c (s * ddc_associativity c + w) p).
Proof.
  revert i c0. induction n as [|n IH]; intros i c0 Hwf Hs; simpl.
  { apply runs_ret. split; [done|]. split; [reflexivity|]. by intros p ?%elem_of_nil. }
  apply runs_gets. unfold id. set (way := Z.to_nat _).
  assert (Hway : (way < ddc_associativity c0)%nat).
  { destruct (wf_dims c0 Hwf) as (Hpos & _). unfold way.
    pose proof (Z.mod_pos_bound (u32 (Z.of_nat i + rp)) (Z.of_nat (ddc_associativity c0))). lia. }
  clearbody way. destruct (slot_ok c0 s way (wf_dims c0 Hwf)) as [-> Hlt]; [done|done|].
  eapply runs_bind; [by apply get_slot_runs|]. intros p c1 (Hwf1 & Hgr1 & Hp).
  destruct (gr_static _ _ Hgr1) as (Ea & En & _).
  eapply runs_bind; [apply IH; [done|lia]|]. intros l c2 (Hwf2 & Hgr2 & Hl). apply runs_ret.
  split; [done|]. split; [by etrans|]. intros q [->|Hq]%elem_of_cons; [|by apply Hl].
  destruct (gr_static _ _ Hgr2) as (Ea2 & _). exists way. rewrite Ea2, Ea. split; [done|].
  by apply (gr_live _ _ Hgr2).
Qed.

Lemma with_ptrs_wf l c : ddc_wf c → ddc_wf (with_ptrs l c).
Proof. intros []. by split. Qed.

Lemma rd_core_fuel {A} (l : list A) i : rd_core l i ≠ Err ErrFuel.
Proof. unfold rd_core. case_match; auto with sim. Qed.
Lemma wr_core_fuel {A} (l : list A) i x : wr_core l i x ≠ Err ErrFuel.
Proof. unfold wr_core. case_match; auto with sim. Qed.

Lemma getReplacementCandidates_triple a :
  valid_address a →
  triple ddc_wf (getReplacementCandidates a) (λ l c, ddc_wf c ∧ absent c a ∧ full c (set_of c a) ∧
    ∀ p, p ∈ l → ∃ w, (w < ddc_associativity c)%nat ∧ live c (set_of c a * ddc_associativity c + w) p).
Proof.
  intros Hva. pose proof (proj2 Hva) as Ha. unfold getReplacementCandidates.
  eapply triple_bind; [by apply getDirectoryEntry_triple|].
  intros r. eapply triple_bind.
  { eapply (triple_lift _ (λ _ c, ddc_wf c ∧ absent c a ∧ full c (set_of c a))); [apply c_assert_fuel|].
    intros c [] (Hwf & Hr) Hn. case_bool_decide; simplify_eq/=. naive_solver. }
  intros []. apply triple_at. intros c (Hwf & Habs & Hf).
  eapply triple_bind; [by apply (triple_gets _ (λ c1 c2, c1 = c ∧ c2 = c)); intros ? ->|].
  intros ?. apply triple_pure. intros ->.
  destruct (ddc_splitAddress_ok c a (wf_dims c Hwf)) as [tag Htag].
  eapply triple_bind; [eapply (triple_lift _ (λ ts c1, ts = (tag, Z.of_nat (set_of c a)) ∧ c1 = c));
                        [by rewrite Htag|intros; naive_solver congruence]|].
  intros ?. apply triple_pure. intros ->. simpl.
  eapply triple_bind; [eapply (triple_lift _ (λ _ c1, c1 = c)); [apply rd_core_fuel|done]|]. intros rp.
  eapply triple_bind.
  { apply runs_triple. intros ? ->. apply candidates_runs; [done|]. by apply set_of_lt, wf_dims. }
  intros l. eapply triple_bind; [eapply (triple_lift _ (λ _, _)); [apply wr_core_fuel|]; intros s x Hs _; exact Hs|].
  intros ptrs. apply triple_then_ret. apply triple_modify. intros c1 (Hwf1 & Hgr & Hl). split; [by apply with_ptrs_wf|].
  assert (E : set_of (with_ptrs ptrs c1) a = set_of c a) by apply (grows_set_of c c1 a Hgr). rewrite E.
  split; [|split; [exact (grows_full c c1 _ Hgr Hf)|exact Hl]].
  intros p e He Hae. destruct (gr_new _ _ Hgr p e He) as [Hp|]; [|congruence]. by apply (Habs p e).
Qed.

(** The entry of [a] takes the slot of the replaced entry. *)
Lemma replace_wf c c' i n old e0 e :
  ddc_wf c → slot_written c c' i n e → live c i old → heap_of c !! old = Some e0 →
  m_address e0 ≠ INVALID_ADDRESS → valid_address (m_address e) → absent c (m_address e) →
  full c (set_of c (m_address e)) → set_of c (m_address e) = (i / ddc_associativity c)%nat → entry_inv e →
  m_replaced_directory_entry_list c' = m_replaced_directory_entry_list c ++ [old] → ddc_wf c'.
Proof.
  intros Hwf [Sd Ss Sa Sh So (Sn & Sl & Snl) Slive Sold Sf] Hi Ho Hne0 [Hu Ha] Habs Hf Hs He Hr.
  assert (Hfull : ∀ s, full c s → full c' s).
  { intros s Hfs w. rewrite Sa. intros Hw. destruct (decide (s * ddc_associativity c + w = i)%nat) as [->|Hj].
    - exists n, e. done.
    - destruct (Hfs w Hw) as (p & e1 & Hp & He1 & Hne1). exists p, e1. split; [auto|]. split; [by apply So|done]. }
  assert (Hor : old ∉ m_replaced_directory_entry_list c).
  { intros Hin. destruct (wf_replaced c Hwf old Hin) as [Hno _]. by apply (Hno i). }
  split.
  - apply Sd, (wf_dims c Hwf).
  - rewrite Sa. intros j p [[-> ->]|[Hj Hp]]%Slive.
    + exists e. split; [done|]. intros _. by rewrite Ss.
    + destruct (wf_slot c Hwf j p Hp) as (e' & He' & Hset). exists e'. rewrite Ss. split; [by apply So|done].
  - intros j k p [[-> ->]|[Hj Hp]]%Slive [[-> Hk]|[Hk Hq]]%Slive; [done|by apply Snl in Hq|subst; by apply Snl in Hp|].
    by eapply (wf_slot_inj c Hwf).
  - rewrite Hr. apply NoDup_app. split; [apply (wf_replaced_nodup c Hwf)|].
    split; [|apply NoDup_singleton]. intros p Hp ->%list_elem_of_singleton. done.
  - rewrite Hr. intros p [Hp| ->%list_elem_of_singleton]%elem_of_app.
    + destruct (wf_replaced c Hwf p Hp) as (Hno & e' & He' & Hne' & Hf'). split.
      * intros j [[-> ->]|[_ Hj]]%Slive; [by apply So in He' as []|by apply (Hno j)].
      * exists e'. rewrite Ss. split; [by apply So|auto].
    + split.
      * intros j [[-> ->]|[Hj Hp]]%Slive; [by apply Snl in Hi|]. by rewrite (wf_slot_inj c Hwf j i old Hp Hi) in Hj.
      * exists e0. split; [by apply So|]. split; [done|]. apply Hfull.
        destruct (wf_slot c Hwf i old Hi) as (e1 & He1 & Hset). simplify_eq. by rewrite Ss, Hset, <- Hs.
  - rewrite Hr. intros p e' [[-> ->]|Hp]%Sh Hna; [left; by exists i|]. rewrite elem_of_app.
    destruct (wf_tracked c Hwf p e' Hp Hna) as [[j Hj]|]; [|by right; left].
    destruct (decide (j = i)) as [->|]; [|left; by exists j; auto].
    right. right. apply list_elem_of_singleton. unfold live in *. congruence.
  - intros p q e1 e2 [[-> ->]|Hp]%Sh [[-> ->]|Hq]%Sh Heq Hna; [done| | |by eapply (wf_unique c Hwf)].
    + exfalso. by apply (Habs _ _ Hq).
    + exfalso. by apply (Habs _ _ Hp).
  - exact Sf.
  - intros p e' [[-> ->]|Hp]%Sh; [done|by apply (wf_entry c Hwf) in Hp].
  - intros p e' [[-> ->]|Hp]%Sh Hinv; [done|by apply (wf_unassigned c Hwf p e')].
  - intros p e' [[-> ->]|Hp]%Sh; [done|by apply (wf_addr c Hwf p e')].
Qed.

(** The new entry of [replaceDirectoryEntry] and its slot. *)
Lemma install_runs c i old e0 a :
  ddc_wf c → live c i old → heap_of c !! old = Some e0 → m_address e0 ≠ INVALID_ADDRESS →
  valid_address a → absent c a → full c (set_of c a) → set_of c a = (i / ddc_associativity c)%nat →
  runs (modify (λ c, with_replaced (m_replaced_directory_entry_list c ++ [old]) c);!
        let! p := on_directory createDirectoryEntry in
        let! e := on_directory (deref p) in
        on_directory (store p (setAddress a e));!
        on_directory (setDirectoryEntry (Z.of_nat i) p);!
        ret p) c
    (λ p c', ddc_wf c' ∧ ∃ e, heap_of c' !! p = Some e ∧ m_address e = a ∧ m_dstate e = UNCACHED).
Proof.
  intros Hwf Hi He0 Hne0 Ha Habs Hf Hs.
  unfold runs, st_bind, on_directory, zoom, createDirectoryEntry, st_bind, gets, modify. simpl.
  set (d := match m_directory_type (m_directory c) with FULL_MAP => _ | _ => _ end).
  assert (Hd : m_directory_entry_list d = m_directory_entry_list (m_directory c) ∧
               m_heap d = m_heap (m_directory c) ∧ m_next d = m_next (m_directory c) ∧
               m_num_entries d = m_num_entries (m_directory c))
    by (unfold d; by destruct (m_directory_type _)).
  destruct Hd as (Hd1 & Hd2 & Hd3 & Hd4). clearbody d.
  unfold deref, store, setDirectoryEntry, st_bind, gets, lift, modify. simpl.
  rewrite lookup_insert_eq. simpl. rewrite lookup_insert_eq. simpl.
  assert (Hlt : (i < length (m_directory_entry_list (m_directory c)))%nat) by (by eapply lookup_lt_Some).
  rewrite Hd1, (wr_core_nat _ i) by done. simpl. rewrite Hd2, Hd3, insert_insert_eq. set (d' := with_entries _ _).
  set (e := setAddress a (new_entry (m_directory c))).
  assert (Hsw : slot_written c (put_directory d' (with_replaced (m_replaced_directory_entry_list c ++ [old]) c)) i
                  (m_next (m_directory c)) e) by (by apply slot_written_intro).
  split.
  - eapply (replace_wf c _ i _ old e0 e); [done..|exact (new_entry_inv _)|done].
  - exists e. split; [apply (sw_new _ _ _ _ _ Hsw)|done].
Qed.

(** The way of an entry. *)
Lemma live_way c i p e :
  ddc_wf c → live c i p → heap_of c !! p = Some e → m_address e ≠ INVALID_ADDRESS →
  set_of c (m_address e) = (i / ddc_associativity c)%nat ∧
  ∃ w, (w < ddc_associativity c)%nat ∧ i = (set_of c (m_address e) * ddc_associativity c + w)%nat.
Proof.
  intros Hwf Hi He Hne. destruct (wf_slot c Hwf i p Hi) as (e' & He' & Hs). simplify_eq.
  rewrite (Hs Hne). split; [done|]. destruct (wf_dims c Hwf) as (Hpos & _). exists (i mod ddc_associativity c)%nat.
  split; [apply Nat.mod_upper_bound; lia|]. pose proof (Nat.div_mod_eq i (ddc_associativity c)). lia.
Qed.

Lemma set_slot c s w : ddc_dims c → (w < ddc_associativity c)%nat → ((s * ddc_associativity c + w) / ddc_associativity c = s)%nat.
Proof. intros (? & _) Hw. rewrite Nat.div_add_l by lia. rewrite Nat.div_small by done. lia. Qed.

(** The caller replaces the entry of an address of the same, full set. *)
Lemma replaceDirectoryEntry_runs c0 a i q e :
  ddc_wf c0 → valid_address a → m_address e ≠ INVALID_ADDRESS → absent c0 a → full c0 (set_of c0 a) →
  set_of c0 (m_address e) = set_of c0 a → live c0 i q → heap_of c0 !! q = Some e →
  runs (replaceDirectoryEntry (m_address e) a) c0 (λ p c, ddc_wf c ∧
    ∃ e, heap_of c !! p = Some e ∧ m_address e = a ∧ m_dstate e = UNCACHED).
Proof.
  intros Hwf Hva Hra Habs Hf Hset Hi He. pose proof (proj2 Hva) as Ha. unfold replaceDirectoryEntry.
  apply runs_gets. unfold id. destruct (ddc_splitAddress_ok c0 (m_address e) (wf_dims c0 Hwf)) as [tag Htag].
  eapply runs_lift; [exact Htag|]. cbn [snd].
  pose proof (set_of_lt c0 (m_address e) (wf_dims c0 Hwf)) as Hlt.
  eapply runs_bind; [apply (find_way_runs (set_of c0 (m_address e)) (m_address e) _ 0 c0); [done|done|lia|intros w Hw; lia]|].
  intros [[w old]|] c (Hwf1 & Hgr & Hr); destruct (gr_static _ _ Hgr) as (Ea & _).
  - destruct Hr as (Hw & Hold & eo & Heo & Hao). rewrite Ea in *.
    destruct (slot_ok c0 (set_of c0 (m_address e)) w (wf_dims c0 Hwf) Hlt Hw) as [-> _].
    eapply install_runs; [done|exact Hold|exact Heo|congruence|done| | |].
    + intros p ep Hp Hap. destruct (gr_new _ _ Hgr p ep Hp); [by apply (Habs p ep)|congruence].
    + rewrite (grows_set_of c0 c) by done. by eapply grows_full.
    + rewrite (grows_set_of c0 c), <- Hset, Ea by done. symmetry. apply set_slot; [apply (wf_dims c0 Hwf)|done].
  - exfalso. destruct (live_way c0 i q e Hwf Hi He Hra) as (_ & w & Hw & ->).
    destruct (Hr w) as (q' & e1 & Hq & He1 & Hne); [by rewrite Ea|]. rewrite Ea in Hq.
    pose proof (gr_live _ _ Hgr _ _ Hi). unfold live in *. simplify_eq.
    rewrite (gr_heap _ _ Hgr _ _ He) in He1. by simplify_eq.
Qed.

(** ** Removal and updates *)

Lemma NoDup_delete {A} (l : list A) j p : l !! j = Some p → NoDup l → NoDup (delete j l).
Proof. intros Hj Hnd. rewrite (delete_Permutation _ _ _ Hj) in Hnd. by apply NoDup_cons in Hnd as [_ Hnd]. Qed.

Lemma elem_of_delete {A} (l : list A) j p q :
  NoDup l → l !! j = Some p → q ∈ delete j l ↔ q ∈ l ∧ q ≠ p.
Proof.
  intros Hnd Hj. assert (HP := delete_Permutation l j p Hj). remember (delete j l) as l' eqn:E.
  rewrite HP in Hnd. apply NoDup_cons in Hnd as [Hni _]. rewrite HP, elem_of_cons.
  split; [|naive_solver]. intros Hq. split; [by right|]. by intros ->.
Qed.

Lemma invalidate_wf c j p e :
  ddc_wf c → m_replaced_directory_entry_list c !! j = Some p → heap_of c !! p = Some e →
  ddc_wf (with_replaced (delete j (m_replaced_directory_entry_list c))
    (put_directory (with_heap (delete p (heap_of c)) (m_next (m_directory c)) (m_directory c)) c)).
Proof.
  intros Hwf Hj Hp. set (c' := with_replaced _ _).
  assert (Hin : p ∈ m_replaced_directory_entry_list c) by (by eapply list_elem_of_lookup_2).
  destruct (wf_replaced c Hwf p Hin) as [Hno _].
  assert (Hd : ∀ q, q ∈ delete j (m_replaced_directory_entry_list c) ↔ q ∈ m_replaced_directory_entry_list c ∧ q ≠ p).
  { intros q. apply elem_of_delete; [|done]. apply (wf_replaced_nodup c Hwf). }
  assert (Hheap : ∀ q e', heap_of c' !! q = Some e' ↔ q ≠ p ∧ heap_of c !! q = Some e').
  { intros q e'. unfold heap_of. simpl. rewrite lookup_delete_Some. naive_solver. }
  assert (Hlp : ∀ i q, live c i q → q ≠ p) by (intros i q Hi ->; by apply (Hno i)).
  split.
  - apply (wf_dims c Hwf).
  - intros i q Hi. destruct (wf_slot c Hwf i q Hi) as (e' & He' & Hs). exists e'. rewrite Hheap. split; [|done]. eauto.
  - apply (wf_slot_inj c Hwf).
  - simpl. by eapply NoDup_delete, (wf_replaced_nodup c Hwf).
  - intros q [Hq Hqp]%Hd. destruct (wf_replaced c Hwf q Hq) as (Hnq & e' & He' & Hne & Hf). split; [done|].
    exists e'. rewrite Hheap. split; [done|]. split; [done|]. intros w Hw.
    destruct (Hf w Hw) as (r & er & Hr & Her & Hner). exists r, er. rewrite Hheap. eauto.
  - intros q e' [Hqp Hq]%Hheap Hne. simpl. rewrite Hd. destruct (wf_tracked c Hwf q e' Hq Hne); naive_solver.
  - intros q r e1 e2 [_ Hq]%Hheap [_ Hr]%Hheap. by apply (wf_unique c Hwf).
  - intros q e' [_ Hq]%Hheap. by apply (wf_fresh c Hwf q e').
  - intros q e' [_ Hq]%Hheap. by apply (wf_entry c Hwf q e').
  - intros q e' [_ Hq]%Hheap. by apply (wf_unassigned c Hwf q e').
  - intros q e' [_ Hq]%Hheap. by apply (wf_addr c Hwf q e').
Qed.

Lemma invalidateDirectoryEntry_triple a :
  triple ddc_wf (invalidateDirectoryEntry a) (λ _, ddc_wf).
Proof.
  intros c Hwf. unfold invalidateDirectoryEntry, st_bind at 1, gets. simpl.
  pose proof (find_replaced_runs c a (m_replaced_directory_entry_list c) 0) as Hrun.
  ospecialize (Hrun _).
  { intros p Hp. destruct (wf_replaced c Hwf p Hp) as (_ & e & He & _). eauto. }
  apply runs_elim in Hrun as (r & ? & Hrun & -> & Hr). unfold st_bind at 1. rewrite Hrun. simpl.
  destruct r as [[j p]|]; [|done]. destruct Hr as (_ & Hj & e & He & Hae). rewrite Nat.sub_0_r in Hj.
  unfold st_bind, on_directory, zoom, free, modify. unfold heap_of in He. rewrite He. simpl.
  by eapply (invalidate_wf c j p e).
Qed.

Lemma invalidateDirectoryEntry_keeps a p x :
  x ≠ a →
  triple (λ c, ddc_wf c ∧ ∃ e, heap_of c !! p = Some e ∧ m_address e = x) (invalidateDirectoryEntry a)
    (λ _ c, ddc_wf c ∧ ∃ e, heap_of c !! p = Some e ∧ m_address e = x).
Proof.
  intros Hxa c [Hwf (e & He & Hx)]. pose proof (invalidateDirectoryEntry_triple a c Hwf) as Ht.
  destruct (invalidateDirectoryEntry a c) as [[u c']|err] eqn:E; [|done]. split; [done|]. exists e. split; [|done].
  unfold invalidateDirectoryEntry, st_bind at 1, gets in E. simpl in E.
  pose proof (find_replaced_runs c a (m_replaced_directory_entry_list c) 0) as Hrun.
  ospecialize (Hrun _).
  { intros q Hq. destruct (wf_replaced c Hwf q Hq) as (_ & e' & He' & _). eauto. }
  apply runs_elim in Hrun as (r & ? & Hrun & -> & Hr). unfold st_bind at 1 in E. rewrite Hrun in E. simpl in E.
  destruct r as [[j q]|]; [|done]. destruct Hr as (_ & Hj & e' & He' & Hae).
  unfold st_bind, on_directory, zoom, free, modify in E. unfold heap_of in He'. rewrite He' in E. simpl in E.
  injection E as _ <-. unfold heap_of in *. simpl. rewrite lookup_delete_ne; [done|]. intros ->. congruence.
Qed.

(** An update of an entry that keeps its address. *)
Lemma store_wf c p e e' :
  ddc_wf c → heap_of c !! p = Some e → m_address e ≠ INVALID_ADDRESS → m_address e' = m_address e → entry_inv e' →
  ddc_wf (put_directory (with_heap (<[p := e']> (heap_of c)) (m_next (m_directory c)) (m_directory c)) c).
Proof.
  intros Hwf Hp Ha He Hi. set (c' := put_directory _ c).
  assert (Hheap : ∀ q x, heap_of c' !! q = Some x →
            ∃ x0, heap_of c !! q = Some x0 ∧ m_address x0 = m_address x ∧ (x = x0 ∨ x = e')).
  { intros q x. unfold heap_of. simpl. intros [[<- <-]|[? ?]]%lookup_insert_Some; eauto. }
  assert (Hheap' : ∀ q x, heap_of c !! q = Some x → ∃ x', heap_of c' !! q = Some x' ∧ m_address x' = m_address x).
  { intros q x Hq. unfold heap_of in *. simpl. destruct (decide (q = p)) as [->|].
    - exists e'. rewrite lookup_insert_eq. naive_solver congruence.
    - exists x. by rewrite lookup_insert_ne. }
  split.
  - apply (wf_dims c Hwf).
  - intros i q Hq. destruct (wf_slot c Hwf i q Hq) as (x & Hx & Hs). destruct (Hheap' q x Hx) as (x' & Hx' & E).
    exists x'. by rewrite E.
  - apply (wf_slot_inj c Hwf).
  - apply (wf_replaced_nodup c Hwf).
  - intros q Hq. destruct (wf_replaced c Hwf q Hq) as (Hno & x & Hx & Hne & Hf). split; [done|].
    destruct (Hheap' q x Hx) as (x' & Hx' & E). exists x'. rewrite E. split; [done|]. split; [done|]. intros w Hw.
    destruct (Hf w Hw) as (r & y & Hr & Hy & Hney). destruct (Hheap' r y Hy) as (y' & Hy' & E').
    exists r, y'. by rewrite E'.
  - intros q x (x0 & Hx0 & E & _)%Hheap Hne. rewrite <- E in Hne. by apply (wf_tracked c Hwf q x0).
  - intros q r x y (x0 & Hx0 & E & _)%Hheap (y0 & Hy0 & E' & _)%Hheap Heq Hne.
    apply (wf_unique c Hwf q r x0 y0); congruence.
  - intros q x (x0 & Hx0 & _)%Hheap. by apply (wf_fresh c Hwf q x0).
  - intros q x (x0 & Hx0 & _ & [->| ->])%Hheap; [by apply (wf_entry c Hwf q x0)|done].
  - intros q x (x0 & Hx0 & E & [->| ->])%Hheap Hinv; [by apply (wf_unassigned c Hwf q x0)|congruence].
  - intros q x (x0 & Hx0 & <- & _)%Hheap. by apply (wf_addr c Hwf q x0).
Qed.
End Ddc.
