(* ===== verification/Shmem.v ===== *)
(** Messages of the shared memory subsystem: [shmem_msg.{h,cc}] and
    [shmem_req.{h,cc}] of src/common/core/memory_subsystem/pr_l1_pr_l2_dram_directory_msi,
    [req_queue_list_template.h] (its [std::queue] version),
    src/common/performance_model/hit_where.h,
    src/common/core/memory_subsystem/mem_component.h, and what the directory
    controller uses of [nuca_cache.h].

    The time and the [ShmemPerf] object that messages and requests carry are
    not part of the model. *)
From S2P Require Import Prelude Directory.
Local Open Scope Z_scope.

(** MemComponent::component_t: the named components. *)
Inductive component_t : Type :=
| INVALID_MEM_COMPONENT | CORE | L1_ICACHE | L1_DCACHE | L2_CACHE | L3_CACHE | L4_CACHE
| LAST_LEVEL_CACHE | TAG_DIR | NUCA_COMPONENT | DRAM_CACHE_COMPONENT | DRAM_COMPONENT.

(** HitWhere::where_t. *)
Inductive where_t : Type :=
| WHERE_FIRST | L1I | L1_OWN | L2_OWN | L3_OWN | L4_OWN | MISS | NUCA_CACHE | DRAM_CACHE | DRAM
| DRAM_LOCAL | DRAM_REMOTE | CACHE_REMOTE | SIBLING | L1_SIBLING | L2_SIBLING | L3_SIBLING
| L4_SIBLING | UNKNOWN | PREDICATE_FALSE | PREFETCH_NO_MAPPING.
#[export] Instance where_t_eq_dec : EqDecision where_t.
Proof. solve_decision. Defined.

(** ShmemMsg::msg_t. *)
Inductive msg_t : Type :=
| INVALID_MSG_TYPE | EX_REQ | SH_REQ | UPGRADE_REQ | INV_REQ | FLUSH_REQ | WB_REQ
| EX_REP | SH_REP | UPGRADE_REP | INV_REP | FLUSH_REP | WB_REP | NULLIFY_REQ
| DRAM_READ_REQ | DRAM_WRITE_REQ | DRAM_READ_REP.
#[export] Instance msg_t_eq_dec : EqDecision msg_t.
Proof. solve_decision. Defined.

(** [sm_where] is [None] when no constructor set it; a data buffer is the bytes
    it points to. *)
Record ShmemMsg : Type := mkShmemMsg {
  sm_msg_type : msg_t;
  sm_sender_mem_component : component_t;
  sm_receiver_mem_component : component_t;
  sm_requester : Z;
  sm_where : option where_t;
  sm_address : Z;
  sm_data_buf : option (list Z);
  sm_data_length : Z
}.

Definition ShmemMsg_empty : ShmemMsg :=
  mkShmemMsg INVALID_MSG_TYPE INVALID_MEM_COMPONENT INVALID_MEM_COMPONENT INVALID_CORE_ID
    (Some UNKNOWN) INVALID_ADDRESS None 0.

Definition ShmemMsg_new (msg_type : msg_t) (sender_mem_component receiver_mem_component : component_t)
    (requester address : Z) (data_buf : option (list Z)) (data_length : Z) : ShmemMsg :=
  mkShmemMsg msg_type sender_mem_component receiver_mem_component requester (Some UNKNOWN) address
    data_buf data_length.

(** The constructor that copies a message does not copy [m_where]. *)
Definition ShmemMsg_copy (m : ShmemMsg) : ShmemMsg :=
  mkShmemMsg (sm_msg_type m) (sm_sender_mem_component m) (sm_receiver_mem_component m)
    (sm_requester m) None (sm_address m) (sm_data_buf m) (sm_data_length m).

Definition setDataBuf (b : option (list Z)) (m : ShmemMsg) : ShmemMsg :=
  mkShmemMsg (sm_msg_type m) (sm_sender_mem_component m) (sm_receiver_mem_component m)
    (sm_requester m) (sm_where m) (sm_address m) b (sm_data_length m).
Definition setWhere (w : where_t) (m : ShmemMsg) : ShmemMsg :=
  mkShmemMsg (sm_msg_type m) (sm_sender_mem_component m) (sm_receiver_mem_component m)
    (sm_requester m) (Some w) (sm_address m) (sm_data_buf m) (sm_data_length m).
Definition getWhere (m : ShmemMsg) : res where_t :=
  match sm_where m with Some w => Ok w | None => Err ErrUndefined end.

(** [sizeof(IntPtr)] is 8. *)
Definition getModeledLength (m : ShmemMsg) : res Z :=
  match sm_msg_type m with
  | EX_REQ | SH_REQ | INV_REQ | FLUSH_REQ | WB_REQ | UPGRADE_REP | UPGRADE_REQ | INV_REP
  | DRAM_READ_REQ => Ok (1 + 8)
  | EX_REP | SH_REP | FLUSH_REP | WB_REP | DRAM_WRITE_REQ | DRAM_READ_REP =>
      Ok (u32 (1 + 8 + sm_data_length m))
  | _ => Err (ErrLog "Unrecognized Msg Type")
  end.

(** ** class ShmemReq *)

Record ShmemReq : Type := mkShmemReq {
  m_shmem_msg : ShmemMsg;
  m_wait_for_data : bool;
  m_forwarding_from : Z
}.

Definition ShmemReq_new (m : ShmemMsg) : res ShmemReq :=
  log_assert (bool_decide (sm_data_buf m = None)) "Shmem Reqs should not have data payloads";?
  Ok (mkShmemReq (ShmemMsg_copy m) false INVALID_CORE_ID).

Definition isForwarding (r : ShmemReq) : bool := negb (m_forwarding_from r =? INVALID_CORE_ID).
Definition setWaitForData (b : bool) (r : ShmemReq) : ShmemReq :=
  mkShmemReq (m_shmem_msg r) b (m_forwarding_from r).
Definition setForwardingFrom (core : Z) (r : ShmemReq) : ShmemReq :=
  mkShmemReq (m_shmem_msg r) (m_wait_for_data r) core.
Definition setMsg (m : ShmemMsg) (r : ShmemReq) : ShmemReq :=
  mkShmemReq m (m_wait_for_data r) (m_forwarding_from r).
Definition req_address (r : ShmemReq) : Z := sm_address (m_shmem_msg r).
Definition req_requester (r : ShmemReq) : Z := sm_requester (m_shmem_msg r).
Definition req_type (r : ShmemReq) : msg_t := sm_msg_type (m_shmem_msg r).

(** ** class ReqQueueListTemplate

    A queue per address; an address without requests has no queue. *)
Section ReqQueueList.
Context {T : Type}.
Local Notation ReqQueueList := (gmap Z (list T)).

Definition enqueue (address : Z) (r : T) (q : ReqQueueList) : ReqQueueList :=
  <[address := default [] (q !! address) ++ [r]]> q.

(** [front()] of an empty [std::queue] is undefined. *)
Definition front (address : Z) (q : ReqQueueList) : res T :=
  match q !! address with
  | None => Err (ErrLog "Could not find a request with address")
  | Some [] => Err ErrUndefined
  | Some (r :: _) => Ok r
  end.

Definition back (address : Z) (q : ReqQueueList) : res T :=
  match q !! address with
  | None => Err (ErrLog "Could not find a request with address")
  | Some l => match last l with Some r => Ok r | None => Err ErrUndefined end
  end.

Definition dequeue (address : Z) (q : ReqQueueList) : res (T * ReqQueueList) :=
  match q !! address with
  | None => Err (ErrLog "Could not find a request with address")
  | Some [] => Err ErrUndefined
  | Some [r] => Ok (r, delete address q)
  | Some (r :: l) => Ok (r, <[address := l]> q)
  end.

(** The number of requests of an address, below the range of [UInt32]. *)
Definition queue_size (address : Z) (q : ReqQueueList) : Z :=
  match q !! address with None => 0 | Some l => Z.of_nat (length l) end.

Definition queue_empty (address : Z) (q : ReqQueueList) : bool :=
  match q !! address with None => true | Some _ => false end.

(** A change of the object at the front through the pointer to it. *)
Definition update_front (address : Z) (f : T → T) (q : ReqQueueList) : ReqQueueList :=
  match q !! address with
  | Some (r :: l) => <[address := f r :: l]> q
  | _ => q
  end.

(** The representation: no empty queue is kept. *)
Definition queues_wf (P : Z → T → Prop) (q : ReqQueueList) : Prop :=
  ∀ a l, q !! a = Some l → l ≠ [] ∧ Forall (P a) l.
Definition queue_of (a : Z) (q : ReqQueueList) : list T := default [] (q !! a).

Lemma queue_size_length a q : queue_size a q = Z.of_nat (length (queue_of a q)).
Proof. unfold queue_size, queue_of. by destruct (q !! a). Qed.

Lemma enqueue_wf P a r q : queues_wf P q → P a r → queues_wf P (enqueue a r q).
Proof.
  intros Hq Hr b l. unfold enqueue. intros [[<- <-]|[_ Hb]]%lookup_insert_Some; [|by apply Hq].
  split; [by destruct (default [] (q !! a))|]. apply Forall_app. split; [|by apply Forall_singleton].
  destruct (q !! a) as [l|] eqn:Hl; [by apply (Hq a l)|constructor].
Qed.

Lemma enqueue_of a r q b :
  queue_of b (enqueue a r q) = if decide (b = a) then queue_of a q ++ [r] else queue_of b q.
Proof.
  unfold queue_of, enqueue. destruct (decide (b = a)) as [->|Hb].
  - by rewrite lookup_insert_eq.
  - by rewrite lookup_insert_ne.
Qed.

Lemma dequeue_Ok P a q r q' :
  queues_wf P q → dequeue a q = Ok (r, q') →
  queues_wf P q' ∧ queue_of a q = r :: queue_of a q' ∧ ∀ b, b ≠ a → q' !! b = q !! b.
Proof.
  intros Hq. unfold dequeue, queue_of. destruct (q !! a) as [[|x [|y l]]|] eqn:Ha; [done| | |done].
  - intros [= -> <-]. split; [|split].
    + intros b l [_ Hb]%lookup_delete_Some. by apply Hq.
    + by rewrite lookup_delete_eq.
    + intros b Hb. by rewrite lookup_delete_ne.
  - intros [= -> <-]. split; [|split].
    + intros b l' [[<- <-]|[_ Hb]]%lookup_insert_Some; [|by apply Hq].
      split; [done|]. destruct (Hq a _ Ha) as [_ Hf]. by inversion Hf.
    + by rewrite lookup_insert_eq.
    + intros b Hb. by rewrite lookup_insert_ne.
Qed.

Lemma front_Ok a q r : front a q = Ok r → ∃ l, q !! a = Some (r :: l).
Proof. unfold front. destruct (q !! a) as [[|x l]|]; naive_solver. Qed.

Lemma update_front_wf P a f q :
  (∀ r, P a r → P a (f r)) → queues_wf P q → queues_wf P (update_front a f q).
Proof.
  intros Hf Hq. unfold update_front. destruct (q !! a) as [[|r l]|] eqn:Ha; [done| |done].
  intros b l' [[<- <-]|[_ Hb]]%lookup_insert_Some; [|by apply Hq].
  split; [done|]. destruct (Hq a _ Ha) as [_ HF]. inversion HF; subst. constructor; auto.
Qed.

Lemma update_front_length a f q b : length (queue_of b (update_front a f q)) = length (queue_of b q).
Proof.
  unfold update_front, queue_of. destruct (q !! a) as [[|r l]|] eqn:Ha; [done| |done].
  destruct (decide (b = a)) as [->|]; [by rewrite lookup_insert_eq, Ha|by rewrite lookup_insert_ne].
Qed.

Lemma front_fuel a q : front a q ≠ Err ErrFuel.
Proof. unfold front. by destruct (q !! a) as [[]|]. Qed.
Lemma dequeue_fuel a q : dequeue a q ≠ Err ErrFuel.
Proof. unfold dequeue. by destruct (q !! a) as [[|? []]|]. Qed.
End ReqQueueList.

#[export] Hint Resolve front_fuel dequeue_fuel : sim.

(** ** The interface of the NUCA cache

    [Locals] are the contents of the uninitialised local variables of a caller:
    [eviction], [evict_address] and a data buffer. *)
Record Locals : Type := mkLocals {
  loc_eviction : bool;
  loc_evict_address : Z;
  loc_buf : list Z
}.

(** [read] returns [None] on a miss and the bytes copied out, if any, on a hit;
    [write] returns the final values of [eviction], [evict_address] and
    [evict_buf]. *)
Class NucaOps (N : Type) := {
  nuca_read : Z → bool → st N (option (option (list Z)));
  nuca_write : Z → option (list Z) → Locals → bool → st N (bool * Z * list Z)
}.

Class NucaOk (N : Type) `{NucaOps N} := {
  nuca_inv : N → Prop;
  nuca_read_ok a count : in_u64 a → triple nuca_inv (nuca_read a count) (λ _, nuca_inv);
  nuca_write_ok a data loc count : in_u64 a → triple nuca_inv (nuca_write a data loc count) (λ _, nuca_inv)
}.
