(* ===== verification/Network.v ===== *)
(** The on-chip network (src/common/network): packets, the four network models
    (magic, hop counter, hop by hop and bus) and the sending and receiving side
    of [Network].

    The models of one static network are a list indexed by core, with the bus
    that they share.  A packet's data is the coherence message it carries, as
    far as the models look at it.  [getGlobalTime] and the two floating-point
    parameters of the queue models are arguments, as in [QueueModels].  Core
    numbers and mesh coordinates are small 32-bit integers; [/] and [%] of C
    are [Z.quot] and [Z.rem]. *)
From S2P Require Import Prelude SubsecondTime ContentionModel MovingAverage QueueModels Shmem.
Local Open Scope Z_scope.

(** * Packets *)
Inductive PacketType : Type :=
| INVALID_PACKET_TYPE | SHARED_MEM_1 | SIM_THREAD_TERMINATE_THREADS | CORE_THREAD_TERMINATE_THREADS.
#[export] Instance PacketType_eq_dec : EqDecision PacketType.
Proof. solve_decision. Defined.

(** [0xDEADBABE] as a 32-bit signed integer. *)
Definition BROADCAST : Z := 0xDEADBABE - 2 ^ 32.

Record NetPacket : Type := mkNetPacket {
  np_start_time : Z;
  np_time : Z;
  np_queue_delay : Z;
  np_type : PacketType;
  np_sender : Z;
  np_receiver : Z;
  np_length : Z;
  np_data : option ShmemMsg
}.
Definition NetPacket_new (time : Z) (type : PacketType) (sender receiver length : Z) (data : option ShmemMsg) :
    NetPacket := mkNetPacket Zero time Zero type sender receiver length data.
Definition with_times (start time queue_delay receiver : Z) (p : NetPacket) : NetPacket :=
  mkNetPacket start time queue_delay (np_type p) (np_sender p) receiver (np_length p) (np_data p).
Definition add_queue_delay (d : Z) (p : NetPacket) : NetPacket :=
  with_times (np_start_time p) (np_time p) (time_add (np_queue_delay p) d) (np_receiver p) p.

(** [sizeof(NetPacket)] is 48. *)
Definition bufferSize (p : NetPacket) : Z := u32 (48 + np_length p).

(** What the configuration tells the network. *)
Record NetCfg : Type := mkNetCfg { total_cores : Z; application_cores : Z; core_id_length : Z }.

Definition np_msg (p : NetPacket) : res ShmemMsg :=
  match np_data p with Some m => Ok m | None => Err ErrUndefined end.
Definition modeledLength (cfg : NetCfg) (p : NetPacket) : res Z :=
  if decide (np_type p = SHARED_MEM_1) then
    let? m := np_msg p in
    let? data_size := getModeledLength m in
    Ok (u32 (u32 (1 + 2 * core_id_length cfg + 2) + data_size))
  else Ok (bufferSize p).

(** The core on whose behalf the packet travels. *)
Definition packet_requester (cfg : NetCfg) (p : NetPacket) : res Z :=
  let? requester := (if decide (np_type p = SHARED_MEM_1) then let? m := np_msg p in Ok (sm_requester m)
                     else Ok (np_sender p)) in
  log_assert ((0 <=? requester) && (requester <? total_cores cfg)) "requester";?
  Ok requester.

Record Hop : Type := mkHop { final_dest : Z; next_dest : Z; hop_time : Z }.

(** The loop [for (i = 0; i < total_cores; i++)]. *)
Definition all_cores (cfg : NetCfg) : list Z := seqZ 0 (total_cores cfg).

(** * NetworkModelMagic *)
Module Magic.
Record t : Type := mk { enabled : bool; num_packets : Z; num_bytes : Z; latency : ComponentLatency }.
Definition new (period : nat) : t := mk false 0 0 {| cl_period := period; m_fixed_cycle_latency := 1 |}.
Definition routePacket (cfg : NetCfg) (ps : Periods) (p : NetPacket) (m : t) : res (list Hop) :=
  let? l := cl_getLatency ps (latency m) in
  let hop i := mkHop i i (time_add (np_time p) l) in
  Ok (if np_receiver p =? BROADCAST then hop <$> all_cores cfg else [hop (np_receiver p)]).
Definition processReceivedPacket (cfg : NetCfg) (p : NetPacket) (m : t) : res t :=
  let? requester := packet_requester cfg p in
  if negb (enabled m) || (application_cores cfg <=? requester) then Ok m else
  let? pkt_length := modeledLength cfg p in
  Ok (mk (enabled m) (u64 (num_packets m + 1)) (u64 (num_bytes m + pkt_length)) (latency m)).
End Magic.

(** * NetworkModelEMeshHopCounter *)
Module HopCounter.
Record t : Type := mk {
  hopLatency : ComponentLatency;
  linkBandwidth : ComponentBandwidthPerCycle;
  meshWidth : Z;
  meshHeight : Z;
  enabled : bool;
  num_packets : Z;
  num_bytes : Z;
  total_latency : Z
}.
(** The double-precision square root and quotient are exact enough on core
    counts for their floor and ceiling. *)
Definition new (cfg : NetCfg) (bandwidth : ComponentBandwidthPerCycle) (latency : ComponentLatency) : res t :=
  let n := total_cores cfg in
  let w := Z.sqrt n in
  if w =? 0 then Err ErrUndefined else
  let h := (n + w - 1) / w in
  c_assert (n <=? w * h);?
  c_assert ((w - 1) * h <? n);?
  c_assert (w * (h - 1) <? n);?
  Ok (mk latency bandwidth w h false 0 0 Zero).

Definition computePosition (core : Z) (m : t) : Z * Z := (Z.rem core (meshWidth m), Z.quot core (meshWidth m)).
Definition computeDistance (x1 y1 x2 y2 : Z) : Z := Z.abs (x1 - x2) + Z.abs (y1 - y2).
Definition computeSerializationLatency (ps : Periods) (pkt_length : Z) (m : t) : res Z :=
  cb_getRoundedLatency ps (linkBandwidth m) (u32 (pkt_length * 8)).

(** The latency of the way to [i]. *)
Definition latency_to (sender i serialization hop_latency : Z) (m : t) : Z :=
  let '(sx, sy) := computePosition sender m in
  let '(dx, dy) := computePosition i m in
  let latency := time_mul hop_latency (computeDistance sx sy dx dy) in
  if i =? sender then latency else time_add latency serialization.
(** The hops of a broadcast leave one after the other. *)
Fixpoint broadcast_hops (sender serialization hop_latency curr_time : Z) (l : list Z) (m : t) : list Hop :=
  match l with
  | [] => []
  | i :: l =>
      mkHop i i (time_add curr_time (latency_to sender i serialization hop_latency m))
      :: broadcast_hops sender serialization hop_latency (time_add curr_time serialization) l m
  end.
Definition routePacket (cfg : NetCfg) (ps : Periods) (p : NetPacket) (m : t) : res (list Hop) :=
  let? pkt_length := modeledLength cfg p in
  let? serialization := computeSerializationLatency ps pkt_length m in
  let? l := cl_getLatency ps (hopLatency m) in
  Ok (if np_receiver p =? BROADCAST then
        broadcast_hops (np_sender p) serialization l (np_time p) (all_cores cfg) m
      else
        let i := np_receiver p in
        [mkHop i i (time_add (np_time p) (latency_to (np_sender p) i serialization l m))]).
Definition processReceivedPacket (cfg : NetCfg) (p : NetPacket) (m : t) : res t :=
  let? pkt_length := modeledLength cfg p in
  let? requester := packet_requester cfg p in
  if negb (enabled m) || (application_cores cfg <=? requester) then Ok m else
  Ok (mk (hopLatency m) (linkBandwidth m) (meshWidth m) (meshHeight m) (enabled m) (u64 (num_packets m + 1))
        (u64 (num_bytes m + pkt_length)) (time_add (total_latency m) (time_sub (np_time p) (np_start_time p)))).
End HopCounter.

(** * NetworkModelEMeshHopByHop *)
Module HopByHop.
Inductive OutputDirection : Type := UP | DOWN | LEFT | RIGHT | SELF | PEER | DESTINATION.
(** The directions below [NUM_OUTPUT_DIRECTIONS] have a queue. *)
Definition link (d : OutputDirection) : option nat :=
  match d with
  | UP => Some 0%nat | DOWN => Some 1%nat | LEFT => Some 2%nat | RIGHT => Some 3%nat
  | SELF | PEER | DESTINATION => None
  end.

Record Queues : Type := mkQueues {
  m_queue_models : list QueueModel;
  m_injection_port_queue_model : QueueModel;
  m_ejection_port_queue_model : QueueModel
}.
(** What all the nodes of a mesh have in common. *)
Record Shape : Type := mkShape {
  m_mesh_width : Z;
  m_mesh_height : Z;
  m_concentration : Z;
  m_dimensions : Z;
  m_wrap_around : bool;
  m_broadcast_tree_enabled : bool;
  m_queue_model_enabled : bool
}.
(** A fake node has no queue models. *)
Record t : Type := mk {
  m_shape : Shape;
  m_core_id : Z;
  m_fake_node : bool;
  m_enabled : bool;
  m_link_bandwidth : ComponentBandwidthPerCycle;
  m_hop_latency : ComponentLatency;
  m_queues : option Queues;
  m_total_bytes_sent : Z;
  m_total_packets_sent : Z;
  m_total_bytes_received : Z;
  m_total_packets_received : Z;
  m_total_contention_delay : Z;
  m_total_packet_latency : Z
}.
Definition set_queues (q : option Queues) (m : t) : t :=
  mk (m_shape m) (m_core_id m) (m_fake_node m) (m_enabled m) (m_link_bandwidth m) (m_hop_latency m) q
    (m_total_bytes_sent m) (m_total_packets_sent m) (m_total_bytes_received m) (m_total_packets_received m)
    (m_total_contention_delay m) (m_total_packet_latency m).
Definition set_enabled (b : bool) (m : t) : t :=
  mk (m_shape m) (m_core_id m) (m_fake_node m) b (m_link_bandwidth m) (m_hop_latency m) (m_queues m)
    (m_total_bytes_sent m) (m_total_packets_sent m) (m_total_bytes_received m) (m_total_packets_received m)
    (m_total_contention_delay m) (m_total_packet_latency m).

(** ** Construction *)

(** [size] is what [sscanf] reads from the size of the configuration, [None]
    for the empty string.  The check at the end makes the two quotients exact
    whenever the dimensions are returned, so that the rounding of the
    double-precision quotient does not show. *)
Definition computeMeshDimensions (core_count concentration dimensions : Z) (size : option (res (Z * Z))) :
    res (Z * Z) :=
  let? d := (match size with
             | Some r => r
             | None =>
                 if concentration =? 0 then Err ErrUndefined else
                 if dimensions =? 1 then Ok (Z.quot core_count concentration, 1)
                 else if dimensions =? 2 then
                   let w := Z.sqrt (Z.quot core_count concentration) in
                   if w =? 0 then Err ErrUndefined else
                   Ok (w, (core_count + concentration * w - 1) / (concentration * w))
                 else Err (ErrLog "Invalid value for dimensions")
             end) in
  log_assert (core_count =? concentration * d.2 * d.1) "Cannot build a mesh";?
  Ok d.

Definition createQueueModels (qcfg : QueueCfg) (ps : Periods) (model_type : string)
    (bandwidth : ComponentBandwidthPerCycle) : res Queues :=
  let? min_processing_time := rd ps (cb_period bandwidth) in
  let? q := QueueModel_create qcfg model_type min_processing_time in
  Ok (mkQueues [q; q; q; q] q q).

Definition new (qcfg : QueueCfg) (ps : Periods) (model_type : string) (sh : Shape) (core_id : Z)
    (bandwidth : ComponentBandwidthPerCycle) (latency : ComponentLatency) : res t :=
  if m_concentration sh =? 0 then Err ErrUndefined else
  let m fake q := mk sh core_id fake false bandwidth latency q 0 0 0 0 Zero Zero in
  if negb (Z.rem core_id (m_concentration sh) =? 0) ||
     (m_concentration sh * m_mesh_width sh * m_mesh_height sh <=? core_id)
  then Ok (m true None)
  else let? q := createQueueModels qcfg ps model_type bandwidth in Ok (m false (Some q)).

(** ** Positions *)
Definition computePosition (core_id : Z) (sh : Shape) : Z * Z :=
  let node := Z.quot core_id (m_concentration sh) in
  (Z.rem node (m_mesh_width sh), Z.quot node (m_mesh_width sh)).
Definition computeCoreId (x y : Z) (sh : Shape) : Z :=
  let x := Z.rem (x + m_mesh_width sh) (m_mesh_width sh) in
  let y := Z.rem (y + m_mesh_height sh) (m_mesh_height sh) in
  (y * m_mesh_width sh + x) * m_concentration sh.
Definition computeDistance (sender receiver : Z) (sh : Shape) : Z :=
  let '(sx, sy) := computePosition sender sh in
  let '(dx, dy) := computePosition receiver sh in
  if m_wrap_around sh then
    Z.min (Z.abs (sx - dx)) (m_mesh_width sh - Z.abs (sx - dx))
    + Z.min (Z.abs (sy - dy)) (m_mesh_height sh - Z.abs (sy - dy))
  else Z.abs (sx - dx) + Z.abs (sy - dy).

(** Dimension-order routing: whether the packet goes down the axis, on an axis
    of [size] nodes. *)
Definition backwards (wrap : bool) (size s d : Z) : bool :=
  xorb (d <? s) (wrap && (Z.quot (size + 1) 2 <? Z.abs (s - d))).
Definition getNextDest (cfg : NetCfg) (dest : Z) (m : t) : Z * OutputDirection :=
  let sh := m_shape m in
  let self := m_core_id m in
  if application_cores cfg <=? dest then (dest, DESTINATION)
  else if Z.quot self (m_concentration sh) =? Z.quot dest (m_concentration sh) then (dest, DESTINATION)
  else if m_fake_node m then (self - Z.rem self (m_concentration sh), PEER)
  else
    let '(sx, sy) := computePosition self sh in
    let '(dx, dy) := computePosition dest sh in
    if backwards (m_wrap_around sh) (m_mesh_width sh) sx dx then (computeCoreId (sx - 1) sy sh, LEFT)
    else if negb (sx =? dx) then (computeCoreId (sx + 1) sy sh, RIGHT)
    else if backwards (m_wrap_around sh) (m_mesh_height sh) sy dy then (computeCoreId sx (sy - 1) sh, DOWN)
    else if negb (sy =? dy) then (computeCoreId sx (sy + 1) sh, UP)
    else (self, SELF).

(** ** Memory controllers *)
Definition perimeter (dimensions w h : Z) : res (list Z) :=
  let top := seqZ 0 w in
  if (1 <? dimensions) && (1 <? h) then
    let l := top ++ ((λ i, i * w + w - 1) <$> seqZ 1 (h - 2))
                 ++ ((λ i, (h - 1) * w + i) <$> reverse (seqZ 0 w))
                 ++ ((λ i, i * w) <$> reverse (seqZ 1 (h - 2))) in
    c_assert (Z.of_nat (length l) =? u32 (2 * (w + h - 2)));?
    Ok l
  else Ok top.
Definition computeMemoryControllerPositions (num_memory_controllers : Z) (sh : Shape) : res (list Z) :=
  let? l := perimeter (m_dimensions sh) (m_mesh_width sh) (m_mesh_height sh) in
  let size := Z.of_nat (length l) in
  log_assert (u32 num_memory_controllers <=? size) "num cores along perimeter";?
  if num_memory_controllers =? 0 then Err ErrUndefined else
  let spacing := Z.quot size num_memory_controllers in
  foldr (λ i k, let? r := k in
                let? c := rd l (Z.to_nat ((i * spacing + Z.quot (m_mesh_width sh) 2) mod size)) in
                Ok (m_concentration sh * c :: r))
    (Ok []) (seqZ 0 num_memory_controllers).

(** ** Delays *)
Section Delays.
Context (root : Z → Z → Z) (estimate : Z → Z → Z → Z → Z) (cfg : NetCfg) (ps : Periods) (global_time : Z).

Definition computeProcessingTime (pkt_length : Z) (m : t) : res Z :=
  log_assert (negb (m_fake_node m)) "Cannot computeProcessingTime on a fake network node";?
  cb_getRoundedLatency ps (m_link_bandwidth m) (u32 (pkt_length * 8)).

Definition queues (m : t) : res Queues :=
  match m_queues m with Some q => Ok q | None => Err ErrUndefined end.

(** The latency of a hop and the part of it that is queueing. *)
Definition computeLatency (dir : nat) (pkt_time pkt_length requester : Z) : st t (Z * Z) := λ m,
  log_assert (negb (m_fake_node m)) "Cannot computeLatency on a fake network node";?
  if negb (m_enabled m) || (application_cores cfg <=? requester) then Ok (Zero, Zero, m) else
  let? processing_time := computeProcessingTime pkt_length m in
  let? r := (if m_queue_model_enabled (m_shape m) then
               let? q := queues m in
               let? model := rd (m_queue_models q) dir in
               let? r := computeQueueDelay root estimate global_time pkt_time processing_time model in
               let? l := wr (m_queue_models q) dir r.2 in
               Ok (r.1, set_queues (Some (mkQueues l (m_injection_port_queue_model q) (m_ejection_port_queue_model q))) m)
             else Ok (Zero, m)) in
  let? l := cl_getLatency ps (m_hop_latency m) in
  Ok (time_add l r.1, r.1, r.2).

Definition computeInjectionPortQueueDelay (pkt_receiver pkt_time pkt_length : Z) : st t Z := λ m,
  log_assert (negb (m_fake_node m)) "Cannot computeInjectionPortQueueDelay on a fake network node";?
  if negb (m_queue_model_enabled (m_shape m)) || (pkt_receiver =? m_core_id m) then Ok (Zero, m) else
  let? processing_time := computeProcessingTime pkt_length m in
  let? q := queues m in
  let? r := computeQueueDelay root estimate global_time pkt_time processing_time (m_injection_port_queue_model q) in
  Ok (r.1, set_queues (Some (mkQueues (m_queue_models q) r.2 (m_ejection_port_queue_model q))) m).
Definition computeEjectionPortQueueDelay (pkt_time pkt_length : Z) : st t Z := λ m,
  log_assert (negb (m_fake_node m)) "Cannot computeEjectionPortQueueDelay on a fake network node";?
  if negb (m_queue_model_enabled (m_shape m)) then Ok (Zero, m) else
  let? processing_time := computeProcessingTime pkt_length m in
  let? q := queues m in
  let? r := computeQueueDelay root estimate global_time pkt_time processing_time (m_ejection_port_queue_model q) in
  Ok (r.1, set_queues (Some (mkQueues (m_queue_models q) (m_injection_port_queue_model q) r.2)) m).

(** The hop and the queueing delay that goes into the packet's statistics if
    the caller passes them. *)
Definition addHop (direction : OutputDirection) (dest next pkt_time pkt_length requester : Z) : st t (Hop * Z) := λ m,
  match link direction with
  | None => Ok (mkHop dest next pkt_time, Zero, m)
  | Some i =>
      let? r := computeLatency i pkt_time pkt_length requester m in
      let '(latency, queue_delay, m) := r in
      Ok (mkHop dest next (time_add pkt_time latency), queue_delay, m)
  end.

(** ** Routing *)

(** The steps of the broadcast tree that the position calls for. *)
Fixpoint add_hops (l : list (OutputDirection * Z * Z)) (time pkt_length requester : Z) : st t (list Hop) :=
  match l with
  | [] => ret []
  | (direction, dest, next) :: l =>
      let! h := addHop direction dest next time pkt_length requester in
      let! hs := add_hops l time pkt_length requester in
      ret (h.1 :: hs)
  end.
Definition tree_steps (sender : Z) (m : t) : list (OutputDirection * Z * Z) :=
  let sh := m_shape m in
  let '(sx, sy) := computePosition sender sh in
  let '(cx, cy) := computePosition (m_core_id m) sh in
  (if sy <=? cy then [(UP, BROADCAST, computeCoreId cx (cy + 1) sh)] else [])
  ++ (if cy <=? sy then [(DOWN, BROADCAST, computeCoreId cx (cy - 1) sh)] else [])
  ++ (if cy =? sy then
        (if sx <=? cx then [(RIGHT, BROADCAST, computeCoreId (cx + 1) cy sh)] else [])
        ++ (if cx <=? sx then [(LEFT, BROADCAST, computeCoreId (cx - 1) cy sh)] else [])
        ++ (if cx =? sx then [(SELF, m_core_id m, m_core_id m)] else [])
      else []).
(** A broadcast without the tree: a unicast packet to each core. *)
Fixpoint unicast_hops (l : list Z) (time pkt_length requester : Z) : st t (list Hop) :=
  match l with
  | [] => ret []
  | i :: l =>
      let! d := computeInjectionPortQueueDelay i time pkt_length in
      let! nd := gets (getNextDest cfg i) in
      let! h := addHop nd.2 i nd.1 (time_add time d) pkt_length requester in
      let! hs := unicast_hops l time pkt_length requester in
      ret (h.1 :: hs)
  end.

Definition count_sent (pkt_length : Z) (m : t) : t :=
  mk (m_shape m) (m_core_id m) (m_fake_node m) (m_enabled m) (m_link_bandwidth m) (m_hop_latency m) (m_queues m)
    (u64 (m_total_bytes_sent m + pkt_length)) (u64 (m_total_packets_sent m + 1)) (m_total_bytes_received m)
    (m_total_packets_received m) (m_total_contention_delay m) (m_total_packet_latency m).

(** [routePacket] also adds to the queueing delay of its packet. *)
Definition routePacket (p : NetPacket) : st t (list Hop * NetPacket) := λ m,
  let? requester := packet_requester cfg p in
  let? len := modeledLength cfg p in
  let own := np_sender p =? m_core_id m in
  let m := if own then count_sent len m else m in
  let time := np_time p in
  let injection (m : t) :=
    if own then computeInjectionPortQueueDelay (np_receiver p) time len m else Ok (Zero, m) in
  if np_receiver p =? BROADCAST then
    if m_fake_node m then Ok ((λ i, mkHop i i time) <$> all_cores cfg, p, m)
    else if m_broadcast_tree_enabled (m_shape m) then
      let? r := injection m in
      let? r := add_hops (tree_steps (np_sender p) m) (time_add time r.1) len requester r.2 in
      Ok (r.1, p, r.2)
    else
      log_assert own "BROADCAST message to be sent, Tree not enabled";?
      let? r := unicast_hops (all_cores cfg) time len requester m in
      Ok (r.1, p, r.2)
  else if m_fake_node m then Ok ([mkHop (np_receiver p) (np_receiver p) time], p, m)
  else
    let? r := injection m in
    let '(d, m) := r in
    let nd := getNextDest cfg (np_receiver p) m in
    let? r := addHop nd.2 (np_receiver p) nd.1 (time_add time d) len requester m in
    let '(h, qd, m) := r in
    Ok ([h], add_queue_delay qd (if own then add_queue_delay d p else p), m).

(** ** Reception *)
Definition count_received (len latency contention : Z) (m : t) : t :=
  mk (m_shape m) (m_core_id m) (m_fake_node m) (m_enabled m) (m_link_bandwidth m) (m_hop_latency m) (m_queues m)
    (m_total_bytes_sent m) (m_total_packets_sent m) (u64 (m_total_bytes_received m + len))
    (u64 (m_total_packets_received m + 1)) (time_add (m_total_contention_delay m) contention)
    (time_add (m_total_packet_latency m) latency).
Definition processReceivedPacket (p : NetPacket) : st t NetPacket := λ m,
  let? len := modeledLength cfg p in
  let? requester := packet_requester cfg p in
  if negb (m_enabled m) || (application_cores cfg <=? requester) || (application_cores cfg <=? m_core_id m)
  then Ok (p, m) else
  let packet_latency := time_sub (np_time p) (np_start_time p) in
  let? l := cl_getLatency ps (m_hop_latency m) in
  let contention_delay :=
    time_sub packet_latency (time_mul l (computeDistance (np_sender p) (m_core_id m) (m_shape m))) in
  if negb (np_sender p =? m_core_id m) && negb (m_fake_node m) then
    let? processing_time := computeProcessingTime len m in
    let? r := computeEjectionPortQueueDelay (np_time p) len m in
    let '(d, m) := r in
    Ok (with_times (np_start_time p) (time_add (np_time p) (time_add d processing_time))
          (time_add (np_queue_delay p) d) (np_receiver p) p,
        count_received len (time_add packet_latency (time_add d processing_time)) (time_add contention_delay d) m)
  else Ok (p, count_received len packet_latency contention_delay m).
End Delays.
End HopByHop.

(** * NetworkModelBus *)
Module Bus.
(** [NetworkModelBusGlobal], one for all the cores. *)
Record global : Type := mkGlobal {
  bandwidth : Z;
  queue_model : QueueModel;
  num_packets : Z;
  num_packets_delayed : Z;
  num_bytes : Z;
  time_used : Z;
  total_delay : Z
}.
Record t : Type := mk { enabled : bool; ignore_local : bool }.

Definition global_new (qcfg : QueueCfg) (model_type : string) (bandwidth proc_period : Z) : res global :=
  let? q := QueueModel_create qcfg model_type (time_mul proc_period 10) in
  Ok (mkGlobal bandwidth q 0 0 0 Zero Zero).

Section Ops.
Context (root : Z → Z → Z) (estimate : Z → Z → Z → Z → Z) (cfg : NetCfg) (global_time : Z).

(** The time at which the packet leaves the bus, and its queueing delay. *)
Definition useBus (t_start length : Z) : st global (Z * Z) := λ b,
  let? t_delay := bw_getLatency (bandwidth b) (u32 (length * 8)) in
  let? r := computeQueueDelay root estimate global_time t_start t_delay (queue_model b) in
  let '(t_queue, q) := r in
  Ok (time_add (time_add t_start t_queue) t_delay, t_queue,
      mkGlobal (bandwidth b) q (num_packets b)
        (if Zero <? t_queue then u64 (num_packets_delayed b + 1) else num_packets_delayed b)
        (num_bytes b) (time_add (time_used b) t_delay) (time_add (total_delay b) t_queue)).

Definition accountPacket (p : NetPacket) (m : t) : res bool :=
  let? requester := packet_requester cfg p in
  Ok (negb (negb (enabled m) || (ignore_local m && (np_sender p =? np_receiver p))
            || (application_cores cfg <=? requester) || (application_cores cfg <=? np_sender p)
            || (application_cores cfg <=? np_receiver p))).

(** The modelled length is counted; the bus is used for the length of the data. *)
Definition routePacket (p : NetPacket) (m : t) : st global (list Hop * NetPacket) := λ b,
  let? account := accountPacket p m in
  let? r := (if account then
               let? len := modeledLength cfg p in
               let b := mkGlobal (bandwidth b) (queue_model b) (u64 (num_packets b + 1)) (num_packets_delayed b)
                          (u64 (num_bytes b + len)) (time_used b) (total_delay b) in
               let? r := useBus (np_time p) (np_length p) b in
               let '(t_recv, t_queue, b) := r in
               Ok (t_recv, add_queue_delay t_queue p, b)
             else Ok (np_time p, p, b)) in
  let '(t_recv, p, b) := r in
  Ok ((λ i, mkHop i i t_recv) <$> (if np_receiver p =? BROADCAST then all_cores cfg else [np_receiver p]), p, b).
End Ops.
End Bus.

(** * NetworkModel *)
Inductive NetworkModel : Type :=
| NMagic (m : Magic.t)
| NHopCounter (m : HopCounter.t)
| NHopByHop (m : HopByHop.t)
| NBus (m : Bus.t).

(** The traffic matrix of a core, [None] if it is not collected: packets and
    bytes by destination, the last entry for broadcasts. *)
Definition Matrix : Type := option (list (Z * Z)).
(** The models of one static network. *)
Record Net : Type := mkNet {
  net_models : list (NetworkModel * Matrix);
  net_bus : option Bus.global
}.

Definition Matrix_new (cfg : NetCfg) (collect : bool) : Matrix :=
  if collect then Some (replicate (Z.to_nat (total_cores cfg + 1)) (0, 0)) else None.
Definition countPacket (cfg : NetCfg) (p : NetPacket) (x : Matrix) : res Matrix :=
  match x with
  | None => Ok None
  | Some l =>
      let dst := if np_receiver p =? BROADCAST then Z.of_nat (length l) - 1 else np_receiver p in
      if dst <? 0 then Err ErrUndefined else
      let? e := rd l (Z.to_nat dst) in
      let? len := modeledLength cfg p in
      let? l := wr l (Z.to_nat dst) (u64 (e.1 + 1), u64 (e.2 + len)) in
      Ok (Some l)
  end.

Section Net.
Context (root : Z → Z → Z) (estimate : Z → Z → Z → Z → Z) (cfg : NetCfg) (ps : Periods) (global_time : Z).

Definition enable (b : bool) (m : NetworkModel) : NetworkModel :=
  match m with
  | NMagic m => NMagic (Magic.mk b (Magic.num_packets m) (Magic.num_bytes m) (Magic.latency m))
  | NHopCounter m =>
      NHopCounter (HopCounter.mk (HopCounter.hopLatency m) (HopCounter.linkBandwidth m) (HopCounter.meshWidth m)
        (HopCounter.meshHeight m) b (HopCounter.num_packets m) (HopCounter.num_bytes m) (HopCounter.total_latency m))
  | NHopByHop m => NHopByHop (HopByHop.set_enabled b m)
  | NBus m => NBus (Bus.mk b (Bus.ignore_local m))
  end.

Definition routePacket (p : NetPacket) (m : NetworkModel) (b : option Bus.global) :
    res (list Hop * NetPacket * NetworkModel * option Bus.global) :=
  match m with
  | NMagic m => let? l := Magic.routePacket cfg ps p m in Ok (l, p, NMagic m, b)
  | NHopCounter m => let? l := HopCounter.routePacket cfg ps p m in Ok (l, p, NHopCounter m, b)
  | NHopByHop m =>
      let? r := HopByHop.routePacket root estimate cfg ps global_time p m in Ok (r.1, NHopByHop r.2, b)
  | NBus m =>
      match b with
      | Some g => let? r := Bus.routePacket root estimate cfg global_time p m g in Ok (r.1, NBus m, Some r.2)
      | None => Err ErrUndefined
      end
  end.
Definition processReceivedPacket (p : NetPacket) (m : NetworkModel) : res (NetPacket * NetworkModel) :=
  match m with
  | NMagic m => let? m := Magic.processReceivedPacket cfg p m in Ok (p, NMagic m)
  | NHopCounter m => let? m := HopCounter.processReceivedPacket cfg p m in Ok (p, NHopCounter m)
  | NHopByHop m =>
      let? r := HopByHop.processReceivedPacket root estimate cfg ps global_time p m in Ok (r.1, NHopByHop r.2)
  | NBus m => Ok (p, NBus m)
  end.

(** * Network *)

(** A core that does not exist is a null pointer. *)
Definition model_of (core : Z) (n : Net) : res (NetworkModel * Matrix) :=
  if core <? 0 then Err ErrUndefined else rd (net_models n) (Z.to_nat core).
Definition put_model (core : Z) (m : NetworkModel * Matrix) (b : option Bus.global) (n : Net) : res Net :=
  let? l := wr (net_models n) (Z.to_nat core) m in Ok (mkNet l b).

(** [routePacket] of the model of a core. *)
Definition route_at (core : Z) (p : NetPacket) : st Net (list Hop * NetPacket) := λ n,
  let? m := model_of core n in
  let? r := routePacket p m.1 (net_bus n) in
  let '(hops, p, m', b) := r in
  let? n := put_model core (m', m.2) b n in
  Ok (hops, p, n).

(** The loop [while (next_dest != final_dest)] over the models on the way. *)
Fixpoint forward (fuel : nat) (h : Hop) (p : NetPacket) : st Net (Hop * NetPacket) := λ n,
  if next_dest h =? final_dest h then Ok (h, p, n) else
  match fuel with
  | O => Err ErrFuel
  | S fuel =>
      let p := with_times (np_start_time p) (hop_time h) (np_queue_delay p) (final_dest h) p in
      let? r := route_at (next_dest h) p n in
      let '(hops, p, n) := r in
      match hops with
      | [h] => forward fuel h p n
      | _ => Err ErrAssert
      end
  end.
(** A way visits no core twice, so it has fewer hops than there are cores. *)
Definition route_fuel : nat := Z.to_nat (total_cores cfg) + 1.

(** The packets that the loop over the hops hands to the transport, each with
    the core it goes to.  All are written into the one buffer, a copy that was
    made of the packet when the first hop had been computed. *)
Fixpoint send_hops (core start_time : Z) (l : list Hop) (p buffer : NetPacket) : st Net (list (Z * NetPacket) * NetPacket) :=
  λ n,
  match l with
  | [] => Ok ([], p, n)
  | h :: l =>
      let? r := (if final_dest h =? BROADCAST then Ok (h, p, n) else forward route_fuel h p n) in
      let '(h, p, n) := r in
      let buffer := with_times (if core =? np_sender buffer then start_time else np_start_time buffer)
                      (hop_time h) (np_queue_delay buffer) (final_dest h) buffer in
      let? r := send_hops core start_time l p buffer n in
      let '(sent, p, n) := r in
      Ok ((next_dest h, buffer) :: sent, p, n)
  end.

(** [netSend] of the network of [core]; it changes the caller's packet. *)
Definition netSend (core : Z) (p : NetPacket) : st Net (list (Z * NetPacket) * NetPacket) := λ n,
  let? m := model_of core n in
  let? x := countPacket cfg p m.2 in
  let? n := put_model core (m.1, x) (net_bus n) n in
  let? r := route_at core p n in
  let '(hops, p, n) := r in
  send_hops core (np_time p) hops p p n.

(** One packet of [netPullFromTransport]: the packets it forwards, and the
    packet that goes to the callback or to the queue of the receiver. *)
Definition netPull (core : Z) (p : NetPacket) : st Net (list (Z * NetPacket) * option NetPacket) := λ n,
  c_assert ((0 <=? np_sender p) && (np_sender p <? total_cores cfg));?
  let? r := (if np_receiver p =? core then Ok ([], p, n) else netSend core p n) in
  let '(sent, p', n) := r in
  if negb (np_receiver p =? core) && negb (np_receiver p' =? BROADCAST) then Ok (sent, None, n) else
  let? m := model_of core n in
  let? r := processReceivedPacket p' m.1 in
  let? n := put_model core (r.2, m.2) (net_bus n) n in
  Ok (sent, Some r.1, n).
End Net.
