(* ===== verification/NetworkProps.v ===== *)
(** Properties of the on-chip network of [Network]: dimension-order routing
    brings a packet to its receiver in as many hops as the distance of the two
    cores, so that without queue models the hop-by-hop mesh is the hop counter. *)
From S2P Require Import Prelude SubsecondTime ContentionModel MovingAverage QueueModels Shmem Network.
Import HopByHop.
Local Open Scope Z_scope.

(** * Routing on one axis *)

(** The distance on an axis of [n] nodes, a line or a ring. *)
Definition axis (wrap : bool) (n s d : Z) : Z :=
  if wrap then Z.min (Z.abs (s - d)) (n - Z.abs (s - d)) else Z.abs (s - d).

Lemma rem_near n x : 0 < n → -1 ≤ x ≤ n →
  Z.rem (x + n) n = (if x =? -1 then n - 1 else if x =? n then 0 else x).
Proof.
  intros Hn Hx. rewrite Z.rem_mod_nonneg by lia. destruct (Z.eqb_spec x (-1)) as [->|]; [rewrite Z.mod_small; lia|].
  destruct (Z.eqb_spec x n) as [->|].
  - replace (n + n) with (2 * n) by lia. apply Z.mod_mul. lia.
  - replace (x + n) with (x + 1 * n) by lia. rewrite Z.mod_add by lia. apply Z.mod_small. lia.
Qed.

Lemma axis_self wrap n d : 0 < n → axis wrap n d d = 0.
Proof. unfold axis. destruct wrap; lia. Qed.

(** A step of the routing on an axis.  On a ring of odd size it may take the
    longer way round. *)
Section Axis.
Context (wrap : bool) (n s d : Z).
Context (Hs : 0 ≤ s < n) (Hd : 0 ≤ d < n).

Lemma axis_nonneg : 0 ≤ axis wrap n s d < n.
Proof. unfold axis. destruct wrap; lia. Qed.
Lemma axis_zero : axis wrap n s d = 0 → s = d.
Proof. unfold axis. destruct wrap; lia. Qed.

Context (Heven : wrap = true → Z.Even n).

Lemma axis_half : wrap = true → 2 * Z.quot (n + 1) 2 = n.
Proof.
  intros Hw. destruct (Heven Hw) as [k ->]. rewrite Z.quot_div_nonneg by lia.
  replace (2 * k + 1) with (1 + k * 2) by lia. rewrite Z.div_add, Z.div_small by lia. lia.
Qed.
Lemma axis_back : backwards wrap n s d = true →
  let s' := Z.rem (s - 1 + n) n in 0 ≤ s' < n ∧ axis wrap n s' d = axis wrap n s d - 1.
Proof.
  unfold backwards, axis. intros Hb. rewrite rem_near by lia. pose proof axis_half as Hh.
  revert Hb Hh. generalize (Z.quot (n + 1) 2) as half. intros half. destruct wrap; simpl; intros Hb Hh;
    [specialize (Hh eq_refl)|]; destruct (Z.ltb_spec d s), (Z.ltb_spec half (Z.abs (s - d))); simpl in *; try done;
    repeat case_match; try lia.
Qed.
Lemma axis_forth : backwards wrap n s d = false → s ≠ d →
  let s' := Z.rem (s + 1 + n) n in 0 ≤ s' < n ∧ axis wrap n s' d = axis wrap n s d - 1.
Proof.
  unfold backwards, axis. intros Hb Hne. rewrite rem_near by lia. pose proof axis_half as Hh.
  revert Hb Hh. generalize (Z.quot (n + 1) 2) as half. intros half. destruct wrap; simpl; intros Hb Hh;
    [specialize (Hh eq_refl)|]; destruct (Z.ltb_spec d s), (Z.ltb_spec half (Z.abs (s - d))); simpl in *; try done;
    repeat case_match; try lia.
Qed.
End Axis.

(** * Positions *)
Section Shape.
Context (sh : Shape).
Notation w := (m_mesh_width sh).
Notation h := (m_mesh_height sh).
Notation k := (m_concentration sh).

(** A mesh, or a torus of even sides. *)
Definition shape_ok : Prop :=
  0 < w ∧ 0 < h ∧ 0 < k ∧ (m_wrap_around sh = true → Z.Even w ∧ Z.Even h).
Definition on_mesh (c : Z) : Prop := 0 ≤ c < k * w * h.
(** The first core of a node of the mesh. *)
Definition master (c : Z) : Prop := on_mesh c ∧ Z.rem c k = 0.

Context (Hok : shape_ok).

Lemma position_ok c : on_mesh c →
  let '(x, y) := computePosition c sh in
  0 ≤ x < w ∧ 0 ≤ y < h ∧ Z.quot c k = y * w + x.
Proof.
  destruct Hok as (Hw & Hh & Hk & _). unfold on_mesh, computePosition. intros Hc.
  rewrite (Z.quot_div_nonneg c) by lia. assert (0 ≤ c / k < w * h).
  { split; [apply Z.div_pos; lia|]. apply Z.div_lt_upper_bound; nia. }
  rewrite Z.rem_mod_nonneg, Z.quot_div_nonneg by lia. split; [apply Z.mod_pos_bound; lia|].
  split; [split; [apply Z.div_pos; lia|apply Z.div_lt_upper_bound; nia]|].
  rewrite (Z.div_mod (c / k) w) at 1 by lia. lia.
Qed.
Lemma core_ok x y : 0 ≤ x < w → 0 ≤ y < h →
  master ((y * w + x) * k) ∧ computePosition ((y * w + x) * k) sh = (x, y).
Proof.
  destruct Hok as (Hw & Hh & Hk & _). intros Hx Hy. unfold master, on_mesh, computePosition.
  assert (0 ≤ y * w + x < h * w) by nia. rewrite Z.rem_mod_nonneg, Z.mod_mul by lia.
  rewrite (Z.quot_mul _ k) by lia. rewrite Z.rem_mod_nonneg, Z.quot_div_nonneg by lia.
  rewrite (Z.add_comm (y * w)), Z.mod_add, Z.div_add by lia. rewrite Z.mod_small, Z.div_small by lia.
  split; [split; nia|]. f_equal; lia.
Qed.
Lemma distance_axes s d : computeDistance s d sh =
  let '(sx, sy) := computePosition s sh in
  let '(dx, dy) := computePosition d sh in
  axis (m_wrap_around sh) w sx dx + axis (m_wrap_around sh) h sy dy.
Proof. unfold computeDistance, axis. destruct (computePosition s sh), (computePosition d sh). by destruct (m_wrap_around sh). Qed.
Lemma distance_bound s d : on_mesh s → on_mesh d → 0 ≤ computeDistance s d sh ≤ k * w * h.
Proof.
  intros Hs%position_ok Hd%position_ok. rewrite distance_axes.
  destruct (computePosition s sh) as [sx sy], (computePosition d sh) as [dx dy].
  destruct Hs as (? & ? & _), Hd as (? & ? & _), Hok as (? & ? & ? & _).
  pose proof (axis_nonneg (m_wrap_around sh) w sx dx ltac:(lia) ltac:(lia)).
  pose proof (axis_nonneg (m_wrap_around sh) h sy dy ltac:(lia) ltac:(lia)).
  assert (w + h ≤ w * h + 1) by nia. assert (w * h ≤ k * (w * h)) by nia. cbv beta iota. lia.
Qed.
Lemma distance_zero s d : on_mesh s → on_mesh d → (computeDistance s d sh = 0 ↔ Z.quot s k = Z.quot d k).
Proof.
  intros Hs%position_ok Hd%position_ok. rewrite distance_axes. unfold computePosition in *.
  destruct Hs as (? & ? & Hs), Hd as (? & ? & Hd). split.
  - intros Hz. rewrite Hs, Hd.
    pose proof (axis_nonneg (m_wrap_around sh) w (Z.rem (Z.quot s k) w) (Z.rem (Z.quot d k) w) ltac:(lia) ltac:(lia)).
    pose proof (axis_nonneg (m_wrap_around sh) h (Z.quot (Z.quot s k) w) (Z.quot (Z.quot d k) w) ltac:(lia) ltac:(lia)).
    f_equal; [f_equal|].
    + apply (axis_zero (m_wrap_around sh) h); lia.
    + apply (axis_zero (m_wrap_around sh) w); lia.
  - intros He. rewrite He in *. rewrite !axis_self by lia. done.
Qed.
End Shape.

Ltac arrive H :=
  let Hm := fresh in let Hp := fresh in
  destruct H as [Hm Hp]; do 3 eexists; split; [done|]; split; [done|]; split; [done|]; rewrite Hp; lia.
(** A hop of the routing comes to a core that is one hop closer. *)
Lemma next_dest_closer cfg m d :
  shape_ok (m_shape m) → master (m_shape m) (m_core_id m) → m_fake_node m = false → on_mesh (m_shape m) d →
  d < application_cores cfg → computeDistance (m_core_id m) d (m_shape m) ≠ 0 →
  ∃ c dir i, getNextDest cfg d m = (c, dir) ∧ link dir = Some i ∧ master (m_shape m) c ∧
             computeDistance c d (m_shape m) = computeDistance (m_core_id m) d (m_shape m) - 1.
Proof.
  intros Hok [Hc _] Hf Hd Ha Hne. pose proof (distance_zero _ Hok _ _ Hc Hd) as Hz.
  unfold getNextDest. rewrite Hf, (proj2 (Z.leb_gt _ _) Ha), (proj2 (Z.eqb_neq _ _)) by tauto.
  rewrite distance_axes in Hne |- *. setoid_rewrite distance_axes.
  pose proof (position_ok _ Hok _ Hc) as Hp. pose proof (position_ok _ Hok _ Hd) as Hq.
  destruct (computePosition (m_core_id m) (m_shape m)) as [sx sy].
  destruct (computePosition d (m_shape m)) as [dx dy] eqn:Hpd. destruct Hp as (Hx & Hy & _), Hq as (Hx' & Hy' & _).
  pose proof Hok as (_ & _ & _ & Hev).
  assert (Hev1 : m_wrap_around (m_shape m) = true → Z.Even (m_mesh_width (m_shape m))) by (intros ?; by apply Hev).
  assert (Hev2 : m_wrap_around (m_shape m) = true → Z.Even (m_mesh_height (m_shape m))) by (intros ?; by apply Hev).
  assert (Hmod : ∀ a n, 0 ≤ a < n → Z.rem (a + n) n = a).
  { intros a n Han. rewrite rem_near by lia. repeat case_match; lia. }
  pose proof (λ x y H1 H2, core_ok _ Hok x y H1 H2) as Hcore. unfold computeCoreId.
  destruct (backwards _ _ sx dx) eqn:E1; [|destruct (Z.eqb_spec sx dx) as [->|]; cbn [negb];
    [destruct (backwards _ _ sy dy) eqn:E2; [|destruct (Z.eqb_spec sy dy) as [->|]; cbn [negb]]|]].
  - pose proof (axis_back _ _ _ _ Hx Hx' Hev1 E1) as [Hr He]. rewrite (Hmod sy) by lia.
    arrive (Hcore _ _ Hr Hy).
  - pose proof (axis_back _ _ _ _ Hy Hy' Hev2 E2) as [Hr He]. rewrite (Hmod dx) by lia.
    arrive (Hcore _ _ Hx Hr).
  - exfalso. apply Hne. unfold axis. destruct (m_wrap_around (m_shape m)); lia.
  - pose proof (axis_forth _ _ _ _ Hy Hy' Hev2 E2 ltac:(done)) as [Hr He]. rewrite (Hmod dx) by lia.
    arrive (Hcore _ _ Hx Hr).
  - pose proof (axis_forth _ _ _ _ Hx Hx' Hev1 E1 ltac:(done)) as [Hr He]. rewrite (Hmod sy) by lia.
    arrive (Hcore _ _ Hr Hy).
Qed.

(** * A mesh without queue models *)
Section Mesh.
Context (root : Z → Z → Z) (estimate : Z → Z → Z → Z → Z) (cfg : NetCfg) (ps : Periods) (global_time : Z).
Context (sh : Shape) (bw : ComponentBandwidthPerCycle) (lat : ComponentLatency) (L : Z).
Context (Hok : shape_ok sh) (HL : cl_getLatency ps lat = Ok L) (Hqueue : m_queue_model_enabled sh = false).
Context (Hsize : application_cores cfg = m_concentration sh * m_mesh_width sh * m_mesh_height sh).
Context (Htotal : application_cores cfg ≤ total_cores cfg < 2 ^ 31).
Notation route := (HopByHop.routePacket root estimate cfg ps global_time).
Notation send := (netSend root estimate cfg ps global_time).
Notation pull := (netPull root estimate cfg ps global_time).
Notation dist := (λ s d, computeDistance s d sh).

(** The model of core [c], enabled. *)
Definition node (c : Z) (m : HopByHop.t) : Prop :=
  m_shape m = sh ∧ m_core_id m = c ∧ m_fake_node m = negb (Z.rem c (m_concentration sh) =? 0) || (application_cores cfg <=? c) ∧ m_enabled m = true ∧
  m_link_bandwidth m = bw ∧ m_hop_latency m = lat.
Definition matrix_ok (x : Matrix) : Prop :=
  match x with Some l => Z.of_nat (length l) = total_cores cfg + 1 | None => True end.
Definition mesh_net (n : Net) : Prop :=
  Z.of_nat (length (net_models n)) = total_cores cfg ∧
  ∀ c, 0 ≤ c < total_cores cfg → ∃ m x, net_models n !! Z.to_nat c = Some (NHopByHop m, x) ∧ node c m ∧ matrix_ok x.

(** A packet that the model accounts for. *)
Definition accounted (p : NetPacket) (len requester S : Z) : Prop :=
  modeledLength cfg p = Ok len ∧ packet_requester cfg p = Ok requester ∧ requester < application_cores cfg ∧
  cb_getRoundedLatency ps bw (u32 (len * 8)) = Ok S ∧ in_u64 (np_time p) ∧ in_u64 (np_queue_delay p).

Lemma accounted_times p len requester S start time delay receiver :
  accounted p len requester S → in_u64 time → in_u64 delay →
  accounted (with_times start time delay receiver p) len requester S.
Proof. intros (H1 & H2 & H3 & H4 & _ & _) Ht Hd. by split_and!. Qed.
Lemma master_real c m : node c m → master sh c → m_fake_node m = false.
Proof.
  intros (_ & _ & -> & _) [[_ Hc] Hr]. rewrite Hr. simpl. apply Z.leb_gt. lia.
Qed.
Lemma time_add_0 t : in_u64 t → time_add t Zero = t.
Proof. intros Ht. unfold time_add, Zero. rewrite Z.add_0_r. by apply u64_id. Qed.
Lemma latency_u64 : in_u64 L.
Proof. unfold cl_getLatency in HL. destruct (rd ps (cl_period lat)); [|done]. injection HL as <-. apply u64_range. Qed.
Lemma add_no_delay p : in_u64 (np_queue_delay p) → add_queue_delay Zero p = p.
Proof. intros Hq. destruct p. unfold add_queue_delay, with_times. simpl in *. by rewrite time_add_0. Qed.

(** [routePacket] of a node on the way: the last hop costs nothing, the others
    a hop latency. *)
Lemma route_step c m p len requester S :
  node c m → master sh c → on_mesh sh (np_receiver p) → accounted p len requester S →
  ∃ h, route p m = Ok ([h], p, if np_sender p =? c then count_sent len m else m) ∧ final_dest h = np_receiver p ∧
    if dist c (np_receiver p) =? 0 then next_dest h = np_receiver p ∧ hop_time h = np_time p
    else master sh (next_dest h) ∧ dist (next_dest h) (np_receiver p) = dist c (np_receiver p) - 1 ∧
         hop_time h = u64 (np_time p + L).
Proof.
  intros Hm Hc Hd (Hlen & Hreq & Hreq' & HS & Ht & Hq). pose proof (master_real c m Hm Hc) as Hf.
  destruct Hm as (Hsh & Hid & _ & Hen & Hbw & Hlat). set (m1 := if np_sender p =? c then count_sent len m else m).
  assert (m_shape m1 = sh ∧ m_core_id m1 = c ∧ m_fake_node m1 = false ∧ m_enabled m1 = true ∧
          m_link_bandwidth m1 = bw ∧ m_hop_latency m1 = lat) as (Hsh1 & Hid1 & Hf1 & Hen1 & Hbw1 & Hlat1)
    by (unfold m1; by destruct (np_sender p =? c)).
  unfold HopByHop.routePacket. rewrite Hreq. cbn [res_bind]. rewrite Hlen. cbn [res_bind]. rewrite Hid. fold m1.
  assert (np_receiver p =? BROADCAST = false) as -> by (apply Z.eqb_neq; unfold on_mesh, BROADCAST in *; lia).
  rewrite Hf1.
  assert (Hinj : (if np_sender p =? c then computeInjectionPortQueueDelay root estimate ps global_time
                    (np_receiver p) (np_time p) len m1 else Ok (Zero, m1)) = Ok (Zero, m1)).
  { destruct (np_sender p =? c); [|done]. unfold computeInjectionPortQueueDelay. by rewrite Hf1, Hsh1, Hqueue. }
  rewrite Hinj. cbn [res_bind]. rewrite (time_add_0 _ Ht).
  assert (Hadd : (if np_sender p =? c then add_queue_delay Zero p else p) = p)
    by (destruct (np_sender p =? c); [by apply add_no_delay|done]).
  rewrite Hadd. destruct (Z.eqb_spec (dist c (np_receiver p)) 0) as [Hz|Hz].
  - apply distance_zero in Hz; [|done|by apply Hc|done]. unfold getNextDest. rewrite Hid1, Hsh1.
    rewrite (proj2 (Z.leb_gt _ _)) by (unfold on_mesh in Hd; lia). rewrite (proj2 (Z.eqb_eq _ _) Hz). simpl.
    rewrite add_no_delay by done. by eexists.
  - destruct (next_dest_closer cfg m1 (np_receiver p)) as (c' & dir & i & -> & Hi & Hc' & Hdist);
      [by rewrite Hsh1|by rewrite Hsh1, Hid1|done|by rewrite Hsh1|unfold on_mesh in Hd; lia|by rewrite Hsh1, Hid1|].
    rewrite Hsh1, Hid1 in *. unfold addHop, computeLatency, computeProcessingTime. simpl. rewrite Hi, Hf1, Hen1, Hsh1, Hbw1.
    rewrite (proj2 (Z.leb_gt _ _)) by lia. simpl. rewrite HS, Hqueue. simpl. rewrite Hlat1, HL. simpl.
    rewrite add_no_delay, (time_add_0 L latency_u64) by done. by eexists.
Qed.

Lemma model_found c n m x : 0 ≤ c → net_models n !! Z.to_nat c = Some (m, x) → model_of c n = Ok (m, x).
Proof. intros Hc Hm. unfold model_of. rewrite (proj2 (Z.ltb_ge _ _) Hc). by apply rd_Ok. Qed.
Lemma model_put c n m x y b : net_models n !! Z.to_nat c = Some y →
  put_model c (m, x) b n = Ok (mkNet (<[Z.to_nat c := (m, x)]> (net_models n)) b).
Proof. intros Hy%lookup_lt_Some. unfold put_model. by rewrite wr_lt. Qed.
Lemma put_same n i y : net_models n !! i = Some y → mkNet (<[i := y]> (net_models n)) (net_bus n) = n.
Proof. intros Hy. rewrite list_insert_id by done. by destruct n. Qed.

(** The rest of the way, through nodes that are not the sender. *)
Lemma forward_arrives n fuel c t p len requester S dest :
  mesh_net n → master sh c → on_mesh sh dest → accounted p len requester S → in_u64 t →
  dist c dest < dist (np_sender p) dest → dist c dest < Z.of_nat fuel →
  ∃ p', forward root estimate cfg ps global_time fuel (mkHop dest c t) p n
        = Ok (mkHop dest dest (u64 (t + dist c dest * L)), p', n).
Proof.
  intros [_ Hn] Hc Hd. revert c t p Hc. induction fuel as [|fuel IH]; intros c t p Hc Hp Ht Hs Hfuel.
  { pose proof (distance_bound sh Hok c dest ltac:(apply Hc) Hd). simpl in *. lia. }
  cbn [forward next_dest final_dest hop_time]. destruct (Z.eqb_spec c dest) as [->|Hne].
  { exists p. rewrite (proj2 (distance_zero sh Hok dest dest Hd Hd)) by done. rewrite Z.mul_0_l, Z.add_0_r.
    by rewrite u64_id. }
  destruct (Hn c ltac:(destruct Hc as [[??] _]; lia)) as (m & x & Hm & Hnode & _).
  set (p1 := with_times (np_start_time p) t (np_queue_delay p) dest p).
  assert (Hp1 : accounted p1 len requester S) by (apply accounted_times; [done..|apply Hp]).
  destruct (route_step c m p1 len requester S Hnode Hc Hd Hp1) as (h & Hr & Hfin & Hh). simpl in Hfin, Hh.
  assert (np_sender p1 =? c = false) as Hown by (apply Z.eqb_neq; simpl; intros He; rewrite He in Hs; lia).
  rewrite Hown in Hr. unfold route_at. rewrite (model_found c n (NHopByHop m) x) by (try done; destruct Hc as [[??] _]; lia).
  cbn [res_bind fst snd Network.routePacket]. rewrite Hr. cbn [res_bind fst snd].
  rewrite (model_put c n (NHopByHop m) x _ (net_bus n) Hm). cbn [res_bind]. rewrite (put_same n _ _ Hm).
  destruct h as [fin next time]. simpl in Hfin, Hh. subst fin.
  destruct (Z.eqb_spec (dist c dest) 0) as [Hz|Hz].
  - destruct Hh as [-> ->]. destruct fuel; cbn [forward next_dest final_dest]; rewrite Z.eqb_refl; exists p1;
      rewrite Hz, Z.mul_0_l, Z.add_0_r, u64_id by done; done.
  - destruct Hh as (Hc' & Hdist & ->). simpl in Hdist.
    destruct (IH next (u64 (t + L)) p1) as [p' Hp']; [done|done|apply u64_range|simpl; lia|lia|].
    exists p'. rewrite Hp'. do 4 f_equal. rewrite Hdist. unfold u64. rewrite Zplus_mod_idemp_l. f_equal. lia.
Qed.

Lemma mesh_net_put n c m x b :
  mesh_net n → 0 ≤ c < total_cores cfg → node c m → matrix_ok x →
  mesh_net (mkNet (<[Z.to_nat c := (NHopByHop m, x)]> (net_models n)) b).
Proof.
  intros [Hl Hn] Hc Hm Hx. split; simpl; [by rewrite length_insert|]. intros c' Hc'.
  destruct (decide (c = c')) as [<-|Hne].
  - exists m, x. split; [|done]. apply list_lookup_insert_eq. lia.
  - rewrite list_lookup_insert_ne by lia. by apply Hn.
Qed.
Lemma count_packet_ok p x len :
  matrix_ok x → modeledLength cfg p = Ok len → 0 ≤ np_receiver p < total_cores cfg →
  ∃ x', countPacket cfg p x = Ok x' ∧ matrix_ok x'.
Proof.
  intros Hx Hl Hr. destruct x as [l|]; [|by eexists]. unfold countPacket. simpl in Hx.
  assert (np_receiver p =? BROADCAST = false) as -> by (apply Z.eqb_neq; unfold BROADCAST; lia).
  rewrite (proj2 (Z.ltb_ge _ _)) by lia. destruct (rd_lt l (Z.to_nat (np_receiver p))) as (e & _ & ->); [lia|].
  simpl. rewrite Hl. simpl. rewrite wr_lt by lia. simpl. eexists. split; [done|]. simpl. by rewrite length_insert.
Qed.
Lemma fuel_enough : application_cores cfg < Z.of_nat (route_fuel cfg).
Proof. unfold route_fuel. lia. Qed.

(** A packet from a real node arrives after as many hops as the distance. *)
Lemma send_arrives n p len requester S :
  mesh_net n → master sh (np_sender p) → on_mesh sh (np_receiver p) → accounted p len requester S →
  ∃ p' n', send (np_sender p) p n
    = Ok ([(np_receiver p,
            with_times (np_time p) (u64 (np_time p + dist (np_sender p) (np_receiver p) * L)) (np_queue_delay p)
              (np_receiver p) p)], p', n') ∧ mesh_net n'.
Proof.
  intros Hnet Hs Hd Hp. set (s := np_sender p). set (d := np_receiver p) in *.
  assert (Hs' : 0 ≤ s < total_cores cfg) by (destruct Hs as [[??] _]; unfold s; lia).
  pose proof Hnet as [_ Hn]. destruct (Hn s Hs') as (m & x & Hm & Hnode & Hx).
  unfold netSend. rewrite (model_found s n (NHopByHop m) x) by (done || lia). cbn [res_bind fst snd].
  destruct (count_packet_ok p x len Hx ltac:(apply Hp) ltac:(unfold on_mesh in Hd; fold d; lia)) as (x' & -> & Hx').
  cbn [res_bind]. rewrite (model_put s n _ x' _ (net_bus n) Hm). cbn [res_bind].
  set (n1 := mkNet _ _). assert (Hnet1 : mesh_net n1) by (by apply mesh_net_put).
  assert (Hm1 : net_models n1 !! Z.to_nat s = Some (NHopByHop m, x')).
  { simpl. apply list_lookup_insert_eq. destruct Hnet as [Hl _]. lia. }
  destruct (route_step s m p len requester S Hnode Hs Hd Hp) as (h & Hr & Hfin & Hh).
  fold s in Hr. rewrite Z.eqb_refl in Hr. fold d in Hfin, Hh.
  unfold route_at. rewrite (model_found s n1 _ x' ltac:(lia) Hm1). cbn [res_bind fst snd Network.routePacket].
  rewrite Hr. cbn [res_bind fst snd]. rewrite (model_put s n1 _ x' _ (net_bus n1) Hm1). cbn [res_bind].
  set (n2 := mkNet _ _). assert (Hnet2 : mesh_net n2) by (by apply mesh_net_put).
  destruct h as [fin next time]. simpl in Hfin, Hh. subst fin. cbn [send_hops final_dest].
  assert (d =? BROADCAST = false) as -> by (apply Z.eqb_neq; unfold on_mesh, BROADCAST in *; lia).
  assert (Hfw : ∃ p', forward root estimate cfg ps global_time (route_fuel cfg) (mkHop d next time) p n2
                  = Ok (mkHop d d (u64 (np_time p + dist s d * L)), p', n2)).
  { destruct (Z.eqb_spec (dist s d) 0) as [Hz|Hz]; simpl in Hz.
    - destruct Hh as [-> ->]. exists p. unfold route_fuel. rewrite Nat.add_1_r. cbn [forward next_dest final_dest].
      rewrite Z.eqb_refl, Hz, Z.mul_0_l, Z.add_0_r, u64_id by apply Hp. done.
    - destruct Hh as (Hc & Hdist & ->). pose proof (distance_bound sh Hok next d ltac:(apply Hc) Hd) as Hb.
      pose proof fuel_enough.
      destruct (forward_arrives n2 (route_fuel cfg) next (u64 (np_time p + L)) p len requester S d) as [p' ->];
        [done..|apply u64_range|fold s; lia|lia|].
      exists p'. do 4 f_equal. rewrite Hdist. unfold u64. rewrite Zplus_mod_idemp_l. f_equal. lia. }
  destruct Hfw as [p' ->]. cbn [res_bind final_dest next_dest hop_time]. fold s. rewrite Z.eqb_refl.
  by exists p', n2.
Qed.

(** The receiving end adds the time that the packet takes to leave the link. *)
Definition ejection (s d S : Z) : Z := if (s =? d) || negb (Z.rem d (m_concentration sh) =? 0) then 0 else S.
Lemma pull_arrives n p len requester S :
  mesh_net n → on_mesh sh (np_sender p) → on_mesh sh (np_receiver p) → accounted p len requester S →
  ∃ n', pull (np_receiver p) p n
    = Ok ([], Some (with_times (np_start_time p) (u64 (np_time p + ejection (np_sender p) (np_receiver p) S))
                      (np_queue_delay p) (np_receiver p) p), n') ∧ mesh_net n'.
Proof.
  intros Hnet Hs Hd (Hlen & Hreq & Hreq' & HS & Ht & Hq). set (d := np_receiver p) in *. unfold on_mesh in *.
  pose proof Hnet as [_ Hn]. destruct (Hn d ltac:(lia)) as (m & x & Hm & Hnode & Hx).
  pose proof Hnode as (Hsh & Hid & Hf & Hen & Hbw & Hlat). unfold netPull. fold d.
  rewrite (proj2 (Z.leb_le _ _)), (proj2 (Z.ltb_lt _ _)), Z.eqb_refl by lia. cbn [andb c_assert res_bind negb].
  rewrite (model_found d n (NHopByHop m) x) by (done || lia). cbn [res_bind fst Network.processReceivedPacket].
  assert (Hr : ∃ m', HopByHop.processReceivedPacket root estimate cfg ps global_time p m
    = Ok (with_times (np_start_time p) (u64 (np_time p + ejection (np_sender p) d S)) (np_queue_delay p) d p, m') ∧ node d m').
  { unfold HopByHop.processReceivedPacket, computeProcessingTime, computeEjectionPortQueueDelay, ejection.
    rewrite Hlen. cbn [res_bind]. rewrite Hreq. cbn [res_bind].
    rewrite (proj2 (Z.leb_gt (application_cores cfg) requester)) by lia.
    rewrite Hen, Hid, Hf, (proj2 (Z.leb_gt (application_cores cfg) d)) by lia. cbn [negb orb]. rewrite Hlat, HL.
    cbn [res_bind]. rewrite orb_false_r. destruct (np_sender p =? d), (Z.rem d (m_concentration sh) =? 0) eqn:Hrem.
    all: cbn [negb andb orb log_assert res_bind]; rewrite ?Hbw, ?HS, ?Hsh, ?Hqueue; cbn [negb orb res_bind log_assert].
    3:{ rewrite (time_add_0 (np_queue_delay p)) by done.
        replace (time_add (np_time p) (time_add Zero S)) with (u64 (np_time p + S))
          by (unfold time_add, u64, Zero; by rewrite Zplus_mod_idemp_r).
        eexists. split; [reflexivity|exact Hnode]. }
    all: eexists; split; [rewrite Z.add_0_r, u64_id by done; destruct p; reflexivity|exact Hnode]. }
  destruct Hr as (m' & -> & Hnode'). cbn [res_bind fst snd]. rewrite (model_put d n _ x _ (net_bus n) Hm). cbn [res_bind].
  eexists. split; [done|]. apply mesh_net_put; [done|lia|done..].
Qed.

(** The broadcast tree has no leaves. *)
Lemma tree_goes_on m sender :
  m_shape m = sh → on_mesh sh (m_core_id m) →
  ∃ dir c, (dir, BROADCAST, c) ∈ tree_steps sender m ∧ master sh c.
Proof.
  intros Hsh Hc. unfold tree_steps, computeCoreId. rewrite Hsh. destruct (computePosition sender sh) as [sx sy].
  pose proof (position_ok sh Hok _ Hc) as Hp. destruct (computePosition (m_core_id m) sh) as [cx cy].
  destruct Hp as (Hx & Hy & _). pose proof Hok as (Hw & Hh & _).
  assert (Hrem : ∀ a n, 0 < n → 0 ≤ a + n → 0 ≤ Z.rem (a + n) n < n) by (intros; apply Z.rem_bound_pos; lia).
  destruct (Z.leb_spec sy cy); [exists UP|destruct (Z.leb_spec cy sy); [exists DOWN|lia]]; eexists; simpl;
    (split; [by left|]); apply core_ok; try done; apply Hrem; lia.
Qed.

(** ** Broadcasts *)

(** The hops of a broadcast go to the first core of a node, still as a
    broadcast, or to the core of the node itself. *)
Definition broadcast_step (dest next : Z) : Prop :=
  dest = BROADCAST ∧ master sh next ∨ dest = next ∧ on_mesh sh next.
Definition broadcasts (dest next : Z) : Prop := dest = BROADCAST ∧ master sh next.

Lemma tree_steps_ok m sender :
  m_shape m = sh → on_mesh sh (m_core_id m) → Forall (λ s, broadcast_step s.1.2 s.2) (tree_steps sender m).
Proof.
  intros Hsh Hc. unfold tree_steps, computeCoreId. rewrite Hsh. destruct (computePosition sender sh) as [sx sy].
  pose proof (position_ok sh Hok _ Hc) as Hp. destruct (computePosition (m_core_id m) sh) as [cx cy].
  destruct Hp as (Hx & Hy & _). pose proof Hok as (Hw & Hh & _).
  assert (Hrem : ∀ a n, 0 < n → 0 ≤ a + n → 0 ≤ Z.rem (a + n) n < n) by (intros; apply Z.rem_bound_pos; lia).
  assert (Hmaster : ∀ x y, -1 ≤ x ≤ m_mesh_width sh → -1 ≤ y ≤ m_mesh_height sh →
    broadcast_step BROADCAST ((Z.rem (y + m_mesh_height sh) (m_mesh_height sh) * m_mesh_width sh +
                               Z.rem (x + m_mesh_width sh) (m_mesh_width sh)) * m_concentration sh)).
  { intros x y Hxx Hyy. left. split; [done|]. apply core_ok; [done|apply Hrem; lia..]. }
  assert (Hone : ∀ (b : bool) dir x y, -1 ≤ x ≤ m_mesh_width sh → -1 ≤ y ≤ m_mesh_height sh →
    Forall (λ s : OutputDirection * Z * Z, broadcast_step s.1.2 s.2)
      (if b then [(dir, BROADCAST, (Z.rem (y + m_mesh_height sh) (m_mesh_height sh) * m_mesh_width sh +
                               Z.rem (x + m_mesh_width sh) (m_mesh_width sh)) * m_concentration sh)] else [])).
  { intros [] dir x y ? ?; [|apply Forall_nil_2]. apply Forall_singleton. simpl. by apply Hmaster. }
  apply Forall_app. split; [apply Hone; lia|]. apply Forall_app. split; [apply Hone; lia|].
  destruct (cy =? sy); [|apply Forall_nil_2]. apply Forall_app. split; [apply Hone; lia|]. apply Forall_app.
  split; [apply Hone; lia|]. destruct (cx =? sx); [|apply Forall_nil_2]. apply Forall_singleton. right. by split.
Qed.
Lemma add_hops_total l time len requester m S :
  node (m_core_id m) m → m_fake_node m = false → requester < application_cores cfg → in_u64 time →
  cb_getRoundedLatency ps bw (u32 (len * 8)) = Ok S →
  ∃ hs, add_hops root estimate cfg ps global_time l time len requester m = Ok (hs, m) ∧
        Forall2 (λ s h, final_dest h = s.1.2 ∧ next_dest h = s.2 ∧ in_u64 (hop_time h)) l hs.
Proof.
  intros (Hsh & _ & _ & Hen & Hbw & Hlat) Hf Hreq Ht HS. induction l as [|[[dir dest] next] l (hs & IH & Hall)]; [by exists []|].
  cbn [add_hops]. unfold st_bind.
  assert (∃ h, addHop root estimate cfg ps global_time dir dest next time len requester m = Ok (h, Zero, m) ∧
               final_dest h = dest ∧ next_dest h = next ∧ in_u64 (hop_time h)) as (h & -> & Hh).
  { unfold addHop. destruct (link dir) as [i|]; [|by eexists].
    unfold computeLatency, computeProcessingTime. rewrite Hf, Hen, (proj2 (Z.leb_gt _ _) Hreq), Hbw, HS, Hsh, Hqueue.
    cbn [negb orb log_assert res_bind fst snd]. rewrite Hlat, HL. cbn [res_bind]. eexists. split; [reflexivity|].
    split; [done|]. split; [done|]. apply u64_range. }
  cbn [res_bind fst snd]. rewrite IH. cbn [res_bind ret fst snd]. exists (h :: hs). split; [done|]. by constructor.
Qed.

Definition hop_ok (h : Hop) : Prop := broadcast_step (final_dest h) (next_dest h) ∧ in_u64 (hop_time h).
Lemma broadcast_route c m p len requester S :
  m_broadcast_tree_enabled sh = true → node c m → master sh c → np_receiver p = BROADCAST → accounted p len requester S →
  ∃ hs m', route p m = Ok (hs, p, m') ∧ node c m' ∧ Forall hop_ok hs ∧
           ∃ h, h ∈ hs ∧ broadcasts (final_dest h) (next_dest h).
Proof.
  intros Htree Hm Hc Hr (Hlen & Hreq & Hreq' & HS & Ht & _). pose proof (master_real c m Hm Hc) as Hf.
  unfold HopByHop.routePacket. rewrite Hreq. cbn [res_bind]. rewrite Hlen. cbn [res_bind]. rewrite Hr, Z.eqb_refl.
  set (m1 := if np_sender p =? m_core_id m then count_sent len m else m).
  assert (Hm1 : node c m1) by (unfold m1; by destruct (np_sender p =? m_core_id m)).
  assert (Hf1 : m_fake_node m1 = false) by (unfold m1; by destruct (np_sender p =? m_core_id m)).
  pose proof Hm1 as (Hsh1 & Hid1 & _). rewrite Hf1, Hsh1, Htree.
  assert (Hinj : (if np_sender p =? m_core_id m then computeInjectionPortQueueDelay root estimate ps global_time
                    BROADCAST (np_time p) len m1 else Ok (Zero, m1)) = Ok (Zero, m1)).
  { destruct (np_sender p =? m_core_id m); [|done]. unfold computeInjectionPortQueueDelay. by rewrite Hf1, Hsh1, Hqueue. }
  rewrite Hinj. cbn [res_bind fst snd]. rewrite (time_add_0 _ Ht).
  destruct (add_hops_total (tree_steps (np_sender p) m1) (np_time p) len requester m1 S) as (hs & -> & Hall);
    [by rewrite Hid1|done..|].
  cbn [res_bind fst snd]. exists hs, m1. split; [done|]. split; [done|]. rewrite <- Hid1 in Hc.
  pose proof (tree_steps_ok m1 (np_sender p) Hsh1 (proj1 Hc)) as Hok1.
  destruct (tree_goes_on m1 (np_sender p) Hsh1 (proj1 Hc)) as (dir & d & Hin & Hd). split.
  - apply Forall_lookup. intros i h Hh. destruct (Forall2_lookup_r _ _ _ _ _ Hall Hh) as (s & Hs & Hfin & Hnext & ?).
    split; [|done]. rewrite Hfin, Hnext. by apply (Forall_lookup_1 _ _ _ _ Hok1 Hs).
  - apply list_elem_of_lookup in Hin as [i Hi]. destruct (Forall2_lookup_l _ _ _ _ _ Hall Hi) as (h & Hh & Hfin & Hnext & _).
    exists h. split; [by eapply list_elem_of_lookup_2|]. by rewrite Hfin, Hnext.
Qed.

(** A packet between [netSend] and the reception. *)
Definition in_flight (len requester S : Z) (f : Z * NetPacket) : Prop :=
  on_mesh sh (np_sender f.2) ∧ accounted f.2 len requester S ∧ broadcast_step (np_receiver f.2) f.1.
Definition broadcast_in (l : list (Z * NetPacket)) : Prop := ∃ f, f ∈ l ∧ broadcasts (np_receiver f.2) f.1.

Lemma send_hops_total core start hs p buffer n len requester S :
  Forall hop_ok hs → accounted buffer len requester S → on_mesh sh (np_sender buffer) →
  ∃ sent, send_hops root estimate cfg ps global_time core start hs p buffer n = Ok (sent, p, n) ∧
    Forall (in_flight len requester S) sent ∧
    ((∃ h, h ∈ hs ∧ broadcasts (final_dest h) (next_dest h)) → broadcast_in sent).
Proof.
  intros Hhs. revert buffer. induction Hhs as [|h hs [Hh Ht] _ IH]; intros buffer Hb Hs; cbn [send_hops].
  { exists []. split; [done|]. split; [done|]. intros (h & ?%elem_of_nil & _). done. }
  assert ((if final_dest h =? BROADCAST then Ok (h, p, n)
           else forward root estimate cfg ps global_time (route_fuel cfg) h p n) = Ok (h, p, n)) as ->.
  { destruct Hh as [[-> _]|[Heq _]]; [by rewrite Z.eqb_refl|]. destruct (_ =? BROADCAST); [done|].
    unfold route_fuel. rewrite Nat.add_1_r. cbn [forward]. by rewrite Heq, Z.eqb_refl. }
  cbn [res_bind]. set (b := with_times _ _ _ _ _).
  assert (Hb' : accounted b len requester S) by (apply accounted_times; [done|done|apply Hb]).
  destruct (IH b Hb' Hs) as (sent & -> & Hall & Hex). cbn [res_bind]. eexists. split; [done|]. split.
  - constructor; [|done]. by split_and!.
  - intros (h' & [->|Hin]%elem_of_cons & Hbr).
    + exists (next_dest h, b). split; [by left|done].
    + destruct Hex as (f & Hf & ?); [by exists h'|]. exists f. split; [by right|done].
Qed.
Lemma broadcast_send n c p len requester S :
  m_broadcast_tree_enabled sh = true → mesh_net n → master sh c → on_mesh sh (np_sender p) →
  np_receiver p = BROADCAST → accounted p len requester S →
  ∃ sent n', send c p n = Ok (sent, p, n') ∧ mesh_net n' ∧ Forall (in_flight len requester S) sent ∧ broadcast_in sent.
Proof.
  intros Htree Hnet Hc Hs Hr Hp. assert (Hc' : 0 ≤ c < total_cores cfg) by (destruct Hc as [[??] _]; lia).
  pose proof Hnet as [Hl Hn]. destruct (Hn c Hc') as (m & x & Hm & Hnode & Hx).
  unfold netSend. rewrite (model_found c n (NHopByHop m) x) by (done || lia). cbn [res_bind fst snd].
  assert (∃ x', countPacket cfg p x = Ok x' ∧ matrix_ok x') as (x' & -> & Hx').
  { destruct x as [l|]; [|by eexists]. simpl in Hx. unfold countPacket. rewrite Hr, Z.eqb_refl.
    rewrite (proj2 (Z.ltb_ge _ _)) by lia. destruct (rd_lt l (Z.to_nat (Z.of_nat (length l) - 1))) as (e & _ & ->); [lia|].
    cbn [res_bind]. rewrite (proj1 Hp). cbn [res_bind]. rewrite wr_lt by lia. eexists. split; [done|]. simpl. by rewrite length_insert. }
  cbn [res_bind]. rewrite (model_put c n _ x' _ (net_bus n) Hm). cbn [res_bind].
  set (n1 := mkNet _ _). assert (Hm1 : net_models n1 !! Z.to_nat c = Some (NHopByHop m, x')).
  { simpl. apply list_lookup_insert_eq. lia. }
  destruct (broadcast_route c m p len requester S Htree Hnode Hc Hr Hp) as (hs & m' & Hroute & Hnode' & Hall & Hex).
  unfold route_at. rewrite (model_found c n1 _ x' ltac:(lia) Hm1). cbn [res_bind fst snd Network.routePacket].
  rewrite Hroute. cbn [res_bind fst snd]. rewrite (model_put c n1 _ x' _ (net_bus n1) Hm1). cbn [res_bind].
  set (n2 := mkNet _ _). destruct (send_hops_total c (np_time p) hs p p n2 len requester S Hall Hp Hs) as (sent & -> & Hf & Hb).
  exists sent, n2. split; [done|]. split; [|by auto]. apply mesh_net_put; [|done..]. by apply mesh_net_put.
Qed.
Lemma receive_total c m p len requester S :
  node c m → on_mesh sh c → accounted p len requester S →
  ∃ p' m', HopByHop.processReceivedPacket root estimate cfg ps global_time p m = Ok (p', m') ∧ node c m'.
Proof.
  intros Hnode Hc (Hlen & Hreq & Hreq' & HS & _). pose proof Hnode as (Hsh & Hid & Hf & Hen & Hbw & Hlat).
  unfold on_mesh in Hc. unfold HopByHop.processReceivedPacket, computeProcessingTime, computeEjectionPortQueueDelay.
  rewrite Hlen. cbn [res_bind]. rewrite Hreq. cbn [res_bind]. rewrite Hen, Hid, !(proj2 (Z.leb_gt _ _)) by lia.
  cbn [negb orb]. rewrite Hlat, HL. cbn [res_bind].
  destruct (np_sender p =? c), (m_fake_node m) eqn:Hfm; cbn [negb andb]; rewrite ?Hbw, ?HS, ?Hsh, ?Hqueue;
    cbn [negb orb res_bind log_assert]; do 2 eexists; (split; [reflexivity|exact Hnode]).
Qed.
Lemma deliver_total n f len requester S :
  m_broadcast_tree_enabled sh = true → mesh_net n → in_flight len requester S f →
  ∃ sent r n', pull f.1 f.2 n = Ok (sent, r, n') ∧ mesh_net n' ∧ Forall (in_flight len requester S) sent ∧
               (broadcasts (np_receiver f.2) f.1 → broadcast_in sent).
Proof.
  intros Htree Hnet (Hs & Hp & Hstep). destruct f as [c p]. simpl in *. unfold netPull.
  assert (Hc : on_mesh sh c) by (destruct Hstep as [[_ [? _]]|[_ ?]]; done).
  assert (Hr : ∃ sent n1, (if np_receiver p =? c then Ok ([], p, n) else send c p n) = Ok (sent, p, n1) ∧ mesh_net n1 ∧
    Forall (in_flight len requester S) sent ∧ (broadcasts (np_receiver p) c → broadcast_in sent) ∧
    negb (np_receiver p =? c) && negb (np_receiver p =? BROADCAST) = false).
  { destruct Hstep as [[Hr Hm]|[Hr _]].
    - assert (np_receiver p =? c = false) as -> by (rewrite Hr; apply Z.eqb_neq; unfold on_mesh, BROADCAST in *; lia).
      destruct (broadcast_send n c p len requester S Htree Hnet Hm Hs Hr Hp) as (sent & n1 & ? & ? & ? & ?).
      exists sent, n1. split_and!; try done. by rewrite Hr.
    - rewrite Hr, Z.eqb_refl. exists [], n. split_and!; try done.
      intros [He _]. exfalso. rewrite He in Hc. unfold on_mesh, BROADCAST in Hc. lia. }
  destruct Hr as (sent & n1 & Hsend & Hnet1 & Hall & Hb & Hgo). unfold on_mesh in Hs, Hc.
  rewrite (proj2 (Z.leb_le _ _)), (proj2 (Z.ltb_lt _ _)) by lia. cbn [andb c_assert res_bind]. rewrite Hsend. cbn [res_bind].
  rewrite Hgo. pose proof Hnet1 as [_ Hn]. destruct (Hn c ltac:(lia)) as (m & x & Hm & Hnode & Hx).
  rewrite (model_found c n1 (NHopByHop m) x) by (done || lia). cbn [res_bind fst snd Network.processReceivedPacket].
  destruct (receive_total c m p len requester S Hnode Hc Hp) as (p' & m' & -> & Hnode'). cbn [res_bind fst snd].
  rewrite (model_put c n1 _ x _ (net_bus n1) Hm). cbn [res_bind]. do 3 eexists. split; [done|].
  split; [apply mesh_net_put; [done|lia|done..]|done].
Qed.

(** A network and the packets that the transport holds.  The transport hands
    over any of them; what [netPullFromTransport] sends is added. *)
Inductive delivery : Net * list (Z * NetPacket) → Net * list (Z * NetPacket) → Prop :=
| Delivery n before c p after sent r n' :
    pull c p n = Ok (sent, r, n') →
    delivery (n, before ++ (c, p) :: after) (n', before ++ after ++ sent).

Lemma delivery_keeps s s' len requester S :
  m_broadcast_tree_enabled sh = true → delivery s s' →
  mesh_net s.1 ∧ Forall (in_flight len requester S) s.2 ∧ broadcast_in s.2 →
  mesh_net s'.1 ∧ Forall (in_flight len requester S) s'.2 ∧ broadcast_in s'.2.
Proof.
  intros Htree [n before c p after sent r n' Hpull] (Hnet & Hall & (f & Hf & Hb)). simpl in *.
  apply Forall_app in Hall as [H1 [H2 H3]%Forall_cons].
  destruct (deliver_total n (c, p) len requester S Htree Hnet H2) as (sent' & r' & n1 & Hpull' & Hnet' & Hsent & Hgo).
  simpl in Hpull'. rewrite Hpull in Hpull'. injection Hpull' as <- <- <-. split; [done|]. split; [by rewrite !Forall_app|].
  unfold broadcast_in. setoid_rewrite elem_of_app. setoid_rewrite elem_of_app.
  apply elem_of_app in Hf as [Hf|[->|Hf]%elem_of_cons]; [naive_solver| |naive_solver].
  destruct (Hgo Hb) as (g & Hg & ?). exists g. auto.
Qed.

(** * Properties *)

(** C8: on a mesh of enabled models without queue models (or a torus of even
    sides) a packet of an application core from the first core of a node to
    any core arrives, in one transmission, after as many hop latencies as the
    distance of the two cores, and a last wait for the link at the first core
    of another node. The forwarding loop ends within the fuel. *)
Theorem mesh_delivers_after_distance n p len requester S :
  mesh_net n → master sh (np_sender p) → on_mesh sh (np_receiver p) → accounted p len requester S →
  ∃ pkt p' n' pkt' n'',
    send (np_sender p) p n = Ok ([(np_receiver p, pkt)], p', n') ∧
    pull (np_receiver p) pkt n' = Ok ([], Some pkt', n'') ∧ mesh_net n'' ∧
    np_time pkt' = u64 (np_time p + computeDistance (np_sender p) (np_receiver p) sh * L
                        + ejection (np_sender p) (np_receiver p) S).
Proof.
  intros Hn Hs Hd Hp. destruct (send_arrives n p len requester S Hn Hs Hd Hp) as (p' & n' & Hsend & Hn').
  set (pkt := with_times _ _ _ _ _) in Hsend.
  destruct (pull_arrives n' pkt len requester S) as (n'' & Hpull & Hn''); [done|by apply Hs|done| |].
  { apply accounted_times; [done|apply u64_range|apply Hp]. }
  do 5 eexists. split; [done|]. split; [done|]. split; [done|]. simpl. unfold u64. by rewrite Zplus_mod_idemp_l.
Qed.

(** C30: a mesh without queue models and with one core for each node is the hop
    counter: the packet is delivered at the time that the one hop of the hop
    counter says. *)
Theorem mesh_is_hop_counter n p len requester S (hc : HopCounter.t) :
  mesh_net n → m_concentration sh = 1 → m_wrap_around sh = false →
  HopCounter.meshWidth hc = m_mesh_width sh → HopCounter.hopLatency hc = lat → HopCounter.linkBandwidth hc = bw →
  on_mesh sh (np_sender p) → on_mesh sh (np_receiver p) → accounted p len requester S →
  ∃ pkt p' n' pkt' n'',
    send (np_sender p) p n = Ok ([(np_receiver p, pkt)], p', n') ∧
    pull (np_receiver p) pkt n' = Ok ([], Some pkt', n'') ∧
    HopCounter.routePacket cfg ps p hc = Ok [mkHop (np_receiver p) (np_receiver p) (np_time pkt')].
Proof.
  intros Hn Hk Hw Hwidth Hlat Hbw Hs Hd Hp.
  assert (Hrem : ∀ c, Z.rem c (m_concentration sh) = 0) by (intros c; rewrite Hk; apply Z.rem_1_r).
  assert (Hms : master sh (np_sender p)) by (split; [done|apply Hrem]).
  destruct (send_arrives n p len requester S Hn Hms Hd Hp) as (p' & n' & Hsend & Hn').
  set (pkt := with_times _ _ _ _ _) in Hsend.
  destruct (pull_arrives n' pkt len requester S) as (n'' & Hpull & _); [done..| |].
  { apply accounted_times; [done|apply u64_range|apply Hp]. }
  do 5 eexists. split; [done|]. split; [done|]. destruct Hp as (Hlen & _ & _ & HS & _).
  unfold HopCounter.routePacket, HopCounter.computeSerializationLatency. rewrite Hlen. cbn [res_bind].
  rewrite Hbw, HS, Hlat. cbn [res_bind]. rewrite HL. cbn [res_bind].
  assert (np_receiver p =? BROADCAST = false) as -> by (apply Z.eqb_neq; unfold on_mesh, BROADCAST in *; lia).
  do 3 f_equal. simpl. unfold HopCounter.latency_to, ejection, computeDistance, computePosition, HopCounter.computePosition.
  rewrite Hwidth, Hw, Hrem, Hk, !Z.quot_1_r. cbn [Z.eqb negb]. rewrite orb_false_r, (Z.eqb_sym (np_sender p)).
  unfold HopCounter.computeDistance, time_add, time_mul, u64.
  destruct (np_receiver p =? np_sender p); rewrite ?Zplus_mod_idemp_l, ?Zplus_mod_idemp_r; f_equal; lia.
Qed.

(** C39: with the broadcast tree a broadcast circulates for ever. Let the
    first core of a node of a mesh (or torus of even sides) of enabled models
    without queue models send a broadcast of an application core. The packets
    are sent, and in whatever order and however often the transport then hands
    packets to [netPullFromTransport], there is still a broadcast on its way
    to the first core of some node; every packet on its way can be received,
    and the reception of a broadcast sends another one. (The steps of the tree
    wrap around at the border, so the tree has no leaves.) *)
Theorem broadcast_tree_never_ends n p len requester S :
  m_broadcast_tree_enabled sh = true → mesh_net n → master sh (np_sender p) → np_receiver p = BROADCAST →
  accounted p len requester S →
  ∃ sent n1, send (np_sender p) p n = Ok (sent, p, n1) ∧
    ∀ n2 flying, rtc delivery (n1, sent) (n2, flying) →
      (∃ c q, (c, q) ∈ flying ∧ np_receiver q = BROADCAST ∧ master sh c) ∧
      (∀ c q, (c, q) ∈ flying → ∃ more r n3, pull c q n2 = Ok (more, r, n3) ∧
         (np_receiver q = BROADCAST → ∃ c' q', (c', q') ∈ more ∧ np_receiver q' = BROADCAST ∧ master sh c')).
Proof.
  intros Htree Hnet Hm Hr Hp.
  destruct (broadcast_send n _ p len requester S Htree Hnet Hm (proj1 Hm) Hr Hp) as (sent & n1 & Hsend & Hnet1 & Hall & Hex).
  exists sent, n1. split; [done|]. intros n2 flying Hrun.
  assert (Hkeep : mesh_net n2 ∧ Forall (in_flight len requester S) flying ∧ broadcast_in flying).
  { change n2 with (n2, flying).1. change flying with (n2, flying).2 at 2 3.
    assert (Hstart : mesh_net (n1, sent).1 ∧ Forall (in_flight len requester S) (n1, sent).2 ∧ broadcast_in (n1, sent).2) by done.
    revert Hstart. induction Hrun as [s|s s1 s2 Hd _ IH]; [done|]. intros Hs. by eapply IH, delivery_keeps. }
  destruct Hkeep as (Hnet2 & Hfl & ([c q] & Hin & Hb)). split; [by exists c, q|]. intros c' q' Hin'.
  pose proof (proj1 (Forall_forall _ _) Hfl _ Hin') as Hf.
  destruct (deliver_total n2 (c', q') len requester S Htree Hnet2 Hf) as (more & r & n3 & Hpull & _ & _ & Hgo).
  exists more, r, n3. split; [done|]. intros Hq. destruct Hf as (_ & _ & Hstep). simpl in Hstep, Hgo.
  destruct Hgo as ([c1 q1] & ? & ?); [|by exists c1, q1].
  destruct Hstep as [?|[Heq Hon]]; [done|]. rewrite <- Heq, Hq in Hon. unfold on_mesh, BROADCAST in Hon. lia.
Qed.
End Mesh.

(** ** Instances *)
Definition example_cfg : NetCfg := mkNetCfg 4 4 1.
Definition example_shape : Shape := mkShape 2 2 1 2 false true false.
Definition example_bw : ComponentBandwidthPerCycle := {| cb_period := 0; m_bw_in_bits_per_cycle := 64 |}.
Definition example_lat : ComponentLatency := {| cl_period := 0; m_fixed_cycle_latency := 2 |}.
Definition example_node (c : Z) : HopByHop.t :=
  HopByHop.mk example_shape c false true example_bw example_lat None 0 0 0 0 Zero Zero.
Definition example_net : Net := mkNet ((λ c, (NHopByHop (example_node c), Matrix_new example_cfg true)) <$> seqZ 0 4) None.
Definition example_packet (receiver : Z) : NetPacket := NetPacket_new 100 SIM_THREAD_TERMINATE_THREADS 0 receiver 0 None.
Definition example_root (x _ : Z) : Z := x.
Definition example_estimate (_ _ _ _ : Z) : Z := 0.

Lemma example_shape_ok : shape_ok example_shape.
Proof. unfold shape_ok. simpl. by split_and!. Qed.
Lemma example_mesh : mesh_net example_cfg example_shape example_bw example_lat example_net.
Proof.
  split; [reflexivity|]. intros c Hc. simpl in Hc.
  assert (c = 0 ∨ c = 1 ∨ c = 2 ∨ c = 3) as [-> | [-> | [-> | ->]]] by lia;
    (do 2 eexists; split; [reflexivity|by split_and!]).
Qed.
Lemma example_accounted : accounted example_cfg [1000] example_bw (example_packet 3) 48 0 6007.
Proof. by split_and!. Qed.

Lemma mesh_delivers_after_distance_witness :
  ∃ pkt p' n' pkt' n'',
    netSend example_root example_estimate example_cfg [1000] 0 0 (example_packet 3) example_net = Ok ([(3, pkt)], p', n') ∧
    netPull example_root example_estimate example_cfg [1000] 0 3 pkt n' = Ok ([], Some pkt', n'') ∧
    np_time pkt' = 100 + 2 * 2000 + 6007.
Proof.
  destruct (mesh_delivers_after_distance example_root example_estimate example_cfg [1000] 0 example_shape example_bw
    example_lat 2000 example_shape_ok eq_refl eq_refl eq_refl ltac:(simpl; lia) example_net (example_packet 3) 48 0 6007
    example_mesh ltac:(done) ltac:(done) example_accounted) as (pkt & p' & n' & pkt' & n'' & Hs & Hp & _ & Ht).
  exists pkt, p', n', pkt', n''. by rewrite Ht.
Defined.

Lemma mesh_is_hop_counter_witness :
  ∃ hc pkt p' n' pkt' n'',
    HopCounter.new example_cfg example_bw example_lat = Ok hc ∧
    netSend example_root example_estimate example_cfg [1000] 0 0 (example_packet 3) example_net = Ok ([(3, pkt)], p', n') ∧
    netPull example_root example_estimate example_cfg [1000] 0 3 pkt n' = Ok ([], Some pkt', n'') ∧
    HopCounter.routePacket example_cfg [1000] (example_packet 3) hc = Ok [mkHop 3 3 (np_time pkt')].
Proof.
  exists (HopCounter.mk example_lat example_bw 2 2 false 0 0 Zero).
  destruct (mesh_is_hop_counter example_root example_estimate example_cfg [1000] 0 example_shape example_bw
    example_lat 2000 example_shape_ok eq_refl eq_refl eq_refl ltac:(simpl; lia) example_net (example_packet 3) 48 0 6007
    (HopCounter.mk example_lat example_bw 2 2 false 0 0 Zero) example_mesh eq_refl eq_refl eq_refl eq_refl eq_refl
    ltac:(done) ltac:(done) example_accounted) as (pkt & p' & n' & pkt' & n'' & Hs & Hp & Hr).
  exists pkt, p', n', pkt', n''. do 3 (split; [done|]). exact Hr.
Defined.

Lemma broadcast_tree_never_ends_witness :
  ∃ sent n1, netSend example_root example_estimate example_cfg [1000] 0 0 (example_packet BROADCAST) example_net
             = Ok (sent, example_packet BROADCAST, n1) ∧
    sent.*1 = [2; 2; 1; 1; 0] ∧
    ∃ c q, (c, q) ∈ sent ∧ np_receiver q = BROADCAST ∧ master example_shape c.
Proof.
  destruct (broadcast_tree_never_ends example_root example_estimate example_cfg [1000] 0 example_shape example_bw example_lat
    2000 example_shape_ok eq_refl eq_refl eq_refl ltac:(simpl; lia) example_net (example_packet BROADCAST) 48 0 6007
    eq_refl example_mesh ltac:(done) eq_refl ltac:(by split_and!)) as (sent & n1 & Hsend & Hall).
  exists sent, n1. split; [exact Hsend|]. split; [|exact (proj1 (Hall n1 sent (rtc_refl _ _)))].
  vm_compute in Hsend. by injection Hsend as <- _.
Defined.

(** ** Where the mesh departs from the distance *)

(** On a ring of five nodes the way between nodes 0 and 3 has three hops, one
    more than [computeDistance] says. *)
Lemma odd_ring_takes_the_long_way :
  let sh := mkShape 5 1 1 1 true false false in
  let ring c := HopByHop.mk sh c false true example_bw example_lat None 0 0 0 0 Zero Zero in
  computeDistance 0 3 sh = 2 ∧
  (∀ c, c ∈ [0; 1; 2] → getNextDest (mkNetCfg 5 5 1) 3 (ring c) = (c + 1, RIGHT)).
Proof.
  split; [reflexivity|]. intros c Hc. by repeat (apply elem_of_cons in Hc as [->|Hc]; [reflexivity|]); inversion Hc.
Qed.

(** A core that is not the first of its node puts its packets on no link: they
    arrive at once, and the receiver's contention delay wraps around below
    zero. *)
Lemma peers_skip_the_mesh root estimate cfg ps global_time m p requester len :
  m_fake_node m = true → packet_requester cfg p = Ok requester → modeledLength cfg p = Ok len →
  np_receiver p ≠ BROADCAST → np_sender p = m_core_id m →
  HopByHop.routePacket root estimate cfg ps global_time p m
  = Ok ([mkHop (np_receiver p) (np_receiver p) (np_time p)], p, count_sent len m).
Proof.
  intros Hf Hr Hl Hb Hs. unfold HopByHop.routePacket. rewrite Hr. simpl. rewrite Hl. simpl.
  rewrite (proj2 (Z.eqb_neq _ _) Hb), (proj2 (Z.eqb_eq _ _) Hs). simpl. by rewrite Hf.
Qed.
