(* ===== verification/CacheCntlr.v ===== *)
(** The cache controllers of a node, i.e. of the cores that share a last-level
    cache: src/common/core/memory_subsystem/parametric_dram_directory_msi/cache_cntlr.{h,cc},
    with what they use of memory_manager.cc, shmem_perf_model.cc and
    cache_perf_model_{parallel,sequential}.h.

    The objects of the C++ program are entries of two lists: a controller per
    core and level ([CacheCntlr]) and a master per cache ([CacheMaster]), which
    the controllers of the cores that share the cache point to.  Pointers are
    indices.  A function that waits for the directory returns [Blocked] with
    what it does when it is woken up; the locks, which make what happens between
    two such points atomic for the lines of one set, are not part of the state.

    Not part of the model: [ShmemPerf], the auxiliary tag directories, the
    cache efficiency callbacks other than the choice of the owner, and the
    code under ENABLE_TRANSITIONS, ENABLE_TRACK_SHARING_PREVCACHES,
    TRACK_LATENCY_BY_HITWHERE and PRIVATE_L2_OPTIMIZATION, which are not
    defined. *)
From S2P Require Import Prelude SubsecondTime ContentionModel CacheBlock LruPolicies CacheSet Address CacheModel Directory Shmem.
Local Open Scope Z_scope.

(** * Data *)

(** Core::mem_op_t and Core::lock_signal_t. *)
Inductive mem_op_t : Type := READ | READ_EX | WRITE.
Inductive lock_signal_t : Type := NONE | LOCK | UNLOCK.
(** Prefetch::prefetch_type_t, Transition::reason_t and ShmemPerfModel::Thread_t. *)
Inductive prefetch_type_t : Type := PREFETCH_NONE | PREFETCH_OWN | PREFETCH_OTHER.
Inductive reason_t : Type := CORE_RD | CORE_WR | CORE_RDEX | UPGRADE | EVICT | BACK_INVAL | COHERENCY.
Inductive Thread_t : Type := USER_THREAD | SIM_THREAD.
(** CachePerfModel::CacheAccess_t. *)
Inductive CacheAccess_t : Type := ACCESS_CACHE_TAGS | ACCESS_CACHE_DATA | ACCESS_CACHE_DATA_AND_TAGS.

#[export] Instance mem_op_t_eq_dec : EqDecision mem_op_t.
Proof. solve_decision. Defined.
#[export] Instance lock_signal_t_eq_dec : EqDecision lock_signal_t.
Proof. solve_decision. Defined.
#[export] Instance prefetch_type_t_eq_dec : EqDecision prefetch_type_t.
Proof. solve_decision. Defined.
#[export] Instance reason_t_eq_dec : EqDecision reason_t.
Proof. solve_decision. Defined.
#[export] Instance component_t_eq_dec : EqDecision component_t.
Proof. solve_decision. Defined.

(** The classes CachePerfModelParallel and CachePerfModelSequential. *)
Record CachePerfModel : Type := mkCachePerfModel {
  pm_sequential : bool;
  pm_enabled : bool;
  m_cache_data_access_time : ComponentLatency;
  m_cache_tags_access_time : ComponentLatency
}.

(** A request of a core that waits for the directory. *)
Record CacheDirectoryWaiter : Type := mkWaiter {
  w_exclusive : bool;
  w_isPrefetch : bool;
  w_cache_cntlr : nat;
  w_t_issue : Z
}.

(** [stats], by the name of the member and, for arrays, the index. *)
Notation Stats := (gmap (string * nat) Z) (only parsing).

Record CacheCntlr : Type := mkCacheCntlr {
  m_mem_component : component_t;
  m_master : nat;
  m_next_cache_cntlr : option nat;
  m_perfect : bool;
  m_passthrough : bool;
  m_coherent : bool;
  m_prefetch_on_prefetch_hit : bool;
  m_has_l1_mshr : bool;
  m_core_id : nat;
  m_cc_block_size : Z;
  m_cache_writethrough : bool;
  m_writeback_time : ComponentLatency;
  m_read_bandwidth : ComponentBandwidthPerCycle;
  m_shared_cores : nat;
  m_perf_model : CachePerfModel;
  m_last_remote_hit_where : where_t;
  m_stats : Stats
}.
Definition m_core_id_master (c : CacheCntlr) : nat := m_core_id c - m_core_id c mod m_shared_cores c.

(** The result of [m_prefetcher->getNextAddress] and the accesses to DRAM. *)
Class PrefetcherOps (F : Type) := { getNextAddress : Z → nat → st F (list Z) }.
Class DramOps (D : Type) := {
  getDataFromDram : Z → nat → Z → st D (option (list Z) * Z * where_t);
  putDataToDram : Z → nat → list Z → Z → st D (Z * where_t)
}.

(** [mshr] maps an address to the issue and the completion time of a miss. *)
Record CacheMaster (P F : Type) : Type := mkCacheMaster {
  m_cache : Cache P;
  m_prev_cache_cntlrs : list nat;
  m_prefetcher : option F;
  m_dram_cntlr : bool;
  m_dram_outstanding_writebacks : option ContentionModel;
  mshr : gmap Z (Z * Z);
  m_l1_mshr : ContentionModel;
  m_next_level_read_bandwidth : ContentionModel;
  m_directory_waiters : gmap Z (list CacheDirectoryWaiter);
  m_evicting_address : Z;
  m_evicting_buf : option (list Z);
  m_prefetch_list : list Z;
  m_prefetch_next : Z
}.
Arguments mkCacheMaster {P F} _ _ _ _ _ _ _ _ _ _ _ _ _.
Arguments m_cache {P F} _.
Arguments m_prev_cache_cntlrs {P F} _.
Arguments m_prefetcher {P F} _.
Arguments m_dram_cntlr {P F} _.
Arguments m_dram_outstanding_writebacks {P F} _.
Arguments mshr {P F} _.
Arguments m_l1_mshr {P F} _.
Arguments m_next_level_read_bandwidth {P F} _.
Arguments m_directory_waiters {P F} _.
Arguments m_evicting_address {P F} _.
Arguments m_evicting_buf {P F} _.
Arguments m_prefetch_list {P F} _.
Arguments m_prefetch_next {P F} _.

(** What the controllers read of the rest of the simulator: whether the
    instrumentation mode is CACHE_ONLY, the cache efficiency callbacks and
    their choice of an owner, the homes of addresses, the bytes that an
    uninitialised buffer holds. *)
Record Env : Type := mkEnv {
  env_cache_only : bool;
  env_callbacks : bool;
  env_get_owner : nat → Z → Z;
  env_home : AddressHomeLookup;
  env_uninit : list Z
}.

(** [n_elapsed] holds the elapsed times of the user and the network thread of
    every core, [n_sent] the time and the receiver of each message. *)
Record Node (P F D : Type) : Type := mkNode {
  n_cntlrs : list CacheCntlr;
  n_masters : list (CacheMaster P F);
  n_elapsed : list (Z * Z);
  n_periods : list Z;
  n_dram : D;
  n_sent : list (Z * Z * ShmemMsg);
  n_env : Env
}.
Arguments mkNode {P F D} _ _ _ _ _ _ _.
Arguments n_cntlrs {P F D} _.
Arguments n_masters {P F D} _.
Arguments n_elapsed {P F D} _.
Arguments n_periods {P F D} _.
Arguments n_dram {P F D} _.
Arguments n_sent {P F D} _.
Arguments n_env {P F D} _.

(** [HitWhere::where_t(m_mem_component)], for a cache, and with SIBLING added. *)
Definition where_own (c : component_t) : where_t :=
  match c with
  | L1_ICACHE => L1I | L1_DCACHE => L1_OWN | L2_CACHE => L2_OWN | L3_CACHE => L3_OWN
  | L4_CACHE => L4_OWN | _ => WHERE_FIRST
  end.
Definition where_sibling (c : component_t) : where_t :=
  match c with
  | L1_DCACHE => L1_SIBLING | L2_CACHE => L2_SIBLING | L3_CACHE => L3_SIBLING
  | L4_CACHE => L4_SIBLING | _ => SIBLING
  end.
(** The indices of the arrays of [stats]. *)
Definition state_index (c : cstate_t) : nat :=
  match c with
  | CacheState.INVALID => 0 | CacheState.SHARED => 1 | CacheState.SHARED_UPGRADING => 2
  | CacheState.EXCLUSIVE => 3 | CacheState.OWNED => 4 | CacheState.MODIFIED => 5
  | CacheState.INVALID_COLD => 6 | CacheState.INVALID_EVICT => 7 | CacheState.INVALID_COHERENCY => 8
  end.
Definition where_index (w : where_t) : nat :=
  match w with
  | WHERE_FIRST => 0 | L1I => 2 | L1_OWN => 3 | L2_OWN => 4 | L3_OWN => 5 | L4_OWN => 6 | MISS => 7
  | NUCA_CACHE => 8 | DRAM_CACHE => 9 | DRAM => 10 | DRAM_LOCAL => 11 | DRAM_REMOTE => 12
  | CACHE_REMOTE => 13 | SIBLING => 14 | L1_SIBLING => 17 | L2_SIBLING => 18 | L3_SIBLING => 19
  | L4_SIBLING => 20 | UNKNOWN => 21 | PREDICATE_FALSE => 22 | PREFETCH_NO_MAPPING => 23
  end.

Definition PREFETCH_MAX_QUEUE_LENGTH : nat := 32.
Definition PREFETCH_INTERVAL : Z := NS 1.

Section Cntlr.
Context {P F D : Type} `{Policy P} `{PrefetcherOps F} `{DramOps D}.
Local Notation M := (st (Node P F D)).
Implicit Types (id : nat) (address : Z) (thread_num : Thread_t).

(** * Access to the objects *)

Definition put_cntlrs (l : list CacheCntlr) (n : Node P F D) : Node P F D :=
  mkNode l (n_masters n) (n_elapsed n) (n_periods n) (n_dram n) (n_sent n) (n_env n).
Definition put_masters (l : list (CacheMaster P F)) (n : Node P F D) : Node P F D :=
  mkNode (n_cntlrs n) l (n_elapsed n) (n_periods n) (n_dram n) (n_sent n) (n_env n).
Definition put_elapsed (l : list (Z * Z)) (n : Node P F D) : Node P F D :=
  mkNode (n_cntlrs n) (n_masters n) l (n_periods n) (n_dram n) (n_sent n) (n_env n).
Definition put_dram (d : D) (n : Node P F D) : Node P F D :=
  mkNode (n_cntlrs n) (n_masters n) (n_elapsed n) (n_periods n) d (n_sent n) (n_env n).
Definition put_sent (l : list (Z * Z * ShmemMsg)) (n : Node P F D) : Node P F D :=
  mkNode (n_cntlrs n) (n_masters n) (n_elapsed n) (n_periods n) (n_dram n) l (n_env n).

Definition cntlr id : M CacheCntlr := let! l := gets n_cntlrs in lift (rd l id).
Definition upd_cntlr id (f : CacheCntlr → CacheCntlr) : M unit :=
  let! l := gets n_cntlrs in
  let! c := lift (rd l id) in
  modify (put_cntlrs (<[id := f c]> l)).
Definition master id : M (CacheMaster P F) :=
  let! c := cntlr id in let! l := gets n_masters in lift (rd l (m_master c)).
Definition upd_master id (f : CacheMaster P F → CacheMaster P F) : M unit :=
  let! c := cntlr id in
  let! l := gets n_masters in
  let! m := lift (rd l (m_master c)) in
  modify (put_masters (<[m_master c := f m]> l)).

Definition set_remote (w : where_t) (c : CacheCntlr) : CacheCntlr :=
  mkCacheCntlr (m_mem_component c) (m_master c) (m_next_cache_cntlr c) (m_perfect c)
    (m_passthrough c) (m_coherent c) (m_prefetch_on_prefetch_hit c) (m_has_l1_mshr c) (m_core_id c)
    (m_cc_block_size c) (m_cache_writethrough c) (m_writeback_time c) (m_read_bandwidth c)
    (m_shared_cores c) (m_perf_model c) w (m_stats c).
Definition set_stats (s : Stats) (c : CacheCntlr) : CacheCntlr :=
  mkCacheCntlr (m_mem_component c) (m_master c) (m_next_cache_cntlr c) (m_perfect c)
    (m_passthrough c) (m_coherent c) (m_prefetch_on_prefetch_hit c) (m_has_l1_mshr c) (m_core_id c)
    (m_cc_block_size c) (m_cache_writethrough c) (m_writeback_time c) (m_read_bandwidth c)
    (m_shared_cores c) (m_perf_model c) (m_last_remote_hit_where c) s.
Definition set_cache (k : Cache P) (m : CacheMaster P F) : CacheMaster P F :=
  mkCacheMaster k (m_prev_cache_cntlrs m) (m_prefetcher m) (m_dram_cntlr m)
    (m_dram_outstanding_writebacks m) (mshr m) (m_l1_mshr m) (m_next_level_read_bandwidth m)
    (m_directory_waiters m) (m_evicting_address m) (m_evicting_buf m) (m_prefetch_list m)
    (m_prefetch_next m).
Definition set_mshr (x : gmap Z (Z * Z)) (m : CacheMaster P F) : CacheMaster P F :=
  mkCacheMaster (m_cache m) (m_prev_cache_cntlrs m) (m_prefetcher m) (m_dram_cntlr m)
    (m_dram_outstanding_writebacks m) x (m_l1_mshr m) (m_next_level_read_bandwidth m)
    (m_directory_waiters m) (m_evicting_address m) (m_evicting_buf m) (m_prefetch_list m)
    (m_prefetch_next m).
Definition set_contention (wb : option ContentionModel) (l1 bw : ContentionModel)
    (m : CacheMaster P F) : CacheMaster P F :=
  mkCacheMaster (m_cache m) (m_prev_cache_cntlrs m) (m_prefetcher m) (m_dram_cntlr m)
    wb (mshr m) l1 bw (m_directory_waiters m) (m_evicting_address m) (m_evicting_buf m)
    (m_prefetch_list m) (m_prefetch_next m).
Definition set_waiters (q : gmap Z (list CacheDirectoryWaiter)) (m : CacheMaster P F) : CacheMaster P F :=
  mkCacheMaster (m_cache m) (m_prev_cache_cntlrs m) (m_prefetcher m) (m_dram_cntlr m)
    (m_dram_outstanding_writebacks m) (mshr m) (m_l1_mshr m) (m_next_level_read_bandwidth m)
    q (m_evicting_address m) (m_evicting_buf m) (m_prefetch_list m) (m_prefetch_next m).
Definition set_evicting (address : Z) (buf : option (list Z)) (m : CacheMaster P F) : CacheMaster P F :=
  mkCacheMaster (m_cache m) (m_prev_cache_cntlrs m) (m_prefetcher m) (m_dram_cntlr m)
    (m_dram_outstanding_writebacks m) (mshr m) (m_l1_mshr m) (m_next_level_read_bandwidth m)
    (m_directory_waiters m) address buf (m_prefetch_list m) (m_prefetch_next m).
Definition set_prefetch (f : option F) (l : list Z) (next : Z) (m : CacheMaster P F) : CacheMaster P F :=
  mkCacheMaster (m_cache m) (m_prev_cache_cntlrs m) f (m_dram_cntlr m)
    (m_dram_outstanding_writebacks m) (mshr m) (m_l1_mshr m) (m_next_level_read_bandwidth m)
    (m_directory_waiters m) (m_evicting_address m) (m_evicting_buf m) l next.

(** An operation on the cache of a controller. *)
Definition on_cache {A} id (f : Cache P → res (A * Cache P)) : M A :=
  let! m := master id in
  let! r := lift (f (m_cache m)) in
  upd_master id (set_cache r.2);!
  ret r.1.
Definition add_stat id (name : string) (index : nat) (n : Z) : M unit :=
  upd_cntlr id (λ c, set_stats (<[(name, index) := u64 (default 0 (m_stats c !! (name, index)) + n)]>
                                  (m_stats c)) c).
Definition when (b : bool) (m : M unit) : M unit := if b then m else ret tt.

(** The next controller; a call on a null pointer is undefined. *)
Definition next_cntlr (c : CacheCntlr) : M nat :=
  match m_next_cache_cntlr c with Some i => ret i | None => fail ErrUndefined end.
(** The fuel of the recursion along the levels. *)
Definition depth : M nat := gets (λ n, length (n_cntlrs n)).

(** * Time *)

Definition getElapsedTime id thread_num : M Z :=
  let! c := cntlr id in
  let! l := gets n_elapsed in
  let! t := lift (rd l (m_core_id c)) in
  ret (match thread_num with USER_THREAD => t.1 | SIM_THREAD => t.2 end).
Definition setElapsedTime id thread_num (time : Z) : M unit :=
  let! c := cntlr id in
  let! l := gets n_elapsed in
  let! t := lift (rd l (m_core_id c)) in
  modify (put_elapsed (<[m_core_id c := match thread_num with
                                        | USER_THREAD => (time, t.2) | SIM_THREAD => (t.1, time)
                                        end]> l)).
(** ShmemPerfModel::incrElapsedTime. *)
Definition incrElapsedTime id (time : Z) thread_num : M unit :=
  let! i_elapsed_time := getElapsedTime id thread_num in
  let t_elapsed_time := time_add i_elapsed_time time in
  lift (log_assert (i_elapsed_time <=? t_elapsed_time) "t_elapsed_time < i_elapsed_time");!
  setElapsedTime id thread_num t_elapsed_time.

Definition getLatency (ps : list Z) (m : CachePerfModel) (access : CacheAccess_t) : res Z :=
  if pm_enabled m then
    match access with
    | ACCESS_CACHE_TAGS => cl_getLatency ps (m_cache_tags_access_time m)
    | ACCESS_CACHE_DATA => cl_getLatency ps (m_cache_data_access_time m)
    | ACCESS_CACHE_DATA_AND_TAGS =>
        let? d := cl_getLatency ps (m_cache_data_access_time m) in
        if pm_sequential m then
          let? t := cl_getLatency ps (m_cache_tags_access_time m) in Ok (time_add d t)
        else Ok d
    end
  else Ok Zero.
(** MemoryManager::incrElapsedTime(mem_component, access_type, thread_num). *)
Definition incrElapsedTime_access id (access_type : CacheAccess_t) thread_num : M unit :=
  let! c := cntlr id in
  let! ps := gets n_periods in
  let! latency := lift (getLatency ps (m_perf_model c) access_type) in
  incrElapsedTime id latency thread_num.
Definition writeback_latency id : M Z :=
  let! c := cntlr id in
  let! ps := gets n_periods in
  lift (cl_getLatency ps (m_writeback_time c)).

(** MemoryManager::sendMsg, up to the network, from the last-level cache to a
    tag directory. *)
Definition sendMsg id (msg_type : msg_t) (requester receiver address : Z)
    (data_buf : option (list Z)) (data_length : Z) thread_num : M unit :=
  lift (c_assert (Bool.eqb (bool_decide (data_buf = None)) (data_length =? 0)));!
  let m := setWhere UNKNOWN (ShmemMsg_new msg_type LAST_LEVEL_CACHE TAG_DIR requester address
                               data_buf data_length) in
  let! msg_time := getElapsedTime id thread_num in
  modify (λ n, put_sent (n_sent n ++ [(msg_time, receiver, m)]) n).
Definition home_of address : M Z :=
  let! e := gets n_env in lift (getHome (env_home e) address).

(** * Localised block operations *)

Definition getCacheBlockInfo id address : M (option (nat * nat)) :=
  let! m := master id in lift (peekSingleLine address (m_cache m)).
(** The line that a pointer refers to. *)
Definition block_at id (loc : nat * nat) : M BlockInfo :=
  let! m := master id in lift (cache_peekBlock loc.1 loc.2 (m_cache m)).
Definition block_state id (loc : option (nat * nat)) : M cstate_t :=
  match loc with
  | None => ret CacheState.INVALID
  | Some loc => let! b := block_at id loc in ret (getCState b)
  end.
Definition upd_block id (loc : nat * nat) (f : CacheBlockInfo → CacheBlockInfo) : M unit :=
  on_cache id (λ k, let? k := updateBlock loc f k in Ok (tt, k)).

Definition getCacheState id address : M cstate_t :=
  let! loc := getCacheBlockInfo id address in block_state id loc.
(** The pointer is dereferenced without a test. *)
Definition setCacheState id address (cstate : cstate_t) : M (nat * nat) :=
  let! loc := getCacheBlockInfo id address in
  match loc with
  | None => fail ErrUndefined
  | Some loc => upd_block id loc (setCState cstate);! ret loc
  end.
Definition setBlockOption id address (o : option_t) : M unit :=
  let! loc := getCacheBlockInfo id address in
  match loc with
  | None => fail ErrUndefined
  | Some loc => upd_block id loc (setOption o)
  end.

Definition permitted (mem_op_type : mem_op_t) (c : cstate_t) : bool :=
  match mem_op_type with
  | READ => CacheState.readable c
  | READ_EX | WRITE => CacheState.writable c
  end.
Definition operationPermissibleinCache id address (mem_op_type : mem_op_t) : M bool :=
  let! cstate := getCacheState id address in ret (permitted mem_op_type cstate).

Definition invalidateCacheBlock id address : M unit :=
  let! old_cstate := getCacheState id address in
  lift (c_assert (negb (bool_decide (old_cstate = CacheState.MODIFIED))));!
  lift (c_assert (negb (bool_decide (old_cstate = CacheState.INVALID))));!
  on_cache id (λ k, let? r := invalidateSingleLine address k in Ok (tt, r.2)).

(** The bytes that are copied into the caller's buffer; a cache without data
    leaves the buffer as it is. *)
Definition retrieveCacheBlock id address (update_replacement : bool) : M (list Z) :=
  let! c := cntlr id in
  let! e := gets n_env in
  let! r := on_cache id (λ k, let? r := accessSingleLine address (LOAD true) (m_cc_block_size c)
                                          update_replacement k in
                              Ok (r.1.1, r.1.2, r.2)) in
  lift (log_assert (bool_decide (is_Some r.1)) "Expected block to be there but it wasn't");!
  ret (default (env_uninit e) r.2).

(** * Operations on a block that reach other levels *)

(** The part of [writeCacheBlock] that writes the own cache. *)
Definition write_own id address (offset : Z) (data_buf : option (list Z)) (data_length : Z) : M unit :=
  let! r := on_cache id (λ k, let? r := accessSingleLine (u64 (address + offset)) (STORE data_buf)
                                          data_length false k in
                              Ok (r.1.1, r.2)) in
  lift (log_assert (bool_decide (is_Some r)) "writethrough expected a hit at next-level cache but got miss");!
  let! s := block_state id r in
  lift (log_assert (bool_decide (s = CacheState.MODIFIED)) "Got writeback for non-MODIFIED line").

(** The write of a previous level, into the buffer of a line that is being
    evicted or into the cache, and through a write-through cache to the next. *)
Fixpoint writeCacheBlock (fuel : nat) id address (offset : Z) (data_buf : option (list Z))
    (data_length : Z) : M unit :=
  match fuel with
  | O => fail ErrFuel
  | S fuel =>
      let! c := cntlr id in
      let! m := master id in
      match m_evicting_buf m with
      | Some buf =>
          if address =? m_evicting_address m then
            lift (c_assert (offset =? 0));!
            lift (c_assert (data_length =? m_cc_block_size c));!
            match data_buf with
            | Some d => upd_master id (set_evicting address
                          (Some (take (Z.to_nat data_length) d ++ drop (Z.to_nat data_length) buf)))
            | None => ret tt
            end
          else write_own id address offset data_buf data_length
      | None => write_own id address offset data_buf data_length
      end;!
      if m_cache_writethrough c then
        let! next := next_cntlr c in writeCacheBlock fuel next address offset data_buf data_length
      else ret tt
  end.

(** A loop over previous levels: the largest latency, and whether any of them
    had data. *)
Fixpoint for_prev (f : nat → M (Z * bool)) (l : list nat) : M (Z * bool) :=
  match l with
  | [] => ret (Zero, false)
  | i :: l =>
      let! r := f i in
      let! rest := for_prev f l in
      ret (Z.max r.1 rest.1, r.2 || rest.2)
  end.

(** The statistics of a change of state. *)
Definition count_update id (reason : reason_t) (b : BlockInfo) (new_cstate : cstate_t) : M unit :=
  when (bool_decide (reason = COHERENCY))
    (add_stat id (if bool_decide (new_cstate = CacheState.SHARED) then "coherency_downgrades"
                  else if bool_decide (getCState b = CacheState.MODIFIED) then "coherency_writebacks"
                  else "coherency_invalidates") 0 1;!
     when (hasOption PREFETCH (base b) && bool_decide (new_cstate = CacheState.INVALID))
       (add_stat id "invalidate_prefetch" 0 1);!
     when (hasOption WARMUP (base b) && bool_decide (new_cstate = CacheState.INVALID))
       (add_stat id "invalidate_warmup" 0 1));!
  if bool_decide (reason = UPGRADE) then add_stat id "coherency_upgrades" 0 1
  else when (bool_decide (reason = BACK_INVAL)) (add_stat id "backinval" (state_index (getCState b)) 1).

(** The last branch of [updateCacheBlock], for a line at [loc] that changes
    its state: the bytes for [out_buf], if it was written, and whether data
    was written back. *)
Definition change_state id address (new_cstate : cstate_t) (reason : reason_t) (out_buf : bool)
    (loc : nat * nat) : M (option (list Z) * bool) :=
  let! c := cntlr id in
  let! b := block_at id loc in
  count_update id reason b new_cstate;!
  let! r1 :=
    (if bool_decide (getCState b = CacheState.MODIFIED) then
       let! r :=
         (if m_cache_writethrough c then ret (None, false)
          else match m_next_cache_cntlr c with
               | Some next =>
                   let! data_buf := retrieveCacheBlock id address false in
                   let! fuel := depth in
                   writeCacheBlock fuel next address 0 (Some data_buf) (m_cc_block_size c);!
                   ret (None, true)
               | None =>
                   if out_buf then
                     let! data_buf := retrieveCacheBlock id address false in ret (Some data_buf, true)
                   else fail (ErrLog "MODIFIED data is about to get lost!")
               end) in
       upd_block id loc (setCState CacheState.SHARED);!
       ret r
     else ret (None, false)) in
  let! r2 :=
    (if out_buf && (bool_decide (new_cstate = CacheState.INVALID) || bool_decide (new_cstate = CacheState.SHARED)) then
       let! data_buf := retrieveCacheBlock id address false in ret (Some data_buf, true)
     else ret r1) in
  match new_cstate with
  | CacheState.INVALID => when (m_coherent c) (invalidateCacheBlock id address)
  | CacheState.SHARED | CacheState.MODIFIED => upd_block id loc (setCState new_cstate)
  | _ => fail (ErrLog "Cannot change block status")
  end;!
  ret r2.

(** [out_buf] says whether a buffer was passed; the result is the latency,
    whether a previous level or this cache had data, and the bytes written to
    the buffer. *)
Fixpoint updateCacheBlock (fuel : nat) id address (new_cstate : cstate_t) (reason : reason_t)
    (out_buf : bool) thread_num : M (Z * bool * option (list Z)) :=
  match fuel with
  | O => fail ErrFuel
  | S fuel =>
      lift (log_assert (state_index new_cstate <? 6)%nat "Invalid new cstate");!
      let! c := cntlr id in
      let! m := master id in
      let! r := for_prev (λ i, let! r := updateCacheBlock fuel i address new_cstate
                                           (if bool_decide (reason = EVICT) then BACK_INVAL else reason)
                                           false thread_num in
                               ret r.1) (m_prev_cache_cntlrs m) in
      let! loc := getCacheBlockInfo id address in
      let! old_cstate := block_state id loc in
      let! w :=
        match loc with
        | None => ret (None, false)
        | Some l =>
            if bool_decide (new_cstate = old_cstate) && out_buf then
              let! data_buf := retrieveCacheBlock id address false in ret (Some data_buf, true)
            else change_state id address new_cstate reason out_buf l
        end in
      let! s := getCacheState id address in
      lift (log_assert (bool_decide (s = CacheState.INVALID) || bool_decide (s = new_cstate) || negb (m_coherent c))
              "state didn't change as we wanted");!
      let! current_cstate := block_state id loc in
      lift (log_assert (bool_decide (current_cstate = CacheState.INVALID) ||
                        bool_decide (current_cstate = new_cstate) || negb (m_coherent c))
              "state didn't change as we wanted");!
      lift (log_assert (negb out_buf || bool_decide (is_Some w.1)) "out_buf passed in but never written to");!
      let! latency := (if w.2 : bool then writeback_latency id else ret Zero) in
      ret (latency, r.2 || w.2, w.1)
  end.

(** The snoops of a loop over the previous levels other than [requester]. *)
Definition snoop id (requester : option nat) address (new_cstate : cstate_t) (reason : reason_t)
    thread_num : M (Z * bool) :=
  let! m := master id in
  let! fuel := depth in
  let! r := for_prev (λ i, let! r := updateCacheBlock fuel i address new_cstate reason false thread_num in
                           ret r.1)
              (filter (λ i, requester ≠ Some i) (m_prev_cache_cntlrs m)) in
  incrElapsedTime id r.1 thread_num;!
  add_stat id "snoop_latency" 0 r.1;!
  ret r.

(** ** Insertion *)

(** The answer to the query-based replacement policies. *)
Fixpoint isInLowerLevelCache (prev : list nat) address (n : Node P F D) : res bool :=
  match prev with
  | [] => Ok false
  | i :: prev =>
      let? r := getCacheBlockInfo i address n in
      match r.1 with Some _ => Ok true | None => isInLowerLevelCache prev address n end
  end.
Definition query id (n : Node P F D) (b : BlockInfo) : bool :=
  match master id n with
  | Ok (m, _) =>
      match tagToAddress (c_base (m_cache m)) (getTag b) with
      | Ok address =>
          match isInLowerLevelCache (m_prev_cache_cntlrs m) address n with Ok r => r | Err _ => false end
      | Err _ => false
      end
  | Err _ => false
  end.
Definition incrementQBSLookupCost id : M unit :=
  let! latency := writeback_latency id in
  incrElapsedTime id latency USER_THREAD;!
  add_stat id "qbs_query_latency" 0 latency.

Definition accessDRAM_read id address : M (option (list Z) * Z * where_t) :=
  let! t_issue := getElapsedTime id USER_THREAD in
  let! c := cntlr id in
  zoom n_dram put_dram (getDataFromDram address (m_core_id_master c) t_issue).
Definition accessDRAM_write id address (data_buf : list Z) : M (Z * where_t) :=
  let! t_issue := getElapsedTime id USER_THREAD in
  let! c := cntlr id in
  zoom n_dram put_dram (putDataToDram address (m_core_id_master c) data_buf t_issue).

(** The write of an evicted line to DRAM, through the eviction buffers. *)
Definition evict_to_dram id evict_address (evict_buf : list Z) : M unit :=
  let! t_now := getElapsedTime id USER_THREAD in
  let! m := master id in
  match m_dram_outstanding_writebacks m with
  | Some wb => incrElapsedTime id (time_sub (getStartTime t_now wb) t_now) USER_THREAD
  | None => ret tt
  end;!
  let! r := accessDRAM_write id evict_address evict_buf in
  upd_master id (λ m, set_contention ((λ wb, (getCompletionTime t_now r.1 0 wb).2)
                                        <$> m_dram_outstanding_writebacks m)
                        (m_l1_mshr m) (m_next_level_read_bandwidth m) m).

(** The message to the directory about an evicted line. *)
Definition evict_to_directory id evict_address (evict_state : cstate_t) (evict_buf : list Z)
    thread_num : M unit :=
  let! c := cntlr id in
  let! home_node_id := home_of evict_address in
  if bool_decide (evict_state = CacheState.MODIFIED) then
    sendMsg id FLUSH_REP (Z.of_nat (m_core_id c)) home_node_id evict_address (Some evict_buf)
      (m_cc_block_size c) thread_num
  else
    lift (log_assert (bool_decide (evict_state = CacheState.SHARED) ||
                      bool_decide (evict_state = CacheState.EXCLUSIVE)) "evict_address, evict_state");!
    sendMsg id INV_REP (Z.of_nat (m_core_id c)) home_node_id evict_address None 0 thread_num.

(** The invalidation of an evicted line in the previous levels, which write
    modified data into the buffer: its final contents. *)
Definition back_invalidate id evict_address (evict_buf : list Z) thread_num : M (list Z) :=
  let! m := master id in
  match m_prev_cache_cntlrs m with
  | [] => ret evict_buf
  | _ =>
      upd_master id (set_evicting evict_address (Some evict_buf));!
      snoop id None evict_address CacheState.INVALID BACK_INVAL thread_num;!
      let! m := master id in
      upd_master id (set_evicting 0 None);!
      ret (default evict_buf (m_evicting_buf m))
  end.

(** What [insertCacheBlock] does with the line that left the cache. *)
Definition evict_line id evict_address (evict_block : BlockInfo) (evict_buf : list Z) thread_num : M unit :=
  let! c := cntlr id in
  let old_state := getCState evict_block in
  add_stat id "evict" (state_index old_state) 1;!
  when (hasOption PREFETCH (base evict_block)) (add_stat id "evict_prefetch" 0 1);!
  when (hasOption WARMUP (base evict_block)) (add_stat id "evict_warmup" 0 1);!
  let! evict_buf := back_invalidate id evict_address evict_buf thread_num in
  let! m := master id in
  (if m_perfect c then ret tt
   else if negb (m_coherent c) then
     if m_cache_writethrough c then ret tt
     else lift (log_assert (negb (bool_decide (old_state = CacheState.MODIFIED)))
                  "Non-coherent cache is throwing away dirty data")
   else match m_next_cache_cntlr c with
        | Some next =>
            if m_cache_writethrough c then ret tt
            else when (bool_decide (old_state = CacheState.MODIFIED))
                   (let! fuel := depth in
                    writeCacheBlock fuel next evict_address 0 (Some evict_buf) (m_cc_block_size c))
        | None =>
            if m_dram_cntlr m then
              when (bool_decide (old_state = CacheState.MODIFIED)) (evict_to_dram id evict_address evict_buf)
            else evict_to_directory id evict_address old_state evict_buf thread_num
        end);!
  let! s := getCacheState id evict_address in
  lift (log_assert (bool_decide (s = CacheState.INVALID)) "Evicted address did not become invalid").

(** [evict_block_info] as it is declared. *)
Definition evict_object : BlockInfo :=
  SharedCacheBlockInfo (CacheBlockInfo_new INVALID_TAG CacheState.INVALID 0).

Definition insertCacheBlock id address (cstate : cstate_t) (data_buf : option (list Z))
    (requester : nat) thread_num : M (nat * nat) :=
  let! s := getCacheState id address in
  lift (log_assert (bool_decide (s = CacheState.INVALID)) "we already have this line, can't add it again");!
  let! c := cntlr id in
  let! e := gets n_env in
  let! q := gets (query id) in
  let! r := on_cache id (λ k, let? r := insertSingleLine address data_buf evict_object true (Some q) k in
                              Ok (r.1.1, r.1.2, (sh_qbs (m_set_info r.2) - sh_qbs (m_set_info k))%nat, r.2)) in
  let '(ins, evict_address, queries) := r in
  forM_ (seq 0 queries) (λ _, incrementQBSLookupCost id);!
  let! loc := setCacheState id address cstate in
  when (env_cache_only e) (upd_block id loc (setOption WARMUP));!
  when (env_callbacks e) (upd_block id loc (CacheBlock.setOwner (env_get_owner e requester address)));!
  when (eviction ins) (evict_line id evict_address (evict_block_info ins)
                         (default (env_uninit e) (evict_buff ins)) thread_num);!
  ret loc.

(** * Operations of a level for the previous level or the core *)

(** The while loop of [cleanupMshr]; the order in which the map is traversed
    is not specified, and matters only between misses that complete at the
    same time.  If no miss completes before MaxTime the loop erases address 0,
    and does not end if that is not in the map. *)
Definition oldest_miss (m : gmap Z (Z * Z)) : Z * Z :=
  foldl (λ acc e, if e.2.2 <? acc.2 then (e.1, e.2.2) else acc) (0, MaxTime) (map_to_list m).
Fixpoint cleanup (fuel : nat) (m : gmap Z (Z * Z)) : res (gmap Z (Z * Z)) :=
  if (size m <=? 8)%nat then Ok m
  else match fuel with
       | O => Err ErrFuel
       | S fuel =>
           let address_min := (oldest_miss m).1 in
           match m !! address_min with
           | Some _ => cleanup fuel (delete address_min m)
           | None => Err ErrDiverge
           end
       end.
Definition cleanupMshr id : M unit :=
  let! m := master id in
  let! x := lift (cleanup (size (mshr m)) (mshr m)) in
  upd_master id (set_mshr x).
(** A miss that is under way at time [t_now]: its completion time. *)
Definition under_way (m : CacheMaster P F) address (t_now : Z) : option Z :=
  match mshr m !! address with
  | Some (t_issue, t_complete) => if (t_issue <? t_now) && (t_now <? t_complete) then Some t_complete else None
  | None => None
  end.

Definition updateCounters id (mem_op_type : mem_op_t) address (cache_hit : bool) (state : cstate_t)
    (isPrefetch : prefetch_type_t) : M unit :=
  let! t_now := getElapsedTime id USER_THREAD in
  let! m := master id in
  let overlapping := bool_decide (is_Some (under_way m address t_now)) in
  (if bool_decide (mem_op_type = WRITE) then
     when (negb (bool_decide (isPrefetch = PREFETCH_NONE))) (add_stat id "stores_prefetch" 0 1);!
     when (negb (bool_decide (isPrefetch = PREFETCH_OWN)))
       (add_stat id "stores" 0 1;!
        add_stat id "stores_state" (state_index state) 1;!
        when (negb cache_hit || overlapping)
          (add_stat id "store_misses" 0 1;!
           add_stat id "store_misses_state" (state_index state) 1;!
           when overlapping (add_stat id "store_overlapping_misses" 0 1)))
   else
     when (negb (bool_decide (isPrefetch = PREFETCH_NONE))) (add_stat id "loads_prefetch" 0 1);!
     when (negb (bool_decide (isPrefetch = PREFETCH_OWN)))
       (add_stat id "loads" 0 1;!
        add_stat id "loads_state" (state_index state) 1;!
        when (negb cache_hit)
          (add_stat id "load_misses" 0 1;!
           add_stat id "load_misses_state" (state_index state) 1;!
           when overlapping (add_stat id "load_overlapping_misses" 0 1))));!
  cleanupMshr id.

(** Hits that were counted elsewhere, such as repeated instruction fetches. *)
Fixpoint updateHits id (mem_op_type : mem_op_t) (hits : nat) : M unit :=
  match hits with
  | O => ret tt
  | S hits =>
      on_cache id (λ k, Ok (tt, CacheModel.updateCounters true k));!
      updateCounters id mem_op_type 0 true
        (if bool_decide (mem_op_type = READ) then CacheState.SHARED else CacheState.MODIFIED) PREFETCH_NONE;!
      updateHits id mem_op_type hits
  end.

Definition copyDataFromNextLevel id (mem_op_type : mem_op_t) address (modeled : bool) (t_now : Z) : M unit :=
  let! c := cntlr id in
  let! next := next_cntlr c in
  let! ok := operationPermissibleinCache next address mem_op_type in
  lift (log_assert ok "Tried to read from next-level cache, but data is already gone");!
  let! data_buf := retrieveCacheBlock next address false in
  let! cstate := getCacheState next address in
  when (modeled && negb (isInfinite (m_read_bandwidth c)))
    (let! ps := gets n_periods in
     let! delay := lift (cb_getRoundedLatency ps (m_read_bandwidth c) (m_cc_block_size c * 8)) in
     let! m := master id in
     let r := getCompletionTime t_now delay 0 (m_next_level_read_bandwidth m) in
     upd_master id (λ m, set_contention (m_dram_outstanding_writebacks m) (m_l1_mshr m) r.2 m);!
     lift (log_assert (time_add t_now delay <=? r.1) "Did not expect next-level cache to be this fast");!
     incrElapsedTime id (time_sub (time_sub r.1 t_now) delay) USER_THREAD);!
  let! loc := getCacheBlockInfo id address in
  match loc with
  | Some _ =>
      let! fuel := depth in
      updateCacheBlock fuel id address cstate UPGRADE false SIM_THREAD;! ret tt
  | None => insertCacheBlock id address cstate (Some data_buf) (m_core_id c) USER_THREAD;! ret tt
  end.

(** The loop over the list of the prefetcher. *)
Fixpoint queue_prefetches id (l : list Z) (acc : list Z) : M (list Z) :=
  match l with
  | [] => ret acc
  | a :: l =>
      if (PREFETCH_MAX_QUEUE_LENGTH <? length acc)%nat then ret acc
      else
        let! ok := operationPermissibleinCache id a READ in
        queue_prefetches id l (if ok then acc else acc ++ [a])
  end.
Definition trainPrefetcher id address (cache_hit prefetch_hit : bool) (t_issue : Z) : M unit :=
  let! c := cntlr id in
  let! m := master id in
  match m_prefetcher m with
  | None => ret tt
  | Some f =>
      let! r := lift (getNextAddress address (m_core_id c) f) in
      upd_master id (λ m, set_prefetch (Some r.2) (m_prefetch_list m) (m_prefetch_next m) m);!
      when (negb cache_hit || (m_prefetch_on_prefetch_hit c && prefetch_hit))
        (let! l := queue_prefetches id r.1 [] in
         upd_master id (λ m, set_prefetch (m_prefetcher m) l (time_add t_issue PREFETCH_INTERVAL) m))
  end.

(** ** Requests to the directory *)

Definition processExReqToDirectory id address : M unit :=
  let! cstate := getCacheState id address in
  lift (log_assert (negb (bool_decide (cstate = CacheState.SHARED)))
          "ExReq for a Cacheblock in S, should be a UpgradeReq");!
  lift (c_assert (bool_decide (cstate = CacheState.INVALID)));!
  let! c := cntlr id in
  let! home := home_of address in
  sendMsg id EX_REQ (Z.of_nat (m_core_id_master c)) home address None 0 USER_THREAD.
Definition processUpgradeReqToDirectory id address thread_num : M unit :=
  let! cstate := getCacheState id address in
  lift (c_assert (bool_decide (cstate = CacheState.SHARED)));!
  setCacheState id address CacheState.SHARED_UPGRADING;!
  let! c := cntlr id in
  let! home := home_of address in
  sendMsg id UPGRADE_REQ (Z.of_nat (m_core_id_master c)) home address None 0 thread_num.
Definition processShReqToDirectory id address : M unit :=
  let! c := cntlr id in
  let! home := home_of address in
  sendMsg id SH_REQ (Z.of_nat (m_core_id_master c)) home address None 0 USER_THREAD.

Definition initiateDirectoryAccess id (mem_op_type : mem_op_t) address (isPrefetch : bool) (t_issue : Z) : M unit :=
  let exclusive := match mem_op_type with READ => false | READ_EX | WRITE => true end in
  upd_master id (λ m, set_waiters (enqueue address (mkWaiter exclusive isPrefetch id t_issue)
                                     (m_directory_waiters m)) m);!
  let! m := master id in
  when (queue_size address (m_directory_waiters m) =? 1)
    (if exclusive then
       let! s := getCacheState id address in
       if bool_decide (s = CacheState.SHARED) then processUpgradeReqToDirectory id address USER_THREAD
       else processExReqToDirectory id address
     else processShReqToDirectory id address).

(** ** processShmemReqFromPrevCache *)

(** A line that was brought in by a prefetch or during warmup is used: whether
    it was a prefetch. *)
Definition use_line id (loc : nat * nat) (demand : bool) : M bool :=
  let! b := block_at id loc in
  let prefetched := demand && hasOption PREFETCH (base b) in
  when prefetched (add_stat id "hits_prefetch" 0 1;! upd_block id loc (clearOption PREFETCH));!
  let! e := gets n_env in
  when (hasOption WARMUP (base b) && negb (env_cache_only e))
    (add_stat id "hits_warmup" 0 1;! upd_block id loc (clearOption WARMUP));!
  ret prefetched.

(** The delay of a hit on a line whose miss is still under way: whether there
    is one. *)
Definition mshr_delay id address : M bool :=
  let! t_now := getElapsedTime id USER_THREAD in
  let! m := master id in
  match under_way m address t_now with
  | Some t_complete =>
      add_stat id "mshr_latency" 0 (time_sub t_complete t_now);!
      incrElapsedTime id (time_sub t_complete t_now) USER_THREAD;! ret true
  | None => ret false
  end.

(** [if (cache_hit)]: where the data was, and whether it had been prefetched. *)
Definition shmem_hit id requester (mem_op_type : mem_op_t) address (modeled : bool)
    (isPrefetch : prefetch_type_t) (loc : nat * nat) : M (where_t * bool) :=
  let! prefetch_hit := use_line id loc (bool_decide (isPrefetch = PREFETCH_NONE)) in
  when modeled
    (let! late := mshr_delay id address in
     if late : bool then ret tt else incrElapsedTime_access id ACCESS_CACHE_DATA_AND_TAGS USER_THREAD);!
  let! s := block_state id (Some loc) in
  let! sibling_hit :=
    (if negb (bool_decide (mem_op_type = READ)) then
       let! r := snoop id (Some requester) address CacheState.INVALID COHERENCY USER_THREAD in ret r.2
     else if bool_decide (s = CacheState.MODIFIED) || bool_decide (s = CacheState.EXCLUSIVE) then
       let! r := snoop id (Some requester) address CacheState.SHARED COHERENCY USER_THREAD in ret r.2
     else ret false) in
  let! c := cntlr id in
  if bool_decide (m_last_remote_hit_where c = UNKNOWN) then
    ret (if sibling_hit then where_sibling (m_mem_component c) else where_own (m_mem_component c), prefetch_hit)
  else
    upd_cntlr id (set_remote UNKNOWN);!
    ret (m_last_remote_hit_where c, prefetch_hit).

(** The last-level cache does not have the line, or not with the permission. *)
Definition llc_miss id requester (mem_op_type : mem_op_t) address (isPrefetch : prefetch_type_t)
    (t_issue : Z) (loc : option (nat * nat)) : M (where_t * bool) :=
  let! c := cntlr id in
  let! m := master id in
  let! s := block_state id loc in
  match loc with
  | Some l =>
      if bool_decide (s = CacheState.EXCLUSIVE) then
        snoop id (Some requester) address CacheState.INVALID UPGRADE USER_THREAD;!
        upd_block id l (setCState CacheState.MODIFIED);!
        ret (where_own (m_mem_component c), true)
      else if m_dram_cntlr m then
        upd_block id l (setCState CacheState.MODIFIED);!
        ret (where_own (m_mem_component c), true)
      else
        initiateDirectoryAccess id mem_op_type address (negb (bool_decide (isPrefetch = PREFETCH_NONE))) t_issue;!
        ret (MISS, false)
  | None =>
      if m_dram_cntlr m then
        let! e := gets n_env in
        let! r := accessDRAM_read id address in
        let '(data, latency, hit_where) := r in
        incrElapsedTime id latency USER_THREAD;!
        insertCacheBlock id address (match mem_op_type with READ => CacheState.SHARED | _ => CacheState.MODIFIED end)
          (Some (default (env_uninit e) data)) (m_core_id c) USER_THREAD;!
        when (negb (bool_decide (isPrefetch = PREFETCH_NONE))) (setBlockOption id address PREFETCH);!
        upd_cntlr id (set_remote hit_where);!
        ret (hit_where, true)
      else
        initiateDirectoryAccess id mem_op_type address (negb (bool_decide (isPrefetch = PREFETCH_NONE))) t_issue;!
        ret (MISS, false)
  end.

(** The pointer must not be null where it is dereferenced. *)
Definition not_null (loc : option (nat * nat)) : M (nat * nat) :=
  match loc with Some l => ret l | None => fail ErrUndefined end.

(** [if (!cache_hit && m_perfect) ... else if (cache_hit && m_passthrough ...)]
    of a level: whether it is a hit, and the line. *)
Definition special_modes id (mem_op_type : mem_op_t) address (cache_hit passthrough : bool)
    (loc : option (nat * nat)) : M (bool * option (nat * nat)) :=
  let! c := cntlr id in
  if negb cache_hit && m_perfect c then
    match loc with
    | Some l => upd_block id l (setCState CacheState.MODIFIED);! ret (true, loc)
    | None =>
        let! l := insertCacheBlock id address
                    (match mem_op_type with READ => CacheState.SHARED | _ => CacheState.MODIFIED end)
                    None (m_core_id c) USER_THREAD in
        ret (true, Some l)
    end
  else if cache_hit && passthrough then
    let! l := not_null loc in
    upd_block id l CacheBlockInfo_invalidate;! ret (false, None)
  else ret (cache_hit, loc).

Fixpoint processShmemReqFromPrevCache (fuel : nat) id (requester : nat) (mem_op_type : mem_op_t)
    address (modeled count : bool) (isPrefetch : prefetch_type_t) (t_issue : Z) : M where_t :=
  match fuel with
  | O => fail ErrFuel
  | S fuel =>
      let! c := cntlr id in
      let! permissible := operationPermissibleinCache id address mem_op_type in
      let! loc := getCacheBlockInfo id address in
      let passthrough := m_passthrough c && count in
      let! r := special_modes id mem_op_type address permissible passthrough loc in
      let first_hit := permissible && r.1 in
      let loc := r.2 in
      lift (log_assert (negb (permissible && passthrough) || bool_decide (is_Some (m_next_cache_cntlr c)))
              "Cannot do passthrough on an LLC");!
      when count
        (when (bool_decide (isPrefetch = PREFETCH_NONE))
           (on_cache id (λ k, Ok (tt, CacheModel.updateCounters r.1 k)));!
         let! s := getCacheState id address in
         updateCounters id mem_op_type address r.1 s isPrefetch);!
      let! h :=
        (if r.1 : bool then
           let! l := not_null loc in
           let! x := shmem_hit id requester mem_op_type address modeled isPrefetch l in
           ret (x.1, true, x.2)
         else
           when modeled (incrElapsedTime_access id ACCESS_CACHE_TAGS USER_THREAD);!
           let! s := block_state id loc in
           when (bool_decide (s = CacheState.SHARED))
             (snoop id (Some requester) address CacheState.INVALID UPGRADE USER_THREAD;! ret tt);!
           match m_next_cache_cntlr c with
           | Some next =>
               when (bool_decide (is_Some loc)) (invalidateCacheBlock id address);!
               let! w := processShmemReqFromPrevCache fuel next id mem_op_type address modeled count
                           (match isPrefetch with PREFETCH_NONE => PREFETCH_NONE | _ => PREFETCH_OTHER end)
                           t_issue in
               if bool_decide (w = MISS) then ret (w, false, false)
               else
                 let! t_now := getElapsedTime id USER_THREAD in
                 copyDataFromNextLevel id mem_op_type address modeled t_now;!
                 when (negb (bool_decide (isPrefetch = PREFETCH_NONE))) (setBlockOption id address PREFETCH);!
                 ret (w, true, false)
           | None =>
               let! x := llc_miss id requester mem_op_type address isPrefetch t_issue loc in
               ret (x.1, x.2, false)
           end) in
      let '(hit_where, cache_hit, prefetch_hit) := h in
      when cache_hit
        (retrieveCacheBlock id address (first_hit && count);!
         when (modeled && negb first_hit && negb (m_passthrough c))
           (let! t := getElapsedTime id USER_THREAD in
            upd_master id (λ m, set_mshr (<[address := (t_issue, t)]> (mshr m)) m);!
            cleanupMshr id));!
      when modeled (trainPrefetcher id address cache_hit prefetch_hit t_issue);!
      ret hit_where
  end.

(** * Operations of the core on its first-level cache *)

(** The write-through is to the next level of a first-level cache; the result
    is the bytes of a load. *)
Definition accessCache id (mem_op_type : mem_op_t) ca_address (offset : Z) (data_buf : option (list Z))
    (data_length : Z) (update_replacement : bool) : M (option (list Z)) :=
  let! c := cntlr id in
  let address := u64 (ca_address + offset) in
  match mem_op_type with
  | READ | READ_EX =>
      on_cache id (λ k, let? r := accessSingleLine address (LOAD (bool_decide (is_Some data_buf))) data_length
                                    update_replacement k in
                        Ok (r.1.2, r.2))
  | WRITE =>
      on_cache id (λ k, let? r := accessSingleLine address (STORE data_buf) data_length update_replacement k in
                        Ok (tt, r.2));!
      (if m_cache_writethrough c then
         lift (log_assert (bool_decide (is_Some (m_next_cache_cntlr c)))
                 "Writethrough enabled on last-level cache !?");!
         let! next := next_cntlr c in
         let! fuel := depth in
         writeCacheBlock fuel next ca_address offset data_buf data_length
       else ret tt);!
      ret None
  end.

Fixpoint updateUsageBits (fuel : nat) id address (used : Z) : M unit :=
  match fuel with
  | O => fail ErrFuel
  | S fuel =>
      let! c := cntlr id in
      let! loc := getCacheBlockInfo id address in
      let! l := not_null loc in
      let! b := block_at id l in
      let r := updateUsage_mask used (base b) in
      upd_block id l (λ _, r.2);!
      match m_next_cache_cntlr c with
      | Some next => when (r.1 && negb (m_perfect c)) (updateUsageBits fuel next address used)
      | None => ret tt
      end
  end.

(** The arguments of [processMemOpFromCore]. *)
Record MemOp : Type := mkMemOp {
  mo_lock_signal : lock_signal_t;
  mo_mem_op_type : mem_op_t;
  mo_address : Z;
  mo_offset : Z;
  mo_data_buf : option (list Z);
  mo_data_length : Z;
  mo_modeled : bool;
  mo_count : bool
}.

(** What a user thread does when the network thread wakes it up: it fills the
    caches for an operation of the core, or for a prefetch of controller [id]
    after such an operation, whose result is [w] and [data]. *)
Inductive Cont : Type :=
| KMem (id : nat) (o : MemOp) (t_start t_miss_begin t_mshr_avail : Z)
| KPrefetch (id : nat) (prefetch_address t_start t_before t_now : Z) (w : where_t) (data : option (list Z)).
Inductive Outcome : Type :=
| Returned (w : where_t) (data : option (list Z))
| Blocked (k : Cont).

(** The while loop of [Prefetch]: the address to prefetch and the rest. *)
Fixpoint next_prefetch id (l : list Z) : M (option Z * list Z) :=
  match l with
  | [] => ret (None, [])
  | a :: l =>
      let! ok := operationPermissibleinCache id a READ in
      if ok : bool then next_prefetch id l else ret (Some a, l)
  end.

(** [doPrefetch] up to the wait. *)
Definition doPrefetch id (prefetch_address t_start : Z) : M (option Z) :=
  add_stat id "prefetches" 0 1;!
  let! t_before := getElapsedTime id USER_THREAD in
  setElapsedTime id USER_THREAD t_start;!
  let! fuel := depth in
  let! w := processShmemReqFromPrevCache fuel id id READ prefetch_address true true PREFETCH_OWN t_start in
  if bool_decide (w = MISS) then ret (Some t_before)
  else setElapsedTime id USER_THREAD t_before;! ret None.

(** [w] and [data] are the result of the operation that the prefetches follow. *)
Fixpoint Prefetch (fuel : nat) id (t_now : Z) (w : where_t) (data : option (list Z)) : M Outcome :=
  match fuel with
  | O => fail ErrFuel
  | S fuel =>
      let! c := cntlr id in
      let! m := master id in
      let! r := (if m_prefetch_next m <=? t_now then next_prefetch id (m_prefetch_list m)
                 else ret (None, m_prefetch_list m)) in
      upd_master id (λ m, set_prefetch (m_prefetcher m) r.2 (m_prefetch_next m) m);!
      let! blocked :=
        match r.1 with
        | Some a => if a =? INVALID_ADDRESS then ret None
                    else let! b := doPrefetch id a (m_prefetch_next m) in ret ((λ t, (a, t)) <$> b)
        | None => ret None
        end in
      match blocked with
      | Some (a, t_before) => ret (Blocked (KPrefetch id a (m_prefetch_next m) t_before t_now w data))
      | None =>
          when (bool_decide (is_Some r.1) && negb (bool_decide (r.1 = Some INVALID_ADDRESS)))
            (upd_master id (λ m, set_prefetch (m_prefetcher m) (m_prefetch_list m)
                                   (time_add (m_prefetch_next m) PREFETCH_INTERVAL) m));!
          match m_next_cache_cntlr c with
          | Some next => Prefetch fuel next t_now w data
          | None => ret (Returned w data)
          end
      end
  end.

(** [processMemOpFromCore] from the update of the usage bits on. *)
Definition finishMemOp id (o : MemOp) (hit_where : where_t) (cache_hit prefetch_hit : bool)
    (loc : option (nat * nat)) (t_start : Z) : M Outcome :=
  let! c := cntlr id in
  let! e := gets n_env in
  (match m_next_cache_cntlr c with
   | Some next =>
       when (mo_modeled o && negb (m_perfect c) && env_callbacks e)
         (let! l := not_null loc in
          let! b := block_at id l in
          let! r := lift (updateUsage (mo_offset o) (mo_data_length o) (base b)) in
          upd_block id l (λ _, r.2);!
          let! fuel := depth in
          when r.1 (updateUsageBits fuel next (mo_address o) (m_used r.2)))
   | None => ret tt
   end);!
  let! data := accessCache id (mo_mem_op_type o) (mo_address o) (mo_offset o) (mo_data_buf o)
                 (mo_data_length o) (bool_decide (hit_where = where_own (m_mem_component c)) && mo_count o) in
  let! t_now := getElapsedTime id USER_THREAD in
  when (negb cache_hit && mo_count o) (add_stat id "total_latency" 0 (time_sub t_now t_start));!
  add_stat id (if bool_decide (mo_mem_op_type o = WRITE) then "stores_where" else "loads_where")
    (where_index hit_where) 1;!
  when (mo_modeled o) (trainPrefetcher id (mo_address o) cache_hit prefetch_hit t_start);!
  if negb (bool_decide (mo_lock_signal o = LOCK)) && mo_modeled o then
    let! fuel := depth in Prefetch fuel id t_start hit_where data
  else ret (Returned hit_where data).

(** A hit in the first-level cache: whether the line had been prefetched. *)
Definition memop_hit id (o : MemOp) (loc : nat * nat) : M bool :=
  let! c := cntlr id in
  incrElapsedTime_access id ACCESS_CACHE_DATA_AND_TAGS USER_THREAD;!
  let! prefetch_hit := use_line id loc true in
  when (mo_modeled o && m_has_l1_mshr c)
    (let! t_now := getElapsedTime id USER_THREAD in
     let! m := master id in
     let t_completed := getTagCompletionTime (mo_address o) (m_l1_mshr m) in
     when (negb (t_completed =? MaxTime) && (t_now <? t_completed))
       (add_stat id (if bool_decide (mo_mem_op_type o = WRITE) then "store_overlapping_misses"
                     else "load_overlapping_misses") 0 1;!
        incrElapsedTime id (time_sub t_completed t_now) USER_THREAD));!
  when (mo_modeled o) (mshr_delay id (mo_address o);! ret tt);!
  ret prefetch_hit.

(** The end of a miss, when the next level has the line. *)
Definition memop_filled id (o : MemOp) (hit_where : where_t) (t_start t_miss_begin t_mshr_avail : Z) : M Outcome :=
  let! c := cntlr id in
  let! t_now := getElapsedTime id USER_THREAD in
  copyDataFromNextLevel id (mo_mem_op_type o) (mo_address o) (mo_modeled o) t_now;!
  let! loc := getCacheBlockInfo id (mo_address o) in
  let! ok := operationPermissibleinCache id (mo_address o) (mo_mem_op_type o) in
  lift (log_assert ok "Expected to be valid in L1");!
  when (mo_modeled o && m_has_l1_mshr c && negb (m_passthrough c))
    (let! t_miss_end := getElapsedTime id USER_THREAD in
     upd_master id (λ m, set_contention (m_dram_outstanding_writebacks m)
                           (getCompletionTime t_miss_begin (time_sub t_miss_end t_mshr_avail)
                              (mo_address o) (m_l1_mshr m)).2
                           (m_next_level_read_bandwidth m) m));!
  finishMemOp id o hit_where false false loc t_start.

(** A miss, up to the wait for the network thread. *)
Definition memop_miss id (o : MemOp) (t_start : Z) : M Outcome :=
  let! c := cntlr id in
  when (negb (m_passthrough c)) (incrElapsedTime_access id ACCESS_CACHE_TAGS USER_THREAD);!
  let! t_miss_begin := getElapsedTime id USER_THREAD in
  let! t_mshr_avail :=
    (if mo_modeled o && m_has_l1_mshr c && negb (m_passthrough c) then
       let! m := master id in
       let t := getStartTime t_miss_begin (m_l1_mshr m) in
       lift (log_assert (t_miss_begin <=? t) "t_mshr_avail < t_miss_begin");!
       incrElapsedTime id (time_sub t t_miss_begin) USER_THREAD;!
       add_stat id "mshr_latency" 0 (time_sub t t_miss_begin);!
       ret t
     else ret t_miss_begin) in
  lift (log_assert (negb (bool_decide (mo_lock_signal o = UNLOCK))) "Expected to find address in L1 Cache");!
  let! s := getCacheState id (mo_address o) in
  when (negb (bool_decide (s = CacheState.INVALID))) (invalidateCacheBlock id (mo_address o));!
  let! next := next_cntlr c in
  let! fuel := depth in
  let! hit_where := processShmemReqFromPrevCache fuel next id (mo_mem_op_type o) (mo_address o)
                      (mo_modeled o) (mo_count o) PREFETCH_NONE t_start in
  if bool_decide (hit_where = MISS) then ret (Blocked (KMem id o t_start t_miss_begin t_mshr_avail))
  else memop_filled id o hit_where t_start t_miss_begin t_mshr_avail.

Definition processMemOpFromCore id (o : MemOp) : M Outcome :=
  let! c := cntlr id in
  lift (log_assert (Z.land (mo_address o) (m_cc_block_size c - 1) =? 0) "address at cache line");!
  lift (log_assert (u32 (mo_offset o + mo_data_length o) <=? m_cc_block_size c) "access until");!
  let! t_start := getElapsedTime id USER_THREAD in
  let! permissible := operationPermissibleinCache id (mo_address o) (mo_mem_op_type o) in
  let! loc := getCacheBlockInfo id (mo_address o) in
  let! r := special_modes id (mo_mem_op_type o) (mo_address o) permissible (m_passthrough c) loc in
  when (mo_count o)
    (on_cache id (λ k, Ok (tt, CacheModel.updateCounters r.1 k));!
     let! s := block_state id r.2 in
     updateCounters id (mo_mem_op_type o) (mo_address o) r.1 s PREFETCH_NONE);!
  if r.1 : bool then
    let! l := not_null r.2 in
    let! prefetch_hit := memop_hit id o l in
    finishMemOp id o (where_own (m_mem_component c)) true prefetch_hit r.2 t_start
  else memop_miss id o t_start.

(** The user thread continues after the network thread woke it up. *)
Definition resume (k : Cont) : M Outcome :=
  match k with
  | KMem id o t_start t_miss_begin t_mshr_avail =>
      let! c := cntlr id in
      let! next := next_cntlr c in
      let! fuel := depth in
      let! hit_where := processShmemReqFromPrevCache fuel next id (mo_mem_op_type o) (mo_address o)
                          false false PREFETCH_NONE t_start in
      lift (log_assert (negb (bool_decide (hit_where = MISS)))
              "Tried to read in next-level cache, but data is already gone");!
      memop_filled id o hit_where t_start t_miss_begin t_mshr_avail
  | KPrefetch id prefetch_address t_start t_before t_now w data =>
      let! c := cntlr id in
      let! fuel := depth in
      let! hit_where := processShmemReqFromPrevCache fuel id id READ prefetch_address false false
                          PREFETCH_OWN t_start in
      lift (log_assert (negb (bool_decide (hit_where = MISS))) "Line was not there after prefetch");!
      setElapsedTime id USER_THREAD t_before;!
      upd_master id (λ m, set_prefetch (m_prefetcher m) (m_prefetch_list m)
                            (time_add (m_prefetch_next m) PREFETCH_INTERVAL) m);!
      match m_next_cache_cntlr c with
      | Some next => Prefetch fuel next t_now w data
      | None => ret (Returned w data)
      end
  end.

(** * Messages from the directory, in the network thread *)

Definition processExRepFromDramDirectory id (requester : nat) (m : ShmemMsg) : M unit :=
  insertCacheBlock id (sm_address m) CacheState.EXCLUSIVE (sm_data_buf m) requester SIM_THREAD;! ret tt.
Definition processShRepFromDramDirectory id (requester : nat) (m : ShmemMsg) : M unit :=
  insertCacheBlock id (sm_address m) CacheState.SHARED (sm_data_buf m) requester SIM_THREAD;! ret tt.
Definition processUpgradeRepFromDramDirectory id (m : ShmemMsg) : M unit :=
  let! cstate := getCacheState id (sm_address m) in
  let! fuel := depth in
  match cstate with
  | CacheState.INVALID =>
      lift (log_assert (bool_decide (is_Some (sm_data_buf m)))
              "Trying to upgrade a block that is now INV and no data in the shmem_msg");!
      updateCacheBlock fuel id (sm_address m) CacheState.MODIFIED UPGRADE true SIM_THREAD;! ret tt
  | CacheState.SHARED_UPGRADING =>
      updateCacheBlock fuel id (sm_address m) CacheState.MODIFIED UPGRADE false SIM_THREAD;! ret tt
  | _ => fail (ErrLog "Trying to upgrade a block that is not SHARED_UPGRADING")
  end.

Definition processInvReqFromDramDirectory id (sender : Z) (m : ShmemMsg) : M unit :=
  let! cstate := getCacheState id (sm_address m) in
  incrElapsedTime_access id ACCESS_CACHE_TAGS SIM_THREAD;!
  when (negb (bool_decide (cstate = CacheState.INVALID)))
    (let! fuel := depth in
     updateCacheBlock fuel id (sm_address m) CacheState.INVALID COHERENCY false SIM_THREAD;!
     sendMsg id INV_REP (sm_requester m) sender (sm_address m) None 0 SIM_THREAD).
Definition processFlushReqFromDramDirectory id (sender : Z) (m : ShmemMsg) : M unit :=
  let! cstate := getCacheState id (sm_address m) in
  if bool_decide (cstate = CacheState.INVALID) then incrElapsedTime_access id ACCESS_CACHE_TAGS SIM_THREAD
  else
    incrElapsedTime_access id ACCESS_CACHE_DATA_AND_TAGS SIM_THREAD;!
    let! c := cntlr id in
    let! e := gets n_env in
    let! fuel := depth in
    let! r := updateCacheBlock fuel id (sm_address m) CacheState.INVALID COHERENCY true SIM_THREAD in
    sendMsg id FLUSH_REP (sm_requester m) sender (sm_address m) (Some (default (env_uninit e) r.2))
      (m_cc_block_size c) SIM_THREAD.
(** An upgrading line is not touched: the buffer is sent as it is. *)
Definition processWbReqFromDramDirectory id (sender : Z) (m : ShmemMsg) : M unit :=
  let! cstate := getCacheState id (sm_address m) in
  if bool_decide (cstate = CacheState.INVALID) then incrElapsedTime_access id ACCESS_CACHE_TAGS SIM_THREAD
  else
    incrElapsedTime_access id ACCESS_CACHE_DATA_AND_TAGS SIM_THREAD;!
    let! c := cntlr id in
    let! e := gets n_env in
    let! fuel := depth in
    let! data_buf :=
      (if bool_decide (cstate = CacheState.SHARED_UPGRADING) then ret (env_uninit e)
       else let! r := updateCacheBlock fuel id (sm_address m) CacheState.SHARED COHERENCY true SIM_THREAD in
            ret (default (env_uninit e) r.2)) in
    sendMsg id WB_REP (sm_requester m) sender (sm_address m) (Some data_buf) (m_cc_block_size c) SIM_THREAD.

Definition is_reply (t : msg_t) : bool :=
  match t with EX_REP | SH_REP | UPGRADE_REP => true | _ => false end.

(** [handleMsgFromDramDirectory] up to the loop over the waiters. *)
Definition handleMsgFromDramDirectory id (sender : Z) (m : ShmemMsg) : M unit :=
  let! mst := master id in
  let! requester :=
    (if is_reply (sm_msg_type m) then
       let! w := lift (front (sm_address m) (m_directory_waiters mst)) in
       let! c := cntlr (w_cache_cntlr w) in
       ret (m_core_id c)
     else ret 0%nat) in
  match sm_msg_type m with
  | EX_REP => processExRepFromDramDirectory id requester m
  | SH_REP => processShRepFromDramDirectory id requester m
  | UPGRADE_REP => processUpgradeRepFromDramDirectory id m
  | INV_REQ => processInvReqFromDramDirectory id sender m
  | FLUSH_REQ => processFlushReqFromDramDirectory id sender m
  | WB_REQ => processWbReqFromDramDirectory id sender m
  | _ => fail (ErrLog "Unrecognized msg type")
  end.

(** The body of the loop up to the wakeup of the user thread: there is no
    waiter, an upgrade was requested for the first one, or it is woken up. *)
Inductive Wake : Type := NoWaiter | UpgradeSent | Woken (w : CacheDirectoryWaiter).
Definition wake_waiter id address (where_ : option where_t) : M Wake :=
  let! m := master id in
  if queue_empty address (m_directory_waiters m) then ret NoWaiter
  else
    let! w := lift (front address (m_directory_waiters m)) in
    let! s := getCacheState id address in
    if w_exclusive w && bool_decide (s = CacheState.SHARED) then
      processUpgradeReqToDirectory id address SIM_THREAD;! ret UpgradeSent
    else
      when (w_isPrefetch w) (setBlockOption id address PREFETCH);!
      let! t_core := getElapsedTime (w_cache_cntlr w) USER_THREAD in
      let! t_here := getElapsedTime id SIM_THREAD in
      when (t_core <? t_here) (setElapsedTime (w_cache_cntlr w) USER_THREAD t_here);!
      let! x := lift (match where_ with Some x => Ok x | None => Err ErrUndefined end) in
      upd_cntlr (w_cache_cntlr w) (set_remote x);!
      ret (Woken w).
(** The rest of the body, when the user thread has released the lock. *)
Definition retire_waiter id address (w : CacheDirectoryWaiter) : M unit :=
  let! t := getElapsedTime id SIM_THREAD in
  upd_master (w_cache_cntlr w) (λ m, set_mshr (<[address := (w_t_issue w, t)]> (mshr m)) m);!
  cleanupMshr id;!
  let! m := master id in
  let! r := lift (dequeue address (m_directory_waiters m)) in
  upd_master id (set_waiters r.2).
End Cntlr.
