(* ===== verification/CacheCntlrFacts.v ===== *)
(** Runs of the cache controllers of a node with two levels: the first-level
    caches of the cores and a last-level cache that they share.

    A run starts in a well-formed node and either returns, in a well-formed
    node that is described relative to the first one by the slots of the
    caches, the queues of the waiters and the line that is being evicted, or
    stops with an error that is allowed. *)
From S2P Require Import Prelude SubsecondTime ContentionModel CacheBlock LruPolicies CacheSet PolicyKeeps Address CacheModel Directory Shmem CacheSlots CacheCntlr.
Local Open Scope Z_scope.

(** The class of the lines of all caches of a node. *)
Definition line_class_ : BlockInfo := SharedCacheBlockInfo (CacheBlockInfo_new INVALID_TAG CacheState.INVALID 0).

(** The configuration of a controller: its members that never change. *)
Definition config (c : CacheCntlr) : CacheCntlr := set_stats ∅ (set_remote UNKNOWN c).

(** Errors that are consequences of simulated time running out: an overflow of
    the elapsed time, and the loop of [cleanupMshr] that does not end when all
    misses complete at MaxTime. *)
Definition time_error (e : err) : Prop :=
  e = ErrLog "t_elapsed_time < i_elapsed_time" ∨
  e = ErrLog "Did not expect next-level cache to be this fast" ∨ e = ErrDiverge.

(** What the controllers rely on of a prefetcher: it does not fail, and from
    line addresses it computes line addresses. *)
Definition line_address (B a : Z) : Prop := in_u64 a ∧ a mod B = 0.
Class PrefetcherOk (F : Type) `{PrefetcherOps F} := {
  pf_inv : Z → F → Prop;
  pf_next B a core f : pf_inv B f → line_address B a →
    ∃ l f', getNextAddress a core f = Ok (l, f') ∧ pf_inv B f' ∧ Forall (line_address B) l
}.

(** The static description of a node. *)
Record Setup : Type := mkSetup {
  s_cntlrs : list CacheCntlr;
  s_prev : list (list nat);
  s_llc : nat;
  s_block : Z;
  s_env : Env;
  s_periods : list Z;
  s_cores : nat
}.

(** The latencies of a controller refer to clocks that exist. *)
Definition clocks_ok (periods : nat) (k : CacheCntlr) : Prop :=
  (cl_period (m_writeback_time k) < periods)%nat ∧ (cb_period (m_read_bandwidth k) < periods)%nat ∧
  (cl_period (m_cache_data_access_time (m_perf_model k)) < periods)%nat ∧
  (cl_period (m_cache_tags_access_time (m_perf_model k)) < periods)%nat.

Record cntlr_ok (U : Setup) (k : CacheCntlr) : Prop := {
  k_perfect : m_perfect k = false;
  k_passthrough : m_passthrough k = false;
  k_coherent : m_coherent k = true;
  k_block : m_cc_block_size k = s_block U;
  k_core : (m_core_id k < s_cores U)%nat;
  k_clocks : clocks_ok (length (s_periods U)) k
}.

(** A last-level controller, and a first-level one whose next level is one. *)
Definition is_llc (U : Setup) (id : nat) : Prop :=
  ∃ k, s_cntlrs U !! id = Some k ∧ m_next_cache_cntlr k = None ∧ m_master k = s_llc U ∧
       m_cache_writethrough k = false.
Definition is_l1 (U : Setup) (id : nat) : Prop :=
  ∃ k next, s_cntlrs U !! id = Some k ∧ m_next_cache_cntlr k = Some next ∧ is_llc U next ∧
       m_master k ≠ s_llc U ∧ s_prev U !! m_master k = Some [].
Definition master_of (U : Setup) (id : nat) : nat := default 0%nat (m_master <$> s_cntlrs U !! id).
Definition prevs (U : Setup) : list nat := default [] (s_prev U !! s_llc U).

Record two_level (U : Setup) : Prop := {
  t_cntlrs id k : s_cntlrs U !! id = Some k → cntlr_ok U k ∧ (is_llc U id ∨ is_l1 U id);
  t_prev : is_Some (s_prev U !! s_llc U);
  t_prevs id : id ∈ prevs U → is_l1 U id;
  t_masters id : is_l1 U id → ∃ i, i ∈ prevs U ∧ master_of U i = master_of U id;
  t_nodup : NoDup (master_of U <$> prevs U);
  t_block : 2 ≤ s_block U < 2 ^ 31;
  t_power : s_block U = 2 ^ Z.log2 (s_block U);
  t_depth : (2 ≤ length (s_cntlrs U))%nat;
  t_uninit : Z.of_nat (length (env_uninit (s_env U))) = s_block U;
  t_callbacks : env_callbacks (s_env U) = false;
  t_home a : in_u64 a → is_Ok (getHome (env_home (s_env U)) a)
}.

Section Runs.
Context {P F D : Type} `{HPol : Policy P} {HOk : PolicyOk P} {HFrame : PolicyFrame P} {HKeep : PolicyKeeps P}.
Context `{HFetch : PrefetcherOps F} {HPf : PrefetcherOk F} `{HDram : DramOps D}.
Context (U : Setup) (HS : two_level U).
Local Notation M := (st (Node P F D)).
Local Notation L := (s_llc U).
Local Notation B := (s_block U).
Implicit Types (n : Node P F D) (id mi : nat) (l : nat * nat) (x : cstate_t).

(** ** Well-formed nodes *)
Record master_ok mi (m : CacheMaster P F) : Prop := {
  m_wf : cache_wf line_class_ (m_cache m);
  m_block : cb_blocksize (c_base (m_cache m)) = B;
  m_nodram : m_dram_cntlr m = false;
  m_buf buf : m_evicting_buf m = Some buf → Z.of_nat (length buf) = B;
  m_evict_llc : mi ≠ L → m_evicting_buf m = None;
  m_pf f : m_prefetcher m = Some f → pf_inv B f;
  m_pflist : Forall (line_address B) (m_prefetch_list m);
  m_queues : queues_wf (λ _ _, True) (m_directory_waiters m)
}.
Record node_wf n : Prop := {
  n_config : config <$> n_cntlrs n = s_cntlrs U;
  n_prev : m_prev_cache_cntlrs <$> n_masters n = s_prev U;
  n_env_eq : n_env n = s_env U;
  n_periods_eq : n_periods n = s_periods U;
  n_times : length (n_elapsed n) = s_cores U;
  n_master mi m : n_masters n !! mi = Some m → master_ok mi m
}.

(** ** What the theorems say about a node *)
Definition nslot n mi l : option (Z * cstate_t) := m ← n_masters n !! mi; slot (m_cache m) l.
Definition nwait n (a : Z) : list CacheDirectoryWaiter :=
  match n_masters n !! L with Some m => queue_of a (m_directory_waiters m) | None => [] end.
Definition nevict n : option Z :=
  m ← n_masters n !! L; (λ _, m_evicting_address m) <$> m_evicting_buf m.
Definition tag (a : Z) : Z := a / B.
Definition holds n mi (t : Z) x : Prop := ∃ l, nslot n mi l = Some (t, x).
Definition absent n mi (t : Z) : Prop := ∀ l x, nslot n mi l ≠ Some (t, x).

(** The node is as before, but for what the theorems do not speak of. *)
Definition same n n' : Prop :=
  (∀ mi l, nslot n' mi l = nslot n mi l) ∧ (∀ a, nwait n' a = nwait n a) ∧ nevict n' = nevict n.
(** One slot has changed. *)
Definition changed mi l (v : Z * cstate_t) n n' : Prop :=
  nslot n' mi l = Some v ∧ (∀ mi' l', mi' ≠ mi ∨ l' ≠ l → nslot n' mi' l' = nslot n mi' l') ∧
  (∀ a, nwait n' a = nwait n a) ∧ nevict n' = nevict n.

#[export] Instance same_refl : Reflexive same.
Proof. by intros n. Qed.
#[export] Instance same_trans : Transitive same.
Proof.
  intros n1 n2 n3 (H1 & H2 & H3) (H1' & H2' & H3').
  split; [|split]; intros; etrans; eauto.
Qed.
Lemma same_changed mi l v n1 n2 n3 : same n1 n2 → changed mi l v n2 n3 → changed mi l v n1 n3.
Proof.
  intros (H1 & H2 & H3) (H1' & H2' & H3' & H4'). split; [done|]. split; [|split].
  - intros mi' l' Hne. rewrite <- H1. by apply H2'.
  - intros a. by rewrite <- H2.
  - by rewrite H4'.
Qed.
Lemma changed_same mi l v n1 n2 n3 : changed mi l v n1 n2 → same n2 n3 → changed mi l v n1 n3.
Proof.
  intros (H1 & H2 & H3 & H4) (H1' & H2' & H3'). split; [by rewrite H1'|]. split; [|split].
  - intros mi' l' Hne. rewrite H1'. by apply H2.
  - intros a. by rewrite H2'.
  - by rewrite H3'.
Qed.
Lemma changed_changed mi l v v' n1 n2 n3 : changed mi l v n1 n2 → changed mi l v' n2 n3 → changed mi l v' n1 n3.
Proof.
  intros (H1 & H2 & H3 & H4) (H1' & H2' & H3' & H4'). split; [done|]. split; [|split].
  - intros mi' l' Hne. rewrite H2' by done. by apply H2.
  - intros a. by rewrite H3'.
  - by rewrite H4'.
Qed.

(** ** Runs *)
Context (E : err → Prop) (HE : ∀ e, time_error e → E e).
Definition run {A} n (m : M A) (Q : A → Node P F D → Prop) : Prop :=
  match m n with Ok (a, n') => node_wf n' ∧ Q a n' | Err e => E e end.

Lemma run_ret {A} n (a : A) Q : node_wf n → Q a n → run n (ret a) Q.
Proof. done. Qed.
Lemma run_bind {A C} n (m : M A) (f : A → M C) Q R :
  run n m Q → (∀ a n', node_wf n' → Q a n' → run n' (f a) R) → run n (st_bind m f) R.
Proof.
  intros Hm Hf. unfold run, st_bind in *. destruct (m n) as [[a n']|e]; simpl; [|done].
  destruct Hm. by apply Hf.
Qed.
Lemma run_conseq {A} n (m : M A) (Q R : A → Node P F D → Prop) :
  run n m Q → (∀ a n', node_wf n' → Q a n' → R a n') → run n m R.
Proof. unfold run. destruct (m n) as [[a n']|e]; [|done]. naive_solver. Qed.
Lemma run_gets {A C} n (g : Node P F D → A) (f : A → M C) R :
  run n (f (g n)) R → run n (st_bind (gets g) f) R.
Proof. done. Qed.
Lemma run_lift {A C} n (r : res A) v (f : A → M C) R :
  r = Ok v → run n (f v) R → run n (st_bind (lift r) f) R.
Proof. by intros ->. Qed.
Lemma run_assert {C} n (b : bool) msg (f : unit → M C) R :
  (b = false → E (ErrLog msg)) → (b = true → run n (f tt) R) →
  run n (st_bind (lift (log_assert b msg)) f) R.
Proof. intros Hf Ht. destruct b; [by apply Ht|]. unfold run. simpl. by apply Hf. Qed.
Lemma run_fail {A} n e (Q : A → Node P F D → Prop) : E e → run n (fail e) Q.
Proof. done. Qed.
(** A run that changes nothing of interest. *)
Lemma run_same {A C} n n0 (m : M A) (f : A → M C) R :
  node_wf n → same n0 n → run n m (λ _, same n) →
  (∀ a n', node_wf n' → same n0 n' → run n' (f a) R) → run n (st_bind m f) R.
Proof.
  intros Hwf Hs Hm Hf. eapply run_bind; [exact Hm|]. intros a n' Hn' Hs'. apply Hf; [done|]. by etrans.
Qed.
Lemma run_when n (b : bool) m (Q : Node P F D → Prop) :
  node_wf n → (b = true → run n m (λ _, Q)) → (b = false → Q n) → run n (when b m) (λ _, Q).
Proof. intros Hwf Ht Hf. destruct b; [by apply Ht|]. split; [done|]. by apply Hf. Qed.

(** ** Reading and updating the objects *)
Lemma n_cntlr n id c :
  node_wf n → n_cntlrs n !! id = Some c → s_cntlrs U !! id = Some (config c).
Proof. intros Hwf Hc. rewrite <- (n_config n Hwf), list_lookup_fmap, Hc. done. Qed.
Lemma n_cntlr_some n id k :
  node_wf n → s_cntlrs U !! id = Some k → ∃ c, n_cntlrs n !! id = Some c ∧ config c = k.
Proof.
  intros Hwf. rewrite <- (n_config n Hwf), list_lookup_fmap, fmap_Some. naive_solver.
Qed.
(** A controller that differs from its configuration in what changes. *)
Definition cfg (k c : CacheCntlr) : Prop := ∃ st w, c = set_stats st (set_remote w k).
Lemma config_cfg c k : config c = k → cfg k c.
Proof. intros <-. exists (m_stats c), (m_last_remote_hit_where c). by destruct c. Qed.

Lemma run_cntlr n id k :
  node_wf n → s_cntlrs U !! id = Some k → run n (cntlr id) (λ c n', n' = n ∧ cfg k c).
Proof.
  intros Hwf Hk. destruct (n_cntlr_some n id k Hwf Hk) as (c & Hc & Hck).
  unfold run, cntlr, st_bind, gets, lift. simpl. rewrite (proj2 (rd_Ok _ _ _) Hc). simpl.
  auto using config_cfg.
Qed.
Lemma cntlr_master id k :
  s_cntlrs U !! id = Some k → is_Some (s_prev U !! m_master k) ∧ cntlr_ok U k.
Proof.
  intros Hk. destruct (t_cntlrs U HS id k Hk) as [Hok [(k' & Hk' & _ & Hm & _)|(k' & nx & Hk' & _ & _ & _ & Hp)]].
  - assert (k' = k) by congruence. subst k'. rewrite Hm. split; [apply (t_prev U HS)|done].
  - assert (k' = k) by congruence. subst k'. by rewrite Hp.
Qed.
Lemma prev_of n mi m : node_wf n → n_masters n !! mi = Some m → s_prev U !! mi = Some (m_prev_cache_cntlrs m).
Proof. intros Hwf Hm. by rewrite <- (n_prev n Hwf), list_lookup_fmap, Hm. Qed.
Lemma master_exists n id k :
  node_wf n → s_cntlrs U !! id = Some k → is_Some (n_masters n !! m_master k).
Proof.
  intros Hwf [[p Hp] _]%cntlr_master. rewrite <- (n_prev n Hwf), list_lookup_fmap in Hp.
  apply fmap_Some in Hp as (m & ? & _). by exists m.
Qed.
Lemma run_master n id k :
  node_wf n → s_cntlrs U !! id = Some k →
  run n (master id) (λ m n', n' = n ∧ n_masters n !! m_master k = Some m).
Proof.
  intros Hwf Hk. destruct (master_exists n id k Hwf Hk) as [m Hm].
  unfold master. eapply run_bind; [by apply (run_cntlr n id k)|]. intros c n' _ [-> (st & w & ->)].
  unfold run, st_bind, gets, lift. simpl. by rewrite (proj2 (rd_Ok _ _ _) Hm).
Qed.
Lemma run_upd_master n id k g (Q : Node P F D → Prop) :
  node_wf n → s_cntlrs U !! id = Some k →
  (∀ m, n_masters n !! m_master k = Some m →
     master_ok (m_master k) (g m) ∧ m_prev_cache_cntlrs (g m) = m_prev_cache_cntlrs m ∧
     Q (put_masters (<[m_master k := g m]> (n_masters n)) n)) →
  run n (upd_master id g) (λ _, Q).
Proof.
  intros Hwf Hk Hg. destruct (master_exists n id k Hwf Hk) as [m Hm]. destruct (Hg m Hm) as (Hok & Hp & HQ).
  unfold upd_master. eapply run_bind; [by apply (run_cntlr n id k)|]. intros c n' _ [-> (st & w & ->)].
  unfold run, st_bind, gets, lift, modify. simpl. rewrite (proj2 (rd_Ok _ _ _) Hm). simpl. split; [|done].
  destruct Hwf as [H1 H2 H3 H4 H5 H6]. constructor; try done; simpl.
  - rewrite list_fmap_insert, Hp, <- H2. apply list_insert_id. by rewrite list_lookup_fmap, Hm.
  - intros mi m' [(<- & <- & _)|[_ Hm']]%list_lookup_insert_Some; [done|]. by eapply H6.
Qed.
Lemma masters_insert n mi m m' mi' :
  n_masters n !! mi = Some m →
  n_masters (put_masters (<[mi := m']> (n_masters n)) n) !! mi' = if decide (mi' = mi) then Some m' else n_masters n !! mi'.
Proof.
  intros Hm. simpl. case_decide as Hd; [subst; apply list_lookup_insert_eq; by eapply lookup_lt_Some|].
  by apply list_lookup_insert_ne.
Qed.
(** The caches, the waiters and the evicted line of a master. *)
Definition keeps (m m' : CacheMaster P F) : Prop :=
  m_prev_cache_cntlrs m' = m_prev_cache_cntlrs m ∧ m_dram_cntlr m' = m_dram_cntlr m ∧
  m_directory_waiters m' = m_directory_waiters m ∧
  m_evicting_address m' = m_evicting_address m ∧ m_evicting_buf m' = m_evicting_buf m.
Lemma put_nslot n mi m m' mi' l :
  n_masters n !! mi = Some m →
  nslot (put_masters (<[mi := m']> (n_masters n)) n) mi' l =
  if decide (mi' = mi) then slot (m_cache m') l else nslot n mi' l.
Proof. intros Hm. unfold nslot. rewrite (masters_insert _ _ _ _ _ Hm). by case_decide. Qed.
Lemma put_keeps n mi m m' :
  n_masters n !! mi = Some m → keeps m m' →
  (∀ a, nwait (put_masters (<[mi := m']> (n_masters n)) n) a = nwait n a) ∧
  nevict (put_masters (<[mi := m']> (n_masters n)) n) = nevict n.
Proof.
  intros Hm (_ & _ & Hw & Ha & Hb). unfold nwait, nevict. setoid_rewrite (masters_insert _ _ _ _ _ Hm).
  case_decide as Hd; [|done]. subst. simpl. by rewrite Hm, Hw, Ha, Hb.
Qed.
Lemma run_upd_same n id k g :
  node_wf n → s_cntlrs U !! id = Some k →
  (∀ m, n_masters n !! m_master k = Some m → keeps m (g m) ∧ m_cache (g m) = m_cache m ∧
     (∀ f, m_prefetcher (g m) = Some f → pf_inv B f) ∧ Forall (line_address B) (m_prefetch_list (g m))) →
  run n (upd_master id g) (λ _, same n).
Proof.
  intros Hwf Hk Hg. apply (run_upd_master n id k); [done..|]. intros m Hm.
  destruct (Hg m Hm) as (Hkeep & Hc & Hf & Hl). destruct (put_keeps n _ m (g m) Hm Hkeep) as [Hw He].
  pose proof (n_master n Hwf _ m Hm) as [M1 M2 M3 M4 M5 M6 M7 M8]. destruct Hkeep as (K1 & K2 & K3 & K4 & K5).
  split; [|split; [done|]].
  - constructor; rewrite ?Hc, ?K1, ?K2, ?K3, ?K4, ?K5; done.
  - split; [|by split]. intros mi l. rewrite (put_nslot _ _ _ _ _ _ Hm), Hc.
    case_decide as Hd; [|done]. subst mi. unfold nslot. by rewrite Hm.
Qed.
Lemma run_set_mshr n id k g :
  node_wf n → s_cntlrs U !! id = Some k → run n (upd_master id (λ m, set_mshr (g m) m)) (λ _, same n).
Proof.
  intros Hwf Hk. apply (run_upd_same n id k); [done..|]. intros m Hm.
  pose proof (n_master n Hwf _ m Hm) as [M1 M2 M3 M4 M5 M6 M7 M8]. done.
Qed.
Lemma run_set_contention n id k g1 g2 g3 :
  node_wf n → s_cntlrs U !! id = Some k →
  run n (upd_master id (λ m, set_contention (g1 m) (g2 m) (g3 m) m)) (λ _, same n).
Proof.
  intros Hwf Hk. apply (run_upd_same n id k); [done..|]. intros m Hm.
  pose proof (n_master n Hwf _ m Hm) as [M1 M2 M3 M4 M5 M6 M7 M8]. done.
Qed.
Lemma run_upd_cntlr n id k g :
  node_wf n → s_cntlrs U !! id = Some k → (∀ c, config (g c) = config c) →
  run n (upd_cntlr id g) (λ _, same n).
Proof.
  intros Hwf Hk Hg. destruct (n_cntlr_some n id k Hwf Hk) as (c & Hc & Hck).
  unfold run, upd_cntlr, st_bind, gets, lift, modify. simpl. rewrite (proj2 (rd_Ok _ _ _) Hc). simpl. split; [|done].
  destruct Hwf as [H1 H2 H3 H4 H5 H6]. constructor; try done; simpl.
  rewrite list_fmap_insert, Hg, <- H1. apply list_insert_id. by rewrite list_lookup_fmap, Hc.
Qed.
Lemma run_add_stat n id k name i v :
  node_wf n → s_cntlrs U !! id = Some k → run n (add_stat id name i v) (λ _, same n).
Proof. intros. by apply (run_upd_cntlr n id k). Qed.
Lemma run_set_remote n id k w :
  node_wf n → s_cntlrs U !! id = Some k → run n (upd_cntlr id (set_remote w)) (λ _, same n).
Proof. intros. by apply (run_upd_cntlr n id k). Qed.
Lemma run_depth n : node_wf n → run n depth (λ d n', n' = n ∧ d = length (s_cntlrs U)).
Proof.
  intros Hwf. split; [done|]. split; [done|]. simpl. by rewrite <- (n_config n Hwf), length_fmap.
Qed.

(** ** Time and messages *)
Lemma run_time n id k :
  node_wf n → s_cntlrs U !! id = Some k →
  ∃ c t, cntlr id n = Ok (c, n) ∧ cfg k c ∧ n_elapsed n !! m_core_id k = Some t.
Proof.
  intros Hwf Hk. pose proof (run_cntlr n id k Hwf Hk) as Hr. unfold run in Hr.
  assert (He : ∃ c, cntlr id n = Ok (c, n) ∧ cfg k c).
  { unfold cntlr, st_bind, gets, lift. simpl. destruct (n_cntlr_some n id k Hwf Hk) as (c & Hc & Hck).
    rewrite (proj2 (rd_Ok _ _ _) Hc). exists c. split; [done|]. by apply config_cfg. }
  destruct He as (c & He & Hc). destruct (lookup_lt_is_Some_2 (n_elapsed n) (m_core_id k)) as [t Ht].
  { rewrite (n_times n Hwf). by destruct (cntlr_master _ _ Hk) as [_ []]. }
  by exists c, t.
Qed.
Lemma run_getElapsedTime n id k th :
  node_wf n → s_cntlrs U !! id = Some k → run n (getElapsedTime id th) (λ _ n', n' = n).
Proof.
  intros Hwf Hk. destruct (run_time n id k Hwf Hk) as (c & t & Hc & (st & w & ->) & Ht).
  unfold run, getElapsedTime, st_bind, gets, lift, ret. simpl. rewrite Hc. simpl. by rewrite (proj2 (rd_Ok _ _ _) Ht).
Qed.
Lemma run_setElapsedTime n id k th time :
  node_wf n → s_cntlrs U !! id = Some k → run n (CacheCntlr.setElapsedTime id th time) (λ _, same n).
Proof.
  intros Hwf Hk. destruct (run_time n id k Hwf Hk) as (c & t & Hc & (st & w & ->) & Ht).
  unfold run, CacheCntlr.setElapsedTime, st_bind, gets, lift, modify. simpl. rewrite Hc. simpl.
  rewrite (proj2 (rd_Ok _ _ _) Ht). simpl. split; [|done].
  destruct Hwf as [H1 H2 H3 H4 H5 H6]. constructor; try done; simpl. by rewrite length_insert.
Qed.
Lemma run_incrElapsedTime n id k time th :
  node_wf n → s_cntlrs U !! id = Some k → run n (incrElapsedTime id time th) (λ _, same n).
Proof.
  intros Hwf Hk. unfold incrElapsedTime. eapply run_bind; [by eapply run_getElapsedTime|].
  intros t n' _ ->. apply run_assert; [|by intros _; eapply run_setElapsedTime].
  intros _. apply HE. by left.
Qed.
Lemma rd_periods n i : node_wf n → (i < length (s_periods U))%nat → is_Ok (rd (n_periods n) i).
Proof. intros Hwf Hi. rewrite <- (n_periods_eq n Hwf) in Hi. destruct (rd_lt _ _ Hi) as (x & _ & ->). by eexists. Qed.
Lemma run_incrElapsedTime_access n id k acc th :
  node_wf n → s_cntlrs U !! id = Some k → run n (incrElapsedTime_access id acc th) (λ _, same n).
Proof.
  intros Hwf Hk. unfold incrElapsedTime_access. eapply run_bind; [by eapply run_cntlr|].
  intros c n' _ [-> (st & w & ->)]. apply run_gets.
  destruct (k_clocks U k (proj2 (cntlr_master _ _ Hk))) as (_ & _ & Hd & Ht).
  destruct (rd_periods n _ Hwf Hd) as [pd Hpd]. destruct (rd_periods n _ Hwf Ht) as [pt Hpt].
  assert (is_Ok (getLatency (n_periods n) (m_perf_model (set_stats st (set_remote w k))) acc)) as [v Hv].
  { unfold getLatency, cl_getLatency. simpl. rewrite Hpd, Hpt.
    destruct (pm_enabled (m_perf_model k)), acc, (pm_sequential (m_perf_model k)); simpl; eexists; reflexivity. }
  eapply run_lift; [exact Hv|]. by eapply run_incrElapsedTime.
Qed.
Lemma run_writeback_latency n id k :
  node_wf n → s_cntlrs U !! id = Some k → run n (writeback_latency id) (λ _ n', n' = n).
Proof.
  intros Hwf Hk. unfold writeback_latency. eapply run_bind; [by eapply run_cntlr|].
  intros c n' _ [-> (st & w & ->)]. apply run_gets.
  destruct (k_clocks U k (proj2 (cntlr_master _ _ Hk))) as (Hd & _).
  destruct (rd_periods n _ Hwf Hd) as [pd Hpd]. unfold run, lift, cl_getLatency. simpl. by rewrite Hpd.
Qed.
Lemma run_sendMsg n id k ty req rcv a data len th :
  node_wf n → s_cntlrs U !! id = Some k → bool_decide (data = None) = (len =? 0) →
  run n (sendMsg id ty req rcv a data len th) (λ _, same n).
Proof.
  intros Hwf Hk Hd. unfold sendMsg. rewrite Hd, eqb_reflx.
  eapply run_lift; [done|]. eapply run_bind; [by eapply run_getElapsedTime|]. intros t n' _ ->.
  split; [|done]. by destruct Hwf.
Qed.
Lemma run_home_of n a : node_wf n → in_u64 a → run n (home_of a) (λ _ n', n' = n).
Proof.
  intros Hwf Ha. unfold home_of. apply run_gets. rewrite (n_env_eq n Hwf).
  destruct (t_home U HS a Ha) as [h Hh]. unfold run, lift. by rewrite Hh.
Qed.

(** ** Caches *)
Definition to_cache mi (c : Cache P) n n' : Prop :=
  (∀ l, nslot n' mi l = slot c l) ∧ (∀ mi' l, mi' ≠ mi → nslot n' mi' l = nslot n mi' l) ∧
  (∀ a, nwait n' a = nwait n a) ∧ nevict n' = nevict n.
Lemma run_on_cache {A} n id k (g : Cache P → res (A * Cache P)) (Q : A → Node P F D → Prop) :
  node_wf n → s_cntlrs U !! id = Some k →
  (∀ m, n_masters n !! m_master k = Some m → master_ok (m_master k) m →
     (∃ e, g (m_cache m) = Err e ∧ E e) ∨
     ∃ v c, g (m_cache m) = Ok (v, c) ∧ cache_wf line_class_ c ∧ c_base c = c_base (m_cache m) ∧
       ∀ n', to_cache (m_master k) c n n' → Q v n') →
  run n (on_cache id g) Q.
Proof.
  intros Hwf Hk Hg. unfold on_cache. eapply run_bind; [by eapply run_master|]. intros m n' _ [-> Hm].
  pose proof (n_master n Hwf _ m Hm) as Hok.
  destruct (Hg m Hm Hok) as [(e & He & HEe)|(v & c & He & Hc & Hb & HQ)].
  { unfold run, st_bind, lift. by rewrite He. }
  eapply run_lift; [exact He|]. cbn [fst snd].
  eapply run_bind; [eapply (run_upd_master n id k _ (to_cache (m_master k) c n)); [done..|]|].
  - intros m' Hm'. assert (m' = m) by congruence. subst m'. destruct Hok as [M1 M2 M3 M4 M5 M6 M7 M8].
    split; [|split; [done|]]; [constructor; simpl; rewrite ?Hb; done|].
    destruct (put_keeps n _ m (set_cache c m) Hm) as [Hw He']; [done|].
    split; [|split; [|by split]]; intros; rewrite (put_nslot _ _ _ _ _ _ Hm); by case_decide.
  - intros u n' Hn' Ht. apply run_ret; auto.
Qed.
Lemma to_cache_same mi c n n' m :
  n_masters n !! mi = Some m → (∀ l, slot c l = slot (m_cache m) l) → to_cache mi c n n' → same n n'.
Proof.
  intros Hm Hs (H1 & H2 & H3 & H4). split; [|by split]. intros mi' l.
  destruct (decide (mi' = mi)) as [->|]; [|by apply H2]. rewrite H1, Hs. unfold nslot. by rewrite Hm.
Qed.
Lemma to_cache_changed mi c n n' m l v :
  n_masters n !! mi = Some m → slot c l = Some v → (∀ l', l' ≠ l → slot c l' = slot (m_cache m) l') →
  to_cache mi c n n' → changed mi l v n n'.
Proof.
  intros Hm Hl Hs (H1 & H2 & H3 & H4). split; [by rewrite H1|]. split; [|by split]. intros mi' l' Hne.
  destruct (decide (mi' = mi)) as [->|]; [|by apply H2]. rewrite H1, Hs by naive_solver. unfold nslot. by rewrite Hm.
Qed.

Lemma changed_id mi l v n n' : nslot n mi l = Some v → changed mi l v n n' → same n n'.
Proof.
  intros Hl (H1 & H2 & H3 & H4). split; [|by split]. intros mi' l'.
  destruct (decide (mi' = mi)) as [->|]; [destruct (decide (l' = l)) as [->|]|]; [congruence|..]; apply H2; auto.
Qed.
Lemma tag_master mi m a : master_ok mi m → tag_of (m_cache m) a = tag a.
Proof.
  intros [((_ & _ & Hlog & _) & _) Hb _ _ _ _ _ _]. unfold tag_of, tag. rewrite Hlog, Hb.
  by rewrite <- (t_power U HS).
Qed.
Lemma tag_valid a : in_u64 a → tag a ≠ INVALID_TAG.
Proof.
  intros Ha. unfold tag, in_u64 in *. pose proof (t_block U HS).
  assert (a / B ≤ a / 2) by (apply Z.div_le_compat_l; lia).
  assert (a / 2 < 2 ^ 63) by (apply Z.div_lt_upper_bound; lia). unfold INVALID_TAG. lia.
Qed.
Lemma slot_uniq n mi l l' t x x' :
  node_wf n → t ≠ INVALID_TAG → nslot n mi l = Some (t, x) → nslot n mi l' = Some (t, x') → l = l' ∧ x = x'.
Proof.
  intros Hwf Ht (m & Hm & Hl)%bind_Some (m' & Hm' & Hl')%bind_Some. assert (m' = m) by congruence. subst m'.
  eapply (slot_unique _ (m_cache m)); [apply (n_master n Hwf mi m Hm)|done..].
Qed.

(** The state of a line in a cache. *)
Definition state_in n mi (t : Z) x : Prop := holds n mi t x ∨ (absent n mi t ∧ x = CacheState.INVALID).
Lemma state_uniq n mi t x x' :
  node_wf n → t ≠ INVALID_TAG → state_in n mi t x → state_in n mi t x' → x = x'.
Proof.
  intros Hwf Ht [[l Hl]|[Hl ->]] [[l' Hl']|[Hl' ->]]; [|by destruct (Hl' l x)|by destruct (Hl l' x')|done].
  by destruct (slot_uniq n mi l l' t x x').
Qed.
Definition located n mi (t : Z) (loc : option (nat * nat)) x : Prop :=
  match loc with Some l => nslot n mi l = Some (t, x) | None => absent n mi t ∧ x = CacheState.INVALID end.
Lemma located_state n mi t loc x : located n mi t loc x → state_in n mi t x.
Proof. destruct loc; [left; by eexists|by right]. Qed.

Lemma run_getCacheBlockInfo n id k a :
  node_wf n → s_cntlrs U !! id = Some k → in_u64 a →
  run n (getCacheBlockInfo id a) (λ loc n', n' = n ∧ ∃ x, located n (m_master k) (tag a) loc x).
Proof.
  intros Hwf Hk Ha. unfold getCacheBlockInfo. eapply run_bind; [by eapply run_master|]. intros m n' _ [-> Hm].
  pose proof (n_master n Hwf _ m Hm) as Hok. rewrite <- (tag_master _ m a Hok). unfold run, lift.
  destruct (peek_slot _ (m_cache m) a (m_wf _ _ Hok) Ha) as [_ [(l & x & Hp & Hl)|[Hp Hno]]]; rewrite Hp; simpl.
  - split; [done|]. split; [done|]. exists x. simpl. unfold nslot. by rewrite Hm.
  - split; [done|]. split; [done|]. exists CacheState.INVALID. split; [|done]. intros l x Hl. apply (Hno l x).
    unfold nslot in Hl. by rewrite Hm in Hl.
Qed.
Lemma run_block_at n id k l t x :
  node_wf n → s_cntlrs U !! id = Some k → nslot n (m_master k) l = Some (t, x) →
  run n (block_at id l) (λ b n', n' = n ∧ getTag b = t ∧ getCState b = x).
Proof.
  intros Hwf Hk Hl. unfold block_at. eapply run_bind; [by eapply run_master|]. intros m n' _ [-> Hm].
  unfold nslot in Hl. rewrite Hm in Hl. destruct (block_slot _ _ _ _ Hl) as (b & Hb & ? & ?).
  unfold run, lift. rewrite Hb. simpl. by repeat (split; try done).
Qed.
Lemma run_block_state n id k loc t x :
  node_wf n → s_cntlrs U !! id = Some k → located n (m_master k) t loc x →
  run n (block_state id loc) (λ y n', n' = n ∧ y = x).
Proof.
  intros Hwf Hk Hl. destruct loc as [l|]; [|by destruct Hl as [_ ->]]. unfold block_state.
  eapply run_bind; [by eapply run_block_at|]. intros b n' _ (-> & _ & <-). by apply run_ret.
Qed.
Lemma run_upd_block n id k l t x f x' :
  node_wf n → s_cntlrs U !! id = Some k → nslot n (m_master k) l = Some (t, x) →
  (∀ y, m_tag (f y) = m_tag y) → (∀ y, m_cstate y = x → m_cstate (f y) = x') →
  run n (upd_block id l f) (λ _, changed (m_master k) l (t, x') n).
Proof.
  intros Hwf Hk Hl Hf Hfx. apply (run_on_cache n id k); [done..|]. intros m Hm Hok. right.
  unfold nslot in Hl. rewrite Hm in Hl. simpl in Hl.
  destruct (update_slot _ (m_cache m) l t x f x' (m_wf _ _ Hok) Hl Hf Hfx) as (c & He & Hc & Hb & Hs & Hr).
  exists tt, c. rewrite He. split; [done|]. do 2 (split; [done|]). intros n'. by eapply to_cache_changed.
Qed.
Lemma run_setCState n id k l t x x' :
  node_wf n → s_cntlrs U !! id = Some k → nslot n (m_master k) l = Some (t, x) →
  run n (upd_block id l (setCState x')) (λ _, changed (m_master k) l (t, x') n).
Proof. intros. by eapply run_upd_block. Qed.
(** An update that keeps the tag and the state. *)
Lemma run_upd_block_same n id k l t x f :
  node_wf n → s_cntlrs U !! id = Some k → nslot n (m_master k) l = Some (t, x) →
  (∀ y, m_tag (f y) = m_tag y) → (∀ y, m_cstate (f y) = m_cstate y) →
  run n (upd_block id l f) (λ _, same n).
Proof.
  intros Hwf Hk Hl Hf Hfx. eapply run_conseq; [eapply (run_upd_block n id k l t x f x); try done|].
  - intros y <-. apply Hfx.
  - intros u n' _. by apply changed_id.
Qed.
Lemma run_getCacheState n id k a :
  node_wf n → s_cntlrs U !! id = Some k → in_u64 a →
  run n (getCacheState id a) (λ x n', n' = n ∧ state_in n (m_master k) (tag a) x).
Proof.
  intros Hwf Hk Ha. unfold getCacheState. eapply run_bind; [by eapply run_getCacheBlockInfo|].
  intros loc n' _ [-> [x Hx]]. eapply run_conseq; [by eapply run_block_state|]. intros y n' _ [-> ->].
  split; [done|]. by eapply located_state.
Qed.
Lemma run_permissible n id k a op :
  node_wf n → s_cntlrs U !! id = Some k → in_u64 a →
  run n (operationPermissibleinCache id a op) (λ b n', n' = n ∧ ∃ x, state_in n (m_master k) (tag a) x ∧ b = permitted op x).
Proof.
  intros Hwf Hk Ha. unfold operationPermissibleinCache. eapply run_bind; [by eapply run_getCacheState|].
  intros x n' _ [-> Hx]. apply run_ret; eauto.
Qed.
Lemma run_setCacheState n id k a l x x' :
  node_wf n → s_cntlrs U !! id = Some k → in_u64 a → nslot n (m_master k) l = Some (tag a, x) →
  run n (setCacheState id a x') (λ l' n', l' = l ∧ changed (m_master k) l (tag a, x') n n').
Proof.
  intros Hwf Hk Ha Hl. unfold setCacheState. eapply run_bind; [by eapply run_getCacheBlockInfo|].
  intros [l'|] n' _ [-> [y Hy]]; [|by destruct Hy as [Hy _]; destruct (Hy _ _ Hl)].
  destruct (slot_uniq n _ l l' _ _ _ Hwf (tag_valid a Ha) Hl Hy) as [<- <-].
  eapply run_bind; [by eapply run_setCState|]. intros u n' Hn' Hc. by apply run_ret.
Qed.
Lemma run_setBlockOption n id k a l x o :
  node_wf n → s_cntlrs U !! id = Some k → in_u64 a → nslot n (m_master k) l = Some (tag a, x) →
  run n (setBlockOption id a o) (λ _, same n).
Proof.
  intros Hwf Hk Ha Hl. unfold setBlockOption. eapply run_bind; [by eapply run_getCacheBlockInfo|].
  intros [l'|] n' _ [-> [y Hy]]; [|by destruct Hy as [Hy _]; destruct (Hy _ _ Hl)].
  by eapply run_upd_block_same.
Qed.
Lemma run_invalidateCacheBlock n id k a l x :
  node_wf n → s_cntlrs U !! id = Some k → in_u64 a → nslot n (m_master k) l = Some (tag a, x) →
  x ≠ CacheState.MODIFIED → x ≠ CacheState.INVALID →
  run n (invalidateCacheBlock id a) (λ _, changed (m_master k) l (INVALID_TAG, CacheState.INVALID) n).
Proof.
  intros Hwf Hk Ha Hl H1 H2. unfold invalidateCacheBlock. eapply run_bind; [by eapply run_getCacheState|].
  intros y n' _ [-> Hy]. assert (y = x) as ->.
  { eapply (state_uniq n); [done|by apply (tag_valid a)|done|]. left. by eexists. }
  rewrite !bool_decide_false by done. do 2 (eapply run_lift; [done|]).
  apply (run_on_cache n id k); [done..|]. intros m Hm Hok. right.
  unfold nslot in Hl. rewrite Hm in Hl. simpl in Hl. rewrite <- (tag_master _ m a Hok) in Hl.
  destruct (invalidate_slot _ (m_cache m) a l x (m_wf _ _ Hok) Ha Hl) as (r & c & He & Hc & Hb & Hs & Hr).
  exists tt, c. rewrite He. split; [done|]. do 2 (split; [done|]). intros n'. by eapply to_cache_changed.
Qed.

(** ** Data *)
Lemma land_block a : in_u64 a → Z.land a (u32 (B - 1)) = a mod B.
Proof.
  intros Ha. pose proof (t_block U HS). unfold in_u64 in Ha. apply land_pred_mod; [lia..|apply (t_power U HS)].
Qed.
Lemma aligned_land a : line_address B a → Z.land a (u32 (B - 1)) = 0.
Proof.
  intros [Ha Hm]. by rewrite land_block.
Qed.
Lemma aligned_offset a off len :
  line_address B a → 0 ≤ off → 0 < len → off + len ≤ B →
  u64 (a + off) = a + off ∧ in_u64 (a + off) ∧ tag (a + off) = tag a ∧ Z.land (a + off) (u32 (B - 1)) = off.
Proof.
  intros [Ha Hm] Ho Hl Hol. pose proof (t_block U HS) as Hb. pose proof (t_power U HS) as Hp.
  set (p := Z.log2 B) in *. assert (0 ≤ p < 31).
  { split; [apply Z.log2_nonneg|]. apply Z.log2_lt_pow2; lia. }
  assert (H64 : 2 ^ 64 = B * 2 ^ (64 - p)) by (rewrite Hp, <- Z.pow_add_r by lia; f_equal; lia).
  pose proof (Z.div_mod a B ltac:(lia)) as Hd. unfold in_u64 in *.
  assert (Hq : a / B < 2 ^ (64 - p)) by (apply Z.div_lt_upper_bound; lia).
  assert (Hr : 0 ≤ a + off < 2 ^ 64) by nia.
  assert (Hmod : (a + off) mod B = off).
  { rewrite <- Zplus_mod_idemp_l, Hm, Z.add_0_l. apply Z.mod_small. lia. }
  split; [by apply u64_id|]. split; [done|]. split.
  - unfold tag. symmetry. apply (Z.div_unique _ _ _ off); lia.
  - by rewrite land_block.
Qed.
Lemma run_retrieveCacheBlock n id k a upd l x :
  node_wf n → s_cntlrs U !! id = Some k → line_address B a → nslot n (m_master k) l = Some (tag a, x) →
  run n (retrieveCacheBlock id a upd) (λ buf n', same n n' ∧ Z.of_nat (length buf) = B).
Proof.
  intros Hwf Hk Ha Hl. destruct (cntlr_master _ _ Hk) as [_ Hok]. unfold retrieveCacheBlock.
  eapply run_bind; [by eapply run_cntlr|]. intros c n' _ [-> (st & w & ->)]. apply run_gets. simpl.
  rewrite (k_block _ _ Hok). rewrite (n_env_eq n Hwf). pose proof (t_block U HS) as Hb.
  eapply run_bind with (Q := λ r n', same n n' ∧ is_Some r.1 ∧ (∀ o, r.2 = Some o → Z.of_nat (length o) = B)).
  - apply (run_on_cache n id k); [done..|]. intros m Hm Hmok. right.
    destruct (access_slot _ (m_cache m) a (LOAD true) B upd (m_wf _ _ Hmok)) as (loc & out & c & He & Hc & Hbase & Hs & Hp & Ho);
      [apply Ha| |done|].
    { split; [lia|]. rewrite (m_block _ _ Hmok), aligned_land by done. lia. }
    exists (loc, out), c. rewrite He. split; [done|]. do 2 (split; [done|]). intros n' Hn'. simpl.
    split; [by eapply to_cache_same|]. split; [|done].
    destruct (peek_slot _ (m_cache m) a (m_wf _ _ Hmok) (proj1 Ha)) as [_ [(l' & y & Hp' & _)|[_ Hno]]].
    + assert (loc = Some l') as -> by congruence. by eexists.
    + destruct (Hno l x). rewrite (tag_master _ _ _ Hmok). unfold nslot in Hl. by rewrite Hm in Hl.
  - intros [loc out] n' Hn' (Hs & Hl' & Ho). simpl in *. rewrite bool_decide_true by done.
    eapply run_lift; [done|]. apply run_ret; [done|]. split; [done|].
    destruct out; simpl; [by apply Ho|apply (t_uninit U HS)].
Qed.
Lemma run_write_own n id k a off data len l :
  node_wf n → s_cntlrs U !! id = Some k → line_address B a → 0 ≤ off → 0 < len → off + len ≤ B →
  (∀ d, data = Some d → len ≤ Z.of_nat (length d)) →
  nslot n (m_master k) l = Some (tag a, CacheState.MODIFIED) →
  run n (write_own id a off data len) (λ _, same n).
Proof.
  intros Hwf Hk Ha Ho Hlen Hol Hd Hl.
  destruct (aligned_offset a off len Ha Ho Hlen Hol) as (Hu & Hr & Ht & Hland). unfold write_own. rewrite Hu.
  eapply run_bind with (Q := λ r n', same n n' ∧ r = Some l).
  - apply (run_on_cache n id k); [done..|]. intros m Hm Hmok. right.
    destruct (access_slot _ (m_cache m) (a + off) (STORE data) len false (m_wf _ _ Hmok)) as (loc & out & c & He & Hc & Hbase & Hs & Hp & _);
      [done| |naive_solver|].
    { split; [lia|]. rewrite (m_block _ _ Hmok), Hland. lia. }
    exists loc, c. rewrite He. split; [done|]. do 2 (split; [done|]). intros n' Hn'.
    split; [by eapply to_cache_same|]. unfold nslot in Hl. rewrite Hm in Hl. simpl in Hl.
    destruct (peek_slot _ (m_cache m) (a + off) (m_wf _ _ Hmok) Hr) as [Hi [(l' & y & Hp' & Hl')|[_ Hno]]];
      rewrite (tag_master _ _ _ Hmok), Ht in *.
    + destruct (slot_unique _ (m_cache m) l l' _ _ _ (m_wf _ _ Hmok) Hl Hl' Hi) as [<- _]. congruence.
    + by destruct (Hno l CacheState.MODIFIED).
  - intros r n' Hn' [Hs ->]. rewrite bool_decide_true by (by eexists). eapply run_lift; [done|].
    eapply run_bind; [eapply run_block_state; [done..|simpl; destruct Hs as [Hs _]; by rewrite Hs]|].
    intros y n2 _ [-> ->]. rewrite bool_decide_true by done. by apply run_ret.
Qed.
(** The write-back of a first-level cache to the last level. *)
Lemma run_writeCacheBlock n id k a off data len fuel :
  node_wf n → s_cntlrs U !! id = Some k → is_llc U id → line_address B a →
  0 ≤ off → 0 < len → off + len ≤ B → (∀ d, data = Some d → len ≤ Z.of_nat (length d)) →
  (nevict n = Some a ∧ off = 0 ∧ len = B) ∨ holds n L (tag a) CacheState.MODIFIED → (0 < fuel)%nat →
  (∀ a', nevict n = Some a' → a' = a → off = 0 ∧ len = B) →
  run n (writeCacheBlock fuel id a off data len) (λ _, same n).
Proof.
  intros Hwf Hk (k' & Hk' & _ & Hm & Hwt) Ha Ho Hlen Hol Hd Hcase Hfuel Hev. assert (k' = k) by congruence. subst k'.
  destruct fuel as [|fuel]; [lia|]. simpl. destruct (cntlr_master _ _ Hk) as [_ Hok].
  eapply run_bind; [by eapply run_cntlr|]. intros c n' _ [-> (st & w & ->)]. simpl.
  eapply run_bind; [by eapply run_master|]. intros m n' _ [-> Hmm].
  rewrite (k_block _ _ Hok), Hwt.
  eapply run_bind with (Q := λ _, same n); [|intros u n' Hn' Hs; by apply run_ret].
  assert (Hown : nevict n ≠ Some a → run n (write_own id a off data len) (λ _, same n)).
  { intros Hne. destruct Hcase as [[? _]|[l Hl]]; [done|]. rewrite <- Hm in Hl. by eapply run_write_own. }
  unfold nevict in *. rewrite <- Hm, Hmm in *. simpl in *.
  destruct (m_evicting_buf m) as [buf|] eqn:Hbuf; [|by apply Hown].
  destruct (a =? m_evicting_address m) eqn:Hea; [|apply Hown; simpl; intros [=]; lia].
  apply Z.eqb_eq in Hea. destruct (Hev (m_evicting_address m) eq_refl (eq_sym Hea)) as [-> ->].
  rewrite !Z.eqb_refl. do 2 (eapply run_lift; [done|]). destruct data as [d|]; [|by apply run_ret].
  apply (run_upd_master n id k); [done..|]. intros m' Hm'. assert (m' = m) by congruence. subst m'.
  pose proof (n_master n Hwf _ m Hmm) as [M1 M2 M3 M4 M5 M6 M7 M8]. pose proof (Hd d eq_refl) as Hdl.
  pose proof (M4 buf Hbuf) as Hbl. split; [|split; [done|]].
  - constructor; try done; simpl.
    intros b' [= <-]. rewrite length_app, length_take, length_drop. lia.
  - split; [|split].
    + intros mi l. rewrite (put_nslot _ _ _ _ _ _ Hmm). case_decide; [|done]. subst. unfold nslot. by rewrite Hmm.
    + intros a'. unfold nwait. rewrite (masters_insert _ _ _ _ _ Hmm), <- Hm, decide_True by done. by rewrite Hmm.
    + unfold nevict. rewrite (masters_insert _ _ _ _ _ Hmm), <- Hm, decide_True by done. rewrite Hmm. simpl.
      rewrite Hbuf. simpl. by rewrite Hea.
Qed.

(** ** Changes of state *)
Lemma run_count_update n id k reason b new :
  node_wf n → s_cntlrs U !! id = Some k → run n (count_update id reason b new) (λ _, same n).
Proof.
  intros Hwf Hk. unfold count_update. eapply run_bind with (Q := λ _, same n).
  - apply run_when; [done| |done]. intros _.
    eapply run_same; [done|done|by eapply run_add_stat|]. intros u1 n1 H1 S1.
    eapply run_same; [done|exact S1| |].
    { apply run_when; [done|intros _; by eapply run_add_stat|done]. }
    intros u2 n2 H2 S2. apply run_when; [done| |done]. intros _.
    eapply run_conseq; [by eapply run_add_stat|]. intros u3 n3 _ S3. by etrans.
  - intros u1 n1 H1 S1. case_bool_decide.
    + eapply run_conseq; [by eapply run_add_stat|]. intros u3 n3 _ S3. by etrans.
    + apply run_when; [done| |done]. intros _.
      eapply run_conseq; [by eapply run_add_stat|]. intros u3 n3 _ S3. by etrans.
Qed.

(** What a line becomes. *)
Definition becomes (t : Z) x : Z * cstate_t :=
  if bool_decide (x = CacheState.INVALID) then (INVALID_TAG, CacheState.INVALID) else (t, x).
Definition settable x : Prop :=
  x = CacheState.INVALID ∨ x = CacheState.SHARED ∨ x = CacheState.MODIFIED ∨
  (x = CacheState.EXCLUSIVE ∧ E (ErrLog "Cannot change block status")).
(** A modified line can be written back. *)
Definition can_write_back n (k : CacheCntlr) a (out : bool) : Prop :=
  if m_cache_writethrough k then True
  else match m_next_cache_cntlr k with
       | Some next => is_llc U next ∧ (nevict n = Some a ∨ holds n L (tag a) CacheState.MODIFIED)
       | None => out = true ∨ E (ErrLog "MODIFIED data is about to get lost!")
       end.

Lemma slot_same n n' mi l v : same n n' → nslot n mi l = v → nslot n' mi l = v.
Proof. intros [Hs _] <-. apply Hs. Qed.
Lemma holds_same n n' mi t x : same n n' → holds n mi t x → holds n' mi t x.
Proof. intros Hs [l Hl]. exists l. by eapply slot_same. Qed.

Lemma run_write_back n id k a out l :
  node_wf n → s_cntlrs U !! id = Some k → line_address B a → can_write_back n k a out →
  nslot n (m_master k) l = Some (tag a, CacheState.MODIFIED) →
  run n (if m_cache_writethrough k then ret (None, false)
         else match m_next_cache_cntlr k with
              | Some next =>
                  let! data_buf := retrieveCacheBlock id a false in
                  let! fuel := depth in
                  writeCacheBlock fuel next a 0 (Some data_buf) (m_cc_block_size k);!
                  ret (None, true)
              | None =>
                  if out then let! data_buf := retrieveCacheBlock id a false in ret (Some data_buf, true)
                  else fail (ErrLog "MODIFIED data is about to get lost!")
              end) (λ _, same n).
Proof.
  intros Hwf Hk Ha Hwb Hl. unfold can_write_back in Hwb. destruct (m_cache_writethrough k); [by apply run_ret|].
  destruct (m_next_cache_cntlr k) as [next|].
  - destruct Hwb as [Hllc Hwb]. pose proof Hllc as (k' & Hk' & _). destruct (cntlr_master _ _ Hk) as [_ Hok].
    eapply run_bind; [by eapply run_retrieveCacheBlock|]. intros buf n1 H1 [S1 Hbuf].
    eapply run_bind; [by apply run_depth|]. intros fuel n1' _ [-> ->]. pose proof (t_block U HS) as Hb.
    eapply run_same; [done|exact S1| |].
    { rewrite (k_block _ _ Hok). eapply run_writeCacheBlock; [done|done|done|done|lia..| | | |].
      - intros d [= <-]. lia.
      - destruct Hwb as [Hev|Hh]; [left|right; by eapply holds_same].
        destruct S1 as (_ & _ & Hs). by rewrite Hs.
      - pose proof (t_depth U HS). lia.
      - done. }
    intros u n2 H2 S2. by apply run_ret.
  - destruct out; [|apply run_fail; by destruct Hwb].
    eapply run_bind; [by eapply run_retrieveCacheBlock|]. intros buf n1 H1 [S1 _]. by apply run_ret.
Qed.
Lemma run_change_state n id k a new reason out l x :
  node_wf n → s_cntlrs U !! id = Some k → line_address B a → settable new →
  nslot n (m_master k) l = Some (tag a, x) → x ≠ CacheState.INVALID →
  (x = CacheState.MODIFIED → can_write_back n k a out) →
  run n (change_state id a new reason out l)
    (λ _ n', changed (m_master k) l (becomes (tag a) new) n n').
Proof.
  intros Hwf Hk Ha Hnew Hl Hx Hwb. destruct (cntlr_master _ _ Hk) as [_ Hok]. unfold change_state.
  eapply run_bind; [by eapply run_cntlr|]. intros c n' _ [-> (st & w & ->)]. simpl.
  eapply run_bind; [by eapply run_block_at|]. intros b n' _ (-> & _ & Hbx).
  eapply run_same; [done|done|by eapply run_count_update|]. intros u1 n1 H1 S1.
  pose proof (slot_same _ _ _ _ _ S1 Hl) as Hl1. rewrite Hbx.
  eapply run_bind with (Q := λ _ n', ∃ y, changed (m_master k) l (tag a, y) n n' ∧ y ≠ CacheState.MODIFIED ∧ y ≠ CacheState.INVALID).
  { case_bool_decide as Hm.
    - rewrite Hm in *. eapply run_same; [done|exact S1|eapply run_write_back; try done|].
      { specialize (Hwb eq_refl). unfold can_write_back in *. destruct (m_cache_writethrough k); [done|].
        destruct (m_next_cache_cntlr k); [|done]. destruct Hwb as [? [He|Hh]]; split; [done| |done|].
        - left. destruct S1 as (_ & _ & Hs). by rewrite Hs.
        - right. by eapply holds_same. }
      intros r n2 H2 S2. eapply run_bind; [eapply run_setCState; [done..|by eapply slot_same]|].
      intros u n3 H3 C3. apply run_ret; [done|]. exists CacheState.SHARED. split; [|done]. by eapply same_changed.
    - apply run_ret; [done|]. exists x. split; [|done]. split; [done|]. destruct S1 as (S1 & S2 & S3).
      split; [|done]. intros. apply S1. }
  intros r1 n2 H2 (y & C2 & Hy1 & Hy2). pose proof C2 as (Hl2 & _).
  eapply run_bind with (Q := λ _ n', changed (m_master k) l (tag a, y) n n').
  { destruct (out && _); [|by apply run_ret]. eapply run_bind; [by eapply run_retrieveCacheBlock|].
    intros buf n3 H3 [S3 _]. apply run_ret; [done|]. by eapply changed_same. }
  intros r2 n3 H3 C3. pose proof C3 as (Hl3 & _).
  eapply run_bind with (Q := λ _ n', changed (m_master k) l (becomes (tag a) new) n n').
  { destruct Hnew as [->|[->|[->|[-> Hf]]]]; unfold becomes; simpl; [| | |by apply run_fail].
    - rewrite (k_coherent _ _ Hok). simpl.
      eapply run_conseq; [eapply run_invalidateCacheBlock; [done|done|apply Ha|done..]|]. intros u n4 _ C4. by eapply changed_changed.
    - eapply run_conseq; [by eapply run_setCState|]. intros u n4 _ C4. by eapply changed_changed.
    - eapply run_conseq; [by eapply run_setCState|]. intros u n4 _ C4. by eapply changed_changed. }
  intros u n4 H4 C4. by apply run_ret.
Qed.

(** ** Snoops

    The line with tag [t] changes to state [x] in the caches of a list, if it
    is there; nothing else changes. *)
Definition remap (t : Z) x (v : option (Z * cstate_t)) : option (Z * cstate_t) :=
  match v with Some (t', _) => if decide (t' = t) then Some (becomes t x) else v | None => None end.
Definition snooped (ms : list nat) (t : Z) x n n' : Prop :=
  (∀ mi l, nslot n' mi l = if decide (mi ∈ ms) then remap t x (nslot n mi l) else nslot n mi l) ∧
  (∀ a, nwait n' a = nwait n a) ∧ nevict n' = nevict n.
Lemma snooped_nil t x n n' : same n n' → snooped [] t x n n'.
Proof. intros (H1 & H2 & H3). split; [|done]. intros mi l. by rewrite decide_False by set_solver. Qed.
Lemma snooped_same ms t x n n1 n2 : snooped ms t x n n1 → same n1 n2 → snooped ms t x n n2.
Proof.
  intros (H1 & H2 & H3) (S1 & S2 & S3). split; [|split]; intros.
  - by rewrite S1, H1.
  - by rewrite S2.
  - by rewrite S3.
Qed.
Lemma same_snooped ms t x n n1 n2 : same n n1 → snooped ms t x n1 n2 → snooped ms t x n n2.
Proof.
  intros (S1 & S2 & S3) (H1 & H2 & H3). split; [|split]; intros.
  - by rewrite H1, S1.
  - by rewrite H2.
  - by rewrite H3.
Qed.
Lemma snooped_app ms ms' t x n n1 n2 :
  (∀ mi, mi ∈ ms → mi ∉ ms') → snooped ms t x n n1 → snooped ms' t x n1 n2 → snooped (ms ++ ms') t x n n2.
Proof.
  intros Hd (H1 & H2 & H3) (G1 & G2 & G3). split; [|split]; intros.
  - rewrite G1, H1. destruct (decide (mi ∈ ms)) as [Hi|Hi].
    + rewrite decide_False by auto. by rewrite decide_True by set_solver.
    + destruct (decide (mi ∈ ms')); [by rewrite decide_True by set_solver|by rewrite decide_False by set_solver].
  - by rewrite G2.
  - by rewrite G3.
Qed.
(** Changing the one slot of the line, or nothing, is such a step. *)
Lemma snooped_one mi a x loc y n n' :
  node_wf n → in_u64 a → located n mi (tag a) loc y →
  match loc with Some l => changed mi l (becomes (tag a) x) n n' | None => same n n' end →
  snooped [mi] (tag a) x n n'.
Proof.
  intros Hwf Ha Hloc Hc. pose proof (tag_valid a Ha) as Ht. destruct loc as [l|].
  - destruct Hc as (C1 & C2 & C3 & C4). split; [|by split]. intros mi' l'. simpl in Hloc.
    destruct (decide (mi' ∈ [mi])) as [->%list_elem_of_singleton|Hn]; [|apply C2; set_solver].
    destruct (decide (l' = l)) as [->|Hne]; [rewrite C1, Hloc; simpl; by rewrite decide_True|].
    rewrite C2 by auto. destruct (nslot n mi l') as [[t' z]|] eqn:Hl'; [|done]. simpl. case_decide; [|done]. subst t'.
    by destruct (slot_uniq n mi l l' _ _ _ Hwf Ht Hloc Hl') as [-> _].
  - destruct Hc as (C1 & C2 & C3). destruct Hloc as [Hno _]. split; [|by split]. intros mi' l'. rewrite C1.
    case_decide as Hm; [|done]. apply list_elem_of_singleton in Hm as ->.
    destruct (nslot n mi l') as [[t' z]|] eqn:Hl'; [|done]. simpl. case_decide; [|done]. subst t'. by destruct (Hno l' z).
Qed.

(** [updateCacheBlock] after the loop over the previous levels. *)
Definition update_own id (c : CacheCntlr) a new reason (out : bool) (prev : bool) : M (Z * bool * option (list Z)) :=
  let! loc := getCacheBlockInfo id a in
  let! old_cstate := block_state id loc in
  let! w :=
    match loc with
    | None => ret (None, false)
    | Some l =>
        if bool_decide (new = old_cstate) && out then
          let! data_buf := retrieveCacheBlock id a false in ret (Some data_buf, true)
        else change_state id a new reason out l
    end in
  let! s := getCacheState id a in
  lift (log_assert (bool_decide (s = CacheState.INVALID) || bool_decide (s = new) || negb (m_coherent c))
          "state didn't change as we wanted");!
  let! current_cstate := block_state id loc in
  lift (log_assert (bool_decide (current_cstate = CacheState.INVALID) ||
                    bool_decide (current_cstate = new) || negb (m_coherent c))
          "state didn't change as we wanted");!
  lift (log_assert (negb out || bool_decide (is_Some w.1)) "out_buf passed in but never written to");!
  let! latency := (if w.2 : bool then writeback_latency id else ret Zero) in
  ret (latency, prev || w.2, w.1).

(** What [updateCacheBlock] relies on in a cache. *)
Definition updatable n (k : CacheCntlr) a (out : bool) : Prop :=
  ∀ x, holds n (m_master k) (tag a) x →
    x ≠ CacheState.INVALID ∧ (x = CacheState.MODIFIED → can_write_back n k a out).

Lemma run_update_own n id k c a new reason out prev :
  node_wf n → s_cntlrs U !! id = Some k → cfg k c → line_address B a → settable new → updatable n k a out →
  (out = true → E (ErrLog "out_buf passed in but never written to")) →
  run n (update_own id c a new reason out prev) (λ _ n', snooped [m_master k] (tag a) new n n').
Proof.
  intros Hwf Hk (st & w & ->) Ha Hnew Hup Hout. unfold update_own. simpl.
  eapply run_bind; [eapply run_getCacheBlockInfo; [done..|apply Ha]|]. intros loc n' _ [-> [x Hx]].
  eapply run_bind; [by eapply run_block_state|]. intros y n' _ [-> ->].
  eapply run_bind with (Q := λ w n', match loc with Some l => changed (m_master k) l (becomes (tag a) new) n n' | None => same n n' end).
  { destruct loc as [l|]; [|by apply run_ret]. simpl in Hx. destruct (Hup x) as [Hi Hwb]; [by exists l|].
    destruct (bool_decide (new = x) && out) eqn:Hc.
    - apply andb_true_iff in Hc as [->%bool_decide_eq_true ->].
      eapply run_bind; [by eapply run_retrieveCacheBlock|]. intros buf n1 H1 [S1 _]. apply run_ret; [done|].
      eapply changed_same; [|exact S1]. unfold becomes. rewrite bool_decide_false by done. done.
    - by eapply run_change_state. }
  intros r n1 H1 Hc. pose proof (snooped_one _ a new loc x n n1 Hwf (proj1 Ha) Hx Hc) as Hs.
  assert (Hloc : ∃ t' y, located n1 (m_master k) t' loc y ∧ (y = CacheState.INVALID ∨ y = new)).
  { destruct loc as [l|]; simpl.
    - destruct Hc as (Hc & _). unfold becomes in Hc. case_bool_decide; eauto 10.
    - exists (tag a), CacheState.INVALID. split; [|by left]. split; [|done]. destruct Hx as [Hx _], Hc as [Hc _].
      intros l z. rewrite Hc. apply Hx. }
  destruct Hloc as (t' & z & Hz & Hzn).
  eapply run_bind; [eapply run_getCacheState; [done..|apply Ha]|]. intros s n' _ [-> Hst].
  assert (Hsn : s = CacheState.INVALID ∨ s = new).
  { destruct Hst as [[l Hl]|[_ ->]]; [|by left]. destruct Hs as (Hs & _). rewrite Hs in Hl.
    rewrite decide_True in Hl by set_solver. unfold remap in Hl. destruct (nslot n (m_master k) l) as [[t0 x0]|]; [|done].
    case_decide; [|congruence]. unfold becomes in Hl. case_bool_decide; simplify_eq; auto. }
  assert (∀ s, s = CacheState.INVALID ∨ s = new → bool_decide (s = CacheState.INVALID) || bool_decide (s = new) || negb (m_coherent k) = true) as Hb.
  { intros s' [-> | ->]; [done|]. by rewrite (bool_decide_true (new = new)), orb_true_r. }
  rewrite Hb by done. eapply run_lift; [done|]. eapply run_bind; [by eapply run_block_state|].
  intros z' n' _ [-> ->]. rewrite Hb by done. eapply run_lift; [done|].
  apply run_assert; [by destruct out; auto|]. intros _.
  eapply run_bind with (Q := λ _ n', n' = n1).
  { destruct (r.2); [by eapply run_writeback_latency|by apply run_ret]. }
  intros lat n' _ ->. by apply run_ret.
Qed.

Lemma settable_index x : settable x → (state_index x <? 6)%nat = true.
Proof. by intros [-> | [-> | [-> | [-> _]]]]. Qed.
Lemma l1_lookup id k : is_l1 U id → s_cntlrs U !! id = Some k →
  ∃ next, m_next_cache_cntlr k = Some next ∧ is_llc U next ∧ m_master k ≠ L ∧ s_prev U !! m_master k = Some [].
Proof. intros (k' & nx & Hk' & Hn) Hk. assert (k' = k) by congruence. subst. eauto. Qed.
Lemma llc_lookup id k : is_llc U id → s_cntlrs U !! id = Some k →
  m_next_cache_cntlr k = None ∧ m_master k = L ∧ m_cache_writethrough k = false.
Proof. intros (k' & Hk' & Hn) Hk. assert (k' = k) by congruence. by subst. Qed.

Lemma run_update_l1 n id k fuel a new reason th :
  node_wf n → s_cntlrs U !! id = Some k → is_l1 U id → line_address B a → settable new →
  updatable n k a false → (0 < fuel)%nat →
  run n (updateCacheBlock fuel id a new reason false th) (λ _ n', snooped [m_master k] (tag a) new n n').
Proof.
  intros Hwf Hk Hl1 Ha Hnew Hup Hf. destruct fuel as [|fuel]; [lia|].
  cbn [updateCacheBlock]. rewrite (settable_index _ Hnew). eapply run_lift; [done|].
  eapply run_bind; [by eapply run_cntlr|]. intros c n' _ [-> Hc].
  eapply run_bind; [by eapply run_master|]. intros m n' _ [-> Hm].
  destruct (l1_lookup id k Hl1 Hk) as (nx & _ & _ & _ & Hp). pose proof (prev_of n _ m Hwf Hm) as Hp'.
  assert (m_prev_cache_cntlrs m = []) as -> by congruence. cbn [for_prev].
  eapply run_bind with (Q := λ _ n', n' = n); [by apply run_ret|]. intros r n' _ ->.
  by apply (run_update_own n id k c a new reason false r.2).
Qed.

(** The first-level caches of a list can be snooped. *)
Definition snoopable n a (ids : list nat) : Prop :=
  ∀ i k, i ∈ ids → s_cntlrs U !! i = Some k → is_l1 U i ∧ updatable n k a false.
Lemma master_of_eq id k : s_cntlrs U !! id = Some k → master_of U id = m_master k.
Proof. unfold master_of. by intros ->. Qed.
Lemma l1_some id : is_l1 U id → ∃ k, s_cntlrs U !! id = Some k.
Proof. intros (k & nx & Hk & _). eauto. Qed.
Lemma llc_some id : is_llc U id → ∃ k, s_cntlrs U !! id = Some k.
Proof. intros (k & Hk & _). eauto. Qed.

(** The last level is not snooped. *)
Lemma updatable_snooped n n' ms k a t x :
  m_master k ∉ ms → L ∉ ms → snooped ms t x n n' → updatable n k a false → updatable n' k a false.
Proof.
  intros Hn HL (H1 & H2 & H3) Hup y [l Hl]. rewrite H1, decide_False in Hl by done.
  destruct (Hup y) as [Hi Hw]; [by exists l|]. split; [done|]. intros Hm. specialize (Hw Hm).
  unfold can_write_back in *. destruct (m_cache_writethrough k); [done|].
  destruct (m_next_cache_cntlr k); [|done]. rewrite H3. destruct Hw as [? [?|[l' Hl']]]; split; auto.
  right. exists l'. by rewrite H1, decide_False by done.
Qed.
Lemma run_for_prev n fuel ids a new reason th :
  node_wf n → line_address B a → settable new → (0 < fuel)%nat → NoDup (master_of U <$> ids) →
  (∀ i, i ∈ ids → is_l1 U i) → snoopable n a ids →
  run n (for_prev (λ i, let! r := updateCacheBlock fuel i a new reason false th in ret r.1) ids)
    (λ _ n', snooped (master_of U <$> ids) (tag a) new n n').
Proof.
  intros Hwf Ha Hnew Hf. revert n Hwf. induction ids as [|i ids IH]; intros n Hwf Hnd Hl1 Hsn; cbn [for_prev].
  { apply run_ret; [done|]. by apply snooped_nil. }
  destruct (l1_some i) as [k Hk]; [by apply Hl1; left|]. apply NoDup_cons in Hnd as [Hni Hnd].
  assert (Hli : is_l1 U i) by (by apply Hl1; left). assert (Hmi := master_of_eq i k Hk).
  destruct (l1_lookup i k Hli Hk) as (_ & _ & _ & HnL & _).
  eapply run_bind with (Q := λ _ n', snooped [m_master k] (tag a) new n n').
  { eapply run_bind; [eapply run_update_l1; try done; by apply (Hsn i k); [left|]|].
    intros r n1 H1 S1. by apply run_ret. }
  intros r n1 H1 S1. eapply run_bind; [apply IH; try done|].
  - intros j Hj. apply Hl1. by right.
  - intros j kj Hj Hkj. destruct (Hsn j kj) as [Hlj Hup]; [by right|done|]. split; [done|].
    eapply updatable_snooped; [| |done|done]; intros Hin%list_elem_of_singleton; [|done].
    apply Hni. rewrite Hmi, <- Hin, <- (master_of_eq j kj Hkj). by apply list_elem_of_fmap_2.
  - intros rest n2 H2 S2. apply run_ret; [done|]. rewrite fmap_cons, Hmi.
    apply (snooped_app [m_master k] (master_of U <$> ids) (tag a) new n n1 n2); [|done..].
    intros mi ->%list_elem_of_singleton. by rewrite <- Hmi.
Qed.

Lemma prevs_llc : s_prev U !! L = Some (prevs U).
Proof. unfold prevs. destruct (t_prev U HS) as [p Hp]. by rewrite Hp. Qed.
(** The previous levels of a controller. *)
Lemma prev_cases id k pv :
  s_cntlrs U !! id = Some k → s_prev U !! m_master k = Some pv →
  pv = [] ∨ pv = prevs U ∧ is_llc U id.
Proof.
  intros Hk Hp. destruct (t_cntlrs U HS id k Hk) as [_ [Hl|Hl]].
  - right. destruct (llc_lookup id k Hl Hk) as (_ & Hm & _). rewrite Hm, prevs_llc in Hp. by simplify_eq.
  - left. destruct (l1_lookup id k Hl Hk) as (_ & _ & _ & _ & Hp'). congruence.
Qed.
Definition others (requester : option nat) (pv : list nat) : list nat := filter (λ i, requester ≠ Some i) pv.
Lemma others_all pv : others None pv = pv.
Proof. unfold others. induction pv as [|i pv IH]; [done|]. rewrite filter_cons, decide_True by done. by rewrite IH. Qed.
Lemma others_nodup requester pv : NoDup (master_of U <$> pv) → NoDup (master_of U <$> others requester pv).
Proof. intros Hn. eapply sublist_NoDup; [exact Hn|]. apply fmap_sublist, sublist_filter. Qed.
Lemma prev_l1 id k pv i :
  s_cntlrs U !! id = Some k → s_prev U !! m_master k = Some pv → i ∈ pv → is_l1 U i.
Proof.
  intros Hk Hp Hi. destruct (prev_cases id k pv Hk Hp) as [->|[-> _]]; [by apply not_elem_of_nil in Hi|].
  by apply (t_prevs U HS).
Qed.
Lemma prev_nodup id k pv :
  s_cntlrs U !! id = Some k → s_prev U !! m_master k = Some pv → NoDup (master_of U <$> pv).
Proof.
  intros Hk Hp. destruct (prev_cases id k pv Hk Hp) as [->|[-> _]]; [apply NoDup_nil_2|apply (t_nodup U HS)].
Qed.
Lemma run_snoop n id k pv requester a new reason th :
  node_wf n → s_cntlrs U !! id = Some k → s_prev U !! m_master k = Some pv → line_address B a → settable new →
  snoopable n a (others requester pv) →
  run n (snoop id requester a new reason th)
    (λ _ n', snooped (master_of U <$> others requester pv) (tag a) new n n').
Proof.
  intros Hwf Hk Hp Ha Hnew Hsn. unfold snoop. eapply run_bind; [by eapply run_master|]. intros m n' _ [-> Hm].
  pose proof (prev_of n _ m Hwf Hm) as Hp'. assert (m_prev_cache_cntlrs m = pv) as -> by congruence.
  eapply run_bind; [by apply run_depth|]. intros fuel n' _ [-> ->]. pose proof (t_depth U HS) as Hd.
  fold (others requester pv).
  eapply run_bind; [apply run_for_prev; try done|].
  - lia.
  - apply others_nodup. by eapply prev_nodup.
  - intros i [_ Hi]%list_elem_of_filter. exact (prev_l1 id k pv i Hk Hp Hi).
  - intros r n1 H1 S1. eapply run_bind; [by eapply run_incrElapsedTime|]. intros u n2 H2 S2.
    eapply run_bind; [by eapply run_add_stat|]. intros u' n3 H3 S3. apply run_ret; [done|].
    eapply snooped_same; [exact S1|]. exact (same_trans _ _ _ S2 S3).
Qed.
Lemma run_updateCacheBlock n id k pv fuel a new reason out th :
  node_wf n → s_cntlrs U !! id = Some k → s_prev U !! m_master k = Some pv → line_address B a → settable new →
  snoopable n a pv →
  (∀ n', node_wf n' → snooped (master_of U <$> pv) (tag a) new n n' → updatable n' k a out) → (1 < fuel)%nat →
  (out = true → E (ErrLog "out_buf passed in but never written to")) →
  run n (updateCacheBlock fuel id a new reason out th)
    (λ _ n', snooped ((master_of U <$> pv) ++ [m_master k]) (tag a) new n n').
Proof.
  intros Hwf Hk Hp Ha Hnew Hsn Hup Hf Hout. destruct fuel as [|fuel]; [lia|].
  cbn [updateCacheBlock]. rewrite (settable_index _ Hnew). eapply run_lift; [done|].
  eapply run_bind; [by eapply run_cntlr|]. intros c n' _ [-> Hc].
  eapply run_bind; [by eapply run_master|]. intros m n' _ [-> Hm].
  pose proof (prev_of n _ m Hwf Hm) as Hp'. assert (m_prev_cache_cntlrs m = pv) as -> by congruence.
  eapply run_bind; [apply run_for_prev; try done; [lia|by eapply prev_nodup|intros i Hi; exact (prev_l1 id k pv i Hk Hp Hi)]|].
  intros r n1 H1 S1. eapply run_conseq; [apply (run_update_own n1 id k c a new reason out r.2); auto|].
  intros w n2 H2 S2. eapply snooped_app; [|exact S1|exact S2]. intros mi Hmi ->%list_elem_of_singleton.
  apply list_elem_of_fmap in Hmi as (i & Hi & Hii). pose proof (prev_l1 id k pv i Hk Hp Hii) as Hl1.
  destruct (l1_some i Hl1) as [ki Hki]. destruct (l1_lookup i ki Hl1 Hki) as (_ & _ & _ & HnL & _).
  destruct (prev_cases id k pv Hk Hp) as [->|[-> Hllc]]; [by apply not_elem_of_nil in Hii|].
  destruct (llc_lookup id k Hllc Hk) as (_ & HmL & _). rewrite (master_of_eq i ki Hki) in Hi. congruence.
Qed.

(** ** Insertion *)
Lemma tag_address mi m old ea :
  master_ok mi m → tag_ok (c_base (m_cache m)) old → tagToAddress (c_base (m_cache m)) old = Ok ea →
  line_address B ea ∧ tag ea = old.
Proof.
  intros [((_ & Hbl & Hlog & _) & _) Hb _ _ _ _ _ _] [H0 H1]. unfold tagToAddress, shl64. rewrite Hlog, Hb in *.
  case_match; [|done]. intros [= <-]. rewrite Z.shiftl_mul_pow2, <- (t_power U HS) in * by apply Z.log2_nonneg.
  pose proof (t_block U HS). rewrite u64_id by (unfold in_u64; nia). unfold line_address, tag, in_u64.
  rewrite Z.mod_mul, Z.div_mul by lia. nia.
Qed.
(** The line that was evicted, if any. *)
Definition evicted (ins : Inserted) (ea : Z) (old : Z) x : Prop :=
  if bool_decide (old = INVALID_TAG) then eviction ins = false
  else eviction ins = true ∧ getCState (evict_block_info ins) = x ∧ line_address B ea ∧ tag ea = old.
Lemma run_insert_line n id k a data q :
  node_wf n → s_cntlrs U !! id = Some k → in_u64 a → absent n (m_master k) (tag a) →
  (∀ buf, data = Some buf → B ≤ Z.of_nat (length buf)) →
  (∀ l t, nslot n (m_master k) l ≠ Some (t, CacheState.SHARED_UPGRADING)) ∨ (∀ e, E e) →
  run n (on_cache id (λ c, let? r := insertSingleLine a data evict_object true (Some q) c in
                           Ok (r.1.1, r.1.2, (sh_qbs (m_set_info r.2) - sh_qbs (m_set_info c))%nat, r.2)))
    (λ r n', ∃ l old x, nslot n (m_master k) l = Some (old, x) ∧
       changed (m_master k) l (tag a, CacheState.INVALID) n n' ∧ evicted r.1.1 r.1.2 old x ∧
       (∀ buf, evict_buff r.1.1 = Some buf → Z.of_nat (length buf) = B)).
Proof.
  intros Hwf Hk Ha Hno Hdata Hsu. apply (run_on_cache n id k); [done..|]. intros m Hm Hok.
  pose proof (insert_slot line_class_ (m_cache m) a data evict_object true q (m_wf _ _ Hok) Ha) as Hi.
  rewrite (tag_master _ m a Hok), (m_block _ _ Hok) in Hi.
  specialize (Hi ltac:(intros l x Hl; apply (Hno l x); unfold nslot; by rewrite Hm)).
  specialize (Hi eq_refl Hdata).
  destruct (insertSingleLine a data evict_object true (Some q) (m_cache m)) as [[[ins ea] c]|e]; cbn [res_bind fst snd].
  - right. destruct Hi as (Hc & Hb & (l & old & x & Hl & Hl' & Hrest & Hev) & Hbuf).
    eexists _, c. do 3 (split; [done|]). intros n' Ht. exists l, old, x. simpl.
    split; [unfold nslot; by rewrite Hm|]. split; [by eapply to_cache_changed|]. split; [|done].
    unfold evicted. case_bool_decide as Hold; [done|]. destruct Hev as (He & _ & Hx & Hta). do 2 (split; [done|]).
    eapply tag_address; [done| |done]. by eapply (slot_home _ (m_cache m) l old x (m_wf _ _ Hok)).
  - left. exists e. split; [done|]. destruct Hsu as [Hsu|He]; [|done]. destruct Hi as (l & t & Hl).
    destruct (Hsu l t). unfold nslot. by rewrite Hm.
Qed.
Lemma run_incrementQBS n id k :
  node_wf n → s_cntlrs U !! id = Some k → run n (incrementQBSLookupCost id) (λ _, same n).
Proof.
  intros Hwf Hk. unfold incrementQBSLookupCost. eapply run_bind; [by eapply run_writeback_latency|]. intros t n' _ ->.
  eapply run_bind; [by eapply run_incrElapsedTime|]. intros u n1 H1 S1.
  eapply run_conseq; [by eapply run_add_stat|]. intros u' n2 _ S2. exact (same_trans _ _ _ S1 S2).
Qed.
Lemma run_forM_same {A} n (l : list A) f :
  node_wf n → (∀ a n', node_wf n' → run n' (f a) (λ _, same n')) → run n (forM_ l f) (λ _, same n).
Proof.
  intros Hwf Hf. revert n Hwf. induction l as [|a l IH]; intros n Hwf; [by apply run_ret|]. simpl.
  eapply run_bind; [by apply Hf|]. intros u n1 H1 S1. eapply run_conseq; [by apply IH|].
  intros u' n2 _ S2. exact (same_trans _ _ _ S1 S2).
Qed.
Lemma run_when_same n b (m : M unit) : node_wf n → run n m (λ _, same n) → run n (when b m) (λ _, same n).
Proof. intros Hwf Hm. by apply run_when. Qed.

Lemma run_insertCacheBlock n id k a x data requester th (Q : Node P F D → Prop) :
  node_wf n → s_cntlrs U !! id = Some k → in_u64 a → absent n (m_master k) (tag a) →
  (∀ buf, data = Some buf → B ≤ Z.of_nat (length buf)) →
  (∀ l t, nslot n (m_master k) l ≠ Some (t, CacheState.SHARED_UPGRADING)) ∨ (∀ e, E e) →
  (∀ n1 l old y, node_wf n1 → nslot n (m_master k) l = Some (old, y) → changed (m_master k) l (tag a, x) n n1 →
     if bool_decide (old = INVALID_TAG) then Q n1
     else ∀ ea b buf, line_address B ea → tag ea = old → getCState b = y → Z.of_nat (length buf) = B →
          run n1 (evict_line id ea b buf th) (λ _, Q)) →
  run n (insertCacheBlock id a x data requester th) (λ _, Q).
Proof.
  intros Hwf Hk Ha Hno Hdata Hsu Hev. unfold insertCacheBlock.
  eapply run_bind; [by eapply run_getCacheState|]. intros s n' _ [-> [[l Hl]|[_ ->]]]; [by destruct (Hno l s)|].
  rewrite bool_decide_true by done. eapply run_lift; [done|].
  eapply run_bind; [by eapply run_cntlr|]. intros c n' _ [-> _]. apply run_gets, run_gets.
  eapply run_bind; [by eapply run_insert_line|]. intros [[ins ea] queries] n1 H1 (l & old & y & Hl & C1 & Hevd & Hbuf).
  simpl in Hevd, Hbuf. eapply run_bind; [apply run_forM_same; [done|intros ? ? ?; by eapply run_incrementQBS]|].
  intros u n2 H2 S2. pose proof (changed_same _ _ _ _ _ _ C1 S2) as C2.
  eapply run_bind; [eapply run_setCacheState; [done..|apply C2]|]. intros l' n3 H3 [-> C3].
  pose proof (changed_changed _ _ _ _ _ _ _ C2 C3) as C4.
  eapply run_bind; [apply run_when_same; [done|eapply run_upd_block_same; [done..|apply C4|done|done]]|].
  intros u4 n4 H4 S4. pose proof (changed_same _ _ _ _ _ _ C4 S4) as C5.
  eapply run_bind; [apply run_when_same; [done|eapply run_upd_block_same; [done..|apply C5|done|done]]|].
  intros u5 n5 H5 S5. pose proof (changed_same _ _ _ _ _ _ C5 S5) as C6.
  specialize (Hev n5 l old y H5 Hl C6). unfold evicted in Hevd. case_bool_decide as Hold.
  - rewrite Hevd. simpl. eapply run_bind with (Q := λ _, Q); [by apply run_ret|]. intros u6 n6 H6 HQ. by apply run_ret.
  - destruct Hevd as (-> & Hy & Hea & Ht). simpl.
    eapply run_bind; [apply (Hev ea); try done|].
    + destruct (evict_buff ins) as [b|]; simpl; [by apply Hbuf|]. rewrite (n_env_eq n Hwf). apply (t_uninit U HS).
    + intros u6 n6 H6 HQ. by apply run_ret.
Qed.

(** *** Eviction *)
Definition evicting (v : option Z) n n' : Prop :=
  (∀ mi l, nslot n' mi l = nslot n mi l) ∧ (∀ a, nwait n' a = nwait n a) ∧ nevict n' = v.
Lemma run_set_evicting n id k a buf :
  node_wf n → s_cntlrs U !! id = Some k → m_master k = L → (∀ b, buf = Some b → Z.of_nat (length b) = B) →
  run n (upd_master id (set_evicting a buf)) (λ _, evicting ((λ _, a) <$> buf) n).
Proof.
  intros Hwf Hk HL Hb. apply (run_upd_master n id k); [done..|]. intros m Hm.
  pose proof (n_master n Hwf _ m Hm) as [M1 M2 M3 M4 M5 M6 M7 M8]. split; [|split; [done|]].
  - by constructor.
  - split; [|split].
    + intros mi l. rewrite (put_nslot _ _ _ _ _ _ Hm). case_decide; [|done]. subst. unfold nslot. by rewrite Hm.
    + intros a'. unfold nwait. rewrite (masters_insert _ _ _ _ _ Hm), HL, decide_True by done. by rewrite <- HL, Hm.
    + unfold nevict. by rewrite (masters_insert _ _ _ _ _ Hm), HL, decide_True by done.
Qed.
(** The copies of an evicted line leave the first level. *)
Lemma run_back_invalidate n id k ea buf th :
  node_wf n → s_cntlrs U !! id = Some k → is_llc U id → line_address B ea → Z.of_nat (length buf) = B →
  nevict n = None →
  (∀ n', node_wf n' → evicting (Some ea) n n' → snoopable n' ea (prevs U)) →
  run n (back_invalidate id ea buf th)
    (λ b n', Z.of_nat (length b) = B ∧ snooped (master_of U <$> prevs U) (tag ea) CacheState.INVALID n n').
Proof.
  intros Hwf Hk Hllc Ha Hbuf Hev Hsn. destruct (llc_lookup id k Hllc Hk) as (_ & HL & _).
  unfold back_invalidate. eapply run_bind; [by eapply run_master|]. intros m n' _ [-> Hm].
  pose proof (prev_of n _ m Hwf Hm) as Hp. rewrite HL, prevs_llc in Hp. injection Hp as Hp. rewrite <- Hp.
  destruct (prevs U) as [|i pv] eqn:Hpv; [apply run_ret; [done|split; [done|by apply snooped_nil]]|].
  eapply run_bind; [apply (run_set_evicting n id k ea (Some buf)); [done..|]; by intros b [= <-]|].
  intros u n1 H1 E1. eapply run_bind; [eapply (run_snoop n1 id k (i :: pv)); try done|].
  - by rewrite HL, prevs_llc, Hpv.
  - by left.
  - intros j kj [_ Hj]%list_elem_of_filter. by apply (Hsn n1 H1 E1 j kj).
  - intros r n2 H2 S2. eapply run_bind; [by eapply run_master|]. intros m2 n2' _ [-> Hm2].
    eapply run_bind; [by apply (run_set_evicting n2 id k 0 None)|]. intros u' n3 H3 E3. apply run_ret; [done|]. split.
    + destruct (m_evicting_buf m2) as [b|] eqn:Hb; [|done]. by apply (m_buf _ _ (n_master n2 H2 _ m2 Hm2)).
    + destruct E1 as (E11 & E12 & _), S2 as (S21 & S22 & _), E3 as (E31 & E32 & E33). split; [|split].
      * intros mi l. rewrite E31, S21, E11. by rewrite others_all.
      * intros a. by rewrite E32, S22.
      * by rewrite E33, Hev.
Qed.
Lemma run_sends n id k ea x buf th :
  node_wf n → s_cntlrs U !! id = Some k → line_address B ea → (∀ e, E e) →
  run n (evict_to_directory id ea x buf th) (λ _, same n).
Proof.
  intros Hwf Hk Ha HEall. destruct (cntlr_master _ _ Hk) as [_ Hok]. unfold evict_to_directory.
  eapply run_bind; [by eapply run_cntlr|]. intros c n' _ [-> (st & w & ->)]. simpl.
  eapply run_bind; [apply run_home_of; [done|apply Ha]|]. intros h n' _ ->. rewrite (k_block _ _ Hok).
  pose proof (t_block U HS). case_bool_decide.
  - eapply run_sendMsg; [done..|]. rewrite bool_decide_false by done. symmetry. apply Z.eqb_neq. lia.
  - apply run_assert; [done|]. intros _. by eapply run_sendMsg.
Qed.
Lemma run_evict_stats n id k b :
  node_wf n → s_cntlrs U !! id = Some k →
  ∀ {C} (f : M C) R, (∀ n', node_wf n' → same n n' → run n' f R) →
  run n (add_stat id "evict" (state_index (getCState b)) 1;!
         when (hasOption PREFETCH (base b)) (add_stat id "evict_prefetch" 0 1);!
         when (hasOption WARMUP (base b)) (add_stat id "evict_warmup" 0 1);! f) R.
Proof.
  intros Hwf Hk C f R Hf. eapply run_same; [done|done|by eapply run_add_stat|]. intros u1 n1 H1 S1.
  eapply run_same; [done|exact S1|apply run_when_same; [done|by eapply run_add_stat]|]. intros u2 n2 H2 S2.
  eapply run_same; [done|exact S2|apply run_when_same; [done|by eapply run_add_stat]|]. intros u3 n3 H3 S3. auto.
Qed.
Lemma absent_same n n' mi t : same n n' → absent n mi t → absent n' mi t.
Proof. intros [Hs _] Ha l x. rewrite Hs. apply Ha. Qed.
Lemma run_evicted n n' id k ea :
  node_wf n' → s_cntlrs U !! id = Some k → in_u64 ea → absent n' (m_master k) (tag ea) → same n n' →
  run n' (let! s := getCacheState id ea in
          lift (log_assert (bool_decide (s = CacheState.INVALID)) "Evicted address did not become invalid"))
    (λ _, same n).
Proof.
  intros Hwf Hk Ha Hno Hs. eapply run_bind; [by eapply run_getCacheState|].
  intros s n1 _ [-> [[l Hl]|[_ ->]]]; [by destruct (Hno l s)|]. by rewrite bool_decide_true by done.
Qed.
Lemma run_evict_l1 n id k ea b buf th :
  node_wf n → s_cntlrs U !! id = Some k → is_l1 U id → line_address B ea → Z.of_nat (length buf) = B →
  absent n (m_master k) (tag ea) → nevict n = None →
  (getCState b = CacheState.MODIFIED → m_cache_writethrough k = false → holds n L (tag ea) CacheState.MODIFIED) →
  run n (evict_line id ea b buf th) (λ _, same n).
Proof.
  intros Hwf Hk Hl1 Ha Hbuf Hno Hev Hh. destruct (cntlr_master _ _ Hk) as [_ Hok].
  destruct (l1_lookup id k Hl1 Hk) as (nx & Hnx & Hllc & HnL & Hp). unfold evict_line.
  eapply run_bind; [by eapply run_cntlr|]. intros c n' _ [-> (st & w & ->)]. simpl.
  apply run_evict_stats with k; [done..|]. intros n1 H1 S1.
  eapply run_bind with (Q := λ v n', n' = n1 ∧ v = buf).
  { unfold back_invalidate. eapply run_bind; [by eapply run_master|]. intros m n' _ [-> Hm].
    pose proof (prev_of n1 _ m H1 Hm) as Hp'. assert (m_prev_cache_cntlrs m = []) as -> by congruence. by apply run_ret. }
  intros v n' _ [-> ->]. eapply run_bind; [by eapply run_master|]. intros m n' _ [-> Hm].
  rewrite (k_perfect _ _ Hok), (k_coherent _ _ Hok), Hnx, (k_block _ _ Hok). simpl.
  eapply run_same; [done|exact S1| |].
  2:{ intros u n2 H2 S2. eapply run_evicted; try done; [apply Ha|by eapply absent_same]. }
  destruct (m_cache_writethrough k) eqn:Hwt; [by apply run_ret|]. apply run_when; [done| |done].
  intros Hx%bool_decide_eq_true. pose proof Hllc as (k' & Hk' & _).
  eapply run_bind; [by apply run_depth|]. intros fuel n' _ [-> ->].
  pose proof (t_depth U HS). pose proof (t_block U HS).
  eapply (run_writeCacheBlock n1 nx k'); [done|done|done|done|lia..| | | |done].
  - intros d [= <-]. lia.
  - right. eapply holds_same; [exact S1|]. by apply Hh.
  - lia.
Qed.
(** The last level loses a line, and so do the caches above it. *)
Lemma run_evict_llc n id k ea b buf th :
  node_wf n → s_cntlrs U !! id = Some k → is_llc U id → line_address B ea → Z.of_nat (length buf) = B →
  absent n L (tag ea) → nevict n = None → (∀ e, E e) →
  (∀ n', node_wf n' → evicting (Some ea) n n' → snoopable n' ea (prevs U)) →
  run n (evict_line id ea b buf th) (λ _, snooped (master_of U <$> prevs U) (tag ea) CacheState.INVALID n).
Proof.
  intros Hwf Hk Hllc Ha Hbuf Hno Hev HEall Hsn. destruct (cntlr_master _ _ Hk) as [_ Hok].
  destruct (llc_lookup id k Hllc Hk) as (Hnx & HL & Hwt). unfold evict_line.
  eapply run_bind; [by eapply run_cntlr|]. intros c n' _ [-> (st & w & ->)]. simpl.
  apply run_evict_stats with k; [done..|]. intros n1 H1 S1.
  eapply run_bind; [eapply (run_back_invalidate n1 id k ea buf); try done|].
  { by destruct S1 as (_ & _ & ->). }
  { intros n' Hn' (E1 & E2 & E3). apply Hsn; [done|]. destruct S1 as (S11 & S12 & S13).
    split; [|split]; [|by intros; rewrite E2|done]. intros. by rewrite E1. }
  intros v n2 H2 [Hv S2]. pose proof (same_snooped _ _ _ _ _ _ S1 S2) as S12.
  eapply run_bind; [by eapply run_master|]. intros m n' _ [-> Hm].
  rewrite (k_perfect _ _ Hok), (k_coherent _ _ Hok), Hnx, (m_nodram _ _ (n_master n2 H2 _ m Hm)). simpl.
  eapply run_bind; [by eapply run_sends|]. intros u n3 H3 S3.
  eapply run_conseq; [eapply (run_evicted n3 n3 id k ea); try done; [apply Ha|]|].
  - rewrite HL. intros l x. destruct S3 as [S3 _]. destruct S12 as [S12 _]. rewrite S3, S12. rewrite decide_False; [apply Hno|].
    intros (i & Hi & Hii)%list_elem_of_fmap. pose proof (t_prevs U HS i Hii) as Hl1.
    destruct (l1_some i Hl1) as [ki Hki]. destruct (l1_lookup i ki Hl1 Hki) as (_ & _ & _ & HnL & _).
    rewrite (master_of_eq i ki Hki) in Hi. congruence.
  - intros u' n4 _ S4. eapply snooped_same; [exact S12|]. exact (same_trans _ _ _ S3 S4).
Qed.

(** ** The invariant

    Every line of a first-level cache is in the last level, and modified there
    if it is modified here; only lines of the last level are in transit, and
    somebody waits for them; no line is being evicted.  [sv] is the line whose
    waiters are being served, which is not in transit. *)
Definition l1_state x : Prop := x = CacheState.SHARED ∨ x = CacheState.EXCLUSIVE ∨ x = CacheState.MODIFIED.
Definition l1_slot n (v : Z * cstate_t) : Prop :=
  if bool_decide (v.1 = INVALID_TAG) then v.2 = CacheState.INVALID
  else l1_state v.2 ∧ ∃ y, holds n L v.1 y ∧ (v.2 = CacheState.MODIFIED → y = CacheState.MODIFIED).
Definition llc_slot (v : Z * cstate_t) : Prop :=
  if bool_decide (v.1 = INVALID_TAG) then v.2 = CacheState.INVALID
  else l1_state v.2 ∨ v.2 = CacheState.SHARED_UPGRADING.
Definition l1_master mi : Prop := mi ∈ master_of U <$> prevs U.
Record inv (sv : option Z) n : Prop := {
  i_l1 mi l v : l1_master mi → nslot n mi l = Some v → l1_slot n v;
  i_llc l v : nslot n L l = Some v → llc_slot v;
  i_su a : line_address B a → holds n L (tag a) CacheState.SHARED_UPGRADING → nwait n a ≠ [] ∧ sv ≠ Some a;
  i_sv a : sv = Some a → nwait n a ≠ [];
  i_evict : nevict n = None
}.

Lemma l1_is_master id k : is_l1 U id → s_cntlrs U !! id = Some k → l1_master (m_master k).
Proof.
  intros Hl Hk. destruct (t_masters U HS id Hl) as (i & Hi & He). rewrite (master_of_eq id k Hk) in He.
  unfold l1_master. rewrite <- He. by apply list_elem_of_fmap_2.
Qed.
Lemma l1_not_llc mi : l1_master mi → mi ≠ L.
Proof.
  intros (i & -> & Hi)%list_elem_of_fmap. pose proof (t_prevs U HS i Hi) as Hl1.
  destruct (l1_some i Hl1) as [k Hk]. rewrite (master_of_eq i k Hk).
  by destruct (l1_lookup i k Hl1 Hk) as (_ & _ & _ & ? & _).
Qed.
Lemma inv_holds sv n mi t x :
  inv sv n → l1_master mi → t ≠ INVALID_TAG → holds n mi t x →
  l1_state x ∧ ∃ y, holds n L t y ∧ (x = CacheState.MODIFIED → y = CacheState.MODIFIED).
Proof.
  intros Hi Hm Ht [l Hl]. pose proof (i_l1 _ _ Hi mi l _ Hm Hl) as Hs. unfold l1_slot in Hs. simpl in Hs.
  by rewrite bool_decide_false in Hs.
Qed.
Lemma inv_updatable sv n id k a :
  inv sv n → is_l1 U id → s_cntlrs U !! id = Some k → line_address B a → updatable n k a false.
Proof.
  intros Hi Hl1 Hk [Ha _] x Hx.
  destruct (inv_holds sv n _ _ x Hi (l1_is_master id k Hl1 Hk) (tag_valid a Ha) Hx) as [Hs (y & Hy & Hm)].
  split; [by destruct Hs as [->|[->| ->]]|]. intros ->. unfold can_write_back.
  destruct (l1_lookup id k Hl1 Hk) as (nx & -> & Hllc & _). destruct (m_cache_writethrough k); [done|].
  split; [done|]. right. by rewrite <- Hm.
Qed.
Lemma inv_snoopable sv n a requester pv :
  inv sv n → line_address B a → pv = [] ∨ pv = prevs U → snoopable n a (others requester pv).
Proof.
  intros Hi Ha Hpv i k [_ Hin]%list_elem_of_filter Hk. assert (Hl1 : is_l1 U i).
  { destruct Hpv as [->| ->]; [by apply not_elem_of_nil in Hin|]. by apply (t_prevs U HS). }
  split; [done|]. by eapply inv_updatable.
Qed.

(** *** Steps that preserve it *)
Lemma inv_same sv n n' : same n n' → inv sv n → inv sv n'.
Proof.
  intros (S1 & S2 & S3) [I1 I2 I3 I4 I5]. constructor.
  - intros mi l v Hm. rewrite S1. intros Hl. pose proof (I1 mi l v Hm Hl) as Hs. unfold l1_slot in *.
    case_bool_decide; [done|]. destruct Hs as [Hs (y & [l' Hy] & Hm')]. split; [done|]. exists y. split; [|done].
    exists l'. by rewrite S1.
  - intros l v. rewrite S1. apply I2.
  - intros a Ha [l Hl]. rewrite S1 in Hl. rewrite S2. apply I3; [done|]. by exists l.
  - intros a. rewrite S2. apply I4.
  - by rewrite S3.
Qed.
(** The slots of the last level are as before, and those of the first level
    are as before or hold a line that is in the last level. *)
Lemma inv_l1_step sv n n' :
  inv sv n → (∀ l, nslot n' L l = nslot n L l) → (∀ a, nwait n' a = nwait n a) → nevict n' = nevict n →
  (∀ mi l v, l1_master mi → nslot n' mi l = Some v → nslot n mi l = Some v ∨ l1_slot n v) → inv sv n'.
Proof.
  intros [I1 I2 I3 I4 I5] HL Hw He Hs.
  assert (Hh : ∀ t x, holds n' L t x ↔ holds n L t x).
  { intros t x. unfold holds. by setoid_rewrite HL. }
  assert (Hsl : ∀ v, l1_slot n v → l1_slot n' v).
  { intros v. unfold l1_slot. case_bool_decide; [done|]. intros [H1 (y & Hy & Hm)]. split; [done|]. exists y.
    by rewrite Hh. }
  constructor.
  - intros mi l v Hm Hl. apply Hsl. destruct (Hs mi l v Hm Hl) as [Hl'|]; [by eapply I1|done].
  - intros l v. rewrite HL. apply I2.
  - intros a Ha. rewrite Hh, Hw. by apply I3.
  - intros a. rewrite Hw. apply I4.
  - by rewrite He.
Qed.
Lemma inv_snooped sv ms t x n n' :
  inv sv n → (∀ mi, mi ∈ ms → l1_master mi) → t ≠ INVALID_TAG →
  x = CacheState.INVALID ∨ x = CacheState.SHARED → snooped ms t x n n' → inv sv n'.
Proof.
  intros Hi Hms Ht Hx (S1 & S2 & S3). eapply inv_l1_step; [done| |done|done|].
  - intros l. rewrite S1, decide_False; [done|]. intros HL%Hms. by apply l1_not_llc in HL.
  - intros mi l v Hm. rewrite S1. case_decide; [|by left]. unfold remap.
    destruct (nslot n mi l) as [[t' y]|] eqn:Hl; [|done]. case_decide as Hd; [|by left]. subst t'. intros [= <-]. right.
    pose proof (i_l1 _ _ Hi mi l _ Hm Hl) as Hs. unfold l1_slot, becomes in *. simpl in Hs.
    rewrite bool_decide_false in Hs by done. destruct Hs as [_ (z & Hz & _)].
    destruct Hx as [-> | ->]; simpl; [done|]. rewrite bool_decide_false by done. split; [by left|]. by exists z.
Qed.
Lemma inv_changed_l1 sv mi l v n n' :
  inv sv n → l1_master mi → l1_slot n v → changed mi l v n n' → inv sv n'.
Proof.
  intros Hi Hm Hv (C1 & C2 & C3 & C4). eapply inv_l1_step; [done| |done|done|].
  - intros l'. apply C2. left. pose proof (l1_not_llc mi Hm). done.
  - intros mi' l' v' _ Hl'. destruct (decide (mi' = mi)) as [->|]; [destruct (decide (l' = l)) as [->|]|].
    + right. by simplify_eq.
    + left. by rewrite C2 in Hl' by auto.
    + left. by rewrite C2 in Hl' by auto.
Qed.
(** A line of the last level changes its state. *)
Lemma inv_changed_llc sv l t x x' n n' :
  inv sv n → node_wf n → nslot n L l = Some (t, x) → t ≠ INVALID_TAG → x ≠ CacheState.MODIFIED → llc_slot (t, x') →
  (x' = CacheState.SHARED_UPGRADING → ∀ a, line_address B a → tag a = t → nwait n a ≠ [] ∧ sv ≠ Some a) →
  changed L l (t, x') n n' → inv sv n'.
Proof.
  intros Hi Hwf Hl Ht Hx Hs Hsu (C1 & C2 & C3 & C4). pose proof Hi as [I1 I2 I3 I4 I5].
  assert (Hsl : ∀ mi v, l1_master mi → ∀ l', nslot n mi l' = Some v → l1_slot n' v).
  { intros mi v Hm l' Hl'. pose proof (I1 mi l' v Hm Hl') as Hv. unfold l1_slot in *. case_bool_decide; [done|].
    destruct Hv as [H1 (y & [ly Hy] & Hm')]. split; [done|]. destruct (decide (ly = l)) as [->|].
    - assert (t = v.1 ∧ x = y) as [-> ->] by (by simplify_eq). exists x'. split; [by exists l|].
      intros Hv. by rewrite (Hm' Hv) in Hx.
    - exists y. split; [|done]. exists ly. by rewrite C2 by auto. }
  constructor.
  - intros mi l' v Hm Hl'. rewrite C2 in Hl' by (left; by apply l1_not_llc). by eapply Hsl.
  - intros l' v Hl'. destruct (decide (l' = l)) as [->|]; [by simplify_eq|]. rewrite C2 in Hl' by auto. by eapply I2.
  - intros a Ha [l' Hl']. rewrite C3. destruct (decide (l' = l)) as [->|].
    + apply Hsu; [by simplify_eq|done|by simplify_eq].
    + rewrite C2 in Hl' by auto. apply I3; [done|]. by exists l'.
  - intros a. rewrite C3. apply I4.
  - by rewrite C4.
Qed.

(** ** Bookkeeping *)
Lemma cleanup_ok fuel m : (size m ≤ fuel)%nat → is_Ok (cleanup fuel m) ∨ cleanup fuel m = Err ErrDiverge.
Proof.
  revert m. induction fuel as [|fuel IH]; intros m Hm; simpl.
  - destruct (size m <=? 8)%nat eqn:Hs; [left; by eexists|]. apply Nat.leb_gt in Hs. lia.
  - destruct (size m <=? 8)%nat eqn:Hs; [left; by eexists|]. destruct (m !! (oldest_miss m).1) eqn:Hl; [|by right].
    apply IH. rewrite map_size_delete, Hl. simpl. lia.
Qed.
Lemma run_cleanupMshr n id k : node_wf n → s_cntlrs U !! id = Some k → run n (cleanupMshr id) (λ _, same n).
Proof.
  intros Hwf Hk. unfold cleanupMshr. eapply run_bind; [by eapply run_master|]. intros m n' _ [-> Hm].
  destruct (cleanup_ok (size (mshr m)) (mshr m)) as [[v Hv]|Hv]; [done|eapply run_lift; [exact Hv|]|].
  - by eapply (run_set_mshr n id k (λ _, v)).
  - unfold run, st_bind, lift. rewrite Hv. apply HE. by right; right.
Qed.
(** A sequence of steps that change nothing. *)
Lemma run_seq n n0 m1 (m2 : M unit) :
  same n0 n → run n m1 (λ _, same n) → (∀ n', node_wf n' → run n' m2 (λ _, same n')) →
  run n (st_bind m1 (λ _ : unit, m2)) (λ _, same n0).
Proof.
  intros S0 H1 H2. eapply run_bind; [exact H1|]. intros u n1 W1 S1. eapply run_conseq; [by apply H2|].
  intros u' n2 _ S2. exact (same_trans _ _ _ S0 (same_trans _ _ _ S1 S2)).
Qed.
Ltac stats := repeat first
  [ done | eapply run_add_stat; eassumption | apply run_when_same; [done|]
  | apply run_seq; [done| |intros ? ?] ].
Lemma run_updateCounters n id k op a hit x pf :
  node_wf n → s_cntlrs U !! id = Some k → run n (updateCounters id op a hit x pf) (λ _, same n).
Proof.
  intros Hwf Hk. unfold updateCounters. eapply run_bind; [by eapply run_getElapsedTime|]. intros t n' _ ->.
  eapply run_bind; [by eapply run_master|]. intros m n' _ [-> Hm].
  apply run_seq; [done| |intros n' Hn'; by eapply run_cleanupMshr]. case_bool_decide; stats.
Qed.
Lemma run_use_line n id k l t x demand :
  node_wf n → s_cntlrs U !! id = Some k → nslot n (m_master k) l = Some (t, x) →
  run n (use_line id l demand) (λ _, same n).
Proof.
  intros Hwf Hk Hl. unfold use_line. eapply run_bind; [by eapply run_block_at|]. intros b n' _ (-> & _).
  assert (Hstep : ∀ n' name o, node_wf n' → same n n' →
    run n' (add_stat id name 0 1;! upd_block id l (clearOption o)) (λ _, same n')).
  { intros n' name o Hn' S. eapply run_bind; [by eapply run_add_stat|]. intros u n1 H1 S1.
    eapply run_conseq; [eapply run_upd_block_same; try done|].
    - eapply slot_same; [|exact Hl]. exact (same_trans _ _ _ S S1).
    - intros u' n2 _ S2. exact (same_trans _ _ _ S1 S2). }
  eapply run_same; [done|reflexivity|apply run_when_same; [done|by apply Hstep]|]. intros u1 n1 H1 S1.
  apply run_gets. eapply run_same; [done|exact S1|apply run_when_same; [done|by apply Hstep]|].
  intros u2 n2 H2 S2. by apply run_ret.
Qed.
Lemma run_mshr_delay n id k a : node_wf n → s_cntlrs U !! id = Some k → run n (mshr_delay id a) (λ _, same n).
Proof.
  intros Hwf Hk. unfold mshr_delay. eapply run_bind; [by eapply run_getElapsedTime|]. intros t n' _ ->.
  eapply run_bind; [by eapply run_master|]. intros m n' _ [-> Hm]. destruct (under_way m a t); [|by apply run_ret].
  eapply run_same; [done|reflexivity|by eapply run_add_stat|]. intros u1 n1 H1 S1.
  eapply run_same; [done|exact S1|by eapply run_incrElapsedTime|]. intros u2 n2 H2 S2. by apply run_ret.
Qed.

(** *** Prefetchers *)
Lemma run_queue_prefetches n id k (l : list Z) acc :
  node_wf n → s_cntlrs U !! id = Some k → Forall (line_address B) l → Forall (line_address B) acc →
  run n (queue_prefetches id l acc) (λ r n', n' = n ∧ Forall (line_address B) r).
Proof.
  intros Hwf Hk Hl. revert acc. induction Hl as [|a l Ha Hl IH]; intros acc Hacc; cbn [queue_prefetches].
  - by apply run_ret.
  - destruct (_ <? _)%nat; [by apply run_ret|]. eapply run_bind; [eapply run_permissible; [done..|apply Ha]|].
    intros ok n' _ [-> _]. apply IH. destruct ok; [done|]. apply Forall_app. by split; [|apply Forall_singleton].
Qed.
Lemma run_set_prefetch n id k g1 g2 g3 :
  node_wf n → s_cntlrs U !! id = Some k →
  (∀ m, n_masters n !! m_master k = Some m → master_ok (m_master k) m →
     (∀ f, g1 m = Some f → pf_inv B f) ∧ Forall (line_address B) (g2 m)) →
  run n (upd_master id (λ m, set_prefetch (g1 m) (g2 m) (g3 m) m)) (λ _, same n).
Proof.
  intros Hwf Hk Hg. apply (run_upd_same n id k); [done..|]. intros m Hm.
  destruct (Hg m Hm (n_master n Hwf _ m Hm)) as [H1 H2]. done.
Qed.
Lemma run_trainPrefetcher n id k a hit pfhit t :
  node_wf n → s_cntlrs U !! id = Some k → line_address B a →
  run n (trainPrefetcher id a hit pfhit t) (λ _, same n).
Proof.
  intros Hwf Hk Ha. unfold trainPrefetcher. eapply run_bind; [by eapply run_cntlr|]. intros c n' _ [-> (st & w & ->)].
  eapply run_bind; [by eapply run_master|]. intros m n' _ [-> Hm]. pose proof (n_master n Hwf _ m Hm) as Hok.
  destruct (m_prefetcher m) as [f|] eqn:Hf; [|by apply run_ret].
  destruct (pf_next B a (m_core_id k) f (m_pf _ _ Hok f Hf) Ha) as (l & f' & Hn & Hf' & Hl).
  eapply run_lift; [exact Hn|]. cbn [fst snd]. eapply run_same; [done|reflexivity| |].
  { eapply (run_set_prefetch n id k (λ _, Some f')); [done..|]. intros m' _ Hm'. split; [by intros ? [= <-]|].
    by destruct Hm'. }
  intros u n1 H1 S1. apply run_when; [done| |done]. intros _.
  eapply run_bind; [eapply run_queue_prefetches; [done..|apply Forall_nil_2]|]. intros l' n1' _ [-> Hl'].
  eapply run_conseq; [eapply (run_set_prefetch n1 id k m_prefetcher (λ _, l')); [done..|]|].
  - intros m' _ Hm'. split; [by destruct Hm'|done].
  - intros u' n2 _ S2. exact (same_trans _ _ _ S1 S2).
Qed.

(** ** Requests to the directory *)
Lemma tag_inj a a' : line_address B a → line_address B a' → tag a = tag a' → a = a'.
Proof.
  intros [_ Ha] [_ Ha'] Ht. unfold tag in Ht. pose proof (t_block U HS).
  rewrite (Z.div_mod a B), (Z.div_mod a' B) by lia. by rewrite Ha, Ha', Ht.
Qed.
Lemma run_set_waiters n id k g :
  node_wf n → s_cntlrs U !! id = Some k → m_master k = L →
  (∀ m, n_masters n !! L = Some m → queues_wf (λ _ _, True) (g (m_directory_waiters m))) →
  run n (upd_master id (λ m, set_waiters (g (m_directory_waiters m)) m))
    (λ _ n', (∀ mi l, nslot n' mi l = nslot n mi l) ∧ nevict n' = nevict n ∧
       ∃ m, n_masters n !! L = Some m ∧ ∀ a, nwait n' a = queue_of a (g (m_directory_waiters m))).
Proof.
  intros Hwf Hk HL Hg. apply (run_upd_master n id k); [done..|]. rewrite HL. intros m Hm.
  pose proof (n_master n Hwf _ m Hm) as [M1 M2 M3 M4 M5 M6 M7 M8]. split; [|split; [done|]].
  - constructor; try done. by apply Hg.
  - split; [|split].
    + intros mi l. rewrite (put_nslot _ _ _ _ _ _ Hm). case_decide; [|done]. subst. unfold nslot. by rewrite Hm.
    + unfold nevict. rewrite (masters_insert _ _ _ _ _ Hm), decide_True by done. by rewrite Hm.
    + exists m. split; [done|]. intros a. unfold nwait. by rewrite (masters_insert _ _ _ _ _ Hm), decide_True by done.
Qed.
Lemma nwait_master n m a : n_masters n !! L = Some m → nwait n a = queue_of a (m_directory_waiters m).
Proof. unfold nwait. by intros ->. Qed.
Lemma run_request n id k ty a th :
  node_wf n → s_cntlrs U !! id = Some k → in_u64 a →
  run n (let! c := cntlr id in
         let! home := home_of a in
         sendMsg id ty (Z.of_nat (m_core_id_master c)) home a None 0 th) (λ _, same n).
Proof.
  intros Hwf Hk Ha. eapply run_bind; [by eapply run_cntlr|]. intros c n' _ [-> _].
  eapply run_bind; [by apply run_home_of|]. intros h n' _ ->. by eapply run_sendMsg.
Qed.
Lemma run_upgrade_req n id k a l th sv :
  node_wf n → s_cntlrs U !! id = Some k → m_master k = L → line_address B a → inv sv n →
  nslot n L l = Some (tag a, CacheState.SHARED) → nwait n a ≠ [] → sv ≠ Some a →
  run n (processUpgradeReqToDirectory id a th)
    (λ _ n', inv sv n' ∧ (∀ mi l, mi ≠ L → nslot n' mi l = nslot n mi l) ∧ ∀ a, nwait n' a = nwait n a).
Proof.
  intros Hwf Hk HL Ha Hi Hl Hw Hsv. unfold processUpgradeReqToDirectory.
  eapply run_bind; [eapply run_getCacheState; [done..|apply Ha]|]. intros s n' _ [-> Hs].
  assert (s = CacheState.SHARED) as ->.
  { eapply (state_uniq n); [done|by apply (tag_valid a), Ha|exact Hs|]. left. exists l. by rewrite HL. }
  rewrite bool_decide_true by done. eapply run_lift; [done|].
  eapply run_bind; [eapply run_setCacheState; [done..|apply Ha|by rewrite HL]|]. intros l' n1 H1 [-> C1]. rewrite HL in C1.
  eapply run_conseq; [by eapply run_request; [..|apply Ha]|]. intros u n2 H2 S2.
  pose proof (changed_same _ _ _ _ _ _ C1 S2) as C2. split; [|split].
  - eapply (inv_changed_llc sv l (tag a) CacheState.SHARED); try done; [by apply tag_valid, Ha| |].
    + unfold llc_slot. simpl. rewrite bool_decide_false by (by apply tag_valid, Ha). by right.
    + intros _ a' Ha' Ht. by rewrite <- (tag_inj a a' Ha Ha' (eq_sym Ht)).
  - intros mi l' Hm. apply C2. by left.
  - apply C2.
Qed.

(** Nothing appears in the first level. *)
Definition keeps_absent n n' : Prop :=
  ∀ mi t, t ≠ INVALID_TAG → mi ≠ L → absent n mi t → absent n' mi t.
Lemma keeps_absent_slots n n' : (∀ mi l, mi ≠ L → nslot n' mi l = nslot n mi l) → keeps_absent n n'.
Proof. intros Hs mi t Ht Hm Ha l x. rewrite Hs by done. apply Ha. Qed.
Lemma keeps_absent_same n n' : same n n' → keeps_absent n n'.
Proof. intros [Hs _]. apply keeps_absent_slots. auto. Qed.
Lemma keeps_absent_trans n1 n2 n3 : keeps_absent n1 n2 → keeps_absent n2 n3 → keeps_absent n1 n3.
Proof. intros H1 H2 mi t Ht Hm Ha. auto. Qed.
Lemma snooped_absent ms t x n n' : snooped ms t x n n' → keeps_absent n n'.
Proof.
  intros (Hs & _) mi t' Ht Hm Ha l y. rewrite Hs. case_decide; [|apply Ha]. unfold remap.
  destruct (nslot n mi l) as [[t0 z]|] eqn:Hl; [|done]. case_decide as Hd; [|rewrite <- Hl; apply Ha].
  unfold becomes. case_bool_decide; [congruence|]. intros [= -> _]. subst t0. by destruct (Ha l z).
Qed.
Lemma snooped_gone ms t n n' mi :
  t ≠ INVALID_TAG → snooped ms t CacheState.INVALID n n' → mi ∈ ms → absent n' mi t.
Proof.
  intros Ht (Hs & _) Hm l y. rewrite Hs, decide_True by done. unfold remap.
  destruct (nslot n mi l) as [[t' z]|] eqn:Hl; [|done]. case_decide; [|congruence]. unfold becomes. simpl. congruence.
Qed.

Lemma run_ex_req n id k a :
  node_wf n → s_cntlrs U !! id = Some k → line_address B a → state_in n (m_master k) (tag a) CacheState.INVALID →
  run n (processExReqToDirectory id a) (λ _, same n).
Proof.
  intros Hwf Hk Ha Hx. unfold processExReqToDirectory. eapply run_bind; [eapply run_getCacheState; [done..|apply Ha]|].
  intros s n' _ [-> Hs]. assert (s = CacheState.INVALID) as ->.
  { eapply (state_uniq n); [done|by apply (tag_valid a), Ha|exact Hs|exact Hx]. }
  rewrite bool_decide_false by done. eapply run_lift; [done|]. rewrite bool_decide_true by done. eapply run_lift; [done|].
  by eapply run_request; [..|apply Ha].
Qed.
Lemma inv_waits sv n n' :
  inv sv n → (∀ mi l, nslot n' mi l = nslot n mi l) → (∀ b, nwait n b ≠ [] → nwait n' b ≠ []) →
  nevict n' = nevict n → inv sv n'.
Proof.
  intros [J1 J2 J3 J4 J5] S1 Hw E1. constructor.
  - intros mi l v Hmi. rewrite S1. intros Hl. pose proof (J1 mi l v Hmi Hl) as Hv. unfold l1_slot, holds in *.
    case_bool_decide; [done|]. destruct Hv as [? (y & [ly Hy] & ?)]. split; [done|]. exists y. split; [|done]. exists ly. by rewrite S1.
  - intros l v. rewrite S1. apply J2.
  - intros b Hb [l Hl]. rewrite S1 in Hl. destruct (J3 b Hb) as [Hne Hsv]; [by exists l|]. auto.
  - auto.
  - by rewrite E1.
Qed.
Lemma run_initiate n id k op a pf t sv x :
  node_wf n → s_cntlrs U !! id = Some k → m_master k = L → line_address B a → inv sv n →
  state_in n L (tag a) x → permitted op x = false → x ≠ CacheState.EXCLUSIVE ∨ op = READ →
  run n (initiateDirectoryAccess id op a pf t)
    (λ _ n', inv sv n' ∧ (∀ mi l, mi ≠ L → nslot n' mi l = nslot n mi l)).
Proof.
  intros Hwf Hk HL Ha Hi Hx Hperm Hex. unfold initiateDirectoryAccess.
  set (excl := match op with READ => false | _ => true end).
  eapply run_bind.
  { eapply (run_set_waiters n id k (enqueue a (mkWaiter excl pf id t))); [done..|].
    intros m Hm. apply enqueue_wf; [|done]. apply (m_queues _ _ (n_master n Hwf _ m Hm)). }
  intros u n1 H1 (S1 & E1 & m & Hm & W1).
  assert (W : ∀ b, nwait n1 b = if decide (b = a) then nwait n a ++ [mkWaiter excl pf id t] else nwait n b).
  { intros b. rewrite W1, enqueue_of. case_decide; by rewrite (nwait_master n m) by done. }
  assert (Hw0 : ∀ b, nwait n b ≠ [] → nwait n1 b ≠ []).
  { intros b Hb. rewrite W. case_decide; [by destruct (nwait n a)|done]. }
  assert (I1 : inv sv n1) by (by eapply inv_waits).
  eapply run_bind; [by eapply run_master|]. intros m1 n' _ [-> Hm1]. rewrite HL in Hm1.
  apply run_when; [done| |intros _; split; [done|intros; apply S1]].
  rewrite queue_size_length, <- (nwait_master n1 m1 a Hm1), W, decide_True by done.
  rewrite length_app. simpl. intros Hq%Z.eqb_eq. assert (Hn : nwait n a = []) by (destruct (nwait n a); [done|simpl in Hq; lia]).
  assert (Hsv : sv ≠ Some a) by (intros ->; by apply (i_sv _ _ Hi a)).
  destruct excl eqn:Hexcl.
  - eapply run_bind; [eapply run_getCacheState; [done..|apply Ha]|]. intros s n' _ [-> Hs]. rewrite HL in Hs.
    assert (s = x) as ->.
    { eapply (state_uniq n1); [done|by apply (tag_valid a), Ha|exact Hs|]. destruct Hx as [[l Hl]|[Hno ->]].
      - left. exists l. by rewrite S1.
      - right. split; [|done]. intros l y. rewrite S1. apply Hno. }
    case_bool_decide as Hsh.
    + subst x. destruct Hs as [[l Hl]|[_ ?]]; [|done].
      eapply run_conseq; [eapply (run_upgrade_req n1 id k a l); try done|].
      * rewrite W, decide_True by done. by destruct (nwait n a).
      * intros u' n2 _ (I2 & S2 & _). split; [done|]. intros mi l' Hmi. by rewrite S2.
    + assert (x = CacheState.INVALID) as ->.
      { destruct Hx as [[l Hl]|[_ ?]]; [|done]. pose proof (i_llc _ _ Hi l _ Hl) as Hv. unfold llc_slot in Hv. simpl in Hv.
        rewrite bool_decide_false in Hv by (by apply tag_valid, Ha).
        destruct Hv as [[?|[?|?]]|?]; subst x; [done| | |].
        - destruct Hex as [?| ->]; [done|]. by subst excl.
        - by destruct op.
        - by destruct (i_su _ _ Hi a Ha) as [Hne _]; [exists l|]. }
      eapply run_conseq; [by eapply run_ex_req; [..|rewrite HL]|]. intros u' n2 _ S2. split; [exact (inv_same _ _ _ S2 I1)|].
      intros mi l _. destruct S2 as [S2 _]. by rewrite S2.
  - eapply run_conseq; [by eapply run_request; [..|apply Ha]|]. intros u' n2 _ S2. split; [exact (inv_same _ _ _ S2 I1)|].
    intros mi l _. destruct S2 as [S2 _]. by rewrite S2.
Qed.

(** ** Accesses at the last level *)
Lemma run_snoop_inv n id k pv requester a x reason th sv :
  node_wf n → s_cntlrs U !! id = Some k → s_prev U !! m_master k = Some pv → line_address B a → inv sv n →
  x = CacheState.INVALID ∨ x = CacheState.SHARED →
  run n (snoop id (Some requester) a x reason th)
    (λ _ n', inv sv n' ∧ snooped (master_of U <$> others (Some requester) pv) (tag a) x n n').
Proof.
  intros Hwf Hk Hp Ha Hi Hx.
  assert (Hpv : pv = [] ∨ pv = prevs U) by (destruct (prev_cases id k pv Hk Hp) as [?|[? _]]; auto).
  eapply run_conseq; [eapply (run_snoop n id k pv); try done; [destruct Hx as [-> | ->]; [by left|by right; left]|by eapply inv_snoopable]|].
  intros r n1 H1 S1. split; [|done]. eapply inv_snooped; [exact Hi| |by apply (tag_valid a), Ha|done|exact S1].
  intros mi (i & -> & [_ Hin]%list_elem_of_filter)%list_elem_of_fmap. destruct Hpv as [->| ->]; [by apply not_elem_of_nil in Hin|].
  by apply list_elem_of_fmap_2.
Qed.
(** The slots of the cache itself are not touched by its snoops. *)
Lemma own_slots id k pv requester t x n n' l :
  s_cntlrs U !! id = Some k → s_prev U !! m_master k = Some pv →
  snooped (master_of U <$> others (Some requester) pv) t x n n' → nslot n' (m_master k) l = nslot n (m_master k) l.
Proof.
  intros Hk Hp (Hs & _). rewrite Hs, decide_False; [done|].
  intros (i & Hi & [_ Hin]%list_elem_of_filter)%list_elem_of_fmap.
  destruct (prev_cases id k pv Hk Hp) as [->|[-> Hllc]]; [by apply not_elem_of_nil in Hin|].
  destruct (llc_lookup id k Hllc Hk) as (_ & HL & _). rewrite HL in Hi.
  by apply (l1_not_llc (master_of U i)); [apply list_elem_of_fmap_2|].
Qed.
(** No other first-level cache has the line. *)
Definition alone n (pv : list nat) (requester : nat) (t : Z) : Prop :=
  ∀ i, i ∈ pv → i ≠ requester → absent n (master_of U i) t.
Lemma snooped_alone pv requester a n n' :
  in_u64 a → snooped (master_of U <$> others (Some requester) pv) (tag a) CacheState.INVALID n n' →
  alone n' pv requester (tag a).
Proof.
  intros Ha Hs i Hi Hne. eapply snooped_gone; [by apply tag_valid|exact Hs|]. apply list_elem_of_fmap_2.
  apply list_elem_of_filter. split; [congruence|done].
Qed.
Lemma alone_same n n' pv r t : same n n' → alone n pv r t → alone n' pv r t.
Proof. intros Hs Ha i Hi Hne. eapply absent_same; [done|]. by apply Ha. Qed.

(** What a level has done when it provides the data. *)
Definition provides n (k : CacheCntlr) (pv : list nat) (requester : nat) (op : mem_op_t) a l x : Prop :=
  nslot n (m_master k) l = Some (tag a, x) ∧ permitted op x = true ∧ (op ≠ READ → alone n pv requester (tag a)).
Lemma provides_same n n' k pv r op a l x : same n n' → provides n k pv r op a l x → provides n' k pv r op a l x.
Proof.
  intros Hs (H1 & H2 & H3). split; [by eapply slot_same|]. split; [done|]. intros Hop. eapply alone_same; [done|]. auto.
Qed.

Lemma run_shmem_hit n id k pv requester op a modeled pf l x sv :
  node_wf n → s_cntlrs U !! id = Some k → s_prev U !! m_master k = Some pv → line_address B a → inv sv n →
  nslot n (m_master k) l = Some (tag a, x) → permitted op x = true →
  run n (shmem_hit id requester op a modeled pf l)
    (λ _ n', inv sv n' ∧ keeps_absent n n' ∧ provides n' k pv requester op a l x).
Proof.
  intros Hwf Hk Hp Ha Hi Hl Hperm. unfold shmem_hit.
  eapply run_same; [done|reflexivity|by eapply run_use_line|]. intros pfhit n1 H1 S1.
  eapply run_same; [done|exact S1| |].
  { apply run_when_same; [done|]. eapply run_bind; [by eapply run_mshr_delay|]. intros late n2 H2 S2.
    destruct late; [by apply run_ret|]. eapply run_conseq; [by eapply run_incrElapsedTime_access|].
    intros u n3 _ S3. exact (same_trans _ _ _ S2 S3). }
  intros u2 n2 H2 S2. pose proof (inv_same _ _ _ S2 Hi) as I2. pose proof (slot_same _ _ _ _ _ S2 Hl) as Hl2.
  eapply run_bind; [by eapply (run_block_state n2 id k (Some l))|]. intros s n' _ [-> ->].
  eapply run_bind with (Q := λ _ n', inv sv n' ∧ keeps_absent n n' ∧ provides n' k pv requester op a l x).
  { assert (Hstep : ∀ y reason, y = CacheState.INVALID ∨ y = CacheState.SHARED → (op ≠ READ → y = CacheState.INVALID) →
      run n2 (let! r := snoop id (Some requester) a y reason USER_THREAD in ret r.2)
        (λ _ n', inv sv n' ∧ keeps_absent n n' ∧ provides n' k pv requester op a l x)).
    { intros y reason Hy Hop. eapply run_bind; [by eapply (run_snoop_inv n2 id k pv)|]. intros r n3 H3 [I3 S3].
      apply run_ret; [done|]. split; [done|]. split; [|split; [|split; [done|]]].
      - eapply keeps_absent_trans; [by apply keeps_absent_same|]. eapply snooped_absent; exact S3.
      - by rewrite (own_slots id k pv requester (tag a) y n2 n3 l Hk Hp S3).
      - intros Hne. rewrite (Hop Hne) in S3. by eapply snooped_alone; [apply Ha|]. }
    destruct (negb (bool_decide (op = READ))) eqn:Hop.
    - apply Hstep; auto.
    - apply negb_false_iff, bool_decide_eq_true in Hop.
      destruct (_ || _); [apply Hstep; [by right|done]|]. apply run_ret; [done|].
      split; [done|]. split; [by apply keeps_absent_same|]. by split; [|split]. }
  intros sib n3 H3 (I3 & A3 & P3). eapply run_bind; [by eapply run_cntlr|]. intros c n' _ [-> _].
  case_bool_decide; [by apply run_ret|]. eapply run_bind; [by eapply run_set_remote|]. intros u n4 H4 S4.
  apply run_ret; [done|]. split; [exact (inv_same _ _ _ S4 I3)|]. split; [|exact (provides_same _ _ _ _ _ _ _ _ _ S4 P3)].
  eapply keeps_absent_trans; [exact A3|]. by apply keeps_absent_same.
Qed.

Lemma run_llc_miss n id k requester op a pf t loc x sv :
  node_wf n → s_cntlrs U !! id = Some k → is_llc U id → line_address B a → inv sv n →
  located n (m_master k) (tag a) loc x → permitted op x = false →
  run n (llc_miss id requester op a pf t loc)
    (λ r n', inv sv n' ∧ keeps_absent n n' ∧
       if r.2 : bool then ∃ l y, provides n' k (prevs U) requester op a l y else r.1 = MISS).
Proof.
  intros Hwf Hk Hllc Ha Hi Hx Hperm. destruct (llc_lookup id k Hllc Hk) as (Hnx & HL & _).
  unfold llc_miss. eapply run_bind; [by eapply run_cntlr|]. intros c n' _ [-> _].
  eapply run_bind; [by eapply run_master|]. intros m n' _ [-> Hm]. rewrite (m_nodram _ _ (n_master n Hwf _ m Hm)).
  eapply run_bind; [by eapply run_block_state|]. intros s n' _ [-> ->].
  assert (Hmiss : x ≠ CacheState.EXCLUSIVE ∨ op = READ →
    run n (initiateDirectoryAccess id op a (negb (bool_decide (pf = PREFETCH_NONE))) t;! ret (MISS, false))
      (λ r n', inv sv n' ∧ keeps_absent n n' ∧
         if r.2 : bool then ∃ l y, provides n' k (prevs U) requester op a l y else r.1 = MISS)).
  { intros He. eapply run_bind.
    { eapply (run_initiate n id k op a _ t sv x); try done. rewrite <- HL. by eapply located_state. }
    intros u n1 H1 [I1 S1]. apply run_ret; [done|]. split; [done|]. split; [by apply keeps_absent_slots|done]. }
  destruct loc as [l|]; [|apply Hmiss; left; destruct Hx as [_ ->]; done].
  destruct (decide (x = CacheState.EXCLUSIVE)) as [He|He]; [|rewrite bool_decide_false by done; apply Hmiss; by left]. subst x. rewrite bool_decide_true by done. simpl in Hx.
  eapply run_bind; [by eapply (run_snoop_inv n id k (prevs U)); [..|rewrite HL; apply prevs_llc| | |left]|].
  intros r n1 H1 [I1 S1]. assert (Hp : s_prev U !! m_master k = Some (prevs U)) by (rewrite HL; apply prevs_llc).
  assert (Hl1 : nslot n1 (m_master k) l = Some (tag a, CacheState.EXCLUSIVE)).
  { by rewrite (own_slots id k (prevs U) requester (tag a) CacheState.INVALID n n1 l Hk Hp S1). }
  eapply run_bind; [by eapply run_setCState|]. intros u n2 H2 C2. apply run_ret; [done|]. split; [|split].
  - rewrite HL in C2, Hl1. eapply (inv_changed_llc sv l (tag a) CacheState.EXCLUSIVE CacheState.MODIFIED n1 n2); try done; [by apply tag_valid, Ha|].
    unfold llc_slot. simpl. rewrite bool_decide_false by (by apply tag_valid, Ha). left. by right; right.
  - eapply keeps_absent_trans; [eapply snooped_absent; exact S1|].
    apply keeps_absent_slots. intros mi l' Hm'. apply C2. left. by rewrite HL.
  - exists l, CacheState.MODIFIED. split; [apply C2|]. split; [by destruct op|]. intros _ i Hin Hne l' y.
    destruct C2 as (_ & C2 & _). rewrite C2; [by eapply snooped_alone; [apply Ha|..]|]. left. rewrite HL.
    apply l1_not_llc. by apply list_elem_of_fmap_2.
Qed.

Lemma run_count_access n id k hit :
  node_wf n → s_cntlrs U !! id = Some k →
  run n (on_cache id (λ c, Ok (tt, CacheModel.updateCounters hit c))) (λ _, same n).
Proof.
  intros Hwf Hk. apply (run_on_cache n id k); [done..|]. intros m Hm Hok. right.
  exists tt, (CacheModel.updateCounters hit (m_cache m)). split; [done|]. pose proof (m_wf _ _ Hok) as Hc.
  unfold CacheModel.updateCounters. destruct (m_enabled (m_cache m)); (do 2 (split; [done|])); intros n'; by eapply to_cache_same.
Qed.
Lemma run_special_modes n id k op a hit loc :
  node_wf n → s_cntlrs U !! id = Some k →
  run n (special_modes id op a hit false loc) (λ r n', n' = n ∧ r = (hit, loc)).
Proof.
  intros Hwf Hk. destruct (cntlr_master _ _ Hk) as [_ Hok]. unfold special_modes.
  eapply run_bind; [by eapply run_cntlr|]. intros c n' _ [-> (st & w & ->)]. simpl.
  rewrite (k_perfect _ _ Hok), !andb_false_r. by apply run_ret.
Qed.
(** The end of an access: the data is read if there is a line. *)
Lemma run_access_end n id k pv r op a l x (cache_hit : bool) (upd modeled : bool) t (pfhit : bool) (w : where_t) b :
  node_wf n → s_cntlrs U !! id = Some k → line_address B a → (cache_hit = true → provides n k pv r op a l x) →
  run n (when cache_hit
           (retrieveCacheBlock id a upd;!
            when b
              (let! t' := getElapsedTime id USER_THREAD in
               upd_master id (λ m, set_mshr (<[a := (t, t')]> (mshr m)) m);!
               cleanupMshr id));!
         when modeled (trainPrefetcher id a cache_hit pfhit t);!
         ret w) (λ w' n', w' = w ∧ same n n').
Proof.
  intros Hwf Hk Ha Hpr. eapply run_same; [done|reflexivity| |].
  { apply run_when; [done| |done]. intros Hc. destruct (Hpr Hc) as [Hl _].
    eapply run_bind; [by eapply run_retrieveCacheBlock|]. intros buf n1 H1 [S1 _].
    apply run_when; [done| |done]. intros _. eapply run_bind; [by eapply run_getElapsedTime|]. intros t' n' _ ->.
    apply run_seq; [done|by eapply run_set_mshr|]. intros n2 H2. by eapply run_cleanupMshr. }
  intros u n1 H1 S1. eapply run_same; [done|exact S1|apply run_when_same; [done|by eapply run_trainPrefetcher]|].
  intros u2 n2 H2 S2. by apply run_ret.
Qed.
Lemma run_access_count n id k op a hit pf (count : bool) :
  node_wf n → s_cntlrs U !! id = Some k → line_address B a →
  run n (when count
           (when (bool_decide (pf = PREFETCH_NONE)) (on_cache id (λ c, Ok (tt, CacheModel.updateCounters hit c)));!
            let! s := getCacheState id a in
            updateCounters id op a hit s pf)) (λ _, same n).
Proof.
  intros Hwf Hk Ha. apply run_when_same; [done|].
  eapply run_bind; [apply run_when_same; [done|by eapply run_count_access]|]. intros u n1 H1 S1.
  eapply run_bind; [eapply run_getCacheState; [done..|apply Ha]|]. intros s n' _ [-> _].
  eapply run_conseq; [by eapply run_updateCounters|]. intros u' n2 _ S2. exact (same_trans _ _ _ S1 S2).
Qed.
(** What a first-level cache gets from the last level. *)
Definition llc_result n n' k requester op a (w : where_t) : Prop :=
  keeps_absent n n' ∧ (w ≠ MISS → ∃ l y, provides n' k (prevs U) requester op a l y).

Lemma located_same n n' mi t loc x : same n n' → located n mi t loc x → located n' mi t loc x.
Proof.
  intros Hs Hl. destruct loc as [l|]; [by eapply slot_same|]. destruct Hl as [? ->]. by split; [eapply absent_same|].
Qed.
Lemma located_own n n' mi t loc x : (∀ l, nslot n' mi l = nslot n mi l) → located n mi t loc x → located n' mi t loc x.
Proof. intros Hs. destruct loc as [l|]; simpl; [by rewrite Hs|]. intros [Hno ->]. split; [|done]. intros l y. rewrite Hs. apply Hno. Qed.
Lemma run_llc_not_hit n id k requester op a (modeled : bool) pf t loc x sv :
  node_wf n → s_cntlrs U !! id = Some k → is_llc U id → line_address B a → inv sv n →
  located n (m_master k) (tag a) loc x → permitted op x = false →
  run n (when modeled (incrElapsedTime_access id ACCESS_CACHE_TAGS USER_THREAD);!
         let! s := block_state id loc in
         when (bool_decide (s = CacheState.SHARED))
           (snoop id (Some requester) a CacheState.INVALID UPGRADE USER_THREAD;! ret tt);!
         let! r := llc_miss id requester op a pf t loc in
         ret (r.1, r.2, false))
    (λ h n', inv sv n' ∧ keeps_absent n n' ∧
       if h.1.2 : bool then ∃ l y, provides n' k (prevs U) requester op a l y else h.1.1 = MISS).
Proof.
  intros Hwf Hk Hllc Ha Hi Hloc Hperm. destruct (llc_lookup id k Hllc Hk) as (Hnx & HL & _).
  assert (Hp : s_prev U !! m_master k = Some (prevs U)) by (rewrite HL; apply prevs_llc).
  eapply run_same; [done|reflexivity|apply run_when_same; [done|by eapply run_incrElapsedTime_access]|].
  intros u2 n2 H2 S2. pose proof (inv_same _ _ _ S2 Hi) as I2. pose proof (located_same _ _ _ _ _ _ S2 Hloc) as Hloc2.
  eapply run_bind; [by eapply run_block_state|]. intros s n' _ [-> ->].
  eapply run_bind with (Q := λ _ n', inv sv n' ∧ keeps_absent n n' ∧ located n' (m_master k) (tag a) loc x).
  { apply run_when; [done| |].
    - intros _. eapply run_bind; [by eapply (run_snoop_inv n2 id k (prevs U)); [..|left]|].
      intros r n3 H3 [I3 S3]. apply run_ret; [done|]. split; [done|]. split.
      + eapply keeps_absent_trans; [by apply keeps_absent_same|]. eapply snooped_absent; exact S3.
      + eapply located_own; [|exact Hloc2]. intros l. by eapply own_slots.
    - intros _. split; [done|]. split; [by apply keeps_absent_same|done]. }
  intros u3 n3 H3 (I3 & A3 & L3). eapply run_bind; [by eapply run_llc_miss|].
  intros r n4 H4 (I4 & A4 & R4). apply run_ret; [done|]. split; [done|]. split; [by eapply keeps_absent_trans|done].
Qed.
Lemma run_shmem_llc n fuel id k requester op a modeled count pf t sv :
  node_wf n → s_cntlrs U !! id = Some k → is_llc U id → line_address B a → inv sv n → (0 < fuel)%nat →
  run n (processShmemReqFromPrevCache fuel id requester op a modeled count pf t)
    (λ w n', inv sv n' ∧ llc_result n n' k requester op a w).
Proof.
  intros Hwf Hk Hllc Ha Hi Hf. destruct fuel as [|fuel]; [lia|]. cbn [processShmemReqFromPrevCache].
  destruct (cntlr_master _ _ Hk) as [_ Hok]. destruct (llc_lookup id k Hllc Hk) as (Hnx & HL & _).
  assert (Hp : s_prev U !! m_master k = Some (prevs U)) by (rewrite HL; apply prevs_llc).
  eapply run_bind; [by eapply run_cntlr|]. intros c n' _ [-> (st & ww & ->)]. cbn [m_passthrough m_next_cache_cntlr set_stats set_remote].
  rewrite (k_passthrough _ _ Hok), Hnx. cbn [andb].
  eapply run_bind; [eapply run_permissible; [done..|apply Ha]|]. intros perm n' _ [-> (x & Hx & ->)].
  eapply run_bind; [eapply run_getCacheBlockInfo; [done..|apply Ha]|]. intros loc n' _ [-> [x' Hloc]].
  assert (x' = x) as ->.
  { eapply (state_uniq n); [done|by apply (tag_valid a), Ha|by eapply located_state|exact Hx]. }
  eapply run_bind; [by eapply run_special_modes|]. intros r n' _ [-> ->]. cbn [fst snd].
  rewrite andb_false_r. cbn [negb orb]. eapply run_lift; [done|].
  eapply run_same; [done|reflexivity|by eapply run_access_count|]. intros u n1 H1 S1.
  pose proof (inv_same _ _ _ S1 Hi) as I1.
  pose proof (located_same _ _ _ _ _ _ S1 Hloc) as Hloc1.
  eapply run_bind with (Q := λ h n', inv sv n' ∧ keeps_absent n n' ∧
    if h.1.2 : bool then ∃ l y, provides n' k (prevs U) requester op a l y else h.1.1 = MISS).
  - destruct (permitted op x) eqn:Hperm.
    + destruct loc as [l|]; [|by destruct Hloc as [_ ->], op]. eapply run_bind; [by apply (run_ret n1 l (λ l' n', l' = l ∧ n' = n1))|].
      intros l' n' _ [-> ->]. eapply run_bind; [by eapply (run_shmem_hit n1 id k (prevs U))|].
      intros y n2 H2 (I2 & A2 & P2). apply run_ret; [done|]. split; [done|]. split; [|by exists l, x].
      eapply keeps_absent_trans; [|exact A2]. by apply keeps_absent_same.
    + eapply run_conseq; [by eapply run_llc_not_hit|]. intros h n2 _ (I2 & A2 & R2). split; [done|]. split; [|done].
      eapply keeps_absent_trans; [|exact A2]. by apply keeps_absent_same.
  - intros [[w hit] pfhit] n2 H2 (I2 & A2 & R2). cbn [fst snd] in R2. destruct hit.
    + destruct R2 as (l & y & P2). eapply run_conseq; [by eapply (run_access_end n2 id k _ _ _ a l y)|].
      intros w' n3 H3 [-> S3]. split; [exact (inv_same _ _ _ S3 I2)|]. split.
      * eapply keeps_absent_trans; [exact A2|]. by apply keeps_absent_same.
      * intros _. exists l, y. exact (provides_same _ _ _ _ _ _ _ _ _ S3 P2).
    + eapply run_conseq; [by eapply (run_access_end n2 id k [] 0%nat op a (0, 0)%nat x)|].
      intros w' n3 H3 [-> S3]. split; [exact (inv_same _ _ _ S3 I2)|]. split; [|done].
      eapply keeps_absent_trans; [exact A2|]. by apply keeps_absent_same.
Qed.

(** ** Accesses at the first level *)
Definition only mi n n' : Prop := ∀ mi' l, mi' ≠ mi → nslot n' mi' l = nslot n mi' l.
Lemma only_same mi n n' : same n n' → only mi n n'.
Proof. intros [Hs _] mi' l _. apply Hs. Qed.
Lemma only_trans mi n1 n2 n3 : only mi n1 n2 → only mi n2 n3 → only mi n1 n3.
Proof. intros H1 H2 mi' l Hm. by rewrite H2, H1. Qed.

(** The line that was in a slot has left the cache. *)
Lemma changed_absent n n' mi l old y a x :
  node_wf n → old ≠ INVALID_TAG → nslot n mi l = Some (old, y) → absent n mi (tag a) →
  changed mi l (tag a, x) n n' → absent n' mi old.
Proof.
  intros Hwf Hold Hl Hno (C1 & C2 & _) l' z Hl'. destruct (decide (l' = l)) as [->|Hne].
  - rewrite C1 in Hl'. injection Hl' as <- <-. by apply (Hno l y).
  - rewrite C2 in Hl' by auto. destruct (slot_uniq n mi l l' old y z); auto.
Qed.
Lemma run_insert_l1 n id k a y data requester th sv :
  node_wf n → s_cntlrs U !! id = Some k → is_l1 U id → line_address B a → inv sv n →
  absent n (m_master k) (tag a) → l1_slot n (tag a, y) → (∀ buf, data = Some buf → B ≤ Z.of_nat (length buf)) →
  run n (insertCacheBlock id a y data requester th)
    (λ _ n', inv sv n' ∧ only (m_master k) n n' ∧ ∃ l, nslot n' (m_master k) l = Some (tag a, y)).
Proof.
  intros Hwf Hk Hl1 Ha Hi Hno Hs Hdata. pose proof (l1_is_master id k Hl1 Hk) as Hm.
  pose proof (l1_not_llc _ Hm) as HnL.
  apply (run_insertCacheBlock n id k a y data requester th); [done|done|apply Ha|done|done| |].
  { left. intros l t Hl. pose proof (i_l1 _ _ Hi _ l _ Hm Hl) as Hv. unfold l1_slot in Hv. simpl in Hv.
    case_bool_decide; [done|]. by destruct Hv as [[?|[?|?]] _]. }
  intros n1 l old z H1 Hl C1. pose proof (inv_changed_l1 _ _ _ _ _ _ Hi Hm Hs C1) as I1.
  assert (O1 : only (m_master k) n n1) by (intros mi' l' Hne; apply C1; by left).
  assert (L1 : nslot n1 (m_master k) l = Some (tag a, y)) by apply C1.
  case_bool_decide as Hold; [by eauto|]. intros ea b buf Hea Ht Hb Hbuf.
  eapply run_conseq; [eapply (run_evict_l1 n1 id k ea b buf); try done|].
  - rewrite Ht. exact (changed_absent n n1 _ l old z a y Hwf Hold Hl Hno C1).
  - apply (i_evict _ _ I1).
  - intros Hz _. rewrite Hb in Hz; rewrite Hz in Hl. rewrite Ht.
    destruct (inv_holds sv n _ old CacheState.MODIFIED Hi Hm Hold) as [_ (w & [lw Hw] & Hmm)]; [by exists l|].
    exists lw. rewrite O1 by done. by rewrite <- (Hmm eq_refl).
  - intros u n2 _ S2. split; [exact (inv_same _ _ _ S2 I1)|]. split; [|exists l; exact (slot_same _ _ _ _ _ S2 L1)].
    eapply only_trans; [exact O1|]. by apply only_same.
Qed.

(** The bandwidth of the next level. *)
Lemma run_bandwidth n id k t (modeled : bool) :
  node_wf n → s_cntlrs U !! id = Some k →
  run n (when (modeled && negb (isInfinite (m_read_bandwidth k)))
    (let! ps := gets n_periods in
     let! delay := lift (cb_getRoundedLatency ps (m_read_bandwidth k) (B * 8)) in
     let! m := master id in
     let r := getCompletionTime t delay 0 (m_next_level_read_bandwidth m) in
     upd_master id (λ m, set_contention (m_dram_outstanding_writebacks m) (m_l1_mshr m) r.2 m);!
     lift (log_assert (time_add t delay <=? r.1) "Did not expect next-level cache to be this fast");!
     incrElapsedTime id (time_sub (time_sub r.1 t) delay) USER_THREAD)) (λ _, same n).
Proof.
  intros Hwf Hk. apply run_when; [done| |done]. intros [_ Hinf%negb_true_iff]%andb_true_iff. apply run_gets.
  destruct (k_clocks U k (proj2 (cntlr_master _ _ Hk))) as (_ & Hb & _). destruct (rd_periods n _ Hwf Hb) as [p Hp].
  unfold cb_getRoundedLatency. rewrite Hp. cbn [res_bind].
  assert (∃ d, time_div (time_add (time_mul p (B * 8)) (p / 2)) (m_bw_in_bits_per_cycle (m_read_bandwidth k)) = Ok d) as [d Hd].
  { unfold time_div, isInfinite in *. rewrite Hinf. by eexists. }
  eapply run_lift; [exact Hd|]. eapply run_bind; [by eapply run_master|]. intros m n' _ [-> Hm]. cbn zeta.
  eapply run_same; [done|reflexivity|by eapply run_set_contention|]. intros u n1 H1 S1.
  apply run_assert; [intros _; apply HE; by right; left|]. intros _.
  eapply run_conseq; [by eapply run_incrElapsedTime|]. intros u' n2 _ S2. exact (same_trans _ _ _ S1 S2).
Qed.
(** The line is already there: its state becomes that of the next level. *)
Lemma run_upgrade_copy n id k a y l z sv :
  node_wf n → s_cntlrs U !! id = Some k → is_l1 U id → line_address B a → inv sv n → (∀ e, E e) →
  l1_slot n (tag a, y) → nslot n (m_master k) l = Some (tag a, z) →
  run n (updateCacheBlock (length (s_cntlrs U)) id a y UPGRADE false SIM_THREAD)
    (λ _ n', inv sv n' ∧ only (m_master k) n n' ∧ ∃ l, nslot n' (m_master k) l = Some (tag a, y)).
Proof.
  intros Hwf Hk Hl1 Ha Hi HEall Hs Hl. pose proof (t_depth U HS).
  assert (Hst : l1_state y) by (unfold l1_slot in Hs; simpl in Hs; rewrite bool_decide_false in Hs by (by apply tag_valid, Ha); apply Hs).
  assert (Hset : settable y) by (unfold settable; destruct Hst as [?|[?|?]]; auto 7).
  eapply run_conseq; [eapply (run_update_l1 n id k); try done; [by eapply inv_updatable|lia]|].
    intros r n1 H1 S1.
    assert (Hb : becomes (tag a) y = (tag a, y)) by (unfold becomes; rewrite bool_decide_false; [done|]; by destruct Hst as [->|[->| ->]]).
    assert (C1 : changed (m_master k) l (tag a, y) n n1).
    { destruct S1 as (S1 & S2 & S3). split; [rewrite S1, decide_True, Hl by set_solver; simpl; by rewrite decide_True, Hb|].
      split; [|done]. intros mi' l' Hne. rewrite S1. case_decide as Hd; [|done]. apply list_elem_of_singleton in Hd as ->.
      destruct Hne as [?|Hne]; [done|]. unfold remap. destruct (nslot n (m_master k) l') as [[t' w]|] eqn:Hl'; [|done].
      case_decide; [|done]. subst t'. by destruct (slot_uniq n _ l l' (tag a) z w Hwf (tag_valid a (proj1 Ha)) Hl Hl'). }
    split; [by eapply inv_changed_l1; [..|exact C1]; [|by eapply l1_is_master|]|]. split; [|exists l; apply C1].
    intros mi' l' Hne. apply C1. by left.
Qed.
Lemma run_copy n id k op a modeled t l y sv :
  node_wf n → s_cntlrs U !! id = Some k → is_l1 U id → line_address B a → inv sv n →
  nslot n L l = Some (tag a, y) → permitted op y = true →
  absent n (m_master k) (tag a) ∨ (∀ e, E e) →
  run n (copyDataFromNextLevel id op a modeled t)
    (λ _ n', inv sv n' ∧ only (m_master k) n n' ∧ ∃ l, nslot n' (m_master k) l = Some (tag a, y)).
Proof.
  intros Hwf Hk Hl1 Ha Hi Hl Hperm Hcase. destruct (cntlr_master _ _ Hk) as [_ Hok].
  pose proof (l1_is_master id k Hl1 Hk) as Hm. pose proof (l1_not_llc _ Hm) as HnL.
  destruct (l1_lookup id k Hl1 Hk) as (nx & Hnx & Hllc & _ & Hp). destruct (llc_some nx Hllc) as [kx Hkx].
  destruct (llc_lookup nx kx Hllc Hkx) as (_ & HL & _). rewrite <- HL in Hl. unfold copyDataFromNextLevel.
  eapply run_bind; [by eapply run_cntlr|]. intros c n' _ [-> (st & w & ->)].
  cbn [m_cc_block_size m_read_bandwidth m_core_id set_stats set_remote]. rewrite (k_block _ _ Hok).
  unfold next_cntlr. cbn [m_next_cache_cntlr set_stats set_remote]. rewrite Hnx.
  eapply run_bind; [by apply (run_ret n nx (λ v n', v = nx ∧ n' = n))|]. intros v n' _ [-> ->].
  assert (Hst : ∀ n z, node_wf n → nslot n (m_master kx) l = Some (tag a, y) → state_in n (m_master kx) (tag a) z → z = y).
  { intros n0 z H0 Hl0 Hz. eapply (state_uniq n0); [done|by apply (tag_valid a), Ha|exact Hz|]. left. by exists l. }
  eapply run_bind; [eapply run_permissible; [done..|apply Ha]|]. intros ok n' _ [-> (z & Hz & ->)].
  rewrite (Hst n z) by done. rewrite Hperm. eapply run_lift; [done|].
  eapply run_bind; [by eapply run_retrieveCacheBlock|]. intros buf n1 H1 [S1 Hbuf].
  eapply run_bind; [eapply run_getCacheState; [done..|apply Ha]|]. intros z' n' _ [-> Hz'].
  rewrite (Hst n1 z') by (done || by eapply slot_same).
  eapply run_same; [done|exact S1|by eapply run_bandwidth|]. intros u n2 H2 S2.
  pose proof (inv_same _ _ _ S2 Hi) as I2. rewrite HL in Hl. pose proof (slot_same _ _ _ _ _ S2 Hl) as Hl2.
  assert (Hs2 : l1_slot n2 (tag a, y)).
  { pose proof (i_llc _ _ I2 l _ Hl2) as Hv. unfold llc_slot in Hv. unfold l1_slot. simpl in *.
    rewrite bool_decide_false in Hv |- * by (by apply tag_valid, Ha). split; [|exists y; split; [by exists l|done]].
    destruct Hv as [Hv| ->]; [done|]. by destruct op. }
  eapply run_bind; [eapply run_getCacheBlockInfo; [done..|apply Ha]|]. intros loc n' _ [-> [z2 Hloc]].
  destruct loc as [l2|]; [|].
  - destruct Hcase as [Hno|HEall]; [by destruct (absent_same _ _ _ _ S2 Hno l2 z2)|].
    eapply run_bind; [by apply run_depth|]. intros fuel n' _ [-> ->].
    eapply run_bind; [by eapply run_upgrade_copy|]. intros r n3 H3 (I3 & O3 & L3). apply run_ret; [done|].
    split; [done|]. split; [|done]. eapply only_trans; [by apply only_same|exact O3].
  - destruct Hloc as [Hno2 _]. eapply run_bind; [eapply (run_insert_l1 n2 id k a y); try done; intros ? [= <-]; lia|].
    intros r n3 H3 (I3 & O3 & L3). apply run_ret; [done|].
    split; [done|]. split; [|done]. eapply only_trans; [by apply only_same|exact O3].
Qed.

(** The other first-level caches get no line. *)
Definition keeps_others mi n n' : Prop :=
  ∀ mi' t, t ≠ INVALID_TAG → mi' ≠ L → mi' ≠ mi → absent n mi' t → absent n' mi' t.
Lemma others_absent mi n n' : keeps_absent n n' → keeps_others mi n n'.
Proof. intros Hk mi' t Ht HL _. by apply Hk. Qed.
Lemma others_only mi n n' : only mi n n' → keeps_others mi n n'.
Proof. intros Ho mi' t Ht HL Hm Ha l x. rewrite Ho by done. apply Ha. Qed.
Lemma others_same mi n n' : same n n' → keeps_others mi n n'.
Proof. intros Hs. by apply others_only, only_same. Qed.
Lemma others_trans mi n1 n2 n3 : keeps_others mi n1 n2 → keeps_others mi n2 n3 → keeps_others mi n1 n3.
Proof. intros H1 H2 mi' t Ht HL Hm Ha. auto. Qed.
(** What the steps of a first-level controller preserve. *)
Definition fine sv (k : CacheCntlr) n n' : Prop := inv sv n' ∧ keeps_others (m_master k) n n'.
Lemma fine_same sv k n n1 n2 : fine sv k n n1 → same n1 n2 → fine sv k n n2.
Proof.
  intros [Hi Hk] Hs. split; [exact (inv_same _ _ _ Hs Hi)|]. eapply others_trans; [done|]. by apply others_same.
Qed.
Lemma fine_refl sv k n : inv sv n → fine sv k n n.
Proof. intros Hi. split; [done|]. by intros mi' t _ _ _ Ha. Qed.
Lemma fine_trans sv k n1 n2 n3 : fine sv k n1 n2 → fine sv k n2 n3 → fine sv k n1 n3.
Proof. intros [_ K1] [I2 K2]. split; [done|]. by eapply others_trans. Qed.

(** A line of a first-level cache that does not permit a read is not there. *)
Lemma l1_read_absent sv n mi a loc x :
  inv sv n → l1_master mi → in_u64 a → located n mi (tag a) loc x → permitted READ x = false → loc = None.
Proof.
  intros Hi Hm Ha Hloc Hp. destruct loc as [l|]; [|done]. simpl in Hloc.
  destruct (inv_holds sv n mi (tag a) x Hi Hm (tag_valid a Ha)) as [[->|[->| ->]] _]; [by exists l|done..].
Qed.
Lemma run_l1_fetch n fuel id k nx a modeled count t sv :
  node_wf n → s_cntlrs U !! id = Some k → is_l1 U id → m_next_cache_cntlr k = Some nx → line_address B a →
  inv sv n → absent n (m_master k) (tag a) → (0 < fuel)%nat →
  run n (let! w := processShmemReqFromPrevCache fuel nx id READ a modeled count PREFETCH_OTHER t in
         if bool_decide (w = MISS) then ret (w, false, false)
         else
           let! t_now := getElapsedTime id USER_THREAD in
           copyDataFromNextLevel id READ a modeled t_now;!
           setBlockOption id a PREFETCH;!
           ret (w, true, false))
    (λ h n', fine sv k n n' ∧ (h.1.2 = true → ∃ l y, provides n' k [] id READ a l y)).
Proof.
  intros Hwf Hk Hl1 Hnx Ha Hi Hno Hf. destruct (l1_lookup id k Hl1 Hk) as (nx' & Hnx' & Hllc & HnL & Hp).
  assert (nx' = nx) by congruence. subst nx'. destruct (llc_some nx Hllc) as [kx Hkx].
  destruct (llc_lookup nx kx Hllc Hkx) as (_ & HL & _).
  eapply run_bind; [by eapply (run_shmem_llc n fuel nx kx)|]. intros w n3 H3 (I3 & A3 & R3).
  assert (F3 : fine sv k n n3) by (split; [done|by apply others_absent]).
  case_bool_decide as Hw; [by apply run_ret|].
  destruct (R3 Hw) as (l & y & Hl & Hy & _). rewrite HL in Hl.
  eapply run_bind; [by eapply run_getElapsedTime|]. intros t' n' _ ->.
  eapply run_bind; [eapply (run_copy n3 id k READ a modeled t' l y sv); try done|].
  { left. apply A3; [by apply tag_valid, Ha|done|done]. }
  intros u5 n4 H4 (I4 & O4 & l4 & Hl4).
  eapply run_bind; [eapply run_setBlockOption; [done..|apply Ha|exact Hl4]|].
  intros u6 n5 H5 S5. apply run_ret; [done|]. split.
  - eapply fine_same; [|exact S5]. eapply fine_trans; [exact F3|]. split; [done|]. by apply others_only.
  - intros _. exists l4, y. split; [exact (slot_same _ _ _ _ _ S5 Hl4)|]. by split.
Qed.
(** The requests of the prefetcher of a first-level cache. *)
Lemma run_shmem_l1 n fuel id k a t sv modeled count :
  node_wf n → s_cntlrs U !! id = Some k → is_l1 U id → line_address B a → inv sv n → (1 < fuel)%nat →
  run n (processShmemReqFromPrevCache fuel id id READ a modeled count PREFETCH_OWN t) (λ _ n', fine sv k n n').
Proof.
  intros Hwf Hk Hl1 Ha Hi Hf. destruct fuel as [|fuel]; [lia|]. cbn [processShmemReqFromPrevCache].
  destruct (cntlr_master _ _ Hk) as [_ Hok]. destruct (l1_lookup id k Hl1 Hk) as (nx & Hnx & Hllc & HnL & Hp).
  destruct (llc_some nx Hllc) as [kx Hkx]. pose proof (l1_is_master id k Hl1 Hk) as Hm.
  eapply run_bind; [by eapply run_cntlr|]. intros c n' _ [-> (st & ww & ->)]. cbn [m_passthrough m_next_cache_cntlr set_stats set_remote].
  rewrite (k_passthrough _ _ Hok), Hnx. cbn [andb].
  eapply run_bind; [eapply run_permissible; [done..|apply Ha]|]. intros perm n' _ [-> (x & Hx & ->)].
  eapply run_bind; [eapply run_getCacheBlockInfo; [done..|apply Ha]|]. intros loc n' _ [-> [x' Hloc]].
  assert (x' = x) as ->.
  { eapply (state_uniq n); [done|by apply (tag_valid a), Ha|by eapply located_state|exact Hx]. }
  eapply run_bind; [by eapply run_special_modes|]. intros r n' _ [-> ->]. cbn [fst snd].
  rewrite andb_false_r. cbn [negb orb]. eapply run_lift; [done|].
  eapply run_same; [done|reflexivity|by eapply run_access_count|]. intros u n1 H1 S1.
  pose proof (inv_same _ _ _ S1 Hi) as I1. pose proof (located_same _ _ _ _ _ _ S1 Hloc) as Hloc1.
  assert (F1 : fine sv k n n1) by (eapply fine_same; [by apply fine_refl|done]).
  eapply run_bind with (Q := λ h n', fine sv k n n' ∧ (h.1.2 = true → ∃ l y, provides n' k [] id READ a l y)).
  - destruct (permitted READ x) eqn:Hperm.
    + destruct loc as [l|]; [|by destruct Hloc as [_ ->]]. eapply run_bind; [by apply (run_ret n1 l (λ l' n', l' = l ∧ n' = n1))|].
      intros l' n' _ [-> ->]. eapply run_bind; [by eapply (run_shmem_hit n1 id k [])|].
      intros y n2 H2 (I2 & A2 & P2). apply run_ret; [done|]. split; [|intros _; by exists l, x].
      eapply fine_trans; [exact F1|]. split; [done|]. by apply others_absent.
    + rewrite (l1_read_absent sv n1 (m_master k) a loc x I1 Hm (proj1 Ha) Hloc1 Hperm) in *.
      eapply run_same; [done|exact S1|apply run_when_same; [done|by eapply run_incrElapsedTime_access]|].
      intros u2 n2 H2 S2. pose proof (inv_same _ _ _ S2 Hi) as I2. simpl block_state. apply (run_bind n2 _ _ (λ s n', s = CacheState.INVALID ∧ n' = n2)); [by apply run_ret|].
      intros s n' _ [-> ->]. rewrite bool_decide_false by done. simpl when.
      eapply run_bind with (Q := λ _ n', n' = n2); [by apply run_ret|]. intros u3 n' _ ->.
      eapply run_bind with (Q := λ _ n', n' = n2); [by apply run_ret|]. intros u4 n' _ ->.
      eapply run_conseq; [eapply (run_l1_fetch n2 fuel id k nx a modeled count t sv); try done; [|lia]|].
      { destruct Hloc as [Hno _]. by eapply absent_same. }
      intros h n3 _ [F3 P3]. split; [|done]. eapply fine_trans; [|exact F3]. eapply fine_same; [by apply fine_refl|done].
  - intros [[w hit] pfhit] n2 H2 (F2 & P2). cbn [fst snd] in P2. destruct hit.
    + destruct (P2 eq_refl) as (l & y & Pr). eapply run_conseq; [by eapply (run_access_end n2 id k _ _ _ a l y)|].
      intros w' n3 H3 [-> S3]. by eapply fine_same.
    + eapply run_conseq; [by eapply (run_access_end n2 id k [] 0%nat READ a (0, 0)%nat x)|].
      intros w' n3 H3 [-> S3]. by eapply fine_same.
Qed.

(** ** Operations of a core *)
Record op_ok (o : MemOp) : Prop := {
  o_line : line_address B (mo_address o);
  o_offset : 0 ≤ mo_offset o;
  o_length : 0 < mo_data_length o;
  o_end : mo_offset o + mo_data_length o ≤ B;
  o_data d : mo_data_buf o = Some d → mo_data_length o ≤ Z.of_nat (length d)
}.
(** What a thread that waits does next. *)
Definition cont_ok (c : Cont) : Prop :=
  match c with
  | KMem id o _ _ _ => is_l1 U id ∧ op_ok o
  | KPrefetch id a _ _ _ _ _ => line_address B a ∧ (is_l1 U id ∨ is_llc U id)
  end.
Definition outcome_ok (r : Outcome) : Prop := match r with Returned _ _ => True | Blocked c => cont_ok c end.

Lemma run_accessCache n id k op a off data len upd l x sv :
  node_wf n → s_cntlrs U !! id = Some k → is_l1 U id → line_address B a → inv sv n →
  0 ≤ off → 0 < len → off + len ≤ B → (∀ d, data = Some d → len ≤ Z.of_nat (length d)) →
  nslot n (m_master k) l = Some (tag a, x) → permitted op x = true →
  run n (accessCache id op a off data len upd) (λ _, same n).
Proof.
  intros Hwf Hk Hl1 Ha Hi Ho Hlen Hol Hd Hl Hperm. pose proof (l1_is_master id k Hl1 Hk) as Hm.
  destruct (l1_lookup id k Hl1 Hk) as (nx & Hnx & Hllc & HnL & Hp). destruct (llc_some nx Hllc) as [kx Hkx].
  destruct (aligned_offset a off len Ha Ho Hlen Hol) as (Hu & Hr & Ht & Hland). unfold accessCache.
  eapply run_bind; [by eapply run_cntlr|]. intros c n' _ [-> (st & w & ->)].
  cbn [m_cache_writethrough m_next_cache_cntlr set_stats set_remote]. unfold next_cntlr.
  cbn [m_next_cache_cntlr set_stats set_remote]. rewrite Hu, Hnx.
  assert (Hacc : ∀ {A} acc (f : option (nat * nat) * option (list Z) → A), (∀ buff, acc = STORE (Some buff) → len ≤ Z.of_nat (length buff)) →
    run n (on_cache id (λ c, let? r := accessSingleLine (a + off) acc len upd c in Ok (f r.1, r.2))) (λ _, same n)).
  { intros A acc f Hb. apply (run_on_cache n id k); [done..|]. intros m Hmm Hmok. right.
    destruct (access_slot _ (m_cache m) (a + off) acc len upd (m_wf _ _ Hmok)) as (loc & out & c & He & Hc & Hbase & Hs & _);
      [done| |done|].
    { split; [lia|]. rewrite (m_block _ _ Hmok), Hland. lia. }
    exists (f (loc, out)), c. rewrite He. split; [done|]. do 2 (split; [done|]). intros n'. by eapply to_cache_same. }
  destruct op.
  - by apply (Hacc _ (LOAD (bool_decide (is_Some data))) snd).
  - by apply (Hacc _ (LOAD (bool_decide (is_Some data))) snd).
  - eapply run_same; [done|reflexivity|apply (Hacc _ (STORE data) (λ _, tt)); naive_solver|]. intros u n1 H1 S1.
    eapply run_same; [done|exact S1| |intros u' n2 H2 S2; by apply run_ret].
    destruct (m_cache_writethrough k); [|by apply run_ret]. rewrite bool_decide_true by (by eexists).
    eapply run_lift; [done|]. eapply run_bind; [by apply (run_ret n1 nx (λ v n', v = nx ∧ n' = n1))|]. intros v n' _ [-> ->].
    eapply run_bind; [by apply run_depth|]. intros fuel n' _ [-> ->]. pose proof (t_depth U HS).
    assert (x = CacheState.MODIFIED) as -> by (by destruct x).
    destruct (inv_holds sv n _ (tag a) CacheState.MODIFIED Hi Hm (tag_valid a (proj1 Ha))) as [_ (y & Hy & Hmm)]; [by exists l|].
    rewrite (Hmm eq_refl) in Hy. eapply (run_writeCacheBlock n1 nx kx); try done; [right; by eapply holds_same|lia|].
    pose proof (i_evict _ _ Hi) as He. destruct S1 as (_ & _ & S1). rewrite S1, He. done.
Qed.

(** *** Prefetches *)
Lemma run_next_prefetch n id k (l : list Z) :
  node_wf n → s_cntlrs U !! id = Some k → Forall (line_address B) l →
  run n (next_prefetch id l) (λ r n', n' = n ∧ Forall (line_address B) r.2 ∧ ∀ a, r.1 = Some a → line_address B a).
Proof.
  intros Hwf Hk Hl. induction Hl as [|a l Ha Hl IH]; cbn [next_prefetch]; [by apply run_ret|].
  eapply run_bind; [eapply run_permissible; [done..|apply Ha]|]. intros ok n' _ [-> _].
  destruct ok; [done|]. apply run_ret; [done|]. split; [done|]. split; [done|]. by intros ? [= <-].
Qed.
Definition level_ok (k0 : CacheCntlr) id : Prop := (s_cntlrs U !! id = Some k0 ∧ is_l1 U id) ∨ is_llc U id.
Lemma run_prefetch_req n id k0 a modeled count t sv :
  node_wf n → level_ok k0 id → line_address B a → inv sv n →
  run n (processShmemReqFromPrevCache (length (s_cntlrs U)) id id READ a modeled count PREFETCH_OWN t) (λ _ n', fine sv k0 n n').
Proof.
  intros Hwf Hid Ha Hi. pose proof (t_depth U HS). destruct Hid as [[Hk Hl1]|Hllc].
  - eapply (run_shmem_l1 n _ id k0); try done; lia.
  - destruct (llc_some id Hllc) as [k Hk]. eapply run_conseq; [eapply (run_shmem_llc n _ id k); try done; lia|].
    intros w n1 _ (I1 & A1 & _). split; [done|]. by apply others_absent.
Qed.
Lemma run_doPrefetch n id k0 k a t sv :
  node_wf n → level_ok k0 id → s_cntlrs U !! id = Some k → line_address B a → inv sv n →
  run n (doPrefetch id a t) (λ _ n', fine sv k0 n n').
Proof.
  intros Hwf Hid Hk Ha Hi. unfold doPrefetch.
  eapply run_same; [done|reflexivity|by eapply run_add_stat|]. intros u1 n1 H1 S1.
  eapply run_bind; [by eapply run_getElapsedTime|]. intros tb n' _ ->.
  eapply run_same; [done|exact S1|by eapply run_setElapsedTime|]. intros u2 n2 H2 S2.
  eapply run_bind; [by apply run_depth|]. intros fuel n' _ [-> ->].
  eapply run_bind; [eapply (run_prefetch_req n2 id k0); try done; exact (inv_same _ _ _ S2 Hi)|]. intros w n3 H3 F3.
  assert (F4 : fine sv k0 n n3) by (eapply fine_trans; [eapply fine_same; [by apply fine_refl|exact S2]|done]).
  case_bool_decide; [by apply run_ret|].
  eapply run_bind; [by eapply run_setElapsedTime|]. intros u4 n4 H4 S4. apply run_ret; [done|]. by eapply fine_same.
Qed.
Lemma level_some k0 id : level_ok k0 id → ∃ k, s_cntlrs U !! id = Some k.
Proof. intros [[Hk _]|Hllc]; [by exists k0|by apply llc_some]. Qed.
Lemma level_next k0 id k : level_ok k0 id → s_cntlrs U !! id = Some k →
  match m_next_cache_cntlr k with Some nx => is_l1 U id ∧ is_llc U nx | None => True end.
Proof.
  intros [[Hk0 Hl1]|Hllc] Hk.
  - destruct (l1_lookup id k Hl1 Hk) as (nx & -> & ? & _). done.
  - by destruct (llc_lookup id k Hllc Hk) as (-> & _).
Qed.
Lemma run_Prefetch n fuel id k0 t w data sv :
  node_wf n → level_ok k0 id → inv sv n → (0 < fuel)%nat → (is_l1 U id → 1 < fuel)%nat →
  run n (Prefetch fuel id t w data) (λ r n', fine sv k0 n n' ∧ outcome_ok r ∧ ∀ i o t1 t2 t3, r ≠ Blocked (KMem i o t1 t2 t3)).
Proof.
  revert n id. induction fuel as [|fuel IH]; intros n id Hwf Hid Hi Hf1 Hf2; [lia|]. cbn [Prefetch].
  destruct (level_some k0 id Hid) as [k Hk]. pose proof (level_next k0 id k Hid Hk) as Hnext.
  eapply run_bind; [by eapply run_cntlr|]. intros c n' _ [-> (st & ww & ->)]. cbn [m_next_cache_cntlr set_stats set_remote].
  eapply run_bind; [by eapply run_master|]. intros m n' _ [-> Hm]. pose proof (n_master n Hwf _ m Hm) as Hok.
  eapply run_bind with (Q := λ r n', n' = n ∧ Forall (line_address B) r.2 ∧ ∀ a, r.1 = Some a → line_address B a).
  { destruct (_ <=? _); [by eapply run_next_prefetch; [..|destruct Hok]|]. apply run_ret; [done|]. by destruct Hok. }
  intros r n' _ (-> & Hr2 & Hr1). eapply run_same; [done|reflexivity| |].
  { eapply (run_set_prefetch n id k m_prefetcher (λ _, r.2)); [done..|]. intros m' _ Hm'. split; [by destruct Hm'|done]. }
  intros u1 n1 H1 S1. pose proof (inv_same _ _ _ S1 Hi) as I1.
  assert (F1 : fine sv k0 n n1) by (eapply fine_same; [by apply fine_refl|done]).
  eapply run_bind with (Q := λ b n', fine sv k0 n n' ∧ ∀ a tb, b = Some (a, tb) → line_address B a).
  { destruct (r.1) as [a|]; [|by apply run_ret]. destruct (a =? INVALID_ADDRESS); [by apply run_ret|].
    eapply run_bind; [eapply (run_doPrefetch n1 id k0 k); try done; by apply Hr1|]. intros b n2 H2 F2. apply run_ret; [done|].
    split; [by eapply fine_trans|]. destruct b; simpl; [|done]. intros ? ? [= <- <-]. by apply Hr1. }
  intros b n2 H2 [F2 Hb]. destruct b as [[a tb]|].
  { apply run_ret; [done|]. split; [done|]. split; [|done]. split; [by eapply Hb|]. destruct Hid as [[_ ?]|?]; auto. }
  eapply run_bind with (Q := λ _, same n2).
  { apply run_when_same; [done|]. eapply (run_set_prefetch n2 id k m_prefetcher m_prefetch_list); [done..|].
    intros m' _ Hm'. by destruct Hm'. }
  intros u3 n3 H3 S3. assert (F3 : fine sv k0 n n3) by (by eapply fine_same).
  destruct (m_next_cache_cntlr k) as [nx|]; [|by apply run_ret]. destruct Hnext as [Hl1 Hllc].
  specialize (Hf2 Hl1). eapply run_conseq; [apply IH; [done|by right|apply F3|lia|]|].
  - intros Hl1'. exfalso. destruct (llc_some nx Hllc) as [kx Hkx]. destruct (l1_lookup nx kx Hl1' Hkx) as (nx' & Hnx' & _).
    destruct (llc_lookup nx kx Hllc Hkx) as (? & _). congruence.
  - intros r' n4 _ (F4 & Hr). split; [by eapply fine_trans|done].
Qed.

(** *** The phases of an operation *)
Definition not_waiting (r : Outcome) : Prop := ∀ i o t1 t2 t3, r ≠ Blocked (KMem i o t1 t2 t3).
Lemma run_finishMemOp n id k o w hit pfhit l x t sv :
  node_wf n → s_cntlrs U !! id = Some k → is_l1 U id → op_ok o → inv sv n →
  nslot n (m_master k) l = Some (tag (mo_address o), x) → permitted (mo_mem_op_type o) x = true →
  run n (finishMemOp id o w hit pfhit (Some l) t) (λ r n', fine sv k n n' ∧ outcome_ok r ∧ not_waiting r).
Proof.
  intros Hwf Hk Hl1 [O1 O2 O3 O4 O5] Hi Hl Hperm. unfold finishMemOp.
  destruct (l1_lookup id k Hl1 Hk) as (nx & Hnx & Hllc & HnL & Hp).
  eapply run_bind; [by eapply run_cntlr|]. intros c n' _ [-> (st & ww & ->)].
  cbn [m_next_cache_cntlr m_mem_component set_stats set_remote]. apply run_gets.
  rewrite Hnx, (n_env_eq n Hwf), (t_callbacks U HS), andb_false_r. cbn [when].
  eapply run_bind with (Q := λ _ n', n' = n); [by apply run_ret|]. intros u n' _ ->.
  eapply run_same; [done|reflexivity|by eapply run_accessCache|]. intros data n1 H1 S1.
  eapply run_bind; [by eapply run_getElapsedTime|]. intros tn n' _ ->.
  eapply run_same; [done|exact S1|apply run_when_same; [done|by eapply run_add_stat]|]. intros u2 n2 H2 S2.
  eapply run_same; [done|exact S2|by eapply run_add_stat|]. intros u3 n3 H3 S3.
  eapply run_same; [done|exact S3|apply run_when_same; [done|by eapply run_trainPrefetcher]|]. intros u4 n4 H4 S4.
  pose proof (inv_same _ _ _ S4 Hi) as I4.
  assert (F4 : fine sv k n n4) by (eapply fine_same; [by apply fine_refl|done]).
  destruct (_ && _); [|by apply run_ret].
  eapply run_bind; [by apply run_depth|]. intros fuel n' _ [-> ->]. pose proof (t_depth U HS).
  eapply run_conseq; [eapply (run_Prefetch n4 _ id k); try done; [by left|lia..]|].
  intros r n5 _ (F5 & Hr & Hw). split; [by eapply fine_trans|done].
Qed.
Lemma run_memop_hit n id k o l t x :
  node_wf n → s_cntlrs U !! id = Some k → nslot n (m_master k) l = Some (t, x) →
  run n (memop_hit id o l) (λ _, same n).
Proof.
  intros Hwf Hk Hl. unfold memop_hit. eapply run_bind; [by eapply run_cntlr|]. intros c n' _ [-> _].
  eapply run_same; [done|reflexivity|by eapply run_incrElapsedTime_access|]. intros u1 n1 H1 S1.
  eapply run_same; [done|exact S1|eapply run_use_line; [done..|exact (slot_same _ _ _ _ _ S1 Hl)]|]. intros pf n2 H2 S2.
  eapply run_same; [done|exact S2| |].
  { apply run_when_same; [done|]. eapply run_bind; [by eapply run_getElapsedTime|]. intros t' n' _ ->.
    eapply run_bind; [by eapply run_master|]. intros m n' _ [-> _]. cbn zeta. apply run_when_same; [done|].
    apply run_seq; [done|by eapply run_add_stat|]. intros n3 H3. by eapply run_incrElapsedTime. }
  intros u3 n3 H3 S3. eapply run_same; [done|exact S3| |intros u4 n4 H4 S4; by apply run_ret].
  apply run_when_same; [done|]. eapply run_bind; [by eapply run_mshr_delay|]. intros b n4 H4 S4. by apply run_ret.
Qed.
Lemma run_memop_filled n id k o w t1 t2 t3 l y sv :
  node_wf n → s_cntlrs U !! id = Some k → is_l1 U id → op_ok o → inv sv n →
  nslot n L l = Some (tag (mo_address o), y) → permitted (mo_mem_op_type o) y = true →
  absent n (m_master k) (tag (mo_address o)) ∨ (∀ e, E e) →
  run n (memop_filled id o w t1 t2 t3) (λ r n', fine sv k n n' ∧ outcome_ok r ∧ not_waiting r).
Proof.
  intros Hwf Hk Hl1 Ho Hi Hl Hperm Hcase. pose proof (o_line _ Ho) as Ha. unfold memop_filled.
  eapply run_bind; [by eapply run_cntlr|]. intros c n' _ [-> _].
  eapply run_bind; [by eapply run_getElapsedTime|]. intros tn n' _ ->.
  eapply run_bind; [by eapply (run_copy n id k)|]. intros u n1 H1 (I1 & O1 & l1 & L1).
  eapply run_bind; [eapply run_getCacheBlockInfo; [done..|apply Ha]|]. intros loc n' _ [-> [x Hloc]].
  pose proof (tag_valid _ (proj1 Ha)) as Ht.
  assert (loc = Some l1) as ->.
  { destruct loc as [l2|]; [|destruct Hloc as [Hno _]; by destruct (Hno l1 y)]. f_equal.
    by destruct (slot_uniq n1 (m_master k) l1 l2 _ y x H1 Ht L1 Hloc). }
  eapply run_bind; [eapply run_permissible; [done..|apply Ha]|]. intros ok n' _ [-> (z & Hz & ->)].
  assert (z = y) as -> by (eapply (state_uniq n1); [done|exact Ht|exact Hz|by left; exists l1]).
  rewrite Hperm. eapply run_lift; [done|].
  eapply run_same; [done|reflexivity| |].
  { apply run_when_same; [done|]. eapply run_bind; [by eapply run_getElapsedTime|]. intros t' n' _ ->. by eapply run_set_contention. }
  intros u2 n2 H2 S2. eapply run_conseq; [eapply (run_finishMemOp n2 id k o w _ _ l1 y); try done|].
  - exact (inv_same _ _ _ S2 I1).
  - exact (slot_same _ _ _ _ _ S2 L1).
  - intros r n3 _ (F3 & Hr). split; [|done]. eapply fine_trans; [|exact F3]. eapply fine_same; [|exact S2].
    split; [done|]. by apply others_only.
Qed.
(** No first-level cache but one has the line. *)
Definition sole n mi (t : Z) : Prop := ∀ mi', l1_master mi' → mi' ≠ mi → absent n mi' t.
Lemma sole_others n n' mi a : in_u64 a → keeps_others mi n n' → sole n mi (tag a) → sole n' mi (tag a).
Proof. intros Ha Hk Hs mi' Hm Hne. apply Hk; auto using tag_valid, l1_not_llc. Qed.
Lemma provides_sole n k kx id op a l y :
  s_cntlrs U !! id = Some k → provides n kx (prevs U) id op a l y → op ≠ READ → sole n (m_master k) (tag a).
Proof.
  intros Hk (_ & _ & Hal) Hop mi (i & -> & Hi)%list_elem_of_fmap Hne. apply (Hal Hop i Hi).
  intros ->. by rewrite (master_of_eq id k Hk) in Hne.
Qed.

Lemma run_leave_l1 n id k op a x sv :
  node_wf n → s_cntlrs U !! id = Some k → is_l1 U id → line_address B a → inv sv n →
  state_in n (m_master k) (tag a) x → permitted op x = false →
  run n (let! s := getCacheState id a in
         when (negb (bool_decide (s = CacheState.INVALID))) (invalidateCacheBlock id a))
    (λ _ n', fine sv k n n' ∧ absent n' (m_master k) (tag a)).
Proof.
  intros Hwf Hk Hl1 Ha Hi Hx Hperm. pose proof (tag_valid _ (proj1 Ha)) as Ht. pose proof (l1_is_master id k Hl1 Hk) as Hm.
  eapply run_bind; [eapply run_getCacheState; [done..|apply Ha]|]. intros s n' _ [-> Hs].
  assert (s = x) as -> by (by eapply (state_uniq n)).
  destruct Hx as [[l Hl]|[Hno ->]]; [|apply run_ret; [done|split; [by apply fine_refl|done]]].
  destruct (inv_holds sv n _ (tag a) x Hi Hm Ht) as [Hst _]; [by exists l|].
  assert (x ≠ CacheState.INVALID ∧ x ≠ CacheState.MODIFIED) as [Hx1 Hx2].
  { destruct Hst as [->|[->| ->]]; [done..|]. by destruct op. }
  rewrite bool_decide_false by done. simpl.
  eapply run_conseq; [eapply run_invalidateCacheBlock; try done; apply Ha|]. intros u n1 _ C1. split; [split|].
  - by eapply inv_changed_l1; [| | |exact C1].
  - apply others_only. intros mi' l' Hne. apply C1. by left.
  - intros l' z Hl'. destruct C1 as (C1 & C2 & _). destruct (decide (l' = l)) as [->|Hne]; [congruence|].
    rewrite C2 in Hl' by auto. by destruct (slot_uniq n _ l l' _ x z Hwf Ht Hl Hl').
Qed.

Lemma run_assoc {A C G} n (m : M A) (f : A → M C) (g : C → M G) R :
  run n (st_bind (st_bind m f) g) R → run n (st_bind m (λ a, st_bind (f a) g)) R.
Proof. unfold run, st_bind. by destruct (m n) as [[a n']|e]. Qed.
Lemma run_assoc' {A C G} n (m : M A) (f : A → M C) (g : C → M G) R :
  run n (st_bind m (λ a, st_bind (f a) g)) R → run n (st_bind (st_bind m f) g) R.
Proof. unfold run, st_bind. by destruct (m n) as [[a n']|e]. Qed.
Lemma run_mshr_avail n id k (b : bool) t :
  node_wf n → s_cntlrs U !! id = Some k →
  run n (if b then
           let! m := master id in
           let t' := getStartTime t (m_l1_mshr m) in
           lift (log_assert (t <=? t') "t_mshr_avail < t_miss_begin");!
           incrElapsedTime id (time_sub t' t) USER_THREAD;!
           add_stat id "mshr_latency" 0 (time_sub t' t);!
           ret t'
         else ret t) (λ _, same n).
Proof.
  intros Hwf Hk. destruct b; [|by apply run_ret]. eapply run_bind; [by eapply run_master|]. intros m n' _ [-> _]. cbn zeta.
  assert (t <=? getStartTime t (m_l1_mshr m) = true) as -> by (apply Z.leb_le, getStartTime_ge). eapply run_lift; [done|].
  eapply run_same; [done|reflexivity|by eapply run_incrElapsedTime|]. intros u1 n1 H1 S1.
  eapply run_same; [done|exact S1|by eapply run_add_stat|]. intros u2 n2 H2 S2. by apply run_ret.
Qed.
Definition locked_ok (o : MemOp) : Prop :=
  mo_lock_signal o = UNLOCK → E (ErrLog "Expected to find address in L1 Cache").
Lemma run_memop_miss n id k o t x sv :
  node_wf n → s_cntlrs U !! id = Some k → is_l1 U id → op_ok o → inv sv n → locked_ok o →
  state_in n (m_master k) (tag (mo_address o)) x → permitted (mo_mem_op_type o) x = false →
  run n (memop_miss id o t) (λ r n', fine sv k n n' ∧ outcome_ok r ∧
    (not_waiting r → mo_mem_op_type o ≠ READ → sole n' (m_master k) (tag (mo_address o)))).
Proof.
  intros Hwf Hk Hl1 Ho Hi Hlock Hx Hperm. pose proof (o_line _ Ho) as Ha. unfold memop_miss.
  destruct (l1_lookup id k Hl1 Hk) as (nx & Hnx & Hllc & HnL & Hp). destruct (llc_some nx Hllc) as [kx Hkx].
  destruct (llc_lookup nx kx Hllc Hkx) as (_ & HL & _).
  eapply run_bind; [by eapply run_cntlr|]. intros c n' _ [-> (st & ww & ->)].
  cbn [m_passthrough m_has_l1_mshr set_stats set_remote]. unfold next_cntlr. cbn [m_next_cache_cntlr set_stats set_remote]. rewrite Hnx.
  eapply run_same; [done|reflexivity|apply run_when_same; [done|by eapply run_incrElapsedTime_access]|]. intros u1 n1 H1 S1.
  eapply run_bind; [by eapply run_getElapsedTime|]. intros tm n' _ ->.
  eapply run_same; [done|exact S1|by eapply run_mshr_avail|]. intros ta n2 H2 S2.
  apply run_assert; [intros Hu%negb_false_iff%bool_decide_eq_true; by apply Hlock|]. intros _.
  apply run_assoc. eapply run_bind; [eapply (run_leave_l1 n2 id k (mo_mem_op_type o) _ x sv); try done|].
  { exact (inv_same _ _ _ S2 Hi). }
  { destruct Hx as [Hx|[Hno ->]]; [left; by eapply holds_same|right; by split; [eapply absent_same|]]. }
  intros u3 n3 H3 [F3 A3]. assert (F0 : fine sv k n n3).
  { eapply fine_trans; [|exact F3]. eapply fine_same; [by apply fine_refl|exact S2]. }
  eapply run_bind; [by apply (run_ret n3 nx (λ v n', v = nx ∧ n' = n3))|]. intros v n' _ [-> ->].
  eapply run_bind; [by apply run_depth|]. intros fuel n' _ [-> ->]. pose proof (t_depth U HS).
  eapply run_bind; [eapply (run_shmem_llc n3 _ nx kx); try done; [apply F3|lia]|]. intros w n4 H4 (I4 & A4 & R4).
  assert (F4 : fine sv k n n4) by (eapply fine_trans; [exact F0|]; split; [done|by apply others_absent]).
  case_bool_decide as Hw.
  { apply run_ret; [done|]. split; [done|]. split; [done|]. intros Hn. exfalso. by eapply Hn. }
  destruct (R4 Hw) as (l & y & Pr). pose proof Pr as (Hl & Hy & _). rewrite HL in Hl.
  eapply run_conseq; [eapply (run_memop_filled n4 id k o w _ _ _ l y); try done|].
  - left. apply A4; [by apply tag_valid, Ha|done..].
  - intros r n5 _ (F5 & Hr & _). split; [by eapply fine_trans|]. split; [done|]. intros _ Hop.
    eapply sole_others; [apply Ha|apply F5|]. by eapply provides_sole.
Qed.
Lemma run_processMemOpFromCore n id k o x sv :
  node_wf n → s_cntlrs U !! id = Some k → is_l1 U id → op_ok o → inv sv n → locked_ok o →
  state_in n (m_master k) (tag (mo_address o)) x →
  run n (processMemOpFromCore id o) (λ r n', fine sv k n n' ∧ outcome_ok r ∧
    (permitted (mo_mem_op_type o) x = false → not_waiting r → mo_mem_op_type o ≠ READ →
     sole n' (m_master k) (tag (mo_address o)))).
Proof.
  intros Hwf Hk Hl1 Ho Hi Hlock Hx. pose proof (o_line _ Ho) as Ha. pose proof (tag_valid _ (proj1 Ha)) as Ht.
  destruct (cntlr_master _ _ Hk) as [_ Hok]. pose proof (t_block U HS). unfold processMemOpFromCore.
  eapply run_bind; [by eapply run_cntlr|]. intros c n' _ [-> (st & ww & ->)].
  cbn [m_passthrough m_cc_block_size m_mem_component set_stats set_remote]. rewrite (k_block _ _ Hok), (k_passthrough _ _ Hok).
  assert (Z.land (mo_address o) (B - 1) =? 0 = true) as ->.
  { apply Z.eqb_eq. rewrite <- (u32_id (B - 1)) by (unfold in_u32; lia). by apply aligned_land. }
  eapply run_lift; [done|]. pose proof (o_offset _ Ho) as Ho1. pose proof (o_length _ Ho) as Ho2. pose proof (o_end _ Ho) as Ho3.
  assert (u32 (mo_offset o + mo_data_length o) <=? B = true) as ->.
  { rewrite u32_id by (unfold in_u32; lia). by apply Z.leb_le. }
  eapply run_lift; [done|].
  eapply run_bind; [by eapply run_getElapsedTime|]. intros t n' _ ->.
  eapply run_bind; [eapply run_permissible; [done..|apply Ha]|]. intros perm n' _ [-> (x' & Hx' & ->)].
  assert (x' = x) as -> by (by eapply (state_uniq n)).
  eapply run_bind; [eapply run_getCacheBlockInfo; [done..|apply Ha]|]. intros loc n' _ [-> [x' Hloc]].
  assert (x' = x) as -> by (eapply (state_uniq n); [done|exact Ht|by eapply located_state|done]).
  eapply run_bind; [by eapply run_special_modes|]. intros r n' _ [-> ->]. cbn [fst snd].
  eapply run_same; [done|reflexivity| |].
  { apply run_when_same; [done|]. eapply run_bind; [by eapply run_count_access|]. intros u n1 H1 S1.
    eapply run_bind; [eapply run_block_state; [done..|exact (located_same _ _ _ _ _ _ S1 Hloc)]|]. intros s n' _ [-> ->].
    eapply run_conseq; [by eapply run_updateCounters|]. intros u' n2 _ S2. exact (same_trans _ _ _ S1 S2). }
  intros u1 n1 H1 S1. pose proof (inv_same _ _ _ S1 Hi) as I1.
  assert (F1 : fine sv k n n1) by (eapply fine_same; [by apply fine_refl|done]).
  destruct (permitted (mo_mem_op_type o) x) eqn:Hperm.
  - destruct loc as [l|]; [|by destruct Hloc as [_ ->], (mo_mem_op_type o)]. simpl in Hloc.
    eapply run_bind; [by apply (run_ret n1 l (λ l' n', l' = l ∧ n' = n1))|]. intros l' n' _ [-> ->].
    eapply run_same; [done|exact S1|eapply run_memop_hit; [done..|exact (slot_same _ _ _ _ _ S1 Hloc)]|]. intros pf n2 H2 S2.
    eapply run_conseq; [eapply (run_finishMemOp n2 id k o _ _ _ l x); try done|].
    + exact (inv_same _ _ _ S2 Hi).
    + exact (slot_same _ _ _ _ _ S2 Hloc).
    + intros r n3 _ (F3 & Hr & _). split; [|by split]. eapply fine_trans; [|exact F3].
      eapply fine_same; [by apply fine_refl|exact S2].
  - eapply run_conseq; [eapply (run_memop_miss n1 id k o t x); try done|].
    + exact (located_state _ _ _ _ _ (located_same _ _ _ _ _ _ S1 Hloc)).
    + intros r n2 _ (F2 & Hr & Hs). split; [by eapply fine_trans|]. split; [done|]. intros _. exact Hs.
Qed.
(** A thread that was woken up. *)
Lemma run_resume n c sv :
  node_wf n → inv sv n → cont_ok c → (∀ e, E e) →
  run n (resume c) (λ r n', inv sv n' ∧ outcome_ok r ∧
    match c with
    | KMem id o _ _ _ => mo_mem_op_type o ≠ READ → sole n' (master_of U id) (tag (mo_address o))
    | KPrefetch _ _ _ _ _ _ _ => True
    end).
Proof.
  intros Hwf Hi Hc HEall. pose proof (t_depth U HS) as Hd. destruct c as [id o t1 t2 t3|id a t1 t2 t3 w data]; cbn [resume].
  - destruct Hc as [Hl1 Ho]. destruct (l1_some id Hl1) as [k Hk]. pose proof (o_line _ Ho) as Ha.
    destruct (l1_lookup id k Hl1 Hk) as (nx & Hnx & Hllc & HnL & Hp). destruct (llc_some nx Hllc) as [kx Hkx].
    destruct (llc_lookup nx kx Hllc Hkx) as (_ & HL & _).
    eapply run_bind; [by eapply run_cntlr|]. intros c n' _ [-> (st & ww & ->)]. unfold next_cntlr.
    cbn [m_next_cache_cntlr set_stats set_remote]. rewrite Hnx.
    eapply run_bind; [by apply (run_ret n nx (λ v n', v = nx ∧ n' = n))|]. intros v n' _ [-> ->].
    eapply run_bind; [by apply run_depth|]. intros fuel n' _ [-> ->].
    eapply run_bind; [eapply (run_shmem_llc n _ nx kx); try done; lia|]. intros w n4 H4 (I4 & A4 & R4).
    apply run_assert; [done|]. intros Hw%negb_true_iff%bool_decide_eq_false. destruct (R4 Hw) as (l & y & Pr).
    pose proof Pr as (Hl & Hy & _). rewrite HL in Hl.
    eapply run_conseq; [eapply (run_memop_filled n4 id k o w _ _ _ l y); try done; by right|]. intros r n5 _ (F5 & Hr & _).
    split; [apply F5|]. split; [done|]. intros Hop. rewrite (master_of_eq id k Hk).
    eapply sole_others; [apply Ha|apply F5|]. by eapply provides_sole.
  - destruct Hc as [Ha Hid]. assert (∃ k, level_ok k id ∧ s_cntlrs U !! id = Some k) as (k & Hlv & Hk).
    { destruct Hid as [Hl|Hl]; [destruct (l1_some id Hl) as [k Hk]|destruct (llc_some id Hl) as [k Hk]]; exists k; split; try done; [by left|by right]. }
    pose proof (level_next k id k Hlv Hk) as Hnext.
    eapply run_bind; [by eapply run_cntlr|]. intros c n' _ [-> (st & ww & ->)]. cbn [m_next_cache_cntlr set_stats set_remote].
    eapply run_bind; [by apply run_depth|]. intros fuel n' _ [-> ->].
    eapply run_bind; [by eapply (run_prefetch_req n id k)|]. intros w' n1 H1 F1. apply run_assert; [done|]. intros _.
    eapply run_same; [done|reflexivity|by eapply run_setElapsedTime|]. intros u2 n2 H2 S2.
    eapply run_same; [done|exact S2| |].
    { eapply (run_set_prefetch n2 id k m_prefetcher m_prefetch_list); [done..|]. intros m' _ Hm'. by destruct Hm'. }
    intros u3 n3 H3 S3. pose proof (inv_same _ _ _ S3 (proj1 F1)) as I3.
    destruct (m_next_cache_cntlr k) as [nx|]; [|by apply run_ret]. destruct Hnext as [_ Hllc].
    eapply run_conseq; [eapply (run_Prefetch n3 _ nx k); try done; [by right|lia..]|]. intros r n4 _ (F4 & Hr & _).
    split; [apply F4|done].
Qed.

(** ** Messages from the directory

    Nothing is claimed about messages that make the code stop. *)
Section Messages.
Context (HA : ∀ e, E e).

Lemma run_any {A C} n (m : M A) (f : A → M C) R :
  (∀ a n', m n = Ok (a, n') → run n' (f a) R) → run n (st_bind m f) R.
Proof. intros Hf. unfold run, st_bind. destruct (m n) as [[a n']|e]; simpl; [by apply Hf|done]. Qed.

(** A line of the last level and its copies change to state [x]. *)
Lemma inv_update_all sv a x n n' :
  node_wf n → inv sv n → in_u64 a →
  x = CacheState.INVALID ∨ x = CacheState.SHARED ∨ x = CacheState.MODIFIED →
  snooped ((master_of U <$> prevs U) ++ [L]) (tag a) x n n' → inv sv n'.
Proof.
  intros Hwf Hi Ha Hx (S1 & S2 & S3). pose proof (tag_valid a Ha) as Ht. pose proof Hi as [I1 I2 I3 I4 I5].
  assert (SL : ∀ l, nslot n' L l = remap (tag a) x (nslot n L l)) by (intros l; by rewrite S1, decide_True by set_solver).
  assert (Hb : becomes (tag a) x = (INVALID_TAG, CacheState.INVALID) ∧ x = CacheState.INVALID ∨
               becomes (tag a) x = (tag a, x) ∧ l1_state x).
  { unfold becomes, l1_state. destruct Hx as [->|[->| ->]]; [by left|right; auto..]. }
  constructor.
  - intros mi l v Hm. rewrite S1, decide_True by (apply elem_of_app; by left).
    destruct (nslot n mi l) as [[t y]|] eqn:Hl; [|done]. pose proof (I1 mi l _ Hm Hl) as Hs. unfold l1_slot in Hs. simpl in Hs.
    unfold remap; simpl. destruct (decide (t = tag a)) as [Hd|Hd]; intros [= <-].
    + subst t. rewrite bool_decide_false in Hs by done. destruct Hs as [_ (z & [lz Hz] & _)].
      destruct Hb as [[-> _]|[-> Hst]]; [done|]. unfold l1_slot. simpl. rewrite bool_decide_false by done.
      split; [done|]. exists x. split; [|done]. exists lz. rewrite SL, Hz. simpl. rewrite decide_True by done. unfold becomes.
      rewrite bool_decide_false; [done|]. by destruct Hst as [->|[->| ->]].
    + unfold l1_slot. simpl. case_bool_decide; [done|]. destruct Hs as [Hs (z & [lz Hz] & Hm')]. split; [done|].
      exists z. split; [|done]. exists lz. rewrite SL, Hz. simpl. by rewrite decide_False.
  - intros l v. rewrite SL. destruct (nslot n L l) as [[t y]|] eqn:Hl; [|done]. unfold remap; simpl. case_decide; intros [= <-].
    + destruct Hb as [[-> _]|[-> Hst]]; [done|]. unfold llc_slot. simpl. rewrite bool_decide_false by done. by left.
    + by eapply I2.
  - intros b Hb' [l Hl]. rewrite SL in Hl. rewrite S2. apply I3; [done|].
    destruct (nslot n L l) as [[t y]|] eqn:Hl'; [|done]. unfold remap in Hl. case_decide; [|exists l; congruence]. exfalso.
    injection Hl as Hl. destruct Hb as [[Hbe _]|[Hbe Hst]]; rewrite Hbe in Hl; [done|]. injection Hl as _ ->.
    by destruct Hst as [?|[?|?]].
  - intros b. rewrite S2. apply I4.
  - by rewrite S3.
Qed.
Lemma run_update_llc n id k a x reason out th sv :
  node_wf n → s_cntlrs U !! id = Some k → is_llc U id → line_address B a → inv sv n →
  x = CacheState.INVALID ∨ x = CacheState.SHARED ∨ x = CacheState.MODIFIED →
  run n (updateCacheBlock (length (s_cntlrs U)) id a x reason out th)
    (λ _ n', inv sv n' ∧ ¬ holds n' L (tag a) CacheState.SHARED_UPGRADING).
Proof.
  intros Hwf Hk Hllc Ha Hi Hx. destruct (llc_lookup id k Hllc Hk) as (Hnx & HL & Hwt). pose proof (t_depth U HS).
  eapply run_conseq; [eapply (run_updateCacheBlock n id k (prevs U)); try done|].
  - rewrite HL. apply prevs_llc.
  - unfold settable. destruct Hx as [?|[?|?]]; auto.
  - rewrite <- (others_all (prevs U)). by eapply inv_snoopable; [..|right].
  - intros n1 H1 (S1 & _) y [l Hl]. rewrite HL, S1, decide_False in Hl.
    2:{ intros Hm. by apply (l1_not_llc L). }
    pose proof (i_llc _ _ Hi l _ Hl) as Hv. unfold llc_slot in Hv. simpl in Hv.
    rewrite bool_decide_false in Hv by (by apply tag_valid, Ha). split; [by destruct Hv as [[->|[->| ->]]| ->]|].
    intros _. unfold can_write_back. rewrite Hwt, Hnx. right. apply HA.
  - rewrite HL. intros r n1 H1 S1. split; [by eapply inv_update_all; [..|apply Ha|exact Hx|exact S1]|].
    destruct S1 as (S1 & _). intros [l Hl]. rewrite S1, decide_True in Hl by set_solver. unfold remap in Hl.
    destruct (nslot n L l) as [[t y]|]; [|done]. case_decide; [|congruence]. unfold becomes in Hl.
    destruct Hx as [->|[->| ->]]; simpl in Hl; congruence.
Qed.

(** A slot of the last level gets a new line; the copies of the old one are
    gone. *)
Lemma inv_insert_llc sv n n' l old y a x :
  node_wf n → inv sv n → in_u64 a → nslot n L l = Some (old, y) → l1_state x →
  nslot n' L l = Some (tag a, x) → (∀ l', l' ≠ l → nslot n' L l' = nslot n L l') →
  (∀ mi l', l1_master mi → nslot n' mi l' =
     if bool_decide (old = INVALID_TAG) then nslot n mi l' else remap old CacheState.INVALID (nslot n mi l')) →
  (∀ b, nwait n' b = nwait n b) → nevict n' = None → inv sv n'.
Proof.
  intros Hwf Hi Ha Hl Hx HL HL' HM Hw He. pose proof Hi as [I1 I2 I3 I4 I5]. pose proof (tag_valid a Ha) as Ht.
  constructor; [| | |intros b; rewrite Hw; apply I4|done].
  - assert (Hslot : ∀ mi l' t z, l1_master mi → nslot n mi l' = Some (t, z) → t ≠ old ∨ t = INVALID_TAG → l1_slot n' (t, z)).
    { intros mi l' t z Hm Hl' Hne. pose proof (I1 mi l' _ Hm Hl') as Hs. unfold l1_slot in *. simpl in *.
      case_bool_decide as Hti; [done|]. destruct Hs as [Hs (w & [lw Hlw] & Hmm)]. split; [done|]. exists w. split; [|done].
      exists lw. rewrite HL'; [done|]. intros ->. destruct Hne; congruence. }
    intros mi l' v Hm. rewrite (HM mi l' Hm). case_bool_decide as Hold.
    + intros Hl'. destruct v as [t z]. eapply Hslot; [done..|]. destruct (decide (t = INVALID_TAG)); [by right|left; congruence].
    + destruct (nslot n mi l') as [[t z]|] eqn:Hl'; [|done]. simpl.
      destruct (decide (t = old)) as [->|Hd]; intros [= <-]; [done|]. eapply Hslot; [done..|]. by left.
  - intros l' v Hv. destruct (decide (l' = l)) as [->|Hd]; [|rewrite HL' in Hv by done; by eapply I2].
    rewrite HL in Hv. injection Hv as <-. unfold llc_slot. simpl. rewrite bool_decide_false by done. by left.
  - intros b Hb [l' Hl']. rewrite Hw. destruct (decide (l' = l)) as [->|Hd].
    + rewrite HL in Hl'. injection Hl' as _ ->. by destruct Hx as [?|[?|?]].
    + rewrite HL' in Hl' by done. apply I3; [done|]. by exists l'.
Qed.
Lemma inv_evicting_snoopable sv n n1 l x a ea :
  inv sv n → line_address B ea → changed L l (tag a, x) n n1 →
  ∀ n2, node_wf n2 → evicting (Some ea) n1 n2 → snoopable n2 ea (prevs U).
Proof.
  intros Hi Hea C1 n2 H2 (E1 & _ & E3) i k Hin Hk. pose proof (t_prevs U HS i Hin) as Hl1. split; [done|].
  intros y [ly Hy]. rewrite E1 in Hy. pose proof (l1_is_master i k Hl1 Hk) as Hm. destruct C1 as (_ & C1 & _).
  rewrite C1 in Hy by (left; by apply l1_not_llc).
  destruct (inv_holds sv n _ (tag ea) y Hi Hm (tag_valid ea (proj1 Hea))) as [Hst _]; [by exists ly|].
  split; [by destruct Hst as [->|[->| ->]]|]. intros _. unfold can_write_back.
  destruct (l1_lookup i k Hl1 Hk) as (nx & -> & Hllc & _). destruct (m_cache_writethrough k); [done|]. by split; [|left].
Qed.
Lemma located_exists n id k a :
  node_wf n → s_cntlrs U !! id = Some k → in_u64 a → ∃ loc x, located n (m_master k) (tag a) loc x.
Proof.
  intros Hwf Hk Ha. destruct (master_exists n id k Hwf Hk) as [m Hm]. pose proof (n_master n Hwf _ m Hm) as Hok.
  rewrite <- (tag_master _ m a Hok).
  destruct (peek_slot _ (m_cache m) a (m_wf _ _ Hok) Ha) as [_ [(l & x & _ & Hl)|[_ Hno]]].
  - exists (Some l), x. simpl. unfold nslot. by rewrite Hm.
  - exists None, CacheState.INVALID. split; [|done]. intros l x Hl. apply (Hno l x). unfold nslot in Hl. by rewrite Hm in Hl.
Qed.
Lemma run_insert_llc n id k a x data requester th sv :
  node_wf n → s_cntlrs U !! id = Some k → is_llc U id → line_address B a → inv sv n → l1_state x →
  (∀ buf, data = Some buf → B ≤ Z.of_nat (length buf)) →
  run n (insertCacheBlock id a x data requester th)
    (λ _ n', inv sv n' ∧ ¬ holds n' L (tag a) CacheState.SHARED_UPGRADING).
Proof.
  intros Hwf Hk Hllc Ha Hi Hx Hdata. destruct (llc_lookup id k Hllc Hk) as (Hnx & HL & Hwt).
  pose proof (tag_valid a (proj1 Ha)) as Ht.
  destruct (located_exists n id k a Hwf Hk (proj1 Ha)) as (loc & x0 & Hloc). destruct loc as [l0|].
  { unfold insertCacheBlock. eapply run_bind; [eapply run_getCacheState; [done..|apply Ha]|]. intros s n' _ [-> Hs].
    assert (s = x0) as -> by (eapply (state_uniq n); [done|exact Ht|exact Hs|by left; exists l0]).
    apply run_assert; [done|]. intros Hb%bool_decide_eq_true. exfalso. subst x0. simpl in Hloc. rewrite HL in Hloc.
    pose proof (i_llc _ _ Hi _ _ Hloc) as Hv. unfold llc_slot in Hv. simpl in Hv. rewrite bool_decide_false in Hv by done.
    by destruct Hv as [[?|[?|?]]|?]. }
  destruct Hloc as [Hno _].
  apply (run_insertCacheBlock n id k a x data requester th); [done|done|apply Ha|done|done|by right|].
  rewrite HL in Hno |- *. intros n1 l old z H1 Hl C1.
  assert (Hsu : ∀ n2, nslot n2 L l = Some (tag a, x) → node_wf n2 → ¬ holds n2 L (tag a) CacheState.SHARED_UPGRADING).
  { intros n2 Hl2 H2 [l' Hl']. destruct (slot_uniq n2 L l l' _ _ _ H2 Ht Hl2 Hl') as [_ ->]. by destruct Hx as [?|[?|?]]. }
  pose proof C1 as (C11 & C12 & C13 & C14). pose proof (i_evict _ _ Hi) as Hev. case_bool_decide as Hold.
  - split; [|by apply Hsu]. eapply (inv_insert_llc sv n n1 l old z a x); try done; [apply Ha|..].
    + intros l' Hne. apply C12. by right.
    + intros mi l' Hm. rewrite bool_decide_true by done. apply C12. left. by apply l1_not_llc.
    + by rewrite C14.
  - intros ea b buf Hea Htag Hb Hbuf.
    eapply run_conseq; [eapply (run_evict_llc n1 id k ea b buf); try done|].
    + rewrite Htag. exact (changed_absent n n1 L l old z a x Hwf Hold Hl Hno C1).
    + by rewrite C14.
    + intros n2 H2 E2. by eapply (inv_evicting_snoopable sv n n1 l x a ea).
    + rewrite Htag. intros u n2 H2 (S1 & S2 & S3).
      assert (SL : ∀ l', nslot n2 L l' = nslot n1 L l').
      { intros l'. rewrite S1, decide_False; [done|]. intros Hm. by apply (l1_not_llc L). }
      split; [|apply Hsu; [by rewrite SL|done]].
      eapply (inv_insert_llc sv n n2 l old z a x); try done; [apply Ha|by rewrite SL|..].
      * intros l' Hne. rewrite SL. apply C12. by right.
      * intros mi l' Hm. rewrite bool_decide_false by done. rewrite S1, decide_True by done.
        rewrite C12; [done|]. left. by apply l1_not_llc.
      * intros b'. by rewrite S2.
      * by rewrite S3, C14.
Qed.

(** *** The handlers *)
Definition msg_ok (m : ShmemMsg) : Prop :=
  line_address B (sm_address m) ∧ ∀ buf, sm_data_buf m = Some buf → B ≤ Z.of_nat (length buf).
Definition settled_line n a : Prop := ¬ holds n L (tag a) CacheState.SHARED_UPGRADING.
Lemma run_send_data n id k ty req rcv a buf th :
  node_wf n → s_cntlrs U !! id = Some k → run n (sendMsg id ty req rcv a (Some buf) B th) (λ _, same n).
Proof.
  intros Hwf Hk. pose proof (t_block U HS). eapply run_sendMsg; [done..|]. rewrite bool_decide_false by done.
  symmetry. apply Z.eqb_neq. lia.
Qed.
Lemma run_upgrade_rep n id k m sv :
  node_wf n → s_cntlrs U !! id = Some k → is_llc U id → msg_ok m → inv sv n →
  run n (processUpgradeRepFromDramDirectory id m) (λ _ n', inv sv n' ∧ settled_line n' (sm_address m)).
Proof.
  intros Hwf Hk Hllc [Ha _] Hi. unfold processUpgradeRepFromDramDirectory.
  eapply run_bind; [eapply run_getCacheState; [done..|apply Ha]|]. intros s n' _ [-> Hs].
  eapply run_bind; [by apply run_depth|]. intros fuel n' _ [-> ->].
  assert (Hup : ∀ out, run n (updateCacheBlock (length (s_cntlrs U)) id (sm_address m) CacheState.MODIFIED UPGRADE out SIM_THREAD;! ret tt)
    (λ _ n', inv sv n' ∧ settled_line n' (sm_address m))).
  { intros out. eapply run_bind; [eapply (run_update_llc n id k); try done; auto|]. intros r n1 H1 HR. by apply run_ret. }
  destruct s; try (by apply run_fail).
  - apply run_assert; [done|]. intros _. apply Hup.
  - apply Hup.
Qed.
Lemma run_inv_req n id k sender m sv :
  node_wf n → s_cntlrs U !! id = Some k → is_llc U id → msg_ok m → inv sv n →
  run n (processInvReqFromDramDirectory id sender m) (λ _, inv sv).
Proof.
  intros Hwf Hk Hllc [Ha _] Hi. unfold processInvReqFromDramDirectory.
  eapply run_bind; [eapply run_getCacheState; [done..|apply Ha]|]. intros s n' _ [-> Hs].
  eapply run_bind; [by eapply run_incrElapsedTime_access|]. intros u1 n1 H1 S1. pose proof (inv_same _ _ _ S1 Hi) as I1.
  apply run_when; [done| |done]. intros _. eapply run_bind; [by apply run_depth|]. intros fuel n' _ [-> ->].
  eapply run_bind; [eapply (run_update_llc n1 id k); try done; auto|]. intros r n2 H2 [I2 _].
  eapply run_conseq; [by eapply run_sendMsg|]. intros u3 n3 _ S3. exact (inv_same _ _ _ S3 I2).
Qed.
Lemma run_flush_req n id k sender m sv :
  node_wf n → s_cntlrs U !! id = Some k → is_llc U id → msg_ok m → inv sv n →
  run n (processFlushReqFromDramDirectory id sender m) (λ _, inv sv).
Proof.
  intros Hwf Hk Hllc [Ha _] Hi. destruct (cntlr_master _ _ Hk) as [_ Hok]. unfold processFlushReqFromDramDirectory.
  eapply run_bind; [eapply run_getCacheState; [done..|apply Ha]|]. intros s n' _ [-> Hs]. case_bool_decide.
  { eapply run_conseq; [by eapply run_incrElapsedTime_access|]. intros u1 n1 _ S1. exact (inv_same _ _ _ S1 Hi). }
  eapply run_bind; [by eapply run_incrElapsedTime_access|]. intros u1 n1 H1 S1. pose proof (inv_same _ _ _ S1 Hi) as I1.
  eapply run_bind; [by eapply run_cntlr|]. intros c n' _ [-> (st & w & ->)]. apply run_gets.
  cbn [m_cc_block_size set_stats set_remote]. rewrite (k_block _ _ Hok).
  eapply run_bind; [by apply run_depth|]. intros fuel n' _ [-> ->].
  eapply run_bind; [eapply (run_update_llc n1 id k); try done; auto|]. intros r n2 H2 [I2 _].
  eapply run_conseq; [by eapply run_send_data|]. intros u3 n3 _ S3. exact (inv_same _ _ _ S3 I2).
Qed.
Lemma run_wb_req n id k sender m sv :
  node_wf n → s_cntlrs U !! id = Some k → is_llc U id → msg_ok m → inv sv n →
  run n (processWbReqFromDramDirectory id sender m) (λ _, inv sv).
Proof.
  intros Hwf Hk Hllc [Ha _] Hi. destruct (cntlr_master _ _ Hk) as [_ Hok]. unfold processWbReqFromDramDirectory.
  eapply run_bind; [eapply run_getCacheState; [done..|apply Ha]|]. intros s n' _ [-> Hs]. case_bool_decide.
  { eapply run_conseq; [by eapply run_incrElapsedTime_access|]. intros u1 n1 _ S1. exact (inv_same _ _ _ S1 Hi). }
  eapply run_bind; [by eapply run_incrElapsedTime_access|]. intros u1 n1 H1 S1. pose proof (inv_same _ _ _ S1 Hi) as I1.
  eapply run_bind; [by eapply run_cntlr|]. intros c n' _ [-> (st & w & ->)]. apply run_gets.
  cbn [m_cc_block_size set_stats set_remote]. rewrite (k_block _ _ Hok).
  eapply run_bind; [by apply run_depth|]. intros fuel n' _ [-> ->].
  eapply run_bind with (Q := λ _, inv sv).
  { case_bool_decide; [by apply run_ret|]. eapply run_bind; [eapply (run_update_llc n1 id k); try done; auto|].
    intros r n2 H2 [I2 _]. by apply run_ret. }
  intros r n2 H2 I2. eapply run_conseq; [by eapply run_send_data|]. intros u3 n3 _ S3. exact (inv_same _ _ _ S3 I2).
Qed.
Lemma run_handle n id sender m sv :
  node_wf n → is_llc U id → msg_ok m → inv sv n →
  run n (handleMsgFromDramDirectory id sender m)
    (λ _ n', inv sv n' ∧ (is_reply (sm_msg_type m) = true → settled_line n' (sm_address m))).
Proof.
  intros Hwf Hllc Hm Hi. destruct (llc_some id Hllc) as [k Hk]. unfold handleMsgFromDramDirectory.
  eapply run_bind; [by eapply run_master|]. intros mst n' _ [-> Hmst].
  eapply run_bind with (Q := λ _ n', n' = n).
  { destruct (is_reply _); [|by apply run_ret]. apply run_any. intros w n' Hw.
    apply lift_Ok in Hw as [_ ->]. destruct (s_cntlrs U !! w_cache_cntlr w) as [kw|] eqn:Hkw.
    - eapply run_bind; [by eapply run_cntlr|]. intros c n' _ [-> _]. by apply run_ret.
    - unfold run, st_bind, cntlr. unfold st_bind, gets, lift. simpl. rewrite <- (n_config n Hwf), list_lookup_fmap in Hkw.
      destruct (n_cntlrs n !! w_cache_cntlr w) eqn:Hc; [done|]. unfold rd. rewrite Hc. apply HA. }
  intros requester n' _ ->. destruct Hm as [Ha Hdata].
  assert (Hins : ∀ x, l1_state x → run n (insertCacheBlock id (sm_address m) x (sm_data_buf m) requester SIM_THREAD;! ret tt)
    (λ _ n', inv sv n' ∧ settled_line n' (sm_address m))).
  { intros x Hx. eapply run_bind; [by eapply (run_insert_llc n id k)|]. intros r n1 H1 HR. by apply run_ret. }
  destruct (sm_msg_type m) eqn:Hty; cbn [is_reply]; try (apply run_fail; apply HA).
  - eapply run_conseq; [by apply (run_inv_req n id k)|]. by intros u n1 _ I1.
  - eapply run_conseq; [by apply (run_flush_req n id k)|]. by intros u n1 _ I1.
  - eapply run_conseq; [by apply (run_wb_req n id k)|]. by intros u n1 _ I1.
  - eapply run_conseq; [apply Hins; by right; left|]. by intros u n1 _ [].
  - eapply run_conseq; [apply Hins; by left|]. by intros u n1 _ [].
  - eapply run_conseq; [by apply (run_upgrade_rep n id k)|]. by intros u n1 _ [].
Qed.

(** *** The waiters *)
Lemma inv_serve n a :
  inv None n → line_address B a → settled_line n a → nwait n a ≠ [] → inv (Some a) n.
Proof.
  intros [I1 I2 I3 I4 I5] Ha Hs Hw. constructor; [done|done| |by intros ? [= <-]|done].
  intros b Hb Hh. destruct (I3 b Hb Hh) as [Hne _]. split; [done|]. intros [= <-]. done.
Qed.
Lemma run_unknown_cntlr {A} n id (f : CacheCntlr → M A) R :
  node_wf n → s_cntlrs U !! id = None → run n (st_bind (cntlr id) f) R.
Proof.
  intros Hwf Hn. apply run_any. intros c n' Hc. exfalso. unfold cntlr in Hc.
  apply st_bind_Ok in Hc as (l & n1 & [= <- <-] & Hc). apply lift_Ok in Hc as [Hc%rd_Ok _].
  rewrite <- (n_config n Hwf), list_lookup_fmap, Hc in Hn. done.
Qed.
Lemma run_wake n id a where_ :
  node_wf n → is_llc U id → line_address B a → inv None n → settled_line n a →
  run n (wake_waiter id a where_) (λ r n', match r with Woken _ => inv (Some a) n' | _ => inv None n' end).
Proof.
  intros Hwf Hllc Ha Hi Hs. destruct (llc_some id Hllc) as [k Hk]. destruct (llc_lookup id k Hllc Hk) as (Hnx & HL & _).
  unfold wake_waiter. eapply run_bind; [by eapply run_master|]. intros m n' _ [-> Hm]. rewrite HL in Hm.
  destruct (queue_empty a (m_directory_waiters m)) eqn:Hq; [by apply run_ret|].
  assert (Hw : nwait n a ≠ []).
  { rewrite (nwait_master n m a Hm). unfold queue_empty, queue_of in *.
    destruct (m_directory_waiters m !! a) as [q|] eqn:Hqa; [|done]. by destruct (m_queues _ _ (n_master n Hwf _ m Hm) a q Hqa). }
  pose proof (inv_serve n a Hi Ha Hs Hw) as Hsv.
  apply run_any. intros w n' Hfr. apply lift_Ok in Hfr as [_ ->].
  eapply run_bind; [eapply run_getCacheState; [done..|apply Ha]|]. intros s n' _ [-> Hst]. rewrite HL in Hst.
  destruct (w_exclusive w && bool_decide (s = CacheState.SHARED)) eqn:Hex.
  - apply andb_true_iff in Hex as [_ ->%bool_decide_eq_true]. destruct Hst as [[l Hl]|[_ ?]]; [|done].
    eapply run_bind; [by eapply (run_upgrade_req n id k a l SIM_THREAD None)|]. intros u n1 H1 (I1 & _). by apply run_ret.
  - clear Hex. eapply run_bind with (Q := λ _, same n).
    { apply run_when_same; [done|]. destruct Hst as [[l Hl]|[Hno _]].
      - eapply (run_setBlockOption n id k); [done..|apply Ha|by rewrite HL].
      - unfold setBlockOption. eapply run_bind; [eapply run_getCacheBlockInfo; [done..|apply Ha]|].
        intros loc n' _ [-> [x Hloc]]. destruct loc as [l|]; [|by apply run_fail]. rewrite HL in Hloc. by destruct (Hno l x). }
    intros u n1 H1 S1. destruct (s_cntlrs U !! w_cache_cntlr w) as [kw|] eqn:Hkw.
    2:{ unfold getElapsedTime at 1. apply run_assoc'. by apply run_unknown_cntlr. }
    eapply run_bind; [by eapply run_getElapsedTime|]. intros t1 n' _ ->.
    eapply run_bind; [by eapply run_getElapsedTime|]. intros t2 n' _ ->.
    eapply run_same; [done|exact S1|apply run_when_same; [done|by eapply run_setElapsedTime]|]. intros u2 n2 H2 S2.
    apply run_any. intros x n' Hx. apply lift_Ok in Hx as [_ ->].
    eapply run_same; [done|exact S2|by eapply run_set_remote|]. intros u3 n3 H3 S3. apply run_ret; [done|].
    exact (inv_same _ _ _ S3 Hsv).
Qed.
Lemma run_retire n id a w :
  node_wf n → is_llc U id → line_address B a → inv (Some a) n →
  run n (retire_waiter id a w) (λ _ n', inv None n' ∧ settled_line n' a).
Proof.
  intros Hwf Hllc Ha Hi. destruct (llc_some id Hllc) as [k Hk]. destruct (llc_lookup id k Hllc Hk) as (Hnx & HL & _).
  unfold retire_waiter. eapply run_bind; [by eapply run_getElapsedTime|]. intros t n' _ ->.
  destruct (s_cntlrs U !! w_cache_cntlr w) as [kw|] eqn:Hkw.
  2:{ unfold upd_master at 1. apply run_assoc'. by apply run_unknown_cntlr. }
  eapply run_same; [done|reflexivity|by eapply run_set_mshr|]. intros u1 n1 H1 S1.
  eapply run_same; [done|exact S1|by eapply run_cleanupMshr|]. intros u2 n2 H2 S2.
  eapply run_bind; [by eapply run_master|]. intros m n' _ [-> Hm]. rewrite HL in Hm.
  apply run_any. intros [r q] n' Hd. apply lift_Ok in Hd as [Hd ->].
  pose proof (n_master n2 H2 _ m Hm) as Hok. destruct (dequeue_Ok _ a _ r q (m_queues _ _ Hok) Hd) as (Hq & Hqa & Hqb).
  eapply run_conseq; [by eapply (run_set_waiters n2 id k (λ _, q))|]. cbn [snd]. intros u3 n3 _ (S3 & E3 & m' & Hm' & W3).
  pose proof (inv_same _ _ _ S2 Hi) as [I1 I2 I3 I4 I5].
  assert (Hh : ∀ t x, holds n3 L t x ↔ holds n2 L t x) by (intros t' x; unfold holds; by setoid_rewrite S3).
  split; [|intros Hsu%Hh; by destruct (I3 a Ha Hsu)]. constructor; [| | |done|by rewrite E3].
  - intros mi l v Hmi. rewrite S3. intros Hl. pose proof (I1 mi l v Hmi Hl) as Hs. unfold l1_slot in *.
    case_bool_decide; [done|]. destruct Hs as [? (y & Hy & ?)]. split; [done|]. exists y. by rewrite Hh.
  - intros l v. rewrite S3. apply I2.
  - intros b Hb Hsu%Hh. destruct (I3 b Hb Hsu) as [Hne Hnb]. split; [|done]. rewrite W3. unfold queue_of.
    rewrite Hqb by congruence. by rewrite (nwait_master n2 m b Hm) in Hne.
Qed.
End Messages.
End Runs.
