(* ===== verification/Prefetchers.v ===== *)
(** The prefetchers (src/common/core/memory_subsystem/parametric_dram_directory_msi/
    prefetcher.{h,cc}, simple_prefetcher.{h,cc}, ghb_prefetcher.{h,cc}).  They
    implement the interface [PrefetcherOps] of the cache controllers; the
    prefetcher with a global history buffer discharges what the theorems about
    the controllers assume of a prefetcher, [PrefetcherOk]. *)
From S2P Require Import Prelude SubsecondTime ContentionModel CacheBlock LruPolicies OtherPolicies FaultInjection CacheSet PolicyKeeps Address CacheModel CacheSlots Directory Shmem CacheCntlr CacheCntlrFacts.
Local Open Scope Z_scope.

(** * SimplePrefetcher *)
Module Simple.
Definition PAGE_SIZE : Z := 4096.
Definition PAGE_MASK : Z := u64 (Z.lnot (PAGE_SIZE - 1)).
Record t : Type := mk {
  core_id : nat;
  shared_cores : nat;
  n_flows : Z;
  flows_per_core : bool;
  num_prefetches : Z;
  stop_at_page : bool;
  n_flow_next : Z;
  m_prev_address : list (list Z)
}.
Definition new (core_id shared_cores : nat) (n_flows : Z) (flows_per_core : bool) (num_prefetches : Z)
    (stop_at_page : bool) : t :=
  mk core_id shared_cores n_flows flows_per_core num_prefetches stop_at_page 0
    (replicate (if flows_per_core then shared_cores else 1%nat) (replicate (Z.to_nat n_flows) 0)).

(** [abs], the overload for 64-bit integers, of a difference of signed 64-bit
    integers: overflow is undefined. *)
Definition distance (a b : Z) : res Z :=
  let d := s64 a - s64 b in
  if (- 2 ^ 63 <? d) && (d <? 2 ^ 63) then Ok (Z.abs d) else Err ErrUndefined.
(** The search for the nearest previous address. *)
Fixpoint nearest (current_address : Z) (l : list Z) (i n_flow min_dist : Z) : res Z :=
  match l with
  | [] => Ok n_flow
  | p :: l =>
      let? dist := distance current_address p in
      if dist <? min_dist then nearest current_address l (i + 1) i dist
      else nearest current_address l (i + 1) n_flow min_dist
  end.
Definition same_page (a b : Z) : bool := Z.land a PAGE_MASK =? Z.land b PAGE_MASK.
Definition addresses (current_address stride : Z) (q : t) : list Z :=
  if stride =? 0 then []
  else filter (λ a, stop_at_page q = false ∨ same_page a current_address = true)
         ((λ i, u64 (current_address + Z.of_nat i * stride)) <$> seq 0 (Z.to_nat (num_prefetches q))).

(** [at] throws outside the vector. *)
Definition next (current_address : Z) (_core_id : nat) (q : t) : res (list Z * t) :=
  let flow_set := if flows_per_core q then Z.of_nat _core_id - Z.of_nat (core_id q) else 0 in
  if (flow_set <? 0) || (Z.of_nat (length (m_prev_address q)) <=? flow_set) then Err (ErrLog "vector::at")
  else
    let k := Z.to_nat flow_set in
    let? prev_address := rd (m_prev_address q) k in
    if n_flows q =? 0 then Err ErrUndefined
    else
      let n_flow_next' := (n_flow_next q + 1) mod n_flows q in
      let? n_flow := nearest current_address prev_address 0 (n_flow_next q) PAGE_SIZE in
      let? p := rd prev_address (Z.to_nat n_flow) in
      let stride := u64 (current_address - p) in
      let? prev_address' := wr prev_address (Z.to_nat n_flow) current_address in
      Ok (addresses current_address stride q,
          mk (core_id q) (shared_cores q) (n_flows q) (flows_per_core q) (num_prefetches q) (stop_at_page q)
            n_flow_next' (<[k := prev_address']> (m_prev_address q))).
End Simple.

(** * GhbPrefetcher *)
Module Ghb.
Definition INVALID_DELTA : Z := 2 ^ 63 - 1.
Definition INVALID_INDEX : Z := 2 ^ 32 - 1.
Record GHBEntry : Type := mkGHB { nextIndex : Z; g_delta : Z; g_generation : Z }.
Record TableEntry : Type := mkTable { ghbIndex : Z; t_delta : Z; t_generation : Z }.
Record t : Type := mk {
  m_prefetchWidth : Z;
  m_prefetchDepth : Z;
  m_lastAddress : Z;
  m_ghbSize : Z;
  m_ghbHead : Z;
  m_generation : Z;
  m_ghb : list GHBEntry;
  m_tableSize : Z;
  m_tableHead : Z;
  m_ghbTable : list TableEntry
}.
Definition new (width depth ghb_size ghb_table_size : Z) : t :=
  mk width depth INVALID_ADDRESS ghb_size 0 0 (replicate (Z.to_nat ghb_size) (mkGHB INVALID_INDEX INVALID_DELTA 0))
    ghb_table_size 0 (replicate (Z.to_nat ghb_table_size) (mkTable INVALID_INDEX INVALID_DELTA 0)).

(** The search for a delta in the table, up to the first entry that is not
    used: the index of the entry if it has the delta. *)
Fixpoint find_delta (delta : Z) (l : list TableEntry) (i : nat) : option (nat * TableEntry) :=
  match l with
  | [] => None
  | e :: l => if t_delta e =? delta then Some (i, e)
              else if t_delta e =? INVALID_DELTA then None else find_delta delta l (S i)
  end.
(** Whether the entry points to a live entry of the buffer. *)
Definition live_entry (q : t) (e : TableEntry) : res bool :=
  let? g := rd (m_ghb q) (Z.to_nat (ghbIndex e)) in Ok (t_generation e =? g_generation g).

Definition add_new (a : Z) (l : list Z) : list Z := if bool_decide (a ∈ l) then l else l ++ [a].
(** The inner loop, from [depth] on. *)
Fixpoint chase (q : t) (n : nat) (ghbIndex depth newAddress : Z) (prefetchList : list Z) : res (list Z) :=
  match n with
  | O => Ok prefetchList
  | S n =>
      if m_ghbSize q =? 0 then Err ErrUndefined
      else
        let? g := rd (m_ghb q) (Z.to_nat (u32 (ghbIndex + depth) mod m_ghbSize q)) in
        if g_delta g =? INVALID_DELTA then Ok prefetchList
        else
          let newAddress := u64 (newAddress + g_delta g) in
          chase q n ghbIndex (depth + 1) newAddress (add_new newAddress prefetchList)
  end.
(** The outer loop; [n] is the number of rounds that are left of the width. *)
Fixpoint follow (q : t) (n : nat) (currentAddress ghbIndex : Z) (prefetchList : list Z) : res (list Z) :=
  match n with
  | O => Ok prefetchList
  | S n =>
      if ghbIndex =? INVALID_INDEX then Ok prefetchList
      else
        let? prefetchList := chase q (Z.to_nat (m_prefetchDepth q)) ghbIndex 0 currentAddress prefetchList in
        let? g := rd (m_ghb q) (Z.to_nat ghbIndex) in
        let overwritten := ((ghbIndex <? nextIndex g) || (m_ghbHead q <? ghbIndex)) && (nextIndex g <? m_ghbHead q) in
        follow q n currentAddress (if overwritten then INVALID_INDEX else nextIndex g) prefetchList
  end.

(** Adding the delta to the buffer, and the place of the delta before it to
    the table. *)
Definition record_delta (delta : Z) (q : t) : res t :=
  let h := m_ghbHead q in
  let? ghb := wr (m_ghb q) (Z.to_nat h) (mkGHB INVALID_INDEX delta (m_generation q)) in
  let prevHead := if 0 <? h then h - 1 else u32 (m_ghbSize q - 1) in
  let? prev := rd ghb (Z.to_nat prevHead) in
  let prevDelta := g_delta prev in
  let q := mk (m_prefetchWidth q) (m_prefetchDepth q) (m_lastAddress q) (m_ghbSize q) h (m_generation q) ghb
             (m_tableSize q) (m_tableHead q) (m_ghbTable q) in
  let entry := mkTable h prevDelta (m_generation q) in
  if prevDelta =? INVALID_DELTA then Ok q
  else match find_delta prevDelta (m_ghbTable q) 0 with
       | Some (i, e) =>
           let? live := live_entry q e in
           let? ghb := wr ghb (Z.to_nat h)
                         (mkGHB (if live then ghbIndex e else INVALID_INDEX) delta (m_generation q)) in
           let? table := wr (m_ghbTable q) i entry in
           Ok (mk (m_prefetchWidth q) (m_prefetchDepth q) (m_lastAddress q) (m_ghbSize q) h (m_generation q) ghb
                 (m_tableSize q) (m_tableHead q) table)
       | None =>
           let? table := wr (m_ghbTable q) (Z.to_nat (m_tableHead q)) entry in
           if m_tableSize q =? 0 then Err ErrUndefined
           else Ok (mk (m_prefetchWidth q) (m_prefetchDepth q) (m_lastAddress q) (m_ghbSize q) h (m_generation q) ghb
                      (m_tableSize q) (u32 (m_tableHead q + 1) mod m_tableSize q) table)
       end.
Definition advance (q : t) : t :=
  let h := u32 (m_ghbHead q + 1) in
  let wrap := h =? m_ghbSize q in
  mk (m_prefetchWidth q) (m_prefetchDepth q) (m_lastAddress q) (m_ghbSize q) (if wrap then 0 else h)
    (if wrap then (m_generation q + 1) mod 4 else m_generation q) (m_ghb q) (m_tableSize q) (m_tableHead q)
    (m_ghbTable q).
Definition put_last (a : Z) (q : t) : t :=
  mk (m_prefetchWidth q) (m_prefetchDepth q) a (m_ghbSize q) (m_ghbHead q) (m_generation q) (m_ghb q)
    (m_tableSize q) (m_tableHead q) (m_ghbTable q).

Definition next (currentAddress : Z) (core_id : nat) (q : t) : res (list Z * t) :=
  if m_lastAddress q =? INVALID_ADDRESS then Ok ([], put_last currentAddress q)
  else
    let delta := s64 (currentAddress - m_lastAddress q) in
    let q := put_last currentAddress q in
    let? prefetchList :=
      (match find_delta delta (m_ghbTable q) 0 with
       | Some (_, e) =>
           let? live := live_entry q e in
           if live then follow q (Z.to_nat (m_prefetchWidth q)) currentAddress (ghbIndex e) [] else Ok []
       | None => Ok []
       end) in
    let? q := record_delta delta q in
    Ok (prefetchList, advance q).
End Ghb.

(** * Prefetcher *)
Inductive Prefetcher : Type := PSimple (q : Simple.t) | PGhb (q : Ghb.t).
(** [createPrefetcher] with the entries of the configuration; "none" creates
    none. *)
Definition createPrefetcher (type : string) (simple : Simple.t) (ghb : Ghb.t) : res (option Prefetcher) :=
  if decide (type = "none"%string) then Ok None
  else if decide (type = "simple"%string) then Ok (Some (PSimple simple))
  else if decide (type = "ghb"%string) then Ok (Some (PGhb ghb))
  else Err (ErrLog "Invalid prefetcher type").

#[export] Instance simple_ops : PrefetcherOps Simple.t := { getNextAddress := Simple.next }.
#[export] Instance ghb_ops : PrefetcherOps Ghb.t := { getNextAddress := Ghb.next }.
#[export] Instance prefetcher_ops : PrefetcherOps Prefetcher := {
  getNextAddress := λ a core f,
    match f with
    | PSimple q => let? r := Simple.next a core q in Ok (r.1, PSimple r.2)
    | PGhb q => let? r := Ghb.next a core q in Ok (r.1, PGhb r.2)
    end
}.

(** * Facts about the global history buffer *)
Import Ghb.

(** Multiples of the size of a line, which is even and divides 2^64. *)
Definition block_size (B : Z) : Prop := 2 ≤ B ∧ (2 | B) ∧ (B | 2 ^ 64).
Definition delta_ok (B d : Z) : Prop := d = INVALID_DELTA ∨ (B | d).
Lemma divide_u64 B z : block_size B → (B | z) → (B | u64 z).
Proof. intros (_ & _ & HB) Hz. unfold u64. rewrite Z.mod_eq by lia. apply Z.divide_sub_r; [done|]. by apply Z.divide_mul_l. Qed.
Lemma divide_s64 B z : block_size B → (B | z) → (B | s64 z).
Proof.
  intros HB Hz. unfold s64. rewrite Z.mod_eq by lia.
  replace (z + 2 ^ 63 - 2 ^ 64 * ((z + 2 ^ 63) / 2 ^ 64) - 2 ^ 63) with (z - 2 ^ 64 * ((z + 2 ^ 63) / 2 ^ 64)) by lia.
  apply Z.divide_sub_r; [done|]. by apply Z.divide_mul_l, HB.
Qed.
Lemma multiple_valid B d : block_size B → (B | d) → d ≠ INVALID_DELTA.
Proof.
  intros (_ & H2 & _) Hd ->. destruct (Z.divide_trans 2 B _ H2 Hd) as [k Hk]. unfold INVALID_DELTA in Hk. lia.
Qed.
Lemma line_divide B a : block_size B → line_address B a ↔ in_u64 a ∧ (B | a).
Proof. intros (HB & _ & _). unfold line_address. by rewrite Z.mod_divide by lia. Qed.

Record ghb_ok (B : Z) (q : Ghb.t) : Prop := {
  go_block : block_size B;
  go_size : 0 < m_ghbSize q < 2 ^ 32;
  go_tsize : 0 < m_tableSize q < 2 ^ 32;
  go_len : Z.of_nat (length (m_ghb q)) = m_ghbSize q;
  go_tlen : Z.of_nat (length (m_ghbTable q)) = m_tableSize q;
  go_head : 0 ≤ m_ghbHead q < m_ghbSize q;
  go_thead : 0 ≤ m_tableHead q < m_tableSize q;
  go_entry : Forall (λ g, delta_ok B (g_delta g) ∧
                          (nextIndex g = INVALID_INDEX ∨ 0 ≤ nextIndex g < m_ghbSize q)) (m_ghb q);
  go_table : Forall (λ e, t_delta e = INVALID_DELTA ∨ ((B | t_delta e) ∧ 0 ≤ ghbIndex e < m_ghbSize q)) (m_ghbTable q);
  go_last : m_lastAddress q = INVALID_ADDRESS ∨ line_address B (m_lastAddress q)
}.

Section GhbFacts.
Context (B : Z) (q : Ghb.t) (Hq : ghb_ok B q).

Lemma ghb_rd i : 0 ≤ i < m_ghbSize q →
  ∃ g, rd (m_ghb q) (Z.to_nat i) = Ok g ∧ delta_ok B (g_delta g) ∧ (nextIndex g = INVALID_INDEX ∨ 0 ≤ nextIndex g < m_ghbSize q).
Proof.
  intros Hi. pose proof (go_len _ _ Hq). destruct (rd_lt (m_ghb q) (Z.to_nat i) ltac:(lia)) as (g & Hg & ->).
  exists g. split; [done|]. exact (Forall_lookup_1 _ _ _ _ (go_entry _ _ Hq) Hg).
Qed.
Lemma find_delta_Some d l i j e : find_delta d l i = Some (j, e) → (i ≤ j)%nat ∧ l !! (j - i)%nat = Some e ∧ t_delta e = d.
Proof.
  revert i. induction l as [|x l IH]; intros i; simpl; [done|]. destruct (Z.eqb_spec (t_delta x) d) as [He|He].
  - intros [= <- <-]. rewrite Nat.sub_diag. done.
  - destruct (t_delta x =? INVALID_DELTA); [done|]. intros (Hi & Hl & Hd)%IH. split; [lia|]. split; [|done].
    by replace (j - i)%nat with (S (j - S i)) by lia.
Qed.
Lemma find_delta_table d j e : (B | d) → find_delta d (m_ghbTable q) 0 = Some (j, e) →
  (j < length (m_ghbTable q))%nat ∧ 0 ≤ ghbIndex e < m_ghbSize q.
Proof.
  intros Hd (_ & Hl & <-)%find_delta_Some. rewrite Nat.sub_0_r in Hl. split; [by eapply lookup_lt_Some|].
  destruct (Forall_lookup_1 _ _ _ _ (go_table _ _ Hq) Hl) as [He|[_ He]]; [|done].
  by apply (multiple_valid B _ (go_block _ _ Hq)) in Hd.
Qed.
Lemma live_entry_Ok e : 0 ≤ ghbIndex e < m_ghbSize q → ∃ b, live_entry q e = Ok b.
Proof. intros He. unfold live_entry. destruct (ghb_rd _ He) as (g & -> & _). by eexists. Qed.

Lemma add_new_lines a l : line_address B a → Forall (line_address B) l → Forall (line_address B) (add_new a l).
Proof. intros Ha Hl. unfold add_new. case_match; [done|]. apply Forall_app. split; [done|by constructor]. Qed.
Lemma chase_Ok n i d a l : line_address B a → Forall (line_address B) l →
  ∃ l', chase q n i d a l = Ok l' ∧ Forall (line_address B) l'.
Proof.
  revert d a l. induction n as [|n IH]; intros d a l Ha Hl; simpl; [by exists l|].
  pose proof (go_size _ _ Hq). rewrite (proj2 (Z.eqb_neq (m_ghbSize q) 0)) by lia.
  destruct (ghb_rd (u32 (i + d) mod m_ghbSize q)) as (g & -> & Hg & _); [apply Z.mod_pos_bound; lia|]. simpl.
  destruct (Z.eqb_spec (g_delta g) INVALID_DELTA) as [|Hne]; [by exists l|].
  assert (Hn : line_address B (u64 (a + g_delta g))).
  { apply (line_divide B _ (go_block _ _ Hq)) in Ha as [_ Ha]. apply (line_divide B _ (go_block _ _ Hq)).
    split; [apply u64_range|]. apply divide_u64; [apply Hq|]. destruct Hg; [done|by apply Z.divide_add_r]. }
  apply IH; [done|by apply add_new_lines].
Qed.
Lemma follow_Ok n a i l : line_address B a → i = INVALID_INDEX ∨ 0 ≤ i < m_ghbSize q → Forall (line_address B) l →
  ∃ l', follow q n a i l = Ok l' ∧ Forall (line_address B) l'.
Proof.
  revert i l. induction n as [|n IH]; intros i l Ha Hi Hl; simpl; [by exists l|].
  destruct (Z.eqb_spec i INVALID_INDEX) as [|Hne]; [by exists l|]. destruct Hi as [|Hi]; [done|].
  destruct (chase_Ok (Z.to_nat (m_prefetchDepth q)) i 0 a l Ha Hl) as (l1 & -> & Hl1). simpl.
  destruct (ghb_rd i Hi) as (g & -> & _ & Hg). simpl. apply IH; [done| |done]. case_match; [by left|done].
Qed.
End GhbFacts.

Lemma ghb_ok_put B q a : ghb_ok B q → line_address B a → ghb_ok B (put_last a q).
Proof. intros [] Ha. constructor; try done. by right. Qed.
Lemma ghb_ok_advance B q : ghb_ok B q → ghb_ok B (advance q).
Proof.
  intros [? Hs ? ? ? Hh ? ? ? ?]. constructor; try done. simpl. rewrite u32_id by (unfold in_u32; lia).
  destruct (Z.eqb_spec (m_ghbHead q + 1) (m_ghbSize q)); lia.
Qed.
(** Replacing an entry of the buffer and the table. *)
Definition put_ghb (i : nat) (g : GHBEntry) (q : Ghb.t) : Ghb.t :=
  mk (m_prefetchWidth q) (m_prefetchDepth q) (m_lastAddress q) (m_ghbSize q) (m_ghbHead q) (m_generation q)
    (<[i := g]> (m_ghb q)) (m_tableSize q) (m_tableHead q) (m_ghbTable q).
Definition put_table (head : Z) (l : list TableEntry) (q : Ghb.t) : Ghb.t :=
  mk (m_prefetchWidth q) (m_prefetchDepth q) (m_lastAddress q) (m_ghbSize q) (m_ghbHead q) (m_generation q)
    (m_ghb q) (m_tableSize q) head l.
Lemma ghb_ok_put_ghb B q i g : ghb_ok B q → delta_ok B (g_delta g) →
  nextIndex g = INVALID_INDEX ∨ 0 ≤ nextIndex g < m_ghbSize q → ghb_ok B (put_ghb i g q).
Proof.
  intros [] Hd Hn. constructor; simpl; rewrite ?length_insert; try done. by apply Forall_insert.
Qed.
Lemma ghb_ok_put_table B q i e head : ghb_ok B q → (B | t_delta e) → 0 ≤ ghbIndex e < m_ghbSize q →
  0 ≤ head < m_tableSize q → ghb_ok B (put_table head (<[i := e]> (m_ghbTable q)) q).
Proof.
  intros [] Hd Hi Hh. constructor; simpl; rewrite ?length_insert; try done. apply Forall_insert; [done|by right].
Qed.

Lemma record_delta_Ok B q d : ghb_ok B q → (B | d) → ∃ q', record_delta d q = Ok q' ∧ ghb_ok B q'.
Proof.
  intros Hq Hd. pose proof (go_len _ _ Hq) as Hl. pose proof (go_tlen _ _ Hq) as Htl. pose proof (go_head _ _ Hq) as Hh.
  pose proof (go_size _ _ Hq) as Hs. pose proof (go_thead _ _ Hq) as Hth. pose proof (go_tsize _ _ Hq) as Hts.
  set (g := mkGHB INVALID_INDEX d (m_generation q)).
  pose proof (ghb_ok_put_ghb B q (Z.to_nat (m_ghbHead q)) g Hq (or_intror Hd) (or_introl eq_refl)) as Hq1.
  unfold record_delta. rewrite wr_lt by lia. cbn [res_bind]. fold g.
  set (q1 := put_ghb (Z.to_nat (m_ghbHead q)) g q) in *. change (<[_ := g]> (m_ghb q)) with (m_ghb q1).
  change (mk (m_prefetchWidth q) (m_prefetchDepth q) (m_lastAddress q) (m_ghbSize q) (m_ghbHead q) (m_generation q)
            (m_ghb q1) (m_tableSize q) (m_tableHead q) (m_ghbTable q)) with q1.
  set (p := if 0 <? m_ghbHead q then _ else _).
  assert (Hp : 0 ≤ p < m_ghbSize q).
  { subst p. destruct (Z.ltb_spec 0 (m_ghbHead q)); [lia|]. rewrite u32_id by (unfold in_u32; lia). lia. }
  destruct (ghb_rd B q1 Hq1 p Hp) as (prev & -> & Hprev & _). cbn [res_bind].
  destruct (Z.eqb_spec (g_delta prev) INVALID_DELTA) as [|Hne]; [by exists q1|].
  destruct Hprev as [|Hprev]; [done|].
  destruct (find_delta (g_delta prev) (m_ghbTable q1) 0) as [[i e]|] eqn:Hf.
  - destruct (find_delta_table B q1 Hq1 _ i e Hprev Hf) as [Hi He].
    destruct (live_entry_Ok B q1 Hq1 e He) as [live ->]. cbn [res_bind].
    rewrite wr_lt by (subst q1; simpl; rewrite length_insert; lia). cbn [res_bind]. rewrite wr_lt by done. cbn [res_bind].
    eexists. split; [reflexivity|]. set (g2 := mkGHB _ _ _).
    apply (ghb_ok_put_table B (put_ghb (Z.to_nat (m_ghbHead q)) g2 q1)); [|done|done|done].
    apply ghb_ok_put_ghb; [done|by right|]. simpl. destruct live; [by right|by left].
  - rewrite wr_lt by (subst q1; simpl; lia). cbn [res_bind].
    rewrite (proj2 (Z.eqb_neq (m_tableSize q1) 0)) by (subst q1; simpl; lia). eexists. split; [reflexivity|].
    apply (ghb_ok_put_table B q1); [done|done|done|]. apply Z.mod_pos_bound. subst q1. simpl. lia.
Qed.

Lemma ghb_next_Ok B a core q : ghb_ok B q → line_address B a →
  ∃ l q', Ghb.next a core q = Ok (l, q') ∧ ghb_ok B q' ∧ Forall (line_address B) l.
Proof.
  intros Hq Ha. unfold Ghb.next. destruct (Z.eqb_spec (m_lastAddress q) INVALID_ADDRESS) as [Hi|Hi].
  { exists [], (put_last a q). split; [done|]. split; [by apply ghb_ok_put|constructor]. }
  pose proof (ghb_ok_put B q a Hq Ha) as Hq1. set (q1 := put_last a q) in *. set (d := s64 _).
  assert (Hd : (B | d)).
  { apply divide_s64; [apply Hq|]. destruct (go_last _ _ Hq) as [|Hl]; [done|].
    apply (line_divide B _ (go_block _ _ Hq)) in Ha as [_ Ha]. apply (line_divide B _ (go_block _ _ Hq)) in Hl as [_ Hl].
    by apply Z.divide_sub_r. }
  assert (Hlist : ∃ l, match find_delta d (m_ghbTable q1) 0 with
    | Some (_, e) => let? live := live_entry q1 e in
        if live then follow q1 (Z.to_nat (m_prefetchWidth q1)) a (ghbIndex e) [] else Ok []
    | None => Ok [] end = Ok l ∧ Forall (line_address B) l).
  { destruct (find_delta d (m_ghbTable q1) 0) as [[i e]|] eqn:Hf; [|by exists []].
    destruct (find_delta_table B q1 Hq1 d i e Hd Hf) as [_ He]. destruct (live_entry_Ok B q1 Hq1 e He) as [live ->]. simpl.
    destruct live; [|by exists []]. apply (follow_Ok B q1 Hq1); [done|by right|constructor]. }
  destruct Hlist as (l & -> & Hl). cbn [res_bind]. destruct (record_delta_Ok B q1 d Hq1 Hd) as (q2 & -> & Hq2). cbn [res_bind].
  exists l, (advance q2). split; [done|]. split; [by apply ghb_ok_advance|done].
Qed.

Lemma ghb_ok_new B width depth size tsize :
  block_size B → 0 < size < 2 ^ 32 → 0 < tsize < 2 ^ 32 → ghb_ok B (Ghb.new width depth size tsize).
Proof.
  intros HB Hs Ht. constructor; simpl; rewrite ?length_replicate; try done; try lia.
  - apply Forall_replicate. split; [by left|by left].
  - apply Forall_replicate. by left.
Qed.

#[export] Program Instance ghb_prefetcher_ok : PrefetcherOk Ghb.t := { pf_inv := ghb_ok }.
Next Obligation.
  intros B a core f Hf Ha. destruct (ghb_next_Ok B a core f Hf Ha) as (l & f' & ? & ? & ?). by exists l, f'.
Qed.

(** * Facts about the simple prefetcher *)
Import Simple.

Definition user_address (a : Z) : Prop := 0 ≤ a < 2 ^ 63.
Record simple_ok (q : Simple.t) : Prop := {
  so_flows : 0 < n_flows q < 2 ^ 32;
  so_next : 0 ≤ n_flow_next q < n_flows q;
  so_sets : length (m_prev_address q) = if flows_per_core q then shared_cores q else 1%nat;
  so_prev : Forall (λ l, Z.of_nat (length l) = n_flows q ∧ Forall user_address l) (m_prev_address q)
}.
Definition core_ok (core : nat) (q : Simple.t) : Prop :=
  flows_per_core q = true → (Simple.core_id q ≤ core < Simple.core_id q + shared_cores q)%nat.

Lemma distance_Ok a b : user_address a → user_address b → distance a b = Ok (Z.abs (a - b)).
Proof.
  intros Ha Hb. unfold user_address in *. unfold distance, s64. rewrite !Z.mod_small by lia.
  replace (a + 2 ^ 63 - 2 ^ 63) with a by lia. replace (b + 2 ^ 63 - 2 ^ 63) with b by lia.
  by rewrite (proj2 (Z.ltb_lt _ _)), (proj2 (Z.ltb_lt _ _)) by lia.
Qed.
(** The chosen flow is the first nearest one if it is within a page. *)
Definition nearer (a : Z) (l : list Z) (i n m r : Z) : Prop :=
  (r = n ∧ ∀ j p, l !! j = Some p → m ≤ Z.abs (a - p)) ∨
  ∃ j p, r = i + Z.of_nat j ∧ l !! j = Some p ∧ Z.abs (a - p) < m ∧ ∀ j' p', l !! j' = Some p' → Z.abs (a - p) ≤ Z.abs (a - p').
Lemma nearest_Ok a l i n m : user_address a → Forall user_address l → ∃ r, nearest a l i n m = Ok r ∧ nearer a l i n m r.
Proof.
  intros Ha Hl. revert i n m. induction Hl as [|p l Hp Hl IH]; intros i n m; simpl.
  - exists n. split; [done|]. left. done.
  - rewrite (distance_Ok a p Ha Hp). simpl. destruct (Z.ltb_spec (Z.abs (a - p)) m) as [Hlt|Hge].
    + destruct (IH (i + 1) i (Z.abs (a - p))) as (r & -> & Hr). exists r. split; [done|]. right.
      destruct Hr as [[-> Hall]|(j & p' & -> & Hj & Hd & Hmin)].
      * exists 0%nat, p. split; [lia|]. split; [done|]. split; [done|]. intros [|j'] p'; simpl; [intros [= <-]; lia|apply Hall].
      * exists (S j), p'. split; [lia|]. split; [done|]. split; [lia|]. intros [|j'] p''; simpl; [intros [= <-]; lia|apply Hmin].
    + destruct (IH (i + 1) n m) as (r & -> & Hr). exists r. split; [done|].
      destruct Hr as [[-> Hall]|(j & p' & -> & Hj & Hd & Hmin)].
      * left. split; [done|]. intros [|j'] p'; simpl; [intros [= <-]; lia|apply Hall].
      * right. exists (S j), p'. split; [lia|]. split; [done|]. split; [lia|]. intros [|j'] p''; simpl; [intros [= <-]; lia|apply Hmin].
Qed.

Lemma addresses_spec a stride q x :
  x ∈ addresses a stride q ↔
  stride ≠ 0 ∧ (stop_at_page q = false ∨ same_page x a = true) ∧
  ∃ i, (i < Z.to_nat (num_prefetches q))%nat ∧ x = u64 (a + Z.of_nat i * stride).
Proof.
  unfold addresses. destruct (Z.eqb_spec stride 0) as [Hz|Hz].
  - rewrite elem_of_nil. naive_solver.
  - rewrite list_elem_of_filter, list_elem_of_fmap. split.
    + intros (Hp & i & -> & Hi%elem_of_seq). split; [done|]. split; [done|]. exists i. split; [lia|done].
    + intros (_ & Hp & i & Hi & ->). split; [done|]. exists i. split; [done|]. apply elem_of_seq. lia.
Qed.

(** C32: The simple prefetcher follows the nearest flow.  For addresses of user
    space and a core of the cache it does not fail and keeps its tables; with
    the previous address of a flow of that core that lies nearest to the
    current one, if one lies within a page, and of the flow whose turn it is
    otherwise, its prefetches are the addresses from the current one on in
    steps of the distance, up to the configured number, inside the page if it
    is to stop at the end of the page; and it remembers the current address
    for that flow. *)
Theorem simple_prefetcher_follows_flow a core q :
  simple_ok q → core_ok core q → user_address a →
  ∃ l q' k flows n p, getNextAddress a core q = Ok (l, q') ∧ simple_ok q' ∧
    m_prev_address q !! k = Some flows ∧ (flows_per_core q = true → k = core - Simple.core_id q)%nat ∧
    nearer a flows 0 (n_flow_next q) PAGE_SIZE n ∧ flows !! Z.to_nat n = Some p ∧
    m_prev_address q' = <[k := <[Z.to_nat n := a]> flows]> (m_prev_address q) ∧
    ∀ x, x ∈ l ↔ u64 (a - p) ≠ 0 ∧ (stop_at_page q = false ∨ same_page x a = true) ∧
                 ∃ i, (i < Z.to_nat (num_prefetches q))%nat ∧ x = u64 (a + Z.of_nat i * u64 (a - p)).
Proof.
  intros Hq Hc Ha. pose proof (so_flows _ Hq) as Hf. pose proof (so_next _ Hq) as Hn. pose proof (so_sets _ Hq) as Hs.
  cbn [getNextAddress simple_ops]. unfold Simple.next.
  set (fs := if flows_per_core q then _ else _).
  assert (Hk : 0 ≤ fs < Z.of_nat (length (m_prev_address q))).
  { subst fs. rewrite Hs. unfold core_ok in Hc. destruct (flows_per_core q); [specialize (Hc eq_refl); lia|lia]. }
  rewrite (proj2 (Z.ltb_ge fs 0)), (proj2 (Z.leb_gt _ _)) by lia. cbn [orb].
  destruct (rd_lt (m_prev_address q) (Z.to_nat fs) ltac:(lia)) as (flows & Hflows & ->). cbn [res_bind].
  destruct (Forall_lookup_1 _ _ _ _ (so_prev _ Hq) Hflows) as [Hlen Hus].
  rewrite (proj2 (Z.eqb_neq (n_flows q) 0)) by lia.
  destruct (nearest_Ok a flows 0 (n_flow_next q) PAGE_SIZE Ha Hus) as (n & -> & Hnear). cbn [res_bind].
  assert (Hnr : 0 ≤ n < n_flows q).
  { destruct Hnear as [[-> _]|(j & p & -> & Hj%lookup_lt_Some & _)]; [done|lia]. }
  destruct (rd_lt flows (Z.to_nat n) ltac:(lia)) as (p & Hp & ->). cbn [res_bind].
  rewrite wr_lt by lia. cbn [res_bind].
  do 2 eexists. exists (Z.to_nat fs), flows, n, p. split; [reflexivity|]. split.
  { constructor; simpl; rewrite ?length_insert; [done|apply Z.mod_pos_bound; lia|done|].
    apply Forall_insert; [apply Hq|]. rewrite length_insert. split; [done|by apply Forall_insert]. }
  split; [done|]. split; [intros Hfp; subst fs; rewrite Hfp; lia|]. do 3 (split; [done|]). intros x. apply addresses_spec.
Qed.

Lemma simple_prefetcher_follows_flow_witness :
  ∃ l q', getNextAddress 192 0 (Simple.mk 0 1 2 false 3 true 0 [[128; 64000]]) = Ok (l, q') ∧ simple_ok q' ∧
    l = [192; 256; 320].
Proof.
  destruct (simple_prefetcher_follows_flow 192 0 (Simple.mk 0 1 2 false 3 true 0 [[128; 64000]]))
    as (l & q' & k & flows & n & p & He & Hq & _); [|done|done|].
  { constructor; simpl; [lia|lia|done|]. repeat constructor; simpl; lia. }
  exists l, q'. split; [done|]. split; [done|]. vm_compute in He. congruence.
Defined.
