(* ===== verification/Dram.v ===== *)
(** The memory behind the caches: the breakdown of the time of a request
    (src/common/core/memory_subsystem/pr_l1_pr_l2_dram_directory_msi/shmem_perf.{h,cc}),
    the performance models of DRAM (src/common/performance_model/dram_perf_model*.{h,cc}),
    the DRAM controller (dram_cntlr.{h,cc}, dram/dram_cntlr_interface.{h,cc})
    and the DRAM cache (dram/dram_cache.{h,cc}).

    A pointer to a [ShmemPerf] is an [option]: a call on the null pointer is
    undefined.  The model with a normally distributed access cost draws the cost
    from a distribution of the Boost library: it is an argument. *)
From S2P Require Import Prelude SubsecondTime ContentionModel MovingAverage QueueModels CacheBlock LruPolicies OtherPolicies FaultInjection CacheSet Address CacheModel Directory Shmem CacheCntlr.
Local Open Scope Z_scope.

(** * ShmemPerf *)
Module ShmemPerf.
Inductive shmem_times_type_t : Type :=
| NOC_BASE | NOC_QUEUE | TD_ACCESS | INV_IMBALANCE | REMOTE_CACHE_INV | REMOTE_CACHE_FWD | REMOTE_CACHE_WB
| PENDING_HIT | NUCA_TAGS | NUCA_QUEUE | NUCA_BUS | NUCA_DATA | DRAM_CACHE | DRAM_CACHE_TAGS | DRAM_CACHE_QUEUE
| DRAM_CACHE_BUS | DRAM_CACHE_DATA | DRAM | DRAM_QUEUE | DRAM_BUS | DRAM_DEVICE | UNKNOWN.
#[global] Instance shmem_times_type_t_eq_dec : EqDecision shmem_times_type_t.
Proof. solve_decision. Defined.
Definition reasons : list shmem_times_type_t :=
  [NOC_BASE; NOC_QUEUE; TD_ACCESS; INV_IMBALANCE; REMOTE_CACHE_INV; REMOTE_CACHE_FWD; REMOTE_CACHE_WB; PENDING_HIT;
   NUCA_TAGS; NUCA_QUEUE; NUCA_BUS; NUCA_DATA; DRAM_CACHE; DRAM_CACHE_TAGS; DRAM_CACHE_QUEUE; DRAM_CACHE_BUS;
   DRAM_CACHE_DATA; DRAM; DRAM_QUEUE; DRAM_BUS; DRAM_DEVICE; UNKNOWN].

(** [m_times], by the reason. *)
Record t : Type := mk {
  m_core_id : Z;
  m_time_begin : Z;
  m_time_last : Z;
  m_times : shmem_times_type_t → Z
}.
Definition new : t := mk INVALID_CORE_ID Zero Zero (λ _, Zero).
Definition disable (p : t) : t := mk (m_core_id p) (m_time_begin p) MaxTime (m_times p).
Definition reset (time core_id : Z) (p : t) : t := mk core_id time time (λ _, Zero).
Definition add_time (reason : shmem_times_type_t) (time : Z) (f : shmem_times_type_t → Z) : shmem_times_type_t → Z :=
  λ r, if decide (r = reason) then time_add (f r) time else f r.
Definition updateTime (time : Z) (reason : shmem_times_type_t) (p : t) : t :=
  if m_time_last p <? time then
    mk (m_core_id p) (m_time_begin p) time (add_time reason (time_sub time (m_time_last p)) (m_times p))
  else p.
Definition updatePacket (time queue_delay : Z) (p : t) : t :=
  if m_time_last p <? time then
    updateTime time NOC_BASE
      (mk (m_core_id p) (m_time_begin p) (time_add (m_time_last p) queue_delay)
         (add_time NOC_QUEUE queue_delay (m_times p)))
  else p.
Definition add (perf p : t) : t :=
  mk (m_core_id p) (m_time_begin p) (m_time_last p) (λ r, time_add (m_times p r) (m_times perf r)).
End ShmemPerf.
Notation Perf := (option ShmemPerf.t) (only parsing).
(** [perf->updateTime(time, reason)]. *)
Definition perf_update (time : Z) (reason : ShmemPerf.shmem_times_type_t) (perf : Perf) : res Perf :=
  match perf with Some p => Ok (Some (ShmemPerf.updateTime time reason p)) | None => Err ErrUndefined end.
(** A sequence of such calls. *)
Fixpoint perf_updates (l : list (Z * ShmemPerf.shmem_times_type_t)) (perf : Perf) : res Perf :=
  match l with [] => Ok perf | (t, r) :: l => let? perf := perf_update t r perf in perf_updates l perf end.

(** * DramPerfModel *)
Inductive dram_access_t : Type := DRAM_READ | DRAM_WRITE.
(** The access cost of the constant models, or that of the random one. *)
Inductive DramKind : Type :=
| DramConstant (queue : option QueueModel)
| DramReadWrite (queues : option (QueueModel * QueueModel)) (m_shared_readwrite : bool)
| DramNormal (queue : option QueueModel).
Record DramPerfModel : Type := mkDramPerfModel {
  d_kind : DramKind;
  d_enabled : bool;
  d_num_accesses : Z;
  m_dram_bandwidth : Z;
  m_dram_access_cost : Z;
  m_total_access_latency : Z;
  m_total_queueing_delay : Z * Z
}.

Section Model.
(** [queue_delay] is [computeQueueDelay] at the present time of the barrier. *)
Context (root : Z → Z → Z) (estimate : Z → Z → Z → Z → Z) (global_time : Z).
(** The number of cores that run the application, and the next access cost of
    the random model. *)
Context (application_cores : Z) (normal_cost : Z).
Local Notation queue_delay := (computeQueueDelay root estimate global_time).

Definition opt_delay (pkt_time processing_time : Z) (q : option QueueModel) : res (Z * option QueueModel) :=
  match q with
  | Some q => let? r := queue_delay pkt_time processing_time q in Ok (r.1, Some r.2)
  | None => Ok (Zero, None)
  end.
(** Reads are delayed by reads only; with shared bandwidth they also take up
    the queue of the writes. *)
Definition kind_delay (pkt_time processing_time : Z) (access_type : dram_access_t) (k : DramKind) : res (Z * DramKind) :=
  match k with
  | DramConstant q => let? r := opt_delay pkt_time processing_time q in Ok (r.1, DramConstant r.2)
  | DramNormal q => let? r := opt_delay pkt_time processing_time q in Ok (r.1, DramNormal r.2)
  | DramReadWrite None shared => Ok (Zero, k)
  | DramReadWrite (Some (qr, qw)) shared =>
      match access_type with
      | DRAM_READ =>
          let? r := queue_delay pkt_time processing_time qr in
          let? w := (if shared then let? w := queue_delay pkt_time processing_time qw in Ok w.2 else Ok qw) in
          Ok (r.1, DramReadWrite (Some (r.2, w)) shared)
      | DRAM_WRITE =>
          let? w := queue_delay pkt_time processing_time qw in
          Ok (w.1, DramReadWrite (Some (qr, w.2)) shared)
      end
  end.
Definition add_delay (access_type : dram_access_t) (k : DramKind) (d : Z) (t : Z * Z) : Z * Z :=
  match k, access_type with
  | DramReadWrite _ _, DRAM_WRITE => (t.1, time_add t.2 d)
  | _, _ => (time_add t.1 d, t.2)
  end.

Definition getAccessLatency (pkt_time pkt_size requester : Z) (access_type : dram_access_t) (perf : Perf)
    (m : DramPerfModel) : res (Z * Perf * DramPerfModel) :=
  if negb (d_enabled m) || (application_cores <=? requester) then Ok (Zero, perf, m)
  else
    let? processing_time := bw_getRoundedLatency (m_dram_bandwidth m) (u64 (8 * pkt_size)) in
    let? r := kind_delay pkt_time processing_time access_type (d_kind m) in
    let '(queue_delay, k) := r in
    let cost := match k with DramNormal _ => normal_cost | _ => m_dram_access_cost m end in
    let access_latency := time_add (time_add queue_delay processing_time) cost in
    let t1 := time_add pkt_time queue_delay in
    let t2 := time_add t1 processing_time in
    let? perf := perf_updates [(pkt_time, ShmemPerf.UNKNOWN); (t1, ShmemPerf.DRAM_QUEUE); (t2, ShmemPerf.DRAM_BUS);
                               (time_add t2 cost, ShmemPerf.DRAM_DEVICE)] perf in
    Ok (access_latency, perf,
        mkDramPerfModel k (d_enabled m) (u64 (d_num_accesses m + 1)) (m_dram_bandwidth m) (m_dram_access_cost m)
          (time_add (m_total_access_latency m) access_latency)
          (add_delay access_type k queue_delay (m_total_queueing_delay m))).

(** * DramCntlr *)
(** [dr_data] says whether there is a fault injection manager: only then the
    controller holds data.  A null entry of [m_data_map] is an absent one. *)
Record DramCntlr : Type := mkDramCntlr {
  dr_data : bool;
  m_data_map : gmap Z (list Z);
  m_dram_perf_model : DramPerfModel;
  dr_fault_injector : option FaultInjector;
  dr_reads : Z;
  dr_writes : Z;
  dr_dummy_perf : ShmemPerf.t;
  dr_block_size : Z
}.

Definition dram_read (address requester now : Z) (perf : Perf) (d : DramCntlr) :
    res (option (list Z) * Z * where_t * Perf * DramCntlr) :=
  let? r :=
    (if dr_data d then
       let old := default (replicate (Z.to_nat (dr_block_size d)) 0) (m_data_map d !! address) in
       let? f := (match dr_fault_injector d with
                  | Some fi => let? r := preRead fi (dr_block_size d) old 0 in Ok (Some r.1, r.2)
                  | None => Ok (None, old)
                  end) in
       Ok (Some f.2, <[address := f.2]> (m_data_map d), f.1)
     else Ok (None, m_data_map d, dr_fault_injector d)) in
  let '(buf, data, fi) := r in
  let? l := getAccessLatency now (dr_block_size d) requester DRAM_READ perf (m_dram_perf_model d) in
  let '(latency, perf, model) := l in
  Ok (buf, latency, DRAM, perf,
      mkDramCntlr (dr_data d) data model fi (u64 (dr_reads d + 1)) (dr_writes d) (dr_dummy_perf d) (dr_block_size d)).

(** [memcpy] reads a whole line; without a fault injection manager the buffer is
    not looked at. *)
Definition dram_write (address requester : Z) (data_buf : option (list Z)) (now : Z) (d : DramCntlr) :
    res (Z * where_t * DramCntlr) :=
  let? data :=
    (if dr_data d then
       match m_data_map d !! address, data_buf with
       | None, _ => Err (ErrLog "Data Buffer does not exist")
       | Some _, None => Err ErrUndefined
       | Some _, Some data_buf =>
           if Z.of_nat (length data_buf) <? dr_block_size d then Err ErrUndefined
           else Ok (<[address := take (Z.to_nat (dr_block_size d)) data_buf]> (m_data_map d))
       end
     else Ok (m_data_map d)) in
  let? l := getAccessLatency now (dr_block_size d) requester DRAM_WRITE (Some (dr_dummy_perf d)) (m_dram_perf_model d) in
  let '(latency, perf, model) := l in
  Ok (latency, DRAM,
      mkDramCntlr (dr_data d) data model (postWrite <$> dr_fault_injector d) (dr_reads d) (u64 (dr_writes d + 1))
        (default (dr_dummy_perf d) perf) (dr_block_size d)).

(** DramCntlrInterface::handleMsgFromTagDirectory, at the elapsed time
    [msg_time] of the network thread; [uninit] is what the buffer on the stack
    holds.  The result is the message to the sender and the new time. *)
Definition handleMsgFromTagDirectory (uninit : list Z) (msg : ShmemMsg) (msg_time : Z) (perf : Perf) (d : DramCntlr) :
    res (option ShmemMsg * Z * Perf * DramCntlr) :=
  let? perf := perf_update msg_time ShmemPerf.UNKNOWN perf in
  match sm_msg_type msg with
  | DRAM_READ_REQ =>
      let? r := dram_read (sm_address msg) (sm_requester msg) msg_time perf d in
      let '(buf, latency, hit_where, perf, d) := r in
      let now := time_add msg_time latency in
      log_assert (msg_time <=? now) "t_elapsed_time < i_elapsed_time";?
      let? perf := perf_update now (if decide (hit_where = DRAM_CACHE) then ShmemPerf.DRAM_CACHE else ShmemPerf.DRAM) perf in
      Ok (Some (setWhere hit_where (ShmemMsg_new DRAM_READ_REP Shmem.DRAM_COMPONENT TAG_DIR (sm_requester msg)
                  (sm_address msg) (Some (default uninit buf)) (dr_block_size d))), now, perf, d)
  | DRAM_WRITE_REQ =>
      let? r := dram_write (sm_address msg) (sm_requester msg) (sm_data_buf msg) msg_time d in
      Ok (None, msg_time, perf, r.2)
  | _ => Err (ErrLog "Unrecognized Shmem Msg Type")
  end.

(** * DramCache *)
Section Cache.
Context {P F : Type} `{Policy P} `{PrefetcherOps F}.
Record DramCache : Type := mkDramCache {
  k_core_id : Z;
  k_block_size : Z;
  k_data_access_time : Z;
  k_tags_access_time : Z;
  k_data_array_bandwidth : Z;
  k_dram_cntlr : DramCntlr;
  k_cache : Cache P;
  k_queue_model : option QueueModel;
  k_prefetcher : option F;
  k_prefetch_on_prefetch_hit : bool;
  k_prefetch_mshr : ContentionModel;
  k_reads : Z;
  k_writes : Z;
  k_read_misses : Z;
  k_write_misses : Z;
  k_hits_prefetch : Z;
  k_prefetches : Z;
  k_prefetch_mshr_delay : Z
}.
Definition k_put (dram : DramCntlr) (cache : Cache P) (queue : option QueueModel) (k : DramCache) : DramCache :=
  mkDramCache (k_core_id k) (k_block_size k) (k_data_access_time k) (k_tags_access_time k) (k_data_array_bandwidth k)
    dram cache queue (k_prefetcher k) (k_prefetch_on_prefetch_hit k) (k_prefetch_mshr k) (k_reads k) (k_writes k)
    (k_read_misses k) (k_write_misses k) (k_hits_prefetch k) (k_prefetches k) (k_prefetch_mshr_delay k).
Definition k_put_prefetch (f : option F) (mshr : ContentionModel) (hits prefetches delay : Z) (k : DramCache) : DramCache :=
  mkDramCache (k_core_id k) (k_block_size k) (k_data_access_time k) (k_tags_access_time k) (k_data_array_bandwidth k)
    (k_dram_cntlr k) (k_cache k) (k_queue_model k) f (k_prefetch_on_prefetch_hit k) mshr (k_reads k) (k_writes k)
    (k_read_misses k) (k_write_misses k) hits prefetches delay.
Definition k_count (reads writes read_misses write_misses : Z) (k : DramCache) : DramCache :=
  mkDramCache (k_core_id k) (k_block_size k) (k_data_access_time k) (k_tags_access_time k) (k_data_array_bandwidth k)
    (k_dram_cntlr k) (k_cache k) (k_queue_model k) (k_prefetcher k) (k_prefetch_on_prefetch_hit k) (k_prefetch_mshr k)
    reads writes read_misses write_misses (k_hits_prefetch k) (k_prefetches k) (k_prefetch_mshr_delay k).

Definition accessDataArray (t_start : Z) (perf : Perf) (k : DramCache) : res (Z * Perf * DramCache) :=
  let? processing_time := bw_getRoundedLatency (k_data_array_bandwidth k) (u64 (8 * k_block_size k)) in
  let? r := opt_delay t_start processing_time (k_queue_model k) in
  let '(queue_delay, queue) := r in
  let t1 := time_add t_start queue_delay in
  let t2 := time_add t1 processing_time in
  let? perf := perf_updates [(t_start, ShmemPerf.UNKNOWN); (t1, ShmemPerf.DRAM_CACHE_QUEUE);
                             (t2, ShmemPerf.DRAM_CACHE_BUS);
                             (time_add t2 (k_data_access_time k), ShmemPerf.DRAM_CACHE_DATA)] perf in
  Ok (time_add (time_add queue_delay processing_time) (k_data_access_time k), perf,
      k_put (k_dram_cntlr k) (k_cache k) queue k).

(** A line that [peekSingleLine] must find: null is dereferenced. *)
Definition peeked (address : Z) (c : Cache P) : res (nat * nat) :=
  let? l := peekSingleLine address c in
  match l with Some l => Ok l | None => Err ErrUndefined end.

(** The write-back passes [data_buf], the data of the new line. *)
Definition insertLine (store : bool) (address requester : Z) (data_buf : option (list Z)) (now : Z) (k : DramCache) :
    res DramCache :=
  let? evict_info := CacheBlockInfo_create PR_L1_CACHE in
  let? r := insertSingleLine address data_buf evict_info true None (k_cache k) in
  let '(ins, evict_address, c) := r in
  let? l := peeked address c in
  let? c := updateBlock l (setCState (if store then CacheState.MODIFIED else CacheState.SHARED)) c in
  let? a := accessDataArray now None (k_put (k_dram_cntlr k) c (k_queue_model k) k) in
  let k := a.2 in
  if eviction ins && bool_decide (getCState (evict_block_info ins) = CacheState.MODIFIED) then
    let? w := dram_write evict_address requester data_buf now (k_dram_cntlr k) in
    Ok (k_put w.2 (k_cache k) (k_queue_model k) k)
  else Ok k.

(** The loop over the list of the prefetcher. *)
Fixpoint prefetch_lines (l : list Z) (t_issue : Z) (k : DramCache) : res DramCache :=
  match l with
  | [] => Ok k
  | a :: l =>
      let? p := peekSingleLine a (k_cache k) in
      match p with
      | Some _ => prefetch_lines l t_issue k
      | None =>
          let? r := dram_read a (k_core_id k) t_issue None (k_dram_cntlr k) in
          let '(buf, dram_latency, _, _, d) := r in
          let? k := insertLine false a (k_core_id k) buf (time_add t_issue dram_latency)
                      (k_put d (k_cache k) (k_queue_model k) k) in
          let? loc := peeked a (k_cache k) in
          let? c := updateBlock loc (setOption PREFETCH) (k_cache k) in
          let m := getCompletionTime t_issue dram_latency a (k_prefetch_mshr k) in
          prefetch_lines l t_issue
            (k_put_prefetch (k_prefetcher k) m.2 (k_hits_prefetch k) (u64 (k_prefetches k + 1)) (k_prefetch_mshr_delay k)
               (k_put (k_dram_cntlr k) c (k_queue_model k) k))
      end
  end.
(** The prefetcher is called for no core: [invalid_core] stands for
    INVALID_CORE_ID. *)
Definition callPrefetcher (invalid_core : nat) (train_address : Z) (cache_hit prefetch_hit : bool) (t_issue : Z)
    (k : DramCache) : res DramCache :=
  match k_prefetcher k with
  | None => Ok k
  | Some f =>
      let? r := getNextAddress train_address invalid_core f in
      let k := k_put_prefetch (Some r.2) (k_prefetch_mshr k) (k_hits_prefetch k) (k_prefetches k) (k_prefetch_mshr_delay k) k in
      if negb cache_hit || (k_prefetch_on_prefetch_hit k && prefetch_hit) then prefetch_lines r.1 t_issue k else Ok k
  end.

(** A hit: on a line that was prefetched the access waits for the prefetch. *)
Definition cache_hit_access (acc : Access) (store : bool) (address : Z) (loc : nat * nat) (now latency : Z)
    (perf : Perf) (k : DramCache) : res (option (list Z) * bool * Z * Perf * DramCache) :=
  let? b := cache_peekBlock loc.1 loc.2 (k_cache k) in
  let? r :=
    (if hasOption PREFETCH (base b) then
       let? c := updateBlock loc (clearOption PREFETCH) (k_cache k) in
       let k := k_put (k_dram_cntlr k) c (k_queue_model k) k in
       let t_completed := getTagCompletionTime address (k_prefetch_mshr k) in
       let wait := negb (t_completed =? MaxTime) && (time_add now latency <? t_completed) in
       Ok (if wait then time_sub t_completed now else latency, true,
           k_put_prefetch (k_prefetcher k) (k_prefetch_mshr k) (u64 (k_hits_prefetch k + 1)) (k_prefetches k)
             (if wait then time_add (k_prefetch_mshr_delay k) (time_sub t_completed (time_add now latency))
              else k_prefetch_mshr_delay k) k)
     else Ok (latency, false, k)) in
  let '(latency, prefetch_hit, k) := r in
  let? a := accessSingleLine address acc (k_block_size k) true (k_cache k) in
  let '(_, out, c) := a in
  let? d := accessDataArray (time_add now latency) perf (k_put (k_dram_cntlr k) c (k_queue_model k) k) in
  let '(array_latency, perf, k) := d in
  let? c := (if store then updateBlock loc (setCState CacheState.MODIFIED) (k_cache k) else Ok (k_cache k)) in
  Ok (out, prefetch_hit, time_add latency array_latency, perf, k_put (k_dram_cntlr k) c (k_queue_model k) k).

(** [data_buf] is the line to be written, [None] for a load. *)
Definition doAccess (invalid_core : nat) (address requester : Z) (data_buf : option (option (list Z))) (now : Z)
    (perf : Perf) (k : DramCache) : res (bool * option (list Z) * Z * Perf * DramCache) :=
  let? p := peekSingleLine address (k_cache k) in
  let latency := k_tags_access_time k in
  let? perf := perf_updates [(now, ShmemPerf.UNKNOWN); (time_add now latency, ShmemPerf.DRAM_CACHE_TAGS)] perf in
  let store := bool_decide (is_Some data_buf) in
  let? r :=
    (match p with
     | Some loc =>
         let acc := match data_buf with Some b => STORE b | None => LOAD true end in
         let? r := cache_hit_access acc store address loc now latency perf k in
         let '(out, prefetch_hit, latency, perf, k) := r in
         Ok (out, prefetch_hit, latency, perf, k)
     | None =>
         let? r :=
           (match data_buf with
            | Some b => Ok (b, latency, perf, k)
            | None =>
                let? r := dram_read address requester (time_add now latency) perf (k_dram_cntlr k) in
                let '(buf, dram_latency, _, perf, d) := r in
                Ok (buf, time_add latency dram_latency, perf, k_put d (k_cache k) (k_queue_model k) k)
            end) in
         let '(buf, latency, perf, k) := r in
         let? k := insertLine store address requester buf (time_add now latency) k in
         Ok (buf, false, latency, perf, k)
     end) in
  let '(out, prefetch_hit, latency, perf, k) := r in
  let hit := bool_decide (is_Some p) in
  let? k := callPrefetcher invalid_core address hit prefetch_hit (time_add now latency) k in
  Ok (hit, out, latency, perf, k).

(** [putDataToDram] passes the null pointer for [perf]. *)
Definition dram_cache_read (invalid_core : nat) (address requester now : Z) (perf : Perf) (k : DramCache) :
    res (option (list Z) * Z * where_t * Perf * DramCache) :=
  let? r := doAccess invalid_core address requester None now perf k in
  let '(hit, out, latency, perf, k) := r in
  Ok (out, latency, if hit then DRAM_CACHE else DRAM, perf,
      k_count (u64 (k_reads k + 1)) (k_writes k) (if hit then k_read_misses k else u64 (k_read_misses k + 1))
        (k_write_misses k) k).
Definition dram_cache_write (invalid_core : nat) (address requester : Z) (data_buf : option (list Z)) (now : Z)
    (k : DramCache) : res (Z * where_t * DramCache) :=
  let? r := doAccess invalid_core address requester (Some data_buf) now None k in
  let '(hit, _, latency, _, k) := r in
  Ok (latency, if hit then DRAM_CACHE else DRAM,
      k_count (k_reads k) (u64 (k_writes k + 1)) (k_read_misses k)
        (if hit then k_write_misses k else u64 (k_write_misses k + 1)) k).
End Cache.
End Model.

(** * Facts *)

(** ** The breakdown of the time of a request *)
Inductive perf_op : Type :=
| OpTime (time : Z) (reason : ShmemPerf.shmem_times_type_t)
| OpPacket (time queue_delay : Z).
Definition run_perf_op (o : perf_op) : ShmemPerf.t → ShmemPerf.t :=
  match o with
  | OpTime time reason => ShmemPerf.updateTime time reason
  | OpPacket time queue_delay => ShmemPerf.updatePacket time queue_delay
  end.
Definition run_perf (l : list perf_op) (p : ShmemPerf.t) : ShmemPerf.t := foldl (λ p o, run_perf_op o p) p l.
(** The sum over all reasons. *)
Definition total_time (p : ShmemPerf.t) : Z := foldr (λ r acc, time_add (ShmemPerf.m_times p r) acc) Zero ShmemPerf.reasons.
Definition adds_up (p : ShmemPerf.t) : Prop :=
  total_time p = time_sub (ShmemPerf.m_time_last p) (ShmemPerf.m_time_begin p).

Lemma time_add_u64_r a b : time_add a (u64 b) = u64 (a + b).
Proof. unfold time_add, u64. apply Zplus_mod_idemp_r. Qed.
Lemma total_add_list l reason d f :
  NoDup l → foldr (λ r acc, time_add (ShmemPerf.add_time reason d f r) acc) Zero l
  = if decide (reason ∈ l) then time_add d (foldr (λ r acc, time_add (f r) acc) Zero l)
    else foldr (λ r acc, time_add (f r) acc) Zero l.
Proof.
  induction 1 as [|r l Hr Hl IH]; [by rewrite decide_False by apply not_elem_of_nil|].
  simpl. rewrite IH. unfold ShmemPerf.add_time at 1. unfold time_add, u64.
  destruct (decide (r = reason)) as [->|Hne].
  - rewrite decide_False by done. rewrite decide_True by left. rewrite Zplus_mod_idemp_l, Zplus_mod_idemp_r. f_equal. lia.
  - destruct (decide (reason ∈ l)) as [Hin|Hin].
    + rewrite decide_True by by right. rewrite !Zplus_mod_idemp_r. f_equal. lia.
    + rewrite decide_False; [done|]. rewrite elem_of_cons. naive_solver.
Qed.
Lemma all_reasons r : r ∈ ShmemPerf.reasons.
Proof. apply (bool_decide_eq_true_1 _). by destruct r. Qed.
Lemma total_add c b t reason d f :
  total_time (ShmemPerf.mk c b t (ShmemPerf.add_time reason d f)) = time_add d (total_time (ShmemPerf.mk c b t f)).
Proof.
  unfold total_time. cbn [ShmemPerf.m_times]. rewrite total_add_list; [|apply (bool_decide_eq_true_1 _); reflexivity].
  by rewrite decide_True by apply all_reasons.
Qed.
Lemma adds_up_add c b t t' reason d f :
  adds_up (ShmemPerf.mk c b t f) → t' = time_add t d ∨ d = time_sub t' t →
  adds_up (ShmemPerf.mk c b t' (ShmemPerf.add_time reason d f)).
Proof.
  unfold adds_up. cbn [ShmemPerf.m_time_last ShmemPerf.m_time_begin]. intros Hs Hd. rewrite total_add.
  change (total_time (ShmemPerf.mk c b t' f)) with (total_time (ShmemPerf.mk c b t f)). rewrite Hs.
  unfold time_sub at 1. rewrite time_add_u64_r. destruct Hd as [-> | ->].
  - unfold time_add, time_sub, u64. rewrite Zminus_mod_idemp_l. f_equal. lia.
  - unfold time_sub, u64. rewrite Zplus_mod_idemp_l. f_equal. lia.
Qed.
Lemma adds_up_time time reason p : adds_up p → adds_up (ShmemPerf.updateTime time reason p).
Proof.
  intros Hp. unfold ShmemPerf.updateTime. case_match; [|done]. destruct p as [c b t f]. simpl.
  apply (adds_up_add c b t); [done|by right].
Qed.
Lemma adds_up_packet time d p : adds_up p → adds_up (ShmemPerf.updatePacket time d p).
Proof.
  intros Hp. unfold ShmemPerf.updatePacket. case_match; [|done]. apply adds_up_time. destruct p as [c b t f]. simpl.
  apply (adds_up_add c b t); [done|by left].
Qed.

(** The breakdown of the time of a request adds up.  After a reset, whatever
    updates follow, by packets of the network or by the parts of the memory
    system, late, early and duplicate ones included, the times by reason sum
    up to the time from the reset to the last update that counted. *)
Theorem shmem_perf_adds_up time core p ops :
  adds_up (run_perf ops (ShmemPerf.reset time core p)).
Proof.
  assert (Hr : adds_up (ShmemPerf.reset time core p)).
  { unfold adds_up, total_time. simpl. unfold time_sub. by rewrite Z.sub_diag. }
  revert Hr. generalize (ShmemPerf.reset time core p). induction ops as [|o ops IH]; intros q Hq; simpl; [done|].
  apply IH. destruct o; simpl; [by apply adds_up_time|by apply adds_up_packet].
Qed.

(** ** The DRAM cache *)
Lemma perf_updates_null x l : perf_updates (x :: l) None = Err ErrUndefined.
Proof. by destruct x. Qed.

Section NoPerf.
Context (root : Z → Z → Z) (estimate : Z → Z → Z → Z → Z) (global_time application_cores normal_cost : Z).
Context {P F : Type} `{Policy P} `{PrefetcherOps F}.
Implicit Type k : DramCache (P := P) (F := F).

Lemma data_array_null t k r : accessDataArray root estimate global_time t None k ≠ Ok r.
Proof.
  unfold accessDataArray. destruct (bw_getRoundedLatency _ _); [|done]. simpl. destruct (opt_delay _ _ _ _ _ _) as [[d q]|]; done.
Qed.
Lemma insertLine_null store a req buf now k r :
  insertLine root estimate global_time application_cores normal_cost store a req buf now k ≠ Ok r.
Proof.
  unfold insertLine. intros (ei & _ & Hr)%res_bind_Ok. apply res_bind_Ok in Hr as ([[ins ea] c] & _ & Hr).
  apply res_bind_Ok in Hr as (l & _ & Hr). apply res_bind_Ok in Hr as (c' & _ & Hr). apply res_bind_Ok in Hr as (x & Hx & _).
  by apply data_array_null in Hx.
Qed.

(** C40: The DRAM cache cannot be used.  A write to it passes no object for the
    breakdown of the time and dereferences the null pointer, on a hit and on a
    miss; a read that misses inserts the line with such a null pointer and
    does not return either. *)
Theorem dram_cache_dereferences_null core a req buf now perf k :
  match peekSingleLine a (k_cache k) with
  | Ok line =>
      dram_cache_write root estimate global_time application_cores normal_cost core a req buf now k = Err ErrUndefined ∧
      (line = None → ∀ r, dram_cache_read root estimate global_time application_cores normal_cost core a req now perf k ≠ Ok r)
  | Err _ => True
  end.
Proof.
  destruct (peekSingleLine a (k_cache k)) as [line|] eqn:Hl; [|done]. split.
  - unfold dram_cache_write, doAccess. by rewrite Hl.
  - intros -> r. unfold dram_cache_read, doAccess. rewrite Hl. cbn [res_bind].
    intros (x & Hx & _)%res_bind_Ok. apply res_bind_Ok in Hx as (p & _ & Hx). apply res_bind_Ok in Hx as (y & Hy & _).
    apply res_bind_Ok in Hy as ([[[b lat] pf] k'] & _ & Hy). apply res_bind_Ok in Hy as (k2 & Hk & _).
    by apply insertLine_null in Hk.
Qed.
End NoPerf.

(** ** The data of the DRAM controller *)
Section Data.
Context (root : Z → Z → Z) (estimate : Z → Z → Z → Z → Z) (global_time application_cores normal_cost : Z).
(** A line that was written is read back, and the other lines are kept. *)
Theorem dram_write_read a r buf t d x d1 a' r' t' perf o l w perf' d2 :
  dr_data d = true → dr_fault_injector d = None → Z.of_nat (length buf) = dr_block_size d →
  dram_write root estimate global_time application_cores normal_cost a r (Some buf) t d = Ok (x, d1) →
  dram_read root estimate global_time application_cores normal_cost a' r' t' perf d1 = Ok (o, l, w, perf', d2) →
  o = Some (if decide (a' = a) then buf else default (replicate (Z.to_nat (dr_block_size d)) 0) (m_data_map d !! a')).
Proof.
  intros Hd Hf Hlen. unfold dram_write. rewrite Hd, Hf. destruct (m_data_map d !! a) as [old|]; [|done].
  rewrite (proj2 (Z.ltb_ge _ _)) by lia. cbn [res_bind]. intros ([[lat pf] m] & _ & Hw)%res_bind_Ok. injection Hw as <- <-.
  unfold dram_read. cbn [dr_data dr_fault_injector fmap option_fmap option_map res_bind m_data_map dr_block_size].
  intros ([[lat' pf'] m'] & _ & Hr)%res_bind_Ok. injection Hr as <- _ _ _ _. f_equal.
  rewrite take_ge by lia. case_decide as He; [subst; by rewrite lookup_insert_eq|]. by rewrite lookup_insert_ne by done.
Qed.
End Data.
