(* ===== verification/CacheNode.v ===== *)
(** The construction of the cache controllers of a node (the constructors of
    CacheCntlr and CacheMasterCntlr in cache_cntlr.{h,cc}, and the part of the
    constructor of MemoryManager in memory_manager.cc that creates and connects
    them).  The cores are configured alike, and neither fault injection nor
    auxiliary tag directories are configured. *)
From S2P Require Import Prelude SubsecondTime ContentionModel CacheBlock LruPolicies FaultInjection CacheSet Address CacheModel Directory Shmem CacheCntlr.
Local Open Scope Z_scope.

(** CacheParameters, with the entries [passthrough] and
    [prefetch_on_prefetch_hit] of the configuration; the prefetcher is created
    by the caller. *)
Record CacheParameters (F : Type) : Type := mkCacheParameters {
  p_num_sets : Z;
  p_associativity : nat;
  p_hash_function : hash_t;
  p_replacement_policy : string;
  p_policy_cfg : PolicyCfg;
  p_perfect : bool;
  p_passthrough : bool;
  p_coherent : bool;
  p_writethrough : bool;
  p_shared_cores : nat;
  p_outstanding_misses : nat;
  p_prefetch_on_prefetch_hit : bool;
  p_prefetcher : option F;
  p_perf_model : CachePerfModel;
  p_writeback_time : ComponentLatency;
  p_next_level_read_bandwidth : ComponentBandwidthPerCycle
}.
Arguments mkCacheParameters {F} _ _ _ _ _ _ _ _ _ _ _ _ _ _ _ _.
Arguments p_num_sets {F} _.
Arguments p_associativity {F} _.
Arguments p_hash_function {F} _.
Arguments p_replacement_policy {F} _.
Arguments p_policy_cfg {F} _.
Arguments p_perfect {F} _.
Arguments p_passthrough {F} _.
Arguments p_coherent {F} _.
Arguments p_writethrough {F} _.
Arguments p_shared_cores {F} _.
Arguments p_outstanding_misses {F} _.
Arguments p_prefetch_on_prefetch_hit {F} _.
Arguments p_prefetcher {F} _.
Arguments p_perf_model {F} _.
Arguments p_writeback_time {F} _.
Arguments p_next_level_read_bandwidth {F} _.

Section Construction.
Context {F D : Type}.
Local Notation N := (Node AnyPolicy F D).

Definition CacheMasterCntlr_new (cache : Cache AnyPolicy) (p : CacheParameters F) : CacheMaster AnyPolicy F :=
  mkCacheMaster cache [] (p_prefetcher p) false None ∅ (ContentionModel_new (p_outstanding_misses p))
    (ContentionModel_new 1) ∅ 0 None [] Zero.

(** MemoryManager::getCacheCntlrAt: the controller of a component of a core. *)
Definition getCacheCntlrAt (core_id : nat) (c : component_t) (n : N) : res (nat * CacheCntlr) :=
  match list_find (λ x, m_core_id x = core_id ∧ m_mem_component x = c) (n_cntlrs n) with
  | Some r => Ok r
  | None => Err ErrUndefined
  end.

(** The constructor of CacheCntlr; a master creates the cache, and the other
    controllers use the master's. *)
Definition CacheCntlr_new (mem_component : component_t) (core_id : nat) (cache_block_size : Z)
    (p : CacheParameters F) (is_last_level_cache : bool) (n : N) : res N :=
  log_assert (negb is_last_level_cache || negb (p_passthrough p))
    "Cache pass-through not supported on last-level cache";?
  if (p_shared_cores p =? 0)%nat then Err ErrUndefined else
  let core_id_master := (core_id - core_id mod p_shared_cores p)%nat in
  let? r :=
    (if (core_id =? core_id_master)%nat then
       let? cache := Cache_new (p_num_sets p) (p_associativity p) cache_block_size (p_replacement_policy p)
                       SHARED_CACHE (p_hash_function p) false None None (p_policy_cfg p)
                       (λ _, cfg_time (p_policy_cfg p)) in
       Ok (length (n_masters n), n_masters n ++ [CacheMasterCntlr_new cache p])
     else
       let? c := getCacheCntlrAt core_id_master mem_component n in Ok (m_master c.2, n_masters n)) in
  let c := mkCacheCntlr mem_component r.1 None (p_perfect p) (p_passthrough p) (p_coherent p)
             (bool_decide (is_Some (p_prefetcher p)) && p_prefetch_on_prefetch_hit p)
             (0 <? p_outstanding_misses p)%nat core_id cache_block_size (p_writethrough p)
             (p_writeback_time p) (p_next_level_read_bandwidth p) (p_shared_cores p) (p_perf_model p)
             UNKNOWN ∅ in
  Ok (put_cntlrs (n_cntlrs n ++ [c]) (put_masters r.2 n)).

Definition set_next (next : nat) (c : CacheCntlr) : CacheCntlr :=
  mkCacheCntlr (m_mem_component c) (m_master c) (Some next) (m_perfect c)
    (m_passthrough c) (m_coherent c) (m_prefetch_on_prefetch_hit c) (m_has_l1_mshr c) (m_core_id c)
    (m_cc_block_size c) (m_cache_writethrough c) (m_writeback_time c) (m_read_bandwidth c)
    (m_shared_cores c) (m_perf_model c) (m_last_remote_hit_where c) (m_stats c).
Definition add_prev (l : list nat) (m : CacheMaster AnyPolicy F) : CacheMaster AnyPolicy F :=
  mkCacheMaster (m_cache m) (m_prev_cache_cntlrs m ++ l) (m_prefetcher m) (m_dram_cntlr m)
    (m_dram_outstanding_writebacks m) (mshr m) (m_l1_mshr m) (m_next_level_read_bandwidth m)
    (m_directory_waiters m) (m_evicting_address m) (m_evicting_buf m) (m_prefetch_list m)
    (m_prefetch_next m).
Definition set_dram (wb : ContentionModel) (m : CacheMaster AnyPolicy F) : CacheMaster AnyPolicy F :=
  mkCacheMaster (m_cache m) (m_prev_cache_cntlrs m) (m_prefetcher m) true (Some wb) (mshr m)
    (m_l1_mshr m) (m_next_level_read_bandwidth m) (m_directory_waiters m) (m_evicting_address m)
    (m_evicting_buf m) (m_prefetch_list m) (m_prefetch_next m).

(** [setNextCacheCntlr] of each of [ids] and [setPrevCacheCntlrs] of [next]
    with them. *)
Definition isMasterCache (c : CacheCntlr) : bool := (m_core_id c =? m_core_id_master c)%nat.
Definition is_master_at (l : list CacheCntlr) (i : nat) : bool :=
  match l !! i with Some c => isMasterCache c | None => false end.
Definition connect (ids : list nat) (next : nat) : st N unit :=
  forM_ ids (λ i, upd_cntlr i (set_next next));!
  let! l := gets n_cntlrs in
  upd_master next (add_prev (filter (λ i, is_master_at l i = true) ids)).

(** The levels of a core, L1-I and L1-D first; [base] is the index of the
    first controller of the core. *)
Fixpoint connect_levels (n : nat) (level : nat) : st N unit :=
  match n with
  | O => ret tt
  | S n => connect [level] (S level);! connect_levels n (S level)
  end.
Fixpoint new_levels (core_id : nat) (cache_block_size : Z) (l : list (component_t * CacheParameters F)) (n : N) : res N :=
  match l with
  | [] => Ok n
  | (c, p) :: l =>
      let? n := CacheCntlr_new c core_id cache_block_size p (match l with [] => true | _ => false end) n in
      new_levels core_id cache_block_size l n
  end.
Definition new_core (cache_block_size : Z) (l : list (component_t * CacheParameters F)) (core_id : nat) (n : N) : res N :=
  let base := length (n_cntlrs n) in
  let? n := new_levels core_id cache_block_size l n in
  let? r := (connect [base; S base] (S (S base));! connect_levels (length l - 3) (S (S base))) n in
  Ok r.2.

(** The cores of a node, from [core_id] on. *)
Fixpoint new_cores (cache_block_size : Z) (l : list (component_t * CacheParameters F)) (cores core_id : nat) (n : N) : res N :=
  match cores with
  | O => Ok n
  | S cores => let? n := new_core cache_block_size l core_id n in new_cores cache_block_size l cores (S core_id) n
  end.
Definition new_node (cache_block_size : Z) (l : list (component_t * CacheParameters F)) (cores : nat)
    (periods : list Z) (dram : D) (env : Env) : res N :=
  new_cores cache_block_size l cores 0
    (mkNode [] [] (replicate cores (Zero, Zero)) periods dram [] env).

(** CacheCntlr::setDRAMDirectAccess. *)
Definition setDRAMDirectAccess (id : nat) (num_outstanding : nat) : st N unit :=
  upd_master id (set_dram (ContentionModel_new num_outstanding)).
End Construction.
