(* ===== verification/NodeThreads.v ===== *)
(** The threads of a node and its caches: the user threads of the cores, which
    start memory operations and wait for the directory, and the network thread
    of the last-level cache, which handles the messages of the directory and
    wakes them up (processMemOpFromCore, handleMsgFromDramDirectory,
    waitForNetworkThread and wakeUpUserThread of cache_cntlr.cc).

    What happens between two waits is one step.  The theorems are about nodes
    with two levels: the last-level cache includes the first-level caches, the
    operations of the cores do not fail, a write miss leaves one holder. *)
From S2P Require Import Prelude SubsecondTime ContentionModel CacheBlock LruPolicies OtherPolicies FaultInjection CacheSet PolicyKeeps Address CacheModel Directory Shmem CacheSlots CacheCntlr CacheCntlrFacts CacheNode.
Local Open Scope Z_scope.

Section Threads.
Context {P F D : Type} `{HPol : Policy P} {HOk : PolicyOk P} {HFrame : PolicyFrame P} {HKeep : PolicyKeeps P}.
Context `{HFetch : PrefetcherOps F} {HPf : PrefetcherOk F} `{HDram : DramOps D}.
Implicit Types (n : Node P F D) (U : Setup).

(** The network thread waits while a user thread that it woke up runs: the
    controller, the line, the waiter and where the data was found. *)
Record Served : Type := mkServed {
  sv_cntlr : nat;
  sv_address : Z;
  sv_waiter : CacheDirectoryWaiter;
  sv_where : option where_t
}.
Record Machine : Type := mkMachine {
  mc_node : Node P F D;
  mc_served : option Served;
  mc_blocked : list Cont
}.

Definition cont_cntlr (c : Cont) : nat := match c with KMem id _ _ _ _ | KPrefetch id _ _ _ _ _ _ => id end.
Definition cont_address (c : Cont) : Z :=
  match c with KMem _ o _ _ _ => mo_address o | KPrefetch _ a _ _ _ _ _ => a end.
Definition core_of U (id : nat) : option nat := m_core_id <$> s_cntlrs U !! id.
(** A thread that has to wait joins the others. *)
Definition after (r : Outcome) (l : list Cont) : list Cont :=
  match r with Blocked c => c :: l | Returned _ _ => l end.
Definition serve (id : nat) (a : Z) (w : option where_t) (r : Wake) : option Served :=
  match r with Woken x => Some (mkServed id a x w) | _ => None end.

Inductive step U : Machine → Machine → Prop :=
| step_op id o r n n' sv b :
    is_l1 U id → op_ok U o → Forall (λ c, core_of U (cont_cntlr c) ≠ core_of U id) b →
    processMemOpFromCore id o n = Ok (r, n') →
    step U (mkMachine n sv b) (mkMachine n' sv (after r b))
| step_request id sender m n n' b :
    is_llc U id → msg_ok U m → is_reply (sm_msg_type m) = false →
    handleMsgFromDramDirectory id sender m n = Ok (tt, n') →
    step U (mkMachine n None b) (mkMachine n' None b)
| step_reply id sender m r n n1 n2 b :
    is_llc U id → msg_ok U m → is_reply (sm_msg_type m) = true →
    handleMsgFromDramDirectory id sender m n = Ok (tt, n1) →
    wake_waiter id (sm_address m) (sm_where m) n1 = Ok (r, n2) →
    step U (mkMachine n None b) (mkMachine n2 (serve id (sm_address m) (sm_where m) r) b)
| step_resume c r n n' sv b1 b2 :
    cont_address c = sv_address sv →
    core_of U (cont_cntlr c) = core_of U (w_cache_cntlr (sv_waiter sv)) →
    resume c n = Ok (r, n') →
    step U (mkMachine n (Some sv) (b1 ++ c :: b2)) (mkMachine n' (Some sv) (after r (b1 ++ b2)))
| step_retire sv r n n1 n2 b :
    retire_waiter (sv_cntlr sv) (sv_address sv) (sv_waiter sv) n = Ok (tt, n1) →
    wake_waiter (sv_cntlr sv) (sv_address sv) (sv_where sv) n1 = Ok (r, n2) →
    step U (mkMachine n (Some sv) b)
      (mkMachine n2 (serve (sv_cntlr sv) (sv_address sv) (sv_where sv) r) b).

(** A node whose caches are empty and where nobody waits. *)
Record initial U (s : Machine) : Prop := {
  in_wf : node_wf U (mc_node s);
  in_slots mi l v : nslot (mc_node s) mi l = Some v → v = (INVALID_TAG, CacheState.INVALID);
  in_wait a : nwait U (mc_node s) a = [];
  in_evict : nevict U (mc_node s) = None;
  in_served : mc_served s = None;
  in_blocked : mc_blocked s = []
}.
Definition reachable U (s : Machine) : Prop := ∃ s0, initial U s0 ∧ rtc (step U) s0 s.

Record good U (s : Machine) : Prop := {
  g_wf : node_wf U (mc_node s);
  g_inv : inv U (sv_address <$> mc_served s) (mc_node s);
  g_served sv : mc_served s = Some sv → is_llc U (sv_cntlr sv) ∧ line_address (s_block U) (sv_address sv);
  g_blocked : Forall (cont_ok U) (mc_blocked s)
}.

Section Invariant.
Context U (HS : two_level U).

Lemma initial_good s : initial U s → good U s.
Proof.
  intros [I1 I2 I3 I4 I5 I6]. constructor; [done| |by rewrite I5|by rewrite I6]. rewrite I5. constructor; [| | |done|done].
  - intros mi l v _ Hl. by rewrite (I2 _ _ _ Hl).
  - intros l v Hl. by rewrite (I2 _ _ _ Hl).
  - intros a _ [l Hl]. by apply I2 in Hl.
Qed.
Lemma run_Ok {A} (E : err → Prop) n (m : st (Node P F D) A) Q a n' :
  run U E n m Q → m n = Ok (a, n') → node_wf U n' ∧ Q a n'.
Proof. unfold run. intros Hr Hm. by rewrite Hm in Hr. Qed.
Lemma after_ok r b : outcome_ok U r → Forall (cont_ok U) b → Forall (cont_ok U) (after r b).
Proof. intros Hr Hb. destruct r; [done|]. by constructor. Qed.
Lemma all_errors e : time_error e → True.
Proof. done. Qed.
Local Notation any := (λ _ : err, True).

Lemma wake_good id a w r n n1 b :
  node_wf U n → inv U None n → settled_line U n a → is_llc U id → line_address (s_block U) a → Forall (cont_ok U) b →
  wake_waiter id a w n = Ok (r, n1) → good U (mkMachine n1 (serve id a w r) b).
Proof.
  intros Hwf Hi Hs Hllc Ha Hb Hw.
  destruct (run_Ok any n _ _ r n1 (run_wake U HS any (λ _, I) n id a w Hwf Hllc Ha Hi Hs) Hw) as [H1 HQ].
  constructor; simpl; [done|by destruct r| |done]. intros sv Hsv. destruct r; simpl in Hsv; simplify_eq; by split.
Qed.
Lemma step_good s s' : step U s s' → good U s → good U s'.
Proof.
  intros Hst [Hwf Hi Hsv Hb]. destruct Hst as [id o r n n' sv b Hl1 Ho _ He|id sender m n n' b Hllc Hm Hr He
    |id sender m r n n1 n2 b Hllc Hm Hr He Hw|c r n n' sv b1 b2 _ _ He|sv r n n1 n2 b He Hw]; simpl in *.
  - destruct (l1_some U id Hl1) as [k Hk].
    destruct (located_exists U HS n id k (mo_address o) Hwf Hk (proj1 (o_line U o Ho))) as (loc & x & Hloc).
    destruct (run_Ok any n _ _ r n' (run_processMemOpFromCore U HS any all_errors n id k o x _ Hwf Hk Hl1 Ho Hi
      (λ _, I) (located_state n _ _ loc x Hloc)) He) as [H1 ([I1 _] & Hr & _)].
    constructor; simpl; auto using after_ok.
  - destruct (run_Ok any n _ _ tt n' (run_handle U HS any all_errors (λ _, I) n id sender m None Hwf Hllc Hm Hi) He)
      as [H1 [I1 _]]. by constructor.
  - destruct (run_Ok any n _ _ tt n1 (run_handle U HS any all_errors (λ _, I) n id sender m None Hwf Hllc Hm Hi) He)
      as [H1 [I1 Hs]]. eapply wake_good; [exact H1|done|by apply Hs|done|apply Hm|done|done].
  - apply Forall_app in Hb as [Hb1 Hb2]. inversion Hb2 as [|c' b' Hc Hb2' [Heq1 Heq2]]; subst.
    destruct (run_Ok any n _ _ r n' (run_resume U HS any all_errors n c _ Hwf Hi Hc (λ _, I)) He) as [H1 (I1 & Hr & _)].
    constructor; simpl; [done|done|done|]. apply after_ok; [done|]. by apply Forall_app.
  - destruct (Hsv sv eq_refl) as [Hllc Ha].
    destruct (run_Ok any n _ _ tt n1 (run_retire U HS any all_errors (λ _, I) n _ _ (sv_waiter sv) Hwf Hllc Ha Hi) He)
      as [H1 [I1 Hs]]. by eapply wake_good.
Qed.
Lemma reachable_good s : reachable U s → good U s.
Proof.
  intros (s0 & H0 & Hst). apply initial_good in H0. induction Hst as [|s1 s2 s3 H1 _ IH]; [done|].
  apply IH. by eapply step_good.
Qed.
End Invariant.
End Threads.
