(* ===== verification/NodeTwoLevel.v ===== *)
(** The node that the memory manager builds for cores with private first-level
    caches and one last-level cache that they share: its controllers, its
    masters, and that it is a node of the kind that [CacheCntlrFacts] is about,
    in its initial state. *)
From S2P Require Import Prelude SubsecondTime ContentionModel CacheBlock LruPolicies OtherPolicies FaultInjection CacheSet PolicyKeeps Address CacheModel Directory Shmem CacheSlots CacheCntlr CacheCntlrFacts CacheNode NodeThreads.
Local Open Scope Z_scope.

Section Build.
Context {F D : Type}.
Context (B : Z) (p1 p2 p3 : CacheParameters F) (llc : component_t) (cores : nat).
Local Notation N := (Node AnyPolicy F D).
Implicit Types (n : N) (c : nat).

Definition levels : list (component_t * CacheParameters F) := [(L1_ICACHE, p1); (L1_DCACHE, p2); (llc, p3)].

(** The controllers of a core, and the indices of the masters of its
    first-level caches. *)
Definition built_cntlr (comp : component_t) c (p : CacheParameters F) (master : nat) (next : option nat) : CacheCntlr :=
  mkCacheCntlr comp master next (p_perfect p) (p_passthrough p) (p_coherent p)
    (bool_decide (is_Some (p_prefetcher p)) && p_prefetch_on_prefetch_hit p)
    (0 <? p_outstanding_misses p)%nat c B (p_writethrough p) (p_writeback_time p)
    (p_next_level_read_bandwidth p) (p_shared_cores p) (p_perf_model p) UNKNOWN ∅.
Definition master1 c : nat := match c with O => 0 | S _ => 2 * c + 1 end.
Definition master2 c : nat := match c with O => 1 | S _ => 2 * c + 2 end.
Definition core_cntlrs c : list CacheCntlr :=
  [built_cntlr L1_ICACHE c p1 (master1 c) (Some (3 * c + 2)%nat);
   built_cntlr L1_DCACHE c p2 (master2 c) (Some (3 * c + 2)%nat);
   built_cntlr llc c p3 2 None].
Definition all_cntlrs c : list CacheCntlr := concat (core_cntlrs <$> seq 0 c).
Definition all_prevs c : list nat := concat ((λ i, [3 * i; 3 * i + 1]%nat) <$> seq 0 c).

Definition built_cache (p : CacheParameters F) : res (Cache AnyPolicy) :=
  Cache_new (p_num_sets p) (p_associativity p) B (p_replacement_policy p) SHARED_CACHE (p_hash_function p)
    false None None (p_policy_cfg p) (λ _, cfg_time (p_policy_cfg p)).
Context (k1 k2 k3 : Cache AnyPolicy).
Definition all_masters c : list (CacheMaster AnyPolicy F) :=
  match c with
  | O => []
  | S c => [CacheMasterCntlr_new k1 p1; CacheMasterCntlr_new k2 p2;
            add_prev (all_prevs (S c)) (CacheMasterCntlr_new k3 p3)] ++
           concat (replicate c [CacheMasterCntlr_new k1 p1; CacheMasterCntlr_new k2 p2])
  end.

Lemma length_all_cntlrs c : length (all_cntlrs c) = (3 * c)%nat.
Proof.
  unfold all_cntlrs. induction c as [|c IH]; [done|].
  rewrite seq_S, fmap_app, concat_app, length_app, IH. simpl. lia.
Qed.
Lemma all_cntlrs_S c : all_cntlrs (S c) = all_cntlrs c ++ core_cntlrs c.
Proof. unfold all_cntlrs. by rewrite seq_S, fmap_app, concat_app. Qed.
Lemma all_prevs_S c : all_prevs (S c) = all_prevs c ++ [3 * c; 3 * c + 1]%nat.
Proof. unfold all_prevs. by rewrite seq_S, fmap_app, concat_app. Qed.
Lemma length_all_masters c : length (all_masters c) = match c with O => 0%nat | S c => (2 * c + 3)%nat end.
Proof.
  destruct c as [|c]; [done|]. unfold all_masters. rewrite length_app. simpl. f_equal.
  assert (∀ j, length (concat (replicate j [CacheMasterCntlr_new k1 p1; CacheMasterCntlr_new k2 p2])) = 2 * j)%nat as ->; [|lia].
  induction j as [|j IH]; [done|]. simpl. rewrite IH. lia.
Qed.

(** What the construction needs. *)
Context (Hk1 : built_cache p1 = Ok k1) (Hk2 : built_cache p2 = Ok k2) (Hk3 : built_cache p3 = Ok k3).
Context (Hs1 : p_shared_cores p1 = 1%nat) (Hs2 : p_shared_cores p2 = 1%nat) (Hs3 : p_shared_cores p3 = cores).
Context (Hpass : p_passthrough p3 = false) (Hllc : llc ≠ L1_ICACHE ∧ llc ≠ L1_DCACHE).

(** One controller that has its own cache, and one that uses a cache of core 0. *)
Lemma CacheCntlr_new_own comp c p k (last : bool) n :
  built_cache p = Ok k → (0 < p_shared_cores p)%nat → (c mod p_shared_cores p)%nat = 0%nat →
  (last = true → p_passthrough p = false) →
  CacheCntlr_new comp c B p last n =
    Ok (put_cntlrs (n_cntlrs n ++ [built_cntlr comp c p (length (n_masters n)) None])
          (put_masters (n_masters n ++ [CacheMasterCntlr_new k p]) n)).
Proof.
  intros Hk Hsh Hc Hl. unfold CacheCntlr_new.
  assert (negb last || negb (p_passthrough p) = true) as -> by (destruct last; [by rewrite Hl|done]).
  destruct (Nat.eqb_spec (p_shared_cores p) 0); [lia|]. rewrite Hc, Nat.sub_0_r, Nat.eqb_refl.
  unfold built_cache in Hk. cbn [log_assert res_bind]. rewrite Hk. done.
Qed.
Lemma CacheCntlr_new_shared comp c p (last : bool) n j x :
  (0 < c < p_shared_cores p)%nat → (last = true → p_passthrough p = false) →
  list_find (λ x, m_core_id x = 0%nat ∧ m_mem_component x = comp) (n_cntlrs n) = Some (j, x) →
  CacheCntlr_new comp c B p last n =
    Ok (put_cntlrs (n_cntlrs n ++ [built_cntlr comp c p (m_master x) None]) (put_masters (n_masters n) n)).
Proof.
  intros Hc Hl Hx. unfold CacheCntlr_new.
  assert (negb last || negb (p_passthrough p) = true) as -> by (destruct last; [by rewrite Hl|done]).
  destruct (Nat.eqb_spec (p_shared_cores p) 0); [lia|]. rewrite Nat.mod_small, Nat.sub_diag by lia.
  destruct (Nat.eqb_spec c 0); [lia|]. cbn [log_assert res_bind]. unfold getCacheCntlrAt. by rewrite Hx.
Qed.

(** Updates through an index. *)
Lemma upd_cntlr_at i g n a :
  n_cntlrs n !! i = Some a → upd_cntlr i g n = Ok (tt, put_cntlrs (<[i := g a]> (n_cntlrs n)) n).
Proof. intros Ha. unfold upd_cntlr, st_bind, gets, lift, modify. simpl. by rewrite (proj2 (rd_Ok _ _ _) Ha). Qed.
Lemma upd_master_at i g n a m :
  n_cntlrs n !! i = Some a → n_masters n !! m_master a = Some m →
  upd_master i g n = Ok (tt, put_masters (<[m_master a := g m]> (n_masters n)) n).
Proof.
  intros Ha Hm. unfold upd_master, cntlr, st_bind, gets, lift, modify. simpl. rewrite (proj2 (rd_Ok _ _ _) Ha). simpl.
  by rewrite (proj2 (rd_Ok _ _ _) Hm).
Qed.
(** The two first-level controllers at the end of the list are connected to
    the last one. *)
Lemma connect_core n l c ma mb m :
  n_cntlrs n = l ++ [built_cntlr L1_ICACHE c p1 ma None; built_cntlr L1_DCACHE c p2 mb None; built_cntlr llc c p3 2 None] →
  length l = (3 * c)%nat → n_masters n !! 2%nat = Some m →
  connect [3 * c; S (3 * c)]%nat (S (S (3 * c))) n =
    Ok (tt, put_masters (<[2%nat := add_prev [3 * c; S (3 * c)]%nat m]> (n_masters n))
              (put_cntlrs (l ++ [built_cntlr L1_ICACHE c p1 ma (Some (S (S (3 * c)))); built_cntlr L1_DCACHE c p2 mb (Some (S (S (3 * c))));
                                 built_cntlr llc c p3 2 None]) n)).
Proof.
  intros Hl Hlen Hm. unfold connect. cbn [forM_ foldr].
  assert (L0 : ∀ (a b x : CacheCntlr), (l ++ [a; b; x]) !! (3 * c)%nat = Some a).
  { intros. rewrite lookup_app_r by lia. by rewrite <- Hlen, Nat.sub_diag. }
  assert (L1 : ∀ (a b x : CacheCntlr), (l ++ [a; b; x]) !! S (3 * c)%nat = Some b).
  { intros. rewrite lookup_app_r by lia. by replace (S (3 * c) - length l)%nat with 1%nat by lia. }
  assert (L2 : ∀ (a b x : CacheCntlr), (l ++ [a; b; x]) !! S (S (3 * c))%nat = Some x).
  { intros. rewrite lookup_app_r by lia. by replace (S (S (3 * c)) - length l)%nat with 2%nat by lia. }
  assert (I0 : ∀ (a b x y : CacheCntlr), <[(3 * c)%nat := y]> (l ++ [a; b; x]) = l ++ [y; b; x]).
  { intros. rewrite insert_app_r_alt by lia. by rewrite <- Hlen, Nat.sub_diag. }
  assert (I1 : ∀ (a b x y : CacheCntlr), <[S (3 * c) := y]> (l ++ [a; b; x]) = l ++ [a; y; x]).
  { intros. rewrite insert_app_r_alt by lia. by replace (S (3 * c) - length l)%nat with 1%nat by lia. }
  unfold st_bind at 1 2 3. erewrite upd_cntlr_at by (rewrite Hl; apply L0). cbn [res_bind fst snd].
  rewrite Hl, I0. cbn [fst snd]. erewrite upd_cntlr_at by (apply L1). cbn [res_bind fst snd n_cntlrs put_cntlrs]. rewrite I1.
  unfold ret. cbn [res_bind fst snd]. unfold st_bind, gets. cbn [res_bind fst snd n_cntlrs put_cntlrs].
  erewrite upd_master_at by (first [apply L2|exact Hm]). cbn [n_masters put_cntlrs].
  rewrite !filter_cons, filter_nil, !decide_True; [done| |];
    unfold is_master_at; rewrite ?L0, ?L1; unfold isMasterCache, m_core_id_master; simpl;
    rewrite ?Hs1, ?Hs2, Nat.mod_1_r, Nat.sub_0_r; apply Nat.eqb_refl.
Qed.

(** What the controllers and masters of [c] cores are; the rest of the node is
    as it was. *)
Definition built c n : Prop := n_cntlrs n = all_cntlrs c ∧ n_masters n = all_masters c.
Definition rest_same n n' : Prop :=
  n_elapsed n' = n_elapsed n ∧ n_periods n' = n_periods n ∧ n_dram n' = n_dram n ∧
  n_sent n' = n_sent n ∧ n_env n' = n_env n.

Lemma find_llc c : list_find (λ x, m_core_id x = 0%nat ∧ m_mem_component x = llc) (all_cntlrs (S c))
  = Some (2%nat, built_cntlr llc 0 p3 2 None).
Proof.
  destruct Hllc as [H1 H2]. unfold all_cntlrs. cbn [seq fmap list_fmap concat core_cntlrs app list_find].
  rewrite decide_False by (simpl; intros [_ ?]; congruence). rewrite decide_False by (simpl; intros [_ ?]; congruence).
  rewrite decide_True by done. done.
Qed.
Lemma master1_length c : master1 c = length (all_masters c).
Proof. rewrite length_all_masters. destruct c; simpl; lia. Qed.
Lemma master2_length c : master2 c = S (length (all_masters c)).
Proof. rewrite length_all_masters. destruct c; simpl; lia. Qed.
(** The masters before the last level is connected. *)
Definition masters_before c : list (CacheMaster AnyPolicy F) :=
  all_masters c ++ [CacheMasterCntlr_new k1 p1; CacheMasterCntlr_new k2 p2] ++
  match c with O => [CacheMasterCntlr_new k3 p3] | S _ => [] end.
Lemma new_levels_ok c n :
  (c < cores)%nat → built c n →
  ∃ n', new_levels c B levels n = Ok n' ∧ rest_same n n' ∧ n_masters n' = masters_before c ∧
    n_cntlrs n' = all_cntlrs c ++ [built_cntlr L1_ICACHE c p1 (master1 c) None; built_cntlr L1_DCACHE c p2 (master2 c) None;
                                   built_cntlr llc c p3 2 None].
Proof.
  intros Hc [Hcn Hmn]. unfold levels. cbn [new_levels].
  rewrite (CacheCntlr_new_own _ c p1 k1) by (rewrite ?Hs1, ?Nat.mod_1_r; auto with lia). cbn [res_bind].
  rewrite (CacheCntlr_new_own _ c p2 k2) by (rewrite ?Hs2, ?Nat.mod_1_r; auto with lia). cbn [res_bind].
  cbn [n_masters n_cntlrs put_cntlrs put_masters]. rewrite Hmn, Hcn, <- master1_length, length_app. cbn [length].
  rewrite Nat.add_1_r, <- master2_length. destruct c as [|c].
  - rewrite (CacheCntlr_new_own _ 0 p3 k3) by (rewrite ?Hs3; auto using Nat.mod_0_l with lia).
    eexists. split; [reflexivity|]. done.
  - rewrite (CacheCntlr_new_shared llc (S c) p3 true _ 2 (built_cntlr llc 0 p3 2 None));
      [|rewrite Hs3; lia|done|cbn [n_cntlrs put_cntlrs put_masters]; rewrite <- app_assoc; apply list_find_app_l, find_llc].
    eexists. split; [reflexivity|]. split; [done|]. cbn [n_masters n_cntlrs put_cntlrs put_masters m_master built_cntlr].
    rewrite <- ?app_assoc. done.
Qed.
Lemma add_prev_app l l' (m : CacheMaster AnyPolicy F) : add_prev l' (add_prev l m) = add_prev (l ++ l') m.
Proof. unfold add_prev. simpl. by rewrite app_assoc. Qed.
Lemma masters_connected c :
  ∃ m, masters_before c !! 2%nat = Some m ∧
    <[2%nat := add_prev [3 * c; S (3 * c)]%nat m]> (masters_before c) = all_masters (S c).
Proof.
  destruct c as [|c].
  - eexists. split; [reflexivity|]. reflexivity.
  - eexists. split; [reflexivity|]. unfold masters_before, all_masters at 1. cbn [app].
    unfold all_masters. rewrite all_prevs_S. cbn [app insert list_insert].
    rewrite add_prev_app. replace (S (3 * S c)) with (3 * S c + 1)%nat by lia. do 3 f_equal.
    rewrite replicate_S_end, concat_app. rewrite ?(all_prevs_S (S c)), ?(all_prevs_S c). done.
Qed.
Lemma new_core_ok c n :
  (c < cores)%nat → built c n → ∃ n', new_core B levels c n = Ok n' ∧ built (S c) n' ∧ rest_same n n'.
Proof.
  intros Hc Hb. destruct (new_levels_ok c n Hc Hb) as (n1 & Hn1 & Hr & Hm & Hl). destruct (masters_connected c) as (m & Hm2 & Hm').
  pose proof (length_all_cntlrs c) as Hlen. unfold new_core. destruct Hb as [-> _]. rewrite Hlen, Hn1. cbn [res_bind].
  cbn [levels length Nat.sub connect_levels]. unfold st_bind, ret.
  rewrite (connect_core n1 (all_cntlrs c) c (master1 c) (master2 c) m) by (first [done|by rewrite Hm]). cbn [res_bind fst snd].
  eexists. split; [reflexivity|]. split; [|done]. split; cbn [n_cntlrs n_masters put_masters put_cntlrs]; [|by rewrite Hm].
  rewrite all_cntlrs_S. unfold core_cntlrs. by replace (S (S (3 * c))) with (3 * c + 2)%nat by lia.
Qed.
Lemma new_cores_ok j c n :
  (c + j ≤ cores)%nat → built c n →
  ∃ n', new_cores B levels j c n = Ok n' ∧ built (c + j) n' ∧ rest_same n n'.
Proof.
  revert c n. induction j as [|j IH]; intros c n Hj Hb; cbn [new_cores].
  - exists n. rewrite Nat.add_0_r. done.
  - destruct (new_core_ok c n) as (n1 & -> & Hb1 & Hr1); [lia|done|]. cbn [res_bind].
    destruct (IH (S c) n1) as (n2 & -> & Hb2 & Hr2); [lia|done|]. exists n2. split; [done|].
    split; [by rewrite <- Nat.add_succ_comm|]. unfold rest_same in *. naive_solver congruence.
Qed.
Lemma new_node_built periods dram env :
  ∃ n, new_node B levels cores periods dram env = Ok n ∧ built cores n ∧
       rest_same (mkNode [] [] (replicate cores (Zero, Zero)) periods dram [] env) n.
Proof. apply (new_cores_ok cores 0); [lia|]. done. Qed.
End Build.

(** ** The kind of node *)
Section Kind.
Context {F D : Type} `{HFetch : PrefetcherOps F} {HPf : PrefetcherOk F} `{HDram : DramOps D}.
Context (B : Z) (periods : list Z).

(** Parameters of a level that the constructors accept, without the modes that
    the theorems do not cover. *)
Record params_ok (p : CacheParameters F) : Prop := {
  lp_policy : ∃ policy info, parsePolicyType (p_replacement_policy p) = Ok policy ∧
    createCacheSetInfo (p_replacement_policy p) (p_associativity p) (p_policy_cfg p) = Ok info ∧
    cfg_ok policy (p_associativity p) (p_policy_cfg p);
  lp_base : ∃ base, CacheBase_new (p_num_sets p) (p_associativity p) B (p_hash_function p) None = Ok base ∧ hash_ok base;
  lp_assoc : (0 < p_associativity p ≤ 256)%nat;
  lp_sets : 0 < p_num_sets p < 2 ^ 32;
  lp_size : Z.of_nat (p_associativity p) * B < 2 ^ 32;
  lp_perfect : p_perfect p = false;
  lp_passthrough : p_passthrough p = false;
  lp_coherent : p_coherent p = true;
  lp_clocks : (cl_period (p_writeback_time p) < length periods)%nat ∧
    (cb_period (p_next_level_read_bandwidth p) < length periods)%nat ∧
    (cl_period (m_cache_data_access_time (p_perf_model p)) < length periods)%nat ∧
    (cl_period (m_cache_tags_access_time (p_perf_model p)) < length periods)%nat;
  lp_prefetcher f : p_prefetcher p = Some f → pf_inv B f
}.

Definition empty_slots (k : Cache AnyPolicy) : Prop := ∀ l v, slot k l = Some v → v = (INVALID_TAG, CacheState.INVALID).
Lemma built_cache_ok p :
  2 ≤ B < 2 ^ 31 → params_ok p →
  ∃ k, built_cache B p = Ok k ∧ cache_wf line_class_ k ∧ cb_blocksize (c_base k) = B ∧ empty_slots k.
Proof.
  intros HB [(policy & info & Hpol & Hinfo & Hcfg) (base & Hbase & Hh) Has Hsets Hsz _ _ _ _ _].
  destruct (CacheBase_new_wf _ _ _ _ None base Hbase Hsets ltac:(lia) ltac:(done)) as (Hcb & _).
  destruct (Cache_new_ok (p_replacement_policy p) policy line_class_ (p_num_sets p) (p_associativity p) B SHARED_CACHE
    (p_hash_function p) false None None (p_policy_cfg p) (λ _, cfg_time (p_policy_cfg p)) base info)
    as (k & Hk & Hb & Hwf & _); [done..|lia|by intros []|].
  exists k. split; [done|]. split; [done|]. split.
  { rewrite Hb. unfold CacheBase_new in Hbase. apply res_bind_Ok in Hbase as (_ & _ & Hbase).
    by apply res_bind_Ok in Hbase as (_ & _ & [= <-]). }
  destruct (create_sets_ok (p_replacement_policy p) policy line_class_ SHARED_CACHE (p_associativity p) B false (p_policy_cfg p) info
    (λ _, cfg_time (p_policy_cfg p)) (Z.to_nat (p_num_sets p)) 0) as (sets & Hs & _ & Hall); [done..|lia|].
  unfold Cache_new in Hk. rewrite Hbase, Hinfo in Hk. cbn [res_bind] in Hk. rewrite Hs in Hk. injection Hk as <-.
  intros l [t x] (b & (s & Hs' & Hb')%line_at_Some & <- & <-)%slot_Some. simpl in Hs'.
  destruct (Forall_lookup_1 _ _ _ _ Hall Hs') as (_ & _ & _ & Hl & _). rewrite Hl in Hb'.
  apply lookup_replicate in Hb' as [-> _]. done.
Qed.

Context (p1 p2 p3 : CacheParameters F) (llc : component_t) (cores : nat) (env : Env).
(** The static description of the node. *)
Definition built_setup : Setup :=
  mkSetup (all_cntlrs B p1 p2 p3 llc cores)
    ([[]; []; all_prevs cores] ++ replicate (2 * (cores - 1)) []) 2 B env periods cores.
Record node_params : Prop := {
  np_block : 2 ≤ B < 2 ^ 31;
  np_power : B = 2 ^ Z.log2 B;
  np_levels : params_ok p1 ∧ params_ok p2 ∧ params_ok p3;
  np_shared : p_shared_cores p1 = 1%nat ∧ p_shared_cores p2 = 1%nat ∧ p_shared_cores p3 = cores;
  np_cores : (0 < cores)%nat;
  np_writethrough : p_writethrough p3 = false;
  np_llc : llc ≠ L1_ICACHE ∧ llc ≠ L1_DCACHE;
  np_uninit : Z.of_nat (length (env_uninit env)) = B;
  np_callbacks : env_callbacks env = false;
  np_home a : in_u64 a → is_Ok (getHome (env_home env) a)
}.
Context (HN : node_params).

Lemma cntlrs_at j c : (c < j)%nat → ∀ i k, core_cntlrs B p1 p2 p3 llc c !! i = Some k →
  all_cntlrs B p1 p2 p3 llc j !! (3 * c + i)%nat = Some k.
Proof.
  intros Hc i k Hk. induction j as [|j IH]; [lia|]. rewrite all_cntlrs_S.
  pose proof (length_all_cntlrs B p1 p2 p3 llc j) as Hl. assert (i < 3)%nat by (by apply lookup_lt_Some in Hk).
  destruct (decide (c = j)) as [->|Hne].
  - rewrite lookup_app_r by lia. by replace (3 * j + i - length (all_cntlrs B p1 p2 p3 llc j))%nat with i by lia.
  - rewrite lookup_app_l by lia. apply IH. lia.
Qed.
Lemma cntlrs_lookup j id k :
  all_cntlrs B p1 p2 p3 llc j !! id = Some k →
  ∃ c i, (c < j)%nat ∧ id = (3 * c + i)%nat ∧ core_cntlrs B p1 p2 p3 llc c !! i = Some k.
Proof.
  induction j as [|j IH]; [done|]. rewrite all_cntlrs_S.
  pose proof (length_all_cntlrs B p1 p2 p3 llc j) as Hl. intros [Hk|[Hle Hk]]%lookup_app_Some.
  - destruct (IH Hk) as (c & i & Hc & Hid & Hi). exists c, i. split; [lia|done].
  - exists j, (id - 3 * j)%nat. rewrite Hl in Hk, Hle. split; [lia|]. split; [lia|done].
Qed.
Lemma setup_prev mi : (mi < 2 * cores + 1)%nat → mi ≠ 2%nat → s_prev built_setup !! mi = Some [].
Proof.
  intros Hm Hne. destruct HN as [_ _ _ _ Hc _ _ _ _ _]. simpl. do 2 (destruct mi as [|mi]; [done|]). destruct mi as [|mi]; [done|].
  apply lookup_replicate. split; [done|lia].
Qed.
Lemma setup_llc c : (c < cores)%nat → is_llc built_setup (3 * c + 2).
Proof.
  intros Hc. exists (built_cntlr B llc c p3 2 None). split; [by apply cntlrs_at|]. split; [done|]. split; [done|].
  by destruct HN.
Qed.
Lemma setup_l1 c i : (c < cores)%nat → (i < 2)%nat → is_l1 built_setup (3 * c + i).
Proof.
  intros Hc Hi. assert (Hn := setup_llc c Hc). destruct i as [|[|]]; [| |lia].
  - exists (built_cntlr B L1_ICACHE c p1 (master1 c) (Some (3 * c + 2)%nat)), (3 * c + 2)%nat.
    split; [by apply (cntlrs_at cores c Hc 0)|]. split; [done|]. split; [done|].
    assert (master1 c ≠ 2 ∧ master1 c < 2 * cores + 1)%nat as [H1 H2] by (destruct c; simpl; lia).
    split; [done|]. by apply setup_prev.
  - exists (built_cntlr B L1_DCACHE c p2 (master2 c) (Some (3 * c + 2)%nat)), (3 * c + 2)%nat.
    split; [by apply (cntlrs_at cores c Hc 1)|]. split; [done|]. split; [done|].
    assert (master2 c ≠ 2 ∧ master2 c < 2 * cores + 1)%nat as [H1 H2] by (destruct c; simpl; lia).
    split; [done|]. by apply setup_prev.
Qed.
Lemma prevs_elem j id : id ∈ all_prevs j ↔ ∃ c i, (c < j)%nat ∧ (i < 2)%nat ∧ id = (3 * c + i)%nat.
Proof.
  induction j as [|j IH]; [split; [by intros ?%not_elem_of_nil|intros (c & i & ? & _); lia]|].
  rewrite all_prevs_S, elem_of_app, IH, !elem_of_cons, elem_of_nil. split.
  - intros [(c & i & Hc & Hi & ->)|[->|[->|[]]]].
    + exists c, i. split; [lia|done].
    + exists j, 0%nat. lia.
    + exists j, 1%nat. lia.
  - intros (c & i & Hc & Hi & ->). destruct (decide (c = j)) as [->|]; [|left; exists c, i; lia].
    right. destruct i as [|[|]]; [left; lia|right; left; lia|lia].
Qed.
Lemma master_core j i : (j < cores)%nat → (i < 2)%nat →
  master_of built_setup (3 * j + i) = match i with O => master1 j | _ => master2 j end.
Proof.
  intros Hj Hi. unfold master_of. destruct i as [|[|]]; [| |lia].
  - by rewrite (cntlrs_at cores j Hj 0 (built_cntlr B L1_ICACHE j p1 (master1 j) (Some (3 * j + 2)%nat)) eq_refl : s_cntlrs built_setup !! _ = _).
  - by rewrite (cntlrs_at cores j Hj 1 (built_cntlr B L1_DCACHE j p2 (master2 j) (Some (3 * j + 2)%nat)) eq_refl : s_cntlrs built_setup !! _ = _).
Qed.
Lemma prevs_nodup j : (j ≤ cores)%nat →
  NoDup (master_of built_setup <$> all_prevs j) ∧ (∀ mi, mi ∈ master_of built_setup <$> all_prevs j → mi < 2 * j + 1 ∧ 0 < j)%nat.
Proof.
  induction j as [|j IH]; intros Hj; [split; [apply NoDup_nil_2|by intros ? ?%not_elem_of_nil]|].
  destruct IH as [Hn Hlt]; [lia|]. rewrite all_prevs_S, fmap_app. cbn [fmap list_fmap].
  pose proof (master_core j 0 ltac:(lia) ltac:(lia)) as H0. rewrite Nat.add_0_r in H0. rewrite H0.
  rewrite (master_core j 1) by lia. assert (Hm : (master1 j < master2 j < 2 * S j + 1)%nat) by (destruct j; simpl; lia).
  split.
  - apply NoDup_app. split; [done|]. split.
    + intros mi Hmi. apply Hlt in Hmi as [Hmi Hj0]. assert (2 * j + 1 ≤ master1 j)%nat by (destruct j; simpl in *; lia).
      rewrite !elem_of_cons, elem_of_nil. lia.
    + apply NoDup_cons. split; [rewrite list_elem_of_singleton; lia|apply NoDup_singleton].
  - intros mi [Hmi|Hmi]%elem_of_app; [apply Hlt in Hmi; lia|]. rewrite !elem_of_cons, elem_of_nil in Hmi. lia.
Qed.
Lemma built_two_level : two_level built_setup.
Proof.
  pose proof HN as [HB Hpow (Hp1 & Hp2 & Hp3) (Hs1 & Hs2 & Hs3) Hc Hwt Hl Hun Hcb Hhome].
  assert (Hok : ∀ comp c p mi nx, params_ok p → (c < cores)%nat → cntlr_ok built_setup (built_cntlr B comp c p mi nx)).
  { intros comp c p mi nx [_ _ _ _ _ H1 H2 H3 H4 _] Hcc. by constructor. }
  constructor; try done.
  - intros id k (c & i & Hcc & -> & Hi)%cntlrs_lookup. destruct i as [|[|[|]]]; simplify_eq/=; (split; [by apply Hok|]).
    + right. rewrite Nat.add_0_r. pose proof (setup_l1 c 0 Hcc) as H. rewrite Nat.add_0_r in H. apply H. lia.
    + right. apply (setup_l1 c 1); [done|lia].
    + left. by apply setup_llc.
  - intros id (c & i & Hcc & Hi & ->)%prevs_elem. by apply setup_l1.
  - intros id Hid. pose proof Hid as (k & nx & Hk & Hnx & _).
    destruct (cntlrs_lookup _ _ _ Hk) as (c & i & Hcc & -> & Hi).
    exists (3 * c + i)%nat. split; [|done]. apply prevs_elem. exists c, i. split; [done|]. split; [|done].
    destruct i as [|[|[|]]]; simplify_eq/=; lia.
  - by apply prevs_nodup.
  - simpl. rewrite length_all_cntlrs. lia.
Qed.

Lemma built_master k1 k2 k3 mi m :
  all_masters p1 p2 p3 k1 k2 k3 cores !! mi = Some m →
  ∃ k p pv, m = add_prev pv (CacheMasterCntlr_new k p) ∧
    ((k = k1 ∧ p = p1) ∨ (k = k2 ∧ p = p2) ∨ (k = k3 ∧ p = p3)) ∧ s_prev built_setup !! mi = Some pv.
Proof.
  pose proof HN as [_ _ _ _ Hc _ _ _ _ _]. intros Hm.
  assert (Hp : (m_prev_cache_cntlrs <$> all_masters p1 p2 p3 k1 k2 k3 cores) = s_prev built_setup).
  { unfold built_setup. cbn [s_prev]. clear Hm. destruct cores as [|j]; [lia|]. unfold all_masters. replace (2 * (S j - 1))%nat with (j + j)%nat by lia. rewrite fmap_app. cbn [fmap list_fmap]. f_equal.
    clear. induction j as [|j IH]; [done|]. rewrite Nat.add_succ_r. simpl. do 2 f_equal. exact IH. }
  assert (Hpv : s_prev built_setup !! mi = Some (m_prev_cache_cntlrs m)) by (by rewrite <- Hp, list_lookup_fmap, Hm).
  assert (Hin : m ∈ all_masters p1 p2 p3 k1 k2 k3 cores) by (by eapply list_elem_of_lookup_2).
  assert (Hcase : ∃ k p, m = add_prev (m_prev_cache_cntlrs m) (CacheMasterCntlr_new k p) ∧
    ((k = k1 ∧ p = p1) ∨ (k = k2 ∧ p = p2) ∨ (k = k3 ∧ p = p3))); [|naive_solver].
  destruct cores as [|j]; [lia|]. cbn [all_masters app] in Hin. rewrite !elem_of_cons in Hin.
  destruct Hin as [->|[->|[->|Hin]]]; [exists k1, p1|exists k2, p2|exists k3, p3|]; [by auto..|].
  clear -Hin. induction j as [|j IH]; [by apply not_elem_of_nil in Hin|]. simpl in Hin. rewrite !elem_of_cons in Hin.
  destruct Hin as [->|[->|Hin]]; [exists k1, p1|exists k2, p2|]; by auto.
Qed.
(** The constructor of the memory manager builds such a node, in its initial
    state. *)
Lemma new_node_initial dram :
  ∃ n : Node AnyPolicy F D, new_node B (levels p1 p2 p3 llc) cores periods dram env = Ok n ∧
    initial built_setup (mkMachine n None []).
Proof.
  pose proof HN as [HB Hpow (Hp1 & Hp2 & Hp3) (Hs1 & Hs2 & Hs3) Hc Hwt Hl Hun Hcb Hhome].
  destruct (built_cache_ok p1 HB Hp1) as (k1 & Hk1 & Hw1 & Hb1 & He1).
  destruct (built_cache_ok p2 HB Hp2) as (k2 & Hk2 & Hw2 & Hb2 & He2).
  destruct (built_cache_ok p3 HB Hp3) as (k3 & Hk3 & Hw3 & Hb3 & He3).
  destruct (new_node_built (D := D) B p1 p2 p3 llc cores k1 k2 k3 Hk1 Hk2 Hk3 Hs1 Hs2 Hs3 (lp_passthrough p3 Hp3) Hl periods dram env)
    as (n & Hn & [Hcn Hmn] & (R1 & R2 & _ & _ & R5)). exists n. split; [done|]. simpl in R1, R2, R5.
  assert (HM : ∀ mi m, n_masters n !! mi = Some m → ∃ k p pv, m = add_prev pv (CacheMasterCntlr_new k p) ∧
    cache_wf line_class_ k ∧ cb_blocksize (c_base k) = B ∧ empty_slots k ∧ params_ok p ∧ s_prev built_setup !! mi = Some pv).
  { intros mi m Hm. rewrite Hmn in Hm. destruct (built_master _ _ _ _ _ Hm) as (k & p & pv & -> & Hkp & Hpv).
    exists k, p, pv. destruct Hkp as [[-> ->]|[[-> ->]|[-> ->]]]; done. }
  assert (Hlen : length (n_masters n) = length (s_prev built_setup)).
  { rewrite Hmn, length_all_masters. simpl. rewrite length_replicate. destruct cores; simpl; lia. }
  constructor; simpl; try done.
  - constructor; simpl; try done.
    + rewrite Hcn. apply list_eq. intros i. rewrite list_lookup_fmap.
      destruct (all_cntlrs B p1 p2 p3 llc cores !! i) as [k|] eqn:Hk; [|done]. simpl. f_equal.
      destruct (cntlrs_lookup _ _ _ Hk) as (c & j & _ & _ & Hj). by destruct j as [|[|[|]]]; simplify_eq/=.
    + apply list_eq. intros i. rewrite list_lookup_fmap. destruct (n_masters n !! i) as [m|] eqn:Hm.
      * destruct (HM i m Hm) as (k & p & pv & -> & _ & _ & _ & _ & Hpv). etrans; [|symmetry; exact Hpv]. done.
      * simpl. symmetry. apply lookup_ge_None. apply lookup_ge_None in Hm. rewrite Hlen in Hm. exact Hm.
    + by rewrite R1, length_replicate.
    + intros mi m Hm. destruct (HM mi m Hm) as (k & p & pv & -> & Hw & Hb & _ & Hp & _).
      constructor; simpl; try done. by intros f Hf; apply (lp_prefetcher p Hp).
  - intros mi l v (m & Hm & Hs)%bind_Some. destruct (HM mi m Hm) as (k & p & pv & -> & _ & _ & He & _). by apply (He l).
  - intros a. unfold nwait. destruct (n_masters n !! s_llc built_setup) as [m|] eqn:Hm; [|done].
    by destruct (HM _ m Hm) as (k & p & pv & -> & _).
  - unfold nevict. destruct (n_masters n !! s_llc built_setup) as [m|] eqn:Hm; [|done].
    by destruct (HM _ m Hm) as (k & p & pv & -> & _).
Qed.
End Kind.
