(* ===== verification/NodeProps.v ===== *)
(** The properties of the cache controllers of a node (cache_cntlr.cc): what
    holds in every run of a node that the memory manager built, and runs of a
    node with two cores in which the code does not do what it means to. *)
From S2P Require Import Prelude SubsecondTime ContentionModel CacheBlock LruPolicies OtherPolicies FaultInjection CacheSet PolicyKeeps Address CacheModel Directory Shmem CacheSlots CacheCntlr CacheCntlrFacts CacheNode NodeThreads NodeTwoLevel.
Local Open Scope Z_scope.

(** A node with two cores: private first-level caches of one set with two ways
    and a shared last-level cache of four sets with two ways; no prefetcher. *)
Module TwoCores.
#[export] Instance no_prefetcher : PrefetcherOps unit := { getNextAddress := λ _ _, ret [] }.
#[export] Program Instance no_prefetcher_ok : PrefetcherOk unit := { pf_inv := λ _ _, True }.
Next Obligation. intros. exists [], f. split; [done|]. split; [done|apply Forall_nil_2]. Qed.
#[export] Instance no_dram : DramOps unit :=
  { getDataFromDram := λ _ _ _, ret (None, 0, DRAM); putDataToDram := λ _ _ _ _, ret (0, DRAM) }.

Definition cycles (n : Z) : ComponentLatency := {| cl_period := 0%nat; m_fixed_cycle_latency := n |}.
Definition params (sets : Z) (shared misses : nat) : CacheParameters unit :=
  mkCacheParameters sets 2 HASH_MASK "lru" (mkPolicyCfg 1 2 0) false false true false shared misses false None
    (mkCachePerfModel true true (cycles 3) (cycles 1)) (cycles 10)
    {| cb_period := 0%nat; m_bw_in_bits_per_cycle := 0 |}.
Definition homes_ : AddressHomeLookup := mkAHL 6 63 [0] 1 64.
Definition env : Env := mkEnv false false (λ _ _, 0) homes_ (replicate 64 0).
Definition periods : list Z := [1000].
Definition l1i : CacheParameters unit := params 1 1 0.
Definition l1d : CacheParameters unit := params 1 1 4.
Definition l2 : CacheParameters unit := params 4 2 0.
Definition setup : Setup := built_setup 64 periods l1i l1d l2 L2_CACHE 2 env.
Definition node : res (Node AnyPolicy unit unit) :=
  new_node 64 (levels l1i l1d l2 L2_CACHE) 2 periods tt env.

(** An access of eight bytes, and a message of the directory with data. *)
Definition access (op : mem_op_t) (a : Z) : MemOp := mkMemOp NONE op a 0 None 8 true true.
Definition message (t : msg_t) (a : Z) : ShmemMsg :=
  setWhere DRAM (ShmemMsg_new t TAG_DIR LAST_LEVEL_CACHE 0 a (Some (replicate 64 0)) 64).

Lemma params_are_ok sets shared misses : sets = 1 ∨ sets = 4 → params_ok 64 periods (params sets shared misses).
Proof.
  intros Hs. constructor; simpl; try done; try lia.
  - eexists LRU_, _. do 2 (split; [reflexivity|]). done.
  - destruct Hs as [-> | ->]; eexists; (split; [reflexivity|done]).
Qed.
Lemma node_params_ok : node_params 64 periods l1i l1d l2 L2_CACHE 2 env.
Proof.
  constructor; try done; try lia.
  - split; [|split]; apply params_are_ok; auto.
  - intros a Ha. destruct (getHome_ok homes_ a) as (core & Hc & _); [|done|by exists core].
    unfold ahl_wf, homes_. simpl. repeat split; try lia; done.
Qed.

(** A core misses with an operation and waits; the directory answers, the
    thread continues and the waiter is removed. *)
Definition blocked_on (r : Outcome) : res Cont := match r with Blocked c => Ok c | Returned _ _ => Err ErrAssert end.
Definition woken (r : Wake) : res CacheDirectoryWaiter := match r with Woken w => Ok w | _ => Err ErrAssert end.
Local Notation N := (Node AnyPolicy unit unit).
Definition miss (n0 : N) (id : nat) (o : MemOp) (t : msg_t) : res Machine :=
  let a := mo_address o in
  let? r1 := processMemOpFromCore id o n0 in
  let? c := blocked_on r1.1 in
  let? r2 := handleMsgFromDramDirectory 2 0 (message t a) r1.2 in
  let? r3 := wake_waiter 2 a (Some DRAM) r2.2 in
  let? w := woken r3.1 in
  c_assert (cont_address c =? a);?
  c_assert (bool_decide (core_of setup (cont_cntlr c) = core_of setup (w_cache_cntlr w)));?
  let? r4 := resume c r3.2 in
  let? r5 := retire_waiter 2 a w r4.2 in
  let? r6 := wake_waiter 2 a (Some DRAM) r5.2 in
  Ok (mkMachine r6.2 (serve 2 a (Some DRAM) r6.1) (after r4.1 [])).

Lemma access_ok_ op a : in_u64 a → a mod 64 = 0 → op_ok setup (access op a).
Proof. intros Ha Hm. constructor; simpl; [by split|lia|lia|lia|done]. Qed.
Lemma miss_steps n0 c i o t s :
  (c < 2)%nat → (i < 2)%nat → op_ok setup o → is_reply t = true → miss n0 (3 * c + i) o t = Ok s →
  rtc (step setup) (mkMachine n0 None []) s.
Proof.
  intros Hc Hi Ho Ht He. unfold miss in He.
  apply res_bind_Ok in He as ([r1 n1] & H1 & He). apply res_bind_Ok in He as (k & Hk & He).
  apply res_bind_Ok in He as ([[] n2] & H2 & He). apply res_bind_Ok in He as ([r3 n3] & H3 & He).
  apply res_bind_Ok in He as (w & Hw & He). apply res_bind_Ok in He as ([] & Ha & He).
  apply res_bind_Ok in He as ([] & Hco & He). apply res_bind_Ok in He as ([r4 n4] & H4 & He).
  apply res_bind_Ok in He as ([[] n5] & H5 & He). apply res_bind_Ok in He as ([r6 n6] & H6 & [= <-]).
  cbn [fst snd] in *. unfold c_assert in Ha, Hco. destruct (Z.eqb_spec (cont_address k) (mo_address o)) as [Hka|]; [|done].
  destruct (bool_decide _) eqn:Hb in Hco; [|done]. apply bool_decide_eq_true in Hb.
  destruct r1 as [|k']; [done|]. injection Hk as ->. destruct r3 as [| |w']; [done..|]. injection Hw as ->.
  assert (Hm : msg_ok setup (message t (mo_address o))).
  { split; [apply (o_line _ _ Ho)|]. intros buf Hbuf. apply (inj Some) in Hbuf. subst buf. rewrite length_replicate. cbn [s_block setup built_setup]. lia. }
  assert (Hl1 : is_l1 setup (3 * c + i)) by exact (setup_l1 _ _ _ _ _ _ _ _ node_params_ok c i Hc Hi).
  assert (Hl2 : is_llc setup 2) by exact (setup_llc _ _ _ _ _ _ _ _ node_params_ok 0 Nat.lt_0_2).
  eapply rtc_l; [exact (step_op setup _ o _ n0 n1 None [] Hl1 Ho (Forall_nil_2 _) H1)|].
  eapply rtc_l; [exact (step_reply setup 2 0 (message t (mo_address o)) _ n1 n2 n3 [k] Hl2 Hm Ht H2 H3)|].
  eapply rtc_l; [exact (step_resume setup k r4 n3 n4 (mkServed 2 (mo_address o) w (Some DRAM)) [] [] Hka Hb H4)|].
  eapply rtc_l; [exact (step_retire setup (mkServed 2 (mo_address o) w (Some DRAM)) r6 n4 n5 n6 _ H5 H6)|]. apply rtc_refl.
Qed.
End TwoCores.

Section Properties.
Context {F D : Type} `{HFetch : PrefetcherOps F} {HPf : PrefetcherOk F} `{HDram : DramOps D}.
Context (B : Z) (periods : list Z) (p1 p2 p3 : CacheParameters F) (llc : component_t) (cores : nat) (env : Env).
Local Notation U := (built_setup B periods p1 p2 p3 llc cores env).
Local Notation M := (Machine (P := AnyPolicy) (F := F) (D := D)).
Context (HN : node_params B periods p1 p2 p3 llc cores env).

Lemma run_good dram n (s : M) :
  new_node B (levels p1 p2 p3 llc) cores periods dram env = Ok n →
  rtc (step U) (mkMachine n None []) s → two_level U ∧ good U s.
Proof.
  intros Hn Hs. pose proof (built_two_level _ _ _ _ _ _ _ _ HN) as HS. split; [done|].
  destruct (new_node_initial (D := D) _ _ _ _ _ _ _ _ HN dram) as (n' & Hn' & Hi).
  assert (n' = n) as -> by congruence. apply reachable_good; [done|]. by exists (mkMachine n None []).
Qed.

(** C2: the last-level cache includes the first-level caches. In every run of
    a node that the memory manager built with private first-level caches and
    one shared last-level cache (coherent, not perfect and not passthrough),
    whatever the cores access, in whatever order the messages of the directory
    arrive and the threads continue, and whatever lines are evicted or
    prefetched: a line of a first-level cache is SHARED, EXCLUSIVE or
    MODIFIED, is in the last-level cache, and is MODIFIED there if it is
    MODIFIED here, so that its data can be written back; and somebody waits
    for each line that is being upgraded. *)
Theorem caches_stay_inclusive dram n (s : M) id k l t x :
  new_node B (levels p1 p2 p3 llc) cores periods dram env = Ok n →
  rtc (step U) (mkMachine n None []) s →
  is_l1 U id → s_cntlrs U !! id = Some k → nslot (mc_node s) (m_master k) l = Some (t, x) → t ≠ INVALID_TAG →
  (x = CacheState.SHARED ∨ x = CacheState.EXCLUSIVE ∨ x = CacheState.MODIFIED) ∧
  (∃ y, holds (mc_node s) (s_llc U) t y ∧ (x = CacheState.MODIFIED → y = CacheState.MODIFIED)) ∧
  (∀ a, line_address B a → holds (mc_node s) (s_llc U) (a / B) CacheState.SHARED_UPGRADING →
     nwait U (mc_node s) a ≠ []).
Proof.
  intros Hn Hs Hl1 Hk Hl Ht. destruct (run_good dram n s Hn Hs) as [HS Hg].
  destruct (inv_holds U _ (mc_node s) _ t x (g_inv _ _ Hg) (l1_is_master U HS id k Hl1 Hk) Ht) as [Hx Hy]; [by exists l|].
  split; [done|]. split; [done|]. intros a Ha Hsu. by destruct (i_su _ _ _ (g_inv _ _ Hg) a Ha Hsu).
Qed.


(** C5: a write miss leaves one holder. In every run of a node of that kind
    (private first-level caches and one shared last-level cache, coherent, not
    perfect and not passthrough): when an access that needs to write misses in
    the first-level cache of a core, then after it has completed, without the
    directory or after the directory has answered, no other first-level cache
    holds the line. *)
Theorem write_miss_single_holder dram n (s : M) id k o other ko :
  new_node B (levels p1 p2 p3 llc) cores periods dram env = Ok n →
  rtc (step U) (mkMachine n None []) s →
  is_l1 U id → s_cntlrs U !! id = Some k → op_ok U o → mo_mem_op_type o ≠ READ →
  is_l1 U other → s_cntlrs U !! other = Some ko → m_master ko ≠ m_master k →
  (∀ r n' n0, operationPermissibleinCache id (mo_address o) (mo_mem_op_type o) (mc_node s) = Ok (false, n0) →
     processMemOpFromCore id o (mc_node s) = Ok (r, n') → not_waiting r →
     absent n' (m_master ko) (mo_address o / B)) ∧
  (∀ r n' t1 t2 t3, KMem id o t1 t2 t3 ∈ mc_blocked s →
     resume (KMem id o t1 t2 t3) (mc_node s) = Ok (r, n') → absent n' (m_master ko) (mo_address o / B)).
Proof.
  intros Hn Hs Hl1 Hk Ho Hop Hl1' Hk' Hne. destruct (run_good dram n s Hn Hs) as [HS Hg].
  pose proof (l1_is_master U HS other ko Hl1' Hk') as Hm. split.
  - intros r n' n0 Hx He Hw.
    destruct (run_Ok U (λ _, True) _ _ _ false n0 (run_permissible U HS (λ _, True) (mc_node s) id k (mo_address o) (mo_mem_op_type o)
      (g_wf _ _ Hg) Hk (proj1 (o_line U o Ho))) Hx) as [_ (_ & x & Hst & Hp)].
    destruct (run_Ok U (λ _, True) _ _ _ r n' (run_processMemOpFromCore U HS (λ _, True) (λ _ _, I) (mc_node s) id k o x _
      (g_wf _ _ Hg) Hk Hl1 Ho (g_inv _ _ Hg) (λ _, I) Hst) He) as [_ (_ & _ & Hso)].
    by apply Hso.
  - intros r n' t1 t2 t3 Hin He.
    destruct (run_Ok U (λ _, True) _ _ _ r n' (run_resume U HS (λ _, True) (λ _ _, I) (mc_node s) (KMem id o t1 t2 t3) _
      (g_wf _ _ Hg) (g_inv _ _ Hg) (proj1 (Forall_forall _ _) (g_blocked _ _ Hg) _ Hin) (λ _, I)) He) as [_ (_ & _ & Hso)].
    apply (Hso Hop); [done|]. by rewrite (master_of_eq U id k Hk).
Qed.
End Properties.

(** * Witnesses *)
Import TwoCores.

(** Core 0 writes line 0 of the node with two cores; the first-level data
    caches are controllers 1 and 4. *)
Definition written (P : Machine → bool) : bool :=
  match node with
  | Ok n => match miss n 1 (access WRITE 0) EX_REP with Ok s => P s | Err _ => false end
  | Err _ => false
  end.
Lemma written_run P :
  written P = true →
  ∃ n s, new_node 64 (levels l1i l1d l2 L2_CACHE) 2 periods tt env = Ok n ∧
         rtc (step setup) (mkMachine n None []) s ∧ P s = true.
Proof.
  unfold written, node. destruct (new_node _ _ _ _ _ _) as [n|]; [|done].
  destruct (miss n 1 (access WRITE 0) EX_REP) as [s|] eqn:Hm; [|done]. intros HP. exists n, s. split; [done|]. split; [|done].
  apply (miss_steps n 0 1 (access WRITE 0) EX_REP); [lia|lia|by apply access_ok_|done|done].
Qed.

Lemma access_0 op : op_ok setup (access op 0).
Proof. by apply access_ok_. Qed.

Lemma caches_stay_inclusive_witness :
  ∃ n s, new_node 64 (levels l1i l1d l2 L2_CACHE) 2 periods tt env = Ok n ∧
    rtc (step setup) (mkMachine n None []) s ∧ nslot (mc_node s) 1 (0, 0)%nat = Some (0, CacheState.MODIFIED) ∧
    holds (mc_node s) 2 0 CacheState.MODIFIED.
Proof.
  destruct (written_run (λ s, bool_decide (nslot (mc_node s) 1 (0, 0)%nat = Some (0, CacheState.MODIFIED)))) as (n & s & Hn & Hs & Hl).
  { vm_compute. reflexivity. }
  apply bool_decide_eq_true in Hl. exists n, s. do 3 (split; [done|]).
  destruct (caches_stay_inclusive 64 periods l1i l1d l2 L2_CACHE 2 env node_params_ok tt n s 1
    (built_cntlr 64 L1_DCACHE 0 l1d 1 (Some 2%nat)) (0, 0)%nat 0 CacheState.MODIFIED Hn Hs
    (setup_l1 _ _ _ _ _ _ _ _ node_params_ok 0 1 Nat.lt_0_2 Nat.lt_1_2) eq_refl Hl) as (_ & (y & Hy & Hm) & _); [done|].
  by rewrite <- (Hm eq_refl).
Defined.


Lemma write_miss_single_holder_witness :
  ∃ n s r n', new_node 64 (levels l1i l1d l2 L2_CACHE) 2 periods tt env = Ok n ∧
    rtc (step setup) (mkMachine n None []) s ∧ nslot (mc_node s) 1 (0, 0)%nat = Some (0, CacheState.MODIFIED) ∧
    processMemOpFromCore 4 (access WRITE 0) (mc_node s) = Ok (r, n') ∧ absent n' 1 0.
Proof.
  destruct (written_run (λ s, bool_decide (nslot (mc_node s) 1 (0, 0)%nat = Some (0, CacheState.MODIFIED)) &&
    match operationPermissibleinCache 4 0 WRITE (mc_node s), processMemOpFromCore 4 (access WRITE 0) (mc_node s) with
    | Ok (false, _), Ok (Returned _ _, _) => true
    | _, _ => false
    end)) as (n & s & Hn & Hs & Hb); [vm_compute; reflexivity|].
  apply andb_true_iff in Hb as [Hl%bool_decide_eq_true Hb].
  destruct (operationPermissibleinCache 4 0 WRITE (mc_node s)) as [[[] n0]|] eqn:Hp; [done| |done].
  destruct (processMemOpFromCore 4 (access WRITE 0) (mc_node s)) as [[[w d|] n']|] eqn:He; [|done..].
  exists n, s, (Returned w d), n'. do 4 (split; [done|]).
  pose proof (write_miss_single_holder 64 periods l1i l1d l2 L2_CACHE 2 env node_params_ok tt n s 4
    (built_cntlr 64 L1_DCACHE 1 l1d 4 (Some 5%nat)) (access WRITE 0) 1 (built_cntlr 64 L1_DCACHE 0 l1d 1 (Some 2%nat)) Hn Hs
    (setup_l1 _ _ _ _ _ _ _ _ node_params_ok 1 1 Nat.lt_1_2 Nat.lt_1_2) eq_refl (access_0 WRITE) (λ H, ltac:(discriminate H))
    (setup_l1 _ _ _ _ _ _ _ _ node_params_ok 0 1 Nat.lt_0_2 Nat.lt_1_2) eq_refl (λ H, ltac:(discriminate H))) as [H1 _].
  exact (H1 (Returned w d) n' n0 Hp He (λ _ _ _ _ _ H, ltac:(discriminate H))).
Defined.

(** * A run that does not do what the code means to *)

Definition own_hit (r : res (Outcome * Node AnyPolicy unit unit)) : option (Node AnyPolicy unit unit) :=
  match r with Ok (Returned L1_OWN _, n) => Some n | _ => None end.
Lemma own_hit_Some r n : own_hit r = Some n → ∃ d, r = Ok (Returned L1_OWN d, n).
Proof. unfold own_hit. repeat case_match; try done. intros [= ->]. by eexists. Qed.

(** After core 0 has written line 0, core 1 reads the line and then writes it, and
    core 0 reads it again. *)
Definition two_writers (s : Machine) : bool :=
  let first n x := bool_decide (nslot n 1 (0, 0)%nat = Some (0, x)) in
  let second n x := bool_decide (nslot n 4 (0, 0)%nat = Some (0, x)) in
  match mc_served s, mc_blocked s, processMemOpFromCore 4 (access READ 0) (mc_node s) with
  | None, [], Ok (Returned _ _, n1) =>
      match own_hit (processMemOpFromCore 4 (access WRITE 0) n1) with
      | Some n2 => first n1 CacheState.SHARED && second n1 CacheState.MODIFIED && first n2 CacheState.SHARED &&
                   bool_decide (is_Some (own_hit (processMemOpFromCore 1 (access READ 0) n2)))
      | None => false
      end
  | _, _, _ => false
  end.

(** C36: that a line which one first-level cache may write is in no other is not
    an invariant.  The node with two cores that the memory manager builds (private
    first-level caches of two lines, a shared cache of eight) reaches a state in
    which the data cache of core 0 holds line 0 as SHARED and that of core 1
    holds it as MODIFIED: core 0 wrote the line and core 1 read it, and
    [copyDataFromNextLevel] gave the reader the state of the shared cache.  From
    there a write of core 1 hits in its own cache and invalidates nobody, and
    then a read of core 0 hits on the old copy. *)
Theorem read_of_dirty_line_makes_two_holders :
  ∃ n s n2 n3 d2 d3,
    new_node 64 (levels l1i l1d l2 L2_CACHE) 2 periods tt env = Ok n ∧
    rtc (step setup) (mkMachine n None []) s ∧
    holds (mc_node s) 1 0 CacheState.SHARED ∧ holds (mc_node s) 4 0 CacheState.MODIFIED ∧
    processMemOpFromCore 4 (access WRITE 0) (mc_node s) = Ok (Returned L1_OWN d2, n2) ∧
    holds n2 1 0 CacheState.SHARED ∧
    processMemOpFromCore 1 (access READ 0) n2 = Ok (Returned L1_OWN d3, n3).
Proof.
  destruct (written_run two_writers) as (n & [n0 served blocked] & Hn & Hs & Ht); [vm_compute; reflexivity|].
  unfold two_writers in Ht. cbn [mc_served mc_blocked mc_node] in Ht. destruct served; [done|]. destruct blocked; [|done].
  destruct (processMemOpFromCore 4 (access READ 0) n0) as [[[w d|] n1]|] eqn:H1; [|done..].
  destruct (own_hit _) as [n2|] eqn:H2; [|done].
  apply andb_true_iff in Ht as [Ht [n3 H3]%bool_decide_eq_true]. apply andb_true_iff in Ht as [Ht Hx2%bool_decide_eq_true].
  apply andb_true_iff in Ht as [Hx1%bool_decide_eq_true Hy1%bool_decide_eq_true].
  apply own_hit_Some in H2 as [d2 H2]. apply own_hit_Some in H3 as [d3 H3].
  exists n, (mkMachine n1 None []), n2, n3, d2, d3. split; [done|]. split.
  { eapply rtc_r; [exact Hs|].
    exact (step_op setup 4 (access READ 0) _ n0 n1 None [] (setup_l1 _ _ _ _ _ _ _ _ node_params_ok 1 1 Nat.lt_1_2 Nat.lt_1_2)
      (access_0 READ) (Forall_nil_2 _) H1). }
  split; [by eexists|]. split; [by eexists|]. split; [exact H2|]. split; [by eexists|exact H3].
Qed.
