(* ===== verification/NucaCache.v ===== *)
(** The NUCA cache: src/common/core/memory_subsystem/parametric_dram_directory_msi/nuca_cache.{h,cc},
    a [Cache] without data in front of the memory.  It implements the interface
    that the directory controller uses.  Its latencies and its queue model are
    not part of the model. *)
From S2P Require Import Prelude Utils CacheBlock LruPolicies OtherPolicies FaultInjection CacheSet Address CacheModel Shmem.

Record NucaCache (P : Type) : Type := mkNuca {
  n_cache : Cache P;
  n_block_size : Z;
  n_reads : Z;
  n_writes : Z;
  n_read_misses : Z;
  n_write_misses : Z
}.
Arguments mkNuca {P} _ _ _ _ _ _.
Arguments n_cache {P} _.
Arguments n_block_size {P} _.
Arguments n_reads {P} _.
Arguments n_writes {P} _.
Arguments n_read_misses {P} _.
Arguments n_write_misses {P} _.

(** There is no fault injection manager, so no set holds data. *)
Definition NucaCache_new (num_sets : Z) (associativity : nat) (cache_block_size : Z)
    (replacement_policy hash_function : string) (ahl : option AddressHomeLookup) (cfg : PolicyCfg)
    (time : nat → Z) : res (NucaCache AnyPolicy) :=
  let? hash := parseAddressHash hash_function in
  let? c := Cache_new num_sets associativity cache_block_size replacement_policy PR_L1_CACHE hash
              false None ahl cfg time in
  Ok (mkNuca c cache_block_size 0 0 0 0).

Section Ops.
Context {P : Type} `{Policy P}.

Definition bump_if (b : bool) (x : Z) : Z := if b then u64 (x + 1) else x.

Definition NucaCache_read (address : Z) (count : bool) : st (NucaCache P) (option (option (list Z))) := λ n,
  let? r := peekSingleLine address (n_cache n) in
  match r with
  | Some _ =>
      let? r := accessSingleLine address (LOAD true) (n_block_size n) true (n_cache n) in
      let '(_, out, c) := r in
      Ok (Some out, mkNuca c (n_block_size n) (bump_if count (n_reads n)) (n_writes n)
                      (n_read_misses n) (n_write_misses n))
  | None =>
      Ok (None, mkNuca (n_cache n) (n_block_size n) (bump_if count (n_reads n)) (n_writes n)
                  (bump_if count (n_read_misses n)) (n_write_misses n))
  end.

(** On a hit the caller's [eviction], [evict_address] and [evict_buf] keep the
    values [loc] they had; [evict_block_info] of a miss is a new
    [PrL1CacheBlockInfo]. *)
Definition NucaCache_write (address : Z) (data_buf : option (list Z)) (loc : Locals) (count : bool) :
    st (NucaCache P) (bool * Z * list Z) := λ n,
  let? r := peekSingleLine address (n_cache n) in
  match r with
  | Some l =>
      let? c := updateBlock l (setCState CacheState.MODIFIED) (n_cache n) in
      let? r := accessSingleLine address (STORE data_buf) (n_block_size n) true c in
      Ok (loc_eviction loc, loc_evict_address loc, loc_buf loc,
          mkNuca r.2 (n_block_size n) (n_reads n) (bump_if count (n_writes n)) (n_read_misses n)
            (n_write_misses n))
  | None =>
      let? evict_info := CacheBlockInfo_create PR_L1_CACHE in
      let? r := insertSingleLine address data_buf evict_info true None (n_cache n) in
      let '(ins, evict_address, c) := r in
      Ok (eviction ins && bool_decide (getCState (evict_block_info ins) = CacheState.MODIFIED),
          evict_address, default (loc_buf loc) (evict_buff ins),
          mkNuca c (n_block_size n) (n_reads n) (bump_if count (n_writes n)) (n_read_misses n)
            (bump_if count (n_write_misses n)))
  end.

#[export] Instance Nuca_ops : NucaOps (NucaCache P) := {
  nuca_read := NucaCache_read;
  nuca_write := NucaCache_write
}.
End Ops.

(** * Facts *)

(** ** Policies without a controller

    The cache of the NUCA slice has no controller to ask about a victim: a
    policy either does not ask or stops. *)
Class PolicyNull (P : Type) `{Policy P} : Prop :=
  get_null assoc lines f s :
    getReplacementIndex (mkSetView assoc lines None) s
    = getReplacementIndex (mkSetView assoc lines (Some f)) s ∨
    ∃ msg, getReplacementIndex (mkSetView assoc lines None) s = Err (ErrLog msg).

Lemma res_bind_ext {A B} (x : res A) (f g : A → res B) : (∀ a, f a = g a) → res_bind x f = res_bind x g.
Proof. intros Hfg. destruct x; simpl; [apply Hfg|done]. Qed.

Lemma res_bind_arg {A B} (x y : res A) (f : A → res B) : x = y → res_bind x f = res_bind y f.
Proof. by intros ->. Qed.

Section Null.
Context (assoc : nat) (lines : list BlockInfo) (f : BlockInfo → bool).
Let v0 : SetView := mkSetView assoc lines None.
Let v1 : SetView := mkSetView assoc lines (Some f).

Lemma MRU_find_null bits target n i : MRU.find_target v0 bits target n i = MRU.find_target v1 bits target n i.
Proof.
  revert i. induction n as [|n IH]; intros i; simpl; [done|]. apply res_bind_ext. intros b.
  case_match; [|apply IH]. apply res_bind_ext. intros []; [done|apply IH].
Qed.
Lemma MRU_search_null n target s : MRU.search v0 n target s = MRU.search v1 n target s.
Proof.
  revert target. induction n as [|n IH]; intros target; simpl; [done|]. rewrite MRU_find_null.
  apply res_bind_ext. intros [i|]; [done|apply IH].
Qed.
Lemma NMRU_search_null n s : NMRU.search v0 n s = NMRU.search v1 n s.
Proof.
  revert s. induction n as [|n IH]; intros s; simpl; [done|]. apply res_bind_ext. intros b.
  apply res_bind_ext. intros []; [done|apply IH].
Qed.
Lemma NRU_first_null bits n i z : NRU.first_loop v0 bits n i z = NRU.first_loop v1 bits n i z.
Proof.
  revert i z. induction n as [|n IH]; intros i z; simpl; [done|]. apply res_bind_ext. intros b.
  case_match; [|done]. apply res_bind_ext. intros x. apply res_bind_ext. intros ok. apply IH.
Qed.
Lemma NRU_search_null z n s : NRU.search v0 z n s = NRU.search v1 z n s.
Proof.
  revert s. induction n as [|n IH]; intros s; simpl; [done|]. apply res_bind_ext. intros b.
  apply res_bind_ext. intros []; [done|apply IH].
Qed.
Lemma RoundRobin_null n s : RoundRobin.go n v0 s = RoundRobin.go n v1 s.
Proof.
  revert s. induction n as [|n IH]; intros s; simpl; [done|]. apply res_bind_ext. intros []; [done|apply IH].
Qed.
Lemma Random_null n s : RandomPolicy.go n v0 s = RandomPolicy.go n v1 s.
Proof.
  revert s. induction n as [|n IH]; intros s; [done|]. cbn [RandomPolicy.go].
  change (first_invalid v0) with (first_invalid v1). case_match; [done|].
  change (v_associativity v0) with (v_associativity v1). case_match; [done|].
  destruct (Random_next 32768 (RandomPolicy.m_rand (ps_pol s))) as [r seed].
  apply res_bind_ext. intros []; [done|apply IH].
Qed.

Lemma LRU_scan_null bits n i index m : LRU.scan v0 bits n i index m = LRU.scan v1 bits n i index m.
Proof.
  revert i index m. induction n as [|n IH]; intros i index m; simpl; [done|]. apply res_bind_ext. intros b.
  case_match; [|apply IH]. apply res_bind_ext. intros []; apply IH.
Qed.
Lemma LRU_attempts_null n attempt s :
  LRU.attempts v0 n attempt s = LRU.attempts v1 n attempt s ∨
  ∃ msg, LRU.attempts v0 n attempt s = Err (ErrLog msg).
Proof.
  destruct n as [|n]; simpl; [by left|]. rewrite LRU_scan_null.
  destruct (LRU.scan v1 _ _ _ _ _) as [index|]; simpl; [|by left].
  destruct (log_assert _ _); simpl; [|by left]. case_bool_decide; simpl; [right; eauto|by left].
Qed.

Lemma SRRIP_revolution_null n attempt s :
  SRRIP.revolution v0 n attempt s = SRRIP.revolution v1 n attempt s ∨
  ∃ msg, SRRIP.revolution v0 n attempt s = Err (ErrLog msg).
Proof.
  revert attempt s. induction n as [|n IH]; intros attempt s; simpl; [by left|].
  destruct (rd _ _); simpl; [|by left]. case_match; [|apply IH].
  case_bool_decide; simpl; [right; eauto|by left].
Qed.
Lemma SRRIP_rounds_null n attempt s :
  SRRIP.rounds v0 n attempt s = SRRIP.rounds v1 n attempt s ∨
  ∃ msg, SRRIP.rounds v0 n attempt s = Err (ErrLog msg).
Proof.
  revert attempt s. induction n as [|n IH]; intros attempt s; simpl; [by left|].
  destruct (SRRIP_revolution_null assoc attempt s) as [->|[msg ->]]; [|right; simpl; eauto].
  destruct (SRRIP.revolution v1 assoc attempt s) as [[[i s']|[a s']]|]; simpl; [by left|apply IH|by left].
Qed.

(** The policies that never ask. *)
Lemma MRU_get_null s : MRU.get v0 s = MRU.get v1 s.
Proof. unfold MRU.get, first_invalid. simpl. case_match; [done|apply MRU_search_null]. Qed.
Lemma NMRU_get_null s : NMRU.get v0 s = NMRU.get v1 s.
Proof. unfold NMRU.get, first_invalid. simpl. case_match; [done|apply NMRU_search_null]. Qed.
Lemma NRU_get_null s : NRU.get v0 s = NRU.get v1 s.
Proof. unfold NRU.get. rewrite NRU_first_null. apply res_bind_ext. intros [i|z]; [done|apply NRU_search_null]. Qed.
End Null.

#[export] Instance LRU_null : PolicyNull LRU.t.
Proof.
  intros assoc lines f s. simpl. unfold LRU.get, first_invalid. simpl.
  destruct (list_find _ lines); simpl; [by left|apply LRU_attempts_null].
Qed.
#[export] Instance SRRIP_null : PolicyNull SRRIP.t.
Proof.
  intros assoc lines f s. unfold getReplacementIndex, SRRIP_Policy, SRRIP.get, first_invalid. cbn [v_blocks].
  destruct (list_find _ lines); cbn [fmap option_fmap option_map]; [by left|apply SRRIP_rounds_null].
Qed.
#[export] Instance MRU_null : PolicyNull MRU.t.
Proof.
  intros assoc lines f s. left. apply MRU_get_null.
Qed.
#[export] Instance NMRU_null : PolicyNull NMRU.t.
Proof.
  intros assoc lines f s. left. apply NMRU_get_null.
Qed.
#[export] Instance NRU_null : PolicyNull NRU.t.
Proof.
  intros assoc lines f s. left. apply NRU_get_null.
Qed.
#[export] Instance PLRU_null : PolicyNull PLRU.t.
Proof. intros assoc lines f s. by left. Qed.
#[export] Instance RoundRobin_null_ : PolicyNull RoundRobin.t.
Proof. intros assoc lines f s. left. apply RoundRobin_null. Qed.
#[export] Instance Random_null_ : PolicyNull RandomPolicy.t.
Proof. intros assoc lines f s. left. apply Random_null. Qed.
#[export] Instance Any_null : PolicyNull AnyPolicy.
Proof.
  intros assoc lines f s. simpl. unfold Any_get, get_as.
  destruct (ps_pol s) as [p|p|p|p|p|p|p|p]; destruct (get_null assoc lines f (as_pol p s)) as [->|[msg ->]];
    first [by left | right; simpl; eauto].
Qed.

(** ** Policies that do not ask the controller *)
Definition no_query (p : AnyPolicy) : Prop :=
  match p with
  | CacheSetLRU p => LRU.m_num_attempts p = 1
  | CacheSetSRRIP p => SRRIP.m_num_attempts p = 1
  | _ => True
  end.

Lemma with_info_pol {P} f (s s' : PolState P) : with_info f s = Ok s' → ps_pol s' = ps_pol s.
Proof. unfold with_info. case_match; [|done]. by intros (i & _ & [= <-])%res_bind_Ok. Qed.
Lemma move_attempts assoc i s s' :
  LRU.move assoc i s = Ok s' → LRU.m_num_attempts (ps_pol s') = LRU.m_num_attempts (ps_pol s).
Proof. by intros (bits & _ & [= <-])%res_bind_Ok. Qed.
Lemma write_attempts i x s s' :
  SRRIP.write i x s = Ok s' → SRRIP.m_num_attempts (ps_pol s') = SRRIP.m_num_attempts (ps_pol s).
Proof. by intros (bits & _ & [= <-])%res_bind_Ok. Qed.

Section Quiet.
Context (assoc : nat) (lines : list BlockInfo) (f : BlockInfo → bool).
Let v0 : SetView := mkSetView assoc lines None.
Let v1 : SetView := mkSetView assoc lines (Some f).

(** With one attempt the victim is the same with and without a controller. *)
Lemma LRU_quiet s :
  LRU.m_num_attempts (ps_pol s) = 1 →
  LRU.get v0 s = LRU.get v1 s ∧ ∀ i s', LRU.get v0 s = Ok (i, s') → LRU.m_num_attempts (ps_pol s') = 1.
Proof.
  intros Hp. unfold LRU.get. change (first_invalid v1) with (first_invalid v0). destruct (first_invalid v0) as [j|].
  - split; [done|]. intros i s' (s1 & Hm%move_attempts & [= _ <-])%res_bind_Ok. by rewrite Hm.
  - rewrite Hp. unfold v0, v1. cbn [LRU.attempts v_associativity v_cntlr]. rewrite Hp, LRU_scan_null with (f := f). cbn [Nat.sub].
    rewrite !(bool_decide_false (0 < 0)) by lia. split; [done|]. intros i s' Hr.
    apply res_bind_Ok in Hr as (idx & _ & Hr). apply res_bind_Ok in Hr as (_ & _ & Hr). cbn [res_bind] in Hr.
    apply res_bind_Ok in Hr as (s1 & Hm%move_attempts & Hr).
    apply res_bind_Ok in Hr as (s2 & Hi%with_info_pol & [= _ <-]). by rewrite Hi, Hm.
Qed.
Lemma SRRIP_revolution_quiet n attempt s :
  SRRIP.m_num_attempts (ps_pol s) = 1 →
  SRRIP.revolution v0 n attempt s = SRRIP.revolution v1 n attempt s ∧
  ∀ r, SRRIP.revolution v0 n attempt s = Ok r →
    match r with inl (_, s') | inr (_, s') => SRRIP.m_num_attempts (ps_pol s') = 1 end.
Proof.
  revert attempt s. induction n as [|n IH]; intros attempt s Hp; cbn [SRRIP.revolution].
  { split; [done|]. by intros r [= <-]. }
  destruct (rd _ _) as [x|]; cbn [res_bind]; [|by split]. destruct (SRRIP.m_rrip_max (ps_pol s) <=? x)%Z; [|by apply IH].
  rewrite Hp, !bool_decide_false by lia. cbn [res_bind]. split; [done|]. intros r Hr.
  apply res_bind_Ok in Hr as (s1 & Hw%write_attempts & Hr). apply res_bind_Ok in Hr as (s2 & Hi%with_info_pol & Hr).
  apply res_bind_Ok in Hr as (ok & _ & Hr). apply res_bind_Ok in Hr as (_ & _ & [= <-]). by rewrite Hi, Hw.
Qed.
Lemma SRRIP_rounds_quiet n attempt s :
  SRRIP.m_num_attempts (ps_pol s) = 1 →
  SRRIP.rounds v0 n attempt s = SRRIP.rounds v1 n attempt s ∧
  ∀ i s', SRRIP.rounds v0 n attempt s = Ok (i, s') → SRRIP.m_num_attempts (ps_pol s') = 1.
Proof.
  revert attempt s. induction n as [|n IH]; intros attempt s Hp; cbn [SRRIP.rounds]; [by split|].
  change (v_associativity v0) with assoc. change (v_associativity v1) with assoc.
  destruct (SRRIP_revolution_quiet assoc attempt s Hp) as [<- Hr].
  destruct (SRRIP.revolution v0 assoc attempt s) as [[[i s1]|[a s1]]|]; cbn [res_bind]; [|by apply IH, (Hr _ eq_refl)|by split].
  split; [done|]. intros ? ? [= <- <-]. exact (Hr _ eq_refl).
Qed.
Lemma SRRIP_quiet s :
  SRRIP.m_num_attempts (ps_pol s) = 1 →
  SRRIP.get v0 s = SRRIP.get v1 s ∧ ∀ i s', SRRIP.get v0 s = Ok (i, s') → SRRIP.m_num_attempts (ps_pol s') = 1.
Proof.
  intros Hp. unfold SRRIP.get. change (first_invalid v1) with (first_invalid v0). destruct (first_invalid v0) as [j|].
  - split; [done|]. intros i s' (s1 & Hm%write_attempts & [= _ <-])%res_bind_Ok. by rewrite Hm.
  - by apply SRRIP_rounds_quiet.
Qed.
Lemma get_quiet (s : PolState AnyPolicy) :
  no_query (ps_pol s) →
  getReplacementIndex v0 s = getReplacementIndex v1 s ∧
  ∀ i s', getReplacementIndex v0 s = Ok (i, s') → no_query (ps_pol s').
Proof.
  intros Hq. simpl. unfold Any_get, get_as. destruct (ps_pol s) as [p|p|p|p|p|p|p|p]; simpl in Hq; split.
  all: try (intros i s' (r & _ & [= _ <-])%res_bind_Ok; exact I).
  - apply res_bind_arg, RoundRobin_null.
  - apply res_bind_arg, (LRU_quiet (as_pol p s) Hq).
  - intros i s' ([j s1] & Hr & [= _ <-])%res_bind_Ok. by apply (LRU_quiet (as_pol p s) Hq) in Hr.
  - apply res_bind_arg, NRU_get_null.
  - apply res_bind_arg, MRU_get_null.
  - apply res_bind_arg, NMRU_get_null.
  - reflexivity.
  - apply res_bind_arg, (SRRIP_quiet (as_pol p s) Hq).
  - intros i s' ([j s1] & Hr & [= _ <-])%res_bind_Ok. by apply (SRRIP_quiet (as_pol p s) Hq) in Hr.
  - apply res_bind_arg, Random_null.
Qed.
End Quiet.
Lemma upd_quiet assoc i (s s' : PolState AnyPolicy) :
  no_query (ps_pol s) → updateReplacementIndex assoc i s = Ok s' → no_query (ps_pol s').
Proof.
  simpl. unfold Any_upd, upd_as. destruct (ps_pol s) as [p|p|p|p|p|p|p|p]; simpl; intros Hq He;
    first [by injection He as <- | apply res_bind_Ok in He as (s1 & Hu & [= <-])]; simpl in *; try exact I.
  - unfold LRU.upd in Hu. apply res_bind_Ok in Hu as (b & _ & Hu).
    apply res_bind_Ok in Hu as (s2 & Hi%with_info_pol & Hm%move_attempts). by rewrite Hm, Hi.
  - unfold SRRIP.upd in Hu. apply res_bind_Ok in Hu as (x & _ & Hu).
    apply res_bind_Ok in Hu as (s2 & Hi%with_info_pol & Hu). destruct (0 <? x)%Z.
    + apply write_attempts in Hu. by rewrite Hu, Hi.
    + injection Hu as <-. by rewrite Hi.
Qed.

(** ** A cache without data *)

Section Facts.
Context {P : Type} `{Policy P} {HOk : PolicyOk P} {HFrame : PolicyFrame P} {HNull : PolicyNull P}.
Implicit Types (c : Cache P) (n : NucaCache P).

Definition no_data c : Prop := m_fault_injector c = None ∧ Forall (λ s, m_blocks s = None) (m_sets c).

Lemma out_of_line a b e : c_assert (a <=? b)%Z = Err e → e = ErrAssert ∧ (b < a)%Z.
Proof. unfold c_assert. destruct (Z.leb_spec a b); [done|]. by intros [= <-]. Qed.
(** An access can fail only where it leaves the line. *)
Lemma access_no_data cls c addr acc bytes :
  cache_wf cls c → settled c → no_data c → in_u64 addr →
  match accessSingleLine addr acc bytes true c with
  | Ok (loc, out, c') => cache_wf cls c' ∧ settled c' ∧ no_data c' ∧ c_base c' = c_base c ∧
                         cache_map c' = cache_map c ∧ out = None ∧
                         (is_Some loc ↔ is_Some (cache_map c !! tag_of c addr))
  | Err e => e = ErrAssert ∧
             (cb_blocksize (c_base c) < u32 (Z.land addr (u32 (cb_blocksize (c_base c) - 1)) + bytes))%Z
  end.
Proof.
  intros Hwf Hst [Hfi Hnd] Ha. pose proof (settled_access c addr acc bytes true) as Hsa.
  destruct (split_cache cls c addr Hwf Ha) as (i & s & Hsp & Hlt & Hi & Hs & Hset & Has & Hbl & Ht & _ & Hm).
  pose proof (Forall_lookup_1 _ _ _ _ Hnd Hs) as Hns. simpl in Hns.
  unfold accessSingleLine, splitAddress_offset in *. rewrite Hsp in *. simpl in *.
  rewrite Hi, (proj2 (rd_Ok _ _ _) Hs) in *. simpl in *.
  destruct (find_ok cls s (m_set_info c) (tag_of c addr) Hset Ht) as (r & Hr & Hrs). rewrite Hr in *. simpl in *.
  rewrite Hm. destruct r as [w|].
  2:{ rewrite Hrs. do 6 (split; [done|]). by split; intros [? ?]. }
  destruct Hrs as (b & Hb & Hc). rewrite Hc, Hfi in *.
  assert (Hw : w < m_associativity s).
  { apply lookup_lt_Some in Hb. destruct Hset as [[Hl _] _]. simpl in Hl. lia. }
  destruct (update_ok cls s (m_set_info c) w Hset Hw) as (p & sh' & Hu & Hset' & Hsh).
  destruct (put_same_lines cls c (home_set (c_base c) (tag_of c addr)) s (set_policy p s) sh' None) as (c' & Hp & Hwf' & Hb' & Hsets & Hmap);
    [first [done | by intros [? ?]]..|].
  assert (Hnd' : no_data c').
  { split; [|rewrite Hsets; by apply Forall_insert].
    apply res_bind_Ok in Hp as (l & _ & [= <-]). done. }
  destruct acc as [buff|buff]; unfold read_line, write_line in *; simpl in *.
  - destruct (c_assert _) eqn:Hca; simpl in *; [|by apply out_of_line in Hca; rewrite Hbl in Hca].
    rewrite Hns, Hu in *. simpl in *. rewrite Hp in *. simpl in *. naive_solver.
  - destruct (c_assert _) eqn:Hca; simpl in *; [|by apply out_of_line in Hca; rewrite Hbl in Hca].
    rewrite Hns in *. destruct buff; simpl in *; rewrite Hu in *; simpl in *; rewrite Hp in *; simpl in *; naive_solver.
Qed.

Lemma insert_null new fill ev want f (s : CacheSet P) sh :
  insert new fill ev want None s sh = insert new fill ev want (Some f) s sh ∨
  ∃ msg, insert new fill ev want None s sh = Err (ErrLog msg).
Proof.
  unfold insert, view. destruct (get_null (m_associativity s) (m_cache_block_info_array s) f (pol_state s sh))
    as [->|[msg ->]]; [by left|right; simpl; eauto].
Qed.

Lemma insert_fill_none new fill ev want cntlr (s : CacheSet P) sh :
  m_blocks s = None → insert new fill ev want cntlr s sh = insert new None ev want cntlr s sh.
Proof.
  intros Hs. unfold insert. apply res_bind_ext. intros r. do 5 (apply res_bind_ext; intros ?).
  simpl. rewrite Hs. by destruct fill.
Qed.

Lemma insert_blocks_none new fill ev want cntlr (s : CacheSet P) sh ins s' sh' :
  m_blocks s = None → insert new fill ev want cntlr s sh = Ok (ins, s', sh') →
  m_blocks s' = None ∧ evict_buff ins = None.
Proof.
  intros Hs. rewrite insert_fill_none by done. unfold insert. simpl. rewrite Hs.
  intros (r & _ & Hi)%res_bind_Ok. apply res_bind_Ok in Hi as (_ & _ & Hi).
  apply res_bind_Ok in Hi as (victim & _ & Hi). apply res_bind_Ok in Hi as (e & He & Hi).
  apply res_bind_Ok in Hi as (line & _ & Hi). apply res_bind_Ok in Hi as (l & _ & Hi). simpl in Hi.
  injection Hi as <- <- _. split; [done|]. destruct (isValid victim); [|by injection He as <-].
  apply res_bind_Ok in He as (e' & _ & He). by injection He as <-.
Qed.

(** The insertion of a line, without a controller. *)
Lemma insert_no_data cls c addr fill ev want :
  cache_wf cls c → settled c → no_data c → in_u64 addr → cache_map c !! tag_of c addr = None →
  class_fits ev cls = true →
  match insertSingleLine addr fill ev want None c with
  | Ok (ins, ea, c') =>
      cache_wf cls c' ∧ settled c' ∧ no_data c' ∧ c_base c' = c_base c ∧ evict_buff ins = None ∧
      tagToAddress (c_base c) (getTag (evict_block_info ins)) = Ok ea ∧
      ∃ old, cache_map c' = inserted old (new_line cls (tag_of c addr)) (cache_map c) ∧
             eviction ins = isValid old ∧
             (if isValid old then cache_map c !! getTag old = Some old ∧ base (evict_block_info ins) = base old
              else evict_block_info ins = ev)
  | Err e => ∃ msg, e = ErrLog msg
  end.
Proof.
  intros Hwf Hst Hnd Ha Hm Hfit.
  destruct (insert_cache cls c addr None ev want (λ _, false) Hwf Hst Ha Hm Hfit ltac:(done))
    as (ins & c' & old & ea & He & Hea & Hwf' & Hb' & Hst' & Hmap & Hev & Hold).
  destruct (split_cache cls c addr Hwf Ha) as (i & s & Hsp & Hlt & Hi & Hs & Hset & Has & Hbl & Ht & _ & _).
  destruct Hnd as [Hfi Hnd]. pose proof (Forall_lookup_1 _ _ _ _ Hnd Hs) as Hns. simpl in Hns.
  unfold insertSingleLine in *. rewrite Hsp in *. simpl in *.
  apply res_bind_Ok in He as (b & Hcb & He). rewrite Hcb. simpl.
  rewrite Hi, (proj2 (rd_Ok _ _ _) Hs) in *. simpl in *. rewrite insert_fill_none by done.
  destruct (insert_null (map_base (setTag (tag_of c addr)) b) None ev want (λ _, false) s (m_set_info c))
    as [->|[msg ->]]; [|simpl; eauto].
  apply res_bind_Ok in He as ([[ins0 s'] sh'] & Hins & He). rewrite Hins. simpl.
  destruct (insert_blocks_none _ _ _ _ _ _ _ _ _ _ Hns Hins) as [Hns' Heb].
  apply res_bind_Ok in He as (ea0 & Hea0 & He). rewrite Hea0, Hfi in *. simpl.
  apply res_bind_Ok in He as (c0 & Hp & [= -> -> ->]). rewrite Hp. simpl. do 2 (split; [done|]). split.
  - apply res_bind_Ok in Hp as (l & [_ ->]%wr_Ok & [= <-]). split; [done|]. simpl. by apply Forall_insert.
  - split; [done|]. split; [done|]. split; [done|]. by exists old.
Qed.

Lemma no_data_update c loc f c' : no_data c → updateBlock loc f c = Ok c' → no_data c'.
Proof.
  intros [Hfi Hnd] He. apply res_bind_Ok in He as (s & Hs%rd_Ok & He).
  apply res_bind_Ok in He as (b & _ & He). apply res_bind_Ok in He as (l & _ & He).
  apply res_bind_Ok in He as (sets & [_ ->]%wr_Ok & [= <-]). split; [done|]. simpl.
  apply Forall_insert; [done|]. by apply (Forall_lookup_1 _ _ _ _ Hnd Hs).
Qed.

(** ** The slice *)

(** The lines of a slice, by tag, have the class of an L1 cache. *)
Definition nuca_line : BlockInfo :=
  PrL1CacheBlockInfo (CacheBlockInfo_new INVALID_TAG CacheState.INVALID 0).

Definition nuca_wf n : Prop := cache_wf nuca_line (n_cache n) ∧ settled (n_cache n) ∧ no_data (n_cache n).
Definition nuca_map n : gmap Z BlockInfo := cache_map (n_cache n).
Definition nuca_tag n (a : Z) : Z := tag_of (n_cache n) a.

(** The access of [n_block_size] bytes leaves the line of the address. *)
Definition leaves_line n (a : Z) : Prop :=
  let bs := cb_blocksize (c_base (n_cache n)) in (bs < u32 (Z.land a (u32 (bs - 1)) + n_block_size n))%Z.

Lemma nuca_read_spec n a count :
  nuca_wf n → in_u64 a →
  match NucaCache_read a count n with
  | Ok (r, n') => nuca_wf n' ∧ nuca_map n' = nuca_map n ∧ (∀ b, nuca_tag n' b = nuca_tag n b) ∧
                  (is_Some r ↔ is_Some (nuca_map n !! nuca_tag n a))
  | Err e => e = ErrAssert ∧ leaves_line n a
  end.
Proof.
  intros (Hwf & Hst & Hnd) Ha. unfold NucaCache_read.
  destruct (peek_cache nuca_line (n_cache n) a Hwf Ha) as (r & -> & Hr). simpl. destruct r as [[i w]|].
  - destruct Hr as (b & _ & Hb & _).
    pose proof (access_no_data nuca_line (n_cache n) a (LOAD true) (n_block_size n) Hwf Hst Hnd Ha) as Hacc.
    destruct (accessSingleLine _ _ _ _ _) as [[[loc out] c']|e]; simpl; [|exact Hacc].
    destruct Hacc as (? & ? & ? & Hb' & Hmap & _). split; [done|]. split; [done|]. split.
    + intros x. unfold nuca_tag, tag_of. simpl. by rewrite Hb'.
    + unfold nuca_map, nuca_tag. rewrite Hb. by split; intros _; eexists.
  - simpl. split; [done|]. split; [done|]. split; [done|]. unfold nuca_map, nuca_tag. rewrite Hr. by split; intros [? ?].
Qed.

Lemma nuca_write_spec n a data loc count :
  nuca_wf n → in_u64 a →
  match NucaCache_write a data loc count n with
  | Ok (ev, ea, buf, n') =>
      nuca_wf n' ∧ (∀ b, nuca_tag n' b = nuca_tag n b) ∧
      match nuca_map n !! nuca_tag n a with
      | Some b => nuca_map n' = <[nuca_tag n a := map_base (setCState CacheState.MODIFIED) b]> (nuca_map n) ∧
                  ev = loc_eviction loc ∧ ea = loc_evict_address loc
      | None => ∃ old, nuca_map n' = inserted old (new_line nuca_line (nuca_tag n a)) (nuca_map n) ∧
                       (isValid old = true → nuca_map n !! getTag old = Some old ∧
                                             tagToAddress (c_base (n_cache n)) (getTag old) = Ok ea) ∧
                       ev = isValid old && bool_decide (getCState old = CacheState.MODIFIED)
      end
  | Err e => e = ErrAssert ∧ leaves_line n a ∨
             (∃ msg, e = ErrLog msg) ∧ nuca_map n !! nuca_tag n a = None ∧
             insertSingleLine a data nuca_line true None (n_cache n) = Err e
  end.
Proof.
  intros (Hwf & Hst & Hnd) Ha. unfold NucaCache_write.
  destruct (peek_cache nuca_line (n_cache n) a Hwf Ha) as (r & Hpk & Hr). rewrite Hpk. simpl. destruct r as [[i w]|].
  - destruct Hr as (b & _ & Hb & _).
    destruct (updateBlock_cache nuca_line (n_cache n) a i w b (setCState CacheState.MODIFIED) Hwf Ha Hpk Hb ltac:(done))
      as (c1 & Hu & Hwf1 & Hb1 & Hmap1 & Hst1). rewrite Hu. simpl.
    assert (Hnd1 : no_data c1) by (by eapply no_data_update).
    specialize (Hst1 Hst ltac:(by destruct b)).
    pose proof (access_no_data nuca_line c1 a (STORE data) (n_block_size n) Hwf1 Hst1 Hnd1 Ha) as Hacc.
    destruct (accessSingleLine _ _ _ _ _) as [[[l out] c']|e]; simpl; [|left; unfold leaves_line; by rewrite <- Hb1].
    destruct Hacc as (? & ? & ? & Hb' & Hmap & _). split; [done|]. split.
    + intros x. unfold nuca_tag, tag_of. simpl. by rewrite Hb', Hb1.
    + unfold nuca_map, nuca_tag. rewrite Hb. simpl. by rewrite Hmap.
  - pose proof (insert_no_data nuca_line (n_cache n) a data nuca_line true Hwf Hst Hnd Ha Hr eq_refl) as Hins.
    change (CacheBlockInfo_create PR_L1_CACHE) with (Ok nuca_line). cbn [res_bind].
    destruct (insertSingleLine _ _ _ _ _ _) as [[[ins ea] c']|e]; cbn [res_bind]; [|by right].
    destruct Hins as (? & ? & ? & Hb' & _ & Hea & old & Hmap & Hev & Hold). split; [done|]. split.
    + intros x. unfold nuca_tag, tag_of. simpl. by rewrite Hb'.
    + unfold nuca_map, nuca_tag. rewrite Hr. exists old. split; [done|]. rewrite Hev. destruct (isValid old) eqn:Hv.
      * destruct Hold as [Hm Hbase]. split; [intros _; split; [done|]; unfold getTag in *; by rewrite <- Hbase|].
        simpl. apply bool_decide_ext. unfold getCState. by rewrite Hbase.
      * done.
Qed.

Lemma nuca_read_triple a count :
  in_u64 a → triple nuca_wf (NucaCache_read a count) (λ _, nuca_wf).
Proof.
  intros Ha n Hn. pose proof (nuca_read_spec n a count Hn Ha) as Hs.
  destruct (NucaCache_read a count n) as [[r n']|e]; [by destruct Hs|by destruct Hs as [-> _]].
Qed.
Lemma nuca_write_triple a data loc count :
  in_u64 a → triple nuca_wf (NucaCache_write a data loc count) (λ _, nuca_wf).
Proof.
  intros Ha n Hn. pose proof (nuca_write_spec n a data loc count Hn Ha) as Hs.
  destruct (NucaCache_write a data loc count n) as [[[[ev ea] buf] n']|e]; [by destruct Hs|].
  destruct Hs as [[-> _]|[[msg ->] _]]; done.
Qed.

#[export] Instance Nuca_ok : NucaOk (NucaCache P) := {
  nuca_inv := nuca_wf;
  nuca_read_ok := nuca_read_triple;
  nuca_write_ok := nuca_write_triple
}.
End Facts.

(** ** A slice whose policy asks no controller *)

Definition asks_nobody (c : Cache AnyPolicy) : Prop := Forall (λ s, no_query (m_policy s)) (m_sets c).

Lemma put_set_quiet i s sh (c c' : Cache AnyPolicy) :
  asks_nobody c → no_query (m_policy s) → put_set i s sh c = Ok c' → asks_nobody c'.
Proof. intros Hc Hs (l & [_ ->]%wr_Ok & [= <-])%res_bind_Ok. by apply Forall_insert. Qed.

Lemma update_quiet w (s s' : CacheSet AnyPolicy) sh sh' :
  no_query (m_policy s) → update w s sh = Ok (s', sh') → no_query (m_policy s').
Proof. intros Hs (st' & Hu & [= <- _])%res_bind_Ok. by apply (upd_quiet _ _ (pol_state s sh) _ Hs Hu). Qed.

Lemma access_quiet c a acc bytes r :
  asks_nobody c → no_data c → accessSingleLine a acc bytes true c = Ok r → asks_nobody r.2.
Proof.
  intros Hc [Hfi Hnd]. unfold accessSingleLine. rewrite Hfi. intros ([[tag i] off] & _ & He)%res_bind_Ok.
  apply res_bind_Ok in He as (s & Hs%rd_Ok & He). apply res_bind_Ok in He as (w & _ & He).
  destruct w as [w|]; [|by injection He as <-].
  pose proof (Forall_lookup_1 _ _ _ _ Hc Hs) as Hq. pose proof (Forall_lookup_1 _ _ _ _ Hnd Hs) as Hn. simpl in Hq, Hn.
  destruct acc as [b|b]; cbn [res_bind fst snd] in He.
  - apply res_bind_Ok in He as ([[out s1] sh1] & Hr & He). apply res_bind_Ok in He as (c' & Hp & [= <-]).
    apply put_set_quiet in Hp; [exact Hp|exact Hc|].
    apply res_bind_Ok in Hr as (_ & _ & Hr). apply res_bind_Ok in Hr as (o & _ & Hr).
    apply res_bind_Ok in Hr as ([s2 sh2] & Hu & [= _ <- _]). by apply update_quiet in Hu.
  - apply res_bind_Ok in He as ([s1 sh1] & Hr & He). apply res_bind_Ok in He as (c' & Hp & [= <-]).
    apply put_set_quiet in Hp; [exact Hp|exact Hc|].
    apply res_bind_Ok in Hr as (_ & _ & Hr). apply res_bind_Ok in Hr as (s2 & Hw & Hu).
    rewrite Hn in Hw. apply update_quiet in Hu; [exact Hu|]. by destruct b; injection Hw as <-.
Qed.

Lemma insertSingleLine_fill_none c a fill ev want cntlr :
  no_data c → insertSingleLine a fill ev want cntlr c = insertSingleLine a None ev want cntlr c.
Proof.
  intros [Hfi Hnd]. unfold insertSingleLine. rewrite Hfi. apply res_bind_ext. intros ts. apply res_bind_ext. intros b.
  destruct (rd (m_sets c) (Z.to_nat ts.2)) as [s|e] eqn:Hs; cbn [res_bind]; [|reflexivity].
  apply rd_Ok in Hs. pose proof (Forall_lookup_1 _ _ _ _ Hnd Hs) as Hn. simpl in Hn. by rewrite insert_fill_none by done.
Qed.
Lemma insert_keeps_quiet c a fill ev want r :
  asks_nobody c → no_data c → insertSingleLine a fill ev want None c = Ok r → asks_nobody r.2.
Proof.
  intros Hc Hnd. rewrite insertSingleLine_fill_none by done. destruct Hnd as [Hfi _]. unfold insertSingleLine. rewrite Hfi.
  intros (ts & _ & He)%res_bind_Ok.
  apply res_bind_Ok in He as (b & _ & He). apply res_bind_Ok in He as (s & Hs%rd_Ok & He).
  apply res_bind_Ok in He as ([[ins s1] sh1] & Hi & He). apply res_bind_Ok in He as (ea & _ & He).
  apply res_bind_Ok in He as (c' & Hp & [= <-]). simpl. pose proof (Forall_lookup_1 _ _ _ _ Hc Hs) as Hq.
  eapply put_set_quiet; [| |exact Hp]; [exact Hc|]. unfold insert in Hi.
  apply res_bind_Ok in Hi as ([j st'] & Hg & Hi).
  apply (get_quiet _ _ (λ _, false) (pol_state s (m_set_info c)) Hq) in Hg.
  apply res_bind_Ok in Hi as (_ & _ & Hi). apply res_bind_Ok in Hi as (v & _ & Hi).
  apply res_bind_Ok in Hi as (e & _ & Hi). apply res_bind_Ok in Hi as (l & _ & Hi).
  apply res_bind_Ok in Hi as (l' & _ & Hi). simpl in Hi. by injection Hi as _ <- _.
Qed.
(** An insertion without a controller is one with a controller that agrees. *)
Lemma insert_quiet c a ev want :
  asks_nobody c →
  insertSingleLine a None ev want None c = insertSingleLine a None ev want (Some (λ _, false)) c.
Proof.
  intros Hc. unfold insertSingleLine. apply res_bind_ext. intros ts. apply res_bind_ext. intros b.
  destruct (rd (m_sets c) (Z.to_nat ts.2)) as [s|e] eqn:Hs; cbn [res_bind]; [|reflexivity].
  apply rd_Ok in Hs. pose proof (Forall_lookup_1 _ _ _ _ Hc Hs) as Hq. unfold insert, view.
  by rewrite (proj1 (get_quiet (m_associativity s) (m_cache_block_info_array s) (λ _, false)
                       (pol_state s (m_set_info c)) Hq)).
Qed.
Lemma insert_quiet_total cls c a fill ev want e :
  cache_wf cls c → settled c → no_data c → asks_nobody c → in_u64 a → cache_map c !! tag_of c a = None →
  class_fits ev cls = true → insertSingleLine a fill ev want None c ≠ Err e.
Proof.
  intros Hwf Hst Hnd Hq Ha Hno Hfit. rewrite insertSingleLine_fill_none, insert_quiet by done.
  destruct (insert_cache cls c a None ev want (λ _, false) Hwf Hst Ha Hno Hfit ltac:(done))
    as (? & ? & ? & ? & -> & _). done.
Qed.
Lemma updateBlock_quiet c loc f c' : asks_nobody c → updateBlock loc f c = Ok c' → asks_nobody c'.
Proof.
  intros Hc He. apply res_bind_Ok in He as (s & Hs%rd_Ok & He). apply res_bind_Ok in He as (b & _ & He).
  apply res_bind_Ok in He as (l & _ & Hp). apply (put_set_quiet _ _ _ _ _ Hc) in Hp; [done|].
  exact (Forall_lookup_1 _ _ _ _ Hc Hs).
Qed.
Lemma create_sets_quiet name policy cache_type assoc bs data cfg time n i sets :
  parsePolicyType name = Ok policy → getNumQBSAttempts policy cfg = 1 →
  create_sets name cache_type assoc bs data cfg time n i = Ok sets → Forall (λ s, no_query (m_policy s)) sets.
Proof.
  intros Hname Hone. revert i sets. induction n as [|n IH]; intros i sets; simpl; [by intros [= <-]|].
  intros (s & Hs & He)%res_bind_Ok. apply res_bind_Ok in He as (l & Hl & [= <-]).
  constructor; [|by eapply IH]. unfold createCacheSet in Hs. rewrite Hname in Hs. cbn [res_bind] in Hs.
  apply res_bind_Ok in Hs as (p & Hp & Hs). unfold CacheSet_new in Hs. apply res_bind_Ok in Hs as (lines & _ & [= <-]).
  simpl. destruct policy; simpl in Hp; try (injection Hp as <-; done).
  by apply res_bind_Ok in Hp as (q & _ & [= <-]).
Qed.

(** ** Construction *)

Lemma create_sets_no_data name cache_type assoc bs cfg time n i sets :
  create_sets name cache_type assoc bs false cfg time n i = Ok sets → Forall (λ s, m_blocks s = None) sets.
Proof.
  revert i sets. induction n as [|n IH]; intros i sets; simpl; [by intros [= <-]|].
  intros (s & Hs & He)%res_bind_Ok. apply res_bind_Ok in He as (l & Hl & [= <-]).
  constructor; [|by eapply IH]. unfold createCacheSet in Hs.
  apply res_bind_Ok in Hs as (policy & _ & Hs). apply res_bind_Ok in Hs as (p & _ & Hs).
  unfold CacheSet_new in Hs. by apply res_bind_Ok in Hs as (lines & _ & [= <-]).
Qed.

Lemma NucaCache_new_ok name policy num_sets assoc bs hash_name hash ahl cfg time base info :
  parsePolicyType name = Ok policy → createCacheSetInfo name assoc cfg = Ok info →
  cfg_ok policy assoc cfg → parseAddressHash hash_name = Ok hash →
  CacheBase_new num_sets assoc bs hash ahl = Ok base → cb_wf base → hash_ok base →
  0 < assoc ≤ 256 → (2 ≤ bs ∧ Z.of_nat assoc * bs < 2 ^ 32)%Z →
  ∃ n, NucaCache_new num_sets assoc bs name hash_name ahl cfg time = Ok n ∧ nuca_wf n ∧ nuca_map n = ∅.
Proof.
  intros Hparse Hinfo Hcfg Hhash Hbase Hcb Hh Has Hbs. unfold NucaCache_new. rewrite Hhash. simpl.
  destruct (Cache_new_ok name policy nuca_line num_sets assoc bs PR_L1_CACHE hash false None ahl cfg time base info)
    as (c & Hc & Hb & Hwf & Hst & Hm); [done..|by intros []|]. rewrite Hc. simpl. eexists. split; [done|].
  split; [|done]. split; [done|]. split; [done|]. unfold Cache_new in Hc.
  apply res_bind_Ok in Hc as (b' & _ & Hc). apply res_bind_Ok in Hc as (i' & _ & Hc).
  apply res_bind_Ok in Hc as (sets & Hsets & [= <-]). split; [done|]. by eapply create_sets_no_data.
Qed.

(** ** Runs of a slice *)

Inductive nuca_op : Type :=
| NucaRead (address : Z) (count : bool)
| NucaWrite (address : Z) (data_buf : option (list Z)) (loc : Locals) (count : bool).
(** A read says whether it hit; a write leaves [eviction] and [evict_address]. *)
Inductive nuca_out : Type :=
| ReadOut (hit : bool)
| WriteOut (eviction : bool) (evict_address : Z).

Definition nuca_step (op : nuca_op) : st (NucaCache AnyPolicy) nuca_out := λ n,
  match op with
  | NucaRead a count =>
      let? r := NucaCache_read a count n in Ok (ReadOut (bool_decide (is_Some r.1)), r.2)
  | NucaWrite a data loc count =>
      let? r := NucaCache_write a data loc count n in
      let '(ev, ea, _, n) := r in Ok (WriteOut ev ea, n)
  end.
Fixpoint nuca_run (ops : list nuca_op) : st (NucaCache AnyPolicy) (list nuca_out) := λ n,
  match ops with
  | [] => Ok ([], n)
  | op :: ops =>
      let? r := nuca_step op n in
      let? rs := nuca_run ops r.2 in Ok (r.1 :: rs.1, rs.2)
  end.

(** What the slice promises: a map from the numbers of lines to whether they are
    to be written back.  An absent line is written by adding it, clean, in the
    place of at most one other line; the caller is told to write that line back
    if it was dirty. *)
Inductive nuca_spec (bs : Z) : nuca_op → gmap Z bool → nuca_out → gmap Z bool → Prop :=
| spec_read a count m :
    nuca_spec bs (NucaRead a count) m (ReadOut (bool_decide (a / bs ∈ dom m)%Z)) m
| spec_write_present a data loc count m :
    (a / bs)%Z ∈ dom m →
    nuca_spec bs (NucaWrite a data loc count) m (WriteOut (loc_eviction loc) (loc_evict_address loc))
      (<[(a / bs)%Z := true]> m)
| spec_write_absent a data loc count m ea :
    (a / bs)%Z ∉ dom m →
    nuca_spec bs (NucaWrite a data loc count) m (WriteOut false ea) (<[(a / bs)%Z := false]> m)
| spec_write_replace a data loc count m victim dirty :
    (a / bs)%Z ∉ dom m → m !! victim = Some dirty →
    nuca_spec bs (NucaWrite a data loc count) m (WriteOut dirty (victim * bs)) (<[(a / bs)%Z := false]> (delete victim m)).
Inductive nuca_spec_run (bs : Z) : list nuca_op → gmap Z bool → list nuca_out → gmap Z bool → Prop :=
| spec_nil m : nuca_spec_run bs [] m [] m
| spec_cons op ops m1 o m2 os m3 :
    nuca_spec bs op m1 o m2 → nuca_spec_run bs ops m2 os m3 → nuca_spec_run bs (op :: ops) m1 (o :: os) m3.

Definition is_dirty (b : BlockInfo) : bool := bool_decide (getCState b = CacheState.MODIFIED).
Definition nuca_lines (n : NucaCache AnyPolicy) : gmap Z bool := is_dirty <$> nuca_map n.

(** The requests of the directory are the addresses of lines. *)
Definition line_aligned (bs : Z) (op : nuca_op) : Prop :=
  match op with NucaRead a _ | NucaWrite a _ _ _ => in_u64 a ∧ (a mod bs = 0)%Z end.

Record nuca_ready (p : Z) (n : NucaCache AnyPolicy) : Prop := {
  nr_wf : nuca_wf n;
  nr_quiet : asks_nobody (n_cache n);
  nr_block : n_block_size n = (2 ^ p)%Z;
  nr_base : cb_blocksize (c_base (n_cache n)) = (2 ^ p)%Z
}.

Lemma ready_tag p n a : (1 ≤ p < 31)%Z → nuca_ready p n → nuca_tag n a = (a / 2 ^ p)%Z.
Proof.
  intros Hp [[(Hcb & _) _] _ _ Hb]. destruct Hcb as (_ & _ & Hl & _).
  unfold nuca_tag, tag_of. by rewrite Hl, Hb, Z.log2_pow2 by lia.
Qed.
Lemma ready_inside p n a : (1 ≤ p < 31)%Z → nuca_ready p n → (a mod 2 ^ p = 0)%Z → ¬ leaves_line n a.
Proof.
  intros Hp [_ _ Hn Hb] Ha. unfold leaves_line. rewrite Hn, Hb.
  pose proof (Z.pow_lt_mono_r 2 p 31 ltac:(lia) ltac:(lia) ltac:(lia)). pose proof (Z.pow_pos_nonneg 2 p ltac:(lia) ltac:(lia)).
  rewrite (u32_id (2 ^ p - 1)) by (unfold in_u32; lia).
  replace (2 ^ p - 1)%Z with (Z.ones p) by (rewrite Z.ones_equiv; lia).
  rewrite Z.land_ones, Ha, Z.add_0_l, u32_id by (unfold in_u32; lia). lia.
Qed.
Lemma ready_address p n t b :
  (1 ≤ p < 31)%Z → nuca_ready p n → nuca_map n !! t = Some b → tagToAddress (c_base (n_cache n)) t = Ok (t * 2 ^ p)%Z.
Proof.
  intros Hp [[Hwf _] _ _ Hb] Ht. pose proof (cache_map_tag _ _ _ _ Hwf Ht) as Hok. destruct Hwf as (Hcb & _).
  rewrite tagToAddress_ok by done. destruct Hcb as (_ & _ & -> & _). by rewrite Hb, Z.log2_pow2 by lia.
Qed.
Lemma dom_lines n t : t ∈ dom (nuca_lines n) ↔ is_Some (nuca_map n !! t).
Proof. unfold nuca_lines. by rewrite dom_fmap_L, elem_of_dom. Qed.

Lemma read_ready p n a count r n' :
  nuca_ready p n → in_u64 a → NucaCache_read a count n = Ok (r, n') → nuca_ready p n'.
Proof.
  intros [Hwf Hq Hn Hb] Ha He. pose proof (nuca_read_spec n a count Hwf Ha) as Hs. rewrite He in Hs.
  destruct Hs as (Hwf' & _). unfold NucaCache_read in He. apply res_bind_Ok in He as (l & _ & He).
  destruct l as [l|]; [|injection He as _ <-; by constructor].
  apply res_bind_Ok in He as ([[hit out] c'] & Hacc & [= _ <-]).
  pose proof (access_no_data nuca_line (n_cache n) a (LOAD true) (n_block_size n) (proj1 Hwf) (proj1 (proj2 Hwf))
    (proj2 (proj2 Hwf)) Ha) as Hs. rewrite Hacc in Hs. destruct Hs as (_ & _ & _ & Hb' & _).
  apply access_quiet in Hacc; [|done|apply Hwf]. constructor; try done. simpl. by rewrite Hb'.
Qed.
Lemma write_ready p n a data loc count r n' :
  nuca_ready p n → in_u64 a → NucaCache_write a data loc count n = Ok (r, n') → nuca_ready p n'.
Proof.
  intros [Hwf Hq Hn Hb] Ha He. pose proof (nuca_write_spec n a data loc count Hwf Ha) as Hs. rewrite He in Hs.
  destruct r as [[ev ea] buf]. destruct Hs as (Hwf' & _). destruct Hwf as (Hwf & Hst & Hnd). unfold NucaCache_write in He.
  destruct (peek_cache nuca_line (n_cache n) a Hwf Ha) as (r & Hpk & Hr). rewrite Hpk in He. cbn [res_bind] in He.
  destruct r as [[i w]|].
  - destruct Hr as (b & _ & Hm & _). apply res_bind_Ok in He as (c1 & Hu & He).
    destruct (updateBlock_cache nuca_line (n_cache n) a i w b (setCState CacheState.MODIFIED) Hwf Ha Hpk Hm ltac:(done))
      as (c2 & Hu2 & Hwf1 & Hb1 & _ & Hst1). rewrite Hu in Hu2. injection Hu2 as <-.
    specialize (Hst1 Hst ltac:(by destruct b)). pose proof (no_data_update _ _ _ _ Hnd Hu) as Hnd1.
    apply (updateBlock_quiet _ _ _ _ Hq) in Hu.
    apply res_bind_Ok in He as ([[hit out] c'] & Hacc & [= _ _ _ <-]).
    pose proof (access_no_data nuca_line c1 a (STORE data) (n_block_size n) Hwf1 Hst1 Hnd1 Ha) as Hs. rewrite Hacc in Hs.
    destruct Hs as (_ & _ & _ & Hb' & _). apply access_quiet in Hacc; [|done..].
    constructor; try done. simpl. by rewrite Hb', Hb1.
  - change (CacheBlockInfo_create PR_L1_CACHE) with (Ok nuca_line) in He. cbn [res_bind] in He.
    apply res_bind_Ok in He as ([[ins ea'] c'] & Hins & [= _ _ _ <-]).
    pose proof (insert_no_data nuca_line (n_cache n) a data nuca_line true Hwf Hst Hnd Ha Hr eq_refl) as Hs.
    rewrite Hins in Hs. destruct Hs as (_ & _ & _ & Hb' & _). apply insert_keeps_quiet in Hins; [|done..].
    constructor; try done. simpl. by rewrite Hb'.
Qed.

Lemma read_step p n a count :
  (1 ≤ p < 31)%Z → nuca_ready p n → in_u64 a → (a mod 2 ^ p = 0)%Z →
  ∃ o n', nuca_step (NucaRead a count) n = Ok (o, n') ∧ nuca_ready p n' ∧
          nuca_spec (2 ^ p) (NucaRead a count) (nuca_lines n) o (nuca_lines n').
Proof.
  intros Hp Hn Ha Hal. pose proof (nuca_read_spec n a count (nr_wf _ _ Hn) Ha) as Hs. cbn [nuca_step].
  destruct (NucaCache_read a count n) as [[r n']|e] eqn:He; [|by destruct Hs as [_ []%(ready_inside p)]].
  destruct Hs as (_ & Hm & _ & Hiff). cbn [res_bind fst snd]. do 2 eexists. split; [reflexivity|].
  split; [by eapply read_ready|]. rewrite (ready_tag p n a Hp Hn), <- dom_lines in Hiff.
  rewrite (bool_decide_ext _ _ Hiff). replace (nuca_lines n') with (nuca_lines n) by (unfold nuca_lines; by rewrite Hm). apply spec_read.
Qed.
Lemma write_step p n a data loc count :
  (1 ≤ p < 31)%Z → nuca_ready p n → in_u64 a → (a mod 2 ^ p = 0)%Z →
  ∃ o n', nuca_step (NucaWrite a data loc count) n = Ok (o, n') ∧ nuca_ready p n' ∧
          nuca_spec (2 ^ p) (NucaWrite a data loc count) (nuca_lines n) o (nuca_lines n').
Proof.
  intros Hp Hn Ha Hal. pose proof (nuca_write_spec n a data loc count (nr_wf _ _ Hn) Ha) as Hs. cbn [nuca_step].
  rewrite (ready_tag p n a Hp Hn) in Hs.
  destruct (NucaCache_write a data loc count n) as [[[[ev ea] buf] n']|e] eqn:He.
  2:{ destruct Hs as [[_ []%(ready_inside p)]|(_ & Hno & Hi)]; [done..|exfalso].
      rewrite <- (ready_tag p n a Hp Hn) in Hno. destruct Hn as [(Hwf & Hst & Hnd) Hq ? ?].
      by eapply (insert_quiet_total nuca_line) in Hi. }
  destruct Hs as (_ & _ & Hs). cbn [res_bind]. do 2 eexists. split; [reflexivity|]. split; [by eapply write_ready|].
  pose proof (dom_lines n (a / 2 ^ p)) as Hdom. destruct (nuca_map n !! (a / 2 ^ p)%Z) as [b|] eqn:Hl.
  - destruct Hs as (Hm & -> & ->). change (nuca_lines n') with (is_dirty <$> nuca_map n'). rewrite Hm, fmap_insert.
    replace (is_dirty (map_base _ b)) with true by (by destruct b). apply spec_write_present, Hdom. by eexists.
  - destruct Hs as (old & Hm & Hold & ->). change (nuca_lines n') with (is_dirty <$> nuca_map n'). rewrite Hm. unfold inserted.
    rewrite fmap_insert, new_line_tag. replace (is_dirty (new_line nuca_line _)) with false by done.
    assert (Hno : (a / 2 ^ p)%Z ∉ dom (nuca_lines n)) by (intros [? ?]%Hdom; done).
    destruct (isValid old); [|by apply spec_write_absent]. destruct (Hold eq_refl) as [Hv Hea].
    rewrite (ready_address p n _ old Hp Hn Hv) in Hea. injection Hea as <-. rewrite fmap_delete.
    apply spec_write_replace; [done|]. unfold nuca_lines. by rewrite lookup_fmap, Hv.
Qed.
Lemma nuca_run_ok p ops n :
  (1 ≤ p < 31)%Z → nuca_ready p n → Forall (line_aligned (2 ^ p)) ops →
  ∃ os n', nuca_run ops n = Ok (os, n') ∧ nuca_spec_run (2 ^ p) ops (nuca_lines n) os (nuca_lines n').
Proof.
  intros Hp Hn Hops. revert n Hn. induction Hops as [|op ops Hop _ IH]; intros n Hn; cbn [nuca_run].
  { do 2 eexists. split; [reflexivity|constructor]. }
  assert (∃ o n', nuca_step op n = Ok (o, n') ∧ nuca_ready p n' ∧ nuca_spec (2 ^ p) op (nuca_lines n) o (nuca_lines n'))
    as (o & n1 & -> & Hn1 & Hs) by (destruct op, Hop; [by apply read_step|by apply write_step]).
  destruct (IH n1 Hn1) as (os & n2 & Hr & Hss). cbn [res_bind fst snd]. rewrite Hr. cbn [res_bind fst snd].
  do 2 eexists. split; [reflexivity|]. by econstructor.
Qed.

(** The configurations of a slice: a policy that asks no controller, a geometry
    that the hash function can deal with, and lines of [2 ^ p] bytes. *)
Record nuca_config (name hash_name : string) (num_sets : Z) (assoc : nat) (p : Z) (ahl : option AddressHomeLookup)
    (cfg : PolicyCfg) : Prop := {
  nc_policy : ∃ policy, parsePolicyType name = Ok policy ∧ cfg_ok policy assoc cfg ∧ getNumQBSAttempts policy cfg = 1;
  nc_base : ∃ hash base, parseAddressHash hash_name = Ok hash ∧
                         CacheBase_new num_sets assoc (2 ^ p) hash ahl = Ok base ∧ hash_ok base;
  nc_ahl : ∀ a, ahl = Some a → ahl_wf a ∧ m_cache_block_size a = (2 ^ p)%Z;
  nc_line : (1 ≤ p < 31)%Z;
  nc_sets : (0 < num_sets < 2 ^ 32)%Z;
  nc_ways : 0 < assoc ≤ 256;
  nc_set : (Z.of_nat assoc * 2 ^ p < 2 ^ 32)%Z
}.
Lemma NucaCache_new_ready name hash_name num_sets assoc p ahl cfg time :
  nuca_config name hash_name num_sets assoc p ahl cfg →
  ∃ n, NucaCache_new num_sets assoc (2 ^ p) name hash_name ahl cfg time = Ok n ∧ nuca_ready p n ∧ nuca_map n = ∅.
Proof.
  intros [(policy & Hname & Hcfg & Hone) (hash & base & Hhash & Hbase & Hok) Hahl Hp Hsets Hways Hset].
  pose proof (Z.pow_lt_mono_r 2 p 31 ltac:(lia) ltac:(lia) ltac:(lia)).
  pose proof (Z.pow_le_mono_r 2 1 p ltac:(lia) ltac:(lia)).
  destruct (CacheBase_new_wf num_sets assoc (2 ^ p) hash ahl base Hbase) as (Hcb & _ & Hbs & _); [lia|lia|done|].
  assert (∃ info, createCacheSetInfo name assoc cfg = Ok info) as [info Hinfo].
  { unfold createCacheSetInfo. rewrite Hname. destruct policy; by eexists. }
  destruct (NucaCache_new_ok name policy num_sets assoc (2 ^ p) hash_name hash ahl cfg time base info)
    as (n & Hn & Hwf & Hm); [done..|lia|].
  exists n. split; [done|]. split; [|done]. unfold NucaCache_new in Hn. rewrite Hhash in Hn. cbn [res_bind] in Hn.
  apply res_bind_Ok in Hn as (c & Hc & [= <-]). unfold Cache_new in Hc.
  apply res_bind_Ok in Hc as (b' & Hb' & Hc). apply res_bind_Ok in Hc as (i' & _ & Hc).
  apply res_bind_Ok in Hc as (sets & Hq & [= <-]). rewrite Hbase in Hb'. injection Hb' as <-.
  constructor; try done. by eapply create_sets_quiet in Hq.
Qed.

(** * Properties *)

Definition example_nuca : NucaCache AnyPolicy :=
  Eval vm_compute in
    match NucaCache_new 1 1 64 "lru" "mask" None (mkPolicyCfg 1 2 0) (λ _, 0%Z) with
    | Ok n => n
    | Err _ => mkNuca (mkCache (mkCacheBase 0 0 0 HASH_MASK 0 None 0 0) false 0 0 PR_L1_CACHE [] (mkShared None 0) None) 0 0 0 0 0
    end.

Lemma example_nuca_wf : nuca_wf example_nuca ∧ nuca_map example_nuca = ∅.
Proof.
  destruct (NucaCache_new_ok "lru" LRU_ 1 1 64 "mask" HASH_MASK None (mkPolicyCfg 1 2 0) (λ _, 0%Z)
    (mkCacheBase 64 1 64 HASH_MASK 1 None 6 0) (Some (CacheSetInfoLRU_new 1 1))) as (n & Hn & Hwf & Hm);
    [reflexivity|reflexivity|done|reflexivity|reflexivity| |done|lia|lia|].
  { by destruct (CacheBase_new_wf 1 1 64 HASH_MASK None _ eq_refl ltac:(lia) ltac:(lia) ltac:(done)). }
  vm_compute in Hn. injection Hn as Hn. unfold example_nuca. rewrite Hn. done.
Qed.

(** C18: the NUCA cache implements a map from lines to whether they are to be
    written back.  A new slice with a policy that asks no controller, lines of
    [2 ^ p] bytes and a geometry that its hash function can deal with answers
    every sequence of reads and writes of line addresses, without a failure: a
    read hits exactly the lines of the map and leaves it alone; a write of a
    present line makes it dirty and leaves the caller's [eviction] and
    [evict_address] as they were; a write of an absent line adds it, clean, and
    drops at most one other line, which is reported for write-back, with its
    address, exactly if it was dirty. *)
Theorem nuca_implements_map name hash_name num_sets assoc p ahl cfg time ops :
  nuca_config name hash_name num_sets assoc p ahl cfg → Forall (line_aligned (2 ^ p)) ops →
  ∃ n os n', NucaCache_new num_sets assoc (2 ^ p) name hash_name ahl cfg time = Ok n ∧
             nuca_run ops n = Ok (os, n') ∧ nuca_spec_run (2 ^ p) ops ∅ os (nuca_lines n').
Proof.
  intros Hc Hops. destruct (NucaCache_new_ready _ _ _ _ _ _ _ time Hc) as (n & Hn & Hr & Hm).
  destruct (nuca_run_ok p ops n (nc_line _ _ _ _ _ _ _ Hc) Hr Hops) as (os & n' & Hrun & Hs).
  exists n, os, n'. split; [done|]. split; [done|]. unfold nuca_lines at 1 in Hs. by rewrite Hm, fmap_empty in Hs.
Qed.

(** A slice of one line: the line 64 is written twice, so it is dirty when the
    line 128 takes its place. *)
Definition example_nuca_ops : list nuca_op :=
  [NucaWrite 4096 None (mkLocals false 0 []) true; NucaWrite 4096 None (mkLocals false 0 []) true;
   NucaRead 4096 true; NucaWrite 8192 None (mkLocals false 0 []) true; NucaRead 4096 true].
Lemma nuca_implements_map_witness :
  ∃ n os n', NucaCache_new 1 1 64 "lru" "mask" None (mkPolicyCfg 1 2 0) (λ _, 0%Z) = Ok n ∧
    nuca_run example_nuca_ops n = Ok (os, n') ∧ nuca_spec_run 64 example_nuca_ops ∅ os (nuca_lines n') ∧
    os = [WriteOut false (2 ^ 64 - 64); WriteOut false 0; ReadOut true; WriteOut true 4096; ReadOut false].
Proof.
  destruct (nuca_implements_map "lru" "mask" 1 1 6 None (mkPolicyCfg 1 2 0) (λ _, 0%Z) example_nuca_ops)
    as (n & os & n' & Hn & Hrun & Hs).
  - constructor; [by exists LRU_|by do 2 eexists|done|lia|lia|lia|lia].
  - repeat constructor; unfold in_u64; try lia; reflexivity.
  - exists n, os, n'. do 3 (split; [done|]). vm_compute in Hn. injection Hn as <-. vm_compute in Hrun. by injection Hrun as <- _.
Defined.

(** the NUCA cache loses data.  A line that a write added to the slice has
    no state, so if the next write evicts it the caller is not told to write
    it back: the written data reaches neither the slice nor the memory. *)
Theorem nuca_drops_single_writes (n n1 n2 : NucaCache AnyPolicy) a a' data data' loc loc' (count count' : bool)
    ev ea buf ev' ea' buf' :
  nuca_wf n → in_u64 a → in_u64 a' → nuca_map n !! nuca_tag n a = None →
  NucaCache_write a data loc count n = Ok (ev, ea, buf, n1) →
  nuca_map n1 !! nuca_tag n a' = None →
  NucaCache_write a' data' loc' count' n1 = Ok (ev', ea', buf', n2) →
  nuca_map n2 !! nuca_tag n a = None → ev' = false.
Proof.
  intros Hn Ha Ha' Hm Hw Hm1 Hw' Hm2.
  pose proof (nuca_write_spec n a data loc count Hn Ha) as Hs. rewrite Hw, Hm in Hs.
  destruct Hs as (Hn1 & Ht & old & Hmap1 & _ & _).
  pose proof (nuca_write_spec n1 a' data' loc' count' Hn1 Ha') as Hs. rewrite Hw', Ht, Hm1 in Hs.
  destruct Hs as (_ & _ & old' & Hmap2 & Hold' & ->).
  assert (Hl : nuca_map n1 !! nuca_tag n a = Some (new_line nuca_line (nuca_tag n a))).
  { rewrite Hmap1. unfold inserted. by rewrite new_line_tag, lookup_insert_eq. }
  rewrite Hmap2 in Hm2. unfold inserted in Hm2. rewrite new_line_tag in Hm2.
  apply lookup_insert_None in Hm2 as [Hm2 Hne]. destruct (isValid old') eqn:Hv; [|done]. simpl.
  apply lookup_delete_None in Hm2 as [Heq|?]; [|congruence]. destruct (Hold' eq_refl) as [Hold'' _]; clear Hold'.
  rewrite Heq, Hl in Hold''.
  assert (old' = new_line nuca_line (nuca_tag n a)) as -> by congruence. by rewrite new_line_state.
Qed.

Definition after_write (a : Z) (n : NucaCache AnyPolicy) : NucaCache AnyPolicy :=
  match NucaCache_write a None (mkLocals false 0 []) true n with Ok (_, _, _, n') => n' | Err _ => n end.

Lemma nuca_drops_single_writes_witness :
  nuca_map (after_write 8192 (after_write 4096 example_nuca)) !! nuca_tag example_nuca 4096 = None ∧
  (match NucaCache_write 8192 None (mkLocals true 0 []) true (after_write 4096 example_nuca) with
   | Ok (ev', _, _, _) => ev'
   | Err _ => true
   end) = false.
Proof.
  split; [by vm_compute|].
  eapply (nuca_drops_single_writes example_nuca (after_write 4096 example_nuca)
            (after_write 8192 (after_write 4096 example_nuca)) 4096 8192 None None
            (mkLocals false 0 []) (mkLocals true 0 []) true true);
    [apply example_nuca_wf|unfold in_u64; lia|unfold in_u64; lia|by vm_compute
    |vm_compute; reflexivity|by vm_compute|vm_compute; reflexivity|by vm_compute].
Defined.
