(* ===== verification/Tlb.v ===== *)
(** The translation look-aside buffers of a core
    (src/common/core/memory_subsystem/parametric_dram_directory_msi/tlb.{h,cc}
    and [MemoryManager::accessTLB]).

    A TLB is a cache of pages with an LRU policy, without a controller and
    without data.  The chain of a TLB and of what its [m_next_level] points to is
    a list; the instruction and the data TLB share the second level. *)
From S2P Require Import Prelude Utils CacheBlock LruPolicies OtherPolicies FaultInjection CacheSet PolicyKeeps Address CacheModel SubsecondTime Shmem CacheCntlr NucaCache.
Local Open Scope Z_scope.

Definition SIM_PAGE_SHIFT : Z := 12.
Definition SIM_PAGE_SIZE : Z := Z.shiftl 1 SIM_PAGE_SHIFT.

Record TLB : Type := mkTLB {
  tlb_size : Z;
  tlb_associativity : Z;
  tlb_cache : Cache AnyPolicy;
  tlb_access : Z;
  tlb_miss : Z
}.
Definition TLB_new (num_entries associativity : Z) (cfg : PolicyCfg) (time : nat → Z) : res TLB :=
  if associativity =? 0 then Err ErrUndefined else
  let? c := Cache_new (num_entries / associativity) (Z.to_nat associativity) SIM_PAGE_SIZE "lru" PR_L1_CACHE
              HASH_MASK false None None cfg time in
  log_assert (u32 (num_entries / associativity * associativity) =? num_entries) "Invalid TLB configuration";?
  Ok (mkTLB num_entries associativity c 0 0).
Definition set_tlb (c : Cache AnyPolicy) (access miss : Z) (t : TLB) : TLB :=
  mkTLB (tlb_size t) (tlb_associativity t) c access miss.

(** [evict_block_info] is a plain [CacheBlockInfo], whose [clone] is that of the
    class of an L1 line. *)
Definition no_block : BlockInfo := PrL1CacheBlockInfo (CacheBlockInfo_new INVALID_TAG CacheState.INVALID 0).

(** The evicted page goes to the next level, a victim cache. *)
Fixpoint tlb_allocate (address : Z) (l : list TLB) : res (list TLB) :=
  match l with
  | [] => Err ErrUndefined
  | t :: next =>
      let? r := insertSingleLine address None no_block false None (tlb_cache t) in
      let '(ins, evict_addr, c) := r in
      let t := set_tlb c (tlb_access t) (tlb_miss t) t in
      match next with
      | [] => Ok [t]
      | _ :: _ => if eviction ins then let? next := tlb_allocate evict_addr next in Ok (t :: next)
                  else Ok (t :: next)
      end
  end.
Fixpoint tlb_lookup (address : Z) (allocate_on_miss : bool) (l : list TLB) : res (bool * list TLB) :=
  match l with
  | [] => Err ErrUndefined
  | t :: next =>
      let? r := accessSingleLine address (LOAD false) 0 true (tlb_cache t) in
      let '(hit, _, c) := r in
      let access := u64 (tlb_access t + 1) in
      match hit with
      | Some _ => Ok (true, set_tlb c access (tlb_miss t) t :: next)
      | None =>
          let t := set_tlb c access (u64 (tlb_miss t + 1)) t in
          let? r := (match next with
                     | [] => Ok (false, [])
                     | _ :: _ => tlb_lookup address false next
                     end) in
          let? l := (if allocate_on_miss then tlb_allocate address (t :: r.2) else Ok (t :: r.2)) in
          Ok (r.1, l)
      end
  end.

(** The TLBs of a memory manager. *)
Record Tlbs : Type := mkTlbs { m_itlb : option TLB; m_dtlb : option TLB; m_stlb : option TLB }.
Inductive penalty : Type :=
| NoPenalty
| ElapsedTime (latency : Z)
| TLBMissInstruction (latency : Z) (is_ifetch : bool).
Inductive MemModeled : Type :=
| MEM_MODELED_NONE | MEM_MODELED_COUNT | MEM_MODELED_COUNT_TLBTIME | MEM_MODELED_TIME | MEM_MODELED_FENCED
| MEM_MODELED_RETURN.

(** A miss costs a page walk, in the shadow of the access or as an instruction
    of its own. *)
Definition tlb_penalty (ps : Periods) (tlb_miss_penalty : ComponentLatency) (parallel is_ifetch hit : bool)
    (modeled : MemModeled) : res penalty :=
  match hit, modeled with
  | true, _ | false, MEM_MODELED_NONE | false, MEM_MODELED_COUNT => Ok NoPenalty
  | false, _ =>
      let? l := cl_getLatency ps tlb_miss_penalty in
      Ok (if l =? Zero then NoPenalty else if parallel then ElapsedTime l else TLBMissInstruction l is_ifetch)
  end.

(** [accessTLB], as [coreInitiateMemoryAccess] calls it on an access of the
    first-level instruction ([is_ifetch]) or data cache. *)
Definition accessTLB (ps : Periods) (tlb_miss_penalty : ComponentLatency) (parallel : bool) (address : Z)
    (is_ifetch : bool) (modeled : MemModeled) : st Tlbs penalty := λ ts,
  match (if is_ifetch then m_itlb ts else m_dtlb ts) with
  | None => Ok (NoPenalty, ts)
  | Some t =>
      let? r := tlb_lookup address true (t :: option_list (m_stlb ts)) in
      let? p := tlb_penalty ps tlb_miss_penalty parallel is_ifetch r.1 modeled in
      let '(first, second) := (head r.2, head (tail r.2)) in
      Ok (p, if is_ifetch then mkTlbs first (m_dtlb ts) second else mkTlbs (m_itlb ts) first second)
  end.

(** * Facts *)

(** ** The cache of a TLB *)
Record tlb_cache_ok (c : Cache AnyPolicy) : Prop := {
  tc_wf : cache_wf nuca_line c;
  tc_settled : settled c;
  tc_no_data : no_data c;
  tc_plain : asks_nobody c;
  tc_page : cb_blocksize (c_base c) = SIM_PAGE_SIZE
}.
(** The number of the page of an address. *)
Definition page_of (a : Z) : Z := a / SIM_PAGE_SIZE.

Lemma tag_is_page c a : tlb_cache_ok c → tag_of c a = page_of a.
Proof.
  intros [Hwf _ _ _ Hp]. destruct Hwf as ((_ & _ & Hl & _) & _). unfold tag_of, page_of. by rewrite Hl, Hp.
Qed.
Lemma tlb_access_spec c a : tlb_cache_ok c → in_u64 a →
  ∃ hit c', accessSingleLine a (LOAD false) 0 true c = Ok (hit, None, c') ∧ tlb_cache_ok c' ∧
            cache_map c' = cache_map c ∧ (is_Some hit ↔ is_Some (cache_map c !! page_of a)).
Proof.
  intros Hok Ha. pose proof (tag_is_page c a Hok) as Htag. destruct Hok as [Hwf Hst Hnd Hpl Hpg].
  pose proof (access_no_data nuca_line c a (LOAD false) 0 Hwf Hst Hnd Ha) as Hacc.
  destruct (accessSingleLine a (LOAD false) 0 true c) as [[[hit out] c']|e] eqn:He.
  - destruct Hacc as (Hwf' & Hst' & Hnd' & Hb & Hm & -> & Hiff). rewrite Htag in Hiff.
    exists hit, c'. split; [done|]. split; [|done]. constructor; try done; [|by rewrite Hb].
    by apply (access_quiet c a (LOAD false) 0 _ Hpl Hnd He).
  - exfalso. destruct Hacc as [_ Hlt]. rewrite Hpg, Z.add_0_r in Hlt. change (u32 (SIM_PAGE_SIZE - 1)) with (Z.ones 12) in Hlt.
    unfold in_u64 in Ha. rewrite Z.land_ones in Hlt by lia. pose proof (Z.mod_pos_bound a (2 ^ 12) ltac:(lia)).
    rewrite u32_id in Hlt by (unfold in_u32; lia). change SIM_PAGE_SIZE with (2 ^ 12) in Hlt. lia.
Qed.
Lemma tlb_insert_spec c a : tlb_cache_ok c → in_u64 a → cache_map c !! page_of a = None →
  ∃ ins ea c' old, insertSingleLine a None no_block false None c = Ok (ins, ea, c') ∧ tlb_cache_ok c' ∧
    cache_map c' = inserted old (new_line nuca_line (page_of a)) (cache_map c) ∧ eviction ins = isValid old ∧
    (isValid old = true → cache_map c !! getTag old = Some old).
Proof.
  intros Hok Ha Hno. rewrite <- (tag_is_page c a Hok) in *. destruct Hok as [Hwf Hst Hnd Hpl Hpg].
  pose proof (insert_no_data nuca_line c a None no_block false Hwf Hst Hnd Ha Hno eq_refl) as Hins.
  destruct (insertSingleLine a None no_block false None c) as [[[ins ea] c']|e] eqn:He.
  - destruct Hins as (Hwf' & Hst' & Hnd' & Hb & _ & _ & old & Hm & Hev & Hold).
    exists ins, ea, c', old. split; [done|]. split; [constructor; try done; [|by rewrite Hb]|].
    + by apply (insert_keeps_quiet c a None no_block false _ Hpl Hnd He).
    + do 2 (split; [done|]). intros Hv. rewrite Hv in Hold. apply Hold.
  - by eapply (insert_quiet_total nuca_line) in He.
Qed.

(** * Properties *)

(** The pages of a TLB. *)
Definition pages (t : TLB) : gset Z := dom (cache_map (tlb_cache t)).

Lemma inserted_pages old p (m : gmap Z BlockInfo) :
  dom (inserted old (new_line nuca_line p) m) = {[p]} ∪ (if isValid old then dom m ∖ {[getTag old]} else dom m).
Proof. unfold inserted. rewrite dom_insert_L. destruct (isValid old); [by rewrite dom_delete_L|done]. Qed.

(** C31: a TLB without a second level is a set of pages.  A lookup never fails,
    hits exactly the pages of the set and counts; afterwards the page is in the
    set, so that the next lookup hits, and a miss drops at most one other page. *)
Theorem tlb_lookup_installs_page (t : TLB) a :
  tlb_cache_ok (tlb_cache t) → in_u64 a →
  ∃ t', tlb_lookup a true [t] = Ok (bool_decide (page_of a ∈ pages t), [t']) ∧ tlb_cache_ok (tlb_cache t') ∧
    tlb_access t' = u64 (tlb_access t + 1) ∧
    if bool_decide (page_of a ∈ pages t) then pages t' = pages t ∧ tlb_miss t' = tlb_miss t
    else tlb_miss t' = u64 (tlb_miss t + 1) ∧
         (pages t' = {[page_of a]} ∪ pages t ∨
          ∃ victim, victim ∈ pages t ∧ pages t' = {[page_of a]} ∪ (pages t ∖ {[victim]})).
Proof.
  intros Hok Ha. destruct (tlb_access_spec _ a Hok Ha) as (hit & c & Hacc & Hok1 & Hm & Hiff).
  cbn [tlb_lookup]. rewrite Hacc. cbn [res_bind]. unfold pages. rewrite <- elem_of_dom in Hiff.
  destruct hit as [hit|].
  - rewrite !bool_decide_true by (apply Hiff; by eexists). eexists. split; [done|]. simpl. by rewrite Hm.
  - assert (Hno : page_of a ∉ dom (cache_map (tlb_cache t))) by (intros Hin; by apply Hiff in Hin as [? ?]).
    rewrite !bool_decide_false by done. rewrite <- Hm in Hno. apply not_elem_of_dom in Hno.
    destruct (tlb_insert_spec c a Hok1 Ha Hno) as (ins & ea & c' & old & Hins & Hok2 & Hmap & _ & Hold).
    cbn [res_bind tlb_allocate fst snd]. change (tlb_cache (set_tlb c _ _ t)) with c. rewrite Hins. cbn [res_bind].
    eexists. split; [done|]. split; [done|]. split; [done|]. split; [done|]. simpl.
    rewrite Hmap, inserted_pages, Hm in *. destruct (isValid old) eqn:Hv; [right|by left].
    exists (getTag old). split; [|done]. apply elem_of_dom. eexists. by apply Hold.
Qed.

(** ** Construction *)
Lemma tlb_new_ok n assoc cfg time base info :
  0 < assoc ≤ 256 → 0 ≤ n < 2 ^ 32 → n / assoc * assoc = n →
  createCacheSetInfo "lru" (Z.to_nat assoc) cfg = Ok info → cfg_ok LRU_ (Z.to_nat assoc) cfg →
  CacheBase_new (n / assoc) (Z.to_nat assoc) SIM_PAGE_SIZE HASH_MASK None = Ok base → cb_wf base → hash_ok base →
  ∃ t, TLB_new n assoc cfg time = Ok t ∧ pages t = ∅ ∧ tlb_cache_ok (tlb_cache t).
Proof.
  intros Ha Hn Hmul Hinfo Hcfg Hbase Hcb Hh. unfold TLB_new. rewrite (proj2 (Z.eqb_neq assoc 0)) by lia.
  destruct (Cache_new_ok "lru" LRU_ nuca_line (n / assoc) (Z.to_nat assoc) SIM_PAGE_SIZE PR_L1_CACHE HASH_MASK false None
    None cfg time base info) as (c & Hc & Hb & Hwf & Hst & Hm);
    [done..|lia|change SIM_PAGE_SIZE with 4096; lia|by intros []|].
  rewrite Hc. cbn [res_bind]. rewrite Hmul, u32_id, Z.eqb_refl by done. cbn [log_assert res_bind].
  eexists. split; [done|]. split; [unfold pages; simpl; by rewrite Hm|]. simpl. unfold Cache_new in Hc.
  apply res_bind_Ok in Hc as (b' & Hb' & Hc). apply res_bind_Ok in Hc as (i' & _ & Hc).
  apply res_bind_Ok in Hc as (sets & Hsets & [= <-]). simpl in Hb. subst b'. constructor; try done.
  - split; [done|]. by eapply create_sets_no_data.
  - by eapply (create_sets_quiet "lru" LRU_) in Hsets.
  - simpl. apply res_bind_Ok in Hb' as (_ & _ & Hb'). by apply res_bind_Ok in Hb' as (_ & _ & [= <-]).
Qed.

Definition example_tlb (n : Z) : TLB :=
  match TLB_new n n (mkPolicyCfg 1 2 0) (λ _, 0%Z) with
  | Ok t => t
  | Err _ => mkTLB 0 0 (mkCache (mkCacheBase 0 0 0 HASH_MASK 0 None 0 0) false 0 0 PR_L1_CACHE [] (mkShared None 0) None) 0 0
  end.
Lemma example_tlb_ok : pages (example_tlb 1) = ∅ ∧ tlb_cache_ok (tlb_cache (example_tlb 1)).
Proof.
  destruct (tlb_new_ok 1 1 (mkPolicyCfg 1 2 0) (λ _, 0%Z) (mkCacheBase 4096 1 4096 HASH_MASK 1 None 12 0)
    (Some (CacheSetInfoLRU_new 1 1))) as (t & Ht & Hp & Hok); [lia|lia|done|done|done|done| |done|].
  { by destruct (CacheBase_new_wf 1 1 4096 HASH_MASK None _ eq_refl ltac:(lia) ltac:(lia) ltac:(done)). }
  unfold example_tlb. by rewrite Ht.
Qed.
Lemma tlb_lookup_installs_page_witness :
  ∃ t', tlb_lookup 4096 true [example_tlb 1] = Ok (false, [t']) ∧ pages t' = {[1]} ∧ tlb_miss t' = 1.
Proof.
  destruct example_tlb_ok as [Hp Hok].
  destruct (tlb_lookup_installs_page (example_tlb 1) 4096 Hok ltac:(done)) as (t' & Hl & _ & _ & Hm).
  rewrite Hp in Hl, Hm. exists t'. rewrite bool_decide_false in Hl, Hm by set_solver. split; [done|].
  destruct Hm as [Hmiss [Hpg|(v & Hv & _)]]; [|set_solver]. split; [by rewrite Hpg; set_solver|by rewrite Hmiss].
Defined.

(** With a second level, a page that was found there is allocated in the first
    level too, and when the first level evicts it the page is inserted in the
    second level once more: four lookups of two pages leave the first of them
    in two entries of a second level of four. *)
Definition run_lookups (l : list Z) (ts : list TLB) : res (list TLB) :=
  foldl (λ r a, let? ts := r in let? r := tlb_lookup a true ts in Ok r.2) (Ok ts) l.
Lemma second_level_holds_duplicates :
  ∃ t s, run_lookups [4096; 8192; 4096; 8192] [example_tlb 1; example_tlb 4] = Ok [t; s] ∧
    ((λ s, getTag <$> m_cache_block_info_array s) <$> m_sets (tlb_cache s)) = [[1; 2; 1; INVALID_TAG]].
Proof. vm_compute. do 2 eexists. split; reflexivity. Qed.
