(* ===== verification/DirectoryCntlr.v ===== *)
(** The directory controller:
    src/common/core/memory_subsystem/pr_l1_pr_l2_dram_directory_msi/dram_directory_cntlr.{h,cc}.

    The messages that the controller hands to the memory manager are a log of
    the object.  A request under way is the front of the queue of its address;
    the functions that process a request get its current value.  The functions
    call each other along the requests of a queue, so they are defined by
    recursion on fuel; the handlers of messages supply it from the length of
    the queue.  Timing is not part of the model. *)
From S2P Require Import Prelude Utils Address Directory Shmem.
Local Open Scope Z_scope.

(** CoherencyProtocol::type_t. *)
Inductive protocol_t : Type := MSI | MESI | MESIF.
#[export] Instance protocol_t_eq_dec : EqDecision protocol_t.
Proof. solve_decision. Defined.

Definition parseProtocol (protocol : string) : res protocol_t :=
  if bool_decide (protocol = "msi"%string) then Ok MSI
  else if bool_decide (protocol = "mesi"%string) then Ok MESI
  else if bool_decide (protocol = "mesif"%string) then Ok MESIF
  else Err (ErrLog "Invalid coherency protocol").

(** The index of a state in [evict]. *)
Definition dstate_index (d : dstate_t) : nat :=
  match d with UNCACHED => 0 | SHARED => 1 | OWNED => 2 | MODIFIED => 3 | EXCLUSIVE => 4 end.

(** [m_locals n] are the uninitialised variables of the [n]-th call that has
    any; [m_sent] holds the receiver of each message. *)
Record Cntlr (N : Type) : Type := mkCntlr {
  m_dram_directory_cache : DramDirectoryCache;
  m_dram_directory_req_queue_list : gmap Z (list ShmemReq);
  m_dram_controller_home_lookup : AddressHomeLookup;
  m_nuca_cache : option N;
  dc_core_id : Z;
  m_cache_block_size : Z;
  m_protocol : protocol_t;
  m_evict : list Z;
  m_forward : Z;
  m_forward_failed : Z;
  m_sent : list (Z * ShmemMsg);
  m_locals : nat → Locals;
  m_calls : nat
}.
Arguments mkCntlr {N} _ _ _ _ _ _ _ _ _ _ _ _ _.
Arguments m_dram_directory_cache {N} _.
Arguments m_dram_directory_req_queue_list {N} _.
Arguments m_dram_controller_home_lookup {N} _.
Arguments m_nuca_cache {N} _.
Arguments dc_core_id {N} _.
Arguments m_cache_block_size {N} _.
Arguments m_protocol {N} _.
Arguments m_evict {N} _.
Arguments m_forward {N} _.
Arguments m_forward_failed {N} _.
Arguments m_sent {N} _.
Arguments m_locals {N} _.
Arguments m_calls {N} _.

Section Cntlr.
Context {N : Type} `{NucaOps N}.

(** [evict[UNCACHED]] is not initialised: [evict0] is its value. *)
Definition Cntlr_new (core_id : Z) (ahl : AddressHomeLookup) (nuca : option N)
    (total_entries : Z) (associativity : nat) (cache_block_size max_num_sharers max_hw_sharers : Z)
    (directory_type_str protocol : string) (penalty garbage evict0 : Z) (ptrs : list Z)
    (locals : nat → Locals) : res (Cntlr N) :=
  let? c := DramDirectoryCache_new directory_type_str total_entries associativity cache_block_size
              max_hw_sharers max_num_sharers penalty garbage ptrs in
  let? p := parseProtocol protocol in
  Ok (mkCntlr c ∅ ahl nuca core_id cache_block_size p [evict0; 0; 0; 0; 0] 0 0 [] locals 0).

Definition put_ddc (c : DramDirectoryCache) (s : Cntlr N) : Cntlr N :=
  mkCntlr c (m_dram_directory_req_queue_list s) (m_dram_controller_home_lookup s) (m_nuca_cache s)
    (dc_core_id s) (m_cache_block_size s) (m_protocol s) (m_evict s) (m_forward s)
    (m_forward_failed s) (m_sent s) (m_locals s) (m_calls s).
Definition put_queues (q : gmap Z (list ShmemReq)) (s : Cntlr N) : Cntlr N :=
  mkCntlr (m_dram_directory_cache s) q (m_dram_controller_home_lookup s) (m_nuca_cache s)
    (dc_core_id s) (m_cache_block_size s) (m_protocol s) (m_evict s) (m_forward s)
    (m_forward_failed s) (m_sent s) (m_locals s) (m_calls s).
Definition put_nuca (n : option N) (s : Cntlr N) : Cntlr N :=
  mkCntlr (m_dram_directory_cache s) (m_dram_directory_req_queue_list s)
    (m_dram_controller_home_lookup s) n
    (dc_core_id s) (m_cache_block_size s) (m_protocol s) (m_evict s) (m_forward s)
    (m_forward_failed s) (m_sent s) (m_locals s) (m_calls s).
Definition put_counters (evict : list Z) (forward forward_failed : Z) (calls : nat) (s : Cntlr N) : Cntlr N :=
  mkCntlr (m_dram_directory_cache s) (m_dram_directory_req_queue_list s)
    (m_dram_controller_home_lookup s) (m_nuca_cache s)
    (dc_core_id s) (m_cache_block_size s) (m_protocol s) evict forward
    forward_failed (m_sent s) (m_locals s) calls.
Definition put_sent (l : list (Z * ShmemMsg)) (s : Cntlr N) : Cntlr N :=
  mkCntlr (m_dram_directory_cache s) (m_dram_directory_req_queue_list s)
    (m_dram_controller_home_lookup s) (m_nuca_cache s)
    (dc_core_id s) (m_cache_block_size s) (m_protocol s) (m_evict s) (m_forward s)
    (m_forward_failed s) l (m_locals s) (m_calls s).

Definition on_ddc {A} (m : st DramDirectoryCache A) : st (Cntlr N) A :=
  zoom m_dram_directory_cache put_ddc m.
Definition get_entry (p : ptr) : st (Cntlr N) DirectoryEntry := on_ddc (on_directory (deref p)).
Definition put_entry (p : ptr) (e : DirectoryEntry) : st (Cntlr N) unit :=
  on_ddc (on_directory (store p e)).
Definition qsize (a : Z) : st (Cntlr N) Z := gets (λ s, queue_size a (m_dram_directory_req_queue_list s)).
Definition qfront (a : Z) : st (Cntlr N) ShmemReq :=
  let! q := gets m_dram_directory_req_queue_list in lift (front a q).
Definition qenqueue (a : Z) (r : ShmemReq) : st (Cntlr N) unit :=
  modify (λ s, put_queues (enqueue a r (m_dram_directory_req_queue_list s)) s).
Definition qupdate (a : Z) (f : ShmemReq → ShmemReq) : st (Cntlr N) unit :=
  modify (λ s, put_queues (update_front a f (m_dram_directory_req_queue_list s)) s).
Definition fresh_locals : st (Cntlr N) Locals :=
  let! l := gets (λ s, m_locals s (m_calls s)) in
  modify (λ s, put_counters (m_evict s) (m_forward s) (m_forward_failed s) (S (m_calls s)) s);!
  ret l.

(** MemoryManager::sendMsg, up to the network. *)
Definition sendMsg (msg_type : msg_t) (receiver_mem_component : component_t)
    (requester receiver address : Z) (data_buf : option (list Z)) (data_length : Z) (w : where_t) :
    st (Cntlr N) unit :=
  lift (c_assert (Bool.eqb (bool_decide (data_buf = None)) (data_length =? 0)));!
  let m := setWhere w (ShmemMsg_new msg_type TAG_DIR receiver_mem_component requester address
                         data_buf data_length) in
  modify (λ s, put_sent (m_sent s ++ [(receiver, m)]) s).

Definition sendDataToNUCA (address requester : Z) (data_buf : option (list Z)) (count : bool) :
    st (Cntlr N) unit :=
  let! n := gets m_nuca_cache in
  match n with
  | None => ret tt
  | Some n =>
      let! loc := fresh_locals in
      let! r := lift (nuca_write address data_buf loc count n) in
      modify (put_nuca (Some r.2));!
      let '(eviction, evict_address, evict_buf) := r.1 in
      if eviction : bool then
        let! ahl := gets m_dram_controller_home_lookup in
        let! dram_node := lift (getHome ahl evict_address) in
        let! core := gets dc_core_id in
        let! bs := gets m_cache_block_size in
        sendMsg DRAM_WRITE_REQ DRAM_COMPONENT core dram_node evict_address (Some evict_buf) bs UNKNOWN
      else ret tt
  end.

Definition sendDataToDram (address requester : Z) (data_buf : option (list Z)) : st (Cntlr N) unit :=
  let! n := gets m_nuca_cache in
  match n with
  | Some _ => sendDataToNUCA address requester data_buf true
  | None =>
      let! ahl := gets m_dram_controller_home_lookup in
      let! dram_node := lift (getHome ahl address) in
      let! bs := gets m_cache_block_size in
      sendMsg DRAM_WRITE_REQ DRAM_COMPONENT requester dram_node address data_buf bs UNKNOWN
  end.

(** The loop of [processDirectoryEntryAllocationReq]: the first candidate with
    the fewest sharers whose queue is empty. *)
Fixpoint pick_candidate (l : list ptr) (best : option DirectoryEntry) :
    st (Cntlr N) (option DirectoryEntry) :=
  match l with
  | [] => ret best
  | p :: l =>
      let! e := get_entry p in
      let! size := qsize (m_address e) in
      let better := match best with None => true | Some b => getNumSharers e <? getNumSharers b end in
      pick_candidate l (if better && (size =? 0) then Some e else best)
  end.

(** [cached_data_buf == NULL]. *)
Definition is_null (b : option (list Z)) : bool := match b with None => true | Some _ => false end.

(** The invalidations of all sharers but [requester] that an upgrade sends. *)
Fixpoint upgrade_invalidations (i : nat) (requesterHasCopy : bool) (requester address : Z) (l : list Z) :
    st (Cntlr N) unit :=
  match l with
  | [] => ret tt
  | x :: l =>
      (if x =? requester then ret tt
       else sendMsg (if negb requesterHasCopy && Nat.eqb i 0 then FLUSH_REQ else INV_REQ) L2_CACHE
              requester x address None 0 UNKNOWN);!
      upgrade_invalidations (S i) requesterHasCopy requester address l
  end.

Definition send_invalidations (requester address : Z) (l : list Z) : st (Cntlr N) unit :=
  forM_ l (λ x, sendMsg INV_REQ L2_CACHE requester x address None 0 UNKNOWN).

(** The first sharer owns the line in state [d]. *)
Definition first_sharer (requester max_hw : Z) (d : dstate_t) (e : DirectoryEntry) : res DirectoryEntry :=
  let? r := addSharer requester max_hw e in
  c_assert r.1;?
  let? e := setOwner requester r.2 in
  Ok (setDState d e).

Definition max_hw_sharers : st (Cntlr N) Z := gets (λ s, getMaxHwSharers (m_dram_directory_cache s)).

Definition count_forward (failed : bool) : st (Cntlr N) unit :=
  modify (λ s, put_counters (m_evict s) (u64 (m_forward s + 1))
                 (if failed then u64 (m_forward_failed s + 1) else m_forward_failed s) (m_calls s) s).

Definition count_evict (d : dstate_t) : st (Cntlr N) unit :=
  let! l := gets m_evict in
  let! x := lift (rd l (dstate_index d)) in
  let! l := lift (wr l (dstate_index d) (u64 (x + 1))) in
  modify (λ s, put_counters l (m_forward s) (m_forward_failed s) (m_calls s) s).

(** ** Processing of requests

    The functions that process requests call each other; [Calls] are the
    functions that they call. *)
Record Calls : Type := mkCalls {
  call_next : Z → st (Cntlr N) unit;
  call_alloc : ShmemReq → st (Cntlr N) ptr;
  call_nullify : ShmemReq → st (Cntlr N) unit;
  call_ex : ShmemReq → option (list Z) → st (Cntlr N) unit;
  call_sh : ShmemReq → option (list Z) → st (Cntlr N) unit;
  call_upgrade : ShmemReq → option (list Z) → st (Cntlr N) unit;
  call_retrieve : msg_t → Z → Z → option (list Z) → st (Cntlr N) unit
}.

Definition processNextReqFromL2Cache (k : Calls) (address : Z) : st (Cntlr N) unit :=
  let! size := qsize address in
  lift (c_assert (1 <=? size));!
  let! q := gets m_dram_directory_req_queue_list in
  let! r := lift (dequeue address q) in
  modify (put_queues r.2);!
  if queue_empty address r.2 then ret tt else
  let! shmem_req := qfront address in
  match req_type shmem_req with
  | EX_REQ => call_ex k shmem_req None
  | SH_REQ => call_sh k shmem_req None
  | UPGRADE_REQ => call_upgrade k shmem_req None
  | _ => fail (ErrLog "Unrecognized Request")
  end.

Definition processDirectoryEntryAllocationReq (k : Calls) (shmem_req : ShmemReq) :
    st (Cntlr N) ptr :=
  let address := req_address shmem_req in
  let requester := req_requester shmem_req in
  let! l := on_ddc (getReplacementCandidates address) in
  let! candidate := pick_candidate l None in
  match candidate with
  | None => fail (ErrLog "Cannot find a directory entry to be replaced with a non-zero request list")
  | Some e =>
      count_evict (m_dstate e);!
      let replaced_address := m_address e in
      let! directory_entry := on_ddc (replaceDirectoryEntry replaced_address address) in
      let nullify_msg := ShmemMsg_new NULLIFY_REQ TAG_DIR TAG_DIR requester replaced_address None 0 in
      let! nullify_req := lift (ShmemReq_new nullify_msg) in
      qenqueue replaced_address nullify_req;!
      let! size := qsize replaced_address in
      lift (c_assert (size =? 1));!
      call_nullify k nullify_req;!
      ret directory_entry
  end.

Definition processNullifyReq (k : Calls) (shmem_req : ShmemReq) : st (Cntlr N) unit :=
  let address := req_address shmem_req in
  let requester := req_requester shmem_req in
  let! p := on_ddc (getDirectoryEntry address) in
  match p with
  | None => fail ErrAssert
  | Some p =>
      let! e := get_entry p in
      match m_dstate e with
      | EXCLUSIVE | MODIFIED =>
          sendMsg FLUSH_REQ L2_CACHE requester (m_owner_id e) address None 0 UNKNOWN
      | SHARED => send_invalidations requester address (getSharersList e)
      | UNCACHED =>
          on_ddc (invalidateDirectoryEntry address);!
          call_next k address
      | OWNED => fail (ErrLog "Unsupported Directory State")
      end
  end.

Definition processExReqFromL2Cache (k : Calls) (shmem_req : ShmemReq) (cached_data_buf : option (list Z)) : st (Cntlr N) unit :=
  let address := req_address shmem_req in
  let requester := req_requester shmem_req in
  let! p := on_ddc (getDirectoryEntry address) in
  let! p := match p with
            | Some p => ret p
            | None => call_alloc k shmem_req
            end in
  let! e := get_entry p in
  match m_dstate e with
  | EXCLUSIVE | MODIFIED =>
      lift (c_assert (is_null cached_data_buf));!
      sendMsg FLUSH_REQ L2_CACHE requester (m_owner_id e) address None 0 UNKNOWN
  | SHARED =>
      lift (c_assert (is_null cached_data_buf));!
      send_invalidations requester address (getSharersList e)
  | UNCACHED =>
      let! max_hw := max_hw_sharers in
      let! e := lift (first_sharer requester max_hw MODIFIED e) in
      put_entry p e;!
      call_retrieve k EX_REP requester address cached_data_buf
  | OWNED => fail (ErrLog "Unsupported Directory State")
  end.

Definition processShReqFromL2Cache (k : Calls) (shmem_req : ShmemReq) (cached_data_buf : option (list Z)) : st (Cntlr N) unit :=
  let address := req_address shmem_req in
  let requester := req_requester shmem_req in
  let! p := on_ddc (getDirectoryEntry address) in
  let! p := match p with
            | Some p => ret p
            | None => call_alloc k shmem_req
            end in
  let! e := get_entry p in
  match m_dstate e with
  | EXCLUSIVE =>
      lift (c_assert (negb (requester =? m_owner_id e)));!
      lift (c_assert (is_null cached_data_buf));!
      sendMsg WB_REQ L2_CACHE requester (m_owner_id e) address None 0 UNKNOWN
  | MODIFIED =>
      lift (c_assert (is_null cached_data_buf));!
      sendMsg WB_REQ L2_CACHE requester (m_owner_id e) address None 0 UNKNOWN
  | SHARED =>
      let! has := lift (hasSharer e requester) in
      if has : bool then
        count_forward (is_null cached_data_buf);!
        call_retrieve k SH_REP requester address cached_data_buf
      else
        let! max_hw := max_hw_sharers in
        let! r := lift (addSharer requester max_hw e) in
        if r.1 : bool then
          put_entry p r.2;!
          call_retrieve k SH_REP requester address cached_data_buf
        else
          let! o := lift (getOneSharer r.2) in
          put_entry p o.2;!
          sendMsg INV_REQ L2_CACHE requester o.1 address None 0 UNKNOWN
  | UNCACHED =>
      let! max_hw := max_hw_sharers in
      let! protocol := gets m_protocol in
      match protocol with
      | MSI =>
          let! e := lift (first_sharer requester max_hw SHARED e) in
          put_entry p e;!
          call_retrieve k SH_REP requester address cached_data_buf
      | _ =>
          let! e := lift (first_sharer requester max_hw EXCLUSIVE e) in
          put_entry p e;!
          call_retrieve k EX_REP requester address cached_data_buf
      end
  | OWNED => fail (ErrLog "Unsupported Directory State")
  end.

Definition processUpgradeReqFromL2Cache (k : Calls) (shmem_req : ShmemReq) (cached_data_buf : option (list Z)) : st (Cntlr N) unit :=
  let shmem_msg := m_shmem_msg shmem_req in
  let address := sm_address shmem_msg in
  let requester := sm_requester shmem_msg in
  let! p := on_ddc (getDirectoryEntry address) in
  let! p := match p with
            | Some p => ret p
            | None => call_alloc k shmem_req
            end in
  let! e := get_entry p in
  let sharers := getSharersList e in
  match m_dstate e with
  | EXCLUSIVE | MODIFIED =>
      let! first := lift (rd sharers 0) in
      if first =? requester then
        lift (c_assert (m_owner_id e =? requester));!
        sendMsg UPGRADE_REP L2_CACHE requester requester address None 0 UNKNOWN;!
        put_entry p (setDState MODIFIED e);!
        call_next k address
      else
        sendMsg FLUSH_REQ L2_CACHE requester (m_owner_id e) address None 0 UNKNOWN
  | SHARED =>
      if bool_decide (sharers = [requester]) then
        let! e := lift (setOwner requester e) in
        put_entry p (setDState MODIFIED e);!
        sendMsg UPGRADE_REP L2_CACHE requester requester address None 0 UNKNOWN;!
        call_next k address
      else
        let! requesterHasCopy := lift (hasSharer e requester) in
        upgrade_invalidations 0 requesterHasCopy requester address sharers
  | UNCACHED =>
      lift (c_assert (bool_decide (sharers = [])));!
      let! max_hw := max_hw_sharers in
      let! e := lift (first_sharer requester max_hw MODIFIED e) in
      put_entry p e;!
      let buf := match cached_data_buf with None => sm_data_buf shmem_msg | Some _ => cached_data_buf end in
      call_retrieve k EX_REP requester address buf
  | OWNED => fail (ErrLog "Unsupported Directory State")
  end.

Definition retrieveDataAndSendToL2Cache (k : Calls) (reply_msg_type : msg_t) (receiver address : Z)
    (cached_data_buf : option (list Z)) : st (Cntlr N) unit :=
  let! p := on_ddc (getDirectoryEntry address) in
  match p with
  | None => fail ErrAssert
  | Some p =>
      let! e := get_entry p in
      let! bs := gets m_cache_block_size in
      match cached_data_buf with
      | Some data =>
          put_entry p (setForwarder receiver e);!
          sendMsg reply_msg_type L2_CACHE receiver receiver address (Some data) bs CACHE_REMOTE;!
          call_next k address
      | None =>
          let! n := gets m_nuca_cache in
          let! hit :=
            match n with
            | None => ret None
            | Some n =>
                let! loc := fresh_locals in
                let! r := lift (nuca_read address true n) in
                modify (put_nuca (Some r.2));!
                ret ((λ out, default (loc_buf loc) out) <$> r.1)
            end in
          match hit with
          | Some nuca_data_buf =>
              sendMsg reply_msg_type L2_CACHE receiver receiver address (Some nuca_data_buf) bs NUCA_CACHE;!
              call_next k address
          | None =>
              let! size := qsize address in
              lift (c_assert (0 <? size));!
              let! shmem_req := qfront address in
              let! protocol := gets m_protocol in
              if bool_decide (protocol = MESIF) && (m_forwarding_from shmem_req =? INVALID_CORE_ID)
                 && bool_decide (m_dstate e = SHARED) && negb (m_forwarder_id e =? INVALID_CORE_ID)
              then
                let forwarder := m_forwarder_id e in
                qupdate address (setForwardingFrom forwarder);!
                sendMsg WB_REQ L2_CACHE receiver forwarder address None 0 UNKNOWN
              else
                qupdate address (setWaitForData true);!
                let! ahl := gets m_dram_controller_home_lookup in
                let! dram_node := lift (getHome ahl address) in
                sendMsg DRAM_READ_REQ DRAM_COMPONENT receiver dram_node address None 0 UNKNOWN
          end
      end
  end.

(** The functions, with a bound on the depth of their calls. *)
Fixpoint calls (fuel : nat) : Calls :=
  match fuel with
  | O => mkCalls (λ _, fail ErrFuel) (λ _, fail ErrFuel) (λ _, fail ErrFuel) (λ _ _, fail ErrFuel)
           (λ _ _, fail ErrFuel) (λ _ _, fail ErrFuel) (λ _ _ _ _, fail ErrFuel)
  | S fuel =>
      let k := calls fuel in
      mkCalls (processNextReqFromL2Cache k) (processDirectoryEntryAllocationReq k) (processNullifyReq k)
        (processExReqFromL2Cache k) (processShReqFromL2Cache k) (processUpgradeReqFromL2Cache k)
        (retrieveDataAndSendToL2Cache k)
  end.

(** ** Messages

    The queue of an address bounds the calls that a message starts: a request
    of the queue takes three calls, the replacement of an entry four more. *)
Definition calls_for (address : Z) : st (Cntlr N) Calls :=
  gets (λ s, calls (3 * length (queue_of address (m_dram_directory_req_queue_list s)) + 8)).

Definition processDRAMReply (sender : Z) (shmem_msg : ShmemMsg) : st (Cntlr N) unit :=
  let address := sm_address shmem_msg in
  let! size := qsize address in
  lift (c_assert (1 <=? size));!
  let! shmem_req := qfront address in
  let! p := on_ddc (getDirectoryEntry address) in
  match p with
  | None => fail ErrAssert
  | Some p =>
      let! e := get_entry p in
      let curr_dstate := m_dstate e in
      let! reply_msg_type :=
        match req_type shmem_req with
        | SH_REQ =>
            match curr_dstate with
            | EXCLUSIVE => ret EX_REP
            | SHARED => ret SH_REP
            | _ => fail ErrAssert
            end
        | EX_REQ => lift (c_assert (bool_decide (curr_dstate = MODIFIED)));! ret EX_REP
        | UPGRADE_REQ => ret EX_REP
        | _ => fail (ErrLog "Unsupported request type")
        end in
      let! hit_where := lift (getWhere shmem_msg) in
      let hit_where :=
        match hit_where with
        | DRAM => if sender =? sm_requester shmem_msg then DRAM_LOCAL else DRAM_REMOTE
        | w => w
        end in
      let! bs := gets m_cache_block_size in
      sendMsg reply_msg_type L2_CACHE (req_requester shmem_req) (req_requester shmem_req) address
        (sm_data_buf shmem_msg) bs hit_where;!
      sendDataToNUCA address (req_requester shmem_req) (sm_data_buf shmem_msg) false;!
      let! k := calls_for address in
      processNextReqFromL2Cache k address
  end.

Definition processInvRepFromL2Cache (sender : Z) (shmem_msg : ShmemMsg) : st (Cntlr N) unit :=
  let address := sm_address shmem_msg in
  let! p := on_ddc (getDirectoryEntry address) in
  match p with
  | None => fail ErrAssert
  | Some p =>
      let! e := get_entry p in
      lift (log_assert (bool_decide (m_dstate e = SHARED ∨ m_dstate e = EXCLUSIVE)) "Ooops");!
      let! e := lift (removeSharer sender false e) in
      let e := if m_forwarder_id e =? sender then setForwarder INVALID_CORE_ID e else e in
      let e := if getNumSharers e =? 0 then setDState UNCACHED e else e in
      put_entry p e;!
      let! size := qsize address in
      if 0 <? size then
        let! shmem_req := qfront address in
        let! k := calls_for address in
        match req_type shmem_req with
        | EX_REQ =>
            if bool_decide (m_dstate e = UNCACHED) then processExReqFromL2Cache k shmem_req None
            else ret tt
        | UPGRADE_REQ =>
            if getNumSharers e =? 1 then
              let! has := lift (hasSharer e (req_requester shmem_req)) in
              if has : bool then processUpgradeReqFromL2Cache k shmem_req None else ret tt
            else if getNumSharers e =? 0 then
              put_entry p (setDState UNCACHED e);!
              processUpgradeReqFromL2Cache k shmem_req None
            else ret tt
        | SH_REQ =>
            if m_wait_for_data shmem_req then ret tt
            else if isForwarding shmem_req && negb (sender =? m_forwarding_from shmem_req) then ret tt
            else processShReqFromL2Cache k shmem_req None
        | _ =>
            if bool_decide (m_dstate e = UNCACHED) then processNullifyReq k shmem_req else ret tt
        end
      else ret tt
  end.

(** The stored data buffer of an upgrade is the buffer of the message. *)
Definition processFlushRepFromL2Cache (sender : Z) (shmem_msg : ShmemMsg) : st (Cntlr N) unit :=
  let address := sm_address shmem_msg in
  let! p := on_ddc (getDirectoryEntry address) in
  match p with
  | None => fail ErrAssert
  | Some p =>
      let! e := get_entry p in
      let! has := lift (hasSharer e sender) in
      lift (c_assert has);!
      let! e := lift (removeSharer sender false e) in
      let! e := lift (setOwner INVALID_CORE_ID (setForwarder INVALID_CORE_ID e)) in
      let! e := if getNumSharers e =? 0 then ret (setDState UNCACHED e)
                else lift (c_assert (bool_decide (m_dstate e = SHARED)));! ret e in
      put_entry p e;!
      let! size := qsize address in
      if negb (size =? 0) then
        let! shmem_req := qfront address in
        let! k := calls_for address in
        match req_type shmem_req with
        | EX_REQ => processExReqFromL2Cache k shmem_req (sm_data_buf shmem_msg)
        | SH_REQ =>
            sendDataToDram address (sm_requester shmem_msg) (sm_data_buf shmem_msg);!
            processShReqFromL2Cache k shmem_req (sm_data_buf shmem_msg)
        | UPGRADE_REQ =>
            if getNumSharers e =? 0 then
              put_entry p (setDState UNCACHED e);!
              processUpgradeReqFromL2Cache k shmem_req (sm_data_buf shmem_msg)
            else
              qupdate address (λ r, setMsg (setDataBuf (sm_data_buf shmem_msg) (m_shmem_msg r)) r)
        | _ =>
            sendDataToDram address (sm_requester shmem_msg) (sm_data_buf shmem_msg);!
            processNullifyReq k shmem_req
        end
      else sendDataToDram address (sm_requester shmem_msg) (sm_data_buf shmem_msg)
  end.

Definition processWbRepFromL2Cache (sender : Z) (shmem_msg : ShmemMsg) : st (Cntlr N) unit :=
  let address := sm_address shmem_msg in
  let! p := on_ddc (getDirectoryEntry address) in
  match p with
  | None => fail ErrAssert
  | Some p =>
      let! e := get_entry p in
      let! has := lift (hasSharer e sender) in
      lift (c_assert has);!
      let! e := lift (setOwner INVALID_CORE_ID e) in
      put_entry p (setDState SHARED e);!
      let! size := qsize address in
      if negb (size =? 0) then
        let! shmem_req := qfront address in
        lift (log_assert (bool_decide (req_type shmem_req = SH_REQ)) "Address, Req");!
        let! k := calls_for address in
        processShReqFromL2Cache k shmem_req (sm_data_buf shmem_msg)
      else fail (ErrLog "Should not reach here")
  end.

(** A request joins the queue of its address and is processed at once if it is
    the only one. *)
Definition handle_request (shmem_msg : ShmemMsg)
    (process : Calls → ShmemReq → option (list Z) → st (Cntlr N) unit) : st (Cntlr N) unit :=
  let address := sm_address shmem_msg in
  let! shmem_req := lift (ShmemReq_new shmem_msg) in
  qenqueue address shmem_req;!
  let! size := qsize address in
  if size =? 1 then
    let! k := calls_for address in
    process k shmem_req None
  else ret tt.

Definition handleMsgFromL2Cache (sender : Z) (shmem_msg : ShmemMsg) : st (Cntlr N) unit :=
  let! _ := on_ddc (getDirectoryEntry (sm_address shmem_msg)) in
  match sm_msg_type shmem_msg with
  | EX_REQ => handle_request shmem_msg processExReqFromL2Cache
  | SH_REQ => handle_request shmem_msg processShReqFromL2Cache
  | UPGRADE_REQ => handle_request shmem_msg processUpgradeReqFromL2Cache
  | INV_REP => processInvRepFromL2Cache sender shmem_msg
  | FLUSH_REP => processFlushRepFromL2Cache sender shmem_msg
  | WB_REP => processWbRepFromL2Cache sender shmem_msg
  | _ => fail (ErrLog "Unrecognized Shmem Msg Type")
  end.

Definition handleMsgFromDRAM (sender : Z) (shmem_msg : ShmemMsg) : st (Cntlr N) unit :=
  match sm_msg_type shmem_msg with
  | DRAM_READ_REP => processDRAMReply sender shmem_msg
  | _ => fail (ErrLog "Unrecognized Shmem Msg Type")
  end.

(** Any sequence of messages. *)
Inductive Event : Type :=
| FromL2Cache (sender : Z) (m : ShmemMsg)
| FromDRAM (sender : Z) (m : ShmemMsg).

Definition handle (ev : Event) : st (Cntlr N) unit :=
  match ev with
  | FromL2Cache sender m => handleMsgFromL2Cache sender m
  | FromDRAM sender m => handleMsgFromDRAM sender m
  end.

Fixpoint handle_all (l : list Event) : st (Cntlr N) unit :=
  match l with
  | [] => ret tt
  | ev :: l => handle ev;! handle_all l
  end.
End Cntlr.
