(* ===== verification/DirectoryCntlrFacts.v ===== *)
(** The invariant of the directory controller of [DirectoryCntlr]: its tag
    directory and its request queues are well formed.  Every handler keeps it,
    and none runs out of the fuel that the queue of its address supplies. *)
From S2P Require Import Prelude Utils Address Directory DirectoryFacts Shmem DirectoryCntlr.
Local Open Scope Z_scope.

(** ** No operation on an entry runs out of fuel *)

#[local] Hint Resolve rd_core_fuel wr_core_fuel : sim.

Ltac fuel_free :=
  repeat first
    [ apply bind_fuel; [|intros] | apply Ok_fuel | apply rd_core_fuel | apply wr_core_fuel
    | apply rd_fuel | apply wr_fuel | apply c_assert_fuel | apply log_assert_fuel
    | apply front_fuel | apply dequeue_fuel | discriminate | case_match ].

Lemma addSharer_fuel x m e : addSharer x m e ≠ Err ErrFuel.
Proof. unfold addSharer, addSharer_limited, addSharer_limitless. fuel_free. Qed.
Lemma removeSharer_fuel x b e : removeSharer x b e ≠ Err ErrFuel.
Proof. unfold removeSharer. fuel_free. Qed.
Lemma setOwner_fuel x e : setOwner x e ≠ Err ErrFuel.
Proof. unfold setOwner. fuel_free. Qed.
Lemma getOneSharer_fuel e : getOneSharer e ≠ Err ErrFuel.
Proof. unfold getOneSharer, getOneSharer_limited, getOneSharer_limitless. fuel_free. Qed.
Lemma hasSharer_fuel e x : hasSharer e x ≠ Err ErrFuel.
Proof. apply rd_core_fuel. Qed.
Lemma first_sharer_fuel x m d e : first_sharer x m d e ≠ Err ErrFuel.
Proof. unfold first_sharer. apply bind_fuel; [apply addSharer_fuel|]. intros r. fuel_free. Qed.
Lemma getHome_fuel a x : getHome a x ≠ Err ErrFuel.
Proof. unfold getHome, shr64, mod_nz. fuel_free. Qed.
Lemma ShmemReq_new_fuel m : ShmemReq_new m ≠ Err ErrFuel.
Proof. unfold ShmemReq_new. fuel_free. Qed.
Lemma getWhere_fuel m : getWhere m ≠ Err ErrFuel.
Proof. unfold getWhere. fuel_free. Qed.

#[local] Hint Resolve addSharer_fuel removeSharer_fuel setOwner_fuel getOneSharer_fuel hasSharer_fuel
  first_sharer_fuel getHome_fuel ShmemReq_new_fuel getWhere_fuel : sim.

Lemma first_sharer_ok x m d e e' :
  first_sharer x m d e = Ok e' → entry_inv e → m_dstate e = UNCACHED → d ≠ UNCACHED → d ≠ OWNED →
  entry_inv e' ∧ m_address e' = m_address e.
Proof.
  unfold first_sharer. intros He Hi Hd Hu Ho. apply res_bind_Ok in He as ([[] e1] & Ha & He); [|done].
  apply res_bind_Ok in He as ([] & _ & He). apply res_bind_Ok in He as (e2 & Hw & [= <-]).
  split; [by eapply first_sharer_inv|]. apply addSharer_true in Ha as (_ & _ & _ & _ & _ & <-).
  by apply setOwner_Ok in Hw as ->.
Qed.

Section Facts.
Context {N : Type} `{NucaOk N}.
Implicit Types (s : Cntlr N) (Q : gmap Z (list ShmemReq)).

(** ** The invariant *)

Definition req_ok (a : Z) (r : ShmemReq) : Prop := req_address r = a ∧ valid_address a.

Definition cntlr_wf s : Prop :=
  ddc_wf (m_dram_directory_cache s) ∧ queues_wf req_ok (m_dram_directory_req_queue_list s) ∧
  (∀ n, m_nuca_cache s = Some n → nuca_inv n).

(** A pointer to the entry of [a]. *)
Definition has_entry (p : ptr) (a : Z) s : Prop :=
  ∃ e, heap_of (m_dram_directory_cache s) !! p = Some e ∧ m_address e = a.

(** The invariant, with these queues. *)
Definition at_q Q s : Prop := cntlr_wf s ∧ m_dram_directory_req_queue_list s = Q.
(** And with an entry of [a] at [p]. *)
Definition at_e Q (p : ptr) (a : Z) s : Prop := at_q Q s ∧ has_entry p a s.

Definition qlen (a : Z) Q : nat := length (queue_of a Q).

(** Operations that touch neither the directory, nor the queues, nor the NUCA
    cache. *)
Definition quiet {A} (m : st (Cntlr N) A) : Prop :=
  ∀ s, match m s with
       | Ok (_, s') => m_dram_directory_cache s' = m_dram_directory_cache s ∧
                       m_dram_directory_req_queue_list s' = m_dram_directory_req_queue_list s ∧
                       m_nuca_cache s' = m_nuca_cache s
       | Err e => e ≠ ErrFuel
       end.

Lemma quiet_bind {A B} (m : st (Cntlr N) A) (f : A → st (Cntlr N) B) :
  quiet m → (∀ a, quiet (f a)) → quiet (st_bind m f).
Proof.
  intros Hm Hf s. specialize (Hm s). unfold st_bind. destruct (m s) as [[a s1]|e]; simpl; [|done].
  specialize (Hf a s1). destruct (f a s1) as [[b s2]|e]; [|done]. naive_solver congruence.
Qed.
Lemma quiet_ret {A} (a : A) : quiet (ret a). Proof. done. Qed.
Lemma quiet_gets {A} (f : Cntlr N → A) : quiet (gets f). Proof. done. Qed.
Lemma quiet_fail {A} e : e ≠ ErrFuel → quiet (fail e : st (Cntlr N) A). Proof. by intros He s. Qed.
Lemma quiet_lift {A} (x : res A) : x ≠ Err ErrFuel → quiet (lift x).
Proof. intros Hx s. unfold lift. destruct x; simpl; [done|congruence]. Qed.
Lemma quiet_sendMsg t rc req rcv a b len w : quiet (sendMsg t rc req rcv a b len w).
Proof. apply quiet_bind; [apply quiet_lift, c_assert_fuel|]. by intros [] s. Qed.
Lemma quiet_forM {A} (l : list A) (f : A → st (Cntlr N) unit) : (∀ x, quiet (f x)) → quiet (forM_ l f).
Proof. intros Hf. induction l as [|x l IH]; [apply quiet_ret|]. by apply quiet_bind. Qed.
Lemma quiet_send_invalidations req a l : quiet (send_invalidations req a l).
Proof. apply quiet_forM. intros x. apply quiet_sendMsg. Qed.
Lemma quiet_upgrade_invalidations i b req a l : quiet (upgrade_invalidations i b req a l).
Proof.
  revert i. induction l as [|x l IH]; intros i; simpl; [apply quiet_ret|].
  apply quiet_bind; [|intros _; apply IH]. case_match; [apply quiet_ret|apply quiet_sendMsg].
Qed.
Lemma quiet_max_hw : quiet max_hw_sharers. Proof. done. Qed.
Lemma quiet_count_forward b : quiet (count_forward b). Proof. done. Qed.
Lemma quiet_count_evict d : quiet (count_evict d).
Proof.
  apply quiet_bind; [apply quiet_gets|]. intros l. apply quiet_bind; [apply quiet_lift, rd_fuel|].
  intros x. apply quiet_bind; [apply quiet_lift, wr_fuel|]. by intros l' s.
Qed.
Lemma quiet_fresh_locals : quiet fresh_locals. Proof. done. Qed.
Lemma quiet_qsize a : quiet (qsize a). Proof. done. Qed.

Ltac solve_quiet :=
  repeat first
    [ apply quiet_sendMsg | apply quiet_ret | apply quiet_gets | apply quiet_fresh_locals | apply quiet_qsize
    | apply quiet_lift; auto with sim | apply quiet_fail; discriminate | apply quiet_bind; [|intros ?] ].

Lemma quiet_at_q {A} (m : st (Cntlr N) A) Q : quiet m → triple (at_q Q) m (λ _, at_q Q).
Proof.
  intros Hm s [(Hd & Hq & Hn) HQ]. specialize (Hm s). destruct (m s) as [[a s']|e]; [|done].
  destruct Hm as (E1 & E2 & E3). unfold at_q, cntlr_wf. by rewrite E1, E2, E3.
Qed.
Lemma quiet_at_e {A} (m : st (Cntlr N) A) Q p a : quiet m → triple (at_e Q p a) m (λ _, at_e Q p a).
Proof.
  intros Hm s [[(Hd & Hq & Hn) HQ] Hp]. specialize (Hm s). destruct (m s) as [[x s']|e]; [|done].
  destruct Hm as (E1 & E2 & E3). unfold at_e, at_q, cntlr_wf, has_entry. by rewrite E1, E2, E3.
Qed.

(** ** Rules *)

Lemma lift_pure {A} (P : Cntlr N → Prop) (x : res A) :
  x ≠ Err ErrFuel → triple P (lift x) (λ a s, x = Ok a ∧ P s).
Proof. intros Hx. by apply triple_lift. Qed.

Lemma at_e_q Q p a s : at_e Q p a s → at_q Q s. Proof. by intros []. Qed.
Lemma at_q_wf Q s : at_q Q s → cntlr_wf s. Proof. by intros []. Qed.

(** A quiet operation as the last one. *)
Lemma quiet_wf {A} (m : st (Cntlr N) A) Q : quiet m → triple (at_q Q) m (λ _, cntlr_wf).
Proof. intros Hm. eapply triple_conseq; [by apply (quiet_at_q m Q)|done|]. intros a s Hs. by apply (at_q_wf Q). Qed.
Lemma quiet_e_wf {A} (m : st (Cntlr N) A) Q p a : quiet m → triple (at_e Q p a) m (λ _, cntlr_wf).
Proof.
  intros Hm. eapply triple_conseq; [by apply (quiet_wf m Q)| |done]. intros s. apply at_e_q.
Qed.

Lemma put_ddc_at Q s c :
  at_q Q s → ddc_wf c → at_q Q (put_ddc c s).
Proof. intros [(Hd & Hq & Hn) HQ] Hc. done. Qed.

Lemma lookup_q Q a :
  valid_address a →
  triple (at_q Q) (on_ddc (getDirectoryEntry a))
    (λ r s, at_q Q s ∧ match r with
                       | Some p => has_entry p a s
                       | None => absent (m_dram_directory_cache s) a
                       end).
Proof.
  intros Ha. eapply triple_zoom; [by apply getDirectoryEntry_triple| |].
  - by intros s [(? & _) _].
  - intros s c r Hs [Hc Hr]. split; [by apply put_ddc_at|]. destruct r as [p|]; [done|apply Hr].
Qed.

Lemma lookup_other Q p a b :
  valid_address a → valid_address b → a ≠ b →
  triple (at_e Q p a) (on_ddc (getDirectoryEntry b))
    (λ r s, at_e Q p a s ∧ match r with Some q => has_entry q b s | None => True end).
Proof.
  intros Ha Hb Hab. apply runs_triple. intros s [Hs (e & He & Hea)].
  pose proof (getDirectoryEntry_runs (m_dram_directory_cache s) b) as Hrun.
  ospecialize (Hrun _ Hb); [apply Hs|]. apply runs_elim in Hrun as (r & c & Hrun & Hwf & Hk & Hr).
  unfold runs, on_ddc, zoom. rewrite Hrun. simpl. split.
  - split; [by apply put_ddc_at|]. exists e. split; [|done]. simpl.
    apply (ok_heap _ _ _ Hk); [rewrite Hea; apply Ha|congruence|done].
  - destruct r as [q|]; [|done]. destruct Hr as (e' & He' & Hae & _). by exists e'.
Qed.

Lemma get_entry_state p s e s' : get_entry p s = Ok (e, s') → s' = s.
Proof.
  unfold get_entry, on_ddc, on_directory, zoom, deref. destruct (m_heap _ !! p); simpl; [|done].
  intros [= _ <-]. by destruct s as [[] ? ? ? ? ? ? ? ? ? ? ? ?].
Qed.

Lemma get_entry_ok Q p a :
  triple (at_e Q p a) (get_entry p) (λ e s, (entry_inv e ∧ m_address e = a) ∧ at_e Q p a s).
Proof.
  intros s Hs. destruct (get_entry p s) as [[e s']|err] eqn:E.
  - pose proof (get_entry_state _ _ _ _ E) as ->. destruct Hs as [Hs (e' & He & Ha)].
    assert (e' = e) as ->.
    { unfold get_entry, on_ddc, on_directory, zoom, deref, heap_of in *. rewrite He in E. by injection E. }
    split; [split; [|done]|split; [done|by exists e]]. destruct Hs as [(Hwf & _) _]. by apply (wf_entry _ Hwf p e).
  - unfold get_entry, on_ddc, on_directory, zoom, deref in E. case_match; simplify_eq/=. done.
Qed.

Lemma put_entry_ok Q p a e :
  valid_address a → entry_inv e → m_address e = a → triple (at_e Q p a) (put_entry p e) (λ _, at_e Q p a).
Proof.
  intros Ha Hi Hea. apply runs_triple. intros s [Hs (e0 & He & Ha0)].
  unfold runs, put_entry, on_ddc, on_directory, zoom, store. pose proof He as He'. unfold heap_of in He'. rewrite He'.
  simpl. split.
  - apply put_ddc_at; [done|]. apply (store_wf _ p e0 e); [apply Hs|done|rewrite Ha0; apply Ha|congruence|done].
  - exists e. split; [apply lookup_insert_eq|done].
Qed.

Lemma gets_q Q {A} (f : Cntlr N → A) (φ : A → Prop) :
  (∀ s, at_q Q s → φ (f s)) → triple (at_q Q) (gets f) (λ a s, φ a ∧ at_q Q s).
Proof. intros Hf. apply triple_gets. auto. Qed.
Lemma gets_e Q p x {A} (f : Cntlr N → A) (φ : A → Prop) :
  (∀ s, at_q Q s → φ (f s)) → triple (at_e Q p x) (gets f) (λ a s, φ a ∧ at_e Q p x s).
Proof. intros Hf. apply triple_gets. intros s Hs. split; [|done]. by apply Hf, (at_e_q Q p x). Qed.

(** ** Queues *)

Lemma qfront_q Q a : triple (at_q Q) (qfront a) (λ r s, (req_ok a r ∧ (0 < qlen a Q)%nat) ∧ at_q Q s).
Proof.
  intros s [Hwf HQ]. unfold qfront, st_bind, gets, lift. simpl. rewrite HQ.
  destruct (front a Q) as [r|e] eqn:Hf; simpl; [|intros ->; by apply (front_fuel a Q)].
  apply front_Ok in Hf as [l Hl]. split; [|done]. destruct Hwf as (_ & Hq & _). rewrite HQ in Hq.
  destruct (Hq a _ Hl) as [_ HF]. unfold qlen, queue_of. rewrite Hl. inversion HF; subst. split; [done|simpl; lia].
Qed.
Lemma qfront_e Q p x a :
  triple (at_e Q p x) (qfront a) (λ r s, (req_ok a r ∧ (0 < qlen a Q)%nat) ∧ at_e Q p x s).
Proof.
  intros s [Hs Hp]. pose proof (qfront_q Q a s Hs) as Hr.
  unfold qfront, st_bind, gets, lift in *. simpl in *. destruct (front _ _); simpl in *; [|done].
  destruct Hr as [Hr Hs']. by split.
Qed.

Lemma qenqueue_ok Q p x a r :
  req_ok a r → triple (at_e Q p x) (qenqueue a r) (λ _, at_e (enqueue a r Q) p x).
Proof.
  intros Hr. apply triple_modify. intros s [[(Hd & Hq & Hn) <-] Hp]. split; [|done]. split; [|done].
  split; [done|]. split; [|done]. by apply enqueue_wf.
Qed.
Lemma qenqueue_q Q a r : req_ok a r → triple (at_q Q) (qenqueue a r) (λ _, at_q (enqueue a r Q)).
Proof.
  intros Hr. apply triple_modify. intros s [(Hd & Hq & Hn) <-]. split; [|done].
  split; [done|]. split; [|done]. by apply enqueue_wf.
Qed.

Lemma qupdate_q Q a f :
  (∀ r, req_ok a r → req_ok a (f r)) → triple (at_q Q) (qupdate a f) (λ _ s, ∃ Q', at_q Q' s).
Proof.
  intros Hf. apply triple_modify. intros s [(Hd & Hq & Hn) <-]. eexists. split; [|done].
  split; [done|]. split; [|done]. by apply update_front_wf.
Qed.

(** The removal of the request at the front, in front of [f]. *)
Lemma dequeue_ok Q a (K : DramDirectoryCache → Prop) (f : ShmemReq * gmap Z (list ShmemReq) → st (Cntlr N) unit) R :
  (∀ r Q', dequeue a Q = Ok (r, Q') → queue_of a Q = r :: queue_of a Q' → (∀ b, b ≠ a → Q' !! b = Q !! b) →
     triple (λ s, at_q Q' s ∧ K (m_dram_directory_cache s)) (f (r, Q')) R) →
  triple (λ s, at_q Q s ∧ K (m_dram_directory_cache s))
    (let! size := qsize a in
     lift (c_assert (1 <=? size));!
     let! q := gets m_dram_directory_req_queue_list in
     let! r := lift (dequeue a q) in
     modify (put_queues r.2);! f r) R.
Proof.
  intros Hf s [[(Hd & Hq & Hn) <-] HK]. unfold st_bind, qsize, gets, lift, modify. simpl.
  destruct (c_assert _) as [[]|e] eqn:E; simpl; [|intros ->; by eapply c_assert_fuel].
  destruct (dequeue a (m_dram_directory_req_queue_list s)) as [[r Q']|e] eqn:Hdq; simpl;
    [|intros ->; by eapply dequeue_fuel].
  destruct (dequeue_Ok _ _ _ _ _ Hq Hdq) as (Hq' & Hl & Ho). by apply (Hf r Q').
Qed.

(** ** The NUCA cache *)

Lemma triple_run {S A} (P : S → Prop) (m : st S A) R (n : S) :
  triple P m R → P n → m n ≠ Err ErrFuel ∧ ∀ r, m n = Ok r → R r.1 r.2.
Proof.
  intros Hm Hn. specialize (Hm n Hn). destruct (m n) as [[a n']|e].
  - split; [done|]. by intros r [= <-].
  - split; [|done]. by intros [= ->].
Qed.

Lemma get_nuca Q : triple (at_q Q) (gets m_nuca_cache) (λ n s, (∀ x, n = Some x → nuca_inv x) ∧ at_q Q s).
Proof. apply gets_q. intros s [(_ & _ & Hn) _]. done. Qed.

Lemma put_nuca_q Q n : nuca_inv n → triple (at_q Q) (modify (put_nuca (Some n))) (λ _, at_q Q).
Proof.
  intros Hn. apply triple_modify. intros s [(Hd & Hq & _) HQ]. split; [|done]. split; [done|].
  split; [done|]. by intros ? [= <-].
Qed.

Lemma sendDataToNUCA_q Q a req b c : in_u64 a → triple (at_q Q) (sendDataToNUCA a req b c) (λ _, at_q Q).
Proof.
  intros Ha. unfold sendDataToNUCA. eapply triple_bind; [apply get_nuca|].
  intros [n|]; apply triple_pure; intros Hn; [|by apply quiet_at_q, quiet_ret].
  eapply triple_bind; [apply quiet_at_q, quiet_fresh_locals|]. intros loc.
  destruct (triple_run _ _ _ n (nuca_write_ok a b loc c Ha) (Hn n eq_refl)) as [Hf Hr].
  eapply triple_bind; [by apply lift_pure|]. intros r. apply triple_pure. intros Er. specialize (Hr r Er).
  eapply triple_bind; [by apply put_nuca_q|]. intros []. destruct r as [[[ev ea] eb] n']. simpl.
  destruct ev; apply quiet_at_q; [|apply quiet_ret]. solve_quiet.
Qed.

Lemma sendDataToDram_q Q a req b : in_u64 a → triple (at_q Q) (sendDataToDram a req b) (λ _, at_q Q).
Proof.
  intros Ha. unfold sendDataToDram. eapply triple_bind; [apply quiet_at_q, quiet_gets|]. intros [n|].
  - by apply sendDataToNUCA_q.
  - apply quiet_at_q. solve_quiet.
Qed.

(** ** The replacement of an entry *)

Definition keeps (p : ptr) (x : Z) (c : DramDirectoryCache) : Prop :=
  ∃ e, heap_of c !! p = Some e ∧ m_address e = x.

Lemma invalidate_keeps Q p x b :
  valid_address x → x ≠ b →
  triple (at_e Q p x) (on_ddc (invalidateDirectoryEntry b)) (λ _, at_e Q p x).
Proof.
  intros Hx Hb s [Hs Hp].
  assert (Hwf : ddc_wf (m_dram_directory_cache s)) by apply Hs.
  pose proof (invalidateDirectoryEntry_keeps b p x Hb (m_dram_directory_cache s) (conj Hwf Hp)) as Hi.
  unfold on_ddc, zoom. destruct (invalidateDirectoryEntry b _) as [[u c]|e]; simpl; [|done].
  destruct Hi as [Hc Hk]. split; [by apply put_ddc_at|done].
Qed.

Lemma invalidate_q Q b : triple (at_q Q) (on_ddc (invalidateDirectoryEntry b)) (λ _, at_q Q).
Proof.
  eapply triple_zoom; [apply invalidateDirectoryEntry_triple|by intros s [(? & _) _]|].
  intros s c r Hs Hc. by apply put_ddc_at.
Qed.

(** ** Calls

    What the callees at depth [n] guarantee.  [Q] are the queues at the call; a
    request needs three levels of calls for each request of its queue. *)
Record calls_ok (n : nat) (k : Calls) : Prop := {
  ok_next a j Q : valid_address a → (qlen a Q ≤ j)%nat → (3 * j + 1 ≤ n)%nat →
    triple (at_q Q) (call_next k a) (λ _, cntlr_wf);
  ok_next_last a Q p x : (1 ≤ n)%nat → (qlen a Q ≤ 1)%nat →
    triple (at_e Q p x) (call_next k a) (λ _ s, ∃ Q', (∀ b, b ≠ a → Q' !! b = Q !! b) ∧ at_e Q' p x s);
  ok_nullify r j Q : valid_address (req_address r) → (qlen (req_address r) Q ≤ j)%nat → (3 * j + 2 ≤ n)%nat →
    triple (at_q Q) (call_nullify k r) (λ _, cntlr_wf);
  ok_nullify_last r Q p x : (2 ≤ n)%nat → valid_address x → valid_address (req_address r) → x ≠ req_address r →
    (qlen (req_address r) Q ≤ 1)%nat →
    triple (at_e Q p x) (call_nullify k r)
      (λ _ s, ∃ Q', (∀ y, y ≠ req_address r → Q' !! y = Q !! y) ∧ at_e Q' p x s);
  ok_alloc r Q : (3 ≤ n)%nat → valid_address (req_address r) →
    triple (at_q Q) (call_alloc k r)
      (λ p s, ∃ Q', Q' !! req_address r = Q !! req_address r ∧ at_e Q' p (req_address r) s);
  ok_ex r b j Q : valid_address (req_address r) → (1 ≤ j)%nat → (qlen (req_address r) Q ≤ j)%nat →
    (3 * j + 3 ≤ n)%nat → triple (at_q Q) (call_ex k r b) (λ _, cntlr_wf);
  ok_sh r b j Q : valid_address (req_address r) → (1 ≤ j)%nat → (qlen (req_address r) Q ≤ j)%nat →
    (3 * j + 3 ≤ n)%nat → triple (at_q Q) (call_sh k r b) (λ _, cntlr_wf);
  ok_upgrade r b j Q : valid_address (req_address r) → (1 ≤ j)%nat → (qlen (req_address r) Q ≤ j)%nat →
    (3 * j + 3 ≤ n)%nat → triple (at_q Q) (call_upgrade k r b) (λ _, cntlr_wf);
  ok_retrieve t rcv a b j Q : valid_address a → (qlen a Q ≤ j)%nat → (3 * j + 2 ≤ n)%nat →
    triple (at_q Q) (call_retrieve k t rcv a b) (λ _, cntlr_wf)
}.

Section Step.
Context (n : nat) (k : Calls) (Hk : calls_ok n k).

(** A queue that holds one request: its processing ends with its removal. *)
Lemma next_last Q p x a :
  (qlen a Q ≤ 1)%nat →
  triple (at_e Q p x) (processNextReqFromL2Cache k a)
    (λ _ s, ∃ Q', (∀ b, b ≠ a → Q' !! b = Q !! b) ∧ at_e Q' p x s).
Proof.
  intros Hl. apply (dequeue_ok Q a (keeps p x)). intros r Q' _ Hq Ho.
  cbn [fst snd]. destruct (queue_empty a Q') eqn:He.
  - apply triple_ret. intros s Hs. by exists Q'.
  - intros s [[(_ & Hwf & _) HQ'] _]. exfalso. unfold queue_empty in He. unfold qlen in Hl. rewrite Hq in Hl.
    simpl in Hl. unfold queue_of in Hl. destruct (Q' !! a) as [l|] eqn:Ha; [|done].
    rewrite HQ' in Hwf. destruct (Hwf a l Ha) as [Hne _]. simpl in Hl. destruct l; [done|simpl in *; lia].
Qed.

(** The next request of the queue, if there is one. *)
Lemma next_ok a j Q :
  valid_address a → (qlen a Q ≤ j)%nat → (3 * j + 1 ≤ S n)%nat →
  triple (at_q Q) (processNextReqFromL2Cache k a) (λ _, cntlr_wf).
Proof.
  intros Ha Hl Hn. eapply triple_conseq; [apply (dequeue_ok Q a (λ _, True) _ (λ _, cntlr_wf))|done|done].
  intros r Q' _ Hq _. unfold qlen in Hl. rewrite Hq in Hl. simpl in Hl.
  eapply (triple_conseq _ (at_q Q') _ (λ _, cntlr_wf)); [|by intros s []|done].
  cbn [fst snd]. destruct (queue_empty a Q'); [by apply (quiet_wf _ Q'), quiet_ret|].
  eapply triple_bind; [apply qfront_q|]. intros r'. apply triple_pure. intros [[Hra _] Hpos].
  unfold qlen in Hpos. destruct (req_type r'); try (by apply triple_fail);
    [eapply (ok_ex n k Hk r' None (j - 1))|eapply (ok_sh n k Hk r' None (j - 1))|eapply (ok_upgrade n k Hk r' None (j - 1))];
    rewrite ?Hra; try done; unfold qlen; lia.
Qed.

Lemma get_other Q p x q b :
  triple (λ s, at_e Q p x s ∧ has_entry q b s) (get_entry q) (λ _, at_e Q p x).
Proof.
  intros s [He Hq]. pose proof (get_entry_ok Q q b s (conj (proj1 He) Hq)) as Hg.
  destruct (get_entry q s) as [[e s']|err] eqn:E; [|done]. by rewrite (get_entry_state _ _ _ _ E).
Qed.

(** The nullification of another address, alone in its queue. *)
Lemma nullify_last r Q p x :
  (2 ≤ S n)%nat → valid_address x → valid_address (req_address r) → x ≠ req_address r →
  (qlen (req_address r) Q ≤ 1)%nat →
  triple (at_e Q p x) (processNullifyReq k r)
    (λ _ s, ∃ Q', (∀ y, y ≠ req_address r → Q' !! y = Q !! y) ∧ at_e Q' p x s).
Proof.
  intros Hn Hx Hb Hxb Hl. unfold processNullifyReq.
  eapply triple_bind; [by apply (lookup_other Q p x)|]. intros [q|]; [|by apply triple_fail].
  eapply triple_bind; [apply get_other|].
  intros e. assert (Hquiet : ∀ m : st (Cntlr N) unit, quiet m →
    triple (at_e Q p x) m (λ _ s, ∃ Q', (∀ y, y ≠ req_address r → Q' !! y = Q !! y) ∧ at_e Q' p x s)).
  { intros m Hm. eapply triple_conseq; [by apply (quiet_at_e m Q p x)|done|]. intros u s Hs. by exists Q. }
  destruct (m_dstate e); [|apply Hquiet, quiet_send_invalidations|by apply triple_fail|apply Hquiet, quiet_sendMsg|apply Hquiet, quiet_sendMsg].
  eapply triple_bind; [by apply invalidate_keeps|]. intros []. apply (ok_next_last n k Hk); [lia|done].
Qed.

Lemma nullify_ok r j Q :
  valid_address (req_address r) → (qlen (req_address r) Q ≤ j)%nat → (3 * j + 2 ≤ S n)%nat →
  triple (at_q Q) (processNullifyReq k r) (λ _, cntlr_wf).
Proof.
  intros Hv Hl Hn. unfold processNullifyReq. eapply triple_bind; [by apply (lookup_q Q)|].
  intros [q|]; [|by apply triple_fail].
  eapply triple_bind; [apply (get_entry_ok Q q (req_address r))|]. intros e. apply triple_pure. intros _.
  destruct (m_dstate e); [|apply quiet_e_wf, quiet_send_invalidations|by apply triple_fail|apply quiet_e_wf, quiet_sendMsg|apply quiet_e_wf, quiet_sendMsg].
  eapply (triple_bind _ (λ _, at_q Q)).
  - eapply triple_conseq; [apply (invalidate_q Q)|intros s; apply at_e_q|done].
  - intros []. apply (ok_next n k Hk _ j); [done|done|lia].
Qed.

(** The candidate is an entry of the list. *)
Lemma pick_candidate_ok Q c l best :
  (∀ p, p ∈ l → is_Some (heap_of c !! p)) →
  triple (λ s, at_q Q s ∧ m_dram_directory_cache s = c) (pick_candidate l best)
    (λ r s, (r = best ∨ ∃ p e, p ∈ l ∧ heap_of c !! p = Some e ∧ r = Some e ∧ queue_size (m_address e) Q = 0) ∧
            at_q Q s ∧ m_dram_directory_cache s = c).
Proof.
  revert best. induction l as [|p l IH]; intros best Hl; simpl.
  { apply triple_ret. auto. }
  destruct (Hl p) as [e He]; [left|].
  eapply (triple_bind _ (λ e' s, e' = e ∧ at_q Q s ∧ m_dram_directory_cache s = c)).
  { apply runs_triple. intros s [Hs <-]. unfold runs. destruct (get_entry p s) as [[e' s']|err] eqn:E.
    - rewrite (get_entry_state _ _ _ _ E).
      unfold get_entry, on_ddc, on_directory, zoom, deref, heap_of in *. rewrite He in E. naive_solver.
    - unfold get_entry, on_ddc, on_directory, zoom, deref, heap_of in *. by rewrite He in E. }
  intros ?. apply triple_pure. intros ->.
  eapply (triple_bind _ (λ sz s, sz = queue_size (m_address e) Q ∧ at_q Q s ∧ m_dram_directory_cache s = c)).
  { apply triple_gets. intros s [[Hwf <-] Hc]. done. }
  intros ?. apply triple_pure. intros ->.
  eapply triple_conseq; [apply IH; intros q Hq; apply Hl; by right|done|].
  intros r s [Hr Hs]. split; [|done]. destruct Hr as [->|(q & e' & Hq & ?)]; [|right; exists q, e'; set_solver].
  destruct (_ && (queue_size (m_address e) Q =? 0)) eqn:Hb; [|by left].
  apply andb_true_iff in Hb as [_ Hz%Z.eqb_eq]. right. exists p, e. split; [left|done].
Qed.

Lemma alloc_ok r Q :
  (3 ≤ S n)%nat → valid_address (req_address r) →
  triple (at_q Q) (processDirectoryEntryAllocationReq k r)
    (λ p s, ∃ Q', Q' !! req_address r = Q !! req_address r ∧ at_e Q' p (req_address r) s).
Proof.
  intros Hn Hv. unfold processDirectoryEntryAllocationReq. set (a := req_address r) in *.
  eapply (triple_bind _ (λ l s, at_q Q s ∧ let c := m_dram_directory_cache s in
     absent c a ∧ full c (set_of c a) ∧
     ∀ p, p ∈ l → ∃ w, (w < ddc_associativity c)%nat ∧ live c (set_of c a * ddc_associativity c + w) p)).
  { eapply triple_zoom; [by apply (getReplacementCandidates_triple a)|by intros s [(? & _) _]|].
    intros s c l Hs (Hc & Hrest). split; [by apply put_ddc_at|done]. }
  intros l. apply triple_at. intros s0 (Hs0 & Habs & Hf & Hl). set (c := m_dram_directory_cache s0) in *.
  assert (Hwf : ddc_wf c) by apply Hs0.
  eapply (triple_bind _ _ _ (pick_candidate l None)).
  { eapply triple_conseq; [apply (pick_candidate_ok Q c l None)|by intros ? ->|intros ? ? Hx; exact Hx].
    intros p Hp. destruct (Hl p Hp) as (w & Hw & Hlv). destruct (wf_slot c Hwf _ _ Hlv) as (e & He & _). eauto. }
  intros [e|]; apply triple_pure; [|by intros; apply triple_fail].
  intros [?|(p & e' & Hp & He & [= <-] & Hz)]; [done|].
  destruct (Hl p Hp) as (w & Hw & Hlv). destruct (Hf w Hw) as (p' & e' & Hlv' & He' & Hne).
  unfold live in Hlv, Hlv'. assert (p' = p) as -> by congruence. assert (e' = e) as -> by congruence.
  destruct (live_way c _ p e Hwf Hlv He Hne) as [Hset _].
  rewrite set_slot in Hset; [|apply (wf_dims c Hwf)|done].
  eapply (triple_bind _ (λ _ s, at_q Q s ∧ m_dram_directory_cache s = c)).
  { intros s [Hs Hc]. pose proof (quiet_count_evict (m_dstate e) s) as Hq.
    pose proof (quiet_at_q _ Q (quiet_count_evict (m_dstate e)) s Hs) as Hq'.
    destruct (count_evict _ s) as [[u s']|err]; [|done]. split; [done|]. destruct Hq as (-> & _). done. }
  intros []. eapply (triple_bind _ (λ q s, at_e Q q a s)).
  { apply runs_triple. intros s [Hs Hc].
    pose proof (replaceDirectoryEntry_runs c a _ p e Hwf Hv Hne Habs Hf Hset Hlv He) as Hrun.
    apply runs_elim in Hrun as (q & c' & Hrun & Hwf' & en & Hen & Hea & _).
    unfold runs, on_ddc, zoom. rewrite Hc, Hrun. simpl. split; [by apply put_ddc_at|by exists en]. }
  assert (Hvb : valid_address (m_address e)) by (split; [by apply (wf_addr c Hwf p e)|done]).
  assert (Hab : a ≠ m_address e) by (intros Heq; by apply (Habs p e)).
  intros q. eapply triple_bind; [apply lift_pure, ShmemReq_new_fuel|]. intros nr. apply triple_pure. intros Hnr.
  assert (Hra : req_address nr = m_address e) by (by injection Hnr as <-).
  eapply triple_bind; [apply (qenqueue_ok Q q a (m_address e) nr); done|]. intros [].
  eapply triple_bind; [apply quiet_at_e, quiet_qsize|]. intros size.
  eapply triple_bind; [apply quiet_at_e, quiet_lift, c_assert_fuel|]. intros [].
  apply triple_then_ret. eapply triple_conseq; [eapply (ok_nullify_last n k Hk nr _ q a)|done|].
  - lia.
  - done.
  - by rewrite Hra.
  - by rewrite Hra.
  - rewrite Hra. unfold qlen. rewrite enqueue_of, decide_True by done. rewrite queue_size_length in Hz.
    rewrite length_app. simpl. lia.
  - rewrite Hra. intros u s (Q' & HQ' & Hs). exists Q'. split; [|done]. rewrite HQ' by done.
    unfold enqueue. by rewrite lookup_insert_ne.
Qed.

(** The entry of a request, found or allocated. *)
Lemma ensure_entry_ok r j Q B (f : ptr → st (Cntlr N) B) R :
  (1 ≤ j)%nat → (3 * j + 3 ≤ S n)%nat → valid_address (req_address r) → (qlen (req_address r) Q ≤ j)%nat →
  (∀ p Q', (qlen (req_address r) Q' ≤ j)%nat →
     triple (at_e Q' p (req_address r)) (f p) R) →
  triple (at_q Q)
    (let! p := on_ddc (getDirectoryEntry (req_address r)) in
     let! p := match p with Some p => ret p | None => call_alloc k r end in f p) R.
Proof.
  intros Hj Hn Hv Hl Hf. eapply triple_bind; [by apply lookup_q|].
  intros q. eapply (triple_bind _ (λ p s, ∃ Q', Q' !! req_address r = Q !! req_address r ∧ at_e Q' p (req_address r) s)).
  - destruct q as [p|].
    + apply triple_ret. intros s Hs. by exists Q.
    + eapply triple_conseq; [apply (ok_alloc n k Hk r Q); [lia|done]|by intros s []|done].
  - intros p s (Q' & HQ' & Hs). apply (Hf p Q'); [|done]. unfold qlen, queue_of. by rewrite HQ'.
Qed.

(** The last steps of a request: an update of its entry, then the data. *)
Lemma retrieve_after t rcv a b j Q p e :
  valid_address a → entry_inv e → m_address e = a → (qlen a Q ≤ j)%nat → (3 * j + 3 ≤ S n)%nat →
  triple (at_e Q p a) (put_entry p e;! call_retrieve k t rcv a b) (λ _, cntlr_wf).
Proof.
  intros Ha Hi He Hl Hn. eapply triple_bind; [by apply put_entry_ok|]. intros [].
  eapply triple_conseq; [apply (ok_retrieve n k Hk t rcv a b j Q); [done|done|lia]|intros s; apply at_e_q|done].
Qed.

Lemma next_after a j Q p e :
  valid_address a → (qlen a Q ≤ j)%nat → (3 * j + 3 ≤ S n)%nat → entry_inv e → m_address e = a →
  triple (at_e Q p a) (put_entry p e;! call_next k a) (λ _, cntlr_wf).
Proof.
  intros Ha Hl Hn Hi He. eapply triple_bind; [by apply put_entry_ok|]. intros [].
  eapply triple_conseq; [apply (ok_next n k Hk a j Q); [done|done|lia]|intros s; apply at_e_q|done].
Qed.

Lemma ex_ok r b j Q :
  valid_address (req_address r) → (1 ≤ j)%nat → (qlen (req_address r) Q ≤ j)%nat → (3 * j + 3 ≤ S n)%nat →
  triple (at_q Q) (processExReqFromL2Cache k r b) (λ _, cntlr_wf).
Proof.
  intros Hv Hj Hl Hn. apply (ensure_entry_ok r j Q _ _ _ Hj Hn Hv Hl). clear Q Hl. intros p Q Hl.
  eapply triple_bind; [apply get_entry_ok|]. intros e. apply triple_pure. intros [Hi Ha].
  destruct (m_dstate e) eqn:Hd.
  - eapply triple_bind; [apply quiet_at_e, quiet_max_hw|]. intros m.
    eapply triple_bind; [apply lift_pure, first_sharer_fuel|]. intros e'. apply triple_pure. intros He'.
    destruct (first_sharer_ok _ _ _ _ _ He' Hi Hd) as [Hi' Ha']; [done|done|].
    eapply retrieve_after; [done|done|congruence|done|done].
  - apply quiet_e_wf, quiet_bind; [apply quiet_lift, c_assert_fuel|]. intros []. apply quiet_send_invalidations.
  - by apply triple_fail.
  - apply quiet_e_wf. solve_quiet.
  - apply quiet_e_wf. solve_quiet.
Qed.

Lemma sh_ok r b j Q :
  valid_address (req_address r) → (1 ≤ j)%nat → (qlen (req_address r) Q ≤ j)%nat → (3 * j + 3 ≤ S n)%nat →
  triple (at_q Q) (processShReqFromL2Cache k r b) (λ _, cntlr_wf).
Proof.
  intros Hv Hj Hl Hn. apply (ensure_entry_ok r j Q _ _ _ Hj Hn Hv Hl). clear Q Hl. intros p Q Hl.
  eapply triple_bind; [apply get_entry_ok|]. intros e. apply triple_pure. intros [Hi Ha].
  destruct (m_dstate e) eqn:Hd; [| |by apply triple_fail|apply quiet_e_wf; solve_quiet..].
  - eapply triple_bind; [apply quiet_at_e, quiet_max_hw|]. intros m.
    eapply triple_bind; [apply quiet_at_e, quiet_gets|]. intros protocol.
    destruct protocol; (eapply triple_bind; [apply lift_pure, first_sharer_fuel|]); intros e'; apply triple_pure;
      intros He'; destruct (first_sharer_ok _ _ _ _ _ He' Hi Hd) as [Hi' Ha']; try done;
      (eapply retrieve_after; [done|done|congruence|done|done]).
  - eapply triple_bind; [apply lift_pure, hasSharer_fuel|]. intros has. apply triple_pure. intros Hhas. destruct has.
    { eapply triple_bind; [apply quiet_at_e, quiet_count_forward|]. intros [].
      eapply triple_conseq; [apply (ok_retrieve n k Hk _ _ _ _ j Q); [done|done|lia]|intros s; apply at_e_q|done]. }
    eapply triple_bind; [apply quiet_at_e, quiet_max_hw|]. intros m.
    eapply triple_bind; [apply lift_pure, addSharer_fuel|]. intros [[] e']; apply triple_pure; intros Hadd; cbn [fst snd].
    + eapply retrieve_after; [done|by eapply add_shared_inv| |done|done].
      apply addSharer_true in Hadd as (_ & _ & _ & _ & _ & ->). done.
    + apply addSharer_false in Hadd as ->.
      eapply triple_bind; [apply lift_pure, getOneSharer_fuel|]. intros [o e']. apply triple_pure. intros Ho.
      apply getOneSharer_Ok in Ho as [_ [kd ->]].
      eapply triple_bind; [by apply put_entry_ok|]. intros []. apply quiet_e_wf, quiet_sendMsg.
Qed.

Lemma upgrade_ok r b j Q :
  valid_address (req_address r) → (1 ≤ j)%nat → (qlen (req_address r) Q ≤ j)%nat → (3 * j + 3 ≤ S n)%nat →
  triple (at_q Q) (processUpgradeReqFromL2Cache k r b) (λ _, cntlr_wf).
Proof.
  intros Hv Hj Hl Hn. apply (ensure_entry_ok r j Q _ _ _ Hj Hn Hv Hl). clear Q Hl. intros p Q Hl.
  eapply triple_bind; [apply get_entry_ok|]. intros e. apply triple_pure. intros [Hi Ha].
  assert (Hi' := Hi). unfold entry_inv in Hi'.
  destruct (m_dstate e) eqn:Hd; [| |by apply triple_fail| |].
  - eapply triple_bind; [apply quiet_at_e, quiet_lift, c_assert_fuel|]. intros [].
    eapply triple_bind; [apply quiet_at_e, quiet_max_hw|]. intros m.
    eapply triple_bind; [apply lift_pure, first_sharer_fuel|]. intros e'. apply triple_pure. intros He'.
    destruct (first_sharer_ok _ _ _ _ _ He' Hi Hd) as [Hi2 Ha2]; [done|done|].
    eapply retrieve_after; [done|done|by rewrite Ha2|done|done].
  - lazy zeta. case_bool_decide as Hs.
    + eapply triple_bind; [apply lift_pure, setOwner_fuel|]. intros e'. apply triple_pure. intros ->%setOwner_Ok.
      eapply triple_bind; [apply put_entry_ok; done|]. intros [].
      eapply triple_bind; [apply quiet_at_e, quiet_sendMsg|]. intros [].
      eapply triple_conseq; [apply (ok_next n k Hk _ j Q); [done|done|lia]|intros s; apply at_e_q|done].
    + apply quiet_e_wf, quiet_bind; [apply quiet_lift, hasSharer_fuel|]. intros ?. apply quiet_upgrade_invalidations.
  - rewrite Hi'. eapply triple_bind; [apply quiet_at_e, quiet_lift, rd_fuel|]. intros first.
    case_match; [|apply quiet_e_wf, quiet_sendMsg].
    eapply triple_bind; [apply quiet_at_e, quiet_lift, c_assert_fuel|]. intros [].
    eapply triple_bind; [apply quiet_at_e, quiet_sendMsg|]. intros []. by eapply next_after.
  - rewrite Hi'. eapply triple_bind; [apply quiet_at_e, quiet_lift, rd_fuel|]. intros first.
    case_match; [|apply quiet_e_wf, quiet_sendMsg].
    eapply triple_bind; [apply quiet_at_e, quiet_lift, c_assert_fuel|]. intros [].
    eapply triple_bind; [apply quiet_at_e, quiet_sendMsg|]. intros []. by eapply next_after.
Qed.

(** The read of the NUCA cache, if there is one. *)
Lemma nuca_lookup_ok Q a B (f : option (list Z) → st (Cntlr N) B) R :
  in_u64 a → (∀ hit, triple (at_q Q) (f hit) R) →
  triple (at_q Q)
    (let! n := gets m_nuca_cache in
     let! hit :=
       match n with
       | None => ret None
       | Some n =>
           let! loc := fresh_locals in
           let! r := lift (nuca_read a true n) in
           modify (put_nuca (Some r.2));!
           ret ((λ out, default (loc_buf loc) out) <$> r.1)
       end in f hit) R.
Proof.
  intros Ha Hf. eapply triple_bind; [apply get_nuca|]. intros n0. apply triple_pure. intros Hn.
  eapply (triple_bind _ (λ _, at_q Q)); [|done]. destruct n0 as [n0|]; [|by apply quiet_at_q, quiet_ret].
  eapply triple_bind; [apply quiet_at_q, quiet_fresh_locals|]. intros loc.
  destruct (triple_run _ _ _ n0 (nuca_read_ok a true Ha) (Hn n0 eq_refl)) as [Hfu Hr].
  eapply triple_bind; [by apply lift_pure|]. intros r. apply triple_pure. intros Er.
  apply triple_then_ret, put_nuca_q. by apply Hr.
Qed.

Lemma retrieve_ok t rcv a b j Q :
  valid_address a → (qlen a Q ≤ j)%nat → (3 * j + 2 ≤ S n)%nat →
  triple (at_q Q) (retrieveDataAndSendToL2Cache k t rcv a b) (λ _, cntlr_wf).
Proof.
  intros Ha Hl Hn. unfold retrieveDataAndSendToL2Cache.
  assert (Hnext : ∀ P : Cntlr N → Prop, (∀ s, P s → at_q Q s) → triple P (call_next k a) (λ _, cntlr_wf)).
  { intros P HP. eapply triple_conseq; [apply (ok_next n k Hk a j Q); [done|done|lia]|done|done]. }
  eapply triple_bind; [by apply lookup_q|]. intros [p|]; [|by apply triple_fail].
  eapply triple_bind; [apply (get_entry_ok Q p a)|]. intros e. apply triple_pure. intros [Hi Hea].
  eapply triple_bind; [apply quiet_at_e, quiet_gets|]. intros bs. destruct b as [data|].
  { eapply triple_bind; [by apply put_entry_ok|]. intros [].
    eapply triple_bind; [apply quiet_at_e, quiet_sendMsg|]. intros []. apply Hnext. intros s. apply at_e_q. }
  eapply (triple_conseq _ (at_q Q) _ (λ _, cntlr_wf)); [|intros s; apply at_e_q|done].
  apply nuca_lookup_ok; [apply Ha|]. intros [data|].
  { eapply triple_bind; [apply quiet_at_q, quiet_sendMsg|]. intros []. by apply Hnext. }
  eapply triple_bind; [apply quiet_at_q, quiet_qsize|]. intros size.
  eapply triple_bind; [apply quiet_at_q, quiet_lift, c_assert_fuel|]. intros [].
  eapply triple_bind; [apply qfront_q|]. intros r. apply triple_pure. intros _.
  eapply triple_bind; [apply quiet_at_q, quiet_gets|]. intros protocol.
  case_match.
  - eapply triple_bind; [apply (qupdate_q Q a); by intros ? []|]. intros []. apply triple_ex. intros Q'.
    apply (quiet_wf _ Q'), quiet_sendMsg.
  - eapply triple_bind; [apply (qupdate_q Q a); by intros ? []|]. intros []. apply triple_ex. intros Q'.
    apply (quiet_wf _ Q'). solve_quiet.
Qed.
End Step.

Lemma calls_ok_all n : calls_ok n (calls n).
Proof.
  induction n as [|n IH].
  - split; intros; lia.
  - split; simpl.
    + by apply next_ok.
    + intros. by apply next_last.
    + by apply nullify_ok.
    + by apply nullify_last.
    + by apply (alloc_ok n).
    + by apply ex_ok.
    + by apply sh_ok.
    + by apply upgrade_ok.
    + by apply retrieve_ok.
Qed.

(** ** Messages *)

Lemma any_queues {A} (m : st (Cntlr N) A) R : (∀ Q, triple (at_q Q) m R) → triple cntlr_wf m R.
Proof. intros Hm s Hs. by apply (Hm (m_dram_directory_req_queue_list s)). Qed.

Lemma calls_for_ok Q p x a :
  triple (at_e Q p x) (calls_for a) (λ k s, calls_ok (3 * qlen a Q + 8) k ∧ at_e Q p x s).
Proof. apply triple_gets. intros s [[Hwf <-] Hp]. split; [apply calls_ok_all|done]. Qed.
Lemma calls_for_q Q a : triple (at_q Q) (calls_for a) (λ k s, calls_ok (3 * qlen a Q + 8) k ∧ at_q Q s).
Proof. apply triple_gets. intros s [Hwf <-]. split; [apply calls_ok_all|done]. Qed.

(** The processing of the request at the front of a queue. *)
Section Front.
Context (Q : gmap Z (list ShmemReq)) (a : Z) (r : ShmemReq) (k : Calls)
  (Hr : req_ok a r) (Hl : (0 < qlen a Q)%nat) (Hk : calls_ok (3 * qlen a Q + 8) k)
  (P : Cntlr N → Prop) (HP : ∀ s, P s → at_q Q s).

Lemma front_ex b : triple P (processExReqFromL2Cache k r b) (λ _, cntlr_wf).
Proof.
  destruct Hr as [E Ha]. eapply triple_conseq; [apply (ex_ok _ k Hk r b (qlen a Q) Q)|exact HP|done]; rewrite ?E; try done; lia.
Qed.
Lemma front_sh b : triple P (processShReqFromL2Cache k r b) (λ _, cntlr_wf).
Proof.
  destruct Hr as [E Ha]. eapply triple_conseq; [apply (sh_ok _ k Hk r b (qlen a Q) Q)|exact HP|done]; rewrite ?E; try done; lia.
Qed.
Lemma front_upgrade b : triple P (processUpgradeReqFromL2Cache k r b) (λ _, cntlr_wf).
Proof.
  destruct Hr as [E Ha]. eapply triple_conseq; [apply (upgrade_ok _ k Hk r b (qlen a Q) Q)|exact HP|done]; rewrite ?E; try done; lia.
Qed.
Lemma front_nullify : triple P (processNullifyReq k r) (λ _, cntlr_wf).
Proof.
  destruct Hr as [E Ha]. eapply triple_conseq; [apply (nullify_ok _ k Hk r (qlen a Q) Q)|exact HP|done]; rewrite ?E; try done; lia.
Qed.
End Front.

Lemma DRAMReply_ok sender m :
  valid_address (sm_address m) → triple cntlr_wf (processDRAMReply sender m) (λ _, cntlr_wf).
Proof.
  intros Ha. apply any_queues. intros Q. unfold processDRAMReply. set (a := sm_address m) in *.
  eapply triple_bind; [apply quiet_at_q, quiet_qsize|]. intros size.
  eapply triple_bind; [apply quiet_at_q, quiet_lift, c_assert_fuel|]. intros [].
  eapply triple_bind; [apply qfront_q|]. intros r. apply triple_pure. intros [Hr Hl].
  eapply triple_bind; [by apply lookup_q|]. intros [p|]; [|by apply triple_fail].
  eapply triple_bind; [apply (get_entry_ok Q p a)|]. intros e. apply triple_pure. intros _.
  eapply (triple_conseq _ (at_q Q) _ (λ _, cntlr_wf)); [|intros s; apply at_e_q|done].
  eapply (triple_bind _ (λ _, at_q Q)).
  { apply quiet_at_q. repeat (case_match; solve_quiet). }
  intros t. eapply triple_bind; [apply quiet_at_q, quiet_lift, getWhere_fuel|]. intros w.
  eapply triple_bind; [apply quiet_at_q, quiet_gets|]. intros bs.
  eapply triple_bind; [apply quiet_at_q, quiet_sendMsg|]. intros [].
  eapply triple_bind; [apply sendDataToNUCA_q, Ha|]. intros [].
  eapply triple_bind; [apply calls_for_q|]. intros k. apply triple_pure. intros Hk.
  apply (next_ok _ k Hk _ (qlen a Q)); [done|done|unfold qlen, a; lia].
Qed.

(** An entry after one of its sharers has left. *)
Lemma removed_inv x e e' :
  entry_inv e → removeSharer x false e = Ok e' →
  let e1 := if m_forwarder_id e' =? x then setForwarder INVALID_CORE_ID e' else e' in
  let e2 := if getNumSharers e1 =? 0 then setDState UNCACHED e1 else e1 in
  entry_inv e2 ∧ m_address e2 = m_address e ∧ (getNumSharers e2 = 0 → entry_inv (setDState UNCACHED e2)).
Proof.
  intros Hi Hr e1 e2. pose proof (remove_inv x e e' Hi Hr) as Hinv.
  apply removeSharer_Ok in Hr as (_ & _ & _ & _ & Ha).
  assert (E : getSharersList e1 = getSharersList e' ∧ m_dstate e1 = m_dstate e' ∧ m_address e1 = m_address e')
    by (unfold e1; by case_match). destruct E as (E1 & E2 & E3).
  rewrite <- E1, <- E2 in Hinv. clearbody e1. rewrite <- E3 in Ha. clear E1 E2 E3 Hi e'.
  unfold e2. destruct (Z.eqb_spec (getNumSharers e1) 0) as [Hz|Hz]; (split; [|split; [done|]]).
  - by apply getNumSharers_0.
  - intros _. by apply getNumSharers_0.
  - rewrite getNumSharers_0 in Hz. unfold entry_inv. destruct Hinv as [|[-> ?]]; done.
  - done.
Qed.

Lemma InvRep_ok sender m :
  valid_address (sm_address m) → triple cntlr_wf (processInvRepFromL2Cache sender m) (λ _, cntlr_wf).
Proof.
  intros Ha. apply any_queues. intros Q. unfold processInvRepFromL2Cache. set (a := sm_address m) in *.
  eapply triple_bind; [by apply lookup_q|]. intros [p|]; [|by apply triple_fail].
  eapply triple_bind; [apply (get_entry_ok Q p a)|]. intros e. apply triple_pure. intros [Hi Hea].
  eapply triple_bind; [apply quiet_at_e, quiet_lift, log_assert_fuel|]. intros [].
  eapply triple_bind; [apply lift_pure, removeSharer_fuel|]. intros e'. apply triple_pure. intros Hrm.
  destruct (removed_inv _ _ _ Hi Hrm) as (Hi2 & Ha2 & Hz). set (e2 := if _ =? 0 then _ else _) in *. clearbody e2.
  eapply triple_bind; [apply put_entry_ok; [done|done|congruence]|]. intros [].
  eapply triple_bind; [apply quiet_at_e, quiet_qsize|]. intros size.
  assert (Hret : triple (at_e Q p a) (ret tt) (λ _, cntlr_wf)) by apply quiet_e_wf, quiet_ret.
  destruct (0 <? size); [|done].
  eapply triple_bind; [apply qfront_e|]. intros r. apply triple_pure. intros [Hr Hl].
  eapply triple_bind; [apply (calls_for_ok Q p a a)|]. intros k. apply triple_pure. intros Hk.
  pose proof (at_e_q Q p a) as HP.
  destruct (req_type r);
    try (case_bool_decide; [by eapply (front_nullify Q a r k Hr Hl Hk)|done]).
  - case_bool_decide; [by eapply (front_ex Q a r k Hr Hl Hk)|done].
  - case_match; [done|]. case_match; [done|]. by eapply (front_sh Q a r k Hr Hl Hk).
  - case_match.
    + eapply triple_bind; [apply quiet_at_e, quiet_lift, hasSharer_fuel|]. intros [|]; [|done].
      by eapply (front_upgrade Q a r k Hr Hl Hk).
    + destruct (Z.eqb_spec (getNumSharers e2) 0) as [Hz0|]; [|done].
      eapply triple_bind; [apply put_entry_ok; [done|by apply Hz|simpl; congruence]|]. intros [].
      by eapply (front_upgrade Q a r k Hr Hl Hk).
Qed.

Lemma FlushRep_ok sender m :
  valid_address (sm_address m) → triple cntlr_wf (processFlushRepFromL2Cache sender m) (λ _, cntlr_wf).
Proof.
  intros Ha. apply any_queues. intros Q. unfold processFlushRepFromL2Cache. set (a := sm_address m) in *.
  eapply triple_bind; [by apply lookup_q|]. intros [p|]; [|by apply triple_fail].
  eapply triple_bind; [apply (get_entry_ok Q p a)|]. intros e. apply triple_pure. intros [Hi Hea].
  eapply triple_bind; [apply quiet_at_e, quiet_lift, hasSharer_fuel|]. intros has.
  eapply triple_bind; [apply quiet_at_e, quiet_lift, c_assert_fuel|]. intros [].
  eapply triple_bind; [apply lift_pure, removeSharer_fuel|]. intros e'. apply triple_pure. intros Hrm.
  eapply triple_bind; [apply lift_pure, setOwner_fuel|]. intros e1. apply triple_pure. intros He1%setOwner_Ok.
  pose proof (remove_inv _ _ _ Hi Hrm) as Hinv. apply removeSharer_Ok in Hrm as (_ & _ & _ & _ & Ha').
  eapply (triple_bind _ (λ e2 s, (entry_inv e2 ∧ m_address e2 = a ∧ (getNumSharers e2 = 0 → entry_inv (setDState UNCACHED e2)))
                                 ∧ at_e Q p a s)).
  { assert (Hl : getSharersList e1 = getSharersList e') by (by subst).
    destruct (Z.eqb_spec (getNumSharers e1) 0) as [Hz|Hz]; rewrite getNumSharers_0 in Hz.
    - apply triple_ret. intros s Hs. split; [|done]. split; [done|]. split; [subst e1; simpl; congruence|done].
    - eapply triple_bind; [apply lift_pure, c_assert_fuel|]. intros []. apply triple_pure. intros Hsh.
      case_bool_decide; [|done]. apply triple_ret. intros s Hs. split; [|done].
      split; [unfold entry_inv; by case_match|]. split; [subst e1; simpl; congruence|]. by intros ?%getNumSharers_0. }
  intros e2. apply triple_pure. intros (Hi2 & Ha2 & Hz).
  eapply triple_bind; [by apply put_entry_ok|]. intros [].
  eapply triple_bind; [apply quiet_at_e, quiet_qsize|]. intros size.
  assert (Hdram : ∀ rq b, triple (at_e Q p a) (sendDataToDram a rq b) (λ _, at_q Q)).
  { intros rq b. eapply triple_conseq; [apply (sendDataToDram_q Q a rq b), Ha|intros s; apply at_e_q|done]. }
  destruct (negb _); [|eapply triple_conseq; [apply Hdram|done|intros u s; apply at_q_wf]].
  eapply triple_bind; [apply qfront_e|]. intros r. apply triple_pure. intros [Hr Hl].
  eapply triple_bind; [apply (calls_for_ok Q p a a)|]. intros k. apply triple_pure. intros Hk.
  pose proof (at_e_q Q p a) as HP.
  destruct (req_type r);
    try (eapply triple_bind; [apply Hdram|]; intros []; by eapply (front_nullify Q a r k Hr Hl Hk)).
  - by eapply (front_ex Q a r k Hr Hl Hk).
  - eapply triple_bind; [apply Hdram|]. intros []. by eapply (front_sh Q a r k Hr Hl Hk).
  - destruct (Z.eqb_spec (getNumSharers e2) 0) as [Hz0|].
    + eapply triple_bind; [apply put_entry_ok; [done|by apply Hz|done]|]. intros [].
      by eapply (front_upgrade Q a r k Hr Hl Hk).
    + eapply triple_conseq; [apply (qupdate_q Q a); by intros ? []|intros s; apply at_e_q|].
      intros u s [Q' Hs]. by eapply at_q_wf.
Qed.

Lemma WbRep_ok sender m :
  valid_address (sm_address m) → triple cntlr_wf (processWbRepFromL2Cache sender m) (λ _, cntlr_wf).
Proof.
  intros Ha. apply any_queues. intros Q. unfold processWbRepFromL2Cache. set (a := sm_address m) in *.
  eapply triple_bind; [by apply lookup_q|]. intros [p|]; [|by apply triple_fail].
  eapply triple_bind; [apply (get_entry_ok Q p a)|]. intros e. apply triple_pure. intros [Hi Hea].
  eapply triple_bind; [apply lift_pure, hasSharer_fuel|]. intros has. apply triple_pure. intros Hhas.
  eapply triple_bind; [apply lift_pure, c_assert_fuel|]. intros []. apply triple_pure. intros Hc. destruct has; [|done].
  apply hasSharer_elem in Hhas.
  eapply triple_bind; [apply lift_pure, setOwner_fuel|]. intros e1. apply triple_pure. intros ->%setOwner_Ok.
  eapply triple_bind; [apply put_entry_ok; [done| |done]|].
  { unfold entry_inv. simpl. intros He. change (getSharersList e = []) in He. rewrite He in Hhas. by apply elem_of_nil in Hhas. }
  intros []. eapply triple_bind; [apply quiet_at_e, quiet_qsize|]. intros size.
  destruct (negb _); [|by apply triple_fail].
  eapply triple_bind; [apply qfront_e|]. intros r. apply triple_pure. intros [Hr Hl].
  eapply triple_bind; [apply quiet_at_e, quiet_lift, log_assert_fuel|]. intros [].
  eapply triple_bind; [apply (calls_for_ok Q p a a)|]. intros k. apply triple_pure. intros Hk.
  eapply (front_sh Q a r k Hr Hl Hk). apply at_e_q.
Qed.

Lemma handle_request_ok m f :
  valid_address (sm_address m) →
  (∀ Q r k, req_ok (sm_address m) r → (0 < qlen (sm_address m) Q)%nat → calls_ok (3 * qlen (sm_address m) Q + 8) k →
     triple (at_q Q) (f k r None) (λ _, cntlr_wf)) →
  triple cntlr_wf (handle_request m f) (λ _, cntlr_wf).
Proof.
  intros Ha Hf. apply any_queues. intros Q. unfold handle_request.
  eapply triple_bind; [apply lift_pure, ShmemReq_new_fuel|]. intros r. apply triple_pure. intros Hr.
  assert (Hra : req_ok (sm_address m) r).
  { unfold ShmemReq_new in Hr. apply res_bind_Ok in Hr as ([] & _ & [= <-]). done. }
  eapply triple_bind; [by apply (qenqueue_q Q)|]. intros []. set (Q' := enqueue _ _ _).
  eapply triple_bind; [apply quiet_at_q, quiet_qsize|]. intros size.
  destruct (size =? 1); [|apply (quiet_wf _ Q'), quiet_ret].
  eapply triple_bind; [apply calls_for_q|]. intros k. apply triple_pure. intros Hk. apply Hf; [done| |done].
  unfold qlen, Q'. rewrite enqueue_of, decide_True, length_app by done. simpl. lia.
Qed.

Definition event_ok (ev : Event) : Prop :=
  match ev with FromL2Cache _ m | FromDRAM _ m => valid_address (sm_address m) end.

Lemma handle_ok ev : event_ok ev → triple cntlr_wf (handle ev) (λ _, cntlr_wf).
Proof.
  destruct ev as [sender m|sender m]; simpl; intros Ha.
  - eapply (triple_bind _ (λ _, cntlr_wf)).
    { apply any_queues. intros Q. eapply triple_conseq; [by apply (lookup_q Q)|done|]. by intros r s [[? _] _]. }
    intros _r. destruct (sm_msg_type m); try (by apply triple_fail).
    + apply handle_request_ok; [done|]. intros Q r k Hr Hl Hk. by eapply front_ex.
    + apply handle_request_ok; [done|]. intros Q r k Hr Hl Hk. by eapply front_sh.
    + apply handle_request_ok; [done|]. intros Q r k Hr Hl Hk. by eapply front_upgrade.
    + by apply InvRep_ok.
    + by apply FlushRep_ok.
    + by apply WbRep_ok.
  - unfold handleMsgFromDRAM. destruct (sm_msg_type m); try (by apply triple_fail). by apply DRAMReply_ok.
Qed.

Lemma handle_all_ok l : Forall event_ok l → triple cntlr_wf (handle_all l) (λ _, cntlr_wf).
Proof.
  induction 1 as [|ev l Hev _ IH]; simpl; [by apply triple_ret|].
  eapply triple_bind; [by apply handle_ok|]. intros []. apply IH.
Qed.
End Facts.

(** ** Construction *)

Lemma DramDirectoryCache_new_wf t total assoc bs max_hw max_num penalty garbage ptrs c :
  (0 < assoc)%nat → Z.of_nat assoc ≤ total < 2 ^ 32 → 0 < bs < 2 ^ 32 →
  DramDirectoryCache_new t total assoc bs max_hw max_num penalty garbage ptrs = Ok c → ddc_wf c.
Proof.
  intros Ha Ht Hb. unfold DramDirectoryCache_new, div_nz. rewrite (proj2 (Z.eqb_neq _ _)) by lia. simpl.
  intros (d & Hd & [= <-])%res_bind_Ok. unfold Directory_new in Hd. apply res_bind_Ok in Hd as (ty & _ & [= <-]).
  assert (Hs : 1 ≤ total / Z.of_nat assoc).
  { apply Z.div_le_lower_bound; lia. }
  assert (Hm : total / Z.of_nat assoc * Z.of_nat assoc ≤ total) by (rewrite Z.mul_comm; apply Z.mul_div_le; lia).
  assert (Hlt : total / Z.of_nat assoc < 2 ^ 32) by nia.
  pose proof (log2_lt_32 (total / Z.of_nat assoc) ltac:(lia)). pose proof (log2_lt_32 bs ltac:(lia)).
  assert (Hempty : ∀ i p, replicate (Z.to_nat total) (@None ptr) !! i ≠ Some (Some p)).
  { intros i p Hi. apply lookup_replicate in Hi as [? _]. done. }
  split; unfold live, heap_of; simpl; try (intros; by rewrite lookup_empty in *); try (intros; exfalso; by eapply Hempty).
  - unfold ddc_dims. simpl. rewrite !floorLog2_pos by lia. rewrite length_replicate. unfold u32.
    rewrite !Z.mod_small by lia. split; [done|]. split; [lia|]. split; [lia|]. split; [done|]. lia.
  - constructor.
  - by intros p ?%elem_of_nil.
Qed.

Lemma Cntlr_new_wf {N} `{NucaOk N} core ahl (nuca : option N) total assoc bs max_num max_hw t protocol penalty
    garbage evict0 ptrs locals s :
  (0 < assoc)%nat → Z.of_nat assoc ≤ total < 2 ^ 32 → 0 < bs < 2 ^ 32 →
  (∀ n, nuca = Some n → nuca_inv n) →
  Cntlr_new core ahl nuca total assoc bs max_num max_hw t protocol penalty garbage evict0 ptrs locals = Ok s →
  cntlr_wf s.
Proof.
  intros Ha Ht Hb Hn. unfold Cntlr_new. intros (c & Hc & Hs)%res_bind_Ok.
  apply res_bind_Ok in Hs as (p & _ & [= <-]). split; [by eapply DramDirectoryCache_new_wf|]. split; [|done].
  intros a l. simpl. by rewrite lookup_empty.
Qed.
