(* ===== verification/DirectoryProps.v ===== *)
(** Properties of the tag directory and of its controller. *)
From S2P Require Import Prelude Utils CacheSet Address Directory DirectoryFacts Shmem NucaCache DirectoryCntlr DirectoryCntlrFacts.
Local Open Scope Z_scope.

(** ** Lookups *)

(** C16: a lookup in the tag directory is right.  On a well-formed directory,
    [getDirectoryEntry] of an address returns the one entry of the address if
    it has one, in its set or among the replaced entries; otherwise it gives a
    free way of the set to the address, uncached, and it returns null only if
    the set is full.  The entries of the other addresses do not change, and the
    directory stays well formed. *)
Theorem getDirectoryEntry_correct c a :
  ddc_wf c → valid_address a →
  ∃ r c', getDirectoryEntry a c = Ok (r, c') ∧ ddc_wf c' ∧
    (∀ p e, m_address e ≠ INVALID_ADDRESS → m_address e ≠ a →
       heap_of c' !! p = Some e ↔ heap_of c !! p = Some e) ∧
    match r with
    | Some p => ∃ e, heap_of c' !! p = Some e ∧ m_address e = a ∧
                  (heap_of c !! p = Some e ∨ absent c a ∧ m_dstate e = UNCACHED)
    | None => absent c a ∧ full c' (set_of c' a)
    end.
Proof.
  intros Hc Ha. pose proof (getDirectoryEntry_runs c a Hc Ha) as Hrun.
  apply runs_elim in Hrun as (r & c' & Hrun & Hwf & Hk & Hr). exists r, c'. split; [done|]. split; [done|].
  split; [apply (ok_heap _ _ _ Hk)|]. destruct r; [done|]. naive_solver.
Qed.

Definition example_ddc : DramDirectoryCache :=
  Eval vm_compute in
    match DramDirectoryCache_new "full_map" 2 1 64 4 4 0 7 [0; 0] with
    | Ok c => c
    | Err _ => mkDDC (mkDirectory FULL_MAP 0 0 0 0 0 0 [] ∅ O 0) [] [] 0 0 0 0 0
    end.

Lemma example_ddc_wf : ddc_wf example_ddc.
Proof.
  eapply (DramDirectoryCache_new_wf "full_map" 2 1 64 4 4 0 7 [0; 0]); [lia|lia|lia|]. vm_compute. reflexivity.
Qed.

Lemma getDirectoryEntry_correct_witness :
  ∃ p c', getDirectoryEntry 4096 example_ddc = Ok (Some p, c') ∧ ddc_wf c'.
Proof.
  destruct (getDirectoryEntry_correct example_ddc 4096 example_ddc_wf) as (r & c' & Hr & Hwf & _ & Hm);
    [split; [unfold in_u64; lia|done]|].
  destruct r as [p|]; [exists p, c'; exact (conj Hr Hwf)|]. vm_compute in Hr. discriminate Hr.
Defined.

(** Additions and removals of sharers. *)
Inductive SharerOp : Type := Add (x : Z) | Remove (x : Z).
Definition sharer_op (max_hw : Z) (op : SharerOp) (e : DirectoryEntry) : res DirectoryEntry :=
  match op with
  | Add x => let? r := addSharer x max_hw e in Ok r.2
  | Remove x => removeSharer x false e
  end.
Fixpoint sharer_ops (max_hw : Z) (l : list SharerOp) (e : DirectoryEntry) : res DirectoryEntry :=
  match l with
  | [] => Ok e
  | op :: l => let? e := sharer_op max_hw op e in sharer_ops max_hw l e
  end.

Lemma sharer_op_trap max_hw op e e' :
  sharer_op max_hw op e = Ok e' → max_hw ≠ Z.of_nat (length (m_sharers e)) →
  length (m_sharers e') = length (m_sharers e) ∧ getEntryLatency e' = getEntryLatency e.
Proof.
  intros Hop Hmax. destruct op as [x|x]; simpl in Hop.
  - apply res_bind_Ok in Hop as ([b e1] & Ha & [= <-]). unfold addSharer in Ha.
    unfold getEntryLatency. destruct (m_kind e) as [seed|trap pen] eqn:Hk;
      (apply res_bind_Ok in Ha as (? & _ & Ha); apply res_bind_Ok in Ha as (_ & _ & Ha)).
    + destruct (_ <=? _); [injection Ha as _ <-; simpl; by rewrite Hk|].
      apply res_bind_Ok in Ha as (l & Hl & [= _ <-]). apply wr_core_Ok in Hl as (_ & _ & ->). simpl.
      by rewrite length_insert, Hk.
    + rewrite (proj2 (Z.eqb_neq _ _)) in Ha by done.
      apply res_bind_Ok in Ha as (l & Hl & [= _ <-]). apply wr_core_Ok in Hl as (_ & _ & ->). simpl.
      by rewrite length_insert, Hk.
  - unfold removeSharer in Hop. apply res_bind_Ok in Hop as (_ & _ & Hop). apply res_bind_Ok in Hop as (b & _ & Hop).
    apply res_bind_Ok in Hop as (_ & _ & Hop). apply res_bind_Ok in Hop as (l & Hl & [= <-]).
    apply wr_core_Ok in Hl as (_ & _ & ->). simpl. by rewrite length_insert.
Qed.

(** the limitless directory never traps.  [addSharer] of the limitless class
    compares the limit with the number of bits of its container instead of the
    number of sharers, so unless the limit is exactly that number (64 for a
    system of at most 64 cores) no sequence of additions and removals of sharers
    enables the software trap, and its penalty is never charged. *)
Theorem limitless_never_traps max_hw ops d e :
  m_directory_type d = LIMITLESS → max_hw ≠ Z.of_nat (sharers_size (m_max_num_sharers d)) →
  sharer_ops max_hw ops (new_entry d) = Ok e → getEntryLatency e = 0.
Proof.
  intros Hd Hmax He.
  assert (Hgen : ∀ e0, max_hw ≠ Z.of_nat (length (m_sharers e0)) → sharer_ops max_hw ops e0 = Ok e →
                 getEntryLatency e = getEntryLatency e0).
  { clear. induction ops as [|op ops IH]; intros e0 Hmax He; simpl in He; [by injection He as ->|].
    apply res_bind_Ok in He as (e1 & H1 & He). destruct (sharer_op_trap _ _ _ _ H1 Hmax) as [Hl Hlat].
    rewrite <- Hlat. apply IH; [by rewrite Hl|done]. }
  rewrite (Hgen (new_entry d)); [|by unfold new_entry; simpl; rewrite length_replicate|done].
  unfold getEntryLatency, new_entry. simpl. by rewrite Hd.
Qed.

Lemma limitless_never_traps_witness :
  (let d := mkDirectory LIMITLESS 4 0 2 2 8 100 [] ∅ O 0 in
   match sharer_ops 2 [Add 0; Add 1; Add 2; Add 3] (new_entry d) with
   | Ok e => getNumSharers e = 4 ∧ getEntryLatency e = 0
   | Err _ => False
   end).
Proof.
  intros d. destruct (sharer_ops 2 [Add 0; Add 1; Add 2; Add 3] (new_entry d)) as [e|] eqn:E; [|by vm_compute in E].
  split; [vm_compute in E; by injection E as <-|].
  by apply (limitless_never_traps 2 [Add 0; Add 1; Add 2; Add 3] d e).
Defined.

(** ** The controller *)

(** C1: the directory controller keeps the coherence invariant.  Build a
    controller for any protocol variant and directory type, with any NUCA cache
    that keeps its interface, and let it handle any sequence of messages from
    the caches and the memory, also ones that a correct system would not send.
    Unless the run stops at an assertion of the code, every address has at most
    one directory entry, an uncached line has no sharer, a shared line has one,
    and an exclusive or modified line is in exactly one cache, the recorded
    owner.  No handler recurses without end. *)
Theorem directory_coherence {N} `{NucaOk N} core ahl (nuca : option N) total assoc bs max_num max_hw t protocol
    penalty garbage evict0 ptrs locals s0 events :
  (0 < assoc)%nat → Z.of_nat assoc ≤ total < 2 ^ 32 → 0 < bs < 2 ^ 32 →
  (∀ n, nuca = Some n → nuca_inv n) →
  Cntlr_new core ahl nuca total assoc bs max_num max_hw t protocol penalty garbage evict0 ptrs locals = Ok s0 →
  Forall event_ok events →
  match handle_all events s0 with
  | Ok (_, s) =>
      (∀ p q e e', heap_of (m_dram_directory_cache s) !! p = Some e →
         heap_of (m_dram_directory_cache s) !! q = Some e' →
         m_address e = m_address e' → m_address e ≠ INVALID_ADDRESS → p = q) ∧
      (∀ p e, heap_of (m_dram_directory_cache s) !! p = Some e →
         match m_dstate e with
         | UNCACHED => getSharersList e = []
         | SHARED => getSharersList e ≠ []
         | EXCLUSIVE | MODIFIED => getSharersList e = [m_owner_id e]
         | OWNED => False
         end)
  | Err er => er ≠ ErrFuel
  end.
Proof.
  intros Ha Ht Hb Hn Hnew Hev.
  assert (Hwf : cntlr_wf s0) by (eapply Cntlr_new_wf; [exact Ha|exact Ht|exact Hb|exact Hn|exact Hnew]).
  pose proof (handle_all_ok events Hev s0 Hwf) as Hrun.
  destruct (handle_all events s0) as [[u s]|er]; [|done]. destruct Hrun as (Hd & _).
  split; [apply (wf_unique _ Hd)|apply (wf_entry _ Hd)].
Qed.

(** A write miss of core 1, the reply of the memory, then a read of core 2. *)
Definition example_msg (t : msg_t) (from : component_t) (requester : Z) (data : option (list Z)) : ShmemMsg :=
  setWhere DRAM (ShmemMsg_new t from TAG_DIR requester 4096 data (match data with Some _ => 64 | None => 0 end)).
Definition example_events : list Event :=
  [FromL2Cache 1 (example_msg EX_REQ L2_CACHE 1 None);
   FromDRAM 0 (example_msg DRAM_READ_REP DRAM_COMPONENT 1 (Some (repeat 0 64)));
   FromL2Cache 2 (example_msg SH_REQ L2_CACHE 2 None);
   FromL2Cache 1 (example_msg WB_REP L2_CACHE 2 (Some (repeat 0 64)))].
Definition example_cntlr : res (Cntlr (NucaCache AnyPolicy)) :=
  Cntlr_new 0 (mkAHL 6 (2 ^ 6 - 1) [0] 1 64) (Some example_nuca) 2 1 64 4 4 "full_map" "mesi" 0 7 0 [0; 0]
    (λ _, mkLocals false 0 []).

Definition example_sent : res (list (Z * msg_t)) :=
  let? s0 := example_cntlr in
  let? r := handle_all example_events s0 in
  Ok ((λ m : Z * ShmemMsg, (m.1, sm_msg_type m.2)) <$> m_sent r.2).

Lemma directory_coherence_witness :
  example_sent = Ok [(0, DRAM_READ_REQ); (1, EX_REP); (1, WB_REQ); (2, SH_REP)] ∧
  match example_cntlr with
  | Ok s0 =>
      match handle_all example_events s0 with
      | Ok (_, s) => ∀ p e, heap_of (m_dram_directory_cache s) !! p = Some e → m_dstate e ≠ OWNED
      | Err er => er ≠ ErrFuel
      end
  | Err _ => True
  end.
Proof.
  split; [vm_compute; reflexivity|]. destruct example_cntlr as [s0|] eqn:E0; [|done].
  pose proof (directory_coherence 0 (mkAHL 6 (2 ^ 6 - 1) [0] 1 64) (Some example_nuca) 2 1 64 4 4 "full_map" "mesi"
    0 7 0 [0; 0] (λ _, mkLocals false 0 []) s0 example_events) as Hth.
  assert (Hev : Forall event_ok example_events) by (repeat constructor; unfold in_u64; simpl; try done; lia).
  specialize (Hth ltac:(lia) ltac:(lia) ltac:(lia) ltac:(intros n [= <-]; exact (proj1 example_nuca_wf)) E0 Hev).
  destruct (handle_all example_events s0) as [[u s]|er]; [|done]. destruct Hth as [_ Hth].
  intros p e Hp Ho. specialize (Hth p e Hp). by rewrite Ho in Hth.
Defined.

(** ** Exclusive requests *)

Section Exclusive.
Context {N : Type} `{NucaOk N}.
Implicit Types (s : Cntlr N).

(** A message without data to a cache about the line of a request. *)
Definition ctl_msg (t : msg_t) (r : ShmemReq) : ShmemMsg :=
  setWhere UNKNOWN (ShmemMsg_new t TAG_DIR L2_CACHE (req_requester r) (req_address r) None 0).

Lemma lookup_known s p e :
  cntlr_wf s → valid_address (m_address e) → heap_of (m_dram_directory_cache s) !! p = Some e →
  ∃ c, on_ddc (getDirectoryEntry (m_address e)) s = Ok (Some p, put_ddc c s) ∧ heap_of c !! p = Some e.
Proof.
  intros (Hd & _) Ha Hp. pose proof (getDirectoryEntry_runs _ _ Hd Ha) as Hrun.
  apply runs_elim in Hrun as (r & c & Hrun & Hwf & _ & Hr). exists c. unfold on_ddc, zoom. rewrite Hrun. simpl.
  destruct r as [q|].
  - destruct Hr as (e' & He' & Hea & [Hq|[Habs _]]); [|by destruct (Habs p e Hp)].
    assert (q = p) as -> by (eapply (wf_unique _ Hd q p e' e); [done|done|done|rewrite Hea; apply Ha]). naive_solver.
  - destruct Hr as (_ & Habs & _). by destruct (Habs p e Hp).
Qed.

Lemma get_known s p e :
  heap_of (m_dram_directory_cache s) !! p = Some e → get_entry p s = Ok (e, s).
Proof.
  intros Hp. destruct (get_entry p s) as [[e' s']|err] eqn:E.
  - pose proof (get_entry_state _ _ _ _ E) as ->.
    unfold get_entry, on_ddc, on_directory, zoom, deref, heap_of in *. rewrite Hp in E. by injection E as ->.
  - unfold get_entry, on_ddc, on_directory, zoom, deref, heap_of in *. by rewrite Hp in E.
Qed.

Lemma send_invalidations_sent r l s :
  send_invalidations (req_requester r) (req_address r) l s
  = Ok (tt, put_sent (m_sent s ++ ((λ x, (x, ctl_msg INV_REQ r)) <$> l)) s).
Proof.
  revert s. induction l as [|x l IH]; intros s.
  - simpl. rewrite app_nil_r. by destruct s.
  - unfold send_invalidations in *. simpl. unfold st_bind at 1. simpl. rewrite IH. simpl. by rewrite <- app_assoc.
Qed.

(** C17: an exclusive request goes to the caches that hold the line.  If the line
    is shared, the controller sends one invalidation to each sharer and to
    nobody else; if it is exclusive or modified, it sends one flush request to
    the owner.  Until the replies arrive no reply goes to the requester, and
    neither the directory entry nor the queue of requests changes. *)
Theorem exclusive_request_asks_holders k s r p e :
  cntlr_wf s → valid_address (m_address e) → heap_of (m_dram_directory_cache s) !! p = Some e →
  req_address r = m_address e → m_dstate e ≠ UNCACHED →
  ∃ s', processExReqFromL2Cache k r None s = Ok (tt, s') ∧
    m_sent s' = m_sent s ++ (match m_dstate e with
                             | SHARED => (λ x, (x, ctl_msg INV_REQ r)) <$> getSharersList e
                             | _ => [(m_owner_id e, ctl_msg FLUSH_REQ r)]
                             end) ∧
    heap_of (m_dram_directory_cache s') !! p = Some e ∧
    m_dram_directory_req_queue_list s' = m_dram_directory_req_queue_list s.
Proof.
  intros Hs Ha Hp Hr Hd. destruct (lookup_known s p e Hs Ha Hp) as (c & Hlk & Hc).
  pose proof (wf_entry _ (proj1 Hs) p e Hp) as Hi.
  unfold processExReqFromL2Cache. rewrite Hr. unfold st_bind at 1. rewrite Hlk. cbn [res_bind fst snd].
  unfold st_bind at 1, ret at 1. cbn [res_bind fst snd]. unfold st_bind at 1.
  rewrite (get_known (put_ddc c s) p e Hc). cbn [res_bind fst snd].
  unfold entry_inv in Hi. destruct (m_dstate e); [done| |done| |].
  - unfold st_bind at 1. simpl. rewrite <- Hr, send_invalidations_sent. eexists. split; [reflexivity|]. done.
  - unfold st_bind at 1, sendMsg. simpl. rewrite <- Hr. eexists. split; [reflexivity|]. done.
  - unfold st_bind at 1, sendMsg. simpl. rewrite <- Hr. eexists. split; [reflexivity|]. done.
Qed.
End Exclusive.

(** The controller after core 1 has got the line for writing. *)
Definition example_run (events : list Event) : res (Cntlr (NucaCache AnyPolicy)) :=
  let? s0 := example_cntlr in
  let? r := handle_all events s0 in Ok r.2.

Lemma example_run_wf events s : Forall event_ok events → example_run events = Ok s → cntlr_wf s.
Proof.
  intros Hev (s0 & E0 & E1)%res_bind_Ok. apply res_bind_Ok in E1 as ([u s1] & E1 & [= <-]).
  assert (Hwf : cntlr_wf s0).
  { eapply Cntlr_new_wf; [| | | |exact E0]; [lia|lia|lia|]. intros n [= <-]. exact (proj1 example_nuca_wf). }
  pose proof (handle_all_ok events Hev s0 Hwf) as Hrun. by rewrite E1 in Hrun.
Qed.

Definition example_req : ShmemReq :=
  mkShmemReq (ShmemMsg_copy (example_msg EX_REQ L2_CACHE 2 None)) false INVALID_CORE_ID.

Definition example_entry : DirectoryEntry :=
  mkDirectoryEntry 4096 MODIFIED 1 7 (false :: true :: repeat false 62) (LimitedNoBroadcast Random_init).

Lemma exclusive_request_asks_holders_witness :
  match example_run (take 2 example_events) with
  | Ok s => ∃ s', processExReqFromL2Cache (calls 0) example_req None s = Ok (tt, s') ∧
                  m_sent s' = m_sent s ++ [(1, ctl_msg FLUSH_REQ example_req)]
  | Err _ => False
  end.
Proof.
  destruct (example_run (take 2 example_events)) as [s|] eqn:E; [|vm_compute in E; discriminate E].
  assert (Hwf : cntlr_wf s).
  { eapply example_run_wf; [|exact E]. repeat constructor; unfold in_u64; simpl; try done; lia. }
  assert (He : (let? s := example_run (take 2 example_events) in Ok (heap_of (m_dram_directory_cache s) !! 0%nat))
               = Ok (Some example_entry)) by (vm_compute; reflexivity).
  rewrite E in He. injection He as He.
  destruct (exclusive_request_asks_holders (calls 0) s example_req 0%nat example_entry Hwf)
    as (s' & Hs' & Hsent & _); [split; [unfold in_u64; simpl; lia|done]|exact He|done|done|]. exists s'. exact (conj Hs' Hsent).
Defined.
