(* ===== verification/System.v ===== *)
(** The state of the simulated machine that its synchronisation services
    share: the thread manager ([system/thread_manager.cc], [core/thread.cc]),
    the cores, the synchronisation server, the system call server and the
    barrier server; and the operations on it up to [resumeThread] and
    [moveThread].  The scheduler is an interface, the class [Scheduler]. *)
From S2P Require Import Prelude SubsecondTime.
Local Open Scope Z_scope.

(** * Threads and cores *)
Definition INVALID_THREAD_ID : Z := -1.
Definition INVALID_CORE_ID : Z := -1.

Inductive CoreState : Type :=
| RUNNING | INITIALIZING | STALLED | SLEEPING | WAKING_UP | IDLE | BROKEN.
#[export] Instance CoreState_eq_dec : EqDecision CoreState.
Proof. solve_decision. Defined.

Inductive stall_type_t : Type :=
| STALL_UNSCHEDULED | STALL_BROKEN | STALL_JOIN | STALL_MUTEX | STALL_COND
| STALL_BARRIER | STALL_FUTEX | STALL_PAUSE | STALL_SLEEP | STALL_SYSCALL.
#[export] Instance stall_type_eq_dec : EqDecision stall_type_t.
Proof. solve_decision. Defined.

(** [ThreadManager::ThreadState]; its constructor does not set the reason. *)
Record ThreadState : Type := {
  status : CoreState;
  stalled_reason : option stall_type_t;
  waiter : Z }.
Definition ThreadState_new : ThreadState :=
  {| status := IDLE; stalled_reason := None; waiter := INVALID_THREAD_ID |}.
Definition set_status (c : CoreState) (t : ThreadState) : ThreadState :=
  {| status := c; stalled_reason := stalled_reason t; waiter := waiter t |}.
Definition set_stalled (r : stall_type_t) (t : ThreadState) : ThreadState :=
  {| status := STALLED; stalled_reason := Some r; waiter := waiter t |}.
Definition set_waiter (w : Z) (t : ThreadState) : ThreadState :=
  {| status := status t; stalled_reason := stalled_reason t; waiter := w |}.

(** [Thread]; the wake-up message is a pointer that carries a boolean. *)
Record Thread : Type := {
  m_app_id : Z;
  m_wakeup_time : Z;
  m_wakeup_msg : bool;
  m_core : option Z;
  m_va2pa_func : option (Z → Z → Z);
  m_va2pa_arg : Z;
  clear_tid : bool;
  tid_ptr : Z }.
Definition with_wakeup (time : Z) (msg : bool) (t : Thread) : Thread :=
  {| m_app_id := m_app_id t; m_wakeup_time := time; m_wakeup_msg := msg; m_core := m_core t;
     m_va2pa_func := m_va2pa_func t; m_va2pa_arg := m_va2pa_arg t;
     clear_tid := clear_tid t; tid_ptr := tid_ptr t |}.
Definition with_core (c : option Z) (t : Thread) : Thread :=
  {| m_app_id := m_app_id t; m_wakeup_time := m_wakeup_time t; m_wakeup_msg := m_wakeup_msg t;
     m_core := c; m_va2pa_func := m_va2pa_func t; m_va2pa_arg := m_va2pa_arg t;
     clear_tid := clear_tid t; tid_ptr := tid_ptr t |}.
(** The constructor; the message is not initialised. *)
Definition Thread_new (garbage_msg : bool) (app_id : Z) : Thread :=
  {| m_app_id := app_id; m_wakeup_time := 0; m_wakeup_msg := garbage_msg; m_core := None;
     m_va2pa_func := None; m_va2pa_arg := 0; clear_tid := false; tid_ptr := 0 |}.
Definition va2pa (t : Thread) (logical_address : Z) : Z :=
  match m_va2pa_func t with
  | Some f => f (m_va2pa_arg t) logical_address
  | None => logical_address
  end.

(** What the services use of a core; the elapsed time is that of its
    performance model. *)
Record Core : Type := {
  c_state : CoreState;
  c_thread : option Z;
  c_elapsed : Z;
  c_instructions : Z }.
Definition setState (s : CoreState) (c : Core) : Core :=
  {| c_state := s; c_thread := c_thread c; c_elapsed := c_elapsed c;
     c_instructions := c_instructions c |}.
Definition setThread (t : option Z) (c : Core) : Core :=
  {| c_state := c_state c; c_thread := t; c_elapsed := c_elapsed c;
     c_instructions := c_instructions c |}.

Record ThreadSpawnRequest : Type := { r_thread_by : Z; r_thread_id : Z; r_time : Z }.

Record ThreadManager : Type := {
  m_threads : list Thread;
  m_thread_state : list ThreadState;
  m_thread_spawn_list : list ThreadSpawnRequest }.

(** * The servers *)
Definition NO_OWNER : Z := -1.
Record SimMutex : Type := { m_waiting : list Z; m_owner : Z }.
Definition SimMutex_new : SimMutex := {| m_waiting := []; m_owner := NO_OWNER |}.
(** A waiter of a condition variable; a mutex is named by its address, the key
    of the map that owns it. *)
Record CondWaiter : Type := { cw_thread_id : Z; cw_mutex : Z }.
Record SimBarrier : Type := { b_waiting : list Z; m_count : Z }.
Definition SimBarrier_new (count : Z) : SimBarrier := {| b_waiting := []; m_count := count |}.

Record SyncServer : Type := {
  m_mutexes : gmap Z SimMutex;
  m_conds : gmap Z (list CondWaiter);
  m_barriers : list SimBarrier }.

Record Waiter : Type := { w_thread_id : Z; w_mask : Z; w_timeout : Z }.
Record SyscallServer : Type := {
  m_sleeping : list Waiter;
  m_futexes : gmap Z (list Waiter) }.

(** [m_core_cond] holds for each core whether a host thread waits on its
    condition variable. *)
Record BarrierSyncServer : Type := {
  m_barrier_interval : Z;
  m_next_barrier_time : Z;
  m_local_clock_list : list Z;
  m_barrier_acquire_list : list bool;
  m_core_cond : list bool;
  m_to_release : list Z;
  m_core_group : list Z;
  m_core_thread : list Z;
  m_global_time : Z;
  m_fastforward : bool;
  m_disable : bool }.

(** The simulator: [mem] is the memory of the application, as the 32-bit
    integers at its addresses, and [X] the state of the scheduler. *)
Record Sys (X : Type) : Type := {
  tm : ThreadManager;
  cores : list Core;
  sync : SyncServer;
  sysc : SyscallServer;
  bss : BarrierSyncServer;
  mem : Z → Z;
  reschedule_cost : Z;
  sched : X }.
Arguments tm {X} _.
Arguments cores {X} _.
Arguments sync {X} _.
Arguments sysc {X} _.
Arguments bss {X} _.
Arguments mem {X} _ _.
Arguments reschedule_cost {X} _.
Arguments sched {X} _.

(** What the host decides: the order in which an [unordered_map] is
    traversed, the outcome of [random_shuffle], and the number of its cores. *)
Class Host : Type := {
  unordered : list Z → list Z;
  random_shuffle : list Z → list Z;
  num_host_cores : Z }.
Class HostOk `{Host} : Prop := {
  unordered_perm l : unordered l ≡ₚ l;
  random_shuffle_perm l : random_shuffle l ≡ₚ l }.

(** The scheduler of the thread manager: the virtual methods of
    [scheduler/scheduler.h] and [scheduler_dynamic.h].  They move threads and
    keep a state of their own. *)
Class Scheduler (X : Type) : Type := {
  sch_threadCreate : Z → st (Sys X) Z;
  sch_threadStart : Z → Z → st (Sys X) unit;
  sch_threadStall : Z → stall_type_t → Z → st (Sys X) unit;
  sch_threadResume : Z → Z → Z → st (Sys X) unit;
  sch_threadExit : Z → Z → st (Sys X) unit;
  sch_periodic : Z → st (Sys X) unit }.

(** * Member updates *)
Section Updates.
Context {X : Type}.
Implicit Types s : Sys X.

Definition put_tm (t : ThreadManager) s : Sys X :=
  {| tm := t; cores := cores s; sync := sync s; sysc := sysc s; bss := bss s; mem := mem s;
     reschedule_cost := reschedule_cost s; sched := sched s |}.
Definition put_cores (c : list Core) s : Sys X :=
  {| tm := tm s; cores := c; sync := sync s; sysc := sysc s; bss := bss s; mem := mem s;
     reschedule_cost := reschedule_cost s; sched := sched s |}.
Definition put_sync (y : SyncServer) s : Sys X :=
  {| tm := tm s; cores := cores s; sync := y; sysc := sysc s; bss := bss s; mem := mem s;
     reschedule_cost := reschedule_cost s; sched := sched s |}.
Definition put_sysc (y : SyscallServer) s : Sys X :=
  {| tm := tm s; cores := cores s; sync := sync s; sysc := y; bss := bss s; mem := mem s;
     reschedule_cost := reschedule_cost s; sched := sched s |}.
Definition put_bss (b : BarrierSyncServer) s : Sys X :=
  {| tm := tm s; cores := cores s; sync := sync s; sysc := sysc s; bss := b; mem := mem s;
     reschedule_cost := reschedule_cost s; sched := sched s |}.
Definition put_mem (m : Z → Z) s : Sys X :=
  {| tm := tm s; cores := cores s; sync := sync s; sysc := sysc s; bss := bss s; mem := m;
     reschedule_cost := reschedule_cost s; sched := sched s |}.
Definition put_sched (x : X) s : Sys X :=
  {| tm := tm s; cores := cores s; sync := sync s; sysc := sysc s; bss := bss s; mem := mem s;
     reschedule_cost := reschedule_cost s; sched := x |}.
End Updates.

Definition put_threads (l : list Thread) (t : ThreadManager) : ThreadManager :=
  {| m_threads := l; m_thread_state := m_thread_state t;
     m_thread_spawn_list := m_thread_spawn_list t |}.
Definition put_states (l : list ThreadState) (t : ThreadManager) : ThreadManager :=
  {| m_threads := m_threads t; m_thread_state := l;
     m_thread_spawn_list := m_thread_spawn_list t |}.
Definition put_spawn (l : list ThreadSpawnRequest) (t : ThreadManager) : ThreadManager :=
  {| m_threads := m_threads t; m_thread_state := m_thread_state t; m_thread_spawn_list := l |}.
Definition put_mutexes (m : gmap Z SimMutex) (y : SyncServer) : SyncServer :=
  {| m_mutexes := m; m_conds := m_conds y; m_barriers := m_barriers y |}.
Definition put_conds (m : gmap Z (list CondWaiter)) (y : SyncServer) : SyncServer :=
  {| m_mutexes := m_mutexes y; m_conds := m; m_barriers := m_barriers y |}.
Definition put_barriers (l : list SimBarrier) (y : SyncServer) : SyncServer :=
  {| m_mutexes := m_mutexes y; m_conds := m_conds y; m_barriers := l |}.
Definition put_sleeping (l : list Waiter) (y : SyscallServer) : SyscallServer :=
  {| m_sleeping := l; m_futexes := m_futexes y |}.
Definition put_futexes (m : gmap Z (list Waiter)) (y : SyscallServer) : SyscallServer :=
  {| m_sleeping := m_sleeping y; m_futexes := m |}.

(** Vectors indexed by a signed number. *)
Definition rdz {A} (l : list A) (i : Z) : res A :=
  if i <? 0 then Err ErrUndefined else rd l (Z.to_nat i).
Definition updz {A} (l : list A) (i : Z) (f : A → A) : res (list A) :=
  let? x := rdz l i in wr l (Z.to_nat i) (f x).

(** * The thread manager *)
Section Threads.
Context {X : Type}.
Notation M := (st (Sys X)).

Definition get_state (thread_id : Z) : M ThreadState :=
  let! l := gets (λ s, m_thread_state (tm s)) in lift (rdz l thread_id).
Definition upd_state (thread_id : Z) (f : ThreadState → ThreadState) : M unit :=
  let! l := gets (λ s, m_thread_state (tm s)) in
  let! l := lift (updz l thread_id f) in
  modify (λ s, put_tm (put_states l (tm s)) s).

Definition getThreadFromID (thread_id : Z) : M Thread :=
  let! l := gets (λ s, m_threads (tm s)) in
  lift (log_assert ((0 <=? thread_id) && (thread_id <? Z.of_nat (length l))) "Invalid thread_id");!
  lift (rdz l thread_id).
Definition upd_thread (thread_id : Z) (f : Thread → Thread) : M unit :=
  let! l := gets (λ s, m_threads (tm s)) in
  let! l := lift (updz l thread_id f) in
  modify (λ s, put_tm (put_threads l (tm s)) s).

Definition getCoreFromID (core_id : Z) : M Core :=
  let! l := gets cores in
  lift (log_assert (core_id <? Z.of_nat (length l)) "Illegal index in getCoreFromID!");!
  lift (rdz l core_id).
Definition upd_core (core_id : Z) (f : Core → Core) : M unit :=
  let! l := gets cores in
  let! l := lift (updz l core_id f) in
  modify (put_cores l).

Definition isThreadRunning (thread_id : Z) : M bool :=
  let! t := get_state thread_id in ret (bool_decide (status t = RUNNING)).
Definition isThreadInitializing (thread_id : Z) : M bool :=
  let! t := get_state thread_id in ret (bool_decide (status t = INITIALIZING)).

Definition anyThreadRunning : M bool :=
  gets (λ s, existsb (λ t, bool_decide (status t = RUNNING) || bool_decide (status t = INITIALIZING))
               (m_thread_state (tm s))).
Definition areAllCoresRunning : M bool :=
  gets (λ s, forallb (λ t, negb (bool_decide (status t = IDLE))) (m_thread_state (tm s))).

(** [Thread::signal] and [Thread::setCore]. *)
Definition signal (thread_id time : Z) (msg : bool) : M unit :=
  let! _ := getThreadFromID thread_id in
  upd_thread thread_id (with_wakeup time msg).

Definition setCore (thread_id : Z) (core : option Z) : M unit :=
  let! t := getThreadFromID thread_id in
  match m_core t with Some c => upd_core c (setThread None) | None => ret tt end;!
  upd_thread thread_id (with_core core);!
  match core with
  | Some c =>
      let! co := getCoreFromID c in
      lift (log_assert (negb (bool_decide (is_Some (c_thread co)))) "Cannot move thread");!
      upd_core c (setThread (Some thread_id))
  | None => ret tt
  end.
End Threads.
