(* ===== verification/Dvfs.v ===== *)
(** Frequency scaling: the clock domains of the cores
    (common/system/dvfs_manager.cc) and the frequency commands of the magic
    server (common/system/magic_server.cc). *)
From S2P Require Import Prelude SubsecondTime System.
Local Open Scope Z_scope.

(** * The DVFS manager

    [queued] lists the cores that got a pseudo instruction for the transition
    latency, with that latency. *)
Record DvfsManager : Type := {
  m_cores_per_socket : Z;
  m_transition_latency : Z;
  m_num_app_cores : Z;
  app_proc_domains : list Z;
  global_domains : list Z;
  queued : list (Z * Z) }.
Definition put_domains (l : list Z) (q : list (Z * Z)) (d : DvfsManager) : DvfsManager :=
  {| m_cores_per_socket := m_cores_per_socket d; m_transition_latency := m_transition_latency d;
     m_num_app_cores := m_num_app_cores d; app_proc_domains := l;
     global_domains := global_domains d; queued := q |}.

Definition getCoreDomainId (d : DvfsManager) (core_id : Z) : res Z :=
  log_assert (core_id <? m_num_app_cores d)
    "Core domain ids are only supported for application process domains";?
  time_div core_id (m_cores_per_socket d).

(** The per-core frequencies that differ from the global one. *)
Fixpoint override_domains (d : DvfsManager) (core_hz : Z) (i : Z) (hz : list Z) : res DvfsManager :=
  match hz with
  | [] => Ok d
  | f :: hz =>
      let? d :=
        (if negb (f =? core_hz) then
           let? domain := getCoreDomainId d i in
           let? period := fromFreqHz f in
           let? l := updz (app_proc_domains d) domain (λ _, period) in
           Ok (put_domains l (queued d) d)
         else Ok d) in
      override_domains d core_hz (i + 1) hz
  end.
(** The constructor; the configured frequencies are in Hz. *)
Definition DvfsManager_new (cores_per_socket latency core_hz : Z) (hz : list Z) : res DvfsManager :=
  let cores := Z.of_nat (length hz) in
  let? sockets := time_div cores cores_per_socket in
  let? rest := time_mod cores cores_per_socket in
  let domains := if rest =? 0 then sockets else sockets + 1 in
  let? period := fromFreqHz core_hz in
  override_domains
    {| m_cores_per_socket := cores_per_socket; m_transition_latency := latency;
       m_num_app_cores := cores; app_proc_domains := replicate (Z.to_nat domains) period;
       global_domains := [period]; queued := [] |} core_hz 0 hz.

Definition getGlobalDomain (d : DvfsManager) (domain_id : Z) : res Z :=
  log_assert (u32 domain_id <? Z.of_nat (length (global_domains d))) "Global domain requested";?
  rdz (global_domains d) domain_id.
Definition getCoreDomain (d : DvfsManager) (core_id : Z) : res Z :=
  if core_id <? m_num_app_cores d then
    let? domain := getCoreDomainId d core_id in rdz (app_proc_domains d) domain
  else rdz (global_domains d) 0.
Definition setCoreDomain (core_id new_freq : Z) (d : DvfsManager) : res DvfsManager :=
  if core_id <? m_num_app_cores d then
    let? domain := getCoreDomainId d core_id in
    let? old := rdz (app_proc_domains d) domain in
    let q := if negb (new_freq =? old) then queued d ++ [(core_id, m_transition_latency d)] else queued d in
    let? l := updz (app_proc_domains d) domain (λ _, new_freq) in
    Ok (put_domains l q d)
  else Err (ErrLog "Cannot change non-core frequency").

(** * The magic server

    A frequency of zero switches the core off: the thread manager stalls a
    thread and the core is broken; that branch is [None]. *)
Definition getFrequency (d : DvfsManager) (core_number : Z) : res Z :=
  if m_num_app_cores d <=? core_number then Ok (2 ^ 64 - 1)
  else let? period := getCoreDomain d core_number in getPeriodInFreqMHz period.
Definition setFrequency (core_number freq_in_mhz : Z) (d : DvfsManager) : res (Z * option DvfsManager) :=
  if m_num_app_cores d <=? core_number then Ok (1, Some d) else
  let freq_in_hz := u64 (1000000 * freq_in_mhz) in
  if 0 <? freq_in_hz then
    let? period := fromFreqHz freq_in_hz in
    let? d := setCoreDomain core_number period d in Ok (0, Some d)
  else Ok (0, None).

(** * Facts *)
Record dvfs_ok (d : DvfsManager) : Prop := {
  do_socket : 0 < m_cores_per_socket d;
  do_domains : m_num_app_cores d ≤ m_cores_per_socket d * Z.of_nat (length (app_proc_domains d)) }.

Lemma rdz_at {A} (l : list A) i x : 0 ≤ i → l !! Z.to_nat i = Some x → rdz l i = Ok x.
Proof. intros H0 Hx. unfold rdz, rd. rewrite (proj2 (Z.ltb_ge _ _) H0). by rewrite Hx. Qed.
Lemma updz_at {A} (l : list A) i x f :
  0 ≤ i → l !! Z.to_nat i = Some x → updz l i f = Ok (<[Z.to_nat i := f x]> l).
Proof. intros H0 Hx. unfold updz. rewrite (rdz_at _ _ _ H0 Hx). simpl. unfold wr. by rewrite Hx. Qed.

Lemma getCoreDomainId_ok d c :
  dvfs_ok d → 0 ≤ c < m_num_app_cores d →
  getCoreDomainId d c = Ok (c / m_cores_per_socket d) ∧ 0 ≤ c / m_cores_per_socket d ∧
  is_Some (app_proc_domains d !! Z.to_nat (c / m_cores_per_socket d)).
Proof.
  intros [Hs Hd] Hc. unfold getCoreDomainId. rewrite (proj2 (Z.ltb_lt _ _)) by lia. simpl.
  rewrite time_div_Ok by lia. split; [done|]. split; [apply Z.div_pos; lia|]. apply lookup_lt_is_Some_2.
  assert (c / m_cores_per_socket d < Z.of_nat (length (app_proc_domains d))) by (apply Z.div_lt_upper_bound; lia). lia.
Qed.

(** What a successful command does to the frequency of every core. *)
Lemma setFrequency_spec d c f :
  dvfs_ok d → 0 ≤ c < m_num_app_cores d → 0 < f ≤ 31622 →
  ∃ d', setFrequency c f d = Ok (0, Some d') ∧ dvfs_ok d' ∧
    m_num_app_cores d' = m_num_app_cores d ∧ m_cores_per_socket d' = m_cores_per_socket d ∧
    ∀ e, 0 ≤ e < m_num_app_cores d →
      getFrequency d' e = if e / m_cores_per_socket d =? c / m_cores_per_socket d then Ok f else getFrequency d e.
Proof.
  intros Hd Hc Hf. unfold setFrequency. rewrite (proj2 (Z.leb_gt _ _)) by lia.
  rewrite u64_id by (unfold in_u64; lia). rewrite (proj2 (Z.ltb_lt _ _)) by lia.
  assert (Hpp : ∃ p, fromFreqHz (1000000 * f) = Ok p ∧ getPeriodInFreqMHz p = Ok f) by (by apply frequency_back).
  destruct Hpp as (p & Hp & Hback). rewrite Hp. cbn [res_bind].
  destruct (getCoreDomainId_ok d c Hd Hc) as (Hid & H0 & [old Hold]).
  unfold setCoreDomain. rewrite (proj2 (Z.ltb_lt _ _)), Hid by lia. cbn [res_bind].
  rewrite (rdz_at _ _ _ H0 Hold). cbn [res_bind]. rewrite (updz_at _ _ _ _ H0 Hold). cbn [res_bind].
  eexists. split; [reflexivity|]. split; [destruct Hd; split; simpl; [done|by rewrite length_insert]|].
  split; [done|]. split; [done|]. intros e He. unfold getFrequency. simpl.
  rewrite (proj2 (Z.leb_gt _ _)) by lia. destruct (getCoreDomainId_ok d e Hd He) as (Hie & He0 & [oe Hoe]).
  unfold getCoreDomain. simpl. rewrite (proj2 (Z.ltb_lt _ _)) by lia.
  change (getCoreDomainId (put_domains _ _ d) e) with (getCoreDomainId d e). rewrite Hie. cbn [res_bind].
  destruct (Z.eqb_spec (e / m_cores_per_socket d) (c / m_cores_per_socket d)) as [->|Hne].
  - rewrite (rdz_at _ _ p); [done|done|]. apply list_lookup_insert_eq. by eapply lookup_lt_Some.
  - rewrite !(rdz_at _ _ oe); [done|done|done|done|]. rewrite list_lookup_insert_ne by lia. done.
Qed.
