(* ===== verification/ThreadManager.v ===== *)
(** Stalling, resuming and moving threads: [system/thread_manager.cc] with the
    callbacks that its hooks run, in the order of [HooksManager::callHooks]:
    the time-outs of [system/syscall_server.cc], the scheduler, and the
    barrier of [system/barrier_sync_server.cc].  Statistics and performance
    models do not change the state of these services and are left out. *)
From S2P Require Import Prelude SubsecondTime System.
Local Open Scope Z_scope.

(** * The barrier server's own state *)
Module Barrier.
Notation B := (st BarrierSyncServer).

Definition put_clocks (l : list Z) (b : BarrierSyncServer) : BarrierSyncServer :=
  {| m_barrier_interval := m_barrier_interval b; m_next_barrier_time := m_next_barrier_time b;
     m_local_clock_list := l; m_barrier_acquire_list := m_barrier_acquire_list b;
     m_core_cond := m_core_cond b; m_to_release := m_to_release b;
     m_core_group := m_core_group b; m_core_thread := m_core_thread b;
     m_global_time := m_global_time b; m_fastforward := m_fastforward b;
     m_disable := m_disable b |}.
Definition put_acquire (l : list bool) (b : BarrierSyncServer) : BarrierSyncServer :=
  {| m_barrier_interval := m_barrier_interval b; m_next_barrier_time := m_next_barrier_time b;
     m_local_clock_list := m_local_clock_list b; m_barrier_acquire_list := l;
     m_core_cond := m_core_cond b; m_to_release := m_to_release b;
     m_core_group := m_core_group b; m_core_thread := m_core_thread b;
     m_global_time := m_global_time b; m_fastforward := m_fastforward b;
     m_disable := m_disable b |}.
(** The cores to release, and the condition variables. *)
Definition put_release (l : list Z) (conds : list bool) (b : BarrierSyncServer) : BarrierSyncServer :=
  {| m_barrier_interval := m_barrier_interval b; m_next_barrier_time := m_next_barrier_time b;
     m_local_clock_list := m_local_clock_list b; m_barrier_acquire_list := m_barrier_acquire_list b;
     m_core_cond := conds; m_to_release := l;
     m_core_group := m_core_group b; m_core_thread := m_core_thread b;
     m_global_time := m_global_time b; m_fastforward := m_fastforward b;
     m_disable := m_disable b |}.
Definition put_core_thread (l : list Z) (b : BarrierSyncServer) : BarrierSyncServer :=
  {| m_barrier_interval := m_barrier_interval b; m_next_barrier_time := m_next_barrier_time b;
     m_local_clock_list := m_local_clock_list b; m_barrier_acquire_list := m_barrier_acquire_list b;
     m_core_cond := m_core_cond b; m_to_release := m_to_release b;
     m_core_group := m_core_group b; m_core_thread := l;
     m_global_time := m_global_time b; m_fastforward := m_fastforward b;
     m_disable := m_disable b |}.
Definition put_group (l : list Z) (b : BarrierSyncServer) : BarrierSyncServer :=
  {| m_barrier_interval := m_barrier_interval b; m_next_barrier_time := m_next_barrier_time b;
     m_local_clock_list := m_local_clock_list b; m_barrier_acquire_list := m_barrier_acquire_list b;
     m_core_cond := m_core_cond b; m_to_release := m_to_release b;
     m_core_group := l; m_core_thread := m_core_thread b;
     m_global_time := m_global_time b; m_fastforward := m_fastforward b;
     m_disable := m_disable b |}.
(** The next barrier and the global time. *)
Definition put_times (next global : Z) (b : BarrierSyncServer) : BarrierSyncServer :=
  {| m_barrier_interval := m_barrier_interval b; m_next_barrier_time := next;
     m_local_clock_list := m_local_clock_list b; m_barrier_acquire_list := m_barrier_acquire_list b;
     m_core_cond := m_core_cond b; m_to_release := m_to_release b;
     m_core_group := m_core_group b; m_core_thread := m_core_thread b;
     m_global_time := global; m_fastforward := m_fastforward b;
     m_disable := m_disable b |}.
Definition put_modes (ff dis : bool) (b : BarrierSyncServer) : BarrierSyncServer :=
  {| m_barrier_interval := m_barrier_interval b; m_next_barrier_time := m_next_barrier_time b;
     m_local_clock_list := m_local_clock_list b; m_barrier_acquire_list := m_barrier_acquire_list b;
     m_core_cond := m_core_cond b; m_to_release := m_to_release b;
     m_core_group := m_core_group b; m_core_thread := m_core_thread b;
     m_global_time := m_global_time b; m_fastforward := ff; m_disable := dis |}.

(** The number of application cores. *)
Definition num_cores (b : BarrierSyncServer) : nat := length (m_local_clock_list b).
Definition core_ids (b : BarrierSyncServer) : list Z := Z.of_nat <$> seq 0 (num_cores b).

Definition BarrierSyncServer_new (quantum : Z) (n : nat) : BarrierSyncServer :=
  let interval := u64 (1000000 * u64 quantum) in
  {| m_barrier_interval := interval; m_next_barrier_time := interval;
     m_local_clock_list := replicate n 0; m_barrier_acquire_list := replicate n false;
     m_core_cond := replicate n false; m_to_release := [];
     m_core_group := replicate n INVALID_CORE_ID; m_core_thread := replicate n INVALID_THREAD_ID;
     m_global_time := 0; m_fastforward := false; m_disable := false |}.

(** [doRelease(n)] takes cores from the back of the list; it counts [n] down
    to zero, and a negative [n] releases all. *)
Fixpoint release_loop (rev_cores : list Z) (n : Z) (conds : list bool) : res (list Z * list bool) :=
  match rev_cores with
  | [] => Ok ([], conds)
  | core_id :: rest =>
      if n =? 0 then Ok (rev_cores, conds) else
      let? conds := updz conds core_id (λ _, false) in
      release_loop rest (n - 1) conds
  end.
Definition doRelease (n : Z) : B unit :=
  let! b := gets id in
  let! r := lift (release_loop (reverse (m_to_release b)) n (m_core_cond b)) in
  modify (put_release (reverse r.1) r.2).

Definition releaseThread (thread_id : Z) : B unit :=
  let! ids := gets core_ids in
  forM_ ids (λ core_id,
    let! b := gets id in
    let! acquired := lift (rdz (m_barrier_acquire_list b) core_id) in
    let! t := lift (rdz (m_core_thread b) core_id) in
    if acquired && (t =? thread_id) then
      let! l := lift (updz (m_local_clock_list b) core_id (λ _, 0)) in
      modify (put_clocks l)
    else ret tt);!
  doRelease 1.

(** The release of the cores whose clock lies before the next barrier: whether
    a core was resumed, and whether the caller still has to wait. *)
Fixpoint release_cores (caller_id : Z) (ids : list Z) (core_resumed must_wait : bool) :
    B (bool * bool) :=
  match ids with
  | [] => ret (core_resumed, must_wait)
  | core_id :: ids =>
      let! b := gets id in
      let! clock := lift (rdz (m_local_clock_list b) core_id) in
      let! acquired := lift (rdz (m_barrier_acquire_list b) core_id) in
      if (clock <? m_next_barrier_time b) && acquired then
        let! l := lift (updz (m_barrier_acquire_list b) core_id (λ _, false)) in
        modify (put_acquire l);!
        let! t := lift (rdz (m_core_thread b) core_id) in
        if t =? caller_id then release_cores caller_id ids true false
        else
          modify (λ b, put_release (m_to_release b ++ [core_id]) (m_core_cond b) b);!
          release_cores caller_id ids true must_wait
      else release_cores caller_id ids core_resumed must_wait
  end.

Definition abortBarrier : B unit :=
  let! ids := gets core_ids in
  forM_ ids (λ core_id,
    let! b := gets id in
    let! acquired := lift (rdz (m_barrier_acquire_list b) core_id) in
    if (acquired : bool) then
      let! l := lift (updz (m_barrier_acquire_list b) core_id (λ _, false)) in
      modify (put_acquire l);!
      let! conds := lift (updz (m_core_cond b) core_id (λ _, false)) in
      modify (λ b, put_release (m_to_release b) conds b)
    else ret tt).

Definition setDisable (disable : bool) : B unit :=
  modify (λ b, put_modes (m_fastforward b) disable b);!
  if disable then abortBarrier else ret tt.

Definition setGroup (core_id master_core_id : Z) : B unit :=
  let! b := gets id in
  let! acquired := lift (rdz (m_barrier_acquire_list b) core_id) in
  (if negb (master_core_id =? INVALID_CORE_ID)
   then lift (log_assert (negb acquired) "Core is in the barrier") else ret tt);!
  let! l := lift (updz (m_core_group b) core_id (λ _, master_core_id)) in
  modify (put_group l).

Definition setFastForward (fastforward : bool) (next_barrier_time : Z) : B unit :=
  modify (λ b, put_modes fastforward (m_disable b) b);!
  if negb (next_barrier_time =? MaxTime) then
    modify (λ b, put_times (Z.max (m_next_barrier_time b) next_barrier_time) (m_global_time b) b)
  else ret tt.
End Barrier.
Import Barrier.

Section System.
Context {X : Type} `{Host}.
Notation M := (st (Sys X)).

Definition on_bss {A} (m : st BarrierSyncServer A) : M A := zoom bss put_bss m.

(** * Resuming and moving threads

    [on_resume] is the scheduler's callback of [HOOK_THREAD_RESUME]. *)
Section Resume.
Variable on_resume : Z → Z → Z → M unit.

Definition resumeThread_async (thread_id thread_by time : Z) : M unit :=
  upd_state thread_id (set_status RUNNING);!
  on_resume thread_id thread_by time.

Definition resumeThread (thread_id thread_by time : Z) (msg : bool) : M unit :=
  signal thread_id time msg;!
  resumeThread_async thread_id thread_by time.

Definition hook_migrate (thread_id : Z) : M unit := on_bss (releaseThread thread_id).

(** A read of [stalled_reason] before it was set is undefined. *)
Definition reason_of (t : ThreadState) : res stall_type_t :=
  match stalled_reason t with Some r => Ok r | None => Err ErrUndefined end.

Definition moveThread (thread_id core_id time : Z) : M unit :=
  let! t := getThreadFromID thread_id in
  match m_core t with Some c => upd_core c (setState IDLE) | None => ret tt end;!
  (if core_id =? INVALID_CORE_ID then setCore thread_id None
   else
     match m_core t with
     | None =>
         let! ts := get_state thread_id in
         if bool_decide (status ts = STALLED) then
           let! r := lift (reason_of ts) in
           if bool_decide (r = STALL_UNSCHEDULED)
           then resumeThread thread_id INVALID_THREAD_ID time false else ret tt
         else ret tt
     | Some _ => ret tt
     end;!
     let! _ := getCoreFromID core_id in
     setCore thread_id (Some core_id);!
     let! ts := get_state thread_id in
     if bool_decide (status ts ≠ STALLED) then upd_core core_id (setState RUNNING) else ret tt);!
  hook_migrate thread_id.
End Resume.

Context `{Scheduler X}.

Definition resume (thread_id thread_by time : Z) (msg : bool) : M unit :=
  resumeThread sch_threadResume thread_id thread_by time msg.

(** * Time-outs of the system call server *)

(** The first waiter whose time-out has passed, and the others. *)
Fixpoint take_timed_out (time : Z) (l : list Waiter) : option (Z * list Waiter) :=
  match l with
  | [] => None
  | w :: l =>
      if w_timeout w <=? time then Some (w_thread_id w, l)
      else match take_timed_out time l with
           | Some (t, l') => Some (t, w :: l')
           | None => None
           end
  end.

Definition wakeTimedOut (address time : Z) : M unit :=
  let! m := gets (λ s, m_futexes (sysc s)) in
  match m !! address with
  | Some l =>
      match take_timed_out time l with
      | Some (waiter, l') =>
          modify (λ s, put_sysc (put_futexes (<[address := l']> (m_futexes (sysc s))) (sysc s)) s);!
          resume waiter INVALID_THREAD_ID time false
      | None => ret tt
      end
  | None => ret tt
  end.

Definition futexPeriodic (time : Z) : M unit :=
  let! l := gets (λ s, m_sleeping (sysc s)) in
  match take_timed_out time l with
  | Some (waiter, l') =>
      modify (λ s, put_sysc (put_sleeping l' (sysc s)) s);!
      resume waiter waiter time false
  | None => ret tt
  end;!
  let! m := gets (λ s, m_futexes (sysc s)) in
  forM_ (unordered (map_to_list m).*1) (λ address, wakeTimedOut address time).

(** [getNextTimeout]: the last finite time-out of a queue. *)
Definition queueNextTimeout (l : list Waiter) : Z :=
  foldl (λ next w, if w_timeout w <? MaxTime then w_timeout w else next) MaxTime l.
Definition getNextTimeout (y : SyscallServer) : Z :=
  foldl (λ next address,
           let t := queueNextTimeout (default [] (m_futexes y !! address)) in
           if t <? next then t else next)
        (queueNextTimeout (m_sleeping y)) (unordered (map_to_list (m_futexes y)).*1).

(** [HOOK_PERIODIC]: the system call server, then the scheduler. *)
Definition hook_periodic (time : Z) : M unit :=
  futexPeriodic time;! sch_periodic time.

(** * The barrier *)

(** [isCoreRunning(core_id, false)] and [isCoreRunning(core_id, true)]. *)
Definition coreRunning (s : Sys X) (core_id : Z) : res bool :=
  let? co := rdz (cores s) core_id in
  if bool_decide (c_state co = RUNNING) then
    match c_thread co with
    | Some t => let? ts := rdz (m_thread_state (tm s)) t in Ok (bool_decide (status ts = RUNNING))
    | None => Err (ErrLog "Core is running but has no thread")
    end
  else Ok false.
Fixpoint siblingRunning (s : Sys X) (core_id : Z) (ids : list Z) : res bool :=
  match ids with
  | [] => Ok false
  | sibling :: ids =>
      let? g := rdz (m_core_group (bss s)) sibling in
      if g =? core_id then
        let? r := coreRunning s sibling in
        if (r : bool) then Ok true else siblingRunning s core_id ids
      else siblingRunning s core_id ids
  end.
Definition isCoreRunning (s : Sys X) (core_id : Z) : res bool :=
  let? r := coreRunning s core_id in
  if (r : bool) then Ok true
  else if negb (m_fastforward (bss s)) then siblingRunning s core_id (core_ids (bss s))
  else Ok false.

Fixpoint barrierReached (s : Sys X) (ids : list Z) (reached : bool) : res bool :=
  match ids with
  | [] => Ok reached
  | core_id :: ids =>
      if m_fastforward (bss s) then
        let? acquired := rdz (m_barrier_acquire_list (bss s)) core_id in
        if (acquired : bool) then barrierReached s ids true
        else let? r := isCoreRunning s core_id in
             if (r : bool) then Ok false else barrierReached s ids reached
      else
        let? g := rdz (m_core_group (bss s)) core_id in
        if negb (g =? INVALID_CORE_ID) then barrierReached s ids reached
        else let? r := isCoreRunning s core_id in
             if (r : bool) then
               let? clock := rdz (m_local_clock_list (bss s)) core_id in
               if clock <? m_next_barrier_time (bss s) then Ok false
               else barrierReached s ids true
             else barrierReached s ids reached
  end.
Definition isBarrierReached (s : Sys X) : res bool := barrierReached s (core_ids (bss s)) false.

(** The loop of [barrierRelease]: [None] when it returns from inside the loop. *)
Fixpoint advance_until_resumed (fuel : nat) (caller_id : Z) (continue_until_release : bool) :
    M (option bool) :=
  match fuel with
  | O => fail ErrFuel
  | S fuel =>
      let! next := gets (λ s, m_next_barrier_time (bss s)) in
      on_bss (modify (put_times next next));!
      hook_periodic next;!
      let! any := anyThreadRunning in
      if continue_until_release && any then ret None else
      let! y := gets sysc in
      (if continue_until_release
       then lift (log_assert (getNextTimeout y <? MaxTime) "Application has deadlocked")
       else ret tt);!
      let! disabled := gets (λ s, m_disable (bss s)) in
      if (disabled : bool) then ret None else
      on_bss (modify (λ b, put_times (time_add (m_next_barrier_time b) (m_barrier_interval b))
                             (m_global_time b) b));!
      let! ids := gets (λ s, core_ids (bss s)) in
      let! r := on_bss (release_cores caller_id ids false true) in
      if (r.1 : bool) then ret (Some r.2)
      else advance_until_resumed fuel caller_id continue_until_release
  end.

(** The last time at which the loop can still find nothing to release. *)
Definition latest (s : Sys X) : Z :=
  foldr Z.max 0 (m_local_clock_list (bss s) ++
    filter (λ t, t < MaxTime)
      (w_timeout <$> m_sleeping (sysc s) ++ concat ((map_to_list (m_futexes (sysc s))).*2))).
Definition barrier_fuel (s : Sys X) : nat :=
  Z.to_nat ((latest s - m_next_barrier_time (bss s)) / m_barrier_interval (bss s)) + 3.

Definition barrierRelease (caller_id : Z) (continue_until_release : bool) : M bool :=
  let! b := gets bss in
  lift (log_assert (bool_decide (m_to_release b = []))
          "Reached the barrier while some threads haven't even restarted?");!
  (if m_fastforward b then
     on_bss (modify (put_times (foldl Z.max (m_next_barrier_time b) (m_local_clock_list b))
                       (m_global_time b)))
   else ret tt);!
  let! fuel := gets barrier_fuel in
  let! r := advance_until_resumed fuel caller_id continue_until_release in
  match r with
  | None => ret false
  | Some must_wait =>
      on_bss (modify (λ b, put_release (random_shuffle (m_to_release b)) (m_core_cond b) b));!
      let! ff := gets (λ s, m_fastforward (bss s)) in
      on_bss (doRelease (if (ff : bool) then -1 else num_host_cores));!
      ret must_wait
  end.

Definition advance : M unit := let! _ := barrierRelease INVALID_THREAD_ID true in ret tt.

(** [BarrierSyncServer::signal]. *)
Definition bss_signal : M unit :=
  let! b := gets bss in
  if m_disable b then ret tt else
  let! s := gets id in
  let! reached := lift (isBarrierReached s) in
  if (reached : bool) then let! _ := barrierRelease INVALID_THREAD_ID false in ret tt else ret tt.

(** [threadStall] and [threadExit] of the barrier server. *)
Definition bss_threadStop (thread_id : Z) : M unit :=
  on_bss (releaseThread thread_id);! bss_signal.

(** A call that may leave the calling thread waiting: then the rest of the
    call runs when the thread continues, in the state of that moment. *)
Inductive outcome (A : Type) : Type :=
| Returns (a : A)
| Blocks (k : Sys X → res A).
Arguments Returns {A} a.
Arguments Blocks {A} k.
Definition outcome_map {A C} (f : A → C) (o : outcome A) : outcome C :=
  match o with
  | Returns a => Returns (f a)
  | Blocks k => Blocks (λ s, let? a := k s in Ok (f a))
  end.

(** [synchronize(core_id, time)]. *)
Definition synchronize (core_id time : Z) : M (outcome unit) :=
  let! b := gets bss in
  if m_disable b then ret (Returns tt) else
  let! core := getCoreFromID core_id in
  let! master_core_id :=
    if m_fastforward b then ret core_id
    else let! g := lift (rdz (m_core_group b) core_id) in
         ret (if g =? INVALID_CORE_ID then core_id else g) in
  let! thread_me := lift (match c_thread core with Some t => Ok t | None => Err ErrUndefined end) in
  lift (log_assert (bool_decide (c_state core = RUNNING) || bool_decide (c_state core = INITIALIZING))
          "Core is not running or initializing");!
  let! acquired := lift (rdz (m_barrier_acquire_list b) master_core_id) in
  lift (log_assert (negb acquired) "Core or its sibling is already in the barrier");!
  if (time <? m_next_barrier_time b) && negb (m_fastforward b) then ret (Returns tt) else
  on_bss (
    doRelease 1;!
    let! b := gets id in
    let! clocks := lift (updz (m_local_clock_list b) master_core_id (λ _, time)) in
    let! acquire := lift (updz (m_barrier_acquire_list b) master_core_id (λ _, true)) in
    let! threads := lift (updz (m_core_thread b) master_core_id (λ _, thread_me)) in
    modify (λ b, put_core_thread threads (put_acquire acquire (put_clocks clocks b))));!
  let! s := gets id in
  let! reached := lift (isBarrierReached s) in
  let! mustWait := if (reached : bool) then barrierRelease thread_me false else ret true in
  if (mustWait : bool) then
    on_bss (
      let! b := gets id in
      let! conds := lift (updz (m_core_cond b) master_core_id (λ _, true)) in
      modify (put_release (m_to_release b) conds));!
    ret (Blocks (λ _, Ok tt))
  else ret (Returns tt).

(** * Stalling threads *)

(** [HOOK_THREAD_STALL] and [HOOK_THREAD_EXIT]: the scheduler, then the
    barrier server. *)
Definition hook_stall (thread_id : Z) (reason : stall_type_t) (time : Z) : M unit :=
  sch_threadStall thread_id reason time;! bss_threadStop thread_id.
Definition hook_exit (thread_id time : Z) : M unit :=
  sch_threadExit thread_id time;! bss_threadStop thread_id.

Definition stallThread_async (thread_id : Z) (reason : stall_type_t) (time : Z) : M unit :=
  upd_state thread_id (set_stalled reason);! hook_stall thread_id reason time.

Fixpoint advance_until_running (fuel : nat) : M unit :=
  let! any := anyThreadRunning in
  if (any : bool) then ret tt else
  match fuel with
  | O => fail ErrFuel
  | S fuel => advance;! advance_until_running fuel
  end.
(** An advance that wakes no thread releases a core from the barrier. *)
Definition stall_fuel (s : Sys X) : nat := S (length (m_barrier_acquire_list (bss s))).

(** The thread when its call to [Thread::wait] returns. *)
Definition thread_of (s : Sys X) (thread_id : Z) : res Thread := rdz (m_threads (tm s)) thread_id.

Definition stallThread (thread_id : Z) (reason : stall_type_t) (time : Z) : M (outcome Thread) :=
  stallThread_async thread_id reason time;!
  let! fuel := gets stall_fuel in
  advance_until_running fuel;!
  let! ts := get_state thread_id in
  let! t := getThreadFromID thread_id in
  if bool_decide (status ts = RUNNING) then ret (Returns t)
  else
    upd_thread thread_id (λ t, with_wakeup (m_wakeup_time t) false t);!
    ret (Blocks (λ s, thread_of s thread_id)).

(** * Services of the thread manager *)

Definition createThread_unlocked (garbage_msg : bool) (app_id : Z) : M Z :=
  let! thread_id := gets (λ s, Z.of_nat (length (m_threads (tm s)))) in
  modify (λ s, put_tm (put_states (m_thread_state (tm s) ++ [ThreadState_new])
                        (put_threads (m_threads (tm s) ++ [Thread_new garbage_msg app_id]) (tm s))) s);!
  upd_state thread_id (set_status INITIALIZING);!
  let! core_id := sch_threadCreate thread_id in
  (if negb (core_id =? INVALID_CORE_ID) then
     let! _ := getCoreFromID core_id in
     setCore thread_id (Some core_id);!
     upd_core core_id (setState INITIALIZING)
   else ret tt);!
  ret thread_id.

Definition onThreadStart (thread_id time : Z) : M unit :=
  let! _ := getThreadFromID thread_id in
  upd_state thread_id (set_status RUNNING);!
  sch_threadStart thread_id time;!
  let! t := getThreadFromID thread_id in
  match m_core t with
  | Some c =>
      upd_core c (setState RUNNING);!
      upd_state thread_id (set_status RUNNING);!
      hook_migrate thread_id
  | None => upd_state thread_id (set_stalled STALL_UNSCHEDULED)
  end;!
  let! time :=
    match m_core t with
    | Some c => let! co := getCoreFromID c in ret (Z.max time (c_elapsed co))
    | None => ret time
    end in
  let! ts := get_state thread_id in
  if negb (waiter ts =? INVALID_THREAD_ID) then
    signal (waiter ts) time false;!
    upd_state thread_id (set_waiter INVALID_THREAD_ID)
  else ret tt.

Definition wakeUpWaiter (thread_id time : Z) : M unit :=
  let! ts := get_state thread_id in
  if negb (waiter ts =? INVALID_THREAD_ID) then
    resume (waiter ts) thread_id time false;!
    upd_state thread_id (set_waiter INVALID_THREAD_ID)
  else ret tt.

(** [waitForThreadStart]: the caller keeps the state of a running thread. *)
Definition waitForThreadStart (thread_id wait_thread_id : Z) : M (outcome unit) :=
  let! _ := getThreadFromID thread_id in
  let! ts := get_state wait_thread_id in
  if bool_decide (status ts = INITIALIZING) then
    lift (log_assert (waiter ts =? INVALID_THREAD_ID) "Multiple threads waiting for thread");!
    upd_state wait_thread_id (set_waiter thread_id);!
    upd_thread thread_id (λ t, with_wakeup (m_wakeup_time t) false t);!
    ret (Blocks (λ _, Ok tt))
  else ret (Returns tt).

Definition joinThread (thread_id join_thread_id : Z) : M (outcome unit) :=
  let! t := getThreadFromID thread_id in
  let! ts := get_state join_thread_id in
  if bool_decide (status ts = IDLE) then ret (Returns tt) else
  let! core := lift (match m_core t with Some c => Ok c | None => Err ErrUndefined end) in
  let! co := getCoreFromID core in
  lift (log_assert (waiter ts =? INVALID_THREAD_ID) "Multiple threads joining on thread");!
  upd_state join_thread_id (set_waiter thread_id);!
  let! o := stallThread thread_id STALL_JOIN (c_elapsed co) in
  ret (outcome_map (λ _, tt) o).

Definition spawnThread (garbage_msg : bool) (thread_id app_id : Z) : M Z :=
  let! time_start :=
    if negb (thread_id =? INVALID_THREAD_ID) then
      let! t := getThreadFromID thread_id in
      let! core := lift (match m_core t with Some c => Ok c | None => Err ErrUndefined end) in
      let! co := getCoreFromID core in ret (c_elapsed co)
    else ret 0 in
  let! new_id := createThread_unlocked garbage_msg app_id in
  modify (λ s, put_tm (put_spawn (m_thread_spawn_list (tm s) ++
    [{| r_thread_by := thread_id; r_thread_id := new_id; r_time := time_start |}]) (tm s)) s);!
  ret new_id.

(** The thread to spawn and its time. *)
Definition getThreadToSpawn : M (Z * Z) :=
  let! l := gets (λ s, m_thread_spawn_list (tm s)) in
  match l with
  | [] => fail (ErrLog "Have no thread to spawn")
  | req :: l =>
      modify (λ s, put_tm (put_spawn l (tm s)) s);! ret (r_thread_id req, r_time req)
  end.
End System.
Arguments Returns {X A} a.
Arguments Blocks {X A} k.
