(* ===== verification/SyncServer.v ===== *)
(** The synchronisation services of the simulated threads: mutexes, condition
    variables and barriers ([system/sync_server.cc]), futexes and sleeping
    ([system/syscall_server.cc]), and the exit of a thread
    ([system/thread_manager.cc]), which wakes futex waiters. *)
From S2P Require Import Prelude SubsecondTime System ThreadManager.
Local Open Scope Z_scope.

Section Sync.
Context {X : Type} `{Host} `{Scheduler X}.
Notation M := (st (Sys X)).

(** * Mutexes *)
Definition put_mutex (mux : Z) (m : SimMutex) : M unit :=
  modify (λ s, put_sync (put_mutexes (<[mux := m]> (m_mutexes (sync s))) (sync s)) s).

(** [getMutex(mux, canCreate)]. *)
Definition getMutex (mux : Z) (canCreate : bool) : M SimMutex :=
  let! l := gets (λ s, m_mutexes (sync s)) in
  match l !! mux with
  | Some m => ret m
  | None =>
      if canCreate then put_mutex mux SimMutex_new;! ret SimMutex_new
      else fail (ErrLog "Invalid mutex id passed")
  end.

Definition isLocked (m : SimMutex) (thread_id : Z) : bool :=
  if m_owner m =? NO_OWNER then false
  else if m_owner m =? thread_id then false
  else true.

(** [SimMutex::lock]: the time at which the thread owns the lock. *)
Definition mutex_lock (mux : Z) (m : SimMutex) (thread_id time : Z) : M (outcome (X:=X) Z) :=
  if m_owner m =? NO_OWNER then
    put_mutex mux {| m_waiting := m_waiting m; m_owner := thread_id |};! ret (Returns time)
  else
    put_mutex mux {| m_waiting := m_waiting m ++ [thread_id]; m_owner := m_owner m |};!
    let! o := stallThread thread_id STALL_MUTEX time in
    ret (outcome_map m_wakeup_time o).

Definition lock_async (mux thread_id thread_by time : Z) : M bool :=
  let! l := gets (λ s, m_mutexes (sync s)) in
  match l !! mux with
  | None => fail ErrUndefined
  | Some m =>
      if m_owner m =? NO_OWNER then
        put_mutex mux {| m_waiting := m_waiting m; m_owner := thread_id |};!
        resume thread_id thread_by time false;! ret true
      else
        put_mutex mux {| m_waiting := m_waiting m ++ [thread_id]; m_owner := m_owner m |};!
        ret false
  end.

(** [SimMutex::unlock]: the next owner. *)
Definition mutex_unlock (mux : Z) (m : SimMutex) (thread_id time : Z) : M Z :=
  lift (c_assert (m_owner m =? thread_id));!
  match m_waiting m with
  | [] => put_mutex mux {| m_waiting := []; m_owner := NO_OWNER |};! ret NO_OWNER
  | waiter :: rest =>
      put_mutex mux {| m_waiting := rest; m_owner := waiter |};!
      resume waiter thread_id time false;! ret waiter
  end.

Definition mutexInit (mux : Z) : M unit := let! _ := getMutex mux true in ret tt.

Definition mutexLock (thread_id mux : Z) (tryLock : bool) (time : Z) : M (outcome (X:=X) (Z * bool)) :=
  let! m := getMutex mux true in
  if tryLock && isLocked m thread_id then ret (Returns (time, false))
  else
    let! cost := gets reschedule_cost in
    let! o := mutex_lock mux m thread_id time in
    ret (outcome_map (λ time_end, (time_add time_end cost, true)) o).

Definition mutexUnlock (thread_id mux time : Z) : M Z :=
  let! m := getMutex mux false in
  let! cost := gets reschedule_cost in
  let! new_owner := mutex_unlock mux m thread_id (time_add time cost) in
  ret (time_add time (if new_owner =? NO_OWNER then 0 else cost)).

(** * Condition variables *)
Definition put_cond (cond : Z) (l : list CondWaiter) : M unit :=
  modify (λ s, put_sync (put_conds (<[cond := l]> (m_conds (sync s))) (sync s)) s).
(** [getCond]; every caller lets it create the variable. *)
Definition getCond (cond : Z) : M (list CondWaiter) :=
  let! l := gets (λ s, m_conds (sync s)) in
  match l !! cond with
  | Some c => ret c
  | None => put_cond cond [];! ret []
  end.

Definition condInit (cond : Z) : M unit := let! _ := getCond cond in ret tt.

(** [SimCond::wait]. *)
Definition cond_wait (cond mux : Z) (m : SimMutex) (thread_id time : Z) : M (outcome (X:=X) Z) :=
  let! _ := mutex_unlock mux m thread_id time in
  let! c := getCond cond in
  put_cond cond (c ++ [{| cw_thread_id := thread_id; cw_mutex := mux |}]);!
  let! o := stallThread thread_id STALL_COND time in
  ret (outcome_map m_wakeup_time o).
Definition condWait (thread_id cond mux time : Z) : M (outcome (X:=X) Z) :=
  let! m := getMutex mux true in
  let! _ := getCond cond in
  cond_wait cond mux m thread_id time.

(** [SimCond::signal]: the thread that continues. *)
Definition cond_signal (cond thread_id time : Z) : M Z :=
  let! c := getCond cond in
  match c with
  | [] => ret INVALID_THREAD_ID
  | woken :: rest =>
      put_cond cond rest;!
      let! locked := lock_async (cw_mutex woken) (cw_thread_id woken) thread_id time in
      ret (if (locked : bool) then cw_thread_id woken else INVALID_THREAD_ID)
  end.
Definition condSignal (thread_id cond time : Z) : M Z :=
  let! _ := cond_signal cond thread_id time in ret time.

(** [SimCond::broadcast] empties the queue. *)
Fixpoint broadcast_loop (cond : Z) (l : list CondWaiter) (thread_id time : Z) : M unit :=
  match l with
  | [] => ret tt
  | woken :: rest =>
      put_cond cond rest;!
      let! _ := lock_async (cw_mutex woken) (cw_thread_id woken) thread_id time in
      broadcast_loop cond rest thread_id time
  end.
Definition condBroadcast (thread_id cond time : Z) : M Z :=
  let! c := getCond cond in
  broadcast_loop cond c thread_id time;! ret time.

(** * Barriers *)
Definition upd_barrier (barrier : Z) (f : SimBarrier → SimBarrier) : M unit :=
  let! l := gets (λ s, m_barriers (sync s)) in
  let! l := lift (updz l barrier f) in
  modify (λ s, put_sync (put_barriers l (sync s)) s).
Definition put_bwaiting (l : list Z) (b : SimBarrier) : SimBarrier :=
  {| b_waiting := l; m_count := m_count b |}.

(** The index of the new barrier. *)
Definition barrierInit (count : Z) : M Z :=
  let! l := gets (λ s, m_barriers (sync s)) in
  modify (λ s, put_sync (put_barriers (l ++ [SimBarrier_new count]) (sync s)) s);!
  ret (Z.of_nat (length l)).

Fixpoint barrier_release (barrier : Z) (l : list Z) (thread_id time : Z) : M unit :=
  match l with
  | [] => ret tt
  | waiter :: rest =>
      upd_barrier barrier (put_bwaiting rest);!
      resume waiter thread_id time false;!
      barrier_release barrier rest thread_id time
  end.

(** [SimBarrier::wait]; [m_count - 1] is a 32-bit subtraction. *)
Definition barrierWait (thread_id barrier time : Z) : M (outcome (X:=X) Z) :=
  let! l := gets (λ s, m_barriers (sync s)) in
  let! b := lift (rdz l barrier) in
  if Z.of_nat (length (b_waiting b)) =? u32 (m_count b - 1) then
    barrier_release barrier (b_waiting b) thread_id time;! ret (Returns time)
  else
    upd_barrier barrier (put_bwaiting (b_waiting b ++ [thread_id]));!
    let! o := stallThread thread_id STALL_BARRIER time in
    ret (outcome_map m_wakeup_time o).

(** * Futexes *)
Definition FUTEX_BITSET_MATCH_ANY : Z := -1.
Definition EWOULDBLOCK : Z := 11.
Definition EAGAIN : Z := 11.
Definition ETIMEDOUT : Z := 110.

Definition put_futex (address : Z) (l : list Waiter) : M unit :=
  modify (λ s, put_sysc (put_futexes (<[address := l]> (m_futexes (sysc s))) (sysc s)) s).
Definition futex_of (s : Sys X) (address : Z) : list Waiter :=
  default [] (m_futexes (sysc s) !! address).

(** [findFutexByUaddr]: the key of the futex, which exists afterwards. *)
Definition findFutexByUaddr (uaddr thread_id : Z) : M Z :=
  let! t := getThreadFromID thread_id in
  let address := va2pa t uaddr in
  let! l := gets (λ s, futex_of s address) in
  put_futex address l;! ret address.

(** [applyRescheduleCost]. *)
Definition applyRescheduleCost (thread_id : Z) (conditional : bool) : M Z :=
  if negb conditional then ret 0 else
  let! t := getThreadFromID thread_id in
  let! core := lift (match m_core t with Some c => Ok c | None => Err ErrUndefined end) in
  let! co := getCoreFromID core in
  if c_instructions co =? 0 then ret 0 else gets reschedule_cost.

(** [enqueueWaiter]: the end time and whether the thread was woken. *)
Definition enqueueWaiter (address thread_id mask time timeout_time : Z) : M (outcome (X:=X) (Z * bool)) :=
  let! l := gets (λ s, futex_of s address) in
  put_futex address (l ++ [{| w_thread_id := thread_id; w_mask := mask; w_timeout := timeout_time |}]);!
  let! o := stallThread thread_id STALL_FUTEX time in
  ret (outcome_map (λ t, (m_wakeup_time t, m_wakeup_msg t)) o).

(** The first waiter whose mask matches, and the others. *)
Fixpoint take_matching (mask : Z) (l : list Waiter) : option (Z * list Waiter) :=
  match l with
  | [] => None
  | w :: l =>
      if negb (Z.land mask (w_mask w) =? 0) then Some (w_thread_id w, l)
      else match take_matching mask l with
           | Some (t, l') => Some (t, w :: l')
           | None => None
           end
  end.
Definition dequeueWaiter (address thread_by mask time : Z) : M Z :=
  let! l := gets (λ s, futex_of s address) in
  match take_matching mask l with
  | Some (waiter, l') =>
      put_futex address l';! resume waiter thread_by time true;! ret waiter
  | None => ret INVALID_THREAD_ID
  end.

Definition requeueWaiter (address requeue_address : Z) : M Z :=
  let! l := gets (λ s, futex_of s address) in
  match l with
  | [] => ret INVALID_THREAD_ID
  | w :: rest =>
      put_futex address rest;!
      let! q := gets (λ s, futex_of s requeue_address) in
      put_futex requeue_address (q ++ [w]);! ret (w_thread_id w)
  end.

Definition futexWait (thread_id uaddr val act_val mask curr_time timeout_time : Z) :
    M (outcome (X:=X) (Z * Z)) :=
  let! address := findFutexByUaddr uaddr thread_id in
  if negb (val =? act_val) then ret (Returns (- EWOULDBLOCK, curr_time))
  else
    let! o := enqueueWaiter address thread_id mask curr_time timeout_time in
    ret (outcome_map (λ r, (if (r.2 : bool) then 0 else - ETIMEDOUT, r.1)) o).

Definition wakeFutexOne (address thread_by mask curr_time : Z) : M Z :=
  let! cost := applyRescheduleCost thread_by true in
  dequeueWaiter address thread_by mask (time_add curr_time cost).

(** A loop that calls [wake] up to [n] times, until it wakes no thread: the
    number of threads woken. *)
Fixpoint wake_loop (n : nat) (wake : M Z) (woken : Z) : M Z :=
  match n with
  | O => ret woken
  | S n =>
      let! waiter := wake in
      if waiter =? INVALID_THREAD_ID then ret woken else wake_loop n wake (woken + 1)
  end.

(** [futexWake]: the result and the end time. *)
Definition futexWake (thread_id uaddr nr_wake mask curr_time : Z) : M (Z * Z) :=
  let! address := findFutexByUaddr uaddr thread_id in
  let! woken := wake_loop (Z.to_nat nr_wake) (wakeFutexOne address thread_id mask curr_time) 0 in
  let! cost := applyRescheduleCost thread_id (0 <? woken) in
  ret (woken, time_add curr_time cost).

(** The fields of an encoded operation; shifts are those of two's complement. *)
Definition op_oparg (encoded_op : Z) : res Z :=
  let oparg := Z.shiftr (s32 (Z.shiftl encoded_op 8)) 20 in
  if negb (Z.land encoded_op (s32 (Z.shiftl 8 28)) =? 0) then
    if (0 <=? oparg) && (oparg <? 32) then Ok (s32 (Z.shiftl 1 oparg)) else Err ErrUndefined
  else Ok oparg.
Definition op_newval (op oldval oparg : Z) : res Z :=
  match op with
  | 0 => Ok oparg
  | 1 => Ok (s32 (oldval + oparg))
  | 2 => Ok (Z.lor oldval oparg)
  | 3 => Ok (Z.land oldval (Z.lnot oparg))
  | 4 => Ok (Z.lxor oldval oparg)
  | _ => Err (ErrLog "futexWakeOp: unknown op")
  end.
Definition op_compare (cmp oldval cmparg : Z) : res bool :=
  match cmp with
  | 0 => Ok (oldval =? cmparg)
  | 1 => Ok (negb (oldval =? cmparg))
  | 2 => Ok (oldval <? cmparg)
  | 5 => Ok (cmparg <=? oldval)
  | 3 => Ok (oldval <=? cmparg)
  | 4 => Ok (cmparg <? oldval)
  | _ => Err (ErrLog "futexWakeOp: unknown cmp")
  end.
Definition futexDoOp (encoded_op uaddr : Z) : M bool :=
  let op := Z.land (Z.shiftr encoded_op 28) 7 in
  let cmp := Z.land (Z.shiftr encoded_op 24) 15 in
  let cmparg := Z.shiftr (s32 (Z.shiftl encoded_op 20)) 20 in
  let! oparg := lift (op_oparg encoded_op) in
  let! oldval := gets (λ s, mem s uaddr) in
  let! newval := lift (op_newval op oldval oparg) in
  modify (λ s, put_mem (λ a, if a =? uaddr then newval else mem s a) s);!
  lift (op_compare cmp oldval cmparg).

Definition futexWakeOp (thread_id uaddr uaddr2 nr_wake nr_wake2 op curr_time : Z) : M (Z * Z) :=
  let! address := findFutexByUaddr uaddr thread_id in
  let! address2 := findFutexByUaddr uaddr2 thread_id in
  let! t := getThreadFromID thread_id in
  lift (log_assert (bool_decide (is_Some (m_core t)))
          "Cannot execute futexWakeOp() for a thread that is unscheduled");!
  let! op_ret := futexDoOp op uaddr2 in
  let! woken := wake_loop (Z.to_nat nr_wake)
                  (wakeFutexOne address thread_id FUTEX_BITSET_MATCH_ANY curr_time) 0 in
  let! woken :=
    if (op_ret : bool) then
      wake_loop (Z.to_nat nr_wake2)
        (wakeFutexOne address2 thread_id FUTEX_BITSET_MATCH_ANY curr_time) woken
    else ret woken in
  let! cost := applyRescheduleCost thread_id (0 <? woken) in
  ret (woken, time_add curr_time cost).

(** The loop that moves all waiters; it does not end when both addresses name
    one futex with waiters. *)
Fixpoint requeue_loop (fuel : nat) (address requeue_address : Z) : M unit :=
  match fuel with
  | O => fail ErrFuel
  | S fuel =>
      let! waiter := requeueWaiter address requeue_address in
      if waiter =? INVALID_THREAD_ID then ret tt else requeue_loop fuel address requeue_address
  end.

Definition futexCmpRequeue (thread_id uaddr val uaddr2 val3 act_val curr_time : Z) : M (Z * Z) :=
  let! address := findFutexByUaddr uaddr thread_id in
  if negb (val3 =? act_val) then ret (- EAGAIN, curr_time)
  else
    let! woken := wake_loop (Z.to_nat val)
                    (dequeueWaiter address thread_id FUTEX_BITSET_MATCH_ANY curr_time) 0 in
    let! requeue_address := findFutexByUaddr uaddr2 thread_id in
    let! fuel := gets (λ s, S (length (futex_of s address))) in
    requeue_loop fuel address requeue_address;!
    ret (woken, curr_time).

(** [futex_args_t]; the time-out is the contents of the structure. *)
Record futex_args_t : Type := {
  f_uaddr : Z; f_op : Z; f_val : Z; f_timeout : option (Z * Z);
  f_val2 : Z; f_uaddr2 : Z; f_val3 : Z }.

Definition FUTEX_WAIT : Z := 0.
Definition FUTEX_WAKE : Z := 1.
Definition FUTEX_CMP_REQUEUE : Z := 4.
Definition FUTEX_WAKE_OP : Z := 5.
Definition FUTEX_WAIT_BITSET : Z := 9.
Definition FUTEX_WAKE_BITSET : Z := 10.
(** [(op & FUTEX_CMD_MASK) & ~FUTEX_PRIVATE_FLAG]. *)
Definition futex_cmd (op : Z) : Z := Z.land (Z.land op (Z.lnot 384)) (Z.lnot 128).

Definition timeout_time (os_time_start cmd curr_time : Z) (timeout : option (Z * Z)) : Z :=
  match timeout with
  | Some (tv_sec, tv_nsec) =>
      if (cmd =? FUTEX_WAIT) || (cmd =? FUTEX_WAIT_BITSET) then
        let timeout_val := time_add (u64 (u64 (tv_sec - os_time_start) * 10 ^ 15)) (u64 (u64 tv_nsec * 10 ^ 6)) in
        if cmd =? FUTEX_WAIT_BITSET then timeout_val else time_add curr_time timeout_val
      else MaxTime
  | None => MaxTime
  end.

(** [handleFutexCall]: the result and the end time. *)
Definition handleFutexCall (os_time_start thread_id : Z) (args : futex_args_t) (curr_time : Z) :
    M (outcome (X:=X) (Z * Z)) :=
  let cmd := futex_cmd (f_op args) in
  let! t := getThreadFromID thread_id in
  lift (log_assert (bool_decide (is_Some (m_core t))) "Core should not be NULL");!
  lift (log_assert (bool_decide (cmd ∈ [FUTEX_WAIT; FUTEX_WAIT_BITSET; FUTEX_WAKE; FUTEX_WAKE_BITSET;
                                         FUTEX_WAKE_OP; FUTEX_CMP_REQUEUE])) "op");!
  let deadline := timeout_time os_time_start cmd curr_time (f_timeout args) in
  let! act_val := gets (λ s, mem s (f_uaddr args)) in
  let mask := if cmd =? FUTEX_WAIT_BITSET then f_val3 args else FUTEX_BITSET_MATCH_ANY in
  if (cmd =? FUTEX_WAIT) || (cmd =? FUTEX_WAIT_BITSET) then
    futexWait thread_id (f_uaddr args) (f_val args) act_val mask curr_time deadline
  else if (cmd =? FUTEX_WAKE) || (cmd =? FUTEX_WAKE_BITSET) then
    let! r := futexWake thread_id (f_uaddr args) (f_val args) mask curr_time in ret (Returns r)
  else if cmd =? FUTEX_WAKE_OP then
    let! r := futexWakeOp thread_id (f_uaddr args) (f_uaddr2 args) (f_val args) (f_val2 args)
                (f_val3 args) curr_time in ret (Returns r)
  else
    lift (log_assert (negb (f_uaddr args =? f_uaddr2 args)) "FUTEX_CMP_REQUEUE: uaddr == uaddr2");!
    let! r := futexCmpRequeue thread_id (f_uaddr args) (f_val args) (f_uaddr2 args) (f_val3 args)
                act_val curr_time in ret (Returns r).

(** * Sleeping and exit *)
Definition handleSleepCall (thread_id wake_time curr_time : Z) : M (outcome (X:=X) Z) :=
  modify (λ s, put_sysc (put_sleeping (m_sleeping (sysc s) ++
    [{| w_thread_id := thread_id; w_mask := 0; w_timeout := wake_time |}]) (sysc s)) s);!
  let! o := stallThread thread_id STALL_SLEEP curr_time in
  ret (outcome_map m_wakeup_time o).

Definition onThreadExit (thread_id : Z) : M unit :=
  let! l := gets (λ s, m_thread_state (tm s)) in
  lift (log_assert (u32 thread_id <? Z.of_nat (length l)) "Thread id out of range");!
  let! t := getThreadFromID thread_id in
  let! core := lift (match m_core t with
                     | Some c => Ok c
                     | None => Err (ErrLog "Thread ended while not running on a core?") end) in
  let! co := getCoreFromID core in
  let time := c_elapsed co in
  let! ts := get_state thread_id in
  lift (c_assert (bool_decide (status ts = RUNNING)));!
  upd_state thread_id (set_status IDLE);!
  wakeUpWaiter thread_id time;!
  (if clear_tid t then
     modify (λ s, put_mem (λ a, if a =? tid_ptr t then 0 else mem s a) s);!
     let! _ := futexWake thread_id (tid_ptr t) 1 FUTEX_BITSET_MATCH_ANY time in ret tt
   else ret tt);!
  upd_core core (setState IDLE);!
  setCore thread_id None;!
  hook_exit thread_id time.
End Sync.
