(* ===== verification/SyncFacts.v ===== *)
(** The invariant of the synchronisation services: which threads wait where.
    The file has the interface of schedulers ([SchedulerOk]: they only move
    threads), the list of all waiting threads, and the lemmas on stalling and
    resuming that the services share. *)
From S2P Require Import Prelude SubsecondTime System ThreadManager SyncServer.
Import Barrier.
Local Open Scope Z_scope.

(** * Indexed vectors *)
Lemma rdz_Ok {A} (l : list A) i x : rdz l i = Ok x ↔ 0 ≤ i ∧ l !! Z.to_nat i = Some x.
Proof. unfold rdz. destruct (Z.ltb_spec i 0); rewrite ?rd_Ok; naive_solver lia. Qed.
Lemma updz_Ok {A} (l l' : list A) i f :
  updz l i f = Ok l' ↔ ∃ x, 0 ≤ i ∧ l !! Z.to_nat i = Some x ∧ l' = <[Z.to_nat i := f x]> l.
Proof.
  unfold updz. rewrite res_bind_Ok. setoid_rewrite rdz_Ok. setoid_rewrite wr_Ok. split.
  - intros (x & [H0 Hx] & _ & ->). eauto.
  - intros (x & H0 & Hx & ->). exists x. split; [done|]. split; [by eapply lookup_lt_Some|done].
Qed.

(** * What moving threads does *)

(** Only a thread that waits for a core changes state: it runs. *)
Definition state_moved (a b : ThreadState) : Prop :=
  b = a ∨ (status a = STALLED ∧ stalled_reason a = Some STALL_UNSCHEDULED ∧ b = set_status RUNNING a).

(** The barrier server forgets clocks and releases cores, from the back. *)
Definition clock_moved (a b : Z) : Prop := b = a ∨ b = 0.
Record bss_moved (b b' : BarrierSyncServer) : Prop := {
  bm_interval : m_barrier_interval b' = m_barrier_interval b;
  bm_next : m_next_barrier_time b' = m_next_barrier_time b;
  bm_clocks : Forall2 clock_moved (m_local_clock_list b) (m_local_clock_list b');
  bm_acquire : m_barrier_acquire_list b' = m_barrier_acquire_list b;
  bm_conds : length (m_core_cond b') = length (m_core_cond b);
  bm_blocked i : m_core_cond b' !! i = Some true → m_core_cond b !! i = Some true;
  bm_kept i : m_core_cond b' !! i = Some true → Z.of_nat i ∈ m_to_release b →
              Z.of_nat i ∈ m_to_release b';
  bm_release : m_to_release b' `prefix_of` m_to_release b;
  bm_group : m_core_group b' = m_core_group b;
  bm_thread : m_core_thread b' = m_core_thread b;
  bm_ff : m_fastforward b' = m_fastforward b;
  bm_disable : m_disable b' = m_disable b;
  bm_global : m_global_time b' = m_global_time b }.

Record moved {X} (s s' : Sys X) : Prop := {
  mv_states : Forall2 state_moved (m_thread_state (tm s)) (m_thread_state (tm s'));
  mv_threads : length (m_threads (tm s')) = length (m_threads (tm s));
  mv_spawn : m_thread_spawn_list (tm s') = m_thread_spawn_list (tm s);
  mv_cores : length (cores s') = length (cores s);
  mv_sync : sync s' = sync s;
  mv_sysc : sysc s' = sysc s;
  mv_bss : bss_moved (bss s) (bss s');
  mv_mem : mem s' = mem s;
  mv_cost : reschedule_cost s' = reschedule_cost s }.

(** The schedulers only move threads. *)
Class SchedulerOk (X : Type) `{Scheduler X} : Prop := {
  sch_create_ok t : does moved (sch_threadCreate t);
  sch_start_ok t time : does moved (sch_threadStart t time);
  sch_stall_ok t r time : does moved (sch_threadStall t r time);
  sch_resume_ok t by' time : does moved (sch_threadResume t by' time);
  sch_exit_ok t time : does moved (sch_threadExit t time);
  sch_periodic_ok time : does moved (sch_periodic time) }.

#[export] Instance state_moved_refl : Reflexive state_moved.
Proof. by left. Qed.
#[export] Instance state_moved_trans : Transitive state_moved.
Proof.
  intros a b c Hab [-> | (Hb & Hr' & ->)]; [done|]. destruct Hab as [-> | (Ha & Hr & ->)]; [by right|].
  by simpl in Hb.
Qed.
#[export] Instance clock_moved_refl : Reflexive clock_moved.
Proof. by left. Qed.
#[export] Instance clock_moved_trans : Transitive clock_moved.
Proof. unfold clock_moved. intros a b c. naive_solver. Qed.
#[export] Instance bss_moved_pre : PreOrder bss_moved.
Proof.
  split.
  - intros b. by split.
  - intros a b c [] []. split; try congruence; [by etrans|eauto|eauto|by etrans].
Qed.
#[export] Instance moved_pre {X} : PreOrder (@moved X).
Proof.
  split.
  - intros s. by split.
  - intros a b c [] []. split; try congruence; by etrans.
Qed.

(** ** Releasing cores *)
Lemma release_loop_Ok l n conds l' conds' :
  release_loop l n conds = Ok (l', conds') →
  l' `suffix_of` l ∧ length conds' = length conds ∧
  (∀ i, conds' !! i = Some true → conds !! i = Some true) ∧
  (∀ i, conds' !! i = Some true → Z.of_nat i ∈ l → Z.of_nat i ∈ l').
Proof.
  revert n conds. induction l as [|c l IH]; intros n conds; simpl.
  - intros [= <- <-]. done.
  - case_match; [intros [= <- <-]; done|]. intros (cs & Hc & He)%res_bind_Ok.
    apply updz_Ok in Hc as (x & Hc0 & Hx & ->). apply IH in He as (Hs & Hl & Hb & Hk).
    rewrite length_insert in Hl. split; [by apply suffix_cons_r|]. split; [done|].
    assert (Hi : ∀ i, conds' !! i = Some true → conds !! i = Some true ∧ i ≠ Z.to_nat c).
    { intros i Hi%Hb. apply list_lookup_insert_Some in Hi. naive_solver. }
    split; [naive_solver|]. intros i Hit Hin. destruct (Hi i Hit) as [_ Hne].
    apply elem_of_cons in Hin as [Heq|Hin]; [lia|by apply Hk].
Qed.

Lemma doRelease_moved n : does bss_moved (doRelease n).
Proof.
  intros b [] b' He. unfold doRelease in He. inv_st. destruct x as [l conds].
  apply release_loop_Ok in E as (Hs & Hl & Hb & Hk). simpl. split; try done; simpl.
  - intros i Hi Hin. rewrite elem_of_reverse. apply Hk; [done|]. by rewrite elem_of_reverse.
  - destruct Hs as [k Hk']. exists (reverse k). by rewrite <- (reverse_involutive (m_to_release b)), Hk', reverse_app.
Qed.

Lemma bss_moved_clocks b l :
  Forall2 clock_moved (m_local_clock_list b) l → bss_moved b (put_clocks l b).
Proof. by split. Qed.

Lemma releaseThread_moved t : does bss_moved (releaseThread t).
Proof.
  apply does_bind; [apply _|apply (does_gets _)|intros ids].
  apply does_bind; [apply _| |intros []; apply doRelease_moved].
  apply (does_forM _). intros c b [] b' He. inv_st. case_match; inv_st; [|done].
  apply bss_moved_clocks. apply updz_Ok in E1 as (y & _ & Hy & ->).
  rewrite <- (list_insert_id _ _ _ Hy) at 1. apply Forall2_insert; [done|by right].
Qed.

Section Moving.
Context {X : Type}.
Implicit Types s : Sys X.

Lemma get_state_Ok t s ts s' :
  get_state t s = Ok (ts, s') → s' = s ∧ 0 ≤ t ∧ m_thread_state (tm s) !! Z.to_nat t = Some ts.
Proof. unfold get_state. intros He. inv_st. by apply rdz_Ok in He. Qed.
Lemma upd_state_Ok t f s u s' :
  upd_state t f s = Ok (u, s') →
  ∃ ts, 0 ≤ t ∧ m_thread_state (tm s) !! Z.to_nat t = Some ts ∧
        s' = put_tm (put_states (<[Z.to_nat t := f ts]> (m_thread_state (tm s))) (tm s)) s.
Proof. unfold upd_state. intros He. inv_st. apply updz_Ok in E as (ts & H0 & Hts & ->). eauto. Qed.
Lemma upd_thread_Ok t f s u s' :
  upd_thread t f s = Ok (u, s') →
  ∃ th, 0 ≤ t ∧ m_threads (tm s) !! Z.to_nat t = Some th ∧
        s' = put_tm (put_threads (<[Z.to_nat t := f th]> (m_threads (tm s))) (tm s)) s.
Proof. unfold upd_thread. intros He. inv_st. apply updz_Ok in E as (ts & H0 & Hts & ->). eauto. Qed.
Lemma upd_core_Ok c f s u s' :
  upd_core c f s = Ok (u, s') →
  ∃ co, 0 ≤ c ∧ cores s !! Z.to_nat c = Some co ∧
        s' = put_cores (<[Z.to_nat c := f co]> (cores s)) s.
Proof. unfold upd_core. intros He. inv_st. apply updz_Ok in E as (ts & H0 & Hts & ->). eauto. Qed.
Lemma getThreadFromID_Ok t s th s' :
  getThreadFromID t s = Ok (th, s') → s' = s ∧ 0 ≤ t ∧ m_threads (tm s) !! Z.to_nat t = Some th.
Proof. unfold getThreadFromID. intros He. inv_st. by apply rdz_Ok in He. Qed.
Lemma getCoreFromID_Ok c s co s' :
  getCoreFromID c s = Ok (co, s') → s' = s ∧ 0 ≤ c ∧ cores s !! Z.to_nat c = Some co.
Proof. unfold getCoreFromID. intros He. inv_st. by apply rdz_Ok in He. Qed.

(** [signal] writes one thread. *)
Lemma signal_Ok t time msg s u s' :
  signal t time msg s = Ok (u, s') →
  ∃ th, 0 ≤ t ∧ m_threads (tm s) !! Z.to_nat t = Some th ∧
        s' = put_tm (put_threads (<[Z.to_nat t := with_wakeup time msg th]> (m_threads (tm s))) (tm s)) s.
Proof.
  unfold signal. intros He. inv_st. apply getThreadFromID_Ok in E as (-> & _). by apply upd_thread_Ok in He.
Qed.

(** The reads change nothing. *)
Lemma get_state_moved t : does (@moved X) (get_state t).
Proof. by intros s a s' (-> & _)%get_state_Ok. Qed.
Lemma getThreadFromID_moved t : does (@moved X) (getThreadFromID t).
Proof. by intros s a s' (-> & _)%getThreadFromID_Ok. Qed.
Lemma getCoreFromID_moved c : does (@moved X) (getCoreFromID c).
Proof. by intros s a s' (-> & _)%getCoreFromID_Ok. Qed.
Lemma upd_thread_moved t f : does (@moved X) (upd_thread t f).
Proof.
  intros s u s' (th & _ & _ & ->)%upd_thread_Ok. split; try done. simpl. by rewrite length_insert.
Qed.
Lemma upd_core_moved c f : does (@moved X) (upd_core c f).
Proof.
  intros s u s' (th & _ & _ & ->)%upd_core_Ok. split; try done. simpl. by rewrite length_insert.
Qed.
Lemma on_bss_moved {A} (m : st BarrierSyncServer A) :
  does bss_moved m → does (@moved X) (on_bss m).
Proof. intros Hm. apply does_zoom. intros s a b He. split; try done. simpl. by eapply Hm. Qed.
Lemma put_sched_moved f : does (@moved X) (modify (λ s, put_sched (f s) s)).
Proof. apply (does_modify _). by split. Qed.
End Moving.

Ltac inv_sys :=
  repeat (inv_st; match goal with
  | H : getThreadFromID _ _ = Ok _ |- _ => apply getThreadFromID_Ok in H as (-> & ? & ?)
  | H : getCoreFromID _ _ = Ok _ |- _ => apply getCoreFromID_Ok in H as (-> & ? & ?)
  | H : get_state _ _ = Ok _ |- _ => apply get_state_Ok in H as (-> & ? & ?)
  | H : upd_state _ _ _ = Ok _ |- _ => apply upd_state_Ok in H as (? & ? & ? & ->)
  | H : upd_thread _ _ _ = Ok _ |- _ => apply upd_thread_Ok in H as (? & ? & ? & ->)
  | H : upd_core _ _ _ = Ok _ |- _ => apply upd_core_Ok in H as (? & ? & ? & ->)
  | H : signal _ _ _ _ = Ok _ |- _ => apply signal_Ok in H as (? & ? & ? & ->)
  end); inv_st; simpl in *.

Create HintDb moved.
#[export] Hint Resolve get_state_moved getThreadFromID_moved getCoreFromID_moved upd_thread_moved
  upd_core_moved on_bss_moved put_sched_moved releaseThread_moved doRelease_moved : moved.

(** Composite operations, step by step. *)
Ltac solve_moved :=
  repeat match goal with
  | |- does _ (st_bind _ _) => apply (does_bind _); [|intros ?]
  | |- does _ (ret _) => apply (does_ret _)
  | |- does _ (gets _) => apply (does_gets _)
  | |- does _ (lift _) => apply (does_lift _)
  | |- does _ (fail _) => apply (does_fail _)
  | |- does _ (forM_ _ _) => apply (does_forM _); intros ?
  | |- does _ (match ?x with _ => _ end) => destruct x
  | |- does _ _ => solve [eauto with moved]
  end.

Section Moves.
Context {X : Type} (on_resume : Z → Z → Z → st (Sys X) unit).
Hypothesis on_resume_ok : ∀ t by' time, does moved (on_resume t by' time).

Lemma signal_moved t time msg : does (@moved X) (signal t time msg).
Proof. unfold signal. solve_moved. Qed.
Lemma setCore_moved t c : does (@moved X) (setCore t c).
Proof. unfold setCore. solve_moved. Qed.
Lemma hook_migrate_moved t : does (@moved X) (hook_migrate t).
Proof. unfold hook_migrate. solve_moved. Qed.
Hint Resolve signal_moved setCore_moved hook_migrate_moved on_resume_ok : moved.

(** A thread that waits for a core. *)
Lemma resume_unscheduled_moved t time s ts u s' :
  m_thread_state (tm s) !! Z.to_nat t = Some ts → status ts = STALLED →
  stalled_reason ts = Some STALL_UNSCHEDULED →
  resumeThread on_resume t INVALID_THREAD_ID time false s = Ok (u, s') → moved s s'.
Proof.
  intros Hts Hs Hr He. unfold resumeThread, resumeThread_async in He. inv_sys. simplify_eq.
  etrans; [|by eapply on_resume_ok]. split; try done; simpl; [|by rewrite length_insert].
  rewrite <- (list_insert_id _ _ _ Hts) at 1. apply Forall2_insert; [done|]. by right.
Qed.

Lemma moveThread_moved t c time : does moved (moveThread on_resume t c time).
Proof.
  unfold moveThread. apply (does_bind _); [solve_moved|intros th].
  apply (does_bind _); [solve_moved|intros []]. apply (does_bind _); [|intros []; solve_moved].
  case_match; [solve_moved|]. apply (does_bind _); [|intros []; solve_moved].
  case_match; [solve_moved|]. intros s [] s' He. apply st_bind_Ok in He as (ts & s1 & Ets & He).
  apply get_state_Ok in Ets as (-> & _ & Hts). case_bool_decide as Hs; [|by inv_st].
  inv_st. case_bool_decide as Hr; [|by inv_st]. unfold reason_of in E. case_match; simplify_eq.
  by eapply resume_unscheduled_moved.
Qed.
End Moves.

(** * Waiting threads *)

(** Where a thread is registered while it is stalled. *)
Inductive place : Type := PMutex | PCond | PBarrier | PFutex | PSleep | PJoin.

(** The reasons of a stall that fit a place: a signalled waiter of a condition
    variable can be in the queue of its mutex. *)
Definition fits (p : place) (r : stall_type_t) : Prop :=
  match p with
  | PMutex => r = STALL_MUTEX ∨ r = STALL_COND
  | PCond => r = STALL_COND
  | PBarrier => r = STALL_BARRIER
  | PFutex => r = STALL_FUTEX
  | PSleep => r = STALL_SLEEP
  | PJoin => r = STALL_JOIN
  end.
(** The reasons of the services. *)
Definition sync_reason (r : stall_type_t) : Prop :=
  r ∈ [STALL_JOIN; STALL_MUTEX; STALL_COND; STALL_BARRIER; STALL_FUTEX; STALL_SLEEP].
Lemma fits_sync p r : fits p r → sync_reason r.
Proof. unfold sync_reason. destruct p; simpl; intros; destruct_or?; subst; repeat constructor. Qed.

(** The threads in the queues of a map or of a vector. *)
Definition qlist {A} (f : A → list Z) (l : list A) : list Z := concat (f <$> l).
Definition qmap {A} (f : A → list Z) (m : gmap Z A) : list Z := qlist f (map_to_list m).*2.
Definition at_place (p : place) (l : list Z) : list (place * Z) := (λ t, (p, t)) <$> l.

(** The thread that joins; the waiter of a thread that has not started waits
    for its start, in the state of a running thread. *)
Definition join_of (ts : ThreadState) : list Z :=
  if bool_decide (waiter ts = INVALID_THREAD_ID) || bool_decide (status ts = INITIALIZING)
  then [] else [waiter ts].

Definition cond_ids (l : list CondWaiter) : list Z := cw_thread_id <$> l.
Definition waiter_ids (l : list Waiter) : list Z := w_thread_id <$> l.

Definition waiters {X} (s : Sys X) : list (place * Z) :=
  at_place PMutex (qmap m_waiting (m_mutexes (sync s))) ++
  at_place PCond (qmap cond_ids (m_conds (sync s))) ++
  at_place PBarrier (qlist b_waiting (m_barriers (sync s))) ++
  at_place PFutex (qmap waiter_ids (m_futexes (sysc s))) ++
  at_place PSleep (waiter_ids (m_sleeping (sysc s))) ++
  at_place PJoin (qlist join_of (m_thread_state (tm s))).

Definition stalled_for {X} (s : Sys X) (t : Z) (r : stall_type_t) : Prop :=
  ∃ ts, 0 ≤ t ∧ m_thread_state (tm s) !! Z.to_nat t = Some ts ∧
        status ts = STALLED ∧ stalled_reason ts = Some r.
Definition has_status {X} (s : Sys X) (t : Z) (c : CoreState) : Prop :=
  ∃ ts, 0 ≤ t ∧ m_thread_state (tm s) !! Z.to_nat t = Some ts ∧ status ts = c.

(** The threads for which [P] does not hold are registered exactly while they
    are stalled, at a place that fits the reason. *)
Record winv {X} (P : Z → Prop) (s : Sys X) : Prop := {
  wi_nodup : NoDup (waiters s).*2;
  wi_stalled p t : (p, t) ∈ waiters s → ¬ P t → ∃ r, stalled_for s t r ∧ fits p r;
  wi_registered t r : stalled_for s t r → sync_reason r → ¬ P t → t ∈ (waiters s).*2 }.

(** A mutex without an owner has no waiters. *)
Definition owners_ok {X} (s : Sys X) : Prop :=
  ∀ mux m, m_mutexes (sync s) !! mux = Some m → m_owner m = NO_OWNER → m_waiting m = [].

Definition nobody (_ : Z) : Prop := False.
Definition sync_inv {X} (s : Sys X) : Prop := winv nobody s ∧ owners_ok s.

(** ** The queues of maps and vectors *)
Lemma qlist_app {A} (f : A → list Z) l k : qlist f (l ++ k) = qlist f l ++ qlist f k.
Proof. unfold qlist. by rewrite fmap_app, concat_app. Qed.
Lemma qlist_perm {A} (f : A → list Z) l k : l ≡ₚ k → qlist f l ≡ₚ qlist f k.
Proof. unfold qlist. by intros ->. Qed.
Lemma qlist_insert {A} (f : A → list Z) l i x y :
  l !! i = Some x → qlist f (<[i := y]> l) ++ f x ≡ₚ qlist f l ++ f y.
Proof.
  intros Hx. rewrite <- (take_drop_middle l i x Hx) at 2.
  rewrite insert_take_drop by (by eapply lookup_lt_Some). rewrite !qlist_app. unfold qlist. simpl.
  solve_Permutation.
Qed.
Lemma qmap_insert {A} (f : A → list Z) (m : gmap Z A) i y :
  qmap f (<[i := y]> m) ++ default [] (f <$> m !! i) ≡ₚ qmap f m ++ f y.
Proof.
  unfold qmap. destruct (m !! i) as [x|] eqn:Hx; simpl.
  - assert (Hm : map_to_list m ≡ₚ (i, x) :: map_to_list (delete i m)).
    { rewrite <- map_to_list_insert by apply lookup_delete_eq. by rewrite insert_delete_id. }
    assert (Hi : map_to_list (<[i:=y]> m) ≡ₚ (i, y) :: map_to_list (delete i m)).
    { rewrite <- insert_delete_eq. apply map_to_list_insert, lookup_delete_eq. }
    rewrite (qlist_perm f _ _ (fmap_Permutation snd _ _ Hm)).
    rewrite (qlist_perm f _ _ (fmap_Permutation snd _ _ Hi)). unfold qlist. simpl. solve_Permutation.
  - rewrite (qlist_perm f _ _ (fmap_Permutation snd _ _ (map_to_list_insert _ _ y Hx))).
    unfold qlist. simpl. solve_Permutation.
Qed.

(** A queue that loses, gains or keeps its threads. *)
Lemma app_cons_cancel {A} (q q' k k' : list A) x :
  q' ++ k ≡ₚ q ++ k' → k ≡ₚ x :: k' → q ≡ₚ x :: q'.
Proof.
  intros Hq Hk. apply (Permutation_app_inv_r k'). rewrite <- Hq, Hk. solve_Permutation.
Qed.
Lemma app_cancel {A} (q q' k k' : list A) : q' ++ k ≡ₚ q ++ k' → k ≡ₚ k' → q ≡ₚ q'.
Proof. intros Hq Hk. apply (Permutation_app_inv_r k'). by rewrite <- Hq, Hk. Qed.

Lemma at_place_cons p t l l' : l ≡ₚ t :: l' → at_place p l ≡ₚ (p, t) :: at_place p l'.
Proof. unfold at_place. by intros ->. Qed.
Lemma at_place_perm p l l' : l ≡ₚ l' → at_place p l ≡ₚ at_place p l'.
Proof. unfold at_place. by intros ->. Qed.
#[export] Instance at_place_proper p : Proper ((≡ₚ) ==> (≡ₚ)) (at_place p).
Proof. intros l l' Hl. by apply at_place_perm. Qed.

Section Winv.
Context {X : Type}.
Implicit Types (s : Sys X) (P Q : Z → Prop).

(** The threads outside [Q] are stalled for the same reasons. *)
Definition agree Q s s' : Prop :=
  ∀ t r, sync_reason r → ¬ Q t → stalled_for s' t r ↔ stalled_for s t r.

Lemma waiters_snd s p t : (p, t) ∈ waiters s → t ∈ (waiters s).*2.
Proof. intros Hin. apply list_elem_of_fmap. by exists (p, t). Qed.

Lemma winv_same P Q s s' :
  winv P s → waiters s' ≡ₚ waiters s → agree Q s s' → (∀ t, P t → Q t) → winv Q s'.
Proof.
  intros [Hnd Hst Hrg] Hw Ha HPQ. split.
  - by rewrite Hw.
  - intros p t Hin Ht. rewrite Hw in Hin. destruct (Hst p t Hin) as (r & Hr & Hf); [auto|].
    exists r. split; [|done]. apply Ha; [by eapply fits_sync|done|done].
  - intros t r Hs Hr Ht. rewrite Hw. apply (Hrg t r); [by apply Ha|done|auto].
Qed.
Lemma winv_add P Q s s' p t :
  winv P s → waiters s' ≡ₚ (p, t) :: waiters s → t ∉ (waiters s).*2 → agree Q s s' →
  (∀ u, P u → Q u) → Q t → winv Q s'.
Proof.
  intros [Hnd Hst Hrg] Hw Hn Ha HPQ HQ. split.
  - rewrite Hw. simpl. by constructor.
  - intros p' u Hin Hu. rewrite Hw in Hin. apply elem_of_cons in Hin as [[= -> ->]|Hin]; [done|].
    destruct (Hst p' u Hin) as (r & Hr & Hf); [auto|].
    exists r. split; [|done]. apply Ha; [by eapply fits_sync|done|done].
  - intros u r Hs Hr Hu. rewrite Hw. right. apply (Hrg u r); [by apply Ha|done|auto].
Qed.
Lemma winv_remove P Q s s' p t :
  winv P s → waiters s ≡ₚ (p, t) :: waiters s' → agree Q s s' → (∀ u, P u → Q u) → Q t →
  winv Q s' ∧ t ∉ (waiters s').*2.
Proof.
  intros [Hnd Hst Hrg] Hw Ha HPQ HQ. rewrite Hw in Hnd. simpl in Hnd.
  apply NoDup_cons in Hnd as [Hn Hnd]. split; [|done]. split; [done| |].
  - intros p' u Hin Hu. destruct (Hst p' u) as (r & Hr & Hf); [rewrite Hw; by right|auto|].
    exists r. split; [|done]. apply Ha; [by eapply fits_sync|done|done].
  - intros u r Hs Hr Hu. apply Ha in Hs; [|done|done]. apply (Hrg u r) in Hs; [|done|auto].
    rewrite Hw in Hs. simpl in Hs. apply elem_of_cons in Hs as [->|Hs]; [done|done].
Qed.
(** A thread moves between two places. *)
Lemma winv_exchange P Q s s' p p' t :
  winv P s → waiters s ++ [(p', t)] ≡ₚ waiters s' ++ [(p, t)] → agree Q s s' →
  (∀ u, P u → Q u) → Q t → winv Q s'.
Proof.
  intros Hi Hw Ha HPQ HQ.
  assert (Hw2 : (waiters s').*2 ≡ₚ (waiters s).*2).
  { apply (fmap_Permutation snd) in Hw. rewrite !fmap_app in Hw. simpl in Hw.
    by apply Permutation_app_inv_r in Hw. }
  destruct Hi as [Hnd Hst Hrg]. split.
  - by rewrite Hw2.
  - intros q u Hin Hu. assert (Hin' : (q, u) ∈ waiters s ++ [(p', t)]).
    { rewrite Hw. apply elem_of_app. by left. }
    apply elem_of_app in Hin' as [Hin'|[= -> ->]%list_elem_of_singleton]; [|done].
    destruct (Hst q u Hin') as (r & Hr & Hf); [auto|].
    exists r. split; [|done]. apply Ha; [by eapply fits_sync|done|done].
  - intros u r Hs Hr Hu. rewrite Hw2. apply (Hrg u r); [by apply Ha|done|auto].
Qed.

(** The facts on the last thread. *)
Lemma winv_close_running t c s :
  winv (eq t) s → has_status s t c → c ≠ STALLED → t ∉ (waiters s).*2 → winv nobody s.
Proof.
  intros [Hnd Hst Hrg] (ts & H0 & Hts & Hc) Hne Hn. split; [done| |].
  - intros p u Hin _. apply (Hst p u Hin). intros <-. by apply Hn, (waiters_snd s p).
  - intros u r (ts' & H0' & Hts' & Hs & Hr) Hsr _. apply (Hrg u r); [by exists ts'|done|].
    intros <-. by simplify_eq.
Qed.
Lemma winv_close_stalled t p r s :
  winv (eq t) s → stalled_for s t r → (p, t) ∈ waiters s → fits p r → winv nobody s.
Proof.
  intros [Hnd Hst Hrg] Hs Hin Hf. split; [done| |].
  - intros p' u Hin' _. destruct (decide (t = u)) as [<-|Hne]; [|by apply Hst].
    exists r. split; [done|]. replace p' with p; [done|].
    assert (Hpp : (p, t) = (p', t)); [|congruence].
    apply list_elem_of_lookup_1 in Hin as [i Hi]. apply list_elem_of_lookup_1 in Hin' as [j Hj].
    assert (i = j) as ->; [|congruence].
    eapply NoDup_lookup; [exact Hnd|by rewrite list_lookup_fmap, Hi|by rewrite list_lookup_fmap, Hj].
  - intros u r' Hs' Hsr _. destruct (decide (t = u)) as [<-|Hne]; [by eapply waiters_snd|by apply (Hrg u r')].
Qed.

Lemma running_unregistered P s t c :
  winv P s → has_status s t c → c ≠ STALLED → ¬ P t → t ∉ (waiters s).*2.
Proof.
  intros Hi (ts & H0 & Hts & Hc) Hne HP ([p u] & -> & Hin)%list_elem_of_fmap. simpl in *.
  destruct (wi_stalled _ _ Hi p u Hin HP) as (r & (ts' & _ & Hts' & Hs & _) & _). simplify_eq.
Qed.

(** ** Moving threads keeps the invariant *)
Lemma join_of_moved a b : state_moved a b → join_of b = join_of a.
Proof.
  intros [-> | (Hs & Hr & ->)]; [done|]. unfold join_of. simpl. rewrite Hs.
  by rewrite !(bool_decide_eq_false_2 (_ = INITIALIZING)).
Qed.
Lemma moved_waiters s s' : moved s s' → waiters s' = waiters s.
Proof.
  intros Hm. unfold waiters. rewrite (mv_sync _ _ Hm), (mv_sysc _ _ Hm).
  assert (Hj : qlist join_of (m_thread_state (tm s')) = qlist join_of (m_thread_state (tm s)))
    ; [|by rewrite Hj].
  unfold qlist. f_equal. induction (mv_states _ _ Hm) as [|a b l k Hab _ IH]; [done|].
  rewrite !fmap_cons, IH, (join_of_moved a b); done.
Qed.
Lemma moved_agree Q s s' : moved s s' → agree Q s s'.
Proof.
  intros Hm t r Hr _. unfold stalled_for. split; intros (ts & H0 & Hts & Hs & Hre).
  - eapply Forall2_lookup_r in Hts as (ts0 & Hts0 & Hm0); [|apply (mv_states _ _ Hm)].
    destruct Hm0 as [-> | (_ & _ & ->)]; [by exists ts0|done].
  - eapply Forall2_lookup_l in Hts as (ts' & Hts' & Hm0); [|apply (mv_states _ _ Hm)].
    destruct Hm0 as [-> | (_ & Hre' & _)]; [by exists ts|].
    rewrite Hre in Hre'. simplify_eq. unfold sync_reason in Hr. set_solver.
Qed.
Lemma moved_winv P s s' : winv P s → moved s s' → winv P s'.
Proof.
  intros Hi Hm. eapply winv_same; [exact Hi|by rewrite (moved_waiters _ _ Hm)|by apply moved_agree|done].
Qed.
Lemma moved_owners s s' : owners_ok s → moved s s' → owners_ok s'.
Proof. intros Hi Hm. unfold owners_ok. by rewrite (mv_sync _ _ Hm). Qed.
Lemma moved_inv s s' : sync_inv s → moved s s' → sync_inv s'.
Proof. intros [Hw Ho] Hm. split; [by eapply moved_winv|by eapply moved_owners]. Qed.
Lemma moved_running s s' t : moved s s' → has_status s t RUNNING → has_status s' t RUNNING.
Proof.
  intros Hm (ts & H0 & Hts & Hs).
  eapply Forall2_lookup_l in Hts as (ts' & Hts' & Hm0); [|apply (mv_states _ _ Hm)].
  exists ts'. split; [done|]. split; [done|]. destruct Hm0 as [-> | (_ & _ & ->)]; done.
Qed.
End Winv.

(** ** One thread changes state *)
Section State.
Context {X : Type}.
Implicit Types (s : Sys X) (P Q : Z → Prop).

Definition put_state (t : Z) (ts : ThreadState) s : Sys X :=
  put_tm (put_states (<[Z.to_nat t := ts]> (m_thread_state (tm s))) (tm s)) s.

Lemma put_state_status t ts ts0 s c :
  0 ≤ t → m_thread_state (tm s) !! Z.to_nat t = Some ts0 → status ts = c →
  has_status (put_state t ts s) t c.
Proof.
  intros H0 Hts Hc. exists ts. split; [done|]. split; [|done]. simpl.
  apply list_lookup_insert_eq. by eapply lookup_lt_Some.
Qed.
Lemma put_state_stalled t ts ts0 s r :
  0 ≤ t → m_thread_state (tm s) !! Z.to_nat t = Some ts0 → status ts = STALLED →
  stalled_reason ts = Some r → stalled_for (put_state t ts s) t r.
Proof.
  intros H0 Hts Hc Hr. exists ts. split; [done|]. split; [|done]. simpl.
  apply list_lookup_insert_eq. by eapply lookup_lt_Some.
Qed.
Lemma put_state_agree t ts s : 0 ≤ t → agree (eq t) s (put_state t ts s).
Proof.
  intros H0 u r Hr Hu. unfold stalled_for. simpl.
  split; intros (ts' & H0' & Hts & Hs); exists ts'; (split; [done|]); split; try done.
  - rewrite list_lookup_insert_ne in Hts by lia. done.
  - rewrite list_lookup_insert_ne by lia. done.
Qed.
Lemma put_state_waiters t ts ts0 s :
  m_thread_state (tm s) !! Z.to_nat t = Some ts0 → join_of ts = join_of ts0 →
  waiters (put_state t ts s) ≡ₚ waiters s.
Proof.
  intros Hts Hj. unfold waiters. simpl. do 5 apply Permutation_app_head. apply at_place_perm. symmetry. eapply app_cancel.
  - apply (qlist_insert join_of _ _ _ ts Hts).
  - by rewrite Hj.
Qed.

(** [resume]: the thread is signalled, runs, and its scheduler moves threads. *)
Definition resumed (t : Z) s s' : Prop :=
  ∃ ts s1, 0 ≤ t ∧ m_thread_state (tm s) !! Z.to_nat t = Some ts ∧ moved s s1 ∧
    m_thread_state (tm s1) = m_thread_state (tm s) ∧
    moved (put_state t (set_status RUNNING ts) s1) s'.

Lemma resume_resumed `{SchedulerOk X} t by' time msg : does (resumed t) (resume t by' time msg).
Proof.
  intros s u s' He. unfold resume, resumeThread, resumeThread_async in He. inv_st.
  pose proof (signal_moved _ _ _ _ _ _ E) as Hm. inv_sys.
  eexists _, _. split; [done|]. split; [done|]. split; [exact Hm|]. split; [done|].
  by eapply sch_resume_ok.
Qed.

Lemma resumed_sync t s s' : resumed t s s' → sync s' = sync s ∧ sysc s' = sysc s.
Proof.
  intros (ts & s1 & _ & _ & H1 & _ & H2). split.
  - by rewrite (mv_sync _ _ H2), <- (mv_sync _ _ H1).
  - by rewrite (mv_sysc _ _ H2), <- (mv_sysc _ _ H1).
Qed.
Lemma resumed_running t s s' : resumed t s s' → has_status s' t RUNNING.
Proof.
  intros (ts & s1 & H0 & Hts & H1 & Hs1 & H2). eapply moved_running; [exact H2|].
  eapply put_state_status; [done|by rewrite Hs1|done].
Qed.
Lemma resumed_winv t s s' c :
  winv (eq t) s → has_status s t c → c ≠ INITIALIZING → resumed t s s' →
  winv (eq t) s' ∧ (waiters s').*2 ≡ₚ (waiters s).*2.
Proof.
  intros Hi (ts0 & _ & Hts0 & Hc) Hne (ts & s1 & H0 & Hts & H1 & Hs1 & H2). simplify_eq.
  assert (Hw : waiters (put_state t (set_status RUNNING ts0) s1) ≡ₚ waiters s1).
  { eapply put_state_waiters; [by rewrite Hs1|]. unfold join_of. simpl.
    by rewrite !(bool_decide_eq_false_2 (_ = INITIALIZING)) by done. }
  split.
  - eapply moved_winv; [|exact H2]. eapply winv_same; [by eapply moved_winv| |by apply put_state_agree|done].
    exact Hw.
  - by rewrite (moved_waiters _ _ H2), Hw, (moved_waiters _ _ H1).
Qed.
(** A thread that left its place runs. *)
Lemma resumed_close t s s' c :
  winv (eq t) s → has_status s t c → c ≠ INITIALIZING → t ∉ (waiters s).*2 → resumed t s s' →
  winv nobody s'.
Proof.
  intros Hi Hc Hne Hn Hr. destruct (resumed_winv t s s' c Hi Hc Hne Hr) as [Hi' Hw].
  eapply winv_close_running; [done|by eapply resumed_running|done|by rewrite Hw].
Qed.
End State.

(** ** The places *)
Section Places.
Context {X : Type}.
Implicit Types s : Sys X.

Lemma at_place_app p l k : at_place p (l ++ k) = at_place p l ++ at_place p k.
Proof. apply fmap_app. Qed.
Lemma place_swap p l l' k k' : l' ++ k ≡ₚ l ++ k' →
  at_place p l' ++ at_place p k ≡ₚ at_place p l ++ at_place p k'.
Proof. rewrite <- !at_place_app. apply at_place_perm. Qed.
Lemma swap_l {A} (a l l' k k' : list A) : l' ++ k ≡ₚ l ++ k' → (a ++ l') ++ k ≡ₚ (a ++ l) ++ k'.
Proof. intros Hl. by rewrite <- !(assoc_L (++)), Hl. Qed.
Lemma swap_r {A} (a l l' k k' : list A) : l' ++ k ≡ₚ l ++ k' → (l' ++ a) ++ k ≡ₚ (l ++ a) ++ k'.
Proof.
  intros Hl. rewrite <- !(assoc_L (++)), !(comm (++) a), !(assoc_L (++)). by rewrite Hl.
Qed.

Definition set_mutex (mux : Z) (m : SimMutex) s : Sys X :=
  put_sync (put_mutexes (<[mux := m]> (m_mutexes (sync s))) (sync s)) s.
Definition set_cond (cond : Z) (l : list CondWaiter) s : Sys X :=
  put_sync (put_conds (<[cond := l]> (m_conds (sync s))) (sync s)) s.
Definition set_barrier (i : nat) (b : SimBarrier) s : Sys X :=
  put_sync (put_barriers (<[i := b]> (m_barriers (sync s))) (sync s)) s.
Definition set_futex (a : Z) (l : list Waiter) s : Sys X :=
  put_sysc (put_futexes (<[a := l]> (m_futexes (sysc s))) (sysc s)) s.
Definition set_sleeping (l : list Waiter) s : Sys X := put_sysc (put_sleeping l (sysc s)) s.

Lemma waiters_mutex mux m s :
  waiters (set_mutex mux m s) ++ at_place PMutex (default [] (m_waiting <$> m_mutexes (sync s) !! mux))
  ≡ₚ waiters s ++ at_place PMutex (m_waiting m).
Proof. apply swap_r, place_swap, qmap_insert. Qed.
Lemma waiters_cond c l s :
  waiters (set_cond c l s) ++
    at_place PCond (default [] (cond_ids <$> m_conds (sync s) !! c))
  ≡ₚ waiters s ++ at_place PCond (cond_ids l).
Proof. apply swap_l, swap_r, place_swap, qmap_insert. Qed.
Lemma waiters_barrier i b b0 s :
  m_barriers (sync s) !! i = Some b0 →
  waiters (set_barrier i b s) ++ at_place PBarrier (b_waiting b0)
  ≡ₚ waiters s ++ at_place PBarrier (b_waiting b).
Proof. intros Hb. by apply swap_l, swap_l, swap_r, place_swap, qlist_insert. Qed.
Lemma waiters_futex a l s :
  waiters (set_futex a l s) ++
    at_place PFutex (default [] (waiter_ids <$> m_futexes (sysc s) !! a))
  ≡ₚ waiters s ++ at_place PFutex (waiter_ids l).
Proof. apply swap_l, swap_l, swap_l, swap_r, place_swap, qmap_insert. Qed.
Lemma waiters_sleeping l s :
  waiters (set_sleeping l s) ++ at_place PSleep (waiter_ids (m_sleeping (sysc s)))
  ≡ₚ waiters s ++ at_place PSleep (waiter_ids l).
Proof. apply swap_l, swap_l, swap_l, swap_l, swap_r. apply (comm (++)). Qed.
Lemma waiters_join t ts ts0 s :
  m_thread_state (tm s) !! Z.to_nat t = Some ts0 →
  waiters (put_state t ts s) ++ at_place PJoin (join_of ts0) ≡ₚ waiters s ++ at_place PJoin (join_of ts).
Proof. intros Hb. by apply swap_l, swap_l, swap_l, swap_l, swap_l, place_swap, qlist_insert. Qed.

(** From a swap of the contents of a queue. *)
Lemma swap_remove p t q q' k k' :
  q' ++ at_place p k ≡ₚ q ++ at_place p k' → k ≡ₚ t :: k' → q ≡ₚ (p, t) :: q'.
Proof. intros Hq Hk. eapply app_cons_cancel; [exact Hq|by apply at_place_cons]. Qed.
Lemma swap_add p t q q' k k' :
  q' ++ at_place p k ≡ₚ q ++ at_place p k' → k' ≡ₚ t :: k → q' ≡ₚ (p, t) :: q.
Proof. intros Hq Hk. symmetry in Hq. eapply app_cons_cancel; [exact Hq|by apply at_place_cons]. Qed.
Lemma swap_same p q q' k k' :
  q' ++ at_place p k ≡ₚ q ++ at_place p k' → k ≡ₚ k' → q' ≡ₚ q.
Proof. intros Hq Hk. symmetry. eapply app_cancel; [exact Hq|by apply at_place_perm]. Qed.

(** States with the same thread states. *)
Lemma agree_states Q s s' : m_thread_state (tm s') = m_thread_state (tm s) → agree Q s s'.
Proof. intros He t r _ _. unfold stalled_for. by rewrite He. Qed.

(** The barrier server has no part in the invariant. *)
Lemma put_bss_inv b s : sync_inv s → sync_inv (put_bss b s).
Proof.
  intros [Hi Ho]. split; [|done]. by eapply winv_same; [exact Hi|done|apply agree_states|].
Qed.
Lemma on_bss_inv {A} (m : st BarrierSyncServer A) : hoare (@sync_inv X) (on_bss m) (λ _, sync_inv).
Proof. apply hoare_zoom. intros s a b Hi _. by apply put_bss_inv. Qed.

(** A waiter leaves its place and runs. *)
Lemma wake_inv s s1 s' p t :
  winv nobody s → waiters s ≡ₚ (p, t) :: waiters s1 →
  m_thread_state (tm s1) = m_thread_state (tm s) → resumed t s1 s' → winv nobody s'.
Proof.
  intros Hi Hw Hs Hr.
  destruct (winv_remove nobody (eq t) s s1 p t) as [Hi1 Hn]; [done|done|by apply agree_states|done|done|].
  destruct (wi_stalled _ _ Hi p t) as (r & (ts & H0 & Hts & Hst & _) & _); [rewrite Hw; by left|naive_solver|].
  apply (resumed_close t s1 s' STALLED); [done| |done|done|done].
  exists ts. by rewrite Hs.
Qed.
End Places.
