(* ===== verification/SyncInv.v ===== *)
(** Every operation of the synchronisation services keeps the invariant
    [sync_inv]: the callbacks of the hooks, stalling and resuming, and the
    services themselves. *)
From S2P Require Import Prelude SubsecondTime System ThreadManager SyncServer SyncFacts.
Import Barrier.
Local Open Scope Z_scope.

Lemma take_timed_out_ids time l t l' :
  take_timed_out time l = Some (t, l') → waiter_ids l ≡ₚ t :: waiter_ids l'.
Proof.
  revert l'. induction l as [|w l IH]; simpl; intros l' He; [done|]. case_match; [naive_solver|].
  destruct (take_timed_out time l) as [[u k]|] eqn:Ek; [|done]. simplify_eq. simpl.
  rewrite (IH k eq_refl). apply Permutation_swap.
Qed.
Lemma take_matching_ids mask l t l' :
  take_matching mask l = Some (t, l') → waiter_ids l ≡ₚ t :: waiter_ids l'.
Proof.
  revert l'. induction l as [|w l IH]; simpl; intros l' He; [done|]. case_match; [naive_solver|].
  destruct (take_matching mask l) as [[u k]|] eqn:Ek; [|done]. simplify_eq. simpl.
  rewrite (IH k eq_refl). apply Permutation_swap.
Qed.

Section Keeps.
Context {X : Type} `{Host} `{SchedulerOk X}.

Definition keeps {A} (m : st (Sys X) A) : Prop := hoare sync_inv m (λ _, sync_inv).

Lemma keeps_bind {A C} (m : st (Sys X) A) (f : A → st (Sys X) C) :
  keeps m → (∀ a, keeps (f a)) → keeps (st_bind m f).
Proof. intros Hm Hf. by eapply hoare_bind. Qed.
Lemma keeps_ret {A} (a : A) : keeps (ret a).
Proof. by apply hoare_ret. Qed.
Lemma keeps_gets {A} (g : Sys X → A) : keeps (gets g).
Proof. by intros s a s' Hi [= <- <-]. Qed.
Lemma keeps_lift {A} (x : res A) : keeps (lift x).
Proof. by apply hoare_lift_end. Qed.
Lemma keeps_fail {A} e : keeps (fail e : st (Sys X) A).
Proof. apply hoare_fail. Qed.
Lemma keeps_forM {A} (l : list A) f : (∀ a, keeps (f a)) → keeps (forM_ l f).
Proof. intros Hf. apply hoare_forM. intros a _. apply Hf. Qed.
Lemma keeps_moved {A} (m : st (Sys X) A) : does moved m → keeps m.
Proof. intros Hm s a s' Hi He. eapply moved_inv; [exact Hi|by eapply Hm]. Qed.
Lemma keeps_bss {A} (m : st BarrierSyncServer A) : keeps (on_bss m).
Proof. apply on_bss_inv. Qed.
End Keeps.

Create HintDb keeps.
#[export] Hint Resolve keeps_moved keeps_bss sch_create_ok sch_start_ok sch_stall_ok sch_resume_ok
  sch_exit_ok sch_periodic_ok signal_moved setCore_moved hook_migrate_moved : keeps.
#[export] Hint Resolve get_state_moved getThreadFromID_moved getCoreFromID_moved upd_thread_moved
  upd_core_moved : keeps.

Ltac solve_keeps :=
  repeat match goal with
  | |- keeps (st_bind _ _) => apply keeps_bind; [|intros ?]
  | |- keeps (ret _) => apply keeps_ret
  | |- keeps (gets _) => apply keeps_gets
  | |- keeps (lift _) => apply keeps_lift
  | |- keeps (fail _) => apply keeps_fail
  | |- keeps (forM_ _ _) => apply keeps_forM; intros ?
  | |- keeps (match ?x with _ => _ end) => destruct x
  | |- keeps _ => solve [eauto with keeps]
  end.

(** * The callbacks *)
Section Hooks.
Context {X : Type} `{Host} `{SchedulerOk X}.
Implicit Types s : Sys X.

(** A waiter leaves its place; the owners stay. *)
Lemma wake_sync_inv s s1 s' p t :
  sync_inv s → waiters s ≡ₚ (p, t) :: waiters s1 →
  m_thread_state (tm s1) = m_thread_state (tm s) → owners_ok s1 → resumed t s1 s' → sync_inv s'.
Proof.
  intros [Hi _] Hw Hs Ho Hr. split; [by eapply wake_inv|].
  unfold owners_ok. by rewrite (proj1 (resumed_sync _ _ _ Hr)).
Qed.

Lemma set_futex_remove a l l' t s :
  m_futexes (sysc s) !! a = Some l → waiter_ids l ≡ₚ t :: waiter_ids l' →
  waiters s ≡ₚ (PFutex, t) :: waiters (set_futex a l' s).
Proof.
  intros Hl Ht. eapply swap_remove; [apply waiters_futex|]. by rewrite Hl.
Qed.

Lemma wakeTimedOut_keeps a time : keeps (wakeTimedOut a time).
Proof.
  intros s [] s' Hi He. unfold wakeTimedOut in He. inv_st.
  destruct (m_futexes (sysc s) !! a) as [l|] eqn:Hl; [|by inv_st].
  destruct (take_timed_out time l) as [[t l']|] eqn:Ht; [|by inv_st]. inv_st.
  apply resume_resumed in He. refine (wake_sync_inv s _ s' PFutex t Hi _ _ _ He); [|done|apply Hi].
  by eapply (set_futex_remove a l l'), take_timed_out_ids.
Qed.

Lemma futexPeriodic_keeps time : keeps (futexPeriodic time).
Proof.
  intros s [] s' Hi He. apply st_bind_Ok in He as (l0 & s0 & [= <- <-] & He).
  apply st_bind_Ok in He as ([] & s1 & E1 & He). assert (Hi1 : sync_inv s1).
  { clear He. destruct (take_timed_out time (m_sleeping (sysc s))) as [[t l']|] eqn:Ht; [|by inv_st].
    inv_st. apply resume_resumed in E1. refine (wake_sync_inv s _ s1 PSleep t Hi _ _ _ E1); [|done|apply Hi].
    eapply swap_remove; [apply (waiters_sleeping l' s)|by eapply take_timed_out_ids]. }
  revert He. apply (keeps_bind (gets _)); [apply keeps_gets| |exact Hi1].
  intros m. apply keeps_forM. intros a. apply wakeTimedOut_keeps.
Qed.
Hint Resolve futexPeriodic_keeps : keeps.

Lemma hook_periodic_keeps time : keeps (hook_periodic time).
Proof. unfold hook_periodic. solve_keeps. Qed.
Lemma anyThreadRunning_keeps : keeps (@anyThreadRunning X).
Proof. apply keeps_gets. Qed.
Hint Resolve hook_periodic_keeps anyThreadRunning_keeps : keeps.

Lemma advance_until_resumed_keeps fuel caller cont : keeps (advance_until_resumed fuel caller cont).
Proof. induction fuel as [|fuel IH]; simpl; solve_keeps. Qed.
Hint Resolve advance_until_resumed_keeps : keeps.
Lemma barrierRelease_keeps caller cont : keeps (barrierRelease caller cont).
Proof. unfold barrierRelease. solve_keeps. Qed.
Hint Resolve barrierRelease_keeps : keeps.
Lemma advance_keeps : keeps advance.
Proof. unfold advance. solve_keeps. Qed.
Hint Resolve advance_keeps : keeps.
Lemma bss_signal_keeps : keeps bss_signal.
Proof. unfold bss_signal. solve_keeps. Qed.
Hint Resolve bss_signal_keeps : keeps.
Lemma bss_threadStop_keeps t : keeps (bss_threadStop t).
Proof. unfold bss_threadStop. solve_keeps. Qed.
Lemma synchronize_keeps core time : keeps (synchronize core time).
Proof. unfold synchronize. solve_keeps. Qed.
Hint Resolve bss_threadStop_keeps : keeps.
Lemma hook_stall_keeps t r time : keeps (hook_stall t r time).
Proof. unfold hook_stall. solve_keeps. Qed.
Lemma hook_exit_keeps t time : keeps (hook_exit t time).
Proof. unfold hook_exit. solve_keeps. Qed.
Lemma advance_until_running_keeps fuel : keeps (advance_until_running fuel).
Proof. induction fuel as [|fuel IH]; simpl; solve_keeps. Qed.
Hint Resolve hook_stall_keeps advance_until_running_keeps : keeps.

(** * Stalling a registered thread *)

(** Before the call the thread runs, and has just been registered. *)
Definition about_to_stall (p : place) (t : Z) s : Prop :=
  winv (eq t) s ∧ owners_ok s ∧ (p, t) ∈ waiters s ∧ has_status s t RUNNING.

Lemma stall_state_inv p t r s ts :
  about_to_stall p t s → fits p r → m_thread_state (tm s) !! Z.to_nat t = Some ts →
  sync_inv (put_state t (set_stalled r ts) s).
Proof.
  intros (Hi & Ho & Hin & ts0 & Ht0 & Hts0 & Hst) Hf Hts. simplify_eq.
  assert (Hw : waiters (put_state t (set_stalled r ts0) s) ≡ₚ waiters s).
  { eapply put_state_waiters; [done|]. unfold join_of. simpl.
    by rewrite !(bool_decide_eq_false_2 (_ = INITIALIZING)) by congruence. }
  split; [|done]. eapply (winv_close_stalled t p r).
  - eapply winv_same; [exact Hi|exact Hw|by apply put_state_agree|done].
  - by eapply put_state_stalled.
  - by rewrite Hw.
  - done.
Qed.

Lemma stallThread_inv p t r time :
  fits p r → hoare (about_to_stall p t) (stallThread t r time) (λ _, sync_inv).
Proof.
  intros Hf s o s' Ha He. apply st_bind_Ok in He as ([] & s1 & E1 & He).
  apply st_bind_Ok in E1 as ([] & s2 & E2 & E1).
  apply upd_state_Ok in E2 as (ts & _ & Hts & ->).
  pose proof (stall_state_inv p t r s ts Ha Hf Hts) as Hi.
  apply hook_stall_keeps in E1; [|exact Hi]. revert He. clear Hi Ha Hts.
  match goal with |- ?m s1 = _ → _ => assert (Hk : keeps m) by solve_keeps end.
  by apply Hk.
Qed.
End Hooks.

#[export] Hint Resolve futexPeriodic_keeps hook_periodic_keeps anyThreadRunning_keeps
  advance_until_resumed_keeps barrierRelease_keeps advance_keeps bss_signal_keeps
  bss_threadStop_keeps synchronize_keeps hook_stall_keeps hook_exit_keeps
  advance_until_running_keeps : keeps.

(** * Mutexes and condition variables *)
Section Services.
Context {X : Type} `{HH : Host} `{HS : SchedulerOk X}.
Implicit Types s : Sys X.

(** A running thread makes a call. *)
Definition calls (t : Z) s : Prop := sync_inv s ∧ has_status s t RUNNING.

Lemma calls_unregistered t s : calls t s → t ∉ (waiters s).*2.
Proof. intros [[Hi _] Hr]. apply (running_unregistered nobody s t RUNNING); [done|done|done|intros []]. Qed.
Lemma running_states s s' t c :
  m_thread_state (tm s') = m_thread_state (tm s) → has_status s t c → has_status s' t c.
Proof. intros He. unfold has_status. by rewrite He. Qed.
Lemma resumed_running_other t u s s' :
  resumed t s s' → has_status s u RUNNING → has_status s' u RUNNING.
Proof.
  intros (ts & s1 & Ht0 & Hts & H1 & Hs1 & H2) (tu & Hu0 & Htu & Hs). eapply moved_running; [exact H2|].
  destruct (decide (t = u)) as [<-|Hne]; [eapply put_state_status; [done|by rewrite Hs1|done]|].
  exists tu. split; [done|]. split; [|done]. simpl. rewrite list_lookup_insert_ne by lia. by rewrite Hs1.
Qed.

(** Queues change, the states of the threads do not. *)
Lemma same_inv s s' :
  sync_inv s → waiters s' ≡ₚ waiters s → m_thread_state (tm s') = m_thread_state (tm s) →
  owners_ok s' → sync_inv s'.
Proof.
  intros [Hi _] Hw Hs Ho. split; [|done]. by eapply winv_same; [exact Hi|exact Hw|apply agree_states|].
Qed.
Lemma enqueue_about p t s s' :
  calls t s → waiters s' ≡ₚ (p, t) :: waiters s → m_thread_state (tm s') = m_thread_state (tm s) →
  owners_ok s' → about_to_stall p t s'.
Proof.
  intros Hc Hw Hs Ho. split; [|split; [done|split]].
  - eapply winv_add; [apply Hc|exact Hw|by apply calls_unregistered|by apply agree_states|done|done].
  - rewrite Hw. by left.
  - eapply running_states; [exact Hs|apply Hc].
Qed.

Lemma owners_set_mutex mux m s :
  owners_ok s → (m_owner m = NO_OWNER → m_waiting m = []) → owners_ok (set_mutex mux m s).
Proof.
  intros Ho Hm mux' m'. simpl. intros [[<- <-]|[_ Hl]]%lookup_insert_Some; [done|by apply (Ho mux')].
Qed.
Lemma waiters_mutex_at mux m m0 s :
  m_mutexes (sync s) !! mux = Some m0 →
  waiters (set_mutex mux m s) ++ at_place PMutex (m_waiting m0)
  ≡ₚ waiters s ++ at_place PMutex (m_waiting m).
Proof. intros Hm. pose proof (waiters_mutex mux m s) as Hw. by rewrite Hm in Hw. Qed.

(** [getMutex] returns the mutex, which exists afterwards. *)
Lemma getMutex_Ok mux b s m s' :
  sync_inv s → getMutex mux b s = Ok (m, s') →
  sync_inv s' ∧ m_mutexes (sync s') !! mux = Some m ∧ tm s' = tm s ∧ sysc s' = sysc s ∧
  m_conds (sync s') = m_conds (sync s) ∧ m_barriers (sync s') = m_barriers (sync s) ∧
  (∀ x, m_mutexes (sync s) !! mux = Some x → m = x ∧ s' = s).
Proof.
  intros Hi He. unfold getMutex in He. inv_st.
  destruct (m_mutexes (sync s) !! mux) as [m'|] eqn:Hm.
  - inv_st. naive_solver.
  - destruct b; [|by inv_st]. unfold put_mutex in He. inv_st.
    split; [|simpl; by rewrite lookup_insert_eq].
    apply (same_inv s); [done| |done|apply owners_set_mutex; [apply Hi|done]].
    eapply swap_same; [apply (waiters_mutex mux SimMutex_new s)|]. by rewrite Hm.
Qed.

Lemma mutex_lock_inv mux m t time :
  hoare (λ s, calls t s ∧ m_mutexes (sync s) !! mux = Some m) (mutex_lock mux m t time) (λ _, sync_inv).
Proof.
  intros s o s' [Hc Hm] He. unfold mutex_lock, put_mutex in He. case_match eqn:Ho.
  - inv_st. apply Z.eqb_eq in Ho. pose proof (proj2 (proj1 Hc) mux m Hm Ho) as Hw.
    apply (same_inv s); [apply Hc| |done|apply owners_set_mutex; [apply Hc|done]].
    by eapply swap_same; [by apply waiters_mutex_at|].
  - inv_st. eapply (stallThread_inv PMutex t STALL_MUTEX time); [by left| |exact E].
    apply (enqueue_about _ _ s); [done| |done|apply owners_set_mutex; [apply Hc|]].
    + eapply swap_add; [by apply waiters_mutex_at|]. simpl. symmetry. apply Permutation_cons_append.
    + simpl. intros He. by rewrite He in Ho.
Qed.

Lemma registered_valid s p t : sync_inv s → (p, t) ∈ waiters s → 0 ≤ t.
Proof. intros [Hi _] Hin. by destruct (wi_stalled _ _ Hi p t Hin) as (r & (ts & Ht & _) & _); [intros []|]. Qed.

Lemma mutex_unlock_inv mux m t u time :
  hoare (λ s, calls u s ∧ m_mutexes (sync s) !! mux = Some m) (mutex_unlock mux m t time)
        (λ _ s, calls u s).
Proof.
  intros s o s' [Hc Hm] He. unfold mutex_unlock, put_mutex in He. inv_st.
  destruct (m_waiting m) as [|w rest] eqn:Hw; inv_st.
  - split; [|apply Hc]. apply (same_inv s); [apply Hc| |done|by apply owners_set_mutex; [apply Hc|]].
    eapply swap_same; [by apply waiters_mutex_at|]. by rewrite Hw.
  - apply resume_resumed in E0. split.
    + assert (Hr : waiters s ≡ₚ (PMutex, w) ::
                     waiters (set_mutex mux {| m_waiting := rest; m_owner := w |} s)).
      { eapply swap_remove; [by apply waiters_mutex_at|]. by rewrite Hw. }
      refine (wake_sync_inv s _ _ PMutex w (proj1 Hc) Hr eq_refl _ E0).
      apply owners_set_mutex; [apply Hc|]. simpl. intros ->. exfalso.
      assert (Hv : 0 ≤ NO_OWNER); [|by unfold NO_OWNER in Hv].
      eapply (registered_valid s PMutex); [apply Hc|rewrite Hr; by left].
    + eapply resumed_running_other; [exact E0|apply Hc].
Qed.

Lemma mutexInit_keeps mux : keeps (@mutexInit X mux).
Proof. intros s [] s' Hi He. unfold mutexInit in He. inv_st. by eapply getMutex_Ok. Qed.

Lemma mutexLock_inv t mux try time : hoare (calls t) (mutexLock t mux try time) (λ _, sync_inv).
Proof.
  intros s o s' Hc He. unfold mutexLock in He. apply st_bind_Ok in He as (m & s1 & E & He).
  apply getMutex_Ok in E as (Hi & Hm & Ht & _); [|apply Hc].
  case_match; [by inv_st|]. inv_st. eapply mutex_lock_inv; [|exact E]. split; [|done].
  split; [done|]. eapply running_states; [by rewrite Ht|apply Hc].
Qed.
Lemma mutexUnlock_inv t mux time : hoare (calls t) (mutexUnlock t mux time) (λ _, sync_inv).
Proof.
  intros s o s' Hc He. unfold mutexUnlock in He. apply st_bind_Ok in He as (m & s1 & E & He).
  apply getMutex_Ok in E as (Hi & Hm & Ht & _); [|apply Hc]. inv_st.
  eapply (mutex_unlock_inv mux m t t); [|exact E]. split; [|done].
  split; [done|]. eapply running_states; [by rewrite Ht|apply Hc].
Qed.
End Services.

Section Conds.
Context {X : Type} `{HH : Host} `{HS : SchedulerOk X}.
Implicit Types s : Sys X.

Lemma waiters_cond_at c l l0 s :
  m_conds (sync s) !! c = Some l0 →
  waiters (set_cond c l s) ++ at_place PCond (cond_ids l0) ≡ₚ waiters s ++ at_place PCond (cond_ids l).
Proof. intros Hm. pose proof (waiters_cond c l s) as Hw. by rewrite Hm in Hw. Qed.

Lemma getCond_Ok c s l s' :
  sync_inv s → getCond c s = Ok (l, s') →
  sync_inv s' ∧ m_conds (sync s') !! c = Some l ∧ tm s' = tm s ∧ sysc s' = sysc s ∧
  m_mutexes (sync s') = m_mutexes (sync s) ∧ m_barriers (sync s') = m_barriers (sync s) ∧
  (∀ x, m_conds (sync s) !! c = Some x → l = x ∧ s' = s).
Proof.
  intros Hi He. unfold getCond in He. inv_st.
  destruct (m_conds (sync s) !! c) as [l'|] eqn:Hm.
  - inv_st. naive_solver.
  - unfold put_cond in He. inv_st. split; [|simpl; by rewrite lookup_insert_eq].
    apply (same_inv s); [done| |done|apply Hi].
    eapply swap_same; [apply (waiters_cond c [] s)|]. by rewrite Hm.
Qed.

(** A waiter of a condition variable that was taken from its queue. *)
Definition taken (t : Z) s : Prop :=
  winv (eq t) s ∧ owners_ok s ∧ t ∉ (waiters s).*2 ∧ stalled_for s t STALL_COND.

Lemma stalled_status s t r : stalled_for s t r → has_status s t STALLED.
Proof. intros (ts & Ht & Hts & Hs & _). by exists ts. Qed.

Lemma lock_async_inv mux t by' time s b s' :
  taken t s → lock_async mux t by' time s = Ok (b, s') →
  sync_inv s' ∧ m_conds (sync s') = m_conds (sync s).
Proof.
  intros (Hi & Ho & Hn & Hst) He. unfold lock_async, put_mutex in He. inv_st.
  destruct (m_mutexes (sync s) !! mux) as [m|] eqn:Hm; [|by inv_st].
  case_match eqn:How; inv_st.
  - apply Z.eqb_eq in How. pose proof (Ho mux m Hm How) as Hw. apply resume_resumed in E.
    destruct (resumed_sync _ _ _ E) as [Hsy _]. split; [|by rewrite Hsy].
    set (s1 := put_sync _ s) in *.
    assert (Hws : waiters s1 ≡ₚ waiters s) by (by eapply swap_same; [by apply waiters_mutex_at|]).
    split.
    + apply (resumed_close t s1 _ STALLED); [|by eapply stalled_status|done|by rewrite Hws|exact E].
      by eapply winv_same; [exact Hi|exact Hws|apply agree_states|].
    + unfold owners_ok. rewrite Hsy. by apply owners_set_mutex.
  - split; [|done]. set (s1 := put_sync _ s).
    assert (Hws : waiters s1 ≡ₚ (PMutex, t) :: waiters s).
    { eapply swap_add; [by apply waiters_mutex_at|]. simpl. symmetry. apply Permutation_cons_append. }
    split.
    + apply (winv_close_stalled t PMutex STALL_COND); [|done|rewrite Hws; by left|by right].
      by eapply winv_add; [exact Hi|exact Hws|done|apply agree_states|done|].
    + apply owners_set_mutex; [done|]. simpl. intros He. by rewrite He in How.
Qed.

(** The first waiter is taken. *)
Lemma take_cond c w rest s :
  sync_inv s → m_conds (sync s) !! c = Some (w :: rest) → taken (cw_thread_id w) (set_cond c rest s).
Proof.
  intros [Hi Ho] Hc. set (t := cw_thread_id w).
  assert (Hr : waiters s ≡ₚ (PCond, t) :: waiters (set_cond c rest s)).
  { by eapply swap_remove; [by apply waiters_cond_at|]. }
  destruct (winv_remove nobody (eq t) s (set_cond c rest s) PCond t) as [Hi1 Hn];
    [done|done|by apply agree_states|done|done|].
  destruct (wi_stalled _ _ Hi PCond t) as (r & Hst & Hf); [rewrite Hr; by left|intros []|].
  simpl in Hf. subst r. by split.
Qed.

Lemma condInit_keeps c : keeps (@condInit X c).
Proof. intros s [] s' Hi He. unfold condInit in He. inv_st. by eapply getCond_Ok. Qed.

Lemma cond_wait_inv c mux m t time :
  hoare (λ s, calls t s ∧ m_mutexes (sync s) !! mux = Some m) (cond_wait c mux m t time) (λ _, sync_inv).
Proof.
  intros s o s' Hs He. unfold cond_wait in He. apply st_bind_Ok in He as (w & s1 & E & He).
  apply (mutex_unlock_inv mux m t t time) in E as [Hi Hr]; [|done].
  apply st_bind_Ok in He as (l & s2 & E2 & He).
  apply getCond_Ok in E2 as (Hi2 & Hl & Ht2 & _); [|done].
  unfold put_cond in He. inv_st. eapply (stallThread_inv PCond t STALL_COND time); [done| |exact E].
  apply (enqueue_about _ _ s2); [split; [done|]| |done|apply Hi2].
  - eapply running_states; [|exact Hr]. by rewrite Ht2.
  - eapply swap_add; [by apply waiters_cond_at|]. unfold cond_ids. rewrite fmap_app. simpl.
    symmetry. apply Permutation_cons_append.
Qed.
Lemma condWait_inv t c mux time : hoare (calls t) (condWait t c mux time) (λ _, sync_inv).
Proof.
  intros s o s' [Hi Hr] He. unfold condWait in He. apply st_bind_Ok in He as (m & s1 & E & He).
  apply getMutex_Ok in E as (Hi1 & Hm & Ht & _); [|done].
  apply st_bind_Ok in He as (l & s2 & E2 & He). apply getCond_Ok in E2 as (Hi2 & _ & Ht2 & _ & Hm2 & _); [|done].
  eapply cond_wait_inv; [|exact He]. rewrite Hm2. split; [|done]. split; [done|].
  eapply running_states; [|exact Hr]. by rewrite Ht2, Ht.
Qed.

Lemma condSignal_keeps t c time : keeps (condSignal t c time).
Proof.
  intros s o s' Hi He. unfold condSignal, cond_signal in He. inv_st.
  apply getCond_Ok in E0 as (Hi2 & Hl & _); [|done]. destruct x1 as [|w rest]; [by inv_st|].
  unfold put_cond in E. inv_st. match goal with Hk : lock_async _ _ _ _ _ = Ok _ |- _ => eapply lock_async_inv; [|exact Hk] end.
  by apply take_cond.
Qed.

Lemma broadcast_inv c l t time :
  hoare (λ s, sync_inv s ∧ m_conds (sync s) !! c = Some l) (broadcast_loop c l t time) (λ _, sync_inv).
Proof.
  induction l as [|w l IH]; intros s u s' [Hi Hl] He; simpl in He; [by inv_st|].
  unfold put_cond in He. inv_st. apply lock_async_inv in E as [Hi1 Hc]; [|by apply take_cond].
  eapply IH; [|exact He]. split; [done|]. rewrite Hc. simpl. by rewrite lookup_insert_eq.
Qed.
Lemma condBroadcast_keeps t c time : keeps (condBroadcast t c time).
Proof.
  intros s o s' Hi He. unfold condBroadcast in He. inv_st.
  apply getCond_Ok in E as (Hi2 & Hl & _); [|done]. by eapply broadcast_inv.
Qed.
End Conds.

(** * Barriers *)
Section SimBarriers.
Context {X : Type} `{HH : Host} `{HS : SchedulerOk X}.
Implicit Types s : Sys X.

Lemma upd_barrier_Ok b f s u s' :
  upd_barrier b f s = Ok (u, s') →
  ∃ x, m_barriers (sync s) !! Z.to_nat b = Some x ∧ s' = set_barrier (Z.to_nat b) (f x) s.
Proof. unfold upd_barrier. intros He. inv_st. apply updz_Ok in E as (x0 & _ & Hx & ->). eauto. Qed.

Lemma barrierInit_keeps n : keeps (@barrierInit X n).
Proof.
  intros s o s' Hi He. unfold barrierInit in He. inv_st. apply (same_inv s); [done| |done|apply Hi].
  unfold waiters. simpl. do 2 apply Permutation_app_head. apply Permutation_app_tail, at_place_perm.
  rewrite qlist_app. unfold qlist. simpl. by rewrite app_nil_r.
Qed.

Lemma barrier_release_inv b x t time l :
  hoare (λ s, sync_inv s ∧ m_barriers (sync s) !! Z.to_nat b = Some (put_bwaiting l x))
        (barrier_release b l t time) (λ _, sync_inv).
Proof.
  induction l as [|w l IH]; intros s u s' [Hi Hb] He; simpl in He; [by inv_st|]. inv_st.
  apply upd_barrier_Ok in E as (y & Hy & ->). simplify_eq. simpl in *. apply resume_resumed in E0.
  eapply IH; [|exact He]. split.
  - refine (wake_sync_inv s _ _ PBarrier w Hi _ _ _ E0); [|done|apply Hi].
    by eapply swap_remove; [by apply waiters_barrier|].
  - rewrite (proj1 (resumed_sync _ _ _ E0)). simpl. rewrite list_lookup_insert_eq; [done|].
    by eapply lookup_lt_Some.
Qed.

Lemma barrierWait_inv t b time : hoare (calls t) (barrierWait t b time) (λ _, sync_inv).
Proof.
  intros s o s' Hc He. unfold barrierWait in He. inv_st. apply rdz_Ok in E as [_ Hb]. case_match.
  - inv_st. eapply (barrier_release_inv b x); [|exact E]. split; [apply Hc|]. by destruct x.
  - inv_st. apply upd_barrier_Ok in E as (y & Hy & ->). simplify_eq.
    eapply (stallThread_inv PBarrier t STALL_BARRIER time); [done| |exact E0].
    apply (enqueue_about _ _ s); [done| |done|apply Hc].
    eapply swap_add; [by apply waiters_barrier|]. simpl. symmetry. apply Permutation_cons_append.
Qed.
End SimBarriers.

(** * Futexes *)
Section Futexes.
Context {X : Type} `{HH : Host} `{HS : SchedulerOk X}.
Implicit Types s : Sys X.

Lemma waiters_futex_of a l s :
  waiters (set_futex a l s) ++ at_place PFutex (waiter_ids (futex_of s a))
  ≡ₚ waiters s ++ at_place PFutex (waiter_ids l).
Proof.
  pose proof (waiters_futex a l s) as Hw. unfold futex_of.
  by destruct (m_futexes (sysc s) !! a).
Qed.

Lemma put_mem_inv f s : sync_inv s → sync_inv (put_mem f s).
Proof. intros Hi. by apply (same_inv s); [|..|apply Hi]. Qed.
Lemma applyRescheduleCost_moved t b : does (@moved X) (applyRescheduleCost t b).
Proof. unfold applyRescheduleCost. solve_moved. Qed.

Lemma findFutexByUaddr_inv uaddr t (P : Sys X → Prop) :
  (∀ s a, P s → sync_inv s → P (set_futex a (futex_of s a) s)) →
  hoare (λ s, P s ∧ sync_inv s) (findFutexByUaddr uaddr t) (λ _ s, P s ∧ sync_inv s).
Proof.
  intros HP s a s' [Hp Hi] He. unfold findFutexByUaddr, put_futex in He. inv_sys.
  split; [by apply HP|]. apply (same_inv s); [done| |done|apply Hi].
  by eapply swap_same; [apply waiters_futex_of|].
Qed.
Lemma findFutexByUaddr_keeps uaddr t : keeps (@findFutexByUaddr X uaddr t).
Proof.
  eapply hoare_conseq; [apply (findFutexByUaddr_inv uaddr t (λ _, True)); done|done|by intros a s [_ Hi]].
Qed.

Lemma dequeueWaiter_keeps a by' mask time : keeps (dequeueWaiter a by' mask time).
Proof.
  intros s o s' Hi He. unfold dequeueWaiter, put_futex in He. inv_st.
  destruct (take_matching mask (futex_of s a)) as [[t l']|] eqn:Ht; inv_st; [|done].
  apply resume_resumed in E.
  refine (wake_sync_inv s _ _ PFutex t Hi _ _ _ E); [|done|apply Hi].
  eapply swap_remove; [apply waiters_futex_of|by eapply take_matching_ids].
Qed.

Lemma requeueWaiter_keeps a a' : keeps (@requeueWaiter X a a').
Proof.
  intros s o s' Hi He. unfold requeueWaiter, put_futex in He. inv_st.
  destruct (futex_of s a) as [|w rest] eqn:Hl; inv_st; [done|].
  set (s1 := put_sysc _ s). assert (H1 : waiters s ≡ₚ (PFutex, w_thread_id w) :: waiters s1).
  { eapply swap_remove; [apply waiters_futex_of|]. by rewrite Hl. }
  apply (same_inv s); [done| |done|apply Hi]. rewrite H1.
  eapply swap_add; [apply waiters_futex_of|]. unfold waiter_ids. rewrite fmap_app. simpl.
  symmetry. apply Permutation_cons_append.
Qed.

Lemma wake_loop_keeps n (wake : st (Sys X) Z) woken : keeps wake → keeps (wake_loop n wake woken).
Proof. intros Hw. revert woken. induction n as [|n IH]; intros woken; simpl; solve_keeps. Qed.
Lemma requeue_loop_keeps fuel a a' : keeps (@requeue_loop X fuel a a').
Proof.
  induction fuel as [|fuel IH]; simpl; [apply keeps_fail|].
  apply keeps_bind; [apply requeueWaiter_keeps|]. intros w. case_match; [apply keeps_ret|apply IH].
Qed.
Lemma wakeFutexOne_keeps a t mask time : keeps (wakeFutexOne a t mask time).
Proof.
  apply keeps_bind; [apply keeps_moved, applyRescheduleCost_moved|]. intros. apply dequeueWaiter_keeps.
Qed.
Lemma futexDoOp_keeps op uaddr : keeps (@futexDoOp X op uaddr).
Proof.
  apply keeps_bind; [apply keeps_lift|intros oparg]. apply keeps_bind; [apply keeps_gets|intros old].
  apply keeps_bind; [apply keeps_lift|intros new]. apply keeps_bind; [|intros; apply keeps_lift].
  apply hoare_modify. intros s Hi. by apply put_mem_inv.
Qed.
Hint Resolve findFutexByUaddr_keeps dequeueWaiter_keeps wake_loop_keeps requeue_loop_keeps
  wakeFutexOne_keeps futexDoOp_keeps applyRescheduleCost_moved : keeps.

Lemma futexWake_keeps t uaddr n mask time : keeps (futexWake t uaddr n mask time).
Proof. unfold futexWake. solve_keeps. Qed.
Lemma futexWakeOp_keeps t uaddr uaddr2 n n2 op time : keeps (futexWakeOp t uaddr uaddr2 n n2 op time).
Proof. unfold futexWakeOp. solve_keeps. Qed.
Lemma futexCmpRequeue_keeps t uaddr v uaddr2 v3 act time :
  keeps (futexCmpRequeue t uaddr v uaddr2 v3 act time).
Proof. unfold futexCmpRequeue. solve_keeps. Qed.

Lemma enqueueWaiter_inv a t mask time timeout :
  hoare (calls t) (enqueueWaiter a t mask time timeout) (λ _, sync_inv).
Proof.
  intros s o s' Hc He. unfold enqueueWaiter, put_futex in He. inv_st.
  eapply (stallThread_inv PFutex t STALL_FUTEX time); [done| |exact E].
  apply (enqueue_about _ _ s); [done| |done|apply Hc].
  eapply swap_add; [apply waiters_futex_of|]. unfold waiter_ids. rewrite fmap_app. simpl.
  symmetry. apply Permutation_cons_append.
Qed.
Lemma futexWait_inv t uaddr v act mask time timeout :
  hoare (calls t) (futexWait t uaddr v act mask time timeout) (λ _, sync_inv).
Proof.
  intros s o s' [Hi Hr] He. unfold futexWait in He. apply st_bind_Ok in He as (a & s1 & E & He).
  eapply (findFutexByUaddr_inv uaddr t (λ s, has_status s t RUNNING)) in E as [Hr1 Hi1];
    [|intros s2 a2 Hs _; by eapply running_states|done].
  case_match; [by inv_st|]. inv_st. by eapply enqueueWaiter_inv.
Qed.

Lemma handleFutexCall_inv start t args time :
  hoare (calls t) (handleFutexCall start t args time) (λ _, sync_inv).
Proof.
  intros s o s' Hc He. unfold handleFutexCall in He. inv_sys. repeat case_match; inv_st;
    first [by eapply futexWait_inv
          |by eapply futexWake_keeps; [apply Hc|eassumption]
          |by eapply futexWakeOp_keeps; [apply Hc|eassumption]
          |by eapply futexCmpRequeue_keeps; [apply Hc|eassumption]].
Qed.

Lemma handleSleepCall_inv t wake time : hoare (calls t) (handleSleepCall t wake time) (λ _, sync_inv).
Proof.
  intros s o s' Hc He. unfold handleSleepCall in He. inv_st.
  eapply (stallThread_inv PSleep t STALL_SLEEP time); [done| |exact E].
  apply (enqueue_about _ _ s); [done| |done|apply Hc].
  eapply swap_add; [apply (waiters_sleeping _ s)|]. unfold waiter_ids. rewrite fmap_app. simpl.
  symmetry. apply Permutation_cons_append.
Qed.
End Futexes.

(** * Threads *)
Section Lifecycle.
Context {X : Type} `{HH : Host} `{HS : SchedulerOk X}.
Implicit Types s : Sys X.

Lemma sync_inv_owners s s' : sync_inv s → sync s' = sync s → owners_ok s'.
Proof. intros [_ Ho] He. unfold owners_ok. by rewrite He. Qed.

(** A thread that is in no queue changes to a state that is in none. *)
Lemma set_state_inv t ts c s :
  sync_inv s → has_status s t c → c ≠ STALLED →
  (status ts = STALLED → stalled_reason ts = Some STALL_UNSCHEDULED) →
  (∀ ts0, m_thread_state (tm s) !! Z.to_nat t = Some ts0 → join_of ts = join_of ts0) →
  sync_inv (put_state t ts s).
Proof.
  intros [Hi Ho] Hc Hne Hst Hj. pose proof Hc as (ts0 & Ht & Hts & _).
  assert (Hn : t ∉ (waiters s).*2) by (apply (running_unregistered nobody s t c); [done|done|done|intros []]).
  assert (Hw : waiters (put_state t ts s) ≡ₚ waiters s) by (eapply put_state_waiters; eauto).
  assert (Hi1 : winv (eq t) (put_state t ts s)).
  { by eapply winv_same; [exact Hi|exact Hw|apply put_state_agree|intros ? []]. }
  split; [|done]. destruct Hi1 as [Hnd H1 H2]. split; [done| |].
  - intros p u Hin _. apply H1; [done|]. intros <-. apply Hn. rewrite <- Hw. by eapply waiters_snd.
  - intros u r Hs Hr _. apply (H2 u r); [done|done|]. intros <-. destruct Hs as (tsu & _ & Htsu & Hsu & Hru).
    simpl in Htsu. rewrite list_lookup_insert_eq in Htsu by (by eapply lookup_lt_Some). simplify_eq.
    rewrite Hst in Hru by done. simplify_eq. unfold sync_reason in Hr. set_solver.
Qed.

Lemma join_of_waiter ts : waiter ts = INVALID_THREAD_ID → join_of ts = [].
Proof. intros Hw. unfold join_of. by rewrite bool_decide_eq_true_2. Qed.
Lemma join_of_status ts ts' :
  waiter ts = waiter ts' → status ts ≠ INITIALIZING → status ts' ≠ INITIALIZING → join_of ts = join_of ts'.
Proof.
  intros Hw Hs Hs'. unfold join_of. rewrite Hw.
  by rewrite !(bool_decide_eq_false_2 (_ = INITIALIZING)).
Qed.

(** ** Creation *)
Lemma push_thread_inv g app s :
  sync_inv s → length (m_threads (tm s)) = length (m_thread_state (tm s)) →
  let s' := put_tm (put_states (m_thread_state (tm s) ++ [ThreadState_new])
              (put_threads (m_threads (tm s) ++ [Thread_new g app]) (tm s))) s in
  sync_inv s' ∧ has_status s' (Z.of_nat (length (m_threads (tm s)))) IDLE.
Proof.
  intros [Hi Ho] Hlen s'. split; [split; [|done]|].
  - eapply winv_same; [exact Hi| | |done].
    + unfold waiters. simpl. do 5 apply Permutation_app_head. rewrite qlist_app. by rewrite app_nil_r.
    + intros t r _ _. unfold stalled_for. simpl. split; intros (ts & Ht & Hts & Hs).
      * exists ts. split; [done|]. split; [|done].
        apply lookup_app_Some in Hts as [Hts|[_ Hts]]; [done|].
        destruct (_ - _)%nat as [|[]]; simpl in Hts; simplify_eq. by destruct Hs.
      * exists ts. split; [done|]. split; [|done]. by apply lookup_app_l_Some.
  - exists ThreadState_new. split; [lia|]. split; [|done]. simpl. rewrite Nat2Z.id, Hlen.
    by rewrite lookup_app_r, Nat.sub_diag by lia.
Qed.

Definition sizes_ok s : Prop := length (m_threads (tm s)) = length (m_thread_state (tm s)).

Lemma createThread_inv g app :
  hoare (λ s, sync_inv s ∧ sizes_ok s) (createThread_unlocked g app) (λ _, sync_inv).
Proof.
  intros s o s' [Hi Hz] He. unfold createThread_unlocked in He.
  apply st_bind_Ok in He as (t & s0 & [= <- <-] & He). apply st_bind_Ok in He as ([] & s1 & [= <-] & He).
  apply st_bind_Ok in He as ([] & s2 & E2 & He). apply upd_state_Ok in E2 as (ts & _ & Hts & ->).
  destruct (push_thread_inv g app s Hi Hz) as [Hi1 Hst]. set (s1 := put_tm _ s) in *.
  assert (Hi2 : sync_inv (put_state (Z.of_nat (length (m_threads (tm s)))) (set_status INITIALIZING ts) s1)).
  { eapply set_state_inv; [done|exact Hst|done|done|]. intros ts0 Hts0. simpl in Hts0, Hts.
    rewrite Hts in Hts0. rewrite Nat2Z.id, Hz, lookup_app_r, Nat.sub_diag in Hts by lia. by simplify_eq/=. }
  clear Hst Hts. revert He.
  match goal with |- ?m ?s = _ → _ => assert (Hk : keeps m) by solve_keeps end. by apply Hk.
Qed.
Lemma spawnThread_inv g t app :
  hoare (λ s, sync_inv s ∧ sizes_ok s) (spawnThread g t app) (λ _, sync_inv).
Proof.
  intros s o s' Hs He. unfold spawnThread in He. apply st_bind_Ok in He as (tm0 & s1 & E1 & He).
  assert (s1 = s) as -> by (case_match; inv_sys; done).
  inv_st. apply createThread_inv in E; [|done]. apply (same_inv x0); [done|done|done|apply E].
Qed.
Lemma getThreadToSpawn_keeps : keeps (@getThreadToSpawn X).
Proof.
  intros s o s' Hi He. unfold getThreadToSpawn in He. inv_st. case_match; inv_st.
  by apply (same_inv s); [|..|apply Hi].
Qed.
End Lifecycle.

Section Start.
Context {X : Type} `{HH : Host} `{HS : SchedulerOk X}.
Implicit Types s : Sys X.

(** The state in which the waiter of a thread is forgotten.  While a thread
    starts, its waiter is still the one that waits for the start. *)
Definition erase (t : Z) s : Sys X :=
  put_tm (put_states (alter (set_waiter INVALID_THREAD_ID) (Z.to_nat t) (m_thread_state (tm s))) (tm s)) s.

Lemma set_waiter_moved a b w : state_moved a b → state_moved (set_waiter w a) (set_waiter w b).
Proof. intros [-> | (Hs & Hr & ->)]; [by left|by right]. Qed.
Lemma moved_erase t s s' : moved s s' → moved (erase t s) (erase t s').
Proof.
  intros Hm. split; try apply Hm. simpl. apply Forall2_alter; [apply Hm|].
  intros a b _ _. apply set_waiter_moved.
Qed.
Lemma erase_put_state t ts s :
  erase t (put_state t ts s) = put_state t (set_waiter INVALID_THREAD_ID ts) s.
Proof.
  unfold erase, put_state, put_tm, put_states. simpl. f_equal. f_equal. apply list_eq. intros i.
  destruct (decide (i = Z.to_nat t)) as [->|Hne].
  - rewrite list_lookup_alter_eq. destruct (decide (Z.to_nat t < length (m_thread_state (tm s)))%nat).
    + by rewrite !list_lookup_insert_eq by done.
    + rewrite !list_insert_ge by lia. rewrite lookup_ge_None_2 by lia. done.
  - by rewrite list_lookup_alter_ne, !list_lookup_insert_ne by done.
Qed.
Lemma erase_id t s ts :
  m_thread_state (tm s) !! Z.to_nat t = Some ts → waiter ts = INVALID_THREAD_ID → erase t s = s.
Proof.
  intros Hts Hw. unfold erase. destruct s as [[]]. unfold put_tm, put_states in *. simpl in *. f_equal. f_equal.
  apply list_eq. intros i. destruct (decide (i = Z.to_nat t)) as [->|Hne].
  - rewrite list_lookup_alter_eq, Hts. simpl. f_equal. destruct ts. simpl in *. by subst.
  - by rewrite list_lookup_alter_ne.
Qed.
Lemma erase_status t s u c : has_status (erase t s) u c ↔ has_status s u c.
Proof.
  unfold has_status. simpl. destruct (decide (Z.to_nat u = Z.to_nat t)) as [->|Hne].
  - rewrite list_lookup_alter_eq. split.
    + intros (ts & Hu & Hts & Hc). destruct (_ !! _) as [ts0|] eqn:E; [|done]. simpl in Hts. simplify_eq. eauto.
    + intros (ts & Hu & Hts & Hc). rewrite Hts. simpl. eauto.
  - by rewrite list_lookup_alter_ne.
Qed.
Lemma erase_lookup t s ts0 :
  m_thread_state (tm (erase t s)) !! Z.to_nat t = Some ts0 → join_of ts0 = [].
Proof.
  simpl. rewrite list_lookup_alter_eq. intros (ts & _ & ->)%fmap_Some. by apply join_of_waiter.
Qed.
Lemma put_erase t ts s :
  put_state t (set_waiter INVALID_THREAD_ID ts) (erase t s) = put_state t (set_waiter INVALID_THREAD_ID ts) s.
Proof.
  unfold erase, put_state, put_tm, put_states. simpl. f_equal. f_equal. apply list_eq. intros i.
  destruct (decide (i = Z.to_nat t)) as [->|Hne].
  - destruct (decide (Z.to_nat t < length (m_thread_state (tm s)))%nat) as [Hl|Hl].
    + by rewrite !list_lookup_insert_eq by (by rewrite ?length_alter).
    + rewrite !lookup_ge_None_2; [done| |]; rewrite length_insert, ?length_alter; lia.
  - by rewrite !list_lookup_insert_ne, list_lookup_alter_ne by done.
Qed.

(** The states of a starting thread. *)
Definition starting (t : Z) s : Prop := sync_inv (erase t s) ∧ has_status s t RUNNING.

Lemma starting_moved t s s' : starting t s → moved s s' → starting t s'.
Proof.
  intros [Hi Hr] Hm. split; [by eapply moved_inv, moved_erase|by eapply moved_running].
Qed.
Lemma starting_put t ts s :
  starting t s → (status ts = STALLED → stalled_reason ts = Some STALL_UNSCHEDULED) →
  sync_inv (erase t (put_state t ts s)).
Proof.
  intros [Hi Hr] Hst. rewrite erase_put_state, <- put_erase.
  eapply set_state_inv; [done|by apply erase_status|done|done|].
  intros ts0 Hts0. by rewrite (erase_lookup _ _ _ Hts0), join_of_waiter.
Qed.
Lemma starting_init t ts s :
  sync_inv s → has_status s t INITIALIZING → m_thread_state (tm s) !! Z.to_nat t = Some ts →
  starting t (put_state t (set_status RUNNING ts) s).
Proof.
  intros Hi (ts0 & Ht & Hts & Hs) Hts'. simplify_eq. split; [|by eapply put_state_status].
  rewrite erase_put_state. apply (set_state_inv t _ INITIALIZING); [done|by exists ts0|done|done|].
  intros ts1 Hts1. simplify_eq. rewrite join_of_waiter by done.
  unfold join_of. by rewrite (bool_decide_eq_true_2 (status _ = _)), orb_true_r.
Qed.
End Start.

Section Exit.
Context {X : Type} `{HH : Host} `{HS : SchedulerOk X}.
Implicit Types s : Sys X.

Lemma alter_as_insert {A} (f : A → A) i (l : list A) x : l !! i = Some x → alter f i l = <[i := f x]> l.
Proof.
  intros Hx. apply list_eq. intros j. destruct (decide (i = j)) as [<-|Hne].
  - rewrite list_lookup_alter_eq, Hx, list_lookup_insert_eq; [done|by eapply lookup_lt_Some].
  - by rewrite list_lookup_alter_ne, list_lookup_insert_ne.
Qed.

(** The thread runs on its core, or waits for one. *)
Lemma start_on_core t (oc : option Z) :
  hoare (starting t)
    (match oc with
     | Some c => upd_core c (setState RUNNING);! upd_state t (set_status RUNNING);! hook_migrate t
     | None => upd_state t (set_stalled STALL_UNSCHEDULED)
     end) (λ _ s, sync_inv (erase t s)).
Proof.
  intros s [] s' Hs He. destruct oc as [c|].
  - apply st_bind_Ok in He as ([] & s1 & E1 & He). apply upd_core_moved in E1.
    apply st_bind_Ok in He as ([] & s2 & E2 & He). apply upd_state_Ok in E2 as (ts & _ & Hts & ->).
    apply hook_migrate_moved in He. eapply moved_inv; [|by apply moved_erase].
    apply starting_put; [|done]. by eapply starting_moved.
  - apply upd_state_Ok in He as (ts & _ & Hts & ->). by apply starting_put.
Qed.

(** The waiter continues, and is forgotten. *)
Lemma start_waiter t time ts :
  hoare (λ s, sync_inv (erase t s) ∧ m_thread_state (tm s) !! Z.to_nat t = Some ts)
    (if negb (waiter ts =? INVALID_THREAD_ID) then
       signal (waiter ts) time false;! upd_state t (set_waiter INVALID_THREAD_ID)
     else ret tt) (λ _, sync_inv).
Proof.
  intros s [] s' [Hi Hts] He. destruct (Z.eqb_spec (waiter ts) INVALID_THREAD_ID) as [Hw|Hw]; simpl in He.
  - inv_st. by rewrite (erase_id t _ ts) in Hi.
  - apply st_bind_Ok in He as ([] & s5 & E5 & He). pose proof (signal_moved _ _ _ _ _ _ E5) as Hm.
    apply (moved_erase t) in Hm. eapply moved_inv in Hi; [|exact Hm].
    apply upd_state_Ok in He as (ts5 & Ht & Hts5 & ->). replace (put_tm _ _) with (erase t s5); [done|].
    unfold erase. f_equal. f_equal. by apply alter_as_insert.
Qed.

Lemma onThreadStart_inv t time :
  hoare (λ s, sync_inv s ∧ has_status s t INITIALIZING) (onThreadStart t time) (λ _, sync_inv).
Proof.
  intros s [] s' [Hi Hst] He. unfold onThreadStart in He.
  apply st_bind_Ok in He as (th0 & s0 & E0 & He). apply getThreadFromID_Ok in E0 as (-> & _).
  apply st_bind_Ok in He as ([] & s1 & E1 & He). apply upd_state_Ok in E1 as (ts & _ & Hts & ->).
  apply st_bind_Ok in He as ([] & s2 & E2 & He). apply sch_start_ok in E2.
  apply st_bind_Ok in He as (th & s3 & E3 & He). apply getThreadFromID_Ok in E3 as (-> & _).
  assert (Hs2 : starting t s2) by (eapply starting_moved; [by apply starting_init|exact E2]).
  apply st_bind_Ok in He as ([] & s3 & E3 & He). apply start_on_core in E3; [|done].
  apply st_bind_Ok in He as (time' & s4 & E4 & He).
  assert (s4 = s3) as -> by (clear He; case_match; inv_sys; done).
  apply st_bind_Ok in He as (ts' & s5 & E5 & He). apply get_state_Ok in E5 as (-> & Ht & Hts').
  by eapply start_waiter.
Qed.

Lemma put_state_agree_waiter Q t ts w s :
  m_thread_state (tm s) !! Z.to_nat t = Some ts → agree Q s (put_state t (set_waiter w ts) s).
Proof.
  intros Hts u r _ _. unfold stalled_for. simpl. destruct (decide (Z.to_nat u = Z.to_nat t)) as [->|Hne].
  - rewrite list_lookup_insert_eq by (by eapply lookup_lt_Some). split.
    + intros (ts' & Hu & [= <-] & Hs). exists ts. by simpl in Hs.
    + intros (ts' & Hu & Hts' & Hs). simplify_eq. by exists (set_waiter w ts).
  - by rewrite list_lookup_insert_ne by done.
Qed.
Lemma put_state_running_waiter t ts w s u c :
  m_thread_state (tm s) !! Z.to_nat t = Some ts → has_status s u c →
  has_status (put_state t (set_waiter w ts) s) u c.
Proof.
  intros Hts (tu & Hu & Htu & Hc). destruct (decide (Z.to_nat u = Z.to_nat t)) as [He|Hne].
  - rewrite He in Htu. simplify_eq. exists (set_waiter w ts). split; [done|]. rewrite He. simpl.
    by rewrite list_lookup_insert_eq by (by eapply lookup_lt_Some).
  - exists tu. simpl. by rewrite list_lookup_insert_ne by done.
Qed.

Lemma waitForThreadStart_inv t u : keeps (@waitForThreadStart X t u).
Proof.
  intros s o s' Hi He. unfold waitForThreadStart in He.
  apply st_bind_Ok in He as (th0 & s0 & E0 & He). apply getThreadFromID_Ok in E0 as (-> & _).
  apply st_bind_Ok in He as (ts & s1 & E1 & He). apply get_state_Ok in E1 as (-> & Hu & Hts).
  case_bool_decide as Hst; [|by inv_st]. inv_st.
  apply upd_thread_moved in E1. eapply moved_inv; [|exact E1].
  apply upd_state_Ok in E0 as (ts' & _ & Hts' & ->). simplify_eq.
  apply (set_state_inv u _ INITIALIZING); [done|by exists ts|done|simpl; by rewrite Hst|].
  intros ts0 Hts0. simplify_eq. unfold join_of. simpl. by rewrite Hst, !(bool_decide_eq_true_2 (INITIALIZING = INITIALIZING)), !orb_true_r.
Qed.

(** The joined thread has started. *)
Lemma joinThread_inv t j :
  hoare (λ s, calls t s ∧ ¬ has_status s j INITIALIZING) (joinThread t j) (λ _, sync_inv).
Proof.
  intros s o s' [Hc Hj] He. unfold joinThread in He.
  apply st_bind_Ok in He as (th & s0 & E0 & He). apply getThreadFromID_Ok in E0 as (-> & Ht & _).
  apply st_bind_Ok in He as (ts & s1 & E1 & He). apply get_state_Ok in E1 as (-> & Hj0 & Hts).
  case_bool_decide; [inv_st; apply Hc|]. apply st_bind_Ok in He as (c & s1 & E1 & He).
  apply lift_Ok in E1 as [_ ->]. apply st_bind_Ok in He as (co & s1 & E1 & He).
  apply getCoreFromID_Ok in E1 as (-> & _). apply st_bind_Ok in He as (a & s1 & E1 & He).
  apply lift_Ok in E1 as [Ha ->]. destruct (Z.eqb_spec (waiter ts) INVALID_THREAD_ID) as [Hw|]; [|done].
  apply st_bind_Ok in He as ([] & s1 & E1 & He). apply upd_state_Ok in E1 as (ts' & _ & Hts' & ->).
  simplify_eq. inv_st. eapply (stallThread_inv PJoin t STALL_JOIN); [done| |exact E].
  assert (Hw2 : waiters (put_state j (set_waiter t ts) s) ≡ₚ (PJoin, t) :: waiters s).
  { eapply swap_add; [by apply (waiters_join j)|]. rewrite (join_of_waiter ts) by done.
    unfold join_of. simpl. rewrite !bool_decide_eq_false_2; [done| |unfold INVALID_THREAD_ID; lia].
    intros Hst. apply Hj. by exists ts. }
  split; [|split; [apply Hc|split]].
  - eapply winv_add; [apply Hc|exact Hw2|by apply calls_unregistered|by apply put_state_agree_waiter|done|done].
  - rewrite Hw2. by left.
  - apply put_state_running_waiter; [done|apply Hc].
Qed.

(** ** Exit *)
Lemma winv_weaken P Q s : winv P s → (∀ t, P t → Q t) → winv Q s.
Proof. intros Hi HPQ. by eapply winv_same; [exact Hi|..]. Qed.

(** A thread that is not stalled keeps its state while another resumes. *)
Lemma resumed_other t u s s' ts :
  resumed t s s' → t ≠ u → 0 ≤ u → m_thread_state (tm s) !! Z.to_nat u = Some ts →
  status ts ≠ STALLED → m_thread_state (tm s') !! Z.to_nat u = Some ts.
Proof.
  intros (ts0 & s1 & Ht & Hts0 & _ & Hs1 & H2) Hne Hu Hts Hst.
  assert (Hp : m_thread_state (tm (put_state t (set_status RUNNING ts0) s1)) !! Z.to_nat u = Some ts).
  { simpl. rewrite list_lookup_insert_ne by lia. by rewrite Hs1. }
  eapply Forall2_lookup_l in Hp as (ts' & Hts' & Hm); [|apply (mv_states _ _ H2)].
  destruct Hm as [-> | (Hs & _)]; done.
Qed.

Lemma join_registered t ts s :
  m_thread_state (tm s) !! Z.to_nat t = Some ts → status ts ≠ INITIALIZING →
  waiter ts ≠ INVALID_THREAD_ID → (PJoin, waiter ts) ∈ waiters s.
Proof.
  intros Hts Hst Hw. unfold waiters. rewrite !elem_of_app. do 5 right.
  apply list_elem_of_fmap. exists (waiter ts). split; [done|].
  apply list_elem_of_In, in_concat. exists (join_of ts). unfold join_of.
  rewrite !bool_decide_eq_false_2 by done. split; [|by left].
  apply list_elem_of_In, list_elem_of_fmap. exists ts. split.
  - unfold join_of. by rewrite !bool_decide_eq_false_2.
  - by eapply list_elem_of_lookup_2.
Qed.

Lemma wakeUpWaiter_inv t time :
  hoare (λ s, sync_inv s ∧ has_status s t IDLE) (wakeUpWaiter t time) (λ _, sync_inv).
Proof.
  intros s [] s' [Hi Hst] He. unfold wakeUpWaiter in He.
  apply st_bind_Ok in He as (ts & s0 & E0 & He). apply get_state_Ok in E0 as (-> & Ht & Hts).
  destruct Hst as (ts0 & _ & Hts0 & Hst). rewrite Hts in Hts0. injection Hts0 as <-.
  destruct (Z.eqb_spec (waiter ts) INVALID_THREAD_ID) as [Hw|Hw]; simpl in He; [by inv_st|].
  apply st_bind_Ok in He as ([] & s1 & E1 & He). apply resume_resumed in E1.
  assert (Hin : (PJoin, waiter ts) ∈ waiters s) by (apply (join_registered t); congruence).
  destruct (wi_stalled _ _ (proj1 Hi) _ _ Hin) as (r & (tw & Hw0 & Htw & Hsw & _) & _); [intros []|].
  assert (Hne : waiter ts ≠ t) by (intros E; rewrite E in Htw; simplify_eq; congruence).
  destruct (resumed_winv (waiter ts) s s1 STALLED) as [Hi1 Hw1];
    [by eapply winv_weaken; [apply Hi|intros ? []]|by exists tw|done|done|].
  pose proof (resumed_other _ t _ _ ts E1 Hne Ht Hts ltac:(congruence)) as Hts1.
  apply upd_state_Ok in He as (ts' & _ & Hts' & ->). rewrite Hts1 in Hts'. injection Hts' as <-.
  set (s2 := put_tm _ s1). assert (Hrm : waiters s1 ≡ₚ (PJoin, waiter ts) :: waiters s2).
  { eapply swap_remove; [by apply (waiters_join t)|]. rewrite (join_of_waiter (set_waiter _ _)) by done.
    unfold join_of. by rewrite !bool_decide_eq_false_2 by congruence. }
  destruct (winv_remove (eq (waiter ts)) (eq (waiter ts)) s1 s2 PJoin (waiter ts)) as [Hi2 Hn2];
    [done|done|by apply put_state_agree_waiter|done|done|].
  split; [|apply (sync_inv_owners s); [done|apply (resumed_sync _ _ _ E1)]].
  apply (winv_close_running (waiter ts) RUNNING); [done| |done|done].
  apply put_state_running_waiter; [done|by eapply resumed_running].
Qed.

Lemma onThreadExit_inv t : hoare (calls t) (onThreadExit t) (λ _, sync_inv).
Proof.
  intros s [] s' [Hi Hr] He. unfold onThreadExit in He.
  apply st_bind_Ok in He as (l & s0 & [= <- <-] & He). apply st_bind_Ok in He as (a & s0 & E0 & He).
  apply lift_Ok in E0 as [_ ->]. apply st_bind_Ok in He as (th & s0 & E0 & He).
  apply getThreadFromID_Ok in E0 as (-> & _). apply st_bind_Ok in He as (c & s0 & E0 & He).
  apply lift_Ok in E0 as [_ ->]. apply st_bind_Ok in He as (co & s0 & E0 & He).
  apply getCoreFromID_Ok in E0 as (-> & _). apply st_bind_Ok in He as (ts & s0 & E0 & He).
  apply get_state_Ok in E0 as (-> & Ht & Hts). apply st_bind_Ok in He as (b & s0 & E0 & He).
  apply lift_Ok in E0 as [_ ->]. apply st_bind_Ok in He as ([] & s1 & E1 & He).
  apply upd_state_Ok in E1 as (ts' & _ & Hts' & ->). rewrite Hts in Hts'. injection Hts' as <-.
  apply st_bind_Ok in He as ([] & s2 & E2 & He). apply wakeUpWaiter_inv in E2.
  - revert He. match goal with |- ?m s2 = _ → _ => assert (Hk : keeps m) end; [|by apply Hk].
    apply keeps_bind; [|intros []; solve_keeps]. destruct (clear_tid th); [|apply keeps_ret].
    apply keeps_bind; [apply hoare_modify; intros; by apply put_mem_inv|intros []].
    apply keeps_bind; [apply futexWake_keeps|intros; apply keeps_ret].
  - split; [|by eapply put_state_status].
    apply (set_state_inv t _ RUNNING); [done|done|done|done|]. intros ts0 Hts0.
    rewrite Hts in Hts0. injection Hts0 as <-. destruct Hr as (ts1 & _ & Hts1 & Hs1).
    rewrite Hts in Hts1. injection Hts1 as <-. by apply join_of_status; simpl; congruence.
Qed.

(** A thread without a core waits for one. *)
Lemma stall_unscheduled_inv t time : hoare (calls t) (stallThread t STALL_UNSCHEDULED time) (λ _, sync_inv).
Proof.
  intros s o s' [Hi Hr] He. apply st_bind_Ok in He as ([] & s1 & E1 & He).
  apply st_bind_Ok in E1 as ([] & s2 & E2 & E1).
  apply upd_state_Ok in E2 as (ts & _ & Hts & ->).
  apply hook_stall_keeps in E1.
  - revert He. match goal with |- ?m s1 = _ → _ => assert (Hk : keeps m) by solve_keeps end. by apply Hk.
  - apply (set_state_inv t _ RUNNING); [done|done|done|done|]. intros ts0 Hts0.
    rewrite Hts in Hts0. injection Hts0 as <-. destruct Hr as (ts1 & _ & Hts1 & Hs1).
    rewrite Hts in Hts1. injection Hts1 as <-. by apply join_of_status; simpl; congruence.
Qed.
End Exit.
