(* ===== verification/SyncFrame.v ===== *)
(** What the operations of the thread manager and of the futexes leave alone:
    the number of threads, and the mutexes, condition variables and barriers
    ([quiet]).  With it, what each service does to the waiters of a mutex
    ([granted]): they stay in line until they own the mutex. *)
From S2P Require Import Prelude SubsecondTime System ThreadManager SyncServer SyncFacts SyncInv.
Import Barrier.
Local Open Scope Z_scope.

Record quiet {X} (s s' : Sys X) : Prop := {
  q_threads : length (m_threads (tm s')) = length (m_threads (tm s));
  q_states : length (m_thread_state (tm s')) = length (m_thread_state (tm s));
  q_sync : sync s' = sync s }.
#[export] Instance quiet_pre {X} : PreOrder (@quiet X).
Proof. split; [by split|]. intros a b c [] []. split; congruence. Qed.

Section Quiet.
Context {X : Type} `{HH : Host} `{HS : SchedulerOk X}.
Implicit Types s : Sys X.

Lemma moved_quiet s s' : moved s s' → quiet s s'.
Proof. intros Hm. split; [apply Hm| |apply Hm]. symmetry. eapply Forall2_length, (mv_states _ _ Hm). Qed.
Lemma quiet_moved {A} (m : st (Sys X) A) : does moved m → does quiet m.
Proof. intros Hm s a s' He. by eapply moved_quiet, Hm. Qed.
Lemma upd_state_quiet t f : does (@quiet X) (upd_state t f).
Proof.
  intros s u s' (ts & _ & _ & ->)%upd_state_Ok. split; try done. simpl. by rewrite length_insert.
Qed.
Lemma put_sysc_quiet (g : Sys X → SyscallServer) : does (@quiet X) (modify (λ s, put_sysc (g s) s)).
Proof. by apply (does_modify _). Qed.
Lemma put_mem_quiet (g : Sys X → Z → Z) : does (@quiet X) (modify (λ s, put_mem (g s) s)).
Proof. by apply (does_modify _). Qed.
Lemma on_bss_quiet {A} (m : st BarrierSyncServer A) : does (@quiet X) (on_bss m).
Proof. by apply does_zoom. Qed.
Lemma resume_quiet t by' time msg : does quiet (resume t by' time msg).
Proof.
  unfold resume, resumeThread, resumeThread_async.
  apply (does_bind _); [apply quiet_moved, signal_moved|intros []].
  apply (does_bind _); [apply upd_state_quiet|intros []]. apply quiet_moved, sch_resume_ok.
Qed.
End Quiet.

Create HintDb quiet.
#[export] Hint Resolve quiet_moved upd_state_quiet put_sysc_quiet put_mem_quiet on_bss_quiet
  resume_quiet sch_create_ok sch_start_ok sch_stall_ok sch_resume_ok sch_exit_ok sch_periodic_ok
  signal_moved setCore_moved hook_migrate_moved get_state_moved getThreadFromID_moved
  getCoreFromID_moved upd_thread_moved upd_core_moved applyRescheduleCost_moved : quiet.

Ltac solve_quiet :=
  repeat match goal with
  | |- does _ (st_bind _ _) => apply (does_bind _); [|intros ?]
  | |- does _ (ret _) => apply (does_ret _)
  | |- does _ (gets _) => apply (does_gets _)
  | |- does _ (lift _) => apply (does_lift _)
  | |- does _ (fail _) => apply (does_fail _)
  | |- does _ (forM_ _ _) => apply (does_forM _); intros ?
  | |- does _ (match ?x with _ => _ end) => destruct x
  | |- does _ _ => solve [eauto with quiet]
  end.

Section QuietOps.
Context {X : Type} `{HH : Host} `{HS : SchedulerOk X}.
Implicit Types s : Sys X.

Lemma wakeTimedOut_quiet a time : does quiet (wakeTimedOut (X:=X) a time).
Proof. unfold wakeTimedOut. solve_quiet. Qed.
Hint Resolve wakeTimedOut_quiet : quiet.
Lemma hook_periodic_quiet time : does quiet (hook_periodic (X:=X) time).
Proof. unfold hook_periodic, futexPeriodic. solve_quiet. Qed.
Lemma anyThreadRunning_quiet : does quiet (@anyThreadRunning X).
Proof. unfold anyThreadRunning. solve_quiet. Qed.
Hint Resolve hook_periodic_quiet anyThreadRunning_quiet : quiet.
Lemma advance_until_resumed_quiet fuel c cont : does quiet (advance_until_resumed (X:=X) fuel c cont).
Proof. induction fuel as [|fuel IH]; simpl; solve_quiet. Qed.
Hint Resolve advance_until_resumed_quiet : quiet.
Lemma barrierRelease_quiet c cont : does quiet (barrierRelease (X:=X) c cont).
Proof. unfold barrierRelease. solve_quiet. Qed.
Hint Resolve barrierRelease_quiet : quiet.
Lemma bss_threadStop_quiet t : does quiet (bss_threadStop (X:=X) t).
Proof. unfold bss_threadStop, bss_signal. solve_quiet. Qed.
Hint Resolve bss_threadStop_quiet : quiet.
Lemma synchronize_quiet c time : does quiet (synchronize (X:=X) c time).
Proof. unfold synchronize. solve_quiet. Qed.
Lemma advance_until_running_quiet fuel : does quiet (advance_until_running (X:=X) fuel).
Proof. induction fuel as [|fuel IH]; simpl; unfold advance; solve_quiet. Qed.
Hint Resolve advance_until_running_quiet : quiet.
Lemma stallThread_quiet t r time : does quiet (stallThread (X:=X) t r time).
Proof. unfold stallThread, stallThread_async, hook_stall. solve_quiet. Qed.
Hint Resolve stallThread_quiet : quiet.
Lemma onThreadStart_quiet t time : does quiet (onThreadStart (X:=X) t time).
Proof. unfold onThreadStart. solve_quiet. Qed.
Lemma waitForThreadStart_quiet t u : does (@quiet X) (waitForThreadStart t u).
Proof. unfold waitForThreadStart. solve_quiet. Qed.
Lemma joinThread_quiet t u : does quiet (joinThread (X:=X) t u).
Proof. unfold joinThread. solve_quiet. Qed.
Lemma findFutexByUaddr_quiet u t : does (@quiet X) (findFutexByUaddr u t).
Proof. unfold findFutexByUaddr, put_futex. solve_quiet. Qed.
Lemma dequeueWaiter_quiet a t m time : does quiet (dequeueWaiter (X:=X) a t m time).
Proof. unfold dequeueWaiter, put_futex. solve_quiet. Qed.
Lemma requeueWaiter_quiet a b : does (@quiet X) (requeueWaiter a b).
Proof. unfold requeueWaiter, put_futex. solve_quiet. Qed.
Hint Resolve findFutexByUaddr_quiet dequeueWaiter_quiet requeueWaiter_quiet : quiet.
Lemma wakeFutexOne_quiet a t m time : does quiet (wakeFutexOne (X:=X) a t m time).
Proof. unfold wakeFutexOne. solve_quiet. Qed.
Hint Resolve wakeFutexOne_quiet : quiet.
Lemma wake_loop_quiet n (w : st (Sys X) Z) k : does quiet w → does quiet (wake_loop n w k).
Proof. intros Hw. revert k. induction n as [|n IH]; intros k; simpl; solve_quiet. Qed.
Lemma requeue_loop_quiet fuel a b : does (@quiet X) (requeue_loop fuel a b).
Proof. induction fuel as [|fuel IH]; simpl; solve_quiet. Qed.
Lemma futexDoOp_quiet op u : does (@quiet X) (futexDoOp op u).
Proof. unfold futexDoOp. solve_quiet. Qed.
Hint Resolve wake_loop_quiet requeue_loop_quiet futexDoOp_quiet : quiet.
Lemma futexWake_quiet t u n m time : does quiet (futexWake (X:=X) t u n m time).
Proof. unfold futexWake. solve_quiet. Qed.
Hint Resolve futexWake_quiet : quiet.
Lemma handleFutexCall_quiet start t args time : does quiet (handleFutexCall (X:=X) start t args time).
Proof.
  unfold handleFutexCall, futexWait, enqueueWaiter, put_futex, futexWakeOp, futexCmpRequeue. solve_quiet.
Qed.
Lemma handleSleepCall_quiet t w time : does quiet (handleSleepCall (X:=X) t w time).
Proof. unfold handleSleepCall. solve_quiet. Qed.
Lemma onThreadExit_quiet t : does quiet (onThreadExit (X:=X) t).
Proof. unfold onThreadExit, wakeUpWaiter, hook_exit. solve_quiet. Qed.
End QuietOps.

(** * The waiters of a mutex *)

(** In the queue of the mutex, or in that of a condition variable with it. *)
Definition waits_for {X} (t mux : Z) (s : Sys X) : Prop :=
  (∃ m, m_mutexes (sync s) !! mux = Some m ∧ t ∈ m_waiting m) ∨
  (∃ c l w, m_conds (sync s) !! c = Some l ∧ w ∈ l ∧ cw_thread_id w = t ∧ cw_mutex w = mux).
Definition owns {X} (t mux : Z) (s : Sys X) : Prop :=
  ∃ m, m_mutexes (sync s) !! mux = Some m ∧ m_owner m = t.

(** A waiter stays a waiter until it is the owner, and the threads outside [U]
    stay owners. *)
Record granted {X} (U : Z → Prop) (s s' : Sys X) : Prop := {
  g_waits t mux : t ≠ NO_OWNER → waits_for t mux s → waits_for t mux s' ∨ owns t mux s';
  g_owns t mux : t ≠ NO_OWNER → ¬ U t → owns t mux s → owns t mux s' }.

Section Granted.
Context {X : Type} `{HH : Host} `{HS : SchedulerOk X}.
Implicit Types (s : Sys X) (U : Z → Prop).

Lemma granted_sync U s s' : sync s' = sync s → granted U s s'.
Proof. intros Hs. split; unfold waits_for, owns; rewrite Hs; auto. Qed.
Lemma granted_quiet U s s' : quiet s s' → granted U s s'.
Proof. intros Hq. by apply granted_sync, Hq. Qed.
Lemma granted_trans U s s1 s2 : granted U s s1 → granted nobody s1 s2 → granted U s s2.
Proof.
  intros H1 H2. split.
  - intros t mux Hn [Hw|Ho]%(g_waits _ _ _ H1); [by apply H2| |done].
    right. by apply (g_owns _ _ _ H2); [|intros []|].
  - intros t mux Hn HU Ho%(g_owns _ _ _ H1); [|done|done]. by apply (g_owns _ _ _ H2); [|intros []|].
Qed.
Lemma granted_weaken U s s' : granted nobody s s' → granted U s s'.
Proof. intros Hg. split; [apply Hg|]. intros t mux Hn _. by apply (g_owns _ _ _ Hg); [|intros []]. Qed.

Lemma granted_set_mutex U mux m s :
  (∀ m0, m_mutexes (sync s) !! mux = Some m0 →
     (∀ t, t ≠ NO_OWNER → t ∈ m_waiting m0 → t ∈ m_waiting m ∨ m_owner m = t) ∧
     (∀ t, t ≠ NO_OWNER → ¬ U t → m_owner m0 = t → m_owner m = t)) →
  granted U s (set_mutex mux m s).
Proof.
  intros Hm. split.
  - intros t mux' Hn [(m0 & Hm0 & Hin)|Hc]; [|left; by right].
    destruct (decide (mux = mux')) as [<-|Hne].
    + destruct (proj1 (Hm m0 Hm0) t Hn Hin) as [Hw|Ho]; [left; left|right];
        exists m; simpl; by rewrite lookup_insert_eq.
    + left. left. exists m0. simpl. by rewrite lookup_insert_ne.
  - intros t mux' Hn HU (m0 & Hm0 & Ho). destruct (decide (mux = mux')) as [<-|Hne].
    + exists m. simpl. rewrite lookup_insert_eq. split; [done|]. by apply (proj2 (Hm m0 Hm0)).
    + exists m0. simpl. by rewrite lookup_insert_ne.
Qed.
Lemma granted_set_cond U c l s :
  (∀ l0, m_conds (sync s) !! c = Some l0 → l0 ⊆ l) → granted U s (set_cond c l s).
Proof.
  intros Hl. split; [|done]. intros t mux Hn [Hm|(c' & l0 & w & Hl0 & Hin & Hw)]; [left; by left|].
  left. right. destruct (decide (c = c')) as [<-|Hne].
  - exists c, l, w. simpl. rewrite lookup_insert_eq. split; [done|]. split; [by apply (Hl l0)|done].
  - exists c', l0, w. simpl. by rewrite lookup_insert_ne.
Qed.

(** A step that grants nothing. *)
Definition kept s s' : Prop :=
  ∀ t mux, (waits_for t mux s → waits_for t mux s') ∧ (owns t mux s → owns t mux s').
Lemma kept_granted U s s1 s2 : kept s s1 → granted U s1 s2 → granted U s s2.
Proof.
  intros Hk Hg. split.
  - intros t mux Hn Hw. apply (g_waits _ _ _ Hg); [done|]. by apply Hk.
  - intros t mux Hn HU Ho. apply (g_owns _ _ _ Hg); [done|done|]. by apply Hk.
Qed.
Lemma kept_only U s s' : kept s s' → granted U s s'.
Proof. intros Hk. eapply kept_granted; [exact Hk|by apply granted_sync]. Qed.

Lemma getMutex_kept mux b s m s' : getMutex mux b s = Ok (m, s') → kept s s'.
Proof.
  intros He. unfold getMutex, put_mutex in He. inv_st.
  destruct (m_mutexes (sync s) !! mux) eqn:Hm; [by inv_st|]. destruct b; inv_st. intros t mux'. split.
  - intros [(m0 & Hm0 & Hin)|Hc]; [left|by right]. exists m0. simpl. by rewrite lookup_insert_ne by congruence.
  - intros (m0 & Hm0 & Ho). exists m0. simpl. by rewrite lookup_insert_ne by congruence.
Qed.
Lemma getCond_kept c s l s' : getCond c s = Ok (l, s') → kept s s' ∧ m_conds (sync s') !! c = Some l.
Proof.
  intros He. unfold getCond, put_cond in He. inv_st.
  destruct (m_conds (sync s) !! c) eqn:Hm; inv_st; [by simplify_eq|]. simpl. rewrite lookup_insert_eq.
  split; [|done]. intros t mux. split; [|done].
  intros [Hw|(c' & l0 & w & Hl0 & Hw)]; [by left|right]. exists c', l0, w. simpl.
  by rewrite lookup_insert_ne by congruence.
Qed.

(** ** Locking and unlocking *)
Lemma mutex_lock_granted U mux m t time s o s' :
  m_mutexes (sync s) !! mux = Some m → (m_owner m = NO_OWNER → m_waiting m = []) →
  mutex_lock mux m t time s = Ok (o, s') → granted U s s'.
Proof.
  intros Hm Hw He. unfold mutex_lock, put_mutex in He. destruct (Z.eqb_spec (m_owner m) NO_OWNER).
  - inv_st. apply granted_set_mutex. intros m0 Hm0. rewrite Hm in Hm0. injection Hm0 as <-. simpl.
    split; [auto|congruence].
  - inv_st. apply stallThread_quiet in E. eapply granted_trans; [|by apply granted_quiet].
    apply granted_set_mutex. intros m0 Hm0. rewrite Hm in Hm0. injection Hm0 as <-. simpl. set_solver.
Qed.
Lemma mutex_unlock_granted mux m t time s o s' :
  m_mutexes (sync s) !! mux = Some m → mutex_unlock mux m t time s = Ok (o, s') → granted (eq t) s s'.
Proof.
  intros Hm He. unfold mutex_unlock, put_mutex in He. inv_st. unfold c_assert in E.
  destruct (Z.eqb_spec (m_owner m) t) as [Ho|]; [|done]. destruct (m_waiting m) as [|w rest] eqn:Hw; inv_st.
  - apply granted_set_mutex. intros m0 Hm0. rewrite Hm in Hm0. injection Hm0 as <-. rewrite Hw.
    split; [set_solver|]. intros u _ Hu. congruence.
  - apply resume_quiet in E0. eapply granted_trans; [|by apply granted_quiet].
    apply granted_set_mutex. intros m0 Hm0. rewrite Hm in Hm0. injection Hm0 as <-. rewrite Hw. simpl.
    split; [set_solver|]. intros u _ Hu. congruence.
Qed.

(** A signalled waiter gets the mutex or waits in its queue. *)
Lemma signal_granted c w rest t time s b s' :
  m_conds (sync s) !! c = Some (w :: rest) → owners_ok s →
  lock_async (cw_mutex w) (cw_thread_id w) t time (set_cond c rest s) = Ok (b, s') → granted nobody s s'.
Proof.
  intros Hc Hok He. unfold lock_async, put_mutex in He. inv_st. simpl in He.
  destruct (m_mutexes (sync s) !! cw_mutex w) as [m|] eqn:Hm; [|by inv_st].
  assert (Hg : ∀ m', (∀ u, u ∈ m_waiting m → u ∈ m_waiting m') →
     (cw_thread_id w ∈ m_waiting m' ∨ m_owner m' = cw_thread_id w) →
     (∀ u, u ≠ NO_OWNER → m_owner m = u → m_owner m' = u) →
     granted nobody s (set_mutex (cw_mutex w) m' (set_cond c rest s))).
  { intros m' Hsub Hw Hown. split.
    - intros u mux Hn [(m0 & Hm0 & Hin)|(c' & l0 & w0 & Hl0 & Hin & <- & <-)].
      + left. left. destruct (decide (cw_mutex w = mux)) as [<-|Hne].
        * exists m'. simpl. rewrite lookup_insert_eq. simplify_eq. auto.
        * exists m0. simpl. by rewrite lookup_insert_ne.
      + destruct (decide (c' = c)) as [->|Hne].
        * rewrite Hc in Hl0. injection Hl0 as <-. apply elem_of_cons in Hin as [->|Hin].
          -- destruct Hw as [Hw|Hw]; [left; left|right]; exists m'; simpl; by rewrite lookup_insert_eq.
          -- left. right. exists c, rest, w0. simpl. by rewrite lookup_insert_eq.
        * left. right. exists c', l0, w0. simpl. by rewrite lookup_insert_ne.
    - intros u mux Hn _ (m0 & Hm0 & Ho). destruct (decide (cw_mutex w = mux)) as [<-|Hne].
      + exists m'. simpl. rewrite lookup_insert_eq. simplify_eq. auto.
      + exists m0. simpl. by rewrite lookup_insert_ne. }
  destruct (Z.eqb_spec (m_owner m) NO_OWNER) as [Ho|Ho]; inv_st.
  - apply resume_quiet in E. eapply granted_trans; [|by apply granted_quiet].
    apply Hg; simpl; [done|by right|congruence].
  - apply Hg; simpl; set_solver.
Qed.
End Granted.
