(* ===== verification/SchedulerStatic.v ===== *)
(** The static scheduler ([scheduler/scheduler_static.cc]): a new thread gets
    the first idle core of the mask and stays there; the scheduler registers
    no callbacks.  Its state is the mask. *)
From S2P Require Import Prelude System ThreadManager SyncServer SyncFacts.
Local Open Scope Z_scope.

(** [Scheduler::findFirstFreeCore]. *)
Fixpoint firstFreeCore (core_id : Z) (l : list Core) : Z :=
  match l with
  | [] => INVALID_CORE_ID
  | c :: l => if bool_decide (c_state c = IDLE) then core_id else firstFreeCore (core_id + 1) l
  end.
Definition findFirstFreeCore {X} : st (Sys X) Z := gets (λ s, firstFreeCore 0 (cores s)).

Fixpoint firstFreeMaskedCore (core_id : Z) (mask : list bool) (l : list Core) : Z :=
  match mask, l with
  | m :: mask, c :: l =>
      if m && bool_decide (c_state c = IDLE) then core_id
      else firstFreeMaskedCore (core_id + 1) mask l
  | _, _ => INVALID_CORE_ID
  end.
Definition findFirstFreeMaskedCore : st (Sys (list bool)) Z :=
  gets (λ s, firstFreeMaskedCore 0 (sched s) (cores s)).

Definition static_threadCreate (thread_id : Z) : st (Sys (list bool)) Z :=
  let! core_id := findFirstFreeMaskedCore in
  lift (log_assert (negb (core_id =? INVALID_CORE_ID)) "No cores available for spawnThread request.");!
  let! _ := getThreadFromID thread_id in
  ret core_id.

#[export] Instance SchedulerStatic : Scheduler (list bool) := {|
  sch_threadCreate := static_threadCreate;
  sch_threadStart := λ _ _, ret tt;
  sch_threadStall := λ _ _ _, ret tt;
  sch_threadResume := λ _ _ _, ret tt;
  sch_threadExit := λ _ _, ret tt;
  sch_periodic := λ _, ret tt |}.

#[export] Instance SchedulerStatic_ok : SchedulerOk (list bool).
Proof.
  split; intros; try apply (does_ret _). simpl. unfold static_threadCreate, findFirstFreeMaskedCore.
  solve_moved.
Qed.

(** The core that a new thread gets is in the mask and idle, and it is the
    first such core. *)
Lemma firstFreeMaskedCore_spec mask l c k :
  firstFreeMaskedCore k mask l = c → c ≠ INVALID_CORE_ID → 0 ≤ k →
  k ≤ c ∧ mask !! Z.to_nat (c - k) = Some true ∧
  ∃ co, l !! Z.to_nat (c - k) = Some co ∧ c_state co = IDLE.
Proof.
  revert l k. induction mask as [|m mask IH]; intros l k He Hn Hk; [by destruct l|].
  destruct l as [|co l]; simpl in He; [congruence|].
  destruct m; simpl in He; [case_bool_decide as Hs|].
  - subst c. rewrite Z.sub_diag. simpl. split; [lia|]. eauto.
  - apply IH in He as (Hle & Hm & Hco); [|done|lia].
    replace (Z.to_nat (c - k)) with (S (Z.to_nat (c - (k + 1)))) by lia. simpl. split; [lia|done].
  - apply IH in He as (Hle & Hm & Hco); [|done|lia].
    replace (Z.to_nat (c - k)) with (S (Z.to_nat (c - (k + 1)))) by lia. simpl. split; [lia|done].
Qed.
