(* ===== verification/SyncProps.v ===== *)
(** The synchronisation services as a transition system, and what holds in all
    its runs: threads that wait are registered with the service that wakes
    them, and a thread that waits for a mutex continues as its owner. *)
From S2P Require Import Prelude SubsecondTime System ThreadManager SyncServer SyncFacts SyncInv SyncFrame SchedulerStatic.
Import Barrier.
Local Open Scope Z_scope.

(** * Runs *)

(** The calls of a running thread. *)
Inductive service : Type :=
| MutexInit (mux : Z) | MutexLock (mux : Z) (tryLock : bool) (time : Z) | MutexUnlock (mux time : Z)
| CondInit (cond : Z) | CondWait (cond mux time : Z) | CondSignal (cond time : Z)
| CondBroadcast (cond time : Z)
| BarrierInit (count : Z) | BarrierWait (barrier time : Z)
| Futex (os_time_start : Z) (args : futex_args_t) (time : Z) | Sleep (wake_time time : Z)
| Spawn (garbage_msg : bool) (app_id : Z) | WaitForStart (other : Z) | Join (other : Z) | Exit
| Unscheduled (time : Z).

Section Machine.
Context {X : Type} `{HH : Host} `{HS : Scheduler X}.
Implicit Types s : Sys X.

Definition discard {A} (m : st (Sys X) A) : st (Sys X) unit := m;! ret tt.

Definition serve (t : Z) (c : service) : st (Sys X) unit :=
  match c with
  | MutexInit mux => mutexInit mux
  | MutexLock mux tryLock time => discard (mutexLock t mux tryLock time)
  | MutexUnlock mux time => discard (mutexUnlock t mux time)
  | CondInit cond => condInit cond
  | CondWait cond mux time => discard (condWait t cond mux time)
  | CondSignal cond time => discard (condSignal t cond time)
  | CondBroadcast cond time => discard (condBroadcast t cond time)
  | BarrierInit count => discard (barrierInit count)
  | BarrierWait barrier time => discard (barrierWait t barrier time)
  | Futex start args time => discard (handleFutexCall start t args time)
  | Sleep wake_time time => discard (handleSleepCall t wake_time time)
  | Spawn g app_id => discard (spawnThread g t app_id)
  | WaitForStart other => discard (waitForThreadStart t other)
  | Join other => discard (joinThread t other)
  | Exit => onThreadExit t
  | Unscheduled time => discard (stallThread t STALL_UNSCHEDULED time)
  end.

(** One step: a running thread makes a call (a thread is only joined once it
    has started), a thread is created or starts, a core reaches the barrier,
    the scheduler moves a thread, or the application runs. *)
Inductive step s : Sys X → Prop :=
| step_call t c s' :
    has_status s t RUNNING → (∀ j, c = Join j → ¬ has_status s j INITIALIZING) →
    serve t c s = Ok (tt, s') → step s s'
| step_create g app_id t s' : createThread_unlocked g app_id s = Ok (t, s') → step s s'
| step_spawned r s' : getThreadToSpawn s = Ok (r, s') → step s s'
| step_start t time s' :
    has_status s t INITIALIZING → onThreadStart t time s = Ok (tt, s') → step s s'
| step_synchronize core_id time o s' : synchronize core_id time s = Ok (o, s') → step s s'
| step_move t core_id time s' :
    moveThread sch_threadResume t core_id time s = Ok (tt, s') → step s s'
| step_run l f : length l = length (cores s) → step s (put_mem f (put_cores l s)).
End Machine.

(** The simulator before its first thread. *)
Definition Sys_new {X} (n : nat) (quantum cost : Z) (x : X) : Sys X :=
  {| tm := {| m_threads := []; m_thread_state := []; m_thread_spawn_list := [] |};
     cores := replicate n {| c_state := IDLE; c_thread := None; c_elapsed := 0; c_instructions := 0 |};
     sync := {| m_mutexes := ∅; m_conds := ∅; m_barriers := [] |};
     sysc := {| m_sleeping := []; m_futexes := ∅ |};
     bss := BarrierSyncServer_new quantum n; mem := λ _, 0; reschedule_cost := cost; sched := x |}.

(** ** The number of threads *)
Record sized {X} (s s' : Sys X) : Prop := {
  z_threads : length (m_threads (tm s')) = length (m_threads (tm s));
  z_states : length (m_thread_state (tm s')) = length (m_thread_state (tm s)) }.
#[export] Instance sized_pre {X} : PreOrder (@sized X).
Proof. split; [by split|]. intros a b c [] []. split; congruence. Qed.

Section Sized.
Context {X : Type} `{HH : Host} `{HS : SchedulerOk X}.

Lemma sized_quiet {A} (m : st (Sys X) A) : does quiet m → does sized m.
Proof. intros Hm s a s' He. destruct (Hm s a s' He). by split. Qed.
Lemma put_sync_sized (g : Sys X → SyncServer) : does (@sized X) (modify (λ s, put_sync (g s) s)).
Proof. by apply (does_modify _). Qed.
End Sized.

#[export] Hint Resolve sized_quiet put_sync_sized : quiet.
#[export] Hint Resolve stallThread_quiet handleFutexCall_quiet handleSleepCall_quiet onThreadExit_quiet
  waitForThreadStart_quiet joinThread_quiet : quiet.

Section SizedOps.
Context {X : Type} `{HH : Host} `{HS : SchedulerOk X}.

Lemma put_mutex_sized mux m : does (@sized X) (put_mutex mux m).
Proof. apply put_sync_sized. Qed.
Lemma put_cond_sized c l : does (@sized X) (put_cond c l).
Proof. apply put_sync_sized. Qed.
Hint Resolve put_mutex_sized put_cond_sized : quiet.
Lemma getMutex_sized mux b : does (@sized X) (getMutex mux b).
Proof. unfold getMutex. solve_quiet. Qed.
Lemma getCond_sized c : does (@sized X) (getCond c).
Proof. unfold getCond. solve_quiet. Qed.
Lemma lock_async_sized mux t by' time : does sized (lock_async (X:=X) mux t by' time).
Proof. unfold lock_async. solve_quiet. Qed.
Lemma mutex_unlock_sized mux m t time : does sized (mutex_unlock (X:=X) mux m t time).
Proof. unfold mutex_unlock. solve_quiet. Qed.
Hint Resolve getMutex_sized getCond_sized lock_async_sized mutex_unlock_sized : quiet.
Lemma broadcast_sized c l t time : does sized (broadcast_loop (X:=X) c l t time).
Proof. induction l as [|w l IH]; simpl; solve_quiet. Qed.
Lemma upd_barrier_sized b f : does (@sized X) (upd_barrier b f).
Proof. unfold upd_barrier. solve_quiet. Qed.
Hint Resolve broadcast_sized upd_barrier_sized : quiet.
Lemma barrier_release_sized b l t time : does sized (barrier_release (X:=X) b l t time).
Proof. induction l as [|w l IH]; simpl; solve_quiet. Qed.
Hint Resolve barrier_release_sized : quiet.

(** All calls but [Spawn] keep the number of threads. *)
Lemma serve_sized t c : (∀ g app, c ≠ Spawn g app) → does sized (serve (X:=X) t c).
Proof.
  intros Hc. destruct c; simpl; try (by edestruct Hc);
    unfold discard, mutexInit, mutexLock, mutex_lock, mutexUnlock, condInit, condWait, cond_wait,
      condSignal, cond_signal, condBroadcast, barrierInit, barrierWait; solve_quiet.
Qed.
End SizedOps.

Section Reach.
Context {X : Type} `{HH : Host} `{HS : SchedulerOk X}.
Implicit Types s : Sys X.

(** * The invariant *)
Definition sys_inv s : Prop := sync_inv s ∧ sizes_ok s.

Lemma sizes_quiet s s' : sizes_ok s → quiet s s' → sizes_ok s'.
Proof. unfold sizes_ok. intros Hz Hq. by rewrite (q_threads _ _ Hq), (q_states _ _ Hq). Qed.
Lemma put_sync_sizes s s' : tm s' = tm s → sizes_ok s → sizes_ok s'.
Proof. unfold sizes_ok. by intros ->. Qed.

Lemma Sys_new_inv n q cost (x : X) : sys_inv (Sys_new n q cost x).
Proof.
  split; [split; [split|]|done]; [constructor| | |done].
  - intros p t Hin. by apply elem_of_nil in Hin.
  - intros t r (ts & _ & Hts & _). done.
Qed.

Lemma createThread_sizes g app s t s' :
  sizes_ok s → createThread_unlocked g app s = Ok (t, s') → sizes_ok s'.
Proof.
  intros Hz He. unfold createThread_unlocked in He.
  apply st_bind_Ok in He as (t0 & s0 & [= <- <-] & He). apply st_bind_Ok in He as ([] & s1 & [= <-] & He).
  revert He. match goal with |- ?m ?s1 = _ → _ => assert (Hq : does quiet m) by solve_quiet; intros He end.
  eapply sizes_quiet; [|by eapply Hq]. unfold sizes_ok in *. simpl. rewrite !length_app. simpl. lia.
Qed.

Lemma discard_Ok {A} (m : st (Sys X) A) s u s' : discard m s = Ok (u, s') → ∃ a, m s = Ok (a, s').
Proof. unfold discard. intros He. inv_st. eauto. Qed.

Lemma serve_inv t c s s' :
  sys_inv s → has_status s t RUNNING → (∀ j, c = Join j → ¬ has_status s j INITIALIZING) →
  serve t c s = Ok (tt, s') → sync_inv s'.
Proof.
  intros [Hi Hz] Hr Hj He. assert (Hc : calls t s) by done.
  destruct c; simpl in He; try match type of He with discard _ _ = _ => apply discard_Ok in He as [o He] end.
  - by eapply mutexInit_keeps.
  - by eapply mutexLock_inv.
  - by eapply mutexUnlock_inv.
  - by eapply condInit_keeps.
  - by eapply condWait_inv.
  - by eapply condSignal_keeps.
  - by eapply condBroadcast_keeps.
  - by eapply barrierInit_keeps.
  - by eapply barrierWait_inv.
  - by eapply handleFutexCall_inv.
  - by eapply handleSleepCall_inv.
  - by eapply spawnThread_inv.
  - by eapply waitForThreadStart_inv.
  - eapply joinThread_inv; [|exact He]. eauto.
  - by eapply onThreadExit_inv.
  - by eapply stall_unscheduled_inv.
Qed.

Lemma spawnThread_sizes g t app s o s' :
  sizes_ok s → spawnThread g t app s = Ok (o, s') → sizes_ok s'.
Proof.
  intros Hz He. unfold spawnThread in He. apply st_bind_Ok in He as (tm0 & s1 & E1 & He).
  assert (s1 = s) as -> by (clear He; case_match; inv_sys; done).
  inv_st. by apply createThread_sizes in E.
Qed.

Lemma step_inv s s' : sys_inv s → step s s' → sys_inv s'.
Proof.
  intros Hs Hstep. pose proof Hs as [Hi Hz]. destruct Hstep as
    [t c s' Hr Hj He|g app t s' He|r s' He|t time s' Ht He|c time o s' He|t c time s' He|l f Hl].
  - split; [by eapply serve_inv|]. destruct c; try (by apply serve_sized in He; [destruct He; unfold sizes_ok; congruence|]).
    simpl in He. apply discard_Ok in He as [o He]. by eapply spawnThread_sizes.
  - split; [by eapply createThread_inv|by eapply createThread_sizes].
  - split; [by eapply getThreadToSpawn_keeps|]. unfold getThreadToSpawn in He. inv_st. case_match; inv_st. done.
  - split; [by eapply onThreadStart_inv|]. by eapply sizes_quiet, onThreadStart_quiet.
  - split; [by eapply synchronize_keeps|]. by eapply sizes_quiet, synchronize_quiet.
  - assert (Hm : moved s s') by (by eapply moveThread_moved; [apply sch_resume_ok|]).
    split; [by eapply moved_inv|]. by eapply sizes_quiet, moved_quiet.
  - split; [|done]. apply put_mem_inv. by apply (same_inv s); [|..|apply Hi].
Qed.
Lemma steps_inv s s' : sys_inv s → rtc step s s' → sys_inv s'.
Proof. intros Hi Hs. induction Hs as [|s s1 s' H1 _ IH]; [done|]. by eapply IH, step_inv. Qed.

(** ** Waiters of mutexes *)
Definition locks_same s s' : Prop :=
  m_mutexes (sync s') = m_mutexes (sync s) ∧ m_conds (sync s') = m_conds (sync s).
#[local] Instance locks_same_pre : PreOrder locks_same.
Proof. split; [done|]. intros a b c [] []. split; congruence. Qed.
Lemma granted_locks U s s' : locks_same s s' → granted U s s'.
Proof. intros [Hm Hc]. split; unfold waits_for, owns; rewrite Hm, ?Hc; auto. Qed.
Lemma locks_quiet {A} (m : st (Sys X) A) : does quiet m → does locks_same m.
Proof. intros Hm s a s' He. unfold locks_same. by rewrite (q_sync _ _ (Hm s a s' He)). Qed.
Lemma upd_barrier_locks b f : does locks_same (upd_barrier b f).
Proof. intros s u s' (y & _ & ->)%upd_barrier_Ok. done. Qed.
Hint Resolve locks_quiet upd_barrier_locks : quiet.
Lemma barrier_release_locks b l t time : does locks_same (barrier_release b l t time).
Proof. induction l as [|w l IH]; simpl; solve_quiet. Qed.
Hint Resolve barrier_release_locks : quiet.
Lemma barrierWait_locks t b time : does locks_same (barrierWait t b time).
Proof. unfold barrierWait. solve_quiet. Qed.
Lemma createThread_locks g app : does locks_same (createThread_unlocked g app).
Proof.
  unfold createThread_unlocked. apply (does_bind _); [solve_quiet|intros t].
  apply (does_bind _); [by apply (does_modify _)|intros []]. solve_quiet.
Qed.

Lemma mutexLock_granted t mux try time s o s' :
  sync_inv s → mutexLock t mux try time s = Ok (o, s') → granted nobody s s'.
Proof.
  intros Hi He. unfold mutexLock in He. apply st_bind_Ok in He as (m & s1 & E & He).
  pose proof (getMutex_kept _ _ _ _ _ E) as Hg. apply getMutex_Ok in E as (Hi1 & Hm & _); [|done].
  case_match; inv_st; [by apply kept_only|]. eapply kept_granted; [exact Hg|].
  eapply mutex_lock_granted; [exact Hm| |eassumption]. by apply (proj2 Hi1 mux).
Qed.
Lemma mutexUnlock_granted t mux time s o s' :
  sync_inv s → mutexUnlock t mux time s = Ok (o, s') → granted (eq t) s s'.
Proof.
  intros Hi He. unfold mutexUnlock in He. apply st_bind_Ok in He as (m & s1 & E & He).
  pose proof (getMutex_kept _ _ _ _ _ E) as Hg. apply getMutex_Ok in E as (Hi1 & Hm & _); [|done]. inv_st.
  eapply kept_granted; [exact Hg|]. by eapply mutex_unlock_granted.
Qed.
Lemma condWait_granted t c mux time s o s' :
  sync_inv s → condWait t c mux time s = Ok (o, s') → granted (eq t) s s'.
Proof.
  intros Hi He. unfold condWait in He. apply st_bind_Ok in He as (m & s1 & E1 & He).
  pose proof (getMutex_kept _ _ _ _ _ E1) as Hg1. apply getMutex_Ok in E1 as (Hi1 & Hm & _); [|done].
  apply st_bind_Ok in He as (l & s2 & E2 & He). pose proof (proj1 (getCond_kept _ _ _ _ E2)) as Hg2.
  apply getCond_Ok in E2 as (Hi2 & _ & _ & _ & Hm2 & _); [|done]. unfold cond_wait in He.
  apply st_bind_Ok in He as (w & s3 & E3 & He). rewrite <- Hm2 in Hm.
  pose proof (mutex_unlock_granted _ _ _ _ _ _ _ Hm E3) as Hg3.
  apply st_bind_Ok in He as (l3 & s4 & E4 & He). apply getCond_kept in E4 as [Hg4 Hl4].
  eapply kept_granted; [exact Hg1|]. eapply kept_granted; [exact Hg2|].
  eapply granted_trans; [exact Hg3|]. eapply kept_granted; [exact Hg4|].
  unfold put_cond in He. inv_st. apply stallThread_quiet in E. eapply granted_trans; [|by apply granted_quiet].
  apply granted_set_cond. set_solver.
Qed.
Lemma condSignal_granted t c time s o s' :
  sync_inv s → condSignal t c time s = Ok (o, s') → granted nobody s s'.
Proof.
  intros Hi He. unfold condSignal in He. apply st_bind_Ok in He as (w0 & s0 & E & He).
  apply ret_Ok in He as [_ ->]. unfold cond_signal in E. apply st_bind_Ok in E as (l & s1 & E1 & E).
  pose proof (getCond_kept _ _ _ _ E1) as [Hg1 Hl]. apply getCond_Ok in E1 as (Hi1 & _); [|done].
  eapply kept_granted; [exact Hg1|]. destruct l as [|w rest]; [inv_st; by apply granted_sync|].
  unfold put_cond in E. inv_st.
  match goal with Hk : lock_async _ _ _ _ _ = Ok _ |- _ => eapply signal_granted; [exact Hl|apply Hi1|exact Hk] end.
Qed.
Lemma broadcast_granted c l t time s u s' :
  sync_inv s → m_conds (sync s) !! c = Some l → broadcast_loop c l t time s = Ok (u, s') →
  granted nobody s s'.
Proof.
  revert s. induction l as [|w l IH]; intros s Hi Hl He; simpl in He; [inv_st; by apply granted_sync|].
  apply st_bind_Ok in He as ([] & s1 & [= <-] & He). apply st_bind_Ok in He as (b & s2 & E2 & He).
  pose proof (signal_granted _ _ _ _ _ _ _ _ Hl (proj2 Hi) E2) as Hg.
  apply lock_async_inv in E2 as [Hi2 Hc2]; [|by apply take_cond]. eapply granted_trans; [exact Hg|].
  eapply IH; [done| |exact He]. rewrite Hc2. simpl. by rewrite lookup_insert_eq.
Qed.
Lemma condBroadcast_granted t c time s o s' :
  sync_inv s → condBroadcast t c time s = Ok (o, s') → granted nobody s s'.
Proof.
  intros Hi He. unfold condBroadcast in He. apply st_bind_Ok in He as (l & s1 & E1 & He).
  pose proof (getCond_kept _ _ _ _ E1) as [Hg1 Hl]. apply getCond_Ok in E1 as (Hi1 & _); [|done].
  eapply kept_granted; [exact Hg1|]. inv_st. by eapply broadcast_granted.
Qed.

Lemma elem_of_qmap {A} (f : A → list Z) (m : gmap Z A) i a t :
  m !! i = Some a → t ∈ f a → t ∈ qmap f m.
Proof.
  intros Hi Ht. unfold qmap, qlist. apply list_elem_of_In, in_concat. exists (f a).
  split; [|by apply list_elem_of_In]. apply list_elem_of_In, list_elem_of_fmap. exists a. split; [done|].
  apply list_elem_of_fmap. exists (i, a). split; [done|]. by apply elem_of_map_to_list.
Qed.
Lemma waits_for_registered t mux s : waits_for t mux s → ∃ p, (p, t) ∈ waiters s.
Proof.
  intros [(m & Hm & Hin)|(c & l & w & Hl & Hin & <- & _)].
  - exists PMutex. unfold waiters. apply elem_of_app. left. apply list_elem_of_fmap. exists t.
    split; [done|]. by eapply elem_of_qmap.
  - exists PCond. unfold waiters. rewrite !elem_of_app. right. left. apply list_elem_of_fmap.
    exists (cw_thread_id w). split; [done|]. eapply elem_of_qmap; [exact Hl|].
    apply list_elem_of_fmap. by exists w.
Qed.

Lemma serve_granted t c s s' : sync_inv s → serve t c s = Ok (tt, s') → granted (eq t) s s'.
Proof.
  intros Hi He. destruct c; simpl in He;
    try match type of He with discard _ _ = _ => apply discard_Ok in He as [o He] end.
  - unfold mutexInit in He. inv_st. eapply kept_only, getMutex_kept, E.
  - by eapply granted_weaken, mutexLock_granted.
  - by eapply mutexUnlock_granted.
  - unfold condInit in He. inv_st. eapply kept_only, getCond_kept, E.
  - by eapply condWait_granted.
  - by eapply granted_weaken, condSignal_granted.
  - by eapply granted_weaken, condBroadcast_granted.
  - unfold barrierInit in He. inv_st. by apply granted_locks.
  - by eapply granted_locks, barrierWait_locks.
  - by eapply granted_quiet, handleFutexCall_quiet.
  - by eapply granted_quiet, handleSleepCall_quiet.
  - apply granted_locks. unfold spawnThread in He. apply st_bind_Ok in He as (tm0 & s1 & E1 & He).
    assert (s1 = s) as -> by (clear He; case_match; inv_sys; done). inv_st. by apply createThread_locks in E.
  - by eapply granted_quiet, waitForThreadStart_quiet.
  - by eapply granted_quiet, joinThread_quiet.
  - by eapply granted_quiet, onThreadExit_quiet.
  - by eapply granted_quiet, stallThread_quiet.
Qed.
Lemma step_granted s s' : sync_inv s → step s s' → ∃ U, granted U s s'.
Proof.
  intros Hi Hstep. destruct Hstep as
    [t c s' Hr Hj He|g app t s' He|r s' He|t time s' Ht He|c time o s' He|t c time s' He|l f Hl].
  - exists (eq t). by eapply serve_granted.
  - exists nobody. by eapply granted_locks, createThread_locks.
  - exists nobody. unfold getThreadToSpawn in He. inv_st. case_match; inv_st. by apply granted_sync.
  - exists nobody. by eapply granted_quiet, onThreadStart_quiet.
  - exists nobody. by eapply granted_quiet, synchronize_quiet.
  - exists nobody. eapply granted_quiet, moved_quiet. by eapply moveThread_moved; [apply sch_resume_ok|].
  - exists nobody. by apply granted_sync.
Qed.
End Reach.

(** * Theorems *)
Section Theorems.
Context {X : Type} `{HH : Host} `{HS : SchedulerOk X}.

(** C19: In every run of the simulator, with any scheduler that only moves
    threads, whatever running threads do except to join a thread that has not
    started (such a join is lost, see [join_before_start_is_lost]): a thread
    that is stalled in a service (a mutex, condition variable, barrier, futex,
    sleep or join) is registered with exactly one queue, of the kind that fits
    the reason of the stall, and every thread in a queue is stalled for that
    reason; a mutex without an owner has no waiters. So no wake-up is lost and
    none goes to a thread that does not wait. *)
Theorem waiting_threads_registered n quantum cost (x : X) s :
  rtc step (Sys_new n quantum cost x) s →
  NoDup (waiters s).*2 ∧
  (∀ t r, stalled_for s t r → sync_reason r → ∃ p, (p, t) ∈ waiters s ∧ fits p r) ∧
  (∀ p t, (p, t) ∈ waiters s → ∃ r, stalled_for s t r ∧ fits p r) ∧
  (∀ mux m, m_mutexes (sync s) !! mux = Some m → m_owner m = NO_OWNER → m_waiting m = []).
Proof.
  intros Hs. destruct (steps_inv _ _ (Sys_new_inv n quantum cost x) Hs) as [[Hi Ho] _].
  split; [apply Hi|]. split; [|split; [|exact Ho]].
  - intros t r Hst Hr. pose proof (wi_registered _ _ Hi t r Hst Hr ltac:(intros [])) as Hin.
    apply list_elem_of_fmap in Hin as ([p u] & -> & Hin). simpl in *.
    destruct (wi_stalled _ _ Hi p u Hin) as (r' & (ts' & _ & Hts' & _ & Hr') & Hf); [intros []|].
    exists p. split; [done|]. destruct Hst as (ts & _ & Hts & _ & Hre). simplify_eq. done.
  - intros p t Hin. by apply (wi_stalled _ _ Hi); [|intros []].
Qed.

(** C20: A thread that waits for a mutex, in its queue or in the queue of a
    condition variable, stays stalled and in line over every step of every
    run until it owns the mutex. *)
Theorem mutex_waiters_continue_as_owners n quantum cost (x : X) s s' t mux :
  rtc step (Sys_new n quantum cost x) s → step s s' → waits_for t mux s →
  (waits_for t mux s' ∧ has_status s' t STALLED) ∨ owns t mux s'.
Proof.
  intros Hs Hst Hw. pose proof (steps_inv _ _ (Sys_new_inv n quantum cost x) Hs) as Hi.
  assert (Hp : ∀ s : Sys X, sys_inv s → waits_for t mux s → has_status s t STALLED).
  { clear. intros s [[Hi _] _] Hw. assert (Hin : ∃ p, (p, t) ∈ waiters s) by (by eapply waits_for_registered).
    destruct Hin as [p Hin]. destruct (wi_stalled _ _ Hi p t Hin) as (r & Hr & _); [intros []|].
    by eapply stalled_status. }
  destruct (step_granted s s' (proj1 Hi) Hst) as [U Hg].
  assert (Hn : t ≠ NO_OWNER).
  { destruct (Hp s Hi Hw) as (ts & Ht & _). unfold NO_OWNER. lia. }
  destruct (g_waits _ _ _ Hg t mux Hn Hw) as [Hw'|Ho]; [left|by right].
  split; [done|]. apply Hp; [by eapply step_inv|done].
Qed.
End Theorems.

(** * A run of two threads

    Thread 0 takes the mutex at address 64, thread 1 waits for it. *)
Definition example_host : Host :=
  {| unordered := id; random_shuffle := id; num_host_cores := 2 |}.

Section Example.
#[local] Existing Instance example_host.
Definition exec {A} (m : st (Sys (list bool)) A) (s : Sys (list bool)) : Sys (list bool) :=
  match m s with Ok (_, s') => s' | Err _ => s end.
Definition returns {A} (m : st (Sys (list bool)) A) (s : Sys (list bool)) : bool :=
  match m s with Ok _ => true | Err _ => false end.
Lemma returns_exec {A} (m : st (Sys (list bool)) A) s :
  returns m s = true → ∃ a, m s = Ok (a, exec m s).
Proof. unfold returns, exec. destruct (m s) as [[a s']|]; [eauto|done]. Qed.
Definition status_is (s : Sys (list bool)) (t : Z) (c : CoreState) : bool :=
  match m_thread_state (tm s) !! Z.to_nat t with
  | Some ts => (0 <=? t) && bool_decide (status ts = c)
  | None => false
  end.
Lemma status_is_ok s t c : status_is s t c = true → has_status s t c.
Proof.
  unfold status_is. destruct (_ !! _) as [ts|] eqn:E; [|done]. intros [Ht Hc]%andb_true_iff.
  apply bool_decide_eq_true in Hc. exists ts. split; [lia|done].
Qed.
Lemma exec_call t c s :
  (∀ j, c ≠ Join j) → status_is s t RUNNING && returns (serve t c) s = true → step s (exec (serve t c) s).
Proof.
  intros Hj [Hr [[] He]%returns_exec]%andb_true_iff.
  apply (step_call s t c); [by apply status_is_ok| |done]. intros j ->. by edestruct Hj.
Qed.
Lemma exec_create app s :
  returns (createThread_unlocked false app) s = true → step s (exec (createThread_unlocked false app) s).
Proof. intros [a He]%returns_exec. by eapply step_create. Qed.
Lemma exec_start t time s :
  status_is s t INITIALIZING && returns (onThreadStart t time) s = true →
  step s (exec (onThreadStart t time) s).
Proof.
  intros [Hr [[] He]%returns_exec]%andb_true_iff. eapply step_start; [by apply status_is_ok|done].
Qed.

Definition two_threads : Sys (list bool) :=
  exec (onThreadStart 1 0) (exec (createThread_unlocked false 0)
    (exec (onThreadStart 0 0) (exec (createThread_unlocked false 0) (Sys_new 2 100 10 [true; true])))).
Definition contended : Sys (list bool) :=
  exec (serve 1 (MutexLock 64 false 5)) (exec (serve 0 (MutexLock 64 false 3)) two_threads).

Lemma two_threads_reachable : rtc step (Sys_new 2 100 10 [true; true]) two_threads.
Proof.
  unfold two_threads.
  eapply rtc_r; [|apply (exec_start 1 0); vm_compute; reflexivity].
  eapply rtc_r; [|apply (exec_create 0); vm_compute; reflexivity].
  eapply rtc_r; [|apply (exec_start 0 0); vm_compute; reflexivity].
  eapply rtc_r; [apply rtc_refl|apply (exec_create 0); vm_compute; reflexivity].
Qed.
Lemma contended_reachable : rtc step (Sys_new 2 100 10 [true; true]) contended.
Proof.
  unfold contended.
  eapply rtc_r; [|apply (exec_call 1 (MutexLock 64 false 5)); [done|vm_compute; reflexivity]].
  eapply rtc_r; [|apply (exec_call 0 (MutexLock 64 false 3)); [done|vm_compute; reflexivity]].
  apply two_threads_reachable.
Qed.

Lemma waiting_threads_registered_witness :
  waiters contended = [(PMutex, 1)] ∧ ∃ r, stalled_for contended 1 r ∧ fits PMutex r.
Proof.
  split; [vm_compute; reflexivity|].
  destruct (waiting_threads_registered 2 100 10 [true; true] contended contended_reachable)
    as (_ & _ & Hw & _).
  apply Hw. replace (waiters contended) with [(PMutex, 1)] by (vm_compute; reflexivity). left.
Defined.

Lemma mutex_waiters_continue_as_owners_witness :
  waits_for 1 64 contended ∧
  let s' := exec (serve 0 (MutexUnlock 64 20)) contended in
  (waits_for 1 64 s' ∧ has_status s' 1 STALLED) ∨ owns 1 64 s'.
Proof.
  assert (Hw : waits_for 1 64 contended).
  { left. exists {| m_waiting := [1]; m_owner := 0 |}. split; [vm_compute; reflexivity|left]. }
  split; [exact Hw|]. simpl.
  apply (mutex_waiters_continue_as_owners 2 100 10 [true; true] contended _ 1 64);
    [apply contended_reachable| |exact Hw].
  apply (exec_call 0 (MutexUnlock 64 20)); [done|vm_compute; reflexivity].
Defined.
End Example.
