(* ===== verification/SyncSpec.v ===== *)
(** What the services compute, for schedulers that do not react when a thread
    resumes: unlocking hands the mutex to its first waiter, waking a futex
    resumes the first waiters that match, the last thread at a barrier resumes
    the others.  The calls return: they do not stop on an assertion. *)
From S2P Require Import Prelude SubsecondTime System ThreadManager SyncServer SyncFacts SyncInv SyncFrame SchedulerStatic SyncProps.
Local Open Scope Z_scope.

Class SchedulerPassive (X : Type) `{Scheduler X} : Prop :=
  sch_resume_passive t by' time s : sch_threadResume t by' time s = Ok (tt, s).
#[export] Instance SchedulerStatic_passive : SchedulerPassive (list bool).
Proof. done. Qed.

Lemma rdz_valid {A} (l : list A) i x : 0 ≤ i → l !! Z.to_nat i = Some x → rdz l i = Ok x.
Proof. intros. by apply rdz_Ok. Qed.
Lemma updz_valid {A} (l : list A) i f x :
  0 ≤ i → l !! Z.to_nat i = Some x → updz l i f = Ok (<[Z.to_nat i := f x]> l).
Proof. intros. apply updz_Ok. eauto. Qed.

Section Passive.
Context {X : Type} `{HH : Host} `{HS : Scheduler X} `{!SchedulerPassive X}.
Implicit Types s : Sys X.

(** The thread exists. *)
Definition valid (t : Z) s : Prop :=
  0 ≤ t ∧ (Z.to_nat t < length (m_thread_state (tm s)))%nat ∧ (Z.to_nat t < length (m_threads (tm s)))%nat.

(** The state after a thread was woken. *)
Definition woken (t time : Z) (msg : bool) s : Sys X :=
  let th := alter (with_wakeup time msg) (Z.to_nat t) (m_threads (tm s)) in
  let ts := alter (set_status RUNNING) (Z.to_nat t) (m_thread_state (tm s)) in
  put_tm (put_states ts (put_threads th (tm s))) s.

Lemma getThreadFromID_valid t s th :
  0 ≤ t → m_threads (tm s) !! Z.to_nat t = Some th → getThreadFromID t s = Ok (th, s).
Proof.
  intros Ht Hth. pose proof (lookup_lt_Some _ _ _ Hth) as Hl.
  unfold getThreadFromID, st_bind, gets, lift. simpl.
  rewrite (proj2 (Z.leb_le _ _) Ht). rewrite (proj2 (Z.ltb_lt _ _)) by lia. simpl.
  by rewrite (rdz_valid _ _ th).
Qed.
Lemma resume_returns t by' time msg s :
  valid t s → resume t by' time msg s = Ok (tt, woken t time msg s).
Proof.
  intros (Ht & [ts Hts]%lookup_lt_is_Some & [th Hth]%lookup_lt_is_Some).
  unfold resume, resumeThread, resumeThread_async, signal. unfold st_bind at 1 2.
  rewrite (getThreadFromID_valid t s th) by done. simpl. unfold upd_thread, upd_state, st_bind, gets, lift, modify. simpl.
  rewrite (updz_valid _ _ _ th) by done. simpl. rewrite (updz_valid _ _ _ ts) by done. simpl.
  rewrite sch_resume_passive. unfold woken. by rewrite (alter_as_insert _ _ _ th Hth), (alter_as_insert _ _ _ ts Hts).
Qed.

Lemma woken_status t time msg s : valid t s → has_status (woken t time msg s) t RUNNING.
Proof.
  intros (Ht & [ts Hts]%lookup_lt_is_Some & _). exists (set_status RUNNING ts). split; [done|].
  simpl. by rewrite list_lookup_alter_eq, Hts.
Qed.
Lemma woken_running t u time msg s : has_status s u RUNNING → has_status (woken t time msg s) u RUNNING.
Proof.
  intros (ts & Hu & Hts & Hs). destruct (decide (Z.to_nat t = Z.to_nat u)) as [He|Hne].
  - exists (set_status RUNNING ts). split; [done|]. simpl. by rewrite He, list_lookup_alter_eq, Hts.
  - exists ts. simpl. by rewrite list_lookup_alter_ne.
Qed.
Lemma woken_valid t u time msg s : valid u s → valid u (woken t time msg s).
Proof. unfold valid. simpl. by rewrite !length_alter. Qed.
Lemma registered_is_valid p t s : sys_inv s → (p, t) ∈ waiters s → valid t s.
Proof.
  intros [[Hi _] Hz] Hin. destruct (wi_stalled _ _ Hi p t Hin) as (r & (ts & Ht & Hts & _) & _); [intros []|].
  apply lookup_lt_Some in Hts. unfold sizes_ok in Hz. split; [done|]. lia.
Qed.

(** * Mutexes *)

(** C22: Take a state that keeps the invariant of the services, as all states
    that [SyncProps.step] reaches do, and a scheduler that does nothing when a
    thread resumes, as the static one. Unlocking a mutex that the thread owns
    returns, hands the mutex to the thread that waited longest, which runs
    from the time of the unlock plus the cost of a reschedule, or frees it
    when nobody waits, and changes no other mutex; the caller pays the cost of
    a reschedule only when it woke a thread. Unlocking a mutex that another
    thread owns stops on the assertion, and so does unlocking one that was
    never seen. *)
Theorem mutexUnlock_hands_over t mux time s :
  sys_inv s →
  match m_mutexes (sync s) !! mux with
  | None => mutexUnlock t mux time s = Err (ErrLog "Invalid mutex id passed")
  | Some m =>
      if decide (m_owner m = t) then
        ∃ s', mutexUnlock t mux time s =
                Ok (time_add time (if decide (m_waiting m = []) then 0 else reschedule_cost s), s') ∧
        match m_waiting m with
        | [] => m_mutexes (sync s') = <[mux := SimMutex_new]> (m_mutexes (sync s))
        | w :: rest =>
            m_mutexes (sync s') = <[mux := {| m_waiting := rest; m_owner := w |}]> (m_mutexes (sync s)) ∧
            has_status s' w RUNNING ∧
            m_wakeup_time <$> m_threads (tm s') !! Z.to_nat w = Some (time_add time (reschedule_cost s))
        end
      else mutexUnlock t mux time s = Err ErrAssert
  end.
Proof.
  intros Hi. destruct (m_mutexes (sync s) !! mux) as [m|] eqn:Hm.
  2: { unfold mutexUnlock, getMutex, st_bind, gets. simpl. by rewrite Hm. }
  assert (Hg : ∀ A (k : SimMutex → st (Sys X) A), (let! m := getMutex mux false in k m) s = k m s).
  { intros A k. unfold getMutex, st_bind, gets. simpl. by rewrite Hm. }
  unfold mutexUnlock. rewrite Hg. unfold mutex_unlock, st_bind, gets, lift. simpl.
  case_decide as Ho; [|by rewrite (proj2 (Z.eqb_neq _ _) Ho)].
  rewrite (proj2 (Z.eqb_eq _ _) Ho). simpl. destruct (m_waiting m) as [|w rest] eqn:Hw; simpl.
  - eexists. split; [reflexivity|done].
  - assert (Hv : valid w s).
    { apply (registered_is_valid PMutex); [done|]. unfold waiters. apply elem_of_app. left.
      apply list_elem_of_fmap. exists w. split; [done|]. eapply elem_of_qmap; [exact Hm|]. rewrite Hw. left. }
    rewrite resume_returns by done. simpl. destruct (Z.eqb_spec w NO_OWNER) as [E|_].
    { unfold valid, NO_OWNER in *. lia. }
    eexists. split; [reflexivity|]. split; [done|]. split; [by apply woken_status|].
    destruct Hv as (_ & _ & [th Hth]%lookup_lt_is_Some). simpl. by rewrite list_lookup_alter_eq, Hth.
Qed.

(** * Futexes *)
Definition matching (mask : Z) (w : Waiter) : Prop := Z.land mask (w_mask w) ≠ 0.
#[local] Instance matching_dec mask w : Decision (matching mask w).
Proof. unfold matching. apply _. Defined.

(** The search finds the first waiter that matches. *)
Lemma take_matching_spec mask l :
  match take_matching mask l with
  | None => filter (matching mask) l = []
  | Some (t, l') => ∃ w k, filter (matching mask) l = w :: k ∧ w_thread_id w = t ∧
      filter (matching mask) l' = k ∧ l' `sublist_of` l ∧ l ≡ₚ w :: l'
  end.
Proof.
  induction l as [|w l IH]; [done|]. simpl. destruct (decide (matching mask w)) as [Hm|Hm].
  - rewrite (proj2 (Z.eqb_neq _ _) Hm). simpl. exists w, (filter (matching mask) l).
    rewrite filter_cons_True by done. split; [done|]. split; [done|]. split; [done|].
    split; [by constructor|done].
  - rewrite filter_cons_False by done.
    rewrite (proj2 (Z.eqb_eq (Z.land mask (w_mask w)) 0)) by (by apply dec_stable). simpl.
    destruct (take_matching mask l) as [[t l']|]; [|done].
    destruct IH as (w' & k & Hf & Ht & Hk & Hs & Hp). exists w', k. split; [done|]. split; [done|].
    rewrite filter_cons_False by done. split; [done|].
    split; [by constructor|]. rewrite Hp. apply Permutation_swap.
Qed.

(** The caller is on a core. *)
Definition on_core (t : Z) s : Prop :=
  ∃ th c co, 0 ≤ t ∧ m_threads (tm s) !! Z.to_nat t = Some th ∧ m_core th = Some c ∧
             0 ≤ c ∧ cores s !! Z.to_nat c = Some co.
Definition cost_of (t : Z) s : Z :=
  match m_threads (tm s) !! Z.to_nat t with
  | Some th =>
      match m_core th with
      | Some c => match cores s !! Z.to_nat c with
                  | Some co => if c_instructions co =? 0 then 0 else reschedule_cost s
                  | None => 0
                  end
      | None => 0
      end
  | None => 0
  end.

Lemma getCoreFromID_valid c s co :
  0 ≤ c → cores s !! Z.to_nat c = Some co → getCoreFromID c s = Ok (co, s).
Proof.
  intros Hc Hco. pose proof (lookup_lt_Some _ _ _ Hco) as Hl.
  unfold getCoreFromID, st_bind, gets, lift. simpl. rewrite (proj2 (Z.ltb_lt _ _)) by lia. simpl.
  by rewrite (rdz_valid _ _ co).
Qed.
Lemma applyRescheduleCost_returns t b s :
  on_core t s → applyRescheduleCost t b s = Ok (if b then cost_of t s else 0, s).
Proof.
  intros (th & c & co & Ht & Hth & Hc & Hc0 & Hco). destruct b; [|done].
  unfold applyRescheduleCost, cost_of. simpl. unfold st_bind.
  rewrite (getThreadFromID_valid t s th) by done. simpl. rewrite Hc. simpl.
  rewrite (getCoreFromID_valid c s co) by done. simpl. rewrite Hth, Hc, Hco. by case_match.
Qed.

(** Waking a thread keeps the caller on its core. *)
Lemma woken_core t u time msg s :
  on_core u s → on_core u (woken t time msg s) ∧ cost_of u (woken t time msg s) = cost_of u s.
Proof.
  intros (th & c & co & Ht & Hth & Hc & Hc0 & Hco). unfold cost_of. simpl.
  destruct (decide (Z.to_nat t = Z.to_nat u)) as [He|Hne].
  - rewrite He, list_lookup_alter_eq, Hth. simpl. rewrite Hc, Hco. split; [|done].
    exists (with_wakeup time msg th), c, co. simpl. by rewrite He, list_lookup_alter_eq, Hth.
  - rewrite list_lookup_alter_ne by done. split; [|done]. exists th, c, co. simpl.
    by rewrite list_lookup_alter_ne.
Qed.

(** The woken threads: they run, with the message that they were woken. *)
Definition was_woken (time : Z) s' (w : Waiter) : Prop :=
  has_status s' (w_thread_id w) RUNNING ∧
  ∃ th, m_threads (tm s') !! Z.to_nat (w_thread_id w) = Some th ∧
        m_wakeup_time th = time ∧ m_wakeup_msg th = true.
Lemma woken_was_woken t time s : valid t s →
  ∀ w, w_thread_id w = t → was_woken time (woken t time true s) w.
Proof.
  intros Hv w <-. split; [by apply woken_status|]. destruct Hv as (Ht & _ & [th Hth]%lookup_lt_is_Some).
  exists (with_wakeup time true th). simpl. by rewrite list_lookup_alter_eq, Hth.
Qed.
Lemma woken_stays_woken t time s w : was_woken time s w → was_woken time (woken t time true s) w.
Proof.
  intros [Hr (th & Hth & Htm & Hmsg)]. split; [by apply woken_running|]. simpl.
  destruct (decide (Z.to_nat t = Z.to_nat (w_thread_id w))) as [He|Hne].
  - exists (with_wakeup time true th). by rewrite He, list_lookup_alter_eq, Hth.
  - exists th. by rewrite list_lookup_alter_ne.
Qed.

Lemma futex_registered a w s : w ∈ futex_of s a → (PFutex, w_thread_id w) ∈ waiters s.
Proof.
  unfold futex_of. destruct (m_futexes (sysc s) !! a) as [l|] eqn:Hl; simpl; [|by intros ?%elem_of_nil].
  intros Hin. unfold waiters. rewrite !elem_of_app. do 3 right. left. apply list_elem_of_fmap.
  exists (w_thread_id w). split; [done|]. eapply elem_of_qmap; [exact Hl|].
  apply list_elem_of_fmap. by exists w.
Qed.

(** One search. *)
Lemma wakeFutexOne_returns a t mask time s :
  on_core t s → (∀ w, w ∈ futex_of s a → valid (w_thread_id w) s) →
  wakeFutexOne a t mask time s =
    match take_matching mask (futex_of s a) with
    | Some (u, l') => Ok (u, woken u (time_add time (cost_of t s)) true (set_futex a l' s))
    | None => Ok (INVALID_THREAD_ID, s)
    end.
Proof.
  intros Hc Hv. unfold wakeFutexOne, st_bind. rewrite applyRescheduleCost_returns by done. simpl.
  unfold dequeueWaiter, st_bind, gets. simpl. pose proof (take_matching_spec mask (futex_of s a)) as Hs.
  destruct (take_matching mask (futex_of s a)) as [[u l']|]; [|done].
  destruct Hs as (w & k & _ & <- & _ & _ & Hp). unfold put_futex, modify. simpl.
  rewrite resume_returns; [done|]. apply Hv. rewrite Hp. left.
Qed.

(** The loop of a wake: the waiters that match, up to [n], in order. *)
Lemma wake_loop_returns n a t mask time k s :
  on_core t s → (∀ w, w ∈ futex_of s a → valid (w_thread_id w) s) →
  let m := filter (matching mask) (futex_of s a) in
  let e := time_add time (cost_of t s) in
  ∃ s', wake_loop n (wakeFutexOne a t mask time) k s = Ok (k + Z.of_nat (n `min` length m), s') ∧
    on_core t s' ∧ cost_of t s' = cost_of t s ∧
    futex_of s' a `sublist_of` futex_of s a ∧ futex_of s a ≡ₚ take n m ++ futex_of s' a ∧
    filter (matching mask) (futex_of s' a) = drop n m ∧
    (∀ w, was_woken e s w → was_woken e s' w) ∧ Forall (was_woken e s') (take n m) ∧
    (∀ b, b ≠ a → futex_of s' b = futex_of s b).
Proof.
  revert k s. induction n as [|n IH]; intros k s Hc Hv m e.
  { exists s. simpl. rewrite Z.add_0_r. split_and!; try done. }
  simpl. unfold st_bind. rewrite wakeFutexOne_returns by done.
  pose proof (take_matching_spec mask (futex_of s a)) as Hs. fold m in Hs.
  destruct (take_matching mask (futex_of s a)) as [[u l']|]; simpl.
  2: { exists s. rewrite Hs. simpl. rewrite Z.add_0_r. split_and!; try done. }
  destruct Hs as (w & rest & Hm & <- & Hrest & Hsub & Hp).
  assert (Hvw : valid (w_thread_id w) s) by (apply Hv; rewrite Hp; left).
  destruct (Z.eqb_spec (w_thread_id w) INVALID_THREAD_ID) as [E|_].
  { unfold valid, INVALID_THREAD_ID in *. lia. }
  set (s1 := woken (w_thread_id w) e true (set_futex a l' s)).
  assert (Hf1 : futex_of s1 a = l') by (unfold futex_of; simpl; by rewrite lookup_insert_eq).
  destruct (woken_core (w_thread_id w) t e true (set_futex a l' s) Hc) as [Hc1 Hcost1].
  destruct (IH (k + 1) s1) as (s' & He & Hc' & Hcost' & Hsub' & Hp' & Hd' & Hk' & Hw' & Ho');
    [done| |].
  { intros v Hin. rewrite Hf1 in Hin. apply woken_valid. change (valid (w_thread_id v) s). apply Hv.
    rewrite Hp. by right. }
  rewrite Hf1, Hrest in *. unfold s1 in Hcost'. rewrite Hcost1 in Hcost'.
  change (cost_of t (set_futex a l' s)) with (cost_of t s) in Hcost', Hcost1. unfold s1 in Hk', Hw'. rewrite Hcost1 in Hk', Hw'.
  fold s1 in Hk', Hw'. exists s'. fold e in Hk', Hw'. rewrite Hm. simpl.
  fold e. fold s1. split; [rewrite He; do 2 f_equal; lia|]. split; [done|]. split; [done|].
  split; [by etrans|]. split; [by rewrite Hp, Hp'|]. split; [done|].
  split; [intros v Hvk; by apply Hk', woken_stays_woken|].
  split; [constructor; [apply Hk'; by apply woken_was_woken|done]|].
  intros b Hb. rewrite Ho' by done. unfold futex_of. simpl. by rewrite lookup_insert_ne.
Qed.

(** C23: Take a state that keeps the invariant of the services, as all states
    that [SyncProps.step] reaches do, and a scheduler that does nothing when a
    thread resumes, as the static one. A futex wake of a thread on a core
    returns the number of threads it woke: as many of the [n] first waiters in
    line whose mask matches as there are. Those run, with the message that
    they were woken rather than timed out, at the time of the call plus the
    cost of a reschedule; the others keep their order in the queue, and no
    other futex changes. *)
Theorem futexWake_wakes_first_matching t uaddr n mask time s th :
  sys_inv s → on_core t s → m_threads (tm s) !! Z.to_nat t = Some th →
  let a := va2pa th uaddr in
  let m := filter (matching mask) (futex_of s a) in
  let k := (Z.to_nat n `min` length m)%nat in
  let e := time_add time (cost_of t s) in
  ∃ s', futexWake t uaddr n mask time s = Ok ((Z.of_nat k, if decide (k = 0)%nat then u64 time else e), s') ∧
    Forall (was_woken e s') (take k m) ∧
    futex_of s a ≡ₚ take k m ++ futex_of s' a ∧ futex_of s' a `sublist_of` futex_of s a ∧
    filter (matching mask) (futex_of s' a) = drop k m ∧
    (∀ b, b ≠ a → futex_of s' b = futex_of s b).
Proof.
  intros Hi Hc Hth a m k e. set (s0 := set_futex a (futex_of s a) s).
  assert (Hf0 : ∀ b, futex_of s0 b = futex_of s b).
  { intros b. unfold futex_of at 1. simpl. destruct (decide (a = b)) as [<-|Hb];
      [by rewrite lookup_insert_eq|by rewrite lookup_insert_ne]. }
  assert (Hv : ∀ w, w ∈ futex_of s0 a → valid (w_thread_id w) s0).
  { intros w. rewrite Hf0. intros Hin. change (valid (w_thread_id w) s). apply (registered_is_valid PFutex); [done|].
    by apply futex_registered with a. }
  destruct (wake_loop_returns (Z.to_nat n) a t mask time 0 s0 Hc Hv)
    as (s' & He & Hc' & Hcost & Hsub & Hp & Hd & _ & Hw & Ho).
  rewrite Hf0 in *. change (cost_of t s0) with (cost_of t s) in *. fold m in He, Hp, Hd, Hw. fold k in He.
  assert (Htake : take (Z.to_nat n) m = take k m).
  { unfold k. destruct (Nat.min_spec (Z.to_nat n) (length m)) as [[_ ->]|[Hle ->]]; [done|].
    rewrite firstn_all. by rewrite take_ge. }
  assert (Hdrop : drop (Z.to_nat n) m = drop k m).
  { unfold k. destruct (Nat.min_spec (Z.to_nat n) (length m)) as [[_ ->]|[Hle ->]]; [done|].
    by rewrite !drop_ge. }
  exists s'. split.
  - destruct Hc as (th' & c & co & Ht & Hth' & _). unfold futexWake, findFutexByUaddr, put_futex, modify, gets, ret.
    unfold st_bind at 1 2. rewrite (getThreadFromID_valid t s th) by done. simpl. fold a.
    change (put_sysc _ s) with s0. unfold st_bind. rewrite He. simpl. rewrite applyRescheduleCost_returns by done.
    simpl. do 2 f_equal. rewrite Hcost. destruct (decide (k = 0)%nat) as [->|Hk]; simpl.
    + f_equal. unfold time_add. f_equal. lia.
    + rewrite (proj2 (Z.ltb_lt _ _)) by lia. f_equal; lia.
  - rewrite <- Htake, <- Hdrop. split; [done|]. split; [done|]. split; [done|]. split; [done|].
    intros b Hb. by rewrite Ho.
Qed.

(** * Barriers *)
Lemma barrier_release_returns b x t time l s :
  0 ≤ b → m_barriers (sync s) !! Z.to_nat b = Some x → (∀ w, w ∈ l → valid w s) →
  ∃ s', barrier_release b l t time s = Ok (tt, s') ∧
    m_barriers (sync s') = (if decide (l = []) then m_barriers (sync s)
                            else <[Z.to_nat b := put_bwaiting [] x]> (m_barriers (sync s))) ∧
    (∀ w, has_status s w RUNNING → has_status s' w RUNNING) ∧ Forall (λ w, has_status s' w RUNNING) l.
Proof.
  revert x s. induction l as [|w l IH]; intros x s Hb Hx Hv; [exists s; by split_and!|].
  simpl. unfold upd_barrier, st_bind, gets, lift, modify. simpl. rewrite (updz_valid _ _ _ x) by done. simpl.
  set (s1 := put_sync _ s). assert (Hv1 : valid w s1) by (apply Hv; left).
  rewrite resume_returns by done. simpl. set (s2 := woken _ _ _ s1).
  destruct (IH (put_bwaiting l x) s2) as (s' & He & Hm & Hk & Hr); [done| | |].
  - simpl. rewrite list_lookup_insert_eq; [done|by eapply lookup_lt_Some].
  - intros v Hin. apply woken_valid, Hv. by right.
  - exists s'. split; [done|]. split.
    + rewrite Hm. simpl. case_decide as Hl; [by subst|]. by rewrite list_insert_insert_eq.
    + split; [intros v Hrun; by apply Hk, woken_running|].
      constructor; [by apply Hk, woken_status|done].
Qed.

(** C24: Take a state that keeps the invariant of the services, as all states
    that [SyncProps.step] reaches do, and a scheduler that does nothing when a
    thread resumes, as the static one. The thread that completes a barrier
    (the others in the queue number one less than its count, in 32-bit
    arithmetic) does not block: it resumes all of them, and the barrier is
    empty for its next use. *)
Theorem barrierWait_last_releases_all t b time s x :
  sys_inv s → 0 ≤ b → m_barriers (sync s) !! Z.to_nat b = Some x →
  Z.of_nat (length (b_waiting x)) = u32 (m_count x - 1) →
  ∃ s', barrierWait t b time s = Ok (Returns time, s') ∧
    m_barriers (sync s') = <[Z.to_nat b := put_bwaiting [] x]> (m_barriers (sync s)) ∧
    Forall (λ w, has_status s' w RUNNING) (b_waiting x).
Proof.
  intros Hi Hb Hx Hn. unfold barrierWait, st_bind, gets, lift. simpl. rewrite (rdz_valid _ _ x) by done. simpl.
  rewrite (proj2 (Z.eqb_eq _ _) Hn).
  destruct (barrier_release_returns b x t time (b_waiting x) s) as (s' & He & Hm & _ & Hr); [done|done| |].
  { intros w Hin. apply (registered_is_valid PBarrier); [done|]. unfold waiters. rewrite !elem_of_app.
    do 2 right. left. apply list_elem_of_fmap. exists w. split; [done|]. unfold qlist.
    apply list_elem_of_In, in_concat. exists (b_waiting x). split; [|by apply list_elem_of_In].
    apply list_elem_of_In, list_elem_of_fmap. exists x. split; [done|by eapply list_elem_of_lookup_2]. }
  exists s'. rewrite He. simpl. split; [done|]. split; [|done]. rewrite Hm. case_decide as Hw; [|done].
  rewrite list_insert_id; [done|]. rewrite Hx. destruct x. simpl in *. by subst.
Qed.
End Passive.

(** * Where the services differ from what they model *)
Section Errors.
Context {X : Type} `{HH : Host} `{HS : SchedulerOk X}.
Implicit Types s : Sys X.

(** C37: [pthread_mutex_trylock] by the owner of the mutex does not fail: the
    owner joins the queue of the mutex, which it owns, so it waits for
    itself. *)
Theorem trylock_by_owner_waits_for_itself t mux time s o s' m :
  m_mutexes (sync s) !! mux = Some m → m_owner m = t → t ≠ NO_OWNER →
  mutexLock t mux true time s = Ok (o, s') →
  m_mutexes (sync s') = <[mux := {| m_waiting := m_waiting m ++ [t]; m_owner := t |}]> (m_mutexes (sync s)).
Proof.
  intros Hm <- Hn He. unfold mutexLock, getMutex in He. inv_st. rewrite Hm in E. inv_st.
  unfold isLocked in He. rewrite Z.eqb_refl, (proj2 (Z.eqb_neq _ _) Hn) in He. simpl in He. inv_st.
  unfold mutex_lock, put_mutex in E. rewrite (proj2 (Z.eqb_neq _ _) Hn) in E. inv_st.
  match goal with Hk : stallThread _ _ _ _ = _ |- _ => apply stallThread_quiet in Hk end.
  match goal with Hk : quiet _ _ |- _ => by rewrite (q_sync _ _ Hk) end.
Qed.

(** A wake with a bit set ([FUTEX_WAKE_BITSET]) does not look at its bit
    set: the call does the same for every value of it. *)
Theorem wake_bitset_ignores_mask start t args time (v : Z) :
  futex_cmd (f_op args) = FUTEX_WAKE_BITSET →
  handleFutexCall (X:=X) start t args time =
  handleFutexCall start t {| f_uaddr := f_uaddr args; f_op := f_op args; f_val := f_val args;
    f_timeout := f_timeout args; f_val2 := f_val2 args; f_uaddr2 := f_uaddr2 args; f_val3 := v |} time.
Proof. intros Hc. unfold handleFutexCall. simpl. by rewrite Hc. Qed.
End Errors.

(** * Runs of the services *)
Section Examples.
#[local] Existing Instance example_host.

Lemma reachable_inv s : rtc step (Sys_new 2 100 10 [true; true]) s → sys_inv s.
Proof. intros Hs. eapply steps_inv; [apply Sys_new_inv|exact Hs]. Qed.
Lemma reach_call t c s :
  rtc step (Sys_new 2 100 10 [true; true]) s → (∀ j, c ≠ Join j) →
  status_is s t RUNNING && returns (serve t c) s = true →
  rtc step (Sys_new 2 100 10 [true; true]) (exec (serve t c) s).
Proof. intros Hs Hj Hc. eapply rtc_r; [exact Hs|by apply exec_call]. Qed.

(** Thread 0 unlocks the mutex for which thread 1 waits. *)
Lemma mutexUnlock_hands_over_witness :
  ∃ s', mutexUnlock 0 64 20 contended = Ok (30, s') ∧
        m_mutexes (sync s') !! 64 = Some {| m_waiting := []; m_owner := 1 |} ∧ has_status s' 1 RUNNING.
Proof.
  pose proof (mutexUnlock_hands_over 0 64 20 contended (reachable_inv _ contended_reachable)) as Hu.
  assert (Hm : m_mutexes (sync contended) !! 64 = Some {| m_waiting := [1]; m_owner := 0 |})
    by (vm_compute; reflexivity).
  rewrite Hm in Hu. destruct Hu as (s' & He & Hs & Hr & _).
  exists s'. split; [exact He|]. split; [|exact Hr]. rewrite Hs. by rewrite lookup_insert_eq.
Defined.

Definition futex_args (op val : Z) : futex_args_t :=
  {| f_uaddr := 128; f_op := op; f_val := val; f_timeout := None; f_val2 := 0; f_uaddr2 := 0; f_val3 := 0 |}.
Definition futex_waiting : Sys (list bool) := exec (serve 1 (Futex 0 (futex_args FUTEX_WAIT 0) 5)) two_threads.
Lemma futex_waiting_reachable : rtc step (Sys_new 2 100 10 [true; true]) futex_waiting.
Proof. apply reach_call; [apply two_threads_reachable|done|vm_compute; reflexivity]. Qed.

Lemma futexWake_wakes_first_matching_witness :
  ∃ s', futexWake 0 128 5 FUTEX_BITSET_MATCH_ANY 20 futex_waiting = Ok ((1, 20), s') ∧
        Forall (was_woken 20 s') [{| w_thread_id := 1; w_mask := -1; w_timeout := MaxTime |}].
Proof.
  assert (Hth : m_threads (tm futex_waiting) !! Z.to_nat 0 =
    Some (with_core (Some 0) (Thread_new false 0))) by (vm_compute; reflexivity).
  destruct (futexWake_wakes_first_matching 0 128 5 FUTEX_BITSET_MATCH_ANY 20 futex_waiting
    (with_core (Some 0) (Thread_new false 0))) as (s' & He & Hw & _).
  - apply reachable_inv, futex_waiting_reachable.
  - exists (with_core (Some 0) (Thread_new false 0)), 0,
      {| c_state := RUNNING; c_thread := Some 0; c_elapsed := 0; c_instructions := 0 |}.
    split; [done|]. split; [exact Hth|]. split; [done|]. split; [done|]. vm_compute; reflexivity.
  - exact Hth.
  - exists s'. split; [exact He|exact Hw].
Defined.

Definition at_barrier : Sys (list bool) :=
  exec (serve 1 (BarrierWait 0 5)) (exec (serve 0 (BarrierInit 2)) two_threads).
Lemma at_barrier_reachable : rtc step (Sys_new 2 100 10 [true; true]) at_barrier.
Proof.
  apply reach_call; [apply reach_call; [apply two_threads_reachable|done|]|done|]; vm_compute; reflexivity.
Qed.
Lemma barrierWait_last_releases_all_witness :
  ∃ s', barrierWait 0 0 20 at_barrier = Ok (Returns 20, s') ∧ Forall (λ w, has_status s' w RUNNING) [1].
Proof.
  destruct (barrierWait_last_releases_all 0 0 20 at_barrier {| b_waiting := [1]; m_count := 2 |})
    as (s' & He & _ & Hr).
  - apply reachable_inv, at_barrier_reachable.
  - lia.
  - vm_compute; reflexivity.
  - vm_compute; reflexivity.
  - exists s'. split; [exact He|exact Hr].
Defined.

Definition owned : Sys (list bool) := exec (serve 0 (MutexLock 64 false 3)) two_threads.
Lemma trylock_by_owner_waits_for_itself_witness :
  m_mutexes (sync (exec (mutexLock 0 64 true 7) owned)) =
  <[64 := {| m_waiting := [0]; m_owner := 0 |}]> (m_mutexes (sync owned)).
Proof.
  destruct (returns_exec (mutexLock 0 64 true 7) owned) as [o He]; [vm_compute; reflexivity|].
  apply (trylock_by_owner_waits_for_itself 0 64 7 owned o _ {| m_waiting := []; m_owner := 0 |});
    [vm_compute; reflexivity|done|done|exact He].
Defined.

Lemma wake_bitset_ignores_mask_witness :
  handleFutexCall (X:=list bool) 0 0 (futex_args FUTEX_WAKE_BITSET 1) 20 =
  handleFutexCall 0 0 {| f_uaddr := 128; f_op := FUTEX_WAKE_BITSET; f_val := 1; f_timeout := None;
    f_val2 := 0; f_uaddr2 := 0; f_val3 := 2 |} 20.
Proof. apply (wake_bitset_ignores_mask 0 0 (futex_args FUTEX_WAKE_BITSET 1) 20 2). vm_compute; reflexivity. Defined.

(** Thread 0 joins thread 1 before it starts; then thread 1 starts. *)
Definition one_started : Sys (list bool) :=
  exec (createThread_unlocked false 0)
    (exec (onThreadStart 0 0) (exec (createThread_unlocked false 0) (Sys_new 2 100 10 [true; true]))).
Definition joined_early : Sys (list bool) := exec (serve 0 (Join 1)) one_started.
Definition started : Sys (list bool) := exec (onThreadStart 1 7) joined_early.

(** A thread that joins another before it has started is signalled when
    that thread starts, not when it exits: the start clears the registration,
    while the joining thread keeps the state of a stalled thread, so that no
    service resumes it any more. *)
Theorem join_before_start_is_lost :
  stalled_for joined_early 0 STALL_JOIN ∧
  (∃ ts, m_thread_state (tm joined_early) !! 1%nat = Some ts ∧ status ts = INITIALIZING ∧ waiter ts = 0) ∧
  stalled_for started 0 STALL_JOIN ∧ has_status started 1 RUNNING ∧ waiters started = [] ∧
  (∃ th, m_threads (tm started) !! 0%nat = Some th ∧ m_wakeup_time th = 7).
Proof.
  split. { eexists. split; [done|]. split; [vm_compute; reflexivity|done]. }
  split. { eexists. split; [vm_compute; reflexivity|done]. }
  split. { eexists. split; [done|]. split; [vm_compute; reflexivity|done]. }
  split. { apply status_is_ok. vm_compute; reflexivity. }
  split. { vm_compute; reflexivity. }
  eexists. split; [vm_compute; reflexivity|done].
Qed.
End Examples.
