(* ===== verification/BarrierLiveness.v ===== *)
(** Progress of the simulated time: when every thread is stalled and one of
    them has a time-out, the barrier server advances the time until a thread
    runs again ([ThreadManager::stallThread], [BarrierSyncServer::advance],
    [SyscallServer::futexPeriodic]); a disabled barrier does not. *)
From S2P Require Import Prelude SubsecondTime System ThreadManager SyncServer SyncFacts SyncInv SyncFrame SchedulerStatic SyncProps SyncSpec.
Import Barrier.
Local Open Scope Z_scope.

(** Schedulers that do not act on resumes and periodic callbacks. *)
Class SchedulerIdle (X : Type) `{Scheduler X} : Prop := {
  idle_passive :: SchedulerPassive X;
  sch_periodic_idle time s : sch_periodic time s = Ok (tt, s) }.
#[export] Instance SchedulerStatic_idle : SchedulerIdle (list bool).
Proof. by split; [apply _|]. Qed.

(** * Time-outs *)
Definition due (time : Z) (l : list Waiter) : Prop := Exists (λ w, w_timeout w ≤ time) l.

#[export] Instance due_dec time l : Decision (due time l).
Proof. unfold due. apply _. Defined.

Lemma take_timed_out_due time l :
  match take_timed_out time l with
  | Some (t, l') => due time l ∧ (∃ w, w ∈ l ∧ w_thread_id w = t) ∧ l' ⊆ l
  | None => ¬ due time l
  end.
Proof.
  unfold due. induction l as [|w l IH]; simpl; [by intros ?%Exists_nil|].
  destruct (Z.leb_spec (w_timeout w) time) as [Hle|Hlt].
  - split; [by constructor|]. split; [exists w; split; [left|done]|]. set_solver.
  - destruct (take_timed_out time l) as [[t l']|].
    + destruct IH as (Hd & (w' & Hin & Ht) & Hs). split; [by constructor 2|].
      split; [exists w'; split; [by right|done]|]. set_solver.
    + rewrite Exists_cons. intros [H1|H1]; [lia|done].
Qed.

Section Timeouts.
Context {X : Type} `{HH : Host} `{HS : Scheduler X} `{!SchedulerIdle X} `{!HostOk}.
Implicit Types s : Sys X.

(** The waiters of futexes exist. *)
Definition futexes_valid s : Prop := ∀ a w, w ∈ futex_of s a → valid (w_thread_id w) s.
(** What a periodic callback keeps. *)
Record ticked s s' : Prop := {
  tk_bss : bss s' = bss s;
  tk_valid : futexes_valid s → futexes_valid s';
  tk_futex a : futex_of s' a ⊆ futex_of s a;
  tk_running t : has_status s t RUNNING → has_status s' t RUNNING }.
#[local] Instance ticked_pre : PreOrder ticked.
Proof.
  split; [by split|]. intros a b c [? ? Hf ?] [? ? Hf' ?]. split; [congruence|auto| |auto]. intros x w Hw. by apply Hf, Hf'.
Qed.

Lemma ticked_woken t time msg s : ticked s (woken t time msg s).
Proof.
  split; [done| |done|intros; by apply woken_running].
  intros Hv a w Hin. by apply woken_valid, (Hv a).
Qed.
Lemma ticked_futex a l s : l ⊆ futex_of s a → ticked s (set_futex a l s).
Proof.
  intros Hl. assert (Hsub : ∀ b, futex_of (set_futex a l s) b ⊆ futex_of s b).
  { intros b. unfold futex_of at 1. simpl. destruct (decide (a = b)) as [<-|Hne];
      [by rewrite lookup_insert_eq|by rewrite lookup_insert_ne]. }
  split; [done| |done|done]. intros Hv b w Hin. apply (Hv b). by apply Hsub.
Qed.

(** One futex. *)
Lemma wakeTimedOut_returns a time s :
  futexes_valid s →
  ∃ s', wakeTimedOut a time s = Ok (tt, s') ∧ ticked s s' ∧
    (due time (futex_of s a) → ∃ t, has_status s' t RUNNING) ∧
    (¬ due time (futex_of s a) → s' = s).
Proof.
  intros Hv. unfold wakeTimedOut, st_bind, gets. simpl.
  assert (Hf : futex_of s a = default [] (m_futexes (sysc s) !! a)) by done.
  destruct (m_futexes (sysc s) !! a) as [l|] eqn:Hl; simpl in *; rewrite Hf.
  2: { exists s. split; [done|]. split; [done|]. split; [|done]. by intros ?%Exists_nil. }
  pose proof (take_timed_out_due time l) as Hd. destruct (take_timed_out time l) as [[t l']|].
  - destruct Hd as (Hd & (w & Hin & <-) & Hsub). unfold modify. simpl.
    change (put_sysc _ s) with (set_futex a l' s).
    assert (Hvw : valid (w_thread_id w) (set_futex a l' s)).
    { change (valid (w_thread_id w) s). apply (Hv a). by rewrite Hf. }
    rewrite resume_returns by done. eexists. split; [reflexivity|]. split; [|split; [|done]].
    + etrans; [|apply ticked_woken]. apply ticked_futex. by rewrite Hf.
    + intros _. eexists. by apply woken_status.
  - exists s. split; [done|]. split; [done|]. by split.
Qed.

Lemma wakeTimedOut_all time l s :
  futexes_valid s →
  ∃ s', forM_ l (λ a, wakeTimedOut a time) s = Ok (tt, s') ∧ ticked s s' ∧
    ((∃ a, a ∈ l ∧ due time (futex_of s a)) → ∃ t, has_status s' t RUNNING) ∧
    ((∀ a, a ∈ l → ¬ due time (futex_of s a)) → s' = s).
Proof.
  revert s. induction l as [|a l IH]; intros s Hv.
  { exists s. split; [done|]. split; [done|]. split; [|done]. intros (a & Ha & _). by apply elem_of_nil in Ha. }
  simpl. unfold st_bind. destruct (wakeTimedOut_returns a time s Hv) as (s1 & E1 & Hk1 & H1 & H1').
  rewrite E1. simpl. destruct (IH s1) as (s' & E & Hk & H2 & H3); [by apply Hk1|].
  exists s'. split; [done|]. split; [by etrans|]. destruct (due_dec time (futex_of s a)) as [Hd|Hd].
  - destruct (H1 Hd) as [t Ht]. assert (Hr : ∃ t, has_status s' t RUNNING) by (exists t; by apply Hk).
    split; [done|]. intros Hn. by edestruct (Hn a); [left|].
  - rewrite (H1' Hd) in *. split.
    + intros (b & [->|Hb]%elem_of_cons & Hdb); [done|]. eauto.
    + intros Hn. apply H3. intros b Hb. apply Hn. by right.
Qed.

Definition all_due (time : Z) s : Prop :=
  due time (m_sleeping (sysc s)) ∨ ∃ a, due time (futex_of s a).

Lemma futex_keys s a : a ∈ unordered (map_to_list (m_futexes (sysc s))).*1 ↔ is_Some (m_futexes (sysc s) !! a).
Proof.
  rewrite unordered_perm, list_elem_of_fmap. split.
  - intros ([b l] & -> & Hin). apply elem_of_map_to_list in Hin. eauto.
  - intros [l Hl]. exists (a, l). split; [done|]. by apply elem_of_map_to_list.
Qed.
Lemma due_key s a time : due time (futex_of s a) → is_Some (m_futexes (sysc s) !! a).
Proof. unfold futex_of. destruct (_ !! _); simpl; [eauto|by intros ?%Exists_nil]. Qed.

#[local] Instance all_due_dec time s : Decision (all_due time s).
Proof.
  refine (cast_if (decide (due time (m_sleeping (sysc s)) ∨
    Exists (λ a, due time (futex_of s a)) (unordered (map_to_list (m_futexes (sysc s))).*1))));
    unfold all_due; rewrite Exists_exists in *.
  - naive_solver.
  - intros [?|[a Ha]]; [naive_solver|]. pose proof (proj2 (futex_keys s a) (due_key s a time Ha)). naive_solver.
Qed.

(** The periodic callback wakes a thread when a time-out has passed, and does
    nothing when none has. *)
Lemma hook_periodic_returns time s :
  futexes_valid s → (∀ w, w ∈ m_sleeping (sysc s) → valid (w_thread_id w) s) →
  ∃ s', hook_periodic time s = Ok (tt, s') ∧ bss s' = bss s ∧
    (all_due time s → ∃ t, has_status s' t RUNNING) ∧ (¬ all_due time s → s' = s).
Proof.
  intros Hv Hvs. unfold hook_periodic, futexPeriodic, st_bind, gets. simpl.
  pose proof (take_timed_out_due time (m_sleeping (sysc s))) as Hd.
  destruct (take_timed_out time (m_sleeping (sysc s))) as [[t l']|].
  - destruct Hd as (Hd & (w & Hin & <-) & Hsub). unfold modify. simpl. set (s0 := put_sysc _ s).
    assert (Hvw : valid (w_thread_id w) s0) by (by apply Hvs). rewrite resume_returns by done. simpl.
    set (s1 := woken _ _ _ s0). assert (Hk : ticked s0 s1) by apply ticked_woken.
    destruct (wakeTimedOut_all time (unordered (map_to_list (m_futexes (sysc s1))).*1) s1)
      as (s' & E & Hk' & _); [by apply Hk|]. simpl in E. rewrite E. simpl. rewrite sch_periodic_idle.
    exists s'. split; [done|]. split; [apply Hk'|]. split.
    + intros _. exists (w_thread_id w). apply Hk'. by apply woken_status.
    + intros Hn. destruct Hn. by left.
  - simpl. destruct (wakeTimedOut_all time (unordered (map_to_list (m_futexes (sysc s))).*1) s)
      as (s' & E & Hk' & H1 & H2); [done|]. rewrite E. simpl. rewrite sch_periodic_idle.
    exists s'. split; [done|]. split; [apply Hk'|]. split.
    + intros [?|[a Ha]]; [done|]. apply H1. exists a. split; [|done]. by apply futex_keys, (due_key s a time).
    + intros Hn. apply H2. intros a _ Ha. apply Hn. by right; exists a.
Qed.
End Timeouts.

(** * Time-outs that are still to come *)
Section Progress.
Context {X : Type} `{HH : Host} `{HS : Scheduler X} `{!SchedulerIdle X} `{!HostOk}.
Implicit Types s : Sys X.

(** A sleeping thread or a waiter of a futex has the finite time-out [T]. *)
Definition pending (T : Z) s : Prop :=
  T < MaxTime ∧ ∃ w, w_timeout w = T ∧ (w ∈ m_sleeping (sysc s) ∨ ∃ a, w ∈ futex_of s a).

Lemma pending_due T time s : pending T s → T ≤ time → all_due time s.
Proof.
  intros (_ & w & <- & [Hin|[a Hin]]) Hle; [left|right; exists a]; apply Exists_exists; eauto.
Qed.

Lemma queueNextTimeout_finite l w : w ∈ l → w_timeout w < MaxTime → queueNextTimeout l < MaxTime.
Proof.
  unfold queueNextTimeout. intros Hin Hw.
  assert (Hk : ∀ l m, m < MaxTime →
    foldl (λ next w, if w_timeout w <? MaxTime then w_timeout w else next) m l < MaxTime).
  { clear. induction l as [|w l IH]; intros m Hm; simpl; [done|]. apply IH. by destruct (Z.ltb_spec (w_timeout w) MaxTime). }
  apply list_elem_of_split in Hin as (l1 & l2 & ->). rewrite foldl_app. simpl. apply Hk.
  by rewrite (proj2 (Z.ltb_lt _ _) Hw).
Qed.

Lemma foldl_least (f : Z → Z) l m :
  let g := foldl (λ next a, if f a <? next then f a else next) m l in
  g ≤ m ∧ ∀ a, a ∈ l → g ≤ f a.
Proof.
  revert m. induction l as [|a l IH]; intros m; simpl; [split; [lia|by intros a ?%elem_of_nil]|].
  destruct (IH (if f a <? m then f a else m)) as [H1 H2]. split.
  - destruct (Z.ltb_spec (f a) m); lia.
  - intros b [->|Hb]%elem_of_cons; [|by apply H2]. destruct (Z.ltb_spec (f a) m); lia.
Qed.

(** No deadlock is reported while a time-out is to come. *)
Lemma getNextTimeout_finite T s : pending T s → getNextTimeout (sysc s) < MaxTime.
Proof.
  intros (HT & w & <- & Hin). unfold getNextTimeout.
  destruct (foldl_least (λ a, queueNextTimeout (default [] (m_futexes (sysc s) !! a)))
    (unordered (map_to_list (m_futexes (sysc s))).*1) (queueNextTimeout (m_sleeping (sysc s)))) as [H1 H2].
  destruct Hin as [Hin|[a Hin]].
  - eapply Z.le_lt_trans; [exact H1|]. by eapply queueNextTimeout_finite.
  - eapply Z.le_lt_trans; [apply (H2 a)|by eapply queueNextTimeout_finite].
    apply futex_keys. unfold futex_of in Hin. destruct (_ !! _); [eauto|by apply elem_of_nil in Hin].
Qed.

Lemma foldr_max_ge l x : x ∈ l → x ≤ foldr Z.max 0 l.
Proof. induction l as [|y l IH]; [by intros ?%elem_of_nil|]. intros [->|Hx]%elem_of_cons; simpl; [|apply IH in Hx]; lia. Qed.
Lemma latest_pending T s : pending T s → T ≤ latest s.
Proof.
  intros (HT & w & <- & Hin). apply foldr_max_ge, elem_of_app. right. apply list_elem_of_filter. split; [done|].
  apply list_elem_of_fmap. exists w. split; [done|]. apply elem_of_app. destruct Hin as [?|[a Hin]]; [by left|right].
  unfold futex_of in Hin. destruct (m_futexes (sysc s) !! a) as [l|] eqn:Hl; [|by apply elem_of_nil in Hin].
  apply list_elem_of_In, in_concat. exists l. split; [apply list_elem_of_In|by apply list_elem_of_In]. apply list_elem_of_fmap. exists (a, l).
  split; [done|]. by apply elem_of_map_to_list.
Qed.

(** * The loop of [barrierRelease] *)
Lemma release_cores_none caller ids r m (b : BarrierSyncServer) :
  length (m_barrier_acquire_list b) = num_cores b → Forall (eq false) (m_barrier_acquire_list b) →
  Forall (λ i, 0 ≤ i < Z.of_nat (num_cores b)) ids →
  release_cores caller ids r m b = Ok ((r, m), b).
Proof.
  intros Hlen Ha Hids. induction Hids as [|i ids Hi _ IH]; simpl; [done|].
  unfold st_bind, gets, lift. simpl. unfold rdz, rd. destruct (Z.ltb_spec i 0) as [?|_]; [lia|].
  destruct (lookup_lt_is_Some_2 (m_local_clock_list b) (Z.to_nat i)) as [c Hc]; [unfold num_cores in *; lia|].
  destruct (lookup_lt_is_Some_2 (m_barrier_acquire_list b) (Z.to_nat i)) as [a Hac]; [lia|].
  rewrite Hc, Hac. simpl. rewrite <- (Forall_lookup_1 _ _ _ _ Ha Hac), andb_false_r. exact IH.
Qed.

(** Every thread is stalled and no core waits at the barrier. *)
Record all_stalled s : Prop := {
  as_valid : ∀ p t, (p, t) ∈ waiters s → valid t s;
  as_status : anyThreadRunning s = Ok (false, s);
  as_length : length (m_barrier_acquire_list (bss s)) = num_cores (bss s);
  as_barrier : Forall (eq false) (m_barrier_acquire_list (bss s));
  as_release : m_to_release (bss s) = [];
  as_interval : 0 < m_barrier_interval (bss s) }.

Lemma running_any s t : has_status s t RUNNING → anyThreadRunning s = Ok (true, s).
Proof.
  intros (ts & _ & Hts & Hst). unfold anyThreadRunning, gets. do 2 f_equal. apply existsb_exists.
  exists ts. split; [by eapply list_elem_of_In, list_elem_of_lookup_2|]. by rewrite Hst.
Qed.

Definition at_times (next global : Z) s : Sys X := put_bss (put_times next global (bss s)) s.
Lemma at_times_stalled next global s : all_stalled s → all_stalled (at_times next global s).
Proof. intros [Hv H1 H2 H3 H4 H5]. split; [exact Hv| |done..]. by injection H1 as H1; unfold anyThreadRunning, gets; simpl; rewrite H1. Qed.

Lemma sleeper_registered w s : w ∈ m_sleeping (sysc s) → (PSleep, w_thread_id w) ∈ waiters s.
Proof.
  intros Hin. unfold waiters. rewrite !elem_of_app. do 4 right. left. apply list_elem_of_fmap.
  exists (w_thread_id w). split; [done|]. apply list_elem_of_fmap. by exists w.
Qed.

(** One pass of the loop wakes a thread or moves on to the next barrier. *)
Lemma advance_pass fuel caller s (next := m_next_barrier_time (bss s)) (d := m_barrier_interval (bss s)) T :
  all_stalled s → m_disable (bss s) = false → 0 ≤ next → pending T s → T + d < 2 ^ 64 →
  (∃ s' t, advance_until_resumed (S fuel) caller true s = Ok (None, s') ∧ has_status s' t RUNNING ∧
    m_global_time (bss s') = next) ∨
  (next < T ∧ advance_until_resumed (S fuel) caller true s =
     advance_until_resumed fuel caller true (at_times (next + d) next s)).
Proof.
  intros Hs Hd Hn HT Hov.
  destruct (hook_periodic_returns next (at_times next next s)) as (s1 & E & Hb & H1 & H2).
  { intros a w Hin. by eapply (as_valid _ Hs), futex_registered. }
  { intros w Hin. by eapply (as_valid _ Hs), sleeper_registered. }
  remember (advance_until_resumed (S fuel) caller true s) as L eqn:HL. simpl in HL.
  unfold st_bind at 1, gets at 1 in HL. unfold st_bind at 1, on_bss at 1, zoom, modify in HL. simpl in HL.
  change (put_bss _ s) with (at_times next next s) in HL. fold next in HL.
  unfold st_bind at 1 in HL. rewrite E in HL. simpl in HL. unfold st_bind at 1 in HL.
  destruct (all_due_dec next s) as [Hdue|Hdue].
  { destruct H1 as [t Ht]; [exact Hdue|]. left. exists s1, t.
    rewrite (running_any s1 t) in HL by done. by rewrite HL, Hb. }
  assert (Hlt : next < T).
  { destruct (Z.le_gt_cases T next); [|done]. destruct Hdue. by eapply pending_due. }
  right. split; [done|]. rewrite H2 in HL by done. clear E H1 H2 Hb s1.
  rewrite (as_status _ (at_times_stalled next next s Hs)) in HL. simpl in HL.
  unfold st_bind, gets, lift, log_assert, on_bss, zoom in HL. simpl in HL.
  rewrite (proj2 (Z.ltb_lt _ _) (getNextTimeout_finite T s HT)) in HL. simpl in HL. rewrite Hd in HL. simpl in HL.
  rewrite release_cores_none in HL; [|apply Hs|apply Hs|].
  2: { apply Forall_fmap, Forall_seq. intros i. simpl. lia. }
  simpl in HL. rewrite HL. pose proof (as_interval _ Hs) as Hp. fold d in Hp.
  unfold time_add. rewrite u64_id; [done|]. unfold in_u64. fold d next. lia.
Qed.

(** The loop ends with a running thread, at most one interval after the
    time-out. *)
Lemma advance_loop fuel caller s T :
  all_stalled s → m_disable (bss s) = false → 0 ≤ m_next_barrier_time (bss s) → pending T s →
  T + m_barrier_interval (bss s) < 2 ^ 64 →
  T ≤ m_next_barrier_time (bss s) + Z.of_nat fuel * m_barrier_interval (bss s) →
  ∃ s' t, advance_until_resumed (S fuel) caller true s = Ok (None, s') ∧ has_status s' t RUNNING ∧
    m_next_barrier_time (bss s) ≤ m_global_time (bss s') ≤
      Z.max (m_next_barrier_time (bss s)) (T + m_barrier_interval (bss s)).
Proof.
  revert s. induction fuel as [|fuel IH]; intros s Hs Hd Hn HT Hov Hf;
    (edestruct advance_pass as [(s' & t & E & Hr & Hg)|[Hlt E]]; [done..| |];
      [exists s', t; split; [exact E|]; split; [done|]; lia|]); [lia|].
  rewrite E. set (s1 := at_times _ _ s). pose proof (as_interval _ Hs).
  destruct (IH s1) as (s' & t & E' & Hr & Hg); [by apply at_times_stalled|done|simpl; lia|done|done|simpl; lia|].
  exists s', t. split; [exact E'|]. split; [done|]. simpl in Hg. lia.
Qed.

(** The time from which [barrierRelease] starts. *)
Definition start_time (b : BarrierSyncServer) : Z :=
  if m_fastforward b then foldl Z.max (m_next_barrier_time b) (m_local_clock_list b)
  else m_next_barrier_time b.
Lemma start_time_ge b : m_next_barrier_time b ≤ start_time b.
Proof.
  unfold start_time. destruct (m_fastforward b); [|lia]. generalize (m_next_barrier_time b).
  induction (m_local_clock_list b) as [|c l IH]; intros n; simpl; [lia|]. specialize (IH (Z.max n c)). lia.
Qed.

Lemma advance_returns s T :
  all_stalled s → m_disable (bss s) = false → 0 ≤ m_next_barrier_time (bss s) → pending T s →
  T + m_barrier_interval (bss s) < 2 ^ 64 →
  ∃ s' t, advance s = Ok (tt, s') ∧ has_status s' t RUNNING ∧
    start_time (bss s) ≤ m_global_time (bss s') ≤
      Z.max (start_time (bss s)) (T + m_barrier_interval (bss s)).
Proof.
  intros Hs Hd Hn HT Hov. pose proof (start_time_ge (bss s)) as Hst.
  set (s1 := if m_fastforward (bss s)
             then at_times (start_time (bss s)) (m_global_time (bss s)) s else s).
  assert (Hs1 : all_stalled s1 ∧ pending T s1 ∧ m_disable (bss s1) = false ∧
    m_next_barrier_time (bss s1) = start_time (bss s) ∧ m_barrier_interval (bss s1) = m_barrier_interval (bss s)).
  { unfold s1, start_time. destruct (m_fastforward (bss s)); [|done]. by split; [apply at_times_stalled|]. }
  destruct Hs1 as (Hs1 & HT1 & Hd1 & Hn1 & Hi1). pose proof (as_interval _ Hs1) as Hpos.
  destruct (advance_loop (Z.to_nat ((latest s1 - m_next_barrier_time (bss s1)) / m_barrier_interval (bss s1)) + 2)
    INVALID_THREAD_ID s1 T) as (s' & t & E & Hr & Hg); [done|done|lia|done|congruence| |].
  { pose proof (latest_pending _ _ HT1) as HL.
    pose proof (Z_div_mod_eq_full (latest s1 - m_next_barrier_time (bss s1)) (m_barrier_interval (bss s1))).
    pose proof (Z.mod_pos_bound (latest s1 - m_next_barrier_time (bss s1)) (m_barrier_interval (bss s1)) Hpos).
    set (q := _ / _) in *. nia. }
  exists s', t. rewrite Hn1, Hi1 in Hg. split; [|done].
  unfold advance, barrierRelease. unfold st_bind at 1 2, gets at 1. simpl. unfold st_bind at 1, lift at 1, log_assert.
  rewrite bool_decide_eq_true_2 by apply Hs. simpl.
  assert (E0 : (if m_fastforward (bss s) then on_bss (modify (put_times (foldl Z.max (m_next_barrier_time (bss s))
     (m_local_clock_list (bss s))) (m_global_time (bss s)))) else ret tt) s = Ok (tt, s1)).
  { unfold s1, start_time. by destruct (m_fastforward (bss s)). }
  unfold st_bind at 1. rewrite E0. simpl. unfold st_bind at 1, gets. simpl. unfold st_bind at 1.
  replace (barrier_fuel s1) with
    (S (Z.to_nat ((latest s1 - m_next_barrier_time (bss s1)) / m_barrier_interval (bss s1)) + 2))
    by (unfold barrier_fuel; lia). by rewrite E.
Qed.


Lemma disabled_advance s T :
  all_stalled s → m_disable (bss s) = true → m_fastforward (bss s) = false → pending T s →
  ¬ all_due (m_next_barrier_time (bss s)) s →
  advance s = Ok (tt, at_times (m_next_barrier_time (bss s)) (m_next_barrier_time (bss s)) s).
Proof.
  intros Hs Hd Hff HT Hdue. set (next := m_next_barrier_time (bss s)).
  destruct (hook_periodic_returns next (at_times next next s)) as (s1 & E & Hb & _ & H2).
  { intros a w Hin. by eapply (as_valid _ Hs), futex_registered. }
  { intros w Hin. by eapply (as_valid _ Hs), sleeper_registered. }
  specialize (H2 Hdue). subst s1. unfold advance, barrierRelease.
  unfold st_bind at 1 2, gets at 1. simpl. unfold st_bind at 1, lift at 1, log_assert.
  rewrite bool_decide_eq_true_2 by apply Hs. simpl. rewrite Hff. unfold st_bind at 1. simpl.
  unfold st_bind at 1, gets at 1. simpl. unfold barrier_fuel. rewrite Nat.add_comm. simpl.
  unfold st_bind at 1, st_bind at 1, gets at 1. simpl. unfold st_bind at 1, on_bss at 1, zoom, modify. simpl.
  change (put_bss _ s) with (at_times next next s). fold next. unfold st_bind at 1. rewrite E. simpl.
  unfold st_bind at 1. rewrite (as_status _ (at_times_stalled next next s Hs)). simpl.
  unfold st_bind, gets, lift, log_assert. simpl.
  rewrite (proj2 (Z.ltb_lt _ _) (getNextTimeout_finite T s HT)). simpl. by rewrite Hd.
Qed.

(** C38: A disabled barrier does not advance the time. With fast-forward off,
    no core at the barrier and a scheduler that does nothing when a thread
    resumes and at the end of a period, the loop of the last thread to stall
    never ends when every time-out is past the next barrier: no amount of
    iterations makes a thread run. *)
Theorem disabled_barrier_livelock s T fuel :
  all_stalled s → m_disable (bss s) = true → m_fastforward (bss s) = false → pending T s →
  ¬ all_due (m_next_barrier_time (bss s)) s →
  advance_until_running fuel s = Err ErrFuel.
Proof.
  revert s. induction fuel as [|fuel IH]; intros s Hs Hd Hff HT Hdue; simpl; unfold st_bind at 1;
    rewrite (as_status _ Hs); simpl; [done|].
  unfold st_bind at 1. rewrite (disabled_advance s T) by done. simpl.
  by apply IH; [apply at_times_stalled|..].
Qed.
End Progress.

(** * Concrete runs *)
Section Examples.
#[local] Existing Instance example_host.
#[local] Instance example_host_ok : HostOk.
Proof. by split. Qed.

(** Thread 0 sleeps until time 250000000; thread 1 waits for a futex. *)
Definition asleep : Sys (list bool) :=
  let sleep := {| w_thread_id := 0; w_mask := 0; w_timeout := 250000000 |} in
  let wait := {| w_thread_id := 1; w_mask := 1; w_timeout := MaxTime |} in
  let stall t := upd_state t (λ ts, set_status STALLED ts) in
  put_sysc {| m_sleeping := [sleep]; m_futexes := {[ 64 := [wait] ]} |}
    (exec (stall 1) (exec (stall 0) two_threads)).

Lemma asleep_stalled : all_stalled asleep.
Proof.
  split.
  - assert (Hf : Forall (λ q, valid q.2 asleep) (waiters asleep)).
    { unfold valid. apply (bool_decide_unpack _). vm_compute. exact I. }
    intros p t Hin. exact (proj1 (Forall_forall _ _) Hf _ Hin).
  - vm_compute. reflexivity.
  - vm_compute. reflexivity.
  - apply (bool_decide_unpack _). vm_compute. exact I.
  - vm_compute. reflexivity.
  - vm_compute. reflexivity.
Qed.
Lemma asleep_pending : pending 250000000 asleep.
Proof. split; [done|]. eexists. split; [|left; left]. done. Qed.


(** The same threads with the barrier disabled. *)
Definition asleep_disabled : Sys (list bool) := put_bss (put_modes false true (bss asleep)) asleep.

Lemma disabled_barrier_livelock_witness :
  m_disable (bss asleep_disabled) = true ∧ advance_until_running 1000 asleep_disabled = Err ErrFuel.
Proof.
  split; [reflexivity|]. apply (disabled_barrier_livelock asleep_disabled 250000000).
  - destruct asleep_stalled as [Hv Hs H1 H2 H3 H4]. split; [exact Hv| |exact H1|exact H2|exact H3|exact H4].
    vm_compute. reflexivity.
  - reflexivity.
  - reflexivity.
  - exact asleep_pending.
  - intros Hd. assert (Hf : ¬ due 100000000 (m_sleeping (sysc asleep_disabled))).
    { apply (bool_decide_unpack _). vm_compute. exact I. }
    destruct Hd as [Hd|[a Hd]]; [exact (Hf Hd)|]. destruct (due_key _ _ _ Hd) as [l Hl].
    unfold due, futex_of in Hd. rewrite Hl in Hd.
    change (({[ 64 := [ {| w_thread_id := 1; w_mask := 1; w_timeout := MaxTime |} ] ]} : gmap Z _) !! a = Some l) in Hl.
    apply lookup_singleton_Some in Hl as [_ <-].
    apply Exists_cons in Hd as [Hd|Hd%Exists_nil]; [|done]. by vm_compute in Hd.
Defined.
End Examples.
