(* ===== verification/SchedulerPinned.v ===== *)
(** The schedulers that share cores between threads
    ([scheduler/scheduler_dynamic.cc], [scheduler_pinned_base.cc],
    [scheduler_pinned.cc], [scheduler_roaming.cc]): each thread has a set of
    cores it may run on, and the threads of a core take turns.  Moving a
    thread to a core can resume it, which calls the scheduler again; the model
    counts the depth of these calls. *)
From S2P Require Import Prelude SubsecondTime System ThreadManager SyncServer SyncFacts.
Local Open Scope Z_scope.

(** * State *)
Record ThreadInfo : Type := {
  m_has_affinity : bool;
  m_explicit_affinity : bool;
  m_core_affinity : list bool;
  m_core_running : Z;
  m_last_scheduled_in : Z;
  m_last_scheduled_out : Z }.
Definition ThreadInfo_new (cores : nat) : ThreadInfo :=
  {| m_has_affinity := false; m_explicit_affinity := false;
     m_core_affinity := replicate cores false; m_core_running := INVALID_CORE_ID;
     m_last_scheduled_in := 0; m_last_scheduled_out := 0 |}.
Definition put_affinity (has explicit : bool) (l : list bool) (t : ThreadInfo) : ThreadInfo :=
  {| m_has_affinity := has; m_explicit_affinity := explicit; m_core_affinity := l;
     m_core_running := m_core_running t; m_last_scheduled_in := m_last_scheduled_in t;
     m_last_scheduled_out := m_last_scheduled_out t |}.
Definition clearAffinity (t : ThreadInfo) : ThreadInfo :=
  put_affinity (m_has_affinity t) (m_explicit_affinity t) ((λ _, false) <$> m_core_affinity t) t.
Definition addAffinity (core_id : Z) (t : ThreadInfo) : res ThreadInfo :=
  let? l := updz (m_core_affinity t) core_id (λ _, true) in
  Ok (put_affinity true (m_explicit_affinity t) l t).
Definition setAffinitySingle (core_id : Z) (t : ThreadInfo) : res ThreadInfo :=
  addAffinity core_id (clearAffinity t).
Definition setExplicitAffinity (t : ThreadInfo) : ThreadInfo :=
  put_affinity (m_has_affinity t) true (m_core_affinity t) t.
Definition hasAffinity (t : ThreadInfo) (core_id : Z) : res bool := rdz (m_core_affinity t) core_id.
Definition put_running (core_id last_in last_out : Z) (t : ThreadInfo) : ThreadInfo :=
  {| m_has_affinity := m_has_affinity t; m_explicit_affinity := m_explicit_affinity t;
     m_core_affinity := m_core_affinity t; m_core_running := core_id;
     m_last_scheduled_in := last_in; m_last_scheduled_out := last_out |}.
Definition setCoreRunning (core_id : Z) (t : ThreadInfo) : ThreadInfo :=
  put_running core_id (m_last_scheduled_in t) (m_last_scheduled_out t) t.
Definition isRunning (t : ThreadInfo) : bool := negb (m_core_running t =? INVALID_CORE_ID).

(** The initial affinity of a thread: [SchedulerPinned] hands out the cores of
    its mask in turn, [SchedulerRoaming] gives all of them. *)
Inductive Rule : Type :=
| SchedulerPinned (m_interleaving m_next_core : Z)
| SchedulerRoaming.

Record SchedulerPinnedBase : Type := {
  m_threads_runnable : list bool;
  m_in_periodic : bool;
  m_quantum : Z;
  m_last_periodic : Z;
  m_thread_info : list ThreadInfo;
  m_core_thread_running : list Z;
  m_quantum_left : list Z;
  m_core_mask : list bool;
  m_rule : Rule }.

Definition SchedulerPinnedBase_new (quantum : Z) (core_mask : list bool) (rule : Rule) :
    SchedulerPinnedBase :=
  {| m_threads_runnable := replicate 16 false; m_in_periodic := false; m_quantum := quantum;
     m_last_periodic := 0; m_thread_info := [];
     m_core_thread_running := (λ _, INVALID_THREAD_ID) <$> core_mask; m_quantum_left := (λ _, 0) <$> core_mask;
     m_core_mask := core_mask; m_rule := rule |}.

(** [getApplicationCores()]. *)
Definition app_cores (x : SchedulerPinnedBase) : nat := length (m_core_mask x).
Definition app_core_ids (x : SchedulerPinnedBase) : list Z := Z.of_nat <$> seq 0 (app_cores x).

Definition put_runnable (l : list bool) (x : SchedulerPinnedBase) : SchedulerPinnedBase :=
  {| m_threads_runnable := l; m_in_periodic := m_in_periodic x; m_quantum := m_quantum x;
     m_last_periodic := m_last_periodic x; m_thread_info := m_thread_info x;
     m_core_thread_running := m_core_thread_running x; m_quantum_left := m_quantum_left x;
     m_core_mask := m_core_mask x; m_rule := m_rule x |}.
Definition put_periodic (in_periodic : bool) (last : Z) (x : SchedulerPinnedBase) : SchedulerPinnedBase :=
  {| m_threads_runnable := m_threads_runnable x; m_in_periodic := in_periodic; m_quantum := m_quantum x;
     m_last_periodic := last; m_thread_info := m_thread_info x;
     m_core_thread_running := m_core_thread_running x; m_quantum_left := m_quantum_left x;
     m_core_mask := m_core_mask x; m_rule := m_rule x |}.
Definition put_infos (l : list ThreadInfo) (x : SchedulerPinnedBase) : SchedulerPinnedBase :=
  {| m_threads_runnable := m_threads_runnable x; m_in_periodic := m_in_periodic x; m_quantum := m_quantum x;
     m_last_periodic := m_last_periodic x; m_thread_info := l;
     m_core_thread_running := m_core_thread_running x; m_quantum_left := m_quantum_left x;
     m_core_mask := m_core_mask x; m_rule := m_rule x |}.
Definition put_core_state (running lefts : list Z) (x : SchedulerPinnedBase) : SchedulerPinnedBase :=
  {| m_threads_runnable := m_threads_runnable x; m_in_periodic := m_in_periodic x; m_quantum := m_quantum x;
     m_last_periodic := m_last_periodic x; m_thread_info := m_thread_info x;
     m_core_thread_running := running; m_quantum_left := lefts;
     m_core_mask := m_core_mask x; m_rule := m_rule x |}.
Definition put_rule (r : Rule) (x : SchedulerPinnedBase) : SchedulerPinnedBase :=
  {| m_threads_runnable := m_threads_runnable x; m_in_periodic := m_in_periodic x; m_quantum := m_quantum x;
     m_last_periodic := m_last_periodic x; m_thread_info := m_thread_info x;
     m_core_thread_running := m_core_thread_running x; m_quantum_left := m_quantum_left x;
     m_core_mask := m_core_mask x; m_rule := r |}.

(** * Operations on the scheduler's own state *)
Notation Own := (st SchedulerPinnedBase).

Definition info_of (thread_id : Z) : Own ThreadInfo :=
  let! l := gets m_thread_info in lift (rdz l thread_id).
Definition upd_info (thread_id : Z) (f : ThreadInfo → res ThreadInfo) : Own unit :=
  let! t := info_of thread_id in
  let! t := lift (f t) in
  let! l := gets m_thread_info in
  let! l := lift (updz l thread_id (λ _, t)) in
  modify (put_infos l).
Definition running_on (core_id : Z) : Own Z :=
  let! l := gets m_core_thread_running in lift (rdz l core_id).
Definition set_running_on (core_id thread_id : Z) : Own unit :=
  let! l := gets m_core_thread_running in
  let! l := lift (updz l core_id (λ _, thread_id)) in
  modify (λ x, put_core_state l (m_quantum_left x) x).
Definition set_quantum_left (core_id time : Z) : Own unit :=
  let! l := gets m_quantum_left in
  let! l := lift (updz l core_id (λ _, time)) in
  modify (λ x, put_core_state (m_core_thread_running x) l x).
Definition set_runnable (thread_id : Z) (b : bool) : Own unit :=
  let! l := gets m_threads_runnable in
  let! l := lift (updz l thread_id (λ _, b)) in
  modify (put_runnable l).

(** [vector::resize], which only grows here. *)
Definition resize {A} (n : nat) (x : A) (l : list A) : list A := l ++ replicate (n - length l) x.

(** ** scheduler_pinned.cc: an addition of [int] may overflow *)
Definition int_add (a b : Z) : res Z :=
  if (- 2 ^ 31 <=? a + b) && (a + b <? 2 ^ 31) then Ok (a + b) else Err ErrUndefined.

Fixpoint getNextCore (fuel : nat) (n interleaving : Z) (mask : list bool) (core_id : Z) : res Z :=
  match fuel with
  | O => Err ErrFuel
  | S fuel =>
      let? core_id := int_add core_id interleaving in
      let? core_id :=
        (if n <=? core_id then
           let core_id := core_id mod n + 1 in
           if interleaving =? 0 then Err ErrUndefined else Ok (Z.rem core_id interleaving)
         else Ok core_id) in
      let? m := rdz mask core_id in
      if (m : bool) then Ok core_id else getNextCore fuel n interleaving mask core_id
  end.
(** More steps than there are cores: the loop runs for ever. *)
Definition next_fuel (mask : list bool) : nat := S (length mask).

Fixpoint getFreeCore (fuel : nat) (x : SchedulerPinnedBase) (interleaving core_first core_next : Z) : res Z :=
  match fuel with
  | O => Err ErrFuel
  | S fuel =>
      let? t := rdz (m_core_thread_running x) core_next in
      let? m := rdz (m_core_mask x) core_next in
      if (t =? INVALID_THREAD_ID) && m then Ok core_next else
      let? core_next := getNextCore (next_fuel (m_core_mask x)) (Z.of_nat (app_cores x)) interleaving
                          (m_core_mask x) core_next in
      if core_next =? core_first then Ok core_first
      else getFreeCore fuel x interleaving core_first core_next
  end.

(** ** [threadSetInitialAffinity] of the two schedulers *)
Definition threadSetInitialAffinity (thread_id : Z) : Own unit :=
  let! x := gets id in
  match m_rule x with
  | SchedulerPinned interleaving next_core =>
      let! core_id := lift (getFreeCore (next_fuel (m_core_mask x)) x interleaving next_core next_core) in
      let! next := lift (getNextCore (next_fuel (m_core_mask x)) (Z.of_nat (app_cores x)) interleaving
                           (m_core_mask x) core_id) in
      modify (put_rule (SchedulerPinned interleaving next));!
      upd_info thread_id (setAffinitySingle core_id)
  | SchedulerRoaming =>
      upd_info thread_id (λ t, Ok (clearAffinity t));!
      forM_ (app_core_ids x) (λ core_id,
        let! m := lift (rdz (m_core_mask x) core_id) in
        if (m : bool) then upd_info thread_id (addAffinity core_id) else ret tt)
  end.

(** ** scheduler_pinned_base.cc *)
Fixpoint find_free (t : ThreadInfo) (running : list Z) (ids : list Z) : res Z :=
  match ids with
  | [] => Ok INVALID_CORE_ID
  | core_id :: ids =>
      let? a := hasAffinity t core_id in
      if (a : bool) then
        let? r := rdz running core_id in
        if r =? INVALID_THREAD_ID then Ok core_id else find_free t running ids
      else find_free t running ids
  end.
Definition findFreeCoreForThread (thread_id : Z) : Own Z :=
  let! x := gets id in
  let! t := info_of thread_id in
  lift (find_free t (m_core_thread_running x) (app_core_ids x)).

Definition threadCreate (thread_id : Z) : Own Z :=
  modify (λ x, if (length (m_thread_info x) <=? Z.to_nat thread_id)%nat
               then put_infos (resize (length (m_thread_info x) + 16) (ThreadInfo_new (app_cores x))
                                 (m_thread_info x)) x
               else x);!
  let! t := info_of thread_id in
  (if m_has_affinity t then ret tt else threadSetInitialAffinity thread_id);!
  let! free_core_id := findFreeCoreForThread thread_id in
  if negb (free_core_id =? INVALID_CORE_ID) then
    upd_info thread_id (λ t, Ok (setCoreRunning free_core_id t));!
    set_running_on free_core_id thread_id;!
    let! q := gets m_quantum in
    set_quantum_left free_core_id q;!
    ret free_core_id
  else
    upd_info thread_id (λ t, Ok (setCoreRunning INVALID_CORE_ID t));!
    ret INVALID_CORE_ID.

(** [SubsecondTime::getPS()], and the difference of two such values as a
    signed 64-bit integer. *)
Definition score_of (time : Z) (t : ThreadInfo) : Z :=
  if isRunning t then s64 (getPS (m_last_scheduled_in t) - getPS time)
  else s64 (getPS time - getPS (m_last_scheduled_out t)).

(** The thread that may run on the core and has the highest score. *)
Definition may_run (core_id : Z) (t : ThreadInfo) (runnable : bool) : res bool :=
  let? a := hasAffinity t core_id in
  Ok (a && runnable && (negb (isRunning t) || (m_core_running t =? core_id))).
Fixpoint select (time core_id : Z) (runnable : list bool) (infos : list ThreadInfo)
    (thread_id new_thread_id max_score : Z) : res Z :=
  match runnable with
  | [] => Ok new_thread_id
  | r :: runnable =>
      match infos with
      | [] => Err ErrUndefined
      | t :: infos =>
          let? ok := may_run core_id t r in
          if ok && (max_score <? score_of time t)
          then select time core_id runnable infos (thread_id + 1) thread_id (score_of time t)
          else select time core_id runnable infos (thread_id + 1) new_thread_id max_score
      end
  end.

(** * Operations that move threads *)
Section Moving.
Context `{Host}.
Notation M := (st (Sys SchedulerPinnedBase)).
Definition own {A} (m : Own A) : M A := zoom sched put_sched m.

(** [__threadResume] and [threadResume]. *)
Definition threadResume_by (reschedule : Z → Z → bool → M unit) (thread_id thread_by time : Z) : M unit :=
  own (set_runnable thread_id true);!
  let! free_core_id := own (findFreeCoreForThread thread_id) in
  if negb (free_core_id =? INVALID_THREAD_ID) then reschedule time free_core_id false else ret tt.

(** [reschedule]; the bound is on the depth of calls through
    [HOOK_THREAD_RESUME]. *)
Fixpoint reschedule_f (fuel : nat) (time core_id : Z) (is_periodic : bool) : M unit :=
  match fuel with
  | O => fail ErrFuel
  | S fuel =>
      let move t c := moveThread (threadResume_by (reschedule_f fuel)) t c time in
      let! current_thread_id := own (running_on core_id) in
      let! initializing :=
        if negb (current_thread_id =? INVALID_THREAD_ID) then isThreadInitializing current_thread_id
        else ret false in
      if (initializing : bool) then ret tt else
      let! x := gets sched in
      let! new_thread_id := lift (select time core_id (m_threads_runnable x) (m_thread_info x) 0
                                    INVALID_THREAD_ID (- 2 ^ 63)) in
      (if negb (current_thread_id =? new_thread_id) then
         (if negb (current_thread_id =? INVALID_THREAD_ID) then
            own (upd_info current_thread_id (λ t,
                   Ok (put_running INVALID_CORE_ID (m_last_scheduled_in t)
                         (time_add time (u64 (1000 * core_id))) t)));!
            move current_thread_id INVALID_CORE_ID
          else ret tt);!
         own (set_running_on core_id new_thread_id);!
         (if negb (new_thread_id =? INVALID_THREAD_ID) then
            let! t := own (info_of new_thread_id) in
            (if isRunning t then own (set_running_on (m_core_running t) INVALID_THREAD_ID) else ret tt);!
            own (upd_info new_thread_id (λ t, Ok (put_running core_id time (m_last_scheduled_out t) t)));!
            move new_thread_id core_id
          else ret tt)
       else ret tt);!
      own (let! q := gets m_quantum in set_quantum_left core_id q)
  end.
(** A call through the hook is for a free core, which it fills. *)
Definition reschedule (time core_id : Z) (is_periodic : bool) : M unit :=
  let! fuel := gets (λ s, S (S (app_cores (sched s)))) in reschedule_f fuel time core_id is_periodic.

Definition threadResume (thread_id thread_by time : Z) : M unit :=
  threadResume_by reschedule thread_id thread_by time.

(** [__threadStart] and [threadStart]. *)
Definition threadStart (thread_id time : Z) : M unit :=
  own (modify (λ x, if (length (m_threads_runnable x) <=? Z.to_nat thread_id)%nat
                    then put_runnable (resize (length (m_threads_runnable x) + 16) false
                                         (m_threads_runnable x)) x
                    else x));!
  own (set_runnable thread_id true);!
  let! free_core_id := own (findFreeCoreForThread thread_id) in
  if negb (free_core_id =? INVALID_THREAD_ID) then reschedule time free_core_id false else ret tt.

(** A thread that can no longer run leaves its core. *)
Definition reschedule_core_of (thread_id time : Z) : M unit :=
  own (set_runnable thread_id false);!
  let! t := own (info_of thread_id) in
  if isRunning t then reschedule time (m_core_running t) false else ret tt.
Definition threadStall (thread_id : Z) (reason : stall_type_t) (time : Z) : M unit :=
  if bool_decide (reason ≠ STALL_UNSCHEDULED) then reschedule_core_of thread_id time else ret tt.
Definition threadExit (thread_id time : Z) : M unit := reschedule_core_of thread_id time.

(** [__periodic] and [periodic]. *)
Definition periodic (time : Z) : M unit :=
  own (modify (λ x, put_periodic true (m_last_periodic x) x));!
  let! last := gets (λ s, m_last_periodic (sched s)) in
  let delta := u64 (time - last) in
  let! ids := gets (λ s, app_core_ids (sched s)) in
  forM_ ids (λ core_id,
    let! lefts := gets (λ s, m_quantum_left (sched s)) in
    let! quantum_left := lift (rdz lefts core_id) in
    let! t := own (running_on core_id) in
    if (quantum_left <? delta) || (t =? INVALID_THREAD_ID) then reschedule time core_id true
    else own (set_quantum_left core_id (u64 (quantum_left - delta))));!
  own (modify (λ x, put_periodic false time x)).

Definition threadYield (thread_id : Z) : M unit :=
  let! t := own (info_of thread_id) in
  let core_id := m_core_running t in
  if negb (core_id =? INVALID_CORE_ID) then
    let! core := getCoreFromID core_id in
    let time := c_elapsed core in
    own (set_quantum_left core_id 0);!
    reschedule time core_id false;!
    let! t := own (info_of thread_id) in
    let! a := lift (hasAffinity t core_id) in
    if (a : bool) then ret tt else
    let! free_core_id := own (findFreeCoreForThread thread_id) in
    if negb (free_core_id =? INVALID_CORE_ID) then reschedule time free_core_id false else ret tt
  else ret tt.

(** The bits of the mask that an application passes. *)
Fixpoint add_mask (n thread_id cpu : Z) (mask : list bool) : Own unit :=
  match mask with
  | [] => ret tt
  | m :: mask =>
      (if (m : bool) then
         lift (log_assert (cpu <? n) "Invalid core found in sched_setaffinity() mask");!
         upd_info thread_id (addAffinity cpu)
       else ret tt);!
      add_mask n thread_id (cpu + 1) mask
  end.
Definition set_affinity (thread_id : Z) (mask : option (list bool)) : Own unit :=
  modify (λ x, if (length (m_thread_info x) <=? Z.to_nat thread_id)%nat
               then put_infos (resize (Z.to_nat thread_id + 16) (ThreadInfo_new (app_cores x))
                                 (m_thread_info x)) x
               else x);!
  upd_info thread_id (λ t, Ok (setExplicitAffinity t));!
  let! x := gets id in
  match mask with
  | None => forM_ (app_core_ids x) (λ core_id, upd_info thread_id (addAffinity core_id))
  | Some mask =>
      upd_info thread_id (λ t, Ok (clearAffinity t));!
      add_mask (Z.of_nat (app_cores x)) thread_id 0 mask
  end.
Definition threadSetAffinity (calling_thread_id thread_id : Z) (mask : option (list bool)) : M bool :=
  own (set_affinity thread_id mask);!
  let! threads := gets (λ s, Z.of_nat (length (m_threads (tm s)))) in
  if threads <=? thread_id then ret true else
  (if thread_id =? calling_thread_id then threadYield thread_id
   else
     let! t := own (info_of thread_id) in
     let! misplaced := lift (if isRunning t
                             then let? a := hasAffinity t (m_core_running t) in Ok (negb a)
                             else Ok false) in
     if (misplaced : bool) then own (set_quantum_left (m_core_running t) 0)
     else
       let! l := gets (λ s, m_threads_runnable (sched s)) in
       let! r := lift (rdz l thread_id) in
       if r && negb (isRunning t) then
         let! free_core_id := own (findFreeCoreForThread thread_id) in
         if negb (free_core_id =? INVALID_THREAD_ID) then
           let! core := getCoreFromID free_core_id in
           let! now := gets (λ s, m_global_time (bss s)) in
           reschedule (Z.max (c_elapsed core) now) free_core_id false
         else ret tt
       else ret tt);!
  ret true.

(** The bits of the result, for a mask of [8 * cpusetsize] bits. *)
Definition threadGetAffinity (thread_id : Z) (cpusetsize : nat) : Own (option (list bool)) :=
  let! x := gets id in
  if (cpusetsize * 8 <? app_cores x)%nat then ret None else
  let! t := info_of thread_id in
  ret (Some (((λ a, a || negb (m_explicit_affinity t)) <$> m_core_affinity t)
             ++ replicate (cpusetsize * 8 - app_cores x) false)).

#[export] Instance SchedulerPinnedBase_scheduler : Scheduler SchedulerPinnedBase := {|
  sch_threadCreate := λ t, own (threadCreate t);
  sch_threadStart := threadStart;
  sch_threadStall := threadStall;
  sch_threadResume := threadResume;
  sch_threadExit := threadExit;
  sch_periodic := periodic |}.
End Moving.
