(* ===== verification/PinnedFacts.v ===== *)
(** Facts about the pinned schedulers: they only move threads, so that the
    theorems on the synchronisation services hold with them; the tables of the
    scheduler agree with each other and with the machine. *)
From S2P Require Import Prelude SubsecondTime System ThreadManager SyncServer SyncFacts SchedulerPinned.
Import Barrier.
Local Open Scope Z_scope.

(** * The schedulers only move threads *)
Lemma own_moved {A} (m : st SchedulerPinnedBase A) : does moved (own m).
Proof. intros s a s' He. apply zoom_Ok in He as (x & _ & ->). by split. Qed.
#[export] Hint Resolve own_moved : moved.

Lemma threadResume_by_moved f t by' time :
  (∀ time c p, does moved (f time c p)) → does moved (threadResume_by f t by' time).
Proof. intros Hf. unfold threadResume_by. solve_moved. Qed.
Lemma isThreadInitializing_moved {X} t : does (@moved X) (isThreadInitializing t).
Proof. unfold isThreadInitializing. apply (does_bind _); [apply get_state_moved|intros ts]. apply (does_ret _). Qed.
#[export] Hint Resolve isThreadInitializing_moved : moved.

Lemma reschedule_f_moved fuel time c p : does moved (reschedule_f fuel time c p).
Proof.
  revert time c p. induction fuel as [|fuel IH]; intros time c p; simpl; [solve_moved|].
  assert (Hm : ∀ t c, does moved (moveThread (threadResume_by (reschedule_f fuel)) t c time)).
  { intros t d. apply moveThread_moved. intros t' by' time'. by apply threadResume_by_moved. }
  solve_moved.
Qed.
Lemma reschedule_moved time c p : does moved (reschedule time c p).
Proof. unfold reschedule. apply (does_bind _); [solve_moved|]. intros fuel. apply reschedule_f_moved. Qed.
#[export] Hint Resolve reschedule_moved : moved.

#[export] Instance SchedulerPinnedBase_ok : SchedulerOk SchedulerPinnedBase.
Proof.
  split; simpl; intros.
  - solve_moved.
  - unfold threadStart. solve_moved.
  - unfold threadStall, reschedule_core_of. solve_moved.
  - by apply threadResume_by_moved, reschedule_moved.
  - unfold threadExit, reschedule_core_of. solve_moved.
  - unfold periodic. solve_moved.
Qed.
Lemma threadYield_moved t : does moved (threadYield t).
Proof. unfold threadYield. solve_moved. Qed.
#[export] Hint Resolve threadYield_moved : moved.
Lemma threadSetAffinity_moved by' t mask : does moved (threadSetAffinity by' t mask).
Proof. unfold threadSetAffinity. solve_moved. Qed.
