(* ===== verification/PinnedProps.v ===== *)
(** The tables of the pinned schedulers and the machine: each core runs the
    thread that the scheduler has booked on it.  Rescheduling a core returns,
    gives the core to the thread that has waited longest, and keeps the tables
    in agreement. *)
From S2P Require Import Prelude SubsecondTime System ThreadManager SyncServer SyncFacts SyncSpec SchedulerPinned PinnedFacts.
Import Barrier.
Local Open Scope Z_scope.

(** * Tables *)
Implicit Types (x : SchedulerPinnedBase) (i : ThreadInfo).

(** The scheduler's two tables agree: the thread booked on a core is the one
    that has the core in its record. *)
Record books x : Prop := {
  bk_running : length (m_core_thread_running x) = app_cores x;
  bk_quantum : length (m_quantum_left x) = app_cores x;
  bk_affinity : Forall (λ i, length (m_core_affinity i) = app_cores x) (m_thread_info x);
  bk_core t i : m_thread_info x !! t = Some i → isRunning i = true →
    0 ≤ m_core_running i ∧
    m_core_thread_running x !! Z.to_nat (m_core_running i) = Some (Z.of_nat t);
  bk_thread c t : m_core_thread_running x !! c = Some t → t ≠ INVALID_THREAD_ID →
    0 ≤ t ∧ ∃ i, m_thread_info x !! Z.to_nat t = Some i ∧ m_core_running i = Z.of_nat c }.

(** Core [c] changes from thread [cur] to thread [new]. *)
Record swapped (c : nat) (cur new : Z) x x' : Prop := {
  sw_mask : m_core_mask x' = m_core_mask x;
  sw_runnable : m_threads_runnable x' = m_threads_runnable x;
  sw_quantum : length (m_quantum_left x') = length (m_quantum_left x);
  sw_running : m_core_thread_running x' = <[c := new]> (m_core_thread_running x);
  sw_length : length (m_thread_info x') = length (m_thread_info x);
  sw_info t i : m_thread_info x !! t = Some i → ∃ i', m_thread_info x' !! t = Some i' ∧
    m_core_affinity i' = m_core_affinity i ∧
    m_core_running i' = if decide (Z.of_nat t = new) then Z.of_nat c
                        else if decide (Z.of_nat t = cur) then INVALID_CORE_ID else m_core_running i }.

Lemma swapped_back c cur new x x' t i' :
  swapped c cur new x x' → m_thread_info x' !! t = Some i' → ∃ i, m_thread_info x !! t = Some i ∧
    m_core_affinity i' = m_core_affinity i ∧
    m_core_running i' = if decide (Z.of_nat t = new) then Z.of_nat c
                        else if decide (Z.of_nat t = cur) then INVALID_CORE_ID else m_core_running i.
Proof.
  intros Hs Hi'. destruct (lookup_lt_is_Some_2 (m_thread_info x) t) as [i Hi].
  { rewrite <- (sw_length _ _ _ _ _ Hs). by eapply lookup_lt_Some. }
  exists i. destruct (sw_info _ _ _ _ _ Hs t i Hi) as (i2 & Hi2 & Ha & Hc). by simplify_eq.
Qed.

Lemma isRunning_true i : isRunning i = true ↔ m_core_running i ≠ INVALID_CORE_ID.
Proof. unfold isRunning. rewrite negb_true_iff, Z.eqb_neq. done. Qed.
Lemma isRunning_false i : isRunning i = false ↔ m_core_running i = INVALID_CORE_ID.
Proof. unfold isRunning. rewrite negb_false_iff, Z.eqb_eq. done. Qed.

(** A change of threads keeps the tables in agreement, if the new thread was
    not booked on a core. *)
Lemma books_swapped c cur new x x' :
  books x → m_core_thread_running x !! c = Some cur → swapped c cur new x x' →
  (new ≠ INVALID_THREAD_ID → 0 ≤ new ∧ ∃ i, m_thread_info x !! Z.to_nat new = Some i ∧ isRunning i = false) →
  books x'.
Proof.
  intros Hb Hc Hs Hn. assert (Hcores : app_cores x' = app_cores x) by (unfold app_cores; by rewrite (sw_mask _ _ _ _ _ Hs)).
  assert (Hlt : (c < length (m_core_thread_running x))%nat) by (by eapply lookup_lt_Some).
  split.
  - rewrite (sw_running _ _ _ _ _ Hs), length_insert, Hcores. apply Hb.
  - rewrite (sw_quantum _ _ _ _ _ Hs), Hcores. apply Hb.
  - apply Forall_lookup. intros t i' (i & Hi & -> & _)%(swapped_back _ _ _ _ _ _ _ Hs). rewrite Hcores.
    by eapply (Forall_lookup_1 _ _ _ _ (bk_affinity _ Hb)).
  - intros t i' (i & Hi & _ & Hr)%(swapped_back _ _ _ _ _ _ _ Hs) Hrun. apply isRunning_true in Hrun.
    rewrite (sw_running _ _ _ _ _ Hs). rewrite Hr in *. case_decide as Hnew.
    + split; [lia|]. rewrite Nat2Z.id, list_lookup_insert_eq by done. congruence.
    + case_decide as Hcur; [done|]. destruct (bk_core _ Hb t i Hi) as [H0 Ht]; [by apply isRunning_true|].
      split; [done|]. rewrite list_lookup_insert_ne; [done|]. intros ->. congruence.
  - intros d t. rewrite (sw_running _ _ _ _ _ Hs). intros [[-> [-> _]]|[Hne Ht]]%list_lookup_insert_Some Hv.
    + destruct (Hn Hv) as (H0 & i & Hi & _). split; [done|].
      destruct (sw_info _ _ _ _ _ Hs _ i Hi) as (i' & Hi' & _ & Hr). exists i'. split; [done|].
      rewrite Hr. rewrite Z2Nat.id by done. by rewrite decide_True.
    + destruct (bk_thread _ Hb d t Ht Hv) as (H0 & i & Hi & Hr). split; [done|].
      destruct (sw_info _ _ _ _ _ Hs _ i Hi) as (i' & Hi' & _ & Hr'). exists i'. split; [done|].
      rewrite Hr', Z2Nat.id by done. rewrite decide_False, decide_False; [done| |].
      * intros ->. destruct (bk_thread _ Hb c cur Hc Hv) as (_ & i2 & Hi2 & Hr2). simplify_eq. lia.
      * intros ->. destruct (Hn Hv) as (_ & i2 & Hi2 & Hf). simplify_eq. apply isRunning_false in Hf.
        unfold INVALID_CORE_ID in *. lia.
Qed.

(** * The machine *)
Notation SP := (Sys SchedulerPinnedBase).
Implicit Types s : SP.

(** The thread of each core and the core of each thread. *)
Definition places s : list (option Z) := c_thread <$> cores s.
Definition homes s : list (option Z) := m_core <$> m_threads (tm s).
Record consistent (places homes : list (option Z)) : Prop := {
  co_place c t : places !! c = Some (Some t) → 0 ≤ t ∧ homes !! Z.to_nat t = Some (Some (Z.of_nat c));
  co_home t c : homes !! t = Some (Some c) → 0 ≤ c ∧ places !! Z.to_nat c = Some (Some (Z.of_nat t)) }.

Lemma consistent_out p h t c :
  consistent p h → h !! t = Some (Some c) → consistent (<[Z.to_nat c := None]> p) (<[t := None]> h).
Proof.
  intros Hc Ht. destruct (co_home _ _ Hc t c Ht) as [H0 Hp]. split.
  - intros d u [[_ [? _]]|[Hne Hd]]%list_lookup_insert_Some; [done|].
    destruct (co_place _ _ Hc d u Hd) as [Hu Hh]. split; [done|].
    rewrite list_lookup_insert_ne; [done|]. intros ->. simplify_eq. lia.
  - intros u d [[_ [? _]]|[Hne Hd]]%list_lookup_insert_Some; [done|].
    destruct (co_home _ _ Hc u d Hd) as [Hd0 Hh]. split; [done|].
    rewrite list_lookup_insert_ne; [done|]. intros E. assert (d = c) by lia. subst d. rewrite Hp in Hh.
    injection Hh as Hh. lia.
Qed.
Lemma consistent_in p h t c :
  consistent p h → h !! t = Some None → p !! c = Some None →
  consistent (<[c := Some (Z.of_nat t)]> p) (<[t := Some (Z.of_nat c)]> h).
Proof.
  intros Hc Ht Hp. assert (Hct : (c < length p)%nat) by (by eapply lookup_lt_Some).
  assert (Htt : (t < length h)%nat) by (by eapply lookup_lt_Some). split.
  - intros d u [[<- [[= <-] _]]|[Hne Hd]]%list_lookup_insert_Some.
    + split; [lia|]. by rewrite Nat2Z.id, list_lookup_insert_eq.
    + destruct (co_place _ _ Hc d u Hd) as [Hu Hh]. split; [done|].
      rewrite list_lookup_insert_ne; [done|]. intros ->. by simplify_eq.
  - intros u d [[<- [[= <-] _]]|[Hne Hd]]%list_lookup_insert_Some.
    + split; [lia|]. by rewrite Nat2Z.id, list_lookup_insert_eq.
    + destruct (co_home _ _ Hc u d Hd) as [Hd0 Hh]. split; [done|].
      rewrite list_lookup_insert_ne; [done|]. intros ->. by simplify_eq.
Qed.

(** ** What the moves of threads need *)
Record bss_ok (b : BarrierSyncServer) : Prop := {
  bo_acquire : length (m_barrier_acquire_list b) = num_cores b;
  bo_thread : length (m_core_thread b) = num_cores b;
  bo_cond : length (m_core_cond b) = num_cores b;
  bo_release : Forall (λ c, 0 ≤ c < Z.of_nat (num_cores b)) (m_to_release b) }.
Record ready s : Prop := {
  rd_reason : Forall (λ ts, status ts = STALLED → is_Some (stalled_reason ts)) (m_thread_state (tm s));
  rd_bss : bss_ok (bss s) }.

Lemma bss_ok_moved b b' : bss_ok b → bss_moved b b' → bss_ok b'.
Proof.
  intros [H1 H2 H3 H4] Hm. assert (Hn : num_cores b' = num_cores b).
  { symmetry. eapply Forall2_length, (bm_clocks _ _ Hm). }
  split; rewrite Hn.
  - by rewrite (bm_acquire _ _ Hm).
  - by rewrite (bm_thread _ _ Hm).
  - by rewrite (bm_conds _ _ Hm).
  - destruct (bm_release _ _ Hm) as [k Hk]. rewrite Hk in H4. by apply Forall_app in H4 as [? _].
Qed.
Lemma ready_moved s s' : ready s → moved s s' → ready s'.
Proof.
  intros [Hr Hb] Hm. split; [|eapply bss_ok_moved; [exact Hb|apply Hm]].
  apply Forall_lookup. intros t ts' Ht'. destruct (Forall2_lookup_r _ _ _ _ _ (mv_states _ _ Hm) Ht') as (ts & Ht & Hs).
  pose proof (Forall_lookup_1 _ _ _ _ Hr Ht) as Hts. destruct Hs as [->|(_ & _ & ->)]; [done|]. by simpl.
Qed.

Lemma release_loop_returns l n conds :
  Forall (λ c, 0 ≤ c < Z.of_nat (length conds)) l → ∃ r, release_loop l n conds = Ok r.
Proof.
  revert n conds. induction l as [|c l IH]; intros n conds Hl; simpl; [eauto|].
  destruct (n =? 0); [eauto|]. apply Forall_cons in Hl as [Hc Hl].
  destruct (lookup_lt_is_Some_2 conds (Z.to_nat c)) as [b Hb]; [lia|].
  rewrite (updz_valid _ _ _ b) by (done || lia). simpl. apply IH. by rewrite length_insert.
Qed.
Lemma doRelease_returns n b : bss_ok b → ∃ b', doRelease n b = Ok (tt, b').
Proof.
  intros Hb. unfold doRelease, st_bind, gets, lift, modify. simpl.
  destruct (release_loop_returns (reverse (m_to_release b)) n (m_core_cond b)) as [r Hr].
  { rewrite (bo_cond _ Hb). apply Forall_forall. intros c. rewrite elem_of_reverse. intros Hc.
    exact (proj1 (Forall_forall _ _) (bo_release _ Hb) c Hc). }
  rewrite Hr. simpl. eauto.
Qed.
Lemma releaseThread_returns t b : bss_ok b → ∃ b', releaseThread t b = Ok (tt, b').
Proof.
  intros Hb. unfold releaseThread. unfold st_bind at 1, gets at 1. cbn [res_bind fst snd].
  assert (Hloop : ∀ ids b, bss_ok b → Forall (λ c, 0 ≤ c < Z.of_nat (num_cores b)) ids →
    ∃ b', forM_ ids (λ core_id, let! b := gets id in
      let! acquired := lift (rdz (m_barrier_acquire_list b) core_id) in
      let! u := lift (rdz (m_core_thread b) core_id) in
      if acquired && (u =? t) then
        let! l := lift (updz (m_local_clock_list b) core_id (λ _, 0)) in modify (put_clocks l)
      else ret tt) b = Ok (tt, b') ∧ bss_ok b').
  { clear b Hb. induction ids as [|c ids IH]; intros b Hb Hi; [by exists b|]. apply Forall_cons in Hi as [Hc Hi].
    destruct (lookup_lt_is_Some_2 (m_barrier_acquire_list b) (Z.to_nat c)) as [a Ha]; [rewrite (bo_acquire _ Hb); lia|].
    destruct (lookup_lt_is_Some_2 (m_core_thread b) (Z.to_nat c)) as [u Hu]; [rewrite (bo_thread _ Hb); lia|].
    destruct (lookup_lt_is_Some_2 (m_local_clock_list b) (Z.to_nat c)) as [k Hk]; [unfold num_cores in *; lia|].
    simpl. unfold st_bind, gets, lift, modify. simpl. rewrite (rdz_valid _ _ a), (rdz_valid _ _ u) by (done || lia). simpl.
    destruct (a && (u =? t)); [|by apply IH].
    rewrite (updz_valid _ _ _ k) by (done || lia). simpl. apply IH.
    - destruct Hb. split; unfold num_cores in *; simpl; by rewrite length_insert.
    - unfold num_cores in *. simpl. by rewrite length_insert. }
  destruct (Hloop (core_ids b) b Hb) as (b1 & E & Hb1).
  { apply Forall_fmap, Forall_seq. intros k. simpl. lia. }
  unfold st_bind at 1. rewrite E. simpl. by apply doRelease_returns.
Qed.

(** ** Single updates *)
Lemma upd_core_at c f co s :
  0 ≤ c → cores s !! Z.to_nat c = Some co →
  upd_core c f s = Ok (tt, put_cores (<[Z.to_nat c := f co]> (cores s)) s).
Proof. intros H0 Hc. unfold upd_core, st_bind, gets, lift, modify. simpl. by rewrite (updz_valid _ _ _ co). Qed.
Lemma upd_thread_at t f th s :
  0 ≤ t → m_threads (tm s) !! Z.to_nat t = Some th →
  upd_thread t f s = Ok (tt, put_tm (put_threads (<[Z.to_nat t := f th]> (m_threads (tm s))) (tm s)) s).
Proof. intros H0 Hc. unfold upd_thread, st_bind, gets, lift, modify. simpl. by rewrite (updz_valid _ _ _ th). Qed.
Lemma upd_state_at t f ts s :
  0 ≤ t → m_thread_state (tm s) !! Z.to_nat t = Some ts →
  upd_state t f s = Ok (tt, put_tm (put_states (<[Z.to_nat t := f ts]> (m_thread_state (tm s))) (tm s)) s).
Proof. intros H0 Hc. unfold upd_state, st_bind, gets, lift, modify. simpl. by rewrite (updz_valid _ _ _ ts). Qed.
Lemma get_state_at t ts s :
  0 ≤ t → m_thread_state (tm s) !! Z.to_nat t = Some ts → get_state t s = Ok (ts, s).
Proof. intros H0 Hc. unfold get_state, st_bind, gets, lift. simpl. by rewrite (rdz_valid _ _ ts). Qed.
Lemma getCoreFromID_at c co s :
  0 ≤ c → cores s !! Z.to_nat c = Some co → getCoreFromID c s = Ok (co, s).
Proof.
  intros H0 Hc. pose proof (lookup_lt_Some _ _ _ Hc). unfold getCoreFromID, st_bind, gets, lift. simpl.
  rewrite (proj2 (Z.ltb_lt _ _)) by lia. simpl. by rewrite (rdz_valid _ _ co).
Qed.
Lemma hook_migrate_at t s :
  bss_ok (bss s) → ∃ b, hook_migrate t s = Ok (tt, put_bss b s).
Proof.
  intros Hb. destruct (releaseThread_returns t _ Hb) as [b E]. exists b.
  unfold hook_migrate, on_bss, zoom. by rewrite E.
Qed.
Lemma homes_insert t th s : homes (put_tm (put_threads (<[t := th]> (m_threads (tm s))) (tm s)) s) = <[t := m_core th]> (homes s).
Proof. unfold homes. simpl. by rewrite list_fmap_insert. Qed.
Lemma places_insert c co s : places (put_cores (<[c := co]> (cores s)) s) = <[c := c_thread co]> (places s).
Proof. unfold places. simpl. by rewrite list_fmap_insert. Qed.
Lemma places_same c co co' s :
  cores s !! c = Some co → c_thread co' = c_thread co → places (put_cores (<[c := co']> (cores s)) s) = places s.
Proof. intros Hc He. rewrite places_insert, He. apply list_insert_id. unfold places. by rewrite list_lookup_fmap, Hc. Qed.
Lemma places_core c p s : places s !! c = Some p → ∃ co, cores s !! c = Some co ∧ c_thread co = p.
Proof. unfold places. rewrite list_lookup_fmap. intros (co & -> & Hc)%fmap_Some. eauto. Qed.
Lemma homes_thread t h s : homes s !! t = Some h → ∃ th, m_threads (tm s) !! t = Some th ∧ m_core th = h.
Proof. unfold homes. rewrite list_lookup_fmap. intros (co & -> & Hc)%fmap_Some. eauto. Qed.

Definition vacate (h : option Z) (p : list (option Z)) : list (option Z) :=
  match h with Some c => <[Z.to_nat c := None]> p | None => p end.

Lemma setCore_None t h s :
  0 ≤ t → homes s !! Z.to_nat t = Some h → consistent (places s) (homes s) →
  ∃ s', setCore t None s = Ok (tt, s') ∧ sched s' = sched s ∧ m_thread_state (tm s') = m_thread_state (tm s) ∧
    bss s' = bss s ∧ homes s' = <[Z.to_nat t := None]> (homes s) ∧ places s' = vacate h (places s).
Proof.
  intros H0 Hh Hc. destruct (homes_thread _ _ _ Hh) as (th & Hth & Hco). unfold setCore. unfold st_bind at 1.
  rewrite (getThreadFromID_valid t s th) by done. cbn [res_bind fst snd]. rewrite Hco. destruct h as [c|].
  - destruct (co_home _ _ Hc _ _ Hh) as [Hc0 Hp]. destruct (places_core _ _ _ Hp) as (co & Hcore & _).
    unfold st_bind. rewrite (upd_core_at c _ co) by done. simpl. rewrite (upd_thread_at t _ th) by done. simpl.
    eexists. split; [reflexivity|]. split; [done|]. split; [done|]. split; [done|]. split.
    + exact (homes_insert (Z.to_nat t) (with_core None th) s).
    + exact (places_insert (Z.to_nat c) (setThread None co) s).
  - unfold st_bind. simpl. rewrite (upd_thread_at t _ th) by done. simpl.
    eexists. split; [reflexivity|]. split; [done|]. split; [done|]. split; [done|]. split; [exact (homes_insert (Z.to_nat t) (with_core None th) s)|done].
Qed.

(** Taking a thread from its core. *)
Lemma moveThread_out f t h time s :
  0 ≤ t → homes s !! Z.to_nat t = Some h → consistent (places s) (homes s) → bss_ok (bss s) →
  ∃ s', moveThread f t INVALID_CORE_ID time s = Ok (tt, s') ∧ sched s' = sched s ∧
    m_thread_state (tm s') = m_thread_state (tm s) ∧
    homes s' = <[Z.to_nat t := None]> (homes s) ∧ places s' = vacate h (places s).
Proof.
  intros H0 Hh Hc Hb. destruct (homes_thread _ _ _ Hh) as (th & Hth & Hco). unfold moveThread. unfold st_bind at 1.
  rewrite (getThreadFromID_valid t s th) by done. cbn [res_bind fst snd]. rewrite Hco.
  assert (Hidle : ∃ s1, (match h with Some c => upd_core c (setState IDLE) | None => ret tt end) s = Ok (tt, s1) ∧
    sched s1 = sched s ∧ tm s1 = tm s ∧ bss s1 = bss s ∧ places s1 = places s).
  { destruct h as [c|]; [|by exists s]. destruct (co_home _ _ Hc _ _ Hh) as [Hc0 Hp].
    destruct (places_core _ _ _ Hp) as (co & Hcore & _). rewrite (upd_core_at c _ co) by done.
    eexists. split; [reflexivity|]. split; [done|]. split; [done|]. split; [done|]. by apply (places_same _ co). }
  destruct Hidle as (s1 & E1 & Hs1 & Ht1 & Hb1 & Hp1). unfold st_bind at 1. rewrite E1. simpl.
  assert (Hh1 : homes s1 = homes s) by (unfold homes; by rewrite Ht1).
  destruct (setCore_None t h s1) as (s2 & E2 & Hs2 & Ht2 & Hb2 & Hh2 & Hp2); [done|congruence|congruence|].
  unfold st_bind at 1. rewrite E2. simpl.
  destruct (hook_migrate_at t s2) as [b Eb]; [congruence|]. rewrite Eb. eexists. split; [reflexivity|].
  split; [simpl; congruence|]. split; [simpl; congruence|]. rewrite <- Hh1, <- Hp1. done.
Qed.

Lemma setCore_Some t c s :
  0 ≤ t → 0 ≤ c → homes s !! Z.to_nat t = Some None → places s !! Z.to_nat c = Some None →
  ∃ s', setCore t (Some c) s = Ok (tt, s') ∧ sched s' = sched s ∧ m_thread_state (tm s') = m_thread_state (tm s) ∧
    bss s' = bss s ∧ homes s' = <[Z.to_nat t := Some c]> (homes s) ∧
    places s' = <[Z.to_nat c := Some t]> (places s).
Proof.
  intros H0 Hc0 Hh Hp. destruct (homes_thread _ _ _ Hh) as (th & Hth & Hco).
  destruct (places_core _ _ _ Hp) as (co & Hcore & Hct). unfold setCore. unfold st_bind at 1.
  rewrite (getThreadFromID_valid t s th) by done. cbn [res_bind fst snd]. rewrite Hco.
  unfold st_bind, ret. simpl. rewrite (upd_thread_at t _ th) by done. simpl.
  rewrite (getCoreFromID_at c co) by done. simpl. unfold lift, log_assert.
  rewrite bool_decide_eq_false_2 by (rewrite Hct; by intros [? ?]). simpl.
  rewrite (upd_core_at c _ co) by done. eexists. split; [reflexivity|]. split; [done|]. split; [done|].
  split; [done|]. split; [exact (homes_insert (Z.to_nat t) (with_core (Some c) th) s)|].
  exact (places_insert (Z.to_nat c) (setThread (Some t) co) s).
Qed.

(** What waking a thread up leaves as it is. *)
Record same_view s s' : Prop := {
  sv_sched : sched s' = sched s;
  sv_homes : homes s' = homes s;
  sv_cores : cores s' = cores s;
  sv_states : length (m_thread_state (tm s')) = length (m_thread_state (tm s));
  sv_bss : bss s' = bss s }.

Definition waits_for_core s (t : Z) : Prop :=
  ∃ ts, m_thread_state (tm s) !! Z.to_nat t = Some ts ∧ status ts = STALLED ∧
        stalled_reason ts = Some STALL_UNSCHEDULED.

(** A thread that waits for a core is woken, which calls the scheduler. *)
Lemma wake_for_core f t time s (R : SP → Prop) :
  0 ≤ t → (Z.to_nat t < length (m_thread_state (tm s)))%nat → homes s !! Z.to_nat t = Some None → ready s →
  (∀ s1, same_view s s1 → moved s s1 → ∃ s2, f t INVALID_THREAD_ID time s1 = Ok (tt, s2) ∧ R s2) → R s →
  ∃ s2, (let! ts := get_state t in
         if bool_decide (status ts = STALLED) then
           let! r := lift (reason_of ts) in
           if bool_decide (r = STALL_UNSCHEDULED)
           then resumeThread f t INVALID_THREAD_ID time false else ret tt
         else ret tt) s = Ok (tt, s2) ∧ R s2.
Proof.
  intros H0 [ts Hts]%lookup_lt_is_Some_2 Hh Hr Hf HR. destruct (homes_thread _ _ _ Hh) as (th & Hth & Hco).
  unfold st_bind at 1. rewrite (get_state_at t ts) by done. simpl. case_bool_decide as Hst; [|by exists s].
  destruct (Forall_lookup_1 _ _ _ _ (rd_reason _ Hr) Hts Hst) as [r Hrs]. unfold st_bind at 1, lift, reason_of.
  rewrite Hrs. simpl. case_bool_decide as Hu; [|by exists s]. subst r.
  set (s1 := put_tm (put_states (<[Z.to_nat t := set_status RUNNING ts]> (m_thread_state (tm s)))
    (put_threads (<[Z.to_nat t := with_wakeup time false th]> (m_threads (tm s))) (tm s))) s).
  destruct (Hf s1) as (s2 & E & HR2).
  - split; try done; simpl; [|by rewrite length_insert]. unfold homes. simpl. rewrite list_fmap_insert.
    apply list_insert_id. by rewrite list_lookup_fmap, Hth.
  - split; try done; simpl; [|by rewrite length_insert].
    rewrite <- (list_insert_id _ _ _ Hts) at 1. apply Forall2_insert; [reflexivity|]. by right.
  - exists s2. split; [|done]. unfold resumeThread, resumeThread_async, signal, st_bind.
    rewrite (getThreadFromID_valid t s th) by done. simpl. rewrite (upd_thread_at t _ th) by done. simpl.
    rewrite (upd_state_at t _ ts) by done. exact E.
Qed.

(** Bringing a thread to a free core. *)
Lemma moveThread_in f t c time s (R : SP → Prop) :
  0 ≤ t → 0 ≤ c → (Z.to_nat t < length (m_thread_state (tm s)))%nat → homes s !! Z.to_nat t = Some None → ready s →
  (∀ s1, same_view s s1 → moved s s1 → ∃ s2, f t INVALID_THREAD_ID time s1 = Ok (tt, s2) ∧ R s2) → R s →
  (∀ s2, R s2 → homes s2 !! Z.to_nat t = Some None ∧ places s2 !! Z.to_nat c = Some None ∧
    (Z.to_nat t < length (m_thread_state (tm s2)))%nat ∧ bss_ok (bss s2)) →
  ∃ s2 s', R s2 ∧ moveThread f t c time s = Ok (tt, s') ∧ sched s' = sched s2 ∧
    m_thread_state (tm s') = m_thread_state (tm s2) ∧
    homes s' = <[Z.to_nat t := Some c]> (homes s2) ∧ places s' = <[Z.to_nat c := Some t]> (places s2).
Proof.
  intros H0 Hc0 Hst Hh Hr Hf HR HR'. destruct (homes_thread _ _ _ Hh) as (th & Hth & Hco).
  destruct (wake_for_core f t time s R H0 Hst Hh Hr Hf HR) as (s2 & E & HR2).
  destruct (HR' s2 HR2) as (Hh2 & Hp2 & Hst2 & Hb2). destruct (places_core _ _ _ Hp2) as (co & Hcore & _).
  destruct (setCore_Some t c s2) as (s3 & E3 & Hs3 & Ht3 & Hb3 & Hh3 & Hp3); [done..|].
  destruct (lookup_lt_is_Some_2 _ _ Hst2) as [ts2 Hts2].
  assert (Hp3c : places s3 !! Z.to_nat c = Some (Some t)).
  { rewrite Hp3. apply list_lookup_insert_eq. by eapply lookup_lt_Some. }
  destruct (places_core _ _ _ Hp3c) as (co3 & Hcore3 & Hct3).
  assert (Hrun : ∃ s4, (if bool_decide (status ts2 ≠ STALLED) then upd_core c (setState RUNNING) else ret tt) s3 =
    Ok (tt, s4) ∧ sched s4 = sched s3 ∧ tm s4 = tm s3 ∧ bss s4 = bss s3 ∧ places s4 = places s3).
  { case_bool_decide; [|by exists s3]. rewrite (upd_core_at c _ co3) by done. eexists. split; [reflexivity|].
    split; [done|]. split; [done|]. split; [done|]. by apply (places_same _ co3). }
  destruct Hrun as (s4 & E4 & Hs4 & Ht4 & Hb4 & Hp4).
  destruct (hook_migrate_at t s4) as [b Eb]; [congruence|].
  exists s2, (put_bss b s4). split; [done|]. split.
  - unfold moveThread. unfold st_bind at 1. rewrite (getThreadFromID_valid t s th) by done. cbn [res_bind fst snd].
    rewrite Hco. unfold st_bind at 1, ret at 1. cbn [res_bind fst snd].
    destruct (Z.eqb_spec c INVALID_CORE_ID) as [->|_]; [unfold INVALID_CORE_ID in Hc0; lia|].
    unfold st_bind at 1 2. rewrite E. cbn [res_bind fst snd]. unfold st_bind at 1.
    rewrite (getCoreFromID_at c co) by done. cbn [res_bind fst snd]. unfold st_bind at 1. rewrite E3. cbn [res_bind fst snd].
    unfold st_bind at 1. rewrite (get_state_at t ts2) by (done || by rewrite Ht3). cbn [res_bind fst snd]. rewrite E4.
    exact Eb.
  - split; [simpl; congruence|]. split; [simpl; congruence|].
    change (homes (put_bss b s4)) with (homes s4). change (places (put_bss b s4)) with (places s4).
    rewrite Hp4, <- Hp3, <- Hh3. split; [|done]. unfold homes. by rewrite Ht4.
Qed.

(** * The choice of a thread *)
Definition eligible (c : Z) (i : ThreadInfo) (runnable : bool) : Prop :=
  runnable = true ∧ m_core_affinity i !! Z.to_nat c = Some true ∧
  (isRunning i = false ∨ m_core_running i = c).

Lemma may_run_spec c i r n :
  length (m_core_affinity i) = n → 0 ≤ c < Z.of_nat n →
  ∃ b, may_run c i r = Ok b ∧ (b = true ↔ eligible c i r).
Proof.
  intros Hl Hc. destruct (lookup_lt_is_Some_2 (m_core_affinity i) (Z.to_nat c)) as [a Ha]; [lia|].
  unfold may_run, hasAffinity. rewrite (rdz_valid _ _ a) by (done || lia). simpl. eexists. split; [reflexivity|].
  unfold eligible. rewrite Ha, !andb_true_iff, orb_true_iff, negb_true_iff, Z.eqb_eq. naive_solver.
Qed.

(** The scores of the threads that may run on the core are at most [m]. *)
Definition scores_below (time c : Z) (runnable : list bool) (infos : list ThreadInfo) (m : Z) : Prop :=
  ∀ j i, infos !! j = Some i → (∃ r, runnable !! j = Some r ∧ eligible c i r) → score_of time i ≤ m.

Lemma scores_below_cons time c r runnable i infos m :
  scores_below time c (r :: runnable) (i :: infos) m ↔
  (eligible c i r → score_of time i ≤ m) ∧ scores_below time c runnable infos m.
Proof.
  split.
  - intros H. split; [intros He; apply (H 0%nat i); simpl; eauto|]. intros j i' Hi Hr. by apply (H (S j)).
  - intros [H0 H] [|j] i' Hi (r' & Hr & He); simpl in *; simplify_eq; eauto.
Qed.

Lemma select_spec time c n runnable infos k new0 max0 :
  (length runnable ≤ length infos)%nat → Forall (λ i, length (m_core_affinity i) = n) infos →
  0 ≤ c < Z.of_nat n →
  ∃ new, select time c runnable infos k new0 max0 = Ok new ∧
    ((new = new0 ∧ scores_below time c runnable infos max0) ∨
     ∃ j i, new = k + Z.of_nat j ∧ infos !! j = Some i ∧ (∃ r, runnable !! j = Some r ∧ eligible c i r) ∧
       max0 < score_of time i ∧ scores_below time c runnable infos (score_of time i)).
Proof.
  intros Hl Hf Hc. revert infos k new0 max0 Hl Hf.
  induction runnable as [|r runnable IH]; intros infos k new0 max0 Hl Hf.
  { exists new0. split; [done|]. left. split; [done|]. by intros j i _ (r & ? & _). }
  destruct infos as [|i infos]; simpl in Hl; [lia|]. apply Forall_cons in Hf as [Hi Hf].
  destruct (may_run_spec c i r n Hi Hc) as (b & Hb & Heb). simpl. rewrite Hb. simpl.
  destruct (b && (max0 <? score_of time i)) eqn:E.
  - apply andb_true_iff in E as [-> Hlt%Z.ltb_lt].
    destruct (IH infos (k + 1) k (score_of time i)) as (new & Hs & Hn); [lia|done|].
    exists new. split; [done|]. right. setoid_rewrite scores_below_cons. destruct Hn as [[-> Hall]|(j & i' & -> & Hj & Hr & Hlt' & Hall)].
    + exists 0%nat, i. split; [lia|]. split; [done|]. split; [exists r; split; [done|by apply Heb]|]. split; [done|].
      split; [lia|done].
    + exists (S j), i'. split; [lia|]. split; [done|]. split; [done|]. split; [lia|]. split; [lia|done].
  - destruct (IH infos (k + 1) new0 max0) as (new & Hs & Hn); [lia|done|].
    assert (Hle : eligible c i r → score_of time i ≤ max0).
    { intros He. apply andb_false_iff in E as [->|Hge%Z.ltb_ge]; [by apply Heb in He|done]. }
    exists new. split; [done|]. setoid_rewrite scores_below_cons. destruct Hn as [[-> Hall]|(j & i' & -> & Hj & Hr & Hlt' & Hall)].
    + left. done.
    + right. exists (S j), i'. split; [lia|]. split; [done|]. split; [done|]. split; [lia|]. split; [|done].
      intros He. specialize (Hle He). lia.
Qed.

Lemma select_length time c runnable infos k n m r :
  select time c runnable infos k n m = Ok r → (length runnable ≤ length infos)%nat.
Proof.
  revert infos k n m. induction runnable as [|b runnable IH]; intros [|i infos] k n m He; simpl in *; [lia|lia|done|].
  apply res_bind_Ok in He as (ok & _ & He). case_match; apply IH in He; lia.
Qed.

(** * The invariant *)
Definition booked i : option Z := if isRunning i then Some (m_core_running i) else None.

(** The tables of the scheduler describe the machine; the threads in [E] are
    on their way to the core that is booked for them. *)
Record placed (E : Z → Prop) s : Prop := {
  pl_books : books (sched s);
  pl_cores : length (places s) = app_cores (sched s);
  pl_states : length (m_thread_state (tm s)) = length (homes s);
  pl_infos : (length (homes s) ≤ length (m_thread_info (sched s)))%nat;
  pl_known c t : m_core_thread_running (sched s) !! c = Some t → t ≠ INVALID_THREAD_ID →
    (Z.to_nat t < length (homes s))%nat;
  pl_runnable t : m_threads_runnable (sched s) !! t = Some true → (t < length (homes s))%nat;
  pl_machine : consistent (places s) (homes s);
  pl_book t i h : m_thread_info (sched s) !! t = Some i → homes s !! t = Some h → ¬ E (Z.of_nat t) → h = booked i;
  pl_flight t : E t → 0 ≤ t ∧ homes s !! Z.to_nat t = Some None ∧
    ∃ i, m_thread_info (sched s) !! Z.to_nat t = Some i ∧ isRunning i = true }.

(** A booked core has a thread that is on it, or on its way to it. *)
Lemma placed_free E s c t :
  placed E s → m_core_thread_running (sched s) !! c = Some t →
  (t = INVALID_THREAD_ID ∨ homes s !! Z.to_nat t = Some None) →
  places s !! c = Some None.
Proof.
  intros Hp Hc Ht. assert (Hl : (c < length (places s))%nat).
  { rewrite (pl_cores _ _ Hp), <- (bk_running _ (pl_books _ _ Hp)). by eapply lookup_lt_Some. }
  destruct (lookup_lt_is_Some_2 _ _ Hl) as [[u|] Hu]; [|done]. exfalso.
  destruct (co_place _ _ (pl_machine _ _ Hp) c u Hu) as [Hu0 Hh].
  assert (HuE : ¬ E u). { intros HE. destruct (pl_flight _ _ Hp u HE) as (_ & Hh' & _). congruence. }
  destruct (lookup_lt_is_Some_2 (m_thread_info (sched s)) (Z.to_nat u)) as [i Hi].
  { pose proof (pl_infos _ _ Hp). apply lookup_lt_Some in Hh. lia. }
  pose proof (pl_book _ _ Hp _ _ _ Hi Hh) as Hb. rewrite Z2Nat.id in Hb by done. specialize (Hb HuE).
  unfold booked in Hb. destruct (isRunning i) eqn:Hr; [|done]. injection Hb as Hb.
  destruct (bk_core _ (pl_books _ _ Hp) _ _ Hi Hr) as [_ Hrun]. rewrite <- Hb, Nat2Z.id, Z2Nat.id in Hrun by done.
  rewrite Hc in Hrun. injection Hrun as ->. destruct Ht as [->|Ht]; [unfold INVALID_THREAD_ID in Hu0; lia|congruence].
Qed.
Lemma placed_equiv E E' s : (∀ t, E t ↔ E' t) → placed E s → placed E' s.
Proof.
  intros HE [Hb H1 H2 H3 H4 H5 H6 H7 H8]. split; try done.
  - intros t i h Hi Hh Ht. apply (H7 t); [done|done|]. by rewrite HE.
  - intros t Ht. apply H8. by rewrite HE.
Qed.

Definition unhome (t : Z) (h : list (option Z)) : list (option Z) :=
  if decide (t = INVALID_THREAD_ID) then h else <[Z.to_nat t := None]> h.
Lemma length_unhome t h : length (unhome t h) = length h.
Proof. unfold unhome. case_decide; [done|]. by rewrite length_insert. Qed.
Lemma unhome_lookup_ne t h u : 0 ≤ t ∨ t = INVALID_THREAD_ID → Z.of_nat u ≠ t → unhome t h !! u = h !! u.
Proof.
  intros Ht Hne. unfold unhome. case_decide; [done|]. apply list_lookup_insert_ne. intros <-.
  destruct Ht as [Ht|Ht]; [|done]. by rewrite Z2Nat.id in Hne.
Qed.

Definition with_new (E : Z → Prop) (new : Z) : Z → Prop := λ t, E t ∨ (t = new ∧ new ≠ INVALID_THREAD_ID).

(** A thread that may be put on a core. *)
Definition available s (new : Z) : Prop :=
  0 ≤ new ∧ (Z.to_nat new < length (homes s))%nat ∧
  ∃ i, m_thread_info (sched s) !! Z.to_nat new = Some i ∧ isRunning i = false.

Definition except (E : Z → Prop) (cur : Z) : Z → Prop := λ t, E t ∧ t ≠ cur.

(** The thread of a core has the core, unless it is on its way. *)
Lemma placed_current E s c cur :
  placed E s → m_core_thread_running (sched s) !! c = Some cur → cur ≠ INVALID_THREAD_ID →
  0 ≤ cur ∧ is_Some (m_thread_info (sched s) !! Z.to_nat cur) ∧
  ((¬ E cur ∧ homes s !! Z.to_nat cur = Some (Some (Z.of_nat c))) ∨
   (homes s !! Z.to_nat cur = Some None ∧ places s !! c = Some None)).
Proof.
  intros Hp Hc Hv. destruct (bk_thread _ (pl_books _ _ Hp) c cur Hc Hv) as (H0 & i & Hi & Hr).
  split; [done|]. split; [eauto|]. destruct (lookup_lt_is_Some_2 _ _ (pl_known _ _ Hp c cur Hc Hv)) as [[d|] Hh].
  - left. assert (HE : ¬ E cur). { intros HE. destruct (pl_flight _ _ Hp cur HE) as (_ & Hn & _). congruence. }
    split; [done|]. rewrite Hh. f_equal. rewrite (pl_book _ _ Hp _ _ _ Hi Hh) by (by rewrite Z2Nat.id).
    unfold booked. rewrite (proj2 (isRunning_true i)); [by rewrite Hr|]. unfold INVALID_CORE_ID. lia.
  - right. split; [done|]. eapply placed_free; [exact Hp|exact Hc|by right].
Qed.

Lemma placed_swapped E s s' c cur new :
  placed E s → m_core_thread_running (sched s) !! c = Some cur →
  swapped c cur new (sched s) (sched s') → new ≠ cur → (new ≠ INVALID_THREAD_ID → available s new ∧ ¬ E new) →
  length (m_thread_state (tm s')) = length (m_thread_state (tm s)) →
  homes s' = unhome cur (homes s) → places s' = <[c := None]> (places s) →
  placed (with_new (except E cur) new) s'.
Proof.
  intros Hp Hc Hs Hne Hnew Hst Hh Hpl. pose proof (pl_books _ _ Hp) as Hb.
  assert (Hcur0 : 0 ≤ cur ∨ cur = INVALID_THREAD_ID).
  { destruct (decide (cur = INVALID_THREAD_ID)); [by right|left]. by eapply (bk_thread _ Hb). }
  split.
  - eapply books_swapped; [exact Hb|exact Hc|exact Hs|]. intros Hv. destruct (Hnew Hv) as [(H0 & _ & Hi) _]. done.
  - rewrite Hpl, length_insert. unfold app_cores. rewrite (sw_mask _ _ _ _ _ Hs). apply (pl_cores _ _ Hp).
  - rewrite Hst, Hh, length_unhome. apply Hp.
  - rewrite Hh, length_unhome, (sw_length _ _ _ _ _ Hs). apply Hp.
  - intros d t. rewrite Hh, length_unhome, (sw_running _ _ _ _ _ Hs).
    intros [[-> [-> _]]|[Hd Ht]]%list_lookup_insert_Some Hv; [by apply Hnew|by eapply (pl_known _ _ Hp)].
  - intros t. rewrite Hh, length_unhome, (sw_runnable _ _ _ _ _ Hs). apply (pl_runnable _ _ Hp).
  - rewrite Hh, Hpl. unfold unhome. case_decide as Hv.
    + rewrite list_insert_id; [apply Hp|]. eapply placed_free; [exact Hp|exact Hc|by left].
    + destruct (placed_current _ _ _ _ Hp Hc Hv) as (_ & _ & [[_ Hhc]|[Hhc Hpc]]).
      * rewrite <- (Nat2Z.id c). apply consistent_out; [apply Hp|done].
      * rewrite !list_insert_id by done. apply Hp.
  - intros t i' h Hi' Hh' Hn. destruct (swapped_back _ _ _ _ _ _ _ Hs Hi') as (i & Hi & _ & Hr).
    assert (Htn : Z.of_nat t ≠ new). { intros E1. apply Hn. right. split; [done|]. unfold INVALID_THREAD_ID. lia. }
    rewrite decide_False in Hr by done. rewrite Hh in Hh'. unfold booked, isRunning. rewrite Hr.
    case_decide as Hcur.
    + unfold unhome in Hh'. rewrite decide_False in Hh' by (unfold INVALID_THREAD_ID; lia).
      rewrite <- Hcur, Nat2Z.id in Hh'. apply list_lookup_insert_Some in Hh'. naive_solver.
    + rewrite unhome_lookup_ne in Hh' by done. apply (pl_book _ _ Hp t i); [done|done|].
      intros HEt. apply Hn. by left.
  - intros t Ht. rewrite Hh.
    assert (Hd : E t ∧ t ≠ cur ∧ t ≠ new ∨ t = new ∧ new ≠ INVALID_THREAD_ID).
    { destruct Ht as [[Ht Htc]|Ht]; [|by right]. destruct (decide (t = new)) as [->|]; [|by left].
      right. split; [done|]. destruct (pl_flight _ _ Hp _ Ht) as [? _]. unfold INVALID_THREAD_ID. lia. }
    clear Ht. destruct Hd as [(Ht & Htc & Htn)|[-> Hv]].
    + destruct (pl_flight _ _ Hp t Ht) as (H0 & Hht & i & Hi & Hr). split; [done|].
      rewrite unhome_lookup_ne by (done || by rewrite Z2Nat.id). split; [done|].
      destruct (sw_info _ _ _ _ _ Hs _ i Hi) as (i' & Hi' & _ & Hr'). exists i'. split; [done|].
      rewrite Z2Nat.id, !decide_False in Hr' by done. unfold isRunning in *. by rewrite Hr'.
    + destruct (Hnew Hv) as [(H0 & Hl & i & Hi & Hr) HEn]. split; [done|].
      rewrite unhome_lookup_ne by (done || by rewrite Z2Nat.id). split.
      * destruct (lookup_lt_is_Some_2 _ _ Hl) as [h Hhn]. rewrite Hhn. f_equal.
        rewrite (pl_book _ _ Hp _ i h) by (done || by rewrite Z2Nat.id). unfold booked. by rewrite Hr.
      * destruct (sw_info _ _ _ _ _ Hs _ i Hi) as (i' & Hi' & _ & Hr'). exists i'. split; [done|].
        rewrite Z2Nat.id, decide_True in Hr' by done. apply isRunning_true. rewrite Hr'. unfold INVALID_CORE_ID. lia.
Qed.

(** * Executing the scheduler *)
Lemma own_at {A} (m : st SchedulerPinnedBase A) a x' s :
  m (sched s) = Ok (a, x') → own m s = Ok (a, put_sched x' s).
Proof. intros E. unfold own, zoom. by rewrite E. Qed.
Lemma put_sched_id s : put_sched (sched s) s = s.
Proof. by destruct s. Qed.
Lemma own_read {A} (m : st SchedulerPinnedBase A) a s :
  m (sched s) = Ok (a, sched s) → own m s = Ok (a, s).
Proof. intros E. rewrite (own_at _ a (sched s)) by done. by rewrite put_sched_id. Qed.

Lemma running_on_at c t x :
  0 ≤ c → m_core_thread_running x !! Z.to_nat c = Some t → running_on c x = Ok (t, x).
Proof. intros H0 Hc. unfold running_on, st_bind, gets, lift. simpl. by rewrite (rdz_valid _ _ t). Qed.
Lemma info_of_at t i x : 0 ≤ t → m_thread_info x !! Z.to_nat t = Some i → info_of t x = Ok (i, x).
Proof. intros H0 Hc. unfold info_of, st_bind, gets, lift. simpl. by rewrite (rdz_valid _ _ i). Qed.
Lemma upd_info_at t f i i' x :
  0 ≤ t → m_thread_info x !! Z.to_nat t = Some i → f i = Ok i' →
  upd_info t f x = Ok (tt, put_infos (<[Z.to_nat t := i']> (m_thread_info x)) x).
Proof.
  intros H0 Hi Hf. unfold upd_info. unfold st_bind at 1. rewrite (info_of_at t i) by done. simpl.
  unfold st_bind, gets, lift, modify. simpl. rewrite Hf. simpl. by rewrite (updz_valid _ _ _ i).
Qed.
Lemma set_running_on_at c t x :
  0 ≤ c → (Z.to_nat c < length (m_core_thread_running x))%nat →
  set_running_on c t x = Ok (tt, put_core_state (<[Z.to_nat c := t]> (m_core_thread_running x)) (m_quantum_left x) x).
Proof.
  intros H0 [u Hu]%lookup_lt_is_Some_2. unfold set_running_on, st_bind, gets, lift, modify. simpl.
  by rewrite (updz_valid _ _ _ u).
Qed.
Lemma set_quantum_left_at c q x :
  0 ≤ c → (Z.to_nat c < length (m_quantum_left x))%nat →
  set_quantum_left c q x = Ok (tt, put_core_state (m_core_thread_running x) (<[Z.to_nat c := q]> (m_quantum_left x)) x).
Proof.
  intros H0 [u Hu]%lookup_lt_is_Some_2. unfold set_quantum_left, st_bind, gets, lift, modify. simpl.
  by rewrite (updz_valid _ _ _ u).
Qed.
Lemma set_runnable_at t b x :
  0 ≤ t → (Z.to_nat t < length (m_threads_runnable x))%nat →
  set_runnable t b x = Ok (tt, put_runnable (<[Z.to_nat t := b]> (m_threads_runnable x)) x).
Proof.
  intros H0 [u Hu]%lookup_lt_is_Some_2. unfold set_runnable, st_bind, gets, lift, modify. simpl.
  by rewrite (updz_valid _ _ _ u).
Qed.

(** Changes of the scheduler's state that the invariant does not mention. *)
Lemma placed_quantum E c q s :
  placed E s → placed E (put_sched (put_core_state (m_core_thread_running (sched s))
                                      (<[c := q]> (m_quantum_left (sched s))) (sched s)) s).
Proof.
  intros Hp. destruct Hp as [Hb H1 H2 H3 H4 H5 H6 H7 H8]. split; try done. destruct Hb. split; try done.
  simpl. by rewrite length_insert.
Qed.
Lemma placed_runnable E t b s :
  placed E s → (b = true → (t < length (homes s))%nat) →
  placed E (put_sched (put_runnable (<[t := b]> (m_threads_runnable (sched s))) (sched s)) s).
Proof.
  intros Hp Ht. destruct Hp as [Hb H1 H2 H3 H4 H5 H6 H7 H8]. split; try done.
  - by destruct Hb.
  - intros u. simpl. intros [[-> [Hb' _]]|[_ Hu]]%list_lookup_insert_Some; [by apply Ht|by apply H5].
Qed.
Lemma ready_sched x s : ready s → ready (put_sched x s).
Proof. by intros [H1 H2]. Qed.

(** A thread that reached the core it was sent to. *)
Lemma placed_arrive E s s' c new :
  placed (with_new E new) s → ¬ E new → m_core_thread_running (sched s) !! c = Some new → new ≠ INVALID_THREAD_ID →
  sched s' = sched s → m_thread_state (tm s') = m_thread_state (tm s) →
  homes s' = <[Z.to_nat new := Some (Z.of_nat c)]> (homes s) → places s' = <[c := Some new]> (places s) →
  placed E s'.
Proof.
  intros Hp HE Hc Hv Hsch Hst Hh Hpl. destruct (pl_flight _ _ Hp new) as (H0 & Hhn & i & Hi & Hr); [by right|].
  assert (Hfree : places s !! c = Some None) by (eapply placed_free; [exact Hp|exact Hc|by right]).
  destruct (bk_thread _ (pl_books _ _ Hp) c new Hc Hv) as (_ & i2 & Hi2 & Hrun). simplify_eq.
  destruct Hp as [Hb H1 H2 H3 H4 H5 H6 H7 H8]. split; rewrite ?Hsch, ?Hst, ?Hh, ?Hpl, ?length_insert; try done.
  - rewrite <- (Z2Nat.id new) at 1 by done. by apply consistent_in.
  - intros t j h Hj Ht HEt. apply list_lookup_insert_Some in Ht as [[<- [<- _]]|[Hne Ht]].
    + assert (j = i) by congruence. subst j. unfold booked. rewrite Hr. by f_equal.
    + apply (H7 t); [done|done|]. intros [Hf|[Hf _]]; [done|]. subst new. rewrite Nat2Z.id in Hne. done.
  - intros t Ht. destruct (H8 t) as (Ht0 & Hht & Hit); [by left|]. split; [done|]. split; [|done].
    rewrite list_lookup_insert_ne; [done|]. intros Heq. assert (t = new) by lia. by subst t.
Qed.

(** ** A free core for a thread *)
Lemma find_free_spec i running ids :
  Forall (λ c, 0 ≤ c ∧ (Z.to_nat c < length running)%nat ∧ (Z.to_nat c < length (m_core_affinity i))%nat) ids →
  ∃ c, find_free i running ids = Ok c ∧
    (c ≠ INVALID_CORE_ID → c ∈ ids ∧ running !! Z.to_nat c = Some INVALID_THREAD_ID ∧
       m_core_affinity i !! Z.to_nat c = Some true) ∧
    (c = INVALID_CORE_ID → ∀ d, d ∈ ids → m_core_affinity i !! Z.to_nat d = Some true →
       running !! Z.to_nat d ≠ Some INVALID_THREAD_ID).
Proof.
  induction 1 as [|c ids (H0 & [t Ht]%lookup_lt_is_Some_2 & [a Ha]%lookup_lt_is_Some_2) _ IH]; simpl.
  { exists INVALID_CORE_ID. split; [done|]. split; [done|]. by intros _ d ?%elem_of_nil. }
  destruct IH as (d & Hd & H1 & H2).
  unfold hasAffinity. rewrite (rdz_valid _ _ a) by done. simpl.
  destruct a; [rewrite (rdz_valid _ _ t) by done; simpl; destruct (Z.eqb_spec t INVALID_THREAD_ID) as [->|Hne]|].
  - exists c. split; [done|]. split; [intros _; split; [by left|done]|]. intros ->. by unfold INVALID_CORE_ID in H0.
  - exists d. split; [done|]. split; [intros Hv; destruct (H1 Hv) as [? ?]; split; [by right|done]|].
    intros Hv e [->|He]%elem_of_cons; [congruence|by apply H2].
  - exists d. split; [done|]. split; [intros Hv; destruct (H1 Hv) as [? ?]; split; [by right|done]|].
    intros Hv e [->|He]%elem_of_cons; [congruence|by apply H2].
Qed.

Lemma app_core_ids_spec x c : c ∈ app_core_ids x ↔ 0 ≤ c < Z.of_nat (app_cores x).
Proof.
  unfold app_core_ids. rewrite list_elem_of_fmap. setoid_rewrite elem_of_seq. split.
  - intros (n & -> & Hn). lia.
  - intros Hc. exists (Z.to_nat c). lia.
Qed.

Lemma findFreeCoreForThread_at t i x :
  books x → 0 ≤ t → m_thread_info x !! Z.to_nat t = Some i →
  ∃ c, findFreeCoreForThread t x = Ok (c, x) ∧
    (c ≠ INVALID_CORE_ID → 0 ≤ c < Z.of_nat (app_cores x) ∧
       m_core_thread_running x !! Z.to_nat c = Some INVALID_THREAD_ID ∧
       m_core_affinity i !! Z.to_nat c = Some true) ∧
    (c = INVALID_CORE_ID → ∀ d, m_core_affinity i !! d = Some true →
       m_core_thread_running x !! d ≠ Some INVALID_THREAD_ID).
Proof.
  intros Hb H0 Hi. pose proof (Forall_lookup_1 _ _ _ _ (bk_affinity _ Hb) Hi) as Ha. simpl in Ha.
  destruct (find_free_spec i (m_core_thread_running x) (app_core_ids x)) as (c & Hc & H1 & H2).
  { apply Forall_forall. intros c Hc%app_core_ids_spec. rewrite (bk_running _ Hb), Ha. lia. }
  exists c. split; [|split].
  - unfold findFreeCoreForThread. unfold st_bind at 1, gets. simpl. unfold st_bind. rewrite (info_of_at t i) by done.
    unfold lift. simpl. by rewrite Hc.
  - intros Hv. destruct (H1 Hv) as (Hin%app_core_ids_spec & Hr & Haf). done.
  - intros Hv d Hd. specialize (H2 Hv (Z.of_nat d)). rewrite Nat2Z.id in H2. apply H2; [|done].
    apply app_core_ids_spec. apply lookup_lt_Some in Hd. lia.
Qed.

(** ** The thread on a core leaves it *)
Definition leave (f : Z → Z → Z → st SP unit) (time core_id current_thread_id : Z) : st SP unit :=
  if negb (current_thread_id =? INVALID_THREAD_ID) then
    own (upd_info current_thread_id (λ t,
           Ok (put_running INVALID_CORE_ID (m_last_scheduled_in t) (time_add time (u64 (1000 * core_id))) t)));!
    moveThread f current_thread_id INVALID_CORE_ID time
  else ret tt.

(** The records of the threads when [cur] has left. *)
Definition unbooked (cur : Z) x x' : Prop :=
  m_core_mask x' = m_core_mask x ∧ m_threads_runnable x' = m_threads_runnable x ∧
  m_quantum_left x' = m_quantum_left x ∧ m_core_thread_running x' = m_core_thread_running x ∧
  length (m_thread_info x') = length (m_thread_info x) ∧
  ∀ t i, m_thread_info x !! t = Some i → ∃ i', m_thread_info x' !! t = Some i' ∧
    m_core_affinity i' = m_core_affinity i ∧
    m_core_running i' = if decide (Z.of_nat t = cur) then INVALID_CORE_ID else m_core_running i.

Lemma leave_at E f time s (c : Z) cur :
  placed E s → ready s → 0 ≤ c → m_core_thread_running (sched s) !! Z.to_nat c = Some cur →
  ∃ s', leave f time c cur s = Ok (tt, s') ∧ unbooked cur (sched s) (sched s') ∧
    m_thread_state (tm s') = m_thread_state (tm s) ∧
    homes s' = unhome cur (homes s) ∧ places s' = <[Z.to_nat c := None]> (places s).
Proof.
  intros Hp Hr H0 Hc. unfold leave, unhome. destruct (Z.eqb_spec cur INVALID_THREAD_ID) as [->|Hv]; simpl.
  - exists s. split; [done|]. split.
    + split_and!; try done. intros t i Hi. exists i. split; [done|]. split; [done|].
      rewrite decide_False; [done|]. unfold INVALID_THREAD_ID. lia.
    + split; [done|]. split; [done|]. symmetry. apply list_insert_id. eapply placed_free; [exact Hp|exact Hc|by left].
  - destruct (placed_current _ _ _ _ Hp Hc Hv) as (Hcur0 & [i Hi] & Hhome).
    assert (Hh : ∃ h, homes s !! Z.to_nat cur = Some h ∧ vacate h (places s) = <[Z.to_nat c := None]> (places s)).
    { destruct Hhome as [[_ Hh]|[Hh Hpc]]; eexists; (split; [exact Hh|]); simpl; [by rewrite Nat2Z.id|by rewrite list_insert_id]. }
    destruct Hh as (h & Hh & Hvac).
    set (i' := put_running INVALID_CORE_ID (m_last_scheduled_in i) (time_add time (u64 (1000 * c))) i).
    set (x1 := put_infos (<[Z.to_nat cur := i']> (m_thread_info (sched s))) (sched s)).
    destruct (moveThread_out f cur h time (put_sched x1 s)) as (s' & E1 & Hs & Hst & Hh' & Hp');
      [done|done|apply Hp|apply Hr|].
    exists s'. split; [|split; [|split; [done|split]]].
    + unfold st_bind. rewrite (own_at _ tt x1); [exact E1|]. by rewrite (upd_info_at cur _ i i').
    + rewrite Hs. split_and!; try done; [simpl; by rewrite length_insert|].
      intros t j Hj. destruct (decide (t = Z.to_nat cur)) as [->|Hne].
      * exists i'. simpl. rewrite list_lookup_insert_eq by (by eapply lookup_lt_Some).
        simplify_eq. split; [done|]. split; [done|]. rewrite decide_True; [done|]. by rewrite Z2Nat.id.
      * exists j. simpl. rewrite list_lookup_insert_ne by done. split; [done|]. split; [done|].
        rewrite decide_False; [done|]. intros E2. lia.
    + rewrite decide_False by done. exact Hh'.
    + by rewrite Hp', <- Hvac.
Qed.

(** ** A thread is sent to a core *)
Definition enter (f : Z → Z → Z → st SP unit) (time core_id new_thread_id : Z) : st SP unit :=
  let! t := own (info_of new_thread_id) in
  (if isRunning t then own (set_running_on (m_core_running t) INVALID_THREAD_ID) else ret tt);!
  own (upd_info new_thread_id (λ t, Ok (put_running core_id time (m_last_scheduled_out t) t)));!
  moveThread f new_thread_id core_id time.

Definition book (c : nat) (new : Z) x : SchedulerPinnedBase :=
  put_core_state (<[c := new]> (m_core_thread_running x)) (m_quantum_left x) x.
Definition send (c : nat) (new time : Z) i x : SchedulerPinnedBase :=
  put_infos (<[Z.to_nat new := put_running (Z.of_nat c) time (m_last_scheduled_out i) i]> (m_thread_info x)) x.

Lemma swapped_none c cur x x1 :
  unbooked cur x x1 → swapped c cur INVALID_THREAD_ID x (book c INVALID_THREAD_ID x1).
Proof.
  intros (H1 & H2 & H3 & H4 & H5 & H6). split; simpl; [done|done|by rewrite H3|by rewrite H4|done|].
  intros t i Hi. destruct (H6 t i Hi) as (i' & Hi' & Ha & Hr). exists i'. split; [done|]. split; [done|].
  rewrite Hr. rewrite (decide_False (P := Z.of_nat t = INVALID_THREAD_ID)); [done|]. unfold INVALID_THREAD_ID. lia.
Qed.
Lemma swapped_new c cur new time i1 x x1 :
  unbooked cur x x1 → 0 ≤ new → m_thread_info x1 !! Z.to_nat new = Some i1 →
  swapped c cur new x (send c new time i1 (book c new x1)).
Proof.
  intros (H1 & H2 & H3 & H4 & H5 & H6) H0 Hn.
  split; simpl; [done|done|by rewrite H3|by rewrite H4|by rewrite length_insert|].
  intros t i Hi. destruct (H6 t i Hi) as (i' & Hi' & Ha & Hr). destruct (decide (t = Z.to_nat new)) as [->|Hne].
  - eexists. rewrite list_lookup_insert_eq by (by eapply lookup_lt_Some). split; [done|]. simplify_eq. simpl.
    split; [done|]. rewrite decide_True; [done|]. by rewrite Z2Nat.id.
  - exists i'. rewrite list_lookup_insert_ne by done. split; [done|]. split; [done|]. rewrite Hr.
    rewrite (decide_False (P := Z.of_nat t = new)); [done|]. lia.
Qed.

Definition free (l : list Z) : nat := length (filter (λ t, t = INVALID_THREAD_ID) l).
Lemma free_insert l c a t :
  l !! c = Some a →
  (free (<[c := t]> l) + (if decide (a = INVALID_THREAD_ID) then 1 else 0) =
   free l + (if decide (t = INVALID_THREAD_ID) then 1 else 0))%nat.
Proof.
  revert c. induction l as [|b l IH]; intros c Hc; [done|].
  assert (Hcons : ∀ b l, free (b :: l) = ((if decide (b = INVALID_THREAD_ID) then 1 else 0) + free l)%nat).
  { clear. intros b l. unfold free. rewrite filter_cons. by destruct (decide (b = INVALID_THREAD_ID)). }
  destruct c as [|c].
  - injection Hc as ->. change (<[0%nat := t]> (a :: l)) with (t :: l). rewrite !Hcons. lia.
  - change (<[S c := t]> (b :: l)) with (b :: <[c := t]> l). rewrite !Hcons. specialize (IH c Hc). lia.
Qed.
Lemma free_le l : (free l ≤ length l)%nat.
Proof. apply length_filter. Qed.

(** * Rescheduling a core *)

(** The thread on the core has not started. *)
Definition starting s (c : Z) : Prop :=
  ∃ t ts, m_core_thread_running (sched s) !! Z.to_nat c = Some t ∧ t ≠ INVALID_THREAD_ID ∧
    m_thread_state (tm s) !! Z.to_nat t = Some ts ∧ status ts = INITIALIZING.

Definition chosen (time c : Z) x : res Z :=
  select time c (m_threads_runnable x) (m_thread_info x) 0 INVALID_THREAD_ID (- 2 ^ 63).

Record rescheduled (E : Z → Prop) (time c : Z) s s' : Prop := {
  rs_placed : placed E s';
  rs_others d t : d ≠ Z.to_nat c → m_core_thread_running (sched s) !! d = Some t → t ≠ INVALID_THREAD_ID →
    m_core_thread_running (sched s') !! d = Some t;
  rs_starting : starting s c → s' = s;
  rs_choice : ¬ starting s c → ∃ new, chosen time c (sched s) = Ok new ∧
    m_core_thread_running (sched s') !! Z.to_nat c = Some new }.

(** Cores that have a thread keep it. *)
Definition keeps_threads s s' : Prop := ∀ d t,
  m_core_thread_running (sched s) !! d = Some t → t ≠ INVALID_THREAD_ID →
  m_core_thread_running (sched s') !! d = Some t.

(** Every thread of the table of runnable threads has a record. *)
Definition tabled x : Prop := (length (m_threads_runnable x) ≤ length (m_thread_info x))%nat.

(** A scheduler call for a thread that woke up, while others are on their way. *)
Definition resumes (fuel : nat) : Prop := ∀ E s time c p,
  placed E s → ready s → tabled (sched s) → 0 ≤ c < Z.of_nat (app_cores (sched s)) →
  (∀ t, m_core_thread_running (sched s) !! Z.to_nat c = Some t → ¬ E t) →
  (free (<[Z.to_nat c := 0%Z]> (m_core_thread_running (sched s))) < fuel)%nat →
  ∃ s', reschedule_f fuel time c p s = Ok (tt, s') ∧ rescheduled E time c s s'.

Lemma placed_unflown E s : placed E s → ¬ E INVALID_THREAD_ID.
Proof. intros Hp HE. destruct (pl_flight _ _ Hp _ HE) as [H0 _]. unfold INVALID_THREAD_ID in H0. lia. Qed.

Lemma nested_resume fuel E s t time :
  resumes fuel → placed E s → ready s → tabled (sched s) → E t → m_threads_runnable (sched s) !! Z.to_nat t = Some true →
  (free (m_core_thread_running (sched s)) ≤ fuel)%nat →
  ∃ s', threadResume_by (reschedule_f fuel) t INVALID_THREAD_ID time s = Ok (tt, s') ∧
    placed E s' ∧ ready s' ∧ keeps_threads s s'.
Proof.
  intros Hf Hp Hr Htab HE Hrun Hfuel. destruct (pl_flight _ _ Hp t HE) as (H0 & Hh & i & Hi & _).
  unfold threadResume_by. unfold st_bind at 1. rewrite (own_read _ tt).
  2: { rewrite set_runnable_at by (done || by eapply lookup_lt_Some). rewrite list_insert_id by done. by destruct (sched s). }
  cbn [res_bind fst snd]. destruct (findFreeCoreForThread_at t i (sched s)) as (d & Ed & H1 & _); [apply Hp|done|done|].
  unfold st_bind at 1. rewrite (own_read _ d) by done. cbn [res_bind fst snd].
  destruct (Z.eqb_spec d INVALID_THREAD_ID) as [->|Hd]; simpl.
  { exists s. split; [done|]. split; [done|]. split; [done|]. by intros e u. }
  destruct (H1 Hd) as (Hd0 & Hfree & _).
  destruct (Hf E s time d false) as (s' & E' & Hs'); [done|done|done|done| | |].
  - intros u Hu. rewrite Hfree in Hu. injection Hu as <-. by eapply placed_unflown.
  - pose proof (free_insert _ _ _ 0 Hfree) as Hfi. rewrite decide_True, decide_False in Hfi by done. lia.
  - exists s'. split; [done|]. split; [apply Hs'|]. split; [by eapply ready_moved, (reschedule_f_moved fuel); [|exact E']|].
    intros e u Hu Hv. apply (rs_others _ _ _ _ _ Hs'); [|done|done]. intros ->. congruence.
Qed.

Lemma reschedule_f_eq fuel time c p :
  reschedule_f (S fuel) time c p =
  (let f := threadResume_by (reschedule_f fuel) in
   let! cur := own (running_on c) in
   let! initializing := if negb (cur =? INVALID_THREAD_ID) then isThreadInitializing cur else ret false in
   if (initializing : bool) then ret tt else
   let! x := gets sched in
   let! new := lift (chosen time c x) in
   (if negb (cur =? new) then
      leave f time c cur;!
      own (set_running_on c new);!
      (if negb (new =? INVALID_THREAD_ID) then enter f time c new else ret tt)
    else ret tt);!
   own (let! q := gets m_quantum in set_quantum_left c q)).
Proof. reflexivity. Qed.

(** The chosen thread can be put on the core. *)
Lemma chosen_spec E s time c cur :
  placed E s → tabled (sched s) → 0 ≤ c < Z.of_nat (app_cores (sched s)) →
  m_core_thread_running (sched s) !! Z.to_nat c = Some cur →
  ∃ new, chosen time c (sched s) = Ok new ∧
    (new ≠ INVALID_THREAD_ID → m_threads_runnable (sched s) !! Z.to_nat new = Some true ∧
       (new ≠ cur → available s new ∧ ¬ E new)).
Proof.
  intros Hp Htab Hc Hcur. pose proof (pl_books _ _ Hp) as Hb.
  destruct (select_spec time c (app_cores (sched s)) (m_threads_runnable (sched s)) (m_thread_info (sched s)) 0
    INVALID_THREAD_ID (- 2 ^ 63)) as (new & Hs & Hn); [exact Htab|apply Hb|done|].
  exists new. split; [exact Hs|]. intros Hv. destruct Hn as [[-> _]|(j & i & -> & Hi & (r & Hr & -> & _ & He) & _)]; [done|].
  rewrite Z.add_0_l, Nat2Z.id in *. split; [done|]. intros Hne.
  assert (Hnr : isRunning i = false).
  { destruct He as [He|He]; [done|]. destruct (isRunning i) eqn:Hir; [|done].
    destruct (bk_core _ Hb j i Hi Hir) as [_ Hrun]. rewrite He, Hcur in Hrun. congruence. }
  split; [split; [lia|]; rewrite Nat2Z.id; split; [by eapply (pl_runnable _ _ Hp)|eauto]|].
  intros HE. destruct (pl_flight _ _ Hp _ HE) as (_ & _ & i' & Hi' & Hri'). rewrite Nat2Z.id in Hi'. congruence.
Qed.

Lemma enter_at fuel E s time (c : nat) new i :
  resumes fuel → ready s → tabled (sched s) → ¬ E new → 0 ≤ new →
  m_thread_info (sched s) !! Z.to_nat new = Some i → isRunning i = false →
  m_threads_runnable (sched s) !! Z.to_nat new = Some true →
  m_core_thread_running (sched s) !! c = Some new →
  placed (with_new E new) (put_sched (send c new time i (sched s)) s) →
  (free (m_core_thread_running (sched s)) ≤ fuel)%nat →
  ∃ s', enter (threadResume_by (reschedule_f fuel)) time (Z.of_nat c) new s = Ok (tt, s') ∧ placed E s' ∧
    keeps_threads s s'.
Proof.
  intros Hf Hr Htab HE H0 Hi Hnr Hrun Hc Hp Hfuel. set (f := threadResume_by (reschedule_f fuel)).
  set (s1 := put_sched (send c new time i (sched s)) s) in *.
  assert (Hv : new ≠ INVALID_THREAD_ID) by (unfold INVALID_THREAD_ID; lia).
  destruct (pl_flight _ _ Hp new) as (_ & Hh & _); [by right|].
  pose proof (lookup_lt_Some _ _ _ Hh) as Hlt.
  destruct (moveThread_in f new (Z.of_nat c) time s1
    (λ s2, placed (with_new E new) s2 ∧ ready s2 ∧ keeps_threads s1 s2)) as (s2 & s' & (Hp2 & Hr2 & Hk2) & E' & Hs & Hst & Hh' & Hpl').
  - done.
  - lia.
  - by rewrite (pl_states _ _ Hp).
  - done.
  - by apply ready_sched.
  - intros s2 Hsv Hm. assert (Hp2 : placed (with_new E new) s2).
    { destruct Hsv as [V1 V2 V3 V4 V5]. destruct Hp as [Hb G1 G2 G3 G4 G5 G6 G7 G8].
      assert (V6 : places s2 = places s1) by (unfold places; by rewrite V3).
      split; rewrite ?V1, ?V2, ?V6, ?V4; done. }
    destruct (nested_resume fuel (with_new E new) s2 new time) as (s3 & E3 & Hp3 & Hr3 & Hk3); [done|done| | |by right| | |].
    + eapply ready_moved; [|exact Hm]. by apply ready_sched.
    + rewrite (sv_sched _ _ Hsv). unfold tabled in *. simpl. by rewrite length_insert.
    + by rewrite (sv_sched _ _ Hsv).
    + by rewrite (sv_sched _ _ Hsv).
    + exists s3. split; [exact E3|]. split; [done|]. split; [done|]. intros d t Hd. apply Hk3. by rewrite (sv_sched _ _ Hsv).
  - split; [done|]. split; [by apply ready_sched|]. by intros d t.
  - intros s2 (Hp2 & Hr2 & Hk2). destruct (pl_flight _ _ Hp2 new) as (_ & Hh2 & _); [by right|].
    split; [done|]. rewrite Nat2Z.id. split; [|split; [|apply Hr2]].
    + eapply (placed_free _ _ c new Hp2); [by apply Hk2|by right].
    + rewrite (pl_states _ _ Hp2). by eapply lookup_lt_Some.
  - exists s'. split; [|split].
    + unfold enter. unfold st_bind at 1. rewrite (own_read _ i) by (by rewrite (info_of_at new i)).
      cbn [res_bind fst snd]. rewrite Hnr. unfold st_bind at 1, ret at 1. cbn [res_bind fst snd].
      unfold st_bind at 1. rewrite (own_at _ tt (send c new time i (sched s))); [exact E'|].
      by rewrite (upd_info_at new _ i (put_running (Z.of_nat c) time (m_last_scheduled_out i) i)).
    + rewrite Nat2Z.id in Hpl'. eapply (placed_arrive E s2 s' c new); [done|done|by apply Hk2|done..].
    + intros d t Hd Ht. rewrite Hs. by apply Hk2.
Qed.

Lemma leave_moved fuel time c cur :
  does moved (leave (threadResume_by (reschedule_f fuel)) time c cur).
Proof.
  unfold leave. case_match; [|apply (does_ret _)]. apply (does_bind _); [apply own_moved|intros []].
  apply moveThread_moved. intros t by' time'. apply threadResume_by_moved. apply reschedule_f_moved.
Qed.

(** Core [c] goes from thread [cur] to the chosen thread. *)
Lemma change_thread fuel E s time (c : Z) cur new :
  resumes fuel → placed E s → ready s → tabled (sched s) → 0 ≤ c →
  m_core_thread_running (sched s) !! Z.to_nat c = Some cur → new ≠ cur →
  (new ≠ INVALID_THREAD_ID → m_threads_runnable (sched s) !! Z.to_nat new = Some true ∧ available s new ∧ ¬ E new) →
  (free (<[Z.to_nat c := 0%Z]> (m_core_thread_running (sched s))) ≤ fuel)%nat →
  let f := threadResume_by (reschedule_f fuel) in
  ∃ s', (leave f time c cur;! own (set_running_on c new);!
         (if negb (new =? INVALID_THREAD_ID) then enter f time c new else ret tt)) s = Ok (tt, s') ∧
    placed (except E cur) s' ∧ m_core_thread_running (sched s') !! Z.to_nat c = Some new ∧
    (∀ d t, d ≠ Z.to_nat c → m_core_thread_running (sched s) !! d = Some t → t ≠ INVALID_THREAD_ID →
       m_core_thread_running (sched s') !! d = Some t).
Proof.
  intros Hf Hp Hr Htab H0 Hc Hne Hnew Hfuel f. pose proof (lookup_lt_Some _ _ _ Hc) as Hlt.
  destruct (leave_at E f time s c cur Hp Hr H0 Hc) as (s1 & E1 & Hu & Hst & Hh & Hpl).
  assert (Hr1 : ready s1) by (by eapply ready_moved, leave_moved).
  pose proof Hu as (U1 & U2 & U3 & U4 & U5 & U6).
  set (x2 := book (Z.to_nat c) new (sched s1)). set (s2 := put_sched x2 s1).
  assert (E2 : own (set_running_on c new) s1 = Ok (tt, s2)).
  { apply own_at, set_running_on_at; [done|by rewrite U4]. }
  unfold st_bind at 1. rewrite E1. cbn [res_bind fst snd]. unfold st_bind at 1. rewrite E2. cbn [res_bind fst snd].
  assert (Hrun2 : m_core_thread_running x2 = <[Z.to_nat c := new]> (m_core_thread_running (sched s))) by (simpl; by rewrite U4).
  destruct (Z.eqb_spec new INVALID_THREAD_ID) as [->|Hv]; simpl.
  - exists s2. split; [done|]. split; [|split].
    + eapply (placed_equiv (with_new (except E cur) INVALID_THREAD_ID)); [unfold with_new; naive_solver|].
      eapply (placed_swapped E s s2 _ cur); [done|done|by apply swapped_none|done|done|by rewrite <- Hst|done|done].
    + change (m_core_thread_running x2 !! Z.to_nat c = Some INVALID_THREAD_ID). rewrite Hrun2. by apply list_lookup_insert_eq.
    + intros d t Hd Ht _. change (m_core_thread_running x2 !! d = Some t). rewrite Hrun2. by rewrite list_lookup_insert_ne.
  - destruct (Hnew Hv) as (Hrn & Hav & HEn). pose proof Hav as (Hn0 & Hnl & i & Hi & Hnr).
    destruct (U6 _ _ Hi) as (i1 & Hi1 & _ & Hr1i). rewrite Z2Nat.id, decide_False in Hr1i by done.
    destruct (enter_at fuel (except E cur) s2 time (Z.to_nat c) new i1) as (s3 & E3 & Hp3 & Hk3); try done.
    + by apply ready_sched.
    + unfold tabled in *. simpl. by rewrite U2, U5.
    + by intros [? _].
    + unfold isRunning in *. by rewrite Hr1i.
    + simpl. by rewrite U2.
    + change (m_core_thread_running x2 !! Z.to_nat c = Some new). rewrite Hrun2. by apply list_lookup_insert_eq.
    + eapply (placed_swapped E s _ _ cur); [done|done| |done|done|by rewrite <- Hst|done|done].
      by apply swapped_new.
    + change (free (m_core_thread_running x2) ≤ fuel)%nat. rewrite Hrun2.
      pose proof (free_insert _ _ _ new Hc) as F1. pose proof (free_insert _ _ _ 0 Hc) as F2.
      rewrite (decide_False (P := new = INVALID_THREAD_ID)) in F1 by done.
      rewrite (decide_False (P := 0 = INVALID_THREAD_ID)) in F2 by done. lia.
    + rewrite Z2Nat.id in E3 by done. exists s3. split; [exact E3|]. split; [done|]. split.
      * apply Hk3; [|done]. change (m_core_thread_running x2 !! Z.to_nat c = Some new). rewrite Hrun2. by apply list_lookup_insert_eq.
      * intros d t Hd Ht Htv. apply Hk3; [|done]. change (m_core_thread_running x2 !! d = Some t). rewrite Hrun2.
        by rewrite list_lookup_insert_ne.
Qed.

(** One call of [reschedule]: the thread that leaves the core may be on its
    way. *)
Lemma reschedule_f_once fuel E s time c p cur :
  resumes fuel → placed E s → ready s → tabled (sched s) → 0 ≤ c < Z.of_nat (app_cores (sched s)) →
  m_core_thread_running (sched s) !! Z.to_nat c = Some cur →
  (free (<[Z.to_nat c := 0%Z]> (m_core_thread_running (sched s))) ≤ fuel)%nat →
  ∃ s', reschedule_f (S fuel) time c p s = Ok (tt, s') ∧ (starting s c → s' = s) ∧
    (¬ starting s c → ∃ new, chosen time c (sched s) = Ok new ∧
       m_core_thread_running (sched s') !! Z.to_nat c = Some new ∧
       (new = cur → placed E s') ∧ (new ≠ cur → placed (except E cur) s')) ∧
    (∀ d t, d ≠ Z.to_nat c → m_core_thread_running (sched s) !! d = Some t → t ≠ INVALID_THREAD_ID →
       m_core_thread_running (sched s') !! d = Some t).
Proof.
  intros Hf Hp Hr Htab Hc Hcur Hfuel. pose proof (pl_books _ _ Hp) as Hb.
  rewrite reschedule_f_eq. cbv zeta. unfold st_bind at 1.
  rewrite (own_read _ cur) by (apply running_on_at; [lia|done]). cbn [res_bind fst snd].
  assert (Hinit : ∃ b, (if negb (cur =? INVALID_THREAD_ID) then isThreadInitializing cur else ret false) s = Ok (b, s) ∧
    (b = true ↔ starting s c)).
  { destruct (Z.eqb_spec cur INVALID_THREAD_ID) as [->|Hv]; simpl.
    - exists false. split; [done|]. split; [done|]. intros (t & ts & Ht & Hv & _). congruence.
    - destruct (bk_thread _ Hb _ _ Hcur Hv) as (H0 & _). pose proof (pl_known _ _ Hp _ _ Hcur Hv) as Hk.
      rewrite <- (pl_states _ _ Hp) in Hk. destruct (lookup_lt_is_Some_2 _ _ Hk) as [ts Hts].
      unfold isThreadInitializing, st_bind. rewrite (get_state_at cur ts) by done. simpl. eexists. split; [reflexivity|].
      rewrite bool_decide_eq_true. split; [intros Hs; by exists cur, ts|]. intros (t & ts' & Ht & _ & Hts' & Hs). congruence. }
  destruct Hinit as (b & Eb & Hst). unfold st_bind at 1. rewrite Eb. cbn [res_bind fst snd].
  destruct b; [exists s; split; [done|]; split; [done|]; split; [intros Hn; by destruct Hn; apply Hst|done]|].
  destruct (chosen_spec E s time c cur Hp Htab Hc Hcur) as (new & Hnew & Hav).
  unfold st_bind at 1, gets at 1. cbn [res_bind fst snd]. unfold st_bind at 1, lift at 1. rewrite Hnew. cbn [res_bind fst snd].
  assert (Hch : ∃ s1, (if negb (cur =? new) then
      leave (threadResume_by (reschedule_f fuel)) time c cur;! own (set_running_on c new);!
      (if negb (new =? INVALID_THREAD_ID) then enter (threadResume_by (reschedule_f fuel)) time c new else ret tt)
    else ret tt) s = Ok (tt, s1) ∧ (new = cur → placed E s1) ∧ (new ≠ cur → placed (except E cur) s1) ∧
    m_core_thread_running (sched s1) !! Z.to_nat c = Some new ∧
    (∀ d t, d ≠ Z.to_nat c → m_core_thread_running (sched s) !! d = Some t → t ≠ INVALID_THREAD_ID →
       m_core_thread_running (sched s1) !! d = Some t)).
  { destruct (Z.eqb_spec cur new) as [<-|Hne]; simpl; [by exists s|].
    destruct (change_thread fuel E s time c cur new) as (s1 & E1 & Hp1 & H1); [done|done|done|done|lia|done|done| |done|].
    - intros Hv. destruct (Hav Hv) as [H1 H2]. split; [done|]. by apply H2.
    - exists s1. split; [exact E1|]. split; [intros ->; done|]. split; [done|exact H1]. }
  destruct Hch as (s1 & E1 & Hp1 & Hp1' & Hc1 & Ho1). unfold st_bind at 1. rewrite E1. cbn [res_bind fst snd].
  assert (Hl1 : (Z.to_nat c < length (m_quantum_left (sched s1)))%nat).
  { pose proof (lookup_lt_Some _ _ _ Hc1) as Hl1. destruct (decide (new = cur)) as [e|n];
      [specialize (Hp1 e) as Hq|specialize (Hp1' n) as Hq]; rewrite (bk_running _ (pl_books _ _ Hq)) in Hl1;
      by rewrite (bk_quantum _ (pl_books _ _ Hq)). }
  eexists. split; [apply own_at; unfold st_bind, gets; simpl; apply set_quantum_left_at; [lia|done]|].
  split; [intros Hs; by apply Hst in Hs|]. split; [|done]. intros _. exists new. split; [done|]. split; [done|].
  split; intros Hn; apply placed_quantum; auto.
Qed.

Lemma reschedule_f_returns fuel : resumes fuel.
Proof.
  induction fuel as [|fuel IH]; intros E s time c p Hp Hr Htab Hc HE Hfuel; [lia|].
  destruct (lookup_lt_is_Some_2 (m_core_thread_running (sched s)) (Z.to_nat c)) as [cur Hcur].
  { rewrite (bk_running _ (pl_books _ _ Hp)). lia. }
  destruct (reschedule_f_once fuel E s time c p cur) as (s' & E' & H1 & H2 & H3); [done|done|done|done|done|done|lia|].
  assert (Hd : starting s c ∨ ¬ starting s c).
  { destruct (decide (cur = INVALID_THREAD_ID)); [right; intros (t & ? & ? & ? & _); congruence|].
    destruct (m_thread_state (tm s) !! Z.to_nat cur) as [ts|] eqn:Hts;
      [destruct (decide (status ts = INITIALIZING)); [left; by exists cur, ts|]|]; right;
      intros (t & ts' & Ht & _ & Hts' & Hs'); congruence. }
  assert (HcurE : ∀ t, E t ↔ except E cur t) by (intros t; unfold except; split; [intros Ht; split; [done|intros ->; by eapply HE]|by intros [? _]]).
  exists s'. split; [done|]. split; [|exact H3|exact H1|].
  - destruct Hd as [Hd|Hd]; [by rewrite (H1 Hd)|]. destruct (H2 Hd) as (new & _ & _ & Hs & Hn).
    destruct (decide (new = cur)) as [e|n]; [auto|]. eapply placed_equiv; [|by apply Hn]. intros t. symmetry. apply HcurE.
  - intros Hn. destruct (H2 Hn) as (new & ? & ? & _). eauto.
Qed.
