(* ===== verification/PinnedRuns.v ===== *)
(** Runs of the simulator with a pinned or a roaming scheduler: in every
    state that the services reach, the thread of each core, the core of each
    thread and the tables of the scheduler agree. *)
From S2P Require Import Prelude SubsecondTime System ThreadManager SyncServer SyncFacts SyncFrame SyncProps SyncSpec SchedulerPinned PinnedFacts PinnedProps.
Import Barrier.
Local Open Scope Z_scope.
Implicit Types (x : SchedulerPinnedBase) (s : Sys SchedulerPinnedBase).

(** * The sizes of the tables *)
Record shape x x' : Prop := {
  sh_mask : m_core_mask x' = m_core_mask x;
  sh_runnable : length (m_threads_runnable x') = length (m_threads_runnable x);
  sh_infos : length (m_thread_info x') = length (m_thread_info x) }.
#[export] Instance shape_pre : PreOrder shape.
Proof. split; [by split|]. intros a b c [] []. split; congruence. Qed.
Definition shaped s s' : Prop := shape (sched s) (sched s').
#[export] Instance shaped_pre : PreOrder shaped.
Proof. unfold shaped. split; [intros s; reflexivity|]. intros a b c ? ?. by etrans. Qed.

Create HintDb shape.
Lemma own_shaped {A} (m : st SchedulerPinnedBase A) : does shape m → does shaped (own m).
Proof. intros Hm s a s' He. apply zoom_Ok in He as (y & E & ->). unfold shaped. simpl. by eapply Hm. Qed.
Lemma same_sched_shaped {A} (m : st (Sys SchedulerPinnedBase) A) :
  (∀ s a s', m s = Ok (a, s') → sched s' = sched s) → does shaped m.
Proof. intros Hm s a s' He. unfold shaped. by rewrite (Hm _ _ _ He). Qed.

Lemma upd_info_shape t f : does shape (upd_info t f).
Proof.
  intros y a y' He. unfold upd_info, info_of in He. inv_st. match goal with H : updz _ _ _ = Ok _ |- _ => apply updz_Ok in H as (? & _ & _ & ->) end.
  split; try done. simpl. by rewrite length_insert.
Qed.
Lemma set_running_on_shape c t : does shape (set_running_on c t).
Proof. intros y a y' He. unfold set_running_on in He. inv_st. done. Qed.
Lemma set_quantum_left_shape c t : does shape (set_quantum_left c t).
Proof. intros y a y' He. unfold set_quantum_left in He. inv_st. done. Qed.
Lemma set_runnable_shape t b : does shape (set_runnable t b).
Proof.
  intros y a y' He. unfold set_runnable in He. inv_st. match goal with H : updz _ _ _ = Ok _ |- _ => apply updz_Ok in H as (? & _ & _ & ->) end.
  split; try done. simpl. by rewrite length_insert.
Qed.
Lemma info_of_shape t : does shape (info_of t).
Proof. intros y a y' He. unfold info_of in He. by inv_st. Qed.
Lemma running_on_shape t : does shape (running_on t).
Proof. intros y a y' He. unfold running_on in He. by inv_st. Qed.
Lemma findFree_shape t : does shape (findFreeCoreForThread t).
Proof. intros y a y' He. unfold findFreeCoreForThread, info_of in He. by inv_st. Qed.
#[export] Hint Resolve upd_info_shape set_running_on_shape set_quantum_left_shape set_runnable_shape info_of_shape
  running_on_shape findFree_shape own_shaped : shape.

Lemma upd_core_shaped c f : does shaped (upd_core c f).
Proof. apply same_sched_shaped. intros s a s' He. unfold upd_core in He. by inv_st. Qed.
Lemma upd_thread_shaped c f : does shaped (upd_thread c f).
Proof. apply same_sched_shaped. intros s a s' He. unfold upd_thread in He. by inv_st. Qed.
Lemma upd_state_shaped c f : does shaped (upd_state c f).
Proof. apply same_sched_shaped. intros s a s' He. unfold upd_state in He. by inv_st. Qed.
Lemma get_state_shaped c : does shaped (get_state c).
Proof. apply same_sched_shaped. intros s a s' He. unfold get_state in He. by inv_st. Qed.
Lemma getThread_shaped c : does shaped (getThreadFromID c).
Proof. apply same_sched_shaped. intros s a s' He. unfold getThreadFromID in He. by inv_st. Qed.
Lemma getCore_shaped c : does shaped (getCoreFromID c).
Proof. apply same_sched_shaped. intros s a s' He. unfold getCoreFromID in He. by inv_st. Qed.
Lemma on_bss_shaped {A} (m : st BarrierSyncServer A) : does shaped (on_bss m).
Proof. apply same_sched_shaped. intros s a s' He. apply zoom_Ok in He as (y & _ & ->). done. Qed.
#[export] Hint Resolve upd_core_shaped upd_thread_shaped upd_state_shaped get_state_shaped getThread_shaped
  getCore_shaped on_bss_shaped : shape.

Ltac solve_shape :=
  repeat match goal with
  | |- does _ (st_bind _ _) => apply (does_bind _); [|intros ?]
  | |- does _ (ret _) => apply (does_ret _)
  | |- does _ (gets _) => apply (does_gets _)
  | |- does _ (lift _) => apply (does_lift _)
  | |- does _ (fail _) => apply (does_fail _)
  | |- does _ (forM_ _ _) => apply (does_forM _); intros ?
  | |- does _ (match ?x with _ => _ end) => destruct x
  | |- does shaped (own _) => apply own_shaped
  | |- does _ _ => solve [eauto with shape]
  end.

Lemma moveThread_shaped f t c time : (∀ t b n, does shaped (f t b n)) → does shaped (moveThread f t c time).
Proof.
  intros Hf. unfold moveThread, setCore, resumeThread, resumeThread_async, signal, hook_migrate. solve_shape.
Qed.
Lemma reschedule_f_shaped fuel time c p : does shaped (reschedule_f fuel time c p).
Proof.
  revert time c p. induction fuel as [|fuel IH]; intros time c p; simpl; [solve_shape|].
  assert (Hm : ∀ t c, does shaped (moveThread (threadResume_by (reschedule_f fuel)) t c time)).
  { intros t d. apply moveThread_shaped. intros t' b n. unfold threadResume_by. solve_shape. }
  unfold isThreadInitializing. solve_shape.
Qed.
Lemma reschedule_shaped time c p : does shaped (reschedule time c p).
Proof. unfold reschedule. apply (does_bind _); [solve_shape|]. intros fuel. apply reschedule_f_shaped. Qed.
#[export] Hint Resolve reschedule_shaped : shape.

(** * The invariant of runs *)
Definition settled_in : Z → Prop := λ _, False.
(** The tables grow by blocks of sixteen; that of the runnable threads starts
    with one block, the other one without any. *)
Record blocks x : Prop := {
  bl_infos : (length (m_thread_info x) mod 16 = 0)%nat;
  bl_runnable : (length (m_threads_runnable x) mod 16 = 0)%nat;
  bl_tables : (length (m_threads_runnable x) ≤ 16 `max` length (m_thread_info x))%nat }.
Definition pinned_inv s : Prop := placed settled_in s ∧ ready s ∧ blocks (sched s).
Definition kept s s' : Prop := pinned_inv s → pinned_inv s'.
#[export] Instance kept_pre : PreOrder kept.
Proof. split; [by intros s Hs|]. intros a b c H1 H2 Ha. auto. Qed.

Lemma blocks_shape x x' : blocks x → shape x x' → blocks x'.
Proof. intros [B1 B2 B3] [_ H2 H3]. split; by rewrite ?H2, ?H3. Qed.
Lemma blocks_tabled x n : blocks x → (n < length (m_thread_info x))%nat → tabled x.
Proof.
  intros [[a Ha]%Nat.Div0.mod_divides _ B3] Hn. unfold tabled. lia.
Qed.

(** ** Rescheduling *)
Lemma reschedule_returns time c p s :
  placed settled_in s → ready s → tabled (sched s) → 0 ≤ c < Z.of_nat (app_cores (sched s)) →
  ∃ s', reschedule time c p s = Ok (tt, s') ∧ rescheduled settled_in time c s s'.
Proof.
  intros Hp Hr Htab Hc. change (reschedule time c p s) with (reschedule_f (S (S (app_cores (sched s)))) time c p s).
  apply reschedule_f_returns; [done|done|done|done|by intros t _ []|].
  pose proof (free_le (<[Z.to_nat c := 0%Z]> (m_core_thread_running (sched s)))) as Hf.
  rewrite length_insert, (bk_running _ (pl_books _ _ Hp)) in Hf. lia.
Qed.
Lemma running_core_range s c t :
  placed settled_in s → m_core_thread_running (sched s) !! c = Some t → 0 ≤ Z.of_nat c < Z.of_nat (app_cores (sched s)).
Proof. intros Hp Hc%lookup_lt_Some. rewrite (bk_running _ (pl_books _ _ Hp)) in Hc. lia. Qed.

(** A successful call is for a core of the machine. *)
Lemma reschedule_range time c p s s' :
  placed settled_in s → reschedule time c p s = Ok (tt, s') → 0 ≤ c < Z.of_nat (app_cores (sched s)).
Proof.
  intros Hp He. unfold reschedule in He. apply st_bind_Ok in He as (fuel & s1 & [= <- <-] & He).
  rewrite reschedule_f_eq in He. apply st_bind_Ok in He as (cur & s1 & E & _). apply zoom_Ok in E as (y & E & _).
  unfold running_on in E. apply st_bind_Ok in E as (l & y1 & [= <- <-] & E). apply lift_Ok in E as [E _].
  apply rdz_Ok in E as [H0 Hc]. apply running_core_range in Hc; [|done]. lia.
Qed.
Lemma reschedule_tabled time c p s s' :
  reschedule time c p s = Ok (tt, s') → tabled (sched s) ∨ s' = s.
Proof.
  intros He. unfold reschedule in He. apply st_bind_Ok in He as (fuel & s1 & [= <- <-] & He).
  rewrite reschedule_f_eq in He. apply st_bind_Ok in He as (cur & s1 & E & He). apply zoom_Ok in E as (y & E & ->).
  unfold running_on in E. apply st_bind_Ok in E as (l & y1 & [= <- <-] & [_ ->]%lift_Ok). rewrite put_sched_id in He.
  apply st_bind_Ok in He as (b & s1 & E & He).
  assert (s1 = s) as ->. { destruct (negb (cur =? INVALID_THREAD_ID)); [|by apply ret_Ok in E as [_ ->]]. unfold isThreadInitializing in E.
    apply st_bind_Ok in E as (ts & s2 & (-> & _)%get_state_Ok & [= _ <-]). done. }
  destruct b; [right; by apply ret_Ok in He as [_ ->]|left]. apply st_bind_Ok in He as (x & s1 & [= <- <-] & He).
  apply st_bind_Ok in He as (new & s1 & [E' ->]%lift_Ok & _). by eapply select_length.
Qed.
Lemma reschedule_kept time c p : does kept (reschedule time c p).
Proof.
  intros s [] s' He (Hp & Hr & Hb). pose proof (reschedule_range _ _ _ _ _ Hp He) as Hc.
  destruct (reschedule_tabled _ _ _ _ _ He) as [Htab| ->]; [|done].
  destruct (reschedule_returns time c p s Hp Hr Htab Hc) as (s2 & E & Hs). rewrite He in E. injection E as <-.
  split; [apply Hs|]. split; [by eapply ready_moved, reschedule_moved; [|exact He]|].
  eapply blocks_shape; [exact Hb|]. by eapply (reschedule_shaped time c p).
Qed.

(** ** Changes of the scheduler's state *)
Lemma own_kept {A} (m : st SchedulerPinnedBase A) :
  (∀ s a y, pinned_inv s → m (sched s) = Ok (a, y) → placed settled_in (put_sched y s) ∧ blocks y) →
  does kept (own m).
Proof.
  intros Hm s a s' He Hi. apply zoom_Ok in He as (y & E & ->). destruct (Hm s a y Hi E) as [Hp Hb].
  split; [done|]. split; [by apply ready_sched, Hi|done].
Qed.
Lemma own_read_kept {A} (m : st SchedulerPinnedBase A) : does eq m → does kept (own m).
Proof.
  intros Hm. apply own_kept. intros s a y (Hp & _ & Hb) E. rewrite <- (Hm _ _ _ E). by rewrite put_sched_id.
Qed.
Lemma set_quantum_kept c q : does kept (own (set_quantum_left c q)).
Proof.
  apply own_kept. intros s a y (Hp & _ & Hb) E. unfold set_quantum_left in E. inv_st.
  match goal with H : updz _ _ _ = Ok _ |- _ => apply updz_Ok in H as (u & H0 & Hu & ->) end.
  split; [by apply placed_quantum|]. eapply blocks_shape; [exact Hb|]. by split.
Qed.
Lemma set_runnable_kept t b s s' u :
  own (set_runnable t b) s = Ok (u, s') → pinned_inv s → (b = true → (Z.to_nat t < length (homes s))%nat) →
  pinned_inv s'.
Proof.
  intros He (Hp & Hr & Hb) Ht. apply zoom_Ok in He as (y & E & ->). unfold set_runnable in E. inv_st.
  match goal with H : updz _ _ _ = Ok _ |- _ => apply updz_Ok in H as (v & H0 & Hu & ->) end.
  split; [by apply placed_runnable|]. split; [by apply ready_sched|]. eapply blocks_shape; [exact Hb|].
  split; [done|apply length_insert|done].
Qed.
Lemma put_periodic_kept b f : does kept (own (modify (λ x, put_periodic b (f x) x))).
Proof.
  apply own_kept. intros s a y (Hp & _ & Hb) [= <- <-]. split; [|by eapply blocks_shape].
  destruct Hp as [[] ? ? ? ? ? ? ? ?]. by split.
Qed.

Create HintDb kept.
#[export] Hint Resolve reschedule_kept set_quantum_kept put_periodic_kept : kept.

Lemma info_of_kept t : does kept (own (info_of t)).
Proof. apply own_read_kept. intros y a y' He. unfold info_of in He. by inv_st. Qed.
Lemma running_on_kept t : does kept (own (running_on t)).
Proof. apply own_read_kept. intros y a y' He. unfold running_on in He. by inv_st. Qed.
Lemma findFree_kept t : does kept (own (findFreeCoreForThread t)).
Proof. apply own_read_kept. intros y a y' He. unfold findFreeCoreForThread, info_of in He. by inv_st. Qed.
Lemma not_runnable_kept t : does kept (own (set_runnable t false)).
Proof. intros s u s' He Hi. by eapply set_runnable_kept. Qed.
#[export] Hint Resolve info_of_kept running_on_kept findFree_kept not_runnable_kept : kept.

(** ** Changes outside the scheduler *)
Lemma kept_same s s' :
  sched s' = sched s → homes s' = homes s → places s' = places s →
  length (m_thread_state (tm s')) = length (m_thread_state (tm s)) → (ready s → ready s') → kept s s'.
Proof.
  intros H1 H2 H3 H4 H5 (Hp & Hr & Hb). split; [|split; [auto|by rewrite H1]].
  destruct Hp as [G0 G1 G2 G3 G4 G5 G6 G7 G8]. split; rewrite ?H1, ?H2, ?H3, ?H4; done.
Qed.
Lemma ready_same s s' : m_thread_state (tm s') = m_thread_state (tm s) → bss s' = bss s → ready s → ready s'.
Proof. intros H1 H2 [Hr Hb]. split; congruence. Qed.
Lemma upd_state_kept t f :
  (∀ ts, (status ts = STALLED → is_Some (stalled_reason ts)) → status (f ts) = STALLED → is_Some (stalled_reason (f ts))) →
  does kept (upd_state t f).
Proof.
  intros Hf s u s' (ts & H0 & Hts & ->)%upd_state_Ok. apply kept_same; simpl; [done..|by rewrite length_insert|].
  intros [Hr Hb]. split; [|done]. simpl. apply Forall_insert; [done|]. apply Hf. by apply (Forall_lookup_1 _ _ _ _ Hr Hts).
Qed.
Lemma upd_thread_kept t f : (∀ th, m_core (f th) = m_core th) → does kept (upd_thread t f).
Proof.
  intros Hf s u s' (th & H0 & Hth & ->)%upd_thread_Ok. apply kept_same; [done| |done|done|by apply ready_same].
  rewrite homes_insert, Hf. apply list_insert_id. unfold homes. by rewrite list_lookup_fmap, Hth.
Qed.
Lemma upd_core_kept c f : (∀ co, c_thread (f co) = c_thread co) → does kept (upd_core c f).
Proof.
  intros Hf s u s' He. unfold upd_core in He. inv_st.
  match goal with H : updz _ _ _ = Ok _ |- _ => apply updz_Ok in H as (co & H0 & Hco & ->) end.
  apply kept_same; [done|done| |done|by apply ready_same]. by apply (places_same _ co).
Qed.
Lemma signal_kept t time msg : does kept (signal t time msg).
Proof.
  unfold signal. apply (does_bind _); [|intros th; by apply upd_thread_kept].
  intros s a s' He. unfold getThreadFromID in He. inv_st. done.
Qed.
Lemma getThread_kept t : does kept (getThreadFromID t).
Proof. intros s a s' He. unfold getThreadFromID in He. inv_st. done. Qed.
Lemma getCore_kept t : does kept (getCoreFromID t).
Proof. intros s a s' He. unfold getCoreFromID in He. inv_st. done. Qed.
Lemma get_state_kept t : does kept (get_state t).
Proof. intros s a s' He. unfold get_state in He. inv_st. done. Qed.
Lemma put_sync_kept g : does kept (modify (λ s, put_sync (g s) s)).
Proof. apply (does_modify _). intros s. apply kept_same; [done..|by apply ready_same]. Qed.
Lemma put_sysc_kept g : does kept (modify (λ s, put_sysc (g s) s)).
Proof. apply (does_modify _). intros s. apply kept_same; [done..|by apply ready_same]. Qed.
Lemma put_mem_kept g : does kept (modify (λ s, put_mem (g s) s)).
Proof. apply (does_modify _). intros s. apply kept_same; [done..|by apply ready_same]. Qed.
Lemma put_spawn_kept (g : Sys SchedulerPinnedBase → list ThreadSpawnRequest) :
  does kept (modify (λ s, put_tm (put_spawn (g s) (tm s)) s)).
Proof. apply (does_modify _). intros s. apply kept_same; [done..|by apply ready_same]. Qed.
#[export] Hint Resolve signal_kept getThread_kept getCore_kept get_state_kept put_sync_kept put_sysc_kept
  put_mem_kept put_spawn_kept : kept.
#[export] Hint Extern 1 (does kept (upd_state _ _)) => apply upd_state_kept; by (intros []; simpl; eauto) : kept.
#[export] Hint Extern 1 (does kept (upd_thread _ _)) => by apply upd_thread_kept : kept.
#[export] Hint Extern 1 (does kept (upd_core _ _)) => by apply upd_core_kept : kept.

Definition bss_kept (b b' : BarrierSyncServer) : Prop := bss_ok b → bss_ok b'.
#[export] Instance bss_kept_pre : PreOrder bss_kept.
Proof. split; [by intros b Hb|]. intros a b c H1 H2 Ha. auto. Qed.
Lemma on_bss_kept {A} (m : st BarrierSyncServer A) : does bss_kept m → does kept (on_bss m).
Proof.
  intros Hm s a s' He. apply zoom_Ok in He as (b & E & ->). apply kept_same; [done..|].
  intros [Hr Hb]. split; [done|]. by eapply Hm.
Qed.

Ltac solve_kept :=
  repeat match goal with
  | |- does _ (st_bind _ _) => apply (does_bind _); [|intros ?]
  | |- does _ (ret _) => apply (does_ret _)
  | |- does _ (gets _) => apply (does_gets _)
  | |- does _ (lift _) => apply (does_lift _)
  | |- does _ (fail _) => apply (does_fail _)
  | |- does _ (forM_ _ _) => apply (does_forM _); intros ?
  | |- does _ (match ?x with _ => _ end) => destruct x
  | |- does _ _ => solve [eauto with kept]
  end.

(** ** The calls of the scheduler *)
Lemma threadStall_kept t r time : does kept (threadStall t r time).
Proof. unfold threadStall, reschedule_core_of. solve_kept. Qed.
Lemma periodic_kept time : does kept (periodic time).
Proof. unfold periodic. solve_kept. Qed.
Lemma threadYield_kept t : does kept (threadYield t).
Proof. unfold threadYield. solve_kept. Qed.
#[export] Hint Resolve threadStall_kept periodic_kept threadYield_kept : kept.

Lemma threadResume_kept t by' time s s' u :
  threadResume t by' time s = Ok (u, s') → (Z.to_nat t < length (homes s))%nat → kept s s'.
Proof.
  intros He Ht Hi. unfold threadResume, threadResume_by in He. apply st_bind_Ok in He as ([] & s1 & E1 & He).
  assert (Hi1 : pinned_inv s1) by (by eapply set_runnable_kept). revert Hi1.
  match type of He with ?m s1 = _ => assert (Hm : does kept m) by solve_kept end. by eapply Hm.
Qed.
Lemma resume_kept t by' time msg : does kept (resume t by' time msg).
Proof.
  intros s [] s' He. unfold resume, resumeThread, resumeThread_async in He.
  apply st_bind_Ok in He as ([] & s1 & E1 & He). apply st_bind_Ok in He as ([] & s2 & E2 & He).
  assert (K1 : kept s s1) by exact (signal_kept _ _ _ _ _ _ E1).
  assert (K2 : kept s1 s2) by (refine (upd_state_kept t (set_status RUNNING) _ _ _ _ E2); by intros []).
  assert (K3 : kept s2 s'); [|exact (λ Hi, K3 (K2 (K1 Hi)))].
  eapply (threadResume_kept t by'); [exact He|]. unfold signal in E1. apply st_bind_Ok in E1 as (th & s0 & E0 & E1).
  apply getThreadFromID_Ok in E0 as (-> & _). apply upd_thread_Ok in E1 as (th' & _ & Hth & ->).
  apply upd_state_Ok in E2 as (ts & _ & _ & ->). unfold homes. simpl. rewrite length_fmap, length_insert.
  by eapply lookup_lt_Some.
Qed.
#[export] Hint Resolve resume_kept : kept.

(** ** The barrier server *)
Lemma bss_kept_moved {A} (m : st BarrierSyncServer A) : does bss_moved m → does bss_kept m.
Proof. intros Hm b a b' He Hb. eapply bss_ok_moved; [exact Hb|by eapply Hm]. Qed.
Lemma put_times_bss n g b : bss_kept b (put_times n g b).
Proof. by intros []. Qed.
Lemma modify_bss f : (∀ b, bss_kept b (f b)) → does bss_kept (modify f).
Proof. intros Hf. by apply (does_modify _). Qed.
Lemma put_release_perm b l : l ≡ₚ m_to_release b → bss_kept b (put_release l (m_core_cond b) b).
Proof. intros Hl []. split; try done. simpl. by rewrite Hl. Qed.
Lemma release_cores_bss caller ids r m : does bss_kept (release_cores caller ids r m).
Proof.
  revert r m. induction ids as [|c ids IH]; intros r m; simpl; [apply (does_ret _)|].
  intros b [r' m'] b' He. apply st_bind_Ok in He as (b0 & b1 & [= <- <-] & He).
  apply st_bind_Ok in He as (clock & b1 & [Ec ->]%lift_Ok & He). apply rdz_Ok in Ec as [H0 Hc].
  apply st_bind_Ok in He as (acq & b1 & [Ea ->]%lift_Ok & He). simpl in *.
  assert (Hin : 0 ≤ c < Z.of_nat (num_cores b)) by (apply lookup_lt_Some in Hc; unfold num_cores; lia).
  case_match; [|by eapply IH]. apply st_bind_Ok in He as (l & b1 & [El ->]%lift_Ok & He).
  apply updz_Ok in El as (a & _ & _ & ->). apply st_bind_Ok in He as ([] & b1 & [= <-] & He).
  apply st_bind_Ok in He as (t & b1 & [Et ->]%lift_Ok & He).
  intros Hb. assert (Hb1 : bss_ok (put_acquire (<[Z.to_nat c := false]> (m_barrier_acquire_list b)) b)).
  { destruct Hb. split; try done. simpl. by rewrite length_insert. }
  case_match; [by eapply IH|]. apply st_bind_Ok in He as ([] & b1 & [= <-] & He). eapply IH; [exact He|].
  destruct Hb1. split; try done. simpl. apply Forall_app. split; [done|]. by constructor.
Qed.

Section Services.
Context `{HH : Host} `{!HostOk}.

Lemma hook_migrate_kept t : does kept (hook_migrate t).
Proof. unfold hook_migrate. apply on_bss_kept, bss_kept_moved, releaseThread_moved. Qed.
Lemma doRelease_kept n : does kept (on_bss (doRelease n)).
Proof. apply on_bss_kept, bss_kept_moved, doRelease_moved. Qed.
Lemma releaseThread_kept t : does kept (on_bss (releaseThread t)).
Proof. apply on_bss_kept, bss_kept_moved, releaseThread_moved. Qed.
Lemma put_times_kept f g : does kept (on_bss (modify (λ b, put_times (f b) (g b) b))).
Proof. apply on_bss_kept, modify_bss. intros b. apply put_times_bss. Qed.
Lemma release_cores_kept caller ids r m : does kept (on_bss (release_cores caller ids r m)).
Proof. apply on_bss_kept, release_cores_bss. Qed.
Lemma shuffle_kept :
  does kept (on_bss (modify (λ b, put_release (random_shuffle (m_to_release b)) (m_core_cond b) b))).
Proof. apply on_bss_kept, modify_bss. intros b. apply put_release_perm, random_shuffle_perm. Qed.
Hint Resolve hook_migrate_kept doRelease_kept releaseThread_kept put_times_kept release_cores_kept shuffle_kept : kept.
Lemma wakeTimedOut_kept a time : does kept (wakeTimedOut a time).
Proof. unfold wakeTimedOut. solve_kept. Qed.
Hint Resolve wakeTimedOut_kept : kept.
Lemma hook_periodic_kept time : does kept (hook_periodic time).
Proof. unfold hook_periodic, futexPeriodic. simpl. solve_kept. Qed.
Hint Resolve hook_periodic_kept : kept.
Lemma anyThreadRunning_kept : does kept anyThreadRunning.
Proof. apply (does_gets _). Qed.
Hint Resolve anyThreadRunning_kept : kept.
Lemma advance_until_resumed_kept fuel c b : does kept (advance_until_resumed fuel c b).
Proof.
  induction fuel as [|fuel IH]; simpl; [solve_kept|].
  apply (does_bind _); [solve_kept|intros next]. apply (does_bind _); [apply (put_times_kept (λ _, next) (λ _, next))|intros ?].
  solve_kept.
Qed.
Hint Resolve advance_until_resumed_kept : kept.
Lemma barrierRelease_kept c b : does kept (barrierRelease c b).
Proof.
  unfold barrierRelease. apply (does_bind _); [solve_kept|intros b0]. apply (does_bind _); [solve_kept|intros ?].
  apply (does_bind _); [|intros ?; solve_kept]. case_match; [|solve_kept]. apply (put_times_kept (λ _, _) (λ _, _)).
Qed.
Hint Resolve barrierRelease_kept : kept.
Lemma bss_threadStop_kept t : does kept (bss_threadStop t).
Proof. unfold bss_threadStop, bss_signal. solve_kept. Qed.
Hint Resolve bss_threadStop_kept : kept.
Lemma synchronize_kept c time : does kept (synchronize c time).
Proof.
  unfold synchronize. apply (does_bind _); [solve_kept|intros b]. case_match; [solve_kept|].
  apply (does_bind _); [solve_kept|intros core]. apply (does_bind _); [solve_kept|intros master].
  apply (does_bind _); [solve_kept|intros me]. apply (does_bind _); [solve_kept|intros ?].
  apply (does_bind _); [solve_kept|intros acq]. apply (does_bind _); [solve_kept|intros ?].
  case_match; [solve_kept|]. apply (does_bind _).
  - apply on_bss_kept. apply (does_bind _); [apply bss_kept_moved, doRelease_moved|intros ?].
    intros b1 u1 b2 He Hb. inv_st. repeat match goal with H : updz _ _ _ = Ok _ |- _ => apply updz_Ok in H as (? & _ & _ & ->) end.
    destruct Hb. split; unfold num_cores in *; simpl; rewrite ?length_insert; done.
  - intros ?. apply (does_bind _); [solve_kept|intros s]. apply (does_bind _); [solve_kept|intros reached].
    apply (does_bind _); [solve_kept|intros mw]. case_match; [|solve_kept]. apply (does_bind _); [|intros ?; solve_kept].
    apply on_bss_kept. intros b1 u1 b2 He Hb. inv_st.
    match goal with H : updz _ _ _ = Ok _ |- _ => apply updz_Ok in H as (? & _ & _ & ->) end.
    destruct Hb. split; unfold num_cores in *; simpl; rewrite ?length_insert; done.
Qed.
Lemma advance_until_running_kept fuel : does kept (advance_until_running fuel).
Proof. induction fuel as [|fuel IH]; simpl; unfold advance; solve_kept. Qed.
Hint Resolve advance_until_running_kept : kept.
Lemma stallThread_async_kept t r time : does kept (stallThread_async t r time).
Proof. unfold stallThread_async, hook_stall. simpl. solve_kept. Qed.
Hint Resolve stallThread_async_kept : kept.
Lemma stallThread_kept t r time : does kept (stallThread t r time).
Proof. unfold stallThread. solve_kept. Qed.
Hint Resolve stallThread_kept : kept.

(** ** The services *)
Lemma put_mutex_kept mux m : does kept (put_mutex mux m).
Proof. apply put_sync_kept. Qed.
Lemma put_cond_kept c l : does kept (put_cond c l).
Proof. apply put_sync_kept. Qed.
Hint Resolve put_mutex_kept put_cond_kept : kept.
Lemma getMutex_keeps mux b : does kept (getMutex mux b).
Proof. unfold getMutex. solve_kept. Qed.
Lemma getCond_keeps c : does kept (getCond c).
Proof. unfold getCond. solve_kept. Qed.
Lemma lock_async_kept mux t by' time : does kept (lock_async mux t by' time).
Proof. unfold lock_async. solve_kept. Qed.
Lemma mutex_unlock_kept mux m t time : does kept (mutex_unlock mux m t time).
Proof. unfold mutex_unlock. solve_kept. Qed.
Lemma upd_barrier_kept b f : does kept (upd_barrier b f).
Proof. unfold upd_barrier. solve_kept. Qed.
Hint Resolve getMutex_keeps getCond_keeps lock_async_kept mutex_unlock_kept upd_barrier_kept : kept.
Lemma broadcast_kept c l t time : does kept (broadcast_loop c l t time).
Proof. induction l as [|w l IH]; simpl; solve_kept. Qed.
Lemma barrier_release_kept b l t time : does kept (barrier_release b l t time).
Proof. induction l as [|w l IH]; simpl; solve_kept. Qed.
Hint Resolve broadcast_kept barrier_release_kept : kept.
Lemma put_futex_kept a l : does kept (put_futex a l).
Proof. apply put_sysc_kept. Qed.
Hint Resolve put_futex_kept : kept.

Lemma findFutex_kept a t : does kept (findFutexByUaddr a t).
Proof. unfold findFutexByUaddr. solve_kept. Qed.
Lemma applyRescheduleCost_kept t b : does kept (applyRescheduleCost t b).
Proof. unfold applyRescheduleCost. solve_kept. Qed.
Lemma dequeueWaiter_kept a by' mask time : does kept (dequeueWaiter a by' mask time).
Proof. unfold dequeueWaiter. solve_kept. Qed.
Lemma requeueWaiter_kept a b : does kept (requeueWaiter a b).
Proof. unfold requeueWaiter. solve_kept. Qed.
Hint Resolve findFutex_kept applyRescheduleCost_kept dequeueWaiter_kept requeueWaiter_kept : kept.
Lemma wakeFutexOne_kept a by' mask time : does kept (wakeFutexOne a by' mask time).
Proof. unfold wakeFutexOne. solve_kept. Qed.
Hint Resolve wakeFutexOne_kept : kept.
Lemma wake_loop_kept n m k : does kept m → does kept (wake_loop n m k).
Proof. intros Hm. revert k. induction n as [|n IH]; intros k; simpl; solve_kept. Qed.
Lemma requeue_loop_kept fuel a b : does kept (requeue_loop fuel a b).
Proof. induction fuel as [|fuel IH]; simpl; solve_kept. Qed.
Hint Resolve wake_loop_kept requeue_loop_kept : kept.
Lemma futexWake_kept t a n mask time : does kept (futexWake t a n mask time).
Proof. unfold futexWake. solve_kept. Qed.
Lemma wakeUpWaiter_kept t time : does kept (wakeUpWaiter t time).
Proof. unfold wakeUpWaiter. solve_kept. Qed.
Hint Resolve futexWake_kept wakeUpWaiter_kept : kept.
Lemma handleFutexCall_kept start t args time : does kept (handleFutexCall start t args time).
Proof.
  unfold handleFutexCall, futexWait, enqueueWaiter, futexWakeOp, futexDoOp, futexCmpRequeue. solve_kept.
Qed.
Hint Resolve handleFutexCall_kept : kept.

Lemma serve_kept t c : c ≠ Exit → (∀ g app, c ≠ Spawn g app) → does kept (serve t c).
Proof.
  intros He Hs. destruct c; simpl; try done; try (exfalso; by eapply Hs);
    unfold discard, mutexInit, mutexLock, mutex_lock, mutexUnlock, condInit, condWait, cond_wait,
      condSignal, cond_signal, condBroadcast, barrierInit, barrierWait, handleSleepCall, waitForThreadStart, joinThread;
    solve_kept.
Qed.

(** ** The exit of a thread *)

(** No thread starts. *)
Definition noinit s s' : Prop := ∀ t ts', m_thread_state (tm s') !! t = Some ts' → status ts' = INITIALIZING →
  ∃ ts, m_thread_state (tm s) !! t = Some ts ∧ status ts = INITIALIZING.
#[local] Instance noinit_pre : PreOrder noinit.
Proof. split; [intros s t ts; eauto|]. intros a b c H1 H2 t ts Ht Hs. destruct (H2 t ts Ht Hs) as (ts' & Ht' & Hs'). eauto. Qed.
Lemma noinit_same {A} (m : st SP A) :
  (∀ s a s', m s = Ok (a, s') → m_thread_state (tm s') = m_thread_state (tm s)) → does noinit m.
Proof. intros Hm s a s' He t ts. rewrite (Hm _ _ _ He). eauto. Qed.
Lemma upd_state_noinit t f : (∀ ts, status (f ts) = INITIALIZING → status ts = INITIALIZING) → does noinit (upd_state t f).
Proof.
  intros Hf s u s' (ts & H0 & Hts & ->)%upd_state_Ok k ts'. simpl.
  intros [[<- [<- _]]|[_ Hk]]%list_lookup_insert_Some Hs; eauto.
Qed.
Lemma resume_noinit t by' time msg : does noinit (resume t by' time msg).
Proof.
  unfold resume, resumeThread, resumeThread_async, signal. apply (does_bind _).
  - apply noinit_same. intros s a s' He. unfold getThreadFromID, upd_thread in He. by inv_st.
  - intros ?. apply (does_bind _); [by apply upd_state_noinit|]. intros ?. intros s v s' He k ts' Hk Hs.
    apply sch_resume_ok in He. destruct (Forall2_lookup_r _ _ _ _ _ (mv_states _ _ He) Hk) as (ts & Ht & Hm).
    destruct Hm as [->|(_ & _ & ->)]; [eauto|done].
Qed.
Lemma get_state_noinit t : does noinit (get_state t).
Proof. apply noinit_same. intros s a s' He. unfold get_state in He. by inv_st. Qed.
Lemma getThread_noinit t : does noinit (getThreadFromID t).
Proof. apply noinit_same. intros s a s' He. unfold getThreadFromID in He. by inv_st. Qed.
Lemma getCore_noinit t : does noinit (getCoreFromID t).
Proof. apply noinit_same. intros s a s' He. unfold getCoreFromID in He. by inv_st. Qed.
Lemma put_futex_noinit a l : does noinit (put_futex (X:=SchedulerPinnedBase) a l).
Proof. apply noinit_same. by intros s u s' [= <- <-]. Qed.
Hint Resolve resume_noinit get_state_noinit getThread_noinit getCore_noinit put_futex_noinit : kept.
Hint Extern 1 (does noinit (upd_state _ _)) => by apply upd_state_noinit : kept.
Lemma wake_loop_noinit n m k : does noinit m → does noinit (wake_loop n m k).
Proof. intros Hm. revert k. induction n as [|n IH]; intros k; simpl; solve_kept. Qed.
Lemma wakeUpWaiter_noinit t time : does noinit (wakeUpWaiter t time).
Proof. unfold wakeUpWaiter. solve_kept. Qed.
Hint Resolve wake_loop_noinit wakeUpWaiter_noinit : kept.
Lemma futexWake_noinit t a n mask time : does noinit (futexWake t a n mask time).
Proof.
  unfold futexWake. apply (does_bind _); [unfold findFutexByUaddr; solve_kept|intros address].
  apply (does_bind _); [|intros k; unfold applyRescheduleCost; solve_kept].
  apply wake_loop_noinit. unfold wakeFutexOne, applyRescheduleCost, dequeueWaiter. solve_kept.
Qed.

Lemma length_vacate h p : length (vacate h p) = length p.
Proof. destruct h; [apply length_insert|done]. Qed.

(** The thread gives up its core before the scheduler knows. *)
Lemma setCore_leaves t s u s' :
  pinned_inv s → setCore t None s = Ok (u, s') →
  ∃ P : Prop, placed (λ k, k = t ∧ P) s' ∧ ready s' ∧ sched s' = sched s ∧
    m_thread_state (tm s') = m_thread_state (tm s) ∧ 0 ≤ t.
Proof.
  intros (Hp & Hr & Hb) He. assert (Hv : 0 ≤ t ∧ ∃ h, homes s !! Z.to_nat t = Some h).
  { unfold setCore in He. apply st_bind_Ok in He as (th & s1 & E & _). apply getThreadFromID_Ok in E as (_ & H0 & Hth).
    split; [done|]. unfold homes. rewrite list_lookup_fmap, Hth. simpl. eauto. }
  destruct Hv as (H0 & h & Hh). exists (h ≠ None).
  destruct (setCore_None t h s) as (s2 & E & Hs & Hst & Hbs & Hh' & Hp'); [done|done|apply Hp|].
  rewrite He in E. injection E as _ <-. split; [|split; [|done]]; [|by eapply ready_same].
  pose proof Hp as [Hbk G1 G2 G3 G4 G5 G6 G7 G8].
  split; rewrite ?Hs, ?Hst, ?Hh', ?Hp', ?length_vacate, ?length_insert; try done.
  - destruct h as [c|]; [by apply consistent_out|]. by rewrite list_insert_id.
  - intros k i hk Hi Hk Hn. apply list_lookup_insert_Some in Hk as [[<- [<- _]]|[Hne Hk]].
    + rewrite Z2Nat.id in Hn by done. destruct h as [c|]; [by destruct Hn|]. apply (G7 (Z.to_nat t)); [done|done|by intros []].
    + apply (G7 k); [done|done|by intros []].
  - intros k [-> Hne]. split; [done|]. rewrite list_lookup_insert_eq by (by eapply lookup_lt_Some). split; [done|].
    destruct (lookup_lt_is_Some_2 (m_thread_info (sched s)) (Z.to_nat t)) as [i Hi]; [apply lookup_lt_Some in Hh; lia|].
    exists i. split; [done|]. pose proof (G7 _ _ _ Hi Hh ltac:(by intros [])) as Hbi. unfold booked in Hbi.
    destruct (isRunning i); [done|]. by subst h.
Qed.

Lemma threadExit_settles t time (P : Prop) s u s' :
  placed (λ k, k = t ∧ P) s → ready s → blocks (sched s) → 0 ≤ t →
  (∀ ts, m_thread_state (tm s) !! Z.to_nat t = Some ts → status ts ≠ INITIALIZING) →
  threadExit t time s = Ok (u, s') → pinned_inv s'.
Proof.
  intros Hp Hr Hb H0 Hst He. unfold threadExit, reschedule_core_of in He.
  apply st_bind_Ok in He as ([] & s1 & E1 & He). apply zoom_Ok in E1 as (y & E1 & ->). unfold set_runnable in E1.
  apply st_bind_Ok in E1 as (l & y1 & [= <- <-] & E1). apply st_bind_Ok in E1 as (l & y1 & [E ->]%lift_Ok & [= <-]).
  apply updz_Ok in E as (v & _ & Hrun & ->). set (s1 := put_sched _ s) in *. assert (Hp1 : placed (λ k, k = t ∧ P) s1) by (by apply placed_runnable).
  assert (Hr1 : ready s1) by (by apply ready_sched).
  assert (Hb1 : blocks (sched s1)).
  { eapply blocks_shape; [exact Hb|]. split; [done|apply length_insert|done]. }
  apply st_bind_Ok in He as (i & s2 & E2 & He). apply zoom_Ok in E2 as (y & E2 & ->).
  unfold info_of in E2. apply st_bind_Ok in E2 as (l & y1 & [= <- <-] & [E2 ->]%lift_Ok).
  apply rdz_Ok in E2 as [_ Hi]. change (put_sched _ s1) with (put_sched (sched s1) s1) in He. rewrite put_sched_id in He.
  assert (Htab : tabled (sched s1)) by (eapply blocks_tabled; [exact Hb1|by eapply lookup_lt_Some]).
  destruct (isRunning i) eqn:Hri.
  - destruct (bk_core _ (pl_books _ _ Hp1) _ _ Hi Hri) as [Hc0 Hcur]. rewrite Z2Nat.id in Hcur by done.
    destruct (reschedule_f_once (S (app_cores (sched s1))) (λ k, k = t ∧ P) s1 time (m_core_running i) false t)
      as (s2 & E2 & _ & H2 & _); [apply reschedule_f_returns|done|done|done| |done| |].
    + apply lookup_lt_Some in Hcur. rewrite (bk_running _ (pl_books _ _ Hp1)) in Hcur. lia.
    + pose proof (free_le (<[Z.to_nat (m_core_running i) := 0%Z]> (m_core_thread_running (sched s1)))) as Hf.
      rewrite length_insert, (bk_running _ (pl_books _ _ Hp1)) in Hf. lia.
    + change (reschedule time (m_core_running i) false s1 = Ok (tt, s2)) in E2.
      rewrite He in E2. injection E2 as _ <-. split; [|split].
      * destruct H2 as (new & Hnew & _ & _ & Hne).
        { intros (k & ts & Hk & _ & Hts & Hini). rewrite Hcur in Hk. injection Hk as <-. by eapply Hst. }
        eapply placed_equiv; [|apply Hne]; [intros k; split; [by intros [[-> _] ?]|by intros []]|]. intros ->.
        edestruct (chosen_spec _ s1 time (m_core_running i) t Hp1 Htab) as (new & Hnew' & Hav); [|exact Hcur|].
        { apply lookup_lt_Some in Hcur. rewrite (bk_running _ (pl_books _ _ Hp1)) in Hcur. lia. }
        rewrite Hnew in Hnew'. injection Hnew' as <-. destruct Hav as [Hav _]; [unfold INVALID_THREAD_ID; lia|].
        simpl in Hav. rewrite list_lookup_insert_eq in Hav by (by eapply lookup_lt_Some). done.
      * by eapply ready_moved, reschedule_moved; [|exact He].
      * eapply blocks_shape; [exact Hb1|]. by eapply (reschedule_shaped time (m_core_running i) false).
  - apply ret_Ok in He as [_ ->]. split; [|done]. eapply placed_equiv; [|exact Hp1].
    intros k. split; [|done]. intros Hk. destruct (pl_flight _ _ Hp1 k Hk) as (_ & _ & j & Hj & Hrj).
    destruct Hk as [-> _]. change (m_thread_info (sched s1) !! Z.to_nat t = Some i) in Hi. congruence.
Qed.

Lemma onThreadExit_kept t : does kept (onThreadExit t).
Proof.
  intros s u s' He Hi. unfold onThreadExit in He.
  apply st_bind_Ok in He as (l & s0 & [= <- <-] & He). apply st_bind_Ok in He as ([] & s0 & [_ ->]%lift_Ok & He).
  apply st_bind_Ok in He as (th & s0 & Eth & He). apply getThreadFromID_Ok in Eth as (-> & H0 & Hth).
  apply st_bind_Ok in He as (core & s0 & [_ ->]%lift_Ok & He). apply st_bind_Ok in He as (co & s0 & Eco & He).
  apply getCoreFromID_Ok in Eco as (-> & _). apply st_bind_Ok in He as (ts & s0 & Ets & He).
  apply get_state_Ok in Ets as (-> & _ & Hts). apply st_bind_Ok in He as ([] & s0 & [_ ->]%lift_Ok & He).
  apply st_bind_Ok in He as ([] & s1 & E1 & He). apply st_bind_Ok in He as ([] & s2 & E2 & He).
  apply st_bind_Ok in He as ([] & s3 & E3 & He). apply st_bind_Ok in He as ([] & s4 & E4 & He).
  apply st_bind_Ok in He as ([] & s5 & E5 & He).
  assert (Hi1 : pinned_inv s1) by (revert Hi; refine (upd_state_kept t (set_status IDLE) _ _ _ _ E1); by intros []).
  assert (Hi2 : pinned_inv s2) by (revert Hi1; exact (wakeUpWaiter_kept _ _ _ _ _ E2)).
  assert (Hi3 : pinned_inv s3 ∧ noinit s2 s3).
  { revert E3. match goal with |- ?m s2 = _ → _ => assert (Hk : does kept m) by solve_kept end.
    match goal with |- ?m s2 = _ → _ => assert (Hn : does noinit m) end.
    { destruct (clear_tid th); [|apply (does_ret _)]. apply (does_bind _); [by apply noinit_same; intros ? ? ? [= <- <-]|intros ?].
      apply (does_bind _); [apply futexWake_noinit|intros ?; apply (does_ret _)]. }
    intros E3. split; [exact (Hk _ _ _ E3 Hi2)|exact (Hn _ _ _ E3)]. }
  destruct Hi3 as [Hi3 Hn3].
  assert (Hi4 : pinned_inv s4) by (revert Hi3; refine (upd_core_kept core (setState IDLE) _ _ _ _ E4); by intros []).
  assert (Hn4 : ∀ ts', m_thread_state (tm s4) !! Z.to_nat t = Some ts' → status ts' ≠ INITIALIZING).
  { intros ts' Hts' Hini. unfold upd_core in E4. apply st_bind_Ok in E4 as (lc & s4' & [= <- <-] & E4).
    apply st_bind_Ok in E4 as (lc & s4' & [_ ->]%lift_Ok & [= <-]). simpl in Hts'.
    destruct (Hn3 _ _ Hts' Hini) as (ts2 & Hts2 & Hini2).
    destruct (wakeUpWaiter_noinit _ _ _ _ _ E2 _ _ Hts2 Hini2) as (ts1 & Hts1 & Hini1).
    apply upd_state_Ok in E1 as (ts0 & _ & Hts0 & ->). simpl in Hts1.
    rewrite list_lookup_insert_eq in Hts1 by (by eapply lookup_lt_Some). by simplify_eq. }
  destruct (setCore_leaves _ _ _ _ Hi4 E5) as (P & Hp5 & Hr5 & Hs5 & Hst5 & _).
  unfold hook_exit in He. simpl in He. apply st_bind_Ok in He as ([] & s6 & E6 & He).
  assert (Hi6 : pinned_inv s6).
  { eapply (threadExit_settles t _ P s5); [done|done| |done| |exact E6].
    - rewrite Hs5. apply Hi4.
    - intros ts'. rewrite Hst5. apply Hn4. }
  revert Hi6. exact (bss_threadStop_kept _ _ _ _ He).
Qed.

(** ** New threads *)

(** The record of thread [n] is prepared; it is not on a core. *)
Record grown (n : nat) x x' : Prop := {
  g_mask : m_core_mask x' = m_core_mask x;
  g_runnable : m_threads_runnable x' = m_threads_runnable x;
  g_quantum : m_quantum_left x' = m_quantum_left x;
  g_running : m_core_thread_running x' = m_core_thread_running x;
  g_length : (length (m_thread_info x) ≤ length (m_thread_info x'))%nat;
  g_old k i : m_thread_info x !! k = Some i → k ≠ n → m_thread_info x' !! k = Some i;
  g_new k i : m_thread_info x' !! k = Some i → k ≠ n →
    m_thread_info x !! k = Some i ∨ ((length (m_thread_info x) ≤ k)%nat ∧ isRunning i = false);
  g_idle : (∀ i, m_thread_info x !! n = Some i → isRunning i = false) →
           ∀ i, m_thread_info x' !! n = Some i → isRunning i = false;
  g_affinity : Forall (λ i, length (m_core_affinity i) = app_cores x) (m_thread_info x) →
               Forall (λ i, length (m_core_affinity i) = app_cores x) (m_thread_info x');
  g_blocks : blocks x → blocks x' }.
#[local] Instance grown_pre n : PreOrder (grown n).
Proof.
  split; [intros x; by split; auto|]. intros a b c H1 H2.
  assert (Hcores : app_cores b = app_cores a) by (unfold app_cores; by rewrite (g_mask _ _ _ H1)).
  destruct H1 as [A1 A2 A3 A4 A5 A6 A7 A8 A9 A10], H2 as [B1 B2 B3 B4 B5 B6 B7 B8 B9 B10].
  split; try congruence; [lia|eauto| |eauto| |auto].
  - intros k i Hk Hne. destruct (B7 k i Hk Hne) as [Hb|[Hb1 Hb2]]; [by apply A7|]. right. split; [lia|done].
  - intros Ha. rewrite Hcores in B9. auto.
Qed.

Lemma upd_info_grown n f :
  (∀ i i', f i = Ok i' → (m_core_running i' = m_core_running i ∨ isRunning i' = false) ∧
     length (m_core_affinity i') = length (m_core_affinity i)) →
  does (grown n) (upd_info (Z.of_nat n) f).
Proof.
  intros Hf x u x' He. unfold upd_info, info_of in He.
  apply st_bind_Ok in He as (i & x1 & E & He). apply st_bind_Ok in E as (l & x2 & [= <- <-] & [E ->]%lift_Ok).
  apply rdz_Ok in E as [_ Hi]. rewrite Nat2Z.id in Hi. apply st_bind_Ok in He as (i' & x2 & [Ef ->]%lift_Ok & He).
  apply st_bind_Ok in He as (l & x2 & [= <- <-] & He). apply st_bind_Ok in He as (l & x2 & [El ->]%lift_Ok & [= _ <-]).
  apply updz_Ok in El as (i0 & _ & _ & ->). rewrite Nat2Z.id. destruct (Hf i i' Ef) as [Hr Ha].
  split; simpl; try done.
  - by rewrite length_insert.
  - intros k j Hk Hne. by rewrite list_lookup_insert_ne.
  - intros k j Hk Hne. rewrite list_lookup_insert_ne in Hk by done. by left.
  - intros Hn j. rewrite list_lookup_insert_eq by (by eapply lookup_lt_Some). intros [= <-].
    destruct Hr as [Hr|Hr]; [|done]. unfold isRunning. rewrite Hr. exact (Hn i Hi).
  - intros Hall. apply Forall_insert; [done|]. rewrite Ha. exact (Forall_lookup_1 _ _ _ _ Hall Hi).
  - intros Hb. eapply blocks_shape; [exact Hb|]. split; [done|done|apply length_insert].
Qed.
Lemma addAffinity_shape c i i' :
  addAffinity c i = Ok i' → (m_core_running i' = m_core_running i ∨ isRunning i' = false) ∧ length (m_core_affinity i') = length (m_core_affinity i).
Proof.
  unfold addAffinity. intros (l & E & [= <-])%res_bind_Ok. apply updz_Ok in E as (a & _ & _ & ->). simpl.
  rewrite length_insert. auto.
Qed.
Lemma clearAffinity_shape i :
  (m_core_running (clearAffinity i) = m_core_running i ∨ isRunning (clearAffinity i) = false) ∧
  length (m_core_affinity (clearAffinity i)) = length (m_core_affinity i).
Proof. simpl. rewrite length_fmap. auto. Qed.

Lemma resize_grown n : does (grown n) (modify (λ x,
  if (length (m_thread_info x) <=? n)%nat
  then put_infos (resize (length (m_thread_info x) + 16) (ThreadInfo_new (app_cores x)) (m_thread_info x)) x else x)).
Proof.
  apply (does_modify _). intros x. case_match eqn:E; [|reflexivity]. apply Nat.leb_le in E.
  assert (Hl : resize (length (m_thread_info x) + 16) (ThreadInfo_new (app_cores x)) (m_thread_info x) =
    m_thread_info x ++ replicate 16 (ThreadInfo_new (app_cores x))).
  { unfold resize. do 2 f_equal. lia. }
  rewrite Hl. clear Hl. pose proof (length_replicate 16 (ThreadInfo_new (app_cores x))) as Hlen.
  assert (Hnew : Forall (λ i, isRunning i = false ∧ length (m_core_affinity i) = app_cores x)
                   (replicate 16 (ThreadInfo_new (app_cores x)))).
  { apply Forall_replicate. simpl. split; [done|]. apply length_replicate. }
  generalize dependent (replicate 16 (ThreadInfo_new (app_cores x))). intros new Hlen Hnew.
  split; simpl; try done.
  - rewrite length_app. lia.
  - intros k i Hk _. by apply lookup_app_l_Some.
  - intros k i [Hk|[Hle Hk]]%lookup_app_Some _; [by left|]. right. split; [done|].
    by apply (Forall_lookup_1 _ _ _ _ Hnew Hk).
  - intros _ i [Hk|[Hle Hk]]%lookup_app_Some; [apply lookup_lt_Some in Hk; lia|].
    by apply (Forall_lookup_1 _ _ _ _ Hnew Hk).
  - intros Ha. apply Forall_app. split; [done|]. eapply Forall_impl; [exact Hnew|]. by intros i [_ ?].
  - intros [B1 B2 B3]. split; cbn [m_thread_info m_threads_runnable put_infos]; rewrite ?length_app, ?Hlen; [|done|lia].
    etrans; [|exact B1]. replace (length (m_thread_info x) + 16)%nat with (length (m_thread_info x) + 1 * 16)%nat by lia.
    by rewrite Nat.Div0.mod_add.
Qed.

Lemma initialAffinity_grown n : does (grown n) (threadSetInitialAffinity (Z.of_nat n)).
Proof.
  unfold threadSetInitialAffinity. apply (does_bind _); [apply (does_gets _)|intros x]. case_match.
  - apply (does_bind _); [apply (does_lift _)|intros c]. apply (does_bind _); [apply (does_lift _)|intros next].
    apply (does_bind _); [apply (does_modify _); intros y; split; auto; intros Hb; by eapply blocks_shape|intros ?].
    apply upd_info_grown. intros i i' He. unfold setAffinitySingle in He. apply addAffinity_shape in He as [Hr ->].
    split; [exact Hr|]. apply clearAffinity_shape.
  - apply (does_bind _); [apply upd_info_grown; intros i i' [= <-]; apply clearAffinity_shape|intros ?].
    apply (does_forM _). intros c. apply (does_bind _); [apply (does_lift _)|intros m].
    case_match; [|apply (does_ret _)]. apply upd_info_grown. apply addAffinity_shape.
Qed.

(** The machine with one more thread, whose record is prepared. *)
Lemma placed_grown s s' x :
  placed settled_in s → grown (length (homes s)) (sched s) x → (length (homes s) < length (m_thread_info x))%nat →
  sched s' = x → homes s' = homes s ++ [None] → places s' = places s →
  length (m_thread_state (tm s')) = S (length (m_thread_state (tm s))) → placed settled_in s'.
Proof.
  intros Hp Hg Hl Hs Hh Hpl Hst. pose proof Hp as [Hb G1 G2 G3 G4 G5 G6 G7 G8]. set (n := length (homes s)) in *.
  assert (Hcores : app_cores x = app_cores (sched s)) by (unfold app_cores; by rewrite (g_mask _ _ _ Hg)).
  assert (Hidle : ∀ i, m_thread_info x !! n = Some i → isRunning i = false).
  { apply (g_idle _ _ _ Hg). intros i Hi. destruct (isRunning i) eqn:Hr; [|done]. exfalso.
    destruct (bk_core _ Hb n i Hi Hr) as [_ Hrun]. apply G4 in Hrun; [unfold n in *; lia|unfold INVALID_THREAD_ID; lia]. }
  split; rewrite ?Hs, ?Hh, ?Hpl, ?length_app, ?Hst; simpl.
  - split.
    + by rewrite (g_running _ _ _ Hg), Hcores, (bk_running _ Hb).
    + by rewrite (g_quantum _ _ _ Hg), Hcores, (bk_quantum _ Hb).
    + rewrite Hcores. by apply (g_affinity _ _ _ Hg), Hb.
    + intros t i Hi Hr. rewrite (g_running _ _ _ Hg). destruct (decide (t = n)) as [->|Hne].
      { apply Hidle in Hi. congruence. }
      destruct (g_new _ _ _ Hg t i Hi Hne) as [Hold|[_ Hf]]; [by apply (bk_core _ Hb)|congruence].
    + intros c t. rewrite (g_running _ _ _ Hg). intros Hc Hv. destruct (bk_thread _ Hb c t Hc Hv) as (H0 & i & Hi & Hr).
      split; [done|]. exists i. split; [|done]. apply (g_old _ _ _ Hg); [done|]. specialize (G4 c t Hc Hv). unfold n. lia.
  - by rewrite Hcores.
  - rewrite G2. lia.
  - lia.
  - intros c t. rewrite (g_running _ _ _ Hg). intros Hc Hv. specialize (G4 c t Hc Hv). lia.
  - intros t. rewrite (g_runnable _ _ _ Hg). intros Ht%G5. lia.
  - split.
    + intros c t Hc. destruct (co_place _ _ G6 c t Hc) as [H0 Ht]. split; [done|]. by apply lookup_app_l_Some.
    + intros t c [Ht|[_ Ht]]%lookup_app_Some; [by apply (co_home _ _ G6)|]. by apply list_lookup_singleton_Some in Ht as [_ ?].
  - intros t i h Hi [Ht|[Hle Ht]]%lookup_app_Some _.
    + assert (t ≠ n) by (apply lookup_lt_Some in Ht; unfold n; lia).
      destruct (g_new _ _ _ Hg t i Hi) as [Hold|[Hge _]]; [done|by apply (G7 t); [done|done|intros []]|].
      apply lookup_lt_Some in Ht. lia.
    + apply list_lookup_singleton_Some in Ht as [Ht <-]. assert (t = n) by (unfold n; lia). subst t.
      unfold booked. by rewrite (Hidle i Hi).
  - intros t [].
Qed.

(** The three updates of a scheduler that found a core for a new thread. *)
Lemma swapped_create c t i q x :
  0 ≤ t → m_thread_info x !! Z.to_nat t = Some i →
  swapped c INVALID_THREAD_ID t x
    (put_core_state (<[c := t]> (m_core_thread_running x)) (<[c := q]> (m_quantum_left x))
       (put_infos (<[Z.to_nat t := setCoreRunning (Z.of_nat c) i]> (m_thread_info x)) x)).
Proof.
  intros H0 Hi. split; simpl; try done; [by rewrite length_insert..|].
  intros k j Hj. destruct (decide (k = Z.to_nat t)) as [->|Hne].
  - eexists. rewrite list_lookup_insert_eq by (by eapply lookup_lt_Some). split; [done|]. simplify_eq. split; [done|].
    rewrite decide_True; [done|]. by rewrite Z2Nat.id.
  - exists j. rewrite list_lookup_insert_ne by done. split; [done|]. split; [done|].
    rewrite !decide_False; [done| |]; unfold INVALID_THREAD_ID; lia.
Qed.

Lemma find_free_Ok i running ids c :
  find_free i running ids = Ok c →
  c = INVALID_CORE_ID ∨ (0 ≤ c ∧ running !! Z.to_nat c = Some INVALID_THREAD_ID ∧ m_core_affinity i !! Z.to_nat c = Some true).
Proof.
  induction ids as [|d ids IH]; simpl; [intros [= <-]; by left|]. intros (a & Ea & He)%res_bind_Ok.
  apply rdz_Ok in Ea as [H0 Ha]. destruct a; [|by apply IH]. apply res_bind_Ok in He as (t & Et & He).
  apply rdz_Ok in Et as [_ Ht]. destruct (Z.eqb_spec t INVALID_THREAD_ID) as [->|]; [|by apply IH].
  injection He as <-. by right.
Qed.

(** The scheduler's part of the creation of thread [n]. *)
Lemma threadCreate_grown n x c x' :
  threadCreate (Z.of_nat n) x = Ok (c, x') →
  ∃ x1 i, grown n x x1 ∧ m_thread_info x1 !! n = Some i ∧
    ((c = INVALID_CORE_ID ∧ grown n x x' ∧ (n < length (m_thread_info x'))%nat) ∨
     (0 ≤ c ∧ m_core_thread_running x1 !! Z.to_nat c = Some INVALID_THREAD_ID ∧
      swapped (Z.to_nat c) INVALID_THREAD_ID (Z.of_nat n) x1 x')).
Proof.
  intros He. unfold threadCreate in He. apply st_bind_Ok in He as ([] & xa & Ea & He). rewrite Nat2Z.id in Ea.
  assert (Ga : grown n x xa) by (by eapply resize_grown).
  apply st_bind_Ok in He as (ia & xb & Eb & He). unfold info_of in Eb.
  apply st_bind_Ok in Eb as (l & xc & [= <- <-] & [_ ->]%lift_Ok).
  apply st_bind_Ok in He as ([] & x1 & E1 & He).
  assert (G1 : grown n x x1).
  { etrans; [exact Ga|]. destruct (m_has_affinity ia); [by injection E1 as <-|by eapply initialAffinity_grown]. }
  apply st_bind_Ok in He as (d & xb & Ed & He). unfold findFreeCoreForThread in Ed.
  apply st_bind_Ok in Ed as (x2 & xc & [= <- <-] & Ed). apply st_bind_Ok in Ed as (i & xc & Ei & [Ed ->]%lift_Ok).
  unfold info_of in Ei. apply st_bind_Ok in Ei as (l & xd & [= <- <-] & [Ei ->]%lift_Ok).
  apply rdz_Ok in Ei as [_ Hi]. rewrite Nat2Z.id in Hi. exists x1, i. split; [done|]. split; [done|].
  destruct (Z.eqb_spec d INVALID_CORE_ID) as [->|Hd]; simpl in He.
  - left. apply st_bind_Ok in He as ([] & x3 & E3 & He). injection He as <- <-.
    assert (G3 : grown n x1 x3). { eapply (upd_info_grown n); [|exact E3]. intros j j' [= <-]. simpl. auto. }
    split; [done|]. split; [by etrans|]. eapply Nat.lt_le_trans; [by eapply lookup_lt_Some|apply G3].
  - right. destruct (find_free_Ok _ _ _ _ Ed) as [?|(H0 & Hfree & _)]; [done|].
    apply st_bind_Ok in He as ([] & x3 & E3 & He).
    rewrite (upd_info_at (Z.of_nat n) _ i (setCoreRunning d i)) in E3 by (lia || done || by rewrite Nat2Z.id).
    injection E3 as <-. apply st_bind_Ok in He as ([] & x4 & E4 & He).
    rewrite set_running_on_at in E4 by (done || by eapply lookup_lt_Some). injection E4 as <-.
    apply st_bind_Ok in He as (q & x5 & [= <- <-] & He). apply st_bind_Ok in He as ([] & x6 & E6 & He).
    injection He as <- <-. unfold set_quantum_left in E6. apply st_bind_Ok in E6 as (l & x7 & [= <- <-] & E6).
    apply st_bind_Ok in E6 as (l & x7 & [E7 ->]%lift_Ok & [= <-]). apply updz_Ok in E7 as (q0 & _ & _ & ->).
    split; [done|]. split; [done|]. pose proof (swapped_create (Z.to_nat d) (Z.of_nat n) i (m_quantum x1) x1) as Hs.
    rewrite Nat2Z.id, Z2Nat.id in Hs by done. rewrite Nat2Z.id. apply Hs; [lia|done].
Qed.

(** The new thread goes to the free core that the scheduler has chosen. *)
Lemma new_thread_arrives s x1 x' c n i u s' :
  placed settled_in (put_sched x1 s) → ready s → blocks x1 → 0 ≤ c →
  homes s !! n = Some None → m_thread_info x1 !! n = Some i →
  m_core_thread_running x1 !! Z.to_nat c = Some INVALID_THREAD_ID →
  swapped (Z.to_nat c) INVALID_THREAD_ID (Z.of_nat n) x1 x' →
  setCore (Z.of_nat n) (Some c) (put_sched x' s) = Ok (u, s') → pinned_inv s'.
Proof.
  intros Hpx Hr Hb H0 Hnone Hi Hfree Hsw E5. set (new := Z.of_nat n) in *.
  assert (Hidle : isRunning i = false).
  { pose proof (pl_book _ _ Hpx n i None Hi Hnone ltac:(by intros [])) as Hbk. unfold booked in Hbk.
    by destruct (isRunning i). }
  assert (Hpf : places s !! Z.to_nat c = Some None) by (eapply (placed_free _ _ _ _ Hpx); [exact Hfree|by left]).
  assert (Hpn : placed (with_new settled_in new) (put_sched x' s)).
  { eapply (placed_equiv (with_new (except settled_in INVALID_THREAD_ID) new)); [unfold with_new, except; naive_solver|].
    eapply (placed_swapped settled_in (put_sched x1 s)); [exact Hpx|exact Hfree|exact Hsw|unfold INVALID_THREAD_ID; lia| |done|done|].
    - intros _. split; [|by intros []]. split; [lia|]. unfold new. rewrite Nat2Z.id. split; [by eapply lookup_lt_Some|eauto].
    - symmetry. by apply list_insert_id. }
  destruct (setCore_Some new c (put_sched x' s)) as (s6 & E6 & Hs6 & Hst6 & Hb6 & Hh6 & Hp6);
    [lia|done|unfold new; rewrite Nat2Z.id; exact Hnone|done|].
  rewrite E5 in E6. injection E6 as _ <-. split; [|split].
  - eapply (placed_arrive settled_in _ s' (Z.to_nat c) new); [exact Hpn|by intros []| |unfold INVALID_THREAD_ID; lia|done|done| |done].
    + change (m_core_thread_running x' !! Z.to_nat c = Some new). rewrite (sw_running _ _ _ _ _ Hsw).
      apply list_lookup_insert_eq. by eapply lookup_lt_Some.
    + by rewrite Z2Nat.id.
  - by eapply ready_same; [| |apply ready_sched].
  - rewrite Hs6. eapply blocks_shape; [exact Hb|].
    split; [apply Hsw| |apply Hsw]. change (length (m_threads_runnable x') = length (m_threads_runnable x1)).
    by rewrite (sw_runnable _ _ _ _ _ Hsw).
Qed.
Lemma createThread_kept g app : does kept (createThread_unlocked g app).
Proof.
  intros s t s' He (Hp & Hr & Hb). unfold createThread_unlocked in He.
  apply st_bind_Ok in He as (t0 & s0 & [= <- <-] & He). apply st_bind_Ok in He as ([] & s1 & [= <-] & He).
  set (n := length (m_threads (tm s))) in *. assert (Hn : length (homes s) = n) by (unfold homes; by rewrite length_fmap).
  apply st_bind_Ok in He as ([] & s2 & E2 & He). apply upd_state_Ok in E2 as (ts & _ & Hts & ->).
  set (s2 := put_tm _ _) in He.
  assert (Hh2 : homes s2 = homes s ++ [None]) by (unfold homes; simpl; by rewrite fmap_app).
  assert (Hst2 : length (m_thread_state (tm s2)) = S (length (m_thread_state (tm s)))).
  { simpl. rewrite length_insert, length_app. simpl. lia. }
  assert (Hr2 : ready s2).
  { split; [|apply Hr]. simpl. apply Forall_insert; [|done]. apply Forall_app. split; [apply Hr|]. by constructor. }
  assert (Hp2 : places s2 = places s) by done. assert (Hs2 : sched s2 = sched s) by done. clearbody s2.
  apply st_bind_Ok in He as (c & s3 & E3 & He). simpl in E3. apply zoom_Ok in E3 as (x' & E3 & ->). rewrite Hs2 in E3.
  apply threadCreate_grown in E3 as (x1 & i & G1 & Hi & Hcase). rewrite <- Hn in *.
  assert (Hx : ∀ x, grown (length (homes s)) (sched s) x → (length (homes s) < length (m_thread_info x))%nat →
    placed settled_in (put_sched x s2)).
  { intros x Hg Hl. by eapply (placed_grown s _ x). }
  apply st_bind_Ok in He as ([] & s4 & E4 & He). injection He as _ <-.
  destruct Hcase as [(-> & G' & Hl)|(H0 & Hfree & Hsw)]; simpl in E4.
  { injection E4 as <-. split; [by apply Hx|]. split; [by apply ready_sched|]. by apply G'. }
  destruct (Z.eqb_spec c INVALID_CORE_ID) as [->|_]; [unfold INVALID_CORE_ID in H0; lia|]. simpl in E4.
  assert (Hnone : homes s2 !! length (homes s) = Some None) by (rewrite Hh2, lookup_app_r, Nat.sub_diag by lia; done).
  apply st_bind_Ok in E4 as (co & s5 & E5 & E4). apply getCoreFromID_Ok in E5 as (-> & _).
  apply st_bind_Ok in E4 as ([] & s5 & E5 & E4).
  pose proof (new_thread_arrives s2 x1 x' c _ i _ s5 (Hx x1 G1 (lookup_lt_Some _ _ _ Hi)) Hr2 (g_blocks _ _ _ G1 Hb)
    H0 Hnone Hi Hfree Hsw E5) as Hi5.
  revert Hi5. refine (upd_core_kept c (setState INITIALIZING) _ _ _ _ E4). by intros [].
Qed.

(** ** The start of a thread *)
Lemma threadStart_kept t time s u s' :
  threadStart t time s = Ok (u, s') → 0 ≤ t → (Z.to_nat t < length (homes s))%nat → kept s s'.
Proof.
  intros He H0 Ht Hi. unfold threadStart in He. apply st_bind_Ok in He as ([] & s1 & E1 & He).
  apply zoom_Ok in E1 as (y & [= <-] & ->). set (s1 := put_sched _ s) in He.
  assert (Hi1 : pinned_inv s1 ∧ homes s1 = homes s).
  { split; [|done]. unfold s1. case_match eqn:El; [|by rewrite put_sched_id]. apply Nat.leb_le in El.
    destruct Hi as (Hp & Hr & Hb). split; [|split; [by apply ready_sched|]].
    - destruct Hp as [Hk G1 G2 G3 G4 G5 G6 G7 G8]. split; try done.
      + destruct Hk. by split.
      + intros k. simpl. unfold resize. intros [Hk'|[_ Hk']]%lookup_app_Some; [by apply G5|].
        by apply lookup_replicate in Hk' as [? _].
    - assert (Hlen : length (resize (length (m_threads_runnable (sched s)) + 16) false (m_threads_runnable (sched s))) =
        (length (m_threads_runnable (sched s)) + 1 * 16)%nat).
      { unfold resize. rewrite length_app, length_replicate. lia. }
      pose proof (pl_infos _ _ Hp). destruct Hb as [B1 B2 B3].
      split; cbn [sched put_sched m_threads_runnable m_thread_info put_runnable]; rewrite ?Hlen; [done| |].
      + by rewrite Nat.Div0.mod_add.
      + apply Nat.Div0.mod_divides in B1 as [a Ha], B2 as [b Hb]. lia. }
  destruct Hi1 as [Hi1 Hh1]. clearbody s1. apply st_bind_Ok in He as ([] & s2 & E2 & He).
  assert (Hi2 : pinned_inv s2) by (eapply set_runnable_kept; [exact E2|done|]; by rewrite Hh1).
  revert Hi2. match type of He with ?m s2 = _ => assert (Hm : does kept m) by solve_kept end. by eapply Hm.
Qed.
Lemma onThreadStart_kept t time : does kept (onThreadStart t time).
Proof.
  intros s u s' He. unfold onThreadStart in He. apply st_bind_Ok in He as (th & s0 & E0 & He).
  apply getThreadFromID_Ok in E0 as (-> & H0 & Hth). apply st_bind_Ok in He as ([] & s1 & E1 & He).
  assert (K1 : kept s s1) by (refine (upd_state_kept t (set_status RUNNING) _ _ _ _ E1); by intros []).
  apply st_bind_Ok in He as ([] & s2 & E2 & He).
  assert (K2 : kept s1 s2).
  { eapply threadStart_kept; [exact E2|done|]. apply upd_state_Ok in E1 as (ts & _ & _ & ->).
    unfold homes. simpl. rewrite length_fmap. by eapply lookup_lt_Some. }
  assert (K3 : kept s2 s'); [|exact (λ Hi, K3 (K2 (K1 Hi)))].
  match type of He with ?m s2 = _ => assert (Hm : does kept m) by solve_kept end. by eapply Hm.
Qed.

(** ** Changes of affinity *)
Lemma upd_info_kept t f :
  (∀ i i', f i = Ok i' → m_core_running i' = m_core_running i ∧ length (m_core_affinity i') = length (m_core_affinity i)) →
  does kept (own (upd_info t f)).
Proof.
  intros Hf. apply own_kept. intros s a y (Hp & _ & Hb) E. unfold upd_info, info_of in E.
  apply st_bind_Ok in E as (i & y1 & E1 & E). apply st_bind_Ok in E1 as (l & y2 & [= <- <-] & [E1 ->]%lift_Ok).
  apply rdz_Ok in E1 as [H0 Hi]. apply st_bind_Ok in E as (i' & y2 & [Ef ->]%lift_Ok & E).
  apply st_bind_Ok in E as (l & y2 & [= <- <-] & E). apply st_bind_Ok in E as (l & y2 & [El ->]%lift_Ok & [= _ <-]).
  apply updz_Ok in El as (i0 & _ & _ & ->). destruct (Hf i i' Ef) as [Hr Ha].
  assert (Hback : ∀ k j, (<[Z.to_nat t := i']> (m_thread_info (sched s))) !! k = Some j →
    ∃ j0, m_thread_info (sched s) !! k = Some j0 ∧ m_core_running j = m_core_running j0).
  { intros k j [[<- [<- _]]|[_ Hk]]%list_lookup_insert_Some; eauto. }
  destruct Hp as [Hk G1 G2 G3 G4 G5 G6 G7 G8]. split.
  - split; simpl; try done; [|by rewrite length_insert|].
    + destruct Hk as [K1 K2 K3 K5 K6]. split; simpl; try done.
      * apply Forall_insert; [done|]. rewrite Ha. exact (Forall_lookup_1 _ _ _ _ K3 Hi).
      * intros k j (j0 & Hj0 & Hrj)%Hback Hrun. rewrite Hrj. apply (K5 k); [done|]. unfold isRunning in *. by rewrite <- Hrj.
      * intros c k Hc Hv. destruct (K6 c k Hc Hv) as (Hk0 & j & Hj & Hrj). split; [done|].
        destruct (decide (Z.to_nat k = Z.to_nat t)) as [Heq|Hne].
        -- exists i'. rewrite Heq, list_lookup_insert_eq by (by eapply lookup_lt_Some). rewrite Heq in Hj. simplify_eq.
           split; [done|]. by rewrite Hr.
        -- exists j. by rewrite list_lookup_insert_ne.
    + intros k j h (j0 & Hj0 & Hrj)%Hback Hh Hn. unfold booked, isRunning. rewrite Hrj. by apply (G7 k).
  - eapply blocks_shape; [exact Hb|]. split; try done. simpl. by rewrite length_insert.
Qed.
Lemma own_bind {A B} (m : st SchedulerPinnedBase A) (f : A → st SchedulerPinnedBase B) s :
  own (st_bind m f) s = st_bind (own m) (λ a, own (f a)) s.
Proof.
  unfold own, zoom, st_bind. destruct (m (sched s)) as [[a x]|e]; simpl; [|done].
  by destruct (f a x) as [[b y]|e].
Qed.
Lemma own_bind_kept {A B} (m : st SchedulerPinnedBase A) (f : A → st SchedulerPinnedBase B) :
  does kept (own m) → (∀ a, does kept (own (f a))) → does kept (own (st_bind m f)).
Proof. intros Hm Hf s b s' He. rewrite own_bind in He. revert He. by apply (does_bind _). Qed.
Lemma own_ret_kept {A} (a : A) : does kept (own (ret a)).
Proof. apply own_read_kept. by intros x b x' [= <- <-]. Qed.
Lemma addAffinity_kept t c : does kept (own (upd_info t (addAffinity c))).
Proof.
  apply upd_info_kept. intros i i' (l & E & [= <-])%res_bind_Ok. apply updz_Ok in E as (a & _ & _ & ->). simpl.
  by rewrite length_insert.
Qed.
Lemma add_mask_kept n t cpu mask : does kept (own (add_mask n t cpu mask)).
Proof.
  revert cpu. induction mask as [|m mask IH]; intros cpu; simpl; [apply own_ret_kept|].
  apply own_bind_kept; [|intros ?; apply IH]. destruct m; [|apply own_ret_kept].
  apply own_bind_kept; [|intros ?; apply addAffinity_kept]. apply own_read_kept. by intros x a x' [_ ->]%lift_Ok.
Qed.
Lemma set_affinity_kept t mask s u s' :
  own (set_affinity t mask) s = Ok (u, s') → (Z.to_nat t < length (homes s))%nat → kept s s'.
Proof.
  intros He Ht Hi. unfold set_affinity in He. rewrite own_bind in He. apply st_bind_Ok in He as ([] & s1 & E1 & He).
  apply zoom_Ok in E1 as (y & [= <-] & ->). rewrite (proj2 (Nat.leb_gt _ _)), put_sched_id in He.
  2: { pose proof (pl_infos _ _ (proj1 Hi)). lia. }
  revert Hi. match type of He with ?m s = _ => assert (Hm : does kept m) end; [|by eapply Hm].
  apply own_bind_kept; [apply upd_info_kept; by intros i i' [= <-]|intros ?].
  apply own_bind_kept; [apply own_read_kept; by intros x b x' [= <- <-]|intros x]. destruct mask as [mask|].
  - apply own_bind_kept; [apply upd_info_kept; intros i i' [= <-]; simpl; by rewrite length_fmap|intros ?; apply add_mask_kept].
  - induction (app_core_ids x) as [|c l IH]; simpl; [apply own_ret_kept|].
    apply own_bind_kept; [apply addAffinity_kept|intros ?; exact IH].
Qed.
Lemma threadSetAffinity_kept by' t mask s b s' :
  threadSetAffinity by' t mask s = Ok (b, s') → (Z.to_nat t < length (homes s))%nat → kept s s'.
Proof.
  intros He Ht Hi. unfold threadSetAffinity in He. apply st_bind_Ok in He as ([] & s1 & E1 & He).
  pose proof (set_affinity_kept _ _ _ _ _ E1 Ht Hi) as Hi1. revert Hi1.
  match type of He with ?m s1 = _ => assert (Hm : does kept m) by solve_kept end. by eapply Hm.
Qed.

(** * Runs *)

(** The steps of the simulator with one of these schedulers: a thread makes a
    call, a thread is created or starts, a core reaches the barrier, a thread
    yields, a thread changes the affinity of a thread that exists, or the
    application runs. *)
Inductive pinned_step s : SP → Prop :=
| ps_call t c s' : serve t c s = Ok (tt, s') → pinned_step s s'
| ps_create g app t s' : createThread_unlocked g app s = Ok (t, s') → pinned_step s s'
| ps_spawned r s' : getThreadToSpawn s = Ok (r, s') → pinned_step s s'
| ps_start t time s' : onThreadStart t time s = Ok (tt, s') → pinned_step s s'
| ps_synchronize c time o s' : synchronize c time s = Ok (o, s') → pinned_step s s'
| ps_yield t s' : threadYield t s = Ok (tt, s') → pinned_step s s'
| ps_affinity by' t mask b s' :
    (Z.to_nat t < length (m_threads (tm s)))%nat → threadSetAffinity by' t mask s = Ok (b, s') → pinned_step s s'
| ps_run l f :
    Forall2 (λ a b, c_thread b = c_thread a) (cores s) l → pinned_step s (put_mem f (put_cores l s)).

Lemma spawnThread_kept g t app : does kept (spawnThread g t app).
Proof.
  unfold spawnThread. apply (does_bind _); [solve_kept|intros time].
  apply (does_bind _); [apply createThread_kept|intros new]. solve_kept.
Qed.
Lemma pinned_step_kept s s' : pinned_step s s' → kept s s'.
Proof.
  intros Hst. destruct Hst as [t c s' He|g app t s' He|r s' He|t time s' He|c time o s' He|t s' He|by' t mask b s' Ht He|l f Hl].
  - assert (Hc : c = Exit ∨ (∃ g app, c = Spawn g app) ∨ (c ≠ Exit ∧ ∀ g app, c ≠ Spawn g app)).
    { destruct c; try (right; right; split; [done|]; by intros); [right; left; eauto|by left]. }
    destruct Hc as [->|[(g & app & ->)|[H1 H2]]]; [by eapply onThreadExit_kept| |by eapply serve_kept].
    simpl in He. unfold discard in He. apply st_bind_Ok in He as (a & s1 & E & [= <-]). by eapply spawnThread_kept.
  - by eapply createThread_kept.
  - unfold getThreadToSpawn in He. revert He. match goal with |- ?m s = _ → _ => assert (Hm : does kept m) by solve_kept end.
    apply Hm.
  - by eapply onThreadStart_kept.
  - by eapply synchronize_kept.
  - by eapply threadYield_kept.
  - eapply threadSetAffinity_kept; [exact He|]. unfold homes. by rewrite length_fmap.
  - apply kept_same; [done|done| |done|by apply ready_same]. unfold places. simpl.
    induction Hl as [|a b la lb Hab _ IH]; [done|]. rewrite !fmap_cons. by f_equal.
Qed.

Definition Pinned_new (mask : list bool) (rule : Rule) (barrier_quantum cost quantum : Z) : SP :=
  Sys_new (length mask) barrier_quantum cost (SchedulerPinnedBase_new quantum mask rule).

Lemma Pinned_new_inv mask rule bq cost q : pinned_inv (Pinned_new mask rule bq cost q).
Proof.
  split; [|split; [|done]].
  - split; simpl; try done.
    + split; simpl; try done; [by rewrite length_fmap|by rewrite length_fmap|].
      intros c t Hc Hv. apply list_lookup_fmap_Some in Hc as (b & -> & _). done.
    + unfold places. simpl. by rewrite length_fmap, length_replicate.
    + intros c t Hc Hv. apply list_lookup_fmap_Some in Hc as (b & -> & _). done.
    + intros t Ht. apply (list_elem_of_lookup_2 (replicate 16 false)) in Ht.
      by apply elem_of_replicate in Ht as [? _].
    + split; [|by intros t c Ht]. intros c t Hc. unfold places in Hc. simpl in Hc. rewrite fmap_replicate in Hc.
      by apply lookup_replicate in Hc as [? _].
  - split; [done|]. split; simpl; rewrite ?length_replicate; try done; unfold num_cores; simpl; by rewrite length_replicate.
Qed.
Lemma pinned_runs_inv mask rule bq cost q s :
  rtc pinned_step (Pinned_new mask rule bq cost q) s → pinned_inv s.
Proof.
  intros Hs. assert (Hi := Pinned_new_inv mask rule bq cost q). revert Hi.
  induction Hs as [|s s1 s' H1 _ IH]; [done|]. intros Hi. apply IH. by eapply pinned_step_kept.
Qed.
End Services.
