(* ===== verification/PinnedSpec.v ===== *)
(** What the pinned and the roaming scheduler promise in every state that a
    run of the simulator reaches: their tables describe the machine, and
    rescheduling a core always returns and serves the thread that waits
    longest. *)
From S2P Require Import Prelude SubsecondTime System ThreadManager SyncServer SyncFacts SyncFrame SyncProps SyncSpec SchedulerPinned PinnedFacts PinnedProps PinnedRuns.
Import Barrier.
Local Open Scope Z_scope.
Implicit Types (x : SchedulerPinnedBase) (s : Sys SchedulerPinnedBase).

Section Spec.
Context `{HH : Host} `{!HostOk}.

(** The thread that the table names for a core. *)
Definition occupant (r : Z) : option Z := if decide (r = INVALID_THREAD_ID) then None else Some r.

Lemma placed_occupant s c r :
  placed settled_in s → m_core_thread_running (sched s) !! c = Some r → places s !! c = Some (occupant r).
Proof.
  intros Hp Hr. unfold occupant. destruct (decide _) as [Hv|Hv].
  - eapply placed_free; [exact Hp|exact Hr|by left].
  - destruct (placed_current _ _ _ _ Hp Hr Hv) as (H0 & [i Hi] & [[_ Hh]|[Hh _]]).
    + apply (co_home _ _ (pl_machine _ _ Hp)) in Hh as [_ Hh]. by rewrite Nat2Z.id, Z2Nat.id in Hh.
    + destruct (bk_thread _ (pl_books _ _ Hp) c r Hr Hv) as (_ & j & Hj & Hc).
      pose proof (pl_book _ _ Hp _ _ _ Hj Hh ltac:(by intros [])) as Hb. unfold booked, isRunning in Hb.
      rewrite Hc in Hb. unfold INVALID_CORE_ID in Hb. destruct (Z.eqb_spec (Z.of_nat c) (-1)); [lia|done].
Qed.

(** C25: In every state that a run reaches under the pinned or the roaming
    scheduler (threads are created, start, call the synchronisation services,
    yield, change affinities and exit, cores reach the barrier), the tables
    agree: the scheduler has an entry for every core, a core executes exactly
    the thread that [m_core_thread_running] names, every thread has an entry
    in [m_thread_info], it is on exactly the core that its [m_core_running]
    names, and a core executes a thread exactly when the thread is on that
    core.  In particular no thread is ever on two cores and no two threads
    share one. *)
Theorem pinned_tables_agree (mask : list bool) (rule : Rule) (bq cost q : Z) s :
  rtc pinned_step (Pinned_new mask rule bq cost q) s →
  (∀ c co, cores s !! c = Some co →
     ∃ r, m_core_thread_running (sched s) !! c = Some r ∧ c_thread co = occupant r) ∧
  (∀ t th, m_threads (tm s) !! t = Some th →
     ∃ i, m_thread_info (sched s) !! t = Some i ∧
          m_core th = if isRunning i then Some (m_core_running i) else None) ∧
  (∀ c co t th, cores s !! c = Some co → m_threads (tm s) !! t = Some th →
     c_thread co = Some (Z.of_nat t) ↔ m_core th = Some (Z.of_nat c)).
Proof.
  intros (Hp & _ & _)%pinned_runs_inv. destruct (pl_machine _ _ Hp) as [M1 M2].
  assert (Hcs : ∀ c co, cores s !! c = Some co → places s !! c = Some (c_thread co)).
  { intros c co Hc. unfold places. by rewrite list_lookup_fmap, Hc. }
  assert (Hts : ∀ t th, m_threads (tm s) !! t = Some th → homes s !! t = Some (m_core th)).
  { intros t th Ht. unfold homes. by rewrite list_lookup_fmap, Ht. }
  split; [|split].
  - intros c co Hc%Hcs. destruct (lookup_lt_is_Some_2 (m_core_thread_running (sched s)) c) as [r Hr].
    { apply lookup_lt_Some in Hc. rewrite (pl_cores _ _ Hp) in Hc. by rewrite (bk_running _ (pl_books _ _ Hp)). }
    exists r. split; [done|]. rewrite (placed_occupant _ _ _ Hp Hr) in Hc. by injection Hc.
  - intros t th Ht%Hts. destruct (lookup_lt_is_Some_2 (m_thread_info (sched s)) t) as [i Hi].
    { apply lookup_lt_Some in Ht. pose proof (pl_infos _ _ Hp). lia. }
    exists i. split; [done|]. exact (pl_book _ _ Hp t i _ Hi Ht ltac:(by intros [])).
  - intros c co t th Hc%Hcs Ht%Hts. split; intros E.
    + rewrite E in Hc. apply M1 in Hc as [_ Hh]. rewrite Nat2Z.id in Hh. congruence.
    + rewrite E in Ht. apply M2 in Ht as [_ Hh]. rewrite Nat2Z.id in Hh. congruence.
Qed.

(** The threads that may run on the core now. *)
Definition candidate s (c : Z) (t : nat) (i : ThreadInfo) : Prop :=
  m_thread_info (sched s) !! t = Some i ∧
  ∃ r, m_threads_runnable (sched s) !! t = Some r ∧ eligible c i r.
Lemma score_range time i : - 2 ^ 63 ≤ score_of time i.
Proof.
  assert (Hs : ∀ z, - 2 ^ 63 ≤ s64 z) by (intros z; unfold s64; pose proof (Z.mod_pos_bound (z + 2 ^ 63) (2 ^ 64)); lia).
  unfold score_of. destruct (isRunning i); apply Hs.
Qed.

(** C26: In every state that a run reaches (where affinities are set for
    existing threads only) and in which a thread exists, rescheduling any core
    returns without an error (in particular the chain of calls through the
    hook for resumed threads ends, and no table is read out of range). A core
    that waits for the start of its thread is left alone. Otherwise the core
    gets a runnable thread whose affinity admits it and that is on no other
    core, with the highest score of all such threads (the longest time since
    it was descheduled, or the shortest time that the present thread has run),
    or stays free when no such thread has a score above the least 64-bit
    integer. The other cores that have a thread keep it; idle ones may be
    filled by the hook for resumed threads. *)
Theorem reschedule_serves_longest_waiting (mask : list bool) (rule : Rule) (bq cost q : Z) s
    (time c : Z) (is_periodic : bool) :
  rtc pinned_step (Pinned_new mask rule bq cost q) s →
  m_threads (tm s) ≠ [] → 0 ≤ c < Z.of_nat (length (cores s)) →
  ∃ s', reschedule time c is_periodic s = Ok (tt, s') ∧
    (starting s c → s' = s) ∧
    (¬ starting s c →
       (∃ t i, candidate s c t i ∧ (∀ u j, candidate s c u j → score_of time j ≤ score_of time i) ∧
          m_core_thread_running (sched s') !! Z.to_nat c = Some (Z.of_nat t)) ∨
       ((∀ u j, candidate s c u j → score_of time j = - 2 ^ 63) ∧
          m_core_thread_running (sched s') !! Z.to_nat c = Some INVALID_THREAD_ID)) ∧
    (∀ d t, d ≠ Z.to_nat c → m_core_thread_running (sched s) !! d = Some t → t ≠ INVALID_THREAD_ID →
       m_core_thread_running (sched s') !! d = Some t).
Proof.
  intros (Hp & Hr & Hb)%pinned_runs_inv Hne Hc.
  assert (Happ : length (cores s) = app_cores (sched s)).
  { rewrite <- (pl_cores _ _ Hp). unfold places. by rewrite length_fmap. }
  assert (Htab : tabled (sched s)).
  { apply (blocks_tabled _ 0%nat); [done|]. pose proof (pl_infos _ _ Hp) as Hl. unfold homes in Hl.
    rewrite length_fmap in Hl. destruct (m_threads (tm s)); simpl in Hl; [done|lia]. }
  rewrite Happ in Hc. destruct (reschedule_returns time c is_periodic s Hp Hr Htab Hc) as (s' & He & [_ Ro Rs Rc]).
  exists s'. split; [done|]. split; [done|]. split; [|done]. intros Hns. destruct (Rc Hns) as (new & Hch & Hnew).
  destruct (select_spec time c (app_cores (sched s)) (m_threads_runnable (sched s)) (m_thread_info (sched s)) 0
    INVALID_THREAD_ID (- 2 ^ 63)) as (new' & Hs & Hn); [exact Htab|apply (pl_books _ _ Hp)|done|].
  unfold chosen in Hch. rewrite Hch in Hs. injection Hs as <-.
  destruct Hn as [[-> Hall]|(j & i & -> & Hi & Hel & _ & Hall)]; [right|left].
  - split; [|done]. intros u j [Hj Hel]. pose proof (score_range time j). pose proof (Hall u j Hj Hel). lia.
  - exists j, i. split; [by split|]. split; [|done]. intros u k [Hk Hel']. by apply (Hall u k).
Qed.
End Spec.

(** * A run of three threads on two cores

    Threads 0 and 2 are pinned to core 0, thread 1 to core 1. *)
Section Example.
#[local] Existing Instance example_host.
Notation SP := (Sys SchedulerPinnedBase).
Definition after {A} (m : st SP A) (s : SP) : SP :=
  match m s with Ok (_, s') => s' | Err _ => s end.
Definition succeeds {A} (m : st SP A) (s : SP) : bool :=
  match m s with Ok _ => true | Err _ => false end.
Lemma succeeds_after {A} (m : st SP A) s : succeeds m s = true → ∃ a, m s = Ok (a, after m s).
Proof. unfold succeeds, after. destruct (m s) as [[a s']|]; [eauto|done]. Qed.
Lemma after_create app s :
  succeeds (createThread_unlocked false app) s = true → pinned_step s (after (createThread_unlocked false app) s).
Proof. intros [a He]%succeeds_after. by eapply ps_create. Qed.
Lemma after_start t time s :
  succeeds (onThreadStart t time) s = true → pinned_step s (after (onThreadStart t time) s).
Proof. intros [[] He]%succeeds_after. by eapply ps_start. Qed.

Definition no_threads : SP := Pinned_new [true; true] (SchedulerPinned 1 0) 100 10 1000000.
Definition three_threads : SP :=
  after (onThreadStart 2 0) (after (onThreadStart 1 0) (after (onThreadStart 0 0)
    (after (createThread_unlocked false 0) (after (createThread_unlocked false 0)
      (after (createThread_unlocked false 0) no_threads))))).
Lemma three_threads_reachable : rtc pinned_step no_threads three_threads.
Proof.
  unfold three_threads.
  eapply rtc_r; [|apply (after_start 2 0); vm_compute; reflexivity].
  eapply rtc_r; [|apply (after_start 1 0); vm_compute; reflexivity].
  eapply rtc_r; [|apply (after_start 0 0); vm_compute; reflexivity].
  eapply rtc_r; [|apply (after_create 0); vm_compute; reflexivity].
  eapply rtc_r; [|apply (after_create 0); vm_compute; reflexivity].
  eapply rtc_r; [apply rtc_refl|apply (after_create 0); vm_compute; reflexivity].
Qed.
#[local] Instance pinned_host_ok : HostOk.
Proof. by constructor. Qed.

Lemma pinned_tables_agree_witness :
  c_thread <$> cores three_threads = [Some 0; Some 1] ∧
  ∀ c co, cores three_threads !! c = Some co →
    ∃ r, m_core_thread_running (sched three_threads) !! c = Some r ∧ c_thread co = occupant r.
Proof.
  split; [vm_compute; reflexivity|].
  apply (pinned_tables_agree [true; true] (SchedulerPinned 1 0) 100 10 1000000 three_threads three_threads_reachable).
Defined.

(** Thread 0 has run for five microseconds, and thread 2 has waited for them. *)
Lemma reschedule_serves_longest_waiting_witness :
  m_core_thread_running (sched three_threads) = [0; 1] ∧
  ∃ s', reschedule 5000000000 0 false three_threads = Ok (tt, s') ∧
    m_core_thread_running (sched s') !! 1%nat = Some 1.
Proof.
  split; [vm_compute; reflexivity|].
  destruct (reschedule_serves_longest_waiting [true; true] (SchedulerPinned 1 0) 100 10 1000000 three_threads
    5000000000 0 false three_threads_reachable) as (s' & He & _ & _ & Ho).
  - apply (bool_decide_unpack _). vm_compute. exact I.
  - replace (length (cores three_threads)) with 2%nat by (vm_compute; reflexivity). lia.
  - exists s'. split; [exact He|]. apply Ho; [done|vm_compute; reflexivity|done].
Defined.
End Example.
