(* ===== verification/OpenPolicies.v ===== *)
(** The policies of the open scheduler (common/scheduler/policies): the
    mapping policies [MapFirstUnused] and the mapping part of [PCGov], and the
    DVFS policies that pick a frequency per core.  The arithmetic of floating
    point numbers, the thermal model and the power model are arguments. *)
From S2P Require Import Prelude SubsecondTime System SchedulerPinned.
Local Open Scope Z_scope.

(** [std::vector::at]. *)
Definition at_ {A} (l : list A) (i : Z) : res A :=
  match (if i <? 0 then None else l !! Z.to_nat i) with
  | Some x => Ok x
  | None => Err (ErrLog "std::out_of_range")
  end.
Definition cores_upto (n : Z) : list Z := Z.of_nat <$> seq 0 (Z.to_nat n).

(** * Interfaces *)

(** [MappingPolicy::map(taskName, taskCoreRequirement, availableCores,
    activeCores)]: fewer cores than required mean that the task cannot run. *)
Class MappingPolicy : Type :=
  mp_map : string → Z → list bool → list bool → res (list Z).
Class MappingPolicyOk `{MappingPolicy} : Prop :=
  mp_map_ok name req available active cores :
    mp_map name req available active = Ok cores → 0 ≤ req →
    Z.of_nat (length cores) < req ∨
    (Z.of_nat (length cores) = req ∧ NoDup cores ∧
     ∀ c, c ∈ cores → 0 ≤ c ∧ available !! Z.to_nat c = Some true).

(** [DVFSPolicy::getFrequencies(oldFrequencies, activeCores)] at a time, with
    the performance counters of that time. *)
Definition DVFSPolicy : Type := Z → list Z → list bool → res (list Z).
(** [MigrationPolicy::migrate(time, taskIds, activeCores)]. *)
Record migration : Type := { fromCore : Z; toCore : Z; swap : bool }.
Definition MigrationPolicy : Type := Z → list Z → list bool → list migration.

(** * MapFirstUnused *)
Definition preferredCoresOrder (coreRows coreColumns : Z) (preferred : list Z) : list Z :=
  foldl (λ l i, if bool_decide (i ∈ l) then l else l ++ [i]) preferred (cores_upto (coreRows * coreColumns)).
Fixpoint first_unused (req : Z) (available : list bool) (order cores : list Z) : res (list Z) :=
  match order with
  | [] => Ok []
  | c :: order =>
      let? a := at_ available c in
      if (a : bool) then
        let cores := cores ++ [c] in
        if Z.of_nat (length cores) =? req then Ok cores else first_unused req available order cores
      else first_unused req available order cores
  end.
Definition MapFirstUnused (coreRows coreColumns : Z) (preferred : list Z) : MappingPolicy :=
  λ taskName req available active,
    first_unused req available (preferredCoresOrder coreRows coreColumns preferred) [].

(** * PCGov

    Numbers of type [float] and [double]; [f_narrow] rounds to a [float]. *)
Class FloatOps (F : Type) : Type := {
  f_zero : F;
  f_lowest : F;
  f_gt : F → F → bool;
  f_le : F → F → bool;
  f_eq : F → F → bool;
  f_add : F → F → F;
  f_sub : F → F → F;
  f_mul : F → F → F;
  f_div : F → F → F;
  f_of_int : Z → F;
  f_narrow : F → F }.

Section PCGov.
Context {F : Type} `{FloatOps F}.

Definition manhattanDistance (y1 x1 y2 x2 : Z) : Z := Z.abs (y1 - y2) + Z.abs (x1 - x2).
Definition getCoreAMD (coreRows coreColumns coreY coreX : Z) : F :=
  let md_sum := foldl (λ s y, foldl (λ s x, s + manhattanDistance coreY coreX y x) s (cores_upto coreRows))
                  0 (cores_upto coreColumns) in
  f_div (f_div (f_of_int md_sum) (f_of_int coreColumns)) (f_of_int coreRows).
Definition amds_of (coreRows coreColumns : Z) : list F :=
  concat ((λ y, (λ x, getCoreAMD coreRows coreColumns y x) <$> cores_upto coreRows) <$> cores_upto coreColumns).
(** A [std::set]: in ascending order, without repetitions. *)
Fixpoint set_insert (a : F) (l : list F) : list F :=
  match l with
  | [] => [a]
  | b :: l => if f_gt b a then a :: b :: l else if f_gt a b then b :: set_insert a l else b :: l
  end.

(** [tspForManyCandidates] of the thermal model. *)
Context (tspForManyCandidates : list bool → list Z → list F).

Fixpoint best_of (tsps : list F) (i : Z) (bestTSP : F) (bestIndex : Z) : F * Z :=
  match tsps with
  | [] => (bestTSP, bestIndex)
  | t :: tsps => if f_gt t bestTSP then best_of tsps (i + 1) (f_narrow t) i else best_of tsps (i + 1) bestTSP bestIndex
  end.
(** The greedy selection: [n] more cores. *)
Fixpoint select_cores (n : nat) (amds : list F) (active : list bool) (available selected : list Z)
    (mappingTSP maxUsedAMD : F) : res (list Z * F * F) :=
  match n with
  | O => Ok (selected, mappingTSP, maxUsedAMD)
  | S n =>
      let '(bestTSP, bestIndex) := best_of (tspForManyCandidates active available) 0 f_zero 0 in
      let? core := at_ available bestIndex in
      let? a := at_ amds core in
      let? active := updz active core (λ _, true) in
      select_cores n amds active (take (Z.to_nat bestIndex) available ++ drop (S (Z.to_nat bestIndex)) available)
        (selected ++ [core]) bestTSP (if f_gt a maxUsedAMD then a else maxUsedAMD)
  end.
Fixpoint cores_below (amds : list F) (available : list bool) (amdMax : F) (ids : list Z) : res (list Z) :=
  match ids with
  | [] => Ok []
  | i :: ids =>
      let? v := at_ available i in
      let? keep := (if (v : bool) then let? a := at_ amds i in Ok (f_le a amdMax) else Ok false) in
      let? l := cores_below amds available amdMax ids in
      Ok (if (keep : bool) then i :: l else l)
  end.
Fixpoint getMappingCandidates (cores : Z) (amds uniqueAMDs : list F) (req : Z) (available active : list bool) :
    res (list (F * F * list Z)) :=
  match uniqueAMDs with
  | [] => Ok []
  | amdMax :: uniqueAMDs =>
      let? below := cores_below amds available amdMax (cores_upto cores) in
      let? candidate :=
        (if req <=? Z.of_nat (length below) then
           let? r := select_cores (Z.to_nat req) amds active below [] f_zero f_zero in
           let '(selected, mappingTSP, maxUsedAMD) := r in
           Ok (if f_eq maxUsedAMD amdMax then [(amdMax, mappingTSP, selected)] else [])
         else Ok []) in
      let? l := getMappingCandidates cores amds uniqueAMDs req available active in
      Ok (candidate ++ l)
  end.
Fixpoint best_mapping (alpha minAmd minPowerBudget : F) (l : list (F * F * list Z)) (i : Z) (bestRating : F)
    (best : Z) : Z :=
  match l with
  | [] => best
  | (amdMax, powerBudget, _) :: l =>
      let rating := f_sub (f_sub powerBudget minPowerBudget) (f_mul alpha (f_sub amdMax minAmd)) in
      if f_gt rating bestRating then best_mapping alpha minAmd minPowerBudget l (i + 1) rating i
      else best_mapping alpha minAmd minPowerBudget l (i + 1) bestRating best
  end.
Definition PCGov (coreRows coreColumns : Z) : MappingPolicy :=
  λ taskName req available active,
    let amds := amds_of coreRows coreColumns in
    let uniqueAMDs := foldl (λ l a, set_insert a l) [] amds in
    let? candidates := getMappingCandidates (coreRows * coreColumns) amds uniqueAMDs req available active in
    match candidates with
    | [] => Ok []
    | [c] => Ok c.2
    | (minAmd, minPowerBudget, _) as first :: _ =>
        let '(maxAmd, maxPowerBudget, _) := List.last candidates first in
        let alpha := f_div (f_sub maxPowerBudget minPowerBudget) (f_sub maxAmd minAmd) in
        let? m := at_ candidates (best_mapping alpha minAmd minPowerBudget candidates 0 f_lowest 0) in
        Ok m.2
    end.
End PCGov.

(** * DVFS policies *)

(** [PowerModel::getExpectedGoodFrequency]: [fits f] tells whether the
    estimated power at [f] respects the budget. *)
Fixpoint good_frequency (fuel : nat) (fits : Z → bool) (maxFrequency step f good : Z) : res Z :=
  match fuel with
  | O => Err ErrFuel
  | S fuel =>
      if f <=? maxFrequency then
        let good := if fits f then f else good in
        let? f := int_add f step in
        good_frequency fuel fits maxFrequency step f good
      else Ok good
  end.
Definition getExpectedGoodFrequency (fits : Z → bool) (minFrequency maxFrequency step : Z) : res Z :=
  let? good := good_frequency (Z.to_nat (maxFrequency - minFrequency) + 2) fits maxFrequency step
                 minFrequency minFrequency in
  let good := if maxFrequency <? good then maxFrequency else good in
  Ok (if good <? minFrequency then minFrequency else good).

Fixpoint per_core (f : Z → res Z) (ids : list Z) : res (list Z) :=
  match ids with
  | [] => Ok []
  | i :: ids => let? a := f i in let? l := per_core f ids in Ok (a :: l)
  end.

Section DvfsPolicies.
Context (coreRows coreColumns minFrequency maxFrequency frequencyStepSize : Z).

Definition DVFSMaxFreq : DVFSPolicy := λ time old active,
  per_core (λ c, let? a := at_ active c in
                 (if (a : bool) then let? _ := at_ old c in Ok tt else Ok tt);?
                 Ok maxFrequency) (cores_upto (coreRows * coreColumns)).
Definition DVFSTestStaticPower : DVFSPolicy := λ time old active,
  per_core (λ c, let? _ := at_ old c in Ok (if c mod 2 =? 0 then minFrequency else maxFrequency))
    (cores_upto (coreRows * coreColumns)).
(** [DVFSFixedPower] and [DVFSTSP] differ in their budget only: [fits time c
    frequency f] for core [c] at its present frequency. *)
Definition DVFSPowerBudget (fits : Z → Z → Z → Z → bool) : DVFSPolicy := λ time old active,
  per_core (λ c, let? a := at_ active c in
                 if (a : bool) then
                   let? frequency := at_ old c in
                   getExpectedGoodFrequency (fits time c frequency) minFrequency maxFrequency frequencyStepSize
                 else Ok minFrequency) (cores_upto (coreRows * coreColumns)).
End DvfsPolicies.

(** ** The frequencies of PCGov

    The cores of the policy are idle, bound by computation or by memory. *)
Inductive PCGovState : Type := IDLE | COMPUTE | MEMORY.
Record PCGovCore (F : Type) : Type := { threadState : PCGovState; powerBudget : F }.
Arguments Build_PCGovCore {F}.
Arguments threadState {F}.
Arguments powerBudget {F}.

Section PCGovFrequencies.
Context {F : Type} `{FloatOps F} (maxFrequency : Z) (delta inactivePower : F).
(** The performance counters of the epoch, [tsp] of the thermal model and
    whether a frequency keeps the estimated power within a budget. *)
Context (getUtilizationOfCore getPowerOfCore : Z → F) (tsp : list bool → F).

(** The new state of a core, and whether the budgets have to change. *)
Definition update_core (power utilization : F) (frequency : Z) (c : PCGovCore F) : PCGovCore F * bool :=
  let busy := f_gt utilization f_zero in
  let unused := f_eq utilization f_zero in
  let power := if busy then power else f_zero in
  let atMaximumFrequency := frequency =? maxFrequency in
  let low := f_gt (f_sub (powerBudget c) delta) power in
  let idle := {| threadState := IDLE; powerBudget := inactivePower |} in
  let compute := {| threadState := COMPUTE; powerBudget := f_of_int (-1) |} in
  let memory := {| threadState := MEMORY; powerBudget := f_add power delta |} in
  match threadState c with
  | IDLE => if busy then (compute, true) else (c, false)
  | COMPUTE => if unused then (idle, true) else if atMaximumFrequency && low then (memory, true) else (c, false)
  | MEMORY =>
      if unused then (idle, true)
      else if negb atMaximumFrequency || f_gt power (powerBudget c) then (compute, true)
      else if low then (memory, true) else (c, false)
  end.
Fixpoint update_cores (i : Z) (oldFrequencies : list Z) (l : list (PCGovCore F)) : res (list (PCGovCore F) * bool) :=
  match l with
  | [] => Ok ([], false)
  | c :: l =>
      let? frequency := at_ oldFrequencies i in
      let r := update_core (getPowerOfCore i) (getUtilizationOfCore i) frequency c in
      let? rest := update_cores (i + 1) oldFrequencies l in
      Ok (r.1 :: rest.1, r.2 || rest.2)
  end.
Definition is_compute (c : PCGovCore F) : bool := match threadState c with COMPUTE => true | _ => false end.
Definition updatePowerBudgets (oldFrequencies : list Z) (l : list (PCGovCore F)) : res (list (PCGovCore F)) :=
  let? r := update_cores 0 oldFrequencies l in
  let '(l, recalculateComputeBound) := r in
  if (recalculateComputeBound : bool) then
    let uniformPerCorePowerBudget := f_narrow (tsp (is_compute <$> l)) in
    Ok ((λ c, if is_compute c then {| threadState := COMPUTE; powerBudget := uniformPerCorePowerBudget |} else c) <$> l)
  else Ok l.
Definition PCGov_getFrequencies (minFrequency frequencyStepSize : Z) (fits : Z → F → F → Z → bool)
    (oldFrequencies : list Z) (activeCores : list bool) (l : list (PCGovCore F)) : res (list Z * list (PCGovCore F)) :=
  let? l := updatePowerBudgets oldFrequencies l in
  let? frequencies := per_core (λ c,
    let? a := at_ activeCores c in
    if (a : bool) then
      let? core := at_ l c in
      let? frequency := at_ oldFrequencies c in
      getExpectedGoodFrequency (fits frequency (f_narrow (getPowerOfCore c)) (f_narrow (powerBudget core)))
        minFrequency maxFrequency frequencyStepSize
    else Ok minFrequency) (cores_upto (Z.of_nat (length l))) in
  Ok (frequencies, l).
End PCGovFrequencies.

(** * What the policies promise *)

(** The largest frequency of the steps that fits the budget, or the least one. *)
Lemma good_frequency_best fuel fits max step f good :
  0 < step → max + step < 2 ^ 31 → - 2 ^ 31 ≤ f → (Z.to_nat (max - f + 1) + 1 ≤ fuel)%nat →
  ∃ g, good_frequency fuel fits max step f good = Ok g ∧
    ((g = good ∧ ∀ k, 0 ≤ k → f + k * step ≤ max → fits (f + k * step) = false) ∨
     (f ≤ g ≤ max ∧ fits g = true ∧ ∃ k, 0 ≤ k ∧ g = f + k * step ∧
        ∀ j, k < j → f + j * step ≤ max → fits (f + j * step) = false)).
Proof.
  intros Hs Hm. revert f good. induction fuel as [|fuel IH]; intros f good Hf Hfuel; [lia|]. simpl.
  destruct (Z.leb_spec f max) as [Hle|Hgt]; [|exists good; split; [done|left; split; [done|]; intros k Hk Hkm; nia]].
  unfold int_add. rewrite (proj2 (Z.leb_le _ _)), (proj2 (Z.ltb_lt _ _)) by lia. cbn [res_bind andb].
  assert (Hshift : ∀ k, f + step + (k - 1) * step = f + k * step) by (intros k; lia).
  destruct (IH (f + step) (if fits f then f else good)) as (g & Hg & Hcase); [lia|lia|]. exists g. split; [done|].
  destruct Hcase as [[-> Hnone]|(Hr & Hfit & k & Hk & -> & Hlast)].
  - assert (Hnext : ∀ k, 0 < k → f + k * step ≤ max → fits (f + k * step) = false).
    { intros k Hk Hkm. rewrite <- Hshift in *. apply Hnone; [lia|done]. }
    destruct (fits f) eqn:Hff; [right|left].
    + split; [lia|]. split; [done|]. exists 0. split; [lia|]. split; [lia|]. done.
    + split; [done|]. intros k Hk Hkm. destruct (decide (k = 0)) as [->|]; [by rewrite Z.mul_0_l, Z.add_0_r|].
      apply Hnext; [lia|done].
  - right. split; [lia|]. split; [done|]. exists (k + 1). split; [lia|]. split; [lia|]. intros j Hj Hjm.
    rewrite <- (Hshift j) in *. apply Hlast; [lia|done].
Qed.
Lemma getExpectedGoodFrequency_best fits min max step :
  - 2 ^ 31 ≤ min ≤ max → 0 < step → max + step < 2 ^ 31 →
  ∃ g, getExpectedGoodFrequency fits min max step = Ok g ∧ min ≤ g ≤ max ∧
    (g = min ∧ (∀ k, 0 < k → min + k * step ≤ max → fits (min + k * step) = false) ∨
     fits g = true ∧ ∃ k, 0 ≤ k ∧ g = min + k * step ∧
       ∀ j, k < j → min + j * step ≤ max → fits (min + j * step) = false).
Proof.
  intros Hr Hs Hm. unfold getExpectedGoodFrequency.
  destruct (good_frequency_best (Z.to_nat (max - min) + 2) fits max step min min Hs Hm) as (g & -> & Hg); [lia|lia|].
  cbn [res_bind]. assert (Hrange : min ≤ g ≤ max) by (destruct Hg as [[-> _]|[? _]]; lia).
  rewrite (proj2 (Z.ltb_ge max g)), (proj2 (Z.ltb_ge g min)) by lia. exists g. split; [done|]. split; [done|].
  destruct Hg as [[-> Hnone]|(_ & Hfit & Hk)]; [left|by right]. split; [done|]. intros k Hk. apply Hnone. lia.
Qed.
Lemma at_Ok {A} (l : list A) i x : at_ l i = Ok x ↔ 0 ≤ i ∧ l !! Z.to_nat i = Some x.
Proof.
  unfold at_. destruct (Z.ltb_spec i 0); [split; [done|lia]|].
  destruct (l !! Z.to_nat i); split; try done; [by intros [= ->]|by intros [_ [= ->]]|by intros [_ ?]].
Qed.
Lemma cores_upto_NoDup n : NoDup (cores_upto n).
Proof. unfold cores_upto. apply NoDup_fmap_2; [apply _|apply NoDup_seq]. Qed.
Lemma preferred_NoDup rows columns l : NoDup l → NoDup (preferredCoresOrder rows columns l).
Proof.
  unfold preferredCoresOrder. revert l. induction (cores_upto (rows * columns)) as [|c ids IH]; intros l Hl; simpl; [done|].
  apply IH. case_bool_decide; [done|]. apply NoDup_app. split; [done|]. split; [by intros ? ? ->%list_elem_of_singleton|].
  apply NoDup_singleton.
Qed.
Lemma first_unused_ok req available order cores l :
  first_unused req available order cores = Ok l → NoDup (cores ++ order) →
  Forall (λ c, 0 ≤ c ∧ available !! Z.to_nat c = Some true) cores →
  l = [] ∨ (Z.of_nat (length l) = req ∧ NoDup l ∧ Forall (λ c, 0 ≤ c ∧ available !! Z.to_nat c = Some true) l).
Proof.
  revert cores. induction order as [|c order IH]; intros cores; simpl; [intros [= <-] _ _; by left|].
  intros (a & [H0 Ha]%at_Ok & He)%res_bind_Ok Hn Hf.
  assert (Hn' : NoDup ((cores ++ [c]) ++ order)) by (by rewrite <- app_assoc).
  destruct a.
  - assert (Hf' : Forall (λ c, 0 ≤ c ∧ available !! Z.to_nat c = Some true) (cores ++ [c])).
    { apply Forall_app. split; [done|]. by constructor. }
    destruct (Z.eqb_spec (Z.of_nat (length (cores ++ [c]))) req) as [Hr|_]; [|by eapply IH].
    injection He as <-. right. split; [done|]. split; [|done]. by apply NoDup_app in Hn' as [? _].
  - eapply IH; [exact He| |done]. apply NoDup_app in Hn as (H1 & H2 & [_ H3]%NoDup_cons). apply NoDup_app. split; [done|].
    split; [|done]. intros d Hd Ho. apply (H2 d Hd). by right.
Qed.
Lemma MapFirstUnused_ok rows columns preferred :
  NoDup preferred → MappingPolicyOk (H := MapFirstUnused rows columns preferred).
Proof.
  intros Hp name req available active cores He Hreq. unfold mp_map, MapFirstUnused in He.
  apply first_unused_ok in He; [|by apply preferred_NoDup|done].
  destruct He as [->|(Hl & Hn & Hf)].
  - simpl. destruct (decide (req = 0)) as [->|]; [right|left; lia]. split; [done|]. split; [constructor|]. by intros c ?%elem_of_nil.
  - right. split; [done|]. split; [done|]. by apply Forall_forall.
Qed.

Section PCGovOk.
Context {F : Type} `{FloatOps F} (tspForManyCandidates : list bool → list Z → list F).

Lemma select_cores_ok n amds active available selected tsp amd r tsp' amd' :
  select_cores tspForManyCandidates n amds active available selected tsp amd = Ok (r, tsp', amd') →
  NoDup (selected ++ available) →
  length r = (n + length selected)%nat ∧ NoDup r ∧ ∀ c, c ∈ r → c ∈ selected ++ available.
Proof.
  revert active available selected tsp amd. induction n as [|n IH]; intros active available selected tsp amd; simpl.
  { intros [= <- _ _] Hn. apply NoDup_app in Hn as (? & _). split; [done|]. split; [done|]. intros c Hc. apply elem_of_app. by left. }
  destruct (best_of _ _ _ _) as [t i]. intros (core & [H0 Hcore]%at_Ok & He)%res_bind_Ok Hn.
  apply res_bind_Ok in He as (a & _ & He). apply res_bind_Ok in He as (act & _ & He).
  pose proof (take_drop_middle available (Z.to_nat i) core Hcore) as Hsplit.
  assert (Hperm : (selected ++ [core]) ++ take (Z.to_nat i) available ++ drop (S (Z.to_nat i)) available ≡ₚ selected ++ available).
  { rewrite <- app_assoc. apply Permutation_app_head. rewrite <- Hsplit at 3. simpl. apply Permutation_middle. }
  apply IH in He as (Hl & Hnd & Hin); [|by rewrite Hperm].
  split; [rewrite Hl, length_app; simpl; lia|]. split; [done|]. intros c Hc. rewrite <- Hperm. by apply Hin.
Qed.
Lemma cores_below_ok amds available amdMax ids l :
  cores_below amds available amdMax ids = Ok l → NoDup ids →
  NoDup l ∧ ∀ c, c ∈ l → c ∈ ids ∧ 0 ≤ c ∧ available !! Z.to_nat c = Some true.
Proof.
  revert l. induction ids as [|i ids IH]; intros l; simpl.
  { intros [= <-] _. split; [constructor|]. by intros c ?%elem_of_nil. }
  intros (v & [H0 Hv]%at_Ok & He)%res_bind_Ok [Hi Hn]%NoDup_cons.
  apply res_bind_Ok in He as (keep & Hk & He). apply res_bind_Ok in He as (l' & Hl' & He).
  destruct (IH l' Hl' Hn) as [Hnd Hin]. destruct keep; injection He as <-.
  - assert (v = true) as -> by (by destruct v). split.
    + constructor; [|done]. intros Hc. by apply Hin in Hc as [? _].
    + intros c [->|Hc]%elem_of_cons; [split; [by left|done]|]. destruct (Hin c Hc) as (? & ? & ?). split; [by right|done].
  - split; [done|]. intros c Hc. destruct (Hin c Hc) as (? & ? & ?). split; [by right|done].
Qed.
Lemma candidates_ok cores amds unique req available active l :
  getMappingCandidates tspForManyCandidates cores amds unique req available active = Ok l → 0 ≤ req →
  Forall (λ m : F * F * list Z, Z.of_nat (length m.2) = req ∧ NoDup m.2 ∧
    ∀ c, c ∈ m.2 → 0 ≤ c ∧ available !! Z.to_nat c = Some true) l.
Proof.
  intros He Hreq. revert l He. induction unique as [|amdMax unique IH]; intros l; simpl; [intros [= <-]; constructor|].
  intros (below & Hb & He)%res_bind_Ok. apply res_bind_Ok in He as (cand & Hc & He).
  apply res_bind_Ok in He as (l' & Hl' & [= <-]). apply Forall_app. split; [|by apply IH].
  case_match; [|injection Hc as <-; constructor]. apply res_bind_Ok in Hc as ([[sel tsp] amd] & Hs & Hc).
  destruct (cores_below_ok _ _ _ _ _ Hb (cores_upto_NoDup _)) as [Hn Hin].
  apply select_cores_ok in Hs as (Hl & Hnd & Hsub); [|done]. case_match; injection Hc as <-; [|constructor].
  constructor; [|constructor]. simpl. split; [simpl in Hl; lia|]. split; [done|]. intros c Hc'. by apply Hin, Hsub.
Qed.
Lemma PCGov_ok rows columns : MappingPolicyOk (H := PCGov tspForManyCandidates rows columns).
Proof.
  intros name req available active cores He Hreq. unfold mp_map, PCGov in He.
  apply res_bind_Ok in He as (l & Hl & He). apply candidates_ok in Hl; [|done].
  assert (Hin : ∀ m : F * F * list Z, m ∈ l → cores = m.2 → Z.of_nat (length cores) < req ∨
    (Z.of_nat (length cores) = req ∧ NoDup cores ∧ ∀ c, c ∈ cores → 0 ≤ c ∧ available !! Z.to_nat c = Some true)).
  { intros m Hm ->. right. exact (proj1 (Forall_forall _ _) Hl m Hm). }
  destruct l as [|c [|c2 l]].
  - injection He as <-. destruct (decide (req = 0)) as [->|]; [right|left; simpl; lia].
    split; [done|]. split; [constructor|]. by intros c ?%elem_of_nil.
  - destruct c as [[a b] cs]. injection He as <-. apply (Hin (a, b, cs)); [by left|done].
  - destruct c as [[minA minP] cs]. set (all := _ :: _ :: l) in *. destruct (List.last all _) as [[maxA maxP] cl].
    apply res_bind_Ok in He as (m & [_ Hm]%at_Ok & [= <-]). apply (Hin m); [by eapply list_elem_of_lookup_2|done].
Qed.
End PCGovOk.

(** * The choice of MapFirstUnused *)
Definition free_cores (available : list bool) (order : list Z) : list Z :=
  filter (λ c, available !! Z.to_nat c = Some true) order.
Lemma first_unused_spec req available order cores :
  Forall (λ c, 0 ≤ c < Z.of_nat (length available)) order → Z.of_nat (length cores) < req →
  first_unused req available order cores =
    Ok (if Z.of_nat (length cores + length (free_cores available order)) <? req then []
        else cores ++ take (Z.to_nat req - length cores) (free_cores available order)).
Proof.
  revert cores. induction order as [|c order IH]; intros cores Hr Hl; unfold free_cores; simpl.
  { rewrite (proj2 (Z.ltb_lt _ _)) by lia. done. }
  apply Forall_cons in Hr as [Hc Hr]. destruct (lookup_lt_is_Some_2 available (Z.to_nat c)) as [a Ha]; [lia|].
  assert (Hat : at_ available c = Ok a) by (apply at_Ok; split; [lia|done]). rewrite Hat. cbn [res_bind].
  fold (free_cores available order). rewrite filter_cons, Ha. destruct a.
  - rewrite decide_True by done. fold (free_cores available order).
    replace (Z.to_nat req - length cores)%nat with (S (Z.to_nat req - length (cores ++ [c]))) by (rewrite length_app; simpl; lia).
    cbn [take length]. destruct (Z.eqb_spec (Z.of_nat (length (cores ++ [c]))) req) as [Heq|Hne].
    + rewrite length_app in *. simpl in *. rewrite (proj2 (Z.ltb_ge _ _)) by lia.
      replace (Z.to_nat req - _)%nat with 0%nat by lia. done.
    + rewrite IH by (done || rewrite length_app in *; simpl in *; lia). rewrite length_app in *. simpl in *.
      replace (length cores + 1 + length (free_cores available order))%nat
        with (length cores + S (length (free_cores available order)))%nat by lia.
      destruct (_ <? _); [done|]. by rewrite <- app_assoc.
  - rewrite decide_False by done. fold (free_cores available order). by rewrite IH.
Qed.
Lemma preferred_range rows columns preferred n :
  Forall (λ c, 0 ≤ c < n) preferred → rows * columns ≤ n →
  Forall (λ c, 0 ≤ c < n) (preferredCoresOrder rows columns preferred).
Proof.
  intros Hp Hn. unfold preferredCoresOrder. assert (Hc : Forall (λ c, 0 ≤ c < n) (cores_upto (rows * columns))).
  { unfold cores_upto. apply Forall_fmap, Forall_forall. intros i Hi%elem_of_seq. simpl. lia. }
  revert preferred Hp. induction Hc as [|c l Hc _ IH]; intros preferred Hp; simpl; [done|]. apply IH.
  case_bool_decide; [done|]. apply Forall_app. split; [done|]. by constructor.
Qed.

(** [MapFirstUnused] gives a task the first cores that are free, in the
    order of preference (the preferred cores, then the others by number), and
    no core at all when fewer are free than the task needs.  It never fails
    when the preferred cores exist, and it keeps the contract that the
    scheduler relies on when no core is preferred twice. *)
Theorem MapFirstUnused_takes_first_free (rows columns : Z) (preferred : list Z) (name : string) (req : Z)
    (available active : list bool) :
  Forall (λ c, 0 ≤ c < Z.of_nat (length available)) preferred → rows * columns ≤ Z.of_nat (length available) →
  NoDup preferred → 0 < req →
  let free := free_cores available (preferredCoresOrder rows columns preferred) in
  MapFirstUnused rows columns preferred name req available active =
    Ok (if Z.of_nat (length free) <? req then [] else take (Z.to_nat req) free) ∧
  MappingPolicyOk (H := MapFirstUnused rows columns preferred).
Proof.
  intros Hp Hn Hd Hreq free. split; [|by apply MapFirstUnused_ok]. unfold MapFirstUnused.
  rewrite first_unused_spec; [simpl; by rewrite Nat.sub_0_r|by apply preferred_range|done].
Qed.
Lemma MapFirstUnused_takes_first_free_witness :
  MapFirstUnused 2 2 [3] "parsec-blackscholes-simsmall-1" 2 [false; true; false; true] [] = Ok [3; 1] ∧
  MappingPolicyOk (H := MapFirstUnused 2 2 [3]).
Proof.
  apply (MapFirstUnused_takes_first_free 2 2 [3] "parsec-blackscholes-simsmall-1" 2 [false; true; false; true] []).
  - constructor; [simpl; lia|constructor].
  - simpl. lia.
  - apply NoDup_singleton.
  - lia.
Defined.
