(* ===== verification/SchedulerOpen.v ===== *)
(** The scheduler for open systems (common/scheduler/scheduler_open.cc): tasks
    arrive over time, wait in a queue, get cores from a mapping policy for all
    their threads, and leave.  It extends the pinned scheduler, whose state is
    the member [base], and drives the frequencies of the cores. *)
From S2P Require Import Prelude SubsecondTime System ThreadManager Dvfs SchedulerPinned OpenPolicies.
From Stdlib Require Import Ascii.
Local Open Scope Z_scope.

(** * Strings *)

(** [std::string::find(char, pos)] as an [int], [substr] and [atoi]. *)
Definition npos : Z := -1.
Definition find (c : ascii) (pos : Z) (s : string) : Z :=
  match String.index (Z.to_nat pos) (String c EmptyString) s with
  | Some i => Z.of_nat i
  | None => npos
  end.
Definition substr (s : string) (pos n : Z) : res string :=
  let len := Z.of_nat (String.length s) in
  if len <? pos then Err (ErrLog "std::out_of_range")
  else Ok (String.substring (Z.to_nat pos) (Z.to_nat (Z.min n (len - pos))) s).
Definition is_space (c : ascii) : bool :=
  let n := Z.of_nat (nat_of_ascii c) in (n =? 32) || ((9 <=? n) && (n <=? 13)).
Fixpoint skip_space (s : string) : string :=
  match s with
  | EmptyString => s
  | String c s' => if is_space c then skip_space s' else s
  end.
Fixpoint digits (acc : Z) (s : string) : Z :=
  match s with
  | EmptyString => acc
  | String c s =>
      let n := Z.of_nat (nat_of_ascii c) in
      if (48 <=? n) && (n <=? 57) then digits (10 * acc + (n - 48)) s else acc
  end.
(** A value outside the range of [int] is undefined. *)
Definition atoi (s : string) : res Z :=
  let n := match skip_space s with
           | String c s' =>
               if Ascii.eqb c "-" then - digits 0 s' else if Ascii.eqb c "+" then digits 0 s'
               else digits 0 (String c s')
           | EmptyString => 0
           end in
  if (- 2 ^ 31 <=? n) && (n <? 2 ^ 31) then Ok n else Err ErrUndefined.

(** * The cores that a task needs

    The entry at position [parallelism - 1]; zeros are placeholders. *)
Definition from_to (a b : Z) : list Z := (λ i, a + Z.of_nat i) <$> seq 0 (Z.to_nat (b - a + 1)).
Definition powers_to_16 : list Z := [1; 2; 0; 4; 0; 0; 0; 8; 0; 0; 0; 0; 0; 0; 0; 16].
Definition parsec : list (string * list Z) :=
  [("blackscholes", from_to 2 16); ("bodytrack", from_to 3 16); ("canneal", from_to 2 16);
   ("dedup", [4; 7; 10; 13; 16]); ("ferret", [7; 11; 15]); ("fluidanimate", [2; 3; 0; 5; 0; 0; 0; 9]);
   ("streamcluster", from_to 2 16); ("swaptions", from_to 2 16); ("x264", [1; 3; 4; 5; 6; 7; 8; 9])].
Definition splash2 : list (string * list Z) :=
  [("barnes", from_to 1 16); ("cholesky", from_to 1 16); ("fft", powers_to_16); ("fmm", from_to 1 16);
   ("lu.cont", from_to 1 16); ("lu.ncont", from_to 1 16); ("ocean.cont", powers_to_16);
   ("ocean.ncont", powers_to_16); ("radiosity", from_to 1 16); ("radix", powers_to_16);
   ("raytrace", from_to 1 16); ("water.nsq", from_to 1 16); ("water.sp", powers_to_16)].
Definition requirements_in (l : list (string * list Z)) (benchmark : string) : list Z :=
  match list_find (λ e, e.1 = benchmark) l with
  | Some (_, e) => e.2
  | None => []
  end.
Definition coreRequirementTranslation (compositionString : string) : res Z :=
  let del1 := find "-" 0 compositionString in
  let del2 := find "-" (del1 + 1) compositionString in
  let del3 := find "-" (del2 + 1) compositionString in
  let? suite := substr compositionString 0 (u64 del1) in
  let? benchmark := substr compositionString (del1 + 1) (u64 (del2 - del1 - 1)) in
  let? _ := substr compositionString (del2 + 1) (u64 (del3 - del2 - 1)) in
  let? number := substr compositionString (del3 + 1)
                   (u64 (Z.of_nat (String.length compositionString) - del3 - 1)) in
  let? parallelism := atoi number in
  if parallelism <? 1 then Err (ErrLog "Can't find core requirement (parallelism < 1)") else
  let? requirements :=
    (if bool_decide (suite = "parsec"%string) then Ok (requirements_in parsec benchmark)
     else if bool_decide (suite = "splash2"%string) then Ok (requirements_in splash2 benchmark)
     else Err (ErrLog "Can't find core requirement (only PARSEC and SPLASH2 are implemented)")) in
  if parallelism - 1 <? Z.of_nat (length requirements) then at_ requirements (parallelism - 1)
  else Err (ErrLog "Can't find core requirement").

(** * Tasks and cores *)
Record openTask : Type := {
  taskID : Z;
  taskName : string;
  waitingToSchedule : bool;
  waitingInQueue : bool;
  active : bool;
  completed : bool;
  taskCoreRequirement : Z;
  taskArrivalTime : Z;
  taskStartTime : Z;
  taskDepartureTime : Z;
  priority : Z }.
Definition put_flags (waiting queued act done : bool) (t : openTask) : openTask :=
  {| taskID := taskID t; taskName := taskName t; waitingToSchedule := waiting; waitingInQueue := queued;
     active := act; completed := done; taskCoreRequirement := taskCoreRequirement t;
     taskArrivalTime := taskArrivalTime t; taskStartTime := taskStartTime t;
     taskDepartureTime := taskDepartureTime t; priority := priority t |}.
Definition put_task_times (arrival start departure : Z) (t : openTask) : openTask :=
  {| taskID := taskID t; taskName := taskName t; waitingToSchedule := waitingToSchedule t;
     waitingInQueue := waitingInQueue t; active := active t; completed := completed t;
     taskCoreRequirement := taskCoreRequirement t; taskArrivalTime := arrival; taskStartTime := start;
     taskDepartureTime := departure; priority := priority t |}.

(** The members that the constructor leaves without a value come from
    [garbage]. *)
Definition openTask_new (garbage : openTask) (id : Z) (name : string) : res openTask :=
  let? requirement := coreRequirementTranslation name in
  Ok {| taskID := id; taskName := name; waitingToSchedule := true; waitingInQueue := false;
        active := false; completed := false; taskCoreRequirement := requirement;
        taskArrivalTime := taskArrivalTime garbage; taskStartTime := taskStartTime garbage;
        taskDepartureTime := taskDepartureTime garbage; priority := priority garbage |}.

(** The names of the tasks: when the list is used up, the last name repeats. *)
Fixpoint openTasks_new (garbage : openTask) (n : nat) (id : Z) (benchmarks : string) : res (list openTask) :=
  match n with
  | O => Ok []
  | S n =>
      let pos := find "+" 0 benchmarks in
      let? name := substr benchmarks 0 (u64 pos) in
      let? task := openTask_new garbage id name in
      let? rest := substr benchmarks (if pos =? npos then 0 else pos + 1) (2 ^ 64 - 1) in
      let? l := openTasks_new garbage n (id + 1) rest in
      Ok (task :: l)
  end.

Record systemCore : Type := { coreID : Z; assignedTaskID : Z; assignedThreadID : Z }.
Definition systemCore_new (id : Z) : systemCore :=
  {| coreID := id; assignedTaskID := -1; assignedThreadID := -1 |}.
Definition assign (task thread : Z) (c : systemCore) : systemCore :=
  {| coreID := coreID c; assignedTaskID := task; assignedThreadID := thread |}.
Definition assign_task (task : Z) (c : systemCore) : systemCore := assign task (assignedThreadID c) c.
Definition assign_thread (thread : Z) (c : systemCore) : systemCore := assign (assignedTaskID c) thread c.

(** * The queues of tasks

    [std::priority_queue] with the comparison as an argument: [pq_top] is an
    element that is not less than any other; which one of several is not
    specified. *)
Definition ComparePriority (p1 p2 : openTask) : bool :=
  if priority p1 =? priority p2 then taskArrivalTime p2 <? taskArrivalTime p1
  else priority p1 <? priority p2.
Definition ComparePriorityAQ (p1 p2 : openTask) : bool := priority p2 <? priority p1.

Class PriorityQueue : Type := {
  pq : Type;
  pq_empty : pq;
  pq_push : (openTask → openTask → bool) → openTask → pq → pq;
  pq_top : (openTask → openTask → bool) → pq → res openTask;
  pq_pop : (openTask → openTask → bool) → pq → res pq;
  pq_elems : pq → list openTask }.
(** The comparisons that the standard admits: strict weak orders. *)
Class StrictWeakOrder (less : openTask → openTask → bool) : Prop := {
  sw_asym a b : less a b = true → less b a = false;
  sw_trans a b c : less a b = false → less b c = false → less a c = false }.
(** [top] and [pop] of an empty queue are undefined. *)
Class PriorityQueueOk `{PriorityQueue} : Prop := {
  pq_elems_empty : pq_elems pq_empty = [];
  pq_elems_push less t q : pq_elems (pq_push less t q) ≡ₚ t :: pq_elems q;
  pq_top_empty less q : pq_elems q = [] → pq_top less q = Err ErrUndefined ∧ pq_pop less q = Err ErrUndefined;
  pq_top_pop less q : StrictWeakOrder less → pq_elems q ≠ [] → ∃ t q', pq_top less q = Ok t ∧ pq_pop less q = Ok q' ∧
    pq_elems q ≡ₚ t :: pq_elems q' ∧ ∀ u, u ∈ pq_elems q' → less t u = false }.

(** * The scheduler *)
Record OpenConfig : Type := {
  queuePolicy : string;
  coreRows : Z;
  coreColumns : Z;
  mappingEpoch : Z;
  dvfsEpoch : Z;
  migrationEpoch : Z;
  minFrequency : Z;
  maxFrequency : Z;
  frequencyStepSize : Z;
  reserved_cores_are_active : bool }.

Section Open.
Context `{PriorityQueue}.

Record SchedulerOpen : Type := {
  base : SchedulerPinnedBase;
  cfg : OpenConfig;
  openTasks : list openTask;
  systemCores : list systemCore;
  waitingTaskQ : pq;
  ActiveTaskQ : pq;
  downscalingPatience : list Z;
  upscalingPatience : list Z;
  dvfs : DvfsManager }.
Definition numberOfTasks (x : SchedulerOpen) : Z := Z.of_nat (length (openTasks x)).
Definition numberOfCores (x : SchedulerOpen) : Z := Z.of_nat (length (systemCores x)).

Definition put_base (b : SchedulerPinnedBase) (x : SchedulerOpen) : SchedulerOpen :=
  {| base := b; cfg := cfg x; openTasks := openTasks x; systemCores := systemCores x;
     waitingTaskQ := waitingTaskQ x; ActiveTaskQ := ActiveTaskQ x;
     downscalingPatience := downscalingPatience x; upscalingPatience := upscalingPatience x; dvfs := dvfs x |}.
Definition put_tasks (l : list openTask) (x : SchedulerOpen) : SchedulerOpen :=
  {| base := base x; cfg := cfg x; openTasks := l; systemCores := systemCores x;
     waitingTaskQ := waitingTaskQ x; ActiveTaskQ := ActiveTaskQ x;
     downscalingPatience := downscalingPatience x; upscalingPatience := upscalingPatience x; dvfs := dvfs x |}.
Definition put_cores (l : list systemCore) (x : SchedulerOpen) : SchedulerOpen :=
  {| base := base x; cfg := cfg x; openTasks := openTasks x; systemCores := l;
     waitingTaskQ := waitingTaskQ x; ActiveTaskQ := ActiveTaskQ x;
     downscalingPatience := downscalingPatience x; upscalingPatience := upscalingPatience x; dvfs := dvfs x |}.
Definition put_queues (w a : pq) (x : SchedulerOpen) : SchedulerOpen :=
  {| base := base x; cfg := cfg x; openTasks := openTasks x; systemCores := systemCores x;
     waitingTaskQ := w; ActiveTaskQ := a;
     downscalingPatience := downscalingPatience x; upscalingPatience := upscalingPatience x; dvfs := dvfs x |}.
Definition put_patience (down up : list Z) (x : SchedulerOpen) : SchedulerOpen :=
  {| base := base x; cfg := cfg x; openTasks := openTasks x; systemCores := systemCores x;
     waitingTaskQ := waitingTaskQ x; ActiveTaskQ := ActiveTaskQ x;
     downscalingPatience := down; upscalingPatience := up; dvfs := dvfs x |}.
Definition put_dvfs (d : DvfsManager) (x : SchedulerOpen) : SchedulerOpen :=
  {| base := base x; cfg := cfg x; openTasks := openTasks x; systemCores := systemCores x;
     waitingTaskQ := waitingTaskQ x; ActiveTaskQ := ActiveTaskQ x;
     downscalingPatience := downscalingPatience x; upscalingPatience := upscalingPatience x; dvfs := d |}.

Notation Own := (st SchedulerOpen).
Definition task_at (i : Z) : Own openTask := let! l := gets openTasks in lift (rdz l i).
Definition upd_task (i : Z) (f : openTask → openTask) : Own unit :=
  let! l := gets openTasks in let! l := lift (updz l i f) in modify (put_tasks l).
Definition core_at (i : Z) : Own systemCore := let! l := gets systemCores in lift (rdz l i).
Definition upd_syscore (i : Z) (f : systemCore → systemCore) : Own unit :=
  let! l := gets systemCores in let! l := lift (updz l i f) in modify (put_cores l).
Definition waiting_top : Own openTask := let! q := gets waitingTaskQ in lift (pq_top ComparePriority q).
Definition waiting_pop : Own unit :=
  let! q := gets waitingTaskQ in let! q := lift (pq_pop ComparePriority q) in
  modify (λ x, put_queues q (ActiveTaskQ x) x).
Definition waiting_push (t : openTask) : Own unit :=
  modify (λ x, put_queues (pq_push ComparePriority t (waitingTaskQ x)) (ActiveTaskQ x) x).
Definition active_top : Own openTask := let! q := gets ActiveTaskQ in lift (pq_top ComparePriorityAQ q).
Definition active_pop : Own unit :=
  let! q := gets ActiveTaskQ in let! q := lift (pq_pop ComparePriorityAQ q) in
  modify (λ x, put_queues (waitingTaskQ x) q x).
Definition active_push (t : openTask) : Own unit :=
  modify (λ x, put_queues (waitingTaskQ x) (pq_push ComparePriorityAQ t (ActiveTaskQ x)) x).

(** ** Counting *)
Definition isAssignedToTask (c : systemCore) : bool := negb (assignedTaskID c =? -1).
Definition isAssignedToThread (c : systemCore) : bool := negb (assignedThreadID c =? -1).
Definition count_tasks (p : openTask → bool) (x : SchedulerOpen) : Z :=
  Z.of_nat (length (filter (λ t, p t = true) (openTasks x))).
Definition numberOfFreeCores (x : SchedulerOpen) : Z :=
  Z.of_nat (length (filter (λ c, assignedTaskID c = -1) (systemCores x))).
Definition numberOfTasksInQueue : SchedulerOpen → Z := count_tasks waitingInQueue.
Definition numberOfTasksWaitingToSchedule : SchedulerOpen → Z := count_tasks waitingToSchedule.
Definition numberOfTasksCompleted : SchedulerOpen → Z := count_tasks completed.
Definition numberOfActiveTasks : SchedulerOpen → Z := count_tasks active.
Definition totalCoreRequirementsOfActiveTasks (x : SchedulerOpen) : Z :=
  foldr (λ t n, (if active t then taskCoreRequirement t else 0) + n) 0 (openTasks x).

(** ** The queue *)
Definition isPriority (x : SchedulerOpen) : bool := bool_decide (queuePolicy (cfg x) = "priority"%string).
(** Tasks at the top that do not wait or have not arrived are dropped. *)
Fixpoint drop_unready (fuel : nat) (now : Z) : Own Z :=
  match fuel with
  | O => fail ErrFuel
  | S fuel =>
      let! top := waiting_top in
      let! t := task_at (taskID top) in
      if waitingInQueue t && (taskArrivalTime t <=? getNS now) then ret (taskID top)
      else waiting_pop;! drop_unready fuel now
  end.
Definition taskFrontOfQueue (now : Z) : Own Z :=
  let! x := gets id in
  if bool_decide (queuePolicy (cfg x) = "FIFO"%string) then
    ret (match list_find (λ t, waitingInQueue t = true) (openTasks x) with
         | Some (i, _) => Z.of_nat i
         | None => -1
         end)
  else if isPriority x then drop_unready (S (length (pq_elems (waitingTaskQ x)))) now
  else fail (ErrLog "Unknown Queuing Policy").

Definition arrived (time : Z) (t : openTask) : bool := waitingToSchedule t && (taskArrivalTime t <=? getNS time).
Definition enqueue (t : openTask) : openTask := put_flags false true (active t) (completed t) t.
Definition fetchTasksIntoQueue (time : Z) : Own unit :=
  let! x := gets id in
  if isPriority x then
    forM_ (cores_upto (numberOfTasks x)) (λ taskCounter,
      let! t := task_at taskCounter in
      if arrived time t then
        upd_task taskCounter (λ t, put_flags (waitingToSchedule t) true (active t) (completed t) t);!
        let! top := waiting_top in
        (if negb (taskID top =? taskCounter) then let! t := task_at taskCounter in waiting_push t else ret tt);!
        let! top := waiting_top in
        let! atop := active_top in
        (if taskID top =? taskID atop then waiting_pop else ret tt);!
        upd_task taskCounter (λ t, put_flags false (waitingInQueue t) (active t) (completed t) t)
      else ret tt)
  else modify (λ x, put_tasks ((λ t, if arrived time t then enqueue t else t) <$> openTasks x) x).

(** ** Mapping *)
Context `{MappingPolicy}.
Definition executeMappingPolicy (id : Z) : Own bool :=
  let! x := gets (λ x, x) in
  let! available := lift (foldr (λ i r, let? m := rdz (m_core_mask (base x)) i in
                                        let? c := rdz (systemCores x) i in
                                        let? l := r in Ok ((m && negb (isAssignedToTask c)) :: l))
                            (Ok []) (cores_upto (numberOfCores x))) in
  let! t := task_at id in
  let! bestCores := lift (mp_map (taskName t) (taskCoreRequirement t) available (isAssignedToTask <$> systemCores x)) in
  if Z.of_nat (length bestCores) <? taskCoreRequirement t then ret false else
  forM_ bestCores (λ c, upd_syscore c (assign_task id));!
  ret true.

(** ** The simulator with this scheduler

    Methods of the pinned scheduler act on its part of the state. *)
Context `{Host}.
Notation M := (st (Sys SchedulerOpen)).
Definition mine {A} (m : Own A) : M A := zoom sched put_sched m.
Definition with_sched {X Y} (y : Y) (s : Sys X) : Sys Y :=
  {| tm := tm s; cores := cores s; sync := sync s; sysc := sysc s; bss := bss s; mem := mem s;
     reschedule_cost := reschedule_cost s; sched := y |}.
Definition lower (s : Sys SchedulerOpen) : Sys SchedulerPinnedBase := with_sched (base (sched s)) s.
Definition raise (b : Sys SchedulerPinnedBase) (s : Sys SchedulerOpen) : Sys SchedulerOpen :=
  with_sched (put_base (sched b) (sched s)) b.
Definition on_base {A} (m : st (Sys SchedulerPinnedBase) A) : M A := zoom lower raise m.

Definition getGlobalTime : M Z := gets (λ s, m_global_time (bss s)).

(** A [cpu_set_t] of 1024 bits; [CPU_SET] of a number outside does nothing. *)
Definition cpu_set (core_id : Z) : list bool := (λ i, i =? core_id) <$> cores_upto 1024.
Definition threadSetAffinity (calling_thread_id thread_id : Z) (mask : option (list bool)) : M bool :=
  on_base (SchedulerPinned.threadSetAffinity calling_thread_id thread_id mask).

Definition setAffinity (thread_id : Z) : M Z :=
  let! t := getThreadFromID thread_id in
  let! l := gets (λ s, systemCores (sched s)) in
  match list_find (λ c, assignedTaskID c = m_app_id t ∧ assignedThreadID c = -1) l with
  | None =>
      let! _ := threadSetAffinity INVALID_THREAD_ID thread_id (Some (cpu_set INVALID_CORE_ID)) in ret (-1)
  | Some (i, _) =>
      let! _ := threadSetAffinity INVALID_THREAD_ID thread_id (Some (cpu_set (Z.of_nat i))) in
      mine (upd_syscore (Z.of_nat i) (assign_thread thread_id));!
      ret (Z.of_nat i)
  end.

(** ** Frequencies *)
Definition maxDVFSPatience : Z := 0.
Definition delayDVFSTransition (x : SchedulerOpen) (core oldFrequency newFrequency : Z) : res bool :=
  let step := frequencyStepSize (cfg x) in
  let? down := (if newFrequency =? oldFrequency - step
                then let? p := at_ (downscalingPatience x) core in Ok (0 <? p) else Ok false) in
  if (down : bool) then Ok true
  else if newFrequency =? oldFrequency + step
       then let? p := at_ (upscalingPatience x) core in Ok (0 <? p) else Ok false.
Definition upd_at (l : list Z) (i : Z) (f : Z → Z) : res (list Z) :=
  let? p := at_ l i in Ok (<[Z.to_nat i := f p]> l).
Definition DVFSTransitionDelayed (core oldFrequency newFrequency : Z) : Own unit :=
  let! x := gets id in
  let step := frequencyStepSize (cfg x) in
  if newFrequency =? oldFrequency - step then
    let! l := lift (upd_at (downscalingPatience x) core (λ p, p - 1)) in
    modify (put_patience l (upscalingPatience x))
  else if newFrequency =? oldFrequency + step then
    let! l := lift (upd_at (upscalingPatience x) core (λ p, p - 1)) in
    modify (put_patience (downscalingPatience x) l)
  else ret tt.
Definition DVFSTransitionNotDelayed (core : Z) : Own unit :=
  let! x := gets id in
  let! down := lift (upd_at (downscalingPatience x) core (λ _, maxDVFSPatience)) in
  let! up := lift (upd_at (upscalingPatience x) core (λ _, maxDVFSPatience)) in
  modify (put_patience down up).
(** The limits that [setFrequency] applies. *)
Definition limitFrequency (c : OpenConfig) (oldFrequency frequency : Z) : res Z :=
  let? raised := int_add oldFrequency 1000 in
  let frequency := if raised <? frequency then raised else frequency in
  let frequency := if frequency <? minFrequency c then minFrequency c else frequency in
  Ok (if maxFrequency c <? frequency then maxFrequency c else frequency).
(** [switch_off] is what the magic server does for a frequency of zero. *)
Context (switch_off : Z → M unit).
Definition setFrequency (core frequency : Z) : M unit :=
  let! x := gets sched in
  let! old := lift (getFrequency (dvfs x) (u64 core)) in
  let oldFrequency := s32 old in
  let! frequency := lift (limitFrequency (cfg x) oldFrequency frequency) in
  let! delayed := lift (delayDVFSTransition x core oldFrequency frequency) in
  if (delayed : bool) then mine (DVFSTransitionDelayed core oldFrequency frequency)
  else
    mine (DVFSTransitionNotDelayed core);!
    if negb (frequency =? oldFrequency) then
      let! r := lift (Dvfs.setFrequency (u64 core) (u64 frequency) (dvfs x)) in
      match r.2 with
      | Some d => mine (modify (put_dvfs d))
      | None => switch_off core
      end
    else ret tt.

Definition activeCores (x : SchedulerOpen) : list bool :=
  (if reserved_cores_are_active (cfg x) then isAssignedToTask else isAssignedToThread) <$> systemCores x.
(** [policy] stands for the policy with the performance counters of the moment, so the
    report of the new frequencies to the counters is left out. *)
Definition executeDVFSPolicy (policy : DVFSPolicy) (time : Z) : M unit :=
  let! x := gets sched in
  let ids := cores_upto (numberOfCores x) in
  let! oldFrequencies := lift (per_core (λ c, let? f := getFrequency (dvfs x) (u64 c) in Ok (s32 f)) ids) in
  let! frequencies := lift (policy time oldFrequencies (activeCores x)) in
  forM_ ids (λ c, let! f := lift (at_ frequencies c) in setFrequency c f).

(** ** Migration *)
Definition migrateThread (thread_id core_id : Z) : M unit :=
  let! l := gets (λ s, systemCores (sched s)) in
  match list_find (λ c, assignedThreadID c = thread_id) l with
  | None => fail (ErrLog "could not find core of thread")
  | Some (i, from) =>
      if Z.of_nat i =? core_id then ret tt else
      let! c := mine (core_at core_id) in
      if isAssignedToTask c then fail (ErrLog "core is already in use") else
      let! _ := threadSetAffinity INVALID_THREAD_ID thread_id (Some (cpu_set core_id)) in
      mine (upd_syscore core_id (assign (assignedTaskID from) thread_id));!
      mine (upd_syscore (Z.of_nat i) (assign (-1) (-1)))
  end.
Definition migrate_one (m : migration) : M unit :=
  let! l := gets (λ s, systemCores (sched s)) in
  let! from := lift (at_ l (fromCore m)) in
  if assignedTaskID from =? -1 then fail (ErrLog "Migration Policy ordered migration from unused core.") else
  let! to := lift (at_ l (toCore m)) in
  if swap m then
    if assignedTaskID to =? -1 then fail (ErrLog "Migration Policy ordered swap with unused core.") else
    (if isAssignedToThread from then
       let! _ := threadSetAffinity INVALID_THREAD_ID (assignedThreadID from) (Some (cpu_set (toCore m))) in ret tt
     else ret tt);!
    (if isAssignedToThread to then
       let! _ := threadSetAffinity INVALID_THREAD_ID (assignedThreadID to) (Some (cpu_set (fromCore m))) in ret tt
     else ret tt);!
    mine (upd_syscore (toCore m) (assign (assignedTaskID from) (assignedThreadID from)));!
    mine (upd_syscore (fromCore m) (assign (assignedTaskID to) (assignedThreadID to)))
  else if isAssignedToTask to then fail (ErrLog "Migration Policy ordered migration to already used core.")
  else if isAssignedToThread from then migrateThread (assignedThreadID from) (toCore m)
  else
    mine (upd_syscore (toCore m) (assign_task (assignedTaskID from)));!
    mine (upd_syscore (fromCore m) (assign_task (-1))).
Definition executeMigrationPolicy (policy : MigrationPolicy) (time : Z) : M unit :=
  let! x := gets sched in
  forM_ (policy time (assignedTaskID <$> systemCores x) (activeCores x)) migrate_one.

(** ** Scheduling a task *)

(** The top of the waiting queue is refreshed when it is there twice. *)
Definition refresh_queue : Own unit :=
  let! n := gets (λ x, length (pq_elems (waitingTaskQ x))) in
  if (1 <? n)%nat then
    let! tempo := waiting_top in
    waiting_pop;!
    let! top := waiting_top in
    if negb (taskID tempo =? taskID top) then waiting_push tempo
    else waiting_pop;! let! t := task_at (taskID tempo) in waiting_push t
  else ret tt.

(** One thread of the task that is preempted loses its core. *)
Definition preempt_thread (thread_id : Z) : M unit :=
  let! t := getThreadFromID thread_id in
  let app_id := m_app_id t in
  let! top := mine active_top in
  if taskID top =? app_id then
    let! n := gets (λ s, numberOfCores (sched s)) in
    forM_ (cores_upto n) (λ i,
      let! c := mine (core_at i) in
      if assignedThreadID c =? thread_id then
        mine (upd_syscore i (assign_thread (-1)));!
        on_base (own (upd_info thread_id (λ t, Ok (clearAffinity t))))
      else ret tt);!
    let! tasks := gets (λ s, numberOfTasks (sched s)) in
    if thread_id <? tasks then
      mine (modify (λ x, put_cores ((λ c, if assignedTaskID c =? app_id then assign_task (-1) c else c)
                                      <$> systemCores x) x))
    else ret tt
  else ret tt.
Fixpoint preempt (fuel : nat) (id : Z) : M unit :=
  match fuel with
  | O => fail ErrFuel
  | S fuel =>
      let! x := gets sched in
      let! t := mine (task_at id) in
      if numberOfFreeCores x <? taskCoreRequirement t then
        let! top := mine active_top in
        let! a := mine (task_at (taskID top)) in
        if priority a <? priority t then
          let! n := gets (λ s, Z.of_nat (length (m_threads (tm s)))) in
          forM_ (cores_upto n) preempt_thread;!
          let! top := mine active_top in
          mine (upd_task (taskID top) (λ t, put_flags (waitingToSchedule t) true false (completed t) t));!
          let! w := mine waiting_top in
          (if negb (taskID w =? taskID top) then mine (waiting_push top) else ret tt);!
          mine active_pop;!
          preempt fuel id
        else ret tt
      else ret tt
  end.
(** Whether the cores suffice, after preemption of tasks of lower priority. *)
Definition make_room (id : Z) : M bool :=
  let! x := gets sched in
  let! t := mine (task_at id) in
  if numberOfFreeCores x <? taskCoreRequirement t then
    if isPriority x then
      let! top := mine active_top in
      let! a := mine (task_at (taskID top)) in
      if priority a <? priority t then
        preempt (S (length (pq_elems (ActiveTaskQ x)))) id;! ret true
      else ret false
    else ret false
  else ret true.

(** The task that got its cores becomes active. *)
Definition start_task (id : Z) (isInitialCall : bool) (time : Z) : M unit :=
  (if negb isInitialCall then let! _ := setAffinity id in ret tt else ret tt);!
  mine (upd_task id (λ t, put_task_times (taskArrivalTime t) (getNS time) (taskDepartureTime t)
                            (put_flags (waitingToSchedule t) (waitingInQueue t) true (completed t) t)));!
  let! t := mine (task_at id) in
  mine (active_push t);!
  mine (upd_task id (λ t, put_flags (waitingToSchedule t) false (active t) (completed t) t));!
  let! x := gets sched in
  (if isPriority x then
     let! top := mine waiting_top in if taskID top =? id then mine waiting_pop else ret tt
   else ret tt);!
  mine (upd_task id (λ t, put_flags false (waitingInQueue t) (active t) (completed t) t)).
Definition schedule (id : Z) (isInitialCall : bool) (time : Z) : M bool :=
  let! t := mine (task_at id) in
  if getNS time <? taskArrivalTime t then ret false else
  mine (upd_task id enqueue);!
  mine refresh_queue;!
  let! now := getGlobalTime in
  let! front := mine (taskFrontOfQueue now) in
  if negb (front =? id) then ret false else
  let! room := make_room id in
  if negb room then ret false else
  let! mappingSuccesfull := mine (executeMappingPolicy id) in
  (if (mappingSuccesfull : bool) then start_task id isInitialCall time else ret tt);!
  ret mappingSuccesfull.

(** ** New threads *)
Definition getNextCore (x : SchedulerPinnedBase) (interleaving core_id : Z) : res Z :=
  SchedulerPinned.getNextCore (next_fuel (m_core_mask x)) (Z.of_nat (app_cores x)) interleaving (m_core_mask x) core_id.
Fixpoint getFreeCore (fuel : nat) (x : SchedulerPinnedBase) (interleaving core_first core_next : Z) : res Z :=
  match fuel with
  | O => Err ErrFuel
  | S fuel =>
      let? t := rdz (m_core_thread_running x) core_next in
      if t =? INVALID_THREAD_ID then Ok core_next else
      let? core_next := getNextCore x interleaving core_next in
      if core_next =? core_first then Ok core_first
      else getFreeCore fuel x interleaving core_first core_next
  end.
Definition threadSetInitialAffinity (thread_id : Z) : st SchedulerPinnedBase unit :=
  let! x := gets id in
  match m_rule x with
  | SchedulerPinned interleaving next_core =>
      let! core_id := lift (getFreeCore (next_fuel (m_core_mask x)) x interleaving next_core next_core) in
      let! next := lift (getNextCore x interleaving core_id) in
      modify (put_rule (SchedulerPinned interleaving next));!
      upd_info thread_id (setAffinitySingle core_id)
  | SchedulerRoaming => fail ErrUndefined
  end.

Definition threadCreate (thread_id : Z) : M Z :=
  let! _ := getThreadFromID thread_id in
  let! time := getGlobalTime in
  let! tasks := gets (λ s, numberOfTasks (sched s)) in
  (if thread_id =? 0 then
     let! ok := schedule 0 true time in
     if (ok : bool) then ret tt else fail (ErrLog "Task 0 must be mapped for simulation to work.")
   else if (0 <? thread_id) && (thread_id <? tasks) then let! _ := schedule thread_id true time in ret tt
   else ret tt);!
  on_base (own (modify (λ x,
    if (length (m_thread_info x) <=? Z.to_nat thread_id)%nat
    then put_infos (resize (length (m_thread_info x) + 16) (ThreadInfo_new (app_cores x)) (m_thread_info x)) x
    else x)));!
  let! i := on_base (own (info_of thread_id)) in
  (if m_has_affinity i then ret tt else on_base (own (threadSetInitialAffinity thread_id)));!
  let! _ := setAffinity thread_id in
  let! free_core_id := on_base (own (findFreeCoreForThread thread_id)) in
  if negb (free_core_id =? INVALID_CORE_ID) then
    on_base (own (
      upd_info thread_id (λ t, Ok (setCoreRunning free_core_id t));!
      set_running_on free_core_id thread_id;!
      let! q := gets m_quantum in set_quantum_left free_core_id q));!
    ret free_core_id
  else if tasks <=? thread_id then fail (ErrLog "A non-intial Thread failed to get a core.")
  else
    on_base (own (upd_info thread_id (λ t, Ok (setCoreRunning INVALID_CORE_ID t))));!
    ret INVALID_CORE_ID.

(** ** The exit of a thread *)
Definition release_thread (thread_id : Z) : M unit :=
  let! n := gets (λ s, numberOfCores (sched s)) in
  forM_ (cores_upto n) (λ i,
    let! c := mine (core_at i) in
    if assignedThreadID c =? thread_id then
      mine (upd_syscore i (assign_thread (-1)));!
      let! _ := threadSetAffinity INVALID_THREAD_ID thread_id (Some (cpu_set INVALID_CORE_ID)) in ret tt
    else ret tt).
(** The task leaves the queue of active tasks; those above it are put back. *)
Fixpoint unload (fuel : nat) (app_id : Z) (tempQ : pq) : Own pq :=
  match fuel with
  | O => fail ErrFuel
  | S fuel =>
      let! top := active_top in
      if taskID top =? app_id then ret tempQ
      else active_pop;! unload fuel app_id (pq_push ComparePriority top tempQ)
  end.
Fixpoint reload (fuel : nat) (tempQ : pq) : Own unit :=
  match fuel with
  | O => ret tt
  | S fuel =>
      let! top := lift (pq_top ComparePriority tempQ) in
      active_push top;!
      let! tempQ := lift (pq_pop ComparePriority tempQ) in
      reload fuel tempQ
  end.
Definition leave_queue (app_id : Z) : Own unit :=
  let! x := gets id in
  if isPriority x then
    let! top := active_top in
    if taskID top =? app_id then active_pop
    else
      let! tempQ := unload (S (length (pq_elems (ActiveTaskQ x)))) app_id pq_empty in
      reload (length (pq_elems tempQ)) tempQ
  else ret tt.
Definition finish_task (app_id time : Z) : Own unit :=
  modify (λ x, put_cores ((λ c, if assignedTaskID c =? app_id then assign_task (-1) c else c) <$> systemCores x) x);!
  upd_task app_id (λ t, put_task_times (taskArrivalTime t) (taskStartTime t) (getNS time)
                          (put_flags (waitingToSchedule t) (waitingInQueue t) false true t));!
  leave_queue app_id.

(** The arrival times move so that the next task arrives now. *)
Definition nextArrivalTime (l : list openTask) : Z :=
  foldl (λ next t, if waitingToSchedule t then
                     if next =? 0 then taskArrivalTime t
                     else if taskArrivalTime t <? next then taskArrivalTime t else next
                   else next) 0 l.
Definition readjust (time : Z) (l : list openTask) : list openTask :=
  let timeJump := s64 (u64 (nextArrivalTime l - getNS time)) in
  (λ t, if waitingToSchedule t
        then put_task_times (u64 (taskArrivalTime t - timeJump)) (taskStartTime t) (taskDepartureTime t) t
        else t) <$> l.
Definition prefetch (time : Z) : M unit :=
  let! x := gets sched in
  if (numberOfFreeCores x =? numberOfCores x) && negb (numberOfTasksWaitingToSchedule x =? 0) then
    (if negb (numberOfTasksInQueue x =? 0) then ret tt
     else
       mine (modify (λ x, put_tasks (readjust time (openTasks x)) x);!
             fetchTasksIntoQueue time));!
    let! now := getGlobalTime in
    let! front := mine (taskFrontOfQueue now) in
    let! _ := schedule front false time in ret tt
  else ret tt.
Definition threadExit (thread_id time : Z) : M unit :=
  on_base (SchedulerPinned.threadExit thread_id time);!
  let! t := getThreadFromID thread_id in
  release_thread thread_id;!
  let! tasks := gets (λ s, numberOfTasks (sched s)) in
  (if thread_id <? tasks then mine (finish_task (m_app_id t) time) else ret tt);!
  prefetch time;!
  let! x := gets sched in
  if (numberOfTasksCompleted x =? numberOfTasks x) && (numberOfTasks x =? 0) then fail ErrUndefined else ret tt.

(** ** The periodic call *)
Definition checkState : Own unit :=
  let! x := gets id in
  lift (log_assert (numberOfCores x - totalCoreRequirementsOfActiveTasks x =? numberOfFreeCores x)
    "Number of Free Cores + Number of Active Tasks Requirements != Number Of Cores.");!
  lift (log_assert (numberOfActiveTasks x + numberOfTasksCompleted x + numberOfTasksInQueue x
                    + numberOfTasksWaitingToSchedule x =? numberOfTasks x)
    "Task State Does Not Match.").
Fixpoint schedule_queued (fuel : nat) (time : Z) : M unit :=
  let! x := gets sched in
  if numberOfTasksInQueue x =? 0 then ret tt else
  match fuel with
  | O => fail ErrFuel
  | S fuel =>
      let! now := getGlobalTime in
      let! front := mine (taskFrontOfQueue now) in
      let! ok := schedule front false time in
      if (ok : bool) then schedule_queued fuel time else ret tt
  end.
Definition getCoreNb (c : OpenConfig) (y x : Z) : res Z :=
  if (y <? 0) || (coreRows c <=? y) || (x <? 0) || (coreColumns c <=? x)
  then Err (ErrLog "Invalid core coordinates") else Ok (y * coreColumns c + x).
(** The printed mapping reads the states of the threads. *)
Definition printMapping : M unit :=
  let! c := gets (λ s, cfg (sched s)) in
  forM_ (cores_upto (coreRows c)) (λ y,
    forM_ (cores_upto (coreColumns c)) (λ x,
      let! coreId := lift (getCoreNb c y x) in
      let! core := mine (core_at coreId) in
      if isAssignedToTask core && isAssignedToThread core
      then let! _ := get_state (assignedThreadID core) in ret tt else ret tt)).
Context (dvfsPolicy : option DVFSPolicy) (migrationPolicy : option MigrationPolicy).
Definition is_epoch (time epoch : Z) : res bool :=
  let? r := time_mod (getNS time) (u64 epoch) in Ok (r =? 0).
Definition periodic (time : Z) : M unit :=
  on_base (own (modify (λ x, put_periodic true (m_last_periodic x) x)));!
  (if getNS time mod 1000000 =? 0 then mine checkState else ret tt);!
  let! c := gets (λ s, cfg (sched s)) in
  match migrationPolicy with
  | Some policy =>
      let! now := lift (is_epoch time (migrationEpoch c)) in
      if (now : bool) then executeMigrationPolicy policy time else ret tt
  | None => ret tt
  end;!
  match dvfsPolicy with
  | Some policy =>
      let! now := lift (is_epoch time (dvfsEpoch c)) in
      if (now : bool) then executeDVFSPolicy policy time else ret tt
  | None => ret tt
  end;!
  let! now := lift (is_epoch time (mappingEpoch c)) in
  (if (now : bool) then
     mine (fetchTasksIntoQueue time);!
     let! fuel := gets (λ s, S (length (openTasks (sched s)))) in
     schedule_queued fuel time;!
     printMapping
   else ret tt);!
  on_base (SchedulerPinned.periodic time).

#[export] Instance SchedulerOpen_scheduler : Scheduler SchedulerOpen := {|
  sch_threadCreate := threadCreate;
  sch_threadStart := λ t time, on_base (SchedulerPinned.threadStart t time);
  sch_threadStall := λ t reason time, on_base (SchedulerPinned.threadStall t reason time);
  sch_threadResume := λ t by' time, on_base (SchedulerPinned.threadResume t by' time);
  sch_threadExit := threadExit;
  sch_periodic := periodic |}.
End Open.

(** * The constructor *)

(** The arrival times: [explicit] are the configured ones, [draws] the
    intervals of the Poisson process. *)
Fixpoint arrival_times (distribution : string) (arrivalRate arrivalInterval : Z) (explicit : Z → Z)
    (draws : list Z) (i time : Z) (l : list openTask) : res (list openTask) :=
  match l with
  | [] => Ok []
  | t :: l =>
      let? times :=
        (if bool_decide (distribution = "explicit"%string) then
           Ok (u64 (explicit i), draws)
         else if bool_decide (distribution = "uniform"%string) || bool_decide (distribution = "poisson"%string) then
           let? r := time_mod i arrivalRate in
           if (r =? 0) && negb (i =? 0) then
             if bool_decide (distribution = "uniform"%string) then Ok (u64 (time + arrivalInterval), draws)
             else match draws with
                  | d :: draws => Ok (u64 (time + d), draws)
                  | [] => Err ErrUndefined
                  end
           else Ok (time, draws)
         else Err (ErrLog "Unknown Workload Arrival Distribution")) in
      let '(time, draws) := times in
      let? l := arrival_times distribution arrivalRate arrivalInterval explicit draws (i + 1) time l in
      Ok (put_task_times time (taskStartTime t) (taskDepartureTime t) t :: l)
  end.
Definition put_priority (p : Z) (t : openTask) : openTask :=
  {| taskID := taskID t; taskName := taskName t; waitingToSchedule := waitingToSchedule t;
     waitingInQueue := waitingInQueue t; active := active t; completed := completed t;
     taskCoreRequirement := taskCoreRequirement t; taskArrivalTime := taskArrivalTime t;
     taskStartTime := taskStartTime t; taskDepartureTime := taskDepartureTime t; priority := p |}.
(** The rows of the grid: the largest divisor up to the square root. *)
Fixpoint rows_from (r : nat) (cores : Z) : res Z :=
  match r with
  | O => Err ErrUndefined
  | S r' => if cores mod Z.of_nat r =? 0 then Ok (Z.of_nat r) else rows_from r' cores
  end.
Definition grid (cores : Z) : res (Z * Z) :=
  let? rows := rows_from (Z.to_nat (Z.sqrt cores)) cores in Ok (rows, cores / rows).

Section New.
Context `{PriorityQueue}.
(** [priorities] are the configured or random priorities, used by the
    priority policy only. *)
Definition SchedulerOpen_new (garbage : openTask) (c : OpenConfig) (quantum interleaving : Z) (core_mask : list bool)
    (benchmarks : string) (tasks : nat) (priorities : nat → Z) (distribution : string)
    (arrivalRate arrivalInterval : Z) (explicit : Z → Z) (draws : list Z) (d : DvfsManager) : res SchedulerOpen :=
  let cores := Z.of_nat (length core_mask) in
  let? g := grid cores in
  let? l := openTasks_new garbage tasks 0 benchmarks in
  let l := if bool_decide (queuePolicy c = "priority"%string) then imap (λ i, put_priority (priorities i)) l else l in
  let? l := arrival_times distribution arrivalRate arrivalInterval explicit draws 0 0 l in
  Ok {| base := SchedulerPinnedBase_new quantum core_mask (SchedulerPinned interleaving 0);
        cfg := {| queuePolicy := queuePolicy c; coreRows := g.1; coreColumns := g.2;
                  mappingEpoch := mappingEpoch c; dvfsEpoch := dvfsEpoch c; migrationEpoch := migrationEpoch c;
                  minFrequency := minFrequency c; maxFrequency := maxFrequency c;
                  frequencyStepSize := frequencyStepSize c;
                  reserved_cores_are_active := reserved_cores_are_active c |};
        openTasks := l; systemCores := systemCore_new <$> cores_upto cores;
        waitingTaskQ := foldl (λ q t, pq_push ComparePriority t q) pq_empty l; ActiveTaskQ := pq_empty;
        downscalingPatience := (λ _, maxDVFSPatience) <$> core_mask;
        upscalingPatience := (λ _, maxDVFSPatience) <$> core_mask; dvfs := d |}.
End New.
