(* ===== verification/OpenQueue.v ===== *)
(** The queues of the open scheduler under the priority policy: both
    comparisons order the tasks, a list implements the queues, and what
    happens to a task that finishes. *)
From S2P Require Import Prelude SubsecondTime System ThreadManager Dvfs SchedulerPinned OpenPolicies SchedulerOpen.
Local Open Scope Z_scope.

#[export] Instance ComparePriority_order : StrictWeakOrder ComparePriority.
Proof.
  split; unfold ComparePriority.
  - intros a b. rewrite (Z.eqb_sym (priority b)). destruct (Z.eqb_spec (priority a) (priority b)); rewrite Z.ltb_lt, Z.ltb_ge; lia.
  - intros a b c. destruct (Z.eqb_spec (priority a) (priority b)), (Z.eqb_spec (priority b) (priority c)),
      (Z.eqb_spec (priority a) (priority c)); rewrite !Z.ltb_ge; lia.
Qed.
#[export] Instance ComparePriorityAQ_order : StrictWeakOrder ComparePriorityAQ.
Proof. split; unfold ComparePriorityAQ; intros a b; [rewrite Z.ltb_lt, Z.ltb_ge; lia|intros c; rewrite !Z.ltb_ge; lia]. Qed.

(** * Queues as lists *)
Fixpoint extract (less : openTask → openTask → bool) (l : list openTask) : option (openTask * list openTask) :=
  match l with
  | [] => None
  | t :: l =>
      match extract less l with
      | Some (u, l') => Some (if less t u then (u, t :: l') else (t, l))
      | None => Some (t, [])
      end
  end.
Definition list_queue : PriorityQueue := {|
  pq := list openTask;
  pq_empty := [];
  pq_push less t l := t :: l;
  pq_top less l := match extract less l with Some (t, _) => Ok t | None => Err ErrUndefined end;
  pq_pop less l := match extract less l with Some (_, l) => Ok l | None => Err ErrUndefined end;
  pq_elems l := l |}.
Lemma extract_spec less l :
  StrictWeakOrder less → l ≠ [] →
  ∃ t l', extract less l = Some (t, l') ∧ l ≡ₚ t :: l' ∧ ∀ u, u ∈ l' → less t u = false.
Proof.
  intros Ho. induction l as [|t l IH]; [done|]. intros _. simpl. destruct l as [|t' l]; [by exists t, []; repeat split; [..|intros u ?%elem_of_nil]|].
  destruct IH as (u & l' & -> & Hp & Hu); [done|]. destruct (less t u) eqn:Htu.
  - exists u, (t :: l'). split; [done|]. split; [rewrite Hp; apply Permutation_swap|].
    intros v [->|Hv]%elem_of_cons; [by apply (sw_asym t u)|by apply Hu].
  - exists t, (t' :: l). split; [done|]. split; [done|]. intros v Hv. rewrite Hp in Hv.
    apply elem_of_cons in Hv as [->|Hv]; [done|]. eapply sw_trans; [exact Htu|by apply Hu].
Qed.
Lemma list_queue_ok : @PriorityQueueOk list_queue.
Proof.
  split; simpl; [done|done|by intros less q ->|]. intros less q Ho Hq.
  destruct (extract_spec less q Ho Hq) as (t & l' & -> & Hp & Hu). eauto 10.
Qed.

(** * A task that finishes *)
Section Leave.
Context `{PriorityQueueOk}.
Implicit Types x : SchedulerOpen.

Lemma active_top_Ok t x : pq_top ComparePriorityAQ (ActiveTaskQ x) = Ok t → active_top x = Ok (t, x).
Proof. intros Ht. unfold active_top, st_bind, gets, lift. cbn [res_bind fst snd]. by rewrite Ht. Qed.
Lemma unload_keeps fuel app temp x :
  (length (pq_elems (ActiveTaskQ x)) < fuel)%nat → (∃ t, t ∈ pq_elems (ActiveTaskQ x) ∧ taskID t = app) →
  ∃ temp' q', unload fuel app temp x = Ok (temp', put_queues (waitingTaskQ x) q' x) ∧
    pq_elems temp' ++ pq_elems q' ≡ₚ pq_elems temp ++ pq_elems (ActiveTaskQ x).
Proof.
  revert temp x. induction fuel as [|fuel IH]; intros temp x Hl (t & Ht & Hid); [lia|].
  destruct (pq_top_pop ComparePriorityAQ (ActiveTaskQ x)) as (top & q & Htop & Hpop & Hperm & _);
    [apply _|by intros Hz; rewrite Hz in Ht; apply elem_of_nil in Ht|].
  cbn [unload]. unfold st_bind at 1. rewrite (active_top_Ok top) by done. cbn [res_bind fst snd].
  destruct (Z.eqb_spec (taskID top) app) as [Heq|Hne].
  { exists temp, (ActiveTaskQ x). split; [|done]. unfold ret. by destruct x. }
  unfold st_bind at 1. unfold active_pop, st_bind at 1, gets at 1. cbn [res_bind fst snd].
  unfold st_bind at 1, lift at 1. rewrite Hpop. cbn [res_bind fst snd modify].
  destruct (IH (pq_push ComparePriority top temp) (put_queues (waitingTaskQ x) q x)) as (temp' & q' & E & Hp).
  - simpl. apply Permutation_length in Hperm. simpl in Hperm. lia.
  - exists t. split; [|done]. rewrite Hperm in Ht. apply elem_of_cons in Ht as [->|?]; [done|done].
  - exists temp', q'. split; [exact E|]. rewrite Hp, pq_elems_push, Hperm. simpl. apply Permutation_middle.
Qed.
Lemma reload_adds fuel temp x :
  length (pq_elems temp) = fuel →
  ∃ q', reload fuel temp x = Ok (tt, put_queues (waitingTaskQ x) q' x) ∧
    pq_elems q' ≡ₚ pq_elems temp ++ pq_elems (ActiveTaskQ x).
Proof.
  revert temp x. induction fuel as [|fuel IH]; intros temp x Hl.
  { exists (ActiveTaskQ x). split; [unfold reload, ret; by destruct x|]. by destruct (pq_elems temp). }
  destruct (pq_top_pop ComparePriority temp) as (top & q & Htop & Hpop & Hperm & _); [apply _|by intros Hz; rewrite Hz in Hl|].
  cbn [reload]. unfold st_bind at 1, lift at 1. rewrite Htop. cbn [res_bind fst snd].
  unfold st_bind at 1, active_push at 1, modify at 1. cbn [res_bind fst snd]. unfold st_bind at 1, lift at 1. rewrite Hpop.
  cbn [res_bind fst snd].
  destruct (IH q (put_queues (waitingTaskQ x) (pq_push ComparePriorityAQ top (ActiveTaskQ x)) x)) as (q' & E & Hp).
  - apply Permutation_length in Hperm. simpl in Hperm. lia.
  - exists q'. split; [exact E|]. simpl in Hp. rewrite Hp, pq_elems_push, Hperm. simpl. by rewrite Permutation_middle.
Qed.

(** Under the priority policy a task that finishes stays in the queue of
    active tasks unless it is at its top: the method returns, and the queue
    holds the same tasks as before. *)
Theorem finished_task_stays_in_queue (app : Z) x top :
  queuePolicy (cfg x) = "priority"%string →
  pq_top ComparePriorityAQ (ActiveTaskQ x) = Ok top → taskID top ≠ app →
  (∃ t, t ∈ pq_elems (ActiveTaskQ x) ∧ taskID t = app) →
  ∃ q', leave_queue app x = Ok (tt, put_queues (waitingTaskQ x) q' x) ∧ pq_elems q' ≡ₚ pq_elems (ActiveTaskQ x).
Proof.
  intros Hq Htop Hne Hin. unfold leave_queue. unfold st_bind at 1, gets at 1, id. cbn [res_bind fst snd].
  unfold isPriority. rewrite bool_decide_true by done. unfold st_bind at 1. rewrite (active_top_Ok top) by done.
  cbn [res_bind fst snd]. rewrite (proj2 (Z.eqb_neq _ _) Hne).
  destruct (unload_keeps (S (length (pq_elems (ActiveTaskQ x)))) app pq_empty x) as (temp & q1 & E1 & P1); [lia|done|].
  unfold st_bind at 1. rewrite E1. cbn [res_bind fst snd].
  destruct (reload_adds _ temp (put_queues (waitingTaskQ x) q1 x) eq_refl) as (q2 & E2 & P2).
  exists q2. split; [exact E2|]. simpl in P2. rewrite P2, P1, pq_elems_empty. done.
Qed.
End Leave.

(** Two active tasks; the one with the higher priority finishes. *)
Section Example.
#[local] Existing Instance list_queue.
Definition plain_task (id requirement prio : Z) (act : bool) : openTask :=
  {| taskID := id; taskName := "parsec-blackscholes-simsmall-1"; waitingToSchedule := false; waitingInQueue := false;
     active := act; completed := false; taskCoreRequirement := requirement; taskArrivalTime := 0; taskStartTime := 0;
     taskDepartureTime := 0; priority := prio |}.
Definition plain_config (policy : string) : OpenConfig :=
  {| queuePolicy := policy; coreRows := 2; coreColumns := 2; mappingEpoch := 1000000; dvfsEpoch := 1000000;
     migrationEpoch := 1000000; minFrequency := 1000; maxFrequency := 4000; frequencyStepSize := 100;
     reserved_cores_are_active := false |}.
Definition plain_dvfs : DvfsManager :=
  {| m_cores_per_socket := 1; m_transition_latency := 0; m_num_app_cores := 4;
     app_proc_domains := replicate 4 250000; global_domains := [250000]; queued := [] |}.
Definition two_active : SchedulerOpen :=
  {| base := SchedulerPinnedBase_new 1000000 [true; true; true; true] (SchedulerPinned 1 0);
     cfg := plain_config "priority"; openTasks := [plain_task 0 2 1 true; plain_task 1 2 5 true];
     systemCores := (λ i, assign (i / 2) (-1) (systemCore_new i)) <$> cores_upto 4;
     waitingTaskQ := []; ActiveTaskQ := [plain_task 1 2 5 true; plain_task 0 2 1 true];
     downscalingPatience := replicate 4 0; upscalingPatience := replicate 4 0; dvfs := plain_dvfs |}.
Lemma finished_task_stays_in_queue_witness :
  ∃ q', leave_queue 1 two_active = Ok (tt, put_queues [] q' two_active) ∧
    pq_elems q' ≡ₚ [plain_task 1 2 5 true; plain_task 0 2 1 true].
Proof.
  apply (finished_task_stays_in_queue (H0 := list_queue_ok) 1 two_active (plain_task 0 2 1 true)).
  - reflexivity.
  - reflexivity.
  - discriminate.
  - exists (plain_task 1 2 5 true). split; [left|reflexivity].
Defined.
End Example.
