(* ===== verification/SyncRespect.v ===== *)
(** Relations that the services of the simulator respect: a relation between
    states that ignores everything but the state of the scheduler and the
    core and the application of each thread holds across every service when
    it holds across the calls of the scheduler. *)
From S2P Require Import Prelude SubsecondTime System ThreadManager SyncServer SyncFacts SyncInv SyncFrame SyncProps.
Import Barrier.
Local Open Scope Z_scope.

(** What such a relation may depend on. *)
Definition thread_view {X} (s : Sys X) : list (option Z * Z) :=
  (λ th, (m_core th, m_app_id th)) <$> m_threads (tm s).

Class Respected {X} `{Host} `{Scheduler X} (R : relation (Sys X)) : Prop := {
  rp_pre :: PreOrder R;
  rp_same s s' : sched s' = sched s → thread_view s' = thread_view s → R s s';
  rp_stall t r time : does R (sch_threadStall t r time);
  rp_resume t by' time : does R (sch_threadResume t by' time);
  rp_periodic time : does R (sch_periodic time) }.

Section Respect.
Context {X : Type} `{HH : Host} `{HS : Scheduler X} (R : relation (Sys X)) `{!Respected R}.
Implicit Types s : Sys X.

Lemma same_rp {A} (m : st (Sys X) A) :
  (∀ s a s', m s = Ok (a, s') → sched s' = sched s ∧ thread_view s' = thread_view s) → does R m.
Proof. intros Hm s a s' He. destruct (Hm _ _ _ He). by apply rp_same. Qed.
Lemma upd_state_rp t f : does R (upd_state t f).
Proof. apply same_rp. intros s a s' He. unfold upd_state in He. by inv_st. Qed.
Lemma upd_core_rp c f : does R (upd_core c f).
Proof. apply same_rp. intros s a s' He. unfold upd_core in He. by inv_st. Qed.
Lemma upd_thread_rp t f :
  (∀ th, m_core (f th) = m_core th ∧ m_app_id (f th) = m_app_id th) → does R (upd_thread t f).
Proof.
  intros Hf. apply same_rp. intros s a s' (th & H0 & Hth & ->)%upd_thread_Ok. split; [done|]. unfold thread_view. simpl.
  rewrite list_fmap_insert. destruct (Hf th) as [-> ->]. apply list_insert_id. by rewrite list_lookup_fmap, Hth.
Qed.
Lemma getThread_rp t : does R (getThreadFromID t).
Proof. apply same_rp. intros s a s' He. unfold getThreadFromID in He. by inv_st. Qed.
Lemma getCore_rp c : does R (getCoreFromID c).
Proof. apply same_rp. intros s a s' He. unfold getCoreFromID in He. by inv_st. Qed.
Lemma get_state_rp t : does R (get_state t).
Proof. apply same_rp. intros s a s' He. unfold get_state in He. by inv_st. Qed.
Lemma signal_rp t time msg : does R (signal t time msg).
Proof. unfold signal. apply (does_bind _); [apply getThread_rp|intros ?; by apply upd_thread_rp]. Qed.
Lemma on_bss_rp {A} (m : st BarrierSyncServer A) : does R (on_bss m).
Proof. apply same_rp. by intros s a s' (b & _ & ->)%zoom_Ok. Qed.
Lemma put_sync_rp g : does R (modify (λ s, put_sync (g s) s)).
Proof. apply same_rp. by intros s a s' [= _ <-]. Qed.
Lemma put_sysc_rp g : does R (modify (λ s, put_sysc (g s) s)).
Proof. apply same_rp. by intros s a s' [= _ <-]. Qed.
Lemma put_mem_rp g : does R (modify (λ s, put_mem (g s) s)).
Proof. apply same_rp. by intros s a s' [= _ <-]. Qed.
Lemma put_spawn_rp (g : Sys X → list ThreadSpawnRequest) : does R (modify (λ s, put_tm (put_spawn (g s) (tm s)) s)).
Proof. apply same_rp. by intros s a s' [= _ <-]. Qed.
End Respect.

Create HintDb respect.
#[export] Hint Resolve upd_state_rp upd_core_rp getThread_rp getCore_rp get_state_rp signal_rp on_bss_rp put_sync_rp
  put_sysc_rp put_mem_rp put_spawn_rp rp_stall rp_resume rp_periodic : respect.
#[export] Hint Extern 1 (does _ (upd_thread _ _)) => apply (upd_thread_rp _); by intros [] : respect.

Ltac solve_respect :=
  repeat match goal with
  | |- does _ (st_bind _ _) => apply (does_bind _); [|intros ?]
  | |- does _ (ret _) => apply (does_ret _)
  | |- does _ (gets _) => apply (does_gets _)
  | |- does _ (lift _) => apply (does_lift _)
  | |- does _ (fail _) => apply (does_fail _)
  | |- does _ (forM_ _ _) => apply (does_forM _); intros ?
  | |- does _ (match ?x with _ => _ end) => destruct x
  | |- does _ _ => solve [eauto with respect]
  end.

Section Services.
Context {X : Type} `{HH : Host} `{HS : Scheduler X} (R : relation (Sys X)) `{!Respected R}.
Implicit Types s : Sys X.

Lemma resume_rp t by' time msg : does R (resume t by' time msg).
Proof. unfold resume, resumeThread, resumeThread_async. solve_respect. Qed.
Lemma hook_migrate_rp t : does R (hook_migrate t).
Proof. apply on_bss_rp, _. Qed.
Hint Resolve resume_rp hook_migrate_rp : respect.
Lemma wakeTimedOut_rp a time : does R (wakeTimedOut a time).
Proof. unfold wakeTimedOut. solve_respect. Qed.
Hint Resolve wakeTimedOut_rp : respect.
Lemma hook_periodic_rp time : does R (hook_periodic time).
Proof. unfold hook_periodic, futexPeriodic. solve_respect. Qed.
Lemma anyThreadRunning_rp : does R anyThreadRunning.
Proof. apply (does_gets _). Qed.
Hint Resolve hook_periodic_rp anyThreadRunning_rp : respect.
Lemma advance_until_resumed_rp fuel c b : does R (advance_until_resumed fuel c b).
Proof. induction fuel as [|fuel IH]; simpl; solve_respect. Qed.
Hint Resolve advance_until_resumed_rp : respect.
Lemma barrierRelease_rp c b : does R (barrierRelease c b).
Proof. unfold barrierRelease. solve_respect. Qed.
Hint Resolve barrierRelease_rp : respect.
Lemma bss_threadStop_rp t : does R (bss_threadStop t).
Proof. unfold bss_threadStop, bss_signal. solve_respect. Qed.
Hint Resolve bss_threadStop_rp : respect.
Lemma synchronize_rp c time : does R (synchronize c time).
Proof. unfold synchronize. solve_respect. Qed.
Lemma advance_until_running_rp fuel : does R (advance_until_running fuel).
Proof. induction fuel as [|fuel IH]; simpl; unfold advance; solve_respect. Qed.
Hint Resolve advance_until_running_rp : respect.
Lemma stallThread_rp t r time : does R (stallThread t r time).
Proof. unfold stallThread, stallThread_async, hook_stall. solve_respect. Qed.
Hint Resolve stallThread_rp : respect.
Lemma getMutex_rp mux b : does R (getMutex mux b).
Proof. unfold getMutex, put_mutex. solve_respect. Qed.
Lemma getCond_rp c : does R (getCond c).
Proof. unfold getCond, put_cond. solve_respect. Qed.
Lemma lock_async_rp mux t by' time : does R (lock_async mux t by' time).
Proof. unfold lock_async, put_mutex. solve_respect. Qed.
Lemma mutex_unlock_rp mux m t time : does R (mutex_unlock mux m t time).
Proof. unfold mutex_unlock, put_mutex. solve_respect. Qed.
Lemma upd_barrier_rp b f : does R (upd_barrier b f).
Proof. unfold upd_barrier. solve_respect. Qed.
Hint Resolve getMutex_rp getCond_rp lock_async_rp mutex_unlock_rp upd_barrier_rp : respect.
Lemma broadcast_rp c l t time : does R (broadcast_loop c l t time).
Proof. induction l as [|w l IH]; simpl; unfold put_cond; solve_respect. Qed.
Lemma barrier_release_rp b l t time : does R (barrier_release b l t time).
Proof. induction l as [|w l IH]; simpl; solve_respect. Qed.
Lemma findFutex_rp a t : does R (findFutexByUaddr a t).
Proof. unfold findFutexByUaddr, put_futex. solve_respect. Qed.
Lemma applyRescheduleCost_rp t b : does R (applyRescheduleCost t b).
Proof. unfold applyRescheduleCost. solve_respect. Qed.
Lemma dequeueWaiter_rp a by' mask time : does R (dequeueWaiter a by' mask time).
Proof. unfold dequeueWaiter, put_futex. solve_respect. Qed.
Lemma requeueWaiter_rp a b : does R (requeueWaiter a b).
Proof. unfold requeueWaiter, put_futex. solve_respect. Qed.
Hint Resolve broadcast_rp barrier_release_rp findFutex_rp applyRescheduleCost_rp dequeueWaiter_rp requeueWaiter_rp : respect.
Lemma wakeFutexOne_rp a by' mask time : does R (wakeFutexOne a by' mask time).
Proof. unfold wakeFutexOne. solve_respect. Qed.
Hint Resolve wakeFutexOne_rp : respect.
Lemma wake_loop_rp n m k : does R m → does R (wake_loop n m k).
Proof. intros Hm. revert k. induction n as [|n IH]; intros k; simpl; solve_respect. Qed.
Lemma requeue_loop_rp fuel a b : does R (requeue_loop fuel a b).
Proof. induction fuel as [|fuel IH]; simpl; solve_respect. Qed.
Hint Resolve wake_loop_rp requeue_loop_rp : respect.
Lemma futexWake_rp t a n mask time : does R (futexWake t a n mask time).
Proof. unfold futexWake. solve_respect. Qed.
Lemma wakeUpWaiter_rp t time : does R (wakeUpWaiter t time).
Proof. unfold wakeUpWaiter. solve_respect. Qed.
Hint Resolve futexWake_rp wakeUpWaiter_rp : respect.
Lemma handleFutexCall_rp start t args time : does R (handleFutexCall start t args time).
Proof.
  unfold handleFutexCall, futexWait, enqueueWaiter, futexWakeOp, futexDoOp, futexCmpRequeue, put_futex. solve_respect.
Qed.
Hint Resolve handleFutexCall_rp : respect.

Lemma serve_rp t c : c ≠ Exit → (∀ g app, c ≠ Spawn g app) → does R (serve t c).
Proof.
  intros He Hs. destruct c; simpl; try done; try (exfalso; by eapply Hs);
    unfold discard, mutexInit, mutexLock, mutex_lock, mutexUnlock, condInit, condWait, cond_wait,
      condSignal, cond_signal, condBroadcast, barrierInit, barrierWait, handleSleepCall, waitForThreadStart, joinThread,
      put_mutex, put_cond;
    solve_respect.
Qed.
Lemma getThreadToSpawn_rp : does R getThreadToSpawn.
Proof. unfold getThreadToSpawn. solve_respect. Qed.
Lemma onThreadStart_rp t time : does R (sch_threadStart t time) → does R (onThreadStart t time).
Proof. intros Hs. unfold onThreadStart. solve_respect. Qed.

(** The exit of a thread that was on a core, up to the scheduler's part. *)
Lemma onThreadExit_rp t s u s' :
  onThreadExit t s = Ok (u, s') →
  ∃ th c s1 s2 s3 time, 0 ≤ t ∧ m_threads (tm s) !! Z.to_nat t = Some th ∧ m_core th = Some c ∧
    R s s1 ∧ setCore t None s1 = Ok (tt, s2) ∧ sch_threadExit t time s2 = Ok (tt, s3) ∧ R s3 s'.
Proof.
  intros He. unfold onThreadExit in He.
  apply st_bind_Ok in He as (l & s0 & [= <- <-] & He). apply st_bind_Ok in He as ([] & s0 & [_ ->]%lift_Ok & He).
  apply st_bind_Ok in He as (th & s0 & Eth & He). apply getThreadFromID_Ok in Eth as (-> & H0 & Hth).
  apply st_bind_Ok in He as (core & s0 & [Ec ->]%lift_Ok & He). apply st_bind_Ok in He as (co & s0 & Eco & He).
  apply getCoreFromID_Ok in Eco as (-> & _). apply st_bind_Ok in He as (ts & s0 & Ets & He).
  apply get_state_Ok in Ets as (-> & _). apply st_bind_Ok in He as ([] & s0 & [_ ->]%lift_Ok & He).
  destruct (m_core th) as [c|] eqn:Hcore; [injection Ec as ->|done].
  apply st_bind_Ok in He as ([] & s1 & E1 & He). apply st_bind_Ok in He as ([] & s2 & E2 & He).
  apply st_bind_Ok in He as ([] & s3 & E3 & He). apply st_bind_Ok in He as ([] & s4 & E4 & He).
  apply st_bind_Ok in He as ([] & s5 & E5 & He). unfold hook_exit in He. apply st_bind_Ok in He as ([] & s6 & E6 & He).
  exists th, core, s4, s5, s6, (c_elapsed co). split; [done|]. split; [done|]. split; [done|].
  split; [|split; [done|split; [done|by eapply bss_threadStop_rp]]].
  etrans; [by eapply (upd_state_rp R)|]. etrans; [by eapply wakeUpWaiter_rp|]. etrans; [|by eapply (upd_core_rp R)].
  revert E3. match goal with |- ?m s2 = _ → _ => assert (Hm : does R m) by solve_respect end. apply Hm.
Qed.
End Services.
