(* ===== verification/OpenBase.v ===== *)
(** What the methods of the pinned scheduler leave alone when the open
    scheduler calls them: the applications of the threads, and the threads
    that sleep because no core is in their affinity. *)
From S2P Require Import Prelude SubsecondTime System ThreadManager SyncServer SyncFacts SchedulerPinned PinnedFacts PinnedProps.
Import Barrier.
Local Open Scope Z_scope.
Implicit Types (x : SchedulerPinnedBase) (b : Sys SchedulerPinnedBase).

(** * Applications *)
Definition apps {X} (s : Sys X) : list Z := m_app_id <$> m_threads (tm s).
Definition same_apps {X} (s s' : Sys X) : Prop := apps s' = apps s.
#[export] Instance same_apps_pre {X} : PreOrder (@same_apps X).
Proof. unfold same_apps. split; [by intros s|]. intros a b c ? ?. congruence. Qed.

(** * Sleeping threads *)
Definition idle_info (i : ThreadInfo) : Prop := isRunning i = false ∧ Forall (eq false) (m_core_affinity i).
Record asleep (n : nat) b : Prop := {
  as_info i : m_thread_info (sched b) !! n = Some i → idle_info i;
  as_core th : m_threads (tm b) !! n = Some th → m_core th = None }.
Definition sleeps (n : nat) b b' : Prop := asleep n b → asleep n b'.
#[export] Instance sleeps_pre n : PreOrder (sleeps n).
Proof. split; [by intros b Hb|]. intros a b c H1 H2 Ha. auto. Qed.

Create HintDb sleeps.
Lemma own_apps {A} (m : st SchedulerPinnedBase A) : does same_apps (own m).
Proof. by intros s a s' (y & _ & ->)%zoom_Ok. Qed.
Lemma upd_thread_apps {X} t f : (∀ th, m_app_id (f th) = m_app_id th) → does (@same_apps X) (upd_thread t f).
Proof.
  intros Hf s u s' (th & _ & Hth & ->)%upd_thread_Ok. unfold same_apps, apps. simpl.
  rewrite list_fmap_insert, Hf. apply list_insert_id. by rewrite list_lookup_fmap, Hth.
Qed.
Lemma same_threads {X A} (R : relation (Sys X)) (m : st (Sys X) A) :
  (∀ s s', sched s' = sched s → m_threads (tm s') = m_threads (tm s) → R s s') →
  (∀ s a s', m s = Ok (a, s') → sched s' = sched s ∧ m_threads (tm s') = m_threads (tm s)) → does R m.
Proof. intros HR Hm s a s' He. destruct (Hm _ _ _ He). by apply HR. Qed.
Lemma upd_core_threads {X} c f (s : Sys X) a s' :
  upd_core c f s = Ok (a, s') → sched s' = sched s ∧ m_threads (tm s') = m_threads (tm s).
Proof. intros He. unfold upd_core in He. by inv_st. Qed.
Lemma upd_state_threads {X} t f (s : Sys X) a s' :
  upd_state t f s = Ok (a, s') → sched s' = sched s ∧ m_threads (tm s') = m_threads (tm s).
Proof. intros He. unfold upd_state in He. by inv_st. Qed.
Lemma get_state_threads {X} t (s : Sys X) a s' :
  get_state t s = Ok (a, s') → sched s' = sched s ∧ m_threads (tm s') = m_threads (tm s).
Proof. intros He. unfold get_state in He. by inv_st. Qed.
Lemma getThread_threads {X} t (s : Sys X) a s' :
  getThreadFromID t s = Ok (a, s') → sched s' = sched s ∧ m_threads (tm s') = m_threads (tm s).
Proof. intros He. unfold getThreadFromID in He. by inv_st. Qed.
Lemma getCore_threads {X} t (s : Sys X) a s' :
  getCoreFromID t s = Ok (a, s') → sched s' = sched s ∧ m_threads (tm s') = m_threads (tm s).
Proof. intros He. unfold getCoreFromID in He. by inv_st. Qed.
Lemma on_bss_threads {X A} (m : st BarrierSyncServer A) (s : Sys X) a s' :
  on_bss m s = Ok (a, s') → sched s' = sched s ∧ m_threads (tm s') = m_threads (tm s).
Proof. by intros (y & _ & ->)%zoom_Ok. Qed.

Lemma same_apps_same {X} (s s' : Sys X) :
  sched s' = sched s → m_threads (tm s') = m_threads (tm s) → same_apps s s'.
Proof. intros _ H2. unfold same_apps, apps. by rewrite H2. Qed.
Lemma sleeps_same n b b' : sched b' = sched b → m_threads (tm b') = m_threads (tm b) → sleeps n b b'.
Proof. intros H1 H2 [Hi Hc]. split; [by rewrite H1|by rewrite H2]. Qed.
#[export] Hint Extern 1 (does same_apps (upd_thread _ _)) => by apply upd_thread_apps : sleeps.
#[export] Hint Resolve own_apps : sleeps.
#[export] Hint Extern 1 (does same_apps (upd_core _ _)) => apply (same_threads _ _ same_apps_same), upd_core_threads : sleeps.
#[export] Hint Extern 1 (does same_apps (upd_state _ _)) => apply (same_threads _ _ same_apps_same), upd_state_threads : sleeps.
#[export] Hint Extern 1 (does same_apps (get_state _)) => apply (same_threads _ _ same_apps_same), get_state_threads : sleeps.
#[export] Hint Extern 1 (does same_apps (getThreadFromID _)) => apply (same_threads _ _ same_apps_same), getThread_threads : sleeps.
#[export] Hint Extern 1 (does same_apps (getCoreFromID _)) => apply (same_threads _ _ same_apps_same), getCore_threads : sleeps.
#[export] Hint Extern 1 (does same_apps (on_bss _)) => apply (same_threads _ _ same_apps_same), on_bss_threads : sleeps.
#[export] Hint Extern 1 (does (sleeps ?n) (upd_core _ _)) => apply (same_threads _ _ (sleeps_same n)), upd_core_threads : sleeps.
#[export] Hint Extern 1 (does (sleeps ?n) (upd_state _ _)) => apply (same_threads _ _ (sleeps_same n)), upd_state_threads : sleeps.
#[export] Hint Extern 1 (does (sleeps ?n) (get_state _)) => apply (same_threads _ _ (sleeps_same n)), get_state_threads : sleeps.
#[export] Hint Extern 1 (does (sleeps ?n) (getThreadFromID _)) => apply (same_threads _ _ (sleeps_same n)), getThread_threads : sleeps.
#[export] Hint Extern 1 (does (sleeps ?n) (getCoreFromID _)) => apply (same_threads _ _ (sleeps_same n)), getCore_threads : sleeps.
#[export] Hint Extern 1 (does (sleeps ?n) (on_bss _)) => apply (same_threads _ _ (sleeps_same n)), on_bss_threads : sleeps.

(** ** Members of the scheduler *)
Definition keeps_idle (n : nat) x x' : Prop :=
  (∀ i, m_thread_info x !! n = Some i → idle_info i) → ∀ i, m_thread_info x' !! n = Some i → idle_info i.
#[export] Instance keeps_idle_pre n : PreOrder (keeps_idle n).
Proof. split; [by intros x Hx|]. intros x y z H1 H2 Hx. auto. Qed.
Lemma own_sleeps {A} n (m : st SchedulerPinnedBase A) : does (keeps_idle n) m → does (sleeps n) (own m).
Proof. intros Hm s a s' (y & E & ->)%zoom_Ok [Hi Hc]. split; [|done]. simpl. exact (Hm _ _ _ E Hi). Qed.
Ltac solve_sleeps :=
  repeat match goal with
  | |- does _ (st_bind _ _) => apply (does_bind _); [|intros ?]
  | |- does _ (ret _) => apply (does_ret _)
  | |- does _ (gets _) => apply (does_gets _)
  | |- does _ (lift _) => apply (does_lift _)
  | |- does _ (fail _) => apply (does_fail _)
  | |- does _ (forM_ _ _) => apply (does_forM _); intros ?
  | |- does _ (match ?x with _ => _ end) => destruct x
  | |- does (sleeps _) (own (st_bind _ _)) => apply own_sleeps
  | |- does _ _ => solve [eauto with sleeps]
  end.

Lemma same_infos {A} n (m : st SchedulerPinnedBase A) :
  (∀ x a x', m x = Ok (a, x') → m_thread_info x' = m_thread_info x) → does (keeps_idle n) m.
Proof. intros Hm x a x' He. unfold keeps_idle. by rewrite (Hm _ _ _ He). Qed.
Lemma upd_info_Ok t f x u x' :
  upd_info t f x = Ok (u, x') →
  ∃ i i', 0 ≤ t ∧ m_thread_info x !! Z.to_nat t = Some i ∧ f i = Ok i' ∧
    x' = put_infos (<[Z.to_nat t := i']> (m_thread_info x)) x.
Proof.
  intros He. unfold upd_info, info_of in He.
  apply st_bind_Ok in He as (i & x1 & E & He). apply st_bind_Ok in E as (l & x2 & [= <- <-] & [E ->]%lift_Ok).
  apply rdz_Ok in E as [H0 Hi]. apply st_bind_Ok in He as (i' & x2 & [Ef ->]%lift_Ok & He).
  apply st_bind_Ok in He as (l & x2 & [= <- <-] & He). apply st_bind_Ok in He as (l & x2 & [El ->]%lift_Ok & [= _ <-]).
  apply updz_Ok in El as (i0 & _ & _ & ->). by exists i, i'.
Qed.
Lemma upd_info_idle n t f :
  (∀ i i', t = Z.of_nat n → f i = Ok i' → idle_info i → idle_info i') → does (keeps_idle n) (upd_info t f).
Proof.
  intros Hf x u x' (i & i' & H0 & Hi & Ef & ->)%upd_info_Ok Hn j. simpl.
  intros [[Heq [<- _]]|[_ Hj]]%list_lookup_insert_Some; [|by apply Hn]. subst n. apply (Hf i); [lia|done|by apply Hn].
Qed.
Lemma upd_info_other n t f : t ≠ Z.of_nat n → does (keeps_idle n) (upd_info t f).
Proof. intros Hne. by apply upd_info_idle. Qed.
Lemma set_runnable_idle n t v : does (keeps_idle n) (set_runnable t v).
Proof. apply same_infos. intros x a x' He. unfold set_runnable in He. by inv_st. Qed.
Lemma set_running_idle n c t : does (keeps_idle n) (set_running_on c t).
Proof. apply same_infos. intros x a x' He. unfold set_running_on in He. by inv_st. Qed.
Lemma set_quantum_idle n c t : does (keeps_idle n) (set_quantum_left c t).
Proof. apply same_infos. intros x a x' He. unfold set_quantum_left in He. by inv_st. Qed.
Lemma running_on_idle n c : does (keeps_idle n) (running_on c).
Proof. apply same_infos. intros x a x' He. unfold running_on in He. by inv_st. Qed.
Lemma info_of_idle n t : does (keeps_idle n) (info_of t).
Proof. apply same_infos. intros x a x' He. unfold info_of in He. by inv_st. Qed.
Lemma findFree_idle n t : does (keeps_idle n) (findFreeCoreForThread t).
Proof. apply same_infos. intros x a x' He. unfold findFreeCoreForThread, info_of in He. by inv_st. Qed.
Lemma put_runnable_idle n (g : SchedulerPinnedBase → list bool) (p : SchedulerPinnedBase → bool) :
  does (keeps_idle n) (modify (λ x, if p x then put_runnable (g x) x else x)).
Proof. apply same_infos. intros x a x' [= _ <-]. by destruct (p x). Qed.
Lemma put_periodic_idle n v (g : SchedulerPinnedBase → Z) : does (keeps_idle n) (modify (λ x, put_periodic v (g x) x)).
Proof. by apply same_infos; intros x a x' [= _ <-]. Qed.
#[export] Hint Resolve own_sleeps set_runnable_idle set_running_idle set_quantum_idle running_on_idle info_of_idle
  findFree_idle put_runnable_idle put_periodic_idle : sleeps.

(** ** Moving threads *)
Lemma upd_thread_sleeps n t f :
  (∀ th, t = Z.of_nat n → m_core th = None → m_core (f th) = None) → does (sleeps n) (upd_thread t f).
Proof.
  intros Hf s u s' (th & H0 & Hth & ->)%upd_thread_Ok [Hi Hc]. split; [done|]. simpl.
  intros th' [[Heq [<- _]]|[_ Hj]]%list_lookup_insert_Some; [|by apply Hc]. subst n. apply Hf; [lia|by apply Hc].
Qed.
#[export] Hint Extern 1 (does (sleeps _) (upd_thread _ _)) => apply upd_thread_sleeps; by intros [] : sleeps.
Lemma setCore_apps {X} t c : does (@same_apps X) (setCore t c).
Proof. unfold setCore. solve_sleeps. Qed.
Lemma setCore_sleeps n t c : c = None ∨ t ≠ Z.of_nat n → does (sleeps n) (setCore t c).
Proof.
  intros Hc. unfold setCore. apply (does_bind _); [solve_sleeps|intros th]. apply (does_bind _); [solve_sleeps|intros ?].
  apply (does_bind _); [|intros ?; solve_sleeps]. apply upd_thread_sleeps. intros th' -> _. by destruct Hc as [->|?].
Qed.
#[export] Hint Resolve setCore_apps : sleeps.
#[export] Hint Extern 1 (does (sleeps _) (setCore _ _)) => apply setCore_sleeps; first [by left|by right] : sleeps.

Section Moving.
Context `{HH : Host}.
Variable f : Z → Z → Z → st (Sys SchedulerPinnedBase) unit.
Lemma moveThread_apps t c time : (∀ t u n, does same_apps (f t u n)) → does same_apps (moveThread f t c time).
Proof. intros Hf. unfold moveThread, resumeThread, resumeThread_async, signal, hook_migrate. solve_sleeps. Qed.
Lemma moveThread_sleeps n t c time :
  (∀ t u m, does (sleeps n) (f t u m)) → c = INVALID_CORE_ID ∨ t ≠ Z.of_nat n → does (sleeps n) (moveThread f t c time).
Proof.
  intros Hf Hc. unfold moveThread, resumeThread, resumeThread_async, signal, hook_migrate.
  destruct (Z.eqb_spec c INVALID_CORE_ID) as [->|Hne]; [solve_sleeps|]. destruct Hc as [?|Hc]; [done|]. solve_sleeps.
Qed.
End Moving.

(** ** Rescheduling *)
Lemma select_affinity time c runnable infos k new0 max0 new :
  select time c runnable infos k new0 max0 = Ok new →
  new = new0 ∨ ∃ j i, new = k + Z.of_nat j ∧ infos !! j = Some i ∧ true ∈ m_core_affinity i.
Proof.
  revert infos k new0 max0. induction runnable as [|r runnable IH]; intros infos k new0 max0; simpl; [intros [= <-]; by left|].
  destruct infos as [|t infos]; [done|]. intros (ok & Hok & He)%res_bind_Ok.
  assert (Hnext : ∀ new1 max1, select time c runnable infos (k + 1) new1 max1 = Ok new →
    new = new1 ∨ ∃ j i, new = k + Z.of_nat j ∧ (t :: infos) !! j = Some i ∧ true ∈ m_core_affinity i).
  { intros new1 max1 [?|(j & i & -> & Hi & Ha)]%IH; [by left|right]. exists (S j), i. split; [lia|done]. }
  destruct (ok && _) eqn:Ho; [|by eapply Hnext]. apply andb_true_iff in Ho as [-> _].
  destruct (Hnext _ _ He) as [->|?]; [|by right]. right. exists 0%nat, t. split; [lia|]. split; [done|].
  unfold may_run in Hok. apply res_bind_Ok in Hok as (a & Ha & Hok). injection Hok as Hok.
  destruct a; [|done]. unfold hasAffinity in Ha. apply rdz_Ok in Ha as [_ Ha]. by eapply list_elem_of_lookup_2.
Qed.

Section Rescheduling.
Context `{HH : Host}.

Lemma chosen_awake n time c b new :
  asleep n b → chosen time c (sched b) = Ok new → new ≠ Z.of_nat n.
Proof.
  intros [Hi _] [->|(j & i & -> & Hj & Ha)]%select_affinity; [unfold INVALID_THREAD_ID; lia|]. intros Heq.
  assert (j = n) as -> by lia. destruct (Hi i Hj) as [_ Hall]. rewrite Forall_forall in Hall. by specialize (Hall true Ha).
Qed.
Lemma threadResume_by_apps f t u time :
  (∀ time c p, does same_apps (f time c p)) → does same_apps (threadResume_by f t u time).
Proof. intros Hf. unfold threadResume_by. solve_sleeps. Qed.
Lemma threadResume_by_sleeps n f t u time :
  (∀ time c p, does (sleeps n) (f time c p)) → does (sleeps n) (threadResume_by f t u time).
Proof. intros Hf. unfold threadResume_by. solve_sleeps. Qed.
Lemma reschedule_f_apps fuel time c p : does same_apps (reschedule_f fuel time c p).
Proof.
  revert time c p. induction fuel as [|fuel IH]; intros time c p; simpl; [solve_sleeps|].
  assert (Hm : ∀ t c, does same_apps (moveThread (threadResume_by (reschedule_f fuel)) t c time)).
  { intros t d. apply moveThread_apps. intros t' by' time'. by apply threadResume_by_apps. }
  unfold isThreadInitializing. solve_sleeps.
Qed.
Lemma leave_sleeps n f time c cur :
  (∀ t u m, does (sleeps n) (f t u m)) → does (sleeps n) (leave f time c cur).
Proof.
  intros Hf. unfold leave. destruct (negb _); [|solve_sleeps]. apply (does_bind _); [|intros ?; by apply moveThread_sleeps; [|left]].
  apply own_sleeps, upd_info_idle. intros i i' _ [= <-] [_ Ha]. by split.
Qed.
Lemma enter_sleeps n f time c new :
  (∀ t u m, does (sleeps n) (f t u m)) → new ≠ Z.of_nat n → does (sleeps n) (enter f time c new).
Proof.
  intros Hf Hn. unfold enter. apply (does_bind _); [solve_sleeps|intros i]. apply (does_bind _); [solve_sleeps|intros ?].
  apply (does_bind _); [by apply own_sleeps, upd_info_other|intros ?]. apply moveThread_sleeps; [done|by right].
Qed.
Lemma reschedule_f_sleeps n fuel time c p : does (sleeps n) (reschedule_f fuel time c p).
Proof.
  revert time c p. induction fuel as [|fuel IH]; intros time c p; [simpl; solve_sleeps|].
  intros s u s' He Ha. rewrite reschedule_f_eq in He. cbv zeta in He.
  assert (Hf : ∀ t u m, does (sleeps n) (threadResume_by (reschedule_f fuel) t u m)) by (intros; by apply threadResume_by_sleeps).
  apply st_bind_Ok in He as (cur & s1 & E1 & He).
  assert (Ha1 : asleep n s1) by (revert Ha; eapply (own_sleeps n (running_on c)); [apply running_on_idle|exact E1]).
  apply st_bind_Ok in He as (init & s2 & E2 & He).
  assert (Ha2 : asleep n s2).
  { revert E2 Ha1. match goal with |- ?m s1 = _ → _ => assert (Hm : does (sleeps n) m) by (unfold isThreadInitializing; solve_sleeps) end.
    apply Hm. }
  destruct init; [by apply ret_Ok in He as [_ ->]|]. apply st_bind_Ok in He as (x & s3 & [= <- <-] & He).
  apply st_bind_Ok in He as (new & s3 & [Enew ->]%lift_Ok & He). pose proof (chosen_awake _ _ _ _ _ Ha2 Enew) as Hn.
  revert He Ha2. match goal with |- ?m s2 = _ → _ => assert (Hm : does (sleeps n) m) end; [|apply Hm].
  pose proof (leave_sleeps n _ time c cur Hf). pose proof (enter_sleeps n _ time c new Hf Hn). solve_sleeps.
Qed.
Lemma reschedule_apps time c p : does same_apps (reschedule time c p).
Proof. unfold reschedule. apply (does_bind _); [solve_sleeps|]. intros fuel. apply reschedule_f_apps. Qed.
Lemma reschedule_sleeps n time c p : does (sleeps n) (reschedule time c p).
Proof. unfold reschedule. apply (does_bind _); [solve_sleeps|]. intros fuel. apply reschedule_f_sleeps. Qed.
Hint Resolve reschedule_apps reschedule_sleeps : sleeps.

(** ** The methods *)
Lemma threadResume_apps t u time : does same_apps (threadResume t u time).
Proof. apply threadResume_by_apps, reschedule_apps. Qed.
Lemma threadResume_sleeps n t u time : does (sleeps n) (threadResume t u time).
Proof. apply threadResume_by_sleeps, reschedule_sleeps. Qed.
Lemma threadStart_apps t time : does same_apps (threadStart t time).
Proof. unfold threadStart. solve_sleeps. Qed.
Lemma threadStart_sleeps n t time : does (sleeps n) (threadStart t time).
Proof. unfold threadStart. solve_sleeps. Qed.
Lemma threadStall_apps t r time : does same_apps (threadStall t r time).
Proof. unfold threadStall, reschedule_core_of. solve_sleeps. Qed.
Lemma threadStall_sleeps n t r time : does (sleeps n) (threadStall t r time).
Proof. unfold threadStall, reschedule_core_of. solve_sleeps. Qed.
Lemma threadExit_apps t time : does same_apps (threadExit t time).
Proof. unfold threadExit, reschedule_core_of. solve_sleeps. Qed.
Lemma threadExit_sleeps n t time : does (sleeps n) (threadExit t time).
Proof. unfold threadExit, reschedule_core_of. solve_sleeps. Qed.
Lemma periodic_apps time : does same_apps (periodic time).
Proof. unfold periodic. solve_sleeps. Qed.
Lemma periodic_sleeps n time : does (sleeps n) (periodic time).
Proof. unfold periodic. solve_sleeps. Qed.
Lemma threadYield_apps t : does same_apps (threadYield t).
Proof. unfold threadYield. solve_sleeps. Qed.
Lemma threadYield_sleeps n t : does (sleeps n) (threadYield t).
Proof. unfold threadYield. solve_sleeps. Qed.
Hint Resolve threadYield_apps threadYield_sleeps : sleeps.
Lemma threadSetAffinity_apps by' t mask : does same_apps (threadSetAffinity by' t mask).
Proof. unfold threadSetAffinity. solve_sleeps. Qed.

(** ** Affinities *)
Lemma new_info_idle k : idle_info (ThreadInfo_new k).
Proof. split; [done|]. simpl. by apply Forall_replicate. Qed.
Lemma resize_idle n (p : SchedulerPinnedBase → bool) (g : SchedulerPinnedBase → nat) :
  does (keeps_idle n) (modify (λ x, if p x
    then put_infos (resize (g x) (ThreadInfo_new (app_cores x)) (m_thread_info x)) x else x)).
Proof.
  intros x u x' [= _ <-] Hn i. destruct (p x); [|apply Hn]. simpl. unfold resize.
  intros [Hi|[_ Hi]]%lookup_app_Some; [by apply Hn|]. apply lookup_replicate in Hi as [-> _]. apply new_info_idle.
Qed.
Lemma setExplicit_idle n t : does (keeps_idle n) (upd_info t (λ i, Ok (setExplicitAffinity i))).
Proof. apply upd_info_idle. by intros i i' _ [= <-]. Qed.
Lemma clear_idle i : isRunning i = false → idle_info (clearAffinity i).
Proof. intros Hr. split; [done|]. simpl. apply Forall_fmap, Forall_true. done. Qed.
Lemma clearAffinity_idle n t : does (keeps_idle n) (upd_info t (λ i, Ok (clearAffinity i))).
Proof. apply upd_info_idle. intros i i' _ [= <-] [Hr _]. by apply clear_idle. Qed.
Lemma add_mask_idle n k t cpu mask :
  t ≠ Z.of_nat n ∨ Forall (eq false) mask → does (keeps_idle n) (add_mask k t cpu mask).
Proof.
  revert cpu. induction mask as [|m mask IH]; intros cpu Ht; simpl; [apply (does_ret _)|].
  apply (does_bind _); [|intros ?; apply IH; destruct Ht as [?|[_ ?]%Forall_cons]; auto].
  destruct m; [|apply (does_ret _)]. destruct Ht as [Ht|[? _]%Forall_cons]; [|done].
  apply (does_bind _); [apply (does_lift _)|intros ?]. by apply upd_info_other.
Qed.
Lemma set_affinity_sleeps n t mask :
  t ≠ Z.of_nat n ∨ (∃ l, mask = Some l ∧ Forall (eq false) l) → does (sleeps n) (own (set_affinity t mask)).
Proof.
  intros Ht. apply own_sleeps. unfold set_affinity. apply (does_bind _); [apply resize_idle|intros ?].
  apply (does_bind _); [apply setExplicit_idle|intros ?]. apply (does_bind _); [apply (does_gets _)|intros x].
  destruct mask as [mask|].
  - apply (does_bind _); [apply clearAffinity_idle|intros ?]. apply add_mask_idle.
    destruct Ht as [?|(l & [= <-] & ?)]; auto.
  - destruct Ht as [Ht|(l & ? & _)]; [|done]. apply (does_forM _). intros c. by apply upd_info_other.
Qed.
(** The part of [threadSetAffinity] after the change of the affinity. *)
Lemma after_affinity by' t mask b v b' :
  threadSetAffinity by' t mask b = Ok (v, b') →
  ∃ b1, own (set_affinity t mask) b = Ok (tt, b1) ∧ ∀ n, sleeps n b1 b'.
Proof.
  intros He. unfold threadSetAffinity in He. apply st_bind_Ok in He as ([] & b1 & E1 & He).
  exists b1. split; [done|]. intros n. revert He.
  match goal with |- ?m b1 = _ → _ => assert (Hm : does (sleeps n) m) by solve_sleeps end. apply Hm.
Qed.
Lemma threadSetAffinity_sleeps n by' t mask :
  t ≠ Z.of_nat n ∨ (∃ l, mask = Some l ∧ Forall (eq false) l) → does (sleeps n) (threadSetAffinity by' t mask).
Proof.
  intros Ht b v b' (b1 & E1 & Hs)%after_affinity. etrans; [|apply Hs]. by eapply set_affinity_sleeps.
Qed.
(** Without a core in its affinity, a thread that is not on a core sleeps. *)
Lemma threadSetAffinity_empty by' n l b v b' :
  Forall (eq false) l → threadSetAffinity by' (Z.of_nat n) (Some l) b = Ok (v, b') →
  (∀ i, m_thread_info (sched b) !! n = Some i → isRunning i = false) →
  (∀ th, m_threads (tm b) !! n = Some th → m_core th = None) → asleep n b'.
Proof.
  intros Hl (b1 & E1 & Hs)%after_affinity Hr Hc. apply Hs. clear Hs. apply zoom_Ok in E1 as (y & E1 & ->).
  split; [|done]. simpl. unfold set_affinity in E1.
  apply st_bind_Ok in E1 as ([] & x1 & E & E1). injection E as <-.
  match type of E1 with _ ?z = _ => set (x1 := z) in * end.
  assert (H1 : ∀ i, m_thread_info x1 !! n = Some i → isRunning i = false).
  { intros i. unfold x1. case_match; [|apply Hr]. simpl. unfold resize.
    intros [Hi|[_ Hi]]%lookup_app_Some; [by apply Hr|]. by apply lookup_replicate in Hi as [-> _]. }
  clearbody x1. apply st_bind_Ok in E1 as ([] & x2 & E & E1).
  apply upd_info_Ok in E as (i & i' & _ & Hi & [= <-] & ->). rewrite Nat2Z.id in *.
  apply st_bind_Ok in E1 as (x & x3 & [= <- <-] & E1). apply st_bind_Ok in E1 as ([] & x3 & E & E1).
  apply upd_info_Ok in E as (j & j' & _ & Hj & [= <-] & ->). rewrite Nat2Z.id in *. simpl in Hj.
  rewrite list_lookup_insert_eq in Hj by (by eapply lookup_lt_Some). injection Hj as <-.
  revert E1. match goal with |- ?m ?z = _ → _ => assert (Hm : does (keeps_idle n) m) by (apply add_mask_idle; by right) end.
  intros E1. apply (Hm _ _ _ E1). intros k. simpl.
  intros [[_ [<- _]]|[? _]]%list_lookup_insert_Some; [|done]. apply clear_idle. simpl. exact (H1 i Hi).
Qed.
End Rescheduling.
