(* ===== verification/OpenInv.v ===== *)
(** The invariant of the open scheduler under the FIFO policy: every task is
    in one state, the cores of a task are those that it needs, and the first
    thread of a task that has not started sleeps. *)
From S2P Require Import Prelude SubsecondTime System ThreadManager SyncServer SyncFacts SyncProps Dvfs SchedulerPinned PinnedFacts PinnedProps OpenPolicies SchedulerOpen SyncRespect OpenBase.
Import Barrier.
Local Open Scope Z_scope.

(** * Counting *)
Definition task_cores (l : list systemCore) (i : Z) : Z :=
  Z.of_nat (length (filter (λ c, assignedTaskID c = i) l)).
Definition b2z (b : bool) : Z := if b then 1 else 0.
Definition one_state (t : openTask) : Prop :=
  b2z (waitingToSchedule t) + b2z (waitingInQueue t) + b2z (active t) + b2z (completed t) = 1.

Lemma task_cores_cons c l i :
  task_cores (c :: l) i = (if decide (assignedTaskID c = i) then 1 else 0) + task_cores l i.
Proof. unfold task_cores. rewrite filter_cons. case_decide; simpl; lia. Qed.
Fixpoint sum_upto (n : nat) (f : nat → Z) : Z :=
  match n with O => 0 | S n => sum_upto n f + f n end.
Lemma sum_upto_ext n f g : (∀ i, (i < n)%nat → f i = g i) → sum_upto n f = sum_upto n g.
Proof. induction n as [|n IH]; intros H; simpl; [done|]. rewrite IH, (H n) by (auto with lia). done. Qed.
Lemma sum_upto_add n f g : sum_upto n (λ i, f i + g i) = sum_upto n f + sum_upto n g.
Proof. induction n as [|n IH]; simpl; lia. Qed.
Lemma sum_upto_one n k : (k < n)%nat → sum_upto n (λ i, if decide (Z.of_nat k = Z.of_nat i) then 1 else 0) = 1.
Proof.
  assert (H0 : ∀ m, (m ≤ k)%nat → sum_upto m (λ i, if decide (Z.of_nat k = Z.of_nat i) then 1 else 0) = 0).
  { induction m as [|m IH]; intros Hm; simpl; [done|]. rewrite IH by lia. rewrite decide_False by lia. done. }
  intros Hk. induction n as [|n IH]; [lia|]. simpl. destruct (decide (k = n)) as [->|].
  - rewrite H0 by done. by rewrite decide_True.
  - rewrite IH by lia. rewrite decide_False by lia. done.
Qed.
Lemma sum_upto_zero n f : (∀ i, (i < n)%nat → f i = 0) → sum_upto n f = 0.
Proof. induction n as [|n IH]; intros H; simpl; [done|]. rewrite IH, (H n) by (auto with lia). done. Qed.

(** Every core is free or belongs to one task. *)
Lemma cores_partition l n :
  Forall (λ c, assignedTaskID c = -1 ∨ 0 ≤ assignedTaskID c < Z.of_nat n) l →
  Z.of_nat (length l) = task_cores l (-1) + sum_upto n (λ i, task_cores l (Z.of_nat i)).
Proof.
  induction 1 as [|c l Hc _ IH]; [by rewrite sum_upto_zero|].
  rewrite task_cores_cons. erewrite sum_upto_ext; [|intros i _; apply task_cores_cons]. rewrite sum_upto_add.
  cbn [length]. destruct Hc as [Hc|Hc].
  - rewrite decide_True by done. rewrite (sum_upto_zero n (λ i, if decide (assignedTaskID c = Z.of_nat i) then 1 else 0)); [lia|].
    intros i _. rewrite decide_False by lia. done.
  - rewrite decide_False by lia. assert (Hk : assignedTaskID c = Z.of_nat (Z.to_nat (assignedTaskID c))) by lia.
    rewrite Hk. rewrite sum_upto_one by lia. lia.
Qed.

Definition needed (t : openTask) : Z := if active t then taskCoreRequirement t else 0.
Lemma total_needed l : foldr (λ t n, needed t + n) 0 l = sum_upto (length l) (λ i, default 0 (needed <$> l !! i)).
Proof.
  induction l as [|t l IH] using rev_ind; [done|]. rewrite foldr_app, length_app. simpl.
  assert (Hf : ∀ k, foldr (λ t n, needed t + n) k l = foldr (λ t n, needed t + n) 0 l + k).
  { intros k. clear IH. induction l as [|u l IH]; simpl; [lia|]. rewrite IH. lia. }
  rewrite Hf, Z.add_0_r, IH, Nat.add_1_r. cbn [sum_upto].
  rewrite (lookup_app_r l [t] (length l)), Nat.sub_diag by lia. simpl. f_equal.
  apply sum_upto_ext. intros i Hi. by rewrite lookup_app_l.
Qed.

Section Open.
Context {PQ : PriorityQueue}.
Implicit Types x : SchedulerOpen.

(** * The invariant of the scheduler's own state

    [E] is a task that has its cores and is about to start; [N] is the number
    of threads. *)
Definition started (E : option nat) (n : nat) (t : openTask) : Prop :=
  active t = true ∨ completed t = true ∨ E = Some n.
Record own_inv (E : option nat) (N : nat) x : Prop := {
  ow_fifo : queuePolicy (cfg x) = "FIFO"%string;
  ow_frequency : 0 < minFrequency (cfg x) ≤ maxFrequency (cfg x) ∧ maxFrequency (cfg x) < 2 ^ 31;
  ow_ids i t : openTasks x !! i = Some t → taskID t = Z.of_nat i ∧ 0 ≤ taskCoreRequirement t;
  ow_state i t : openTasks x !! i = Some t → one_state t;
  ow_cores i t : openTasks x !! i = Some t →
    task_cores (systemCores x) (Z.of_nat i) =
      if active t || bool_decide (E = Some i) then taskCoreRequirement t else 0;
  ow_range : Forall (λ c, assignedTaskID c = -1 ∨ 0 ≤ assignedTaskID c < numberOfTasks x) (systemCores x);
  ow_started i t : openTasks x !! i = Some t → active t = true ∨ completed t = true → (i < N)%nat;
  ow_threads c : c ∈ systemCores x → assignedThreadID c ≠ -1 →
    0 ≤ assignedThreadID c < Z.of_nat N ∧
    ∀ t, openTasks x !! Z.to_nat (assignedThreadID c) = Some t → started E (Z.to_nat (assignedThreadID c)) t }.

(** The first thread of a task that has not started is not settled. *)
Definition settled (E : option nat) (N : nat) x (n : nat) : Prop :=
  (n < N)%nat ∧ ∀ t, openTasks x !! n = Some t → started E n t.

(** ** The checks of [periodic] *)
Lemma own_inv_counts N x :
  own_inv None N x →
  numberOfCores x - totalCoreRequirementsOfActiveTasks x = numberOfFreeCores x ∧
  numberOfActiveTasks x + numberOfTasksCompleted x + numberOfTasksInQueue x + numberOfTasksWaitingToSchedule x
    = numberOfTasks x.
Proof.
  intros Hi. split.
  - pose proof (cores_partition _ _ (ow_range _ _ _ Hi)) as Hp.
    change (totalCoreRequirementsOfActiveTasks x) with (foldr (λ t n, needed t + n) 0 (openTasks x)). rewrite total_needed.
    change (numberOfFreeCores x) with (task_cores (systemCores x) (-1)). unfold numberOfCores. rewrite Hp.
    assert (Hs : sum_upto (length (openTasks x)) (λ i, task_cores (systemCores x) (Z.of_nat i)) =
      sum_upto (length (openTasks x)) (λ i, default 0 (needed <$> openTasks x !! i))); [|lia].
    apply sum_upto_ext. intros i Hl. destruct (lookup_lt_is_Some_2 _ _ Hl) as [t Ht]. rewrite Ht. simpl.
    rewrite (ow_cores _ _ _ Hi i t Ht). unfold needed. by rewrite orb_false_r.
  - assert (Hall : Forall one_state (openTasks x)) by (apply Forall_lookup; apply (ow_state _ _ _ Hi)).
    unfold numberOfActiveTasks, numberOfTasksCompleted, numberOfTasksInQueue, numberOfTasksWaitingToSchedule, count_tasks, numberOfTasks.
    induction Hall as [|t l Ht _ IH]; [done|]. rewrite !filter_cons.
    unfold one_state, b2z in Ht.
    destruct (waitingToSchedule t), (waitingInQueue t), (active t), (completed t); simpl in *; lia.
Qed.

(** ** Changes of the scheduler's own state *)
Record own_kept (E : option nat) (N : nat) x x' : Prop := {
  ok_base : base x' = base x;
  ok_length : length (openTasks x') = length (openTasks x);
  ok_inv : own_inv E N x → own_inv E N x';
  ok_settled n : settled E N x n → settled E N x' n }.
#[export] Instance own_kept_pre E N : PreOrder (own_kept E N).
Proof.
  split; [by split|]. intros a b c [A1 A2 A3 A4] [B1 B2 B3 B4].
  split; [congruence|congruence|by intros ?; apply B3, A3|by intros n ?; apply B4, A4].
Qed.

Lemma own_inv_same E N x x' :
  cfg x' = cfg x → openTasks x' = openTasks x → systemCores x' = systemCores x → own_inv E N x → own_inv E N x'.
Proof. intros H1 H2 H3 []. split; unfold numberOfTasks; rewrite ?H1, ?H2, ?H3; done. Qed.
Lemma own_kept_same E N x x' :
  base x' = base x → cfg x' = cfg x → openTasks x' = openTasks x → systemCores x' = systemCores x → own_kept E N x x'.
Proof.
  intros H0 H1 H2 H3. split; [done|by rewrite H2|by apply own_inv_same|]. intros n. unfold settled. by rewrite H2.
Qed.
Lemma same_own_kept {A} E N (m : st SchedulerOpen A) :
  (∀ x a x', m x = Ok (a, x') → base x' = base x ∧ cfg x' = cfg x ∧ openTasks x' = openTasks x ∧ systemCores x' = systemCores x) →
  does (own_kept E N) m.
Proof. intros Hm x a x' He. destruct (Hm _ _ _ He) as (? & ? & ? & ?). by apply own_kept_same. Qed.

(** A change of tasks that only moves them between the states of waiting, or
    changes their times. *)
Definition harmless (f : openTask → openTask) : Prop := ∀ t,
  taskID (f t) = taskID t ∧ taskCoreRequirement (f t) = taskCoreRequirement t ∧
  active (f t) = active t ∧ completed (f t) = completed t.
Lemma put_tasks_kept E N x (l : list openTask) :
  length l = length (openTasks x) →
  (∀ i t', l !! i = Some t' → ∃ t, openTasks x !! i = Some t ∧ taskID t' = taskID t ∧
     taskCoreRequirement t' = taskCoreRequirement t ∧ active t' = active t ∧ completed t' = completed t ∧
     (one_state t → one_state t')) →
  own_kept E N x (put_tasks l x).
Proof.
  intros Hl Hf. split; [done|done| |].
  - intros []. split; unfold numberOfTasks in *; simpl; rewrite ?Hl; try done.
    + intros i t' Ht'. destruct (Hf i t' Ht') as (t & Ht & -> & -> & _). eauto.
    + intros i t' Ht'. destruct (Hf i t' Ht') as (t & Ht & _ & _ & _ & _ & Ho). eauto.
    + intros i t' Ht'. destruct (Hf i t' Ht') as (t & Ht & _ & -> & -> & _). eauto.
    + intros i t' Ht'. destruct (Hf i t' Ht') as (t & Ht & _ & _ & -> & -> & _). eauto.
    + intros c Hc Hn. destruct (ow_threads0 c Hc Hn) as [Hr Hs]. split; [done|]. intros t' Ht'.
      destruct (Hf _ t' Ht') as (t & Ht & _ & _ & Ha & Hd & _). unfold started. rewrite Ha, Hd. by apply Hs.
  - intros n [Hn Hs]. split; [done|]. simpl. intros t' Ht'.
    destruct (Hf _ t' Ht') as (t & Ht & _ & _ & Ha & Hd & _). unfold started. rewrite Ha, Hd. by apply Hs.
Qed.
Lemma upd_task_Ok i f x u x' :
  upd_task i f x = Ok (u, x') →
  ∃ t, 0 ≤ i ∧ openTasks x !! Z.to_nat i = Some t ∧ x' = put_tasks (<[Z.to_nat i := f t]> (openTasks x)) x.
Proof.
  intros He. unfold upd_task in He. apply st_bind_Ok in He as (l & x1 & [= <- <-] & He).
  apply st_bind_Ok in He as (l & x1 & [E ->]%lift_Ok & [= _ <-]). apply updz_Ok in E as (t & H0 & Ht & ->). eauto.
Qed.
Lemma upd_task_kept E N i f :
  harmless f → (∀ t, one_state t → one_state (f t)) → does (own_kept E N) (upd_task i f).
Proof.
  intros Hf Ho x u x' (t & H0 & Ht & ->)%upd_task_Ok. apply put_tasks_kept; [apply length_insert|].
  intros j t'. intros [[<- [<- _]]|[_ Hj]]%list_lookup_insert_Some; [|by exists t'].
  exists t. destruct (Hf t) as (? & ? & ? & ?). do 5 (split; [done|]). by apply Ho.
Qed.

(** A change of the cores that leaves the number of cores of every task. *)
Lemma put_cores_kept E N x l :
  (∀ i, task_cores l i = task_cores (systemCores x) i) →
  Forall (λ c, ∃ d, d ∈ systemCores x ∧ assignedTaskID c = assignedTaskID d) l →
  Forall (λ c, assignedThreadID c = -1 ∨ (∃ d, d ∈ systemCores x ∧ assignedThreadID c = assignedThreadID d) ∨
             0 ≤ assignedThreadID c ∧ settled E N x (Z.to_nat (assignedThreadID c))) l →
  own_kept E N x (put_cores l x).
Proof.
  intros Hc Hr Ht. split; [done|done| |done]. intros []. split; try done; simpl.
  - intros i t Hi. rewrite Hc. eauto.
  - eapply Forall_impl; [exact Hr|]. intros c (d & Hd & ->). rewrite Forall_forall in ow_range0. by apply ow_range0.
  - intros c Hin Hn. rewrite Forall_forall in Ht. destruct (Ht c Hin) as [?|[(d & Hd & Heq)|[H0 Hs]]]; [done| |].
    + rewrite Heq in *. by apply ow_threads0.
    + destruct Hs as [Hl Hs]. split; [lia|]. exact Hs.
Qed.
Lemma upd_syscore_Ok i f x u x' :
  upd_syscore i f x = Ok (u, x') →
  ∃ c, 0 ≤ i ∧ systemCores x !! Z.to_nat i = Some c ∧ x' = put_cores (<[Z.to_nat i := f c]> (systemCores x)) x.
Proof.
  intros He. unfold upd_syscore in He. apply st_bind_Ok in He as (l & x1 & [= <- <-] & He).
  apply st_bind_Ok in He as (l & x1 & [E ->]%lift_Ok & [= _ <-]). apply updz_Ok in E as (c & H0 & Hc & ->). eauto.
Qed.
Lemma task_cores_insert l k c c' i :
  l !! k = Some c →
  task_cores (<[k := c']> l) i = task_cores l i - (if decide (assignedTaskID c = i) then 1 else 0)
                                   + (if decide (assignedTaskID c' = i) then 1 else 0).
Proof.
  revert k. induction l as [|d l IH]; intros [|k] Hk; simplify_eq/=; rewrite !task_cores_cons; [lia|]. rewrite (IH k Hk). lia.
Qed.
Lemma assign_thread_kept E N x u x' i t :
  upd_syscore i (assign_thread t) x = Ok (u, x') → t = -1 ∨ (0 ≤ t ∧ settled E N x (Z.to_nat t)) → own_kept E N x x'.
Proof.
  intros (c & H0 & Hc & ->)%upd_syscore_Ok Ht. assert (Hin : c ∈ systemCores x) by (by eapply list_elem_of_lookup_2).
  apply put_cores_kept.
  - intros j. rewrite (task_cores_insert _ _ c) by done. simpl. lia.
  - apply Forall_insert; [|by exists c]. apply Forall_forall. eauto.
  - apply Forall_insert; [apply Forall_forall; eauto|]. simpl. destruct Ht as [->|?]; auto.
Qed.

(** ** Queues *)
Record queue_only x x' : Prop := {
  qo_base : base x' = base x;
  qo_cfg : cfg x' = cfg x;
  qo_tasks : openTasks x' = openTasks x;
  qo_cores : systemCores x' = systemCores x }.
#[export] Instance queue_only_pre : PreOrder queue_only.
Proof. split; [by split|]. intros a b c [] []. split; congruence. Qed.
Lemma queue_only_kept {A} E N (m : st SchedulerOpen A) : does queue_only m → does (own_kept E N) m.
Proof. intros Hm. apply same_own_kept. intros x a x' He. by destruct (Hm _ _ _ He). Qed.
Lemma task_at_queue i : does queue_only (task_at i).
Proof. intros x a x' He. unfold task_at in He. by inv_st. Qed.
Lemma core_at_queue i : does queue_only (core_at i).
Proof. intros x a x' He. unfold core_at in He. by inv_st. Qed.
Lemma waiting_top_queue : does queue_only waiting_top.
Proof. intros x a x' He. unfold waiting_top in He. by inv_st. Qed.
Lemma waiting_pop_queue : does queue_only waiting_pop.
Proof. intros x a x' He. unfold waiting_pop in He. by inv_st. Qed.
Lemma waiting_push_queue t : does queue_only (waiting_push t).
Proof. by intros x a x' [= _ <-]. Qed.
Lemma active_push_queue t : does queue_only (active_push t).
Proof. by intros x a x' [= _ <-]. Qed.
End Open.

Create HintDb opening.
#[export] Hint Resolve task_at_queue core_at_queue waiting_top_queue waiting_pop_queue waiting_push_queue active_push_queue
  queue_only_kept : opening.
Ltac solve_open :=
  repeat match goal with
  | |- does _ (st_bind _ _) => apply (does_bind _); [|intros ?]
  | |- does _ (ret _) => apply (does_ret _)
  | |- does _ (gets _) => apply (does_gets _)
  | |- does _ (lift _) => apply (does_lift _)
  | |- does _ (fail _) => apply (does_fail _)
  | |- does _ (forM_ _ _) => apply (does_forM _); intros ?
  | |- does _ (match ?x with _ => _ end) => destruct x
  | |- does _ _ => solve [eauto with opening]
  end.

Section Queue.
Context {PQ : PriorityQueue}.
Implicit Types x : SchedulerOpen.
Lemma refresh_queue_only : does queue_only refresh_queue.
Proof. unfold refresh_queue. solve_open. Qed.
Lemma enqueue_one t : waitingToSchedule t = true → one_state t → one_state (enqueue t).
Proof.
  unfold one_state, b2z. simpl. intros ->. destruct (waitingInQueue t), (active t), (completed t); simpl; lia.
Qed.
Lemma fetchTasks_kept E N time x u x' :
  queuePolicy (cfg x) = "FIFO"%string → fetchTasksIntoQueue time x = Ok (u, x') → own_kept E N x x'.
Proof.
  intros Hq He. unfold fetchTasksIntoQueue in He. apply st_bind_Ok in He as (y & x1 & [= <- <-] & He).
  unfold isPriority in He. rewrite Hq in He. injection He as _ <-. apply put_tasks_kept; [apply length_fmap|].
  intros i t' Ht'. apply list_lookup_fmap_Some in Ht' as (t & -> & Ht). exists t. split; [done|].
  destruct (arrived time t) eqn:Ha; [|done]. unfold arrived in Ha. apply andb_true_iff in Ha as [Hw _].
  do 4 (split; [done|]). by apply enqueue_one.
Qed.
(** The front of the queue is a task that waits in it. *)
Lemma taskFront_fifo now x i x' :
  queuePolicy (cfg x) = "FIFO"%string → taskFrontOfQueue now x = Ok (i, x') →
  x' = x ∧ (i = -1 ∨ ∃ t, 0 ≤ i ∧ openTasks x !! Z.to_nat i = Some t ∧ waitingInQueue t = true).
Proof.
  intros Hq He. unfold taskFrontOfQueue in He. apply st_bind_Ok in He as (y & x1 & [= <- <-] & He).
  rewrite Hq, bool_decide_true in He by done. injection He as <- <-. split; [done|].
  destruct (list_find _ _) as [[k t]|] eqn:Hf; [right|by left].
  apply list_find_Some in Hf as (Hk & Hw & _). exists t. split; [lia|]. by rewrite Nat2Z.id.
Qed.
End Queue.
#[export] Hint Resolve refresh_queue_only : opening.

(** * Mapping *)
Section Mapping.
Context {PQ : PriorityQueue} {MP : MappingPolicy}.
Implicit Types x : SchedulerOpen.

(** The cores of [x] that have been given to task [id]. *)
Record gave (id : Z) (n : nat) (l l' : list systemCore) : Prop := {
  gv_task : task_cores l' id = task_cores l id + Z.of_nat n;
  gv_others i : i ≠ id → i ≠ -1 → task_cores l' i = task_cores l i;
  gv_core k c' : l' !! k = Some c' → ∃ c, l !! k = Some c ∧ assignedThreadID c' = assignedThreadID c ∧
    (assignedTaskID c' = assignedTaskID c ∨ assignedTaskID c' = id) }.
Lemma give_cores id cores x u x' :
  id ≠ -1 → forM_ cores (λ c, upd_syscore c (assign_task id)) x = Ok (u, x') → NoDup cores →
  (∀ c, c ∈ cores → 0 ≤ c ∧ ∃ d, systemCores x !! Z.to_nat c = Some d ∧ assignedTaskID d = -1) →
  ∃ l', x' = put_cores l' x ∧ gave id (length cores) (systemCores x) l'.
Proof.
  intros Hid. revert x. induction cores as [|c cores IH]; intros x He Hn Hfree; simpl in He.
  { injection He as _ <-. exists (systemCores x). split; [by destruct x|]. split; [simpl; lia|done|eauto]. }
  apply st_bind_Ok in He as ([] & x1 & E1 & He). apply upd_syscore_Ok in E1 as (d & H0 & Hd & ->).
  apply NoDup_cons in Hn as [Hc Hn].
  assert (Hd' : assignedTaskID d = -1) by (destruct (Hfree c) as (_ & d' & ? & ?); [by left|congruence]).
  destruct (IH _ He Hn) as (l' & -> & Hg).
  { intros c' Hc'. destruct (Hfree c') as (Hp & d' & Hl & Ht); [by right|]. split; [done|]. exists d'. split; [|done]. simpl.
    rewrite list_lookup_insert_ne; [done|]. intros Heq. apply Hc. by replace c with c' by lia. }
  exists l'. split; [done|]. destruct Hg as [G1 G2 G3]. simpl in *. split.
  - rewrite G1, (task_cores_insert _ _ d) by done. simpl. rewrite decide_False by lia. rewrite decide_True by done. simpl. lia.
  - intros i Hi Hi'. rewrite G2 by done. rewrite (task_cores_insert _ _ d) by done. simpl. rewrite !decide_False by lia. lia.
  - intros k c' Hk. destruct (G3 k c' Hk) as (c1 & Hc1 & Ht & Hr).
    apply list_lookup_insert_Some in Hc1 as [[<- [<- _]]|[_ Hc1]]; [|eauto]. exists d. simpl in *. split; [done|].
    split; [done|]. right. by destruct Hr.
Qed.

Lemma available_spec (mask : list bool) (l : list systemCore) k n available :
  foldr (λ i r, let? m := rdz mask i in let? c := rdz l i in let? l := r in Ok ((m && negb (isAssignedToTask c)) :: l))
    (Ok []) (Z.of_nat <$> seq k n) = Ok available →
  ∀ j, available !! j = Some true → ∃ c, l !! (k + j)%nat = Some c ∧ assignedTaskID c = -1.
Proof.
  revert k available. induction n as [|n IH]; intros k available; simpl; [by intros [= <-] j|].
  intros (m & _ & He)%res_bind_Ok. apply res_bind_Ok in He as (c & Hc & He). apply rdz_Ok in Hc as [_ Hc].
  apply res_bind_Ok in He as (r & Hr & [= <-]). rewrite Nat2Z.id in Hc. intros [|j]; simpl.
  - intros [= Hb]. exists c. split; [by rewrite Nat.add_0_r|]. apply andb_true_iff in Hb as [_ Hb].
    unfold isAssignedToTask in Hb. apply negb_true_iff in Hb. apply negb_false_iff, Z.eqb_eq in Hb. done.
  - intros Hj. destruct (IH _ _ Hr j Hj) as (d & Hd & ?). exists d. split; [|done]. by rewrite <- Nat.add_succ_comm.
Qed.

(** A mapping gives an inactive task exactly the cores that it needs. *)
Lemma executeMapping_spec `{!MappingPolicyOk} N id x b x' :
  own_inv None N x → executeMappingPolicy id x = Ok (b, x') →
  ∃ t, 0 ≤ id ∧ openTasks x !! Z.to_nat id = Some t ∧
    if (b : bool) then ∃ l', x' = put_cores l' x ∧ gave id (Z.to_nat (taskCoreRequirement t)) (systemCores x) l'
    else x' = x.
Proof.
  intros Hi He. unfold executeMappingPolicy in He. apply st_bind_Ok in He as (y & x1 & [= <- <-] & He).
  apply st_bind_Ok in He as (available & x1 & [Ea ->]%lift_Ok & He).
  apply st_bind_Ok in He as (t & x1 & Et & He). unfold task_at in Et. apply st_bind_Ok in Et as (l & x2 & [= <- <-] & [Et ->]%lift_Ok).
  apply rdz_Ok in Et as [H0 Ht]. exists t. split; [done|]. split; [done|].
  apply st_bind_Ok in He as (cores & x1 & [Em ->]%lift_Ok & He).
  destruct (Z.ltb_spec (Z.of_nat (length cores)) (taskCoreRequirement t)); [by injection He as <- <-|].
  apply st_bind_Ok in He as ([] & x1 & E1 & He). injection He as <- <-.
  destruct (ow_ids _ _ _ Hi _ _ Ht) as [_ Hreq].
  destruct (mp_map_ok _ _ _ _ _ Em Hreq) as [?|(Hl & Hn & Hfree)]; [lia|].
  assert (Hlen : length cores = Z.to_nat (taskCoreRequirement t)) by lia. rewrite <- Hlen.
  apply give_cores in E1; [done|lia|done|].
  intros c Hc. destruct (Hfree c Hc) as [Hc0 Hav]. split; [done|]. exact (available_spec _ _ _ _ _ Ea _ Hav).
Qed.
Lemma gave_inv N id x t l' :
  own_inv None N x → 0 ≤ id → openTasks x !! Z.to_nat id = Some t → active t = false →
  gave id (Z.to_nat (taskCoreRequirement t)) (systemCores x) l' →
  own_inv (Some (Z.to_nat id)) N (put_cores l' x).
Proof.
  intros Hi H0 Ht Ha [G1 G2 G3]. pose proof (ow_cores _ _ _ Hi _ _ Ht) as Hc. rewrite Ha, Z2Nat.id in Hc by done. simpl in Hc.
  destruct (ow_ids _ _ _ Hi _ _ Ht) as [_ Hreq]. destruct Hi as [F1 F2 F3 F4 F5 F6 F7 F8]. split; simpl; try done.
  - intros i u Hu. destruct (decide (i = Z.to_nat id)) as [->|Hne].
    + rewrite Z2Nat.id, G1, Hc by done. simplify_eq. rewrite (bool_decide_true (Some _ = _)), orb_true_r by done. lia.
    + rewrite G2 by lia. rewrite (F5 i u Hu). rewrite !(bool_decide_false (_ = Some i)) by congruence. done.
  - apply Forall_lookup. intros k c' Hk. destruct (G3 k c' Hk) as (c & Hck & _ & Hr). rewrite Forall_lookup in F6.
    destruct Hr as [-> | ->]; [by eapply F6|]. right. apply lookup_lt_Some in Ht. unfold numberOfTasks. simpl. lia.
  - intros c' [k Hk]%list_elem_of_lookup Hn. destruct (G3 k c' Hk) as (c & Hck & Hth & _). rewrite Hth in *.
    destruct (F8 c) as [Hr Hs]; [by eapply list_elem_of_lookup_2|done|]. split; [done|]. intros u Hu.
    destruct (Hs u Hu) as [?|[?|?]]; unfold started; [auto|auto|done].
Qed.
(** The task starts. *)
Lemma start_inv k N x t t' :
  own_inv (Some k) N x → openTasks x !! k = Some t → (k < N)%nat →
  taskID t' = taskID t → taskCoreRequirement t' = taskCoreRequirement t → active t' = true → one_state t' →
  own_inv None N (put_tasks (<[k := t']> (openTasks x)) x).
Proof.
  intros [F1 F2 F3 F4 F5 F6 F7 F8] Ht Hk Hid Hreq Ha Ho. pose proof (lookup_lt_Some _ _ _ Ht) as Hl.
  split; unfold numberOfTasks in *; simpl; rewrite ?length_insert; try done.
  - intros i u [[<- [<- _]]|[_ Hu]]%list_lookup_insert_Some; [|by apply F3]. rewrite Hid, Hreq. by apply F3.
  - intros i u [[<- [<- _]]|[_ Hu]]%list_lookup_insert_Some; [done|by eapply F4].
  - intros i u [[<- [<- _]]|[Hne Hu]]%list_lookup_insert_Some.
    + rewrite (F5 k t Ht), (bool_decide_true (Some k = _)), orb_true_r by done. by rewrite Ha, Hreq.
    + rewrite (F5 i u Hu). rewrite !(bool_decide_false (_ = Some i)) by congruence. done.
  - intros i u [[<- [<- _]]|[_ Hu]]%list_lookup_insert_Some; [done|by eapply F7].
  - intros c Hc Hn. destruct (F8 c Hc Hn) as [Hr Hs]. split; [done|]. intros u [[Heq [<- _]]|[Hne Hu]]%list_lookup_insert_Some.
    + by left.
    + destruct (Hs u Hu) as [?|[?|?]]; unfold started; [auto|auto|congruence].
Qed.
End Mapping.
