(* ===== verification/OpenRuns.v ===== *)
(** The invariant of the open scheduler across its methods and across the
    services of the simulator. *)
From S2P Require Import Prelude SubsecondTime System ThreadManager SyncServer SyncFacts SyncProps Dvfs SchedulerPinned PinnedFacts PinnedProps OpenPolicies SchedulerOpen SyncRespect OpenBase OpenInv.
Import Barrier.
Local Open Scope Z_scope.

Definition nthreads {X} (s : Sys X) : nat := length (m_threads (tm s)).
Lemma nthreads_apps {X} (s : Sys X) : nthreads s = length (apps s).
Proof. unfold nthreads, apps. by rewrite length_fmap. Qed.

Lemma put_sched_same {X} (s : Sys X) : put_sched (sched s) s = s.
Proof. by destruct s. Qed.

(** A branch of the program, without its condition. *)
Ltac split_if H := match type of H with (if ?b then _ else _) _ = _ => destruct b end.

Section Inv.
Context {PQ : PriorityQueue}.
Implicit Types (x : SchedulerOpen) (s : Sys SchedulerOpen).

Record open_inv (E : option nat) s : Prop := {
  oi_own : own_inv E (nthreads s) (sched s);
  oi_apps n a : (n < length (openTasks (sched s)))%nat → apps s !! n = Some a → a = Z.of_nat n;
  oi_sleep n : settled E (nthreads s) (sched s) n ∨ asleep n (lower s) }.
Record open_after (E : option nat) s s' : Prop := {
  op_apps : apps s' = apps s;
  op_inv : open_inv E s';
  op_settled n : settled E (nthreads s) (sched s) n → settled E (nthreads s') (sched s') n }.
Definition open_kept (E : option nat) s s' : Prop := open_inv E s → open_after E s s'.
#[export] Instance open_kept_pre E : PreOrder (open_kept E).
Proof.
  split; [by split|]. intros a b c H1 H2 Ha. destruct (H1 Ha) as [A1 A2 A3]. destruct (H2 A2) as [B1 B2 B3].
  split; [congruence|auto|auto].
Qed.
Lemma open_after_trans E a b c : open_after E a b → open_after E b c → open_after E a c.
Proof. intros [A1 _ A3] [B1 B2 B3]. split; [congruence|done|auto]. Qed.
Lemma op_threads E s s' : open_after E s s' → nthreads s' = nthreads s.
Proof. intros [Ha _ _]. by rewrite !nthreads_apps, Ha. Qed.

Lemma open_kept_same E s s' :
  sched s' = sched s → thread_view s' = thread_view s → open_kept E s s'.
Proof.
  intros H1 H2. assert (Ha : apps s' = apps s).
  { change (apps s') with (m_app_id <$> m_threads (tm s')). unfold apps.
    assert (Hv : ∀ r : Sys SchedulerOpen, m_app_id <$> m_threads (tm r) = snd <$> thread_view r).
    { intros r. unfold thread_view. by rewrite <- list_fmap_compose. }
    by rewrite !Hv, H2. }
  assert (Hn : nthreads s' = nthreads s) by (by rewrite !nthreads_apps, Ha).
  intros [I1 I2 I3]. split; [done| |by rewrite Hn, H1]. split; rewrite ?Hn, ?H1, ?Ha; [done|done|].
  intros n. destruct (I3 n) as [?|[Hi Hc]]; [by left|right]. split; [simpl; by rewrite H1|]. simpl. intros th Hth.
  assert (Hv : thread_view s' !! n = Some (m_core th, m_app_id th)) by (unfold thread_view; by rewrite list_lookup_fmap, Hth).
  rewrite H2 in Hv. unfold thread_view in Hv. apply list_lookup_fmap_Some in Hv as (th' & [= -> _] & Hth').
  by apply Hc.
Qed.

Lemma put_sched_kept E s x' : own_kept E (nthreads s) (sched s) x' → open_kept E s (put_sched x' s).
Proof.
  intros [K1 K2 K3 K4] [I1 I2 I3]. split; [done| |done]. split; simpl.
  - by apply K3.
  - intros n a. rewrite K2. apply I2.
  - intros n. destruct (I3 n) as [Hs|[Hi Hc]]; [left; by apply K4|right]. split; [simpl; by rewrite K1|done].
Qed.
Lemma mine_kept {A} E (m : st SchedulerOpen A) : (∀ N, does (own_kept E N) m) → does (open_kept E) (mine m).
Proof. intros Hm s a s' (x' & He & ->)%zoom_Ok. apply put_sched_kept. by eapply Hm. Qed.

Lemma on_base_at {A} E (m : st (Sys SchedulerPinnedBase) A) s a s' :
  on_base m s = Ok (a, s') → does same_apps m →
  (∀ n, settled E (nthreads s) (sched s) n ∨ does (sleeps n) m) → open_kept E s s'.
Proof.
  intros (b' & He & ->)%zoom_Ok Ha Hs. assert (Ha' : apps (raise b' s) = apps s) by (exact (Ha _ _ _ He)).
  assert (Hn : nthreads (raise b' s) = nthreads s) by (by rewrite !nthreads_apps, Ha').
  intros [I1 I2 I3]. split; [done| |by rewrite Hn]. split; rewrite ?Hn, ?Ha'; [by eapply own_inv_same; [..|exact I1]|done|].
  intros n. destruct (Hs n) as [?|Hd]; [by left|]. destruct (I3 n) as [?|Hsl]; [by left|right].
  destruct (Hd _ _ _ He Hsl) as [Hi Hc]. by split.
Qed.
Lemma on_base_kept {A} E (m : st (Sys SchedulerPinnedBase) A) :
  does same_apps m → (∀ n, does (sleeps n) m) → does (open_kept E) (on_base m).
Proof. intros Ha Hs s a s' He. eapply on_base_at; [exact He|done|]. intros n. by right. Qed.

Lemma getThread_open E t : does (open_kept E) (getThreadFromID t).
Proof. intros s a s' He. unfold getThreadFromID in He. inv_st. done. Qed.
Lemma get_state_open E t : does (open_kept E) (get_state t).
Proof. intros s a s' He. unfold get_state in He. inv_st. done. Qed.
Lemma getGlobalTime_open E : does (open_kept E) getGlobalTime.
Proof. apply (does_gets _). Qed.
End Inv.
#[export] Hint Resolve getThread_open get_state_open getGlobalTime_open : opening.
#[export] Hint Extern 2 (does (open_kept _) (mine _)) => apply mine_kept; intros ? : opening.

Section Methods.
Context {PQ : PriorityQueue} {HH : Host}.
Implicit Types (x : SchedulerOpen) (s : Sys SchedulerOpen).

Lemma cpu_set_empty : Forall (eq false) (cpu_set INVALID_CORE_ID).
Proof.
  unfold cpu_set, cores_upto, INVALID_CORE_ID. rewrite <- list_fmap_compose. apply Forall_fmap, Forall_forall. intros i _. simpl.
  symmetry. apply Z.eqb_neq. lia.
Qed.
Lemma empty_affinity_kept E by' t :
  does (open_kept E) (threadSetAffinity by' t (Some (cpu_set INVALID_CORE_ID))).
Proof.
  apply on_base_kept; [apply threadSetAffinity_apps|]. intros n. apply threadSetAffinity_sleeps. right.
  eexists. split; [reflexivity|]. apply cpu_set_empty.
Qed.
Lemma set_affinity_open E by' t mask s a s' :
  threadSetAffinity by' t mask s = Ok (a, s') → 0 ≤ t → settled E (nthreads s) (sched s) (Z.to_nat t) → open_kept E s s'.
Proof.
  intros He H0 Hs. eapply on_base_at; [exact He|apply threadSetAffinity_apps|]. intros n.
  destruct (decide (n = Z.to_nat t)) as [->|Hn]; [by left|right]. apply threadSetAffinity_sleeps. left. lia.
Qed.
Lemma set_affinity_sched by' t mask s a s' :
  threadSetAffinity by' t mask s = Ok (a, s') → ∃ b, sched s' = put_base b (sched s).
Proof. intros (b' & _ & ->)%zoom_Ok. by exists (sched b'). Qed.

(** ** The affinity of a thread to a core of its task *)
Lemma task_core_live E N x i c :
  own_inv E N x → systemCores x !! i = Some c → assignedTaskID c ≠ -1 →
  ∃ t, 0 ≤ assignedTaskID c ∧ openTasks x !! Z.to_nat (assignedTaskID c) = Some t ∧
    started E (Z.to_nat (assignedTaskID c)) t.
Proof.
  intros Hi Hc Hn. pose proof (ow_range _ _ _ Hi) as Hr. rewrite Forall_lookup in Hr.
  destruct (Hr i c Hc) as [?|Hrange]; [done|]. destruct (lookup_lt_is_Some_2 (openTasks x) (Z.to_nat (assignedTaskID c))) as [t Ht];
    [unfold numberOfTasks in Hrange; lia|].
  exists t. split; [lia|]. split; [done|]. pose proof (ow_cores _ _ _ Hi _ t Ht) as Hcount. rewrite Z2Nat.id in Hcount by lia.
  assert (Hpos : 0 < task_cores (systemCores x) (assignedTaskID c)).
  { unfold task_cores. assert (Hin : c ∈ filter (λ d, assignedTaskID d = assignedTaskID c) (systemCores x)).
    { apply list_elem_of_filter. split; [done|]. by eapply list_elem_of_lookup_2. }
    destruct (filter _ _); [by apply elem_of_nil in Hin|simpl; lia]. }
  unfold started. destruct (active t); [by left|]. case_bool_decide; [auto|simpl in Hcount; lia].
Qed.
(** A thread whose application owns a core is settled. *)
Lemma owner_settled E s t th i c :
  open_inv E s → 0 ≤ t → m_threads (tm s) !! Z.to_nat t = Some th → systemCores (sched s) !! i = Some c →
  assignedTaskID c = m_app_id th → settled E (nthreads s) (sched s) (Z.to_nat t).
Proof.
  intros [I1 I2 I3] H0 Hth Hc Happ. split; [unfold nthreads; by eapply lookup_lt_Some|]. intros tk Htk.
  assert (Ha : apps s !! Z.to_nat t = Some (m_app_id th)) by (unfold apps; by rewrite list_lookup_fmap, Hth).
  pose proof (I2 _ _ (lookup_lt_Some _ _ _ Htk) Ha) as Heq.
  destruct (task_core_live _ _ _ i c I1 Hc) as (tk' & _ & Htk' & Hs); [lia|].
  rewrite Happ, Heq, Nat2Z.id in *. congruence.
Qed.

Lemma setAffinity_kept E t : does (open_kept E) (setAffinity t).
Proof.
  intros s r s' He. unfold setAffinity in He. apply st_bind_Ok in He as (th & s1 & E1 & He).
  apply getThreadFromID_Ok in E1 as (-> & H0 & Hth). apply st_bind_Ok in He as (l & s1 & [= <- <-] & He).
  destruct (list_find _ _) as [[i c]|] eqn:Hf.
  - apply list_find_Some in Hf as (Hc & [Happ Hfree] & _). apply st_bind_Ok in He as (v & s1 & E1 & He).
    apply st_bind_Ok in He as ([] & s2 & E2 & He). apply ret_Ok in He as [_ ->].
    apply zoom_Ok in E2 as (x' & E2 & ->). intros Hi.
    pose proof (owner_settled _ _ _ _ _ _ Hi H0 Hth Hc Happ) as Hs.
    pose proof (set_affinity_open _ _ _ _ _ _ _ E1 H0 Hs) as K1. revert Hi. change (open_kept E s (put_sched x' s1)).
    intros Hi. eapply (transitivity (R := open_kept E)); [exact K1| |exact Hi]. apply put_sched_kept.
    eapply assign_thread_kept; [exact E2|right]. split; [done|]. by apply (op_settled _ _ _ (K1 Hi)).
  - apply st_bind_Ok in He as (v & s1 & E1 & He). apply ret_Ok in He as [_ ->]. by eapply empty_affinity_kept.
Qed.

Lemma setAffinity_frame t s r s' :
  setAffinity t s = Ok (r, s') →
  openTasks (sched s') = openTasks (sched s) ∧ cfg (sched s') = cfg (sched s) ∧ 0 ≤ t ∧ (Z.to_nat t < nthreads s)%nat.
Proof.
  intros He. unfold setAffinity in He. apply st_bind_Ok in He as (th & s1 & E1 & He).
  apply getThreadFromID_Ok in E1 as (-> & H0 & Hth). apply lookup_lt_Some in Hth.
  apply st_bind_Ok in He as (l & s1 & [= <- <-] & He).
  destruct (list_find _ _) as [[i c]|]; apply st_bind_Ok in He as (v & s1 & E1 & He); apply set_affinity_sched in E1 as [b Hb].
  - apply st_bind_Ok in He as ([] & s2 & E2 & He). apply ret_Ok in He as [_ ->]. apply zoom_Ok in E2 as (x' & E2 & ->).
    apply upd_syscore_Ok in E2 as (c' & _ & _ & ->). simpl. by rewrite Hb.
  - apply ret_Ok in He as [_ ->]. by rewrite Hb.
Qed.
Lemma make_room_fifo id s r s' :
  queuePolicy (cfg (sched s)) = "FIFO"%string → make_room id s = Ok (r, s') → s' = s.
Proof.
  intros Hq He. unfold make_room in He. apply st_bind_Ok in He as (x & s1 & [= <- <-] & He).
  apply st_bind_Ok in He as (t & s1 & E1 & He). apply zoom_Ok in E1 as (y & E1 & ->).
  assert (y = sched s) as -> by (unfold task_at in E1; by inv_st). rewrite put_sched_same in He.
  unfold isPriority in He. rewrite Hq in He. case_match; by apply ret_Ok in He as [_ ->].
Qed.

(** A task that waits gets the state of an active one. *)
Definition waits (t : openTask) : Prop :=
  waitingToSchedule t = false ∧ waitingInQueue t = true ∧ active t = false ∧ completed t = false.
Definition started_task (time : Z) (t : openTask) : openTask :=
  put_flags false false true (completed t)
    (put_task_times (taskArrivalTime t) (getNS time) (taskDepartureTime t) t).
Lemma start_block id time s u s' :
  (mine (upd_task id (λ t, put_task_times (taskArrivalTime t) (getNS time) (taskDepartureTime t)
                             (put_flags (waitingToSchedule t) (waitingInQueue t) true (completed t) t)));!
   let! t := mine (task_at id) in
   mine (active_push t);!
   mine (upd_task id (λ t, put_flags (waitingToSchedule t) false (active t) (completed t) t));!
   let! x := gets sched in
   (if isPriority x then
      let! top := mine waiting_top in if taskID top =? id then mine waiting_pop else ret tt
    else ret tt);!
   mine (upd_task id (λ t, put_flags false (waitingInQueue t) (active t) (completed t) t))) s = Ok (u, s') →
  queuePolicy (cfg (sched s)) = "FIFO"%string →
  ∃ t x', 0 ≤ id ∧ openTasks (sched s) !! Z.to_nat id = Some t ∧ s' = put_sched x' s ∧
    queue_only (put_tasks (<[Z.to_nat id := started_task time t]> (openTasks (sched s))) (sched s)) x'.
Proof.
  intros He Hq. apply st_bind_Ok in He as ([] & s1 & E1 & He). apply zoom_Ok in E1 as (x1 & E1 & ->).
  apply upd_task_Ok in E1 as (t & H0 & Ht & ->). apply st_bind_Ok in He as (t1 & s1 & E1 & He).
  apply zoom_Ok in E1 as (x2 & E1 & ->). assert (x2 = sched (put_sched (put_tasks (<[Z.to_nat id:=
    put_task_times (taskArrivalTime t) (getNS time) (taskDepartureTime t) (put_flags (waitingToSchedule t) (waitingInQueue t) true
    (completed t) t)]> (openTasks (sched s))) (sched s)) s)) as -> by (unfold task_at in E1; by inv_st). simpl in He.
  apply st_bind_Ok in He as ([] & s1 & E2 & He). apply zoom_Ok in E2 as (x2 & [= <-] & ->).
  apply st_bind_Ok in He as ([] & s1 & E2 & He). apply zoom_Ok in E2 as (x2 & E2 & ->).
  apply upd_task_Ok in E2 as (t2 & _ & Ht2 & ->). simpl in Ht2.
  pose proof (lookup_lt_Some _ _ _ Ht) as Hl. rewrite list_lookup_insert_eq in Ht2 by done. injection Ht2 as <-.
  apply st_bind_Ok in He as (x & s1 & [= <- <-] & He). apply st_bind_Ok in He as ([] & s1 & E2 & He).
  unfold isPriority in E2. simpl in E2. rewrite Hq in E2. apply ret_Ok in E2 as [_ ->].
  apply zoom_Ok in He as (x2 & E2 & ->). apply upd_task_Ok in E2 as (t2 & _ & Ht2 & ->). simpl in Ht2.
  rewrite list_lookup_insert_eq in Ht2 by (by rewrite length_insert). injection Ht2 as <-.
  eexists t, _. split; [done|]. split; [done|]. split; [reflexivity|]. split; simpl; try done.
  by rewrite !list_insert_insert_eq.
Qed.

Lemma mapped_inv {MP : MappingPolicy} s id t l' :
  open_inv None s → 0 ≤ id → openTasks (sched s) !! Z.to_nat id = Some t → active t = false →
  gave id (Z.to_nat (taskCoreRequirement t)) (systemCores (sched s)) l' →
  open_inv (Some (Z.to_nat id)) (put_sched (put_cores l' (sched s)) s).
Proof.
  intros [I1 I2 I3] H0 Ht Ha Hg. split; [by eapply gave_inv|done|]. intros n. destruct (I3 n) as [[Hn Hs]|[Hi Hc]]; [left|right].
  - split; [done|]. intros u Hu. destruct (Hs u Hu) as [?|[?|?]]; unfold started; [auto|auto|done].
  - by split.
Qed.
Lemma settled_start E k N x t t' n :
  E = None ∨ E = Some k → openTasks x !! k = Some t → active t' = true →
  settled E N x n → settled None N (put_tasks (<[k := t']> (openTasks x)) x) n.
Proof.
  intros HE Ht Ha [Hn Hs]. split; [done|]. simpl. intros u [[<- [<- _]]|[Hne Hu]]%list_lookup_insert_Some; [by left|].
  destruct (Hs u Hu) as [?|[?|?]]; unfold started; [auto|auto|]. destruct HE; congruence.
Qed.
Lemma started_inv s k t t' x' :
  open_inv (Some k) s → openTasks (sched s) !! k = Some t → (k < nthreads s)%nat →
  taskID t' = taskID t → taskCoreRequirement t' = taskCoreRequirement t → active t' = true → one_state t' →
  queue_only (put_tasks (<[k := t']> (openTasks (sched s))) (sched s)) x' → open_inv None (put_sched x' s).
Proof.
  intros [I1 I2 I3] Ht Hk Hid Hreq Ha Ho [Q1 Q2 Q3 Q4]. split.
  - eapply own_inv_same; [exact Q2|exact Q3|exact Q4|]. by eapply start_inv.
  - intros n a. simpl. rewrite Q3. simpl. rewrite length_insert. apply I2.
  - intros n. destruct (I3 n) as [Hs|[Hi Hc]]; [left|right].
    + assert (Hs' : settled None (nthreads s) (put_tasks (<[k := t']> (openTasks (sched s))) (sched s)) n)
        by (eapply (settled_start (Some k)); [by right|done..]).
      destruct Hs' as [? Hs']. split; [done|]. simpl. by rewrite Q3.
    + split; [simpl; by rewrite Q1|done].
Qed.
(** The task in flight becomes an active one. *)
Lemma start_task_inv id init time s t u s' :
  open_inv (Some (Z.to_nat id)) s → start_task id init time s = Ok (u, s') →
  openTasks (sched s) !! Z.to_nat id = Some t → completed t = false →
  (init = true → (Z.to_nat id < nthreads s)%nat) →
  open_inv None s' ∧ apps s' = apps s ∧
  ∀ n, settled None (nthreads s) (sched s) n → settled None (nthreads s') (sched s') n.
Proof.
  intros Hi He Ht Hd Hinit. unfold start_task in He. apply st_bind_Ok in He as ([] & s4 & E5 & E4).
  assert (H4 : open_inv (Some (Z.to_nat id)) s4 ∧ openTasks (sched s4) = openTasks (sched s) ∧ apps s4 = apps s ∧
    (Z.to_nat id < nthreads s4)%nat).
  { destruct init; simpl in E5; [apply ret_Ok in E5 as [_ ->]; auto 10|].
    apply st_bind_Ok in E5 as (c & s5 & E5 & E6). apply ret_Ok in E6 as [_ ->].
    pose proof (setAffinity_kept (Some (Z.to_nat id)) _ _ _ _ E5) as K. specialize (K Hi). pose proof (op_inv _ _ _ K) as Hi4.
    destruct (setAffinity_frame _ _ _ _ E5) as (F1 & _ & _ & F3). rewrite F1, (op_apps _ _ _ K), (op_threads _ _ _ K). auto 10. }
  destruct H4 as (Hi4 & T4 & A4 & N4).
  destruct (start_block _ _ _ _ _ E4 (ow_fifo _ _ _ (oi_own _ _ Hi4))) as (t4 & x' & _ & Ht4 & -> & Hqo).
  rewrite T4, Ht in Ht4. injection Ht4 as <-. split; [|split; [exact A4|]].
  - eapply started_inv; [exact Hi4|by rewrite T4|done|..|exact Hqo]; try done. unfold one_state, b2z. simpl. by rewrite Hd.
  - intros n Hs. change (settled None (nthreads s4) x' n). rewrite nthreads_apps, A4, <- nthreads_apps.
    assert (Hs' : settled None (nthreads s) (put_tasks (<[Z.to_nat id := started_task time t]> (openTasks (sched s))) (sched s)) n)
      by (eapply (settled_start None); [by left|done|done|done]).
    destruct Hs' as [? Hs']. split; [done|]. rewrite (qo_tasks _ _ Hqo). simpl. rewrite T4. exact Hs'.
Qed.

Lemma schedule_kept {MP : MappingPolicy} `{!MappingPolicyOk} id init time s r s' :
  open_inv None s → schedule id init time s = Ok (r, s') →
  (∀ t, openTasks (sched s) !! Z.to_nat id = Some t → active t = false ∧ completed t = false) →
  (init = true → (Z.to_nat id < nthreads s)%nat) → open_kept None s s'.
Proof.
  intros Hi He Hq Hinit. unfold schedule in He. apply st_bind_Ok in He as (t & s1 & E1 & He).
  apply zoom_Ok in E1 as (y & E1 & ->). assert (y = sched s) as -> by (unfold task_at in E1; by inv_st).
  rewrite put_sched_same in He. split_if He; [by apply ret_Ok in He as [_ ->]|].
  apply st_bind_Ok in He as ([] & s1 & E2 & He). apply zoom_Ok in E2 as (x1 & E2 & ->).
  apply upd_task_Ok in E2 as (t' & Hid0 & Ht & ->). clear E1 t. destruct (Hq t' Ht) as [Ha Hd].
  assert (K1 : open_kept None s (put_sched (put_tasks (<[Z.to_nat id := enqueue t']> (openTasks (sched s))) (sched s)) s)).
  { apply put_sched_kept, put_tasks_kept; [apply length_insert|]. intros j u [[<- [<- _]]|[_ Hj]]%list_lookup_insert_Some; [|by exists u].
    exists t'. split; [done|]. do 4 (split; [done|]). intros _. unfold one_state, b2z. simpl. by rewrite Ha, Hd. }
  assert (Hw : waits (enqueue t')) by done.
  assert (Ht1 : openTasks (sched (put_sched (put_tasks (<[Z.to_nat id := enqueue t']> (openTasks (sched s))) (sched s)) s)) !! Z.to_nat id
    = Some (enqueue t')) by (apply list_lookup_insert_eq; by eapply lookup_lt_Some).
  pose proof (op_inv _ _ _ (K1 Hi)) as Hi1. rewrite <- (op_threads _ _ _ (K1 Hi)) in Hinit. etrans; [exact K1|].
  set (s1 := put_sched _ s) in *. clearbody s1. clear K1 Ht Hq Hi. generalize dependent (enqueue t'). intros t Hw Ht.
  apply st_bind_Ok in He as ([] & s2 & E2 & He). apply zoom_Ok in E2 as (x2 & E2 & ->).
  pose proof (refresh_queue_only _ _ _ E2) as [Q1 Q2 Q3 Q4].
  assert (K2 : open_kept None s1 (put_sched x2 s1)) by (apply put_sched_kept; by apply own_kept_same).
  pose proof (op_inv _ _ _ (K2 Hi1)) as Hi2. rewrite <- (op_threads _ _ _ (K2 Hi1)) in Hinit. etrans; [exact K2|].
  rewrite <- Q3 in Ht. change (openTasks x2) with (openTasks (sched (put_sched x2 s1))) in Ht.
  set (s2 := put_sched x2 s1) in *. clearbody s2. clear dependent s1. clear dependent x2.
  apply st_bind_Ok in He as (now & s1 & [= <- <-] & He). apply st_bind_Ok in He as (front & s1 & E2 & He).
  apply zoom_Ok in E2 as (x3 & E3 & ->). pose proof (ow_fifo _ _ _ (oi_own _ _ Hi2)) as Hf.
  apply taskFront_fifo in E3 as [-> _]; [|done]. rewrite put_sched_same in He. split_if He; [by apply ret_Ok in He as [_ ->]|].
  apply st_bind_Ok in He as (room & s1 & E3 & He). apply make_room_fifo in E3 as ->; [|done].
  split_if He; [by apply ret_Ok in He as [_ ->]|].
  apply st_bind_Ok in He as (m & s1 & E3 & He). apply zoom_Ok in E3 as (x3 & E3 & ->).
  destruct (executeMapping_spec _ _ _ _ _ (oi_own _ _ Hi2) E3) as (t2 & _ & Ht2 & Hm). rewrite Ht in Ht2. injection Ht2 as <-.
  apply st_bind_Ok in He as ([] & s3 & E4 & He). apply ret_Ok in He as [_ ->].
  destruct m; [|apply ret_Ok in E4 as [_ ->]; rewrite Hm, put_sched_same; done].
  destruct Hm as (l' & -> & Hg). destruct Hw as (_ & _ & Ha2 & Hd2).
  pose proof (mapped_inv s2 id t l' Hi2 Hid0 Ht Ha2 Hg) as Hi3.
  destruct (start_task_inv _ _ _ _ t _ _ Hi3 E4 Ht Hd2 Hinit) as (Hi4 & A4 & S4).
  intros _. split; [exact A4|done|]. intros n Hs. by apply S4.
Qed.

(** ** The task in front of the queue *)
Lemma schedule_nonneg {MP : MappingPolicy} id init time s r s' :
  schedule id init time s = Ok (r, s') → 0 ≤ id.
Proof.
  intros He. unfold schedule in He. apply st_bind_Ok in He as (t & s1 & E1 & _). apply zoom_Ok in E1 as (y & E1 & _).
  unfold task_at in E1. apply st_bind_Ok in E1 as (l & x & [= <- <-] & [E1 _]%lift_Ok). by apply rdz_Ok in E1 as [? _].
Qed.
Lemma queued_idle E N x i t :
  own_inv E N x → openTasks x !! i = Some t → waitingInQueue t = true → active t = false ∧ completed t = false.
Proof.
  intros Hi Ht Hw. pose proof (ow_state _ _ _ Hi i t Ht) as Ho. unfold one_state, b2z in Ho. rewrite Hw in Ho.
  destruct (waitingToSchedule t), (active t), (completed t); simpl in Ho; lia || done.
Qed.
Lemma schedule_front_kept {MP : MappingPolicy} `{!MappingPolicyOk} time :
  does (open_kept None) (let! now := getGlobalTime in
                         let! front := mine (taskFrontOfQueue now) in schedule front false time).
Proof.
  intros s r s' He Hi. apply st_bind_Ok in He as (now & s1 & [= <- <-] & He). apply st_bind_Ok in He as (front & s1 & E1 & He).
  apply zoom_Ok in E1 as (x & E1 & ->). pose proof (ow_fifo _ _ _ (oi_own _ _ Hi)) as Hf.
  apply taskFront_fifo in E1 as [-> Hfront]; [|done]. rewrite put_sched_same in He.
  pose proof (schedule_nonneg _ _ _ _ _ _ He) as H0. destruct Hfront as [?|(t & _ & Ht & Hw)]; [lia|].
  eapply schedule_kept; [exact Hi|exact He| |done|exact Hi]. intros t' Ht'. rewrite Ht in Ht'. injection Ht' as <-.
  by eapply queued_idle; [apply Hi|..].
Qed.
Lemma fetch_open time : does (open_kept None) (mine (fetchTasksIntoQueue time)).
Proof.
  intros s u s' (x & E & ->)%zoom_Ok Hi. apply put_sched_kept; [|done].
  eapply fetchTasks_kept; [exact (ow_fifo _ _ _ (oi_own _ _ Hi))|exact E].
Qed.
Lemma schedule_queued_kept {MP : MappingPolicy} `{!MappingPolicyOk} fuel time :
  does (open_kept None) (schedule_queued fuel time).
Proof.
  induction fuel as [|fuel IH]; simpl.
  - apply (does_bind _); [apply (does_gets _)|intros x]. destruct (_ =? _); [apply (does_ret _)|apply (does_fail _)].
  - apply (does_bind _); [apply (does_gets _)|intros x]. destruct (_ =? _); [apply (does_ret _)|].
    intros s u s' He. apply st_bind_Ok in He as (now & s1 & E1 & He). apply st_bind_Ok in He as (front & s2 & E2 & He).
    apply st_bind_Ok in He as (ok & s3 & E3 & He). etrans.
    + eapply (schedule_front_kept time). unfold st_bind. rewrite E1. cbn [res_bind fst snd]. rewrite E2. cbn [res_bind fst snd]. exact E3.
    + destruct ok; [by eapply IH|by apply ret_Ok in He as [_ ->]].
Qed.

(** ** The exit of a thread *)
Lemma release_thread_kept E t : does (open_kept E) (release_thread t).
Proof.
  unfold release_thread. apply (does_bind _); [apply (does_gets _)|intros n]. apply (does_forM _). intros i.
  apply (does_bind _); [apply mine_kept; intros N; solve_open|intros c]. destruct (_ =? _); [|apply (does_ret _)].
  apply (does_bind _); [|intros ?; apply (does_bind _); [apply empty_affinity_kept|intros ?; apply (does_ret _)]].
  apply mine_kept. intros N x u x' He. eapply assign_thread_kept; [exact He|by left].
Qed.
Definition vacated (app : Z) (c : systemCore) : systemCore :=
  if assignedTaskID c =? app then assign_task (-1) c else c.
Lemma vacated_cores app l i :
  i ≠ -1 → task_cores (vacated app <$> l) i = if decide (i = app) then 0 else task_cores l i.
Proof.
  intros Hi. induction l as [|c l IH]; [by case_decide|]. rewrite fmap_cons, !task_cores_cons, IH. unfold vacated.
  destruct (Z.eqb_spec (assignedTaskID c) app) as [Heq|Hne]; simpl.
  - rewrite (decide_False (P := -1 = i)) by lia. case_decide; [done|]. rewrite decide_False by lia. done.
  - case_decide; [|done]. rewrite decide_False by lia. done.
Qed.
Lemma finish_task_kept N k time x u x' :
  finish_task (Z.of_nat k) time x = Ok (u, x') → own_inv None N x → settled None N x k → own_kept None N x x'.
Proof.
  intros He Hi [Hk Hs]. unfold finish_task in He. apply st_bind_Ok in He as ([] & x1 & [= <-] & He).
  apply st_bind_Ok in He as ([] & x2 & E2 & He). apply upd_task_Ok in E2 as (t & _ & Ht & ->). rewrite Nat2Z.id in *. simpl in Ht.
  assert (Hx : x' = put_tasks (<[k := put_task_times (taskArrivalTime t) (taskStartTime t) (getNS time)
      (put_flags (waitingToSchedule t) (waitingInQueue t) false true t)]> (openTasks x))
      (put_cores (vacated (Z.of_nat k) <$> systemCores x) x)).
  { unfold leave_queue in He. apply st_bind_Ok in He as (y & x2 & [= <- <-] & He). unfold isPriority in He. simpl in He.
    rewrite (ow_fifo _ _ _ Hi) in He. by apply ret_Ok in He as [_ ->]. }
  subst x'. clear He. set (t' := put_task_times _ _ _ _). pose proof (lookup_lt_Some _ _ _ Ht) as Hl.
  assert (Ho : waitingToSchedule t = false ∧ waitingInQueue t = false).
  { pose proof (ow_state _ _ _ Hi k t Ht) as Ho. unfold one_state, b2z in Ho.
    destruct (Hs t Ht) as [Ha|[Ha|?]]; [..|done]; rewrite Ha in Ho;
      destruct (waitingToSchedule t), (waitingInQueue t), (active t), (completed t); simpl in Ho; try lia; done. }
  assert (Hdone : ∀ i v, (<[k := t']> (openTasks x)) !! i = Some v → i = k ∧ v = t' ∨ i ≠ k ∧ openTasks x !! i = Some v).
  { intros i v [[<- [<- _]]|[? ?]]%list_lookup_insert_Some; auto. }
  split; [done|simpl; apply length_insert| |].
  - intros [F1 F2 F3 F4 F5 F6 F7 F8]. split; unfold numberOfTasks in *; simpl; rewrite ?length_insert; try done.
    + intros i v [[-> ->]|[_ Hv]]%Hdone; [by apply (F3 k t)|by apply F3].
    + intros i v [[-> ->]|[_ Hv]]%Hdone; [|by eapply F4]. unfold one_state, b2z. simpl. by destruct Ho as [-> ->].
    + intros i v [[-> ->]|[Hne Hv]]%Hdone; rewrite vacated_cores by lia; [by rewrite decide_True|].
      rewrite decide_False by lia. by apply F5.
    + apply Forall_fmap. eapply Forall_impl; [exact F6|]. intros c Hc. unfold vacated. simpl. destruct (_ =? _); [by left|done].
    + intros i v [[-> ->]|[_ Hv]]%Hdone; [done|by eapply F7].
    + intros c' [c [-> Hc]]%list_elem_of_fmap Hn.
      assert (Hth : assignedThreadID (vacated (Z.of_nat k) c) = assignedThreadID c) by (unfold vacated; by destruct (_ =? _)).
      rewrite Hth in *. destruct (F8 c Hc Hn) as [Hr Hst]. split; [done|].
      intros v [[_ ->]|[_ Hv]]%Hdone; [right; by left|by apply Hst].
  - intros n [Hn Hns]. split; [done|]. simpl. intros v [[_ ->]|[_ Hv]]%Hdone; [right; by left|by apply Hns].
Qed.

Lemma readjust_kept N time x : own_kept None N x (put_tasks (readjust time (openTasks x)) x).
Proof.
  apply put_tasks_kept; [apply length_fmap|]. intros i t' (t & -> & Ht)%list_lookup_fmap_Some. exists t. split; [done|].
  by destruct (waitingToSchedule t) eqn:Hw.
Qed.
Lemma prefetch_kept {MP : MappingPolicy} `{!MappingPolicyOk} time : does (open_kept None) (prefetch time).
Proof.
  unfold prefetch. apply (does_bind _); [apply (does_gets _)|intros x]. destruct (_ && _); [|apply (does_ret _)].
  apply (does_bind _).
  - destruct (negb _); [apply (does_ret _)|]. intros s u s' (x' & E & ->)%zoom_Ok Hi.
    apply st_bind_Ok in E as ([] & x1 & [= <-] & E). apply put_sched_kept; [|done].
    etrans; [apply (readjust_kept _ time)|]. eapply fetchTasks_kept; [|exact E]. exact (ow_fifo _ _ _ (oi_own _ _ Hi)).
  - intros ? s u s' He. apply st_bind_Ok in He as (now & s1 & E1 & He). apply st_bind_Ok in He as (front & s2 & E2 & He).
    apply st_bind_Ok in He as (ok & s3 & E3 & He). apply ret_Ok in He as [_ ->].
    eapply (schedule_front_kept time). unfold st_bind. rewrite E1. cbn [res_bind fst snd]. rewrite E2. cbn [res_bind fst snd]. exact E3.
Qed.
Lemma threadExit_after {MP : MappingPolicy} `{!MappingPolicyOk} t time s u s' :
  threadExit t time s = Ok (u, s') → open_inv None s → 0 ≤ t → settled None (nthreads s) (sched s) (Z.to_nat t) →
  open_after None s s'.
Proof.
  intros He Hi H0 Hs. unfold threadExit in He. apply st_bind_Ok in He as ([] & s1 & E1 & He).
  assert (K1 : open_after None s s1).
  { eapply on_base_kept; [apply threadExit_apps|intros n; apply threadExit_sleeps|exact E1|done]. }
  apply st_bind_Ok in He as (th & s2 & E2 & He). apply getThreadFromID_Ok in E2 as (-> & _ & Hth).
  apply st_bind_Ok in He as ([] & s2 & E2 & He). pose proof (release_thread_kept None t _ _ _ E2 (op_inv _ _ _ K1)) as K2.
  apply st_bind_Ok in He as (tasks & s3 & [= <- <-] & He). apply st_bind_Ok in He as ([] & s3 & E3 & He).
  assert (K3 : open_after None s2 s3).
  { destruct (Z.ltb_spec t (numberOfTasks (sched s2))); [|by apply ret_Ok in E3 as [_ ->]; apply open_kept_pre; apply K2].
    assert (Happ : m_app_id th = Z.of_nat (Z.to_nat t)).
    { eapply (oi_apps _ _ (op_inv _ _ _ K2)); [unfold numberOfTasks in *; lia|]. rewrite (op_apps _ _ _ K2).
      unfold apps. by rewrite list_lookup_fmap, Hth. }
    rewrite Happ in E3. apply zoom_Ok in E3 as (x' & E3 & ->). apply put_sched_kept; [|apply K2].
    eapply finish_task_kept; [exact E3|apply K2|]. by apply (op_settled _ _ _ K2), (op_settled _ _ _ K1). }
  apply st_bind_Ok in He as ([] & s4 & E4 & He). pose proof (prefetch_kept time _ _ _ E4 (op_inv _ _ _ K3)) as K4.
  apply st_bind_Ok in He as (x & s5 & [= <- <-] & He). split_if He; [done|]. apply ret_Ok in He as [_ ->].
  do 3 (eapply open_after_trans; [eassumption|]). exact K4.
Qed.

(** ** Migration *)
Lemma assigned_settled E s c :
  open_inv E s → c ∈ systemCores (sched s) → assignedThreadID c ≠ -1 →
  0 ≤ assignedThreadID c ∧ settled E (nthreads s) (sched s) (Z.to_nat (assignedThreadID c)).
Proof. intros Hi Hc Hn. destruct (ow_threads _ _ _ (oi_own _ _ Hi) c Hc Hn) as [Hr Hs]. split; [lia|]. split; [lia|done]. Qed.
(** Two cores exchange what is assigned to them, up to the number of cores of
    each task. *)
Lemma two_cores_kept E s i j ci cj f g u1 u2 s1 s2 :
  mine (upd_syscore i f) s = Ok (u1, s1) → mine (upd_syscore j g) s1 = Ok (u2, s2) →
  systemCores (sched s) !! Z.to_nat i = Some ci → systemCores (sched s) !! Z.to_nat j = Some cj →
  (∀ c, assignedTaskID (f c) = assignedTaskID cj ∧ assignedTaskID (g c) = assignedTaskID ci) →
  (∀ h c, h = f ∨ h = g → assignedThreadID (h c) = -1 ∨ assignedThreadID (h c) = assignedThreadID ci ∨
     assignedThreadID (h c) = assignedThreadID cj ∨ assignedThreadID (h c) = assignedThreadID c) →
  open_kept E s s2.
Proof.
  intros (x1 & E1 & ->)%zoom_Ok (x2 & E2 & ->)%zoom_Ok Hi Hj Ht Hth.
  apply upd_syscore_Ok in E1 as (c1 & _ & Hc1 & ->). apply upd_syscore_Ok in E2 as (c2 & _ & Hc2 & ->). simpl in Hc2.
  rewrite Hi in Hc1. injection Hc1 as <-.
  assert (Ic : ci ∈ systemCores (sched s)) by (by eapply list_elem_of_lookup_2).
  assert (Jc : cj ∈ systemCores (sched s)) by (by eapply list_elem_of_lookup_2).
  assert (Hc2' : c2 = f ci ∨ c2 = cj).
  { apply list_lookup_insert_Some in Hc2 as [[_ [<- _]]|[_ Hc2]]; [by left|right; congruence]. }
  assert (Hold : ∀ h, h = f ∨ h = g → ∀ c, (c = ci ∨ c = cj ∨ c = f ci) → assignedThreadID (h c) = -1 ∨
    (∃ d, d ∈ systemCores (sched s) ∧ assignedThreadID (h c) = assignedThreadID d)).
  { assert (H1 : ∀ h, h = f ∨ h = g → ∀ c, c = ci ∨ c = cj → assignedThreadID (h c) = -1 ∨
      (∃ d, d ∈ systemCores (sched s) ∧ assignedThreadID (h c) = assignedThreadID d)).
    { intros h Hh c Hc. destruct (Hth h c Hh) as [?|[?|[?|?]]]; [by left|eauto|eauto|]. right. destruct Hc as [-> | ->]; eauto. }
    intros h Hh c [?|[?|Hc]]; [apply H1; auto|apply H1; auto|]. destruct (Hth h c Hh) as [?|[?|[?|Heq]]]; [by left|eauto|eauto|].
    rewrite Heq, Hc. apply H1; auto. }
  change (open_kept E s (put_sched (put_cores (<[Z.to_nat j := g c2]> (<[Z.to_nat i := f ci]> (systemCores (sched s)))) (sched s)) s)).
  apply put_sched_kept, put_cores_kept.
  - intros k. rewrite (task_cores_insert _ _ c2) by done. rewrite (task_cores_insert _ _ ci) by done.
    assert (Hk : assignedTaskID c2 = assignedTaskID cj) by (destruct Hc2' as [-> | ->]; [apply Ht|done]).
    rewrite Hk, (proj1 (Ht ci)), (proj2 (Ht c2)). lia.
  - apply Forall_insert; [|exists ci; split; [done|apply Ht]].
    apply Forall_insert; [apply Forall_forall; eauto|exists cj; split; [done|apply Ht]].
  - apply Forall_insert; [apply Forall_insert; [apply Forall_forall; eauto|]|].
    + destruct (Hold f ltac:(by left) ci) as [?|?]; auto.
    + destruct (Hold g ltac:(by right) c2) as [?|?]; [destruct Hc2' as [-> | ->]; auto|auto|auto].
Qed.
Lemma affinity_step E by' t mask s v s' :
  threadSetAffinity by' t mask s = Ok (v, s') → open_inv E s → 0 ≤ t → settled E (nthreads s) (sched s) (Z.to_nat t) →
  open_after E s s' ∧ systemCores (sched s') = systemCores (sched s).
Proof.
  intros He Hi H0 Hs. split; [by eapply set_affinity_open|]. destruct (set_affinity_sched _ _ _ _ _ _ He) as [b ->]. done.
Qed.
Lemma migrateThread_kept E t core : does (open_kept E) (migrateThread t core).
Proof.
  intros s u s' He Hi. unfold migrateThread in He. apply st_bind_Ok in He as (l & s1 & [= <- <-] & He).
  destruct (list_find _ _) as [[i from]|] eqn:Hf; [|done]. apply list_find_Some in Hf as (Hfrom & Hth & _).
  destruct (Z.eqb_spec (Z.of_nat i) core) as [_|Hne]; [by apply ret_Ok in He as [_ ->]; apply open_kept_pre|].
  apply st_bind_Ok in He as (c & s1 & E1 & He). apply zoom_Ok in E1 as (x & E1 & ->). unfold core_at in E1.
  apply st_bind_Ok in E1 as (l & x1 & [= <- <-] & [E1 ->]%lift_Ok). apply rdz_Ok in E1 as [H0 Hc]. rewrite put_sched_same in He.
  destruct (isAssignedToTask c) eqn:Hfree; [done|]. unfold isAssignedToTask in Hfree. apply negb_false_iff, Z.eqb_eq in Hfree.
  apply st_bind_Ok in He as (v & s1 & E1 & He).
  assert (Hafter : open_after E s s1 ∧ systemCores (sched s1) = systemCores (sched s)).
  { destruct (decide (t = -1)) as [->|Hn]; [|].
    - split; [|by destruct (set_affinity_sched _ _ _ _ _ _ E1) as [b ->]]. eapply on_base_at; [exact E1|apply threadSetAffinity_apps| |done].
      intros n. right. apply threadSetAffinity_sleeps. left. lia.
    - subst t. destruct (assigned_settled E s from Hi) as [Ht0 Hts]; [by eapply list_elem_of_lookup_2|done|].
      by eapply affinity_step. }
  destruct Hafter as [K1 Hcs]. apply st_bind_Ok in He as ([] & s2 & E2 & He).
  assert (K2 : open_kept E s1 s').
  { eapply (two_cores_kept E s1 _ _ c from); [exact E2|exact He|by rewrite Hcs|by rewrite Nat2Z.id, Hcs|by simpl|].
    intros h d [-> | ->]; simpl; auto. }
  eapply open_after_trans; [exact K1|]. apply K2, K1.
Qed.
(** The thread of a core moves, if there is one. *)
Lemma move_assigned E s c d mask u s' :
  (if isAssignedToThread c then
     let! _ := threadSetAffinity INVALID_THREAD_ID (assignedThreadID c) mask in ret tt
   else ret tt) s = Ok (u, s') →
  open_inv E s → systemCores (sched s) !! d = Some c → open_after E s s' ∧ systemCores (sched s') = systemCores (sched s).
Proof.
  intros He Hi Hc. unfold isAssignedToThread in He. destruct (Z.eqb_spec (assignedThreadID c) (-1)) as [_|Hn].
  - apply ret_Ok in He as [_ ->]. split; [by apply open_kept_pre|done].
  - apply st_bind_Ok in He as (v & s1 & E1 & He). apply ret_Ok in He as [_ ->].
    destruct (assigned_settled E s c Hi) as [H0 Hs]; [by eapply list_elem_of_lookup_2|done|]. by eapply affinity_step.
Qed.
Lemma migrate_one_kept E m : does (open_kept E) (migrate_one m).
Proof.
  intros s u s' He Hi. unfold migrate_one in He. apply st_bind_Ok in He as (l & s1 & [= <- <-] & He).
  apply st_bind_Ok in He as (from & s1 & [[Hf0 Hf]%at_Ok ->]%lift_Ok & He).
  destruct (Z.eqb_spec (assignedTaskID from) (-1)) as [_|Hft]; [done|].
  apply st_bind_Ok in He as (to & s1 & [[Ht0 Ht]%at_Ok ->]%lift_Ok & He). destruct (swap m).
  - split_if He; [done|]. apply st_bind_Ok in He as ([] & s1 & E1 & He). apply st_bind_Ok in He as ([] & s2 & E2 & He).
    destruct (move_assigned _ _ _ _ _ _ _ E1 Hi Hf) as [K1 C1]. rewrite <- C1 in Ht, Hf.
    destruct (move_assigned _ _ _ _ _ _ _ E2 (op_inv _ _ _ K1) Ht) as [K2 C2]. rewrite <- C2 in Ht, Hf.
    apply st_bind_Ok in He as ([] & s3 & E3 & He). eapply open_after_trans; [exact K1|]. eapply open_after_trans; [exact K2|].
    eapply (two_cores_kept E s2 _ _ to from); [exact E3|exact He|done|done|by simpl| |apply K2].
    intros h c [-> | ->]; simpl; auto.
  - destruct (isAssignedToTask to) eqn:Hto; [done|]. unfold isAssignedToTask in Hto. apply negb_false_iff, Z.eqb_eq in Hto.
    destruct (isAssignedToThread from); [by eapply migrateThread_kept|].
    apply st_bind_Ok in He as ([] & s1 & E1 & He).
    eapply (two_cores_kept E s _ _ to from); [exact E1|exact He|done|done|by simpl| |done].
    intros h c [-> | ->]; simpl; auto.
Qed.
Lemma executeMigrationPolicy_kept E policy time : does (open_kept E) (executeMigrationPolicy policy time).
Proof.
  unfold executeMigrationPolicy. apply (does_bind _); [apply (does_gets _)|intros x]. apply (does_forM _). intros m.
  apply migrate_one_kept.
Qed.

(** ** Frequencies *)
Lemma delayed_queue c old new : does queue_only (DVFSTransitionDelayed c old new).
Proof.
  intros x u x' He. unfold DVFSTransitionDelayed in He. apply st_bind_Ok in He as (y & x1 & [= <- <-] & He).
  cbv zeta in He. split_if He; [by inv_st|]. split_if He; by inv_st.
Qed.
Lemma not_delayed_queue c : does queue_only (DVFSTransitionNotDelayed c).
Proof. intros x u x' He. unfold DVFSTransitionNotDelayed in He. inv_st. done. Qed.
Lemma put_dvfs_queue d : does queue_only (modify (put_dvfs d)).
Proof. by intros x u x' [= _ <-]. Qed.
Hint Resolve delayed_queue not_delayed_queue put_dvfs_queue : opening.

(** The frequency that a core gets is never zero. *)
Lemma limitFrequency_range c old f f' :
  minFrequency c ≤ maxFrequency c → limitFrequency c old f = Ok f' → minFrequency c ≤ f' ≤ maxFrequency c.
Proof.
  intros Hm He. unfold limitFrequency in He. apply res_bind_Ok in He as (r & _ & [= <-]).
  repeat match goal with |- context [?a <? ?b] => destruct (Z.ltb_spec a b) end; lia.
Qed.
Lemma setFrequency_on c f d r : 0 < f < 2 ^ 31 → Dvfs.setFrequency c (u64 f) d = Ok r → is_Some r.2.
Proof.
  intros Hf He. unfold Dvfs.setFrequency in He. rewrite (u64_id f) in He by (unfold in_u64; lia).
  rewrite (u64_id (1000000 * f)) in He by (unfold in_u64; lia).
  destruct (_ <=? c); [by injection He as <-|]. rewrite (proj2 (Z.ltb_lt 0 _)) in He by lia.
  apply res_bind_Ok in He as (p & _ & He). apply res_bind_Ok in He as (d' & _ & [= <-]). done.
Qed.
Lemma setFrequency_kept E off c f : does (open_kept E) (setFrequency off c f).
Proof.
  intros s u s' He Hi. unfold setFrequency in He. apply st_bind_Ok in He as (x & s1 & [= <- <-] & He).
  apply st_bind_Ok in He as (old & s1 & [_ ->]%lift_Ok & He). apply st_bind_Ok in He as (f' & s1 & [Hf ->]%lift_Ok & He).
  destruct (ow_frequency _ _ _ (oi_own _ _ Hi)) as [Hmin Hmax]. apply limitFrequency_range in Hf; [|lia].
  apply st_bind_Ok in He as (delayed & s1 & [_ ->]%lift_Ok & He). destruct delayed.
  - revert He Hi. apply mine_kept. intros N. solve_open.
  - apply st_bind_Ok in He as ([] & s1 & E1 & He).
    assert (K1 : open_after E s s1) by (revert E1 Hi; apply mine_kept; intros N; solve_open).
    split_if He; [|by apply ret_Ok in He as [_ ->]]. apply st_bind_Ok in He as (r & s2 & [Hr ->]%lift_Ok & He).
    apply setFrequency_on in Hr as [d Hd]; [|lia]. rewrite Hd in He. eapply open_after_trans; [exact K1|].
    pose proof (op_inv _ _ _ K1) as Hi1. revert He Hi1. apply mine_kept. intros N. solve_open.
Qed.
Lemma executeDVFSPolicy_kept E off policy time : does (open_kept E) (executeDVFSPolicy off policy time).
Proof.
  unfold executeDVFSPolicy. apply (does_bind _); [apply (does_gets _)|intros x].
  do 2 (apply (does_bind _); [apply (does_lift _)|intros ?]). apply (does_forM _). intros c.
  apply (does_bind _); [apply (does_lift _)|intros f]. apply setFrequency_kept.
Qed.

(** ** The periodic call *)
Lemma checkState_queue : does queue_only checkState.
Proof. intros x u x' He. unfold checkState in He. by inv_st. Qed.
Hint Resolve checkState_queue : opening.
Lemma printMapping_kept E : does (open_kept E) printMapping.
Proof.
  unfold printMapping. apply (does_bind _); [apply (does_gets _)|intros c]. apply (does_forM _). intros y.
  apply (does_forM _). intros x. solve_open.
Qed.
Lemma periodic_open {MP : MappingPolicy} `{!MappingPolicyOk} off dp mp time :
  does (open_kept None) (SchedulerOpen.periodic off dp mp time).
Proof.
  unfold SchedulerOpen.periodic. apply (does_bind _); [|intros _].
  { apply on_base_kept; [apply own_apps|]. intros n. apply own_sleeps, put_periodic_idle. }
  apply (does_bind _); [destruct (_ =? _); [apply mine_kept; intros N; solve_open|apply (does_ret _)]|intros _].
  apply (does_bind _); [apply (does_gets _)|intros c]. apply (does_bind _); [|intros _].
  { destruct mp; [|apply (does_ret _)]. apply (does_bind _); [apply (does_lift _)|intros []]; [|apply (does_ret _)].
    apply executeMigrationPolicy_kept. }
  apply (does_bind _); [|intros _].
  { destruct dp; [|apply (does_ret _)]. apply (does_bind _); [apply (does_lift _)|intros []]; [|apply (does_ret _)].
    apply executeDVFSPolicy_kept. }
  apply (does_bind _); [apply (does_lift _)|intros now]. apply (does_bind _).
  - destruct now; [|apply (does_ret _)]. apply (does_bind _); [apply fetch_open|intros _].
    apply (does_bind _); [apply (does_gets _)|intros fuel]. apply (does_bind _); [apply schedule_queued_kept|intros _].
    apply printMapping_kept.
  - intros _. apply on_base_kept; [apply periodic_apps|intros n; apply periodic_sleeps].
Qed.
End Methods.
