(* ===== verification/OpenSteps.v ===== *)
(** The steps of the simulator with the open scheduler: new threads, the
    services, and the invariant of every run. *)
From S2P Require Import Prelude SubsecondTime System ThreadManager SyncServer SyncFacts SyncProps Dvfs SchedulerPinned PinnedFacts PinnedProps OpenPolicies SchedulerOpen SyncRespect OpenBase OpenInv OpenRuns.
Import Barrier.
Local Open Scope Z_scope.

Section Create.
Context {PQ : PriorityQueue} {HH : Host} {MP : MappingPolicy} `{!MappingPolicyOk}.
Implicit Types (x : SchedulerOpen) (s : Sys SchedulerOpen).

(** A change of the pinned scheduler's part that wakes no thread but settled
    ones. *)
Lemma raise_kept E s b' :
  apps b' = apps s →
  (∀ n, settled E (nthreads s) (sched s) n ∨ sleeps n (lower s) b') → open_kept E s (raise b' s).
Proof.
  intros Ha Hs. assert (Ha' : apps (raise b' s) = apps s) by exact Ha.
  assert (Hn : nthreads (raise b' s) = nthreads s) by (by rewrite !nthreads_apps, Ha').
  intros [I1 I2 I3]. split; [done| |by rewrite Hn]. split; rewrite ?Hn, ?Ha'; [by eapply own_inv_same; [..|exact I1]|done|].
  intros n. destruct (Hs n) as [?|Hd]; [by left|]. destruct (I3 n) as [?|Hsl]; [by left|right].
  destruct (Hd Hsl) as [Hi Hc]. by split.
Qed.

(** ** The first affinity *)
Lemma initial_idle n t : t ≠ Z.of_nat n → does (keeps_idle n) (SchedulerOpen.threadSetInitialAffinity t).
Proof.
  intros Hn. unfold SchedulerOpen.threadSetInitialAffinity. apply (does_bind _); [apply (does_gets _)|intros x].
  destruct (m_rule x); [|apply (does_fail _)]. do 2 (apply (does_bind _); [apply (does_lift _)|intros ?]).
  apply (does_bind _); [|intros ?; by apply upd_info_other]. apply same_infos. by intros ? ? ? [= _ <-].
Qed.
Definition sets_affinity (t : Z) : st SchedulerPinnedBase unit :=
  let! i := info_of t in
  if m_has_affinity i then ret tt else SchedulerOpen.threadSetInitialAffinity t.
Lemma sets_affinity_idle n t : t ≠ Z.of_nat n → does (keeps_idle n) (sets_affinity t).
Proof.
  intros Hn. unfold sets_affinity. apply (does_bind _); [apply info_of_idle|intros i].
  destruct (m_has_affinity i); [apply (does_ret _)|by apply initial_idle].
Qed.
Lemma sets_affinity_running t (x x' : SchedulerPinnedBase) u n :
  sets_affinity t x = Ok (u, x') →
  (∀ i, m_thread_info x !! n = Some i → isRunning i = false) → ∀ i, m_thread_info x' !! n = Some i → isRunning i = false.
Proof.
  intros He Hr. unfold sets_affinity in He. apply st_bind_Ok in He as (i & x1 & E1 & He).
  assert (x1 = x) as -> by (unfold info_of in E1; by inv_st). destruct (m_has_affinity i); [by apply ret_Ok in He as [_ ->]|].
  unfold SchedulerOpen.threadSetInitialAffinity in He. apply st_bind_Ok in He as (y & x1 & [= <- <-] & He).
  destruct (m_rule x); [|done]. do 2 (apply st_bind_Ok in He as (? & x1 & [_ ->]%lift_Ok & He)).
  apply st_bind_Ok in He as ([] & x1 & [= <-] & He). apply upd_info_Ok in He as (j & j' & _ & Hj & Hs & ->). simpl in *.
  intros k [[<- [<- _]]|[_ Hk]]%list_lookup_insert_Some; [|by apply Hr]. unfold setAffinitySingle, addAffinity in Hs.
  apply res_bind_Ok in Hs as (l & _ & [= <-]). exact (Hr j Hj).
Qed.

(** The affinity that [threadCreate] leaves: a thread whose application owns
    no core stays asleep unless it is settled. *)
Lemma first_affinity_after k s u s1 r s2 :
  open_inv None s → on_base (own (sets_affinity (Z.of_nat k))) s = Ok (u, s1) → setAffinity (Z.of_nat k) s1 = Ok (r, s2) →
  open_after None s s2.
Proof.
  intros Hi E1 E2. assert (Hset : settled None (nthreads s) (sched s) k → open_after None s s2).
  { intros Hs. assert (K1 : open_after None s s1).
    { eapply on_base_at; [exact E1|apply own_apps| |done]. intros n. destruct (decide (n = k)) as [->|Hn]; [by left|right].
      apply own_sleeps, sets_affinity_idle. lia. }
    eapply open_after_trans; [exact K1|]. eapply setAffinity_kept; [exact E2|apply K1]. }
  destruct (oi_sleep _ _ Hi k) as [Hs|Hsl]; [by apply Hset|].
  apply zoom_Ok in E1 as (b1 & E1 & ->). apply zoom_Ok in E1 as (x1 & E1 & ->). unfold setAffinity in E2.
  apply st_bind_Ok in E2 as (th & s3 & E3 & E2). apply getThreadFromID_Ok in E3 as (-> & H0 & Hth). simpl in Hth.
  apply st_bind_Ok in E2 as (l & s3 & [= <- <-] & E2). destruct (list_find _ _) as [[i c]|] eqn:Hf.
  { apply list_find_Some in Hf as (Hc & [Happ _] & _). simpl in Hc. apply Hset.
    rewrite <- (Nat2Z.id k). by eapply owner_settled. }
  apply st_bind_Ok in E2 as (v & s3 & E2 & [= _ <-]). apply zoom_Ok in E2 as (b2 & E2 & ->).
  change (open_after None s (raise b2 s)). apply raise_kept; [| |done].
  - exact (threadSetAffinity_apps _ _ _ _ _ _ E2).
  - intros n. right. destruct (decide (n = k)) as [->|Hn].
    + intros [Hx Hc]. eapply threadSetAffinity_empty; [apply cpu_set_empty|exact E2| |exact Hc]. simpl.
      eapply sets_affinity_running; [exact E1|]. intros i Hii. by destruct (Hx i Hii).
    + intros [Hx Hc]. eapply (threadSetAffinity_sleeps n); [|exact E2|]; [left; lia|]. split; [|done]. simpl.
      eapply sets_affinity_idle; [|exact E1|exact Hx]. lia.
Qed.

(** ** The core of a new thread *)
Lemma find_free_idle i running ids d :
  Forall (eq false) (m_core_affinity i) → find_free i running ids = Ok d → d = INVALID_CORE_ID.
Proof.
  intros Ha. induction ids as [|c ids IH]; simpl; [by intros [= <-]|]. intros (v & Hv & He)%res_bind_Ok.
  unfold hasAffinity in Hv. apply rdz_Ok in Hv as [_ Hv]. rewrite Forall_forall in Ha.
  rewrite <- (Ha v) in He by (by eapply list_elem_of_lookup_2). by apply IH.
Qed.
Lemma find_core_settled k s d s1 :
  open_inv None s → on_base (own (findFreeCoreForThread (Z.of_nat k))) s = Ok (d, s1) →
  s1 = s ∧ (d = INVALID_CORE_ID ∨ settled None (nthreads s) (sched s) k).
Proof.
  intros Hi E. apply zoom_Ok in E as (b & E & ->). apply zoom_Ok in E as (x & E & ->). unfold findFreeCoreForThread in E.
  apply st_bind_Ok in E as (y & x1 & [= <- <-] & E). apply st_bind_Ok in E as (i & x1 & E1 & E).
  unfold info_of in E1. apply st_bind_Ok in E1 as (l & x2 & [= <- <-] & [E1 ->]%lift_Ok). apply rdz_Ok in E1 as [_ Hk].
  apply lift_Ok in E as [E ->]. split; [by destruct s as [? ? ? ? ? ? ? []]|].
  destruct (oi_sleep _ _ Hi k) as [?|[Hx _]]; [by right|left]. rewrite Nat2Z.id in Hk. eapply find_free_idle; [|exact E]. by apply (Hx i).
Qed.
Lemma on_base_own_same {A} (m : st SchedulerPinnedBase A) s a s' :
  (∀ y b y', m y = Ok (b, y') → y' = y) → on_base (own m) s = Ok (a, s') → s' = s ∧ m (base (sched s)) = Ok (a, base (sched s)).
Proof.
  intros Hm (b & (x & E & ->)%zoom_Ok & ->)%zoom_Ok. simpl in E. pose proof (Hm _ _ _ E) as ->. split; [|done].
  by destruct s as [? ? ? ? ? ? ? []].
Qed.
Lemma sets_affinity_block t s i s1 u s2 :
  on_base (own (info_of t)) s = Ok (i, s1) →
  (if m_has_affinity i then ret tt else on_base (own (SchedulerOpen.threadSetInitialAffinity t))) s1 = Ok (u, s2) →
  on_base (own (sets_affinity t)) s = Ok (u, s2).
Proof.
  intros E1 E2. apply on_base_own_same in E1 as [-> E1]; [|intros y b y' Hy; unfold info_of in Hy; by inv_st].
  unfold on_base, own, zoom, sets_affinity, st_bind. simpl. rewrite E1. cbn [res_bind fst snd].
  destruct (m_has_affinity i); [|exact E2]. apply ret_Ok in E2 as [-> ->]. simpl. by destruct s as [? ? ? ? ? ? ? []].
Qed.

(** The part of [threadCreate] that asks for a place for the first thread of
    a task. *)
Lemma first_schedule_after k tasks time s u s' :
  open_inv None s → nthreads s = S k → tasks = numberOfTasks (sched s) →
  (∀ t, openTasks (sched s) !! k = Some t → active t = false ∧ completed t = false) →
  (if Z.of_nat k =? 0 then
     let! ok := schedule 0 true time in
     if (ok : bool) then ret tt else fail (ErrLog "Task 0 must be mapped for simulation to work.")
   else if (0 <? Z.of_nat k) && (Z.of_nat k <? tasks) then let! _ := schedule (Z.of_nat k) true time in ret tt
   else ret tt) s = Ok (u, s') →
  open_after None s s'.
Proof.
  intros Hi Hn -> Hw He.
  assert (Hsch : ∀ ok s1, schedule (Z.of_nat k) true time s = Ok (ok, s1) → open_after None s s1).
  { intros ok s1 E1. eapply schedule_kept; [exact Hi|exact E1|rewrite Nat2Z.id; exact Hw|rewrite Nat2Z.id; lia|done]. }
  destruct (Z.eqb_spec (Z.of_nat k) 0) as [Hz|_].
  - apply st_bind_Ok in He as (ok & s1 & E1 & He). rewrite <- Hz in E1. apply Hsch in E1. destruct ok; [|done].
    by apply ret_Ok in He as [_ ->].
  - destruct (_ && _); [|apply ret_Ok in He as [_ ->]; by apply open_kept_pre].
    apply st_bind_Ok in He as (ok & s1 & E1 & He). apply Hsch in E1. by apply ret_Ok in He as [_ ->].
Qed.
Lemma threadCreate_after k s c s' :
  open_inv None s → nthreads s = S k →
  (∀ t, openTasks (sched s) !! k = Some t → active t = false ∧ completed t = false) →
  SchedulerOpen.threadCreate (Z.of_nat k) s = Ok (c, s') →
  open_after None s s' ∧ (c = INVALID_CORE_ID ∨ settled None (nthreads s') (sched s') k).
Proof.
  intros Hi Hn Hw He. unfold SchedulerOpen.threadCreate in He. apply st_bind_Ok in He as (th & s1 & E1 & He).
  apply getThreadFromID_Ok in E1 as (-> & _ & _). apply st_bind_Ok in He as (time & s1 & [= <- <-] & He).
  apply st_bind_Ok in He as (tasks & s1 & [= <- <-] & He). apply st_bind_Ok in He as (u1 & s1 & E1 & He).
  pose proof (first_schedule_after _ _ _ _ _ _ Hi Hn eq_refl Hw E1) as K1. clear E1.
  apply st_bind_Ok in He as (u2 & s2 & E2 & He).
  assert (K2 : open_after None s1 s2).
  { eapply on_base_kept; [apply own_apps|intros n; apply own_sleeps, resize_idle|exact E2|apply K1]. }
  apply st_bind_Ok in He as (i & s3 & E3 & He). apply st_bind_Ok in He as (u4 & s4 & E4 & He).
  pose proof (sets_affinity_block _ _ _ _ _ _ E3 E4) as E5. apply st_bind_Ok in He as (r & s5 & E6 & He).
  pose proof (first_affinity_after _ _ _ _ _ _ (op_inv _ _ _ K2) E5 E6) as K5. clear E2 E3 E4 E5 E6.
  pose proof (open_after_trans _ _ _ _ K1 (open_after_trans _ _ _ _ K2 K5)) as K. clear K1 K2 K5.
  apply st_bind_Ok in He as (d & s6 & E6 & He). apply find_core_settled in E6 as [-> Hd]; [|apply K].
  destruct (Z.eqb_spec d INVALID_CORE_ID) as [->|Hne]; simpl in He.
  - split_if He; [done|]. apply st_bind_Ok in He as (u & s6 & E6 & [= <- <-]). split; [|by left].
    eapply open_after_trans; [exact K|]. eapply on_base_kept; [apply own_apps|intros n|exact E6|apply K].
    apply own_sleeps, upd_info_idle. by intros j j' _ [= <-] [_ Ha].
  - destruct Hd as [?|Hs]; [done|]. apply st_bind_Ok in He as (u & s6 & E6 & [= <- <-]).
    assert (K6 : open_after None s5 s6).
    { eapply on_base_at; [exact E6|apply own_apps| |apply K]. intros n. destruct (decide (n = k)) as [->|Hnk]; [by left|right].
      apply own_sleeps. apply (does_bind _); [apply upd_info_other; lia|intros _]. solve_sleeps. }
    split; [by eapply open_after_trans|]. right. by apply (op_settled _ _ _ K6).
Qed.
End Create.

(** * Threads and cores *)
Section Steps.
Context {PQ : PriorityQueue} {HH : Host} {MP : MappingPolicy} `{!MappingPolicyOk}.
Context (switch_off : Z → st (Sys SchedulerOpen) unit) (dvfsPolicy : option DVFSPolicy)
  (migrationPolicy : option MigrationPolicy).
#[local] Instance open_scheduler : Scheduler SchedulerOpen :=
  SchedulerOpen_scheduler switch_off dvfsPolicy migrationPolicy.
Implicit Types (x : SchedulerOpen) (s : Sys SchedulerOpen).

Lemma setCore_open t c s u s' :
  setCore t c s = Ok (u, s') → c = None ∨ 0 ≤ t ∧ settled None (nthreads s) (sched s) (Z.to_nat t) → open_kept None s s'.
Proof.
  intros He Hc. unfold setCore in He. apply st_bind_Ok in He as (th & s1 & E1 & He).
  apply getThreadFromID_Ok in E1 as (-> & H0 & Hth). apply st_bind_Ok in He as ([] & s1 & E1 & He).
  assert (V1 : sched s1 = sched s ∧ m_threads (tm s1) = m_threads (tm s)).
  { destruct (m_core th); [by eapply upd_core_threads|by apply ret_Ok in E1 as [_ ->]]. }
  apply st_bind_Ok in He as ([] & s2 & E2 & He). apply upd_thread_Ok in E2 as (th' & _ & Hth' & ->).
  assert (V2 : sched s' = sched s ∧ m_threads (tm s') = <[Z.to_nat t := with_core c th]> (m_threads (tm s))).
  { destruct V1 as [V1 V1']. rewrite V1' in Hth'. rewrite Hth in Hth'. injection Hth' as <-. destruct c as [c|].
    - apply st_bind_Ok in He as (co & s3 & E3 & He). apply getCoreFromID_Ok in E3 as (-> & _).
      apply st_bind_Ok in He as ([] & s3 & [_ ->]%lift_Ok & He). apply upd_core_threads in He as [-> ->]. simpl. by rewrite V1, V1'.
    - apply ret_Ok in He as [_ ->]. simpl. by rewrite V1, V1'. }
  destruct V2 as [V2 V3]. clear E1 He. assert (Ha : apps s' = apps s).
  { unfold apps. rewrite V3, list_fmap_insert. apply list_insert_id. by rewrite list_lookup_fmap, Hth. }
  assert (Hn : nthreads s' = nthreads s) by (by rewrite !nthreads_apps, Ha).
  intros [I1 I2 I3]. split; [done| |by rewrite Hn, V2]. split; rewrite ?Hn, ?Ha, ?V2; [done|done|].
  intros n. destruct (I3 n) as [?|[Hi Hcore]]; [by left|].
  destruct (decide (n = Z.to_nat t)) as [->|Hne]; [destruct Hc as [->|[_ ?]]; [|by left]|]; right; (split; [by simpl; rewrite V2|]);
    simpl; rewrite V3; intros v Hv.
  - rewrite list_lookup_insert_eq in Hv by (by eapply lookup_lt_Some). by injection Hv as <-.
  - rewrite list_lookup_insert_ne in Hv by done. by apply Hcore.
Qed.

(** The thread that [createThread_unlocked] appends. *)
Lemma pushed_inv s th ts :
  open_inv None s → m_core th = None →
  ((nthreads s < length (openTasks (sched s)))%nat → m_app_id th = Z.of_nat (nthreads s)) →
  open_inv None (put_tm (put_states (m_thread_state (tm s) ++ [ts]) (put_threads (m_threads (tm s) ++ [th]) (tm s))) s).
Proof.
  intros [I1 I2 I3] Hc Ha. set (s' := put_tm _ s).
  assert (Hn : nthreads s' = S (nthreads s)) by (unfold nthreads; simpl; rewrite length_app; simpl; lia). split.
  - rewrite Hn. simpl. destruct I1 as [F1 F2 F3 F4 F5 F6 F7 F8]. split; try done.
    + intros i t Ht Hs. specialize (F7 i t Ht Hs). lia.
    + intros c Hin Hne. destruct (F8 c Hin Hne). split; [lia|done].
  - intros n a Hl. unfold apps. simpl. rewrite fmap_app. intros [Hx|[Hl' Hx]]%lookup_app_Some; [by eapply I2|].
    rewrite length_fmap in Hl', Hx. apply list_lookup_singleton_Some in Hx as [Hz <-].
    assert (n = nthreads s) as -> by (unfold nthreads; lia). by apply Ha.
  - intros n. rewrite Hn. destruct (I3 n) as [[Hl Hs]|[Hx Hcore]]; [left; split; [lia|done]|right]. split; [done|]. simpl.
    intros v [Hv|[_ Hv]]%lookup_app_Some; [by apply Hcore|]. by apply list_lookup_singleton_Some in Hv as [_ <-].
Qed.

Definition names_task s (app_id : Z) : Prop :=
  (nthreads s < length (openTasks (sched s)))%nat → app_id = Z.of_nat (nthreads s).
Lemma createThread_open g app s t s' :
  open_inv None s → names_task s app → createThread_unlocked g app s = Ok (t, s') → open_inv None s'.
Proof.
  intros Hi Happ He. unfold createThread_unlocked in He. apply st_bind_Ok in He as (t0 & s0 & [= <- <-] & He).
  apply st_bind_Ok in He as ([] & s1 & [= <-] & He).
  pose proof (pushed_inv s (Thread_new g app) ThreadState_new Hi eq_refl Happ) as Hi1.
  assert (Hw : ∀ t, openTasks (sched s) !! nthreads s = Some t → active t = false ∧ completed t = false).
  { intros t' Ht. pose proof (ow_started _ _ _ (oi_own _ _ Hi) _ _ Ht) as Hs.
    destruct (active t'), (completed t'); try done; exfalso; assert (nthreads s < nthreads s)%nat by auto; lia. }
  apply st_bind_Ok in He as ([] & s2 & E2 & He). apply upd_state_Ok in E2 as (ts & _ & _ & ->).
  set (s1 := put_tm _ s) in *.
  match type of He with ?m ?z = _ => set (s2 := z) in * end.
  assert (K2 : open_after None s1 s2) by (by apply (open_kept_same None s1 s2)).
  assert (Hn : nthreads s2 = S (nthreads s)) by (unfold nthreads; simpl; rewrite length_app; simpl; lia).
  apply st_bind_Ok in He as (c & s3 & E3 & He). simpl in E3.
  destruct (threadCreate_after (nthreads s) s2 c s3 (op_inv _ _ _ K2) Hn Hw E3) as [K3 Hc].
  apply st_bind_Ok in He as ([] & s4 & E4 & [= _ <-]).
  destruct (Z.eqb_spec c INVALID_CORE_ID) as [->|Hne]; simpl in E4; [apply ret_Ok in E4 as [_ ->]; apply K3|].
  destruct Hc as [?|Hc]; [done|]. apply st_bind_Ok in E4 as (co & s5 & E5 & E4). apply getCoreFromID_Ok in E5 as (-> & _).
  apply st_bind_Ok in E4 as ([] & s5 & E5 & E4).
  assert (K5 : open_after None s3 s5).
  { eapply setCore_open; [exact E5| |apply K3]. right. split; [lia|]. by rewrite Nat2Z.id. }
  apply upd_core_threads in E4 as [V1 V2].
  assert (K6 : open_after None s5 s4); [|apply K6]. apply open_kept_same; [done| |apply K5]. unfold thread_view. by rewrite V2.
Qed.

(** ** The services *)
#[local] Instance open_respected : Respected (open_kept None).
Proof.
  split; simpl.
  - apply _.
  - apply open_kept_same.
  - intros t r time. apply on_base_kept; [apply threadStall_apps|intros n; apply threadStall_sleeps].
  - intros t by' time. apply on_base_kept; [apply threadResume_apps|intros n; apply threadResume_sleeps].
  - intros time. apply periodic_open.
Qed.
(** A thread on a core is settled. *)
Lemma on_core_settled s t th c :
  open_inv None s → m_threads (tm s) !! t = Some th → m_core th = Some c → settled None (nthreads s) (sched s) t.
Proof. intros Hi Hth Hc. destruct (oi_sleep _ _ Hi t) as [?|[_ Hs]]; [done|]. simpl in Hs. rewrite (Hs th Hth) in Hc. done. Qed.
Lemma onThreadExit_open t : does (open_kept None) (onThreadExit t).
Proof.
  intros s u s' He Hi. destruct (onThreadExit_rp (open_kept None) _ _ _ _ He)
    as (th & c & s1 & s2 & s3 & time & H0 & Hth & Hc & R1 & E2 & E3 & R4).
  pose proof (on_core_settled _ _ _ _ Hi Hth Hc) as Hs. specialize (R1 Hi).
  assert (K2 : open_after None s1 s2) by (eapply setCore_open; [exact E2|by left|apply R1]).
  assert (K3 : open_after None s2 s3).
  { eapply threadExit_after; [exact E3|apply K2|done|]. by apply (op_settled _ _ _ K2), (op_settled _ _ _ R1). }
  do 3 (eapply open_after_trans; [eassumption|]). apply R4, K3.
Qed.
Lemma spawnThread_open g t app s o s' :
  open_inv None s → names_task s app → spawnThread g t app s = Ok (o, s') → open_inv None s'.
Proof.
  intros Hi Ha He. unfold spawnThread in He. apply st_bind_Ok in He as (time & s1 & E1 & He).
  assert (s1 = s) as ->.
  { revert E1. case_match; [|by intros [_ ->]%ret_Ok]. intros E1. apply st_bind_Ok in E1 as (th & s2 & E2 & E1).
    apply getThreadFromID_Ok in E2 as (-> & _). apply st_bind_Ok in E1 as (c & s2 & [_ ->]%lift_Ok & E1).
    apply st_bind_Ok in E1 as (co & s2 & E2 & E1). apply getCoreFromID_Ok in E2 as (-> & _). by apply ret_Ok in E1 as [_ ->]. }
  apply st_bind_Ok in He as (new & s1 & E2 & He). apply createThread_open in E2; [|done..].
  apply st_bind_Ok in He as ([] & s2 & [= <-] & [= _ <-]).
  assert (K : open_kept None s1 (put_tm (put_spawn (m_thread_spawn_list (tm s1) ++
    [{| r_thread_by := t; r_thread_id := new; r_time := time |}]) (tm s1)) s1)) by (by apply open_kept_same). apply (K E2).
Qed.

(** * Runs

    A thread makes a call, a thread is created or starts, a core reaches the
    barrier, a thread yields, the affinity of a thread changes, or the
    application runs.  The thread manager creates the first threads of the
    tasks in their order; the affinity of the first thread of a task that
    waits for its cores does not change. *)
Inductive open_step s : Sys SchedulerOpen → Prop :=
| os_call t c s' : (∀ g app, c = Spawn g app → names_task s app) → serve t c s = Ok (tt, s') → open_step s s'
| os_create g app t s' : names_task s app → createThread_unlocked g app s = Ok (t, s') → open_step s s'
| os_spawned r s' : getThreadToSpawn s = Ok (r, s') → open_step s s'
| os_start t time s' : onThreadStart t time s = Ok (tt, s') → open_step s s'
| os_synchronize c time o s' : synchronize c time s = Ok (o, s') → open_step s s'
| os_yield t s' : on_base (threadYield t) s = Ok (tt, s') → open_step s s'
| os_affinity by' t mask b s' :
    0 ≤ t → settled None (nthreads s) (sched s) (Z.to_nat t) →
    SchedulerOpen.threadSetAffinity by' t mask s = Ok (b, s') → open_step s s'
| os_run l f : open_step s (put_mem f (System.put_cores l s)).

Lemma open_step_inv s s' : open_step s s' → open_inv None s → open_inv None s'.
Proof.
  intros Hst Hi.
  destruct Hst as [t c s' Hsp He|g app t s' Ha He|r s' He|t time s' He|c time o s' He|t s' He|by' t mask b s' H0 Ht He|l f].
  - assert (Hc : c = Exit ∨ (∃ g app, c = Spawn g app) ∨ (c ≠ Exit ∧ ∀ g app, c ≠ Spawn g app)).
    { destruct c; try (right; right; split; [done|]; by intros); [right; left; eauto|by left]. }
    destruct Hc as [->|[(g & app & ->)|[H1 H2]]].
    + exact (op_inv _ _ _ (onThreadExit_open _ _ _ _ He Hi)).
    + apply discard_Ok in He as [o He]. eapply spawnThread_open; [exact Hi|by eapply Hsp|exact He].
    + exact (op_inv _ _ _ (serve_rp (open_kept None) _ _ H1 H2 _ _ _ He Hi)).
  - by eapply createThread_open.
  - exact (op_inv _ _ _ (getThreadToSpawn_rp (open_kept None) _ _ _ He Hi)).
  - refine (op_inv _ _ _ (onThreadStart_rp (open_kept None) t time _ _ _ _ He Hi)).
    apply on_base_kept; [apply threadStart_apps|intros n; apply threadStart_sleeps].
  - exact (op_inv _ _ _ (synchronize_rp (open_kept None) _ _ _ _ _ He Hi)).
  - eapply op_inv, on_base_kept; [apply threadYield_apps|intros n; apply threadYield_sleeps|exact He|exact Hi].
  - by eapply op_inv, set_affinity_open.
  - eapply op_inv, open_kept_same; [| |exact Hi]; done.
Qed.
Lemma open_runs_inv s s' : rtc open_step s s' → open_inv None s → open_inv None s'.
Proof. induction 1 as [|s s1 s' H1 _ IH]; [done|]. intros Hi. by eapply IH, open_step_inv. Qed.
End Steps.

(** * The first state *)
Section New.
Context {PQ : PriorityQueue}.

Lemma requirements_nonneg name : Forall (Z.le 0) (requirements_in parsec name) ∧ Forall (Z.le 0) (requirements_in splash2 name).
Proof.
  assert (Hall : ∀ l : list (string * list Z), Forall (λ e, Forall (Z.le 0) e.2) l → Forall (Z.le 0) (requirements_in l name)).
  { intros l Hl. unfold requirements_in. destruct (list_find _ _) as [[i e]|] eqn:He; [|done].
    apply list_find_Some in He as (He & _ & _). by eapply (proj1 (Forall_lookup _ _) Hl). }
  split; apply Hall; apply (bool_decide_unpack _); vm_compute; exact I.
Qed.
Lemma requirement_nonneg name r : coreRequirementTranslation name = Ok r → 0 ≤ r.
Proof.
  intros He. unfold coreRequirementTranslation in He. cbv zeta in He.
  do 5 (apply res_bind_Ok in He as (? & _ & He)). destruct (_ <? 1); [done|]. apply res_bind_Ok in He as (l & Hl & He).
  assert (Hf : Forall (Z.le 0) l).
  { destruct (requirements_nonneg x0) as [H1 H2]. revert Hl. repeat case_bool_decide; [by intros [= <-]..|done]. }
  destruct (_ <? _); [|done]. apply at_Ok in He as [_ He]. by eapply (proj1 (Forall_lookup _ _) Hf).
Qed.
Definition fresh_task (id : Z) (t : openTask) : Prop :=
  taskID t = id ∧ 0 ≤ taskCoreRequirement t ∧ waitingToSchedule t = true ∧ waitingInQueue t = false ∧
  active t = false ∧ completed t = false.
Lemma openTasks_fresh garbage n id names l :
  openTasks_new garbage n id names = Ok l → ∀ i t, l !! i = Some t → fresh_task (id + Z.of_nat i) t.
Proof.
  revert id names l. induction n as [|n IH]; intros id names l; cbn [openTasks_new]; [by intros [= <-]|]. cbv zeta.
  intros (name & _ & He)%res_bind_Ok. apply res_bind_Ok in He as (t & Ht & He). apply res_bind_Ok in He as (rest & _ & He).
  apply res_bind_Ok in He as (l' & Hl & [= <-]). intros [|i] u Hu; simpl in Hu.
  - injection Hu as <-. unfold openTask_new in Ht. apply res_bind_Ok in Ht as (r & Hr & [= <-]).
    unfold fresh_task. simpl. apply requirement_nonneg in Hr. auto with lia.
  - apply (IH _ _ _ Hl) in Hu. by replace (id + Z.of_nat (S i)) with (id + 1 + Z.of_nat i) by lia.
Qed.
Lemma arrivals_fresh dist rate interval explicit draws i time l l' :
  arrival_times dist rate interval explicit draws i time l = Ok l' →
  ∀ id k t, (∀ k t, l !! k = Some t → fresh_task (id + Z.of_nat k) t) → l' !! k = Some t → fresh_task (id + Z.of_nat k) t.
Proof.
  revert draws i time l'. induction l as [|t l IH]; intros draws i time l'; cbn [arrival_times]; [by intros [= <-]|].
  intros ([time' draws'] & _ & He)%res_bind_Ok. apply res_bind_Ok in He as (l1 & Hl & [= <-]).
  intros id [|k] u Hf Hu; simpl in Hu; [injection Hu as <-; exact (Hf 0%nat t eq_refl)|].
  replace (id + Z.of_nat (S k)) with (id + 1 + Z.of_nat k) by lia. eapply IH; [exact Hl| |exact Hu].
  intros j v Hj. replace (id + 1 + Z.of_nat j) with (id + Z.of_nat (S j)) by lia. by apply (Hf (S j)).
Qed.
End New.
