(* ===== verification/OpenDvfs.v ===== *)
(** The frequencies that the open scheduler sets: a DVFS epoch always ends
    with the frequency of every core in the configured range. *)
From S2P Require Import Prelude SubsecondTime System ThreadManager SyncServer SyncFacts SyncProps SyncSpec Dvfs SchedulerPinned OpenPolicies SchedulerOpen OpenQueue OpenInv OpenRuns.
Local Open Scope Z_scope.

Section Frequencies.
Context {PQ : PriorityQueue} {HH : Host} (switch_off : Z → st (Sys SchedulerOpen) unit).
Implicit Types (x : SchedulerOpen) (s : Sys SchedulerOpen).

(** A scheduler whose frequencies the manager knows. *)
Record dvfs_ready x : Prop := {
  dr_dvfs : dvfs_ok (dvfs x);
  dr_cores : numberOfCores x ≤ m_num_app_cores (dvfs x) < 2 ^ 31;
  dr_range : 0 < minFrequency (cfg x) ≤ maxFrequency (cfg x) ∧ maxFrequency (cfg x) ≤ 31622;
  dr_down : downscalingPatience x = replicate (length (systemCores x)) maxDVFSPatience;
  dr_up : upscalingPatience x = replicate (length (systemCores x)) maxDVFSPatience;
  dr_now e : 0 ≤ e < m_num_app_cores (dvfs x) → ∃ f, getFrequency (dvfs x) e = Ok f ∧ 0 ≤ f < 2 ^ 31 - 1000 }.

(** Cores of one domain have one frequency. *)
Lemma same_domain d e c :
  dvfs_ok d → 0 ≤ e < m_num_app_cores d → 0 ≤ c < m_num_app_cores d →
  e / m_cores_per_socket d = c / m_cores_per_socket d → getFrequency d e = getFrequency d c.
Proof.
  intros Hd He Hc Heq. unfold getFrequency, getCoreDomain.
  rewrite !(proj2 (Z.leb_gt _ _)), !(proj2 (Z.ltb_lt _ _)) by lia.
  destruct (getCoreDomainId_ok d e Hd He) as [-> _]. destruct (getCoreDomainId_ok d c Hd Hc) as [-> _]. by rewrite Heq.
Qed.
Lemma at_replicate {A} n (a : A) c : 0 ≤ c < Z.of_nat n → at_ (replicate n a) c = Ok a.
Proof. intros Hc. unfold at_. rewrite (proj2 (Z.ltb_ge _ _)), lookup_replicate_2 by lia. done. Qed.
Lemma upd_replicate n (f : Z → Z) a c : 0 ≤ c < Z.of_nat n → f a = a → upd_at (replicate n a) c f = Ok (replicate n a).
Proof.
  intros Hc Hf. unfold upd_at. rewrite at_replicate by done. cbn [res_bind]. rewrite Hf, list_insert_id; [done|].
  apply lookup_replicate_2. lia.
Qed.
Lemma limitFrequency_total c old f :
  0 ≤ old < 2 ^ 31 - 1000 → ∃ f', limitFrequency c old f = Ok f'.
Proof.
  intros Hold. unfold limitFrequency, int_add. rewrite (proj2 (Z.leb_le _ _)), (proj2 (Z.ltb_lt _ _)) by lia. simpl. eauto.
Qed.
Lemma limitFrequency_value c old f f' :
  limitFrequency c old f = Ok f' →
  f' = Z.min (maxFrequency c) (Z.max (minFrequency c) (Z.min (old + 1000) f)).
Proof.
  unfold limitFrequency, int_add. destruct (_ && _); [|done]. cbn [res_bind]. intros [= <-].
  assert (Hle : ∀ a b, (if a <? b then a else b) = Z.min a b) by (intros a b; destruct (Z.ltb_spec a b); lia).
  rewrite !Hle. destruct (Z.ltb_spec (Z.min (old + 1000) f) (minFrequency c)); f_equal; lia.
Qed.
(** Without patience no transition waits. *)
Lemma never_delayed x c old f :
  dvfs_ready x → 0 ≤ c < numberOfCores x → delayDVFSTransition x c old f = Ok false.
Proof.
  intros Hr Hc. unfold delayDVFSTransition. rewrite (dr_down _ Hr), (dr_up _ Hr), !at_replicate by done.
  by do 2 destruct (_ =? _).
Qed.
Lemma not_delayed_same x c :
  dvfs_ready x → 0 ≤ c < numberOfCores x → DVFSTransitionNotDelayed c x = Ok (tt, x).
Proof.
  intros Hr Hc. unfold DVFSTransitionNotDelayed, st_bind, gets, lift, modify, id. cbn [res_bind fst snd].
  rewrite (dr_down _ Hr), (dr_up _ Hr), !upd_replicate by done. cbn [res_bind fst snd].
  do 2 f_equal. unfold put_patience. pose proof (dr_down _ Hr) as Hd. pose proof (dr_up _ Hr) as Hu. destruct x; simpl in *. by subst.
Qed.

Record retuned x (c f : Z) (d' : DvfsManager) : Prop := {
  rt_ready : dvfs_ready (put_dvfs d' x);
  rt_size : m_num_app_cores d' = m_num_app_cores (dvfs x);
  rt_socket : m_cores_per_socket d' = m_cores_per_socket (dvfs x);
  rt_now e : 0 ≤ e < m_num_app_cores (dvfs x) →
    getFrequency d' e = if e / m_cores_per_socket (dvfs x) =? c / m_cores_per_socket (dvfs x) then Ok f
                        else getFrequency (dvfs x) e }.
Lemma setFrequency_step s c f old f' :
  dvfs_ready (sched s) → 0 ≤ c < numberOfCores (sched s) → getFrequency (dvfs (sched s)) c = Ok old →
  limitFrequency (cfg (sched s)) old f = Ok f' →
  ∃ d', setFrequency switch_off c f s = Ok (tt, put_sched (put_dvfs d' (sched s)) s) ∧ retuned (sched s) c f' d'.
Proof.
  intros Hr Hc Hold Hf. pose proof (dr_cores _ Hr) as Hn. destruct (dr_now _ Hr c) as (f0 & Hf0 & Hrange); [lia|].
  rewrite Hold in Hf0. injection Hf0 as <-. destruct (dr_range _ Hr) as [Hm Hx].
  pose proof (limitFrequency_range _ _ _ _ (proj2 Hm) Hf) as Hlim.
  unfold setFrequency. unfold st_bind at 1. cbn [gets res_bind fst snd].
  rewrite (u64_id c) by (unfold in_u64; lia). unfold st_bind at 1, lift at 1. rewrite Hold. cbn [res_bind fst snd].
  assert (Hs : s32 old = old) by (unfold s32; rewrite Z.mod_small; lia). rewrite Hs.
  unfold st_bind at 1, lift at 1. rewrite Hf. cbn [res_bind fst snd].
  unfold st_bind at 1, lift at 1. rewrite never_delayed by done. cbn [res_bind fst snd].
  unfold st_bind at 1, mine at 1, zoom at 1. rewrite not_delayed_same by done. cbn [res_bind fst snd]. rewrite put_sched_same.
  destruct (Z.eqb_spec f' old) as [->|Hne]; simpl.
  - exists (dvfs (sched s)). assert (Hsame : put_dvfs (dvfs (sched s)) (sched s) = sched s) by (by destruct (sched s)).
    rewrite Hsame, put_sched_same. split; [done|]. split; [by rewrite Hsame|done|done|]. intros e He.
    destruct (Z.eqb_spec (e / m_cores_per_socket (dvfs (sched s))) (c / m_cores_per_socket (dvfs (sched s)))) as [Heq|_]; [|done].
    rewrite <- Hold. apply same_domain; [apply Hr|done|lia|done].
  - destruct (setFrequency_spec (dvfs (sched s)) c f' (dr_dvfs _ Hr)) as (d' & Hd & Hok & N1 & N2 & Hnow); [lia|lia|].
    rewrite (u64_id f') by (unfold in_u64; lia). unfold st_bind at 1, lift at 1. rewrite Hd. cbn [res_bind fst snd].
    exists d'. split; [done|]. split; [|done|done|done]. destruct Hr as [R1 R2 R3 R4 R5 R6].
    split; simpl; try done; [by rewrite N1|]. rewrite N1. intros e He. rewrite (Hnow e He). destruct (_ =? _); [|by apply R6].
    exists f'. split; [done|]. lia.
Qed.

(** ** A DVFS epoch *)
Definition within (c : OpenConfig) (r : res Z) : Prop := ∃ f, r = Ok f ∧ minFrequency c ≤ f ≤ maxFrequency c.
Record epoch x (fs : list Z) (ids : list Z) (d' : DvfsManager) : Prop := {
  ep_ready : dvfs_ready (put_dvfs d' x);
  ep_size : m_num_app_cores d' = m_num_app_cores (dvfs x);
  ep_socket : m_cores_per_socket d' = m_cores_per_socket (dvfs x);
  ep_within e : 0 ≤ e < m_num_app_cores (dvfs x) →
    e ∈ ids ∨ within (cfg x) (getFrequency (dvfs x) e) → within (cfg x) (getFrequency d' e);
  ep_other e : m_cores_per_socket (dvfs x) = 1 → 0 ≤ e < m_num_app_cores (dvfs x) → e ∉ ids →
    getFrequency d' e = getFrequency (dvfs x) e;
  ep_set e old f : m_cores_per_socket (dvfs x) = 1 → e ∈ ids → getFrequency (dvfs x) e = Ok old → at_ fs e = Ok f →
    limitFrequency (cfg x) old f = getFrequency d' e }.

Lemma epoch_cons x fs c ids old f f' d1 d2 :
  dvfs_ready x → 0 ≤ c < numberOfCores x → getFrequency (dvfs x) c = Ok old → at_ fs c = Ok f →
  limitFrequency (cfg x) old f = Ok f' → retuned x c f' d1 → epoch (put_dvfs d1 x) fs ids d2 → c ∉ ids →
  Forall (λ e, 0 ≤ e < numberOfCores x) ids → epoch x fs (c :: ids) d2.
Proof.
  intros Hr Hc Hold Hf Hlim [R1 R2 R3 R4] [P1 P2 P3 P4 P5 P6] Hni Hids. simpl in *.
  pose proof (dr_cores _ Hr) as Hn. pose proof (limitFrequency_range _ _ _ _ (proj2 (proj1 (dr_range _ Hr))) Hlim) as Hw.
  rewrite R2, R3 in *. split; [done|done|done| | |].
  - intros e He Hin. apply P4; [done|]. destruct (decide (e ∈ ids)) as [?|Hne]; [by left|right]. rewrite (R4 e He).
    destruct (Z.eqb_spec (e / m_cores_per_socket (dvfs x)) (c / m_cores_per_socket (dvfs x))) as [_|Hs]; [by exists f'|].
    destruct Hin as [[->|?]%elem_of_cons|?]; [done|done|done].
  - intros e Hone He [Hec Hei]%not_elem_of_cons. rewrite (P5 e Hone He Hei), (R4 e He), Hone, !Z.div_1_r.
    by rewrite (proj2 (Z.eqb_neq _ _)).
  - intros e o g Hone [->|Hin]%elem_of_cons Ho Hg.
    + rewrite Hold in Ho. rewrite Hf in Hg. injection Ho as <-. injection Hg as <-.
      rewrite (P5 c Hone), (R4 c), Z.eqb_refl by (done || lia). done.
    + rewrite Forall_forall in Hids. pose proof (Hids e Hin) as He. apply (P6 e o g Hone Hin); [|done].
      rewrite (R4 e), Hone, !Z.div_1_r, (proj2 (Z.eqb_neq _ _)) by (lia || by intros ->). done.
Qed.
Lemma epoch_runs fs ids s :
  dvfs_ready (sched s) → NoDup ids →
  Forall (λ c, 0 ≤ c < numberOfCores (sched s)) ids → numberOfCores (sched s) ≤ Z.of_nat (length fs) →
  ∃ d', forM_ ids (λ c, let! f := lift (at_ fs c) in setFrequency switch_off c f) s
          = Ok (tt, put_sched (put_dvfs d' (sched s)) s) ∧ epoch (sched s) fs ids d'.
Proof.
  revert s. induction ids as [|c ids IH]; intros s Hr Hn Hids Hl.
  - exists (dvfs (sched s)). assert (Hsame : put_dvfs (dvfs (sched s)) (sched s) = sched s) by (by destruct (sched s)).
    rewrite Hsame, put_sched_same. split; [done|]. split; try done; [by rewrite Hsame| |].
    + intros e _ [?%elem_of_nil|?]; done.
    + by intros e o f _ ?%elem_of_nil.
  - apply NoDup_cons in Hn as [Hni Hn]. apply Forall_cons in Hids as [Hc Hids].
    destruct (lookup_lt_is_Some_2 fs (Z.to_nat c)) as [f Hf]; [lia|].
    assert (Hat : at_ fs c = Ok f) by (apply at_Ok; split; [lia|done]).
    pose proof (dr_cores _ Hr) as Hsize. destruct (dr_now _ Hr c) as (old & Hold & Ho); [lia|].
    destruct (limitFrequency_total (cfg (sched s)) old f Ho) as [f' Hlim].
    destruct (setFrequency_step s c f old f' Hr Hc Hold Hlim) as (d1 & E1 & T1).
    destruct (IH (put_sched (put_dvfs d1 (sched s)) s) (rt_ready _ _ _ _ T1) Hn Hids Hl) as (d2 & E2 & T2).
    exists d2. split; [|by eapply epoch_cons].
    unfold forM_. cbn [foldr]. unfold st_bind at 1. unfold st_bind at 1. unfold lift at 1. rewrite Hat. cbn [res_bind fst snd].
    rewrite E1. cbn [res_bind fst snd]. exact E2.
Qed.
Lemma per_core_total (g : Z → res Z) ids :
  (∀ c, c ∈ ids → ∃ f, g c = Ok f) →
  ∃ l, per_core g ids = Ok l ∧ length l = length ids ∧ ∀ i c, ids !! i = Some c → ∃ f, g c = Ok f ∧ l !! i = Some f.
Proof.
  induction ids as [|c ids IH]; intros Hg; simpl; [by exists []|]. destruct (Hg c) as [f Hf]; [by left|].
  destruct IH as (l & Hl & Hlen & Hat); [intros e He; apply Hg; by right|]. rewrite Hf, Hl. exists (f :: l).
  split; [done|]. split; [simpl; by rewrite Hlen|]. intros [|i] e; simpl; [intros [= <-]; eauto|apply Hat].
Qed.
Lemma cores_upto_lookup n i : (i < n)%nat → cores_upto (Z.of_nat n) !! i = Some (Z.of_nat i).
Proof. intros Hi. unfold cores_upto. rewrite list_lookup_fmap, Nat2Z.id, lookup_seq_lt by done. done. Qed.

(** C29: Frequencies stay in their range.  Let the clock domains of the manager
    cover the cores, no transition be delayed, the configured range satisfy
    0 < minimum <= maximum <= 31622 MHz, the present frequencies be below
    [2 ^ 31 - 1000] MHz, and the policy give a frequency for every core.  Then a DVFS epoch returns without an error, whatever the
    frequencies of the policy are; it changes nothing but the clock domains; the
    policy is given the present frequency of every core; afterwards the
    frequency that the magic server reports for every core lies between the
    configured minimum and maximum; and when every core has its own domain, it is
    the frequency of the policy, at most 1000 MHz above the old frequency, then
    raised to the minimum and lowered to the maximum. *)
Theorem dvfs_epoch_limits_frequencies s (policy : DVFSPolicy) (time : Z) :
  dvfs_ready (sched s) →
  (∀ olds, length olds = length (systemCores (sched s)) →
     ∃ fs, policy time olds (activeCores (sched s)) = Ok fs ∧ (length (systemCores (sched s)) ≤ length fs)%nat) →
  ∃ olds fs d',
    policy time olds (activeCores (sched s)) = Ok fs ∧
    executeDVFSPolicy switch_off policy time s = Ok (tt, put_sched (put_dvfs d' (sched s)) s) ∧
    ∀ e, 0 ≤ e < numberOfCores (sched s) → ∃ old new req,
      at_ olds e = Ok old ∧ getFrequency (dvfs (sched s)) e = Ok old ∧ at_ fs e = Ok req ∧
      getFrequency d' e = Ok new ∧ minFrequency (cfg (sched s)) ≤ new ≤ maxFrequency (cfg (sched s)) ∧
      (m_cores_per_socket (dvfs (sched s)) = 1 →
       new = Z.min (maxFrequency (cfg (sched s))) (Z.max (minFrequency (cfg (sched s))) (Z.min (old + 1000) req))).
Proof.
  intros Hr Hp. set (x := sched s) in *. pose proof (dr_cores _ Hr) as Hsize. set (ids := cores_upto (numberOfCores x)).
  assert (Hin : ∀ e, e ∈ ids ↔ 0 ≤ e < numberOfCores x).
  { intros e. unfold ids, cores_upto. rewrite list_elem_of_fmap. setoid_rewrite elem_of_seq. split; [intros (i & -> & Hi); lia|].
    intros He. exists (Z.to_nat e). lia. }
  assert (Hids : Forall (λ c, 0 ≤ c < numberOfCores x) ids) by (apply Forall_forall; intros e; apply Hin).
  destruct (per_core_total (λ c, let? f := getFrequency (dvfs x) (u64 c) in Ok (s32 f)) ids) as (olds & Holds & Hlen & Hat).
  { intros c Hc%Hin. destruct (dr_now _ Hr c) as (f & Hf & _); [lia|]. rewrite u64_id by (unfold in_u64; lia). rewrite Hf. simpl. eauto. }
  assert (Hn : length ids = length (systemCores x)).
  { unfold ids, cores_upto, numberOfCores. by rewrite length_fmap, length_seq, Nat2Z.id. }
  destruct (Hp olds) as (fs & Hfs & Hl); [congruence|].
  destruct (epoch_runs fs ids s Hr (cores_upto_NoDup _) Hids) as (d' & Erun & [P1 P2 P3 P4 P5 P6]); [unfold numberOfCores; fold x; lia|].
  exists olds, fs, d'. split; [done|]. split.
  - unfold executeDVFSPolicy. unfold st_bind at 1. cbn [gets res_bind fst snd]. fold x. cbv zeta. fold ids.
    unfold st_bind at 1, lift at 1. rewrite Holds. cbn [res_bind fst snd]. unfold st_bind at 1, lift at 1. rewrite Hfs. exact Erun.
  - fold x in P4, P6. intros e He. destruct (dr_now _ Hr e) as (old & Hold & Ho); [lia|]. destruct (P4 e) as (new & Hnew & Hw); [lia|left; by apply Hin|].
    destruct (lookup_lt_is_Some_2 fs (Z.to_nat e)) as [req Hreq]; [unfold numberOfCores in He; lia|].
    assert (Hre : at_ fs e = Ok req) by (apply at_Ok; split; [lia|done]). exists old, new, req. split; [|split; [done|]].
    + apply at_Ok. split; [lia|]. destruct (Hat (Z.to_nat e) e) as (f & Hf & Hi).
      { unfold ids, numberOfCores. rewrite cores_upto_lookup, Z2Nat.id; [done|lia|unfold numberOfCores in He; lia]. }
      rewrite u64_id in Hf by (unfold in_u64; lia). rewrite Hold in Hf. simpl in Hf. injection Hf as <-.
      rewrite Hi. f_equal. unfold s32. rewrite Z.mod_small; lia.
    + split; [done|]. split; [done|]. split; [done|]. intros Hone. apply limitFrequency_value. rewrite <- Hnew.
      eapply P6; [done|by apply Hin|done|done].
Qed.
End Frequencies.

(** Four cores at 4 GHz in their own domains get their maximum. *)
Section Example.
#[local] Existing Instance list_queue.
#[local] Existing Instance example_host.
Definition four_cores : Sys SchedulerOpen := Sys_new 4 100 10 two_active.
Definition four_policy : DVFSPolicy := DVFSMaxFreq 2 2 4000.
Lemma four_cores_ready : dvfs_ready (sched four_cores).
Proof.
  split; simpl; [by split|done|done|done|done|]. intros e He. exists 4000.
  assert (e = 0 ∨ e = 1 ∨ e = 2 ∨ e = 3) as [-> | [-> | [-> | ->]]] by lia; done.
Qed.
Lemma dvfs_epoch_limits_frequencies_witness :
  ∃ olds fs d', four_policy 0 olds (activeCores two_active) = Ok fs ∧
    executeDVFSPolicy (λ _, ret tt) four_policy 0 four_cores = Ok (tt, put_sched (put_dvfs d' two_active) four_cores) ∧
    ∀ e, 0 ≤ e < 4 → ∃ old new req,
      at_ olds e = Ok old ∧ getFrequency plain_dvfs e = Ok old ∧ at_ fs e = Ok req ∧
      getFrequency d' e = Ok new ∧ 1000 ≤ new ≤ 4000 ∧
      (1 = 1 → new = Z.min 4000 (Z.max 1000 (Z.min (old + 1000) req))).
Proof.
  apply (dvfs_epoch_limits_frequencies (λ _, ret tt) four_cores four_policy 0).
  - exact four_cores_ready.
  - intros olds Hl. destruct olds as [|a [|b [|c [|d [|e l]]]]]; try discriminate Hl.
    exists [4000; 4000; 4000; 4000]. split; [reflexivity|]. apply le_n.
Defined.
End Example.
