(* ===== verification/OpenSpec.v ===== *)
(** What the open scheduler promises under the FIFO policy in every state
    that a run of the simulator reaches: its tasks and cores are well formed,
    the cores of a task are those that it needs, and the frequencies stay in
    the configured range. *)
From S2P Require Import Prelude SubsecondTime System ThreadManager SyncServer SyncFacts SyncProps SyncSpec Dvfs SchedulerPinned PinnedFacts PinnedProps OpenPolicies SchedulerOpen OpenQueue SyncRespect OpenBase OpenInv OpenRuns OpenSteps.
Import Barrier.
Local Open Scope Z_scope.

Section New.
Context {PQ : PriorityQueue}.

(** What the constructor of the scheduler makes. *)
Record open_made (min max : Z) (x : SchedulerOpen) : Prop := {
  om_fifo : queuePolicy (cfg x) = "FIFO"%string;
  om_frequency : minFrequency (cfg x) = min ∧ maxFrequency (cfg x) = max;
  om_tasks i t : openTasks x !! i = Some t → fresh_task (Z.of_nat i) t;
  om_cores c : c ∈ systemCores x → assignedTaskID c = -1 ∧ assignedThreadID c = -1;
  om_infos : m_thread_info (base x) = [] }.
Lemma SchedulerOpen_made garbage c quantum inter mask names tasks prio dist rate interval explicit draws d x :
  SchedulerOpen_new garbage c quantum inter mask names tasks prio dist rate interval explicit draws d = Ok x →
  queuePolicy c = "FIFO"%string → open_made (minFrequency c) (maxFrequency c) x.
Proof.
  intros He Hq. unfold SchedulerOpen_new in He. cbv zeta in He. apply res_bind_Ok in He as (g & _ & He).
  apply res_bind_Ok in He as (l & Hl & He). rewrite Hq in He. apply res_bind_Ok in He as (l' & Hl' & [= <-]).
  split; simpl; try done.
  - intros i t Ht. exact (arrivals_fresh _ _ _ _ _ _ _ _ _ Hl' 0 i t (openTasks_fresh _ _ _ _ _ Hl) Ht).
  - intros e (i & -> & _)%list_elem_of_fmap. done.
Qed.
Lemma task_cores_none l i : (∀ c, c ∈ l → assignedTaskID c = -1) → 0 ≤ i → task_cores l i = 0.
Proof.
  intros Hl Hi. induction l as [|c l IH]; [done|]. rewrite task_cores_cons, IH by (intros d Hd; apply Hl; by right).
  rewrite (Hl c) by (by left). rewrite decide_False by lia. done.
Qed.
Lemma made_inv {min max : Z} x n bq cost :
  open_made min max x → 0 < min ≤ max → max < 2 ^ 31 → open_inv None (Sys_new n bq cost x).
Proof.
  intros [M1 [M2 M2'] M3 M4 M5] Hm Hx. split; [|by intros k a _ Ha|].
  - split; simpl; try done.
    + rewrite M2, M2'. done.
    + intros i t Ht. destruct (M3 i t Ht) as (? & ? & _). done.
    + intros i t Ht. destruct (M3 i t Ht) as (_ & _ & H1 & H2 & H3 & H4). unfold one_state. by rewrite H1, H2, H3, H4.
    + intros i t Ht. destruct (M3 i t Ht) as (_ & _ & _ & _ & H3 & _). rewrite H3, task_cores_none; [done| |lia].
      intros c Hc. by apply M4.
    + apply Forall_forall. intros c Hc. left. by apply M4.
    + intros i t Ht. destruct (M3 i t Ht) as (_ & _ & _ & _ & H3 & H4). rewrite H3, H4. by intros [?|?].
    + intros c Hc Hn. destruct (M4 c Hc) as [_ ?]. done.
  - intros k. right. split; simpl; [|done]. intros i. by rewrite M5.
Qed.
End New.

Section Spec.
Context {PQ : PriorityQueue} {HH : Host} {MP : MappingPolicy} `{!MappingPolicyOk}.
Context (switch_off : Z → st (Sys SchedulerOpen) unit) (dvfsPolicy : option DVFSPolicy)
  (migrationPolicy : option MigrationPolicy).
Implicit Types (x : SchedulerOpen) (s : Sys SchedulerOpen).

(** C27: The type of the scheduler's data. In every state that a run reaches
    from the constructor under the FIFO policy, with any mapping policy that
    keeps its contract ([MappingPolicyOk]: fewer cores than needed, or as many
    distinct free cores, as MapFirstUnused gives when no preferred core is
    listed twice), any DVFS and migration policies, and frequencies 0 <
    minimum <= maximum < [2 ^ 31], where the first threads are created in the
    order of the tasks and nobody sets the affinity of the first thread of a
    task that still waits or of a thread that does not exist: each task has
    its position as its identifier, needs no negative number of cores and is
    in exactly one of its four states; each core is free or belongs to an
    active task of the table; and the thread of a core is none or an existing
    thread that is not the first thread of a task that still waits. *)
Theorem open_state_well_formed (garbage : openTask) (c : OpenConfig) (quantum inter : Z) (mask : list bool)
    (names : string) (tasks : nat) (prio : nat → Z) (dist : string) (rate interval : Z) (explicit : Z → Z)
    (draws : list Z) (d : DvfsManager) (bq cost : Z) x s :
  SchedulerOpen_new garbage c quantum inter mask names tasks prio dist rate interval explicit draws d = Ok x →
  queuePolicy c = "FIFO"%string → 0 < minFrequency c ≤ maxFrequency c → maxFrequency c < 2 ^ 31 →
  rtc (open_step switch_off dvfsPolicy migrationPolicy) (Sys_new (length mask) bq cost x) s →
  (∀ i t, openTasks (sched s) !! i = Some t → taskID t = Z.of_nat i ∧ 0 ≤ taskCoreRequirement t ∧ one_state t) ∧
  (∀ e, e ∈ systemCores (sched s) → assignedTaskID e ≠ -1 →
     0 ≤ assignedTaskID e ∧
     ∃ t, openTasks (sched s) !! Z.to_nat (assignedTaskID e) = Some t ∧ active t = true) ∧
  (∀ e, e ∈ systemCores (sched s) → assignedThreadID e ≠ -1 →
     0 ≤ assignedThreadID e < Z.of_nat (length (m_threads (tm s))) ∧
     ∀ t, openTasks (sched s) !! Z.to_nat (assignedThreadID e) = Some t → active t = true ∨ completed t = true).
Proof.
  intros Hx Hq Hm Hmax Hs. pose proof (made_inv _ (length mask) bq cost (SchedulerOpen_made _ _ _ _ _ _ _ _ _ _ _ _ _ _ _ Hx Hq) Hm Hmax) as Hi.
  apply (open_runs_inv _ _ _ _ _ Hs) in Hi as [Ho _ _]. split; [|split].
  - intros i t Ht. destruct (ow_ids _ _ _ Ho i t Ht). split; [done|]. split; [done|]. by eapply ow_state.
  - intros e [k He]%list_elem_of_lookup Hn. destruct (task_core_live _ _ _ k e Ho He Hn) as (t & H0 & Ht & Hst).
    split; [done|]. exists t. split; [done|]. pose proof (ow_cores _ _ _ Ho _ t Ht) as Hc. rewrite Z2Nat.id in Hc by done.
    destruct (active t); [done|]. simpl in Hc. unfold task_cores in Hc.
    assert (Hin : e ∈ filter (λ d, assignedTaskID d = assignedTaskID e) (systemCores (sched s))).
    { apply list_elem_of_filter. split; [done|]. by eapply list_elem_of_lookup_2. }
    destruct (filter _ _); [by apply elem_of_nil in Hin|simpl in Hc; lia].
  - intros e He Hn. destruct (ow_threads _ _ _ Ho e He Hn) as [Hr Hst]. split; [done|]. intros t Ht.
    destruct (Hst t Ht) as [?|[?|?]]; [by left|by right|done].
Qed.

(** C28: In every state that a run reaches from the constructor under the FIFO
    policy, with any mapping policy that keeps its contract
    ([MappingPolicyOk]: fewer cores than needed, or as many distinct free
    cores, as MapFirstUnused gives when no preferred core is listed twice),
    any DVFS and migration policies, and frequencies 0 < minimum <= maximum <
    [2 ^ 31], where the first threads are created in the order of the tasks
    and nobody sets the affinity of the first thread of a task that still
    waits or of a thread that does not exist: an active task owns exactly the
    number of cores that it needs, every other task owns none, and both checks
    that [periodic] makes (free cores and the needs of the active tasks add up
    to the cores of the system; the tasks of the four states add up to all
    tasks) succeed. *)
Theorem open_cores_accounted (garbage : openTask) (c : OpenConfig) (quantum inter : Z) (mask : list bool)
    (names : string) (tasks : nat) (prio : nat → Z) (dist : string) (rate interval : Z) (explicit : Z → Z)
    (draws : list Z) (d : DvfsManager) (bq cost : Z) x s :
  SchedulerOpen_new garbage c quantum inter mask names tasks prio dist rate interval explicit draws d = Ok x →
  queuePolicy c = "FIFO"%string → 0 < minFrequency c ≤ maxFrequency c → maxFrequency c < 2 ^ 31 →
  rtc (open_step switch_off dvfsPolicy migrationPolicy) (Sys_new (length mask) bq cost x) s →
  (∀ i t, openTasks (sched s) !! i = Some t →
     task_cores (systemCores (sched s)) (Z.of_nat i) = if active t then taskCoreRequirement t else 0) ∧
  checkState (sched s) = Ok (tt, sched s).
Proof.
  intros Hx Hq Hm Hmax Hs. pose proof (made_inv _ (length mask) bq cost (SchedulerOpen_made _ _ _ _ _ _ _ _ _ _ _ _ _ _ _ Hx Hq) Hm Hmax) as Hi.
  apply (open_runs_inv _ _ _ _ _ Hs) in Hi as [Ho _ _]. split.
  - intros i t Ht. rewrite (ow_cores _ _ _ Ho i t Ht). by rewrite orb_false_r.
  - destruct (own_inv_counts _ _ Ho) as [H1 H2]. unfold checkState, st_bind, gets, lift. cbn [res_bind fst snd].
    unfold id. rewrite H1, H2, !Z.eqb_refl. done.
Qed.
End Spec.

(** * A run of two tasks on four cores *)
Section Example.
#[local] Existing Instance list_queue.
#[local] Existing Instance example_host.
#[local] Instance example_mapping : MappingPolicy := MapFirstUnused 2 2 [3].
#[local] Instance example_mapping_ok : MappingPolicyOk.
Proof. apply MapFirstUnused_ok. apply NoDup_singleton. Qed.
Notation SO := (Sys SchedulerOpen).
Notation off := (λ _ : Z, ret tt : st SO unit).
#[local] Instance example_scheduler : Scheduler SchedulerOpen := SchedulerOpen_scheduler off None None.

Definition two_names : string := "parsec-blackscholes-simsmall-1+splash2-fft-small-2".
Definition new_open : res SchedulerOpen :=
  SchedulerOpen_new (plain_task 0 0 0 false) (plain_config "FIFO") 1000000 1 [true; true; true; true] two_names 2
    (λ _, 0) "explicit" 1 0 (λ i, 0) [] plain_dvfs.
Definition first_open : SchedulerOpen := match new_open with Ok x => x | Err _ => two_active end.
Lemma first_open_new : new_open = Ok first_open.
Proof. vm_compute. reflexivity. Qed.
Definition no_tasks : SO := Sys_new 4 100 10 first_open.
Definition then_do {A} (m : st SO A) (s : SO) : SO := match m s with Ok (_, s') => s' | Err _ => s end.
Definition works {A} (m : st SO A) (s : SO) : bool := match m s with Ok _ => true | Err _ => false end.
Lemma works_then {A} (m : st SO A) s : works m s = true → ∃ a, m s = Ok (a, then_do m s).
Proof. unfold works, then_do. destruct (m s) as [[a s']|]; [eauto|done]. Qed.
Definition two_tasks : SO :=
  then_do (onThreadStart 1 0) (then_do (onThreadStart 0 0)
    (then_do (createThread_unlocked false 1) (then_do (createThread_unlocked false 0) no_tasks))).
Lemma two_tasks_reached : rtc (open_step off None None) no_tasks two_tasks.
Proof.
  unfold two_tasks. set (s1 := then_do (createThread_unlocked false 0) no_tasks).
  set (s2 := then_do (createThread_unlocked false 1) s1). set (s3 := then_do (onThreadStart 0 0) s2).
  assert (E1 : works (createThread_unlocked false 0) no_tasks = true) by (vm_compute; reflexivity).
  assert (E2 : works (createThread_unlocked false 1) s1 = true) by (vm_compute; reflexivity).
  assert (E3 : works (onThreadStart 0 0) s2 = true) by (vm_compute; reflexivity).
  assert (E4 : works (onThreadStart 1 0) s3 = true) by (vm_compute; reflexivity).
  apply works_then in E1 as [t1 E1]. apply works_then in E2 as [t2 E2]. apply works_then in E3 as [[] E3].
  apply works_then in E4 as [[] E4].
  eapply rtc_l; [eapply os_create; [|exact E1]; intros _; vm_compute; reflexivity|].
  eapply rtc_l; [eapply os_create; [|exact E2]; intros _; vm_compute; reflexivity|].
  eapply rtc_l; [eapply os_start; exact E3|]. eapply rtc_l; [eapply os_start; exact E4|]. apply rtc_refl.
Qed.

Lemma open_state_well_formed_witness :
  length (openTasks (sched two_tasks)) = 2%nat ∧
  ∀ i t, openTasks (sched two_tasks) !! i = Some t → taskID t = Z.of_nat i ∧ 0 ≤ taskCoreRequirement t ∧ one_state t.
Proof.
  split; [vm_compute; reflexivity|].
  apply (open_state_well_formed off None None (plain_task 0 0 0 false) (plain_config "FIFO") 1000000 1
    [true; true; true; true] two_names 2 (λ _, 0) "explicit" 1 0 (λ i, 0) [] plain_dvfs 100 10 first_open two_tasks).
  - exact first_open_new.
  - reflexivity.
  - vm_compute. split; [reflexivity|discriminate].
  - reflexivity.
  - exact two_tasks_reached.
Defined.
Lemma open_cores_accounted_witness :
  checkState (sched two_tasks) = Ok (tt, sched two_tasks).
Proof.
  apply (open_cores_accounted off None None (plain_task 0 0 0 false) (plain_config "FIFO") 1000000 1
    [true; true; true; true] two_names 2 (λ _, 0) "explicit" 1 0 (λ i, 0) [] plain_dvfs 100 10 first_open two_tasks).
  - exact first_open_new.
  - reflexivity.
  - vm_compute. split; [reflexivity|discriminate].
  - reflexivity.
  - exact two_tasks_reached.
Defined.
End Example.
