(* ===== verification/BranchPredictors.v ===== *)
(** Branch predictors (src/common/performance_model/branch_predictor.cc and
    branch_predictors/): the one-bit predictor and the Pentium M predictor with
    its bimodal table, branch target buffer, loop predictor and global predictor.

    A table of several ways is the list of its ways, a way the list of its
    entries; the parallel vectors of a way in the code are the members of one
    entry.  Addresses are 64-bit words.  The targets of branches play no part in
    a prediction. *)
From S2P Require Import Prelude.
Local Open Scope Z_scope.

(** * SaturatingPredictor<n>: an n-bit signed counter *)
Module Saturating.
Definition half (n : Z) : Z := 2 ^ (n - 1).
Definition predict (c : Z) : bool := 0 <=? c.
Definition reset (n : Z) (prediction : bool) : Z := if prediction then half n - 1 else - half n.
Definition update (n : Z) (actual : bool) (c : Z) : Z :=
  if actual then if c =? half n - 1 then c else c + 1
  else if c =? - half n then c else c - 1.
End Saturating.

(** * Tables of several ways *)
Section Ways.
Context {E : Type}.

(** The first way with a matching entry. *)
Fixpoint find_way (matches : E → bool) (index : nat) (ways : list (list E)) (w : nat) : res (option (nat * E)) :=
  match ways with
  | [] => Ok None
  | way :: ways =>
      let? e := rd way index in
      if matches e then Ok (Some (w, e)) else find_way matches index ways (S w)
  end.
(** The least recently used way, the first one among equals. *)
Fixpoint lru_scan (lru : E → Z) (index : nat) (ways : list (list E)) (w best : nat) (best_lru : Z) : res nat :=
  match ways with
  | [] => Ok best
  | way :: ways =>
      let? e := rd way index in
      if lru e <? best_lru then lru_scan lru index ways (S w) w (lru e)
      else lru_scan lru index ways (S w) best best_lru
  end.
Definition lru_way (lru : E → Z) (index : nat) (ways : list (list E)) : res (nat * E) :=
  let? way := rd ways 0 in
  let? e := rd way index in
  let? w := lru_scan lru index ways 0 0 (lru e) in
  let? way := rd ways w in
  let? e := rd way index in
  Ok (w, e).
Definition put_entry (w index : nat) (e : E) (ways : list (list E)) : res (list (list E)) :=
  let? way := rd ways w in
  let? way := wr way index e in
  wr ways w way.
End Ways.

Record ReturnValue : Type := mkReturnValue { prediction : bool; hit : bool }.

(** * OneBitBranchPredictor *)
Module OneBit.
Record t : Type := mk { m_correct_predictions : Z; m_incorrect_predictions : Z; m_bits : list bool }.
Definition new (size : Z) : t := mk 0 0 (replicate (Z.to_nat size) false).
Definition index (ip : Z) (bits : list bool) : res nat :=
  if Z.of_nat (length bits) =? 0 then Err ErrUndefined
  else Ok (Z.to_nat (u32 (ip mod Z.of_nat (length bits)))).
Definition predict (ip : Z) (b : t) : res bool := let? i := index ip (m_bits b) in rd (m_bits b) i.
Definition update (predicted actual : bool) (ip : Z) (b : t) : res t :=
  let right := Bool.eqb predicted actual in
  let? i := index ip (m_bits b) in
  let? l := wr (m_bits b) i actual in
  Ok (mk (if right then u64 (m_correct_predictions b + 1) else m_correct_predictions b)
        (if right then m_incorrect_predictions b else u64 (m_incorrect_predictions b + 1)) l).
End OneBit.

(** * SimpleBimodalTable *)
Module Bimodal.
Record t : Type := mk { m_mask : Z; m_table : list Z }.
(** [ilog2] of an [n] that is not zero. *)
Definition new (entries : Z) : t :=
  mk (Z.ones (Z.log2 entries)) (replicate (Z.to_nat entries) (Saturating.reset 2 false)).
Definition index (ip : Z) (b : t) : nat := Z.to_nat (u32 (Z.land ip (m_mask b))).
Definition predict (ip : Z) (b : t) : res bool :=
  let? c := rd (m_table b) (index ip b) in Ok (Saturating.predict c).
Definition update (actual : bool) (ip : Z) (b : t) : res t :=
  let? c := rd (m_table b) (index ip b) in
  let? l := wr (m_table b) (index ip b) (Saturating.update 2 actual c) in
  Ok (mk (m_mask b) l).
End Bimodal.

(** * PentiumMBranchTargetBuffer *)
Module Btb.
Record entry : Type := mkEntry { m_tag_offset : Z; m_plru : Z }.
Record t : Type := mk { m_ways : list (list entry); m_lru_use_count : Z }.
Definition NUM_WAYS : nat := 4.
Definition NUM_ENTRIES : nat := 512.
Definition new : t := mk (replicate NUM_WAYS (replicate NUM_ENTRIES (mkEntry 0 0))) 0.
Definition IP_TO_INDEX (ip : Z) : nat := Z.to_nat (Z.land (Z.shiftr ip 4) 0x1ff).
Definition IP_TO_TAGOFF (ip : Z) : Z := Z.land ip 0x3fe00f.
Definition same_tag (ip : Z) (e : entry) : bool := m_tag_offset e =? IP_TO_TAGOFF ip.

Definition lookup (ip : Z) (b : t) : res ReturnValue :=
  let? r := find_way (same_tag ip) (IP_TO_INDEX ip) (m_ways b) 0 in
  Ok (mkReturnValue false (bool_decide (is_Some r))).
Definition update (ip : Z) (b : t) : res t :=
  let i := IP_TO_INDEX ip in
  let? r := find_way (same_tag ip) i (m_ways b) 0 in
  let? w := (match r with Some (w, _) => Ok w | None => let? v := lru_way m_plru i (m_ways b) in Ok v.1 end) in
  let? l := put_entry w i (mkEntry (IP_TO_TAGOFF ip) (m_lru_use_count b)) (m_ways b) in
  Ok (mk l (u64 (m_lru_use_count b + 1))).
End Btb.

(** * GlobalPredictor *)
Module Global.
Record entry : Type := mkEntry { m_valid : bool; m_tag : Z; m_predictor : Z; m_lru : Z }.
Record t : Type := mk { m_ways : list (list entry); m_lru_use_count : Z }.
Definition new (entries : nat) (ways : nat) : t :=
  mk (replicate ways (replicate (Nat.div entries ways) (mkEntry false 0 0 0))) 0.
Definition gen_index (ip pir : Z) : nat := Z.to_nat (Z.land (Z.lxor (Z.shiftr ip 4) (Z.shiftr pir 6)) 0x1FF).
Definition gen_tag (ip pir : Z) : Z := Z.land (Z.lxor (Z.shiftr ip 13) pir) 0x3F.
Definition same_tag (ip pir : Z) (e : entry) : bool := m_valid e && (m_tag e =? gen_tag ip pir).

Definition lookup (ip pir : Z) (g : t) : res ReturnValue :=
  let? r := find_way (same_tag ip pir) (gen_index ip pir) (m_ways g) 0 in
  Ok (match r with
      | Some (_, e) => mkReturnValue (Saturating.predict (m_predictor e)) true
      | None => mkReturnValue false false
      end).
Definition update (actual : bool) (ip pir : Z) (g : t) : res t :=
  let i := gen_index ip pir in
  let? r := find_way (same_tag ip pir) i (m_ways g) 0 in
  let? we := (match r with
              | Some (w, e) =>
                  Ok (w, mkEntry (m_valid e) (m_tag e) (Saturating.update 2 actual (m_predictor e)) (m_lru_use_count g))
              | None =>
                  let? v := lru_way m_lru i (m_ways g) in
                  Ok (v.1, mkEntry true (gen_tag ip pir) (Saturating.reset 2 actual) (m_lru_use_count g))
              end) in
  let? l := put_entry we.1 i we.2 (m_ways g) in
  Ok (mk l (u64 (m_lru_use_count g + 1))).
Definition evict (ip pir : Z) (g : t) : res t :=
  let i := gen_index ip pir in
  let? r := find_way (same_tag ip pir) i (m_ways g) 0 in
  match r with
  | Some (w, e) =>
      let? l := put_entry w i (mkEntry false (m_tag e) (m_predictor e) (m_lru e)) (m_ways g) in
      Ok (mk l (m_lru_use_count g))
  | None => Ok g
  end.
End Global.

(** * LoopBranchPredictor *)
Module Loop.
Record entry : Type := mkEntry {
  m_tag : Z;
  m_previous_actual : bool;
  m_enabled : bool;
  m_predictor : Z;
  m_lru : Z;
  m_count : Z;
  m_limit : Z
}.
Record t : Type := mk { m_ways : list (list entry); m_lru_use_count : Z }.
Definition new (entries ways : nat) : t :=
  mk (replicate ways (replicate (Nat.div entries ways) (mkEntry 0 false false 0 0 0 0))) 0.
Definition gen_index (ip : Z) : nat := Z.to_nat (Z.land (Z.shiftr ip 4) 0x3F).
Definition gen_tag (ip : Z) : Z := Z.land (Z.shiftr ip 10) 0x3F.

(** What a hit says: the opposite direction at the limit. *)
Definition entry_prediction (e : entry) : bool :=
  if m_count e =? m_limit e then negb (Saturating.predict (m_predictor e)) else Saturating.predict (m_predictor e).
Definition prediction_match (e : entry) (actual : bool) : bool :=
  if m_count e =? m_limit e then negb (Bool.eqb (Saturating.predict (m_predictor e)) actual)
  else Bool.eqb (Saturating.predict (m_predictor e)) actual.

Definition set_lru (n : Z) (e : entry) : entry :=
  mkEntry (m_tag e) (m_previous_actual e) (m_enabled e) (m_predictor e) n (m_count e) (m_limit e).
Definition lookup (ip : Z) : st t ReturnValue := λ l,
  let i := gen_index ip in
  let? r := find_way (λ e, m_enabled e && (m_tag e =? gen_tag ip)) i (m_ways l) 0 in
  match r with
  | Some (w, e) =>
      let? ways := put_entry w i (set_lru (m_lru_use_count l) e) (m_ways l) in
      Ok (mkReturnValue (entry_prediction e) true, mk ways (u64 (m_lru_use_count l + 1)))
  | None => Ok (mkReturnValue false false, l)
  end.

(** The same direction: counter, limit and whether the entry stays enabled. *)
Definition same_direction (e : entry) (actual : bool) : Z * Z * bool :=
  let c := m_count e in
  let l := m_limit e in
  if prediction_match e actual then (if c =? l then 0 else u32 (c + 1), l, m_enabled e)
  else if c <? l then (0, c, m_enabled e)
  else (u32 (c + 1), u32 (c + 1), false).
(** The entry of a branch with outcome [actual], at the use count [lru]. *)
Definition entry_update (actual : bool) (lru : Z) (e : entry) : entry :=
  let current := Saturating.predict (m_predictor e) in
  let opposite := Bool.eqb actual (negb current) in
  if Bool.eqb (m_previous_actual e) actual && opposite then
    mkEntry (m_tag e) actual false (Saturating.update 1 actual (m_predictor e)) lru 1 1
  else if negb (Bool.eqb (m_previous_actual e) actual) && opposite && negb (m_enabled e) then
    mkEntry (m_tag e) actual true (m_predictor e) lru 0 (m_limit e)
  else
    let '(c, l, en) := same_direction e actual in
    mkEntry (m_tag e) actual en (m_predictor e) lru c l.
(** An entry that is taken over keeps its [m_enabled]. *)
Definition entry_new (actual : bool) (tag lru : Z) (e : entry) : entry :=
  mkEntry tag actual (m_enabled e) (Saturating.reset 1 actual) lru 1 1.

Definition update (actual : bool) (ip : Z) (l : t) : res t :=
  let i := gen_index ip in
  let? r := find_way (λ e, m_tag e =? gen_tag ip) i (m_ways l) 0 in
  let? we := (match r with
              | Some (w, e) => Ok (w, entry_update actual (m_lru_use_count l) e)
              | None =>
                  let? v := lru_way m_lru i (m_ways l) in
                  Ok (v.1, entry_new actual (gen_tag ip) (m_lru_use_count l) v.2)
              end) in
  let? ways := put_entry we.1 i we.2 (m_ways l) in
  Ok (mk ways (u64 (m_lru_use_count l + 1))).
End Loop.

(** * PentiumMBranchPredictor *)
Module PentiumM.
(** [m_last_bm_pred] has no value before the first prediction. *)
Record t : Type := mk {
  m_correct_predictions : Z;
  m_incorrect_predictions : Z;
  m_global_predictor : Global.t;
  m_btb : Btb.t;
  m_bimodal_table : Bimodal.t;
  m_lpb : Loop.t;
  m_pir : Z;
  m_last_gp_hit : bool;
  m_last_bm_pred : option bool;
  m_last_lpb_hit : bool
}.
Definition new : t :=
  mk 0 0 (Global.new 2048 4) Btb.new (Bimodal.new 4096) (Loop.new 128 2) 0 false None false.

Definition predict (ip : Z) : st t bool := λ p,
  let? g := Global.lookup ip (m_pir p) (m_global_predictor p) in
  let? b := Btb.lookup ip (m_btb p) in
  let? r := Loop.lookup ip (m_lpb p) in
  let '(l, lpb) := r in
  let? bimodal_out := Bimodal.predict ip (m_bimodal_table p) in
  let lpb_hit := hit l && hit b in
  Ok (if hit g then prediction g else if lpb_hit then prediction l else bimodal_out,
      mk (m_correct_predictions p) (m_incorrect_predictions p) (m_global_predictor p) (m_btb p) (m_bimodal_table p)
        lpb (m_pir p) (hit g) (Some bimodal_out) lpb_hit).

Definition update_pir (actual : bool) (ip pir : Z) : Z :=
  if actual then Z.land (Z.lxor (u64 (Z.shiftl pir 2)) (Z.shiftr ip 4)) 0x7fff else pir.

Definition update (predicted actual : bool) (ip : Z) (p : t) : res t :=
  let right := Bool.eqb predicted actual in
  let? btb := Btb.update ip (m_btb p) in
  let? lpb := Loop.update actual ip (m_lpb p) in
  let? bim := (if negb (m_last_gp_hit p) && negb (m_last_lpb_hit p) then Bimodal.update actual ip (m_bimodal_table p)
               else Ok (m_bimodal_table p)) in
  let? lpb_or_bm_hit := (if m_last_lpb_hit p then Ok true
                         else match m_last_bm_pred p with
                              | Some b => Ok (Bool.eqb b actual)
                              | None => Err ErrUndefined
                              end) in
  let? g := (if m_last_gp_hit p then
               if negb right && lpb_or_bm_hit then Global.evict ip (m_pir p) (m_global_predictor p)
               else Global.update actual ip (m_pir p) (m_global_predictor p)
             else if negb right && (m_last_gp_hit p || negb lpb_or_bm_hit)
             then Global.update actual ip (m_pir p) (m_global_predictor p)
             else Ok (m_global_predictor p)) in
  Ok (mk (if right then u64 (m_correct_predictions p + 1) else m_correct_predictions p)
        (if right then m_incorrect_predictions p else u64 (m_incorrect_predictions p + 1)) g btb bim lpb
        (update_pir actual ip (m_pir p)) (m_last_gp_hit p) (m_last_bm_pred p) (m_last_lpb_hit p)).

(** [Core::accessBranchPredictor]: whether the branch was mispredicted. *)
Definition branch (ip : Z) (actual : bool) : st t bool := λ p,
  let? r := predict ip p in
  let? p := update r.1 actual ip r.2 in
  Ok (negb (Bool.eqb r.1 actual), p).
End PentiumM.

(** * Facts *)

(** ** The one-bit predictor says what its slot has seen last *)
Lemma one_bit_predicts_last_outcome (b : OneBit.t) predicted actual ip ip' :
  let n := Z.of_nat (length (OneBit.m_bits b)) in
  0 < n < 2 ^ 32 →
  ∃ b', OneBit.update predicted actual ip b = Ok b' ∧
    OneBit.predict ip' b' = if ip' mod n =? ip mod n then Ok actual else OneBit.predict ip' b.
Proof.
  intros n Hn. unfold OneBit.update, OneBit.predict, OneBit.index. fold n. rewrite (proj2 (Z.eqb_neq n 0)) by lia. cbn [res_bind].
  assert (Hid : ∀ x, u32 (x mod n) = x mod n ∧ 0 ≤ x mod n < n).
  { intros x. pose proof (Z.mod_pos_bound x n ltac:(lia)). split; [|done]. apply u32_id. unfold in_u32. lia. }
  destruct (Hid ip) as [-> Hip]. destruct (Hid ip') as [Hi' Hip']. rewrite wr_lt by lia. cbn [res_bind].
  eexists. split; [done|]. cbn [OneBit.m_bits]. rewrite length_insert. fold n. rewrite (proj2 (Z.eqb_neq n 0)) by lia.
  cbn [res_bind]. rewrite Hi'. unfold rd. destruct (Z.eqb_spec (ip' mod n) (ip mod n)) as [->|Hne].
  - by rewrite list_lookup_insert_eq by lia.
  - by rewrite list_lookup_insert_ne by lia.
Qed.

(** ** Tables *)
Section Tables.
Context {E : Type}.
Implicit Types (ways : list (list E)) (p q : E → bool) (P : E → Prop).

Definition entry_at ways (w i : nat) : option E := way ← ways !! w; way !! i.
Definition table_ok (nw n : nat) P ways : Prop :=
  length ways = nw ∧ ∀ w, (w < nw)%nat → ∃ way, ways !! w = Some way ∧ length way = n ∧ Forall P way.

Lemma table_entry nw n P ways w i : table_ok nw n P ways → (w < nw)%nat → (i < n)%nat → ∃ e, entry_at ways w i = Some e ∧ P e.
Proof.
  intros [_ Ht] Hw Hi. destruct (Ht w Hw) as (way & Hway & Hl & Hp). unfold entry_at. rewrite Hway. simpl.
  destruct (lookup_lt_is_Some_2 way i) as [e He]; [lia|]. exists e. split; [done|]. by apply (Forall_lookup_1 _ _ _ _ Hp He).
Qed.
Lemma bp_put_entry_ok nw n P ways w i e :
  table_ok nw n P ways → (w < nw)%nat → (i < n)%nat → P e →
  ∃ ways', put_entry w i e ways = Ok ways' ∧ table_ok nw n P ways' ∧
    ∀ w' , entry_at ways' w' i = if decide (w' = w) then Some e else entry_at ways w' i.
Proof.
  intros [Hn Ht] Hw Hi He. destruct (Ht w Hw) as (way & Hway & Hl & Hp). unfold put_entry.
  rewrite (proj2 (rd_Ok _ _ _) Hway). simpl. rewrite !wr_lt by lia. simpl. rewrite wr_lt by lia.
  eexists. split; [done|]. split; [split; [by rewrite length_insert|]|].
  - intros w' Hw'. destruct (decide (w' = w)) as [->|]; [|rewrite list_lookup_insert_ne by done; by apply Ht].
    rewrite list_lookup_insert_eq by lia. eexists. split; [done|]. split; [by rewrite length_insert|]. by apply Forall_insert.
  - intros w'. unfold entry_at. destruct (decide (w' = w)) as [->|]; [|by rewrite list_lookup_insert_ne by done].
    rewrite list_lookup_insert_eq by lia. simpl. apply list_lookup_insert_eq. lia.
Qed.

(** The first match. *)
Definition first_match p ways (i : nat) (r : option (nat * E)) : Prop :=
  match r with
  | Some (w, e) => entry_at ways w i = Some e ∧ p e = true ∧
                   ∀ w' e', (w' < w)%nat → entry_at ways w' i = Some e' → p e' = false
  | None => ∀ w' e', entry_at ways w' i = Some e' → p e' = false
  end.
Lemma find_way_from p i ways w0 :
  (∀ w, (w < length ways)%nat → is_Some (entry_at ways w i)) →
  ∃ r, find_way p i ways w0 = Ok ((λ x, (w0 + x.1, x.2)%nat) <$> r) ∧ first_match p ways i r.
Proof.
  revert w0. induction ways as [|way ways IH]; intros w0 Hall; [by exists None|].
  destruct (Hall 0%nat ltac:(simpl; lia)) as [e He]. simpl. rewrite (proj2 (rd_Ok way i e) He). simpl.
  destruct (p e) eqn:Hpe.
  { exists (Some (0%nat, e)). simpl. rewrite Nat.add_0_r. split; [done|]. split; [done|]. split; [done|]. intros; lia. }
  destruct (IH (S w0)) as (r & -> & Hr); [intros w Hw; apply (Hall (S w)); simpl; lia|].
  exists ((λ x, (S x.1, x.2)) <$> r). destruct r as [[w e']|]; simpl in *.
  - split; [do 3 f_equal; lia|]. destruct Hr as (? & ? & Hlt). split; [done|]. split; [done|].
    intros [|w'] e'' Hw' He''; [unfold entry_at in *; simpl in *; congruence|]. apply (Hlt w'); [lia|done].
  - split; [done|]. intros [|w'] e' He'; [|by apply (Hr w')]. unfold entry_at in *. simpl in *. congruence.
Qed.
Lemma find_way_ok nw n P p ways i :
  table_ok nw n P ways → (i < n)%nat → ∃ r, find_way p i ways 0 = Ok r ∧ first_match p ways i r.
Proof.
  intros Ht Hi. destruct (find_way_from p i ways 0) as (r & Hr & Hf).
  - intros w Hw. destruct (table_entry nw n P ways w i Ht) as (e & He & _); [destruct Ht; lia|done|by eexists].
  - exists r. split; [|done]. rewrite Hr. by destruct r as [[? ?]|].
Qed.
Lemma first_match_det p ways i r r' : first_match p ways i r → first_match p ways i r' → r = r'.
Proof.
  destruct r as [[w e]|], r' as [[w' e']|]; simpl; [|naive_solver congruence..|done].
  intros (He & Hp & Hlt) (He' & Hp' & Hlt'). destruct (Nat.lt_trichotomy w w') as [Hw|[->|Hw]]; [|congruence|].
  - specialize (Hlt' w e Hw He). congruence.
  - specialize (Hlt w' e' Hw He'). congruence.
Qed.
(** A match that another way of matching finds too. *)
Lemma first_match_imp p q ways i w e :
  (∀ e, q e = true → p e = true) → first_match p ways i (Some (w, e)) → q e = true → first_match q ways i (Some (w, e)).
Proof.
  intros Himp (He & Hp & Hlt) Hq. split; [done|]. split; [done|]. intros w' e' Hw' He'. specialize (Hlt w' e' Hw' He').
  destruct (q e') eqn:Hqe; [|done]. rewrite (Himp e' Hqe) in Hlt. done.
Qed.
(** After an entry of the matching way, or of any way where nothing matched, was
    written. *)
Lemma first_match_put p ways ways' i w e' :
  (first_match p ways i None ∨ ∃ e, first_match p ways i (Some (w, e))) → p e' = true →
  (∀ w', entry_at ways' w' i = if decide (w' = w) then Some e' else entry_at ways w' i) →
  first_match p ways' i (Some (w, e')).
Proof.
  intros Hf Hp Hput. simpl. rewrite Hput, decide_True by done. do 2 (split; [done|]). intros w' e'' Hw'.
  rewrite Hput, decide_False by lia. destruct Hf as [Hn|(e & _ & _ & Hlt)]; [by apply Hn|by apply Hlt].
Qed.
Lemma lru_scan_ok lru i ways w best b :
  (∀ w, (w < length ways)%nat → is_Some (entry_at ways w i)) →
  ∃ r, lru_scan lru i ways w best b = Ok r ∧ (r = best ∨ w ≤ r < w + length ways)%nat.
Proof.
  revert w best b. induction ways as [|way ways IH]; intros w best b Hall; simpl; [by eauto|].
  destruct (Hall 0%nat ltac:(simpl; lia)) as [e He]. rewrite (proj2 (rd_Ok way i e) He). simpl.
  assert (Hall' : ∀ w, (w < length ways)%nat → is_Some (entry_at ways w i)) by (intros w' Hw'; apply (Hall (S w')); simpl; lia).
  destruct (lru e <? b).
  - destruct (IH (S w) w (lru e) Hall') as (r & -> & Hr). exists r. split; [done|]. lia.
  - destruct (IH (S w) best b Hall') as (r & -> & Hr). exists r. split; [done|]. lia.
Qed.
Lemma lru_way_ok nw n P lru ways i :
  table_ok nw n P ways → (0 < nw)%nat → (i < n)%nat →
  ∃ w e, lru_way lru i ways = Ok (w, e) ∧ (w < nw)%nat ∧ entry_at ways w i = Some e ∧ P e.
Proof.
  intros Ht Hw Hi. pose proof Ht as [Hlen Hwf].
  assert (Hall : ∀ w, (w < length ways)%nat → is_Some (entry_at ways w i)).
  { intros w Hw'. destruct (table_entry nw n P ways w i Ht) as (e & He & _); [lia|done|by eexists]. }
  assert (Hrd : ∀ w, (w < nw)%nat → ∃ way e, rd ways w = Ok way ∧ rd way i = Ok e ∧ entry_at ways w i = Some e ∧ P e).
  { intros w Hw'. destruct (table_entry nw n P ways w i Ht Hw' Hi) as (e & He & Hp). unfold entry_at in He |- *.
    destruct (ways !! w) as [way|] eqn:Hway; [|done]. simpl in He. exists way, e. by rewrite !rd_Ok. }
  unfold lru_way. destruct (Hrd 0%nat Hw) as (way & e & -> & Hre & _ & _). simpl. rewrite Hre. simpl.
  destruct (lru_scan_ok lru i ways 0 0 (lru e) Hall) as (r & -> & Hr). simpl.
  destruct (Hrd r ltac:(lia)) as (way' & e' & -> & Hre' & He' & Hp'). simpl. rewrite Hre'. simpl.
  exists r, e'. split; [done|]. split; [lia|done].
Qed.
(** The place of an entry: the way that matches, or else the least recently
    used one. *)
Lemma place_ok nw n P p lru ways i :
  table_ok nw n P ways → (0 < nw)%nat → (i < n)%nat →
  ∃ r, find_way p i ways 0 = Ok r ∧ first_match p ways i r ∧
    match r with
    | Some (w, e) => (w < nw)%nat ∧ P e
    | None => ∃ w e, lru_way lru i ways = Ok (w, e) ∧ (w < nw)%nat ∧ entry_at ways w i = Some e ∧ P e
    end.
Proof.
  intros Ht Hw Hi. destruct (find_way_ok nw n P p ways i Ht Hi) as (r & Hr & Hf). exists r. split; [done|].
  split; [done|]. destruct r as [[w e]|]; [|by apply (lru_way_ok nw n P)]. destruct Hf as (He & _).
  destruct (decide (w < nw)%nat) as [Hlt|Hge].
  - split; [done|]. destruct (table_entry nw n P ways w i Ht Hlt Hi) as (e' & He' & Hp). by simplify_eq.
  - unfold entry_at in He. rewrite lookup_ge_None_2 in He by (destruct Ht; lia). done.
Qed.
End Tables.

(** ** Indices and counters *)
Lemma land_index x m : 0 ≤ m → 0 ≤ Z.land x (Z.ones m) < 2 ^ m.
Proof. intros Hm. rewrite Z.land_ones by done. apply Z.mod_pos_bound. lia. Qed.
Lemma index_lt x m n : 0 ≤ m → 2 ^ m = Z.of_nat n → (Z.to_nat (Z.land x (Z.ones m)) < n)%nat.
Proof. intros Hm Hn. pose proof (land_index x m Hm). lia. Qed.
Lemma btb_index_lt ip : (Btb.IP_TO_INDEX ip < 512)%nat.
Proof. by apply (index_lt _ 9). Qed.
Lemma loop_index_lt ip : (Loop.gen_index ip < 64)%nat.
Proof. by apply (index_lt _ 6). Qed.
Lemma global_index_lt ip pir : (Global.gen_index ip pir < 512)%nat.
Proof. by apply (index_lt _ 9). Qed.

(** An n-bit counter stays an n-bit number. *)
Definition counter_ok (n c : Z) : Prop := - Saturating.half n ≤ c < Saturating.half n.
Lemma counter_reset n b : 1 ≤ n → counter_ok n (Saturating.reset n b).
Proof.
  intros Hn. unfold counter_ok, Saturating.reset. assert (0 < Saturating.half n) by (apply Z.pow_pos_nonneg; lia).
  destruct b; lia.
Qed.
Lemma counter_update n b c : counter_ok n c → counter_ok n (Saturating.update n b c).
Proof.
  unfold counter_ok, Saturating.update. intros Hc. destruct b; case_match; lia.
Qed.
(** Two outcomes in a row decide the prediction of a two-bit counter. *)
Lemma two_updates_decide c b : counter_ok 2 c → Saturating.predict (Saturating.update 2 b (Saturating.update 2 b c)) = b.
Proof.
  unfold counter_ok, Saturating.half, Saturating.update, Saturating.predict. simpl. intros Hc.
  assert (c = -2 ∨ c = -1 ∨ c = 0 ∨ c = 1) as [-> | [-> | [-> | ->]]] by lia; by destruct b.
Qed.
(** A one-bit counter predicts its last reset. *)
Lemma reset_decides b : Saturating.predict (Saturating.reset 1 b) = b.
Proof. by destruct b. Qed.

(** ** The Pentium M predictor *)
Import PentiumM.
Record pm_ok (p : PentiumM.t) : Prop := {
  pm_global : table_ok 4 512 (λ e, counter_ok 2 (Global.m_predictor e)) (Global.m_ways (m_global_predictor p));
  pm_btb : table_ok 4 512 (λ _, True) (Btb.m_ways (m_btb p));
  pm_mask : Bimodal.m_mask (m_bimodal_table p) = Z.ones 12;
  pm_table : length (Bimodal.m_table (m_bimodal_table p)) = 4096%nat ∧ Forall (counter_ok 2) (Bimodal.m_table (m_bimodal_table p));
  pm_lpb : table_ok 2 64 (λ e, counter_ok 1 (Loop.m_predictor e)) (Loop.m_ways (m_lpb p));
  pm_pir : 0 ≤ m_pir p < 2 ^ 15
}.

Lemma replicate_table {E} nw n (P : E → Prop) e : P e → table_ok nw n P (replicate nw (replicate n e)).
Proof.
  intros He. split; [apply length_replicate|]. intros w Hw. exists (replicate n e). split; [by apply lookup_replicate_2|].
  split; [apply length_replicate|]. by apply Forall_replicate.
Qed.
Lemma new_ok : pm_ok PentiumM.new.
Proof.
  constructor; try done.
  - by apply replicate_table.
  - by apply replicate_table.
  - split; [apply length_replicate|]. by apply Forall_replicate.
  - by apply replicate_table.
Qed.

Lemma bimodal_index_lt ip p : pm_ok p → (Bimodal.index ip (m_bimodal_table p) < 4096)%nat.
Proof.
  intros Hp. unfold Bimodal.index. rewrite (pm_mask p Hp). pose proof (land_index ip 12 ltac:(lia)) as Hl.
  rewrite u32_id by (unfold in_u32; lia). lia.
Qed.
Lemma pir_range actual ip pir : 0 ≤ pir < 2 ^ 15 → 0 ≤ update_pir actual ip pir < 2 ^ 15.
Proof. intros Hpir. unfold update_pir. destruct actual; [|done]. by apply (land_index _ 15). Qed.


(** ** The parts of the predictor *)
Lemma btb_ok ip b : table_ok 4 512 (λ _, True) (Btb.m_ways b) →
  (∃ h, Btb.lookup ip b = Ok (mkReturnValue false h)) ∧
  ∃ b', Btb.update ip b = Ok b' ∧ table_ok 4 512 (λ _, True) (Btb.m_ways b') ∧
        Btb.lookup ip b' = Ok (mkReturnValue false true).
Proof.
  intros Ht. pose proof (btb_index_lt ip) as Hi. unfold Btb.update, Btb.lookup at 1.
  destruct (place_ok 4 512 _ (Btb.same_tag ip) Btb.m_plru _ _ Ht ltac:(lia) Hi) as (r & -> & Hf & Hr). cbn [res_bind].
  split; [by eexists|]. set (e' := Btb.mkEntry (Btb.IP_TO_TAGOFF ip) (Btb.m_lru_use_count b)).
  assert (Htag : Btb.same_tag ip e' = true) by apply Z.eqb_refl.
  assert (Hw : ∃ w, match r with Some (w, _) => Ok w
                    | None => let? v := lru_way Btb.m_plru (Btb.IP_TO_INDEX ip) (Btb.m_ways b) in Ok v.1 end = Ok w ∧
                    (w < 4)%nat ∧ (first_match (Btb.same_tag ip) (Btb.m_ways b) (Btb.IP_TO_INDEX ip) None ∨
                     ∃ e, first_match (Btb.same_tag ip) (Btb.m_ways b) (Btb.IP_TO_INDEX ip) (Some (w, e)))).
  { destruct r as [[w e]|]; [exists w; naive_solver|]. destruct Hr as (w & e & -> & Hw & _). exists w. auto. }
  destruct Hw as (w & -> & Hw & Hf'). cbn [res_bind].
  destruct (bp_put_entry_ok 4 512 (λ _, True) _ w _ e' Ht Hw Hi I) as (ways & -> & Ht' & Hput). cbn [res_bind].
  eexists. split; [done|]. split; [done|]. unfold Btb.lookup. simpl.
  destruct (find_way_ok 4 512 _ (Btb.same_tag ip) _ _ Ht' Hi) as (r' & -> & Hr').
  pose proof (first_match_put (Btb.same_tag ip) _ _ _ w _ Hf' Htag Hput) as Hr2.
  by rewrite (first_match_det _ _ _ _ _ Hr' Hr2).
Qed.

Notation global_ok g := (table_ok 4 512 (λ e, counter_ok 2 (Global.m_predictor e)) (Global.m_ways g)).
Lemma global_ops_ok ip pir actual g : global_ok g →
  is_Ok (Global.lookup ip pir g) ∧
  (∃ g', Global.update actual ip pir g = Ok g' ∧ global_ok g') ∧ (∃ g', Global.evict ip pir g = Ok g' ∧ global_ok g').
Proof.
  intros Ht. pose proof (global_index_lt ip pir) as Hi. unfold Global.lookup, Global.update, Global.evict.
  destruct (place_ok 4 512 _ (Global.same_tag ip pir) Global.m_lru _ _ Ht ltac:(lia) Hi) as (r & -> & _ & Hr). cbn [res_bind].
  split; [by eexists|]. destruct r as [[w e]|].
  - destruct Hr as [Hw He]. cbn [res_bind fst snd]. split.
    + set (e' := Global.mkEntry _ _ _ _).
      destruct (bp_put_entry_ok 4 512 _ _ w _ e' Ht Hw Hi) as (ways & -> & Ht' & _); [by apply counter_update|].
      cbn [res_bind]. eexists. by split.
    + set (e' := Global.mkEntry _ _ _ _).
      destruct (bp_put_entry_ok 4 512 _ _ w _ e' Ht Hw Hi) as (ways & -> & Ht' & _); [done|]. cbn [res_bind]. eexists. by split.
  - destruct Hr as (w & e & -> & Hw & _ & He). cbn [res_bind fst snd]. split; [|by eexists].
    set (e' := Global.mkEntry _ _ _ _).
    destruct (bp_put_entry_ok 4 512 _ _ w _ e' Ht Hw Hi) as (ways & -> & Ht' & _); [by apply counter_reset|].
    cbn [res_bind]. eexists. by split.
Qed.

Notation loop_ok l := (table_ok 2 64 (λ e, counter_ok 1 (Loop.m_predictor e)) (Loop.m_ways l)).
Notation loop_tag ip := (λ e, Loop.m_tag e =? Loop.gen_tag ip).
Lemma entry_update_ok actual lru e :
  counter_ok 1 (Loop.m_predictor e) → counter_ok 1 (Loop.m_predictor (Loop.entry_update actual lru e)).
Proof.
  intros He. unfold Loop.entry_update. repeat case_match; simpl; try done. by apply counter_update.
Qed.
Lemma entry_update_tag actual lru e : Loop.m_tag (Loop.entry_update actual lru e) = Loop.m_tag e.
Proof. unfold Loop.entry_update. by repeat case_match. Qed.

(** The entry that an update leaves for its branch. *)
Lemma loop_update_ok actual ip l : loop_ok l →
  ∃ l' w e', Loop.update actual ip l = Ok l' ∧ loop_ok l' ∧
    first_match (loop_tag ip) (Loop.m_ways l') (Loop.gen_index ip) (Some (w, e')) ∧
    ((∃ e, first_match (loop_tag ip) (Loop.m_ways l) (Loop.gen_index ip) (Some (w, e)) ∧
           e' = Loop.entry_update actual (Loop.m_lru_use_count l) e) ∨
     (first_match (loop_tag ip) (Loop.m_ways l) (Loop.gen_index ip) None ∧
      ∃ e, entry_at (Loop.m_ways l) w (Loop.gen_index ip) = Some e ∧
           e' = Loop.entry_new actual (Loop.gen_tag ip) (Loop.m_lru_use_count l) e)).
Proof.
  intros Ht. pose proof (loop_index_lt ip) as Hi. unfold Loop.update.
  destruct (place_ok 2 64 _ (loop_tag ip) Loop.m_lru _ _ Ht ltac:(lia) Hi) as (r & -> & Hf & Hr). cbn [res_bind].
  destruct r as [[w e]|].
  - destruct Hr as [Hw He]. cbn [res_bind fst snd]. set (e' := Loop.entry_update _ _ _).
    destruct (bp_put_entry_ok 2 64 _ _ w _ e' Ht Hw Hi) as (ways & -> & Ht' & Hput); [by apply entry_update_ok|].
    cbn [res_bind]. exists (Loop.mk ways (u64 (Loop.m_lru_use_count l + 1))), w, e'. split; [done|]. split; [done|].
    split; [|left; by exists e]. apply (first_match_put _ (Loop.m_ways l)); [right; by exists e| |done].
    unfold e'. rewrite entry_update_tag. by destruct Hf as (_ & ? & _).
  - destruct Hr as (w & e & -> & Hw & Hent & He). cbn [res_bind fst snd]. set (e' := Loop.entry_new _ _ _ _).
    destruct (bp_put_entry_ok 2 64 _ _ w _ e' Ht Hw Hi) as (ways & -> & Ht' & Hput); [by apply counter_reset|].
    cbn [res_bind]. exists (Loop.mk ways (u64 (Loop.m_lru_use_count l + 1))), w, e'. split; [done|]. split; [done|].
    split; [|right; split; [done|by exists e]]. apply (first_match_put _ (Loop.m_ways l)); [by left| |done].
    apply Z.eqb_refl.
Qed.
(** A lookup changes the age of the entry it hits at most. *)
Definition aged (l l' : Loop.t) (i : nat) : Prop :=
  ∀ w, ∃ x, entry_at (Loop.m_ways l') w i = Loop.set_lru x <$> entry_at (Loop.m_ways l) w i.
Lemma aged_match ip l l' r : aged l l' (Loop.gen_index ip) → first_match (loop_tag ip) (Loop.m_ways l) (Loop.gen_index ip) r →
  match r with
  | Some (w, e) => ∃ x, first_match (loop_tag ip) (Loop.m_ways l') (Loop.gen_index ip) (Some (w, Loop.set_lru x e))
  | None => first_match (loop_tag ip) (Loop.m_ways l') (Loop.gen_index ip) None
  end.
Proof.
  intros Ha Hf.
  assert (Hb : ∀ w e', entry_at (Loop.m_ways l') w (Loop.gen_index ip) = Some e' →
             ∃ e, entry_at (Loop.m_ways l) w (Loop.gen_index ip) = Some e ∧ Loop.m_tag e' = Loop.m_tag e).
  { intros w e' He'. destruct (Ha w) as [x Hx]. rewrite He' in Hx. symmetry in Hx.
    apply fmap_Some in Hx as (e & He & ->). by exists e. }
  destruct r as [[w e]|].
  - destruct Hf as (He & Ht & Hlt). destruct (Ha w) as [x Hx]. rewrite He in Hx. exists x. split; [done|]. split; [done|].
    intros w' e' Hw' He'. destruct (Hb w' e' He') as (e0 & He0 & ->). by apply (Hlt w').
  - intros w' e' He'. destruct (Hb w' e' He') as (e0 & He0 & ->). by apply (Hf w').
Qed.
Lemma loop_lookup_ok ip l : loop_ok l →
  ∃ r l', Loop.lookup ip l = Ok (r, l') ∧ loop_ok l' ∧ aged l l' (Loop.gen_index ip) ∧
    (∀ w e, first_match (loop_tag ip) (Loop.m_ways l) (Loop.gen_index ip) (Some (w, e)) → Loop.m_enabled e = true →
            r = mkReturnValue (Loop.entry_prediction e) true).
Proof.
  intros Ht. pose proof (loop_index_lt ip) as Hi. unfold Loop.lookup.
  destruct (place_ok 2 64 _ (λ e, Loop.m_enabled e && (Loop.m_tag e =? Loop.gen_tag ip)) Loop.m_lru _ _ Ht ltac:(lia) Hi)
    as (r & -> & Hf & Hr). cbn [res_bind].
  assert (Hm : ∀ w e, first_match (loop_tag ip) (Loop.m_ways l) (Loop.gen_index ip) (Some (w, e)) → Loop.m_enabled e = true →
                 r = Some (w, e)).
  { intros w e Hfm Hen. eapply first_match_det; [exact Hf|]. eapply first_match_imp; [|exact Hfm|].
    - intros e0 He0. by apply andb_true_iff in He0 as [_ ?].
    - rewrite Hen. by destruct Hfm as (_ & ? & _). }
  assert (Hself : ∀ o : option Loop.entry, ∃ x, o = Loop.set_lru x <$> o).
  { intros [e|]; [|by exists 0]. exists (Loop.m_lru e). by destruct e. }
  destruct r as [[w e]|].
  - destruct Hr as [Hw He]. cbn [fst snd].
    destruct (bp_put_entry_ok 2 64 _ _ w _ (Loop.set_lru (Loop.m_lru_use_count l) e) Ht Hw Hi He) as (ways & -> & Ht' & Hput).
    cbn [res_bind]. do 2 eexists. split; [done|]. split; [done|]. split.
    + intros w'. simpl. rewrite Hput. destruct (decide (w' = w)) as [->|]; [|apply Hself].
      destruct Hf as (-> & _). by eexists.
    + intros w' e' Hfm Hen. by pose proof (Hm w' e' Hfm Hen) as [= <- <-].
  - do 2 eexists. split; [done|]. split; [done|]. split; [intros w; apply Hself|].
    intros w e Hfm Hen. by specialize (Hm w e Hfm Hen).
Qed.

(** ** All the parts together *)
Fixpoint run_branches (l : list (Z * bool)) (p : PentiumM.t) : res (list bool * PentiumM.t) :=
  match l with
  | [] => Ok ([], p)
  | (ip, actual) :: l =>
      let? r := branch ip actual p in
      let? rs := run_branches l r.2 in
      Ok (r.1 :: rs.1, rs.2)
  end.

Lemma predict_ok ip p : pm_ok p →
  ∃ b p' bm, predict ip p = Ok (b, p') ∧ pm_ok p' ∧ m_last_bm_pred p' = Some bm ∧
    m_correct_predictions p' = m_correct_predictions p ∧ m_incorrect_predictions p' = m_incorrect_predictions p.
Proof.
  intros Hp. destruct (global_ops_ok ip (m_pir p) true _ (pm_global p Hp)) as ([g Hg] & _).
  destruct (btb_ok ip _ (pm_btb p Hp)) as ([h Hb] & _).
  destruct (loop_lookup_ok ip _ (pm_lpb p Hp)) as (r & l' & Hl & Hok & _).
  destruct (pm_table p Hp) as [Hlen Hall].
  destruct (rd_lt (Bimodal.m_table (m_bimodal_table p)) (Bimodal.index ip (m_bimodal_table p))) as (c & _ & Hc).
  { rewrite Hlen. by apply bimodal_index_lt. }
  unfold predict. rewrite Hg. cbn [res_bind]. rewrite Hb. cbn [res_bind]. rewrite Hl. cbn [res_bind].
  unfold Bimodal.predict. rewrite Hc. cbn [res_bind]. do 3 eexists. split; [done|]. split; [|done]. by destruct Hp.
Qed.
Lemma bp_update_ok predicted actual ip p bm : pm_ok p → m_last_bm_pred p = Some bm →
  ∃ p', update predicted actual ip p = Ok p' ∧ pm_ok p' ∧
    if Bool.eqb predicted actual
    then m_correct_predictions p' = u64 (m_correct_predictions p + 1) ∧ m_incorrect_predictions p' = m_incorrect_predictions p
    else m_correct_predictions p' = m_correct_predictions p ∧ m_incorrect_predictions p' = u64 (m_incorrect_predictions p + 1).
Proof.
  intros Hp Hbm. destruct (global_ops_ok ip (m_pir p) actual _ (pm_global p Hp)) as (_ & (g1 & Hg1 & Hok1) & (g2 & Hg2 & Hok2)).
  destruct (btb_ok ip _ (pm_btb p Hp)) as (_ & b' & Hb & Hbok & _).
  destruct (loop_update_ok actual ip _ (pm_lpb p Hp)) as (l' & _ & _ & Hl & Hlok & _).
  destruct (pm_table p Hp) as [Hlen Hall]. pose proof (bimodal_index_lt ip p Hp) as Hi.
  destruct (rd_lt (Bimodal.m_table (m_bimodal_table p)) (Bimodal.index ip (m_bimodal_table p))) as (c & Hcl & Hc); [lia|].
  assert (Hbim : ∃ t, (if negb (m_last_gp_hit p) && negb (m_last_lpb_hit p) then Bimodal.update actual ip (m_bimodal_table p)
                       else Ok (m_bimodal_table p)) = Ok t ∧ Bimodal.m_mask t = Z.ones 12 ∧
                      length (Bimodal.m_table t) = 4096%nat ∧ Forall (counter_ok 2) (Bimodal.m_table t)).
  { destruct (negb _ && negb _); [|exists (m_bimodal_table p); by destruct Hp]. unfold Bimodal.update. rewrite Hc.
    cbn [res_bind]. rewrite wr_lt by lia. cbn [res_bind]. eexists. split; [done|]. split; [apply Hp|].
    split; [simpl; by rewrite length_insert|]. apply Forall_insert; [done|]. apply counter_update.
    by apply (Forall_lookup_1 _ _ _ _ Hall Hcl). }
  destruct Hbim as (t & Ht & Hmask & Htab). unfold update. rewrite Hb. cbn [res_bind]. rewrite Hl. cbn [res_bind].
  rewrite Ht, Hbm. cbn [res_bind]. set (hit := if m_last_lpb_hit p then _ else _).
  assert (Hh : ∃ h, hit = Ok h) by (unfold hit; destruct (m_last_lpb_hit p); by eexists). destruct Hh as [h ->]. cbn [res_bind].
  set (gr := if m_last_gp_hit p then _ else _).
  assert (Hg : ∃ g, gr = Ok g ∧ global_ok g).
  { pose proof (pm_global p Hp). unfold gr. rewrite Hg1, Hg2.
    destruct (m_last_gp_hit p); [destruct (negb _ && h)|destruct (negb _ && (false || negb h))]; eauto. }
  destruct Hg as (g & -> & Hgok). cbn [res_bind]. eexists. split; [done|]. split.
  - constructor; try done. apply pir_range, Hp.
  - simpl. by destruct (Bool.eqb predicted actual).
Qed.

Definition num (b : bool) (l : list bool) : Z := Z.of_nat (count_occ bool_eq_dec l b).
Lemma num_cons b x l : num b (x :: l) = (if Bool.eqb x b then 1 else 0) + num b l.
Proof. unfold num. simpl. destruct (bool_eq_dec x b), x, b; simpl; try done; lia. Qed.
Lemma run_branches_ok l p : pm_ok p →
  ∃ rs p', run_branches l p = Ok (rs, p') ∧ pm_ok p' ∧ length rs = length l ∧
    u64 (m_correct_predictions p') = u64 (m_correct_predictions p + num false rs) ∧
    u64 (m_incorrect_predictions p') = u64 (m_incorrect_predictions p + num true rs).
Proof.
  revert p. induction l as [|[ip actual] l IH]; intros p Hp.
  { exists [], p. unfold num. simpl. by rewrite !Z.add_0_r. }
  cbn [run_branches]. unfold branch. destruct (predict_ok ip p Hp) as (b & p1 & bm & -> & Hp1 & Hbm & Hc1 & Hi1).
  cbn [res_bind fst snd]. destruct (bp_update_ok b actual ip p1 bm Hp1 Hbm) as (p2 & -> & Hp2 & Hcnt). cbn [res_bind fst snd].
  destruct (IH p2 Hp2) as (rs & p3 & -> & Hp3 & Hlen & Hc & Hi). cbn [res_bind fst snd].
  exists (negb (Bool.eqb b actual) :: rs), p3. split; [done|]. split; [done|]. split; [simpl; lia|].
  rewrite !num_cons, Hc, Hi. rewrite <- Hc1, <- Hi1. unfold u64 in *.
  destruct (Bool.eqb b actual), Hcnt as [-> ->]; simpl; rewrite ?Zplus_mod_idemp_l; split; f_equal; lia.
Qed.

(** * Properties *)

(** C35: the Pentium M predictor never reads or writes outside its tables and
    never uses an outcome that is not there: from the start, any sequence of
    branches runs, its tables keep their shape, its saturating counters and the
    path history their width, and the two statistics count the branches that
    were predicted and mispredicted. *)
Theorem pentium_m_runs (l : list (Z * bool)) :
  ∃ rs p, run_branches l PentiumM.new = Ok (rs, p) ∧ pm_ok p ∧ length rs = length l ∧
    u64 (m_correct_predictions p) = u64 (num false rs) ∧ u64 (m_incorrect_predictions p) = u64 (num true rs).
Proof. apply (run_branches_ok l PentiumM.new new_ok). Qed.

(** ** Loops *)
Fixpoint loop_run (ip : Z) (l : list bool) (p : Loop.t) : res (list ReturnValue * Loop.t) :=
  match l with
  | [] => Ok ([], p)
  | actual :: l =>
      let? r := Loop.lookup ip p in
      let? p := Loop.update actual ip r.2 in
      let? rs := loop_run ip l p in
      Ok (r.1 :: rs.1, rs.2)
  end.
Lemma loop_run_app ip l1 l2 p rs1 p1 : loop_run ip l1 p = Ok (rs1, p1) →
  loop_run ip (l1 ++ l2) p = let? r := loop_run ip l2 p1 in Ok (rs1 ++ r.1, r.2).
Proof.
  revert p rs1. induction l1 as [|a l1 IH]; intros p rs1; simpl.
  - intros [= <- <-]. by destruct (loop_run ip l2 p) as [[? ?]|].
  - intros (r & -> & He)%res_bind_Ok. cbn [res_bind]. apply res_bind_Ok in He as (p' & -> & He). cbn [res_bind].
    apply res_bind_Ok in He as ([rs p''] & Hrs & [= <- <-]). rewrite (IH p' rs Hrs). simpl.
    by destruct (loop_run ip l2 p'') as [[? ?]|].
Qed.

(** The entry of a branch. *)
Definition has (ip : Z) (l : Loop.t) (e : Loop.entry) : Prop :=
  loop_ok l ∧ ∃ w, first_match (loop_tag ip) (Loop.m_ways l) (Loop.gen_index ip) (Some (w, e)).
Lemma update_set_lru a x y e : Loop.entry_update a y (Loop.set_lru x e) = Loop.entry_update a y e.
Proof. by destruct e. Qed.
Lemma loop_step ip a l e : has ip l e →
  ∃ r l' y, (let? r := Loop.lookup ip l in let? p := Loop.update a ip r.2 in Ok (r.1, p)) = Ok (r, l') ∧
    has ip l' (Loop.entry_update a y e) ∧
    (Loop.m_enabled e = true → r = mkReturnValue (Loop.entry_prediction e) true).
Proof.
  intros [Hok [w Hf]]. destruct (loop_lookup_ok ip l Hok) as (r & l1 & -> & Hok1 & Haged & Hr). cbn [res_bind fst snd].
  destruct (aged_match ip l l1 _ Haged Hf) as [x Hf1].
  destruct (loop_update_ok a ip l1 Hok1) as (l2 & w' & e' & -> & Hok2 & Hf2 & Hc). cbn [res_bind].
  assert (He : e' = Loop.entry_update a (Loop.m_lru_use_count l1) e).
  { destruct Hc as [(e0 & Hf0 & ->)|[Hn _]].
    - pose proof (first_match_det _ _ _ _ _ Hf0 Hf1) as [= -> ->]. apply update_set_lru.
    - by pose proof (first_match_det _ _ _ _ _ Hn Hf1). }
  exists r, l2, (Loop.m_lru_use_count l1). split; [done|]. split; [split; [done|exists w'; by rewrite <- He]|].
  intros Hen. by apply (Hr w).
Qed.

(** A loop of [k] branches in direction [d] and one in the other. *)
Definition round (k : nat) (d : bool) : list bool := replicate k d ++ [negb d].
Record learning (d : bool) (j : Z) (e : Loop.entry) : Prop := {
  lg_pred : Loop.m_predictor e = Saturating.reset 1 d;
  lg_prev : Loop.m_previous_actual e = d;
  lg_off : Loop.m_enabled e = false;
  lg_count : Loop.m_count e = j;
  lg_limit : Loop.m_limit e = j
}.
Record learned (d : bool) (k j : Z) (e : Loop.entry) : Prop := {
  ld_pred : Loop.m_predictor e = Saturating.reset 1 d;
  ld_on : Loop.m_enabled e = true;
  ld_limit : Loop.m_limit e = k;
  ld_count : Loop.m_count e = j;
  ld_prev : 0 < j → Loop.m_previous_actual e = d
}.

Lemma learning_on d j y e : 0 < j < 2 ^ 32 - 1 → learning d j e → learning d (j + 1) (Loop.entry_update d y e).
Proof.
  intros Hj [Hp Hv Ho Hc Hl]. destruct e as [tag prev en pred lru c l]. simpl in *. subst.
  unfold Loop.entry_update, Loop.same_direction, Loop.prediction_match. simpl. rewrite reset_decides, Z.eqb_refl.
  assert (Bool.eqb d (negb d) = false) as -> by (by destruct d). rewrite !andb_false_r, Bool.eqb_reflx. simpl.
  rewrite Z.ltb_irrefl, u32_id by (unfold in_u32; lia). by constructor.
Qed.
Lemma learning_done d j y e : 0 < j → learning d j e → learned d j 0 (Loop.entry_update (negb d) y e).
Proof.
  intros Hj [Hp Hv Ho Hc Hl]. destruct e as [tag prev en pred lru c l]. simpl in *. subst.
  unfold Loop.entry_update. simpl. rewrite reset_decides, Bool.eqb_reflx.
  assert (Bool.eqb d (negb d) = false) as -> by (by destruct d). simpl. constructor; simpl; done || lia.
Qed.
Lemma learned_on d k j y e : 0 ≤ j < k → k < 2 ^ 32 → learned d k j e →
  Loop.entry_prediction e = d ∧ learned d k (j + 1) (Loop.entry_update d y e).
Proof.
  intros Hj Hk [Hp Ho Hl Hc Hv]. destruct e as [tag prev en pred lru c l]. simpl in *. subst.
  unfold Loop.entry_prediction, Loop.entry_update, Loop.same_direction, Loop.prediction_match. simpl.
  rewrite reset_decides, (proj2 (Z.eqb_neq j k)) by lia. split; [done|].
  assert (Bool.eqb d (negb d) = false) as -> by (by destruct d). rewrite !andb_false_r, Bool.eqb_reflx. simpl.
  rewrite u32_id by (unfold in_u32; lia). by constructor.
Qed.
Lemma learned_exit d k y e : 0 < k → learned d k k e →
  Loop.entry_prediction e = negb d ∧ learned d k 0 (Loop.entry_update (negb d) y e).
Proof.
  intros Hk [Hp Ho Hl Hc Hv]. specialize (Hv Hk). destruct e as [tag prev en pred lru c l]. simpl in *. subst.
  unfold Loop.entry_prediction, Loop.entry_update, Loop.same_direction, Loop.prediction_match. simpl.
  rewrite reset_decides, Z.eqb_refl. split; [done|]. rewrite Bool.eqb_reflx.
  assert (Bool.eqb d (negb d) = false) as -> by (by destruct d). simpl. constructor; simpl; done || lia.
Qed.

(** The runs of the four steps. *)
Lemma run_cons ip a l p r p1 : 
  (let? r := Loop.lookup ip p in let? p := Loop.update a ip r.2 in Ok (r.1, p)) = Ok (r, p1) →
  loop_run ip (a :: l) p = let? rs := loop_run ip l p1 in Ok (r :: rs.1, rs.2).
Proof.
  intros (x & Hx & He)%res_bind_Ok. apply res_bind_Ok in He as (p' & Hu & [= <- <-]).
  cbn [loop_run]. rewrite Hx. cbn [res_bind]. by rewrite Hu.
Qed.
Lemma learning_run ip d k j p e : 0 < j → j + Z.of_nat k < 2 ^ 32 → has ip p e → learning d j e →
  ∃ rs p' e', loop_run ip (round k d) p = Ok (rs, p') ∧ length rs = S k ∧ has ip p' e' ∧ learned d (j + Z.of_nat k) 0 e'.
Proof.
  revert j p e. induction k as [|k IH]; intros j p e Hj Hk Hh Hl.
  - destruct (loop_step ip (negb d) p e Hh) as (r & p' & y & Hs & Hh' & _). cbn [round replicate app].
    rewrite (run_cons _ _ _ _ _ _ Hs). cbn [loop_run res_bind fst snd]. do 3 eexists. split; [done|]. split; [done|].
    split; [done|]. rewrite Z.add_0_r. by apply learning_done.
  - destruct (loop_step ip d p e Hh) as (r & p' & y & Hs & Hh' & _).
    change (round (S k) d) with (d :: round k d). rewrite (run_cons _ _ _ _ _ _ Hs).
    destruct (IH (j + 1) p' (Loop.entry_update d y e)) as (rs & p2 & e2 & -> & Hlen & Hh2 & Hl2);
      [lia|lia|done|apply learning_on; [lia|done]|].
    cbn [res_bind fst snd]. exists (r :: rs), p2, e2. split; [done|]. split; [simpl; lia|]. split; [done|].
    by replace (j + Z.of_nat (S k)) with (j + 1 + Z.of_nat k) by lia.
Qed.
Lemma learned_run ip d k j p e : 0 ≤ j → 0 < j + Z.of_nat k < 2 ^ 32 → has ip p e → learned d (j + Z.of_nat k) j e →
  ∃ p' e', loop_run ip (round k d) p = Ok ((λ a, mkReturnValue a true) <$> round k d, p') ∧
           has ip p' e' ∧ learned d (j + Z.of_nat k) 0 e'.
Proof.
  revert j p e. induction k as [|k IH]; intros j p e Hj Hk Hh Hl.
  - destruct (loop_step ip (negb d) p e Hh) as (r & p' & y & Hs & Hh' & Hr). rewrite Z.add_0_r in *.
    destruct (learned_exit d j y e ltac:(lia) Hl) as [Hpred Hl']. cbn [round replicate app].
    rewrite (run_cons _ _ _ _ _ _ Hs), (Hr (ld_on _ _ _ _ Hl)), Hpred. cbn [loop_run res_bind fst snd].
    by do 2 eexists.
  - destruct (loop_step ip d p e Hh) as (r & p' & y & Hs & Hh' & Hr).
    destruct (learned_on d (j + Z.of_nat (S k)) j y e ltac:(lia) ltac:(lia) Hl) as [Hpred Hl'].
    change (round (S k) d) with (d :: round k d). rewrite (run_cons _ _ _ _ _ _ Hs), (Hr (ld_on _ _ _ _ Hl)), Hpred.
    replace (j + Z.of_nat (S k)) with (j + 1 + Z.of_nat k) in * by lia.
    destruct (IH (j + 1) p' _ ltac:(lia) ltac:(lia) Hh' Hl') as (p2 & e2 & -> & Hh2 & Hl2). cbn [res_bind fst snd].
    by exists p2, e2.
Qed.
Lemma learned_rounds ip d k n p e : (0 < k)%nat → Z.of_nat k < 2 ^ 32 → has ip p e → learned d (Z.of_nat k) 0 e →
  ∃ p', loop_run ip (concat (replicate n (round k d))) p
        = Ok ((λ a, mkReturnValue a true) <$> concat (replicate n (round k d)), p').
Proof.
  intros Hk Hk'. revert p e. induction n as [|n IH]; intros p e Hh Hl; simpl; [by eexists|].
  destruct (learned_run ip d k 0 p e) as (p1 & e1 & Hr & Hh1 & Hl1); [lia|lia|done|done|].
  rewrite (loop_run_app ip _ _ p _ _ Hr). destruct (IH p1 e1 Hh1 Hl1) as [p2 ->]. cbn [res_bind fst snd].
  exists p2. by rewrite fmap_app.
Qed.

(** C34: the loop predictor learns a loop in one round.  A branch that it does not
    know yet goes [k] times in one direction and once in the other, over and
    over.  After the first round every lookup hits, and predicts every branch of
    every further round, the exits included, whatever the length of the loop.
    The entry must not be enabled when the branch takes it over. *)
Theorem loop_predictor_learns_loop ip d k n (p : Loop.t) :
  table_ok 2 64 (λ e, counter_ok 1 (Loop.m_predictor e)) (Loop.m_ways p) →
  first_match (λ e, Loop.m_tag e =? Loop.gen_tag ip) (Loop.m_ways p) (Loop.gen_index ip) None →
  (∀ w e, entry_at (Loop.m_ways p) w (Loop.gen_index ip) = Some e → Loop.m_enabled e = false) →
  (0 < k)%nat → Z.of_nat k < 2 ^ 32 - 1 →
  ∃ rs p', loop_run ip (round k d ++ concat (replicate n (round k d))) p
    = Ok (rs ++ ((λ a, mkReturnValue a true) <$> concat (replicate n (round k d))), p') ∧ length rs = S k.
Proof.
  intros Hok Hnone Hoff Hk Hk'. destruct k as [|k]; [lia|]. change (round (S k) d) with (d :: round k d) at 1.
  destruct (loop_lookup_ok ip p Hok) as (r & p1 & Hl & Hok1 & Haged & _).
  pose proof (aged_match ip p p1 None Haged Hnone) as Hnone1.
  destruct (loop_update_ok d ip p1 Hok1) as (p2 & w & e2 & Hu & Hok2 & Hf2 & Hc).
  assert (Hlg : learning d 1 e2).
  { destruct Hc as [(e0 & Hf0 & _)|(_ & e0 & He0 & ->)]; [by pose proof (first_match_det _ _ _ _ _ Hf0 Hnone1)|].
    destruct (Haged w) as [x Hx]. rewrite He0 in Hx. symmetry in Hx. apply fmap_Some in Hx as (e & He & ->).
    constructor; try done. simpl. by apply (Hoff w). }
  destruct (learning_run ip d k 1 p2 e2 ltac:(lia) ltac:(lia) (conj Hok2 (ex_intro _ w Hf2)) Hlg)
    as (rs & p3 & e3 & Hr & Hlen & Hh3 & Hl3).
  replace (1 + Z.of_nat k) with (Z.of_nat (S k)) in Hl3 by lia.
  destruct (learned_rounds ip d (S k) n p3 e3 Hk ltac:(lia) Hh3 Hl3) as [p4 Hn].
  exists (r :: rs), p4. split; [|simpl; lia]. rewrite <- app_comm_cons.
  rewrite (run_cons ip d _ p r p2) by (rewrite Hl; cbn [res_bind fst snd]; by rewrite Hu).
  rewrite (loop_run_app ip _ _ p2 rs p3 Hr), Hn. done.
Qed.

Definition example_ip (tag : Z) : Z := tag * 1024 + 16.
Lemma replicate_entry {E} nw n (e0 e : E) w i : entry_at (replicate nw (replicate n e0)) w i = Some e → e = e0.
Proof. unfold entry_at. intros (way & [-> _]%lookup_replicate & [-> _]%lookup_replicate)%bind_Some. done. Qed.
Lemma loop_predictor_learns_loop_witness :
  ∃ rs p', loop_run (example_ip 1) (round 3 true ++ concat (replicate 2 (round 3 true))) (Loop.new 128 2)
    = Ok (rs ++ ((λ a, mkReturnValue a true) <$> [true; true; true; false; true; true; true; false]), p') ∧ length rs = 4%nat.
Proof.
  apply (loop_predictor_learns_loop (example_ip 1) true 3 2 (Loop.new 128 2)).
  - by apply replicate_table.
  - intros w e He. by apply replicate_entry in He as ->.
  - intros w e He. by apply replicate_entry in He as ->.
  - lia.
  - done.
Defined.

(** An entry that is taken over stays enabled: when two loops have been learned in
    the two ways of a set, a third branch that was taken once is predicted not
    taken at its second execution. *)
Lemma stale_entry_predicts :
  match (let? r := loop_run (example_ip 1) (round 3 true) (Loop.new 128 2) in
         let? r := loop_run (example_ip 2) (round 3 true) r.2 in
         loop_run (example_ip 3) [true; true] r.2) with
  | Ok (rs, _) => rs = [mkReturnValue false false; mkReturnValue false true]
  | Err _ => False
  end.
Proof. vm_compute. reflexivity. Qed.
