(* ===== verification/CircularQueue.v ===== *)
(** The circular queue of src/common/misc/circular_queue.h, which holds the stores
    in flight of the core models.  It refines a bounded list. *)
From S2P Require Import Prelude.
Local Open Scope Z_scope.

(** * CircularQueue *)
Module Queue.
Record t (A : Type) : Type := mk { m_size : Z; m_first : Z; m_last : Z; m_queue : list A }.
Arguments mk {A} _ _ _ _.
Arguments m_size {A} _.
Arguments m_first {A} _.
Arguments m_last {A} _.
Arguments m_queue {A} _.

Section Ops.
Context {A : Type}.
Implicit Types (q : t A).

(** [init] is what [new T[m_size]] leaves in the slots. *)
Definition new (size : Z) (init : A) : t A :=
  let m := u32 (size + 1) in mk m 0 0 (replicate (Z.to_nat m) init).
Definition full q : bool := u32 (m_first q + 1) mod m_size q =? m_last q.
Definition empty q : bool := m_first q =? m_last q.
Definition size q : Z := u32 (m_first q + m_size q - m_last q) mod m_size q.
Definition slot (i : Z) q : res A := rd (m_queue q) (Z.to_nat i).
Definition put_first q (l : list A) : t A := mk (m_size q) (u32 (m_first q + 1) mod m_size q) (m_last q) l.

Definition push (x : A) q : res (t A) :=
  c_assert (negb (full q));?
  let? l := wr (m_queue q) (Z.to_nat (m_first q)) x in
  Ok (put_first q l).
(** The slot that is handed out keeps what it held. *)
Definition next : st (t A) A := λ q,
  c_assert (negb (full q));?
  let? x := slot (m_first q) q in
  Ok (x, put_first q (m_queue q)).
Definition pop : st (t A) A := λ q,
  c_assert (negb (empty q));?
  let? x := slot (m_last q) q in
  Ok (x, mk (m_size q) (m_first q) (u32 (m_last q + 1) mod m_size q) (m_queue q)).
Definition pushCircular (x : A) q : res (t A) :=
  let? q := (if full q then let? r := pop q in Ok r.2 else Ok q) in
  push x q.
Definition front q : res A := c_assert (negb (empty q));? slot (m_last q) q.
Definition back q : res A :=
  c_assert (negb (empty q));? slot (u32 (m_first q + m_size q - 1) mod m_size q) q.
Definition at_ (idx : Z) q : res A :=
  c_assert (idx <? size q);? slot (u32 (m_last q + idx) mod m_size q) q.
End Ops.
End Queue.

(** * The queue is a bounded list *)
Import Queue.
Section List_.
Context {A : Type}.
Implicit Types (q : Queue.t A) (l : list A).

Record queue_of q l : Prop := {
  qo_size : 0 < m_size q < 2 ^ 31;
  qo_slots : Z.of_nat (length (m_queue q)) = m_size q;
  qo_last : 0 ≤ m_last q < m_size q;
  qo_length : Z.of_nat (length l) < m_size q;
  qo_first : m_first q = (m_last q + Z.of_nat (length l)) mod m_size q;
  qo_items k x : l !! k = Some x → m_queue q !! Z.to_nat ((m_last q + Z.of_nat k) mod m_size q) = Some x
}.

Lemma new_queue n (x : A) : 0 ≤ n < 2 ^ 31 - 1 → queue_of (new n x) [].
Proof.
  intros Hn. unfold new. rewrite u32_id by (unfold in_u32; lia). constructor; simpl; try lia.
  - rewrite length_replicate. lia.
  - rewrite Z.mod_0_l; lia.
  - intros k y. by rewrite lookup_nil.
Qed.
(** Two places less than a round apart. *)
Lemma mod_diff n a k : 0 < n → 0 ≤ a < n → 0 ≤ k < n → (a + k) mod n = if a + k <? n then a + k else a + k - n.
Proof.
  intros Hn Ha Hk. destruct (Z.ltb_spec (a + k) n); [by apply Z.mod_small; lia|].
  replace ((a + k) mod n) with ((a + k - n + 1 * n) mod n) by (f_equal; lia). rewrite Z.mod_add by lia.
  apply Z.mod_small. lia.
Qed.
Section Facts.
Context (q : Queue.t A) (l : list A) (Hq : queue_of q l).

Lemma first_range : 0 ≤ m_first q < m_size q.
Proof. rewrite (qo_first _ _ Hq). apply Z.mod_pos_bound. apply Hq. Qed.
Lemma u32_near x : 0 ≤ x < 2 * m_size q → u32 x = x.
Proof. intros Hx. apply u32_id. pose proof (qo_size _ _ Hq). unfold in_u32. lia. Qed.
Lemma size_spec : size q = Z.of_nat (length l).
Proof.
  pose proof first_range. destruct Hq as [Hs _ Hl Hn Hf _]. unfold size. rewrite u32_near by lia. rewrite Hf.
  rewrite mod_diff by lia. destruct (Z.ltb_spec (m_last q + Z.of_nat (length l)) (m_size q)).
  - replace (m_last q + Z.of_nat (length l) + m_size q - m_last q) with (Z.of_nat (length l) + 1 * m_size q) by lia.
    rewrite Z.mod_add by lia. apply Z.mod_small. lia.
  - replace (m_last q + Z.of_nat (length l) - m_size q + m_size q - m_last q) with (Z.of_nat (length l)) by lia.
    apply Z.mod_small. lia.
Qed.
Lemma empty_spec : empty q = bool_decide (l = []).
Proof.
  destruct Hq as [Hs _ Hl Hn Hf _]. unfold empty. rewrite Hf, mod_diff by lia.
  destruct l as [|x l']; cbn [length] in *; [rewrite bool_decide_true by done|rewrite bool_decide_false by done].
  - rewrite (proj2 (Z.ltb_lt _ _)) by lia. apply Z.eqb_eq. lia.
  - apply Z.eqb_neq. destruct (Z.ltb_spec (m_last q + Z.of_nat (S (length l'))) (m_size q)); lia.
Qed.
Lemma next_place : u32 (m_first q + 1) mod m_size q = (m_last q + Z.of_nat (length l) + 1) mod m_size q.
Proof. pose proof first_range. destruct Hq as [Hs _ _ _ Hf _]. rewrite u32_near by lia. by rewrite Hf, Zplus_mod_idemp_l. Qed.
Lemma full_spec : full q = (Z.of_nat (length l) =? m_size q - 1).
Proof.
  unfold full. rewrite next_place. destruct Hq as [Hs _ Hl Hn Hf _]. destruct (Z.eqb_spec (Z.of_nat (length l)) (m_size q - 1)) as [He|He].
  - apply Z.eqb_eq. replace (m_last q + Z.of_nat (length l) + 1) with (m_last q + 1 * m_size q) by lia.
    rewrite Z.mod_add by lia. by apply Z.mod_small.
  - apply Z.eqb_neq. rewrite <- Z.add_assoc, mod_diff by lia.
    destruct (Z.ltb_spec (m_last q + (Z.of_nat (length l) + 1)) (m_size q)); lia.
Qed.
Lemma slot_spec k x : l !! k = Some x → slot ((m_last q + Z.of_nat k) mod m_size q) q = Ok x.
Proof. intros Hk. apply rd_Ok. by apply Hq. Qed.
Lemma at_spec k x : l !! k = Some x → at_ (Z.of_nat k) q = Ok x.
Proof.
  intros Hk. unfold at_. rewrite size_spec. pose proof (lookup_lt_Some _ _ _ Hk). destruct Hq as [Hs _ Hl Hn _ _].
  rewrite (proj2 (Z.ltb_lt _ _)), u32_near by lia. cbn [c_assert res_bind]. by apply slot_spec.
Qed.
Lemma front_spec x l' : l = x :: l' → slot (m_last q) q = Ok x ∧ empty q = false.
Proof.
  intros Hl. rewrite empty_spec, bool_decide_false by (by rewrite Hl). split; [|done].
  assert (H0 : l !! 0%nat = Some x) by (by rewrite Hl). apply slot_spec in H0. rewrite Z.add_0_r in H0.
  rewrite Z.mod_small in H0; [done|apply Hq].
Qed.
Lemma back_spec x l' : l = l' ++ [x] → back q = Ok x.
Proof.
  intros Hl. unfold back. rewrite empty_spec, bool_decide_false by (by destruct l'; subst). cbn [negb c_assert res_bind].
  pose proof first_range as Hfr. pose proof (qo_size _ _ Hq) as Hs.
  assert (Hlen : length l = S (length l')) by (rewrite Hl, length_app; simpl; lia).
  rewrite u32_near by lia. rewrite (qo_first _ _ Hq). replace (m_first q + m_size q - 1) with (m_first q + (m_size q - 1)) by lia.
  rewrite Hlen. replace ((m_last q + Z.of_nat (S (length l'))) mod m_size q + m_size q - 1) with
    ((m_last q + Z.of_nat (S (length l'))) mod m_size q + (m_size q - 1)) by lia. rewrite Zplus_mod_idemp_l.
  replace (m_last q + Z.of_nat (S (length l')) + (m_size q - 1)) with (m_last q + Z.of_nat (length l') + 1 * m_size q) by lia.
  rewrite Z.mod_add by lia. apply slot_spec. rewrite Hl. by apply list_lookup_middle.
Qed.
Lemma push_spec x : Z.of_nat (length l) < m_size q - 1 → ∃ q', push x q = Ok q' ∧ queue_of q' (l ++ [x]) ∧ m_size q' = m_size q.
Proof.
  intros Hlen. unfold push. rewrite full_spec, (proj2 (Z.eqb_neq _ _)) by lia. cbn [negb c_assert res_bind].
  pose proof first_range as Hfr. rewrite wr_lt by (destruct Hq; lia). cbn [res_bind]. eexists. split; [done|]. split; [|done].
  unfold put_first. pose proof next_place as Hnp. destruct Hq as [Hs Hsl Hl Hn Hf Hit].
  constructor; simpl; try done.
  - by rewrite length_insert.
  - rewrite length_app. simpl. lia.
  - rewrite Hnp, length_app. simpl. f_equal. lia.
  - intros k y Hk. apply lookup_app_Some in Hk as [Hk|[Hge Hk]].
    + rewrite list_lookup_insert_ne; [by apply Hit|]. apply lookup_lt_Some in Hk. rewrite Hf, !mod_diff by lia.
      repeat case_match; lia.
    + apply list_lookup_singleton_Some in Hk as [He ->]. replace k with (length l) by lia. rewrite <- Hf.
      apply list_lookup_insert_eq. lia.
Qed.
Lemma push_full x : Z.of_nat (length l) = m_size q - 1 → push x q = Err ErrAssert.
Proof. intros Hl. unfold push. by rewrite full_spec, (proj2 (Z.eqb_eq _ _) Hl). Qed.
Lemma pop_spec x l' : l = x :: l' → ∃ q', pop q = Ok (x, q') ∧ queue_of q' l' ∧ m_size q' = m_size q.
Proof.
  intros Hl. destruct (front_spec x l' Hl) as [Hfr He]. unfold pop. rewrite He. cbn [negb c_assert res_bind].
  rewrite Hfr. cbn [res_bind]. eexists. split; [done|]. split; [|done].
  assert (Hlen : length l = S (length l')) by (by rewrite Hl).
  pose proof (qo_last _ _ Hq) as Hla. rewrite (u32_near (m_last q + 1)) by lia. destruct Hq as [Hs Hsl _ Hn Hf Hit].
  constructor; simpl; try done.
  - apply Z.mod_pos_bound. lia.
  - lia.
  - rewrite Hf, Zplus_mod_idemp_l. f_equal. lia.
  - intros k y Hk. rewrite Zplus_mod_idemp_l. rewrite <- (Hit (S k) y) by (by rewrite Hl). do 3 f_equal. lia.
Qed.
End Facts.
End List_.

(** The operations, on a queue and on a list of at most [cap] elements. *)
Inductive queue_op (A : Type) : Type :=
| Push (x : A) | PushCircular (x : A) | Pop | Front | Back | At (i : nat).
Arguments Push {A} x.
Arguments PushCircular {A} x.
Arguments Pop {A}.
Arguments Front {A}.
Arguments Back {A}.
Arguments At {A} i.

Section Refinement.
Context {A : Type}.
Implicit Types (q : Queue.t A) (l : list A) (o : queue_op A).

Definition queue_step o q : res (option A * Queue.t A) :=
  match o with
  | Push x => let? q := push x q in Ok (None, q)
  | PushCircular x => let? q := pushCircular x q in Ok (None, q)
  | Pop => let? r := pop q in Ok (Some r.1, r.2)
  | Front => let? x := front q in Ok (Some x, q)
  | Back => let? x := back q in Ok (Some x, q)
  | At i => let? x := at_ (Z.of_nat i) q in Ok (Some x, q)
  end.
Definition of_option (l : list A) (x : option A) : res (option A * list A) :=
  match x with Some x => Ok (Some x, l) | None => Err ErrAssert end.
Definition list_step (cap : nat) o l : res (option A * list A) :=
  match o with
  | Push x => if decide (length l < cap)%nat then Ok (None, l ++ [x]) else Err ErrAssert
  | PushCircular x =>
      if decide (length l < cap)%nat then Ok (None, l ++ [x])
      else match l with [] => Err ErrAssert | _ :: l => Ok (None, l ++ [x]) end
  | Pop => match l with [] => Err ErrAssert | x :: l => Ok (Some x, l) end
  | Front => of_option l (head l)
  | Back => of_option l (last l)
  | At i => of_option l (l !! i)
  end.
Fixpoint run {S} (step : queue_op A → S → res (option A * S)) (os : list (queue_op A)) (s : S) : res (list (option A) * S) :=
  match os with
  | [] => Ok ([], s)
  | o :: os => let? r := step o s in let? rs := run step os r.2 in Ok (r.1 :: rs.1, rs.2)
  end.

Definition agree (cap : nat) (x : res (option A * Queue.t A)) (y : res (option A * list A)) : Prop :=
  match x, y with
  | Ok (r, q), Ok (r', l) => r = r' ∧ queue_of q l ∧ m_size q = Z.of_nat cap + 1
  | Err e, Err e' => e = e'
  | _, _ => False
  end.
Lemma queue_step_refines cap q l o :
  queue_of q l → m_size q = Z.of_nat cap + 1 → agree cap (queue_step o q) (list_step cap o l).
Proof.
  intros Hq Hcap. pose proof (qo_length _ _ Hq) as Hlen. destruct o as [x|x| | | |i]; simpl.
  - destruct (decide (length l < cap)%nat).
    + destruct (push_spec q l Hq x) as (q' & -> & Hq' & Hs); [lia|]. simpl. by rewrite Hs.
    + by rewrite (push_full q l Hq x) by lia.
  - unfold pushCircular. rewrite (full_spec q l Hq). destruct (decide (length l < cap)%nat).
    + rewrite (proj2 (Z.eqb_neq _ _)) by lia. cbn [res_bind].
      destruct (push_spec q l Hq x) as (q' & -> & Hq' & Hs); [lia|]. simpl. by rewrite Hs.
    + rewrite (proj2 (Z.eqb_eq _ _)) by lia. destruct l as [|y l].
      { unfold pop. rewrite (empty_spec q [] Hq). done. }
      destruct (pop_spec q (y :: l) Hq y l eq_refl) as (q1 & -> & Hq1 & Hs1). cbn [res_bind fst snd]. simpl in Hlen.
      destruct (push_spec q1 l Hq1 x) as (q2 & -> & Hq2 & Hs2); [lia|]. simpl. split; [done|]. split; [done|lia].
  - destruct l as [|y l]; [unfold pop; by rewrite (empty_spec q [] Hq)|].
    destruct (pop_spec q (y :: l) Hq y l eq_refl) as (q1 & -> & Hq1 & Hs1). simpl. by rewrite Hs1.
  - unfold front. destruct l as [|y l]; [by rewrite (empty_spec q [] Hq)|].
    destruct (front_spec q (y :: l) Hq y l eq_refl) as [Hsl ->]. cbn. by rewrite Hsl.
  - destruct l as [|y l _] using rev_ind; [unfold back; by rewrite (empty_spec q [] Hq)|].
    rewrite (back_spec q _ Hq y l eq_refl), last_snoc. done.
  - destruct (l !! i) as [x|] eqn:Hx; [by rewrite (at_spec q l Hq i x Hx)|]. unfold at_. rewrite (size_spec q l Hq).
    apply lookup_ge_None in Hx. by rewrite (proj2 (Z.ltb_ge _ _)) by lia.
Qed.

(** The results of two runs. *)
Definition same_results {S T} (x : res (list (option A) * S)) (y : res (list (option A) * T)) : Prop :=
  match x, y with
  | Ok (rs, _), Ok (rs', _) => rs = rs'
  | Err e, Err e' => e = e'
  | _, _ => False
  end.
Lemma queue_run_refines cap os q l :
  queue_of q l → m_size q = Z.of_nat cap + 1 → same_results (run queue_step os q) (run (list_step cap) os l).
Proof.
  revert q l. induction os as [|o os IH]; intros q l Hq Hs; [done|]. cbn [run].
  pose proof (queue_step_refines cap q l o Hq Hs) as Ha. unfold agree in Ha.
  destruct (queue_step o q) as [[r q']|e], (list_step cap o l) as [[r' l']|e']; cbn [res_bind fst snd]; [|done..|by subst].
  destruct Ha as (<- & Hq' & Hs'). specialize (IH q' l' Hq' Hs'). unfold same_results in IH.
  destruct (run queue_step os q') as [[rs q2]|e], (run (list_step cap) os l') as [[rs' l2]|e'];
    cbn [res_bind fst snd same_results]; [by rewrite IH|done..].
Qed.

(** C33: the circular queue refines a bounded list.  Any sequence of pushes,
    circular pushes, pops, reads of both ends and indexed reads on a new queue
    returns what the list of its elements returns, and stops exactly where the
    list is full, empty or too short; the slots and the two indices that wrap
    around are not visible. *)
Theorem circular_queue_refines_list (cap : nat) (init : A) (os : list (queue_op A)) :
  Z.of_nat cap < 2 ^ 31 - 1 →
  same_results (run queue_step os (Queue.new (Z.of_nat cap) init)) (run (list_step cap) os []).
Proof.
  intros Hcap. apply queue_run_refines; [apply new_queue; lia|]. simpl. rewrite u32_id; [done|]. unfold in_u32. lia.
Qed.
End Refinement.

Lemma circular_queue_refines_list_witness :
  same_results (run queue_step [Push 1; Push 2; Pop; Push 3; PushCircular 4; Back; At 1] (Queue.new 2 0))
    (Ok ([None; None; Some 1; None; None; Some 4; Some 4], [3; 4])).
Proof. exact (circular_queue_refines_list 2 0 [Push 1; Push 2; Pop; Push 3; PushCircular 4; Back; At 1] ltac:(lia)). Defined.
