(* ===== verification/Dependencies.v ===== *)
(** Dependencies between micro-operations
    (src/common/performance_model/performance_models/micro_op): the trackers of the
    register and of the memory dependencies, and the list of dependencies of a
    dynamic micro-operation.  The theorems compare what the trackers remember with
    the history of all the operations that went through them. *)
From stdpp Require Import sorting.
From S2P Require Import Prelude CircularQueue.
Import Queue.
Local Open Scope Z_scope.

Definition INVALID_SEQNR : Z := 2 ^ 64 - 1.
Definition MAXIMUM_NUMBER_OF_DEPENDENCIES : nat := 14.

(** * MicroOp and DynamicMicroOp, as far as the trackers look at them *)
Inductive uop_type_t : Type := UOP_INVALID | UOP_LOAD | UOP_EXECUTE | UOP_STORE.
Record MicroOp : Type := mkMicroOp {
  uop_type : uop_type_t;
  m_membar : bool;
  sourceRegisters : list Z;
  destinationRegisters : list Z;
  sequenceNumber : Z;
  phys : Z
}.
Definition isLoad (u : MicroOp) : bool := match uop_type u with UOP_LOAD => true | _ => false end.
Definition isStore (u : MicroOp) : bool := match uop_type u with UOP_STORE => true | _ => false end.

(** The dependencies of an operation, without duplicates. *)
Definition addDependency (seqnr : Z) (deps : list Z) : res (list Z) :=
  if bool_decide (seqnr ∈ deps) then Ok deps else
  c_assert (bool_decide (length deps < MAXIMUM_NUMBER_OF_DEPENDENCIES)%nat);?
  Ok (deps ++ [seqnr]).

(** * RegisterDependencies *)
Section Register.
Context (last_reg : Z).

(** An access to [producers[280]]. *)
Definition reg_index (r : Z) (msg : string) : res nat :=
  log_assert (r <? last_reg) msg;?
  if r <? 0 then Err ErrUndefined else Ok (Z.to_nat r).
Fixpoint read_sources (l : list Z) (lowest : Z) (producers deps : list Z) : res (list Z * list Z) :=
  match l with
  | [] => Ok (producers, deps)
  | r :: l =>
      let? i := reg_index r "Source register is invalid" in
      let? p := rd producers i in
      if p =? INVALID_SEQNR then read_sources l lowest producers deps
      else if lowest <=? p then
        let? deps := addDependency p deps in read_sources l lowest producers deps
      else
        let? producers := wr producers i INVALID_SEQNR in read_sources l lowest producers deps
  end.
Fixpoint write_destinations (l : list Z) (seqnr : Z) (producers : list Z) : res (list Z) :=
  match l with
  | [] => Ok producers
  | r :: l =>
      let? i := reg_index r "Destination register is invalid" in
      let? producers := wr producers i seqnr in
      write_destinations l seqnr producers
  end.
Definition reg_setDependencies (u : MicroOp) (lowest : Z) (deps producers : list Z) : res (list Z * list Z) :=
  let? r := read_sources (sourceRegisters u) lowest producers deps in
  let? producers := write_destinations (destinationRegisters u) (sequenceNumber u) r.1 in
  Ok (r.2, producers).
(** [None] is [DL_REG_INVALID]. *)
Definition peekProducer (reg : option Z) (lowest : Z) (producers : list Z) : res Z :=
  match reg with
  | None => Ok INVALID_SEQNR
  | Some r =>
      if r <? 0 then Err ErrUndefined else
      let? p := rd producers (Z.to_nat r) in
      Ok (if (p =? INVALID_SEQNR) || (p <? lowest) then INVALID_SEQNR else p)
  end.
(** The array has room for 280 registers, of which [clear] sets those of the
    decoder. *)
Definition reg_clear (producers : list Z) : res (list Z) :=
  if Z.of_nat (length producers) <? last_reg then Err ErrUndefined
  else Ok (replicate (Z.to_nat last_reg) INVALID_SEQNR ++ drop (Z.to_nat last_reg) producers).
End Register.

(** * MemoryDependencies *)
Record Producer : Type := mkProducer { seqnr : Z; address : Z }.
Record MemoryDependencies : Type := mkMemoryDependencies { producers : Queue.t Producer; membar : Z }.
Fixpoint clear_loop (fuel : nat) (q : Queue.t Producer) : res (Queue.t Producer) :=
  if empty q then Ok q else
  match fuel with
  | O => Err ErrFuel
  | S fuel => let? r := pop q in clear_loop fuel r.2
  end.
Definition mem_clear (d : MemoryDependencies) : res MemoryDependencies :=
  let? q := clear_loop (Z.to_nat (size (producers d))) (producers d) in
  Ok (mkMemoryDependencies q INVALID_SEQNR).
(** [init] and [m] are what the memory holds before the construction. *)
Definition MemoryDependencies_new (init : Producer) (m : Z) : res MemoryDependencies :=
  mem_clear (mkMemoryDependencies (Queue.new 1024 init) m).

(** The queue gets shorter in each iteration. *)
Fixpoint clean_loop (fuel : nat) (lowest : Z) (q : Queue.t Producer) : res (Queue.t Producer) :=
  if empty q then Ok q else
  let? f := front q in
  if seqnr f <? lowest then
    match fuel with
    | O => Err ErrFuel
    | S fuel => let? r := pop q in clean_loop fuel lowest r.2
    end
  else Ok q.
Definition clean (lowest : Z) (q : Queue.t Producer) : res (Queue.t Producer) :=
  clean_loop (Z.to_nat (size q)) lowest q.
Fixpoint find_loop (n : nat) (a : Z) (q : Queue.t Producer) : res Z :=
  match n with
  | O => Ok INVALID_SEQNR
  | S n =>
      let? p := at_ (Z.of_nat n) q in
      if address p =? a then Ok (seqnr p) else find_loop n a q
  end.
Definition find (a : Z) (q : Queue.t Producer) : res Z := find_loop (Z.to_nat (size q)) a q.

Definition add_membar (lowest membar : Z) (deps : list Z) : res (list Z) :=
  if negb (membar =? INVALID_SEQNR) && (lowest <? membar) then addDependency membar deps else Ok deps.
Definition mem_setDependencies (u : MicroOp) (lowest : Z) (deps : list Z) (d : MemoryDependencies) :
    res (list Z * MemoryDependencies) :=
  let? q := clean lowest (producers d) in
  if isLoad u then
    let? p := find (phys u) q in
    let? deps := (if p =? INVALID_SEQNR then Ok deps else addDependency p deps) in
    let? deps := add_membar lowest (membar d) deps in
    Ok (deps, mkMemoryDependencies q (membar d))
  else if isStore u then
    let? q := push (mkProducer (sequenceNumber u) (phys u)) q in
    let? deps := add_membar lowest (membar d) deps in
    Ok (deps, mkMemoryDependencies q (membar d))
  else if m_membar u then
    let? deps := add_membar lowest (membar d) deps in
    Ok (deps, mkMemoryDependencies q (sequenceNumber u))
  else Ok (deps, mkMemoryDependencies q (membar d)).

(** * The two trackers of a core *)
Record Trackers : Type := mkTrackers { t_regs : list Z; t_mem : MemoryDependencies }.
(** The dependencies of an operation that enters the reorder buffer, whose
    oldest operation is [lowest]. *)
Definition dispatch (last_reg : Z) (u : MicroOp) (lowest : Z) : st Trackers (list Z) := λ t,
  let? r := reg_setDependencies last_reg u lowest [] (t_regs t) in
  let? m := mem_setDependencies u lowest r.1 (t_mem t) in
  Ok (m.1, mkTrackers r.2 m.2).
Fixpoint dispatch_all (last_reg : Z) (l : list (MicroOp * Z)) (t : Trackers) : res (list (list Z) * Trackers) :=
  match l with
  | [] => Ok ([], t)
  | (u, lowest) :: l =>
      let? r := dispatch last_reg u lowest t in
      let? rs := dispatch_all last_reg l r.2 in
      Ok (r.1 :: rs.1, rs.2)
  end.

(** * Growing the dependencies *)
(** [deps'] is [deps] and what satisfies [P], in at most [n] places more. *)
Record grows (n : nat) (P : Z → Prop) (deps deps' : list Z) : Prop := {
  gr_nodup : NoDup deps → NoDup deps';
  gr_length : (length deps' ≤ length deps + n)%nat;
  gr_elem d : d ∈ deps' ↔ d ∈ deps ∨ P d
}.
Lemma grows_trans n m P Q l1 l2 l3 :
  grows n P l1 l2 → grows m Q l2 l3 → grows (n + m) (λ d, P d ∨ Q d) l1 l3.
Proof. intros [H1 H2 H3] [H4 H5 H6]. constructor; [auto|lia|]. intros d. rewrite H6, H3. tauto. Qed.
Lemma grows_iff n P Q l1 l2 : (∀ d, P d ↔ Q d) → grows n P l1 l2 → grows n Q l1 l2.
Proof. intros H [H1 H2 H3]. constructor; [done..|]. intros d. by rewrite H3, H. Qed.
Lemma grows_nothing n P l : (∀ d, ¬ P d) → grows n P l l.
Proof. intros H. constructor; [done|lia|]. intros d. specialize (H d). tauto. Qed.
Lemma addDependency_grows n s deps :
  (length deps < MAXIMUM_NUMBER_OF_DEPENDENCIES)%nat →
  ∃ deps', addDependency s deps = Ok deps' ∧ grows (S n) (λ d, d = s) deps deps'.
Proof.
  intros Hl. unfold addDependency. case_bool_decide as Hs.
  - exists deps. split; [done|]. constructor; [done|lia|]. intros d. split; [tauto|]. intros [?| ->]; done.
  - rewrite bool_decide_true by done. cbn. eexists. split; [done|]. constructor.
    + intros Hn. apply NoDup_app. split; [done|]. split; [|apply NoDup_singleton].
      intros x Hx ->%list_elem_of_singleton. done.
    + rewrite length_app. simpl. lia.
    + intros d. rewrite elem_of_app, list_elem_of_singleton. tauto.
Qed.

(** * The history of the operations *)
Definition last_of (P : MicroOp → bool) (h : list MicroOp) : option Z := sequenceNumber <$> last (filter P h).
Definition writes (r : Z) (u : MicroOp) : bool := bool_decide (r ∈ destinationRegisters u).
Definition stores_to (a : Z) (u : MicroOp) : bool := isStore u && (phys u =? a).
Definition is_fence (u : MicroOp) : bool := negb (isLoad u) && negb (isStore u) && m_membar u.
Definition ordered_by_fences (u : MicroOp) : bool := isLoad u || isStore u || m_membar u.

(** What an operation has to wait for, of the operations [h] before it. *)
Definition depends (h : list MicroOp) (u : MicroOp) (lowest d : Z) : Prop :=
  (∃ r, r ∈ sourceRegisters u ∧ last_of (writes r) h = Some d ∧ lowest ≤ d) ∨
  (isLoad u = true ∧ last_of (stores_to (phys u)) h = Some d ∧ lowest ≤ d) ∨
  (ordered_by_fences u = true ∧ last_of is_fence h = Some d ∧ lowest < d).

Lemma last_of_snoc P h u : last_of P (h ++ [u]) = if P u then Some (sequenceNumber u) else last_of P h.
Proof.
  unfold last_of. rewrite filter_app, filter_cons, filter_nil. destruct (P u); simpl.
  - by rewrite last_snoc.
  - by rewrite app_nil_r.
Qed.
Lemma last_of_elem P h d : last_of P h = Some d → ∃ u, u ∈ h ∧ sequenceNumber u = d.
Proof.
  unfold last_of. intros (u & Hu & ->)%fmap_Some_1. exists u. split; [|done].
  apply last_Some_elem_of, list_elem_of_filter in Hu. tauto.
Qed.

(** * The registers *)
Section Registers.
Context (last_reg : Z) (Hlast : last_reg ≤ 280).

Definition regs_of (h : list MicroOp) (low : Z) (p : list Z) : Prop :=
  length p = 280%nat ∧
  ∀ r, 0 ≤ r < last_reg → ∃ x, p !! Z.to_nat r = Some x ∧
    (x ≠ INVALID_SEQNR ∧ last_of (writes r) h = Some x ∨
     x = INVALID_SEQNR ∧ ∀ d, last_of (writes r) h = Some d → d < low).
Definition valid_reg (r : Z) : Prop := 0 ≤ r < last_reg.

Lemma regs_of_raise h low low' p : low ≤ low' → regs_of h low p → regs_of h low' p.
Proof.
  intros Hl [Hn Hp]. split; [done|]. intros r Hr. destruct (Hp r Hr) as (x & Hx & [H|[He H]]); exists x; [by auto|].
  split; [done|]. right. split; [done|]. intros d Hd. specialize (H d Hd). lia.
Qed.
Lemma reg_index_Ok r msg : valid_reg r → reg_index last_reg r msg = Ok (Z.to_nat r).
Proof.
  intros [H0 H1]. unfold reg_index. rewrite (proj2 (Z.ltb_lt _ _)) by done. cbn [log_assert res_bind].
  by rewrite (proj2 (Z.ltb_ge _ _)) by done.
Qed.
(** An entry that is too old is forgotten. *)
Lemma regs_of_forget h low p r x :
  valid_reg r → x < low → last_of (writes r) h = Some x → regs_of h low p →
  regs_of h low (<[Z.to_nat r := INVALID_SEQNR]> p).
Proof.
  intros Hr Hx Hw [Hn Hp]. split; [by rewrite length_insert|]. intros r' Hr'. destruct (decide (r' = r)) as [->|Hne].
  - exists INVALID_SEQNR. rewrite list_lookup_insert_eq by (unfold valid_reg in *; lia). split; [done|]. right.
    split; [done|]. intros d Hd. congruence.
  - destruct (Hp r' Hr') as (y & Hy & H). exists y. split; [|done]. rewrite list_lookup_insert_ne; [done|].
    unfold valid_reg in *. lia.
Qed.
Lemma read_sources_grows h low l p deps :
  Forall valid_reg l → regs_of h low p → (length deps + length l ≤ MAXIMUM_NUMBER_OF_DEPENDENCIES)%nat →
  ∃ p' deps', read_sources last_reg l low p deps = Ok (p', deps') ∧ regs_of h low p' ∧
    grows (length l) (λ d, ∃ r, r ∈ l ∧ last_of (writes r) h = Some d ∧ low ≤ d) deps deps'.
Proof.
  intros Hl. revert p deps. induction Hl as [|r l Hr Hl IH]; intros p deps Hp Hlen; cbn [read_sources length] in *.
  { exists p, deps. split; [done|]. split; [done|]. apply grows_nothing. intros d (r & Hr & _). by apply elem_of_nil in Hr. }
  rewrite (reg_index_Ok r _ Hr). cbn [res_bind]. destruct Hp as [Hn Hp]. destruct (Hp r Hr) as (x & Hx & Hcase).
  rewrite (proj2 (rd_Ok _ _ _) Hx). cbn [res_bind].
  set (P := λ d, last_of (writes r) h = Some d ∧ low ≤ d).
  assert (Hstep : ∀ p1 deps1, regs_of h low p1 → grows 1 P deps deps1 →
    ∃ p' deps', read_sources last_reg l low p1 deps1 = Ok (p', deps') ∧ regs_of h low p' ∧
    grows (S (length l)) (λ d, ∃ r', r' ∈ r :: l ∧ last_of (writes r') h = Some d ∧ low ≤ d) deps deps').
  { intros p1 deps1 Hp1 Hg. destruct (IH p1 deps1 Hp1) as (p' & deps' & He & Hp' & Hg').
    { pose proof (gr_length _ _ _ _ Hg). lia. }
    exists p', deps'. split; [done|]. split; [done|]. eapply grows_iff; [|exact (grows_trans _ _ _ _ _ _ _ Hg Hg')].
    intros d. unfold P. setoid_rewrite elem_of_cons. split.
    - intros [H|(r' & H1 & H2)]; [exists r|exists r']; tauto.
    - intros (r' & [->|Hin] & H); [by left|right; by exists r']. }
  destruct Hcase as [[Hx1 Hx2]|[-> Hold]].
  - rewrite (proj2 (Z.eqb_neq _ _) Hx1). destruct (Z.leb_spec low x) as [Hle|Hgt].
    + destruct (addDependency_grows 0 x deps) as (deps1 & -> & Hg); [lia|]. cbn [res_bind].
      apply Hstep; [by split|]. eapply grows_iff; [|exact Hg]. intros d. unfold P. rewrite Hx2. split; [by intros ->|].
      intros [[= ->] _]. done.
    + rewrite wr_lt by (unfold valid_reg in *; lia). cbn [res_bind].
      apply Hstep; [by apply (regs_of_forget h low p r x)|]. apply grows_nothing. unfold P. rewrite Hx2. intros d [[= ->] Hd]. lia.
  - rewrite Z.eqb_refl. apply Hstep; [by split|]. apply grows_nothing. intros d [H1 H2]. specialize (Hold d H1). lia.
Qed.
Lemma write_destinations_Ok l s p :
  Forall valid_reg l → length p = 280%nat →
  ∃ p', write_destinations last_reg l s p = Ok p' ∧ length p' = 280%nat ∧
    ∀ r, valid_reg r → p' !! Z.to_nat r = if bool_decide (r ∈ l) then Some s else p !! Z.to_nat r.
Proof.
  intros Hl. revert p. induction Hl as [|r l Hr Hl IH]; intros p Hn; cbn [write_destinations]; [by exists p|].
  rewrite (reg_index_Ok r _ Hr). cbn [res_bind]. rewrite wr_lt by (unfold valid_reg in *; lia). cbn [res_bind].
  destruct (IH (<[Z.to_nat r := s]> p)) as (p' & Heq & Hn' & Hp'); [by rewrite length_insert|].
  exists p'. split; [done|]. split; [done|]. intros r' Hr'. rewrite Hp' by done. destruct (decide (r' = r)) as [->|Hne].
  - rewrite (bool_decide_true (r ∈ r :: l)) by (by left). case_bool_decide; [done|].
    apply list_lookup_insert_eq. unfold valid_reg in *. lia.
  - rewrite list_lookup_insert_ne by (unfold valid_reg in *; lia). repeat case_bool_decide; set_solver.
Qed.
Lemma reg_setDependencies_spec h low u p deps :
  Forall valid_reg (sourceRegisters u) → Forall valid_reg (destinationRegisters u) →
  sequenceNumber u < INVALID_SEQNR → regs_of h low p →
  (length deps + length (sourceRegisters u) ≤ MAXIMUM_NUMBER_OF_DEPENDENCIES)%nat →
  ∃ p' deps', reg_setDependencies last_reg u low deps p = Ok (deps', p') ∧ regs_of (h ++ [u]) low p' ∧
    grows (length (sourceRegisters u)) (λ d, ∃ r, r ∈ sourceRegisters u ∧ last_of (writes r) h = Some d ∧ low ≤ d) deps deps'.
Proof.
  intros Hs Hd Hseq Hp Hlen. unfold reg_setDependencies.
  destruct (read_sources_grows h low _ p deps Hs Hp Hlen) as (p1 & deps1 & -> & [Hn1 Hp1] & Hg). cbn [res_bind fst snd].
  destruct (write_destinations_Ok _ (sequenceNumber u) p1 Hd Hn1) as (p2 & -> & Hn2 & Hp2). cbn [res_bind].
  exists p2, deps1. split; [done|]. split; [|done]. split; [done|]. intros r Hr. rewrite Hp2 by done.
  rewrite last_of_snoc. unfold writes at 1 3. case_bool_decide as Hin; [|by apply Hp1].
  exists (sequenceNumber u). split; [done|]. left. split; [lia|done].
Qed.
(** The producer of an address register, for a store. *)
Lemma peekProducer_spec h low p r :
  valid_reg r → regs_of h low p → (∀ d, last_of (writes r) h = Some d → d < INVALID_SEQNR) →
  ∀ low', low ≤ low' → peekProducer (Some r) low' p =
    Ok (match last_of (writes r) h with Some d => if low' <=? d then d else INVALID_SEQNR | None => INVALID_SEQNR end).
Proof.
  intros Hr [Hn Hp] Hlt low' Hle. destruct (Hp r Hr) as (x & Hx & Hcase). cbn [peekProducer].
  rewrite (proj2 (Z.ltb_ge _ _)) by (unfold valid_reg in *; lia). rewrite (proj2 (rd_Ok _ _ _) Hx). cbn [res_bind].
  destruct Hcase as [[Hne ->]|[-> Hold]].
  - rewrite (proj2 (Z.eqb_neq _ _) Hne). cbn [orb]. destruct (Z.ltb_spec x low'), (Z.leb_spec low' x); (done || lia).
  - rewrite Z.eqb_refl. cbn [orb]. destruct (last_of (writes r) h) as [d|] eqn:Hd; [|done].
    specialize (Hold d eq_refl). by rewrite (proj2 (Z.leb_gt _ _)) by lia.
Qed.
Lemma reg_clear_spec p : 0 ≤ last_reg → length p = 280%nat → ∃ p', reg_clear last_reg p = Ok p' ∧ regs_of [] 0 p'.
Proof.
  intros H0 Hn. unfold reg_clear. rewrite (proj2 (Z.ltb_ge _ _)) by lia. eexists. split; [done|]. split.
  - rewrite length_app, length_replicate, length_drop. lia.
  - intros r Hr. exists INVALID_SEQNR. rewrite lookup_app_l by (rewrite length_replicate; lia).
    rewrite lookup_replicate. split; [split; [done|lia]|]. right. split; [done|]. intros d [=].
Qed.
End Registers.

(** * The stores *)
Definition sorted_ops (h : list MicroOp) : Prop := StronglySorted Z.lt (sequenceNumber <$> h).
Definition store_entry (u : MicroOp) : Producer := mkProducer (sequenceNumber u) (phys u).
(** The stores that are not older than [low]. *)
Definition live (low : Z) (h : list MicroOp) : list Producer :=
  store_entry <$> filter (λ u, isStore u && (low <=? sequenceNumber u)) h.

Lemma live_snoc low h u :
  live low (h ++ [u]) = live low h ++ (if isStore u && (low <=? sequenceNumber u) then [store_entry u] else []).
Proof.
  unfold live. rewrite filter_app, fmap_app, filter_cons, filter_nil. destruct (isStore u && _); done.
Qed.
Lemma sorted_snoc h u : sorted_ops h → (∀ v, v ∈ h → sequenceNumber v < sequenceNumber u) → sorted_ops (h ++ [u]).
Proof.
  unfold sorted_ops. rewrite fmap_app. induction h as [|v h IH]; intros Hs Hu; simpl in *; [repeat constructor|].
  inversion Hs as [|? ? Hs' Hv]; subst. constructor; [apply IH; [done|]; intros w Hw; apply Hu; by right|].
  apply Forall_app. split; [done|]. repeat constructor. apply Hu. by left.
Qed.
Lemma sorted_filter (P : MicroOp → bool) h : sorted_ops h → sorted_ops (filter P h).
Proof.
  unfold sorted_ops. induction h as [|v h IH]; intros Hs; [done|]. simpl in Hs. inversion Hs as [|? ? Hs' Hv]; subst.
  rewrite filter_cons. destruct (P v); simpl; [|by apply IH]. constructor; [by apply IH|].
  rewrite Forall_forall in *. intros x (w & -> & Hw)%list_elem_of_fmap_1. apply Hv. apply list_elem_of_fmap_2.
  apply list_elem_of_filter in Hw. tauto.
Qed.
Lemma live_sorted low h : sorted_ops h → StronglySorted Z.lt (seqnr <$> live low h).
Proof. intros Hs. unfold live. rewrite <- list_fmap_compose. exact (sorted_filter _ h Hs). Qed.
(** Different numbers from a range. *)
Lemma sorted_length l lo hi : StronglySorted Z.lt l → Forall (λ x, lo ≤ x < hi) l → lo ≤ hi → Z.of_nat (length l) ≤ hi - lo.
Proof.
  revert lo. induction l as [|x l IH]; intros lo Hs Hb Hle; [simpl; lia|].
  inversion Hs as [|? ? Hs' Hx]; subst. inversion Hb as [|? ? Hxb Hb']; subst. simpl.
  enough (Z.of_nat (length l) ≤ hi - (x + 1)) by lia. apply IH; [done| |lia].
  rewrite Forall_forall in *. intros y Hy. specialize (Hx y Hy). specialize (Hb' y Hy). lia.
Qed.
Lemma live_length low h hi :
  sorted_ops h → (∀ v, v ∈ h → sequenceNumber v < hi) → low ≤ hi → Z.of_nat (length (live low h)) ≤ hi - low.
Proof.
  intros Hs Hb Hle. rewrite <- (length_fmap seqnr). apply sorted_length; [by apply live_sorted| |done].
  apply Forall_forall. unfold live. rewrite <- list_fmap_compose. intros x (u & -> & Hu)%list_elem_of_fmap_1.
  apply list_elem_of_filter in Hu as [Hu Hin]. specialize (Hb u Hin). simpl.
  apply Is_true_true, andb_prop in Hu as [_ Hu]. apply Z.leb_le in Hu. lia.
Qed.
Lemma live_raise low low' h : low ≤ low' →
  live low' h = filter (λ p, low' <=? seqnr p) (live low h).
Proof.
  intros Hle. induction h as [|u h IH]; [done|]. unfold live in *. rewrite !filter_cons.
  destruct (isStore u); simpl; [|done]. destruct (Z.leb_spec low (sequenceNumber u)) as [H|H]; simpl.
  - rewrite filter_cons. simpl. destruct (low' <=? sequenceNumber u); simpl; [f_equal|]; exact IH.
  - rewrite (proj2 (Z.leb_gt _ _)) by lia. done.
Qed.

(** Only the front of the queue is looked at, which suffices as it is sorted. *)
Lemma filter_all (low : Z) l : Forall (λ p, low ≤ seqnr p) l → filter (λ p, low <=? seqnr p) l = l.
Proof.
  induction 1 as [|p l Hp Hl IH]; [done|]. rewrite filter_cons, (proj2 (Z.leb_le _ _) Hp). simpl. by rewrite IH.
Qed.
Lemma clean_loop_spec low l : ∀ fuel q,
  queue_of q l → StronglySorted Z.lt (seqnr <$> l) → (length l ≤ fuel)%nat →
  ∃ q', clean_loop fuel low q = Ok q' ∧ queue_of q' (filter (λ p, low <=? seqnr p) l) ∧ m_size q' = m_size q.
Proof.
  induction l as [|p l IH]; intros fuel q Hq Hs Hf.
  { exists q. split; [|done]. destruct fuel; cbn [clean_loop]; by rewrite (empty_spec q [] Hq). }
  destruct (front_spec q (p :: l) Hq p l eq_refl) as [Hfr He]. simpl in Hs. inversion Hs as [|? ? Hs' Hp]; subst.
  destruct fuel as [|fuel]; [simpl in Hf; lia|]. cbn [clean_loop]. unfold front. rewrite He. cbn [negb c_assert res_bind].
  rewrite Hfr. cbn [res_bind]. destruct (Z.ltb_spec (seqnr p) low) as [Hlt|Hge].
  - destruct (pop_spec q (p :: l) Hq p l eq_refl) as (q1 & -> & Hq1 & Hm). cbn [res_bind snd].
    rewrite filter_cons, (proj2 (Z.leb_gt _ _)) by done. simpl. rewrite <- Hm. apply IH; [done..|]. simpl in Hf. lia.
  - exists q. split; [done|]. rewrite filter_all; [done|]. constructor; [done|].
    rewrite Forall_fmap in Hp. eapply Forall_impl; [exact Hp|]. simpl. lia.
Qed.
Lemma clean_spec low low' h q :
  queue_of q (live low h) → sorted_ops h → low ≤ low' →
  ∃ q', clean low' q = Ok q' ∧ queue_of q' (live low' h) ∧ m_size q' = m_size q.
Proof.
  intros Hq Hs Hle. unfold clean. rewrite (size_spec q _ Hq), Nat2Z.id, (live_raise low low' h Hle).
  apply clean_loop_spec; [done|by apply live_sorted|done].
Qed.
Lemma clear_loop_spec l : ∀ fuel q, queue_of q l → (length l ≤ fuel)%nat →
  ∃ q', clear_loop fuel q = Ok q' ∧ queue_of q' [] ∧ m_size q' = m_size q.
Proof.
  induction l as [|p l IH]; intros fuel q Hq Hf.
  { exists q. split; [|done]. destruct fuel; cbn [clear_loop]; by rewrite (empty_spec q [] Hq). }
  destruct fuel as [|fuel]; [simpl in Hf; lia|]. cbn [clear_loop]. rewrite (proj2 (front_spec q (p :: l) Hq p l eq_refl)).
  destruct (pop_spec q (p :: l) Hq p l eq_refl) as (q1 & -> & Hq1 & Hm). cbn [res_bind snd].
  rewrite <- Hm. apply IH; [done|]. simpl in Hf. lia.
Qed.

(** The search from the tail finds the last entry. *)
Definition valid_or (low : Z) (x : option Z) : Z :=
  match x with Some d => if low <=? d then d else INVALID_SEQNR | None => INVALID_SEQNR end.
Definition last_entry (a : Z) (l : list Producer) : Z :=
  default INVALID_SEQNR (seqnr <$> last (filter (λ p, address p =? a) l)).
Lemma find_loop_spec a q l n : queue_of q l → (n ≤ length l)%nat → find_loop n a q = Ok (last_entry a (take n l)).
Proof.
  intros Hq. induction n as [|n IH]; intros Hn; [done|]. cbn [find_loop].
  destruct (lookup_lt_is_Some_2 l n) as [p Hp]; [lia|]. rewrite (at_spec q l Hq n p Hp). cbn [res_bind].
  unfold last_entry. rewrite (take_S_r _ _ _ Hp), filter_app, filter_cons, filter_nil. destruct (address p =? a); simpl.
  - by rewrite last_snoc.
  - rewrite app_nil_r. apply IH. lia.
Qed.
Lemma live_none low h u :
  sorted_ops (h ++ [u]) → sequenceNumber u < low → live low h = [].
Proof.
  intros Hs Hu. unfold live. enough (He : filter (λ v, isStore v && (low <=? sequenceNumber v)) h = []) by (by rewrite He).
  induction h as [|v h IH]; [done|]. simpl in Hs. inversion Hs as [|? ? Hs' Hv]; subst. rewrite filter_cons.
  rewrite fmap_app in Hv. apply Forall_app in Hv as [_ Hv]. apply Forall_cons in Hv as [Hv _].
  rewrite (proj2 (Z.leb_gt _ _)), andb_false_r by lia. by apply IH.
Qed.
Lemma last_entry_live low h a : sorted_ops h → last_entry a (live low h) = valid_or low (last_of (stores_to a) h).
Proof.
  induction h as [|u h IH] using rev_ind; intros Hs; [done|]. rewrite last_of_snoc, live_snoc. unfold last_entry.
  assert (Hh : sorted_ops h) by (unfold sorted_ops in *; rewrite fmap_app in Hs; by apply StronglySorted_app_1_l in Hs). specialize (IH Hh). unfold last_entry in IH.
  unfold stores_to at 1. destruct (isStore u); cbn [andb]; [|by rewrite app_nil_r].
  destruct (Z.leb_spec low (sequenceNumber u)) as [Hle|Hlt].
  - rewrite filter_app, filter_cons, filter_nil. simpl. destruct (phys u =? a); simpl.
    + by rewrite last_snoc, (proj2 (Z.leb_le _ _) Hle).
    + by rewrite app_nil_r.
  - rewrite (live_none low h u) in * by done. simpl in *. destruct (phys u =? a); [|done].
    simpl. by rewrite (proj2 (Z.leb_gt _ _) Hlt).
Qed.

(** * Loads, stores and fences *)
Record mem_of (h : list MicroOp) (low : Z) (d : MemoryDependencies) : Prop := {
  mo_stores : queue_of (producers d) (live low h);
  mo_size : m_size (producers d) = 1025;
  mo_membar : membar d = default INVALID_SEQNR (last_of is_fence h)
}.
(** The operation [u] comes after those of [h]. *)
Record follows (h : list MicroOp) (u : MicroOp) : Prop := {
  fo_sorted : sorted_ops h;
  fo_after v : v ∈ h → sequenceNumber v < sequenceNumber u;
  fo_valid : sequenceNumber u < INVALID_SEQNR
}.
Lemma last_of_valid P h u d : follows h u → last_of P h = Some d → d < sequenceNumber u.
Proof. intros [_ H _] (v & Hv & <-)%last_of_elem. by apply H. Qed.

Lemma add_membar_grows low h u deps :
  follows h u → (length deps < MAXIMUM_NUMBER_OF_DEPENDENCIES)%nat →
  ∃ deps', add_membar low (default INVALID_SEQNR (last_of is_fence h)) deps = Ok deps' ∧
    grows 1 (λ d, last_of is_fence h = Some d ∧ low < d) deps deps'.
Proof.
  intros Hf Hl. unfold add_membar. destruct (last_of is_fence h) as [x|] eqn:Hx; simpl.
  - pose proof (last_of_valid _ _ _ _ Hf Hx). pose proof (fo_valid _ _ Hf). rewrite (proj2 (Z.eqb_neq _ _)) by lia. cbn [negb andb].
    destruct (Z.ltb_spec low x) as [Hlt|Hge].
    + destruct (addDependency_grows 0 x deps Hl) as (deps' & -> & Hg). exists deps'. split; [done|].
      eapply grows_iff; [|exact Hg]. intros d. split; [by intros ->|]. intros [[= ->] _]. done.
    + exists deps. split; [done|]. apply grows_nothing. intros d [[= ->] ?]. lia.
  - exists deps. split; [done|]. apply grows_nothing. by intros d [? _].
Qed.
Lemma add_producer_grows low x deps :
  (∀ d, x = Some d → d < INVALID_SEQNR) → (length deps < MAXIMUM_NUMBER_OF_DEPENDENCIES)%nat →
  ∃ deps', (if valid_or low x =? INVALID_SEQNR then Ok deps else addDependency (valid_or low x) deps) = Ok deps' ∧
    grows 1 (λ d, x = Some d ∧ low ≤ d) deps deps'.
Proof.
  intros Hx Hl. destruct x as [x|]; cbn [valid_or].
  - specialize (Hx x eq_refl). destruct (Z.leb_spec low x) as [Hle|Hlt].
    + rewrite (proj2 (Z.eqb_neq _ _)) by lia. destruct (addDependency_grows 0 x deps Hl) as (deps' & -> & Hg).
      exists deps'. split; [done|]. eapply grows_iff; [|exact Hg]. intros d. split; [by intros ->|]. intros [[= ->] _]. done.
    + rewrite Z.eqb_refl. exists deps. split; [done|]. apply grows_nothing. intros d [[= ->] ?]. lia.
  - rewrite Z.eqb_refl. exists deps. split; [done|]. apply grows_nothing. by intros d [? _].
Qed.
Lemma mem_of_snoc h low u q m :
  queue_of q (live low (h ++ [u])) → m_size q = 1025 →
  m = (if is_fence u then sequenceNumber u else default INVALID_SEQNR (last_of is_fence h)) →
  mem_of (h ++ [u]) low (mkMemoryDependencies q m).
Proof. intros H1 H2 ->. constructor; [done..|]. simpl. rewrite last_of_snoc. by destruct (is_fence u). Qed.
Definition mem_depends (h : list MicroOp) (u : MicroOp) (low d : Z) : Prop :=
  (isLoad u = true ∧ last_of (stores_to (phys u)) h = Some d ∧ low ≤ d) ∨
  (ordered_by_fences u = true ∧ last_of is_fence h = Some d ∧ low < d).
(** How many dependencies the memory tracker can add to an operation. *)
Definition mem_room (u : MicroOp) : nat :=
  if isLoad u then 2 else if isStore u || m_membar u then 1 else 0.
Lemma mem_setDependencies_spec h low low' u deps d :
  mem_of h low d → follows h u → low ≤ low' ≤ sequenceNumber u → sequenceNumber u < low' + 1024 →
  (length deps + mem_room u ≤ MAXIMUM_NUMBER_OF_DEPENDENCIES)%nat →
  ∃ deps' d', mem_setDependencies u low' deps d = Ok (deps', d') ∧ mem_of (h ++ [u]) low' d' ∧
    grows 2 (mem_depends h u low') deps deps'.
Proof.
  intros [Hq Hm Hb] Hf [Hle1 Hle2] Hw Hlen. unfold mem_setDependencies. rewrite Hb.
  destruct (clean_spec low low' h _ Hq (fo_sorted _ _ Hf) Hle1) as (q & -> & Hq1 & Hm1). rewrite Hm in Hm1. cbn [res_bind].
  pose proof (live_snoc low' h u) as Hsn. unfold mem_depends, ordered_by_fences.
  assert (Hsame : isStore u = false → queue_of q (live low' (h ++ [u]))) by (intros Hst; by rewrite Hsn, Hst, app_nil_r).
  destruct (isLoad u) eqn:Hld; cbn [orb].
  - unfold mem_room in Hlen. rewrite Hld in Hlen.
    assert (Hst : isStore u = false) by (unfold isLoad, isStore in *; by destruct (uop_type u)).
    unfold find. rewrite (size_spec q _ Hq1), Nat2Z.id, (find_loop_spec _ q _ _ Hq1 (le_n _)), firstn_all. cbn [res_bind].
    rewrite last_entry_live by apply Hf.
    destruct (add_producer_grows low' (last_of (stores_to (phys u)) h) deps) as (deps2 & -> & Hg2);
      [intros x Hx; pose proof (last_of_valid _ _ _ _ Hf Hx); pose proof (fo_valid _ _ Hf); lia|lia|]. cbn [res_bind].
    destruct (add_membar_grows low' h u deps2 Hf) as (deps3 & -> & Hg3); [pose proof (gr_length _ _ _ _ Hg2); lia|].
    do 2 eexists. split; [done|]. split; [apply mem_of_snoc; [auto|done|]; unfold is_fence; by rewrite Hld|].
    eapply grows_iff; [|exact (grows_trans _ _ _ _ _ _ _ Hg2 Hg3)]. intros x. tauto.
  - assert (Hadd1 : (length deps < MAXIMUM_NUMBER_OF_DEPENDENCIES)%nat → ∃ deps1,
      add_membar low' (default INVALID_SEQNR (last_of is_fence h)) deps = Ok deps1 ∧ grows 2 (λ x, (false = true ∧ last_of (stores_to (phys u)) h = Some x ∧ low' ≤ x) ∨
      (true = true ∧ last_of is_fence h = Some x ∧ low' < x)) deps deps1).
    { intros Hl. destruct (add_membar_grows low' h u deps Hf Hl) as (deps1 & Hadd & [G1 G2 G3]). exists deps1.
      split; [done|]. constructor; [done|lia|]. intros x. rewrite G3. naive_solver. }
    unfold mem_room in Hlen. rewrite Hld in Hlen. destruct (isStore u) eqn:Hst; cbn [orb] in Hlen |- *.
    + destruct Hadd1 as (deps1 & Hadd & Hg); [lia|]. destruct (push_spec q _ Hq1 (store_entry u)) as (q2 & Hp & Hq2 & Hm2).
      { pose proof (live_length low' h (sequenceNumber u) (fo_sorted _ _ Hf) (fo_after _ _ Hf) Hle2). lia. }
      change (mkProducer (sequenceNumber u) (phys u)) with (store_entry u). rewrite Hp, Hadd. cbn [res_bind].
      do 2 eexists. split; [done|]. split; [|done]. apply mem_of_snoc; [|lia|unfold is_fence; by rewrite Hld, Hst].
      rewrite Hsn, (proj2 (Z.leb_le _ _) Hle2). exact Hq2.
    + destruct (m_membar u) eqn:Hmb; [destruct Hadd1 as (deps1 & Hadd & Hg); [lia|]; rewrite Hadd; cbn [res_bind]|]; do 2 eexists; (split; [done|]); (split;
        [apply mem_of_snoc; [auto|done|unfold is_fence; by rewrite Hld, Hst, Hmb]|]); [done|].
      apply grows_nothing. intros x. naive_solver.
Qed.

(** * The stream of operations *)
Section Stream.
Context (last_reg : Z) (Hlast : 0 ≤ last_reg ≤ 280).

Record trackers_of (h : list MicroOp) (low : Z) (t : Trackers) : Prop := {
  to_regs : regs_of last_reg h low (t_regs t);
  to_mem : mem_of h low (t_mem t)
}.
(** The operation can be looked at: its registers exist, its sources and what the
    memory tracker can add fit into its table of fourteen dependencies, and it is
    less than 1024 operations from the oldest one. *)
Record ok_op (low : Z) (u : MicroOp) (lowest : Z) : Prop := {
  oo_sources : Forall (valid_reg last_reg) (sourceRegisters u);
  oo_dests : Forall (valid_reg last_reg) (destinationRegisters u);
  oo_room : (length (sourceRegisters u) + mem_room u ≤ MAXIMUM_NUMBER_OF_DEPENDENCIES)%nat;
  oo_window : low ≤ lowest ≤ sequenceNumber u ∧ sequenceNumber u < lowest + 1024
}.
Lemma dispatch_spec h low t u lowest :
  trackers_of h low t → follows h u → ok_op low u lowest →
  ∃ deps t', dispatch last_reg u lowest t = Ok (deps, t') ∧ trackers_of (h ++ [u]) lowest t' ∧
    NoDup deps ∧ ∀ d, d ∈ deps ↔ depends h u lowest d.
Proof.
  intros [Hr Hm] Hf [Hs Hd Hn [Hw1 Hw2]]. unfold dispatch. apply (regs_of_raise last_reg h low lowest) in Hr; [|lia].
  destruct (reg_setDependencies_spec last_reg (proj2 Hlast) h lowest u (t_regs t) [] Hs Hd (fo_valid _ _ Hf) Hr)
    as (p & deps & -> & Hp & Hg); [simpl; lia|]. cbn [res_bind fst snd].
  destruct (mem_setDependencies_spec h low lowest u deps (t_mem t) Hm Hf Hw1 Hw2) as (deps2 & d2 & -> & Hm2 & Hg2).
  { pose proof (gr_length _ _ _ _ Hg) as Hgl. cbn [length] in Hgl. lia. }
  cbn [res_bind fst snd]. do 2 eexists. split; [done|]. split; [by constructor|].
  destruct (grows_trans _ _ _ _ _ _ _ Hg Hg2) as [G1 _ G3]. split; [apply G1, NoDup_nil_2|].
  intros d. rewrite G3. unfold depends, mem_depends. rewrite elem_of_nil. tauto.
Qed.
(** Increasing sequence numbers, and an oldest operation that only moves on. *)
Fixpoint ok_stream (prev low : Z) (l : list (MicroOp * Z)) : Prop :=
  match l with
  | [] => True
  | (u, lowest) :: l =>
      prev < sequenceNumber u < INVALID_SEQNR ∧ ok_op low u lowest ∧ ok_stream (sequenceNumber u) lowest l
  end.
Lemma dispatch_all_spec l : ∀ h prev low t,
  trackers_of h low t → sorted_ops h → (∀ v, v ∈ h → sequenceNumber v ≤ prev) → ok_stream prev low l →
  ∃ ds t', dispatch_all last_reg l t = Ok (ds, t') ∧
    ∀ i u lowest, l !! i = Some (u, lowest) → ∃ deps, ds !! i = Some deps ∧ NoDup deps ∧
      ∀ d, d ∈ deps ↔ depends (h ++ take i l.*1) u lowest d.
Proof.
  induction l as [|[u lowest] l IH]; intros h prev low t Ht Hs Hprev Hok; cbn [dispatch_all ok_stream] in *.
  { exists [], t. split; [done|]. intros i u lowest. by rewrite lookup_nil. }
  destruct Hok as ((Hlt & Hinv) & Hop & Hok).
  assert (Hf : follows h u) by (constructor; [done| |done]; intros v Hv; specialize (Hprev v Hv); lia).
  destruct (dispatch_spec h low t u lowest Ht Hf Hop) as (deps & t1 & -> & Ht1 & Hnd & Hdeps). cbn [res_bind fst snd].
  destruct (IH (h ++ [u]) (sequenceNumber u) lowest t1 Ht1) as (ds & t2 & -> & Hds); [by apply sorted_snoc, Hf| |done|].
  { intros v [Hv| ->%list_elem_of_singleton]%elem_of_app; [|done]. specialize (Hprev v Hv). lia. }
  cbn [res_bind fst snd]. do 2 eexists. split; [done|]. intros [|i] v lo Hi; simpl in Hi.
  - injection Hi as -> ->. exists deps. split; [done|]. split; [done|]. intros d. simpl. by rewrite app_nil_r.
  - destruct (Hds i v lo Hi) as (deps' & Hd' & Hnd' & He). exists deps'. split; [done|]. split; [done|].
    intros d. rewrite He. simpl. by rewrite <- app_assoc.
Qed.
End Stream.

(** The trackers of a new core; [regs], [init] and [m] are what the memory holds
    before the construction. *)
Definition new_trackers (last_reg : Z) (regs : list Z) (init : Producer) (m : Z) : res Trackers :=
  let? r := reg_clear last_reg regs in
  let? d := MemoryDependencies_new init m in
  Ok (mkTrackers r d).
Lemma new_trackers_spec last_reg regs init m :
  0 ≤ last_reg ≤ 280 → length regs = 280%nat →
  ∃ t, new_trackers last_reg regs init m = Ok t ∧ trackers_of last_reg [] 0 t.
Proof.
  intros [H0 H1] Hn. unfold new_trackers. destruct (reg_clear_spec last_reg H1 regs H0 Hn) as (r & -> & Hr). cbn [res_bind].
  unfold MemoryDependencies_new, mem_clear. cbn [producers].
  assert (Hq : queue_of (Queue.new 1024 init) []) by (apply new_queue; lia).
  destruct (clear_loop_spec [] (Z.to_nat (size (Queue.new 1024 init))) _ Hq ltac:(simpl; lia)) as (q & -> & Hq' & Hm).
  cbn [res_bind]. eexists. split; [done|]. constructor; [done|]. by constructor.
Qed.

(** C10: the dependencies of every micro-operation are exactly what it has to
    wait for. For a stream of operations with increasing sequence numbers that
    enter a window of at most 1024 operations, whose registers are valid and
    whose sources and memory dependencies fit into the table of fourteen (at
    most 12 sources for a load, 13 for a store or a fence), the trackers never
    fail, and the list they give an operation has no duplicates and holds just
    the last writer of each of its source registers, the last store to its
    address if it is a load, and the last fence if it is a memory operation or
    a fence, of those that have not left the window; a fence that is the
    oldest operation of the window is left out. *)
Theorem dependencies_are_exact (last_reg : Z) (regs : list Z) (init : Producer) (m : Z) (l : list (MicroOp * Z)) :
  0 ≤ last_reg ≤ 280 → length regs = 280%nat → ok_stream last_reg (-1) 0 l →
  ∃ t ds t', new_trackers last_reg regs init m = Ok t ∧ dispatch_all last_reg l t = Ok (ds, t') ∧
    ∀ i u lowest, l !! i = Some (u, lowest) → ∃ deps, ds !! i = Some deps ∧ NoDup deps ∧
      ∀ d, d ∈ deps ↔ depends (take i l.*1) u lowest d.
Proof.
  intros Hlast Hn Hok. destruct (new_trackers_spec last_reg regs init m Hlast Hn) as (t & Ht & Hinv).
  destruct (dispatch_all_spec last_reg Hlast l [] (-1) 0 t Hinv) as (ds & t' & Hd & H); [constructor| |done|].
  - intros v Hv. by apply elem_of_nil in Hv.
  - by exists t, ds, t'.
Qed.
(** A store to address 64, a fence, and a load of the same address that reads a
    register the store does not write. *)
Definition example_stream : list (MicroOp * Z) :=
  [(mkMicroOp UOP_STORE false [1] [] 0 64, 0); (mkMicroOp UOP_EXECUTE true [] [2] 1 0, 0);
   (mkMicroOp UOP_LOAD false [2] [1] 2 64, 0); (mkMicroOp UOP_LOAD false [1] [1] 3 64, 1)].
Lemma dependencies_are_exact_witness :
  ∃ t ds t', new_trackers 16 (replicate 280 7) (mkProducer 0 0) 0 = Ok t ∧ dispatch_all 16 example_stream t = Ok (ds, t') ∧
    ∀ i u lowest, example_stream !! i = Some (u, lowest) → ∃ deps, ds !! i = Some deps ∧ NoDup deps ∧
      ∀ d, d ∈ deps ↔ depends (take i example_stream.*1) u lowest d.
Proof.
  apply (dependencies_are_exact 16 (replicate 280 7) (mkProducer 0 0) 0 example_stream); [lia|reflexivity|].
  repeat split; repeat constructor; unfold INVALID_SEQNR; simpl; lia.
Defined.
(** The load does not wait for a fence that has not executed yet but is at the
    front of the window. *)
Lemma oldest_fence_is_ignored :
  (let? t := new_trackers 16 (replicate 280 7) (mkProducer 0 0) 0 in
   let? r := dispatch_all 16
     [(mkMicroOp UOP_EXECUTE true [] [] 5 0, 5); (mkMicroOp UOP_LOAD false [] [1] 6 64, 5)] t in Ok r.1) = Ok [[]; []].
Proof. vm_compute. reflexivity. Qed.
(** The table of dependencies is as long as that of the source registers, and has no
    room for the memory dependencies of a load with all of them: fourteen
    producers and a store leave no entry. *)
Lemma load_overflows_dependencies :
  (let? t := new_trackers 16 (replicate 280 7) (mkProducer 0 0) 0 in
   dispatch_all 16
     (((λ i, (mkMicroOp UOP_EXECUTE false [] [i] i 0, 0)) <$> seqZ 1 14) ++
      [(mkMicroOp UOP_STORE false [] [] 15 64, 0); (mkMicroOp UOP_LOAD false (seqZ 1 14) [] 16 64, 0)]) t) = Err ErrAssert.
Proof. vm_compute. reflexivity. Qed.
